(* ===== verification/_CoqProject ===== *)
-Q . S2P
Prelude.v
Ctype.v
ByteOrder.v
Codec.v
Mem.v
Circ.v
Crc32.v
Varint.v
Aead.v
Record.v
Framing.v
ReplayGuard.v
Ring.v
SendQueue.v
RecvBuf.v
StreamFrame.v
RpcMsg.v
PubSubMsg.v
FileMeta.v
FileChunk.v
Beacon.v
BeaconAck.v
Ticket.v
Extensions.v
HandshakeMsg.v
HandshakeState.v
KeySched.v
HandshakeEngine.v
Hex.v
Trace.v
Streams.v
Mux.v
Topic.v
TopicTrie.v
Broker.v
Stdio.v
AuditLog.v
Snapshot.v
KvStore.v
Rng.v
Id.v
TokenBucket.v
Timing.v
ChainTable.v
Lockout.v
DosGuard.v
Config.v
ResumeMap.v
FileTransfer.v
RpcServer.v
RpcClient.v
Session.v
EventLog.v
StateStore.v
Sanitize.v
Redact.v
Pow.v
ServerName.v
Negotiate.v
Alert.v
Endpoint.v
BeaconService.v
SnapshotManager.v
PubSubClient.v
Socket.v
AtomicFile.v
Demo.v
Double.v
StringUtil.v
CliArgs.v
Tracing.v
Monitoring.v
Metrics.v
Intrusion.v
AdminHttp.v
ThreadPool.v
EventLoop.v
Guards.v
Attacks.v
Process.v
