(* ===== verification/Prelude.v ===== *)
(** * Securelink: a verification development

    Securelink is a C and C++ library for encrypted, authenticated connections, with the
    services that run over them and the programs around it. This development translates its
    sources ([inc/] and [src/] of the repository) into executable Rocq definitions and proves
    that they do what the program relies on. A definition keeps the name of the function it
    translates, and the comment in front of it gives the file and the lines.

    ** The program and the files that model it

    Bytes and messages. Integers travel in big-endian order (ByteOrder.v, [byte_order.hpp]) or
    as variable-length integers (Varint.v, [sl_varint.c]). Every message with a fixed layout
    has a packer and an unpacker that distrusts its input; Codec.v states what such a pair
    promises as the classes [WireFormat] and [CanonicalFormat], with instances in
    StreamFrame.v, RpcMsg.v, PubSubMsg.v, FileMeta.v and ServerName.v. The other codecs are
    FileChunk.v, Beacon.v, BeaconAck.v, Ticket.v, Extensions.v, HandshakeMsg.v, Negotiate.v,
    Alert.v, Trace.v, Endpoint.v, Id.v and Hex.v, each for the [sl_*.c] files of that name.
    Crc32.v is the checksum, Mem.v the constant-time memory helpers, Ctype.v the functions of
    the C library that text handling uses.

    Records and buffers. Aead.v wraps the cipher and counts nonces; Record.v seals and opens
    the records of a connection ([sl_record.c]); Framing.v cuts the TCP stream into frames
    ([framing.hpp]); ReplayGuard.v is the anti-replay window ([replay_guard.hpp]); Ring.v,
    SendQueue.v and RecvBuf.v are the circular buffers below them, over the copies of Circ.v;
    Socket.v is the socket wrapper ([sl_socket.c]).

    Handshake and keys. HandshakeState.v is the order of messages, KeySched.v everything
    derived from a secret (HKDF, session keys, finished MACs, rekeying, exporter, transcript),
    and HandshakeEngine.v the driver that takes bytes from the peer and ends with keys.
    Session.v holds the state of a connection and the table of sessions with their tickets.

    Streams and services. Streams.v and Mux.v carry many streams over one session with flow
    control. Topic.v, TopicTrie.v, Broker.v and PubSubClient.v are publish/subscribe with its
    access rules. RpcServer.v and RpcClient.v are remote calls. ResumeMap.v and FileTransfer.v
    send files in chunks. BeaconService.v is the periodic sealed status message, its server
    and its registry.

    Storage. Stdio.v is the part of C stdio the storage modules use. AuditLog.v, Snapshot.v,
    SnapshotManager.v, KvStore.v, StateStore.v, EventLog.v (with the replay harness) and
    AtomicFile.v (with the identity file) are the files the program keeps.

    Defences. ChainTable.v is the chained hash table that Lockout.v, DosGuard.v and Config.v
    share. TokenBucket.v holds both rate limiters, Timing.v the backoff, deadlines, padding and
    key rotation, Rng.v the random generator, Pow.v the client puzzle, Sanitize.v and Redact.v
    the checks on input and the masking of output, Intrusion.v the threat scores, the anomaly
    detector and the monitor that combines them, Guards.v canaries, the pid file, fingerprints
    and memory that is wiped.

    Observation. Tracing.v holds spans, sampler, tracer and exporters; Monitoring.v the time
    series and the health reports; Metrics.v the counters; AdminHttp.v the server that
    publishes them. Double.v gives the IEEE numbers they compute with.

    Processes and programs. ThreadPool.v, EventLoop.v (with the listener), Process.v (errors,
    scope guards, logs, signals, daemons), StringUtil.v, CliArgs.v (with the beacon program),
    Demo.v (the demonstration server and client programs, to their exit), and Attacks.v (the packet mutator and the
    attack programs, each down to its exit status, run against the models above).

    ** How code becomes a definition

    A w-bit integer is a [Z] in its range, and [u8], [u16], [u32] and [u64] write the
    wrap-around out. A buffer is the list of its bytes. An access outside an object, like any
    other undefined behaviour or uncaught exception that is modelled, is the value [Fault] of
    the monad [M] below; a theorem that ends in [Ok] therefore also says that the code stays
    within its buffers. Error returns are values, as in the source. Loops over a range are
    [for_up] and [for_ret], with an invariant rule each. A class or a struct is a record, and
    an operation takes and returns it; a hash table is a finite map (or the list of chains,
    where the code writes its own), and the order in which a library container is walked is an
    argument.

    What the program does not decide is an argument of the definitions: readings of clocks,
    outcomes of allocations and of system calls, bytes from the peer, callbacks. Concurrency is
    the interleaving of atomic actions: ThreadPool.v, RpcClient.v, Metrics.v, Monitoring.v,
    Guards.v and Process.v split an operation where other threads, processes or signal
    handlers can come between.

    Libraries are parameters, with their documented behaviour as named laws: [Gcm] and
    [GcmLaws] (Aead.v, AES-256-GCM), [Hash] and [HashLaws] (KeySched.v, SHA-256 and HMAC),
    [Curve] (HandshakeEngine.v, P-256 and Ed25519; its laws are in Demo.v), [Aes] and [AesLaws]
    (Demo.v), [Rand] and [RandLaws] (Rng.v), [Libm] (Intrusion.v). Nothing else is assumed of
    cryptography: where collisions of a hash or forgeries matter, the theorem names them in its
    conclusion or as a hypothesis. The main theorems that assume something are
    followed by a witness that applies them to concrete data and a concrete instance.

    ** What the theorems show

    - Connections: a sealed record opens to what was sealed and nothing else opens
      ([record_seal_open_roundtrip], [record_open_authentic]); frames do not depend on how TCP
      cuts the stream; the replay window gives the verdicts of a set of numbers; a client that
      ends the handshake with keys has seen its server's signature and Finished check, over the
      transcript as the engine takes it, which includes the message checked and is not the
      documented one ([documented_signature_refused]); messages arrive in order; HKDF is the one
      of RFC 5869 for salts whose length is an [int].
    - Refinement: the broker, the subscription trie, the key-value store, the typed store, the
      time series and the replay window implement abstract maps, sets and lists on every
      sequence of calls. Where the matching of topics, the lockout windows and the admission caps
      depart from their documents, the theorems are about the documented meaning and name the
      case they exclude, and a lemma shows what the code does in it.
    - Services from end to end: multiplexed streams are FIFOs, beacons are accepted once and
      get through, files arrive as sent and nothing else is taken for them, calls resolve once,
      a publication reaches the handlers it should.
    - Storage: audit logs are tamper-evident, logs replay what was captured, stores recover
      their index, file replacement is atomic, and across a crash too when it is synced.
    - Defences: lockouts, admission caps, rate limits, the independence of peers, the UTF-8
      validator, one holder of a pid file; and the fuzzing program finds nothing but forgeries of
      the cipher.
    - Concurrency: the thread pool loses no task and runs none twice; it stops when no worker is
      falling asleep at that moment, and can hang otherwise, which is proved as well.
    - Text and numbers: the exported lines of a trace read back, the checksum is the bit-serial
      CRC-32C, metadata from the wire is safe to act on.

    Next to them each file proves what its operations do on every branch, the errors included.
    Some lemmas pin down behaviour that a comment or a document of the repository describes
    differently; their comments say so.

    ** Bounds and fuel

    Recursion that is not structural takes fuel, and running out is a [Fault]. The verifier of
    the audit log and the configuration loader get the length of the file, of which every round
    consumes a part. Opening a key-value store or an event log takes its fuel as an argument,
    because a crafted file can make the code seek backwards for ever ([open_never_returns]); the
    theorems on files that the program wrote say which fuel is enough. [read_loop] of AdminHttp.v has the 64 rounds of the source. Decimal printing
    has one unit of fuel per digit of the largest value of the type. Rejection sampling
    ([sl_rng_uniform], and the backoff, jitter and delays drawn with it) may not end; its
    theorems assume a draw that settles and a fuel beyond it. The percentiles of a time series were shown to index within the
    series by evaluating the floating-point expression for every length up to 4096, which is
    the bound of the lemma; larger series are not covered. The fuzzing theorem evaluates the
    generator over all of the program's 2000 rounds.

    ** Not modelled

    [trace_metrics] calls members that the metrics registry does not declare, and no build file
    compiles it: it has no meaning to give. [sl_posix_compat.h] only sets feature-test macros.
    Generating keys, ciphers, curves and hashes are OpenSSL. What programs print for people
    (usage texts, progress, the output of the attack programs) is left out; so is the release of
    memory, which has no effect on the values modelled. What a crash leaves is modelled for whole
    files (AtomicFile.v) and not for the logs and snapshots, where [fsync] is left out. That a compiler keeps a wipe, that a comparison takes
    the same time for all inputs, and memory orders weaker than sequential consistency are
    outside such a model. The unit tests are not part of the implementation. *)

From stdpp Require Export prelude list.
From Stdlib Require Export ZArith Lia.
Local Open Scope Z_scope.

(** ** Machine integers *)

Definition u8 (z : Z) : Z := z mod 256.
Definition u16 (z : Z) : Z := z mod 65536.
Definition u32 (z : Z) : Z := z mod 4294967296.
Definition u64 (z : Z) : Z := z mod 18446744073709551616.

#[global] Arguments u8 : simpl never.
#[global] Arguments u16 : simpl never.
#[global] Arguments u32 : simpl never.
#[global] Arguments u64 : simpl never.
#[global] Arguments Z.shiftl : simpl never.
#[global] Arguments Z.shiftr : simpl never.
#[global] Arguments Z.lor : simpl never.
#[global] Arguments Z.land : simpl never.
#[global] Arguments Z.lxor : simpl never.
#[global] Arguments Z.modulo : simpl never.
#[global] Arguments Z.div : simpl never.

Abbreviation is_u8 z := (0 <= z < 256).
Abbreviation is_u16 z := (0 <= z < 65536).
Abbreviation is_u32 z := (0 <= z < 4294967296).
Abbreviation is_u64 z := (0 <= z < 18446744073709551616).

Abbreviation UINT32_MAX := 4294967295.
Abbreviation UINT64_MAX := 18446744073709551615.
Abbreviation SIZE_MAX := 18446744073709551615.

(** Largest value of a C [int]: the return type of every packer. *)
Abbreviation INT_MAX := 2147483647.

Lemma u8_range z : is_u8 (u8 z).
Proof. apply Z.mod_pos_bound; lia. Qed.
Lemma u16_range z : is_u16 (u16 z).
Proof. apply Z.mod_pos_bound; lia. Qed.
Lemma u32_range z : is_u32 (u32 z).
Proof. apply Z.mod_pos_bound; lia. Qed.
Lemma u64_range z : is_u64 (u64 z).
Proof. apply Z.mod_pos_bound; lia. Qed.

Lemma u8_small z : is_u8 z -> u8 z = z.
Proof. apply Z.mod_small. Qed.
Lemma u16_small z : is_u16 z -> u16 z = z.
Proof. apply Z.mod_small. Qed.
Lemma u32_small z : is_u32 z -> u32 z = z.
Proof. apply Z.mod_small. Qed.
Lemma u64_small z : is_u64 z -> u64 z = z.
Proof. apply Z.mod_small. Qed.

Create HintDb wrap.
Create Rewrite HintDb wrap.
#[export] Hint Resolve u8_range u16_range u32_range u64_range : wrap.
#[export] Hint Rewrite u8_small u16_small u32_small u64_small using lia : wrap.

(** Unfold every wrap-around and finish with linear arithmetic over the
    quotients and remainders. *)
Ltac wrap_lia :=
  unfold u8, u16, u32, u64 in *; Z.div_mod_to_equations; lia.

(** Conversion of a wider integer to [int]. *)
Definition to_int (z : Z) : Z := u32 (z + 2147483648) - 2147483648.

Lemma to_int_small n : 0 <= n < 2147483648 -> to_int n = n.
Proof. intros. unfold to_int. wrap_lia. Qed.

(** A shift and an "or" of disjoint bit ranges is a sum. *)
Lemma lor_shiftl_add a b n :
  0 <= n -> 0 <= b < 2 ^ n -> Z.lor (a ≪ n) b = a * 2 ^ n + b.
Proof.
  intros Hn Hb.
  rewrite <- Z.shiftl_mul_pow2 by lia.
  assert (Hd : Z.land (a ≪ n) b = 0).
  { apply Z.bits_inj'; intros i Hi. rewrite Z.land_spec, Z.bits_0.
    destruct (decide (i < n)).
    - rewrite Z.shiftl_spec_low by lia. done.
    - rewrite <- (Z.mod_small b (2 ^ n)) by lia.
      rewrite Z.mod_pow2_bits_high by lia. apply andb_false_r. }
  rewrite Z.add_nocarry_lxor by done. symmetry. by apply Z.lxor_lor.
Qed.

(** Bitwise operations stay within the width of their operands. *)
Section BitRange.
Context (n : Z) (Hn : 0 <= n).

Lemma lor_range a b : 0 <= a < 2 ^ n -> 0 <= b < 2 ^ n -> 0 <= Z.lor a b < 2 ^ n.
Proof.
  intros Ha Hb. rewrite <- (Z.mod_small a (2 ^ n)), <- (Z.mod_small b (2 ^ n)) by lia.
  rewrite <- !Z.land_ones, <- Z.land_lor_distr_l, Z.land_ones by lia. apply Z.mod_pos_bound. lia.
Qed.

Lemma lxor_range a b : 0 <= a < 2 ^ n -> 0 <= b < 2 ^ n -> 0 <= Z.lxor a b < 2 ^ n.
Proof.
  intros Ha Hb. rewrite <- (Z.mod_small a (2 ^ n)), <- (Z.mod_small b (2 ^ n)) by lia.
  rewrite <- !Z.land_ones by lia.
  assert (E : Z.lxor (Z.land a (Z.ones n)) (Z.land b (Z.ones n)) = Z.land (Z.lxor a b) (Z.ones n)).
  { apply Z.bits_inj'. intros i Hi. rewrite Z.lxor_spec, !Z.land_spec, Z.lxor_spec.
    by destruct (Z.testbit a i), (Z.testbit b i), (Z.testbit (Z.ones n) i). }
  rewrite E, Z.land_ones by lia. apply Z.mod_pos_bound. lia.
Qed.
End BitRange.

Lemma lor_u8 a b : is_u8 a -> is_u8 b -> is_u8 (Z.lor a b).
Proof. apply (lor_range 8). lia. Qed.
Lemma lor_u64 a b : is_u64 a -> is_u64 b -> is_u64 (Z.lor a b).
Proof. apply (lor_range 64). lia. Qed.
Lemma lxor_u8 a b : is_u8 a -> is_u8 b -> is_u8 (Z.lxor a b).
Proof. apply (lxor_range 8). lia. Qed.
Lemma lxor_u32 a b : is_u32 a -> is_u32 b -> is_u32 (Z.lxor a b).
Proof. apply (lxor_range 32). lia. Qed.
Lemma lxor_u64 a b : is_u64 a -> is_u64 b -> is_u64 (Z.lxor a b).
Proof. apply (lxor_range 64). lia. Qed.
#[export] Hint Resolve lor_u8 lor_u64 lxor_u8 lxor_u32 lxor_u64 : wrap.

(** The idiom [(w >> n) & 1]. *)
Lemma land_shiftr_1 w n : negb (Z.land (w ≫ n) 1 =? 0) = Z.testbit w n.
Proof.
  change 1 with (Z.ones 1). rewrite Z.land_ones by lia. change (2 ^ 1) with 2.
  rewrite Z.testbit_odd, <- Z.bit0_odd, <- Z.bit0_mod. by destruct (Z.testbit _ 0).
Qed.

Lemma shiftr_u64 a n : is_u64 a -> 0 <= n -> is_u64 (a ≫ n).
Proof.
  intros Ha Hn. rewrite Z.shiftr_div_pow2 by lia.
  assert (0 < 2 ^ n) by lia. split; [apply Z.div_pos; lia|].
  apply Z.div_lt_upper_bound; nia.
Qed.

(** A boolean fact about bytes, checked on all 256 of them. *)
Lemma byte_cases (P : Z -> bool) :
  forallb (fun n => P (Z.of_nat n)) (seq 0 256) = true -> forall b, is_u8 b -> P b = true.
Proof.
  intros H b Hb. rewrite forallb_forall in H. rewrite <- (Z2Nat.id b) by lia.
  apply H, in_seq. lia.
Qed.

Lemma land_80 b : is_u8 b -> (Z.land b 0x80 =? 0) = (b <? 128).
Proof.
  intros Hb. apply eqb_prop.
  by apply (byte_cases (fun b => eqb (Z.land b 0x80 =? 0) (b <? 128))).
Qed.

(** ** Lists as C buffers *)

(** Length as a Z, the type every size is compared at. *)
Definition len {A} (l : list A) : Z := Z.of_nat (length l).

Lemma len_nonneg {A} (l : list A) : 0 <= len l.
Proof. unfold len; lia. Qed.
Lemma len_nil {A} : len (@nil A) = 0.
Proof. done. Qed.
Lemma len_cons {A} (x : A) l : len (x :: l) = 1 + len l.
Proof. unfold len; simpl; lia. Qed.
Lemma len_app {A} (l k : list A) : len (l ++ k) = len l + len k.
Proof. unfold len. rewrite length_app. lia. Qed.
Lemma len_take {A} n (l : list A) :
  0 <= n <= len l -> len (take (Z.to_nat n) l) = n.
Proof. unfold len. rewrite length_take. lia. Qed.
Lemma len_drop {A} n (l : list A) :
  0 <= n <= len l -> len (drop (Z.to_nat n) l) = len l - n.
Proof. unfold len. rewrite length_drop. lia. Qed.
Lemma len_replicate {A} n (x : A) : len (replicate n x) = Z.of_nat n.
Proof. unfold len. by rewrite length_replicate. Qed.
Lemma len_map {A B} (f : A -> B) l : len (map f l) = len l.
Proof. unfold len. by rewrite length_map. Qed.
Lemma len_to_nat {A} (l : list A) : Z.to_nat (len l) = length l.
Proof. unfold len. lia. Qed.
Lemma len_0_nil {A} (l : list A) : len l = 0 -> l = [].
Proof. destruct l; [done | rewrite len_cons; pose proof (len_nonneg l); lia]. Qed.

Create Rewrite HintDb len.
#[export] Hint Rewrite @len_nil @len_cons @len_app @len_replicate @len_map : len.
#[export] Hint Rewrite @len_take @len_drop using lia : len.
#[export] Hint Rewrite @len_to_nat : len.

(** Push [len] through the list constructors and close arithmetic goals, with the
    lengths of all lists in sight known to be non-negative. *)
Ltac len_facts :=
  repeat match goal with
  | l : list _ |- _ =>
      lazymatch goal with
      | _ : 0 <= len l |- _ => fail
      | _ => pose proof (len_nonneg l)
      end
  end.
Ltac len_lia := autorewrite with len in *; len_facts; first [lia | unfold len in *; lia].

(** ** Filtering *)

Section Filter.
Context {A : Type}.
Implicit Types (P Q : A -> Prop) (l : list A).

Lemma filter_ext_in P Q `{!forall x, Decision (P x), !forall x, Decision (Q x)} l :
  (forall x, x ∈ l -> P x <-> Q x) -> filter P l = filter Q l.
Proof.
  induction l as [|x l IH]; intros Hx; [done|].
  assert (E : filter P l = filter Q l) by (apply IH; intros; apply Hx; by right).
  pose proof (Hx x ltac:(by left)). destruct (decide (P x)).
  - rewrite !filter_cons_True by naive_solver. by rewrite E.
  - rewrite !filter_cons_False by naive_solver. done.
Qed.

Lemma filter_none P `{!forall x, Decision (P x)} l : (forall x, x ∈ l -> ~ P x) -> filter P l = [].
Proof.
  induction l as [|x l IH]; intros Hx; [done|]. rewrite filter_cons_False by (apply Hx; by left).
  apply IH. intros. apply Hx. by right.
Qed.

Lemma filter_len_all P `{!forall x, Decision (P x)} l : len (filter P l) = len l <-> Forall P l.
Proof.
  induction l as [|x l IH]; [by split|]. rewrite Forall_cons. destruct (decide (P x)).
  - rewrite filter_cons_True, !len_cons by done. rewrite <- IH. naive_solver lia.
  - rewrite filter_cons_False, len_cons by done. pose proof (length_filter P l). unfold len in *. naive_solver lia.
Qed.
End Filter.

Lemma take_len_app {A} (l k : list A) : take (Z.to_nat (len l)) (l ++ k) = l.
Proof. rewrite len_to_nat. apply take_app_length. Qed.
Lemma drop_len_app {A} (l k : list A) : drop (Z.to_nat (len l)) (l ++ k) = k.
Proof. rewrite len_to_nat. apply drop_app_length. Qed.

Lemma take_app_exact {A} n (l k : list A) :
  n = len l -> take (Z.to_nat n) (l ++ k) = l.
Proof. intros ->. apply take_len_app. Qed.
Lemma drop_app_exact {A} n (l k : list A) :
  n = len l -> drop (Z.to_nat n) (l ++ k) = k.
Proof. intros ->. apply drop_len_app. Qed.

(** Every element of a buffer is a byte. *)
Definition bytes_ok (l : list Z) : Prop := Forall (fun b => is_u8 b) l.

(** Found by its head symbol only: as an instance it would also unify with [x ∈ l] while
    the membership relation of [l] is still to be inferred. *)
Definition bytes_ok_dec l : Decision (bytes_ok l).
Proof. unfold bytes_ok. apply _. Defined.
#[export] Hint Extern 0 (Decision (bytes_ok ?l)) => exact (bytes_ok_dec l) : typeclass_instances.

Lemma bytes_ok_nil : bytes_ok [].
Proof. constructor. Qed.
Lemma bytes_ok_cons b l : is_u8 b -> bytes_ok l -> bytes_ok (b :: l).
Proof. by constructor. Qed.
Lemma bytes_ok_app l k : bytes_ok l -> bytes_ok k -> bytes_ok (l ++ k).
Proof. apply Forall_app_2. Qed.
Lemma bytes_ok_app_inv l k : bytes_ok (l ++ k) -> bytes_ok l /\ bytes_ok k.
Proof. apply Forall_app. Qed.
Lemma bytes_ok_take n l : bytes_ok l -> bytes_ok (take n l).
Proof. apply Forall_take. Qed.
Lemma bytes_ok_drop n l : bytes_ok l -> bytes_ok (drop n l).
Proof. apply Forall_drop. Qed.
Lemma bytes_ok_replicate n b : is_u8 b -> bytes_ok (replicate n b).
Proof. intros; by apply Forall_replicate. Qed.

(** Decide a closed proposition by running its decision procedure. *)
Ltac by_deciding := refine (bool_decide_eq_true_1 _ _); vm_compute; reflexivity.

Create HintDb bytes.
#[export] Hint Resolve bytes_ok_nil bytes_ok_cons bytes_ok_app bytes_ok_take
  bytes_ok_drop bytes_ok_replicate u8_range : bytes.

(** ** Memory accesses that can go out of bounds *)

(** [Ok a] is a run that completed with [a]; [Fault] is a run that read or wrote
    outside the object it was given, which C leaves undefined. *)
Inductive M (A : Type) : Type :=
| Ok (a : A)
| Fault.
Arguments Ok {A} a.
Arguments Fault {A}.

#[export] Instance M_eq_dec {A} `{EqDecision A} : EqDecision (M A).
Proof. solve_decision. Defined.

Declare Scope mem_scope.
Delimit Scope mem_scope with mem.
Notation "'let!' x ':=' m 'in' k" :=
  (match m with Ok x => k | Fault => Fault end)
  (at level 10, x name, m at level 100, k at level 200) : mem_scope.
Notation "'let!' ' p ':=' m 'in' k" :=
  (match m with Ok p => k | Fault => Fault end)
  (at level 10, p strict pattern, m at level 100, k at level 200) : mem_scope.
#[global] Open Scope mem_scope.

(** [buf[i]] as an rvalue. *)
Definition load {A} (buf : list A) (i : Z) : M A :=
  if 0 <=? i then match buf !! Z.to_nat i with Some v => Ok v | None => Fault end
  else Fault.

(** [buf[i] = v]. *)
Definition store {A} (buf : list A) (i : Z) (v : A) : M (list A) :=
  if (0 <=? i) && (i <? len buf) then Ok (<[Z.to_nat i := v]> buf) else Fault.

(** The source of a [memcpy(_, buf + off, n)]. *)
Definition load_bytes (buf : list Z) (off n : Z) : M (list Z) :=
  if (0 <=? off) && (0 <=? n) && (off + n <=? len buf)
  then Ok (take (Z.to_nat n) (drop (Z.to_nat off) buf)) else Fault.

(** [memcpy(buf + off, bs, len bs)], and [buf[off] = b] with [bs = [b]]. *)
Definition store_bytes (buf : list Z) (off : Z) (bs : list Z) : M (list Z) :=
  if (0 <=? off) && (off + len bs <=? len buf)
  then Ok (take (Z.to_nat off) buf ++ bs ++ drop (Z.to_nat (off + len bs)) buf)
  else Fault.

Lemma load_in_bounds {A} (buf : list A) i :
  0 <= i < len buf -> exists v, load buf i = Ok v /\ buf !! Z.to_nat i = Some v.
Proof.
  intros Hi. unfold load. rewrite (proj2 (Z.leb_le 0 i)) by lia.
  destruct (lookup_lt_is_Some_2 buf (Z.to_nat i)) as [v Hv].
  - unfold len in Hi. lia.
  - rewrite Hv. eauto.
Qed.

Lemma load_lookup {A} (buf : list A) i v : load buf i = Ok v -> 0 <= i /\ buf !! Z.to_nat i = Some v.
Proof.
  unfold load. destruct (Z.leb_spec 0 i); [|done].
  destruct (buf !! Z.to_nat i); intros; simplify_eq; done.
Qed.

Lemma load_ok {A} (buf : list A) i v :
  0 <= i -> buf !! Z.to_nat i = Some v -> load buf i = Ok v.
Proof. intros Hi Hv. unfold load. by rewrite (proj2 (Z.leb_le 0 i)), Hv. Qed.

Lemma load_prefix {A} (b x : list A) i v : load b i = Ok v -> load (b ++ x) i = Ok v.
Proof.
  intros [Hi Hv]%load_lookup. apply load_ok; [done|]. by apply lookup_app_l_Some.
Qed.

Lemma store_ok {A} (buf : list A) i v :
  0 <= i < len buf -> store buf i v = Ok (<[Z.to_nat i := v]> buf).
Proof.
  intros. unfold store. rewrite (proj2 (Z.leb_le _ _)), (proj2 (Z.ltb_lt _ _)) by lia. done.
Qed.

Lemma len_insert {A} n (v : A) l : len (<[n := v]> l) = len l.
Proof. unfold len. by rewrite length_insert. Qed.
#[export] Hint Rewrite @len_insert : len.

Lemma load_insert {A} (buf : list A) i j v :
  0 <= i < len buf -> 0 <= j -> load (<[Z.to_nat i := v]> buf) j = if i =? j then Ok v else load buf j.
Proof.
  intros Hi Hj. unfold load. rewrite (proj2 (Z.leb_le 0 j)) by done.
  destruct (Z.eqb_spec i j) as [->|Hne].
  - rewrite list_lookup_insert_eq; [done|]. unfold len in *. lia.
  - by rewrite list_lookup_insert_ne by lia.
Qed.

Lemma store_app_at {A} pre (b v : A) post i :
  i = len pre -> store (pre ++ b :: post) i v = Ok (pre ++ v :: post).
Proof.
  intros ->. pose proof (len_nonneg post). pose proof (len_nonneg pre).
  rewrite store_ok by (rewrite len_app, len_cons; lia).
  by rewrite len_to_nat, insert_app_r_alt, Nat.sub_diag by lia.
Qed.

Lemma load_u8 buf i v : bytes_ok buf -> load buf i = Ok v -> is_u8 v.
Proof.
  intros Hb [_ Hl]%load_lookup. exact (Forall_lookup_1 _ _ _ _ Hb Hl).
Qed.

(** An in-bounds read, with the field it read named as the front of what remains. *)
Lemma load_sound inp i :
  bytes_ok inp -> 0 <= i -> i + 1 <= len inp ->
  exists v, load inp i = Ok v /\ is_u8 v /\
    drop (Z.to_nat i) inp = [v] ++ drop (Z.to_nat (i + 1)) inp.
Proof.
  intros Hb H0 Hl. destruct (load_in_bounds inp i) as (v & E & Hv); [lia|].
  exists v. split_and!; [done|by apply (load_u8 inp i)..|].
  rewrite (drop_S _ v) by done. simpl. do 2 f_equal. lia.
Qed.

Lemma load_app_mid {A} pre (b : A) post : load (pre ++ b :: post) (len pre) = Ok b.
Proof.
  unfold load. rewrite (proj2 (Z.leb_le 0 (len pre))) by apply len_nonneg.
  rewrite len_to_nat, list_lookup_middle; done.
Qed.

Lemma load_app_r {A} (pre l : list A) k : 0 <= k -> load (pre ++ l) (len pre + k) = load l k.
Proof.
  intros. unfold load. pose proof (len_nonneg pre).
  rewrite !(proj2 (Z.leb_le 0 _)) by lia.
  rewrite lookup_app_r by (unfold len; lia).
  by replace (Z.to_nat (len pre + k) - length pre)%nat with (Z.to_nat k) by (unfold len; lia).
Qed.

Lemma load_app_at {A} pre (b : A) post i : i = len pre -> load (pre ++ b :: post) i = Ok b.
Proof. intros ->. apply load_app_mid. Qed.

Lemma load_bytes_in_bounds buf off n :
  0 <= off -> 0 <= n -> off + n <= len buf ->
  load_bytes buf off n = Ok (take (Z.to_nat n) (drop (Z.to_nat off) buf)).
Proof.
  intros. unfold load_bytes.
  rewrite !(proj2 (Z.leb_le _ _)) by lia. done.
Qed.

Lemma load_bytes_sound inp off n :
  0 <= off -> 0 <= n -> off + n <= len inp ->
  exists bs, load_bytes inp off n = Ok bs /\ len bs = n /\ (bytes_ok inp -> bytes_ok bs) /\
    drop (Z.to_nat off) inp = bs ++ drop (Z.to_nat (off + n)) inp.
Proof.
  intros. eexists. rewrite load_bytes_in_bounds by lia. split_and!; [done|..].
  - rewrite len_take; [done|]. rewrite len_drop; lia.
  - auto with bytes.
  - rewrite Z2Nat.inj_add, <- drop_drop, take_drop by lia. done.
Qed.

Lemma load_bytes_app_mid pre bs post off n :
  off = len pre -> n = len bs -> load_bytes (pre ++ bs ++ post) off n = Ok bs.
Proof.
  intros -> ->. rewrite load_bytes_in_bounds by len_lia.
  by rewrite drop_len_app, take_len_app.
Qed.

Lemma load_bytes_front pre post n : n = len pre -> load_bytes (pre ++ post) 0 n = Ok pre.
Proof. intros ->. by apply (load_bytes_app_mid [] pre post). Qed.

Lemma store_bytes_in_bounds buf off bs :
  0 <= off -> off + len bs <= len buf ->
  store_bytes buf off bs =
  Ok (take (Z.to_nat off) buf ++ bs ++ drop (Z.to_nat (off + len bs)) buf).
Proof.
  intros. unfold store_bytes. rewrite !(proj2 (Z.leb_le _ _)) by lia. done.
Qed.

Lemma store_bytes_fits buf off bs :
  0 <= off -> off + len bs <= len buf ->
  exists b, store_bytes buf off bs = Ok b /\ len b = len buf.
Proof.
  intros. rewrite store_bytes_in_bounds by lia. eexists. split; [done|].
  unfold len in *. rewrite !length_app, length_take, length_drop. lia.
Qed.

Lemma store_bytes_0 buf bs :
  len bs <= len buf -> store_bytes buf 0 bs = Ok (bs ++ drop (length bs) buf).
Proof. intros. rewrite store_bytes_in_bounds by lia. by rewrite Z.add_0_l, len_to_nat. Qed.

(** Writing again from the start hides a shorter first write. *)
Lemma store_bytes_over buf w bs :
  len w <= len bs -> len bs <= len buf ->
  (let! b := store_bytes buf 0 w in store_bytes b 0 bs) = Ok (bs ++ drop (length bs) buf).
Proof.
  intros Hw Hl. rewrite store_bytes_0 by lia.
  rewrite store_bytes_0 by (unfold len in *; rewrite length_app, length_drop; lia).
  do 2 f_equal. rewrite drop_app_ge, drop_drop by (unfold len in *; lia). f_equal.
  unfold len in *. lia.
Qed.

(** Filling a buffer left to right: the write at the end of what is already written
    extends it. *)
Lemma store_bytes_append pre rest bs off :
  off = len pre -> len bs <= len rest ->
  store_bytes (pre ++ rest) off bs = Ok ((pre ++ bs) ++ drop (length bs) rest).
Proof.
  intros -> Hle. rewrite store_bytes_in_bounds by len_lia.
  rewrite take_len_app. f_equal. rewrite <- app_assoc. do 2 f_equal.
  rewrite drop_app_ge by (unfold len; lia). f_equal. unfold len. lia.
Qed.

Lemma len_drop_nat {A} n (l : list A) :
  Z.of_nat n <= len l -> len (drop n l) = len l - Z.of_nat n.
Proof. unfold len. rewrite length_drop. lia. Qed.
#[export] Hint Rewrite @len_drop_nat using (unfold len in *; lia) : len.

(** ** Counting loops *)

(** [for (i = i0; i < i0 + n; ++i) s = body(i, s);] *)
Fixpoint for_up {S} (n : nat) (i : Z) (body : Z -> S -> M S) (s : S) : M S :=
  match n with
  | O => Ok s
  | Datatypes.S n => let! s := body i s in for_up n (i + 1) body s
  end.

(** A loop whose body keeps [P] runs to the end and leaves [P]. *)
Lemma for_up_inv {S} (P : Z -> S -> Prop) body n : forall i s,
  P i s ->
  (forall j s, i <= j < i + Z.of_nat n -> P j s -> exists s', body j s = Ok s' /\ P (j + 1) s') ->
  exists s', for_up n i body s = Ok s' /\ P (i + Z.of_nat n) s'.
Proof.
  induction n as [|n IH]; intros i s HP Hb; simpl.
  { exists s. by rewrite Z.add_0_r. }
  destruct (Hb i s) as (s1 & -> & HP1); [lia|done|].
  destruct (IH (i + 1) s1 HP1) as (s2 & -> & HP2).
  { intros j t Hj. apply Hb. lia. }
  exists s2. split; [done|]. by replace (i + Z.of_nat (Datatypes.S n)) with (i + 1 + Z.of_nat n) by lia.
Qed.

(** The loop with a body that may leave it: [inr r] is [return r] from inside. *)
Fixpoint for_ret {S R} (n : nat) (i : Z) (body : Z -> S -> M (S + R)) (s : S) : M (S + R) :=
  match n with
  | O => Ok (inl s)
  | Datatypes.S n =>
      let! x := body i s in
      match x with inl s => for_ret n (i + 1) body s | inr r => Ok (inr r) end
  end.

(** A body that keeps [P] or leaves with [Q]: the loop ends with one of them. *)
Lemma for_ret_inv {S R} (P : Z -> S -> Prop) (Q : R -> Prop) body n : forall i s,
  P i s ->
  (forall j s, i <= j < i + Z.of_nat n -> P j s -> exists x, body j s = Ok x /\
     match x with inl s' => P (j + 1) s' | inr r => Q r end) ->
  exists x, for_ret n i body s = Ok x /\
    match x with inl s' => P (i + Z.of_nat n) s' | inr r => Q r end.
Proof.
  induction n as [|n IH]; intros i s HP Hb; simpl.
  { exists (inl s). by rewrite Z.add_0_r. }
  destruct (Hb i s) as ([s1|r] & -> & HP1); [lia|done| |by exists (inr r)].
  destruct (IH (i + 1) s1 HP1) as (x & -> & HP2).
  { intros j t Hj. apply Hb. lia. }
  exists x. split; [done|].
  by replace (i + Z.of_nat (Datatypes.S n)) with (i + 1 + Z.of_nat n) by lia.
Qed.

(** A body that never leaves. *)
Lemma for_ret_up {S R} (P : Z -> S -> Prop) (body : Z -> S -> M (S + R)) n i s :
  P i s ->
  (forall j s, i <= j < i + Z.of_nat n -> P j s -> exists s', body j s = Ok (inl s') /\ P (j + 1) s') ->
  exists s', for_ret n i body s = Ok (inl s') /\ P (i + Z.of_nat n) s'.
Proof.
  intros HP Hb. destruct (for_ret_inv P (fun _ => False) body n i s HP) as ([s'|r] & E & H); [|eauto|done].
  intros j t Hj Ht. destruct (Hb j t Hj Ht) as (s' & -> & Hs'). by exists (inl s').
Qed.

(** A loop that reads the buffer once, left to right, and may leave: a fold over the bytes. *)
Fixpoint list_ret {A S R} (f : A -> S -> S + R) (l : list A) (s : S) : S + R :=
  match l with
  | [] => inl s
  | x :: l => match f x s with inl s => list_ret f l s | inr r => inr r end
  end.

Lemma for_ret_list_at {A S R} (f : A -> S -> S + R) (body : Z -> S -> M (S + R)) base l : forall pre post i s,
  base + i = len pre ->
  (forall i s, body i s = (let! c := load (pre ++ l ++ post) (base + i) in Ok (f c s))) ->
  for_ret (length l) i body s = Ok (list_ret f l s).
Proof.
  induction l as [|x l IH]; intros pre post i s Hi Hb; [done|]. simpl.
  rewrite Hb, Hi. cbn [app]. rewrite (load_app_mid pre x (l ++ post)). cbv iota beta.
  destruct (f x s) as [s1|r]; [|done].
  apply (IH (pre ++ [x]) post); [len_lia|]. intros k t. rewrite Hb. by rewrite <- app_assoc.
Qed.

Lemma for_ret_list {A S R} (f : A -> S -> S + R) (body : Z -> S -> M (S + R)) l pre post s :
  (forall i s, body i s = (let! c := load (pre ++ l ++ post) i in Ok (f c s))) ->
  for_ret (length l) (len pre) body s = Ok (list_ret f l s).
Proof. intros Hb. by apply (for_ret_list_at f body 0 l pre post). Qed.

(** The same without an early exit. *)
Lemma for_up_list {A S} (f : A -> S -> S) (body : Z -> S -> M S) l : forall pre post s,
  (forall i s, body i s = (let! c := load (pre ++ l ++ post) i in Ok (f c s))) ->
  for_up (length l) (len pre) body s = Ok (foldl (fun s c => f c s) s l).
Proof.
  induction l as [|x l IH]; intros pre post s Hb; [done|]. simpl.
  rewrite Hb. cbn [app]. rewrite (load_app_mid pre x (l ++ post)). cbv iota beta.
  replace (len pre + 1) with (len (pre ++ [x])) by len_lia.
  apply (IH (pre ++ [x]) post). intros i t. rewrite Hb. by rewrite <- app_assoc.
Qed.

(** [for (i = 0; i < n; ++i) dst[off + i] = f(dst[off + i], src[i]);] *)
Lemma for_up_zip (f : Z -> Z -> Z) pre mid post src :
  length mid = length src ->
  for_up (length src) 0 (fun i d =>
    let! x := load d (len pre + i) in
    let! y := load src i in
    store d (len pre + i) (f x y)) (pre ++ mid ++ post) =
  Ok (pre ++ zip_with f mid src ++ post).
Proof.
  intros Hl.
  destruct (for_up_inv
    (fun i d => d = pre ++ (zip_with f (take (Z.to_nat i) mid) (take (Z.to_nat i) src)
                            ++ drop (Z.to_nat i) mid) ++ post)
    (fun i d => let! x := load d (len pre + i) in
                let! y := load src i in store d (len pre + i) (f x y))
    (length src) 0 (pre ++ mid ++ post)) as (d & -> & ->); [done| |].
  - intros j d Hj ->. destruct (lookup_lt_is_Some_2 mid (Z.to_nat j)) as [x Hx]; [lia|].
    destruct (lookup_lt_is_Some_2 src (Z.to_nat j)) as [y Hy]; [lia|].
    rewrite (drop_S mid x) by done.
    set (done_ := zip_with f (take (Z.to_nat j) mid) (take (Z.to_nat j) src)).
    assert (Hd : len done_ = j).
    { unfold done_, len. rewrite length_zip_with, !length_take. lia. }
    replace (pre ++ (done_ ++ x :: drop (S (Z.to_nat j)) mid) ++ post)
      with ((pre ++ done_) ++ x :: (drop (S (Z.to_nat j)) mid ++ post))
      by (by rewrite <- !app_assoc).
    rewrite (load_app_at (pre ++ done_) x) by len_lia.
    rewrite (load_ok src j y) by (done || lia).
    pose proof (len_nonneg (drop (S (Z.to_nat j)) mid ++ post)).
    rewrite store_ok by (rewrite len_app, (len_app pre), len_cons; len_lia).
    eexists. split; [done|].
    replace (Z.to_nat (len pre + j)) with (length (pre ++ done_)) by (rewrite length_app; unfold len in *; lia).
    rewrite insert_app_r_alt, Nat.sub_diag by lia. simpl.
    replace (Z.to_nat (j + 1)) with (S (Z.to_nat j)) by lia.
    rewrite (take_S_r mid _ x), (take_S_r src _ y) by done.
    rewrite zip_with_app by (rewrite !length_take; lia). simpl. fold done_.
    by rewrite <- !app_assoc.
  - rewrite Z.add_0_l, Nat2Z.id, <- Hl at 1. rewrite Hl, firstn_all2, firstn_all2, drop_ge by lia.
    by rewrite app_nil_r.
Qed.

Lemma for_up_zip0 (f : Z -> Z -> Z) mid post src :
  length mid = length src ->
  for_up (length src) 0 (fun i d =>
    let! x := load d i in let! y := load src i in store d i (f x y)) (mid ++ post) =
  Ok (zip_with f mid src ++ post).
Proof. exact (for_up_zip f [] mid post src). Qed.

(** Evaluate the loads of a buffer whose first bytes are explicit. *)
Ltac load_step :=
  repeat match goal with
  | |- context [load (?a :: ?l) ?k] =>
      let r := eval cbv [load Z.leb Z.compare Z.to_nat Pos.to_nat Pos.iter_op Nat.add
                         lookup list_lookup] in (load (a :: l) k) in
      progress change (load (a :: l) k) with r
  end; cbv iota beta.
