(* ===== verification/Ctype.v ===== *)
(** C library functions the sources use, in the C locale, on the bytes of a string before its
    terminator; and names made of parts joined by a separator, with the left-to-right scan that
    validates them (topics and RPC methods are such names). *)

From S2P Require Import Prelude.
Local Open Scope Z_scope.

Abbreviation cstring := (list Z).

(** ** Characters and strings *)

(** [isalnum] in the C locale. *)
Definition isalnum (c : Z) : bool :=
  ((48 <=? c) && (c <=? 57)) || ((65 <=? c) && (c <=? 90)) || ((97 <=? c) && (c <=? 122)).

Definition isspace (c : Z) : bool := (c =? 32) || ((9 <=? c) && (c <=? 13)).
Definition isdigit (c : Z) : bool := (48 <=? c) && (c <=? 57).
Definition lower (c : Z) : Z := if (65 <=? c) && (c <=? 90) then c + 32 else c.

(** The string a buffer holds: the bytes before the first 0. *)
Fixpoint cstr (b : list Z) : cstring :=
  match b with [] => [] | c :: b => if c =? 0 then [] else c :: cstr b end.

(** fgets with a buffer of [n + 1] bytes: at most [n] bytes, up to and including a newline. *)
Fixpoint fgets (n : nat) (text : list Z) : list Z * list Z :=
  match n, text with
  | S n, c :: text =>
      if c =? 10 then ([c], text) else let '(l, r) := fgets n text in (c :: l, r)
  | _, _ => ([], text)
  end.

(** strchr: what is before the character and what is after it. *)
Fixpoint strchr (s : cstring) (c : Z) : option (cstring * cstring) :=
  match s with
  | [] => None
  | x :: s => if x =? c then Some ([], s) else
      match strchr s c with None => None | Some (a, b) => Some (x :: a, b) end
  end.

(** strrchr: the same for the last occurrence. *)
Fixpoint strrchr (s : cstring) (c : Z) : option (cstring * cstring) :=
  match s with
  | [] => None
  | x :: s =>
      match strrchr s c with
      | Some (a, b) => Some (x :: a, b)
      | None => if x =? c then Some ([], s) else None
      end
  end.

(** snprintf into [n] bytes keeps [n - 1] of them. *)
Definition snprintf (n : nat) (s : cstring) : cstring := take (n - 1) s.

Definition strcasecmp_eq (a b : cstring) : bool := bool_decide (map lower a = map lower b).

(** The digits at the head of a string, as a number, and what follows them. *)
Fixpoint read_digits10 (acc : Z) (s : cstring) : Z * cstring :=
  match s with
  | c :: s' => if isdigit c then read_digits10 (acc * 10 + (c - 48)) s' else (acc, s)
  | [] => (acc, [])
  end.

Fixpoint skip_spaces (s : cstring) : cstring :=
  match s with c :: s' => if isspace c then skip_spaces s' else s | [] => [] end.

(** The part of strtol and strtoul that reads: sign, magnitude, end; no digits leave the end at the
    start. *)
Definition scan_int (s : cstring) : bool * Z * cstring :=
  let t := skip_spaces s in
  let '(neg, t) := match t with 45 :: t => (true, t) | 43 :: t => (false, t) | _ => (false, t) end in
  match t with
  | c :: _ => if isdigit c then let '(m, e) := read_digits10 0 t in (neg, m, e) else (false, 0, s)
  | [] => (false, 0, s)
  end.

Definition strtol (s : cstring) : Z * cstring :=
  let '(neg, m, e) := scan_int s in
  (if neg then Z.max (- 2 ^ 63) (- m) else Z.min (2 ^ 63 - 1) m, e).
Definition strtoul (s : cstring) : Z * cstring :=
  let '(neg, m, e) := scan_int s in
  (if UINT64_MAX <? m then UINT64_MAX else if neg then u64 (- m) else m, e).

Lemma cstr_app_text l b : Forall (fun c => c <> 0) l -> cstr (l ++ b) = l ++ cstr b.
Proof.
  induction 1 as [|c l Hc _ IH]; simpl; [done|]. rewrite (proj2 (Z.eqb_neq c 0)) by done. by rewrite IH.
Qed.
Lemma cstr_text l : Forall (fun c => c <> 0) l -> cstr l = l.
Proof. intros H. pose proof (cstr_app_text l [] H) as E. by rewrite !app_nil_r in E. Qed.

Lemma strchr_first s c t : c ∉ s -> strchr (s ++ c :: t) c = Some (s, t).
Proof.
  induction s as [|x s IH]; simpl; [by rewrite Z.eqb_refl|]. rewrite not_elem_of_cons. intros [Hx Hs].
  rewrite (proj2 (Z.eqb_neq x c)) by done. by rewrite IH.
Qed.

Lemma strchr_some s c a b : strchr s c = Some (a, b) -> s = a ++ c :: b /\ c ∉ a.
Proof.
  revert a b. induction s as [|x s IH]; intros a b; cbn [strchr]; [done|]. destruct (Z.eqb_spec x c) as [->|].
  - intros [= <- <-]. split; [done|apply not_elem_of_nil].
  - destruct (strchr s c) as [[a' b']|]; [|done]. intros [= <- <-]. destruct (IH a' b') as [-> Ha]; [done|].
    split; [done|]. by apply not_elem_of_cons.
Qed.

Lemma strrchr_none s c : strrchr s c = None <-> c ∉ s.
Proof.
  induction s as [|x s IH]; cbn [strrchr]; [split; [intros _; apply not_elem_of_nil|done]|].
  rewrite not_elem_of_cons, <- IH. destruct (strrchr s c) as [[]|]; [naive_solver|].
  destruct (Z.eqb_spec x c); naive_solver.
Qed.

Lemma strrchr_last s c t : c ∉ t -> strrchr (s ++ c :: t) c = Some (s, t).
Proof.
  intros Ht. induction s as [|x s IH]; cbn [app strrchr].
  - rewrite (proj2 (strrchr_none t c)) by done. by rewrite Z.eqb_refl.
  - by rewrite IH.
Qed.

Lemma strrchr_some s c a b : strrchr s c = Some (a, b) -> s = a ++ c :: b /\ c ∉ b.
Proof.
  revert a b. induction s as [|x s IH]; intros a b; cbn [strrchr]; [done|].
  destruct (strrchr s c) as [[a' b']|] eqn:E; [intros [= <- <-]; by destruct (IH a' b') as [-> Hb]|].
  destruct (Z.eqb_spec x c) as [->|]; [|done]. intros [= <- <-]. split; [done|]. by apply strrchr_none.
Qed.

(** ** Numbers *)

(** The decimal text of a number below 10^fuel. *)
Fixpoint dec (fuel : nat) (n : Z) : cstring :=
  match fuel with
  | O => []
  | S fuel => (if n <? 10 then [] else dec fuel (n / 10)) ++ [48 + n mod 10]
  end.

Lemma read_digits_app s t : forall acc n,
  read_digits10 acc s = (n, []) -> read_digits10 acc (s ++ t) = read_digits10 n t.
Proof.
  induction s as [|c s IH]; intros acc n; simpl; [by intros [= ->]|]. destruct (isdigit c); [apply IH|done].
Qed.

Lemma digit_isdigit d : 0 <= d < 10 -> isdigit (48 + d) = true.
Proof. intros. unfold isdigit. by rewrite (proj2 (Z.leb_le _ _)), (proj2 (Z.leb_le _ _)) by lia. Qed.

Lemma read_dec fuel : forall n, (0 < fuel)%nat -> 0 <= n < 10 ^ Z.of_nat fuel -> read_digits10 0 (dec fuel n) = (n, []).
Proof.
  induction fuel as [|f IH]; intros n Hf Hn; [lia|]. cbn [dec].
  pose proof (Z.mod_pos_bound n 10 ltac:(lia)). pose proof (Z.div_mod n 10 ltac:(lia)).
  assert (E : read_digits10 0 (if n <? 10 then [] else dec f (n / 10)) = (n / 10, [])).
  { destruct (Z.ltb_spec n 10); [by rewrite Z.div_small by lia|].
    rewrite Nat2Z.inj_succ, Z.pow_succ_r in Hn by lia.
    destruct f; [simpl in Hn; lia|]. apply IH; [lia|]. split; [lia|]. apply Z.div_lt_upper_bound; lia. }
  rewrite (read_digits_app _ _ _ _ E). cbn [read_digits10]. rewrite digit_isdigit by lia. f_equal. lia.
Qed.

Lemma dec_head fuel n : (0 < fuel)%nat -> 0 <= n -> exists c s, dec fuel n = c :: s /\ isdigit c = true.
Proof.
  revert n. induction fuel as [|f IH]; intros n Hf Hn; [lia|]. cbn [dec].
  pose proof (Z.mod_pos_bound n 10 ltac:(lia)). destruct (n <? 10).
  - eexists _, _. split; [reflexivity|]. by apply digit_isdigit.
  - destruct f as [|f]; [eexists _, _; split; [reflexivity|by apply digit_isdigit]|].
    destruct (IH (n / 10) ltac:(lia) ltac:(apply Z.div_pos; lia)) as (c & s & -> & Hc). by eexists _, _.
Qed.

(** The text printf writes for an int. *)
Definition dec_int (n : Z) : cstring := if n <? 0 then 45 :: dec 20 (- n) else dec 20 n.

Lemma isdigit_isspace c : isdigit c = true -> isspace c = false /\ c <> 45 /\ c <> 43.
Proof.
  unfold isdigit, isspace. intros [H1%Z.leb_le H2%Z.leb_le]%andb_prop.
  rewrite (proj2 (Z.eqb_neq c 32)), (proj2 (Z.leb_gt c 13)) by lia. rewrite andb_false_r. split_and!; done || lia.
Qed.

Lemma scan_dec n : Z.abs n < 10 ^ 20 -> scan_int (dec_int n) = (n <? 0, Z.abs n, []).
Proof.
  intros Hn. unfold dec_int, scan_int. destruct (Z.ltb_spec n 0).
  - cbn [skip_spaces]. change (isspace 45) with false. cbv iota.
    destruct (dec_head 20 (- n)) as (c & s & E & Hc); [lia..|]. rewrite E, Hc, <- E, read_dec by (simpl; lia).
    repeat f_equal. lia.
  - destruct (dec_head 20 n) as (c & s & E & Hc); [lia..|].
    destruct (isdigit_isspace c Hc) as (Hs & Hm & Hp). rewrite E. cbn [skip_spaces]. rewrite Hs.
    assert (Em : match c :: s with 45 :: t => (true, t) | 43 :: t => (false, t) | _ => (false, c :: s) end = (false, c :: s)).
    { destruct c as [|p|p]; try done. do 6 (destruct p as [p|p|]; try done). }
    rewrite Em, Hc, <- E, read_dec by (simpl; lia). repeat f_equal. lia.
Qed.

(** ** Names in parts *)

Section Parts.
Context (sep : Z).

(** The separated segments of a string: never an empty list. *)
Fixpoint split_segs (s : list Z) : list (list Z) :=
  match s with
  | [] => [[]]
  | c :: s => if c =? sep then [] :: split_segs s
              else match split_segs s with g :: gs => (c :: g) :: gs | [] => [[c]] end
  end.

Fixpoint head_part (l : list Z) : list Z :=
  match l with [] => [] | c :: l => if c =? sep then [] else c :: head_part l end.
Fixpoint rest_part (l : list Z) : option (list Z) :=
  match l with [] => None | c :: l => if c =? sep then Some l else rest_part l end.

Definition tail_part (l : list Z) : list Z :=
  match rest_part l with Some l' => sep :: l' | None => [] end.

Lemma cut_part l : l = head_part l ++ tail_part l.
Proof.
  unfold tail_part. induction l as [|c l IH]; [done|]. simpl.
  destruct (Z.eqb_spec c sep) as [->|]; [done|]. simpl. by rewrite <- IH.
Qed.

Lemma segs_cut l : split_segs l = head_part l :: match rest_part l with Some l' => split_segs l' | None => [] end.
Proof.
  induction l as [|c l IH]; [done|]. simpl. destruct (c =? sep); [done|]. by rewrite IH.
Qed.

Lemma segs_not_nil l : split_segs l <> [].
Proof. rewrite segs_cut. done. Qed.

Lemma rest_seg_shorter l l' : rest_part l = Some l' -> (length l' < length l)%nat.
Proof.
  induction l as [|c l IH]; [done|]. simpl. destruct (c =? sep); [intros; simplify_eq; lia|].
  intros H. specialize (IH H). lia.
Qed.

(** No trailing separator. *)
Definition no_trailing (l : list Z) : Prop := last l <> Some sep.

Definition ends_clear (s : list Z) : bool :=
  negb (bool_decide (s = [])) && negb (bool_decide (head s = Some sep)) &&
  negb (bool_decide (last s = Some sep)).

(** A separator at either end is an empty segment. *)
Lemma trailing_sep l : last l = Some sep -> [] ∈ tail (split_segs l).
Proof.
  induction l as [|c l IH]; [done|]. destruct l as [|d l].
  - cbn. intros [= ->]. rewrite Z.eqb_refl. cbn. set_solver.
  - rewrite last_cons_cons. intros H. specialize (IH H). revert IH. generalize (d :: l). intros l' IH.
    cbn [split_segs]. destruct (c =? sep); cbn [tail]; destruct (split_segs l'); cbn in *; set_solver.
Qed.

Lemma bad_ends s : ends_clear s = false -> [] ∈ split_segs s.
Proof.
  unfold ends_clear. destruct s as [|c s]; [intros _; cbn; set_solver|].
  rewrite (bool_decide_eq_false_2 (c :: s = [])) by done. cbn [negb andb head].
  intros [H|H]%andb_false_iff; apply negb_false_iff, bool_decide_eq_true_1 in H.
  - injection H as ->. cbn. rewrite Z.eqb_refl. set_solver.
  - apply trailing_sep in H. destruct (split_segs (c :: s)); cbn in *; set_solver.
Qed.

Lemma good_ends s : ends_clear s = true -> s <> [] /\ no_trailing s.
Proof.
  unfold ends_clear, no_trailing. intros [[H1 _]%andb_prop H2]%andb_prop.
  apply negb_true_iff, bool_decide_eq_false_1 in H1, H2. done.
Qed.

(** The guard both validators start with. *)
Lemma ends_guard s (k : M bool) :
  s <> [] ->
  (let! first := load s 0 in
   if first =? sep then Ok false
   else let! lst := load s (len s - 1) in if lst =? sep then Ok false else k) =
  if ends_clear s then k else Ok false.
Proof.
  unfold ends_clear. destruct s as [|c s]; [done|]. intros _.
  rewrite (bool_decide_eq_false_2 (c :: s = [])) by done. cbn [negb andb head].
  change (load (c :: s) 0) with (@Ok Z c). cbv iota beta.
  destruct (Z.eqb_spec c sep) as [->|Hc]; [by rewrite bool_decide_eq_true_2|].
  rewrite bool_decide_eq_false_2 by congruence. cbn [negb andb].
  destruct (last (c :: s)) as [z|] eqn:Ez; [|by apply last_None in Ez].
  assert (El : load (c :: s) (len (c :: s) - 1) = Ok z).
  { rewrite last_lookup in Ez. apply load_ok; [len_lia|]. rewrite <- Ez. f_equal. unfold len. simpl. lia. }
  rewrite El. destruct (Z.eqb_spec z sep) as [->|Hz]; [by rewrite bool_decide_eq_true_2|].
  by rewrite bool_decide_eq_false_2 by congruence.
Qed.

Context (ok : Z -> bool).

Definition part_ok (g : list Z) : bool := negb (bool_decide (g = [])) && forallb ok g.

(** One character of the validating scan: the state is the length of the current part. *)
Definition scan_step (c : Z) (k : Z) : Z + bool :=
  if c =? sep then (if k =? 0 then inr false else inl 0)
  else if negb (ok c) then inr false else inl (u64 (k + 1)).

Lemma scan_fold l : forall k,
  0 <= k -> k + len l < 2 ^ 64 ->
  match list_ret scan_step l k with inl n => 0 <? n | inr b => b end =
  (negb (k =? 0) || negb (bool_decide (head_part l = []))) && forallb ok (head_part l) &&
  forallb part_ok (match rest_part l with Some l' => split_segs l' | None => [] end).
Proof.
  induction l as [|c l IH]; intros k H0 Hk.
  { cbn. rewrite orb_false_r, !andb_true_r. destruct (Z.eqb_spec k 0); cbn; [subst; done|apply Z.ltb_lt; lia]. }
  rewrite len_cons in Hk. pose proof (len_nonneg l). cbn [list_ret]. unfold scan_step at 1.
  cbn [head_part rest_part]. destruct (c =? sep).
  - destruct (k =? 0); [done|]. cbn [negb orb andb forallb]. rewrite IH by lia. cbn [Z.eqb negb orb].
    rewrite (segs_cut l). unfold part_ok at 2. cbn [forallb]. done.
  - rewrite bool_decide_eq_false_2 by done. cbn [negb]. rewrite orb_true_r. cbn [andb forallb].
    destruct (ok c); [|done]. cbn [negb andb].
    rewrite IH by (rewrite u64_small by lia; lia).
    rewrite (proj2 (Z.eqb_neq (u64 (k + 1)) 0)) by (rewrite u64_small by lia; lia). done.
Qed.

(** The scan from the start accepts exactly the names all of whose parts are good. *)
Lemma scan_segs s :
  len s < 2 ^ 64 ->
  match list_ret scan_step s 0 with inl n => 0 <? n | inr b => b end = forallb part_ok (split_segs s).
Proof.
  intros Hl. rewrite scan_fold by lia. change (0 =? 0) with true. cbn [negb orb].
  rewrite (segs_cut s). cbn [forallb]. by unfold part_ok at 2.
Qed.

Lemma names_no_empty gs : forallb part_ok gs = true -> [] ∉ gs.
Proof.
  intros H Hin. rewrite forallb_forall in H. apply list_elem_of_In, H in Hin. done.
Qed.

Lemma split_chars l :
  forallb (forallb ok) (split_segs l) = true -> Forall (fun c => c = sep \/ ok c = true) l.
Proof.
  induction l as [|c l IH]; [done|]. cbn [split_segs]. destruct (Z.eqb_spec c sep) as [->|Hc].
  - intros H. constructor; [by left|auto].
  - destruct (split_segs l) as [|g gs] eqn:E; [by apply segs_not_nil in E|].
    cbn [forallb]. intros [[H1 H2]%andb_prop H3]%andb_prop. constructor; [by right|].
    apply IH. cbn [forallb]. by rewrite H2, H3.
Qed.

(** A name all of whose parts are good has no other characters. *)
Lemma parts_chars l :
  forallb part_ok (split_segs l) = true -> Forall (fun c => c = sep \/ ok c = true) l.
Proof.
  intros H. apply split_chars. rewrite forallb_forall in *. intros g Hg. apply H in Hg.
  by apply andb_prop in Hg as [_ ?].
Qed.

(** A name of good parts does not start or end with the separator. *)
Lemma parts_ends l : forallb part_ok (split_segs l) = true -> ends_clear l = true.
Proof.
  intros H%names_no_empty. destruct (ends_clear l) eqn:E; [done|]. by apply bad_ends in E.
Qed.

End Parts.
