(* ===== verification/ByteOrder.v ===== *)
(** Big-endian integers in byte buffers: [inc/byte_order.hpp] and the static
    [pack_u16]/[pack_u32]/[pack_u64] and [unpack_*] helpers that every codec of
    [src/] repeats with the same body. [be16], [be32], [be64] are the reference byte
    strings; a pack writes them, an unpack reads them back. *)

From S2P Require Import Prelude.
Local Open Scope Z_scope.

(** ** Reference encodings *)

Definition be16 (v : Z) : list Z := [u8 (v ≫ 8); u8 v].
Definition be32 (v : Z) : list Z := [u8 (v ≫ 24); u8 (v ≫ 16); u8 (v ≫ 8); u8 v].
Definition be64 (v : Z) : list Z := be32 (u32 (v ≫ 32)) ++ be32 (u32 v).

Lemma len_be16 v : len (be16 v) = 2. Proof. done. Qed.
Lemma len_be32 v : len (be32 v) = 4. Proof. done. Qed.
Lemma len_be64 v : len (be64 v) = 8. Proof. done. Qed.
#[export] Hint Rewrite len_be16 len_be32 len_be64 : len.

Lemma be16_bytes v : bytes_ok (be16 v).
Proof. unfold be16; auto with bytes. Qed.
Lemma be32_bytes v : bytes_ok (be32 v).
Proof. unfold be32; auto 6 with bytes. Qed.
Lemma be64_bytes v : bytes_ok (be64 v).
Proof. apply bytes_ok_app; apply be32_bytes. Qed.
#[export] Hint Resolve be16_bytes be32_bytes be64_bytes : bytes.

(** ** Swapping byte order: [hton16], [hton32], [hton64] *)

(* src/inc/byte_order.hpp:10-12 *)
Definition hton16 (v : Z) : Z := u16 (Z.lor (v ≪ 8) (v ≫ 8)).

(* src/inc/byte_order.hpp:14-17 *)
Definition hton32 (v : Z) : Z :=
  Z.lor (Z.lor (Z.lor (u32 (Z.land v 0x000000FF ≪ 24)) (u32 (Z.land v 0x0000FF00 ≪ 8)))
               (Z.land v 0x00FF0000 ≫ 8))
        (Z.land v 0xFF000000 ≫ 24).

(* src/inc/byte_order.hpp:19-22 *)
Definition hton64 (v : Z) : Z :=
  Z.lor (u64 (hton32 (u32 v) ≪ 32)) (hton32 (u32 (v ≫ 32))).

(* src/inc/byte_order.hpp:24-24 *)
Definition ntoh16 (v : Z) : Z := hton16 v.
(* src/inc/byte_order.hpp:25-25 *)
Definition ntoh32 (v : Z) : Z := hton32 v.
(* src/inc/byte_order.hpp:26-26 *)
Definition ntoh64 (v : Z) : Z := hton64 v.

(** ** Packing and unpacking at an offset of a buffer *)

(* src/src/sl_record.c:8-11 *)
Definition pack_u16 (out : list Z) (off v : Z) : M (list Z) :=
  store_bytes out off [u8 (v ≫ 8); u8 v].

(* src/src/sl_record.c:13-15 *)
Definition unpack_u16 (inp : list Z) (off : Z) : M Z :=
  let! p0 := load inp off in
  let! p1 := load inp (off + 1) in
  Ok (u16 (Z.lor (p0 ≪ 8) p1)).

(* src/inc/byte_order.hpp:29-34 *)
Definition pack_u32_be (out : list Z) (off v : Z) : M (list Z) :=
  store_bytes out off [u8 (v ≫ 24); u8 (v ≫ 16); u8 (v ≫ 8); u8 v].

(* src/inc/byte_order.hpp:36-41 *)
Definition unpack_u32_be (inp : list Z) (off : Z) : M Z :=
  let! p0 := load inp off in
  let! p1 := load inp (off + 1) in
  let! p2 := load inp (off + 2) in
  let! p3 := load inp (off + 3) in
  Ok (Z.lor (Z.lor (Z.lor (u32 (p0 ≪ 24)) (u32 (p1 ≪ 16))) (u32 (p2 ≪ 8))) p3).

(* src/inc/byte_order.hpp:43-46 *)
Definition pack_u64_be (out : list Z) (off v : Z) : M (list Z) :=
  let! out := pack_u32_be out off (u32 (v ≫ 32)) in
  pack_u32_be out (off + 4) (u32 v).

(* src/inc/byte_order.hpp:48-51 *)
Definition unpack_u64_be (inp : list Z) (off : Z) : M Z :=
  let! hi := unpack_u32_be inp off in
  let! lo := unpack_u32_be inp (off + 4) in
  Ok (Z.lor (u64 (hi ≪ 32)) lo).

(** ** The bytes of an integer determine it *)

Lemma shiftr_div v n : 0 <= n -> v ≫ n = v / 2 ^ n.
Proof. intros. by apply Z.shiftr_div_pow2. Qed.

Lemma combine16 a b : is_u8 a -> is_u8 b -> u16 (Z.lor (a ≪ 8) b) = a * 256 + b.
Proof. intros. rewrite lor_shiftl_add by lia. apply u16_small; lia. Qed.

Lemma combine32 a b c d :
  is_u8 a -> is_u8 b -> is_u8 c -> is_u8 d ->
  Z.lor (Z.lor (Z.lor (u32 (a ≪ 24)) (u32 (b ≪ 16))) (u32 (c ≪ 8))) d =
  a * 16777216 + b * 65536 + c * 256 + d.
Proof.
  intros. rewrite !u32_small by (rewrite Z.shiftl_mul_pow2 by lia; lia).
  replace (a ≪ 24) with ((a ≪ 8) ≪ 16) by (by rewrite Z.shiftl_shiftl by lia).
  rewrite <- Z.shiftl_lor, (lor_shiftl_add a b 8) by lia.
  replace ((a * 2 ^ 8 + b) ≪ 16) with (((a * 2 ^ 8 + b) ≪ 8) ≪ 8)
    by (by rewrite Z.shiftl_shiftl by lia).
  rewrite <- Z.shiftl_lor, (lor_shiftl_add _ c 8), lor_shiftl_add by lia. lia.
Qed.

Lemma combine64 a b :
  is_u32 a -> is_u32 b -> Z.lor (u64 (a ≪ 32)) b = a * 4294967296 + b.
Proof.
  intros. rewrite u64_small by (rewrite Z.shiftl_mul_pow2 by lia; lia).
  by rewrite lor_shiftl_add by lia.
Qed.

Lemma bytes16 v : is_u16 v -> u8 (v ≫ 8) * 256 + u8 v = v.
Proof. intros. rewrite shiftr_div by lia. wrap_lia. Qed.

Lemma bytes32 v :
  is_u32 v ->
  u8 (v ≫ 24) * 16777216 + u8 (v ≫ 16) * 65536 + u8 (v ≫ 8) * 256 + u8 v = v.
Proof. intros. rewrite !shiftr_div by lia. simpl Z.pow. wrap_lia. Qed.

Lemma words64 v : is_u64 v -> u32 (v ≫ 32) * 4294967296 + u32 v = v.
Proof. intros. rewrite shiftr_div by lia. simpl Z.pow. wrap_lia. Qed.

Lemma be16_of_bytes a b : is_u8 a -> is_u8 b -> be16 (a * 256 + b) = [a; b].
Proof. intros. unfold be16. rewrite shiftr_div by lia. repeat f_equal; wrap_lia. Qed.

Lemma be32_of_bytes a b c d :
  is_u8 a -> is_u8 b -> is_u8 c -> is_u8 d ->
  be32 (a * 16777216 + b * 65536 + c * 256 + d) = [a; b; c; d].
Proof.
  intros. unfold be32. rewrite !shiftr_div by lia. simpl Z.pow.
  repeat f_equal; wrap_lia.
Qed.

Lemma be64_of_words a b :
  is_u32 a -> is_u32 b -> be64 (a * 4294967296 + b) = be32 a ++ be32 b.
Proof.
  intros. unfold be64. rewrite shiftr_div by lia. simpl Z.pow.
  repeat f_equal; wrap_lia.
Qed.

(** ** Memory-level lemmas *)

Section Unpack.
  Context (pre post : list Z).

Lemma unpack_u16_at v off :
  off = len pre -> is_u16 v -> unpack_u16 (pre ++ be16 v ++ post) off = Ok v.
Proof.
  intros -> Hv. unfold unpack_u16, be16. cbn [app].
  rewrite load_app_mid, load_app_r by lia. load_step.
  rewrite combine16 by apply u8_range. by rewrite bytes16.
Qed.

Lemma unpack_u32_at v off :
  off = len pre -> is_u32 v -> unpack_u32_be (pre ++ be32 v ++ post) off = Ok v.
Proof.
  intros -> Hv. unfold unpack_u32_be, be32. cbn [app].
  rewrite load_app_mid, !load_app_r by lia. load_step.
  rewrite combine32 by apply u8_range. by rewrite bytes32.
Qed.
End Unpack.

Lemma unpack_u64_at pre post v off :
  off = len pre -> is_u64 v -> unpack_u64_be (pre ++ be64 v ++ post) off = Ok v.
Proof.
  intros -> Hv. unfold unpack_u64_be, be64. rewrite <- app_assoc.
  rewrite unpack_u32_at by (auto with wrap).
  rewrite app_assoc, unpack_u32_at by (auto with wrap || len_lia).
  rewrite combine64 by auto with wrap. by rewrite words64.
Qed.

(** In bounds, an unpack succeeds, its result is in range, and the bytes it read are
    the reference encoding of the result. *)
Lemma unpack_u16_prefix b x o v : unpack_u16 b o = Ok v -> unpack_u16 (b ++ x) o = Ok v.
Proof.
  unfold unpack_u16. destruct (load b o) eqn:E0; [|done]. destruct (load b (o + 1)) eqn:E1; [|done].
  by rewrite (load_prefix _ _ _ _ E0), (load_prefix _ _ _ _ E1).
Qed.

Lemma unpack_u32_prefix b x o v : unpack_u32_be b o = Ok v -> unpack_u32_be (b ++ x) o = Ok v.
Proof.
  unfold unpack_u32_be. destruct (load b o) eqn:E0; [|done].
  destruct (load b (o + 1)) eqn:E1; [|done]. destruct (load b (o + 2)) eqn:E2; [|done].
  destruct (load b (o + 3)) eqn:E3; [|done].
  by rewrite (load_prefix _ _ _ _ E0), (load_prefix _ _ _ _ E1), (load_prefix _ _ _ _ E2),
    (load_prefix _ _ _ _ E3).
Qed.

Lemma unpack_u16_sound inp off :
  bytes_ok inp -> 0 <= off -> off + 2 <= len inp ->
  exists v, unpack_u16 inp off = Ok v /\ is_u16 v /\
    drop (Z.to_nat off) inp = be16 v ++ drop (Z.to_nat (off + 2)) inp.
Proof.
  intros Hb Ho Hl.
  destruct (load_sound inp off) as (a & Ea & Ra & Ta); [done|lia..|].
  destruct (load_sound inp (off + 1)) as (b & Eb & Rb & Tb); [done|lia..|].
  exists (a * 256 + b). unfold unpack_u16. rewrite Ea, Eb, combine16 by done.
  split_and!; [done|lia..|].
  rewrite Ta, Tb, be16_of_bytes by done. by rewrite <- Z.add_assoc.
Qed.

Lemma unpack_u32_sound inp off :
  bytes_ok inp -> 0 <= off -> off + 4 <= len inp ->
  exists v, unpack_u32_be inp off = Ok v /\ is_u32 v /\
    drop (Z.to_nat off) inp = be32 v ++ drop (Z.to_nat (off + 4)) inp.
Proof.
  intros Hb Ho Hl.
  destruct (load_sound inp off) as (a & Ea & Ra & Ta); [done|lia..|].
  destruct (load_sound inp (off + 1)) as (b & Eb & Rb & Tb); [done|lia..|].
  destruct (load_sound inp (off + 2)) as (c & Ec & Rc & Tc); [done|lia..|].
  destruct (load_sound inp (off + 3)) as (d & Ed & Rd & Td); [done|lia..|].
  exists (a * 16777216 + b * 65536 + c * 256 + d).
  unfold unpack_u32_be. rewrite Ea, Eb, Ec, Ed, combine32 by done.
  split_and!; [done|lia..|].
  rewrite <- Z.add_assoc in Tb, Tc, Td.
  change (1 + 1) with 2 in Tb. change (2 + 1) with 3 in Tc. change (3 + 1) with 4 in Td.
  rewrite Ta, Tb, Tc, Td, be32_of_bytes by done. done.
Qed.

Lemma unpack_u64_sound inp off :
  bytes_ok inp -> 0 <= off -> off + 8 <= len inp ->
  exists v, unpack_u64_be inp off = Ok v /\ is_u64 v /\
    drop (Z.to_nat off) inp = be64 v ++ drop (Z.to_nat (off + 8)) inp.
Proof.
  intros Hb Ho Hl.
  destruct (unpack_u32_sound inp off) as (hi & Ehi & Rhi & Thi); [done|lia..|].
  destruct (unpack_u32_sound inp (off + 4)) as (lo & Elo & Rlo & Tlo); [done|lia..|].
  exists (hi * 4294967296 + lo). unfold unpack_u64_be.
  rewrite Ehi, Elo, combine64, be64_of_words by done.
  split_and!; [done|lia..|].
  rewrite Thi, Tlo, <- app_assoc, <- Z.add_assoc. done.
Qed.

(** ** Byte swapping *)

Lemma land_shiftl_mask v m n : 0 <= n -> Z.land v (m ≪ n) = Z.land (v ≫ n) m ≪ n.
Proof.
  intros. apply Z.bits_inj'; intros i Hi. rewrite Z.land_spec.
  destruct (decide (i < n)).
  - rewrite !Z.shiftl_spec_low by lia. apply andb_false_r.
  - rewrite !Z.shiftl_spec, Z.land_spec, Z.shiftr_spec by lia. do 2 f_equal. lia.
Qed.

Lemma byte_of_mask v n : 0 <= n -> Z.land v (0xFF ≪ n) = u8 (v ≫ n) ≪ n.
Proof. intros. rewrite land_shiftl_mask by lia. f_equal. by apply (Z.land_ones _ 8). Qed.

(** [hton32] puts the bytes of its argument in the opposite order. *)
Lemma hton32_value v :
  hton32 v = u8 v * 16777216 + u8 (v ≫ 8) * 65536 + u8 (v ≫ 16) * 256 + u8 (v ≫ 24).
Proof.
  unfold hton32.
  change 0xFF000000 with (0xFF ≪ 24). change 0x00FF0000 with (0xFF ≪ 16).
  change 0x0000FF00 with (0xFF ≪ 8). change 0x000000FF with (0xFF ≪ 0).
  rewrite !byte_of_mask by lia. rewrite !Z.shiftr_0_r, Z.shiftl_0_r.
  rewrite Z.shiftl_shiftl by lia. change (8 + 8) with 16.
  rewrite Z.shiftr_shiftl_l, Z.shiftr_shiftl_l by lia. change (16 - 8) with 8.
  rewrite Z.shiftl_0_r.
  rewrite <- (combine32 (u8 v) (u8 (v ≫ 8)) (u8 (v ≫ 16)) (u8 (v ≫ 24)))
    by apply u8_range.
  repeat f_equal. rewrite u32_small; [done|].
  rewrite Z.shiftl_mul_pow2 by lia. pose proof (u8_range (v ≫ 16)). lia.
Qed.

Lemma hton32_range v : is_u32 (hton32 v).
Proof.
  rewrite hton32_value.
  pose proof (u8_range v). pose proof (u8_range (v ≫ 8)).
  pose proof (u8_range (v ≫ 16)). pose proof (u8_range (v ≫ 24)). lia.
Qed.

Lemma hton32_rev v : be32 (hton32 v) = rev (be32 v).
Proof. rewrite hton32_value, be32_of_bytes by apply u8_range. done. Qed.

Lemma be32_inj v w : is_u32 v -> is_u32 w -> be32 v = be32 w -> v = w.
Proof.
  intros Hv Hw E. rewrite <- (bytes32 v Hv), <- (bytes32 w Hw).
  unfold be32 in E. congruence.
Qed.

Lemma hton32_involutive v : is_u32 v -> hton32 (hton32 v) = v.
Proof.
  intros. apply be32_inj; [apply hton32_range|done|].
  by rewrite !hton32_rev, rev_involutive.
Qed.

Lemma hton64_rev v : is_u64 v -> be64 (hton64 v) = rev (be64 v).
Proof.
  intros Hv. unfold hton64. rewrite combine64 by apply hton32_range.
  rewrite be64_of_words by apply hton32_range.
  unfold be64. by rewrite !hton32_rev, rev_app_distr.
Qed.

(** ** Filling a buffer with packed integers *)

Lemma pack_u16_append pre rest v off :
  off = len pre -> 2 <= len rest ->
  pack_u16 (pre ++ rest) off v = Ok ((pre ++ be16 v) ++ drop 2 rest).
Proof. intros. by apply (store_bytes_append pre rest (be16 v)). Qed.

Lemma pack_u32_append pre rest v off :
  off = len pre -> 4 <= len rest ->
  pack_u32_be (pre ++ rest) off v = Ok ((pre ++ be32 v) ++ drop 4 rest).
Proof. intros. by apply (store_bytes_append pre rest (be32 v)). Qed.

Lemma pack_u64_append pre rest v off :
  off = len pre -> 8 <= len rest ->
  pack_u64_be (pre ++ rest) off v = Ok ((pre ++ be64 v) ++ drop 8 rest).
Proof.
  intros. unfold pack_u64_be, be64.
  rewrite pack_u32_append by lia.
  rewrite pack_u32_append by (autorewrite with len; lia).
  by rewrite drop_drop, <- (app_assoc pre).
Qed.

(** Run the left-to-right writes of a packer on a buffer of the form [[] ++ out]. *)
Ltac fill_step :=
  first [ rewrite pack_u16_append by len_lia
        | rewrite pack_u32_append by len_lia
        | rewrite pack_u64_append by len_lia
        | rewrite store_bytes_append by len_lia ];
  cbv beta iota; rewrite ?drop_drop, ?length_replicate; cbn [length Nat.add].

(** ** Numbers written and read byte by byte *)

(** The eight bytes of a number, most significant first. *)
Definition u64_bytes (v : Z) : list Z := map (fun i => u8 (v ≫ (56 - 8 * Z.of_nat i))) (seq 0 8).
Definition bytes_u64 (b : list Z) : Z := foldl (fun v c => Z.lor (u64 (v ≪ 8)) c) 0 b.

Lemma u64_bytes_loop v :
  for_up 8 0 (fun i buf => store buf i (u8 (v ≫ (56 - 8 * i)))) (replicate 8 0) = Ok (u64_bytes v).
Proof. reflexivity. Qed.

Lemma bytes_u64_loop b :
  len b = 8 -> for_up 8 0 (fun i v => let! c := load b i in Ok (Z.lor (u64 (v ≪ 8)) c)) 0 = Ok (bytes_u64 b).
Proof.
  intros Hb. assert (Hl : length b = 8%nat) by (unfold len in Hb; lia).
  pose proof (for_up_list (fun c v => Z.lor (u64 (v ≪ 8)) c) (fun i v => let! c := load b i in Ok (Z.lor (u64 (v ≪ 8)) c)) b [] [] 0) as E.
  rewrite Hl in E. apply E. intros. by rewrite app_nil_r.
Qed.

Lemma shift_step v k :
  is_u64 v -> 0 <= k -> Z.lor (u64 ((v ≫ (k + 8)) ≪ 8)) (u8 (v ≫ k)) = v ≫ k.
Proof.
  intros Hv Hk. rewrite !Z.shiftr_div_pow2, Z.pow_add_r by lia. rewrite <- Z.div_div by lia.
  set (q := v / 2 ^ k). change (2 ^ 8) with 256. assert (Hq : 0 <= q < 2 ^ 64).
  { unfold q. split; [apply Z.div_pos; lia|]. apply Z.div_lt_upper_bound; [lia|]. nia. }
  pose proof (Z.div_mod q 256 ltac:(lia)). pose proof (Z.mod_pos_bound q 256 ltac:(lia)).
  assert (0 <= q / 256) by (apply Z.div_pos; lia).
  rewrite u64_small by (rewrite Z.shiftl_mul_pow2 by lia; change (2 ^ 8) with 256; lia).
  unfold u8. rewrite lor_shiftl_add by (simpl; lia). change (2 ^ 8) with 256. lia.
Qed.

Lemma bytes_u64_bytes v : is_u64 v -> bytes_u64 (u64_bytes v) = v.
Proof.
  intros Hv. unfold bytes_u64, u64_bytes. cbn [seq map foldl Z.of_nat].
  assert (H0 : 0 = v ≫ 64) by (rewrite Z.shiftr_div_pow2 by lia; symmetry; apply Z.div_small; lia).
  rewrite H0 at 1.
  do 8 (match goal with |- context [Z.lor (u64 ((v ≫ ?a) ≪ 8)) (u8 (v ≫ ?b))] =>
    replace (Z.lor (u64 ((v ≫ a) ≪ 8)) (u8 (v ≫ b))) with (v ≫ b)
      by (rewrite <- (shift_step v b) at 1 by lia; reflexivity) end).
  apply Z.shiftr_0_r.
Qed.

Lemma u64_bytes_ok v : bytes_ok (u64_bytes v) /\ len (u64_bytes v) = 8.
Proof. split; [|done]. apply Forall_map, Forall_true. intros i. apply u8_range. Qed.
