(* ===== verification/Codec.v ===== *)
(** Shared ground of the codecs, and the interface every fixed-layout message of securelink meets: a reference byte
    layout, a packer that writes it at the front of a caller's buffer, and an unpacker
    that reads it from the front of untrusted input. The codec files of the development
    give the instances; the connection, mux, file-transfer and persistence models use
    the laws. *)

From S2P Require Import Prelude ByteOrder.
Local Open Scope Z_scope.

(** ** Pointer and length pairs *)

(** A struct field [const uint8_t *p] with its length [n]: [None] is NULL, [Some b]
    points at the bytes [b], of which the first [n] belong to the message. *)
Definition ptr_bytes (p : option (list Z)) (n : Z) : list Z :=
  take (Z.to_nat n) (default [] p).

Lemma ptr_some_bytes (b : list Z) : ptr_bytes (Some b) (len b) = b.
Proof. unfold ptr_bytes. cbn. by rewrite len_to_nat, take_ge by lia. Qed.

(** The pair is usable: a positive length is backed by that many bytes. *)
Definition ptr_ok (p : option (list Z)) (n : Z) : Prop :=
  0 <= n /\ (0 < n -> exists b, p = Some b /\ n <= len b).

(** The form an unpacker leaves: NULL exactly for length 0, else exactly [n] bytes. *)
Definition ptr_canon (p : option (list Z)) (n : Z) : Prop :=
  0 <= n /\ len (ptr_bytes p n) = n /\ p = if 0 <? n then Some (ptr_bytes p n) else None.

(** The guard [n > 0 && !p]. *)
Definition null_with_len (p : option (list Z)) (n : Z) : bool :=
  (0 <? n) && bool_decide (p = None).

(** The idiom [if (n > 0) memcpy(out + off, p, n);]. *)
Definition memcpy_if (out : list Z) (off : Z) (p : option (list Z)) (n : Z) : M (list Z) :=
  if 0 <? n then
    let! b := load_bytes (default [] p) 0 n in store_bytes out off b
  else Ok out.

Lemma ptr_ok_guard p n : ptr_ok p n -> null_with_len p n = false.
Proof.
  intros [_ H]. unfold null_with_len. destruct (Z.ltb_spec 0 n) as [Hn|]; [|done].
  by destruct (H Hn) as (b & -> & _).
Qed.

Lemma len_ptr_bytes p n : ptr_ok p n -> len (ptr_bytes p n) = n.
Proof.
  intros [H0 H]. unfold ptr_bytes. destruct (decide (0 < n)) as [Hn|].
  - destruct (H Hn) as (b & -> & Hb). apply len_take. simpl. lia.
  - by replace n with 0 by lia.
Qed.

Lemma load_ptr p n : ptr_ok p n -> load_bytes (default [] p) 0 n = Ok (ptr_bytes p n).
Proof.
  intros [H0 H]. unfold ptr_bytes. destruct (decide (0 < n)) as [Hn|].
  - destruct (H Hn) as (b & -> & Hb). by rewrite load_bytes_in_bounds.
  - replace n with 0 by lia. rewrite load_bytes_in_bounds; [done|lia..|].
    pose proof (len_nonneg (default [] p)). lia.
Qed.

(** A name copied into a zeroed char array and NUL-terminated. *)
Lemma name_into_zeros name cap :
  len name < cap ->
  exists a, store_bytes (replicate (Z.to_nat cap) 0) 0 name = Ok a /\
    store_bytes a (len name) [0] = Ok (name ++ replicate (Z.to_nat (cap - len name)) 0).
Proof.
  intros Hn. pose proof (len_nonneg name). eexists. split; [apply store_bytes_0; len_lia|].
  rewrite drop_replicate, store_bytes_append by len_lia.
  rewrite drop_replicate, <- app_assoc. f_equal. f_equal.
  change ([0] ++ replicate ?n 0) with (replicate (S n) 0). f_equal. unfold len in *. simpl. lia.
Qed.

Lemma ptr_canon_ok p n : ptr_canon p n -> ptr_ok p n.
Proof.
  intros (H0 & Hl & Hp). split; [done|]. intros Hn.
  rewrite (proj2 (Z.ltb_lt 0 n) Hn) in Hp. eexists; split; [exact Hp|]. lia.
Qed.

Lemma ptr_canon_of_bytes b n :
  n = len b -> ptr_canon (if 0 <? n then Some b else None) n.
Proof.
  intros ->. unfold ptr_canon, ptr_bytes. pose proof (len_nonneg b).
  destruct (Z.ltb_spec 0 (len b)) as [Hl|Hl]; simpl.
  - rewrite len_to_nat, firstn_all. done.
  - assert (E : len b = 0) by lia. rewrite E. done.
Qed.

Lemma ptr_bytes_of_bytes b n :
  n = len b -> ptr_bytes (if 0 <? n then Some b else None) n = b.
Proof.
  intros ->. unfold ptr_bytes. pose proof (len_nonneg b).
  destruct (Z.ltb_spec 0 (len b)) as [Hl|Hl]; simpl.
  - by rewrite len_to_nat, firstn_all.
  - by rewrite (len_0_nil b) by lia.
Qed.

Lemma memcpy_if_append pre rest off p n :
  off = len pre -> ptr_ok p n -> n <= len rest ->
  memcpy_if (pre ++ rest) off p n =
  Ok ((pre ++ ptr_bytes p n) ++ drop (Z.to_nat n) rest).
Proof.
  intros Hoff Hp Hn. pose proof (len_ptr_bytes p n Hp) as Hl. destruct Hp as [H0 Hp].
  unfold memcpy_if. destruct (Z.ltb_spec 0 n) as [Hlt|Hge].
  - destruct (Hp Hlt) as (b & -> & Hb). simpl.
    rewrite load_bytes_in_bounds by lia.
    change (take (Z.to_nat n) (drop (Z.to_nat 0) b)) with (ptr_bytes (Some b) n).
    rewrite store_bytes_append by lia. unfold len in Hl.
    by replace (length (ptr_bytes (Some b) n)) with (Z.to_nat n) by lia.
  - assert (n = 0) as -> by lia. unfold ptr_bytes. simpl. by rewrite app_nil_r.
Qed.

Create HintDb codec.
#[export] Hint Resolve ptr_canon_ok ptr_ok_guard : codec.

(** Run a packer's writes, left to right, on [[] ++ out]; then compare the buffer with
    the reference layout. *)
Ltac fill :=
  repeat first [ fill_step
               | rewrite memcpy_if_append by (first [assumption | len_lia]);
                 cbv beta iota; rewrite ?drop_drop; cbn [length Nat.add] ].

Lemma fill_eq n w w' k (out : list Z) :
  n = len w -> w' = w -> Z.of_nat k = len w ->
  Ok (n, w' ++ drop k out) = Ok (len w, w ++ drop (length w) out).
Proof. intros -> -> Hk. do 4 f_equal. unfold len in Hk. lia. Qed.

Lemma fill_eq_with {B} n w w' k (out : list Z) (s : B) :
  n = len w -> w' = w -> Z.of_nat k = len w ->
  Ok (n, w' ++ drop k out, s) = Ok (len w, w ++ drop (length w) out, s).
Proof. intros -> -> Hk. by replace k with (length w) by (unfold len in Hk; lia). Qed.

Ltac fill_done def :=
  apply fill_eq; [lia | unfold def; rewrite <- ?app_assoc; reflexivity
                 | first [lia | unfold len in *; lia]].

(** ** Reading a buffer laid out as a concatenation of fields *)

Lemma load_seg {A} pre (b : A) post off : off = len pre -> load (pre ++ [b] ++ post) off = Ok b.
Proof. apply load_app_at. Qed.

Ltac read_at s :=
  lazymatch goal with
  | |- load _ _ = _ => lazymatch s with [_] => apply load_seg; len_lia end
  | |- unpack_u16 _ _ = _ =>
      lazymatch s with be16 _ => apply unpack_u16_at; [len_lia | lia] end
  | |- unpack_u32_be _ _ = _ =>
      lazymatch s with be32 _ => apply unpack_u32_at; [len_lia | lia] end
  | |- unpack_u64_be _ _ = _ =>
      lazymatch s with be64 _ => apply unpack_u64_at; [len_lia | lia] end
  | |- load_bytes _ _ _ = _ => apply load_bytes_app_mid; len_lia
  end.
Ltac read_loop pre l buf :=
  lazymatch l with
  | ?s ++ ?l' =>
      first
        [ replace buf with (pre ++ s ++ l') by (rewrite <- ?app_assoc; reflexivity);
          read_at s
        | read_loop (pre ++ s) l' buf ]
  | ?s => replace buf with (pre ++ s ++ []) by (rewrite app_nil_r, <- ?app_assoc; reflexivity);
          read_at s
  end.

(** Evaluate the reads of the goal one by one. *)
Ltac read_term t b :=
  let E := fresh "E" in
  eassert (E : t = Ok _) by (read_loop (@nil Z) b b); rewrite E; clear E; cbv beta iota.
Ltac read_step :=
  match goal with
  | |- context [load ?b ?o] => read_term (load b o) b
  | |- context [unpack_u16 ?b ?o] => read_term (unpack_u16 b o) b
  | |- context [unpack_u32_be ?b ?o] => read_term (unpack_u32_be b o) b
  | |- context [unpack_u64_be ?b ?o] => read_term (unpack_u64_be b o) b
  | |- context [load_bytes ?b ?o ?n] => read_term (load_bytes b o n) b
  end.

(** Evaluate the in-bounds reads of untrusted input [inp], keeping for each one the
    range of its result and the equation that names the bytes it read. *)
Ltac literal_offset T :=
  repeat match type of T with
  | context [Z.to_nat (?a + ?b)] =>
      let c := eval cbv in (a + b) in
      match c with
      | Zpos _ => change (Z.to_nat (a + b)) with (Z.to_nat c) in T
      end
  end.
Ltac sound_with lem :=
  let v := fresh "v" in let E := fresh "E" in let R := fresh "R" in let T := fresh "T" in
  destruct lem as (v & E & R & T); [assumption | len_lia .. | ];
  rewrite E; clear E; literal_offset T; cbv beta iota.
Ltac sound_read m :=
  lazymatch m with
  | load ?b ?o => sound_with (load_sound b o)
  | unpack_u16 ?b ?o => sound_with (unpack_u16_sound b o)
  | unpack_u32_be ?b ?o => sound_with (unpack_u32_sound b o)
  | unpack_u64_be ?b ?o => sound_with (unpack_u64_sound b o)
  | load_bytes ?b ?o ?n =>
      let v := fresh "bs" in let E := fresh "E" in let L := fresh "L" in
      let B := fresh "B" in let T := fresh "T" in
      destruct (load_bytes_sound b o n) as (v & E & L & B & T); [len_lia .. | ];
      rewrite E; clear E; literal_offset T; cbv beta iota
  end.
Ltac sound_step :=
  lazymatch goal with
  | |- _ (match ?m with Ok _ => _ | Fault => _ end) _ => sound_read m
  end.

(** Rebuild the input [inp] from the field equations [sound_step] left. *)
Ltac consume inp :=
  change inp with (drop (Z.to_nat 0) inp) at 1;
  repeat match goal with
  | T : drop ?n inp = _ |- drop ?n inp = _ => rewrite T; clear T
  | T : drop ?n inp = _ |- ?l = _ =>
      match l with context [drop n inp] => rewrite T; clear T end
  end; rewrite <- ?app_assoc; reflexivity.

(** The shapes of a soundness goal: the run completes and its result satisfies [P]; for
    an unpacker, every accepted message does. *)
Definition returns {A} (m : M A) (P : A -> Prop) : Prop := exists r, m = Ok r /\ P r.

Definition accepts {A} (m : M (option A)) (P : A -> Prop) : Prop :=
  returns m (fun r => match r with Some x => P x | None => True end).

Lemma returns_ok {A} (x : A) (P : A -> Prop) : P x -> returns (Ok x) P.
Proof. by exists x. Qed.

Lemma accepts_none {A} (P : A -> Prop) : accepts (Ok None) P.
Proof. by exists None. Qed.
Lemma accepts_impl {A} (m : M (option A)) (P Q : A -> Prop) :
  accepts m P -> (forall x, P x -> Q x) -> accepts m Q.
Proof. intros (r & -> & Hr) H. exists r. split; [done|]. destruct r; auto. Qed.
Lemma accepts_some {A} (x : A) (P : A -> Prop) : P x -> accepts (Ok (Some x)) P.
Proof. by exists (Some x). Qed.

Ltac branch_step :=
  match goal with
  | |- accepts (Ok None) _ => apply accepts_none
  | |- ?R (if ?a <? ?b then _ else _) _ => destruct (Z.ltb_spec a b)
  | |- ?R (if negb (?a =? ?b) then _ else _) _ => destruct (Z.eqb_spec a b); cbn [negb]
  | |- ?R (if ?a =? ?b then _ else _) _ => destruct (Z.eqb_spec a b)
  | |- ?R (if ?c then _ else _) _ => destruct c eqn:?
  end.

(** Decide the length and range tests of the goal that arithmetic settles. *)
Ltac test_step :=
  match goal with
  | |- context [?a <? ?b] =>
      first [ rewrite (proj2 (Z.ltb_ge a b)) by lia | rewrite (proj2 (Z.ltb_lt a b)) by lia ]
  | |- context [?a <=? ?b] =>
      first [ rewrite (proj2 (Z.leb_le a b)) by lia | rewrite (proj2 (Z.leb_gt a b)) by lia ]
  | |- context [?a =? ?b] =>
      first [ rewrite (proj2 (Z.eqb_eq a b)) by lia | rewrite (proj2 (Z.eqb_neq a b)) by lia ]
  end; cbn [negb andb orb].

(** ** The interface *)

(** [wire] is the layout the header comment of the C file documents; [packable] is the
    precondition on the caller's struct and buffers under which the packer accepts it,
    [valid] what the unpacker accepts. Both run in [M], so the laws include that
    neither touches memory outside its arguments. *)
Class WireFormat (T : Type) := {
  wire : T -> list Z;
  packable : T -> Prop;
  valid : T -> Prop;
  pack : T -> list Z -> M (Z * list Z);
  unpack : list Z -> M (option T);

  valid_packable : forall x, valid x -> packable x;
  pack_fits : forall x out,
    packable x -> len (wire x) <= len out ->
    pack x out = Ok (len (wire x), wire x ++ drop (length (wire x)) out);
  pack_short : forall x out,
    packable x -> len out < len (wire x) -> pack x out = Ok (-1, out);
  unpack_wire : forall x rest, valid x -> unpack (wire x ++ rest) = Ok (Some x);
  unpack_valid : forall inp, bytes_ok inp -> accepts (unpack inp) valid
}.

(** A format is canonical when what is accepted is exactly what the packer would write:
    no field of the layout is ignored on the way in. *)
Class CanonicalFormat (T : Type) `{WireFormat T} : Prop :=
  unpack_exact : forall inp,
    bytes_ok inp -> accepts (unpack inp) (fun x => exists rest, inp = wire x ++ rest).

Section Laws.
Context {T : Type} `{WireFormat T}.

(** Packing a valid message and unpacking the buffer gives it back, whatever the
    buffer held behind the message. *)
Lemma pack_unpack x out n out' :
  valid x -> pack x out = Ok (n, out') -> n <> -1 ->
  unpack out' = Ok (Some x) /\ n = len (wire x) /\
  out' = wire x ++ drop (length (wire x)) out.
Proof.
  intros Hv Hp Hn. pose proof (valid_packable x Hv) as Hpk.
  destruct (Z.le_gt_cases (len (wire x)) (len out)) as [Hl|Hl].
  - rewrite pack_fits in Hp by done. simplify_eq.
    split_and!; [by apply unpack_wire|done|done].
  - rewrite pack_short in Hp by done. simplify_eq.
Qed.

(** No valid message is a proper prefix of another: a byte stream splits into
    messages in one way only. *)
Lemma wire_prefix_free x y r1 r2 :
  valid x -> valid y -> wire x ++ r1 = wire y ++ r2 -> x = y /\ r1 = r2.
Proof.
  intros Hx Hy E.
  pose proof (unpack_wire x r1 Hx) as Ex. pose proof (unpack_wire y r2 Hy) as Ey.
  assert (x = y) as -> by congruence. split; [done|]. exact (app_inv_head _ _ _ E).
Qed.

(** Untrusted input never makes the unpacker read out of bounds. *)
Lemma unpack_no_fault inp : bytes_ok inp -> unpack inp <> Fault.
Proof. intros Hb. by destruct (unpack_valid _ Hb) as (r & -> & _). Qed.

Lemma unpack_some inp x : bytes_ok inp -> unpack inp = Ok (Some x) -> valid x.
Proof.
  intros Hb Hu. destruct (unpack_valid _ Hb) as (r & Hr & Hx). rewrite Hu in Hr. by simplify_eq.
Qed.

(** What the unpacker accepts, the packer writes again in a form that unpacks to the
    same message. *)
Lemma unpack_repack inp x out :
  bytes_ok inp -> unpack inp = Ok (Some x) -> len (wire x) <= len out ->
  exists out', pack x out = Ok (len (wire x), out') /\ unpack out' = Ok (Some x).
Proof.
  intros Hb Hu Hl. pose proof (unpack_some inp x Hb Hu) as Hv.
  rewrite pack_fits by auto using valid_packable. eexists. split; [done|]. by apply unpack_wire.
Qed.

(** In a canonical format the packer writes the input back byte for byte. *)
Lemma unpack_pack `{!CanonicalFormat T} inp x :
  bytes_ok inp -> unpack inp = Ok (Some x) ->
  exists rest, inp = wire x ++ rest /\ pack x inp = Ok (len (wire x), inp).
Proof.
  intros Hb Hu. pose proof (unpack_some inp x Hb Hu) as Hv.
  destruct (unpack_exact _ Hb) as (r & Hr & Hx). rewrite Hu in Hr. simplify_eq.
  destruct Hx as (rest & ->). exists rest. split; [done|].
  rewrite pack_fits; [|by apply valid_packable|rewrite len_app; pose proof (len_nonneg rest); lia].
  by rewrite drop_app_length.
Qed.
End Laws.
