(* ===== verification/Mem.v ===== *)
(** Constant-time memory helpers ([inc/sl_mem.h], [src/sl_mem.c]). A buffer argument
    [p, n] is the object [p] with the explicit count [n] the C loops run to. *)

From S2P Require Import Prelude.
Local Open Scope Z_scope.

(* src/src/sl_mem.c:6-12 *)
Definition sl_secure_zero (p : list Z) (n : Z) : M (list Z) :=
  if n =? 0 then Ok p
  else for_up (Z.to_nat n) 0 (fun i p => store p i 0) p.

(* src/src/sl_mem.c:14-26 *)
Definition sl_ct_equal (a b : list Z) (n : Z) : M Z :=
  let! diff := for_up (Z.to_nat n) 0 (fun i diff =>
    let! x := load a i in
    let! y := load b i in
    Ok (u8 (Z.lor diff (u8 (Z.lxor x y))))) 0 in
  Ok (Z.land 1 (u32 (diff - 1) ≫ 8)).

(* src/src/sl_mem.c:28-32 *)
Definition sl_xor_inplace (dst src : list Z) (n : Z) : M (list Z) :=
  for_up (Z.to_nat n) 0 (fun i d =>
    let! x := load d i in
    let! y := load src i in
    store d i (u8 (Z.lxor x y))) dst.

(* src/src/sl_mem.c:34-40 *)
Definition sl_ct_copy (dst src : list Z) (n : Z) (cond : Z) : M (list Z) :=
  let mask := u8 (- (if cond =? 0 then 0 else 1)) in
  for_up (Z.to_nat n) 0 (fun i d =>
    let! x := load d i in
    let! y := load src i in
    store d i (u8 (Z.lor (Z.land y mask) (Z.land x (u8 (Z.lnot mask)))))) dst.

(** ** Specifications *)

Lemma secure_zero_spec p n :
  0 <= n <= len p -> sl_secure_zero p n = Ok (replicate (Z.to_nat n) 0 ++ drop (Z.to_nat n) p).
Proof.
  intros Hn. unfold sl_secure_zero. destruct (Z.eqb_spec n 0) as [->|]; [done|].
  destruct (for_up_inv
    (fun i d => d = replicate (Z.to_nat i) 0 ++ drop (Z.to_nat i) p)
    (fun i p => store p i 0) (Z.to_nat n) 0 p) as (d & -> & ->); [done| |].
  - intros j d Hj ->. rewrite store_ok by (unfold len in *; rewrite length_app, length_replicate, length_drop; lia).
    eexists. split; [done|].
    destruct (lookup_lt_is_Some_2 p (Z.to_nat j)) as [x Hx]; [unfold len in Hn; lia|].
    rewrite (drop_S p x) by done.
    rewrite insert_app_r_alt, length_replicate, Nat.sub_diag by (rewrite length_replicate; lia).
    replace (Z.to_nat (j + 1)) with (S (Z.to_nat j)) by lia.
    by rewrite replicate_S_end, <- app_assoc.
  - by rewrite Z.add_0_l, Z2Nat.id by lia.
Qed.

(** The whole object, as [sl_secure_zero(x, sizeof(x))]. *)
Lemma secure_zero_all p : sl_secure_zero p (len p) = Ok (replicate (length p) 0).
Proof.
  rewrite secure_zero_spec by (pose proof (len_nonneg p); lia).
  by rewrite len_to_nat, drop_ge, app_nil_r.
Qed.

Lemma lxor_eq_0 x y : Z.lxor x y = 0 <-> x = y.
Proof. apply Z.lxor_eq_0_iff. Qed.

Lemma ct_equal_bit diff :
  is_u8 diff -> Z.land 1 (u32 (diff - 1) ≫ 8) = if decide (diff = 0) then 1 else 0.
Proof.
  intros Hd. destruct (decide (diff = 0)) as [->|Hne]; [done|].
  rewrite u32_small, Z.shiftr_div_pow2 by lia. rewrite Z.div_small by (simpl; lia). done.
Qed.

(** The differences of the first [n] bytes, folded together, are zero when there are none. *)
Lemma ct_diff_spec a b n :
  bytes_ok a -> bytes_ok b -> 0 <= n -> n <= len a -> n <= len b ->
  exists diff, for_up (Z.to_nat n) 0 (fun i diff => let! x := load a i in let! y := load b i in
                   Ok (u8 (Z.lor diff (u8 (Z.lxor x y))))) 0 = Ok diff /\
    is_u8 diff /\ (diff = 0 <-> take (Z.to_nat n) a = take (Z.to_nat n) b).
Proof.
  intros Ha Hb H0 Hna Hnb.
  destruct (for_up_inv
    (fun i diff => is_u8 diff /\ (diff = 0 <-> take (Z.to_nat i) a = take (Z.to_nat i) b))
    (fun i diff => let! x := load a i in let! y := load b i in
                   Ok (u8 (Z.lor diff (u8 (Z.lxor x y)))))
    (Z.to_nat n) 0 0) as (diff & -> & Hd & Hiff); [done| |].
  - intros j diff Hj [Hd Hiff].
    destruct (load_in_bounds a j) as (x & -> & Hx); [lia|].
    destruct (load_in_bounds b j) as (y & -> & Hy); [lia|].
    pose proof (Forall_lookup_1 _ _ _ _ Ha Hx) as Hxr.
    pose proof (Forall_lookup_1 _ _ _ _ Hb Hy) as Hyr. simpl in Hxr, Hyr.
    eexists. split; [done|]. split; [apply u8_range|].
    rewrite (u8_small (Z.lxor x y)) by (by apply lxor_u8).
    replace (Z.to_nat (j + 1)) with (S (Z.to_nat j)) by lia.
    rewrite (take_S_r a _ x), (take_S_r b _ y), app_inj_tail_iff, <- Hiff, <- (lxor_eq_0 x y) by done.
    rewrite <- Z.lor_eq_0_iff. unfold u8.
    assert (Hr : 0 <= Z.lor diff (Z.lxor x y) < 2 ^ 8).
    { pose proof (lxor_u8 x y Hxr Hyr) as Hl. split; [apply Z.lor_nonneg; lia|].
      rewrite <- (Z.mod_small diff (2 ^ 8)), <- (Z.mod_small (Z.lxor x y) (2 ^ 8)) by lia.
      rewrite <- !Z.land_ones, <- Z.land_lor_distr_l, Z.land_ones by lia.
      apply Z.mod_pos_bound. lia. }
    change (2 ^ 8) with 256 in Hr. by rewrite Z.mod_small.
  - rewrite Z.add_0_l, Z2Nat.id in Hiff by lia.
    by exists diff.
Qed.

(** The comparison is exact: one for equal prefixes of [n] bytes, zero otherwise. *)
Lemma ct_equal_spec a b n :
  bytes_ok a -> bytes_ok b -> 0 <= n -> n <= len a -> n <= len b ->
  sl_ct_equal a b n =
  Ok (if decide (take (Z.to_nat n) a = take (Z.to_nat n) b) then 1 else 0).
Proof.
  intros Ha Hb H0 Hna Hnb. unfold sl_ct_equal. destruct (ct_diff_spec a b n) as (diff & -> & Hd & Hiff); [done..|].
  rewrite ct_equal_bit by done. f_equal. by apply decide_ext.
Qed.


Lemma xor_inplace_spec dst src n :
  n = len src -> n <= len dst ->
  sl_xor_inplace dst src n =
  Ok (zip_with (fun x y => u8 (Z.lxor x y)) (take (Z.to_nat n) dst) src ++ drop (Z.to_nat n) dst).
Proof.
  intros -> Hl. unfold sl_xor_inplace. rewrite len_to_nat.
  rewrite <- (take_drop (length src) dst) at 1.
  apply for_up_zip0.
  rewrite length_take. unfold len in Hl. lia.
Qed.

Lemma zip_with_left f (l k : list Z) :
  length l = length k -> bytes_ok l -> bytes_ok k ->
  (forall x y, is_u8 x -> is_u8 y -> f x y = x) -> zip_with f l k = l.
Proof.
  intros Hl Hb Hk Hf. revert k Hl Hk. induction Hb as [|x l Hx Hb IH]; intros [|y k] Hl Hk; try done.
  inversion Hk; subst. simpl in *. rewrite Hf, IH by (done || lia). done.
Qed.

Lemma zip_with_right f (l k : list Z) :
  length l = length k -> bytes_ok l -> bytes_ok k ->
  (forall x y, is_u8 x -> is_u8 y -> f x y = y) -> zip_with f l k = k.
Proof.
  intros Hl Hb Hk Hf. rewrite <- zip_with_flip. apply zip_with_left; unfold flip; auto.
Qed.

Lemma land_255 x : is_u8 x -> Z.land x 255 = x.
Proof. intros. change 255 with (Z.ones 8). rewrite Z.land_ones, Z.mod_small; simpl; lia. Qed.

(** A non-zero condition copies all of [src], zero copies nothing. *)
Lemma ct_copy_spec dst src n cond :
  bytes_ok dst -> bytes_ok src -> n = len src -> n <= len dst ->
  sl_ct_copy dst src n cond =
  Ok (if cond =? 0 then dst else src ++ drop (length src) dst).
Proof.
  intros Hd Hs -> Hl. unfold sl_ct_copy. rewrite len_to_nat.
  set (mask := u8 (- (if cond =? 0 then 0 else 1))).
  rewrite <- (take_drop (length src) dst) at 1.
  rewrite (for_up_zip0 (fun x y => u8 (Z.lor (Z.land y mask) (Z.land x (u8 (Z.lnot mask))))))
    by (rewrite length_take; unfold len in Hl; lia).
  assert (Hld : length (take (length src) dst) = length src)
    by (rewrite length_take; unfold len in Hl; lia).
  apply (bytes_ok_take (length src)) in Hd as Ht. cbn [app]. f_equal.
  destruct (cond =? 0); subst mask.
  - change (u8 (- 0)) with 0. change (u8 (Z.lnot 0)) with 255.
    rewrite zip_with_left; [apply take_drop|done..|].
    intros x y Hx _. by rewrite Z.land_0_r, Z.lor_0_l, land_255, u8_small.
  - change (u8 (- 1)) with 255. change (u8 (Z.lnot 255)) with 0. f_equal.
    apply zip_with_right; [done..|].
    intros x y _ Hy. by rewrite Z.land_0_r, Z.lor_0_r, land_255, u8_small.
Qed.
