(* ===== verification/Circ.v ===== *)
(** Circular buffers: the two-part copies that [src/sl_ring.c] and
    [src/sl_send_queue.c] share, and what they do to the bytes a buffer holds. *)

From S2P Require Import Prelude.
Local Open Scope Z_scope.

(** [memcpy(buf + pos, data, first); if (n > first) memcpy(buf, data + first, n - first);]
    with [first = min(cap - pos, n)]. *)
(* src/src/sl_ring.c:41-45 sl_ring_push *)
Definition circ_write (buf : list Z) (cap pos : Z) (data : list Z) (n : Z) : M (list Z) :=
  let first := if cap - pos <? n then cap - pos else n in
  let! d := load_bytes data 0 first in
  let! buf := store_bytes buf pos d in
  if first <? n then
    let! d := load_bytes data first (n - first) in store_bytes buf 0 d
  else Ok buf.

(** The mirror image, into [out]. *)
(* src/src/sl_ring.c:57-61 sl_ring_pop *)
Definition circ_read (buf : list Z) (cap pos : Z) (out : list Z) (n : Z) : M (list Z) :=
  let first := if cap - pos <? n then cap - pos else n in
  let! d := load_bytes buf pos first in
  let! out := store_bytes out 0 d in
  if first <? n then
    let! d := load_bytes buf 0 (n - first) in store_bytes out first d
  else Ok out.

(** Index [x] of an unrolled buffer, for [0 <= x < 2 * cap]. *)
Definition wrap_idx (cap x : Z) : Z := if x <? cap then x else x - cap.

Lemma wrap_idx_mod cap x : 0 <= x < 2 * cap -> x mod cap = wrap_idx cap x.
Proof.
  intros Hx. unfold wrap_idx. destruct (Z.ltb_spec x cap).
  - apply Z.mod_small. lia.
  - symmetry. apply Z.mod_unique_pos with 1; lia.
Qed.

(** [buf] holds the byte string [l] from position [pos] on, wrapping at the end. *)
Record circ_holds (buf : list Z) (cap pos : Z) (l : list Z) : Prop := {
  circ_len : len buf = cap;
  circ_pos : 0 <= pos < cap;
  circ_fits : len l <= cap;
  circ_at : forall i, 0 <= i < len l ->
    buf !! Z.to_nat (wrap_idx cap (pos + i)) = l !! Z.to_nat i
}.

Lemma circ_holds_nil buf cap pos : len buf = cap -> 0 <= pos < cap -> circ_holds buf cap pos [].
Proof. intros. split; [done|done|unfold len; simpl; lia|unfold len; simpl; lia]. Qed.

(** What a write changes, position by position. *)
Lemma store_bytes_lookup buf off bs :
  0 <= off -> off + len bs <= len buf ->
  exists buf', store_bytes buf off bs = Ok buf' /\ len buf' = len buf /\
    forall j, 0 <= j ->
      buf' !! Z.to_nat j =
      if (off <=? j) && (j <? off + len bs) then bs !! Z.to_nat (j - off) else buf !! Z.to_nat j.
Proof.
  intros H0 Hl. eexists. split; [by apply store_bytes_in_bounds|]. split.
  { unfold len in *. rewrite !length_app, length_take, length_drop. lia. }
  intros j Hj. unfold len in *.
  destruct (Z.leb_spec off j), (Z.ltb_spec j (off + Z.of_nat (length bs))); simpl; try lia.
  - rewrite lookup_app_r by (rewrite length_take; lia). rewrite length_take.
    rewrite lookup_app_l by lia. f_equal. lia.
  - rewrite lookup_app_r, length_take by (rewrite length_take; lia).
    rewrite lookup_app_r by lia. rewrite lookup_drop. f_equal. lia.
  - by rewrite lookup_app_l, lookup_take_lt by (try rewrite length_take; lia).
Qed.

Lemma load_bytes_lookup buf off n :
  0 <= off -> 0 <= n -> off + n <= len buf ->
  exists bs, load_bytes buf off n = Ok bs /\ len bs = n /\
    forall j, 0 <= j < n -> bs !! Z.to_nat j = buf !! Z.to_nat (off + j).
Proof.
  intros H0 Hn Hl. eexists. split; [by apply load_bytes_in_bounds|]. split.
  { unfold len in *. rewrite length_take, length_drop. lia. }
  intros j Hj. rewrite lookup_take_lt, lookup_drop by lia. f_equal. lia.
Qed.

Lemma lookup_app_Z {A} (l k : list A) i :
  0 <= i -> (l ++ k) !! Z.to_nat i = if i <? len l then l !! Z.to_nat i else k !! Z.to_nat (i - len l).
Proof.
  intros Hi. unfold len. destruct (Z.ltb_spec i (Z.of_nat (length l))).
  - apply lookup_app_l. lia.
  - rewrite lookup_app_r by lia. f_equal. lia.
Qed.

Ltac test_ltb :=
  match goal with
  | |- context [?a <? ?b] => destruct (Z.ltb_spec a b); try lia
  | |- context [?a <=? ?b] => destruct (Z.leb_spec a b); try lia
  end; cbn [andb].

(** Writing behind the stored bytes appends to them. *)
Lemma circ_write_spec buf cap pos l data n :
  circ_holds buf cap pos l -> 0 <= n <= len data -> len l + n <= cap ->
  exists buf', circ_write buf cap (wrap_idx cap (pos + len l)) data n = Ok buf' /\
    circ_holds buf' cap pos (l ++ take (Z.to_nat n) data).
Proof.
  intros [Hc Hp Hf Hat] Hn Hl. pose proof (len_nonneg l).
  unfold circ_write. set (w := wrap_idx cap (pos + len l)).
  assert (Hw : 0 <= w /\ (w < cap \/ n = 0 /\ w <= cap)).
  { unfold w, wrap_idx. destruct (Z.ltb_spec (pos + len l) cap); lia. }
  set (first := if cap - w <? n then cap - w else n).
  assert (Hfst : 0 <= first <= n /\ first <= cap - w /\ (first < n -> first = cap - w)).
  { unfold first. destruct (Z.ltb_spec (cap - w) n); lia. }
  clearbody first.
  destruct (load_bytes_lookup data 0 first) as (d1 & -> & L1 & A1); [lia..|].
  destruct (store_bytes_lookup buf w d1) as (b1 & -> & Lb1 & B1); [lia..|].
  destruct (Z.ltb_spec first n).
  - destruct (load_bytes_lookup data first (n - first)) as (d2 & -> & L2 & A2); [lia..|].
    destruct (store_bytes_lookup b1 0 d2) as (b2 & -> & Lb2 & B2); [lia..|].
    exists b2. split; [done|]. split; [lia|done|len_lia|].
    rewrite len_app, len_take by lia. intros i Hi.
    rewrite lookup_app_Z by lia. destruct (Z.ltb_spec i (len l)) as [Hil|Hil].
    + rewrite <- Hat by lia. unfold w, wrap_idx in *.
      destruct (Z.ltb_spec (pos + i) cap), (Z.ltb_spec (pos + len l) cap);
        rewrite B2, L2, B1, L1 by lia; repeat test_ltb; done.
    + rewrite lookup_take_lt by lia. unfold w, wrap_idx in *.
      destruct (Z.ltb_spec (pos + i) cap), (Z.ltb_spec (pos + len l) cap);
        rewrite B2, L2, B1, L1 by lia; repeat test_ltb; rewrite ?A1, ?A2 by lia; f_equal; lia.
  - exists b1. split; [done|]. split; [lia|done|len_lia|].
    rewrite len_app, len_take by lia. intros i Hi.
    rewrite lookup_app_Z by lia. destruct (Z.ltb_spec i (len l)) as [Hil|Hil].
    + rewrite <- Hat by lia. unfold w, wrap_idx in *.
      destruct (Z.ltb_spec (pos + i) cap), (Z.ltb_spec (pos + len l) cap);
        rewrite B1, L1 by lia; repeat test_ltb; done.
    + rewrite lookup_take_lt by lia. unfold w, wrap_idx in *.
      destruct (Z.ltb_spec (pos + i) cap), (Z.ltb_spec (pos + len l) cap);
        rewrite B1, L1 by lia; repeat test_ltb; rewrite ?A1 by lia; f_equal; lia.
Qed.

Lemma list_eq_Z {A} (l k : list A) :
  len l = len k -> (forall i, 0 <= i < len l -> l !! Z.to_nat i = k !! Z.to_nat i) -> l = k.
Proof.
  intros Hl H. apply list_eq_same_length with (length k); [done|unfold len in Hl; lia|].
  intros i x y Hi Hx Hy. specialize (H (Z.of_nat i)). rewrite Nat2Z.id, Hx, Hy in H.
  unfold len in *. assert (Some x = Some y) by (apply H; lia). congruence.
Qed.

(** Reading from the front of the stored bytes copies a prefix of them. *)
Lemma circ_read_spec buf cap pos l out n :
  circ_holds buf cap pos l -> 0 <= n <= len l -> n <= len out ->
  circ_read buf cap pos out n = Ok (take (Z.to_nat n) l ++ drop (Z.to_nat n) out).
Proof.
  intros [Hc Hp Hf Hat] Hn Ho. unfold circ_read.
  set (first := if cap - pos <? n then cap - pos else n).
  assert (Hfst : 0 <= first <= n /\ first <= cap - pos /\ (first < n -> first = cap - pos)).
  { unfold first. destruct (Z.ltb_spec (cap - pos) n); lia. }
  clearbody first.
  destruct (load_bytes_lookup buf pos first) as (d1 & -> & L1 & A1); [lia..|].
  destruct (store_bytes_lookup out 0 d1) as (o1 & -> & Lo1 & O1); [lia..|].
  destruct (Z.ltb_spec first n).
  - destruct (load_bytes_lookup buf 0 (n - first)) as (d2 & -> & L2 & A2); [lia..|].
    destruct (store_bytes_lookup o1 first d2) as (o2 & -> & Lo2 & O2); [lia..|].
    f_equal. apply list_eq_Z; [rewrite len_app, len_take, len_drop by lia; lia|].
    intros i Hi. rewrite O2, lookup_app_Z, len_take, L2, O1, L1 by lia.
    destruct (Z.ltb_spec i n).
    + rewrite lookup_take_lt, <- Hat by lia. unfold wrap_idx.
      repeat test_ltb; rewrite ?A1, ?A2 by lia; f_equal; lia.
    + rewrite lookup_drop. repeat test_ltb. f_equal. lia.
  - f_equal. apply list_eq_Z; [rewrite len_app, len_take, len_drop by lia; lia|].
    intros i Hi. rewrite O1, lookup_app_Z, len_take, L1 by lia.
    destruct (Z.ltb_spec i n).
    + rewrite lookup_take_lt, <- Hat by lia. unfold wrap_idx.
      repeat test_ltb; rewrite ?A1 by lia; f_equal; lia.
    + rewrite lookup_drop. repeat test_ltb. f_equal. lia.
Qed.

(** Dropping from the front moves the read position. *)
Lemma circ_advance buf cap pos l n :
  circ_holds buf cap pos l -> 0 <= n <= len l ->
  circ_holds buf cap ((pos + n) mod cap) (drop (Z.to_nat n) l).
Proof.
  intros [Hc Hp Hf Hat] Hn. rewrite wrap_idx_mod by lia.
  split; [done|unfold wrap_idx; test_ltb|rewrite len_drop by lia; lia|].
  rewrite len_drop by lia. intros i Hi. rewrite lookup_drop.
  replace (Z.to_nat n + Z.to_nat i)%nat with (Z.to_nat (n + i)) by lia.
  rewrite <- Hat by lia. do 2 f_equal. unfold wrap_idx. repeat test_ltb; lia.
Qed.
