(* ===== verification/Crc32.v ===== *)
(** CRC-32C ([inc/sl_crc32.h], [src/sl_crc32.c]): the table-driven checksum, its
    equality with the bit-serial definition, and what it detects. *)

From S2P Require Import Prelude.
Local Open Scope Z_scope.

Definition crc_poly : Z := 0x82F63B78.

(** [c = (c & 1) ? (poly ^ (c >> 1)) : (c >> 1)] *)
Definition crc_step (c : Z) : Z :=
  if negb (Z.land c 1 =? 0) then Z.lxor crc_poly (c ≫ 1) else c ≫ 1.

(** The file's two statics. *)
(* src/src/sl_crc32.c:3-4 g_table *)
Record crc_statics := mk_statics { g_table : list Z; g_table_ready : bool }.

(** The statics at program start. *)
Definition crc_start : crc_statics := mk_statics (replicate 256 0) false.

(* src/src/sl_crc32.c:6-16 *)
Definition build_table (s : crc_statics) : M crc_statics :=
  let! t := for_up 256 0 (fun i t => store t i (Nat.iter 8 crc_step i)) (g_table s) in
  Ok (mk_statics t true).

(* src/src/sl_crc32.c:18-20 *)
Definition sl_crc32c_init : Z := 0xFFFFFFFF.

(* src/src/sl_crc32.c:22-29 *)
Definition sl_crc32c_update (s : crc_statics) (crc : Z) (data : list Z) : M (Z * crc_statics) :=
  let! s := (if negb (g_table_ready s) then build_table s else Ok s) in
  let! crc := for_up (length data) 0 (fun i crc =>
    let! b := load data i in
    let! t := load (g_table s) (Z.land (Z.lxor crc b) 0xFF) in
    Ok (Z.lxor t (crc ≫ 8))) crc in
  Ok (crc, s).

(* src/src/sl_crc32.c:31-33 *)
Definition sl_crc32c_finalize (crc : Z) : Z := Z.lxor crc 0xFFFFFFFF.

(* src/src/sl_crc32.c:35-39 *)
Definition sl_crc32c (s : crc_statics) (data : list Z) : M (Z * crc_statics) :=
  let! '(crc, s) := sl_crc32c_update s sl_crc32c_init data in
  Ok (sl_crc32c_finalize crc, s).

(** ** The bit-serial definition *)

Definition crc_byte (crc b : Z) : Z := Nat.iter 8 crc_step (Z.lxor crc b).
Definition crc_bits (crc : Z) (data : list Z) : Z := foldl crc_byte crc data.
Definition crc32c (data : list Z) : Z := Z.lxor (crc_bits 0xFFFFFFFF data) 0xFFFFFFFF.

(** *** The shift register is linear *)

Lemma crc_step_odd c : crc_step c = Z.lxor (if Z.odd c then crc_poly else 0) (c ≫ 1).
Proof.
  unfold crc_step. rewrite <- (Z.shiftr_0_r c) at 1. rewrite land_shiftr_1, Z.bit0_odd.
  by destruct (Z.odd c); rewrite ?Z.lxor_0_l.
Qed.

Lemma crc_step_lxor a b : crc_step (Z.lxor a b) = Z.lxor (crc_step a) (crc_step b).
Proof.
  rewrite !crc_step_odd, Z.shiftr_lxor, <- !Z.bit0_odd, Z.lxor_spec.
  destruct (Z.testbit a 0), (Z.testbit b 0); simpl; rewrite ?Z.lxor_0_l; [|by rewrite Z.lxor_assoc| |done].
  - rewrite (Z.lxor_comm crc_poly (a ≫ 1)), Z.lxor_assoc, <- (Z.lxor_assoc crc_poly crc_poly).
    by rewrite Z.lxor_nilpotent, Z.lxor_0_l.
  - by rewrite <- Z.lxor_assoc, (Z.lxor_comm crc_poly), Z.lxor_assoc.
Qed.

Lemma crc_iter_lxor n a b :
  Nat.iter n crc_step (Z.lxor a b) = Z.lxor (Nat.iter n crc_step a) (Nat.iter n crc_step b).
Proof. induction n as [|n IH]; simpl; [done|]. by rewrite IH, crc_step_lxor. Qed.

(** Low zero bits just shift out. *)
Lemma crc_iter_shift n x : Nat.iter n crc_step (x ≪ Z.of_nat n) = x.
Proof.
  revert x. induction n as [|n IH]; intros x; simpl; [apply Z.shiftl_0_r|].
  rewrite Nat2Z.inj_succ, <- Z.add_1_l, <- Z.shiftl_shiftl by lia. rewrite IH, crc_step_odd.
  rewrite <- Z.bit0_odd, Z.shiftl_spec_low by lia. simpl.
  rewrite Z.lxor_0_l, Z.shiftr_shiftl_l by lia. apply Z.shiftl_0_r.
Qed.

Lemma split_low x : 0 <= x -> x = Z.lxor (Z.land x 0xFF) ((x ≫ 8) ≪ 8).
Proof.
  intros Hx. apply Z.bits_inj'. intros i Hi. change 0xFF with (Z.ones 8).
  rewrite Z.lxor_spec, Z.land_spec, Z.testbit_ones, Z.shiftl_spec by lia.
  destruct (Z.ltb_spec i 8).
  - rewrite (Z.testbit_neg_r _ (i - 8)), xorb_false_r by lia.
    rewrite (proj2 (Z.leb_le 0 i)) by lia. by rewrite andb_true_r.
  - rewrite Z.shiftr_spec by lia. rewrite andb_false_r, andb_false_r, xorb_false_l. f_equal. lia.
Qed.

(** One table look-up does the work of eight shifts. *)
Lemma crc_byte_table crc b :
  0 <= crc -> is_u8 b ->
  crc_byte crc b = Z.lxor (Nat.iter 8 crc_step (Z.land (Z.lxor crc b) 0xFF)) (crc ≫ 8).
Proof.
  intros Hc Hb. unfold crc_byte.
  rewrite (split_low (Z.lxor crc b)) at 1 by (apply Z.lxor_nonneg; lia).
  rewrite crc_iter_lxor. f_equal. change 8%nat with (Z.to_nat 8).
  rewrite (crc_iter_shift 8). rewrite Z.shiftr_lxor, (Z.shiftr_div_pow2 b), Z.div_small by (simpl; lia).
  apply Z.lxor_0_r.
Qed.

(** *** Range *)

Lemma half_range c : is_u32 c -> 0 <= c ≫ 1 < 2147483648.
Proof. intros. rewrite Z.shiftr_div_pow2 by lia. change (2 ^ 1) with 2. Z.div_mod_to_equations; lia. Qed.

Lemma crc_step_range c : is_u32 c -> is_u32 (crc_step c).
Proof.
  intros Hc. pose proof (half_range c Hc). rewrite crc_step_odd. apply lxor_u32; [|lia].
  by destruct (Z.odd c).
Qed.

Lemma crc_iter_range n c : is_u32 c -> is_u32 (Nat.iter n crc_step c).
Proof. intros Hc. induction n; simpl; [done|]. by apply crc_step_range. Qed.

Lemma crc_byte_range crc b : is_u32 crc -> is_u8 b -> is_u32 (crc_byte crc b).
Proof. intros. apply crc_iter_range, lxor_u32; lia. Qed.

Lemma crc_bits_range data crc : is_u32 crc -> bytes_ok data -> is_u32 (crc_bits crc data).
Proof.
  intros Hc Hd. revert crc Hc. induction Hd as [|b data Hb Hd IH]; intros crc Hc; [done|].
  apply IH. by apply crc_byte_range.
Qed.

(** *** The table *)

Definition table_ok (t : list Z) (n : Z) : Prop :=
  len t = 256 /\ forall i, 0 <= i < n -> t !! Z.to_nat i = Some (Nat.iter 8 crc_step i).

Definition statics_ok (s : crc_statics) : Prop :=
  len (g_table s) = 256 /\ (g_table_ready s = true -> table_ok (g_table s) 256).

Lemma build_table_ok s :
  len (g_table s) = 256 ->
  exists s', build_table s = Ok s' /\ g_table_ready s' = true /\ table_ok (g_table s') 256.
Proof.
  intros Hl. unfold build_table.
  destruct (for_up_inv (fun i t => table_ok t i)
              (fun i t => store t i (Nat.iter 8 crc_step i)) 256 0 (g_table s)) as (t & -> & Ht).
  - split; [done|]. intros; lia.
  - intros j t Hj [Htl Ht]. rewrite store_ok by lia. eexists. split; [done|].
    split; [by rewrite len_insert|]. intros i Hi.
    destruct (decide (i = j)) as [->|Hne].
    + apply list_lookup_insert_eq. unfold len in Htl. lia.
    + rewrite list_lookup_insert_ne by lia. apply Ht. lia.
  - eexists. split; [done|]. split; [done|]. exact Ht.
Qed.

Lemma land_FF_range x : is_u8 (Z.land x 0xFF).
Proof. change 0xFF with (Z.ones 8). rewrite Z.land_ones by lia. apply Z.mod_pos_bound. lia. Qed.

(** Whatever the state of the lazily built table, an update computes the bit-serial
    checksum and leaves the table built. *)
Lemma crc_update_spec s crc data :
  statics_ok s -> is_u32 crc -> bytes_ok data ->
  exists s', sl_crc32c_update s crc data = Ok (crc_bits crc data, s') /\ statics_ok s' /\
    g_table_ready s' = true.
Proof.
  intros Hs Hc Hd. unfold sl_crc32c_update.
  assert (exists s1, (if negb (g_table_ready s) then build_table s else Ok s) = Ok s1 /\
            g_table_ready s1 = true /\ table_ok (g_table s1) 256) as (s1 & -> & Hready & Ht).
  { destruct Hs as [Hl Hr]. destruct (g_table_ready s) eqn:E; simpl; [eauto 6|by apply build_table_ok]. }
  destruct (for_up_inv (fun i c => is_u32 c /\ c = crc_bits crc (take (Z.to_nat i) data))
    (fun i crc => let! b := load data i in
                  let! t := load (g_table s1) (Z.land (Z.lxor crc b) 0xFF) in
                  Ok (Z.lxor t (crc ≫ 8))) (length data) 0 crc) as (c & -> & Hcr & ->).
  - done.
  - intros j c Hj [Hcr ->]. destruct (load_in_bounds data j) as (b & -> & Hb); [unfold len; lia|].
    pose proof (Forall_lookup_1 _ _ _ _ Hd Hb) as Hbr. simpl in Hbr.
    set (c := crc_bits crc (take (Z.to_nat j) data)) in *.
    pose proof (land_FF_range (Z.lxor c b)) as Hi.
    rewrite (load_ok _ _ _ (proj1 Hi) (proj2 Ht _ Hi)), <- crc_byte_table by lia.
    eexists. split; [done|]. split; [by apply crc_byte_range|].
    replace (Z.to_nat (j + 1)) with (S (Z.to_nat j)) by lia.
    rewrite (take_S_r _ _ b) by done. unfold crc_bits. by rewrite foldl_app.
  - exists s1. rewrite Z.add_0_l, Nat2Z.id, firstn_all. split_and!; [done| |done].
    split; [apply Ht|done].
Qed.

Lemma crc_start_ok : statics_ok crc_start.
Proof. by split. Qed.

(** *** Detection *)

Lemma crc_step_inj a b : is_u32 a -> is_u32 b -> crc_step a = crc_step b -> a = b.
Proof.
  intros Ha Hb E.
  assert (Hz : crc_step (Z.lxor a b) = 0) by (rewrite crc_step_lxor, E; apply Z.lxor_nilpotent).
  pose proof (lxor_u32 a b Ha Hb) as Hx. rewrite crc_step_odd in Hz.
  pose proof (half_range _ Hx) as Hh. apply Z.lxor_eq_0_iff.
  destruct (Z.odd (Z.lxor a b)) eqn:Eo.
  - apply Z.lxor_eq in Hz. unfold crc_poly in Hz. lia.
  - rewrite Z.lxor_0_l, Z.shiftr_div_pow2 in Hz by lia. change (2 ^ 1) with 2 in Hz.
    rewrite Zodd_mod in Eo.
    pose proof (Z.div_mod (Z.lxor a b) 2). pose proof (Z.mod_pos_bound (Z.lxor a b) 2).
    destruct (Z.eqb_spec (Z.lxor a b mod 2) 1); [done|]. lia.
Qed.

Lemma crc_iter_inj n a b :
  is_u32 a -> is_u32 b -> Nat.iter n crc_step a = Nat.iter n crc_step b -> a = b.
Proof.
  intros Ha Hb. induction n as [|n IH]; simpl; [done|]. intros E.
  apply IH, crc_step_inj; auto using crc_iter_range.
Qed.

Lemma crc_bits_inj data : forall a b,
  is_u32 a -> is_u32 b -> bytes_ok data -> crc_bits a data = crc_bits b data -> a = b.
Proof.
  induction data as [|x data IH]; intros a b Ha Hb Hd E; [done|].
  inversion Hd as [|? ? Hx Hd']; subst. simpl in E.
  apply IH in E; [|by apply crc_byte_range..|done].
  unfold crc_byte in E. apply crc_iter_inj in E; [|apply lxor_u32; lia..].
  apply (f_equal (fun z => Z.lxor z x)) in E.
  by rewrite !Z.lxor_assoc, Z.lxor_nilpotent, !Z.lxor_0_r in E.
Qed.

Lemma crc_bits_app crc a b : crc_bits crc (a ++ b) = crc_bits (crc_bits crc a) b.
Proof. apply foldl_app. Qed.

(** The updates of the streaming interface, one per piece. *)
Fixpoint crc_stream (s : crc_statics) (crc : Z) (pieces : list (list Z)) : M (Z * crc_statics) :=
  match pieces with
  | [] => Ok (crc, s)
  | p :: pieces => let! '(crc, s) := sl_crc32c_update s crc p in crc_stream s crc pieces
  end.

Lemma crc_stream_spec pieces : forall s crc, statics_ok s -> is_u32 crc -> Forall bytes_ok pieces ->
  exists s', crc_stream s crc pieces = Ok (crc_bits crc (concat pieces), s') /\ statics_ok s'.
Proof.
  induction pieces as [|p pieces IH]; intros s crc Hs Hc Hp; [by exists s|]. apply Forall_cons in Hp as [Hp Hps].
  cbn [crc_stream concat]. destruct (crc_update_spec s crc p) as (s1 & -> & H1 & _); [done..|]. cbv beta iota.
  rewrite crc_bits_app. apply IH; [done|by apply crc_bits_range|done].
Qed.

(** C36: The lazily built table and the byte-at-a-time loop compute the bit-serial CRC-32C, from
    any state of the statics the file can be in: in one call, and fed in any pieces through the
    streaming interface, from the value of [sl_crc32c_init] to that of [sl_crc32c_finalize]. *)
Theorem crc32c_matches_bit_serial (s : crc_statics) (pieces : list (list Z)) :
  statics_ok s -> Forall bytes_ok pieces ->
  exists s1 s2 c,
    sl_crc32c s (concat pieces) = Ok (crc32c (concat pieces), s1) /\ statics_ok s1 /\
    crc_stream s sl_crc32c_init pieces = Ok (c, s2) /\ sl_crc32c_finalize c = crc32c (concat pieces) /\ statics_ok s2.
Proof.
  intros Hs Hp. unfold sl_crc32c.
  destruct (crc_update_spec s sl_crc32c_init (concat pieces)) as (s1 & -> & H1 & _); [done|done|by apply Forall_concat|].
  destruct (crc_stream_spec pieces s sl_crc32c_init) as (s2 & -> & H2); [done..|].
  by exists s1, s2, (crc_bits sl_crc32c_init (concat pieces)).
Qed.

Example crc32c_matches_bit_serial_witness :
  exists s1 s2 c,
    sl_crc32c crc_start [49; 50; 51; 52; 53; 54; 55; 56; 57] = Ok (0xE3069283, s1) /\ statics_ok s1 /\
    crc_stream crc_start sl_crc32c_init [[49; 50; 51]; []; [52; 53; 54; 55; 56; 57]] = Ok (c, s2) /\
    sl_crc32c_finalize c = 0xE3069283 /\ statics_ok s2.
Proof.
  assert (E : crc32c (concat [[49; 50; 51]; []; [52; 53; 54; 55; 56; 57]]) = 0xE3069283) by reflexivity.
  rewrite <- E. apply (crc32c_matches_bit_serial crc_start [[49; 50; 51]; []; [52; 53; 54; 55; 56; 57]]).
  - split; [reflexivity|discriminate].
  - by_deciding.
Defined.

(** Started from 0, as the header says, the interface computes another value. *)
Example zero_start_differs :
  exists s c, crc_stream crc_start 0 [[49; 50; 51; 52; 53; 54; 55; 56; 57]] = Ok (c, s) /\
    sl_crc32c_finalize c <> crc32c [49; 50; 51; 52; 53; 54; 55; 56; 57].
Proof. eexists _, _. split; [vm_compute; reflexivity|]. vm_compute. discriminate. Qed.

Lemma crc32c_byte_inj pre post x y :
  bytes_ok pre -> bytes_ok post -> is_u8 x -> is_u8 y ->
  crc32c (pre ++ x :: post) = crc32c (pre ++ y :: post) -> x = y.
Proof.
  intros Hpre Hpost Hx Hy E. unfold crc32c in E.
  apply (f_equal (fun z => Z.lxor z 0xFFFFFFFF)) in E.
  rewrite !Z.lxor_assoc, !Z.lxor_nilpotent, !Z.lxor_0_r, !crc_bits_app in E. simpl in E.
  assert (Hc : is_u32 (crc_bits 4294967295 pre)) by (by apply crc_bits_range).
  apply crc_bits_inj in E; [|by apply crc_byte_range..|done].
  unfold crc_byte in E. apply crc_iter_inj in E; [|apply lxor_u32; lia..].
  apply (f_equal (Z.lxor (crc_bits 4294967295 pre))) in E.
  by rewrite <- !Z.lxor_assoc, Z.lxor_nilpotent, !Z.lxor_0_l in E.
Qed.

Lemma crc32c_range data : bytes_ok data -> is_u32 (crc32c data).
Proof. intros. apply lxor_u32; [by apply crc_bits_range|lia]. Qed.

Lemma crc32c_spec s data :
  statics_ok s -> bytes_ok data ->
  exists s', sl_crc32c s data = Ok (crc32c data, s') /\ statics_ok s'.
Proof.
  intros Hs Hd. unfold sl_crc32c.
  destruct (crc_update_spec s sl_crc32c_init data) as (s' & -> & H' & _); [done..|]. eauto.
Qed.

(** The checksum the code computes detects every corruption confined to one byte,
    wherever it is and whatever surrounds it. *)
Theorem crc32c_detects_byte (s s1 s2 : crc_statics) (pre post : list Z) (x y c1 c2 : Z) :
  statics_ok s -> bytes_ok pre -> bytes_ok post -> is_u8 x -> is_u8 y -> x <> y ->
  sl_crc32c s (pre ++ x :: post) = Ok (c1, s1) -> sl_crc32c s (pre ++ y :: post) = Ok (c2, s2) ->
  c1 <> c2.
Proof.
  intros Hs Hpre Hpost Hx Hy Hne E1 E2 ->.
  destruct (crc32c_spec s (pre ++ x :: post)) as (? & E1' & _); [done|auto with bytes|].
  destruct (crc32c_spec s (pre ++ y :: post)) as (? & E2' & _); [done|auto with bytes|].
  apply Hne, (crc32c_byte_inj pre post); [done..|]. congruence.
Qed.

Example crc32c_detects_byte_witness :
  exists c1 c2 s1 s2, sl_crc32c crc_start ([1; 2] ++ 3 :: [4]) = Ok (c1, s1) /\
    sl_crc32c crc_start ([1; 2] ++ 7 :: [4]) = Ok (c2, s2) /\ c1 <> c2.
Proof.
  eexists _, _, _, _. split; [vm_compute; reflexivity|]. split; [vm_compute; reflexivity|].
  eapply (crc32c_detects_byte crc_start _ _ [1; 2] [4] 3 7).
  - split; [reflexivity|discriminate].
  - by_deciding.
  - by_deciding.
  - lia.
  - lia.
  - lia.
  - vm_compute. reflexivity.
  - vm_compute. reflexivity.
Defined.
