(* ===== verification/Varint.v ===== *)
(** Variable-length integers ([inc/sl_varint.h], [src/sl_varint.c]): seven bits per byte,
    least significant group first. *)

From S2P Require Import Prelude.
Local Open Scope Z_scope.

(* src/inc/sl_varint.h:17-17 *)
Definition SL_VARINT_MAX_LEN : Z := 10.

(** [while (v >= 0x80) { v >>= 7; ++n; }]; [None] is fuel running out. A 64-bit value
    leaves the loop within nine rounds ([varint_size_total]). *)
Fixpoint varint_size_loop (fuel : nat) (v n : Z) : option Z :=
  match fuel with
  | O => None
  | S fuel => if 128 <=? v then varint_size_loop fuel (v ≫ 7) (n + 1) else Some n
  end.

(* src/src/sl_varint.c:3-7 *)
Definition sl_varint_size_u64 (v : Z) : option Z := varint_size_loop 10 v 1.

(** One [while] round per step; the result is the return code and the buffer. *)
Fixpoint varint_encode_loop (fuel : nat) (v n : Z) (out : list Z) : M (option (Z * list Z)) :=
  match fuel with
  | O => Ok None
  | S fuel =>
      if 128 <=? v then
        if len out <=? n then Ok (Some (-1, out))
        else
          let! out := store out n (u8 (Z.lor v 0x80)) in
          varint_encode_loop fuel (v ≫ 7) (n + 1) out
      else if len out <=? n then Ok (Some (-1, out))
      else
        let! out := store out n (u8 v) in
        Ok (Some (n + 1, out))
  end.

(* src/src/sl_varint.c:9-20 *)
Definition sl_varint_encode_u64 (v : Z) (out : list Z) : M (option (Z * list Z)) :=
  varint_encode_loop 10 v 0 out.

(** [rounds] is what is left of [i < SL_VARINT_MAX_LEN]. *)
Fixpoint varint_decode_loop (rounds : nat) (inp : list Z) (i shift result : Z)
  : M (option (Z * Z)) :=
  match rounds with
  | O => Ok None
  | S rounds =>
      if negb (i <? len inp) then Ok None
      else
        let! b := load inp i in
        let result := Z.lor result (u64 (Z.land b 0x7F ≪ shift)) in
        if Z.land b 0x80 =? 0 then Ok (Some (i + 1, result))
        else if 63 <? shift + 7 then Ok None
        else varint_decode_loop rounds inp (i + 1) (shift + 7) result
  end.

(** [Some (consumed, value)], or [None] for -1. *)
(* src/src/sl_varint.c:22-37 *)
Definition sl_varint_decode_u64 (inp : list Z) : M (option (Z * Z)) :=
  varint_decode_loop (Z.to_nat SL_VARINT_MAX_LEN) inp 0 0 0.

(** An encoding into [hdr + hp]; [None] is the -1 return. *)
Definition hdr_varint (v : Z) (hdr : list Z) (hp : Z) : M (option (Z * list Z)) :=
  let! r := sl_varint_encode_u64 v (drop (Z.to_nat hp) hdr) in
  match r with
  | Some (n, out) => if n <? 0 then Ok None else Ok (Some (hp + n, take (Z.to_nat hp) hdr ++ out))
  | None => Ok None
  end.

(** ** Reference encoding *)

Fixpoint varint_bytes (fuel : nat) (v : Z) : list Z :=
  match fuel with
  | O => []
  | S fuel => if 128 <=? v then (128 + v mod 128) :: varint_bytes fuel (v / 128) else [v]
  end.

Definition varint (v : Z) : list Z := varint_bytes 10 v.

Lemma or_0x80 v : 0 <= v -> u8 (Z.lor v 0x80) = 128 + v mod 128.
Proof.
  intros Hv. pose proof (Z.mod_pos_bound v 128 ltac:(lia)) as Hm.
  replace (128 + v mod 128) with (1 * 2 ^ 7 + v mod 128) by lia.
  rewrite <- (lor_shiftl_add 1 (v mod 128) 7) by (simpl; lia).
  unfold u8. change 256 with (2 ^ 8). change 128 with (2 ^ 7).
  apply Z.bits_inj'. intros i Hi. rewrite Z.testbit_mod_pow2, !Z.lor_spec, Z.testbit_mod_pow2 by lia.
  change 0x80 with (2 ^ 7). rewrite Z.pow2_bits_eqb, Z.shiftl_spec by lia.
  destruct (Z.ltb_spec i 8), (Z.ltb_spec i 7), (Z.eqb_spec 7 i); try lia; simpl.
  - rewrite (Z.testbit_neg_r 1) by lia. by rewrite orb_false_r.
  - subst i. simpl. by rewrite orb_true_r.
  - rewrite orb_false_r. symmetry. apply Z.bits_above_log2; simpl; lia.
Qed.

Lemma pow128_step n v : 128 <= v < 128 ^ Z.of_nat (S n) -> 0 < v / 128 < 128 ^ Z.of_nat n.
Proof.
  rewrite Nat2Z.inj_succ, Z.pow_succ_r by lia. intros Hv.
  split; [apply Z.div_str_pos; lia|apply Z.div_lt_upper_bound; lia].
Qed.

Lemma u64_pow128 v : is_u64 v -> 0 <= v < 128 ^ Z.of_nat 10.
Proof. intros. change (128 ^ Z.of_nat 10) with 1180591620717411303424. lia. Qed.

(** The size predictor counts the bytes. *)
Lemma varint_size_bytes fuel : forall v n,
  (0 < fuel)%nat -> 0 <= v < 128 ^ Z.of_nat fuel ->
  varint_size_loop fuel v n = Some (n + len (varint_bytes fuel v) - 1) /\
  1 <= len (varint_bytes fuel v) <= Z.of_nat fuel.
Proof.
  induction fuel as [|fuel IH]; intros v n Hf Hv; [lia|]. cbn [varint_size_loop varint_bytes].
  destruct (Z.leb_spec 128 v).
  - pose proof (pow128_step fuel v ltac:(lia)) as Hd.
    assert (0 < fuel)%nat by (destruct fuel; [simpl in Hd; lia|lia]).
    rewrite Z.shiftr_div_pow2 by lia. change (2 ^ 7) with 128.
    destruct (IH (v / 128) (n + 1)) as [-> Hl]; [lia..|]. rewrite len_cons. split; [f_equal|]; lia.
  - rewrite len_cons, len_nil. split; [f_equal|]; lia.
Qed.

Lemma store_next (pre : list Z) x post v :
  store (pre ++ x :: post) (len pre) v = Ok ((pre ++ [v]) ++ post).
Proof.
  rewrite store_ok by len_lia. f_equal. rewrite len_to_nat, insert_app_r_alt, Nat.sub_diag by lia.
  simpl. by rewrite <- app_assoc.
Qed.

(** The encoder writes the reference bytes, or refuses when they do not fit. *)
Lemma varint_encode_bytes fuel : forall v pre rest,
  (0 < fuel)%nat -> 0 <= v < 128 ^ Z.of_nat fuel -> v < 18446744073709551616 ->
  if decide (len (varint_bytes fuel v) <= len rest)
  then varint_encode_loop fuel v (len pre) (pre ++ rest) =
       Ok (Some (len pre + len (varint_bytes fuel v),
                 pre ++ varint_bytes fuel v ++ drop (length (varint_bytes fuel v)) rest))
  else exists out, varint_encode_loop fuel v (len pre) (pre ++ rest) = Ok (Some (-1, out)) /\
       len out = len (pre ++ rest).
Proof.
  induction fuel as [|fuel IH]; intros v pre rest Hf Hv Hr; [lia|].
  cbn [varint_encode_loop varint_bytes]. pose proof (len_nonneg rest).
  destruct (Z.leb_spec 128 v).
  - pose proof (pow128_step fuel v ltac:(lia)) as Hd.
    assert (0 < fuel)%nat by (destruct fuel; [simpl in Hd; lia|lia]).
    rewrite len_app, or_0x80, Z.shiftr_div_pow2 by lia. change (2 ^ 7) with 128.
    pose proof (varint_size_bytes fuel (v / 128) 0 ltac:(lia) ltac:(lia)) as [_ Hvl].
    destruct rest as [|x rest].
    + rewrite (proj2 (Z.leb_le _ _)) by (rewrite len_nil; lia).
      rewrite decide_False by len_lia. eexists. split; [done|len_lia].
    + rewrite (proj2 (Z.leb_gt _ _)), store_next by len_lia.
      specialize (IH (v / 128) (pre ++ [128 + v mod 128]) rest ltac:(lia) ltac:(lia)).
      assert (Hr2 : v / 128 < 18446744073709551616) by (apply Z.div_lt_upper_bound; lia).
      specialize (IH Hr2). rewrite len_app, len_cons, len_nil in IH. rewrite !len_cons.
      destruct (decide (len (varint_bytes fuel (v / 128)) <= len rest)).
      * rewrite decide_True by lia. rewrite Z.add_0_r in IH. rewrite IH. simpl.
        rewrite <- !app_assoc. do 3 f_equal. lia.
      * rewrite decide_False by lia. rewrite Z.add_0_r in IH.
        destruct IH as (out & -> & Hl). eexists. split; [done|]. len_lia.
  - destruct rest as [|x rest].
    + rewrite app_nil_r, (proj2 (Z.leb_le _ _)) by lia. rewrite decide_False by len_lia. eauto.
    + rewrite (proj2 (Z.leb_gt _ _)), store_next by len_lia. rewrite decide_True by len_lia.
      rewrite u8_small by lia. rewrite len_cons, len_nil. simpl. by rewrite <- app_assoc.
Qed.

Lemma land_7F b : Z.land b 0x7F = b mod 128.
Proof. change 0x7F with (Z.ones 7). by rewrite Z.land_ones by lia. Qed.

Lemma decode_or result d shift :
  0 <= shift -> 0 <= result < 2 ^ shift -> Z.lor result (d ≪ shift) = result + d * 2 ^ shift.
Proof. intros. rewrite Z.lor_comm, lor_shiftl_add by lia. lia. Qed.

(** Decoding the reference bytes, at any position and shift at which the value fits. *)
Lemma varint_decode_bytes fuel : forall v pre post rounds shift result,
  (0 < fuel)%nat -> 0 <= v < 128 ^ Z.of_nat fuel -> (fuel <= rounds)%nat ->
  0 <= shift -> 0 <= result < 2 ^ shift -> v * 2 ^ shift < 18446744073709551616 ->
  varint_decode_loop rounds (pre ++ varint_bytes fuel v ++ post) (len pre) shift result =
  Ok (Some (len pre + len (varint_bytes fuel v), result + v * 2 ^ shift)).
Proof.
  induction fuel as [|fuel IH]; intros v pre post rounds shift result Hf Hv Hr Hs Hres Hfit; [lia|].
  destruct rounds as [|rounds]; [lia|]. cbn [varint_bytes varint_decode_loop].
  pose proof (Z.pow_pos_nonneg 2 shift ltac:(lia) Hs) as Hpow.
  pose proof (len_nonneg pre). pose proof (len_nonneg post).
  destruct (Z.leb_spec 128 v).
  - pose proof (pow128_step fuel v ltac:(lia)) as Hd.
    assert (0 < fuel)%nat by (destruct fuel; [simpl in Hd; lia|lia]).
    pose proof (Z.div_mod v 128 ltac:(lia)) as Edm. pose proof (Z.mod_pos_bound v 128 ltac:(lia)) as Hm.
    cbn [app]. rewrite (proj2 (Z.ltb_lt _ _)) by (pose proof (len_nonneg (varint_bytes fuel (v / 128))); len_lia).
    cbn [negb]. rewrite load_app_mid, land_80, land_7F by lia.
    rewrite (proj2 (Z.ltb_ge _ _)) by lia.
    replace ((128 + v mod 128) mod 128) with (v mod 128)
      by (replace (128 + v mod 128) with (v mod 128 + 1 * 128) by lia;
          by rewrite Z_mod_plus_full, Z.mod_mod by lia).
    assert (Hsh : shift + 7 <= 63).
    { assert (Hlt : 2 ^ (shift + 7) < 2 ^ 64); [|apply Z.pow_lt_mono_r_iff in Hlt; lia].
      rewrite Z.pow_add_r by lia. change (2 ^ 7) with 128.
      change (2 ^ 64) with 18446744073709551616. nia. }
    rewrite (proj2 (Z.ltb_ge _ _)) by lia.
    rewrite u64_small, decode_or by (rewrite ?Z.shiftl_mul_pow2 by lia; nia).
    assert (Ep : 2 ^ (shift + 7) = 2 ^ shift * 128) by (by rewrite Z.pow_add_r by lia).
    pose proof (IH (v / 128) (pre ++ [128 + v mod 128]) post rounds (shift + 7)
      (result + v mod 128 * 2 ^ shift) ltac:(lia) ltac:(lia) ltac:(lia) ltac:(lia)) as IH'.
    assert (El : len (pre ++ [128 + v mod 128]) = len pre + 1) by len_lia.
    rewrite Ep, El, <- app_assoc in IH'. cbn [app] in IH'. rewrite IH' by nia. rewrite len_cons. do 3 f_equal; [lia|nia].
  - cbn [app]. rewrite (proj2 (Z.ltb_lt _ _)) by len_lia. cbn [negb].
    rewrite load_app_mid, land_80, land_7F, (proj2 (Z.ltb_lt _ _)), (Z.mod_small v) by lia.
    rewrite u64_small, decode_or by (rewrite ?Z.shiftl_mul_pow2 by lia; nia).
    by rewrite len_cons, len_nil, Z.add_0_r.
Qed.

(** On any input the decoder stays in bounds, and what it accepts is a 64-bit value read
    from at most ten bytes. *)
Lemma varint_decode_total rounds : forall inp i shift result,
  0 <= i -> is_u64 result ->
  exists r, varint_decode_loop rounds inp i shift result = Ok r /\
    match r with
    | Some (n, v) => i < n <= i + Z.of_nat rounds /\ n <= len inp /\ is_u64 v
    | None => True
    end.
Proof.
  induction rounds as [|rounds IH]; intros inp i shift result Hi Hr; cbn [varint_decode_loop].
  { by exists None. }
  destruct (Z.ltb_spec i (len inp)); cbn [negb]; [|by exists None].
  destruct (load_in_bounds inp i) as (b & -> & _); [lia|].
  assert (Hl : is_u64 (Z.lor result (u64 (Z.land b 0x7F ≪ shift)))) by (apply lor_u64; auto with wrap).
  destruct (Z.land b 0x80 =? 0); [eexists; split; [done|]; simpl; lia|].
  destruct (63 <? shift + 7); [by exists None|].
  destruct (IH inp (i + 1) (shift + 7) _ ltac:(lia) Hl) as (r & -> & Hp).
  exists r. split; [done|]. destruct r as [[n v]|]; [|done]. lia.
Qed.

Lemma len_varint v : is_u64 v -> 1 <= len (varint v) <= 10.
Proof. intros Hv. destruct (varint_size_bytes 10 v 1) as [_ Hl]; [lia|by apply u64_pow128|]. exact Hl. Qed.

Lemma varint_encode_fits v out :
  is_u64 v -> len (varint v) <= len out ->
  sl_varint_encode_u64 v out = Ok (Some (len (varint v), varint v ++ drop (length (varint v)) out)).
Proof.
  intros Hv Ho. pose proof (varint_encode_bytes 10 v [] out ltac:(lia) (u64_pow128 v Hv) ltac:(lia)) as He.
  fold (varint v) in He. rewrite decide_True in He by done. exact He.
Qed.

Lemma hdr_varint_at v pre rest hp :
  hp = len pre -> is_u64 v -> len (varint v) <= len rest ->
  hdr_varint v (pre ++ rest) hp =
  Ok (Some (len (pre ++ varint v), (pre ++ varint v) ++ drop (length (varint v)) rest)).
Proof.
  intros -> Hv Hl. unfold hdr_varint. rewrite drop_len_app, take_len_app, varint_encode_fits by done.
  pose proof (len_varint v Hv). rewrite (proj2 (Z.ltb_ge _ _)) by lia. by rewrite len_app, <- app_assoc.
Qed.

Lemma varint_decode_front v rest :
  is_u64 v -> sl_varint_decode_u64 (varint v ++ rest) = Ok (Some (len (varint v), v)).
Proof.
  intros Hv. pose proof (varint_decode_bytes 10 v [] rest 10 0 0 ltac:(lia) (u64_pow128 v Hv)) as Hd.
  rewrite Z.mul_1_r in Hd. apply Hd; simpl; lia.
Qed.

Lemma bytes_ok_varint v : 0 <= v -> bytes_ok (varint v).
Proof.
  unfold varint. generalize 10%nat as fuel. intros fuel. revert v. induction fuel as [|fuel IH]; intros v Hv; [constructor|].
  cbn [varint_bytes]. destruct (Z.leb_spec 128 v).
  - constructor; [pose proof (Z.mod_pos_bound v 128); lia|]. apply IH. apply Z.div_pos; lia.
  - repeat constructor; lia.
Qed.

(** Every 64-bit value survives encoding and decoding, whatever follows it in the
    buffer: the encoder writes exactly the predicted number of bytes (one to ten), refuses
    any shorter buffer, and the decoder consumes exactly those bytes and gives the value
    back. *)
Theorem varint_roundtrip (v : Z) (out rest : list Z) :
  is_u64 v ->
  exists n, sl_varint_size_u64 v = Some n /\ 1 <= n <= SL_VARINT_MAX_LEN /\ n = len (varint v) /\
    (n <= len out -> sl_varint_encode_u64 v out =
       Ok (Some (n, varint v ++ drop (length (varint v)) out))) /\
    (len out < n -> exists out', sl_varint_encode_u64 v out = Ok (Some (-1, out'))) /\
    sl_varint_decode_u64 (varint v ++ rest) = Ok (Some (n, v)).
Proof.
  intros Hv. pose proof (u64_pow128 v Hv) as Hp. exists (len (varint v)).
  destruct (varint_size_bytes 10 v 1) as [Hs Hl]; [lia|done|].
  pose proof (varint_encode_bytes 10 v [] out ltac:(lia) Hp ltac:(lia)) as He.
  fold (varint v) in *. unfold sl_varint_size_u64, sl_varint_encode_u64, SL_VARINT_MAX_LEN.
  split_and!; [rewrite Hs; f_equal; lia|lia|lia|done|..].
  - by apply varint_encode_fits.
  - intros Ho. rewrite decide_False in He by lia. destruct He as (o & E & _). by exists o.
  - by apply varint_decode_front.
Qed.

Example varint_roundtrip_witness :
  exists n, sl_varint_size_u64 300 = Some n /\ 1 <= n <= SL_VARINT_MAX_LEN /\ n = len (varint 300) /\
    (n <= len [0; 0; 7] -> sl_varint_encode_u64 300 [0; 0; 7] =
       Ok (Some (n, varint 300 ++ drop (length (varint 300)) [0; 0; 7]))) /\
    (len [0; 0; 7] < n -> exists out', sl_varint_encode_u64 300 [0; 0; 7] = Ok (Some (-1, out'))) /\
    sl_varint_decode_u64 (varint 300 ++ [1]) = Ok (Some (n, 300)).
Proof. apply (varint_roundtrip 300 [0; 0; 7] [1]). lia. Defined.

(** The decoder drops the bits of a tenth byte that do not fit instead of reporting an
    overflow, so different ten-byte strings decode to the same value. *)
Lemma varint_tenth_byte_truncates :
  sl_varint_decode_u64 (replicate 9 128 ++ [2]) = Ok (Some (10, 0)) /\
  sl_varint_decode_u64 (replicate 9 128 ++ [1]) = Ok (Some (10, 9223372036854775808)).
Proof. by vm_compute. Qed.
