(* ===== verification/Aead.v ===== *)
(** Authenticated encryption and per-record nonces ([src/sl_aead.c], [src/sl_nonce.c]).

    The AES-256-GCM of OpenSSL's EVP interface is a parameter of the model: the class
    [Gcm] has one operation per direction, standing for the whole run of EVP calls the C
    functions make on one context, and [GcmLaws] states what the callers rely on. The
    instance [toy_gcm] shows the laws can hold. *)

From S2P Require Import Prelude ByteOrder Codec Mem.
Local Open Scope Z_scope.

(* src/inc/sl_aead.h:11-11 *)
Definition SL_AEAD_KEY_LEN : Z := 32.
(* src/inc/sl_aead.h:12-12 *)
Definition SL_AEAD_IV_LEN : Z := 12.
(* src/inc/sl_aead.h:13-13 *)
Definition SL_AEAD_TAG_LEN : Z := 16.

(** ** The parameter *)

(** An encryption run ends with ciphertext and tag, or some EVP call failed after
    [written] had been put into the output buffer. *)
Inductive gcm_seal_result :=
| GcmSealed (ct tag : list Z)
| GcmSealError (written : list Z).

(** A decryption run ends with the plaintext; or [EVP_DecryptFinal_ex] refused the tag
    when the output buffer held [written]; or an earlier call failed. *)
Inductive gcm_open_result :=
| GcmOpened (pt : list Z)
| GcmBadTag (written : list Z)
| GcmOpenError (written : list Z).

Class Gcm := {
  gcm_seal : list Z -> list Z -> list Z -> list Z -> gcm_seal_result;
  gcm_open : list Z -> list Z -> list Z -> list Z -> list Z -> gcm_open_result
}.

(** GCM is a stream mode with a 16-byte tag; decryption inverts encryption; and a tag
    verifies only if encrypting the plaintext gives that very ciphertext and tag. *)
Class GcmLaws `{Gcm} : Prop := {
  gcm_seal_len : forall k iv aad pt ct tag,
    gcm_seal k iv aad pt = GcmSealed ct tag -> len ct = len pt /\ len tag = SL_AEAD_TAG_LEN;
  gcm_seal_error_len : forall k iv aad pt w,
    gcm_seal k iv aad pt = GcmSealError w -> len w <= len pt;
  gcm_open_seal : forall k iv aad pt ct tag,
    gcm_seal k iv aad pt = GcmSealed ct tag -> gcm_open k iv aad ct tag = GcmOpened pt;
  gcm_seal_open : forall k iv aad ct tag pt,
    len tag = SL_AEAD_TAG_LEN ->
    gcm_open k iv aad ct tag = GcmOpened pt -> gcm_seal k iv aad pt = GcmSealed ct tag;
  gcm_open_error_len : forall k iv aad ct tag w,
    gcm_open k iv aad ct tag = GcmOpenError w \/ gcm_open k iv aad ct tag = GcmBadTag w ->
    len w <= len ct;
  gcm_open_bytes : forall k iv aad ct tag pt,
    bytes_ok ct -> gcm_open k iv aad ct tag = GcmOpened pt -> bytes_ok pt
}.

Lemma gcm_open_len `{GcmLaws} k iv aad ct tag pt :
  len tag = SL_AEAD_TAG_LEN -> gcm_open k iv aad ct tag = GcmOpened pt -> len pt = len ct.
Proof. intros Ht E. apply gcm_seal_open in E; [|done]. by apply gcm_seal_len in E as [-> _]. Qed.

(** ** Seal and open *)

Section Aead.
  Context `{Gcm}.

(** [pt] and [aad] are pointers with lengths; the outputs are returned as the bytes
    written at [ct] and at [tag]. *)
(* src/src/sl_aead.c:8-40 *)
Definition sl_aead_seal (key iv : list Z) (aad : option (list Z)) (pt : option (list Z)) (pt_len : Z)
  : M (Z * list Z * list Z) :=
  if null_with_len pt pt_len then Ok (-1, [], [])
  else
    let! p := load_bytes (default [] pt) 0 pt_len in
    match gcm_seal key iv (default [] aad) p with
    | GcmSealed ct tag => Ok (0, ct, tag)
    | GcmSealError w => Ok (-1, w, [])
    end.

(** [pt] is returned as the bytes written at it; [ct] and [tag] are what the pointers aim
    at. A refused tag scrubs what decryption had produced. *)
(* src/src/sl_aead.c:42-81 *)
Definition sl_aead_open (key iv : list Z) (aad : option (list Z)) (ct tag : list Z) : Z * list Z :=
  match gcm_open key iv (default [] aad) ct tag with
  | GcmOpened pt => (0, pt)
  | GcmBadTag w => (-1, if 0 <? len ct then replicate (length ct) 0 else w)
  | GcmOpenError w => (-1, w)
  end.

Lemma aead_seal_run key iv aad pt n :
  ptr_ok pt n ->
  sl_aead_seal key iv (Some aad) pt n =
  match gcm_seal key iv aad (ptr_bytes pt n) with
  | GcmSealed ct tag => Ok (0, ct, tag)
  | GcmSealError w => Ok (-1, w, [])
  end.
Proof. intros Hp. unfold sl_aead_seal. by rewrite ptr_ok_guard, load_ptr. Qed.

(** Whatever goes wrong, no more than the ciphertext's length was written. *)
Lemma aead_open_len `{!GcmLaws} key iv aad ct tag rc w :
  len tag = SL_AEAD_TAG_LEN -> sl_aead_open key iv aad ct tag = (rc, w) -> len w <= len ct.
Proof.
  intros Ht. unfold sl_aead_open. destruct (gcm_open _ _ _ _ _) eqn:E; intros; simplify_eq.
  - apply gcm_open_len in E; [lia|done].
  - destruct (0 <? len ct); [len_lia|]. eapply gcm_open_error_len; eauto.
  - eapply gcm_open_error_len; eauto.
Qed.

End Aead.

(** ** Nonces *)

(* src/src/sl_nonce.c:5-25 *)
Definition sl_nonce_build (iv : list Z) (seq : Z) (nonce_out : list Z) : M (list Z) :=
  let! civ := load_bytes iv 0 SL_AEAD_IV_LEN in
  let! nonce_out := store_bytes nonce_out 0 civ in
  let seq_be := [u8 (seq ≫ 56); u8 (seq ≫ 48); u8 (seq ≫ 40); u8 (seq ≫ 32);
                 u8 (seq ≫ 24); u8 (seq ≫ 16); u8 (seq ≫ 8); u8 seq] in
  for_up 8 0 (fun i n =>
    let! x := load n (SL_AEAD_IV_LEN - 8 + i) in
    let! y := load seq_be i in
    store n (SL_AEAD_IV_LEN - 8 + i) (u8 (Z.lxor x y))) nonce_out.

(** Returns the code, the advanced counter and the nonce. *)
(* src/src/sl_nonce.c:27-39 *)
Definition sl_nonce_next (iv : list Z) (seq : Z) (nonce_out : list Z) : M (Z * Z * list Z) :=
  if seq =? UINT64_MAX then Ok (-1, seq, nonce_out)
  else
    let! n := sl_nonce_build iv seq nonce_out in
    Ok (0, u64 (seq + 1), n).

(** The reference: the IV with the big-endian counter XORed into its last 8 bytes. *)
Definition nonce_of (iv : list Z) (seq : Z) : list Z :=
  take 4 iv ++ zip_with (fun x y => u8 (Z.lxor x y)) (drop 4 iv) (be64 seq).

Lemma u8_u32_shiftr x n : 0 <= n <= 24 -> u8 (u32 x ≫ n) = u8 (x ≫ n).
Proof.
  intros Hn. unfold u8, u32. change 256 with (2 ^ 8). change 4294967296 with (2 ^ 32).
  apply Z.bits_inj'. intros i Hi. rewrite !Z.testbit_mod_pow2 by lia.
  destruct (Z.ltb_spec i 8); [|done].
  rewrite !Z.shiftr_spec, Z.testbit_mod_pow2 by lia. by rewrite (proj2 (Z.ltb_lt _ _)) by lia.
Qed.

Lemma be64_bytes_eq seq :
  [u8 (seq ≫ 56); u8 (seq ≫ 48); u8 (seq ≫ 40); u8 (seq ≫ 32);
   u8 (seq ≫ 24); u8 (seq ≫ 16); u8 (seq ≫ 8); u8 seq] = be64 seq.
Proof.
  unfold be64, be32. cbn [app]. rewrite !u8_u32_shiftr, !Z.shiftr_shiftr by lia.
  rewrite <- (Z.shiftr_0_r (u32 (seq ≫ 32))), <- (Z.shiftr_0_r (u32 seq)).
  rewrite !u8_u32_shiftr by lia. by rewrite !Z.shiftr_0_r.
Qed.

Lemma nonce_build_spec iv seq out :
  len iv = SL_AEAD_IV_LEN -> len out = SL_AEAD_IV_LEN ->
  sl_nonce_build iv seq out = Ok (nonce_of iv seq).
Proof.
  unfold SL_AEAD_IV_LEN. intros Hi Ho. unfold sl_nonce_build, SL_AEAD_IV_LEN.
  rewrite load_bytes_in_bounds by lia. change (drop (Z.to_nat 0) iv) with iv.
  rewrite firstn_all2 by (unfold len in Hi; lia).
  rewrite store_bytes_in_bounds by lia. rewrite Hi.
  rewrite (drop_ge out) by (unfold len in Ho; lia).
  change (take (Z.to_nat 0) out) with (@nil Z). cbn [app]. rewrite app_nil_r, be64_bytes_eq.
  pose proof (for_up_zip (fun x y => u8 (Z.lxor x y)) (take 4 iv) (drop 4 iv) [] (be64 seq)) as E.
  rewrite !app_nil_r, take_drop in E. unfold nonce_of.
  assert (El : len (take 4 iv) = 12 - 8) by (unfold len in *; rewrite length_take; lia).
  rewrite El in E. apply E. rewrite length_drop. unfold len in Hi. simpl. lia.
Qed.

Lemma len_nonce_of iv seq : len iv = SL_AEAD_IV_LEN -> len (nonce_of iv seq) = SL_AEAD_IV_LEN.
Proof.
  unfold SL_AEAD_IV_LEN, nonce_of. intros Hi. unfold len in *.
  rewrite length_app, length_zip_with, length_take, length_drop.
  change (length (be64 seq)) with 8%nat. lia.
Qed.

Lemma zip_lxor_inj l : forall a b,
  length a = length l -> length b = length l -> bytes_ok l -> bytes_ok a -> bytes_ok b ->
  zip_with (fun x y => u8 (Z.lxor x y)) l a = zip_with (fun x y => u8 (Z.lxor x y)) l b -> a = b.
Proof.
  induction l as [|x l IH]; intros [|a la] [|b lb] Ha Hb Hl Hba Hbb E; try done.
  inversion Hl; inversion Hba; inversion Hbb; subst. simpl in *.
  rewrite !u8_small in E by (by apply lxor_u8). injection E as E1 E2.
  f_equal; [|eapply IH; eauto; lia].
  apply (f_equal (Z.lxor x)) in E1. rewrite <- !Z.lxor_assoc, Z.lxor_nilpotent in E1.
  by rewrite !Z.lxor_0_l in E1.
Qed.

Lemma be64_inj a b : is_u64 a -> is_u64 b -> be64 a = be64 b -> a = b.
Proof.
  intros Ha Hb E. pose proof (unpack_u64_at [] [] a 0 eq_refl Ha) as Ea.
  pose proof (unpack_u64_at [] [] b 0 eq_refl Hb) as Eb. rewrite E in Ea. congruence.
Qed.

Lemma nonce_of_inj iv s1 s2 :
  bytes_ok iv -> len iv = SL_AEAD_IV_LEN -> is_u64 s1 -> is_u64 s2 ->
  nonce_of iv s1 = nonce_of iv s2 -> s1 = s2.
Proof.
  unfold nonce_of, SL_AEAD_IV_LEN. intros Hb Hi H1 H2 E%app_inv_head.
  apply be64_inj; [done..|].
  apply (zip_lxor_inj (drop 4 iv)); auto with bytes;
    rewrite length_drop; unfold len in Hi; change (length (be64 _)) with 8%nat; lia.
Qed.

(** A sender that asks for [n] nonces in a row. *)
Fixpoint nonce_run (iv : list Z) (n : nat) (seq : Z) (out : list Z) : M (list (list Z) * Z) :=
  match n with
  | O => Ok ([], seq)
  | S n =>
      let! '(rc, seq, out) := sl_nonce_next iv seq out in
      if rc =? 0 then let! '(ns, seq) := nonce_run iv n seq out in Ok (out :: ns, seq)
      else Ok ([], seq)
  end.

Lemma nonce_run_from iv n : forall seq out,
  bytes_ok iv -> len iv = SL_AEAD_IV_LEN -> len out = SL_AEAD_IV_LEN -> is_u64 seq ->
  exists ns seq', nonce_run iv n seq out = Ok (ns, seq') /\
    Forall (fun x => exists s, seq <= s < UINT64_MAX /\ x = nonce_of iv s) ns /\ NoDup ns /\
    len ns = Z.min (Z.of_nat n) (UINT64_MAX - seq) /\ seq' = seq + len ns.
Proof.
  induction n as [|n IH]; intros seq out Hb Hi Ho Hs; cbn [nonce_run].
  { exists [], seq. split_and!; [done|constructor|constructor|rewrite len_nil; lia|by rewrite len_nil, Z.add_0_r]. }
  unfold sl_nonce_next. destruct (Z.eqb_spec seq UINT64_MAX) as [->|Hne]; cbn [Z.eqb].
  { exists [], UINT64_MAX. split_and!; [done|constructor|constructor|rewrite len_nil; lia|by rewrite len_nil]. }
  rewrite nonce_build_spec, u64_small by (done || lia). cbn [Z.eqb].
  destruct (IH (seq + 1) (nonce_of iv seq)) as (ns & seq' & -> & Hf & Hnd & Hl & Hsq);
    [done..|by apply len_nonce_of|lia|].
  exists (nonce_of iv seq :: ns), seq'. split_and!; [done|..].
  - constructor; [exists seq; split; [lia|done]|]. eapply Forall_impl; [exact Hf|].
    intros x (s & Hr & ->). exists s. split; [lia|done].
  - constructor; [|done]. intros Hin. rewrite Forall_forall in Hf.
    destruct (Hf _ Hin) as (s & Hr & E). apply nonce_of_inj in E; [lia|done..|lia|lia].
  - rewrite len_cons, Hl. lia.
  - rewrite len_cons. lia.
Qed.

(** Nonces handed out under one session IV never repeat: whatever the starting
    counter and however many are asked for, [sl_nonce_next] gives pairwise distinct
    nonces, and stops with an error instead of wrapping the counter. *)
Theorem nonce_never_repeats (iv out : list Z) (seq : Z) (n : nat) :
  bytes_ok iv -> len iv = SL_AEAD_IV_LEN -> len out = SL_AEAD_IV_LEN -> is_u64 seq ->
  exists ns seq', nonce_run iv n seq out = Ok (ns, seq') /\ NoDup ns /\
    len ns = Z.min (Z.of_nat n) (UINT64_MAX - seq) /\ seq' = seq + len ns /\ seq' <= UINT64_MAX.
Proof.
  intros Hb Hi Ho Hs. destruct (nonce_run_from iv n seq out Hb Hi Ho Hs)
    as (ns & seq' & E & _ & Hnd & Hl & Hsq).
  exists ns, seq'. split_and!; [done..|lia].
Qed.

Example nonce_never_repeats_witness :
  exists ns seq', nonce_run (replicate 12 7) 5 (UINT64_MAX - 2) (replicate 12 0) = Ok (ns, seq') /\
    NoDup ns /\ len ns = 2 /\ seq' = UINT64_MAX.
Proof.
  destruct (nonce_never_repeats (replicate 12 7) (replicate 12 0) (UINT64_MAX - 2) 5)
    as (ns & seq' & E & Hnd & Hl & Hs & _); [repeat constructor; lia|reflexivity|reflexivity|lia|].
  exists ns, seq'. split_and!; [exact E|exact Hnd|lia|lia].
Defined.

(** ** An instance *)

(** A one-byte key stream and a checksum: enough structure to satisfy the laws. *)
Definition toy_stream (k iv : list Z) : Z := (foldr Z.add 0 k + foldr Z.add 0 iv) mod 256.
Definition toy_tag (k iv aad ct : list Z) : list Z :=
  replicate 16 ((toy_stream k iv + 3 * foldr Z.add 0 aad + 5 * foldr Z.add 0 ct + len ct) mod 256).

#[export] Instance toy_gcm : Gcm := {|
  gcm_seal k iv aad pt :=
    let ct := map (Z.lxor (toy_stream k iv)) pt in GcmSealed ct (toy_tag k iv aad ct);
  gcm_open k iv aad ct tag :=
    let pt := map (Z.lxor (toy_stream k iv)) ct in
    if decide (tag = toy_tag k iv aad ct) then GcmOpened pt else GcmBadTag pt
|}.

Lemma toy_involutive s l : map (Z.lxor s) (map (Z.lxor s) l) = l.
Proof.
  rewrite map_map. rewrite <- (map_id l) at 2. apply map_ext. intros x.
  by rewrite <- Z.lxor_assoc, Z.lxor_nilpotent, Z.lxor_0_l.
Qed.

#[export] Instance toy_gcm_laws : GcmLaws.
Proof.
  split; simpl.
  - intros k iv aad pt ct tag [= <- <-]. split; [apply len_map|]. unfold toy_tag. by rewrite len_replicate.
  - done.
  - intros k iv aad pt ct tag [= <- <-]. rewrite decide_True by done. by rewrite toy_involutive.
  - intros k iv aad ct tag pt Ht. destruct (decide _) as [->|]; [|done]. intros [= <-].
    by rewrite toy_involutive.
  - intros k iv aad ct tag w. destruct (decide _); intros [|]; simplify_eq.
    by rewrite len_map.
  - intros k iv aad ct tag pt Hb. destruct (decide _); [|done]. intros [= <-].
    apply Forall_map. eapply Forall_impl; [exact Hb|]. intros x Hx. simpl.
    apply lxor_u8; [apply Z.mod_pos_bound; lia|done].
Qed.
