(* ===== verification/Record.v ===== *)
(** The encrypted record layer ([inc/sl_record.h], [src/sl_record.c]): a 5-byte header,
    authenticated as associated data, in front of ciphertext and tag. *)

From S2P Require Import Prelude ByteOrder Codec Mem Aead.
Local Open Scope Z_scope.

(* src/inc/sl_record.h:28-28 *)
Definition SL_RECORD_HEADER_LEN : Z := 5.
(* src/inc/sl_record.h:29-29 *)
Definition SL_RECORD_VERSION : Z := 0x0301.
(* src/inc/sl_record.h:30-30 *)
Definition SL_RECORD_MAX_PLAINTEXT : Z := 16384.
(* src/inc/sl_record.h:31-31 *)
Definition SL_RECORD_MAX_CIPHERTEXT : Z := SL_RECORD_MAX_PLAINTEXT + SL_AEAD_TAG_LEN.

(** The content type is an [int]-backed enum: [sl_record_open] casts any byte to it, so
    it is modelled by its value, with the source's enumerators as constants. *)
(* src/inc/sl_record.h:33-39 sl_record_type_t *)
Definition sl_record_type_t : Type := Z.
Definition SL_REC_INVALID : sl_record_type_t := 0.
Definition SL_REC_HANDSHAKE : sl_record_type_t := 22.
Definition SL_REC_APP_DATA : sl_record_type_t := 23.
Definition SL_REC_ALERT : sl_record_type_t := 21.
Definition SL_REC_KEY_UPDATE : sl_record_type_t := 24.

Ltac record_consts :=
  unfold SL_RECORD_MAX_CIPHERTEXT, SL_RECORD_MAX_PLAINTEXT, SL_AEAD_TAG_LEN, SL_AEAD_IV_LEN,
    SL_RECORD_HEADER_LEN, SL_RECORD_VERSION in *.

(** ** Layout *)

Definition record_header (type : sl_record_type_t) (ct_len : Z) : list Z :=
  [u8 type] ++ be16 SL_RECORD_VERSION ++ be16 ct_len.

Definition record_wire (type : sl_record_type_t) (ct tag : list Z) : list Z :=
  record_header type (len ct + SL_AEAD_TAG_LEN) ++ ct ++ tag.

Lemma len_record_header t n : len (record_header t n) = 5.
Proof. done. Qed.
#[export] Hint Rewrite len_record_header : len.

Section Record.
  Context `{Gcm}.

(* src/src/sl_record.c:17-24 *)
Definition sl_record_peek_len (header : list Z) : M Z :=
  let! ver := unpack_u16 header 1 in
  if negb (ver =? SL_RECORD_VERSION) then Ok (-1)
  else
    let! ct_len := unpack_u16 header 3 in
    if (ct_len <? SL_AEAD_TAG_LEN) || (SL_RECORD_MAX_CIPHERTEXT <? ct_len) then Ok (-1)
    else Ok (SL_RECORD_HEADER_LEN + ct_len).

(* src/src/sl_record.c:26-54 *)
Definition sl_record_seal (type : sl_record_type_t) (key static_iv : list Z) (seq : Z)
    (pt : option (list Z)) (pt_len : Z) (out : list Z) : M (Z * list Z) :=
  if SL_RECORD_MAX_PLAINTEXT <? pt_len then Ok (-1, out)
  else
    let need := SL_RECORD_HEADER_LEN + pt_len + SL_AEAD_TAG_LEN in
    if len out <? need then Ok (-1, out)
    else
      let! out := store_bytes out 0 [u8 type] in
      let! out := pack_u16 out 1 SL_RECORD_VERSION in
      let! out := pack_u16 out 3 (u16 (pt_len + SL_AEAD_TAG_LEN)) in
      let! nonce := sl_nonce_build static_iv seq (replicate 12 0) in
      let! aad := load_bytes out 0 SL_RECORD_HEADER_LEN in
      let! '(rc, ct, tag) := sl_aead_seal key nonce (Some aad) pt pt_len in
      let! out := store_bytes out SL_RECORD_HEADER_LEN ct in
      let! out := store_bytes out (SL_RECORD_HEADER_LEN + pt_len) tag in
      Ok (if rc =? 0 then need else -1, out).

(** The result pairs the outcome ([None] is -1, [Some (type, pt_len)] success with the two
    out-parameters) with the final contents of [pt_out]. *)
(* src/src/sl_record.c:56-90 *)
Definition sl_record_open (wire key static_iv : list Z) (seq : Z) (pt_out : list Z)
  : M (option (sl_record_type_t * Z) * list Z) :=
  if len wire <? SL_RECORD_HEADER_LEN + SL_AEAD_TAG_LEN then Ok (None, pt_out)
  else
    let! expected := sl_record_peek_len wire in
    if (expected <? 0) || negb (expected =? len wire) then Ok (None, pt_out)
    else
      let! ct_len := unpack_u16 wire 3 in
      let pt_len := u64 (ct_len - SL_AEAD_TAG_LEN) in
      if len pt_out <? pt_len then Ok (None, pt_out)
      else
        let! nonce := sl_nonce_build static_iv seq (replicate 12 0) in
        let! aad := load_bytes wire 0 SL_RECORD_HEADER_LEN in
        let! ct := load_bytes wire SL_RECORD_HEADER_LEN pt_len in
        let! tag := load_bytes wire (SL_RECORD_HEADER_LEN + pt_len) SL_AEAD_TAG_LEN in
        let '(rc, w) := sl_aead_open key nonce (Some aad) ct tag in
        let! pt_out := store_bytes pt_out 0 w in
        if negb (rc =? 0) then
          let! pt_out := (if 0 <? pt_len then store_bytes pt_out 0 (replicate (Z.to_nat pt_len) 0)
                          else Ok pt_out) in
          Ok (None, pt_out)
        else
          let! type := load wire 0 in
          Ok (Some (type, pt_len), pt_out).

Lemma peek_record_wire t ct_len rest :
  SL_AEAD_TAG_LEN <= ct_len <= SL_RECORD_MAX_CIPHERTEXT ->
  sl_record_peek_len (record_header t ct_len ++ rest) = Ok (SL_RECORD_HEADER_LEN + ct_len).
Proof.
  intros Hl. unfold sl_record_peek_len, record_header. record_consts.
  rewrite <- !app_assoc. by repeat first [read_step | test_step].
Qed.

Context {laws : GcmLaws}.

(** Sealing writes the header, then what encryption gives, and touches nothing behind. *)
Lemma record_seal_fits t key iv seq pt pt_len out ct tag :
  len iv = SL_AEAD_IV_LEN -> ptr_ok pt pt_len -> pt_len <= SL_RECORD_MAX_PLAINTEXT ->
  SL_RECORD_HEADER_LEN + pt_len + SL_AEAD_TAG_LEN <= len out ->
  gcm_seal key (nonce_of iv seq) (record_header t (pt_len + SL_AEAD_TAG_LEN)) (ptr_bytes pt pt_len)
    = GcmSealed ct tag ->
  sl_record_seal t key iv seq pt pt_len out =
  Ok (len (record_wire t ct tag), record_wire t ct tag ++ drop (length (record_wire t ct tag)) out).
Proof.
  intros Hi Hp Hm Hl Eg. pose proof (proj1 Hp) as H0.
  destruct (gcm_seal_len _ _ _ _ _ _ Eg) as [Hct Htag]. rewrite len_ptr_bytes in Hct by done.
  unfold sl_record_seal. rewrite nonce_build_spec by done. record_consts.
  rewrite !(proj2 (Z.ltb_ge _ _)), u16_small by lia.
  change out with ([] ++ out) at 1. do 3 fill_step.
  change ((([] ++ [u8 t]) ++ be16 769) ++ be16 (pt_len + 16)) with (record_header t (pt_len + 16)).
  rewrite load_bytes_front, aead_seal_run, Eg by done.
  repeat fill_step. cbn [Z.eqb].
  unfold record_wire. rewrite Hct. apply fill_eq; [len_lia|by rewrite <- app_assoc|len_lia].
Qed.

Lemma record_seal_rejects t key iv seq pt pt_len out :
  SL_RECORD_MAX_PLAINTEXT < pt_len \/ len out < SL_RECORD_HEADER_LEN + pt_len + SL_AEAD_TAG_LEN ->
  sl_record_seal t key iv seq pt pt_len out = Ok (-1, out).
Proof.
  intros Hr. unfold sl_record_seal. destruct (Z.ltb_spec SL_RECORD_MAX_PLAINTEXT pt_len); [done|].
  by rewrite (proj2 (Z.ltb_lt _ _)) by lia.
Qed.

(** When encryption fails the header is already in the buffer, and the code is -1. *)
Lemma record_seal_error t key iv seq pt pt_len out w :
  len iv = SL_AEAD_IV_LEN -> ptr_ok pt pt_len -> pt_len <= SL_RECORD_MAX_PLAINTEXT ->
  SL_RECORD_HEADER_LEN + pt_len + SL_AEAD_TAG_LEN <= len out ->
  gcm_seal key (nonce_of iv seq) (record_header t (pt_len + SL_AEAD_TAG_LEN)) (ptr_bytes pt pt_len)
    = GcmSealError w ->
  exists out', sl_record_seal t key iv seq pt pt_len out = Ok (-1, out').
Proof.
  intros Hi Hp Hm Hl Eg. pose proof (proj1 Hp) as H0.
  apply gcm_seal_error_len in Eg as Hw. rewrite len_ptr_bytes in Hw by done.
  unfold sl_record_seal. rewrite nonce_build_spec by done. record_consts.
  rewrite !(proj2 (Z.ltb_ge _ _)), u16_small by lia.
  change out with ([] ++ out) at 1. do 3 fill_step.
  change ((([] ++ [u8 t]) ++ be16 769) ++ be16 (pt_len + 16)) with (record_header t (pt_len + 16)).
  rewrite load_bytes_front, aead_seal_run, Eg by done. fill_step.
  rewrite store_bytes_in_bounds by len_lia. cbn [Z.eqb]. eauto.
Qed.

Lemma record_seal_inv t key iv seq pt pt_len out n out' :
  len iv = SL_AEAD_IV_LEN -> ptr_ok pt pt_len ->
  sl_record_seal t key iv seq pt pt_len out = Ok (n, out') -> n <> -1 ->
  pt_len <= SL_RECORD_MAX_PLAINTEXT /\ exists ct tag,
    gcm_seal key (nonce_of iv seq) (record_header t (pt_len + SL_AEAD_TAG_LEN))
      (ptr_bytes pt pt_len) = GcmSealed ct tag /\
    n = len (record_wire t ct tag) /\
    out' = record_wire t ct tag ++ drop (length (record_wire t ct tag)) out.
Proof.
  intros Hi Hp Hs Hn.
  destruct (decide (SL_RECORD_MAX_PLAINTEXT < pt_len \/
                    len out < SL_RECORD_HEADER_LEN + pt_len + SL_AEAD_TAG_LEN)) as [Hr|Hr].
  { rewrite record_seal_rejects in Hs by done. simplify_eq. }
  split; [lia|].
  destruct (gcm_seal _ _ _ _) as [ct tag|w] eqn:Eg.
  - rewrite (record_seal_fits _ _ _ _ _ _ _ ct tag) in Hs by (done || lia). simplify_eq. eauto.
  - destruct (record_seal_error t key iv seq pt pt_len out w) as (o & Eo); [done || lia..|].
    rewrite Eo in Hs. simplify_eq.
Qed.

(** The scrub after a refused record: [w] is what decryption had left. *)
Lemma record_scrub (pt_out w : list Z) n :
  len w <= n -> n <= len pt_out ->
  (let! p := store_bytes pt_out 0 w in
   if 0 <? n then store_bytes p 0 (replicate (Z.to_nat n) 0) else Ok p) =
  Ok (replicate (Z.to_nat n) 0 ++ drop (Z.to_nat n) pt_out).
Proof.
  intros Hw Hn. pose proof (len_nonneg w). destruct (Z.ltb_spec 0 n).
  - rewrite store_bytes_over by len_lia. by rewrite length_replicate.
  - replace n with 0 by lia. rewrite (len_0_nil w) by lia.
    rewrite store_bytes_0 by len_lia. done.
Qed.

(** Opening a well-formed record runs decryption on its parts. *)
Lemma record_open_wire t key iv seq ct tag pt_out :
  is_u8 t -> len iv = SL_AEAD_IV_LEN -> len ct <= SL_RECORD_MAX_PLAINTEXT ->
  len tag = SL_AEAD_TAG_LEN -> len ct <= len pt_out ->
  sl_record_open (record_wire t ct tag) key iv seq pt_out =
  match gcm_open key (nonce_of iv seq) (record_header t (len ct + SL_AEAD_TAG_LEN)) ct tag with
  | GcmOpened pt => Ok (Some (t, len ct), pt ++ drop (length ct) pt_out)
  | _ => Ok (None, replicate (length ct) 0 ++ drop (length ct) pt_out)
  end.
Proof.
  intros Ht Hi Hm Htag Hcap. unfold sl_record_open, record_wire.
  rewrite peek_record_wire, nonce_build_spec by (done || (record_consts; len_lia)).
  rewrite load_bytes_front by done. record_consts. pose proof (len_nonneg ct).
  rewrite !len_app, len_record_header, Htag.
  repeat test_step. unfold record_header at 1. rewrite <- !app_assoc. read_step.
  replace (u64 (len ct + 16 - 16)) with (len ct) by (rewrite u64_small; lia).
  do 2 read_step. test_step.
  destruct (sl_aead_open key _ _ ct tag) as [rc w] eqn:Eo.
  pose proof (aead_open_len _ _ _ _ _ _ _ Htag Eo) as Hw.
  unfold sl_aead_open in Eo. cbn [default from_option] in Eo.
  pose proof (record_scrub pt_out w (len ct) Hw Hcap) as Hz.
  rewrite len_to_nat in *. rewrite store_bytes_0 in * by lia.
  destruct (gcm_open _ _ _ ct tag) eqn:Eg; simplify_eq; cbn [Z.eqb negb].
  - unfold record_header. rewrite <- !app_assoc. read_step. rewrite u8_small by done.
    apply gcm_open_len in Eg; [|done]. unfold len in Eg. by replace (length w) with (length ct) by lia.
  - by rewrite Hz.
  - by rewrite Hz.
Qed.

(** Every input either is refused before decryption, with [pt_out] untouched, or has
    the layout. *)
Definition record_shape (wire pt_out : list Z) (t : sl_record_type_t) (ct tag : list Z) : Prop :=
  wire = record_wire t ct tag /\ is_u8 t /\ len ct <= SL_RECORD_MAX_PLAINTEXT /\
  len tag = SL_AEAD_TAG_LEN /\ len ct <= len pt_out.

Lemma record_parse wire key iv seq pt_out :
  bytes_ok wire -> len iv = SL_AEAD_IV_LEN ->
  sl_record_open wire key iv seq pt_out = Ok (None, pt_out) \/
  exists t ct tag, record_shape wire pt_out t ct tag.
Proof.
  intros Hb Hi. unfold sl_record_open, sl_record_peek_len. record_consts.
  destruct (Z.ltb_spec (len wire) (5 + 16)); [by left|].
  destruct (unpack_u16_sound wire 1) as (ver & -> & Rv & Tv); [done|lia..|].
  destruct (Z.eqb_spec ver 769) as [->|]; [|by left]. cbn [negb].
  destruct (unpack_u16_sound wire 3) as (n & -> & Rn & Tn); [done|lia..|].
  destruct ((n <? 16) || (16384 + 16 <? n)) eqn:Er; [by left|].
  destruct ((5 + n <? 0) || negb (5 + n =? len wire)) eqn:El; [by left|].
  rewrite u64_small by lia. destruct (Z.ltb_spec (len pt_out) (n - 16)); [by left|]. right.
  destruct (load_sound wire 0) as (t & _ & Rt & Tt); [done|lia..|].
  destruct (load_bytes_sound wire 5 (n - 16)) as (ct & _ & Lc & _ & Tc); [lia..|].
  destruct (load_bytes_sound wire (5 + (n - 16)) 16) as (tag & _ & Lt & _ & Tg); [lia..|].
  exists t, ct, tag. unfold record_shape. record_consts. split_and!; [|lia..].
  unfold record_wire, record_header. rewrite u8_small, Lc by done.
  replace (n - 16 + SL_AEAD_TAG_LEN) with n by (record_consts; lia).
  rewrite (drop_ge wire (Z.to_nat (5 + (n - 16) + 16))), app_nil_r in Tg by (unfold len in *; lia).
  literal_offset Tv. literal_offset Tn. literal_offset Tt. rewrite Tg in Tc.
  rewrite <- !app_assoc. consume wire.
Qed.

End Record.

(** ** Guarantees *)

(** C2: A record that was sealed opens, under the same key, IV and sequence number, to
    exactly the content type and plaintext it was made from, and the header alone tells
    the receiver how many bytes to wait for. *)
Theorem record_seal_open_roundtrip `{GcmLaws} (t seq pt_len n : Z) (key iv out out' pt_out : list Z)
    (pt : option (list Z)) :
  is_u8 t -> len iv = SL_AEAD_IV_LEN -> ptr_ok pt pt_len -> pt_len <= len pt_out ->
  sl_record_seal t key iv seq pt pt_len out = Ok (n, out') -> n <> -1 ->
  n = SL_RECORD_HEADER_LEN + pt_len + SL_AEAD_TAG_LEN /\
  sl_record_peek_len (take 5 out') = Ok n /\
  sl_record_open (take (Z.to_nat n) out') key iv seq pt_out =
    Ok (Some (t, pt_len), ptr_bytes pt pt_len ++ drop (Z.to_nat pt_len) pt_out) /\
  drop (Z.to_nat n) out' = drop (Z.to_nat n) out.
Proof.
  intros Ht Hi Hp Hcap Hs Hn.
  destruct (record_seal_inv _ _ _ _ _ _ _ _ _ Hi Hp Hs Hn) as (Hm & ct & tag & Eg & -> & ->).
  destruct (gcm_seal_len _ _ _ _ _ _ Eg) as [Hct Htag]. rewrite len_ptr_bytes in Hct by done.
  assert (Hl : len (record_wire t ct tag) = SL_RECORD_HEADER_LEN + pt_len + SL_AEAD_TAG_LEN).
  { unfold record_wire. rewrite !len_app, len_record_header. record_consts. lia. }
  pose proof (len_nonneg ct). split_and!.
  - done.
  - rewrite Hl. unfold record_wire. rewrite <- app_assoc, (take_app_exact 5) by done.
    rewrite <- (app_nil_r (record_header _ _)), peek_record_wire by (record_consts; lia).
    rewrite Hct. record_consts. f_equal. lia.
  - rewrite take_len_app, record_open_wire by (done || lia). rewrite Hct.
    rewrite (gcm_open_seal _ _ _ _ _ _ Eg). do 4 f_equal. unfold len in Hct. lia.
  - by rewrite drop_len_app, len_to_nat.
Qed.

Example record_seal_open_roundtrip_witness :
  exists out', sl_record_seal 23 [4] (replicate 12 1) 2 (Some [4; 5]) 2 (replicate 23 7 ++ [9])
    = Ok (23, out') /\
  sl_record_open (take 23 out') [4] (replicate 12 1) 2 [0; 0; 0] = Ok (Some (23, 2), [4; 5; 0]).
Proof.
  eexists. split; [vm_compute; reflexivity|].
  apply (record_seal_open_roundtrip 23 2 2 23 [4] (replicate 12 1) (replicate 23 7 ++ [9]) _
           [0; 0; 0] (Some [4; 5])).
  - lia.
  - reflexivity.
  - split; [lia|]. intros _. exists [4; 5]. split; [reflexivity|vm_compute; discriminate].
  - vm_compute. discriminate.
  - vm_compute. reflexivity.
  - lia.
Defined.

(** C9: Only what the holder of the key sealed is accepted: if a record opens, then
    sealing the recovered plaintext under the recovered type, the same key, IV and
    sequence number produces that record byte for byte. *)
Theorem record_open_authentic `{GcmLaws} (t seq n : Z) (wire key iv pt_out pt_out' out : list Z) :
  bytes_ok wire -> len iv = SL_AEAD_IV_LEN -> len out = len wire ->
  sl_record_open wire key iv seq pt_out = Ok (Some (t, n), pt_out') ->
  sl_record_seal t key iv seq (Some (take (Z.to_nat n) pt_out')) n out = Ok (len wire, wire) /\
  n <= SL_RECORD_MAX_PLAINTEXT.
Proof.
  intros Hb Hi Hlo Ho.
  destruct (record_parse wire key iv seq pt_out Hb Hi) as [E|(t' & ct & tag & -> & Ht & Hm & Htag & Hc)];
    [by rewrite E in Ho|].
  rewrite record_open_wire in Ho by done. destruct (gcm_open _ _ _ ct tag) eqn:Eg; try done.
  simplify_eq. pose proof (len_nonneg ct). split; [|done].
  pose proof (gcm_open_len _ _ _ _ _ _ Htag Eg) as Hpl. apply gcm_seal_open in Eg; [|done].
  rewrite (take_app_exact (len ct) pt) by done.
  rewrite (record_seal_fits _ _ _ _ _ _ _ ct tag); [|done|..].
  - rewrite drop_ge, app_nil_r by (unfold len in *; lia). done.
  - split; [lia|]. eauto with lia.
  - done.
  - rewrite Hlo. unfold record_wire. rewrite !len_app, len_record_header. record_consts. lia.
  - unfold ptr_bytes. simpl. rewrite firstn_all2 by (unfold len in *; lia). exact Eg.
Qed.

Example record_open_authentic_witness :
  let wire := [23; 3; 1; 0; 18; 22; 23] ++ replicate 16 124 in
  exists pt_out',
  sl_record_open wire [4] (replicate 12 1) 2 [0; 0] = Ok (Some (23, 2), pt_out') /\
  sl_record_seal 23 [4] (replicate 12 1) 2 (Some (take (Z.to_nat 2) pt_out')) 2 (replicate 23 0)
    = Ok (len wire, wire).
Proof.
  eexists. split; [vm_compute; reflexivity|].
  eapply (record_open_authentic 23 2 2 _ [4] (replicate 12 1) [0; 0]).
  - by_deciding.
  - reflexivity.
  - reflexivity.
  - vm_compute. reflexivity.
Defined.

(** A record that does not open leaves no plaintext behind: the code never reads or
    writes out of bounds on any input, and after a failure the caller's buffer is either
    untouched or zeroed over the record's whole plaintext length and untouched beyond. *)
Theorem record_open_fails_clean `{GcmLaws} (seq : Z) (wire key iv pt_out : list Z) :
  bytes_ok wire -> len iv = SL_AEAD_IV_LEN ->
  exists r pt_out', sl_record_open wire key iv seq pt_out = Ok (r, pt_out') /\
    (r = None -> exists n, (n <= length pt_out)%nat /\
       pt_out' = replicate n 0 ++ drop n pt_out).
Proof.
  intros Hb Hi.
  destruct (record_parse wire key iv seq pt_out Hb Hi) as [->|(t' & ct & tag & -> & Ht & Hm & Htag & Hc)].
  - exists None, pt_out. split; [done|]. intros _. exists O. split; [lia|done].
  - rewrite record_open_wire by done.
    assert (length ct <= length pt_out)%nat by (unfold len in *; lia).
    destruct (gcm_open _ _ _ ct tag); eexists _, _; (split; [reflexivity|]); try done; eauto.
Qed.

Example record_open_fails_clean_witness :
  exists r pt_out',
    sl_record_open ([23; 3; 1; 0; 18; 22; 23] ++ replicate 16 99) [4] (replicate 12 1) 2 [7; 7; 7]
      = Ok (r, pt_out') /\
    (r = None -> exists n, (n <= 3)%nat /\ pt_out' = replicate n 0 ++ drop n [7; 7; 7]).
Proof.
  apply (record_open_fails_clean 2 ([23; 3; 1; 0; 18; 22; 23] ++ replicate 16 99) [4]
           (replicate 12 1) [7; 7; 7]).
  - by_deciding.
  - reflexivity.
Defined.
