(* ===== verification/Framing.v ===== *)
(** Wire framing ([inc/framing.hpp]): the length-prefixed frames of the TCP byte stream
    and the streaming [FrameParser] that reassembles them. *)

From S2P Require Import Prelude ByteOrder Codec.
Local Open Scope Z_scope.

(* src/inc/constants.hpp:8-8 *)
Definition MAX_FRAME_SIZE : Z := 65536.
(* src/inc/constants.hpp:9-9 *)
Definition FRAME_HEADER_SIZE : Z := 8.

(* src/inc/framing.hpp:24-34 *)
Inductive FrameType :=
| kInvalid | kHandshakeHi | kHandshakeAck | kHandshakeFin | kData | kKeyUpdate
| kCloseNotify | kPing | kPong.

#[export] Instance FrameType_eq_dec : EqDecision FrameType.
Proof. solve_decision. Defined.

Definition FrameType_code (t : FrameType) : Z :=
  match t with
  | kInvalid => 0 | kHandshakeHi => 1 | kHandshakeAck => 2 | kHandshakeFin => 3
  | kData => 4 | kKeyUpdate => 5 | kCloseNotify => 6 | kPing => 7 | kPong => 8
  end.

(** [static_cast<FrameType>] of a byte the parser has range-checked. *)
Definition FrameType_of_code (c : Z) : FrameType :=
  match c with
  | 1 => kHandshakeHi | 2 => kHandshakeAck | 3 => kHandshakeFin | 4 => kData
  | 5 => kKeyUpdate | 6 => kCloseNotify | 7 => kPing | 8 => kPong | _ => kInvalid
  end.

(* src/inc/framing.hpp:36-42 *)
Inductive ParseStatus :=
| kNeedMore | kReady | kErrorOversize | kErrorBadType | kErrorBadReserved.

#[export] Instance ParseStatus_eq_dec : EqDecision ParseStatus.
Proof. solve_decision. Defined.

(* src/inc/framing.hpp:44-48 *)
Record Frame := mk_frame { type : FrameType; flags : Z; payload : list Z }.

(* src/inc/framing.hpp:124-125 *)
Record FrameParser := mk_parser { buf_ : list Z; max_frame_ : Z }.

(* src/inc/framing.hpp:52-53 *)
Definition new_parser (max_frame : Z) : FrameParser := mk_parser [] max_frame.

(* src/inc/framing.hpp:56-58 *)
Definition feed (p : FrameParser) (data : list Z) : FrameParser :=
  mk_parser (buf_ p ++ data) (max_frame_ p).

(** The caller's [Frame &out] is threaded: it changes only when a frame is ready. *)
(* src/inc/framing.hpp:61-101 *)
Definition next (p : FrameParser) (out : Frame) : M (ParseStatus * Frame * FrameParser) :=
  if len (buf_ p) <? FRAME_HEADER_SIZE then Ok (kNeedMore, out, p)
  else
    let! length := unpack_u32_be (buf_ p) 0 in
    let! type := load (buf_ p) 4 in
    let! flags := load (buf_ p) 5 in
    let! rsv := unpack_u16 (buf_ p) 6 in
    if negb (rsv =? 0) then Ok (kErrorBadReserved, out, p)
    else if max_frame_ p <? length then Ok (kErrorOversize, out, p)
    else if (type =? 0) || (FrameType_code kPong <? type) then Ok (kErrorBadType, out, p)
    else
      let total := u64 (FRAME_HEADER_SIZE + length) in
      if len (buf_ p) <? total then Ok (kNeedMore, out, p)
      else
        let! pl := load_bytes (buf_ p) FRAME_HEADER_SIZE (total - FRAME_HEADER_SIZE) in
        Ok (kReady, mk_frame (FrameType_of_code type) flags pl,
            mk_parser (drop (Z.to_nat total) (buf_ p)) (max_frame_ p)).

(** [payload_len] is the length of [payload]; a [std::vector] of [n] elements starts
    zeroed. *)
(* src/inc/framing.hpp:104-118 *)
Definition encode (type : FrameType) (flags : Z) (payload : list Z) : M (list Z) :=
  let payload_len := len payload in
  let out := replicate (Z.to_nat (FRAME_HEADER_SIZE + payload_len)) 0 in
  let! out := pack_u32_be out 0 (u32 payload_len) in
  let! out := store_bytes out 4 [u8 (FrameType_code type)] in
  let! out := store_bytes out 5 [flags] in
  let! out := store_bytes out 6 [0] in
  let! out := store_bytes out 7 [0] in
  if 0 <? payload_len then store_bytes out FRAME_HEADER_SIZE payload else Ok out.

(* src/inc/framing.hpp:120-120 *)
Definition buffered (p : FrameParser) : Z := len (buf_ p).
(* src/inc/framing.hpp:121-121 *)
Definition parser_reset (p : FrameParser) : FrameParser := mk_parser [] (max_frame_ p).

(** ** The receive loop *)

(** A caller takes frames until the parser stops being ready; [None] is fuel running
    out. [receive] does so after each chunk the socket delivers, and gives up on the
    connection at the first error. *)
Fixpoint drain_n (fuel : nat) (p : FrameParser) : M (option (list Frame * ParseStatus * FrameParser)) :=
  match fuel with
  | O => Ok None
  | S fuel =>
      let! '(st, f, p) := next p (mk_frame kInvalid 0 []) in
      if decide (st = kReady) then
        let! r := drain_n fuel p in
        Ok (match r with Some (fs, st, p) => Some (f :: fs, st, p) | None => None end)
      else Ok (Some ([], st, p))
  end.

Definition drain (p : FrameParser) : M (option (list Frame * ParseStatus * FrameParser)) :=
  drain_n (S (length (buf_ p))) p.

Fixpoint receive (p : FrameParser) (chunks : list (list Z))
  : M (option (list Frame * ParseStatus * FrameParser)) :=
  match chunks with
  | [] => Ok (Some ([], kNeedMore, p))
  | c :: cs =>
      let! r := drain (feed p c) in
      match r with
      | Some (fs, kNeedMore, p) =>
          let! r := receive p cs in
          Ok (match r with Some (fs', st, p) => Some (fs ++ fs', st, p) | None => None end)
      | _ => Ok r
      end
  end.

(** ** Layout *)

Definition frame_wire (f : Frame) : list Z :=
  be32 (len (payload f)) ++ [u8 (FrameType_code (type f))] ++ [flags f] ++ be16 0 ++ payload f.

Definition frame_valid (max_frame : Z) (f : Frame) : Prop :=
  type f <> kInvalid /\ is_u8 (flags f) /\ len (payload f) <= max_frame /\ is_u32 (len (payload f)).

Lemma len_frame_wire f : len (frame_wire f) = 8 + len (payload f).
Proof. unfold frame_wire. autorewrite with len. lia. Qed.

Lemma FrameType_roundtrip t : FrameType_of_code (FrameType_code t) = t.
Proof. by destruct t. Qed.

Lemma FrameType_valid t :
  t <> kInvalid ->
  u8 (FrameType_code t) = FrameType_code t /\ 1 <= FrameType_code t <= 8.
Proof. by destruct t. Qed.

Lemma FrameType_accepted c :
  (c =? 0) || (FrameType_code kPong <? c) = false -> is_u8 c ->
  FrameType_of_code c <> kInvalid /\ u8 (FrameType_code (FrameType_of_code c)) = c.
Proof.
  simpl. intros Hc Hr. assert (1 <= c <= 8) as H by lia.
  assert (c = 1 \/ c = 2 \/ c = 3 \/ c = 4 \/ c = 5 \/ c = 6 \/ c = 7 \/ c = 8) by lia.
  destruct_or!; subst c; done.
Qed.

Lemma frame_encode_wire t fl pl :
  is_u32 (len pl) -> encode t fl pl = Ok (frame_wire (mk_frame t fl pl)).
Proof.
  intros Hl. unfold encode, FRAME_HEADER_SIZE. rewrite u32_small by done.
  remember (replicate _ 0) as out eqn:Eo.
  assert (Ho : len out = 8 + len pl) by (subst out; len_lia). clear Eo.
  change out with ([] ++ out) at 1. fill. rewrite <- !app_assoc.
  unfold frame_wire. cbn [type flags payload]. change (be16 0) with [0; 0].
  destruct (Z.ltb_spec 0 (len pl)); rewrite drop_ge by (unfold len in *; lia).
  - by rewrite app_nil_r.
  - by rewrite (len_0_nil pl) by len_lia.
Qed.

Lemma next_wire max f rest out :
  frame_valid max f ->
  next (mk_parser (frame_wire f ++ rest) max) out = Ok (kReady, f, mk_parser rest max).
Proof.
  intros (Ht & Hf & Hm & Hl). destruct (FrameType_valid _ Ht) as [Hu Hc].
  unfold next, FRAME_HEADER_SIZE. cbn [buf_ max_frame_].
  pose proof (len_nonneg rest). rewrite len_app, len_frame_wire.
  rewrite (proj2 (Z.ltb_ge _ _)) by lia. cbn beta.
  unfold frame_wire. rewrite <- !app_assoc. rewrite Hu. change (FrameType_code kPong) with 8.
  repeat first [read_step | test_step | rewrite u64_small by lia].
  rewrite FrameType_roundtrip. replace (mk_frame _ _ _) with f by (by destruct f).
  rewrite !app_assoc, drop_app_exact by len_lia. done.
Qed.

(** Untrusted input: a ready frame is exactly the front of the buffer; any other status
    leaves buffer and [out] alone. *)
Definition next_post (p : FrameParser) (out : Frame) (r : ParseStatus * Frame * FrameParser) : Prop :=
  let '(st, out', p') := r in
  if decide (st = kReady)
  then frame_valid (max_frame_ p) out' /\ buf_ p = frame_wire out' ++ buf_ p' /\
       max_frame_ p' = max_frame_ p
  else out' = out /\ p' = p.

Lemma next_sound p out : bytes_ok (buf_ p) -> returns (next p out) (next_post p out).
Proof.
  intros Hb. unfold next, FRAME_HEADER_SIZE.
  repeat first [branch_step | sound_step | rewrite u64_small in * by lia].
  all: try (apply returns_ok; unfold next_post; simpl; done).
  destruct (FrameType_accepted v0) as [Ht Hu]; [done..|].
  apply returns_ok. unfold next_post, frame_valid, frame_wire. simpl.
  replace (8 + v - 8) with v in * by lia. rewrite Hu, L. subst v2.
  split_and!; [done|lia..| |done]. consume (buf_ p).
Qed.

(** ** Growing the buffer *)

Lemma next_ready_app p out f p' x :
  bytes_ok (buf_ p) -> next p out = Ok (kReady, f, p') ->
  next (feed p x) out = Ok (kReady, f, feed p' x).
Proof.
  intros Hb Hn. destruct (next_sound p out Hb) as (r & Hr & Hp). rewrite Hn in Hr.
  simplify_eq. destruct Hp as (Hv & E & Hm). unfold feed. rewrite E, <- app_assoc, Hm.
  by apply next_wire.
Qed.

(** An error is final: more bytes do not change the verdict. *)
Lemma next_error_app p out st out' p' x :
  next p out = Ok (st, out', p') -> st <> kReady -> st <> kNeedMore ->
  next (feed p x) out = Ok (st, out, feed p x).
Proof.
  intros Hn Hr Hm. unfold next in *. unfold feed. cbn [buf_ max_frame_]. revert Hn.
  destruct (Z.ltb_spec (len (buf_ p)) FRAME_HEADER_SIZE); [by intros [=]|].
  rewrite len_app. pose proof (len_nonneg x). rewrite (proj2 (Z.ltb_ge _ _)) by lia.
  destruct (unpack_u32_be (buf_ p) 0) eqn:E0; [|done]. rewrite (unpack_u32_prefix _ _ _ _ E0).
  destruct (load (buf_ p) 4) eqn:E1; [|done]. rewrite (load_prefix _ _ _ _ E1).
  destruct (load (buf_ p) 5) eqn:E2; [|done]. rewrite (load_prefix _ _ _ _ E2).
  destruct (unpack_u16 (buf_ p) 6) eqn:E3; [|done]. rewrite (unpack_u16_prefix _ _ _ _ E3).
  repeat case_match; intros; simplify_eq; done.
Qed.

(** ** Draining and chunking *)

Lemma drain_n_mono n m p r : (n <= m)%nat -> drain_n n p = Ok (Some r) -> drain_n m p = Ok (Some r).
Proof.
  revert m p r. induction n as [|n IH]; intros m p r Hm; [done|].
  destruct m as [|m]; [lia|]. simpl.
  destruct (next p _) as [[[st f] p1]|]; [|done].
  destruct (decide (st = kReady)); [|done].
  destruct (drain_n n p1) as [[[[fs st'] p2]|]|] eqn:E; try done.
  intros [= <-]. by rewrite (IH m p1 _ ltac:(lia) E).
Qed.

(** The first [next] of a drain. *)
Definition drain_post (p : FrameParser) (r : list Frame * ParseStatus * FrameParser) : Prop :=
  let '(fs, st, p') := r in
  st <> kReady /\ Forall (frame_valid (max_frame_ p)) fs /\
  buf_ p = concat (map frame_wire fs) ++ buf_ p' /\ max_frame_ p' = max_frame_ p /\
  next p' (mk_frame kInvalid 0 []) = Ok (st, mk_frame kInvalid 0 [], p').

Lemma drain_n_total n p :
  bytes_ok (buf_ p) -> (length (buf_ p) < n)%nat ->
  exists r, drain_n n p = Ok (Some r) /\ drain_post p r.
Proof.
  revert p. induction n as [|n IH]; intros p Hb Hn; [lia|]. simpl.
  destruct (next_sound p (mk_frame kInvalid 0 []) Hb) as ([[st f] p1] & E & Hp).
  rewrite E. unfold next_post in Hp. destruct (decide (st = kReady)) as [->|Hst].
  - destruct Hp as (Hv & Eb & Em).
    assert (Hb1 : bytes_ok (buf_ p1)) by (rewrite Eb in Hb; by apply bytes_ok_app_inv in Hb as [_ ?]).
    destruct (IH p1 Hb1) as ([[fs st'] p2] & -> & H1 & H2 & H3 & H4 & H5).
    { rewrite Eb, length_app in Hn. pose proof (len_frame_wire f) as Hl.
      pose proof (len_nonneg (payload f)). unfold len in *. lia. }
    eexists. split; [done|]. rewrite Em in *. split_and!; [done|by constructor| |done|done].
    rewrite Eb, H3. simpl. by rewrite app_assoc.
  - destruct Hp as [-> ->]. eexists. split; [done|]. unfold drain_post. eauto.
Qed.

(** The buffer determines the outcome: frames split it in one way only. *)
Lemma drain_n_frames fs p st r n :
  Forall (frame_valid (max_frame_ p)) fs ->
  next r (mk_frame kInvalid 0 []) = Ok (st, mk_frame kInvalid 0 [], r) -> st <> kReady ->
  max_frame_ r = max_frame_ p ->
  buf_ p = concat (map frame_wire fs) ++ buf_ r -> (length fs < n)%nat ->
  drain_n n p = Ok (Some (fs, st, r)).
Proof.
  intros Hv Hr Hst Hm. revert n p Hv Hm. induction fs as [|f fs IH]; intros n p Hv Hm E Hn.
  - destruct n; [simpl in Hn; lia|]. simpl in *. destruct p as [b m], r as [b' m']. simpl in *.
    subst. rewrite Hr. by destruct (decide (st = kReady)).
  - destruct n as [|n]; [simpl in Hn; lia|]. inversion Hv as [|? ? Hf Hfs]; subst.
    destruct p as [b m]. cbn [buf_ max_frame_ map concat] in *. subst b. cbn [drain_n].
    rewrite <- app_assoc, next_wire by done. rewrite decide_True by done.
    rewrite IH; [done|done|done|done|simpl in Hn; lia].
Qed.

Lemma frames_shorter fs : (length fs <= length (concat (map frame_wire fs)))%nat.
Proof.
  induction fs as [|f fs IH]; simpl; [lia|]. rewrite length_app.
  pose proof (len_frame_wire f). pose proof (len_nonneg (payload f)). unfold len in *. lia.
Qed.

Lemma drain_frames fs p st r :
  Forall (frame_valid (max_frame_ p)) fs ->
  next r (mk_frame kInvalid 0 []) = Ok (st, mk_frame kInvalid 0 [], r) -> st <> kReady ->
  max_frame_ r = max_frame_ p ->
  buf_ p = concat (map frame_wire fs) ++ buf_ r ->
  drain p = Ok (Some (fs, st, r)).
Proof.
  intros Hv Hn Hs Hm E. unfold drain. eapply drain_n_frames; [done..|].
  rewrite E, length_app. pose proof (frames_shorter fs). lia.
Qed.

(** Draining chunk by chunk and draining everything at once take the same frames and
    end in the same status; without an error the same bytes are left over. *)
Lemma receive_drain chunks : forall p,
  bytes_ok (buf_ p) -> Forall bytes_ok chunks ->
  next p (mk_frame kInvalid 0 []) = Ok (kNeedMore, mk_frame kInvalid 0 [], p) ->
  exists fs st p1 p2,
    receive p chunks = Ok (Some (fs, st, p1)) /\
    drain (feed p (concat chunks)) = Ok (Some (fs, st, p2)) /\
    (st = kNeedMore -> p1 = p2).
Proof.
  induction chunks as [|c cs IH]; intros p Hb Hc Hn.
  { exists [], kNeedMore, p, p. simpl. split_and!; [done| |done]. unfold feed. simpl.
    apply drain_frames; try done. by rewrite app_nil_r. }
  inversion Hc as [|? ? Hc1 Hc2]; subst.
  assert (Hb1 : bytes_ok (buf_ (feed p c))) by (simpl; auto with bytes).
  destruct (drain_n_total _ (feed p c) Hb1 (Nat.lt_succ_diag_r _))
    as ([[fs1 st1] p1] & E1 & Hs1 & Hv1 & Hb2 & Hm1 & Hn1).
  change (drain_n _ _) with (drain (feed p c)) in E1. simpl in Hb2, Hv1, Hm1.
  assert (Hbp1 : bytes_ok (buf_ p1)).
  { simpl in Hb1. rewrite Hb2 in Hb1. by apply bytes_ok_app_inv in Hb1 as [_ ?]. }
  cbn [receive concat]. rewrite E1. destruct (decide (st1 = kNeedMore)) as [->|Hst].
  - destruct (IH p1 Hbp1 Hc2 Hn1) as (fs2 & st2 & q1 & q2 & -> & E2 & Hq).
    assert (Hb3 : bytes_ok (buf_ (feed p1 (concat cs)))).
    { simpl. apply bytes_ok_app; [done|]. by apply Forall_concat. }
    destruct (drain_n_total _ _ Hb3 (Nat.lt_succ_diag_r _))
      as ([[fs2' st2'] q2'] & E2' & Hs2 & Hv2 & Hb4 & Hm2 & Hn2).
    change (drain_n _ _) with (drain (feed p1 (concat cs))) in E2'.
    rewrite E2 in E2'. simplify_eq. simpl in *.
    exists (fs1 ++ fs2'), st2', q1, q2'. split_and!; [done| |done].
    rewrite Hm1 in Hv2. apply drain_frames; [by apply Forall_app|done|done|simpl; congruence|].
    simpl. rewrite map_app, concat_app, (app_assoc (buf_ p)), Hb2, <- !app_assoc, Hb4. done.
  - exists fs1, st1, p1, (feed p1 (concat cs)). split_and!; [by destruct st1| |done].
    apply drain_frames; [done|by eapply next_error_app|done|done|].
    simpl. by rewrite (app_assoc (buf_ p)), Hb2, <- app_assoc.
Qed.

(** ** The parser's guarantees *)

(** C4: However TCP cuts the byte stream into chunks, the receive loop completes, takes
    the same frames in the same order and ends in the same status, error statuses
    included: the outcome is a function of the bytes alone. *)
Theorem frame_parser_chunking (max : Z) (chunks1 chunks2 : list (list Z)) :
  bytes_ok (concat chunks1) -> concat chunks1 = concat chunks2 ->
  exists fs st p1 p2,
    receive (new_parser max) chunks1 = Ok (Some (fs, st, p1)) /\
    receive (new_parser max) chunks2 = Ok (Some (fs, st, p2)) /\
    (st = kNeedMore -> p1 = p2).
Proof.
  intros Hb E. assert (Hb2 := Hb). rewrite E in Hb2.
  destruct (receive_drain chunks1 (new_parser max)) as (fs & st & p1 & q1 & H1 & D1 & Q1);
    [constructor|by apply Forall_concat|done|].
  destruct (receive_drain chunks2 (new_parser max)) as (fs' & st' & p2 & q2 & H2 & D2 & Q2);
    [constructor|by apply Forall_concat|done|].
  rewrite <- E, D1 in D2. simplify_eq.
  exists fs', st', p1, p2. split_and!; [done..|]. intros Hst. by rewrite Q1, Q2.
Qed.

Example frame_parser_chunking_witness :
  exists fs st p1 p2,
    receive (new_parser 16) [[0; 0; 0; 1; 4]; [0; 0; 0; 77; 0]] = Ok (Some (fs, st, p1)) /\
    receive (new_parser 16) [[0; 0; 0; 1; 4; 0; 0; 0; 77]; []; [0]] = Ok (Some (fs, st, p2)) /\
    (st = kNeedMore -> p1 = p2).
Proof.
  apply (frame_parser_chunking 16); [|reflexivity]. repeat constructor; lia.
Defined.

(** Frames built by [encode] and sent back to back arrive exactly, in order and with
    nothing left over, whatever the chunking. *)
Theorem frame_stream_roundtrip (max : Z) (fs : list Frame) (ws chunks : list (list Z)) :
  Forall (frame_valid max) fs -> Forall (fun f => bytes_ok (payload f)) fs ->
  Forall2 (fun f w => encode (type f) (flags f) (payload f) = Ok w) fs ws ->
  concat chunks = concat ws ->
  receive (new_parser max) chunks = Ok (Some (fs, kNeedMore, new_parser max)).
Proof.
  intros Hv Hb Hw E.
  assert (Ew : ws = map frame_wire fs).
  { clear E. induction Hw as [|f w fs ws Hf _ IH]; [done|]. simpl.
    inversion Hv as [|? ? (Ht & Hfl & Hm & Hl) ?]; subst. inversion Hb; subst.
    rewrite frame_encode_wire in Hf by done. rewrite <- IH by done. destruct f. simpl in Hf. by simplify_eq. }
  assert (Hc : bytes_ok (concat chunks)).
  { rewrite E, Ew. apply Forall_concat, Forall_map. clear E Ew Hw.
    induction Hv as [|f fs (Ht & Hfl & Hm & Hl) ? IH]; constructor; inversion Hb; subst; [|auto].
    unfold frame_wire. repeat apply bytes_ok_app; auto with bytes. }
  destruct (receive_drain chunks (new_parser max)) as (fs' & st & p1 & q1 & H1 & D1 & Q1);
    [constructor|by apply Forall_concat|done|].
  rewrite (drain_frames fs _ kNeedMore (new_parser max)) in D1; try done.
  - simplify_eq. by rewrite H1, Q1.
  - simpl. rewrite app_nil_r. congruence.
Qed.

Example frame_stream_roundtrip_witness :
  receive (new_parser 16) [[0; 0; 0; 2; 4; 1; 0]; [0; 9]; [8; 0; 0; 0; 0; 8; 0; 0; 0]] =
  Ok (Some ([mk_frame kData 1 [9; 8]; mk_frame kPong 0 []], kNeedMore, new_parser 16)).
Proof.
  eapply (frame_stream_roundtrip 16 [mk_frame kData 1 [9; 8]; mk_frame kPong 0 []]).
  - repeat constructor; simpl; try done; try lia.
  - repeat constructor; lia.
  - repeat constructor.
  - reflexivity.
Defined.

(** The header comment has the reserved field "ignored on receive"; the parser refuses a
    frame in which it is not zero. *)
Lemma frame_reserved_rejected (p : FrameParser) (out : Frame) (a b : Z) :
  bytes_ok (buf_ p) -> buf_ p !! 6%nat = Some a -> buf_ p !! 7%nat = Some b ->
  a * 256 + b <> 0 -> next p out = Ok (kErrorBadReserved, out, p).
Proof.
  intros Hb Ha Hb' Hne. assert (Hl : 8 <= len (buf_ p)).
  { apply lookup_lt_Some in Hb'. unfold len. lia. }
  unfold next, FRAME_HEADER_SIZE. rewrite (proj2 (Z.ltb_ge _ _)) by lia.
  destruct (unpack_u32_sound (buf_ p) 0) as (v & -> & _); [done|lia..|].
  destruct (load_sound (buf_ p) 4) as (v4 & -> & _); [done|lia..|].
  destruct (load_sound (buf_ p) 5) as (v5 & -> & _); [done|lia..|].
  unfold unpack_u16. rewrite (load_ok (buf_ p) 6 a), (load_ok (buf_ p) (6 + 1) b) by done.
  rewrite combine16 by (eapply Forall_lookup_1 in Hb; eauto).
  by rewrite (proj2 (Z.eqb_neq _ _)).
Qed.
