(* ===== verification/ReplayGuard.v ===== *)
(** The anti-replay window of a connection ([inc/replay_guard.hpp]): a bitmap of the
    last [WindowSize] sequence numbers below the highest one seen. The development shows
    that the bitmap implements the set of accepted numbers. *)

From S2P Require Import Prelude.
Local Open Scope Z_scope.

(* src/inc/constants.hpp:23-23 *)
Definition REPLAY_WINDOW_SIZE : Z := 1024.

(** The class template's state. *)
(* src/inc/replay_guard.hpp:128-132 *)
Record ReplayGuard := mk_guard {
  bitmap_ : list Z;
  highest_ : Z;
  accepted_ : Z;
  rejected_replay_ : Z;
  rejected_too_old_ : Z
}.

Section Guard.
  (** The template argument. *)
  Variable WindowSize : Z.

(* src/inc/replay_guard.hpp:29-29 *)
Definition kWindow : Z := WindowSize.
(* src/inc/replay_guard.hpp:30-30 *)
Definition kWords : Z := WindowSize / 64.

(* src/inc/replay_guard.hpp:32-32 *)
Definition new_guard : ReplayGuard :=
  mk_guard (replicate (Z.to_nat kWords) 0) 0 0 0 0.

(** [for (i = kWords - 1; i >= 0; --i)], [n] being the number of words left. *)
(* src/inc/replay_guard.hpp:96-101 *)
Fixpoint word_shift_loop (word_shift : Z) (n : nat) (bm : list Z) : M (list Z) :=
  match n with
  | O => Ok bm
  | S i =>
      let src := Z.of_nat i - word_shift in
      let! w := (if 0 <=? src then load bm src else Ok 0) in
      let! bm := store bm (Z.of_nat i) w in
      word_shift_loop word_shift i bm
  end.

(* src/inc/replay_guard.hpp:102-108 *)
Fixpoint bit_shift_loop (bit_shift : Z) (n : nat) (bm : list Z) : M (list Z) :=
  match n with
  | O => Ok bm
  | S i =>
      let! w := load bm (Z.of_nat i) in
      let hi := u64 (w ≪ bit_shift) in
      let! lo := (if 0 <? Z.of_nat i
                  then let! v := load bm (Z.of_nat i - 1) in Ok (v ≫ (64 - bit_shift))
                  else Ok 0) in
      let! bm := store bm (Z.of_nat i) (Z.lor hi lo) in
      bit_shift_loop bit_shift i bm
  end.

(** The new bitmap; the rest of the state is untouched. *)
(* src/inc/replay_guard.hpp:86-109 *)
Definition advance_to (g : ReplayGuard) (new_high : Z) : M (list Z) :=
  let shift := u64 (new_high - highest_ g) in
  if kWindow <=? shift then Ok (replicate (length (bitmap_ g)) 0)
  else
    let word_shift := u32 (shift / 64) in
    let bit_shift := u32 (shift mod 64) in
    let! bm := (if 0 <? word_shift then word_shift_loop word_shift (Z.to_nat kWords) (bitmap_ g)
                else Ok (bitmap_ g)) in
    if 0 <? bit_shift then bit_shift_loop bit_shift (Z.to_nat kWords) bm else Ok bm.

(* src/inc/replay_guard.hpp:111-116 *)
Definition index_of (highest seq : Z) : Z :=
  let pos := if seq <=? highest then u64 (highest - seq) else kWindow - 1 in
  u32 (Z.land pos (kWindow - 1)).

(* src/inc/replay_guard.hpp:118-121 *)
Definition test_bit (bm : list Z) (highest seq : Z) : M bool :=
  let idx := index_of highest seq in
  let! w := load bm (idx / 64) in
  Ok (negb (Z.land (w ≫ (idx mod 64)) 1 =? 0)).

(* src/inc/replay_guard.hpp:123-126 *)
Definition set_bit (bm : list Z) (highest seq : Z) : M (list Z) :=
  let idx := index_of highest seq in
  let! w := load bm (idx / 64) in
  store bm (idx / 64) (Z.lor w (u64 (1 ≪ (idx mod 64)))).

(* src/inc/replay_guard.hpp:36-63 *)
Definition check_and_update (g : ReplayGuard) (seq : Z) : M (bool * ReplayGuard) :=
  if seq =? 0 then Ok (false, g)
  else if highest_ g <? seq then
    let! bm := advance_to g seq in
    let! bm := set_bit bm seq seq in
    Ok (true, mk_guard bm seq (u64 (accepted_ g + 1)) (rejected_replay_ g) (rejected_too_old_ g))
  else
    let diff := u64 (highest_ g - seq) in
    if kWindow <=? diff then
      Ok (false, mk_guard (bitmap_ g) (highest_ g) (accepted_ g) (rejected_replay_ g)
                   (u64 (rejected_too_old_ g + 1)))
    else
      let! seen := test_bit (bitmap_ g) (highest_ g) seq in
      if seen then
        Ok (false, mk_guard (bitmap_ g) (highest_ g) (accepted_ g)
                     (u64 (rejected_replay_ g + 1)) (rejected_too_old_ g))
      else
        let! bm := set_bit (bitmap_ g) (highest_ g) seq in
        Ok (true, mk_guard bm (highest_ g) (u64 (accepted_ g + 1)) (rejected_replay_ g)
                    (rejected_too_old_ g)).

(* src/inc/replay_guard.hpp:66-72 *)
Definition would_accept (g : ReplayGuard) (seq : Z) : M bool :=
  if seq =? 0 then Ok false
  else if highest_ g <? seq then Ok true
  else
    let diff := u64 (highest_ g - seq) in
    if kWindow <=? diff then Ok false
    else let! seen := test_bit (bitmap_ g) (highest_ g) seq in Ok (negb seen).

(* src/inc/replay_guard.hpp:74-78 *)
Definition reset (g : ReplayGuard) : ReplayGuard :=
  mk_guard (replicate (length (bitmap_ g)) 0) 0 0 0 0.

(** A connection's receive loop: the verdicts on a sequence of arriving numbers. *)
Fixpoint run_guard (g : ReplayGuard) (seqs : list Z) : M (list bool * ReplayGuard) :=
  match seqs with
  | [] => Ok ([], g)
  | s :: seqs =>
      let! '(b, g) := check_and_update g s in
      let! '(bs, g) := run_guard g seqs in
      Ok (b :: bs, g)
  end.

(** ** Abstract specification *)

(** The numbers accepted so far, newest first. *)
Definition top (S : list Z) : Z := foldr Z.max 0 S.

(** A number is fresh if it is above everything seen, or recent and not seen. *)
Definition fresh (S : list Z) (seq : Z) : bool :=
  negb (seq =? 0) &&
  ((top S <? seq) || ((top S - seq <? kWindow) && negb (bool_decide (seq ∈ S)))).

Definition spec_step (S : list Z) (seq : Z) : bool * list Z :=
  if fresh S seq then (true, seq :: S) else (false, S).

Fixpoint spec_run (S : list Z) (seqs : list Z) : list bool * list Z :=
  match seqs with
  | [] => ([], S)
  | s :: seqs =>
      let '(b, S1) := spec_step S s in
      let '(bs, S2) := spec_run S1 seqs in (b :: bs, S2)
  end.

(** ** The bitmap as a sequence of bits *)

Definition word (bm : list Z) (j : Z) : Z :=
  if 0 <=? j then default 0 (bm !! Z.to_nat j) else 0.

Definition bit (bm : list Z) (i : Z) : bool := Z.testbit (word bm (i / 64)) (i mod 64).

Definition words_ok (bm : list Z) : Prop := Forall (fun w => is_u64 w) bm.

Lemma word_range bm j : words_ok bm -> is_u64 (word bm j).
Proof.
  intros Hb. unfold word. destruct (0 <=? j); [|done].
  destruct (bm !! Z.to_nat j) eqn:E; simpl; [|done]. exact (Forall_lookup_1 _ _ _ _ Hb E).
Qed.

Lemma load_word bm j : 0 <= j < len bm -> load bm j = Ok (word bm j).
Proof.
  intros Hj. destruct (load_in_bounds bm j Hj) as (v & -> & E).
  unfold word. rewrite (proj2 (Z.leb_le 0 j)) by lia. by rewrite E.
Qed.

Lemma word_neg bm j : j < 0 -> word bm j = 0.
Proof. intros. unfold word. by rewrite (proj2 (Z.leb_gt _ _)) by lia. Qed.

Lemma word_insert bm k v j :
  0 <= k < len bm -> 0 <= j ->
  word (<[Z.to_nat k := v]> bm) j = if j =? k then v else word bm j.
Proof.
  intros Hk Hj. unfold word. rewrite (proj2 (Z.leb_le 0 j)) by lia.
  destruct (Z.eqb_spec j k) as [->|Hne].
  - rewrite list_lookup_insert_eq by (unfold len in Hk; lia). done.
  - rewrite list_lookup_insert_ne by lia. done.
Qed.

Lemma words_insert bm k v : words_ok bm -> is_u64 v -> words_ok (<[k := v]> bm).
Proof. intros. by apply Forall_insert. Qed.

Lemma testbit_high w n : is_u64 w -> 64 <= n -> Z.testbit w n = false.
Proof.
  intros Hw Hn. rewrite <- (Z.mod_small w (2 ^ 64)) by (simpl; lia).
  apply Z.mod_pow2_bits_high. lia.
Qed.

Lemma testbit_u64 w n : 0 <= n < 64 -> Z.testbit (u64 w) n = Z.testbit w n.
Proof.
  intros. unfold u64. change 18446744073709551616 with (2 ^ 64).
  apply Z.mod_pow2_bits_low. lia.
Qed.

(** *** The shift loops *)

Lemma word_shift_loop_spec ws n bm :
  0 <= ws -> Z.of_nat n <= len bm -> words_ok bm ->
  exists r, word_shift_loop ws n bm = Ok r /\ len r = len bm /\ words_ok r /\
    forall j, 0 <= j -> word r j = if j <? Z.of_nat n then word bm (j - ws) else word bm j.
Proof.
  intros Hws. revert bm. induction n as [|i IH]; intros bm Hn Hb; cbn [word_shift_loop].
  { exists bm. split_and!; [done..|]. intros j Hj. by rewrite (proj2 (Z.ltb_ge _ _)) by lia. }
  assert (Hw : (if 0 <=? Z.of_nat i - ws then load bm (Z.of_nat i - ws) else Ok 0)
               = Ok (word bm (Z.of_nat i - ws))).
  { destruct (Z.leb_spec 0 (Z.of_nat i - ws)).
    - by rewrite load_word by lia.
    - by rewrite word_neg by lia. }
  rewrite Hw, store_ok by lia.
  destruct (IH (<[Z.to_nat (Z.of_nat i) := word bm (Z.of_nat i - ws)]> bm))
    as (r & -> & Hl & Hr & Hj).
  { len_lia. } { apply words_insert; [done|]. by apply word_range. }
  exists r. split_and!; [done|len_lia|done|]. intros j H0. rewrite Hj by done.
  destruct (Z.ltb_spec j (Z.of_nat i)), (Z.ltb_spec j (Z.of_nat (S i))); try lia.
  - destruct (decide (j - ws < 0)); [by rewrite !word_neg by lia|].
    rewrite word_insert by lia. by rewrite (proj2 (Z.eqb_neq _ _)) by lia.
  - rewrite word_insert, (proj2 (Z.eqb_eq _ _)) by lia. f_equal; lia.
  - rewrite word_insert, (proj2 (Z.eqb_neq _ _)) by lia. done.
Qed.

Definition shifted_word (bs : Z) (bm : list Z) (j : Z) : Z :=
  Z.lor (u64 (word bm j ≪ bs)) (word bm (j - 1) ≫ (64 - bs)).

Lemma shifted_word_range bs bm j :
  0 <= bs <= 64 -> words_ok bm -> is_u64 (shifted_word bs bm j).
Proof.
  intros Hs Hb. apply lor_u64; [apply u64_range|].
  apply shiftr_u64; [by apply word_range|lia].
Qed.

Lemma bit_shift_loop_spec bs n bm :
  0 <= bs <= 64 -> Z.of_nat n <= len bm -> words_ok bm ->
  exists r, bit_shift_loop bs n bm = Ok r /\ len r = len bm /\ words_ok r /\
    forall j, 0 <= j -> word r j = if j <? Z.of_nat n then shifted_word bs bm j else word bm j.
Proof.
  intros Hs. revert bm. induction n as [|i IH]; intros bm Hn Hb; cbn [bit_shift_loop].
  { exists bm. split_and!; [done..|]. intros j Hj. by rewrite (proj2 (Z.ltb_ge _ _)) by lia. }
  rewrite load_word by lia.
  assert (Hw : (if 0 <? Z.of_nat i
                then let! v := load bm (Z.of_nat i - 1) in Ok (v ≫ (64 - bs)) else Ok 0)
               = Ok (word bm (Z.of_nat i - 1) ≫ (64 - bs))).
  { destruct (Z.ltb_spec 0 (Z.of_nat i)).
    - by rewrite load_word by lia.
    - by rewrite word_neg, Z.shiftr_0_l by lia. }
  rewrite Hw, store_ok by lia. fold (shifted_word bs bm (Z.of_nat i)).
  destruct (IH (<[Z.to_nat (Z.of_nat i) := shifted_word bs bm (Z.of_nat i)]> bm))
    as (r & -> & Hl & Hr & Hj).
  { len_lia. } { apply words_insert; [done|]. by apply shifted_word_range. }
  exists r. split_and!; [done|len_lia|done|]. intros j H0. rewrite Hj by done.
  destruct (Z.ltb_spec j (Z.of_nat i)), (Z.ltb_spec j (Z.of_nat (S i))); try lia.
  - unfold shifted_word at 1. rewrite word_insert, (proj2 (Z.eqb_neq _ _)) by lia.
    destruct (decide (j - 1 < 0)).
    + unfold shifted_word. by rewrite !(word_neg _ (j - 1)) by lia.
    + by rewrite word_insert, (proj2 (Z.eqb_neq _ _)) by lia.
  - rewrite word_insert, (proj2 (Z.eqb_eq _ _)) by lia. f_equal; lia.
  - rewrite word_insert, (proj2 (Z.eqb_neq _ _)) by lia. done.
Qed.

(** A word shift then a bit shift move every bit up by the whole distance. *)
Lemma word_shift_bit ws bm r i :
  (forall j, 0 <= j -> word r j = if j <? len bm then word bm (j - ws) else word bm j) ->
  0 <= i < 64 * len bm -> bit r i = bit bm (i - 64 * ws).
Proof.
  intros Hr Hi. unfold bit.
  assert (0 <= i / 64 < len bm) by (split; [apply Z.div_pos|apply Z.div_lt_upper_bound]; lia).
  rewrite Hr, (proj2 (Z.ltb_lt _ _)) by lia.
  replace (i - 64 * ws) with (i + (- ws) * 64) by lia.
  by rewrite Z.div_add, Z_mod_plus_full by lia.
Qed.

Lemma bit_shift_bit bs bm r i :
  0 < bs < 64 -> words_ok bm ->
  (forall j, 0 <= j -> word r j = if j <? len bm then shifted_word bs bm j else word bm j) ->
  0 <= i < 64 * len bm -> bit r i = bit bm (i - bs).
Proof.
  intros Hs Hb Hr Hi. unfold bit.
  pose proof (Z.div_mod i 64 ltac:(lia)) as Hd. pose proof (Z.mod_pos_bound i 64 ltac:(lia)) as Hm.
  rewrite Hr, (proj2 (Z.ltb_lt _ _)) by lia.
  remember (i / 64) as q eqn:Eq. remember (i mod 64) as m eqn:Em. clear Eq Em.
  unfold shifted_word. rewrite Z.lor_spec, testbit_u64 by lia.
  rewrite Z.shiftr_spec, Z.shiftl_spec by lia.
  destruct (decide (m < bs)).
  - replace (i - bs) with ((m + 64 - bs) + (q - 1) * 64) by lia.
    rewrite Z.div_add, Z_mod_plus_full, Z.div_small, Z.mod_small by lia.
    rewrite (Z.testbit_neg_r _ (m - bs)) by lia. simpl. f_equal; lia.
  - replace (i - bs) with ((m - bs) + q * 64) by lia.
    rewrite Z.div_add, Z_mod_plus_full, Z.div_small, Z.mod_small by lia.
    rewrite (testbit_high (word bm (q - 1))) by (first [by apply word_range|lia]).
    by rewrite orb_false_r.
Qed.

(** ** The invariant *)

(** The template's static assertions. *)
Hypothesis window_pow2 : exists k, 6 <= k < 32 /\ WindowSize = 2 ^ k.

Lemma window_words : kWindow = 64 * kWords /\ 1 <= kWords /\ 64 <= kWindow < 4294967296.
Proof.
  destruct window_pow2 as (k & Hk & E). unfold kWords, kWindow.
  assert (E2 : WindowSize = 64 * 2 ^ (k - 6)).
  { rewrite E. change 64 with (2 ^ 6). rewrite <- Z.pow_add_r by lia. f_equal; lia. }
  rewrite E2, Z.mul_comm, Z.div_mul by lia.
  pose proof (Z.pow_le_mono_r 2 0 (k - 6)). pose proof (Z.pow_le_mono_r 2 (k - 6) 25). lia.
Qed.

Lemma index_of_window highest seq :
  is_u64 highest -> 0 <= highest - seq < kWindow -> index_of highest seq = highest - seq.
Proof.
  intros Hh Hd. pose proof window_words as (_ & _ & Hw). unfold index_of.
  rewrite (proj2 (Z.leb_le _ _)), u64_small by lia.
  destruct window_pow2 as (k & Hk & E). unfold kWindow in *.
  replace (WindowSize - 1) with (Z.ones k) by (rewrite Z.ones_equiv; lia).
  rewrite Z.land_ones, Z.mod_small, u32_small by lia. done.
Qed.

Definition bitmap_ok (bm : list Z) : Prop := len bm = kWords /\ words_ok bm.

Lemma idx_words i : 0 <= i < kWindow -> 0 <= i / 64 < kWords.
Proof.
  intros Hi. pose proof window_words. split; [apply Z.div_pos|apply Z.div_lt_upper_bound]; lia.
Qed.

Lemma zero_bitmap_ok n : Z.of_nat n = kWords -> bitmap_ok (replicate n 0).
Proof. intros H. split; [len_lia|]. by apply Forall_replicate. Qed.

Lemma zero_bit n i : bit (replicate n 0) i = false.
Proof.
  unfold bit, word. destruct (0 <=? i / 64); [|apply Z.bits_0].
  destruct (replicate n 0 !! Z.to_nat (i / 64)) eqn:E; simpl; [|apply Z.bits_0].
  apply lookup_replicate in E as [-> _]. apply Z.bits_0.
Qed.

Lemma bit_neg bm i : i < 0 -> bit bm i = false.
Proof.
  intros. unfold bit. rewrite word_neg; [apply Z.bits_0|]. apply Z.div_lt_upper_bound; lia.
Qed.

Lemma test_bit_spec bm highest seq :
  bitmap_ok bm -> is_u64 highest -> 0 <= highest - seq < kWindow ->
  test_bit bm highest seq = Ok (bit bm (highest - seq)).
Proof.
  intros [Hl Hb] Hh Hd. unfold test_bit. rewrite index_of_window by done.
  pose proof (idx_words _ Hd). rewrite load_word by lia. f_equal. unfold bit.
  by rewrite land_shiftr_1.
Qed.

Lemma set_bit_spec bm highest seq :
  bitmap_ok bm -> is_u64 highest -> 0 <= highest - seq < kWindow ->
  exists r, set_bit bm highest seq = Ok r /\ bitmap_ok r /\
    forall i, 0 <= i < kWindow -> bit r i = bit bm i || (i =? highest - seq).
Proof.
  intros [Hl Hb] Hh Hd. unfold set_bit. rewrite index_of_window by done.
  remember (highest - seq) as p eqn:Ep. clear Ep. pose proof (idx_words _ Hd) as Hp.
  pose proof (Z.mod_pos_bound p 64 ltac:(lia)) as Hm.
  rewrite load_word, store_ok by lia. eexists. split; [done|]. split.
  { split; [len_lia|]. apply words_insert; [done|].
    apply lor_u64; [by apply word_range|apply u64_range]. }
  intros i Hi. pose proof (idx_words _ Hi). pose proof (Z.mod_pos_bound i 64 ltac:(lia)).
  pose proof (Z.div_mod p 64 ltac:(lia)). pose proof (Z.div_mod i 64 ltac:(lia)).
  unfold bit. rewrite word_insert by lia.
  destruct (Z.eqb_spec (i / 64) (p / 64)) as [E|E].
  - rewrite E, Z.lor_spec, testbit_u64, Z.shiftl_spec by lia. f_equal.
    destruct (Z.eqb_spec i p) as [->|Hne]; [by rewrite Z.sub_diag|].
    destruct (decide (i mod 64 < p mod 64)).
    + by rewrite Z.testbit_neg_r by lia.
    + apply Z.bits_above_log2; [lia|]. simpl. lia.
  - rewrite (proj2 (Z.eqb_neq i p)) by (intros ->; done). by rewrite orb_false_r.
Qed.

Lemma advance_to_spec g n :
  bitmap_ok (bitmap_ g) -> is_u64 (highest_ g) -> is_u64 n -> highest_ g < n ->
  exists r, advance_to g n = Ok r /\ bitmap_ok r /\
    forall i, 0 <= i < kWindow -> bit r i = bit (bitmap_ g) (i - (n - highest_ g)).
Proof.
  intros [Hl Hb] Hh Hn Hlt. pose proof window_words as (HW & H1 & HR).
  unfold advance_to. rewrite u64_small by lia. remember (n - highest_ g) as sh eqn:Esh.
  destruct (Z.leb_spec kWindow sh).
  { eexists; split; [done|]. split.
    - apply zero_bitmap_ok. unfold len in Hl. lia.
    - intros i Hi. by rewrite zero_bit, bit_neg by lia. }
  pose proof (Z.div_mod sh 64 ltac:(lia)). pose proof (Z.mod_pos_bound sh 64 ltac:(lia)).
  assert (0 <= sh / 64 < kWords) by (apply idx_words; lia).
  rewrite !u32_small by lia.
  assert (exists b1, (if 0 <? sh / 64 then word_shift_loop (sh / 64) (Z.to_nat kWords) (bitmap_ g)
                      else Ok (bitmap_ g)) = Ok b1 /\ bitmap_ok b1 /\
      forall i, 0 <= i < kWindow -> bit b1 i = bit (bitmap_ g) (i - 64 * (sh / 64)))
    as (b1 & -> & [Hl1 Hb1] & Hbit1).
  { destruct (Z.ltb_spec 0 (sh / 64)).
    - destruct (word_shift_loop_spec (sh / 64) (Z.to_nat kWords) (bitmap_ g))
        as (b1 & -> & Hb1 & Hw1 & Hj); [lia..|done|].
      rewrite Z2Nat.id, <- Hl in Hj by lia.
      exists b1. split_and!; [done|split; [lia|done]|]. intros i Hi.
      apply word_shift_bit; [done|lia].
    - eexists. split_and!; [done|done|]. intros i Hi. f_equal. lia. }
  destruct (Z.ltb_spec 0 (sh mod 64)).
  - destruct (bit_shift_loop_spec (sh mod 64) (Z.to_nat kWords) b1)
      as (b2 & -> & Hb2 & Hw2 & Hj); [lia..|done|].
    rewrite Z2Nat.id, <- Hl1 in Hj by lia.
    exists b2. split_and!; [done|split; [lia|done]|]. intros i Hi.
    rewrite (bit_shift_bit (sh mod 64) b1) by (first [done|lia]).
    destruct (decide (i < sh mod 64)); [by rewrite !bit_neg by lia|].
    rewrite Hbit1 by lia. f_equal. lia.
  - exists b1. split_and!; [done|done|]. intros i Hi. rewrite Hbit1 by done. f_equal. lia.
Qed.

(** ** Refinement *)

(** [S] lists what the guard has accepted: the bitmap holds exactly its recent part. *)
Record guard_rel (S : list Z) (g : ReplayGuard) : Prop := {
  rel_bitmap : bitmap_ok (bitmap_ g);
  rel_highest : highest_ g = top S;
  rel_bits : forall i, 0 <= i < kWindow -> bit (bitmap_ g) i = bool_decide (top S - i ∈ S);
  rel_seqs : Forall (fun s => 0 < s < 18446744073709551616) S;
  rel_nodup : NoDup S;
  rel_count : accepted_ g = u64 (len S)
}.

Lemma top_ge S s : s ∈ S -> s <= top S.
Proof. induction 1; simpl; lia. Qed.

Lemma top_range S : Forall (fun s => 0 < s < 18446744073709551616) S -> is_u64 (top S).
Proof. induction 1; simpl; lia. Qed.

Lemma guard_rel_new : guard_rel [] (new_guard).
Proof.
  pose proof window_words. split; simpl; try done; try constructor.
  - len_lia.
  - by apply Forall_replicate.
  - intros i Hi. by rewrite zero_bit.
Qed.

Lemma u64_succ n : u64 (u64 n + 1) = u64 (1 + n).
Proof. unfold u64. rewrite Zplus_mod_idemp_l. f_equal. lia. Qed.

(** A number above the window's top is accepted and becomes the top. *)
Lemma check_above S g seq :
  guard_rel S g -> is_u64 seq -> top S < seq ->
  exists g', check_and_update g seq = Ok (true, g') /\ guard_rel (seq :: S) g'.
Proof.
  intros [Hbm Hh Hbits Hs Hnd Hc] Hseq Hlt. pose proof window_words as (_ & _ & HW).
  pose proof (top_range S Hs) as Ht. unfold check_and_update.
  rewrite (proj2 (Z.eqb_neq _ _)), Hh, (proj2 (Z.ltb_lt _ _)) by lia.
  destruct (advance_to_spec g seq) as (b1 & -> & Hb1 & Hbit1); [done|lia..|].
  destruct (set_bit_spec b1 seq seq) as (b2 & -> & Hb2 & Hbit2); [done|lia..|].
  assert (Hout : forall s, s ∈ S -> s <> seq) by (intros s Hin ->; apply top_ge in Hin; lia).
  assert (Htop : top (seq :: S) = seq) by (simpl; lia).
  eexists. split; [done|]. split; rewrite ?Htop; try done.
  - intros i Hi. cbn [bitmap_]. rewrite Hbit2, Hbit1 by done. rewrite Hh.
    destruct (decide (i < seq - top S)) as [Hi'|Hi'].
    + rewrite bit_neg by lia. rewrite Z.sub_diag. simpl.
      destruct (Z.eqb_spec i 0) as [->|]; symmetry.
      * apply bool_decide_eq_true. rewrite Z.sub_0_r. by left.
      * apply bool_decide_eq_false. rewrite elem_of_cons.
        intros [?|Hin%top_ge]; lia.
    + rewrite Hbits by lia. rewrite (proj2 (Z.eqb_neq _ _)), orb_false_r by lia.
      replace (top S - (i - (seq - top S))) with (seq - i) by lia.
      apply bool_decide_ext. rewrite elem_of_cons. split; [by right|intros [?|]; [lia|done]].
  - constructor; [lia|done].
  - constructor; [|done]. intros Hin. by apply (Hout seq).
  - cbn [accepted_]. rewrite Hc, len_cons. apply u64_succ.
Qed.

(** A number inside the window is accepted exactly when it was not accepted before. *)
Lemma check_inside S g seq :
  guard_rel S g -> 0 < seq -> 0 <= top S - seq < kWindow -> seq ∉ S ->
  exists g', check_and_update g seq = Ok (true, g') /\ guard_rel (seq :: S) g'.
Proof.
  intros [Hbm Hh Hbits Hs Hnd Hc] Hseq Hd Hnin. pose proof window_words as (_ & _ & HW).
  pose proof (top_range S Hs) as Ht. unfold check_and_update.
  rewrite (proj2 (Z.eqb_neq _ _)), Hh, (proj2 (Z.ltb_ge _ _)), u64_small,
    (proj2 (Z.leb_gt _ _)), test_bit_spec by (first [done|lia]).
  rewrite Hbits by lia. replace (top S - (top S - seq)) with seq by lia.
  rewrite bool_decide_eq_false_2 by done.
  destruct (set_bit_spec (bitmap_ g) (top S) seq) as (b2 & -> & Hb2 & Hbit2); [done|lia..|].
  assert (Htop : top (seq :: S) = top S) by (simpl; lia).
  eexists. split; [done|]. split; try rewrite Htop; try done.
  - intros i Hi. cbn [bitmap_]. rewrite Hbit2, Hbits by done.
    destruct (Z.eqb_spec i (top S - seq)) as [->|Hne].
    + rewrite orb_true_r. symmetry. apply bool_decide_eq_true.
      replace (top S - (top S - seq)) with seq by lia. by left.
    + rewrite orb_false_r. apply bool_decide_ext. rewrite elem_of_cons.
      split; [by right|intros [?|]; [lia|done]].
  - constructor; [lia|done].
  - by constructor.
  - simpl. rewrite Hc, len_cons. apply u64_succ.
Qed.

(** Everything else is rejected, and only the rejection counters change. *)
Lemma check_stale S g seq :
  guard_rel S g -> is_u64 seq -> fresh S seq = false ->
  exists g', check_and_update g seq = Ok (false, g') /\ guard_rel S g'.
Proof.
  intros Hrel Hseq Hf. pose proof Hrel as [Hbm Hh Hbits Hs Hnd Hc].
  pose proof window_words as (_ & _ & HW). pose proof (top_range S Hs) as Ht.
  unfold fresh in Hf. unfold check_and_update. destruct (Z.eqb_spec seq 0); [eauto|].
  rewrite Hh. destruct (Z.ltb_spec (top S) seq); [done|]. simpl in Hf.
  rewrite u64_small by lia. destruct (Z.leb_spec kWindow (top S - seq)).
  { eexists; split; [done|]. by destruct Hrel. }
  rewrite (proj2 (Z.ltb_lt _ _)) in Hf by lia.
  rewrite test_bit_spec, Hbits by (first [done|lia]).
  replace (top S - (top S - seq)) with seq by lia.
  destruct (bool_decide (seq ∈ S)); [|done].
  eexists; split; [done|]. by destruct Hrel.
Qed.

Lemma check_refines S g seq :
  guard_rel S g -> is_u64 seq ->
  exists g', check_and_update g seq = Ok ((spec_step S seq).1, g') /\
    guard_rel (spec_step S seq).2 g'.
Proof.
  intros Hrel Hseq. unfold spec_step. destruct (fresh S seq) eqn:Hf; simpl.
  - unfold fresh in Hf. destruct (Z.eqb_spec seq 0); [done|]. simpl in Hf.
    destruct (Z.ltb_spec (top S) seq); [by apply check_above|]. simpl in Hf.
    apply andb_prop in Hf as [Hw%Z.ltb_lt Hn%negb_true_iff%bool_decide_eq_false].
    apply check_inside; [done|lia..|done].
  - by apply check_stale.
Qed.

Lemma run_refines seqs : forall S g,
  guard_rel S g -> Forall (fun s => is_u64 s) seqs ->
  exists g', run_guard g seqs = Ok ((spec_run S seqs).1, g') /\ guard_rel (spec_run S seqs).2 g'.
Proof.
  induction seqs as [|s seqs IH]; intros S g Hrel Hs; simpl; [eauto|].
  inversion Hs as [|? ? H1 H2]; subst.
  destruct (check_refines S g s Hrel H1) as (g1 & -> & Hrel1).
  destruct (spec_step S s) as [b S1]. simpl in *.
  destruct (IH S1 g1 Hrel1 H2) as (g2 & -> & Hrel2).
  destruct (spec_run S1 seqs) as [bs S2]. simpl in *. eauto.
Qed.

Lemma would_accept_fresh S g seq :
  guard_rel S g -> is_u64 seq -> would_accept g seq = Ok (fresh S seq).
Proof.
  intros [Hbm Hh Hbits Hs _ _] Hseq. pose proof (top_range S Hs) as Ht.
  pose proof window_words as (_ & _ & HW).
  unfold would_accept, fresh. destruct (Z.eqb_spec seq 0); [done|].
  rewrite Hh. destruct (Z.ltb_spec (top S) seq); [done|]. simpl.
  rewrite u64_small by lia.
  destruct (Z.leb_spec kWindow (top S - seq)), (Z.ltb_spec (top S - seq) kWindow);
    try lia; [done|].
  rewrite test_bit_spec, Hbits by (first [done|lia]).
  by replace (top S - (top S - seq)) with seq by lia.
Qed.

(** The numbers a run accepted, in arrival order. *)
Definition accepted_of (seqs : list Z) (verdicts : list bool) : list Z :=
  map fst (filter (fun p => p.2 = true) (zip seqs verdicts)).

Lemma spec_run_accepted seqs : forall S,
  (spec_run S seqs).2 = rev (accepted_of seqs (spec_run S seqs).1) ++ S.
Proof.
  induction seqs as [|s seqs IH]; intros S; simpl; [done|].
  destruct (spec_step S s) as [b S1] eqn:E. specialize (IH S1).
  destruct (spec_run S1 seqs) as [bs S2] eqn:E2. simpl in *. subst S2.
  unfold spec_step in E. unfold accepted_of. simpl. rewrite filter_cons.
  destruct (fresh S s); simplify_eq; simpl; [|done]. by rewrite <- app_assoc.
Qed.

End Guard.

(** ** The guard's guarantees *)

(** C3: Fed any sequence of 64-bit numbers, a fresh guard never touches memory outside
    its bitmap and gives exactly the verdicts of the set it stands for: a number is
    accepted when it is non-zero and either above everything accepted so far or within
    the window below the top and not accepted before. The [would_accept] query agrees
    with the verdict on the next number, and the accepted counter counts. *)
Theorem replay_guard_refines_set (W : Z) (seqs : list Z) (next : Z) :
  (exists k, 6 <= k < 32 /\ W = 2 ^ k) ->
  Forall (fun s => is_u64 s) seqs -> is_u64 next ->
  exists g, run_guard W (new_guard W) seqs = Ok ((spec_run W [] seqs).1, g) /\
    would_accept W g next = Ok (fresh W (spec_run W [] seqs).2 next) /\
    accepted_ g = u64 (len (spec_run W [] seqs).2).
Proof.
  intros HW Hs Hn.
  destruct (run_refines W HW seqs [] (new_guard W)) as (g & Hrun & Hrel);
    [by apply guard_rel_new|done|].
  exists g. split_and!; [done|by apply would_accept_fresh|apply (rel_count _ _ _ Hrel)].
Qed.

Example replay_guard_refines_set_witness :
  exists g, run_guard 1024 (new_guard 1024) [5; 3; 5; 2000; 3; 977] =
    Ok ((spec_run 1024 [] [5; 3; 5; 2000; 3; 977]).1, g) /\
    would_accept 1024 g 977 = Ok (fresh 1024 (spec_run 1024 [] [5; 3; 5; 2000; 3; 977]).2 977) /\
    accepted_ g = u64 (len (spec_run 1024 [] [5; 3; 5; 2000; 3; 977]).2).
Proof.
  apply (replay_guard_refines_set 1024 [5; 3; 5; 2000; 3; 977] 977).
  - exists 10. lia.
  - repeat constructor; lia.
  - lia.
Defined.

(** No number is accepted twice, whatever order the records arrive in: this is the
    replay protection itself. *)
Theorem replay_guard_no_replay (W : Z) (seqs : list Z) (verdicts : list bool) (g : ReplayGuard) :
  (exists k, 6 <= k < 32 /\ W = 2 ^ k) ->
  Forall (fun s => is_u64 s) seqs ->
  run_guard W (new_guard W) seqs = Ok (verdicts, g) ->
  NoDup (accepted_of seqs verdicts).
Proof.
  intros HW Hs Hrun.
  destruct (run_refines W HW seqs [] (new_guard W)) as (g' & Hrun' & Hrel);
    [by apply guard_rel_new|done|].
  rewrite Hrun in Hrun'. simplify_eq.
  pose proof (rel_nodup _ _ _ Hrel) as Hnd. rewrite spec_run_accepted, app_nil_r in Hnd.
  by rewrite <- Permutation_rev in Hnd.
Qed.

Example replay_guard_no_replay_witness :
  exists verdicts g, run_guard 64 (new_guard 64) [1; 70; 1; 7; 70; 7] = Ok (verdicts, g) /\
    accepted_of [1; 70; 1; 7; 70; 7] verdicts = [1; 70; 7] /\
    NoDup (accepted_of [1; 70; 1; 7; 70; 7] verdicts).
Proof.
  eexists _, _. split; [vm_compute; reflexivity|]. split; [reflexivity|].
  eapply (replay_guard_no_replay 64 [1; 70; 1; 7; 70; 7]).
  - exists 6. lia.
  - repeat constructor; lia.
  - vm_compute. reflexivity.
Defined.
