(* ===== verification/Ring.v ===== *)
(** The byte ring ([inc/sl_ring.h], [src/sl_ring.c]) and its refinement to a bounded
    FIFO of bytes. *)

From S2P Require Import Prelude Circ.
Local Open Scope Z_scope.

(** [buf = None] is the NULL a freed ring holds. *)
(* src/inc/sl_ring.h:18-24 *)
Record sl_ring_t := mk_ring {
  ring_buf : option (list Z);
  ring_cap : Z;
  ring_head : Z;
  ring_tail : Z;
  ring_used : Z
}.

(** [mem] is what [malloc(cap)] returns: NULL, or a block of [cap] bytes with some
    contents. [None] is the code -1, which leaves the struct as it was. *)
(* src/src/sl_ring.c:6-15 *)
Definition sl_ring_init (mem : option (list Z)) (cap : Z) : option sl_ring_t :=
  if cap =? 0 then None
  else match mem with
       | None => None
       | Some b => Some (mk_ring (Some b) cap 0 0 0)
       end.

(* src/src/sl_ring.c:17-22 *)
Definition sl_ring_free (r : sl_ring_t) : sl_ring_t := mk_ring None 0 0 0 0.

(* src/src/sl_ring.c:24-27 *)
Definition sl_ring_reset (r : sl_ring_t) : sl_ring_t :=
  mk_ring (ring_buf r) (ring_cap r) 0 0 0.

(* src/src/sl_ring.c:29-29 *)
Definition sl_ring_capacity (r : sl_ring_t) : Z := ring_cap r.
(* src/src/sl_ring.c:30-30 *)
Definition sl_ring_used (r : sl_ring_t) : Z := ring_used r.
(* src/src/sl_ring.c:31-31 *)
Definition sl_ring_free_space (r : sl_ring_t) : Z := u64 (ring_cap r - ring_used r).
(* src/src/sl_ring.c:32-32 *)
Definition sl_ring_empty (r : sl_ring_t) : bool := ring_used r =? 0.
(* src/src/sl_ring.c:33-33 *)
Definition sl_ring_full (r : sl_ring_t) : bool := ring_used r =? ring_cap r.

Definition ring_bytes (r : sl_ring_t) : list Z := default [] (ring_buf r).

(** [data, len] is the object [data] with the count the caller passes. *)
(* src/src/sl_ring.c:35-49 *)
Definition sl_ring_push (r : sl_ring_t) (data : list Z) (dlen : Z) : M (Z * sl_ring_t) :=
  let space := sl_ring_free_space r in
  let n := if dlen <? space then dlen else space in
  if n =? 0 then Ok (0, r)
  else
    let! b := circ_write (ring_bytes r) (ring_cap r) (ring_head r) data n in
    Ok (n, mk_ring (Some b) (ring_cap r) (u64 (ring_head r + n) mod ring_cap r) (ring_tail r)
             (u64 (ring_used r + n))).

(* src/src/sl_ring.c:51-65 *)
Definition sl_ring_pop (r : sl_ring_t) (out : list Z) (olen : Z) : M (Z * list Z * sl_ring_t) :=
  let avail := ring_used r in
  let n := if olen <? avail then olen else avail in
  if n =? 0 then Ok (0, out, r)
  else
    let! out := circ_read (ring_bytes r) (ring_cap r) (ring_tail r) out n in
    Ok (n, out, mk_ring (ring_buf r) (ring_cap r) (ring_head r)
                  (u64 (ring_tail r + n) mod ring_cap r) (u64 (ring_used r - n))).

(* src/src/sl_ring.c:67-79 *)
Definition sl_ring_peek (r : sl_ring_t) (out : list Z) (olen : Z) : M (Z * list Z) :=
  let avail := ring_used r in
  let n := if olen <? avail then olen else avail in
  if n =? 0 then Ok (0, out)
  else
    let! out := circ_read (ring_bytes r) (ring_cap r) (ring_tail r) out n in
    Ok (n, out).

(** [% cap] with [cap = 0], on a freed ring, is a division fault. *)
(* src/src/sl_ring.c:81-87 *)
Definition sl_ring_discard (r : sl_ring_t) (n : Z) : M (Z * sl_ring_t) :=
  let k := if n <? ring_used r then n else ring_used r in
  if ring_cap r =? 0 then Fault
  else Ok (k, mk_ring (ring_buf r) (ring_cap r) (ring_head r)
                (u64 (ring_tail r + k) mod ring_cap r) (u64 (ring_used r - k))).

(** ** The abstract queue *)

Inductive ring_op :=
| OpPush (data : list Z)
| OpPop (n : Z)
| OpPeek (n : Z)
| OpDiscard (n : Z)
| OpReset.

(** What a caller sees: the count, and the bytes a read delivered. *)
Definition ring_obs : Type := Z * list Z.

(** A client that reads into fresh buffers of the size it asks for. *)
Definition ring_step (r : sl_ring_t) (op : ring_op) : M (ring_obs * sl_ring_t) :=
  match op with
  | OpPush data => let! '(n, r) := sl_ring_push r data (len data) in Ok ((n, []), r)
  | OpPop n =>
      let! '(k, out, r) := sl_ring_pop r (replicate (Z.to_nat n) 0) n in
      Ok ((k, take (Z.to_nat k) out), r)
  | OpPeek n =>
      let! '(k, out) := sl_ring_peek r (replicate (Z.to_nat n) 0) n in
      Ok ((k, take (Z.to_nat k) out), r)
  | OpDiscard n => let! '(k, r) := sl_ring_discard r n in Ok ((k, []), r)
  | OpReset => Ok ((0, []), sl_ring_reset r)
  end.

Fixpoint ring_run (r : sl_ring_t) (ops : list ring_op) : M (list ring_obs * sl_ring_t) :=
  match ops with
  | [] => Ok ([], r)
  | op :: ops =>
      let! '(o, r) := ring_step r op in
      let! '(os, r) := ring_run r ops in
      Ok (o :: os, r)
  end.

(** The bounded FIFO: the queued bytes, oldest first. *)
Definition fifo_step (cap : Z) (q : list Z) (op : ring_op) : ring_obs * list Z :=
  match op with
  | OpPush data =>
      let n := Z.min (len data) (cap - len q) in ((n, []), q ++ take (Z.to_nat n) data)
  | OpPop n => let k := Z.min n (len q) in ((k, take (Z.to_nat k) q), drop (Z.to_nat k) q)
  | OpPeek n => let k := Z.min n (len q) in ((k, take (Z.to_nat k) q), q)
  | OpDiscard n => let k := Z.min n (len q) in ((k, []), drop (Z.to_nat k) q)
  | OpReset => ((0, []), [])
  end.

Fixpoint fifo_run (cap : Z) (q : list Z) (ops : list ring_op) : list ring_obs * list Z :=
  match ops with
  | [] => ([], q)
  | op :: ops =>
      let '(o, q1) := fifo_step cap q op in
      let '(os, q2) := fifo_run cap q1 ops in (o :: os, q2)
  end.

(** ** Invariant *)

(** Objects are smaller than half the address space. *)
Abbreviation is_obj z := (0 <= z < 9223372036854775808).

Record ring_rel (r : sl_ring_t) (q : list Z) : Prop := {
  ring_rel_buf : exists b, ring_buf r = Some b;
  ring_rel_cap : is_obj (ring_cap r);
  ring_rel_holds : circ_holds (ring_bytes r) (ring_cap r) (ring_tail r) q;
  ring_rel_head : ring_head r = (ring_tail r + len q) mod ring_cap r;
  ring_rel_used : ring_used r = len q
}.

Definition ring_op_ok (op : ring_op) : Prop :=
  match op with
  | OpPush data => is_obj (len data)
  | OpPop n | OpPeek n | OpDiscard n => is_obj n
  | OpReset => True
  end.

Lemma if_min a b : (if a <? b then a else b) = Z.min a b.
Proof. destruct (Z.ltb_spec a b); lia. Qed.

Lemma ring_init_rel b cap :
  len b = cap -> 0 < cap -> is_obj cap ->
  exists r, sl_ring_init (Some b) cap = Some r /\ ring_rel r [] /\ ring_cap r = cap.
Proof.
  intros Hb H0 Hc. unfold sl_ring_init. rewrite (proj2 (Z.eqb_neq _ _)) by lia.
  eexists. split; [done|]. split; [|done]. split; simpl; [eauto|done| |by rewrite Z.mod_0_l by lia|done].
  apply circ_holds_nil; [done|lia].
Qed.

Lemma ring_push_rel r q data :
  ring_rel r q -> is_obj (len data) ->
  let n := Z.min (len data) (ring_cap r - len q) in
  exists r', sl_ring_push r data (len data) = Ok (n, r') /\ ring_cap r' = ring_cap r /\
    ring_rel r' (q ++ take (Z.to_nat n) data).
Proof.
  intros [Hb Hc Hh Hd Hu] Hl n. pose proof Hh as [Hbl Hp Hf _].
  pose proof (len_nonneg q). unfold sl_ring_push, sl_ring_free_space.
  rewrite Hu, u64_small, if_min by lia. fold n.
  assert (Hn : 0 <= n <= len data /\ len q + n <= ring_cap r) by lia. clearbody n.
  destruct (Z.eqb_spec n 0) as [->|Hne].
  { exists r. rewrite app_nil_r. done. }
  destruct (circ_write_spec _ _ _ _ data n Hh) as (b & Ew & Hh'); [lia..|].
  rewrite Hd, wrap_idx_mod, Ew by lia. eexists. split; [done|]. split; [done|].
  assert (0 <= wrap_idx (ring_cap r) (ring_tail r + len q) < ring_cap r).
  { rewrite <- wrap_idx_mod by lia. apply Z.mod_pos_bound. lia. }
  split; simpl; [eauto|done|exact Hh'| |].
  - rewrite u64_small, <- wrap_idx_mod, Zplus_mod_idemp_l, len_app, len_take by lia. f_equal. lia.
  - rewrite u64_small, len_app, len_take; lia.
Qed.

Lemma ring_advance_rel r q k :
  ring_rel r q -> 0 <= k <= len q ->
  ring_rel (mk_ring (ring_buf r) (ring_cap r) (ring_head r)
              (u64 (ring_tail r + k) mod ring_cap r) (u64 (ring_used r - k)))
    (drop (Z.to_nat k) q).
Proof.
  intros [Hb Hc Hh Hd Hu] Hk. pose proof Hh as [Hbl Hp Hf _].
  rewrite !u64_small by lia. split; simpl; [done|done| | |].
  - by apply circ_advance.
  - rewrite Hd, Zplus_mod_idemp_l, len_drop by lia. f_equal. lia.
  - rewrite len_drop; lia.
Qed.

Lemma ring_read_spec r q out n :
  ring_rel r q -> 0 <= n <= len q -> n <= len out ->
  circ_read (ring_bytes r) (ring_cap r) (ring_tail r) out n =
  Ok (take (Z.to_nat n) q ++ drop (Z.to_nat n) out).
Proof. intros [] ? ?. by apply circ_read_spec. Qed.

Lemma take_take_app n (q : list Z) rest :
  0 <= n <= len q -> take (Z.to_nat n) (take (Z.to_nat n) q ++ rest) = take (Z.to_nat n) q.
Proof. intros. by rewrite (take_app_exact n) by (rewrite len_take; lia). Qed.

(** One operation: the ring answers as the FIFO does and stays related to it. *)
Lemma ring_step_refines r q op :
  ring_rel r q -> ring_op_ok op ->
  exists r', ring_step r op = Ok ((fifo_step (ring_cap r) q op).1, r') /\
    ring_cap r' = ring_cap r /\ ring_rel r' (fifo_step (ring_cap r) q op).2.
Proof.
  intros Hr Hop. pose proof Hr as [Hb Hc Hh Hd Hu]. pose proof Hh as [Hbl Hp Hf _].
  pose proof (len_nonneg q).
  destruct op as [data|n|n|n|]; simpl in *.
  - destruct (ring_push_rel r q data Hr Hop) as (r' & -> & Hc' & Hr'). eauto.
  - unfold sl_ring_pop. rewrite Hu, if_min. set (k := Z.min n (len q)).
    assert (Hk : 0 <= k <= len q /\ k <= n) by lia. clearbody k.
    destruct (Z.eqb_spec k 0) as [->|Hne].
    { exists r. simpl. done. }
    rewrite (ring_read_spec r q) by (done || len_lia). rewrite <- Hu. eexists.
    rewrite take_take_app by lia. split; [done|]. split; [done|].
    apply ring_advance_rel; [done|lia].
  - unfold sl_ring_peek. rewrite Hu, if_min. set (k := Z.min n (len q)).
    assert (Hk : 0 <= k <= len q /\ k <= n) by lia. clearbody k.
    destruct (Z.eqb_spec k 0) as [->|Hne].
    { exists r. simpl. done. }
    rewrite (ring_read_spec r q), take_take_app by (done || len_lia). eauto.
  - unfold sl_ring_discard. rewrite (proj2 (Z.eqb_neq _ _)) by lia. rewrite Hu, if_min, <- Hu.
    eexists. split; [done|]. split; [done|]. apply ring_advance_rel; [done|lia].
  - eexists. split; [done|]. split; [done|]. unfold sl_ring_reset.
    split; simpl; [done|done| |symmetry; apply Z.mod_0_l; lia|done].
    apply circ_holds_nil; [done|lia].
Qed.

Lemma ring_run_refines ops : forall r q,
  ring_rel r q -> Forall ring_op_ok ops ->
  exists r', ring_run r ops = Ok ((fifo_run (ring_cap r) q ops).1, r') /\
    ring_cap r' = ring_cap r /\ ring_rel r' (fifo_run (ring_cap r) q ops).2.
Proof.
  induction ops as [|op ops IH]; intros r q Hr Hops; simpl; [eauto|].
  inversion Hops as [|? ? H1 H2]; subst.
  destruct (ring_step_refines r q op Hr H1) as (r1 & -> & Hc & Hr1).
  destruct (fifo_step (ring_cap r) q op) as [o q1]. simpl in *.
  destruct (IH r1 q1 Hr1 H2) as (r2 & -> & Hc2 & Hr2). rewrite Hc in *.
  destruct (fifo_run (ring_cap r) q1 ops) as [os q2]. simpl in *. eauto.
Qed.

(** From initialisation on, any sequence of pushes, pops, peeks, discards and resets
    runs without an out-of-bounds access and answers exactly as a bounded FIFO of bytes
    of the same capacity; in particular the wrap-around of the two indices is invisible. *)
Theorem ring_refines_fifo (b : list Z) (cap : Z) (ops : list ring_op) :
  len b = cap -> 0 < cap -> is_obj cap -> Forall ring_op_ok ops ->
  exists r r', sl_ring_init (Some b) cap = Some r /\
    ring_run r ops = Ok ((fifo_run cap [] ops).1, r') /\
    sl_ring_used r' = len (fifo_run cap [] ops).2 /\
    sl_ring_full r' = (len (fifo_run cap [] ops).2 =? cap).
Proof.
  intros Hb H0 Hc Hops. destruct (ring_init_rel b cap Hb H0 Hc) as (r & E & Hr & Hcap).
  destruct (ring_run_refines ops r [] Hr Hops) as (r' & Hrun & Hc' & Hr'). rewrite Hcap in *.
  exists r, r'. split_and!; [done..|apply (ring_rel_used _ _ Hr')|].
  unfold sl_ring_full. by rewrite (ring_rel_used _ _ Hr'), Hc'.
Qed.

Example ring_refines_fifo_witness :
  let ops := [OpPush [1; 2; 3]; OpPop 2; OpPush [4; 5; 6; 7]; OpPeek 9; OpDiscard 1; OpPop 4] in
  exists r r', sl_ring_init (Some [0; 0; 0; 0]) 4 = Some r /\
    ring_run r ops = Ok ((fifo_run 4 [] ops).1, r') /\
    sl_ring_used r' = len (fifo_run 4 [] ops).2 /\
    sl_ring_full r' = (len (fifo_run 4 [] ops).2 =? 4).
Proof.
  apply (ring_refines_fifo [0; 0; 0; 0] 4); [reflexivity|lia|lia|].
  repeat constructor; simpl; unfold len; simpl; lia.
Defined.
