(* ===== verification/SendQueue.v ===== *)
(** The non-blocking send queue ([inc/sl_send_queue.h], [src/sl_send_queue.c]): a
    circular buffer of outgoing bytes, flushed to a socket that may take any part of
    what it is offered. *)

From S2P Require Import Prelude Circ Ring.
Local Open Scope Z_scope.

(* src/src/sl_send_queue.c:8-14 *)
Record sl_send_queue := mk_queue {
  q_buf : list Z;
  q_cap : Z;
  q_head : Z;   (* next byte to send *)
  q_tail : Z;   (* next byte to write to *)
  q_used : Z
}.

(** The two allocations: [q_ok] tells whether [calloc] succeeds, [mem] is what [malloc]
    returns. *)
(* src/src/sl_send_queue.c:16-24 *)
Definition sl_send_queue_new (q_ok : bool) (mem : option (list Z)) (max_bytes : Z)
  : option sl_send_queue :=
  if max_bytes =? 0 then None
  else if negb q_ok then None
  else match mem with
       | None => None
       | Some b => Some (mk_queue b max_bytes 0 0 0)
       end.

(* src/src/sl_send_queue.c:32-43 *)
Definition sl_send_queue_enqueue (q : sl_send_queue) (data : list Z) (dlen : Z)
  : M (Z * sl_send_queue) :=
  if dlen =? 0 then Ok (0, q)
  else if q_cap q <? u64 (q_used q + dlen) then Ok (-1, q)
  else
    let! b := circ_write (q_buf q) (q_cap q) (q_tail q) data dlen in
    Ok (0, mk_queue b (q_cap q) (q_head q) (u64 (q_tail q + dlen) mod q_cap q)
             (u64 (q_used q + dlen))).

(** What one [send] of [chunk] bytes does: it accepts at most [chunk] of them and
    returns how many, or fails with an errno. *)
Inductive send_result :=
| SendBytes (w : Z)
| SendAgain
| SendIntr
| SendError.

(** The loop, run against the results the kernel gives. [total] is the C [int]; an
    overflow of it would be undefined. The bytes handed to the kernel are collected in
    [sent]. [None]: the loop still wants to call [send] when the list of results ends. *)
(* src/src/sl_send_queue.c:45-64 *)
Fixpoint sl_send_queue_flush (env : list send_result) (q : sl_send_queue) (total : Z)
    (sent : list Z) : M (option (Z * sl_send_queue * list Z)) :=
  if negb (0 <? q_used q) then Ok (Some (total, q, sent))
  else
    let chunk := if u64 (q_cap q - q_head q) <? q_used q then u64 (q_cap q - q_head q)
                 else q_used q in
    match env with
    | [] => Ok None
    | SendBytes w0 :: env =>
        let w := Z.min w0 chunk in
        if 0 <? w then
          let! bs := load_bytes (q_buf q) (q_head q) w in
          let q := mk_queue (q_buf q) (q_cap q) (u64 (q_head q + w) mod q_cap q) (q_tail q)
                     (u64 (q_used q - w)) in
          if INT_MAX <? total + w then Fault
          else sl_send_queue_flush env q (total + w) (sent ++ bs)
        else Ok (Some (-1, q, sent))
    | SendAgain :: _ => Ok (Some (total, q, sent))
    | SendIntr :: env => sl_send_queue_flush env q total sent
    | SendError :: _ => Ok (Some (-1, q, sent))
    end.

(* src/src/sl_send_queue.c:66-68 *)
Definition sl_send_queue_pending (q : sl_send_queue) : Z := q_used q.
(* src/src/sl_send_queue.c:70-72 *)
Definition sl_send_queue_empty (q : sl_send_queue) : bool := q_used q =? 0.

(** ** Invariant *)

Record queue_rel (q : sl_send_queue) (l : list Z) : Prop := {
  queue_rel_cap : 0 < q_cap q <= INT_MAX;
  queue_rel_holds : circ_holds (q_buf q) (q_cap q) (q_head q) l;
  queue_rel_tail : q_tail q = (q_head q + len l) mod q_cap q;
  queue_rel_used : q_used q = len l
}.

Lemma queue_new_rel b n :
  len b = n -> 0 < n <= INT_MAX ->
  exists q, sl_send_queue_new true (Some b) n = Some q /\ queue_rel q [] /\ q_cap q = n.
Proof.
  intros Hb Hn. unfold sl_send_queue_new. rewrite (proj2 (Z.eqb_neq _ _)) by lia.
  eexists. split; [done|]. split; [|done]. split; simpl; [done| |by rewrite Z.mod_0_l by lia|done].
  apply circ_holds_nil; [done|lia].
Qed.

(** Enqueueing is all or nothing. *)
Lemma queue_enqueue_rel q l data :
  queue_rel q l -> is_obj (len data) ->
  exists q', sl_send_queue_enqueue q data (len data) =
      Ok (if q_cap q <? len l + len data then -1 else 0, q') /\ q_cap q' = q_cap q /\
    queue_rel q' (if q_cap q <? len l + len data then l else l ++ data).
Proof.
  intros Hq Hd. pose proof Hq as [Hc Hh Ht Hu]. pose proof Hh as [Hbl Hp Hf _].
  pose proof (len_nonneg l). unfold sl_send_queue_enqueue.
  destruct (Z.eqb_spec (len data) 0) as [E|E].
  { rewrite (proj2 (Z.ltb_ge _ _)), (len_0_nil data), app_nil_r by lia. eauto. }
  rewrite Hu, u64_small by lia. destruct (Z.ltb_spec (q_cap q) (len l + len data)); [eauto|].
  destruct (circ_write_spec _ _ _ _ data (len data) Hh) as (b & Ew & Hh'); [lia..|].
  rewrite len_to_nat, firstn_all in Hh'.
  rewrite Ht, wrap_idx_mod, Ew by lia. eexists. split; [done|]. split; [done|].
  assert (0 <= wrap_idx (q_cap q) (q_head q + len l) < q_cap q).
  { rewrite <- wrap_idx_mod by lia. apply Z.mod_pos_bound. lia. }
  split; simpl; [done|exact Hh'| |by rewrite len_app].
  rewrite u64_small, <- wrap_idx_mod, Zplus_mod_idemp_l, len_app by lia. f_equal. lia.
Qed.

Lemma queue_advance_rel q l w :
  queue_rel q l -> 0 <= w <= len l ->
  queue_rel (mk_queue (q_buf q) (q_cap q) (u64 (q_head q + w) mod q_cap q) (q_tail q)
               (u64 (q_used q - w))) (drop (Z.to_nat w) l).
Proof.
  intros [Hc Hh Ht Hu] Hw. pose proof Hh as [Hbl Hp Hf _].
  rewrite !u64_small by lia. split; simpl; [done|by apply circ_advance| |].
  - rewrite Ht, Zplus_mod_idemp_l, len_drop by lia. f_equal. lia.
  - rewrite len_drop; lia.
Qed.

(** The contiguous part a [send] is offered is the front of the queue. *)
Lemma circ_front buf cap pos l w :
  circ_holds buf cap pos l -> 0 <= w <= len l -> w <= cap - pos ->
  load_bytes buf pos w = Ok (take (Z.to_nat w) l).
Proof.
  intros [Hc Hp Hf Hat] Hw Hw2. destruct (load_bytes_lookup buf pos w) as (bs & -> & Lb & B); [lia..|].
  f_equal. apply list_eq_Z; [rewrite len_take; lia|]. intros i Hi.
  rewrite B, lookup_take_lt, <- Hat by lia. unfold wrap_idx. by rewrite (proj2 (Z.ltb_lt _ _)) by lia.
Qed.

Lemma flush_conserves env : forall q l total sent,
  queue_rel q l -> 0 <= total -> total + len l <= INT_MAX ->
  exists r, sl_send_queue_flush env q total sent = Ok r /\
    match r with
    | None => True
    | Some (rc, q', sent') =>
        exists l1 l2, l = l1 ++ l2 /\ sent' = sent ++ l1 /\ queue_rel q' l2 /\
          q_cap q' = q_cap q /\ (rc = -1 \/ rc = total + len l1)
    end.
Proof.
  induction env as [|e env IH]; intros q l total sent Hq H0 Ht.
  all: pose proof Hq as [Hc Hh Htl Hu]; pose proof Hh as [Hbl Hp Hf _]; pose proof (len_nonneg l).
  all: cbn [sl_send_queue_flush]; destruct (Z.ltb_spec 0 (q_used q)); cbn [negb].
  1, 2: try (eexists; split; [done|]; done).
  1, 3: eexists; split; [done|]; exists [], l; rewrite app_nil_r; split_and!; try done; right;
        rewrite len_nil; lia.
  rewrite !u64_small by lia.
  set (chunk := if q_cap q - q_head q <? q_used q then q_cap q - q_head q else q_used q).
  assert (Hch : chunk <= len l /\ chunk <= q_cap q - q_head q).
  { unfold chunk. destruct (Z.ltb_spec (q_cap q - q_head q) (q_used q)); lia. }
  clearbody chunk.
  assert (Hstop : forall rc, rc = -1 \/ rc = total ->
    exists r, Ok (Some (rc, q, sent)) = Ok r /\
      match r with
      | None => True
      | Some (rc, q', sent') =>
          exists l1 l2, l = l1 ++ l2 /\ sent' = sent ++ l1 /\ queue_rel q' l2 /\
            q_cap q' = q_cap q /\ (rc = -1 \/ rc = total + len l1)
      end).
  { intros rc Hrc. eexists; split; [done|]. exists [], l. rewrite app_nil_r, len_nil.
    split_and!; try done. lia. }
  destruct e as [w0| | |]; [|by apply Hstop; right|by apply IH|by apply Hstop; left].
  set (w := Z.min w0 chunk). destruct (Z.ltb_spec 0 w); [|by apply Hstop; left].
  assert (Hw : w <= chunk) by lia. clearbody w.
  rewrite (circ_front _ _ _ l) by (done || lia).
  rewrite (proj2 (Z.ltb_ge INT_MAX (total + w))) by lia.
  destruct (IH _ (drop (Z.to_nat w) l) (total + w) (sent ++ take (Z.to_nat w) l)
              (queue_advance_rel q l w Hq ltac:(lia))) as (r & -> & Hr).
  { lia. } { rewrite len_drop; lia. }
  exists r. split; [done|]. destruct r as [[[rc q'] sent']|]; [|done].
  destruct Hr as (l1 & l2 & E & -> & Hq' & Hc' & Hrc).
  exists (take (Z.to_nat w) l ++ l1), l2. split_and!; [|by rewrite app_assoc|done|done|].
  - by rewrite <- app_assoc, <- E, take_drop.
  - rewrite len_app, len_take by lia. lia.
Qed.

(** ** Histories *)

Inductive send_op :=
| Enqueue (data : list Z)
| Flush (env : list send_result).

(** Runs a history; collects the bytes accepted from the client and the bytes handed to
    the kernel. A flush whose results run out ends the history. *)
Fixpoint send_run (q : sl_send_queue) (ops : list send_op) (accepted sent : list Z)
  : M (sl_send_queue * list Z * list Z) :=
  match ops with
  | [] => Ok (q, accepted, sent)
  | Enqueue data :: ops =>
      let! '(rc, q) := sl_send_queue_enqueue q data (len data) in
      send_run q ops (if rc =? 0 then accepted ++ data else accepted) sent
  | Flush env :: ops =>
      let! r := sl_send_queue_flush env q 0 sent in
      match r with
      | Some (_, q, sent) => send_run q ops accepted sent
      | None => Ok (q, accepted, sent)
      end
  end.

Definition send_op_ok (op : send_op) : Prop :=
  match op with Enqueue data => is_obj (len data) | Flush _ => True end.

Lemma send_run_conserves ops : forall q l accepted sent,
  queue_rel q l -> accepted = sent ++ l -> Forall send_op_ok ops ->
  exists q' l' accepted' sent',
    send_run q ops accepted sent = Ok (q', accepted', sent') /\
    queue_rel q' l' /\ accepted' = sent' ++ l'.
Proof.
  induction ops as [|op ops IH]; intros q l accepted sent Hq E Hops; simpl; [by eauto 10|].
  inversion Hops as [|? ? H1 H2]; subst. destruct op as [data|env].
  - destruct (queue_enqueue_rel q l data Hq H1) as (q1 & -> & Hc & Hq1).
    destruct (q_cap q <? len l + len data); cbn [Z.eqb]; eapply IH; eauto.
    by rewrite app_assoc.
  - pose proof Hq as [Hc Hh _ _]. pose proof Hh as [_ _ Hf _].
    destruct (flush_conserves env q l 0 sent Hq) as (r & -> & Hr); [lia..|].
    destruct r as [[[rc q'] sent']|]; [|by eauto 10].
    destruct Hr as (l1 & l2 & -> & -> & Hq' & _). eapply IH; eauto.
    by rewrite <- app_assoc.
Qed.

(** Over any history of enqueues and flushes, whatever part of each offer the kernel
    takes and however its calls fail, the bytes handed to the kernel followed by the
    bytes still queued are exactly the bytes the queue accepted: none is lost,
    duplicated or reordered, and no access leaves the buffer. *)
Theorem send_queue_conserves_bytes (b : list Z) (n : Z) (ops : list send_op) :
  len b = n -> 0 < n <= INT_MAX -> Forall send_op_ok ops ->
  exists q q' accepted sent queued,
    sl_send_queue_new true (Some b) n = Some q /\
    send_run q ops [] [] = Ok (q', accepted, sent) /\
    circ_holds (q_buf q') (q_cap q') (q_head q') queued /\
    sl_send_queue_pending q' = len queued /\
    accepted = sent ++ queued.
Proof.
  intros Hb Hn Hops. destruct (queue_new_rel b n Hb Hn) as (q & E & Hq & _).
  destruct (send_run_conserves ops q [] [] [] Hq eq_refl Hops)
    as (q' & l' & acc & sent & Hrun & [? ? ? Hu] & Hacc).
  exists q, q', acc, sent, l'. done.
Qed.

Example send_queue_conserves_bytes_witness :
  exists q q' accepted sent queued,
    sl_send_queue_new true (Some [0; 0; 0; 0]) 4 = Some q /\
    send_run q [Enqueue [1; 2; 3]; Flush [SendIntr; SendBytes 2; SendAgain]; Enqueue [4; 5; 6];
                Enqueue [7]; Flush [SendBytes 3; SendBytes 9]] [] [] = Ok (q', accepted, sent) /\
    circ_holds (q_buf q') (q_cap q') (q_head q') queued /\
    sl_send_queue_pending q' = len queued /\
    accepted = sent ++ queued.
Proof.
  apply (send_queue_conserves_bytes [0; 0; 0; 0] 4); [reflexivity|lia|].
  repeat constructor; simpl; unfold len; simpl; lia.
Defined.
