(* ===== verification/RecvBuf.v ===== *)
(** The receive buffer ([inc/sl_recv_buf.h], [src/sl_recv_buf.c]): accumulates what the
    socket delivers and hands out one complete record at a time. *)

From S2P Require Import Prelude ByteOrder Codec Mem Aead Record Circ Ring.
Local Open Scope Z_scope.

(* src/inc/sl_recv_buf.h:22-26 *)
Record sl_recv_buf_t := mk_rbuf {
  rb_buf : list Z;
  rb_cap : Z;
  rb_used : Z
}.

(* src/src/sl_recv_buf.c:6-13 *)
Definition sl_recv_buf_init (mem : option (list Z)) (cap : Z) : option sl_recv_buf_t :=
  if cap =? 0 then None
  else match mem with None => None | Some b => Some (mk_rbuf b cap 0) end.

(* src/src/sl_recv_buf.c:15-20 *)
Definition sl_recv_buf_free (rb : sl_recv_buf_t) : sl_recv_buf_t := mk_rbuf [] 0 0.

(* src/src/sl_recv_buf.c:22-28 *)
Definition sl_recv_buf_push (rb : sl_recv_buf_t) (data : list Z) (dlen : Z) : M (Z * sl_recv_buf_t) :=
  if rb_cap rb <? u64 (rb_used rb + dlen) then Ok (-1, rb)
  else
    let! d := load_bytes data 0 dlen in
    let! b := store_bytes (rb_buf rb) (rb_used rb) d in
    Ok (0, mk_rbuf b (rb_cap rb) (u64 (rb_used rb + dlen))).

(* src/src/sl_recv_buf.c:30-47 *)
Definition sl_recv_buf_take (rb : sl_recv_buf_t) (out : list Z) : M (Z * list Z * sl_recv_buf_t) :=
  if rb_used rb <? SL_RECORD_HEADER_LEN then Ok (0, out, rb)
  else
    let! expected := sl_record_peek_len (rb_buf rb) in
    if expected <? 0 then Ok (-1, out, rb)
    else if len out <? expected then Ok (-1, out, rb)
    else if rb_used rb <? expected then Ok (0, out, rb)
    else
      let! d := load_bytes (rb_buf rb) 0 expected in
      let! out := store_bytes out 0 d in
      let leftover := u64 (rb_used rb - expected) in
      let! b := (if 0 <? leftover then
                   let! m := load_bytes (rb_buf rb) expected leftover in
                   store_bytes (rb_buf rb) 0 m
                 else Ok (rb_buf rb)) in
      Ok (expected, out, mk_rbuf b (rb_cap rb) leftover).

(* src/src/sl_recv_buf.c:49-51 *)
Definition sl_recv_buf_buffered (rb : sl_recv_buf_t) : Z := rb_used rb.

(** ** Invariant: the used part of the buffer holds the bytes [l] *)

Record rbuf_rel (rb : sl_recv_buf_t) (l : list Z) : Prop := {
  rbuf_rel_cap : len (rb_buf rb) = rb_cap rb /\ is_obj (rb_cap rb);
  rbuf_rel_used : rb_used rb = len l;
  rbuf_rel_front : exists junk, rb_buf rb = l ++ junk
}.

Lemma rbuf_push_rel rb l data :
  rbuf_rel rb l -> is_obj (len data) ->
  exists rb', sl_recv_buf_push rb data (len data) =
      Ok (if rb_cap rb <? len l + len data then -1 else 0, rb') /\ rb_cap rb' = rb_cap rb /\
    rbuf_rel rb' (if rb_cap rb <? len l + len data then l else l ++ data).
Proof.
  intros Hr Hd. pose proof Hr as [[Hl Hc] Hu (junk & Ej)]. pose proof (len_nonneg l).
  assert (Hj : len l + len junk = rb_cap rb) by (rewrite <- Hl, Ej, len_app; done).
  pose proof (len_nonneg junk).
  unfold sl_recv_buf_push. rewrite Hu, u64_small by lia.
  destruct (Z.ltb_spec (rb_cap rb) (len l + len data)); [eauto|].
  rewrite load_bytes_in_bounds by lia. change (drop (Z.to_nat 0) data) with data.
  rewrite len_to_nat, firstn_all, Ej, store_bytes_append by lia.
  eexists. split; [done|]. split; [done|]. split; simpl.
  - split; [|done]. rewrite <- Hj, !len_app. unfold len in *. rewrite length_drop. lia.
  - by rewrite len_app.
  - eauto.
Qed.

(** The header test looks at the first five bytes only. *)
Lemma peek_prefix a b :
  bytes_ok a -> 5 <= len a -> sl_record_peek_len (a ++ b) = sl_record_peek_len a.
Proof.
  intros Ha Hl. unfold sl_record_peek_len.
  destruct (unpack_u16_sound a 1) as (v & E1 & _); [done|lia..|].
  destruct (unpack_u16_sound a 3) as (n & E2 & _); [done|lia..|].
  rewrite (unpack_u16_prefix _ b _ _ E1), (unpack_u16_prefix _ b _ _ E2), E1, E2. done.
Qed.

Lemma peek_range a n :
  sl_record_peek_len a = Ok n -> n = -1 \/ 21 <= n <= 16405.
Proof.
  unfold sl_record_peek_len. destruct (unpack_u16 a 1); [|done].
  destruct (negb _); [intros; simplify_eq; lia|].
  destruct (unpack_u16 a 3) as [n'|]; [|done].
  destruct (_ || _) eqn:E; intros; simplify_eq; [lia|]. record_consts. lia.
Qed.

Lemma peek_total a : bytes_ok a -> 5 <= len a -> exists n, sl_record_peek_len a = Ok n.
Proof.
  intros Ha Hl. unfold sl_record_peek_len.
  destruct (unpack_u16_sound a 1) as (v & -> & _); [done|lia..|].
  destruct (unpack_u16_sound a 3) as (n & -> & _); [done|lia..|].
  repeat case_match; eauto.
Qed.

(** A complete record at the front is handed out; what follows slides down. *)
Lemma rbuf_take_record rb r l out :
  rbuf_rel rb (r ++ l) -> bytes_ok r -> sl_record_peek_len r = Ok (len r) -> 5 <= len r ->
  len r <= len out ->
  exists rb', sl_recv_buf_take rb out = Ok (len r, r ++ drop (length r) out, rb') /\
    rb_cap rb' = rb_cap rb /\ rbuf_rel rb' l.
Proof.
  intros [[Hl Hc] Hu (junk & Ej)] Hb Hp H5 Ho. pose proof (len_nonneg l). pose proof (len_nonneg junk).
  assert (Hj : len r + len l + len junk = rb_cap rb) by (rewrite <- Hl, Ej, !len_app; done).
  rewrite len_app in Hu. unfold sl_recv_buf_take. record_consts.
  rewrite Hu, (proj2 (Z.ltb_ge _ _)) by lia. rewrite Ej, <- app_assoc, peek_prefix, Hp by done.
  rewrite !(proj2 (Z.ltb_ge _ _)) by lia. rewrite load_bytes_front, store_bytes_0 by done.
  replace (u64 (len r + len l - len r)) with (len l) by (rewrite u64_small; lia).
  assert (Hm : exists b, (if 0 <? len l then
      let! m := load_bytes (r ++ l ++ junk) (len r) (len l) in store_bytes (r ++ l ++ junk) 0 m
      else Ok (r ++ l ++ junk)) = Ok b /\ len b = rb_cap rb /\ exists j, b = l ++ j).
  { destruct (Z.ltb_spec 0 (len l)).
    - rewrite load_bytes_app_mid by done. rewrite store_bytes_0 by len_lia. eexists.
      split; [done|]. split; [|eauto].
      rewrite len_app. unfold len in *. rewrite length_drop, !length_app. lia.
    - eexists. split; [done|]. split; [len_lia|]. rewrite (len_0_nil l) by lia. eauto. }
  destruct Hm as (b & -> & Hbl & Hbj). eexists. split; [done|]. split; [done|]. by split; simpl.
Qed.

(** Nothing is handed out while the first record is incomplete. *)
Lemma rbuf_take_partial rb l r' out :
  rbuf_rel rb l -> bytes_ok l -> sl_record_peek_len (l ++ r') = Ok (len (l ++ r')) -> 0 < len r' ->
  len (l ++ r') <= len out ->
  sl_recv_buf_take rb out = Ok (0, out, rb).
Proof.
  intros [[Hl Hc] Hu (junk & Ej)] Hb Hp H0 Ho. unfold sl_recv_buf_take. record_consts. rewrite Hu.
  destruct (Z.ltb_spec (len l) 5); [done|]. rewrite peek_prefix in Hp by (done || lia).
  rewrite Ej, peek_prefix, Hp by (done || lia).
  pose proof (len_nonneg l). rewrite len_app in *.
  by rewrite (proj2 (Z.ltb_ge _ _)), (proj2 (Z.ltb_ge _ _)), (proj2 (Z.ltb_lt _ _)) by lia.
Qed.

(** ** The receive loop *)

(** Take records into a scratch buffer [out] until none is complete; [Ok None] is fuel
    running out. The code is the last answer of [sl_recv_buf_take]. *)
Fixpoint take_all (fuel : nat) (rb : sl_recv_buf_t) (out : list Z)
  : M (option (list (list Z) * Z * sl_recv_buf_t)) :=
  match fuel with
  | O => Ok None
  | S fuel =>
      let! '(n, o, rb) := sl_recv_buf_take rb out in
      if 0 <? n then
        let! r := take_all fuel rb out in
        Ok (match r with
            | Some (rs, rc, rb) => Some (take (Z.to_nat n) o :: rs, rc, rb)
            | None => None
            end)
      else Ok (Some ([], n, rb))
  end.

(** Push each chunk, then take what is complete; stop on an error. *)
Fixpoint recv_chunks (rb : sl_recv_buf_t) (out : list Z) (chunks : list (list Z))
  : M (option (list (list Z) * Z * sl_recv_buf_t)) :=
  match chunks with
  | [] => Ok (Some ([], 0, rb))
  | c :: cs =>
      let! '(rc, rb) := sl_recv_buf_push rb c (len c) in
      if rc <? 0 then Ok (Some ([], rc, rb))
      else
        let! r := take_all (S (Z.to_nat (sl_recv_buf_buffered rb))) rb out in
        match r with
        | Some (rs, 0, rb) =>
            let! r := recv_chunks rb out cs in
            Ok (match r with Some (rs', rc, rb) => Some (rs ++ rs', rc, rb) | None => None end)
        | _ => Ok r
        end
  end.

(** A complete record, as its header announces it. *)
Definition record_ok (r : list Z) : Prop :=
  bytes_ok r /\ 5 <= len r /\ sl_record_peek_len r = Ok (len r).

Lemma record_ok_len r : record_ok r -> 21 <= len r <= 16405.
Proof. intros (_ & H5 & Hp). apply peek_range in Hp. lia. Qed.

(** With [rest] still to come, the buffered [l] splits into complete records and an
    incomplete one. *)
Lemma take_all_records fuel : forall rb l rest rs out,
  rbuf_rel rb l -> l ++ rest = concat rs -> Forall record_ok rs -> 16405 <= len out ->
  (length l < fuel)%nat ->
  exists rs1 rs2 rb' l', take_all fuel rb out = Ok (Some (rs1, 0, rb')) /\ rs = rs1 ++ rs2 /\
    rb_cap rb' = rb_cap rb /\ rbuf_rel rb' l' /\ l' ++ rest = concat rs2 /\ len l' < 16405 /\
    (rest = [] -> rs2 = []).
Proof.
  induction fuel as [|fuel IH]; intros rb l rest rs out Hr E Hrs Ho Hf; [lia|]. cbn [take_all].
  destruct rs as [|r rs].
  { apply app_eq_nil in E as [-> ->]. exists [], [], rb, [].
    pose proof (rbuf_rel_used _ _ Hr) as Hu. unfold sl_recv_buf_take.
    rewrite Hu. cbn. by split_and!. }
  inversion Hrs as [|? ? Hr1 Hrs']; subst. pose proof (record_ok_len r Hr1) as Hlr.
  destruct Hr1 as (Hb & H5 & Hp). simpl in E.
  destruct (Z.le_gt_cases (len r) (len l)) as [Hle|Hlt].
  - assert (exists l', l = r ++ l') as (l' & ->).
    { exists (drop (length r) l). apply (f_equal (take (length r))) in E as E2.
      rewrite take_app_length, take_app_le in E2 by (unfold len in *; lia).
      rewrite <- E2 at 1. by rewrite take_drop. }
    rewrite <- app_assoc in E. apply app_inv_head in E.
    destruct (rbuf_take_record rb r l' out Hr Hb Hp H5) as (rb1 & -> & Hc1 & Hr1); [lia|].
    rewrite (proj2 (Z.ltb_lt _ _)) by lia.
    destruct (IH rb1 l' rest rs out Hr1 E Hrs' Ho) as (rs1 & rs2 & rb' & l2 & -> & -> & Hc & Hr' & E' & Hl & Hn).
    { rewrite length_app in Hf. unfold len in *. lia. }
    exists (r :: rs1), rs2, rb', l2. rewrite take_len_app. split_and!; try done. congruence.
  - assert (exists r', r = l ++ r') as (r' & ->).
    { exists (drop (length l) r). apply (f_equal (take (length l))) in E as E2.
      rewrite take_app_length, take_app_le in E2 by (unfold len in *; lia).
      rewrite E2 at 1. by rewrite take_drop. }
    apply bytes_ok_app_inv in Hb as [Hb _].
    rewrite (rbuf_take_partial rb l r') by (done || rewrite ?len_app in *; lia). cbn [Z.ltb].
    exists [], ((l ++ r') :: rs), rb, l. split_and!; try done; rewrite len_app in *; [lia|].
    intros ->. apply (f_equal len) in E. pose proof (len_nonneg (concat rs)). len_lia.
Qed.

Lemma recv_chunks_records chunks : forall rb l rs out,
  rbuf_rel rb l -> len l < 16405 -> l ++ concat chunks = concat rs -> Forall record_ok rs ->
  Forall (fun c => is_obj (len c) /\ 16405 + len c <= rb_cap rb) chunks -> 16405 <= len out ->
  (chunks = [] -> rs = []) ->
  exists rb', recv_chunks rb out chunks = Ok (Some (rs, 0, rb')) /\ rbuf_rel rb' [].
Proof.
  induction chunks as [|c cs IH]; intros rb l rs out Hr Hl E Hrs Hcs Ho H0; cbn [recv_chunks].
  { rewrite H0 in * by done. simpl in E. rewrite app_nil_r in E. subst l. eauto. }
  inversion Hcs as [|? ? [Hc1 Hc2] Hcs']; subst.
  destruct (rbuf_push_rel rb l c Hr Hc1) as (rb1 & -> & Hcap & Hr1).
  rewrite (proj2 (Z.ltb_ge (rb_cap rb) _)) in * by lia. cbn [Z.ltb Z.compare].
  simpl in E. rewrite app_assoc in E. unfold sl_recv_buf_buffered.
  rewrite (rbuf_rel_used _ _ Hr1).
  destruct (take_all_records (S (Z.to_nat (len (l ++ c)))) rb1 (l ++ c) (concat cs) rs out)
    as (rs1 & rs2 & rb2 & l2 & -> & -> & Hcap2 & Hr2 & E2 & Hl2 & Hn); try done.
  { unfold len. lia. }
  apply Forall_app in Hrs as [Hrs1 Hrs2].
  destruct (IH rb2 l2 rs2 out Hr2 Hl2 E2 Hrs2) as (rb' & -> & Hr'); [|done| |eauto].
  - by rewrite Hcap2, Hcap.
  - intros ->. by apply Hn.
Qed.

(** However the socket cuts the stream, the receive loop hands out exactly the
    records that were sent, in order, each once and complete, and ends with an empty
    buffer, provided the buffer has room for one record and one chunk. *)
Theorem recv_buf_reassembles (b out : list Z) (rs chunks : list (list Z)) :
  is_obj (len b) -> 0 < len b -> 16405 <= len out -> Forall record_ok rs ->
  concat chunks = concat rs -> (chunks = [] -> rs = []) ->
  Forall (fun c => 16405 + len c <= len b) chunks ->
  exists rb rb', sl_recv_buf_init (Some b) (len b) = Some rb /\
    recv_chunks rb out chunks = Ok (Some (rs, 0, rb')) /\ sl_recv_buf_buffered rb' = 0.
Proof.
  intros Hb H0 Ho Hrs E Hn Hc. unfold sl_recv_buf_init. rewrite (proj2 (Z.eqb_neq _ _)) by lia.
  destruct (recv_chunks_records chunks (mk_rbuf b (len b) 0) [] rs out) as (rb' & Hrun & Hr'); try done.
  - split; simpl; [done|done|eauto].
  - simpl. eapply Forall_impl; [exact Hc|]. simpl. intros c Hcl. pose proof (len_nonneg c). lia.
  - eexists _, rb'. split_and!; [done..|]. apply (rbuf_rel_used _ _ Hr').
Qed.

Example recv_buf_reassembles_witness :
  let r1 := [23; 3; 1; 0; 18] ++ replicate 18 7 in
  let r2 := [21; 3; 1; 0; 16] ++ replicate 16 9 in
  let chunks := [take 3 r1; drop 3 r1 ++ take 20 r2; drop 20 r2] in
  exists rb rb', sl_recv_buf_init (Some (replicate (Z.to_nat 20000) 0)) (len (replicate (Z.to_nat 20000) 0)) = Some rb /\
    recv_chunks rb (replicate (Z.to_nat 16405) 0) chunks = Ok (Some ([r1; r2], 0, rb')) /\
    sl_recv_buf_buffered rb' = 0.
Proof.
  assert (E1 : len (replicate (Z.to_nat 20000) 0) = 20000) by (rewrite len_replicate; lia).
  assert (E2 : len (replicate (Z.to_nat 16405) 0) = 16405) by (rewrite len_replicate; lia).
  apply recv_buf_reassembles.
  - rewrite E1. lia.
  - rewrite E1. lia.
  - rewrite E2. lia.
  - repeat constructor; try lia; try (vm_compute; discriminate); reflexivity.
  - reflexivity.
  - discriminate.
  - rewrite E1. repeat constructor; vm_compute; discriminate.
Defined.
