(* ===== verification/StreamFrame.v ===== *)
(** Stream frames ([inc/sl_stream_frame.h], [src/sl_stream_frame.c]): the unit the
    multiplexer carries inside an application-data record. *)

From S2P Require Import Prelude ByteOrder Codec.
Local Open Scope Z_scope.

Definition SL_STREAM_FRAME_HEADER_LEN : Z := 10.
Definition SL_STREAM_FRAME_MAX_PAYLOAD : Z := 16000.

(* src/inc/sl_stream_frame.h:30-33 *)
Definition SL_STREAM_FLAG_NONE : Z := 0x00.
Definition SL_STREAM_FLAG_FIN : Z := 0x01.
Definition SL_STREAM_FLAG_OPEN : Z := 0x02.
Definition SL_STREAM_FLAG_RESET : Z := 0x04.

(* src/inc/sl_stream_frame.h:35-42 *)
Inductive sl_stream_frame_type_t : Type :=
| SL_STREAM_FRAME_INVALID
| SL_STREAM_FRAME_DATA
| SL_STREAM_FRAME_WINDOW
| SL_STREAM_FRAME_RESET
| SL_STREAM_FRAME_PING
| SL_STREAM_FRAME_PONG.

#[export] Instance sl_stream_frame_type_eq_dec : EqDecision sl_stream_frame_type_t.
Proof. solve_decision. Defined.

(** The enumerator's value, and the cast back from a byte the code has bounds-checked. *)
Definition stream_frame_type_code (t : sl_stream_frame_type_t) : Z :=
  match t with
  | SL_STREAM_FRAME_INVALID => 0
  | SL_STREAM_FRAME_DATA => 1
  | SL_STREAM_FRAME_WINDOW => 2
  | SL_STREAM_FRAME_RESET => 3
  | SL_STREAM_FRAME_PING => 4
  | SL_STREAM_FRAME_PONG => 5
  end.

Definition stream_frame_type_of_code (c : Z) : sl_stream_frame_type_t :=
  if c =? 1 then SL_STREAM_FRAME_DATA
  else if c =? 2 then SL_STREAM_FRAME_WINDOW
  else if c =? 3 then SL_STREAM_FRAME_RESET
  else if c =? 4 then SL_STREAM_FRAME_PING
  else if c =? 5 then SL_STREAM_FRAME_PONG
  else SL_STREAM_FRAME_INVALID.

(** [payload] is the pointer: [None] is NULL, [Some p] points at the bytes [p]. *)
(* src/inc/sl_stream_frame.h:44-50 *)
Record sl_stream_frame_t := mk_stream_frame {
  sf_type : sl_stream_frame_type_t;
  sf_flags : Z;
  sf_stream_id : Z;
  sf_payload : option (list Z);
  sf_payload_len : Z
}.

(* src/src/sl_stream_frame.c:24-42 *)
Definition sl_stream_frame_pack (f : sl_stream_frame_t) (out : list Z) : M (Z * list Z) :=
  if SL_STREAM_FRAME_MAX_PAYLOAD <? sf_payload_len f then Ok (-1, out)
  else if null_with_len (sf_payload f) (sf_payload_len f) then Ok (-1, out)
  else
    let need := SL_STREAM_FRAME_HEADER_LEN + sf_payload_len f in
    if len out <? need then Ok (-1, out)
    else
      let! out := store_bytes out 0 [u8 (stream_frame_type_code (sf_type f))] in
      let! out := store_bytes out 1 [sf_flags f] in
      let! out := pack_u16 out 2 0 in
      let! out := pack_u32_be out 4 (sf_stream_id f) in
      let! out := pack_u16 out 8 (sf_payload_len f) in
      let! out := memcpy_if out SL_STREAM_FRAME_HEADER_LEN (sf_payload f) (sf_payload_len f) in
      Ok (need, out).

(** On success the C function returns the bytes consumed and fills [*out]; the model
    returns both. The payload pointer aims into [in]. *)
(* src/src/sl_stream_frame.c:44-67 *)
Definition sl_stream_frame_unpack (inp : list Z) : M (option (Z * sl_stream_frame_t)) :=
  if len inp <? SL_STREAM_FRAME_HEADER_LEN then Ok None
  else
    let! rsv := unpack_u16 inp 2 in
    if negb (rsv =? 0) then Ok None
    else
      let! type := load inp 0 in
      let! flags := load inp 1 in
      let! sid := unpack_u32_be inp 4 in
      let! plen := unpack_u16 inp 8 in
      if SL_STREAM_FRAME_MAX_PAYLOAD <? plen then Ok None
      else if len inp <? SL_STREAM_FRAME_HEADER_LEN + plen then Ok None
      else if (type =? 0) || (stream_frame_type_code SL_STREAM_FRAME_PONG <? type) then Ok None
      else
        let! payload := load_bytes inp SL_STREAM_FRAME_HEADER_LEN plen in
        Ok (Some (SL_STREAM_FRAME_HEADER_LEN + plen,
                  {| sf_type := stream_frame_type_of_code type;
                     sf_flags := flags;
                     sf_stream_id := sid;
                     sf_payload := if 0 <? plen then Some payload else None;
                     sf_payload_len := plen |})).

(** ** Layout and guarantees *)

(** The layout of the header comment of [inc/sl_stream_frame.h]. *)
Definition stream_frame_wire (f : sl_stream_frame_t) : list Z :=
  [u8 (stream_frame_type_code (sf_type f))] ++ [sf_flags f] ++ be16 0
  ++ be32 (sf_stream_id f) ++ be16 (sf_payload_len f)
  ++ ptr_bytes (sf_payload f) (sf_payload_len f).

Definition stream_frame_packable (f : sl_stream_frame_t) : Prop :=
  sf_payload_len f <= SL_STREAM_FRAME_MAX_PAYLOAD /\
  ptr_ok (sf_payload f) (sf_payload_len f).

Definition stream_frame_valid (f : sl_stream_frame_t) : Prop :=
  sf_type f <> SL_STREAM_FRAME_INVALID /\ is_u8 (sf_flags f) /\ is_u32 (sf_stream_id f) /\
  sf_payload_len f <= SL_STREAM_FRAME_MAX_PAYLOAD /\
  ptr_canon (sf_payload f) (sf_payload_len f).

Lemma len_stream_frame_wire f :
  ptr_ok (sf_payload f) (sf_payload_len f) ->
  len (stream_frame_wire f) = SL_STREAM_FRAME_HEADER_LEN + sf_payload_len f.
Proof.
  intros Hp. unfold stream_frame_wire, SL_STREAM_FRAME_HEADER_LEN.
  autorewrite with len. rewrite len_ptr_bytes by done. lia.
Qed.

Lemma stream_frame_pack_fits f out :
  stream_frame_packable f -> len (stream_frame_wire f) <= len out ->
  sl_stream_frame_pack f out =
  Ok (len (stream_frame_wire f),
      stream_frame_wire f ++ drop (length (stream_frame_wire f)) out).
Proof.
  intros [Hr Hp] Hl. pose proof (len_stream_frame_wire f Hp) as Hn.
  pose proof (len_ptr_bytes _ _ Hp) as Hpl. pose proof (proj1 Hp).
  unfold sl_stream_frame_pack, SL_STREAM_FRAME_HEADER_LEN in *.
  rewrite (ptr_ok_guard _ _ Hp), !(proj2 (Z.ltb_ge _ _)) by lia.
  change out with ([] ++ out) at 1. fill. fill_done stream_frame_wire.
Qed.

Lemma stream_frame_pack_short f out :
  stream_frame_packable f -> len out < len (stream_frame_wire f) ->
  sl_stream_frame_pack f out = Ok (-1, out).
Proof.
  intros [Hr Hp] Hl. rewrite len_stream_frame_wire in Hl by done.
  unfold sl_stream_frame_pack.
  by rewrite (ptr_ok_guard _ _ Hp), (proj2 (Z.ltb_ge _ _)), (proj2 (Z.ltb_lt _ _)) by lia.
Qed.

Lemma stream_frame_type_roundtrip t :
  stream_frame_type_of_code (stream_frame_type_code t) = t.
Proof. by destruct t. Qed.

Lemma stream_frame_type_valid t :
  t <> SL_STREAM_FRAME_INVALID ->
  u8 (stream_frame_type_code t) = stream_frame_type_code t /\
  (stream_frame_type_code t =? 0) ||
  (stream_frame_type_code SL_STREAM_FRAME_PONG <? stream_frame_type_code t) = false.
Proof. by destruct t. Qed.

Lemma stream_frame_type_accepted c :
  (c =? 0) || (stream_frame_type_code SL_STREAM_FRAME_PONG <? c) = false -> is_u8 c ->
  stream_frame_type_of_code c <> SL_STREAM_FRAME_INVALID /\
  u8 (stream_frame_type_code (stream_frame_type_of_code c)) = c.
Proof.
  simpl. intros Hc Hr. assert (c = 1 \/ c = 2 \/ c = 3 \/ c = 4 \/ c = 5) by lia.
  destruct_or!; subst c; done.
Qed.

(** The unpacker reads back the layout, whatever follows it, and reports the number of
    bytes it occupies. *)
Lemma stream_frame_unpack_wire f rest :
  stream_frame_valid f ->
  sl_stream_frame_unpack (stream_frame_wire f ++ rest) =
  Ok (Some (len (stream_frame_wire f), f)).
Proof.
  intros (Ht & Hf & Hs & Hr & Hc). pose proof (ptr_canon_ok _ _ Hc) as Hp.
  rewrite len_stream_frame_wire by done.
  pose proof (len_ptr_bytes _ _ Hp) as Hl. pose proof (proj1 Hp).
  pose proof (len_nonneg rest). destruct (stream_frame_type_valid _ Ht) as [Hu Hg].
  unfold sl_stream_frame_unpack. rewrite len_app, len_stream_frame_wire by done.
  unfold SL_STREAM_FRAME_HEADER_LEN, SL_STREAM_FRAME_MAX_PAYLOAD in *.
  unfold stream_frame_wire. rewrite <- !app_assoc.
  repeat first [read_step | test_step].
  rewrite Hu, stream_frame_type_roundtrip. destruct Hc as (_ & _ & <-). by destruct f.
Qed.

Lemma stream_frame_unpack_sound inp :
  bytes_ok inp ->
  accepts (sl_stream_frame_unpack inp)
    (fun nf => stream_frame_valid nf.2 /\ nf.1 = len (stream_frame_wire nf.2) /\
       inp = stream_frame_wire nf.2 ++ drop (Z.to_nat nf.1) inp).
Proof.
  intros Hb. unfold sl_stream_frame_unpack.
  unfold SL_STREAM_FRAME_HEADER_LEN, SL_STREAM_FRAME_MAX_PAYLOAD.
  repeat first [branch_step | sound_step].
  destruct (stream_frame_type_accepted v0) as [Ht Hu]; [done..|].
  apply accepts_some. simpl. assert (Hc := ptr_canon_of_bytes bs v3 (eq_sym L)).
  split_and!; [by unfold stream_frame_valid; simpl; auto| |].
  { by rewrite len_stream_frame_wire by (simpl; auto with codec). }
  unfold stream_frame_wire. simpl sf_type. cbn [sf_flags sf_stream_id sf_payload sf_payload_len].
  rewrite Hu, ptr_bytes_of_bytes by done. subst v. by consume inp.
Qed.

Definition stream_frame_get (inp : list Z) : M (option sl_stream_frame_t) :=
  let! r := sl_stream_frame_unpack inp in Ok (snd <$> r).

Lemma stream_frame_valid_packable f : stream_frame_valid f -> stream_frame_packable f.
Proof. intros (_ & _ & _ & Hr & Hc). split; auto with codec. Qed.

Lemma stream_frame_get_wire f rest :
  stream_frame_valid f -> stream_frame_get (stream_frame_wire f ++ rest) = Ok (Some f).
Proof. intros Hv. unfold stream_frame_get. by rewrite stream_frame_unpack_wire. Qed.

Lemma stream_frame_get_sound inp :
  bytes_ok inp ->
  accepts (stream_frame_get inp)
    (fun f => stream_frame_valid f /\ exists rest, inp = stream_frame_wire f ++ rest).
Proof.
  intros Hb. unfold stream_frame_get.
  destruct (stream_frame_unpack_sound inp Hb) as (r & -> & Hr).
  destruct r as [[n f]|]; simpl in *; [|apply accepts_none].
  destruct Hr as (Hv & _ & E). apply accepts_some. eauto.
Qed.

Lemma stream_frame_get_valid inp : bytes_ok inp -> accepts (stream_frame_get inp) stream_frame_valid.
Proof. intros Hb. eapply accepts_impl; [by apply stream_frame_get_sound|]. by intros f [? _]. Qed.

#[export] Instance stream_frame_format : WireFormat sl_stream_frame_t := {|
  wire := stream_frame_wire;
  packable := stream_frame_packable;
  valid := stream_frame_valid;
  pack := sl_stream_frame_pack;
  unpack := stream_frame_get;
  valid_packable := stream_frame_valid_packable;
  pack_fits := stream_frame_pack_fits;
  pack_short := stream_frame_pack_short;
  unpack_wire := stream_frame_get_wire;
  unpack_valid := stream_frame_get_valid
|}.

#[export] Instance stream_frame_canonical : CanonicalFormat sl_stream_frame_t.
Proof. intros inp Hb. eapply accepts_impl; [by apply stream_frame_get_sound|]. by intros f [_ ?]. Qed.
