(* ===== verification/RpcMsg.v ===== *)
(** RPC request and response messages ([inc/sl_rpc_msg.h], [src/sl_rpc_msg.c]). *)

From S2P Require Import Prelude ByteOrder Codec.
Local Open Scope Z_scope.

(* src/inc/sl_rpc_msg.h:34-34 *)
Definition SL_RPC_METHOD_MAX : Z := 128.
(* src/inc/sl_rpc_msg.h:35-35 *)
Definition SL_RPC_BODY_MAX : Z := 16384.

(* src/inc/sl_rpc_msg.h:37-40 sl_rpc_msg_type_t *)
Definition SL_RPC_REQUEST : Z := 1.
Definition SL_RPC_RESPONSE : Z := 2.

(** The status is cast from any byte of the wire, so it is modelled by its value. *)
(* src/inc/sl_rpc_msg.h:42-50 *)
Definition sl_rpc_status_t : Type := Z.
Definition SL_RPC_OK : sl_rpc_status_t := 0.
Definition SL_RPC_BAD_REQUEST : sl_rpc_status_t := 1.
Definition SL_RPC_NOT_FOUND : sl_rpc_status_t := 2.
Definition SL_RPC_NOT_PERMITTED : sl_rpc_status_t := 3.
Definition SL_RPC_INTERNAL : sl_rpc_status_t := 4.
Definition SL_RPC_RATE_LIMITED : sl_rpc_status_t := 5.
Definition SL_RPC_UNAVAILABLE : sl_rpc_status_t := 6.

(** [rq_method] is the array of [SL_RPC_METHOD_MAX + 1] chars. *)
(* src/inc/sl_rpc_msg.h:52-58 *)
Record sl_rpc_request_t := mk_request {
  rq_id : Z;
  rq_method : list Z;
  rq_method_len : Z;
  rq_body : option (list Z);
  rq_body_len : Z
}.

(* src/inc/sl_rpc_msg.h:60-65 *)
Record sl_rpc_response_t := mk_response {
  rs_id : Z;
  rs_status : sl_rpc_status_t;
  rs_body : option (list Z);
  rs_body_len : Z
}.

(* src/src/sl_rpc_msg.c:20-43 *)
Definition sl_rpc_request_pack (r : sl_rpc_request_t) (out : list Z) : M (Z * list Z) :=
  if (rq_method_len r =? 0) || (SL_RPC_METHOD_MAX <? rq_method_len r) then Ok (-1, out)
  else if SL_RPC_BODY_MAX <? rq_body_len r then Ok (-1, out)
  else if null_with_len (rq_body r) (rq_body_len r) then Ok (-1, out)
  else
    let need := 1 + 1 + 4 + 2 + rq_method_len r + 4 + rq_body_len r in
    if len out <? need then Ok (-1, out)
    else
      let! out := store_bytes out 0 [SL_RPC_REQUEST] in
      let! out := store_bytes out 1 [0] in
      let! out := pack_u32_be out 2 (rq_id r) in
      let! out := pack_u16 out 6 (rq_method_len r) in
      let! m := load_bytes (rq_method r) 0 (rq_method_len r) in
      let! out := store_bytes out 8 m in
      let off := 8 + rq_method_len r in
      let! out := pack_u32_be out off (rq_body_len r) in
      let! out := memcpy_if out (off + 4) (rq_body r) (rq_body_len r) in
      Ok (off + 4 + rq_body_len r, out).

(** [out0] is the caller's struct: [memcpy] fills only the front of its method array. *)
(* src/src/sl_rpc_msg.c:45-65 *)
Definition sl_rpc_request_unpack (inp : list Z) (out0 : sl_rpc_request_t)
  : M (option sl_rpc_request_t) :=
  if len inp <? 12 then Ok None
  else
    let! t := load inp 0 in
    if negb (t =? SL_RPC_REQUEST) then Ok None
    else
      let! id := unpack_u32_be inp 2 in
      let! mlen := unpack_u16 inp 6 in
      if (mlen =? 0) || (SL_RPC_METHOD_MAX <? mlen) then Ok None
      else if len inp <? 8 + mlen + 4 then Ok None
      else
        let! m := load_bytes inp 8 mlen in
        let! body_len := unpack_u32_be inp (8 + mlen) in
        let! arr := store_bytes (rq_method out0) 0 m in
        let! arr := store_bytes arr mlen [0] in
        if SL_RPC_BODY_MAX <? body_len then Ok None
        else if len inp <? 8 + mlen + 4 + body_len then Ok None
        else
          let! b := load_bytes inp (8 + mlen + 4) body_len in
          Ok (Some {| rq_id := id; rq_method := arr; rq_method_len := mlen;
                      rq_body := if 0 <? body_len then Some b else None;
                      rq_body_len := body_len |}).

(* src/src/sl_rpc_msg.c:67-87 *)
Definition sl_rpc_response_pack (r : sl_rpc_response_t) (out : list Z) : M (Z * list Z) :=
  if SL_RPC_BODY_MAX <? rs_body_len r then Ok (-1, out)
  else if null_with_len (rs_body r) (rs_body_len r) then Ok (-1, out)
  else
    let need := 1 + 1 + 4 + 2 + 4 + rs_body_len r in
    if len out <? need then Ok (-1, out)
    else
      let! out := store_bytes out 0 [SL_RPC_RESPONSE] in
      let! out := store_bytes out 1 [u8 (rs_status r)] in
      let! out := pack_u32_be out 2 (rs_id r) in
      let! out := pack_u16 out 6 0 in
      let! out := pack_u32_be out 8 (rs_body_len r) in
      let! out := memcpy_if out 12 (rs_body r) (rs_body_len r) in
      Ok (12 + rs_body_len r, out).

(* src/src/sl_rpc_msg.c:89-103 *)
Definition sl_rpc_response_unpack (inp : list Z) : M (option sl_rpc_response_t) :=
  if len inp <? 12 then Ok None
  else
    let! t := load inp 0 in
    if negb (t =? SL_RPC_RESPONSE) then Ok None
    else
      let! status := load inp 1 in
      let! id := unpack_u32_be inp 2 in
      let! rsv := unpack_u16 inp 6 in
      if negb (rsv =? 0) then Ok None
      else
        let! body_len := unpack_u32_be inp 8 in
        if SL_RPC_BODY_MAX <? body_len then Ok None
        else if len inp <? 12 + body_len then Ok None
        else
          let! b := load_bytes inp 12 body_len in
          Ok (Some {| rs_id := id; rs_status := status;
                      rs_body := if 0 <? body_len then Some b else None;
                      rs_body_len := body_len |}).

(** ** Requests *)

Definition request_method (r : sl_rpc_request_t) : list Z :=
  take (Z.to_nat (rq_method_len r)) (rq_method r).

Definition request_wire (r : sl_rpc_request_t) : list Z :=
  [SL_RPC_REQUEST] ++ [0] ++ be32 (rq_id r) ++ be16 (rq_method_len r) ++ request_method r
  ++ be32 (rq_body_len r) ++ ptr_bytes (rq_body r) (rq_body_len r).

Definition request_packable (r : sl_rpc_request_t) : Prop :=
  1 <= rq_method_len r <= SL_RPC_METHOD_MAX /\ len (rq_method r) = SL_RPC_METHOD_MAX + 1 /\
  rq_body_len r <= SL_RPC_BODY_MAX /\ ptr_ok (rq_body r) (rq_body_len r).

(** A request as unpacked into a zeroed struct: the name, then zeros. *)
Definition request_valid (r : sl_rpc_request_t) : Prop :=
  is_u32 (rq_id r) /\ 1 <= rq_method_len r <= SL_RPC_METHOD_MAX /\
  rq_method r = request_method r ++ replicate (Z.to_nat (SL_RPC_METHOD_MAX + 1 - rq_method_len r)) 0 /\
  len (request_method r) = rq_method_len r /\
  rq_body_len r <= SL_RPC_BODY_MAX /\ ptr_canon (rq_body r) (rq_body_len r).

Definition zero_request : sl_rpc_request_t :=
  mk_request 0 (replicate (Z.to_nat (SL_RPC_METHOD_MAX + 1)) 0) 0 None 0.

Ltac rpc_consts := unfold SL_RPC_METHOD_MAX, SL_RPC_BODY_MAX, SL_RPC_REQUEST, SL_RPC_RESPONSE in *.

Lemma request_valid_packable r : request_valid r -> request_packable r.
Proof.
  intros (Hi & Hm & Ea & Hl & Hb & Hc). split_and!; [lia..| |done|auto with codec].
  rewrite Ea, len_app, len_replicate, Hl. lia.
Qed.

Lemma len_request_wire r :
  request_packable r -> len (request_wire r) = 12 + rq_method_len r + rq_body_len r.
Proof.
  intros (Hm & Ha & Hb & Hp). unfold request_wire, request_method. rpc_consts.
  autorewrite with len. rewrite len_ptr_bytes by done. lia.
Qed.

Lemma request_pack_fits r out :
  request_packable r -> len (request_wire r) <= len out ->
  sl_rpc_request_pack r out =
  Ok (len (request_wire r), request_wire r ++ drop (length (request_wire r)) out).
Proof.
  intros Hpk Hl. pose proof (len_request_wire r Hpk) as Hn. destruct Hpk as (Hm & Ha & Hb & Hp).
  pose proof (len_ptr_bytes _ _ Hp) as Hpl. pose proof (proj1 Hp).
  unfold sl_rpc_request_pack. rpc_consts. rewrite (ptr_ok_guard _ _ Hp).
  repeat test_step. rewrite (load_bytes_in_bounds (rq_method r)) by lia.
  change (take _ (drop (Z.to_nat 0) (rq_method r))) with (request_method r).
  assert (Hml : len (request_method r) = rq_method_len r) by (unfold request_method; len_lia).
  change out with ([] ++ out) at 1. fill. fill_done request_wire.
Qed.

Lemma request_pack_short r out :
  request_packable r -> len out < len (request_wire r) -> sl_rpc_request_pack r out = Ok (-1, out).
Proof.
  intros Hpk Hl. rewrite len_request_wire in Hl by done. destruct Hpk as (Hm & Ha & Hb & Hp).
  unfold sl_rpc_request_pack. rpc_consts. rewrite (ptr_ok_guard _ _ Hp). by repeat test_step.
Qed.

Lemma request_unpack_wire r rest :
  request_valid r -> sl_rpc_request_unpack (request_wire r ++ rest) zero_request = Ok (Some r).
Proof.
  intros Hv. pose proof (request_valid_packable r Hv) as Hpk.
  pose proof (len_request_wire r Hpk) as Hn. destruct Hv as (Hi & Hm & Ea & Hml & Hb & Hc).
  pose proof (ptr_canon_ok _ _ Hc) as Hp. pose proof (len_ptr_bytes _ _ Hp) as Hl.
  pose proof (proj1 Hp). pose proof (len_nonneg rest).
  unfold sl_rpc_request_unpack. rewrite len_app, Hn. rpc_consts.
  unfold request_wire. rewrite <- !app_assoc.
  repeat first [read_step | test_step].
  unfold zero_request at 1. cbn [rq_method]. rpc_consts. cbn [Z.eqb Pos.eqb negb].
  destruct (name_into_zeros (request_method r) (128 + 1)) as (a & -> & E); [lia|].
  rewrite Hml in E. rewrite E, <- Ea. destruct Hc as (_ & _ & <-). by destruct r.
Qed.

Lemma request_unpack_valid inp :
  bytes_ok inp -> accepts (sl_rpc_request_unpack inp zero_request) request_valid.
Proof.
  intros Hb. unfold sl_rpc_request_unpack. rpc_consts.
  repeat first [branch_step | sound_step].
  unfold zero_request. cbn [rq_method]. rpc_consts.
  destruct (name_into_zeros bs (128 + 1)) as (a & -> & E); [lia|]. rewrite L in E. rewrite E.
  repeat first [branch_step | sound_step]. apply accepts_some.
  unfold request_valid, request_method. cbn [rq_id rq_method rq_method_len rq_body rq_body_len].
  rpc_consts. rewrite (take_app_exact v1) by lia.
  split_and!; [lia..|done|done|lia|by apply ptr_canon_of_bytes].
Qed.

Definition request_get (inp : list Z) : M (option sl_rpc_request_t) :=
  sl_rpc_request_unpack inp zero_request.

#[export] Instance rpc_request_format : WireFormat sl_rpc_request_t := {|
  wire := request_wire;
  packable := request_packable;
  valid := request_valid;
  pack := sl_rpc_request_pack;
  unpack := request_get;
  valid_packable := request_valid_packable;
  pack_fits := request_pack_fits;
  pack_short := request_pack_short;
  unpack_wire := request_unpack_wire;
  unpack_valid := request_unpack_valid
|}.

(** ** Responses *)

Definition response_wire (r : sl_rpc_response_t) : list Z :=
  [SL_RPC_RESPONSE] ++ [u8 (rs_status r)] ++ be32 (rs_id r) ++ be16 0 ++ be32 (rs_body_len r)
  ++ ptr_bytes (rs_body r) (rs_body_len r).

Definition response_packable (r : sl_rpc_response_t) : Prop :=
  rs_body_len r <= SL_RPC_BODY_MAX /\ ptr_ok (rs_body r) (rs_body_len r).

Definition response_valid (r : sl_rpc_response_t) : Prop :=
  is_u32 (rs_id r) /\ is_u8 (rs_status r) /\
  rs_body_len r <= SL_RPC_BODY_MAX /\ ptr_canon (rs_body r) (rs_body_len r).

Lemma response_valid_packable r : response_valid r -> response_packable r.
Proof. intros (_ & _ & Hb & Hc). split; auto with codec. Qed.

Lemma len_response_wire r :
  response_packable r -> len (response_wire r) = 12 + rs_body_len r.
Proof.
  intros (Hb & Hp). unfold response_wire. autorewrite with len. rewrite len_ptr_bytes by done. lia.
Qed.

Lemma response_pack_fits r out :
  response_packable r -> len (response_wire r) <= len out ->
  sl_rpc_response_pack r out =
  Ok (len (response_wire r), response_wire r ++ drop (length (response_wire r)) out).
Proof.
  intros Hpk Hl. pose proof (len_response_wire r Hpk) as Hn. destruct Hpk as (Hb & Hp).
  pose proof (len_ptr_bytes _ _ Hp) as Hpl. pose proof (proj1 Hp).
  unfold sl_rpc_response_pack. rpc_consts. rewrite (ptr_ok_guard _ _ Hp). repeat test_step.
  change out with ([] ++ out) at 1. fill. fill_done response_wire.
Qed.

Lemma response_pack_short r out :
  response_packable r -> len out < len (response_wire r) -> sl_rpc_response_pack r out = Ok (-1, out).
Proof.
  intros Hpk Hl. rewrite len_response_wire in Hl by done. destruct Hpk as (Hb & Hp).
  unfold sl_rpc_response_pack. rpc_consts. rewrite (ptr_ok_guard _ _ Hp). by repeat test_step.
Qed.

Lemma response_unpack_wire r rest :
  response_valid r -> sl_rpc_response_unpack (response_wire r ++ rest) = Ok (Some r).
Proof.
  intros Hv. pose proof (len_response_wire r (response_valid_packable r Hv)) as Hn.
  destruct Hv as (Hi & Hs & Hb & Hc).
  pose proof (ptr_canon_ok _ _ Hc) as Hp. pose proof (len_ptr_bytes _ _ Hp) as Hl.
  pose proof (proj1 Hp). pose proof (len_nonneg rest).
  unfold sl_rpc_response_unpack. rewrite len_app, Hn. rpc_consts.
  unfold response_wire. rewrite <- !app_assoc.
  repeat first [read_step | test_step]. cbn [Z.eqb Pos.eqb negb].
  rewrite u8_small by done. destruct Hc as (_ & _ & <-). by destruct r.
Qed.

Lemma response_unpack_sound inp :
  bytes_ok inp ->
  accepts (sl_rpc_response_unpack inp)
    (fun r => response_valid r /\ exists rest, inp = response_wire r ++ rest).
Proof.
  intros Hb. unfold sl_rpc_response_unpack. rpc_consts.
  repeat first [branch_step | sound_step]. apply accepts_some. split.
  - unfold response_valid. cbn [rs_id rs_status rs_body rs_body_len]. rpc_consts.
    split_and!; [lia..|by apply ptr_canon_of_bytes].
  - exists (drop (Z.to_nat (12 + v3)) inp). unfold response_wire.
    cbn [rs_id rs_status rs_body rs_body_len]. rpc_consts.
    rewrite u8_small, ptr_bytes_of_bytes by done. subst. by consume inp.
Qed.

Lemma response_unpack_valid inp : bytes_ok inp -> accepts (sl_rpc_response_unpack inp) response_valid.
Proof. intros Hb. eapply accepts_impl; [by apply response_unpack_sound|]. by intros r [? _]. Qed.

#[export] Instance rpc_response_format : WireFormat sl_rpc_response_t := {|
  wire := response_wire;
  packable := response_packable;
  valid := response_valid;
  pack := sl_rpc_response_pack;
  unpack := sl_rpc_response_unpack;
  valid_packable := response_valid_packable;
  pack_fits := response_pack_fits;
  pack_short := response_pack_short;
  unpack_wire := response_unpack_wire;
  unpack_valid := response_unpack_valid
|}.

#[export] Instance rpc_response_canonical : CanonicalFormat sl_rpc_response_t.
Proof. intros inp Hb. eapply accepts_impl; [by apply response_unpack_sound|]. by intros r [_ ?]. Qed.
