(* ===== verification/PubSubMsg.v ===== *)
(** Publish/subscribe messages ([inc/sl_pubsub_msg.h], [src/sl_pubsub_msg.c]). *)

From S2P Require Import Prelude ByteOrder Codec.
Local Open Scope Z_scope.

(* src/inc/sl_pubsub_msg.h:24-24 *)
Definition SL_PUBSUB_HEADER_LEN : Z := 8.
(* src/inc/sl_pubsub_msg.h:25-25 *)
Definition SL_PUBSUB_MAX_TOPIC : Z := 256.
(* src/inc/sl_pubsub_msg.h:26-26 *)
Definition SL_PUBSUB_MAX_PAYLOAD : Z := 16384.

(* src/inc/sl_pubsub_msg.h:28-30 *)
Definition SL_PUBSUB_FLAG_RETAIN : Z := 0x01.
Definition SL_PUBSUB_FLAG_QOS_ACK : Z := 0x02.

(* src/inc/sl_pubsub_msg.h:32-39 *)
Inductive sl_pubsub_msg_type_t :=
| SL_PUBSUB_INVALID
| SL_PUBSUB_PUBLISH
| SL_PUBSUB_SUBSCRIBE
| SL_PUBSUB_UNSUBSCRIBE
| SL_PUBSUB_PUBACK
| SL_PUBSUB_SUBACK.

#[export] Instance sl_pubsub_msg_type_eq_dec : EqDecision sl_pubsub_msg_type_t.
Proof. solve_decision. Defined.

Definition pubsub_type_code (t : sl_pubsub_msg_type_t) : Z :=
  match t with
  | SL_PUBSUB_INVALID => 0
  | SL_PUBSUB_PUBLISH => 1
  | SL_PUBSUB_SUBSCRIBE => 2
  | SL_PUBSUB_UNSUBSCRIBE => 3
  | SL_PUBSUB_PUBACK => 4
  | SL_PUBSUB_SUBACK => 5
  end.

Definition pubsub_type_of_code (c : Z) : sl_pubsub_msg_type_t :=
  match c with
  | 1 => SL_PUBSUB_PUBLISH
  | 2 => SL_PUBSUB_SUBSCRIBE
  | 3 => SL_PUBSUB_UNSUBSCRIBE
  | 4 => SL_PUBSUB_PUBACK
  | 5 => SL_PUBSUB_SUBACK
  | _ => SL_PUBSUB_INVALID
  end.

(* src/inc/sl_pubsub_msg.h:41-48 *)
Record sl_pubsub_msg_t := mk_pubsub {
  ps_type : sl_pubsub_msg_type_t;
  ps_flags : Z;
  ps_topic : option (list Z);
  ps_topic_len : Z;
  ps_payload : option (list Z);
  ps_payload_len : Z
}.

(* src/src/sl_pubsub_msg.c:20-41 *)
Definition sl_pubsub_pack (m : sl_pubsub_msg_t) (out : list Z) : M (Z * list Z) :=
  if SL_PUBSUB_MAX_TOPIC <? ps_topic_len m then Ok (-1, out)
  else if SL_PUBSUB_MAX_PAYLOAD <? ps_payload_len m then Ok (-1, out)
  else if null_with_len (ps_topic m) (ps_topic_len m) then Ok (-1, out)
  else if null_with_len (ps_payload m) (ps_payload_len m) then Ok (-1, out)
  else
    let need := SL_PUBSUB_HEADER_LEN + ps_topic_len m + ps_payload_len m in
    if len out <? need then Ok (-1, out)
    else
      let! out := store_bytes out 0 [u8 (pubsub_type_code (ps_type m))] in
      let! out := store_bytes out 1 [ps_flags m] in
      let! out := pack_u16 out 2 (ps_topic_len m) in
      let! out := pack_u32_be out 4 (ps_payload_len m) in
      let! out := memcpy_if out SL_PUBSUB_HEADER_LEN (ps_topic m) (ps_topic_len m) in
      let! out := memcpy_if out (SL_PUBSUB_HEADER_LEN + ps_topic_len m)
                    (ps_payload m) (ps_payload_len m) in
      Ok (need, out).

(* src/src/sl_pubsub_msg.c:43-65 *)
Definition sl_pubsub_unpack (inp : list Z) : M (option sl_pubsub_msg_t) :=
  if len inp <? SL_PUBSUB_HEADER_LEN then Ok None
  else
    let! type := load inp 0 in
    let! flags := load inp 1 in
    let! tlen := unpack_u16 inp 2 in
    let! plen := unpack_u32_be inp 4 in
    if (type =? 0) || (pubsub_type_code SL_PUBSUB_SUBACK <? type) then Ok None
    else if (SL_PUBSUB_MAX_TOPIC <? tlen) || (SL_PUBSUB_MAX_PAYLOAD <? plen) then Ok None
    else if len inp <? SL_PUBSUB_HEADER_LEN + tlen + plen then Ok None
    else
      let! topic := load_bytes inp SL_PUBSUB_HEADER_LEN tlen in
      let! payload := load_bytes inp (SL_PUBSUB_HEADER_LEN + tlen) plen in
      Ok (Some {| ps_type := pubsub_type_of_code type; ps_flags := flags;
                  ps_topic := if 0 <? tlen then Some topic else None; ps_topic_len := tlen;
                  ps_payload := if 0 <? plen then Some payload else None;
                  ps_payload_len := plen |}).

(** ** Layout and guarantees *)

Definition pubsub_wire (m : sl_pubsub_msg_t) : list Z :=
  [u8 (pubsub_type_code (ps_type m))] ++ [ps_flags m] ++ be16 (ps_topic_len m)
  ++ be32 (ps_payload_len m) ++ ptr_bytes (ps_topic m) (ps_topic_len m)
  ++ ptr_bytes (ps_payload m) (ps_payload_len m).

Definition pubsub_packable (m : sl_pubsub_msg_t) : Prop :=
  ps_topic_len m <= SL_PUBSUB_MAX_TOPIC /\ ptr_ok (ps_topic m) (ps_topic_len m) /\
  ps_payload_len m <= SL_PUBSUB_MAX_PAYLOAD /\ ptr_ok (ps_payload m) (ps_payload_len m).

Definition pubsub_valid (m : sl_pubsub_msg_t) : Prop :=
  ps_type m <> SL_PUBSUB_INVALID /\ is_u8 (ps_flags m) /\
  ps_topic_len m <= SL_PUBSUB_MAX_TOPIC /\ ptr_canon (ps_topic m) (ps_topic_len m) /\
  ps_payload_len m <= SL_PUBSUB_MAX_PAYLOAD /\ ptr_canon (ps_payload m) (ps_payload_len m).

Ltac pubsub_consts :=
  unfold SL_PUBSUB_HEADER_LEN, SL_PUBSUB_MAX_TOPIC, SL_PUBSUB_MAX_PAYLOAD in *.

Lemma pubsub_type_roundtrip t : pubsub_type_of_code (pubsub_type_code t) = t.
Proof. by destruct t. Qed.

Lemma pubsub_type_valid t :
  t <> SL_PUBSUB_INVALID ->
  u8 (pubsub_type_code t) = pubsub_type_code t /\ 1 <= pubsub_type_code t <= 5.
Proof. by destruct t. Qed.

Lemma pubsub_type_accepted c :
  (c =? 0) || (5 <? c) = false -> is_u8 c ->
  pubsub_type_of_code c <> SL_PUBSUB_INVALID /\ u8 (pubsub_type_code (pubsub_type_of_code c)) = c.
Proof.
  intros Hc Hr. assert (c = 1 \/ c = 2 \/ c = 3 \/ c = 4 \/ c = 5) by lia.
  destruct_or!; subst c; done.
Qed.

Lemma pubsub_valid_packable m : pubsub_valid m -> pubsub_packable m.
Proof. intros (_ & _ & Ht & Hct & Hp & Hcp). split_and!; auto with codec. Qed.

Lemma len_pubsub_wire m :
  pubsub_packable m -> len (pubsub_wire m) = 8 + ps_topic_len m + ps_payload_len m.
Proof.
  intros (_ & Ht & _ & Hp). unfold pubsub_wire. autorewrite with len.
  rewrite !len_ptr_bytes by done. lia.
Qed.

Lemma pubsub_pack_fits m out :
  pubsub_packable m -> len (pubsub_wire m) <= len out ->
  sl_pubsub_pack m out = Ok (len (pubsub_wire m), pubsub_wire m ++ drop (length (pubsub_wire m)) out).
Proof.
  intros Hpk Hl. pose proof (len_pubsub_wire m Hpk) as Hn. destruct Hpk as (Ht & Htp & Hp & Hpp).
  pose proof (len_ptr_bytes _ _ Htp) as Htl. pose proof (len_ptr_bytes _ _ Hpp) as Hpl.
  pose proof (proj1 Htp). pose proof (proj1 Hpp).
  unfold sl_pubsub_pack. rewrite (ptr_ok_guard _ _ Htp), (ptr_ok_guard _ _ Hpp). pubsub_consts.
  repeat test_step. change out with ([] ++ out) at 1. fill. fill_done pubsub_wire.
Qed.

Lemma pubsub_pack_short m out :
  pubsub_packable m -> len out < len (pubsub_wire m) -> sl_pubsub_pack m out = Ok (-1, out).
Proof.
  intros Hpk Hl. rewrite len_pubsub_wire in Hl by done. destruct Hpk as (Ht & Htp & Hp & Hpp).
  unfold sl_pubsub_pack. rewrite (ptr_ok_guard _ _ Htp), (ptr_ok_guard _ _ Hpp). pubsub_consts.
  by repeat test_step.
Qed.

Lemma pubsub_unpack_wire m rest :
  pubsub_valid m -> sl_pubsub_unpack (pubsub_wire m ++ rest) = Ok (Some m).
Proof.
  intros Hv. pose proof (len_pubsub_wire m (pubsub_valid_packable m Hv)) as Hn.
  destruct Hv as (Hty & Hf & Ht & Hct & Hp & Hcp). destruct (pubsub_type_valid _ Hty) as [Hu Hc].
  pose proof (ptr_canon_ok _ _ Hct) as Htp. pose proof (ptr_canon_ok _ _ Hcp) as Hpp.
  pose proof (len_ptr_bytes _ _ Htp) as Htl. pose proof (len_ptr_bytes _ _ Hpp) as Hpl.
  pose proof (proj1 Htp). pose proof (proj1 Hpp). pose proof (len_nonneg rest).
  unfold sl_pubsub_unpack. rewrite len_app, Hn. pubsub_consts.
  change (pubsub_type_code SL_PUBSUB_SUBACK) with 5.
  unfold pubsub_wire. rewrite Hu, <- !app_assoc. repeat first [read_step | test_step].
  rewrite pubsub_type_roundtrip. destruct Hct as (_ & _ & <-). destruct Hcp as (_ & _ & <-).
  by destruct m.
Qed.

Lemma pubsub_unpack_sound inp :
  bytes_ok inp ->
  accepts (sl_pubsub_unpack inp)
    (fun m => pubsub_valid m /\ exists rest, inp = pubsub_wire m ++ rest).
Proof.
  intros Hb. unfold sl_pubsub_unpack. pubsub_consts.
  change (pubsub_type_code SL_PUBSUB_SUBACK) with 5.
  repeat first [branch_step | sound_step].
  destruct (pubsub_type_accepted v) as [Ht Hu]; [done..|]. apply accepts_some. split.
  - unfold pubsub_valid. cbn [ps_type ps_flags ps_topic ps_topic_len ps_payload ps_payload_len].
    pubsub_consts. split_and!; [done|lia..|by apply ptr_canon_of_bytes|lia|by apply ptr_canon_of_bytes].
  - exists (drop (Z.to_nat (8 + v1 + v2)) inp). unfold pubsub_wire.
    cbn [ps_type ps_flags ps_topic ps_topic_len ps_payload ps_payload_len].
    rewrite Hu, !ptr_bytes_of_bytes by done. by consume inp.
Qed.

Lemma pubsub_unpack_valid inp : bytes_ok inp -> accepts (sl_pubsub_unpack inp) pubsub_valid.
Proof. intros Hb. eapply accepts_impl; [by apply pubsub_unpack_sound|]. by intros m [? _]. Qed.

#[export] Instance pubsub_format : WireFormat sl_pubsub_msg_t := {|
  wire := pubsub_wire;
  packable := pubsub_packable;
  valid := pubsub_valid;
  pack := sl_pubsub_pack;
  unpack := sl_pubsub_unpack;
  valid_packable := pubsub_valid_packable;
  pack_fits := pubsub_pack_fits;
  pack_short := pubsub_pack_short;
  unpack_wire := pubsub_unpack_wire;
  unpack_valid := pubsub_unpack_valid
|}.

#[export] Instance pubsub_canonical : CanonicalFormat sl_pubsub_msg_t.
Proof. intros inp Hb. eapply accepts_impl; [by apply pubsub_unpack_sound|]. by intros m [_ ?]. Qed.
