(* ===== verification/FileMeta.v ===== *)
(** File-transfer metadata ([inc/sl_file_meta.h], [src/sl_file_meta.c]). *)

From S2P Require Import Prelude ByteOrder Codec.
Local Open Scope Z_scope.

(* src/inc/sl_file_meta.h:30-30 *)
Definition SL_FILE_META_FIXED_LEN : Z := 82.
(* src/inc/sl_file_meta.h:31-31 *)
Definition SL_FILE_NAME_MAX : Z := 256.
(* src/inc/sl_file_meta.h:32-32 *)
Definition SL_FILE_CHUNK_MIN : Z := 1024.
(* src/inc/sl_file_meta.h:33-33 *)
Definition SL_FILE_CHUNK_MAX : Z := 65536.

(** [fm_name] is the array of [SL_FILE_NAME_MAX + 1] chars. *)
(* src/inc/sl_file_meta.h:35-44 *)
Record sl_file_meta_t := mk_meta {
  fm_total_size : Z;
  fm_chunk_size : Z;
  fm_total_chunks : Z;
  fm_mode : Z;
  fm_mtime_s : Z;
  fm_sha256 : list Z;
  fm_name : list Z;
  fm_name_len : Z
}.

(** The character loop: [n] names the rounds left, [i] the index. *)
(* src/src/sl_file_meta.c:77-84 sl_file_meta_validate *)
Fixpoint file_name_loop (n : nat) (i : Z) (name : list Z) (name_len : Z) : M bool :=
  match n with
  | O => Ok true
  | S n =>
      let! c := load name i in
      if (c =? 47) || (c =? 92) || (c =? 0) then Ok false
      else
        let! dotdot := (if (i =? 0) && (c =? 46) && (2 <=? name_len)
                        then let! c1 := load name 1 in Ok (c1 =? 46) else Ok false) in
        if dotdot then Ok false
        else if c <? 0x20 then Ok false
        else file_name_loop n (i + 1) name name_len
  end.

(** 0 on success, -1 otherwise. *)
(* src/src/sl_file_meta.c:69-95 *)
Definition sl_file_meta_validate (m : sl_file_meta_t) : M Z :=
  if (fm_chunk_size m <? SL_FILE_CHUNK_MIN) || (SL_FILE_CHUNK_MAX <? fm_chunk_size m) then Ok (-1)
  else if (fm_name_len m =? 0) || (SL_FILE_NAME_MAX <? fm_name_len m) then Ok (-1)
  else
    let! ok := file_name_loop (Z.to_nat (fm_name_len m)) 0 (fm_name m) (fm_name_len m) in
    if negb ok then Ok (-1)
    else
      let expected := u64 (fm_total_size m + fm_chunk_size m - 1) / fm_chunk_size m in
      if fm_total_size m =? 0 then
        if negb (fm_total_chunks m =? 0) then Ok (-1) else Ok 0
      else if negb (fm_total_chunks m =? expected) then Ok (-1)
      else Ok 0.

(* src/src/sl_file_meta.c:28-45 *)
Definition sl_file_meta_pack (m : sl_file_meta_t) (out : list Z) : M (Z * list Z) :=
  let! v := sl_file_meta_validate m in
  if negb (v =? 0) then Ok (-1, out)
  else
    let need := SL_FILE_META_FIXED_LEN + fm_name_len m in
    if len out <? need then Ok (-1, out)
    else
      let! out := pack_u64_be out 0 (fm_total_size m) in
      let! out := pack_u32_be out 8 (fm_chunk_size m) in
      let! out := pack_u32_be out 12 (fm_total_chunks m) in
      let! out := pack_u32_be out 16 (fm_mode m) in
      let! out := pack_u32_be out 20 (fm_mtime_s m) in
      let! sha := load_bytes (fm_sha256 m) 0 32 in
      let! out := store_bytes out 24 sha in
      let! out := pack_u16 out 56 (fm_name_len m) in
      let! out := store_bytes out 58 (replicate 24 0) in
      let! name := load_bytes (fm_name m) 0 (fm_name_len m) in
      let! out := store_bytes out SL_FILE_META_FIXED_LEN name in
      Ok (need, out).

(** The struct is zeroed before it is filled. *)
(* src/src/sl_file_meta.c:47-67 *)
Definition sl_file_meta_unpack (inp : list Z) : M (option sl_file_meta_t) :=
  if len inp <? SL_FILE_META_FIXED_LEN then Ok None
  else
    let! total_size := unpack_u64_be inp 0 in
    let! chunk_size := unpack_u32_be inp 8 in
    let! total_chunks := unpack_u32_be inp 12 in
    let! mode := unpack_u32_be inp 16 in
    let! mtime := unpack_u32_be inp 20 in
    let! sha := load_bytes inp 24 32 in
    let! name_len := unpack_u16 inp 56 in
    if SL_FILE_NAME_MAX <? name_len then Ok None
    else if len inp <? SL_FILE_META_FIXED_LEN + name_len then Ok None
    else
      let! name := load_bytes inp SL_FILE_META_FIXED_LEN name_len in
      let! arr := store_bytes (replicate (Z.to_nat (SL_FILE_NAME_MAX + 1)) 0) 0 name in
      let! arr := store_bytes arr name_len [0] in
      let m := mk_meta total_size chunk_size total_chunks mode mtime sha arr name_len in
      let! v := sl_file_meta_validate m in
      Ok (if v =? 0 then Some m else None).

(** ** What validation means *)

Definition file_name (m : sl_file_meta_t) : list Z := take (Z.to_nat (fm_name_len m)) (fm_name m).

(** No separator, no byte below the space, and no leading dot-dot: the name stays
    inside the directory it is resolved in. *)
Definition name_char_ok (c : Z) : bool := negb ((c =? 47) || (c =? 92) || (c =? 0)) && negb (c <? 32).
Definition name_safe (name : list Z) : bool :=
  forallb name_char_ok name &&
  negb (match name with c0 :: c1 :: _ => (c0 =? 46) && (c1 =? 46) | _ => false end).

Definition chunks_expected (m : sl_file_meta_t) : Z :=
  if fm_total_size m =? 0 then 0
  else u64 (fm_total_size m + fm_chunk_size m - 1) / fm_chunk_size m.

Definition meta_ok (m : sl_file_meta_t) : bool :=
  (SL_FILE_CHUNK_MIN <=? fm_chunk_size m) && (fm_chunk_size m <=? SL_FILE_CHUNK_MAX) &&
  (1 <=? fm_name_len m) && (fm_name_len m <=? SL_FILE_NAME_MAX) &&
  name_safe (file_name m) && (fm_total_chunks m =? chunks_expected m).

Lemma file_name_loop_tail n : forall i name name_len,
  0 < i -> i + Z.of_nat n <= len name ->
  file_name_loop n i name name_len = Ok (forallb name_char_ok (take n (drop (Z.to_nat i) name))).
Proof.
  induction n as [|n IH]; intros i name name_len Hi Hl; cbn [file_name_loop]; [done|].
  destruct (load_in_bounds name i) as (c & -> & Hc); [lia|].
  rewrite (drop_S _ c) by done. cbn [take forallb]. unfold name_char_ok at 1.
  destruct ((c =? 47) || (c =? 92) || (c =? 0)); [done|].
  rewrite (proj2 (Z.eqb_neq i 0)) by lia. cbn [andb negb].
  destruct (c <? 32); [done|]. rewrite IH by lia. cbn [negb andb]. do 4 f_equal. lia.
Qed.

Lemma file_name_loop_spec name n :
  1 <= n <= len name ->
  file_name_loop (Z.to_nat n) 0 name n = Ok (name_safe (take (Z.to_nat n) name)).
Proof.
  intros Hn. destruct name as [|c name]; [rewrite len_nil in Hn; lia|].
  replace (Z.to_nat n) with (S (Z.to_nat (n - 1))) by lia. cbn [file_name_loop take].
  rewrite len_cons in Hn. unfold name_safe. cbn [forallb]. unfold name_char_ok at 1.
  rewrite (load_ok (c :: name) 0 c) by done.
  destruct ((c =? 47) || (c =? 92) || (c =? 0)); [done|]. cbn [Z.eqb andb].
  assert (Hrest : file_name_loop (Z.to_nat (n - 1)) (0 + 1) (c :: name) n =
                  Ok (forallb name_char_ok (take (Z.to_nat (n - 1)) name))).
  { rewrite file_name_loop_tail by (rewrite ?len_cons; lia). done. }
  rewrite Hrest. destruct (Z.leb_spec 2 n).
  - destruct name as [|c1 name]; [rewrite len_nil in Hn; lia|].
    rewrite (load_ok (c :: c1 :: name) 1 c1) by done.
    replace (Z.to_nat (n - 1)) with (S (Z.to_nat (n - 2))) by lia. cbn [take].
    destruct (c =? 46), (c1 =? 46); cbn [andb negb]; rewrite ?andb_false_r, ?andb_true_r; try done.
    all: destruct (c <? 32); done.
  - replace (n - 1) with 0 by lia. rewrite andb_false_r. cbn. rewrite !andb_true_r.
    by destruct (c <? 32).
Qed.

(** The validator decides [meta_ok], without touching memory outside the name. *)
Lemma file_meta_validate_spec m :
  0 <= fm_name_len m -> SL_FILE_NAME_MAX < len (fm_name m) ->
  sl_file_meta_validate m = Ok (if meta_ok m then 0 else -1).
Proof.
  intros Hn Hl. unfold sl_file_meta_validate, meta_ok.
  rewrite !Z.ltb_antisym. destruct (Z.leb_spec SL_FILE_CHUNK_MIN (fm_chunk_size m)); [|done].
  destruct (Z.leb_spec (fm_chunk_size m) SL_FILE_CHUNK_MAX); [|done]. cbn [negb andb orb].
  destruct (Z.leb_spec (fm_name_len m) SL_FILE_NAME_MAX); cbn [negb andb orb];
    rewrite ?orb_true_r, ?andb_false_r; [|done].
  destruct (Z.eqb_spec (fm_name_len m) 0) as [E|E]; [by rewrite E|].
  rewrite (proj2 (Z.leb_le 1 _)) by lia. cbn [andb orb].
  rewrite file_name_loop_spec by lia. fold (file_name m).
  destruct (name_safe (file_name m)); [|done]. cbn [negb andb]. unfold chunks_expected.
  destruct (fm_total_size m =? 0); by destruct (_ =? _).
Qed.

(** ** Layout *)

Definition meta_wire (m : sl_file_meta_t) : list Z :=
  be64 (fm_total_size m) ++ be32 (fm_chunk_size m) ++ be32 (fm_total_chunks m) ++ be32 (fm_mode m)
  ++ be32 (fm_mtime_s m) ++ fm_sha256 m ++ be16 (fm_name_len m) ++ replicate 24 0 ++ file_name m.

Definition meta_packable (m : sl_file_meta_t) : Prop :=
  meta_ok m = true /\ len (fm_name m) = SL_FILE_NAME_MAX + 1 /\ len (fm_sha256 m) = 32.

Definition meta_valid (m : sl_file_meta_t) : Prop :=
  meta_ok m = true /\ is_u64 (fm_total_size m) /\ is_u32 (fm_total_chunks m) /\
  is_u32 (fm_mode m) /\ is_u32 (fm_mtime_s m) /\ len (fm_sha256 m) = 32 /\
  fm_name m = file_name m ++ replicate (Z.to_nat (SL_FILE_NAME_MAX + 1 - fm_name_len m)) 0 /\
  len (file_name m) = fm_name_len m.

Ltac meta_consts :=
  unfold SL_FILE_META_FIXED_LEN, SL_FILE_NAME_MAX, SL_FILE_CHUNK_MIN, SL_FILE_CHUNK_MAX in *.

Lemma meta_ok_range m :
  meta_ok m = true ->
  1024 <= fm_chunk_size m <= 65536 /\ 1 <= fm_name_len m <= 256 /\
  name_safe (file_name m) = true /\ fm_total_chunks m = chunks_expected m.
Proof.
  unfold meta_ok. meta_consts. rewrite !andb_true_iff.
  intros [[[[[H1 H2] H3] H4] H5] H6]. split_and!; [lia..|done|lia].
Qed.

Lemma meta_valid_packable m : meta_valid m -> meta_packable m.
Proof.
  intros (Ho & _ & _ & _ & _ & Hs & En & Hl). destruct (meta_ok_range m Ho) as (_ & Hn & _).
  split_and!; [done| |done]. rewrite En, len_app, len_replicate, Hl. meta_consts. lia.
Qed.

Lemma len_file_name m :
  1 <= fm_name_len m <= 256 -> len (fm_name m) = SL_FILE_NAME_MAX + 1 -> len (file_name m) = fm_name_len m.
Proof. intros. unfold file_name. meta_consts. rewrite len_take; lia. Qed.

Lemma len_meta_wire m : meta_packable m -> len (meta_wire m) = 82 + fm_name_len m.
Proof.
  intros (Ho & Hn & Hs). destruct (meta_ok_range m Ho) as (_ & Hr & _).
  pose proof (len_file_name m Hr Hn). unfold meta_wire. autorewrite with len. lia.
Qed.

Lemma meta_pack_fits m out :
  meta_packable m -> len (meta_wire m) <= len out ->
  sl_file_meta_pack m out = Ok (len (meta_wire m), meta_wire m ++ drop (length (meta_wire m)) out).
Proof.
  intros Hpk Hl. pose proof (len_meta_wire m Hpk) as Hw. destruct Hpk as (Ho & Hn & Hs).
  destruct (meta_ok_range m Ho) as (_ & Hr & _). pose proof (len_file_name m Hr Hn) as Hfn.
  unfold sl_file_meta_pack. rewrite file_meta_validate_spec, Ho by (meta_consts; lia).
  cbn [Z.eqb negb]. meta_consts. repeat test_step.
  rewrite (load_bytes_in_bounds (fm_sha256 m)), (load_bytes_in_bounds (fm_name m)) by lia.
  change (drop (Z.to_nat 0) ?l) with l. fold (file_name m).
  rewrite (firstn_all2 (fm_sha256 m)) by (unfold len in Hs; lia).
  change out with ([] ++ out) at 1. fill. fill_done meta_wire.
Qed.

Lemma meta_pack_short m out :
  meta_packable m -> len out < len (meta_wire m) -> sl_file_meta_pack m out = Ok (-1, out).
Proof.
  intros Hpk Hl. rewrite (len_meta_wire m Hpk) in Hl. destruct Hpk as (Ho & Hn & Hs).
  destruct (meta_ok_range m Ho) as (_ & Hr & _).
  unfold sl_file_meta_pack. rewrite file_meta_validate_spec, Ho by (meta_consts; lia).
  cbn [Z.eqb negb]. meta_consts. by repeat test_step.
Qed.

Lemma meta_unpack_wire m rest :
  meta_valid m -> sl_file_meta_unpack (meta_wire m ++ rest) = Ok (Some m).
Proof.
  intros Hv. pose proof (meta_valid_packable m Hv) as Hpk. pose proof (len_meta_wire m Hpk) as Hw.
  destruct Hv as (Ho & Hts & Htc & Hmo & Hmt & Hs & En & Hl).
  destruct (meta_ok_range m Ho) as (Hcs & Hr & _). pose proof (len_nonneg rest).
  unfold sl_file_meta_unpack. rewrite len_app, Hw. meta_consts.
  unfold meta_wire. rewrite <- !app_assoc. repeat first [read_step | test_step].
  destruct (name_into_zeros (file_name m) (256 + 1)) as (a & -> & E); [lia|].
  rewrite Hl in E. rewrite E, <- En. replace (mk_meta _ _ _ _ _ _ _ _) with m by (by destruct m).
  rewrite file_meta_validate_spec, Ho; [done|lia|]. destruct Hpk as (_ & -> & _). meta_consts. lia.
Qed.

Lemma meta_unpack_valid inp : bytes_ok inp -> accepts (sl_file_meta_unpack inp) meta_valid.
Proof.
  intros Hb. unfold sl_file_meta_unpack. meta_consts.
  repeat first [branch_step | sound_step].
  destruct (name_into_zeros bs0 (256 + 1)) as (a & -> & E); [lia|]. rewrite L0 in E. rewrite E.
  set (m := mk_meta _ _ _ _ _ _ _ _).
  assert (Hfn : file_name m = bs0) by (unfold file_name, m; simpl; by rewrite (take_app_exact v4)).
  rewrite file_meta_validate_spec; [|simpl; lia|simpl; rewrite len_app, len_replicate; meta_consts; lia].
  destruct (meta_ok m) eqn:Ho; simpl; [|apply accepts_none]. apply accepts_some.
  unfold meta_valid. rewrite Hfn, Ho. meta_consts.
  subst m. cbn [fm_total_size fm_total_chunks fm_mode fm_mtime_s fm_sha256 fm_name fm_name_len].
  split_and!; try done; lia.
Qed.

#[export] Instance file_meta_format : WireFormat sl_file_meta_t := {|
  wire := meta_wire;
  packable := meta_packable;
  valid := meta_valid;
  pack := sl_file_meta_pack;
  unpack := sl_file_meta_unpack;
  valid_packable := meta_valid_packable;
  pack_fits := meta_pack_fits;
  pack_short := meta_pack_short;
  unpack_wire := meta_unpack_wire;
  unpack_valid := meta_unpack_valid
|}.

(** ** Guarantees *)

Lemma name_safe_spec name c :
  name_safe name = true -> c ∈ name -> c <> 47 /\ c <> 92 /\ 32 <= c.
Proof.
  unfold name_safe. rewrite andb_true_iff, forallb_forall. intros [H _] Hin%list_elem_of_In.
  specialize (H c Hin). unfold name_char_ok in H. lia.
Qed.

Lemma chunks_expected_ceil m :
  1024 <= fm_chunk_size m -> 0 <= fm_total_size m ->
  fm_total_size m + fm_chunk_size m <= 18446744073709551616 ->
  fm_total_size m <= chunks_expected m * fm_chunk_size m < fm_total_size m + fm_chunk_size m.
Proof.
  intros Hc Ht Ho. unfold chunks_expected. destruct (Z.eqb_spec (fm_total_size m) 0); [lia|].
  rewrite u64_small by lia.
  pose proof (Z.div_mod (fm_total_size m + fm_chunk_size m - 1) (fm_chunk_size m) ltac:(lia)).
  pose proof (Z.mod_pos_bound (fm_total_size m + fm_chunk_size m - 1) (fm_chunk_size m) ltac:(lia)). nia.
Qed.

(** C40: Metadata taken from the wire is safe to act on: the file name is not empty or too
    long, contains no path separator and no byte below the space (NUL among them) and does not
    begin with two dots, the chunk size is between the header's SL_FILE_CHUNK_MIN (1024) and
    SL_FILE_CHUNK_MAX, and (unless the size is within one chunk of 2^64) the announced
    number of chunks is the size divided by the chunk size, rounded up. *)
Theorem file_meta_unpack_safe (inp : list Z) (m : sl_file_meta_t) :
  bytes_ok inp -> sl_file_meta_unpack inp = Ok (Some m) ->
  (forall c, c ∈ file_name m -> c <> 47 /\ c <> 92 /\ 32 <= c) /\
  (forall rest, file_name m <> 46 :: 46 :: rest) /\
  1 <= len (file_name m) <= SL_FILE_NAME_MAX /\
  SL_FILE_CHUNK_MIN <= fm_chunk_size m <= SL_FILE_CHUNK_MAX /\
  (fm_total_size m + fm_chunk_size m <= 18446744073709551616 ->
   fm_total_size m <= fm_total_chunks m * fm_chunk_size m < fm_total_size m + fm_chunk_size m).
Proof.
  intros Hb Hu. pose proof (unpack_some (T := sl_file_meta_t) inp m Hb Hu) as Hv.
  destruct Hv as (Ho & Hts & _ & _ & _ & _ & _ & Hl).
  destruct (meta_ok_range m Ho) as (Hc & Hn & Hs & He). meta_consts. split_and!; [|..|lia|lia|lia|lia|].
  - intros c. by apply name_safe_spec.
  - intros rest E. rewrite E in Hs. unfold name_safe in Hs. by rewrite andb_false_r in Hs.
  - intros Hw. rewrite He. apply chunks_expected_ceil; lia.
Qed.

Definition sample_meta : sl_file_meta_t :=
  mk_meta 5000 1024 5 420 0 (replicate 32 7) ([97; 46; 98] ++ replicate 254 0) 3.

Example file_meta_unpack_safe_witness :
  sl_file_meta_unpack (meta_wire sample_meta) = Ok (Some sample_meta) /\
  5000 <= fm_total_chunks sample_meta * 1024 < 5000 + 1024.
Proof.
  assert (E : sl_file_meta_unpack (meta_wire sample_meta) = Ok (Some sample_meta))
    by (vm_compute; reflexivity).
  split; [exact E|]. apply (file_meta_unpack_safe (meta_wire sample_meta) sample_meta).
  - by_deciding.
  - exact E.
  - vm_compute. discriminate.
Defined.

(** The unit test [test_chunk_count_consistency] expects metadata with a chunk size of 1000 to be
    valid; it is below SL_FILE_CHUNK_MIN and refused. *)
Lemma small_chunk_refused :
  sl_file_meta_validate (mk_meta 5500 1000 6 420 0 (replicate 32 7) ([97] ++ replicate 256 0) 1) = Ok (-1).
Proof. vm_compute. reflexivity. Qed.

(** Delete (127) and the bytes from 128 on pass in a name. *)
Lemma delete_in_name_accepted :
  sl_file_meta_validate (mk_meta 5000 1024 5 420 0 (replicate 32 7) ([127; 155] ++ replicate 255 0) 2) = Ok 0.
Proof. vm_compute. reflexivity. Qed.

(** Near 2^64 the addition in the rounding wraps: metadata that announces almost 2^64
    bytes in zero chunks passes validation. *)
Lemma file_meta_wrap_accepted :
  sl_file_meta_validate
    (mk_meta 18446744073709551615 1024 0 420 0 (replicate 32 7) ([97] ++ replicate 256 0) 1) = Ok 0.
Proof. by vm_compute. Qed.
