(* ===== verification/FileChunk.v ===== *)
(** File chunks ([inc/sl_file_chunk.h], [src/sl_file_chunk.c]): a slice of a file with
    its CRC-32C. *)

From S2P Require Import Prelude ByteOrder Codec Crc32 FileMeta.
Local Open Scope Z_scope.

(* src/inc/sl_file_chunk.h:25-25 *)
Definition SL_FILE_CHUNK_HEADER_LEN : Z := 16.
(* src/inc/sl_file_chunk.h:28-28 *)
Definition SL_FILE_CHUNK_FLAG_LAST : Z := 0x01.

(* src/inc/sl_file_chunk.h:30-36 *)
Record sl_file_chunk_t := mk_chunk {
  fc_index : Z;
  fc_data_len : Z;
  fc_crc32c : Z;
  fc_flags : Z;
  fc_data : option (list Z)
}.

(** The checksum's statics [s] are threaded through. The [crc32c] field of [c] is not
    used: the packer computes it. *)
(* src/src/sl_file_chunk.c:17-36 *)
Definition sl_file_chunk_pack (s : crc_statics) (c : sl_file_chunk_t) (out : list Z)
  : M (Z * list Z * crc_statics) :=
  if null_with_len (fc_data c) (fc_data_len c) then Ok (-1, out, s)
  else
    let need := SL_FILE_CHUNK_HEADER_LEN + fc_data_len c in
    if len out <? need then Ok (-1, out, s)
    else
      let! '(crc, s) := (if 0 <? fc_data_len c then
                           let! d := load_bytes (default [] (fc_data c)) 0 (fc_data_len c) in
                           sl_crc32c s d
                         else Ok (0, s)) in
      let! out := pack_u32_be out 0 (fc_index c) in
      let! out := pack_u32_be out 4 (fc_data_len c) in
      let! out := pack_u32_be out 8 crc in
      let! out := store_bytes out 12 [fc_flags c] in
      let! out := store_bytes out 13 [0] in
      let! out := store_bytes out 14 [0] in
      let! out := store_bytes out 15 [0] in
      let! out := memcpy_if out SL_FILE_CHUNK_HEADER_LEN (fc_data c) (fc_data_len c) in
      Ok (need, out, s).

(* src/src/sl_file_chunk.c:38-54 *)
Definition sl_file_chunk_unpack (inp : list Z) : M (option sl_file_chunk_t) :=
  if len inp <? SL_FILE_CHUNK_HEADER_LEN then Ok None
  else
    let! index := unpack_u32_be inp 0 in
    let! data_len := unpack_u32_be inp 4 in
    let! crc := unpack_u32_be inp 8 in
    let! flags := load inp 12 in
    let! r0 := load inp 13 in
    let! r1 := load inp 14 in
    let! r2 := load inp 15 in
    if negb (r0 =? 0) || negb (r1 =? 0) || negb (r2 =? 0) then Ok None
    else if SL_FILE_CHUNK_MAX <? data_len then Ok None
    else if len inp <? SL_FILE_CHUNK_HEADER_LEN + data_len then Ok None
    else
      let! d := load_bytes inp SL_FILE_CHUNK_HEADER_LEN data_len in
      Ok (Some (mk_chunk index data_len crc flags (if 0 <? data_len then Some d else None))).

(* src/src/sl_file_chunk.c:56-60 *)
Definition sl_file_chunk_crc_ok (s : crc_statics) (c : sl_file_chunk_t) : M (bool * crc_statics) :=
  if fc_data_len c =? 0 then Ok (fc_crc32c c =? 0, s)
  else
    let! d := load_bytes (default [] (fc_data c)) 0 (fc_data_len c) in
    let! '(crc, s) := sl_crc32c s d in
    Ok (crc =? fc_crc32c c, s).

(** ** Layout *)

Definition chunk_bytes (c : sl_file_chunk_t) : list Z := ptr_bytes (fc_data c) (fc_data_len c).

Definition chunk_crc (c : sl_file_chunk_t) : Z :=
  if 0 <? fc_data_len c then crc32c (chunk_bytes c) else 0.

Definition chunk_wire (c : sl_file_chunk_t) (crc : Z) : list Z :=
  be32 (fc_index c) ++ be32 (fc_data_len c) ++ be32 crc ++ [fc_flags c] ++ [0] ++ [0] ++ [0]
  ++ chunk_bytes c.

Definition chunk_shape (c : sl_file_chunk_t) : Prop :=
  is_u32 (fc_index c) /\ is_u8 (fc_flags c) /\ is_u32 (fc_crc32c c) /\
  fc_data_len c <= SL_FILE_CHUNK_MAX /\ ptr_canon (fc_data c) (fc_data_len c).

Ltac chunk_consts := unfold SL_FILE_CHUNK_HEADER_LEN, SL_FILE_CHUNK_MAX in *.

Lemma len_chunk_wire c crc :
  ptr_ok (fc_data c) (fc_data_len c) -> len (chunk_wire c crc) = 16 + fc_data_len c.
Proof.
  intros Hp. unfold chunk_wire, chunk_bytes. autorewrite with len. rewrite len_ptr_bytes by done. lia.
Qed.

(** The packer writes the layout with the checksum it computes. *)
Lemma chunk_pack_fits s c out :
  statics_ok s -> ptr_ok (fc_data c) (fc_data_len c) -> bytes_ok (chunk_bytes c) ->
  16 + fc_data_len c <= len out ->
  exists s', statics_ok s' /\ sl_file_chunk_pack s c out =
    Ok (16 + fc_data_len c,
        chunk_wire c (chunk_crc c) ++ drop (length (chunk_wire c (chunk_crc c))) out, s').
Proof.
  intros Hs Hp Hb Hl. pose proof (len_chunk_wire c (chunk_crc c) Hp) as Hw.
  pose proof (len_ptr_bytes _ _ Hp) as Hpl. pose proof (proj1 Hp).
  unfold sl_file_chunk_pack. rewrite (ptr_ok_guard _ _ Hp). chunk_consts. test_step.
  assert (exists s', statics_ok s' /\
    (if 0 <? fc_data_len c then
       let! d := load_bytes (default [] (fc_data c)) 0 (fc_data_len c) in sl_crc32c s d
     else Ok (0, s)) = Ok (chunk_crc c, s')) as (s' & Hs' & ->).
  { unfold chunk_crc. destruct (0 <? fc_data_len c); [|eauto]. rewrite load_ptr by done.
    destruct (crc32c_spec s (chunk_bytes c) Hs Hb) as (s' & E & Hs'). eauto. }
  exists s'. split; [done|]. change out with ([] ++ out) at 1. fill.
  rewrite <- Hw. apply fill_eq_with; [done|unfold chunk_wire; by rewrite <- !app_assoc|lia].
Qed.

Lemma chunk_unpack_wire c rest :
  chunk_shape c -> sl_file_chunk_unpack (chunk_wire c (fc_crc32c c) ++ rest) = Ok (Some c).
Proof.
  intros (Hi & Hf & Hcr & Hm & Hc). pose proof (ptr_canon_ok _ _ Hc) as Hp.
  pose proof (len_ptr_bytes _ _ Hp) as Hl. pose proof (proj1 Hp). pose proof (len_nonneg rest).
  unfold sl_file_chunk_unpack. rewrite len_app, len_chunk_wire by done. chunk_consts.
  unfold chunk_wire, chunk_bytes. rewrite <- !app_assoc. repeat first [read_step | test_step].
  destruct Hc as (_ & _ & <-). by destruct c.
Qed.

Lemma chunk_unpack_sound inp :
  bytes_ok inp ->
  accepts (sl_file_chunk_unpack inp)
    (fun c => chunk_shape c /\ bytes_ok (chunk_bytes c) /\
       exists rest, inp = chunk_wire c (fc_crc32c c) ++ rest).
Proof.
  intros Hb. unfold sl_file_chunk_unpack. chunk_consts.
  repeat first [branch_step | sound_step].
  assert (v3 = 0 /\ v4 = 0 /\ v5 = 0) as (-> & -> & ->) by lia.
  apply accepts_some. unfold chunk_shape, chunk_wire, chunk_bytes.
  cbn [fc_index fc_data_len fc_crc32c fc_flags fc_data]. chunk_consts.
  rewrite ptr_bytes_of_bytes by done. split_and!; [lia..|by apply ptr_canon_of_bytes|auto|].
  exists (drop (Z.to_nat (16 + v0)) inp). by consume inp.
Qed.

(** The check accepts exactly the right checksum. *)
Lemma chunk_crc_ok_spec s c :
  statics_ok s -> ptr_ok (fc_data c) (fc_data_len c) -> bytes_ok (chunk_bytes c) ->
  exists s', statics_ok s' /\ sl_file_chunk_crc_ok s c = Ok (fc_crc32c c =? chunk_crc c, s').
Proof.
  intros Hs Hp Hb. pose proof (proj1 Hp). unfold sl_file_chunk_crc_ok, chunk_crc.
  destruct (Z.eqb_spec (fc_data_len c) 0) as [->|]; [eauto|].
  rewrite (proj2 (Z.ltb_lt 0 _)), load_ptr by (done || lia).
  destruct (crc32c_spec s (chunk_bytes c) Hs Hb) as (s' & E & Hs').
  unfold chunk_bytes in *. rewrite E. exists s'. split; [done|]. by rewrite Z.eqb_sym.
Qed.

(** ** Guarantees *)

(** A chunk survives the wire: what the sender packs, the receiver unpacks to the same
    index, flags and data with a checksum that its check accepts, for every chunk of at
    most [SL_FILE_CHUNK_MAX] bytes and whatever follows it in the buffer. *)
Theorem file_chunk_roundtrip (s : crc_statics) (c : sl_file_chunk_t) (out : list Z) :
  statics_ok s -> chunk_shape c -> bytes_ok (chunk_bytes c) -> 16 + fc_data_len c <= len out ->
  exists s' out' c' s'', sl_file_chunk_pack s c out = Ok (16 + fc_data_len c, out', s') /\
    sl_file_chunk_unpack out' = Ok (Some c') /\
    fc_index c' = fc_index c /\ fc_flags c' = fc_flags c /\ fc_data c' = fc_data c /\
    fc_data_len c' = fc_data_len c /\ sl_file_chunk_crc_ok s' c' = Ok (true, s'').
Proof.
  intros Hs Hsh Hb Hl. pose proof Hsh as (Hi & Hf & Hcr & Hm & Hc).
  pose proof (ptr_canon_ok _ _ Hc) as Hp.
  destruct (chunk_pack_fits s c out Hs Hp Hb Hl) as (s' & Hs' & E).
  set (c' := mk_chunk (fc_index c) (fc_data_len c) (chunk_crc c) (fc_flags c) (fc_data c)).
  assert (Hcrc : is_u32 (chunk_crc c)).
  { unfold chunk_crc. destruct (0 <? fc_data_len c); [|done]. by apply crc32c_range. }
  destruct (chunk_crc_ok_spec s' c') as (s'' & _ & Eok); [done..|].
  eexists s', _, c', s''. split; [exact E|]. split; [|by rewrite Eok, Z.eqb_refl].
  apply (chunk_unpack_wire c'). unfold chunk_shape. done.
Qed.

Definition sample_chunk : sl_file_chunk_t := mk_chunk 3 4 0 SL_FILE_CHUNK_FLAG_LAST (Some [1; 2; 3; 4]).

Example file_chunk_roundtrip_witness :
  exists s' out' c' s'', sl_file_chunk_pack crc_start sample_chunk (replicate 24 0) = Ok (20, out', s') /\
    sl_file_chunk_unpack out' = Ok (Some c') /\
    fc_index c' = 3 /\ fc_flags c' = 1 /\ fc_data c' = Some [1; 2; 3; 4] /\
    fc_data_len c' = 4 /\ sl_file_chunk_crc_ok s' c' = Ok (true, s'').
Proof.
  apply (file_chunk_roundtrip crc_start sample_chunk (replicate 24 0)).
  - split; [reflexivity|discriminate].
  - unfold chunk_shape, ptr_canon. simpl. repeat split; vm_compute; congruence.
  - by_deciding.
  - vm_compute. discriminate.
Defined.

(** The receiver's check rejects every chunk in which one data byte was altered on the
    way, whatever the position. *)
Theorem file_chunk_corruption_detected (s : crc_statics) (c : sl_file_chunk_t)
    (pre post : list Z) (x y : Z) :
  statics_ok s -> fc_crc32c c = chunk_crc c -> fc_data c = Some (pre ++ x :: post) ->
  fc_data_len c = len (pre ++ x :: post) -> bytes_ok (pre ++ x :: post) -> is_u8 y -> x <> y ->
  exists s', sl_file_chunk_crc_ok s
    (mk_chunk (fc_index c) (fc_data_len c) (fc_crc32c c) (fc_flags c) (Some (pre ++ y :: post)))
    = Ok (false, s').
Proof.
  intros Hs Hcrc Hd Hl Hb Hy Hne. set (c' := mk_chunk _ _ _ _ _).
  assert (Hly : fc_data_len c = len (pre ++ y :: post)) by (rewrite Hl; len_lia).
  assert (0 < fc_data_len c) by (rewrite Hl; len_lia).
  apply bytes_ok_app_inv in Hb as [Hpre Hb]. inversion Hb as [|? ? Hx Hpost]; subst.
  assert (Eb : chunk_bytes c' = pre ++ y :: post).
  { unfold chunk_bytes, ptr_bytes. simpl. rewrite Hly, len_to_nat. apply firstn_all. }
  destruct (chunk_crc_ok_spec s c') as (s' & _ & ->); [done| | |].
  { split; [simpl; lia|]. intros _. eexists. split; [done|]. simpl. lia. }
  { rewrite Eb. auto with bytes. }
  exists s'. do 2 f_equal. apply Z.eqb_neq. simpl. rewrite Hcrc. unfold chunk_crc. simpl.
  rewrite (proj2 (Z.ltb_lt 0 _)) by done. rewrite Eb. unfold chunk_bytes, ptr_bytes.
  rewrite Hd, Hl, len_to_nat. simpl. rewrite firstn_all.
  intros E. by apply Hne, (crc32c_byte_inj pre post).
Qed.

Example file_chunk_corruption_detected_witness :
  let c := mk_chunk 0 3 (crc32c [1; 2; 3]) 0 (Some [1; 2; 3]) in
  exists s', sl_file_chunk_crc_ok crc_start (mk_chunk 0 3 (crc32c [1; 2; 3]) 0 (Some [1; 9; 3]))
    = Ok (false, s').
Proof.
  apply (file_chunk_corruption_detected crc_start (mk_chunk 0 3 (crc32c [1; 2; 3]) 0 (Some [1; 2; 3]))
           [1] [3] 2 9).
  - split; [reflexivity|discriminate].
  - reflexivity.
  - reflexivity.
  - reflexivity.
  - by_deciding.
  - lia.
  - lia.
Defined.

(** The packer does not enforce the receiver's limit: it packs a chunk of more than
    [SL_FILE_CHUNK_MAX] bytes, which no receiver unpacks. *)
Lemma chunk_oversize_rejected c rest :
  is_u32 (fc_index c) -> is_u8 (fc_flags c) -> is_u32 (fc_data_len c) -> is_u32 (fc_crc32c c) ->
  SL_FILE_CHUNK_MAX < fc_data_len c -> ptr_ok (fc_data c) (fc_data_len c) ->
  sl_file_chunk_unpack (chunk_wire c (fc_crc32c c) ++ rest) = Ok None.
Proof.
  intros Hi Hf Hd Hcr Hm Hp. pose proof (len_ptr_bytes _ _ Hp) as Hl. pose proof (len_nonneg rest).
  unfold sl_file_chunk_unpack. rewrite len_app, len_chunk_wire by done. chunk_consts.
  unfold chunk_wire, chunk_bytes. rewrite <- !app_assoc.
  by repeat first [read_step | test_step].
Qed.
