(* ===== verification/Beacon.v ===== *)
(** Beacons: the client's periodic sealed status message ([src/sl_beacon.c],
    [src/sl_beacon_codec.c]). *)

From S2P Require Import Prelude ByteOrder Codec Mem Aead.
Local Open Scope Z_scope.

(* src/inc/sl_beacon.h:29-29 *)
Definition SL_BEACON_HEADER_LEN : Z := 32.
(* src/inc/sl_beacon.h:30-30 *)
Definition SL_BEACON_MAX_PAYLOAD : Z := 1024.
(* src/inc/sl_beacon.h:33-33 *)
Definition SL_BEACON_FLAG_REQUEST_ACK : Z := 0x0001.
(* src/inc/sl_beacon.h:34-34 *)
Definition SL_BEACON_FLAG_LAST : Z := 0x0002.

(* src/inc/sl_beacon.h:36-44 *)
Record sl_beacon_t := mk_beacon {
  bc_client_id : Z;
  bc_sequence : Z;
  bc_timestamp_ms : Z;
  bc_interval_ms : Z;
  bc_payload_len : Z;
  bc_flags : Z;
  bc_payload : list Z
}.

(* src/src/sl_beacon.c:35-44 *)
Definition sl_beacon_pack_header (b : sl_beacon_t) (out : list Z) : M (list Z) :=
  let! out := pack_u64_be out 0 (bc_client_id b) in
  let! out := pack_u64_be out 8 (bc_sequence b) in
  let! out := pack_u64_be out 16 (bc_timestamp_ms b) in
  let! out := pack_u32_be out 24 (bc_interval_ms b) in
  let! out := pack_u16 out 28 (bc_payload_len b) in
  pack_u16 out 30 (bc_flags b).

(* src/src/sl_beacon.c:46-57 *)
Definition sl_beacon_unpack_header (inp : list Z) : M sl_beacon_t :=
  let! client_id := unpack_u64_be inp 0 in
  let! sequence := unpack_u64_be inp 8 in
  let! timestamp := unpack_u64_be inp 16 in
  let! interval := unpack_u32_be inp 24 in
  let! payload_len := unpack_u16 inp 28 in
  let! flags := unpack_u16 inp 30 in
  Ok (mk_beacon client_id sequence timestamp interval payload_len flags
        (replicate (Z.to_nat SL_BEACON_MAX_PAYLOAD) 0)).

(** [~known] is an [int]. *)
(* src/src/sl_beacon.c:59-74 *)
Definition sl_beacon_validate (b : sl_beacon_t) : Z :=
  if bc_sequence b =? 0 then -1
  else if SL_BEACON_MAX_PAYLOAD <? bc_payload_len b then -1
  else
    let known := Z.lor SL_BEACON_FLAG_REQUEST_ACK SL_BEACON_FLAG_LAST in
    if negb (Z.land (bc_flags b) (Z.lnot known) =? 0) then -1
    else if negb (bc_interval_ms b =? 0) && ((bc_interval_ms b <? 100) || (600000 <? bc_interval_ms b))
    then -1
    else 0.

(* src/src/sl_beacon_codec.c:8-11 *)
Definition sl_beacon_wire_size (b : sl_beacon_t) : Z :=
  SL_BEACON_HEADER_LEN + bc_payload_len b + SL_AEAD_TAG_LEN.

Section Beacon.
  Context `{Gcm}.

(** [Some n] is success with [*wire_len_out = n]; the buffer is returned either way. *)
(* src/src/sl_beacon_codec.c:13-49 *)
Definition sl_beacon_seal (b : sl_beacon_t) (key static_iv : list Z) (seq : Z) (wire_out : list Z)
  : M (option Z * list Z) :=
  if negb (sl_beacon_validate b =? 0) then Ok (None, wire_out)
  else
    let! wire_out := sl_beacon_pack_header b wire_out in
    let! nonce := sl_nonce_build static_iv seq (replicate 12 0) in
    let! aad := load_bytes wire_out 0 SL_BEACON_HEADER_LEN in
    let! '(rc, ct, tag) := sl_aead_seal key nonce (Some aad) (Some (bc_payload b)) (bc_payload_len b) in
    let! wire_out := store_bytes wire_out SL_BEACON_HEADER_LEN ct in
    let! wire_out := store_bytes wire_out (SL_BEACON_HEADER_LEN + bc_payload_len b) tag in
    if negb (rc =? 0) then Ok (None, wire_out)
    else Ok (Some (sl_beacon_wire_size b), wire_out).

Definition set_payload (b : sl_beacon_t) (p : list Z) : sl_beacon_t :=
  mk_beacon (bc_client_id b) (bc_sequence b) (bc_timestamp_ms b) (bc_interval_ms b)
    (bc_payload_len b) (bc_flags b) p.

(** Returns the code and the caller's struct, [b0] before the call. *)
(* src/src/sl_beacon_codec.c:51-88 *)
Definition sl_beacon_open (wire key static_iv : list Z) (seq : Z) (b0 : sl_beacon_t)
  : M (Z * sl_beacon_t) :=
  if len wire <? SL_BEACON_HEADER_LEN + SL_AEAD_TAG_LEN then Ok (-1, b0)
  else
    let! b := sl_beacon_unpack_header wire in
    if negb (sl_beacon_validate b =? 0) then Ok (-1, b)
    else if negb (len wire =? sl_beacon_wire_size b) then Ok (-1, b)
    else
      let! aad := load_bytes wire 0 SL_BEACON_HEADER_LEN in
      let! ct := load_bytes wire SL_BEACON_HEADER_LEN (bc_payload_len b) in
      let! tag := load_bytes wire (SL_BEACON_HEADER_LEN + bc_payload_len b) SL_AEAD_TAG_LEN in
      let! nonce := sl_nonce_build static_iv seq (replicate 12 0) in
      let '(rc, w) := sl_aead_open key nonce (Some aad) ct tag in
      let! p := store_bytes (bc_payload b) 0 w in
      if negb (rc =? 0) then Ok (-1, set_payload b (replicate (length p) 0))
      else Ok (0, set_payload b p).

End Beacon.

(** ** Header *)

Definition beacon_header (b : sl_beacon_t) : list Z :=
  be64 (bc_client_id b) ++ be64 (bc_sequence b) ++ be64 (bc_timestamp_ms b)
  ++ be32 (bc_interval_ms b) ++ be16 (bc_payload_len b) ++ be16 (bc_flags b).

Definition beacon_fields (b : sl_beacon_t) : Prop :=
  is_u64 (bc_client_id b) /\ is_u64 (bc_sequence b) /\ is_u64 (bc_timestamp_ms b) /\
  is_u32 (bc_interval_ms b) /\ is_u16 (bc_payload_len b) /\ is_u16 (bc_flags b).

Lemma len_beacon_header b : len (beacon_header b) = 32.
Proof. done. Qed.
#[export] Hint Rewrite len_beacon_header : len.

Ltac beacon_consts :=
  unfold sl_beacon_wire_size, SL_BEACON_HEADER_LEN, SL_BEACON_MAX_PAYLOAD, SL_AEAD_TAG_LEN,
    SL_AEAD_IV_LEN in *.

Lemma beacon_pack_header_spec b out :
  32 <= len out -> sl_beacon_pack_header b out = Ok (beacon_header b ++ drop 32 out).
Proof.
  intros Hl. unfold sl_beacon_pack_header. change out with ([] ++ out) at 1. fill.
  unfold beacon_header. by rewrite <- !app_assoc.
Qed.

Lemma beacon_unpack_header_spec b rest :
  beacon_fields b ->
  sl_beacon_unpack_header (beacon_header b ++ rest) =
  Ok (set_payload b (replicate (Z.to_nat SL_BEACON_MAX_PAYLOAD) 0)).
Proof.
  intros (H1 & H2 & H3 & H4 & H5 & H6). unfold sl_beacon_unpack_header, beacon_header.
  rewrite <- !app_assoc. by repeat read_step.
Qed.

Lemma beacon_header_sound inp :
  bytes_ok inp -> 32 <= len inp ->
  exists b, inp = beacon_header b ++ drop 32 inp /\ beacon_fields b /\
    bc_payload b = replicate (Z.to_nat SL_BEACON_MAX_PAYLOAD) 0.
Proof.
  intros Hb Hl.
  destruct (unpack_u64_sound inp 0) as (v1 & _ & R1 & T1); [done|lia..|].
  destruct (unpack_u64_sound inp 8) as (v2 & _ & R2 & T2); [done|lia..|].
  destruct (unpack_u64_sound inp 16) as (v3 & _ & R3 & T3); [done|lia..|].
  destruct (unpack_u32_sound inp 24) as (v4 & _ & R4 & T4); [done|lia..|].
  destruct (unpack_u16_sound inp 28) as (v5 & _ & R5 & T5); [done|lia..|].
  destruct (unpack_u16_sound inp 30) as (v6 & _ & R6 & T6); [done|lia..|].
  exists (mk_beacon v1 v2 v3 v4 v5 v6 (replicate (Z.to_nat SL_BEACON_MAX_PAYLOAD) 0)).
  split; [|done]. unfold beacon_header. simpl bc_client_id.
  cbn [bc_sequence bc_timestamp_ms bc_interval_ms bc_payload_len bc_flags].
  literal_offset T1. literal_offset T2. literal_offset T3. literal_offset T4.
  literal_offset T5. literal_offset T6. rewrite <- !app_assoc.
  change (drop 32 inp) with (drop (Z.to_nat 32) inp). consume inp.
Qed.

(** ** Seal and open *)

Definition beacon_wire (b : sl_beacon_t) (ct tag : list Z) : list Z := beacon_header b ++ ct ++ tag.

Definition beacon_payload (b : sl_beacon_t) : list Z := take (Z.to_nat (bc_payload_len b)) (bc_payload b).

Definition beacon_ok (b : sl_beacon_t) : Prop :=
  sl_beacon_validate b = 0 /\ len (bc_payload b) = SL_BEACON_MAX_PAYLOAD /\ beacon_fields b.

Lemma beacon_validate_len b : sl_beacon_validate b = 0 -> bc_payload_len b <= 1024.
Proof.
  unfold sl_beacon_validate. beacon_consts. destruct (bc_sequence b =? 0); [done|].
  destruct (Z.ltb_spec 1024 (bc_payload_len b)); [done|]. lia.
Qed.

Section Guarantees.
  Context `{GcmLaws}.

Lemma beacon_seal_run b key iv seq out :
  beacon_ok b -> len iv = SL_AEAD_IV_LEN -> sl_beacon_wire_size b <= len out ->
  match gcm_seal key (nonce_of iv seq) (beacon_header b) (beacon_payload b) with
  | GcmSealed ct tag =>
      sl_beacon_seal b key iv seq out =
      Ok (Some (sl_beacon_wire_size b),
          beacon_wire b ct tag ++ drop (Z.to_nat (sl_beacon_wire_size b)) out)
  | GcmSealError _ => exists out', sl_beacon_seal b key iv seq out = Ok (None, out')
  end.
Proof.
  intros (Hv & Hp & Hf) Hi Hl. pose proof (beacon_validate_len b Hv) as Hm.
  destruct Hf as (_ & _ & _ & _ & Hpl & _).
  assert (Hpo : ptr_ok (Some (bc_payload b)) (bc_payload_len b)).
  { split; [lia|]. intros _. eexists. split; [done|]. beacon_consts. lia. }
  assert (Hplen : len (beacon_payload b) = bc_payload_len b).
  { unfold beacon_payload. rewrite len_take; beacon_consts; lia. }
  unfold sl_beacon_seal. rewrite Hv, nonce_build_spec by done. cbn [Z.eqb negb]. beacon_consts.
  rewrite beacon_pack_header_spec by lia.
  rewrite load_bytes_front, aead_seal_run by done.
  change (ptr_bytes (Some (bc_payload b)) (bc_payload_len b)) with (beacon_payload b).
  destruct (gcm_seal _ _ _ _) as [ct tag|w] eqn:Eg.
  - destruct (gcm_seal_len _ _ _ _ _ _ Eg) as [Hct Htag]. beacon_consts.
    do 2 fill_step. cbn [Z.eqb negb]. unfold beacon_wire. rewrite <- !app_assoc.
    do 6 f_equal. unfold len in *. lia.
  - apply gcm_seal_error_len in Eg. fill_step.
    rewrite store_bytes_in_bounds by len_lia. cbn [Z.eqb negb]. eauto.
Qed.
Definition zero_payload : list Z := replicate (Z.to_nat SL_BEACON_MAX_PAYLOAD) 0.

Lemma beacon_open_run b key iv seq ct tag b0 :
  sl_beacon_validate b = 0 -> beacon_fields b -> len iv = SL_AEAD_IV_LEN ->
  len ct = bc_payload_len b -> len tag = SL_AEAD_TAG_LEN ->
  sl_beacon_open (beacon_wire b ct tag) key iv seq b0 =
  match gcm_open key (nonce_of iv seq) (beacon_header b) ct tag with
  | GcmOpened pt => Ok (0, set_payload b (pt ++ drop (length ct) zero_payload))
  | _ => Ok (-1, set_payload b zero_payload)
  end.
Proof.
  intros Hv Hf Hi Hct Htag. pose proof (beacon_validate_len b Hv) as Hm.
  pose proof (len_nonneg ct).
  unfold sl_beacon_open. rewrite nonce_build_spec by done. unfold beacon_wire.
  rewrite beacon_unpack_header_spec by done. fold zero_payload.
  change (sl_beacon_validate (set_payload b zero_payload)) with (sl_beacon_validate b).
  change (sl_beacon_wire_size (set_payload b zero_payload)) with (sl_beacon_wire_size b).
  rewrite Hv, load_bytes_front by done. unfold set_payload at 2 3 4 5.
  cbn [bc_payload_len bc_payload]. beacon_consts. rewrite !len_app, len_beacon_header.
  repeat first [test_step | read_step]. cbn [Z.eqb negb].
  destruct (sl_aead_open key _ _ ct tag) as [rc w] eqn:Eo.
  pose proof (aead_open_len _ _ _ _ _ _ _ Htag Eo) as Hw.
  assert (Hz : len zero_payload = 1024) by (unfold zero_payload; rewrite len_replicate; beacon_consts; lia).
  rewrite store_bytes_0 by lia. unfold sl_aead_open in Eo. cbn [default from_option] in Eo.
  assert (Hlen : replicate (length (w ++ drop (length w) zero_payload)) 0 = zero_payload).
  { unfold zero_payload at 2. f_equal. rewrite length_app, length_drop. unfold len in *.
    beacon_consts. lia. }
  destruct (gcm_open _ _ _ ct tag) eqn:Eg; simplify_eq; cbn [Z.eqb negb].
  - apply gcm_open_len in Eg; [|done]. do 5 f_equal. unfold len in Eg. lia.
  - by rewrite Hlen.
  - by rewrite Hlen.
Qed.

(** Every input is refused before decryption, with the struct untouched or its payload
    zeroed, or has the layout. *)
Lemma beacon_parse wire key iv seq b0 :
  bytes_ok wire -> len iv = SL_AEAD_IV_LEN ->
  (exists b, sl_beacon_open wire key iv seq b0 = Ok (-1, b) /\ (b = b0 \/ bc_payload b = zero_payload)) \/
  exists b ct tag, wire = beacon_wire b ct tag /\ sl_beacon_validate b = 0 /\ beacon_fields b /\
    bc_payload b = zero_payload /\ len ct = bc_payload_len b /\ len tag = SL_AEAD_TAG_LEN.
Proof.
  intros Hb Hi. unfold sl_beacon_open.
  destruct (Z.ltb_spec (len wire) (SL_BEACON_HEADER_LEN + SL_AEAD_TAG_LEN)); [left; eauto|].
  beacon_consts. destruct (beacon_header_sound wire Hb) as (b & E & Hf & Hp); [lia|].
  assert (Eu : sl_beacon_unpack_header wire = Ok b).
  { rewrite E, beacon_unpack_header_spec by done. f_equal. destruct b. simpl in *. by subst. }
  rewrite Eu. destruct (Z.eqb_spec (sl_beacon_validate b) 0) as [Hv|Hv]; cbn [negb]; [|left; eauto].
  destruct (Z.eqb_spec (len wire) (32 + bc_payload_len b + 16)) as [Hl|Hl]; cbn [negb]; [|left; eauto].
  right. destruct Hf as (? & ? & ? & ? & Hpl & ?).
  exists b, (take (Z.to_nat (bc_payload_len b)) (drop 32 wire)),
    (drop (Z.to_nat (bc_payload_len b)) (drop 32 wire)).
  assert (len (drop 32 wire) = len wire - 32) by (change 32%nat with (Z.to_nat 32); rewrite len_drop; lia).
  split_and!; try done.
  - unfold beacon_wire. by rewrite take_drop.
  - rewrite len_take; lia.
  - rewrite len_drop; lia.
Qed.

End Guarantees.

(** A beacon that was sealed opens to the same fields and payload. *)
Theorem beacon_seal_open_roundtrip `{GcmLaws} (b b0 : sl_beacon_t) (key iv out out' : list Z) (seq n : Z) :
  beacon_ok b -> len iv = SL_AEAD_IV_LEN -> sl_beacon_wire_size b <= len out ->
  sl_beacon_seal b key iv seq out = Ok (Some n, out') ->
  n = sl_beacon_wire_size b /\
  sl_beacon_open (take (Z.to_nat n) out') key iv seq b0 =
    Ok (0, set_payload b (beacon_payload b ++ drop (length (beacon_payload b)) zero_payload)).
Proof.
  intros Hok Hi Hl Hs. pose proof (beacon_seal_run b key iv seq out Hok Hi Hl) as Hrun.
  destruct (gcm_seal _ _ _ _) as [ct tag|w] eqn:Eg.
  - assert (n = sl_beacon_wire_size b) as -> by congruence. split; [done|].
    assert (out' = beacon_wire b ct tag ++ drop (Z.to_nat (sl_beacon_wire_size b)) out) as ->
      by congruence.
    destruct (gcm_seal_len _ _ _ _ _ _ Eg) as [Hct Htag]. destruct Hok as (Hv & Hp & Hf).
    pose proof (beacon_validate_len b Hv) as Hm. destruct Hf as (? & ? & ? & ? & Hpl & ?).
    assert (Hpy : len (beacon_payload b) = bc_payload_len b).
    { unfold beacon_payload. rewrite len_take; beacon_consts; lia. }
    rewrite take_app_exact.
    + rewrite beacon_open_run by (done || lia). rewrite (gcm_open_seal _ _ _ _ _ _ Eg).
      do 5 f_equal. unfold len in Hct. lia.
    + unfold beacon_wire. rewrite !len_app, len_beacon_header. beacon_consts. lia.
  - destruct Hrun as (o & E). congruence.
Qed.

Definition sample_beacon : sl_beacon_t :=
  mk_beacon 77 5 1000 30000 3 SL_BEACON_FLAG_LAST ([1; 2; 3] ++ replicate 1021 9).

Example beacon_seal_open_roundtrip_witness :
  exists out', sl_beacon_seal sample_beacon [4] (replicate 12 1) 9 (replicate 51 0) = Ok (Some 51, out') /\
  sl_beacon_open (take (Z.to_nat 51) out') [4] (replicate 12 1) 9 sample_beacon =
    Ok (0, set_payload sample_beacon ([1; 2; 3] ++ drop 3 zero_payload)).
Proof.
  eexists. split; [vm_compute; reflexivity|].
  eapply (beacon_seal_open_roundtrip sample_beacon sample_beacon [4] (replicate 12 1) (replicate 51 0) _ 9).
  - unfold beacon_ok, beacon_fields. repeat split; vm_compute; congruence.
  - reflexivity.
  - vm_compute. discriminate.
  - vm_compute. reflexivity.
Defined.

(** On any bytes from the network, opening a beacon stays in bounds; what it accepts is
    exactly what sealing the returned beacon under the same key, IV and number produces;
    and whatever it refuses leaves no decrypted payload in the caller's struct. *)
Theorem beacon_open_authentic `{GcmLaws} (wire key iv out : list Z) (seq : Z) (b0 : sl_beacon_t) :
  bytes_ok wire -> len iv = SL_AEAD_IV_LEN -> len out = len wire ->
  exists rc b, sl_beacon_open wire key iv seq b0 = Ok (rc, b) /\
    (rc = 0 -> sl_beacon_validate b = 0 /\
               sl_beacon_seal b key iv seq out = Ok (Some (len wire), wire)) /\
    (rc <> 0 -> b = b0 \/ bc_payload b = zero_payload).
Proof.
  intros Hb Hi Hlo.
  destruct (beacon_parse wire key iv seq b0 Hb Hi)
    as [(b & -> & Hc)|(b & ct & tag & -> & Hv & Hf & Hp & Hct & Htag)].
  { exists (-1), b. split_and!; [done|lia|done]. }
  rewrite beacon_open_run by done. pose proof (beacon_validate_len b Hv) as Hm.
  destruct (gcm_open _ _ _ ct tag) eqn:Eg.
  - eexists _, _. split_and!; [reflexivity| |lia]. intros _. split; [exact Hv|].
    pose proof (gcm_open_len _ _ _ _ _ _ Htag Eg) as Hpl. apply gcm_seal_open in Eg; [|done].
    set (b' := set_payload b (pt ++ drop (length ct) zero_payload)).
    assert (Hpay : beacon_payload b' = pt).
    { unfold beacon_payload, b'. simpl. rewrite (take_app_exact (bc_payload_len b)) by lia. done. }
    assert (Hwl : len (beacon_wire b ct tag) = sl_beacon_wire_size b').
    { unfold beacon_wire. rewrite !len_app, len_beacon_header. unfold b'. beacon_consts. simpl. lia. }
    assert (Hok : beacon_ok b').
    { split; [exact Hv|]. split; [|exact Hf]. unfold b'. simpl. pose proof (len_nonneg ct).
      assert (len zero_payload = 1024) by (unfold zero_payload; rewrite len_replicate; beacon_consts; lia).
      beacon_consts. unfold len in *. rewrite length_app, length_drop. lia. }
    pose proof (beacon_seal_run b' key iv seq out Hok Hi ltac:(lia)) as Hrun.
    rewrite Hpay in Hrun. change (beacon_header b') with (beacon_header b) in Hrun. rewrite Eg in Hrun.
    rewrite Hrun, Hwl, drop_ge, app_nil_r by (unfold len in *; lia). done.
  - eexists _, _. split_and!; [reflexivity|lia|by right].
  - eexists _, _. split_and!; [reflexivity|lia|by right].
Qed.

Example beacon_open_authentic_witness :
  let wire := beacon_header sample_beacon ++ replicate 19 200 in
  exists rc b, sl_beacon_open wire [4] (replicate 12 1) 9 sample_beacon = Ok (rc, b) /\
    (rc = 0 -> sl_beacon_validate b = 0 /\
               sl_beacon_seal b [4] (replicate 12 1) 9 (replicate 51 0) = Ok (Some (len wire), wire)) /\
    (rc <> 0 -> b = sample_beacon \/ bc_payload b = zero_payload).
Proof.
  apply (beacon_open_authentic (beacon_header sample_beacon ++ replicate 19 200) [4] (replicate 12 1)
           (replicate 51 0) 9 sample_beacon).
  - by_deciding.
  - reflexivity.
  - reflexivity.
Defined.
