(* ===== verification/BeaconAck.v ===== *)
(** Beacon acknowledgements ([src/sl_beacon_ack.c], [src/sl_beacon_ack_codec.c]): 32
    authenticated bytes with a tag and no ciphertext. *)

From S2P Require Import Prelude ByteOrder Codec Mem Aead.
Local Open Scope Z_scope.

(* src/inc/sl_beacon_ack.h:25-25 *)
Definition SL_BEACON_ACK_HEADER_LEN : Z := 32.

(* src/inc/sl_beacon_ack_codec.h:16-16 *)
Definition SL_BEACON_ACK_WIRE_LEN : Z := SL_BEACON_ACK_HEADER_LEN + SL_AEAD_TAG_LEN.

(* src/inc/sl_beacon_ack.h:27-33 sl_ack_status_t *)
Definition SL_ACK_OK : Z := 0.
Definition SL_ACK_RATE_LIMITED : Z := 1.
Definition SL_ACK_BACKOFF : Z := 2.
Definition SL_ACK_REKEY_REQUIRED : Z := 3.
Definition SL_ACK_SHUTDOWN : Z := 4.

(* src/inc/sl_beacon_ack.h:35-42 *)
Record sl_beacon_ack_t := mk_ack {
  ak_client_id : Z;
  ak_ack_sequence : Z;
  ak_server_time_ms : Z;
  ak_status : Z;
  ak_reserved : Z;
  ak_suggested_interval_ms : Z
}.

(* src/src/sl_beacon_ack.c:35-44 *)
Definition sl_beacon_ack_pack (a : sl_beacon_ack_t) (out : list Z) : M (list Z) :=
  let! out := pack_u64_be out 0 (ak_client_id a) in
  let! out := pack_u64_be out 8 (ak_ack_sequence a) in
  let! out := pack_u64_be out 16 (ak_server_time_ms a) in
  let! out := pack_u16 out 24 (ak_status a) in
  let! out := pack_u16 out 26 0 in
  pack_u32_be out 28 (ak_suggested_interval_ms a).

(* src/src/sl_beacon_ack.c:46-55 *)
Definition sl_beacon_ack_unpack (inp : list Z) : M sl_beacon_ack_t :=
  let! client_id := unpack_u64_be inp 0 in
  let! ack_sequence := unpack_u64_be inp 8 in
  let! server_time := unpack_u64_be inp 16 in
  let! status := unpack_u16 inp 24 in
  let! reserved := unpack_u16 inp 26 in
  let! interval := unpack_u32_be inp 28 in
  Ok (mk_ack client_id ack_sequence server_time status reserved interval).

(* src/src/sl_beacon_ack.c:57-68 *)
Definition sl_beacon_ack_validate (a : sl_beacon_ack_t) : Z :=
  if negb (ak_reserved a =? 0) then -1
  else if ak_ack_sequence a =? 0 then -1
  else if SL_ACK_SHUTDOWN <? ak_status a then -1
  else if negb (ak_suggested_interval_ms a =? 0) &&
          ((ak_suggested_interval_ms a <? 100) || (600000 <? ak_suggested_interval_ms a)) then -1
  else 0.

Section Ack.
  Context `{Gcm}.

(** Returns the code and the buffer. *)
(* src/src/sl_beacon_ack_codec.c:8-30 *)
Definition sl_beacon_ack_seal (a : sl_beacon_ack_t) (key static_iv : list Z) (seq : Z) (out : list Z)
  : M (Z * list Z) :=
  if negb (sl_beacon_ack_validate a =? 0) then Ok (-1, out)
  else
    let! out := sl_beacon_ack_pack a out in
    let! nonce := sl_nonce_build static_iv seq (replicate 12 0) in
    let! aad := load_bytes out 0 SL_BEACON_ACK_HEADER_LEN in
    let! '(rc, ct, tag) := sl_aead_seal key nonce (Some aad) None 0 in
    let! out := store_bytes out SL_BEACON_ACK_HEADER_LEN tag in
    Ok (rc, out).

Definition zero_ack : sl_beacon_ack_t := mk_ack 0 0 0 0 0 0.

(** Returns the code and the caller's struct: a refused tag zeroes it. *)
(* src/src/sl_beacon_ack_codec.c:32-57 *)
Definition sl_beacon_ack_open (wire key static_iv : list Z) (seq : Z) : M (Z * sl_beacon_ack_t) :=
  let! a := sl_beacon_ack_unpack wire in
  if negb (sl_beacon_ack_validate a =? 0) then Ok (-1, a)
  else
    let! tag := load_bytes wire SL_BEACON_ACK_HEADER_LEN SL_AEAD_TAG_LEN in
    let! nonce := sl_nonce_build static_iv seq (replicate 12 0) in
    let! aad := load_bytes wire 0 SL_BEACON_ACK_HEADER_LEN in
    let '(rc, _) := sl_aead_open key nonce (Some aad) [] tag in
    if negb (rc =? 0) then Ok (-1, zero_ack) else Ok (0, a).

End Ack.

(** ** Layout *)

Definition ack_header (a : sl_beacon_ack_t) : list Z :=
  be64 (ak_client_id a) ++ be64 (ak_ack_sequence a) ++ be64 (ak_server_time_ms a)
  ++ be16 (ak_status a) ++ be16 0 ++ be32 (ak_suggested_interval_ms a).

Definition ack_fields (a : sl_beacon_ack_t) : Prop :=
  is_u64 (ak_client_id a) /\ is_u64 (ak_ack_sequence a) /\ is_u64 (ak_server_time_ms a) /\
  is_u16 (ak_status a) /\ is_u32 (ak_suggested_interval_ms a).

Lemma len_ack_header a : len (ack_header a) = 32.
Proof. done. Qed.
#[export] Hint Rewrite len_ack_header : len.

Ltac ack_consts := unfold SL_BEACON_ACK_WIRE_LEN, SL_BEACON_ACK_HEADER_LEN, SL_AEAD_TAG_LEN, SL_AEAD_IV_LEN in *.

Lemma ack_validate_reserved a : sl_beacon_ack_validate a = 0 -> ak_reserved a = 0.
Proof. unfold sl_beacon_ack_validate. destruct (Z.eqb_spec (ak_reserved a) 0); done. Qed.

Lemma ack_pack_spec a out :
  32 <= len out -> sl_beacon_ack_pack a out = Ok (ack_header a ++ drop 32 out).
Proof.
  intros Hl. unfold sl_beacon_ack_pack. change out with ([] ++ out) at 1. fill.
  unfold ack_header. by rewrite <- !app_assoc.
Qed.

Lemma ack_unpack_spec a rest :
  ack_fields a -> ak_reserved a = 0 -> sl_beacon_ack_unpack (ack_header a ++ rest) = Ok a.
Proof.
  intros (H1 & H2 & H3 & H4 & H5) Hr. unfold sl_beacon_ack_unpack, ack_header.
  rewrite <- !app_assoc. repeat read_step. destruct a. simpl in *. by subst.
Qed.

Lemma ack_unpack_sound inp :
  bytes_ok inp -> 32 <= len inp ->
  returns (sl_beacon_ack_unpack inp) (fun a => ack_fields a /\
    (ak_reserved a = 0 -> inp = ack_header a ++ drop 32 inp)).
Proof.
  intros Hb Hl. unfold sl_beacon_ack_unpack. repeat sound_step. apply returns_ok.
  split; [done|]. simpl. intros ->. unfold ack_header.
  cbn [ak_client_id ak_ack_sequence ak_server_time_ms ak_status ak_suggested_interval_ms].
  change (drop 32 inp) with (drop (Z.to_nat 32) inp). by consume inp.
Qed.

(** ** Guarantees *)

Section Guarantees.
  Context `{GcmLaws}.

Lemma ack_seal_run a key iv seq out :
  sl_beacon_ack_validate a = 0 -> len iv = SL_AEAD_IV_LEN -> len out = 48 ->
  match gcm_seal key (nonce_of iv seq) (ack_header a) [] with
  | GcmSealed ct tag => sl_beacon_ack_seal a key iv seq out = Ok (0, ack_header a ++ tag)
  | GcmSealError _ => exists out', sl_beacon_ack_seal a key iv seq out = Ok (-1, out')
  end.
Proof.
  intros Hv Hi Hl. unfold sl_beacon_ack_seal. rewrite Hv, nonce_build_spec by done.
  cbn [Z.eqb negb]. ack_consts. rewrite ack_pack_spec by lia.
  rewrite load_bytes_front, aead_seal_run by (done || (split; [lia|]; lia)).
  change (ptr_bytes None 0) with (@nil Z).
  destruct (gcm_seal _ _ _ _) as [ct tag|w] eqn:Eg.
  - destruct (gcm_seal_len _ _ _ _ _ _ Eg) as [_ Htag]. ack_consts. fill_step.
    rewrite drop_ge, app_nil_r by (unfold len in *; lia). done.
  - rewrite store_bytes_in_bounds by len_lia. eauto.
Qed.

Lemma ack_open_run a key iv seq tag :
  sl_beacon_ack_validate a = 0 -> ack_fields a -> len iv = SL_AEAD_IV_LEN ->
  len tag = SL_AEAD_TAG_LEN ->
  sl_beacon_ack_open (ack_header a ++ tag) key iv seq =
  match gcm_open key (nonce_of iv seq) (ack_header a) [] tag with
  | GcmOpened _ => Ok (0, a)
  | _ => Ok (-1, zero_ack)
  end.
Proof.
  intros Hv Hf Hi Htag. unfold sl_beacon_ack_open.
  rewrite ack_unpack_spec, Hv, nonce_build_spec by (done || by apply ack_validate_reserved).
  rewrite load_bytes_front by done. cbn [Z.eqb negb]. ack_consts. read_step.
  unfold sl_aead_open. cbn [default from_option]. by destruct (gcm_open _ _ _ [] tag).
Qed.

Lemma ack_seal_opens a key iv seq out wire :
  ack_fields a -> len iv = SL_AEAD_IV_LEN -> len out = 48 ->
  sl_beacon_ack_seal a key iv seq out = Ok (0, wire) ->
  sl_beacon_ack_open wire key iv seq = Ok (0, a).
Proof.
  intros Hf Hi Ho Hs. assert (Hv : sl_beacon_ack_validate a = 0).
  { unfold sl_beacon_ack_seal in Hs. by destruct (Z.eqb_spec (sl_beacon_ack_validate a) 0). }
  pose proof (ack_seal_run a key iv seq out Hv Hi Ho) as Hrun.
  destruct (gcm_seal _ _ _ _) as [ct tag|w] eqn:Eg; [|destruct Hrun; congruence].
  assert (wire = ack_header a ++ tag) as -> by congruence.
  destruct (gcm_seal_len _ _ _ _ _ _ Eg) as [Hct Htag]. rewrite (len_0_nil ct) in Eg by done.
  apply gcm_open_seal in Eg. by rewrite ack_open_run, Eg.
Qed.

End Guarantees.

(** Opening an acknowledgement never leaves the 48 bytes it is given. It accepts
    exactly what was sealed: if it accepts, sealing the returned fields under the same key,
    IV and number gives those bytes; and every sealed acknowledgement opens to its own
    fields. A refused tag leaves a zeroed struct. *)
Theorem beacon_ack_authentic `{GcmLaws} (wire key iv out : list Z) (seq : Z) :
  bytes_ok wire -> len wire = SL_BEACON_ACK_WIRE_LEN -> len iv = SL_AEAD_IV_LEN ->
  len out = SL_BEACON_ACK_WIRE_LEN ->
  exists rc a, sl_beacon_ack_open wire key iv seq = Ok (rc, a) /\
    (rc = 0 -> sl_beacon_ack_seal a key iv seq out = Ok (0, wire)) /\
    (forall a', ack_fields a' -> sl_beacon_ack_seal a' key iv seq out = Ok (0, wire) ->
       rc = 0 /\ a = a') /\
    (rc <> 0 -> a = zero_ack \/ sl_beacon_ack_validate a = -1).
Proof.
  ack_consts. intros Hb Hw Hi Ho.
  assert (Hopens : forall a', ack_fields a' -> sl_beacon_ack_seal a' key iv seq out = Ok (0, wire) ->
            sl_beacon_ack_open wire key iv seq = Ok (0, a')) by (intros; by eapply ack_seal_opens).
  destruct (ack_unpack_sound wire Hb ltac:(lia)) as (a & Eu & Hf & Hshape).
  assert (exists rc a, sl_beacon_ack_open wire key iv seq = Ok (rc, a) /\
    (rc = 0 -> sl_beacon_ack_seal a key iv seq out = Ok (0, wire)) /\
    (rc <> 0 -> a = zero_ack \/ sl_beacon_ack_validate a = -1)) as (rc & a1 & E & H1 & H2).
  { destruct (Z.eqb_spec (sl_beacon_ack_validate a) 0) as [Hv|Hv].
    - specialize (Hshape (ack_validate_reserved a Hv)).
      assert (Htag : len (drop 32 wire) = SL_AEAD_TAG_LEN).
      { change 32%nat with (Z.to_nat 32). rewrite len_drop; ack_consts; lia. }
      pose proof (ack_open_run a key iv seq (drop 32 wire) Hv Hf Hi Htag) as Hrun.
      rewrite <- Hshape in Hrun. pose proof (ack_seal_run a key iv seq out Hv Hi Ho) as Hseal.
      destruct (gcm_open _ _ _ _ _) as [pt|w|w] eqn:Eg; rewrite Hrun; eexists _, _;
        (split; [reflexivity|]); [|split; [lia|by left]..].
      pose proof (gcm_open_len _ _ _ _ _ _ Htag Eg) as Hl. apply gcm_seal_open in Eg; [|done].
      rewrite (len_0_nil pt) in Eg by done. rewrite Eg in Hseal. split; [congruence|lia].
    - unfold sl_beacon_ack_open. rewrite Eu, (proj2 (Z.eqb_neq _ _)) by done. cbn [negb].
      eexists _, _. split; [reflexivity|]. split; [lia|]. intros _. right.
      revert Hv. unfold sl_beacon_ack_validate. repeat case_match; done. }
  exists rc, a1. split_and!; [done|done| |done].
  intros a' Hf' Hs. specialize (Hopens a' Hf' Hs). split; congruence.
Qed.

Definition sample_ack : sl_beacon_ack_t := mk_ack 77 5 1000 SL_ACK_BACKOFF 0 5000.

Example beacon_ack_authentic_witness :
  exists wire, sl_beacon_ack_seal sample_ack [4] (replicate 12 1) 9 (replicate 48 0) = Ok (0, wire) /\
  exists rc a, sl_beacon_ack_open wire [4] (replicate 12 1) 9 = Ok (rc, a) /\
    (rc = 0 -> sl_beacon_ack_seal a [4] (replicate 12 1) 9 (replicate 48 0) = Ok (0, wire)) /\
    (forall a', ack_fields a' ->
       sl_beacon_ack_seal a' [4] (replicate 12 1) 9 (replicate 48 0) = Ok (0, wire) ->
       rc = 0 /\ a = a') /\
    (rc <> 0 -> a = zero_ack \/ sl_beacon_ack_validate a = -1).
Proof.
  eexists. split; [vm_compute; reflexivity|]. apply beacon_ack_authentic.
  - by_deciding.
  - reflexivity.
  - reflexivity.
  - reflexivity.
Defined.
