(* ===== verification/Ticket.v ===== *)
(** Session tickets ([inc/sl_session_ticket.h], [src/sl_session_ticket.c]): a resumption
    secret and the peer's identity, sealed by the server for itself under a random IV. *)

From S2P Require Import Prelude ByteOrder Codec Mem Aead.
Local Open Scope Z_scope.

(* src/inc/sl_session_ticket.h:28-28 *)
Definition SL_TICKET_PT_LEN : Z := 72.
(* src/inc/sl_session_ticket.h:29-29 *)
Definition SL_TICKET_IV_LEN : Z := 12.
(* src/inc/sl_session_ticket.h:30-30 *)
Definition SL_TICKET_TAG_LEN : Z := 16.
(* src/inc/sl_session_ticket.h:31-31 *)
Definition SL_TICKET_TOTAL_LEN : Z := SL_TICKET_IV_LEN + SL_TICKET_PT_LEN + SL_TICKET_TAG_LEN.

(* src/inc/sl_session_ticket.h:33-38 *)
Record sl_ticket_body_t := mk_ticket {
  tk_issued_at_s : Z;
  tk_lifetime_s : Z;
  tk_resumption_secret : list Z;
  tk_peer_identity_pub : list Z
}.

(* src/src/sl_session_ticket.c:19-24 *)
Definition pack_body (b : sl_ticket_body_t) (pt : list Z) : M (list Z) :=
  let! pt := pack_u32_be pt 0 (tk_issued_at_s b) in
  let! pt := pack_u32_be pt 4 (tk_lifetime_s b) in
  let! s := load_bytes (tk_resumption_secret b) 0 32 in
  let! pt := store_bytes pt 8 s in
  let! p := load_bytes (tk_peer_identity_pub b) 0 32 in
  store_bytes pt (8 + 32) p.

(* src/src/sl_session_ticket.c:26-31 *)
Definition unpack_body (pt : list Z) : M sl_ticket_body_t :=
  let! issued := unpack_u32_be pt 0 in
  let! lifetime := unpack_u32_be pt 4 in
  let! s := load_bytes pt 8 32 in
  let! p := load_bytes pt (8 + 32) 32 in
  Ok (mk_ticket issued lifetime s p).

Section Ticket.
  Context `{Gcm}.

(** [rnd] is what [sl_rng_bytes(out, 12)] delivers; [None] is its failure. *)
(* src/src/sl_session_ticket.c:33-56 *)
Definition sl_ticket_seal (stk : list Z) (body : sl_ticket_body_t) (rnd : option (list Z))
    (out : list Z) : M (Z * list Z) :=
  let! pt := pack_body body (replicate (Z.to_nat SL_TICKET_PT_LEN) 0) in
  match rnd with
  | None => Ok (-1, out)
  | Some r =>
      let! out := store_bytes out 0 r in
      let! iv := load_bytes out 0 SL_TICKET_IV_LEN in
      let! '(rc, ct, tag) := sl_aead_seal stk iv (Some iv) (Some pt) SL_TICKET_PT_LEN in
      let! out := store_bytes out SL_TICKET_IV_LEN ct in
      let! out := store_bytes out (SL_TICKET_IV_LEN + SL_TICKET_PT_LEN) tag in
      Ok (rc, out)
  end.

Definition zero_ticket : sl_ticket_body_t := mk_ticket 0 0 (replicate 32 0) (replicate 32 0).

(** Returns the code and the caller's struct; failure zeroes it. *)
(* src/src/sl_session_ticket.c:58-80 *)
Definition sl_ticket_open (stk wire : list Z) : M (Z * sl_ticket_body_t) :=
  let! iv := load_bytes wire 0 SL_TICKET_IV_LEN in
  let! ct := load_bytes wire SL_TICKET_IV_LEN SL_TICKET_PT_LEN in
  let! tag := load_bytes wire (SL_TICKET_IV_LEN + SL_TICKET_PT_LEN) SL_TICKET_TAG_LEN in
  let '(rc, w) := sl_aead_open stk iv (Some iv) ct tag in
  let! pt := store_bytes (replicate (Z.to_nat SL_TICKET_PT_LEN) 0) 0 w in
  if negb (rc =? 0) then Ok (-1, zero_ticket)
  else let! b := unpack_body pt in Ok (0, b).

End Ticket.

(* src/src/sl_session_ticket.c:82-86 *)
Definition sl_ticket_is_fresh (body : sl_ticket_body_t) (now_s : Z) : bool :=
  if tk_lifetime_s body =? 0 then false
  else if now_s <? tk_issued_at_s body then false
  else u32 (now_s - tk_issued_at_s body) <? tk_lifetime_s body.

(** ** Layout *)

Definition ticket_pt (b : sl_ticket_body_t) : list Z :=
  be32 (tk_issued_at_s b) ++ be32 (tk_lifetime_s b) ++ tk_resumption_secret b ++ tk_peer_identity_pub b.

Definition ticket_ok (b : sl_ticket_body_t) : Prop :=
  is_u32 (tk_issued_at_s b) /\ is_u32 (tk_lifetime_s b) /\
  len (tk_resumption_secret b) = 32 /\ len (tk_peer_identity_pub b) = 32.

Ltac ticket_consts :=
  unfold SL_TICKET_TOTAL_LEN, SL_TICKET_PT_LEN, SL_TICKET_IV_LEN, SL_TICKET_TAG_LEN, SL_AEAD_TAG_LEN in *.

Lemma len_ticket_pt b : ticket_ok b -> len (ticket_pt b) = 72.
Proof. intros (_ & _ & H1 & H2). unfold ticket_pt. autorewrite with len. lia. Qed.

Lemma load_all (l : list Z) n : n = len l -> load_bytes l 0 n = Ok l.
Proof. intros ->. rewrite <- (app_nil_r l) at 1. by apply load_bytes_front. Qed.

Lemma pack_body_spec b buf : ticket_ok b -> len buf = 72 -> pack_body b buf = Ok (ticket_pt b).
Proof.
  intros (_ & _ & H1 & H2) Hl. unfold pack_body.
  rewrite (load_all (tk_resumption_secret b)), (load_all (tk_peer_identity_pub b)) by done.
  change buf with ([] ++ buf) at 1. fill. f_equal. unfold ticket_pt.
  rewrite drop_ge, app_nil_r, <- !app_assoc by (unfold len in *; lia). done.
Qed.

Lemma unpack_body_spec b : ticket_ok b -> unpack_body (ticket_pt b) = Ok b.
Proof.
  intros (Hi & Hl & H1 & H2). unfold unpack_body, ticket_pt. repeat read_step. by destruct b.
Qed.

Lemma unpack_body_sound pt :
  bytes_ok pt -> len pt = 72 ->
  returns (unpack_body pt) (fun b => ticket_ok b /\ pt = ticket_pt b).
Proof.
  intros Hb Hl. unfold unpack_body. repeat sound_step. apply returns_ok. split; [done|].
  unfold ticket_pt. cbn [tk_issued_at_s tk_lifetime_s tk_resumption_secret tk_peer_identity_pub].
  literal_offset T2. rewrite (drop_ge pt (Z.to_nat 72)), app_nil_r in T2 by (unfold len in Hl; lia).
  by consume pt.
Qed.

(** ** Guarantees *)

Section Guarantees.
  Context `{GcmLaws}.

Lemma ticket_seal_run stk b iv out :
  ticket_ok b -> len iv = SL_TICKET_IV_LEN -> len out = SL_TICKET_TOTAL_LEN ->
  match gcm_seal stk iv iv (ticket_pt b) with
  | GcmSealed ct tag => sl_ticket_seal stk b (Some iv) out = Ok (0, iv ++ ct ++ tag)
  | GcmSealError _ => exists out', sl_ticket_seal stk b (Some iv) out = Ok (-1, out')
  end.
Proof.
  ticket_consts. intros Hb Hi Ho. unfold sl_ticket_seal. ticket_consts.
  rewrite pack_body_spec by (done || len_lia). pose proof (len_ticket_pt b Hb) as Hp.
  rewrite store_bytes_0 by lia. cbv beta iota. rewrite load_bytes_front by done.
  rewrite aead_seal_run by (split; [lia|]; intros _; eexists; split; [done|lia]).
  assert (ptr_bytes (Some (ticket_pt b)) 72 = ticket_pt b) as ->.
  { unfold ptr_bytes. cbn [default from_option]. apply firstn_all2. unfold len in Hp. lia. }
  destruct (gcm_seal _ _ _ _) as [ct tag|w] eqn:Eg.
  - destruct (gcm_seal_len _ _ _ _ _ _ Eg) as [Hct Htag]. ticket_consts. fill.
    rewrite drop_ge, app_nil_r, <- app_assoc by (unfold len in *; lia). done.
  - pose proof (gcm_seal_error_len _ _ _ _ _ Eg).
    destruct (store_bytes_fits (iv ++ drop (length iv) out) 12 w) as (o1 & -> & Hl1); [lia|len_lia|].
    destruct (store_bytes_fits o1 (12 + 72) []) as (o2 & -> & _); [lia|len_lia|]. eauto.
Qed.

Lemma ticket_open_run stk iv ct tag :
  len iv = SL_TICKET_IV_LEN -> len ct = SL_TICKET_PT_LEN -> len tag = SL_TICKET_TAG_LEN ->
  match gcm_open stk iv iv ct tag with
  | GcmOpened pt => sl_ticket_open stk (iv ++ ct ++ tag) = let! b := unpack_body pt in Ok (0, b)
  | _ => sl_ticket_open stk (iv ++ ct ++ tag) = Ok (-1, zero_ticket)
  end.
Proof.
  intros Hi Hc Ht. unfold sl_ticket_open. ticket_consts. repeat read_step.
  destruct (sl_aead_open stk iv (Some iv) ct tag) as [rc w] eqn:Eo.
  pose proof (aead_open_len _ _ _ _ _ _ _ Ht Eo) as Hw. cbv beta iota.
  rewrite store_bytes_0 by len_lia. cbv beta iota. revert Eo. unfold sl_aead_open. simpl default.
  destruct (gcm_open _ _ _ _ _) as [pt|w'|w'] eqn:Eg; intros Eo.
  - assert (rc = 0) as -> by congruence. assert (w = pt) as -> by congruence. cbn [Z.eqb negb].
    pose proof (gcm_open_len _ _ _ _ _ _ Ht Eg).
    by rewrite drop_ge, app_nil_r by (rewrite length_replicate; unfold len in *; lia).
  - by assert (rc = -1) as -> by congruence.
  - by assert (rc = -1) as -> by congruence.
Qed.

Lemma ticket_seal_opens stk b iv out wire :
  ticket_ok b -> len iv = SL_TICKET_IV_LEN -> len out = SL_TICKET_TOTAL_LEN ->
  sl_ticket_seal stk b (Some iv) out = Ok (0, wire) -> sl_ticket_open stk wire = Ok (0, b).
Proof.
  intros Hb Hi Ho Hs. pose proof (ticket_seal_run stk b iv out Hb Hi Ho) as Hrun.
  destruct (gcm_seal _ _ _ _) as [ct tag|w] eqn:Eg; [|destruct Hrun; congruence].
  assert (wire = iv ++ ct ++ tag) as -> by congruence.
  destruct (gcm_seal_len _ _ _ _ _ _ Eg) as [Hct Htag]. rewrite len_ticket_pt in Hct by done.
  pose proof (ticket_open_run stk iv ct tag Hi Hct Htag) as Hop.
  by rewrite (gcm_open_seal _ _ _ _ _ _ Eg), unpack_body_spec in Hop.
Qed.

End Guarantees.

(** Tickets are the server's own: whatever 100 bytes a client presents, opening them
    stays in bounds; it accepts only a ticket that sealing the returned body under the same
    key and the IV in front produces, and it accepts every such ticket with that body. A
    refused ticket leaves an all-zero body, which is never fresh. *)
Theorem ticket_authentic `{GcmLaws} (stk wire out : list Z) (now : Z) :
  bytes_ok wire -> len wire = SL_TICKET_TOTAL_LEN -> len out = SL_TICKET_TOTAL_LEN ->
  exists rc b, sl_ticket_open stk wire = Ok (rc, b) /\
    (rc = 0 -> ticket_ok b /\
       sl_ticket_seal stk b (Some (take 12 wire)) out = Ok (0, wire)) /\
    (forall b' iv, ticket_ok b' -> len iv = SL_TICKET_IV_LEN ->
       sl_ticket_seal stk b' (Some iv) out = Ok (0, wire) -> rc = 0 /\ b = b') /\
    (rc <> 0 -> b = zero_ticket /\ sl_ticket_is_fresh b now = false).
Proof.
  intros Hb Hw Ho.
  assert (Hopens : forall b' iv, ticket_ok b' -> len iv = SL_TICKET_IV_LEN ->
     sl_ticket_seal stk b' (Some iv) out = Ok (0, wire) -> sl_ticket_open stk wire = Ok (0, b'))
    by (intros; by eapply ticket_seal_opens).
  destruct (load_bytes_sound wire 0 12) as (iv & _ & Li & _ & Ti); [ticket_consts; lia..|].
  destruct (load_bytes_sound wire 12 72) as (ct & _ & Lc & Bc & Tc); [ticket_consts; lia..|].
  set (tag := drop (Z.to_nat 84) wire).
  assert (Ht : len tag = 16) by (unfold tag; rewrite len_drop; ticket_consts; lia).
  assert (Hshape : wire = iv ++ ct ++ tag) by (unfold tag; literal_offset Ti; by consume wire).
  assert (Htake : take 12 wire = iv) by (rewrite Hshape; apply (take_app_exact 12); lia).
  pose proof (ticket_open_run stk iv ct tag Li Lc Ht) as Hrun. rewrite <- Hshape in Hrun.
  destruct (gcm_open stk iv iv ct tag) as [pt|w|w] eqn:Eg.
  - pose proof (gcm_open_len _ _ _ _ _ _ Ht Eg) as Hl. pose proof (gcm_open_bytes _ _ _ _ _ _ (Bc Hb) Eg) as Hbp.
    destruct (unpack_body_sound pt Hbp) as (b & Eu & Hok & Epb); [lia|]. rewrite Eu in Hrun.
    apply gcm_seal_open in Eg; [|done]. rewrite Epb in Eg.
    pose proof (ticket_seal_run stk b iv out Hok Li Ho) as Hs. rewrite Eg, <- Hshape in Hs.
    exists 0, b. rewrite Htake. split_and!; [done|done| |done].
    intros b' iv' Hok' Hi' Hs'. specialize (Hopens b' iv' Hok' Hi' Hs'). split; congruence.
  - exists (-1), zero_ticket. split_and!; [done|done| |done].
    intros b' iv' Hok' Hi' Hs'. specialize (Hopens b' iv' Hok' Hi' Hs'). congruence.
  - exists (-1), zero_ticket. split_and!; [done|done| |done].
    intros b' iv' Hok' Hi' Hs'. specialize (Hopens b' iv' Hok' Hi' Hs'). congruence.
Qed.

(** Freshness is membership in the half-open interval of the ticket's lifetime, without
    the sum of the two ever being formed. *)
Lemma ticket_fresh_spec b now :
  ticket_ok b -> is_u32 now ->
  sl_ticket_is_fresh b now = true <-> tk_issued_at_s b <= now < tk_issued_at_s b + tk_lifetime_s b.
Proof.
  intros (Hi & Hl & _) Hn. unfold sl_ticket_is_fresh.
  destruct (Z.eqb_spec (tk_lifetime_s b) 0); [lia|].
  destruct (Z.ltb_spec now (tk_issued_at_s b)); [lia|].
  rewrite u32_small by lia. rewrite Z.ltb_lt. lia.
Qed.

Definition sample_ticket : sl_ticket_body_t := mk_ticket 1000 3600 (replicate 32 7) (replicate 32 9).

Example ticket_authentic_witness :
  exists wire, sl_ticket_seal [4] sample_ticket (Some (replicate 12 1)) (replicate 100 0) = Ok (0, wire) /\
  exists rc b, sl_ticket_open [4] wire = Ok (rc, b) /\
    (rc = 0 -> ticket_ok b /\
       sl_ticket_seal [4] b (Some (take 12 wire)) (replicate 100 0) = Ok (0, wire)) /\
    (forall b' iv, ticket_ok b' -> len iv = SL_TICKET_IV_LEN ->
       sl_ticket_seal [4] b' (Some iv) (replicate 100 0) = Ok (0, wire) -> rc = 0 /\ b = b') /\
    (rc <> 0 -> b = zero_ticket /\ sl_ticket_is_fresh b 2000 = false).
Proof.
  eexists. split; [vm_compute; reflexivity|]. apply ticket_authentic.
  - by_deciding.
  - reflexivity.
  - reflexivity.
Defined.
