(* ===== verification/Extensions.v ===== *)
(** The extension block of the hello messages ([inc/sl_extensions.h],
    [src/sl_extensions.c]): a fixed table of type-length-value items, filled by the caller,
    written as one length-prefixed block and read back from untrusted bytes. *)

From S2P Require Import Prelude ByteOrder Codec.
Local Open Scope Z_scope.

(* src/inc/sl_extensions.h:28-28 *)
Definition SL_EXT_MAX_COUNT : Z := 16.
(* src/inc/sl_extensions.h:29-29 *)
Definition SL_EXT_MAX_BODY : Z := 512.

(* src/inc/sl_extensions.h:40-44 *)
Record sl_extension_t := mk_ext {
  ext_type : Z;
  ext_len : Z;
  ext_body : list Z
}.

(* src/inc/sl_extensions.h:46-49 *)
Record sl_extensions_t := mk_exts {
  items : list sl_extension_t;
  count : Z
}.

Definition zero_ext : sl_extension_t := mk_ext 0 0 (replicate (Z.to_nat SL_EXT_MAX_BODY) 0).

(* src/src/sl_extensions.c:14-17 *)
Definition sl_extensions_init : sl_extensions_t :=
  mk_exts (replicate (Z.to_nat SL_EXT_MAX_COUNT) zero_ext) 0.

(** Filling the next free slot: lines 27-30 of [sl_extensions_add] and 85-88 of
    [sl_extensions_decode]; [bs] is what the [memcpy] copies. *)
(* src/src/sl_extensions.c:85-88 *)
Definition fill_slot (e : sl_extensions_t) (t l : Z) (bs : list Z) : M sl_extensions_t :=
  let! slot := load (items e) (count e) in
  let! body := if 0 <? l then store_bytes (ext_body slot) 0 bs else Ok (ext_body slot) in
  let! its := store (items e) (count e) (mk_ext t l body) in
  Ok (mk_exts its (u8 (count e + 1))).

(* src/src/sl_extensions.c:19-32 *)
Definition sl_extensions_add (e : sl_extensions_t) (type : Z) (body : option (list Z)) (body_len : Z)
  : M (Z * sl_extensions_t) :=
  if SL_EXT_MAX_COUNT <=? count e then Ok (-1, e)
  else if SL_EXT_MAX_BODY <? body_len then Ok (-1, e)
  else if null_with_len body body_len then Ok (-1, e)
  else
    let! bs := load_bytes (default [] body) 0 body_len in
    let! e := fill_slot e (u16 type) (u16 body_len) bs in
    Ok (0, e).

(* src/src/sl_extensions.c:34-41 *)
Definition sl_extensions_find (e : sl_extensions_t) (type : Z) : M (option sl_extension_t) :=
  let! r := for_ret (Z.to_nat (count e)) 0 (fun i (_ : unit) =>
    let! x := load (items e) i in
    if ext_type x =? u16 type then Ok (inr x) else Ok (inl tt)) tt in
  match r with inr x => Ok (Some x) | inl _ => Ok None end.

(* src/src/sl_extensions.c:43-66 *)
Definition sl_extensions_encode (e : sl_extensions_t) (out : list Z) : M (Z * list Z) :=
  if len out <? 2 then Ok (-1, out)
  else
    let! r := for_ret (Z.to_nat (count e)) 0 (fun i inner =>
      let! x := load (items e) i in
      let inner := inner + (4 + ext_len x) in
      if 0xFFFF <? inner then Ok (inr tt) else Ok (inl inner)) 0 in
    match r with
    | inr _ => Ok (-1, out)
    | inl inner =>
        if len out <? 2 + inner then Ok (-1, out)
        else
          let! out := pack_u16 out 0 (u16 inner) in
          let! '(out, off) := for_up (Z.to_nat (count e)) 0 (fun i '(out, off) =>
            let! x := load (items e) i in
            let! out := pack_u16 out off (ext_type x) in
            let! out := pack_u16 out (off + 2) (ext_len x) in
            let! out := memcpy_if out (off + 4) (Some (ext_body x)) (ext_len x) in
            Ok (out, off + (4 + ext_len x))) (out, 2) in
          Ok (off, out)
    end.

(** The scanning loop. Each turn consumes at least four bytes, so the block's length is
    enough fuel; running out of it would be reported as a fault. *)
(* src/src/sl_extensions.c:79-92 *)
Fixpoint decode_loop (fuel : nat) (inp : list Z) (off end_ : Z) (out : sl_extensions_t)
  : M (Z * sl_extensions_t) :=
  if off + 4 <=? end_ then
    match fuel with
    | O => Fault
    | S fuel =>
        let! t := unpack_u16 inp off in
        let! L := unpack_u16 inp (off + 2) in
        if end_ <? off + 4 + L then Ok (-1, out)
        else
          let! out :=
            if (L <=? SL_EXT_MAX_BODY) && (count out <? SL_EXT_MAX_COUNT) then
              let! bs := load_bytes inp (off + 4) L in
              fill_slot out t L bs
            else Ok out in
          decode_loop fuel inp (off + (4 + L)) end_ out
    end
  else Ok (0, out).

(** The code and the caller's table. *)
(* src/src/sl_extensions.c:68-94 *)
Definition sl_extensions_decode (inp : list Z) : M (Z * sl_extensions_t) :=
  let out := sl_extensions_init in
  if len inp <? 2 then Ok (-1, out)
  else
    let! inner := unpack_u16 inp 0 in
    if len inp <? inner + 2 then Ok (-1, out)
    else decode_loop (Z.to_nat inner) inp 2 (2 + inner) out.

(** ** The table as a list *)

(** A table of [(type, body)] pairs, as the calls build it from [memset] zeroes. *)
Definition slot_of (x : Z * list Z) : sl_extension_t :=
  mk_ext x.1 (len x.2) (x.2 ++ replicate (Z.to_nat (SL_EXT_MAX_BODY - len x.2)) 0).

Definition table_of (l : list (Z * list Z)) : sl_extensions_t :=
  mk_exts (map slot_of l ++ replicate (Z.to_nat (SL_EXT_MAX_COUNT - len l)) zero_ext) (len l).

Definition item_ok (x : Z * list Z) : Prop := is_u16 x.1 /\ len x.2 <= SL_EXT_MAX_BODY.

(** The documented layout of one item and of the block. *)
Definition tlv (x : Z * list Z) : list Z := be16 x.1 ++ be16 (len x.2) ++ x.2.
Definition block (l : list (Z * list Z)) : list Z := concat (map tlv l).
Definition ext_wire (l : list (Z * list Z)) : list Z := be16 (len (block l)) ++ block l.

(** What the decoder keeps of the items it scans: those that fit, until the table is
    full. *)
Definition keep1 (acc : list (Z * list Z)) (x : Z * list Z) : list (Z * list Z) :=
  if (len x.2 <=? SL_EXT_MAX_BODY) && (len acc <? SL_EXT_MAX_COUNT) then acc ++ [x] else acc.
Definition keep (l acc : list (Z * list Z)) : list (Z * list Z) := foldl keep1 acc l.

Ltac ext_consts := unfold SL_EXT_MAX_BODY, SL_EXT_MAX_COUNT in *.

Lemma len_tlv x : len (tlv x) = 4 + len x.2.
Proof. unfold tlv. autorewrite with len. lia. Qed.
#[export] Hint Rewrite len_tlv : len.

Lemma block_app l k : block (l ++ k) = block l ++ block k.
Proof. unfold block. by rewrite map_app, concat_app. Qed.
Lemma block_cons x l : block (x :: l) = tlv x ++ block l.
Proof. done. Qed.

Lemma fill_slot_spec l t bs :
  len l < SL_EXT_MAX_COUNT -> len bs <= SL_EXT_MAX_BODY ->
  fill_slot (table_of l) t (len bs) bs = Ok (table_of (l ++ [(t, bs)])).
Proof.
  ext_consts. intros Hl Hb. unfold fill_slot, table_of. ext_consts. cbn [items count].
  pose proof (len_nonneg l). pose proof (len_nonneg bs).
  replace (Z.to_nat (16 - len l)) with (S (Z.to_nat (16 - len (l ++ [(t, bs)])))) by len_lia.
  cbn [replicate]. rewrite load_app_at by len_lia. cbn [zero_ext ext_body].
  set (z := if 0 <? len bs then _ else _).
  assert (z = Ok (bs ++ replicate (Z.to_nat (512 - len bs)) 0)) as ->.
  { unfold z, zero_ext. cbn [ext_body]. ext_consts. destruct (Z.ltb_spec 0 (len bs)).
    - rewrite store_bytes_0, drop_replicate by len_lia. do 4 f_equal. unfold len. lia.
    - by rewrite (len_0_nil bs) by lia. }
  rewrite store_app_at by len_lia. rewrite u8_small by lia. do 2 f_equal; [|len_lia].
  by rewrite map_app, <- app_assoc.
Qed.

Lemma table_of_load l i x :
  l !! Z.to_nat i = Some x -> 0 <= i -> load (items (table_of l)) i = Ok (slot_of x).
Proof.
  intros Hx Hi. apply load_ok; [done|]. simpl. apply lookup_app_l_Some.
  by rewrite list_lookup_fmap, Hx.
Qed.

Lemma add_spec l type body n :
  ptr_ok body n -> len l <= SL_EXT_MAX_COUNT ->
  sl_extensions_add (table_of l) type body n =
  if (len l <? SL_EXT_MAX_COUNT) && (n <=? SL_EXT_MAX_BODY)
  then Ok (0, table_of (l ++ [(u16 type, ptr_bytes body n)]))
  else Ok (-1, table_of l).
Proof.
  ext_consts. intros Hp Hl. pose proof (len_ptr_bytes body n Hp) as Hn.
  unfold sl_extensions_add. ext_consts. cbn [count table_of].
  destruct (Z.leb_spec 16 (len l)); [by rewrite (proj2 (Z.ltb_ge _ _)) by lia|].
  rewrite (proj2 (Z.ltb_lt (len l) 16)) by lia. cbn [andb].
  destruct (Z.ltb_spec 512 n); [by rewrite (proj2 (Z.leb_gt _ _)) by lia|].
  rewrite (proj2 (Z.leb_le n 512)), ptr_ok_guard, load_ptr by (done || lia).
  destruct Hp as [Hn0 _]. rewrite (u16_small n) by lia. rewrite <- Hn at 1.
  by rewrite fill_slot_spec by (ext_consts; lia).
Qed.

Lemma find_spec l type :
  len l <= SL_EXT_MAX_COUNT ->
  sl_extensions_find (table_of l) type =
  Ok (slot_of <$> head (filter (fun x => x.1 = u16 type) l)).
Proof.
  intros _. unfold sl_extensions_find. cbn [count table_of]. rewrite len_to_nat.
  set (body := fun i (_ : unit) => _).
  assert (H : forall k pre, l = pre ++ k -> exists r, for_ret (length k) (len pre) body tt = Ok r /\
    match r with inr x => Some x | inl _ => None end =
    slot_of <$> head (filter (fun x => x.1 = u16 type) k)).
  { induction k as [|x k IH]; intros pre ->; [by exists (inl tt)|]. cbn [length for_ret].
    unfold body at 1. rewrite (table_of_load _ _ x).
    2: by rewrite len_to_nat, lookup_app_r, Nat.sub_diag by lia.
    2: apply len_nonneg.
    cbn [slot_of ext_type]. rewrite filter_cons. destruct (Z.eqb_spec x.1 (u16 type)) as [E|E].
    - rewrite decide_True by done. by exists (inr (slot_of x)).
    - rewrite decide_False by done. destruct (IH (pre ++ [x])) as (r & Er & Hr).
      { by rewrite <- app_assoc. }
      exists r. split; [|done]. rewrite len_app, len_cons, len_nil in Er. exact Er. }
  destruct (H l [] eq_refl) as (r & Er & Hr). rewrite len_nil in Er. rewrite Er.
  destruct r as [u|x]; simpl in *; by rewrite <- Hr.
Qed.

Lemma len_block_bound l :
  Forall item_ok l -> len l <= SL_EXT_MAX_COUNT -> 0 <= len (block l) <= 516 * len l.
Proof.
  intros H _. induction H as [|x l [_ Hx] H IH]; [unfold block, len; simpl; lia|].
  ext_consts. rewrite block_cons. len_lia.
Qed.

Lemma block_take_S l i x :
  l !! i = Some x -> block (take (S i) l) = block (take i l) ++ tlv x.
Proof. intros Hx. rewrite (take_S_r _ _ x) by done. rewrite block_app. unfold block at 2. simpl. by rewrite app_nil_r. Qed.

Lemma block_take_le l i : len (block (take i l)) <= len (block l).
Proof. rewrite <- (take_drop i l) at 2. rewrite block_app. len_lia. Qed.

Lemma encode_measure l :
  Forall item_ok l -> len l <= SL_EXT_MAX_COUNT ->
  for_ret (R := unit) (length l) 0 (fun i inner =>
    let! x := load (items (table_of l)) i in
    let inner := inner + (4 + ext_len x) in
    if 0xFFFF <? inner then Ok (inr tt) else Ok (inl inner)) 0 = Ok (inl (len (block l))).
Proof.
  intros Hok Hl. pose proof (len_block_bound l Hok Hl) as Hbl. ext_consts.
  set (body := fun i inner => _).
  destruct (for_ret_up (fun i inner => inner = len (block (take (Z.to_nat i) l)))
    body (length l) 0 0) as (inner & -> & ->); [done| |by rewrite Z.add_0_l, Nat2Z.id, firstn_all].
  intros j s Hj ->. destruct (lookup_lt_is_Some_2 l (Z.to_nat j)) as [x Hx]; [lia|].
  unfold body. rewrite (table_of_load l j x) by (done || lia). cbn [slot_of ext_len].
  replace (Z.to_nat (j + 1)) with (S (Z.to_nat j)) by lia.
  pose proof (block_take_le l (S (Z.to_nat j))) as Hle.
  rewrite (block_take_S _ _ x), len_app, len_tlv in * by done.
  rewrite (proj2 (Z.ltb_ge _ _)) by lia. eauto.
Qed.

(** One turn of the writing loop appends one item. *)
Lemma encode_item x pre rest off :
  item_ok x -> off = len pre -> 4 + len x.2 <= len rest ->
  (let! out := pack_u16 (pre ++ rest) off x.1 in
   let! out := pack_u16 out (off + 2) (len x.2) in
   let! out := memcpy_if out (off + 4) (Some (ext_body (slot_of x))) (len x.2) in
   Ok (out, off + (4 + len x.2))) =
  Ok ((pre ++ tlv x) ++ drop (length (tlv x)) rest, len (pre ++ tlv x)).
Proof.
  intros [_ Hx] -> Hr. ext_consts. pose proof (len_nonneg x.2). cbn [slot_of ext_body].
  assert (Hp : ptr_ok (Some (x.2 ++ replicate (Z.to_nat (512 - len x.2)) 0)) (len x.2)).
  { split; [lia|]. intros _. eexists. split; [done|]. len_lia. }
  unfold SL_EXT_MAX_BODY. set (b := x.2 ++ _) in *.
  assert (Hb : ptr_bytes (Some b) (len x.2) = x.2).
  { unfold ptr_bytes, b. cbn [default from_option id]. by rewrite take_app_exact. }
  repeat fill_step. rewrite memcpy_if_append by (done || len_lia).
  rewrite Hb, drop_drop. f_equal. f_equal; [|rewrite len_app, len_tlv; lia].
  unfold tlv. rewrite <- !app_assoc. do 5 f_equal. rewrite !length_app. simpl. rewrite len_to_nat. lia.
Qed.

Lemma encode_write l out pre :
  Forall item_ok l -> len pre = 2 -> 2 + len (block l) <= len out ->
  for_up (length l) 0 (fun i '(out, off) =>
    let! x := load (items (table_of l)) i in
    let! out := pack_u16 out off (ext_type x) in
    let! out := pack_u16 out (off + 2) (ext_len x) in
    let! out := memcpy_if out (off + 4) (Some (ext_body x)) (ext_len x) in
    Ok (out, off + (4 + ext_len x))) (pre ++ drop 2 out, 2) =
  Ok ((pre ++ block l) ++ drop (length (pre ++ block l)) out, 2 + len (block l)).
Proof.
  intros Hok Hp Hl. set (body := fun i '(out, off) => _).
  destruct (for_up_inv (fun i '(o, off) =>
      let w := pre ++ block (take (Z.to_nat i) l) in off = len w /\ o = w ++ drop (length w) out)
    body (length l) 0 (pre ++ drop 2 out, 2)) as ([o off] & -> & -> & ->).
  - unfold block. simpl. rewrite app_nil_r. split; [lia|]. do 2 f_equal. unfold len in Hp. lia.
  - intros j [o off] Hj [-> ->]. destruct (lookup_lt_is_Some_2 l (Z.to_nat j)) as [x Hx]; [lia|].
    unfold body. rewrite (table_of_load l j x) by (done || lia).
    replace (Z.to_nat (j + 1)) with (S (Z.to_nat j)) by lia.
    pose proof (block_take_le l (S (Z.to_nat j))) as Hle.
    rewrite (block_take_S _ _ x) in * by done. rewrite len_app, len_tlv in Hle.
    pose proof (Forall_lookup_1 _ _ _ _ Hok Hx) as Hxok.
    eexists. split.
    { apply (encode_item x _ _ _ Hxok eq_refl). unfold len in *. rewrite length_drop, length_app. lia. }
    cbv zeta. rewrite app_assoc, drop_drop, <- length_app. done.
  - rewrite Z.add_0_l, Nat2Z.id, firstn_all. do 3 f_equal. len_lia.
Qed.

(** The length computed first is the length of what is written after. *)
Lemma encode_spec l out :
  Forall item_ok l -> len l <= SL_EXT_MAX_COUNT ->
  sl_extensions_encode (table_of l) out =
  if len out <? len (ext_wire l) then Ok (-1, out)
  else Ok (len (ext_wire l), ext_wire l ++ drop (length (ext_wire l)) out).
Proof.
  intros Hok Hl. pose proof (len_block_bound l Hok Hl) as Hbl. ext_consts.
  assert (Hw : len (ext_wire l) = 2 + len (block l)) by (unfold ext_wire; len_lia).
  unfold sl_extensions_encode. rewrite Hw. cbn [count table_of].
  destruct (Z.ltb_spec (len out) 2); [by rewrite (proj2 (Z.ltb_lt _ _)) by lia|].
  rewrite len_to_nat, encode_measure by (done || ext_consts; lia).
  destruct (Z.ltb_spec (len out) (2 + len (block l))); [done|].
  change out with ([] ++ out) at 1. rewrite pack_u16_append by len_lia. rewrite u16_small by lia.
  cbn [app]. by rewrite encode_write by (done || lia).
Qed.

(** The scan over a block of whole items behind [pre]. *)
Lemma decode_loop_items l : forall fuel pre rest end_ acc,
  Forall (fun x => is_u16 x.1 /\ is_u16 (len x.2)) l -> len acc <= SL_EXT_MAX_COUNT ->
  len pre + len (block l) <= end_ < len pre + len (block l) + 4 -> (length l <= fuel)%nat ->
  decode_loop fuel (pre ++ block l ++ rest) (len pre) end_ (table_of acc) = Ok (0, table_of (keep l acc)).
Proof.
  ext_consts. induction l as [|x l IH]; intros fuel pre rest end_ acc Hok Hacc Hend Hf.
  { unfold block in *. cbn [map concat] in *. rewrite len_nil in Hend. destruct fuel; cbn [decode_loop];
      by rewrite (proj2 (Z.leb_gt _ _)) by lia. }
  apply Forall_cons in Hok as [[Ht Hx] Hok]. destruct fuel as [|fuel]; [simpl in Hf; lia|].
  rewrite block_cons, len_app, len_tlv in *. pose proof (len_nonneg (block l)).
  pose proof (len_nonneg x.2). cbn [decode_loop].
  rewrite (proj2 (Z.leb_le _ _)) by lia. unfold tlv. rewrite <- !app_assoc.
  rewrite unpack_u16_at by (done || lia).
  rewrite (app_assoc pre), unpack_u16_at by (done || len_lia).
  rewrite (proj2 (Z.ltb_ge _ _)) by lia. rewrite (app_assoc (pre ++ _)).
  rewrite load_bytes_app_mid by len_lia. cbn [count table_of].
  assert (Hnext : forall acc', len acc' <= 16 ->
    decode_loop fuel (((pre ++ be16 x.1) ++ be16 (len x.2)) ++ x.2 ++ block l ++ rest)
      (len pre + (4 + len x.2)) end_ (table_of acc') =
    Ok (0, table_of (keep l acc'))).
  { intros acc' Ha. replace (len pre + (4 + len x.2)) with (len (pre ++ tlv x)) by len_lia.
    replace (_ ++ x.2 ++ block l ++ rest) with ((pre ++ tlv x) ++ block l ++ rest)
      by (unfold tlv; by rewrite <- !app_assoc).
    apply IH; [done|done|len_lia|simpl in Hf; lia]. }
  change (keep (x :: l) acc) with (keep l (keep1 acc x)). unfold keep1. ext_consts.
  destruct ((len x.2 <=? 512) && (len acc <? 16)) eqn:Ek; [|by apply Hnext].
  apply andb_true_iff in Ek as [E1%Z.leb_le E2%Z.ltb_lt].
  rewrite fill_slot_spec by (ext_consts; lia). rewrite <- surjective_pairing. apply Hnext. len_lia.
Qed.

Lemma keep_len l : forall acc, len acc <= SL_EXT_MAX_COUNT -> len (keep l acc) <= SL_EXT_MAX_COUNT.
Proof.
  induction l as [|x l IH]; intros acc Ha; [done|]. apply IH. unfold keep1. ext_consts.
  destruct (Z.leb_spec (len x.2) 512), (Z.ltb_spec (len acc) 16); cbn [andb]; try done. len_lia.
Qed.

(** A table that fits is kept whole. *)
Lemma keep_all l : forall acc,
  Forall item_ok l -> len acc + len l <= SL_EXT_MAX_COUNT -> keep l acc = acc ++ l.
Proof.
  ext_consts. induction l as [|x l IH]; intros acc Hok Hl; [by rewrite app_nil_r|].
  apply Forall_cons in Hok as [[_ Hx] Hok]. rewrite len_cons in Hl. pose proof (len_nonneg l).
  change (keep (x :: l) acc) with (keep l (keep1 acc x)). unfold keep1. ext_consts.
  rewrite (proj2 (Z.leb_le _ _)), (proj2 (Z.ltb_lt _ _)) by lia. cbn [andb].
  rewrite IH by (done || len_lia). by rewrite <- app_assoc.
Qed.

(** Untrusted blocks: the scan ends within its fuel, and it accepts exactly the blocks that
    are a sequence of whole items followed by fewer than four bytes. *)
Lemma decode_loop_total inp fuel : forall off end_ acc,
  bytes_ok inp -> 0 <= off -> end_ <= len inp -> end_ - off <= Z.of_nat fuel + 3 -> off <= end_ ->
  len acc <= SL_EXT_MAX_COUNT ->
  exists rc l trail, decode_loop fuel inp off end_ (table_of acc) = Ok (rc, table_of (keep l acc)) /\
    Forall (fun x => is_u16 x.1 /\ is_u16 (len x.2)) l /\ (rc = 0 \/ rc = -1) /\
    drop (Z.to_nat off) inp = block l ++ trail ++ drop (Z.to_nat end_) inp /\
    (rc = 0 <-> len trail < 4).
Proof.
  induction fuel as [|fuel IH]; intros off end_ acc Hb Ho He Hf Hoe Hacc.
  all: assert (Hdrop : drop (Z.to_nat off) inp =
         take (Z.to_nat (end_ - off)) (drop (Z.to_nat off) inp) ++ drop (Z.to_nat end_) inp)
       by (rewrite <- (take_drop (Z.to_nat (end_ - off)) (drop _ inp)) at 1;
           rewrite drop_drop; do 2 f_equal; lia).
  all: assert (Htl : len (take (Z.to_nat (end_ - off)) (drop (Z.to_nat off) inp)) = end_ - off)
       by (rewrite len_take; [done|rewrite len_drop; lia]).
  { cbn [decode_loop]. rewrite (proj2 (Z.leb_gt _ _)) by lia.
    exists 0, [], (take (Z.to_nat (end_ - off)) (drop (Z.to_nat off) inp)).
    split_and!; [done|done|by left|done|lia]. }
  cbn [decode_loop]. destruct (Z.leb_spec (off + 4) end_) as [Hle|Hgt].
  2: { exists 0, [], (take (Z.to_nat (end_ - off)) (drop (Z.to_nat off) inp)).
       split_and!; [done|done|by left|done|lia]. }
  destruct (unpack_u16_sound inp off) as (t & -> & Rt & Tt); [done|lia..|].
  destruct (unpack_u16_sound inp (off + 2)) as (L & -> & RL & TL); [done|lia..|].
  replace (off + 2 + 2) with (off + 4) in TL by lia.
  destruct (Z.ltb_spec end_ (off + 4 + L)) as [Hbad|Hfit].
  { exists (-1), [], (take (Z.to_nat (end_ - off)) (drop (Z.to_nat off) inp)).
    split_and!; [done|done|by right|done|lia]. }
  destruct (load_bytes_sound inp (off + 4) L) as (bs & -> & HL & _ & Tb); [lia..|].
  replace (off + 4 + L) with (off + (4 + L)) in Tb by lia.
  assert (Hstep : (if (L <=? SL_EXT_MAX_BODY) && (count (table_of acc) <? SL_EXT_MAX_COUNT)
    then fill_slot (table_of acc) t L bs else Ok (table_of acc)) = Ok (table_of (keep1 acc (t, bs)))).
  { unfold keep1. cbn [count table_of snd]. rewrite HL. destruct (_ && _) eqn:Ek; [|done].
    apply andb_true_iff in Ek as [E1%Z.leb_le E2%Z.ltb_lt]. rewrite <- HL. apply fill_slot_spec; lia. }
  rewrite Hstep.
  destruct (IH (off + (4 + L)) end_ (keep1 acc (t, bs))) as (rc & l & trail & E & Hl & Hrc & Hd & Hi);
    [done|lia..|by apply (keep_len [(t, bs)])|].
  exists rc, ((t, bs) :: l), trail. split_and!; [exact E| |done| |done].
  - constructor; [|done]. simpl. lia.
  - rewrite Tt, TL, Tb, Hd, block_cons. unfold tlv. simpl. rewrite HL. by rewrite <- !app_assoc.
Qed.

(** A caller that adds its items one after the other to a fresh table. *)
Fixpoint add_all (l : list (Z * list Z)) (e : sl_extensions_t) : M (Z * sl_extensions_t) :=
  match l with
  | [] => Ok (0, e)
  | (t, b) :: l =>
      let! '(rc, e) := sl_extensions_add e t (Some b) (len b) in
      if rc =? 0 then add_all l e else Ok (rc, e)
  end.

Lemma add_all_spec l : forall acc,
  Forall item_ok l -> len acc + len l <= SL_EXT_MAX_COUNT ->
  add_all l (table_of acc) = Ok (0, table_of (acc ++ l)).
Proof.
  induction l as [|[t b] l IH]; intros acc Hok Hl; [by rewrite app_nil_r|].
  apply Forall_cons in Hok as [[Ht Hb] Hok]. rewrite len_cons in Hl. pose proof (len_nonneg l).
  pose proof (len_nonneg b). simpl in Ht, Hb. cbn [add_all]. rewrite add_spec by (lia || by split; eauto with lia).
  rewrite (proj2 (Z.ltb_lt _ _)), (proj2 (Z.leb_le _ _)), u16_small by lia. cbn [andb Z.eqb].
  unfold ptr_bytes. cbn [default from_option id]. rewrite len_to_nat, firstn_all.
  rewrite IH by (done || len_lia). by rewrite <- app_assoc.
Qed.

Lemma decode_items l trail rest :
  Forall (fun x => is_u16 x.1 /\ is_u16 (len x.2)) l -> len trail < 4 ->
  is_u16 (len (block l ++ trail)) ->
  sl_extensions_decode (be16 (len (block l ++ trail)) ++ block l ++ trail ++ rest) =
  Ok (0, table_of (keep l [])).
Proof.
  intros Hok Ht Hu. unfold sl_extensions_decode. pose proof (len_nonneg rest). pose proof (len_nonneg trail).
  rewrite (proj2 (Z.ltb_ge _ 2)) by len_lia. 
  pose proof (unpack_u16_at [] (block l ++ trail ++ rest) _ 0 eq_refl Hu) as E. cbn [app] in E.
  rewrite E. clear E. rewrite (proj2 (Z.ltb_ge _ _)) by len_lia.
  assert (Hn : len l <= len (block l)).
  { clear. induction l as [|x l IH]; [done|]. rewrite block_cons. len_lia. }
  apply (decode_loop_items l _ (be16 _) (trail ++ rest) _ []); [done|done|rewrite len_be16; len_lia|].
  unfold len in *. rewrite length_app. lia.
Qed.

(** Extensions survive the wire: up to sixteen items of at most 512 bytes, added one by
    one to a fresh table and encoded, decode to that very table, whatever follows the block
    in the buffer; a lookup in it finds the first item of the type asked for. *)
Theorem extensions_roundtrip (l : list (Z * list Z)) (out : list Z) :
  Forall item_ok l -> len l <= SL_EXT_MAX_COUNT -> len (ext_wire l) <= len out ->
  exists e out', add_all l sl_extensions_init = Ok (0, e) /\
    sl_extensions_encode e out = Ok (len (ext_wire l), out') /\
    sl_extensions_decode out' = Ok (0, e) /\
    forall t, sl_extensions_find e t = Ok (slot_of <$> head (filter (fun x => x.1 = u16 t) l)).
Proof.
  intros Hok Hl Ho. exists (table_of l), (ext_wire l ++ drop (length (ext_wire l)) out).
  pose proof (len_block_bound l Hok Hl) as Hbl. ext_consts.
  split_and!.
  - by apply (add_all_spec l []).
  - rewrite encode_spec by (done || ext_consts; lia). by rewrite (proj2 (Z.ltb_ge _ _)) by lia.
  - unfold ext_wire at 1. rewrite <- app_assoc.
    pose proof (decode_items l [] (drop (length (ext_wire l)) out)) as Hd. rewrite app_nil_r in Hd.
    cbn [app] in Hd. rewrite Hd, keep_all; [done|done|ext_consts; len_lia| |done|lia].
    eapply Forall_impl; [exact Hok|]. intros x [Hx1 Hx2]. ext_consts. len_lia.
  - intros t. apply find_spec. ext_consts. lia.
Qed.

Example extensions_roundtrip_witness :
  exists e out', add_all [(1, [3; 4]); (4, []); (1, [9])] sl_extensions_init = Ok (0, e) /\
    sl_extensions_encode e (replicate 20 7) = Ok (17, out') /\
    sl_extensions_decode out' = Ok (0, e) /\
    forall t, sl_extensions_find e t =
      Ok (slot_of <$> head (filter (fun x => x.1 = u16 t) [(1, [3; 4]); (4, []); (1, [9])])).
Proof.
  apply (extensions_roundtrip [(1, [3; 4]); (4, []); (1, [9])] (replicate 20 7)).
  - repeat constructor; vm_compute; congruence.
  - vm_compute. congruence.
  - vm_compute. congruence.
Defined.

(** Decoding an extension block from untrusted bytes always ends and never leaves the
    buffer. It accepts exactly the buffers that start with a length-prefixed run of whole
    items and fewer than four stray bytes, and then the table holds the first sixteen items
    of at most 512 bytes, in order. *)
Theorem extensions_decode_exact (inp : list Z) :
  bytes_ok inp ->
  exists rc e, sl_extensions_decode inp = Ok (rc, e) /\ (rc = 0 \/ rc = -1) /\
    (rc = 0 <-> exists l trail rest,
       Forall (fun x => is_u16 x.1 /\ is_u16 (len x.2)) l /\ len trail < 4 /\
       is_u16 (len (block l ++ trail)) /\
       inp = be16 (len (block l ++ trail)) ++ block l ++ trail ++ rest) /\
    (forall l trail rest,
       Forall (fun x => is_u16 x.1 /\ is_u16 (len x.2)) l -> len trail < 4 ->
       is_u16 (len (block l ++ trail)) ->
       inp = be16 (len (block l ++ trail)) ++ block l ++ trail ++ rest ->
       e = table_of (keep l [])).
Proof.
  intros Hb.
  assert (exists rc e, sl_extensions_decode inp = Ok (rc, e) /\ (rc = 0 \/ rc = -1) /\
    (rc = 0 -> exists l trail rest,
       Forall (fun x => is_u16 x.1 /\ is_u16 (len x.2)) l /\ len trail < 4 /\
       is_u16 (len (block l ++ trail)) /\
       inp = be16 (len (block l ++ trail)) ++ block l ++ trail ++ rest)) as (rc & e & E & Hrc & Hsh).
  { unfold sl_extensions_decode. destruct (Z.ltb_spec (len inp) 2); [exists (-1), sl_extensions_init; split_and!; [done|by right|done]|].
    destruct (unpack_u16_sound inp 0) as (inner & -> & Ri & Ti); [done|lia..|].
    destruct (Z.ltb_spec (len inp) (inner + 2)); [exists (-1), sl_extensions_init; split_and!; [done|by right|done]|].
    destruct (decode_loop_total inp (Z.to_nat inner) 2 (2 + inner) [])
      as (rc & l & trail & E & Hl & Hrc & Hd & Hi); [done|lia..|done|].
    exists rc, (table_of (keep l [])). split_and!; [exact E|done|]. intros Hr. apply Hi in Hr.
    exists l, trail, (drop (Z.to_nat (2 + inner)) inp). change (drop (Z.to_nat 0) inp) with inp in Ti.
    change (0 + 2) with 2 in Ti. rewrite Hd in Ti.
    assert (len (block l ++ trail) = inner) as ->.
    { apply (f_equal len) in Ti. rewrite !len_app, len_be16, len_drop in Ti by lia. rewrite len_app. lia. }
    done. }
  exists rc, e. split_and!; [done|done| |].
  - split; [done|]. intros (l & trail & rest & Hl & Ht & Hu & ->).
    rewrite decode_items in E by done. congruence.
  - intros l trail rest Hl Ht Hu ->. rewrite decode_items in E by done. congruence.
Qed.

Example extensions_decode_exact_witness :
  let inp := [0; 7; 0; 1; 0; 1; 5; 0; 2; 99] in
  exists rc e, sl_extensions_decode inp = Ok (rc, e) /\ rc = 0 /\ e = table_of [(1, [5])].
Proof.
  destruct (extensions_decode_exact [0; 7; 0; 1; 0; 1; 5; 0; 2; 99]) as (rc & e & E & _ & Hi & He).
  - by_deciding.
  - exists rc, e. split; [exact E|]. split.
    + apply Hi. exists [(1, [5])], [0; 2], [99]. split_and!; [|done..].
      repeat constructor; vm_compute; congruence.
    + apply (He [(1, [5])] [0; 2] [99]); [|done..]. repeat constructor; vm_compute; congruence.
Defined.

(** A seventeenth item is dropped without an error, although the header says that
    over-the-limit lists fail. *)
Lemma extensions_overfull_accepted :
  sl_extensions_decode (ext_wire (replicate 17 (6, []))) = Ok (0, table_of (replicate 16 (6, []))).
Proof. vm_compute. reflexivity. Qed.
