(* ===== verification/HandshakeMsg.v ===== *)
(** Handshake messages ([inc/sl_handshake_msg.h], [src/sl_handshake_msg.c]): a one-byte type
    and a 24-bit length in front of each message, and the fixed body of the two hellos. *)

From S2P Require Import Prelude ByteOrder Codec.
Local Open Scope Z_scope.

(* src/inc/sl_handshake_msg.h:31-31 *)
Definition SL_HS_HEADER_LEN : Z := 4.
(* src/inc/sl_handshake_msg.h:32-32 *)
Definition SL_HS_RANDOM_LEN : Z := 32.
(* src/inc/sl_handshake_msg.h:33-33 *)
Definition SL_HS_MAX_PAYLOAD : Z := 2048.
(* src/inc/sl_handshake_msg.h:35-35 *)
Definition SL_HS_CIPHER_AES256_GCM : Z := 1.
(* src/inc/sl_ecdh.h:26-26 *)
Definition SL_ECDH_PUBKEY_LEN : Z := 65.
(* src/inc/sl_ecdh.h:27-27 *)
Definition SL_ECDH_SHARED_LEN : Z := 32.
(* src/inc/sl_handshake_msg.h:76-76 *)
Definition SL_HS_HELLO_BODY_LEN : Z := SL_HS_RANDOM_LEN + SL_ECDH_PUBKEY_LEN + 2.

(** The type travels as one byte and an unknown byte is kept as it is, so the enumeration is
    its numeric values. *)
(* src/inc/sl_handshake_msg.h:38-38 *)
Definition SL_HS_INVALID : Z := 0.
(* src/inc/sl_handshake_msg.h:39-39 *)
Definition SL_HS_CLIENT_HELLO : Z := 1.
(* src/inc/sl_handshake_msg.h:40-40 *)
Definition SL_HS_SERVER_HELLO : Z := 2.
(* src/inc/sl_handshake_msg.h:41-41 *)
Definition SL_HS_CERTIFICATE : Z := 3.
(* src/inc/sl_handshake_msg.h:42-42 *)
Definition SL_HS_CERT_VERIFY : Z := 4.
(* src/inc/sl_handshake_msg.h:43-43 *)
Definition SL_HS_FINISHED : Z := 5.

(* src/inc/sl_handshake_msg.h:46-50 *)
Record sl_hs_hello_t := mk_hello {
  hello_random : list Z;
  hello_ecdh_pub : list Z;
  hello_cipher : Z
}.

(* src/src/sl_handshake_msg.c:5-14 *)
Definition sl_hs_pack_header (out : list Z) (type payload_len : Z) : M (Z * list Z) :=
  if 0xFFFFFF <? payload_len then Ok (-1, out)
  else
    let! out := store out 0 (u8 type) in
    let! out := store out 1 (u8 (Z.land (payload_len ≫ 16) 0xFF)) in
    let! out := store out 2 (u8 (Z.land (payload_len ≫ 8) 0xFF)) in
    let! out := store out 3 (u8 (Z.land payload_len 0xFF)) in
    Ok (0, out).

(** The code, the type and the length; the length is written even when it is refused. *)
(* src/src/sl_handshake_msg.c:16-25 *)
Definition sl_hs_unpack_header (inp : list Z) : M (Z * Z * Z) :=
  let! t := load inp 0 in
  let! a := load inp 1 in
  let! b := load inp 2 in
  let! c := load inp 3 in
  let n := Z.lor (Z.lor (u32 (a ≪ 16)) (u32 (b ≪ 8))) c in
  if SL_HS_MAX_PAYLOAD <? n then Ok (-1, t, n) else Ok (0, t, n).

(* src/src/sl_handshake_msg.c:27-37 *)
Definition sl_hs_pack_hello (h : sl_hs_hello_t) (out : list Z) : M (Z * list Z) :=
  if len out <? SL_HS_HELLO_BODY_LEN then Ok (-1, out)
  else
    let off := 0 in
    let! r := load_bytes (hello_random h) 0 SL_HS_RANDOM_LEN in
    let! out := store_bytes out off r in
    let off := off + SL_HS_RANDOM_LEN in
    let! p := load_bytes (hello_ecdh_pub h) 0 SL_ECDH_PUBKEY_LEN in
    let! out := store_bytes out off p in
    let off := off + SL_ECDH_PUBKEY_LEN in
    let! out := store_bytes out off [u8 (hello_cipher h ≫ 8)] in
    let! out := store_bytes out (off + 1) [u8 (Z.land (hello_cipher h) 0xFF)] in
    Ok (off + 2, out).

(* src/src/sl_handshake_msg.c:39-48 *)
Definition sl_hs_unpack_hello (inp : list Z) : M (option sl_hs_hello_t) :=
  if negb (len inp =? SL_HS_HELLO_BODY_LEN) then Ok None
  else
    let off := 0 in
    let! r := load_bytes inp off SL_HS_RANDOM_LEN in
    let off := off + SL_HS_RANDOM_LEN in
    let! p := load_bytes inp off SL_ECDH_PUBKEY_LEN in
    let off := off + SL_ECDH_PUBKEY_LEN in
    let! a := load inp off in
    let! b := load inp (off + 1) in
    Ok (Some (mk_hello r p (u16 (Z.lor (a ≪ 8) b)))).

(** ** Layout *)

Definition be24 (n : Z) : list Z := [u8 (n ≫ 16); u8 (n ≫ 8); u8 n].
Definition hs_header (t n : Z) : list Z := [u8 t] ++ be24 n.

(** A whole message on the wire. *)
Definition hs_wire (m : Z * list Z) : list Z := hs_header m.1 (len m.2) ++ m.2.

Definition hello_wire (h : sl_hs_hello_t) : list Z :=
  hello_random h ++ hello_ecdh_pub h ++ be16 (hello_cipher h).

Definition hello_ok (h : sl_hs_hello_t) : Prop :=
  len (hello_random h) = 32 /\ len (hello_ecdh_pub h) = 65 /\ is_u16 (hello_cipher h).

Ltac hs_consts :=
  unfold SL_HS_HELLO_BODY_LEN, SL_HS_HEADER_LEN, SL_HS_RANDOM_LEN, SL_HS_MAX_PAYLOAD,
    SL_ECDH_PUBKEY_LEN, SL_ECDH_SHARED_LEN in *.

Lemma len_hs_header t n : len (hs_header t n) = 4.
Proof. done. Qed.
#[export] Hint Rewrite len_hs_header : len.

Lemma len_hs_wire m : len (hs_wire m) = 4 + len m.2.
Proof. unfold hs_wire. autorewrite with len. lia. Qed.
#[export] Hint Rewrite len_hs_wire : len.

Lemma land_ff x : u8 (Z.land x 0xFF) = u8 x.
Proof.
  change 0xFF with (Z.ones 8). rewrite Z.land_ones by lia. unfold u8. change (2 ^ 8) with 256.
  by rewrite Zmod_mod.
Qed.

(** Run the write to the cell [x] behind the explicit cells [pre]. *)
Ltac store_at pre x :=
  let E := fresh in
  epose proof (store_app_at pre x _ _ _ eq_refl) as E; cbn [app] in E;
  match type of E with store _ ?i _ = _ => let k := eval vm_compute in i in change i with k in E end;
  rewrite E; clear E.

Lemma pack_header_spec a b c d rest t n :
  0 <= n <= 0xFFFFFF ->
  sl_hs_pack_header (a :: b :: c :: d :: rest) t n = Ok (0, hs_header t n ++ rest).
Proof.
  intros Hn. unfold sl_hs_pack_header. rewrite (proj2 (Z.ltb_ge _ _)), !land_ff by lia.
  store_at (@nil Z) a. store_at [u8 t] b. store_at [u8 t; u8 (n ≫ 16)] c.
  store_at [u8 t; u8 (n ≫ 16); u8 (n ≫ 8)] d. done.
Qed.

Lemma combine24 a b c :
  is_u8 a -> is_u8 b -> is_u8 c ->
  Z.lor (Z.lor (u32 (a ≪ 16)) (u32 (b ≪ 8))) c = a * 65536 + b * 256 + c.
Proof.
  intros. pose proof (combine32 0 a b c) as E. rewrite Z.lor_0_l in E. rewrite E by lia. lia.
Qed.

Lemma bytes24 n : 0 <= n <= 0xFFFFFF -> u8 (n ≫ 16) * 65536 + u8 (n ≫ 8) * 256 + u8 n = n.
Proof. intros. rewrite !shiftr_div by lia. simpl Z.pow. wrap_lia. Qed.

Lemma be24_of_bytes a b c :
  is_u8 a -> is_u8 b -> is_u8 c -> be24 (a * 65536 + b * 256 + c) = [a; b; c].
Proof. intros. unfold be24. rewrite !shiftr_div by lia. simpl Z.pow. repeat f_equal; wrap_lia. Qed.

Lemma unpack_header_spec t n rest :
  is_u8 t -> 0 <= n <= 0xFFFFFF ->
  sl_hs_unpack_header (hs_header t n ++ rest) =
  Ok (if SL_HS_MAX_PAYLOAD <? n then -1 else 0, t, n).
Proof.
  intros Ht Hn. unfold sl_hs_unpack_header, hs_header, be24. cbn [app]. load_step.
  rewrite combine24, bytes24, (u8_small t) by (lia || apply u8_range). by destruct (_ <? _).
Qed.

(** Four bytes of input are always a header. *)
Lemma header_of_bytes inp :
  bytes_ok inp -> 4 <= len inp ->
  exists t n, is_u8 t /\ 0 <= n <= 0xFFFFFF /\ inp = hs_header t n ++ drop 4 inp.
Proof.
  intros Hb Hl. destruct inp as [|t [|a [|b [|c inp]]]]; try (unfold len in Hl; simpl in Hl; lia).
  inversion Hb as [|? ? Ht Hb1]; inversion Hb1 as [|? ? Ha Hb2]; inversion Hb2 as [|? ? Hbb Hb3].
  inversion Hb3 as [|? ? Hc Hb4]; subst. exists t, (a * 65536 + b * 256 + c).
  split_and!; [lia..|]. unfold hs_header. rewrite be24_of_bytes, u8_small by lia. done.
Qed.

Lemma pack_hello_spec h out :
  hello_ok h -> 99 <= len out ->
  sl_hs_pack_hello h out = Ok (99, hello_wire h ++ drop 99 out).
Proof.
  intros (H1 & H2 & H3) Ho. unfold sl_hs_pack_hello. hs_consts.
  rewrite (proj2 (Z.ltb_ge _ _)), land_ff by lia. cbv zeta.
  pose proof (load_bytes_front (hello_random h) [] 32) as E1. rewrite app_nil_r in E1.
  pose proof (load_bytes_front (hello_ecdh_pub h) [] 65) as E2. rewrite app_nil_r in E2.
  rewrite E1, E2 by done. change out with ([] ++ out) at 1. fill. f_equal. f_equal.
  unfold hello_wire, be16. rewrite <- !app_assoc. cbn [app]. do 4 f_equal.
  unfold len in *. f_equal. lia.
Qed.

Lemma unpack_hello_spec h : hello_ok h -> sl_hs_unpack_hello (hello_wire h) = Ok (Some h).
Proof.
  intros (H1 & H2 & H3). unfold sl_hs_unpack_hello, hello_wire, be16. hs_consts.
  rewrite (proj2 (Z.eqb_eq _ _)) by len_lia. cbv zeta. cbn [negb].
  change [u8 (hello_cipher h ≫ 8); u8 (hello_cipher h)]
    with ([u8 (hello_cipher h ≫ 8)] ++ [u8 (hello_cipher h)]).
  repeat read_step. rewrite combine16, bytes16 by (done || apply u8_range). by destruct h.
Qed.

Lemma unpack_hello_sound inp :
  bytes_ok inp -> accepts (sl_hs_unpack_hello inp) (fun h => hello_ok h /\ inp = hello_wire h).
Proof.
  intros Hb. unfold sl_hs_unpack_hello. hs_consts. cbv zeta. branch_step; [|apply accepts_none].
  repeat sound_step. apply accepts_some. rewrite combine16 by done. split.
  - unfold hello_ok. simpl. lia.
  - unfold hello_wire. cbn [hello_random hello_ecdh_pub hello_cipher].
    rewrite be16_of_bytes by done. literal_offset T2.
    rewrite (drop_ge inp (Z.to_nat 99)), app_nil_r in T2 by (unfold len in *; lia).
    change [v; v0] with ([v] ++ [v0]). by consume inp.
Qed.
