(* ===== verification/HandshakeState.v ===== *)
(** The handshake's message-order machine ([inc/handshake_state.hpp],
    [src/handshake_state.cpp]), on the client and the server side. *)

From Stdlib Require Import String.
From S2P Require Import Prelude HandshakeMsg.
Local Open Scope Z_scope.

(* src/inc/handshake_state.hpp:30-40 *)
Inductive HsState :=
| kInit
| kWaitClientHello
| kWaitServerHello
| kWaitCertificate
| kWaitCertVerify
| kWaitServerFinished
| kWaitClientFinished
| kDone
| kFailed.

#[export] Instance HsState_eq_dec : EqDecision HsState.
Proof. solve_decision. Defined.

(* src/inc/handshake_state.hpp:42-42 *)
Inductive HsRole := kClient | kServer.

#[export] Instance HsRole_eq_dec : EqDecision HsRole.
Proof. solve_decision. Defined.

(* src/inc/handshake_state.hpp:70-76 HandshakeState *)
Record HandshakeState := mk_hs {
  role_ : HsRole;
  state_ : HsState;
  sent_ : Z;
  recv_ : Z;
  failure_reason_ : string
}.

(* src/src/handshake_state.cpp:5-6 HandshakeState::HandshakeState *)
Definition new_hs (role : HsRole) : HandshakeState := mk_hs role kInit 0 0 EmptyString.

(* src/inc/handshake_state.hpp:51-52 HandshakeState::is_terminal *)
Definition is_terminal (h : HandshakeState) : bool :=
  bool_decide (state_ h = kDone) || bool_decide (state_ h = kFailed).

(* src/src/handshake_state.cpp:116-119 HandshakeState::fail *)
Definition hs_fail (h : HandshakeState) (reason : string) : HandshakeState :=
  mk_hs (role_ h) kFailed (sent_ h) (recv_ h) reason.

Definition set_state (h : HandshakeState) (s : HsState) : HandshakeState :=
  mk_hs (role_ h) s (sent_ h) (recv_ h) (failure_reason_ h).

(* src/src/handshake_state.cpp:23-32 HandshakeState::start *)
Definition hs_start (h : HandshakeState) : bool * HandshakeState :=
  if negb (bool_decide (state_ h = kInit)) then (false, hs_fail h "start_in_non_init")
  else
    (true, set_state h (if decide (role_ h = kClient) then kWaitServerHello else kWaitClientHello)).

(* src/src/handshake_state.cpp:34-71 HandshakeState::on_sent *)
Definition on_sent (h : HandshakeState) (type : Z) : bool * HandshakeState :=
  if is_terminal h then (false, hs_fail h "send_after_terminal")
  else
    let h := mk_hs (role_ h) (state_ h) (u32 (sent_ h + 1)) (recv_ h) (failure_reason_ h) in
    match role_ h with
    | kClient =>
        if (type =? SL_HS_CLIENT_HELLO) && bool_decide (state_ h = kWaitServerHello) then (true, h)
        else if (type =? SL_HS_FINISHED) &&
                (bool_decide (state_ h = kWaitServerFinished) || bool_decide (state_ h = kDone))
        then (true, set_state h kDone)
        else (false, hs_fail h "unexpected_client_send")
    | kServer =>
        if ((type =? SL_HS_SERVER_HELLO) || (type =? SL_HS_CERTIFICATE) || (type =? SL_HS_CERT_VERIFY)) &&
           (bool_decide (state_ h = kWaitClientFinished) || bool_decide (state_ h = kWaitClientHello))
        then (true, set_state h kWaitClientFinished)
        else if (type =? SL_HS_FINISHED) && bool_decide (state_ h = kWaitClientFinished) then (true, h)
        else (false, hs_fail h "unexpected_server_send")
    end.

(* src/src/handshake_state.cpp:73-114 HandshakeState::on_received *)
Definition on_received (h : HandshakeState) (type : Z) : bool * HandshakeState :=
  if is_terminal h then (false, hs_fail h "recv_after_terminal")
  else
    let h := mk_hs (role_ h) (state_ h) (sent_ h) (u32 (recv_ h + 1)) (failure_reason_ h) in
    match role_ h with
    | kClient =>
        if (type =? SL_HS_SERVER_HELLO) && bool_decide (state_ h = kWaitServerHello)
        then (true, set_state h kWaitCertificate)
        else if (type =? SL_HS_CERTIFICATE) && bool_decide (state_ h = kWaitCertificate)
        then (true, set_state h kWaitCertVerify)
        else if (type =? SL_HS_CERT_VERIFY) && bool_decide (state_ h = kWaitCertVerify)
        then (true, set_state h kWaitServerFinished)
        else if (type =? SL_HS_FINISHED) && bool_decide (state_ h = kWaitServerFinished) then (true, h)
        else (false, hs_fail h "unexpected_client_recv")
    | kServer =>
        if (type =? SL_HS_CLIENT_HELLO) && bool_decide (state_ h = kWaitClientHello) then (true, h)
        else if (type =? SL_HS_FINISHED) && bool_decide (state_ h = kWaitClientFinished)
        then (true, set_state h kDone)
        else (false, hs_fail h "unexpected_server_recv")
    end.

(** ** Runs *)

(** The calls a driver can make. *)
Inductive hs_event :=
| EvStart
| EvSent (type : Z)
| EvReceived (type : Z)
| EvFail (reason : string).

Definition hs_step (h : HandshakeState) (e : hs_event) : HandshakeState :=
  match e with
  | EvStart => (hs_start h).2
  | EvSent t => (on_sent h t).2
  | EvReceived t => (on_received h t).2
  | EvFail r => hs_fail h r
  end.

Definition hs_run (h : HandshakeState) (es : list hs_event) : HandshakeState := foldl hs_step h es.

Definition received (es : list hs_event) : list Z :=
  omap (fun e => match e with EvReceived t => Some t | _ => None end) es.
Definition sent (es : list hs_event) : list Z :=
  omap (fun e => match e with EvSent t => Some t | _ => None end) es.

(** What a state that is not [kFailed] says about the messages received and sent so
    far. *)
Definition client_history (s : HsState) (rs ss : list Z) : Prop :=
  match s with
  | kInit => rs = [] /\ ss = []
  | kWaitServerHello => rs = [] /\ exists j, ss = replicate j SL_HS_CLIENT_HELLO
  | kWaitCertificate => rs = [SL_HS_SERVER_HELLO] /\ exists j, ss = replicate j SL_HS_CLIENT_HELLO
  | kWaitCertVerify =>
      rs = [SL_HS_SERVER_HELLO; SL_HS_CERTIFICATE] /\ exists j, ss = replicate j SL_HS_CLIENT_HELLO
  | kWaitServerFinished =>
      exists k j, rs = [SL_HS_SERVER_HELLO; SL_HS_CERTIFICATE; SL_HS_CERT_VERIFY]
                       ++ replicate k SL_HS_FINISHED /\ ss = replicate j SL_HS_CLIENT_HELLO
  | kDone =>
      exists k j, rs = [SL_HS_SERVER_HELLO; SL_HS_CERTIFICATE; SL_HS_CERT_VERIFY]
                       ++ replicate k SL_HS_FINISHED /\
                  ss = replicate j SL_HS_CLIENT_HELLO ++ [SL_HS_FINISHED]
  | kFailed => True
  | kWaitClientHello | kWaitClientFinished => False
  end.

Definition server_flight (ss : list Z) : Prop :=
  Forall (fun t => t = SL_HS_SERVER_HELLO \/ t = SL_HS_CERTIFICATE \/ t = SL_HS_CERT_VERIFY \/
                   t = SL_HS_FINISHED) ss /\ head ss <> Some SL_HS_FINISHED /\ ss <> [].

Definition server_history (s : HsState) (rs ss : list Z) : Prop :=
  match s with
  | kInit => rs = [] /\ ss = []
  | kWaitClientHello => (exists k, rs = replicate k SL_HS_CLIENT_HELLO) /\ ss = []
  | kWaitClientFinished => (exists k, rs = replicate k SL_HS_CLIENT_HELLO) /\ server_flight ss
  | kDone => (exists k, rs = replicate k SL_HS_CLIENT_HELLO ++ [SL_HS_FINISHED]) /\ server_flight ss
  | kFailed => True
  | _ => False
  end.

Definition history (r : HsRole) := match r with kClient => client_history | kServer => server_history end.

Lemma replicate_snoc {A} n (x : A) : replicate n x ++ [x] = replicate (S n) x.
Proof. by rewrite replicate_S_end. Qed.

Lemma server_flight_snoc ss t :
  server_flight ss ->
  t = SL_HS_SERVER_HELLO \/ t = SL_HS_CERTIFICATE \/ t = SL_HS_CERT_VERIFY \/ t = SL_HS_FINISHED ->
  server_flight (ss ++ [t]).
Proof.
  intros (Hf & Hh & Hn) Ht. split_and!.
  - apply Forall_app. auto.
  - by destruct ss.
  - by destruct ss.
Qed.

Lemma server_flight_one t :
  t = SL_HS_SERVER_HELLO \/ t = SL_HS_CERTIFICATE \/ t = SL_HS_CERT_VERIFY -> server_flight [t].
Proof.
  intros Ht. split_and!; [constructor; [tauto|constructor]| |done].
  by destruct Ht as [->|[->| ->]].
Qed.

(** Split the tests of a handler's body. *)
Ltac split_tests :=
  repeat match goal with
  | |- context [?a =? ?b] => destruct (Z.eqb_spec a b); try subst; cbn [andb orb]
  end.

Lemma sent_keeps_history h t rs ss :
  history (role_ h) (state_ h) rs ss ->
  role_ (on_sent h t).2 = role_ h /\ history (role_ h) (state_ (on_sent h t).2) rs (ss ++ [t]).
Proof.
  destruct h as [r s n m f]. unfold on_sent, is_terminal. destruct r, s; simpl; intros H;
    try (split; [done|exact I]); try done; split_tests; simpl; (split; [done|]); try exact I; try done.
  - destruct H as (-> & j & ->). split; [done|]. exists (S j). by rewrite replicate_snoc.
  - destruct H as (k & j & -> & ->). by exists k, j.
  - destruct H as ((k & ->) & ->). split; [by exists k|]. apply server_flight_one. auto.
  - destruct H as ((k & ->) & ->). split; [by exists k|]. apply server_flight_one. auto.
  - destruct H as ((k & ->) & ->). split; [by exists k|]. apply server_flight_one. auto.
  - destruct H as ((k & ->) & H). split; [by exists k|]. apply server_flight_snoc; auto.
  - destruct H as ((k & ->) & H). split; [by exists k|]. apply server_flight_snoc; auto.
  - destruct H as ((k & ->) & H). split; [by exists k|]. apply server_flight_snoc; auto.
  - destruct H as ((k & ->) & H). split; [by exists k|]. apply server_flight_snoc; auto.
Qed.

Lemma received_keeps_history h t rs ss :
  history (role_ h) (state_ h) rs ss ->
  role_ (on_received h t).2 = role_ h /\ history (role_ h) (state_ (on_received h t).2) (rs ++ [t]) ss.
Proof.
  destruct h as [r s n m f]. unfold on_received, is_terminal. destruct r, s; simpl; intros H;
    try (split; [done|exact I]); try done; split_tests; simpl; (split; [done|]); try exact I; try done.
  - destruct H as (-> & j & ->). split; [done|]. by exists j.
  - destruct H as (-> & j & ->). split; [done|]. by exists j.
  - destruct H as (-> & j & ->). by exists 0%nat, j.
  - destruct H as (k & j & -> & ->). exists (S k), j. split; [|done]. simpl. by rewrite replicate_snoc.
  - destruct H as ((k & ->) & ->). split; [|done]. exists (S k). by rewrite replicate_snoc.
  - destruct H as ((k & ->) & H). split; [|done]. by exists k.
Qed.

Lemma run_keeps_history es : forall h rs ss,
  history (role_ h) (state_ h) rs ss ->
  role_ (hs_run h es) = role_ h /\
  history (role_ h) (state_ (hs_run h es)) (rs ++ received es) (ss ++ sent es).
Proof.
  induction es as [|e es IH]; intros h rs ss H; [by rewrite !app_nil_r|].
  assert (Hs : role_ (hs_step h e) = role_ h /\
    history (role_ h) (state_ (hs_step h e)) (rs ++ received [e]) (ss ++ sent [e])).
  { destruct e as [|t|t|r]; simpl; rewrite ?app_nil_r.
    - revert H. unfold hs_start. destruct h as [[] [] n m f]; simpl; intros H; split; try done.
      + destruct H as [-> ->]. split; [done|]. by exists 0%nat.
      + destruct H as [-> ->]. split; [by exists 0%nat|done].
    - by apply sent_keeps_history.
    - by apply received_keeps_history.
    - split; [done|]. by destruct (role_ h). }
  destruct Hs as [Hr Hs]. rewrite <- Hr in Hs. destruct (IH _ _ _ Hs) as [E1 E2]. rewrite Hr in *.
  split; [exact E1|]. revert E2. rewrite <- !app_assoc.
  unfold received, sent. by rewrite <- !omap_app.
Qed.

(** C10: The handshake's message order: whatever calls a driver makes, unless the machine is
    in [kFailed] its state tells the history. A client that waits for the server's Finished
    or is done has received exactly ServerHello, Certificate, CertVerify and then only
    Finished messages, and sent nothing but ClientHello before its Finished; a server that is
    done has received only ClientHello before the one Finished that ended the handshake. *)
Theorem handshake_order (r : HsRole) (es : list hs_event) :
  history r (state_ (hs_run (new_hs r) es)) (received es) (sent es).
Proof.
  destruct (run_keeps_history es (new_hs r) [] []) as [_ H]; [by destruct r|]. exact H.
Qed.

(** Failure is final. *)
Lemma failed_stays es : forall h, state_ h = kFailed -> state_ (hs_run h es) = kFailed.
Proof.
  induction es as [|e es IH]; intros h Hh; [done|]. apply IH.
  destruct h as [r s n m f]. simpl in Hh. subst s. by destruct e.
Qed.

(** The header says that [kDone] takes no further events; one more message moves the
    machine to [kFailed]. *)
Lemma done_is_not_final :
  exists es, state_ (hs_run (new_hs kServer) es) = kDone /\
    state_ (hs_run (new_hs kServer) (es ++ [EvReceived SL_HS_FINISHED])) = kFailed.
Proof.
  by exists [EvStart; EvReceived SL_HS_CLIENT_HELLO; EvSent SL_HS_SERVER_HELLO; EvReceived SL_HS_FINISHED].
Qed.

(** The client flow of the header needs the server's Finished before the client's own; the
    machine lets the client finish without it. *)
Lemma client_done_without_server_finished :
  exists es, state_ (hs_run (new_hs kClient) es) = kDone /\ SL_HS_FINISHED ∉ received es.
Proof.
  exists [EvStart; EvSent SL_HS_CLIENT_HELLO; EvReceived SL_HS_SERVER_HELLO;
          EvReceived SL_HS_CERTIFICATE; EvReceived SL_HS_CERT_VERIFY; EvSent SL_HS_FINISHED].
  split; [done|]. by_deciding.
Qed.

(** The server flow needs a ClientHello before the server's flight; the machine lets a
    server finish without one. *)
Lemma server_done_without_client_hello :
  exists es, state_ (hs_run (new_hs kServer) es) = kDone /\ received es = [SL_HS_FINISHED].
Proof.
  by exists [EvStart; EvSent SL_HS_SERVER_HELLO; EvReceived SL_HS_FINISHED].
Qed.
