(* ===== verification/KeySched.v ===== *)
(** The key schedule: HKDF-SHA256 ([src/sl_hkdf.c]), the session keys
    ([src/sl_session_keys.c]), the handshake secret ([src/sl_handshake_secret.c]), Finished
    MACs ([src/sl_finished.c]), rekeying ([src/sl_rekey.c]), exported keys
    ([src/sl_exporter.c]) and the handshake transcript ([src/sl_transcript.c]).

    SHA-256 and HMAC are OpenSSL's and are a parameter, the class [Hash]. *)

From Stdlib Require Import String.
From S2P Require Import Prelude Mem Aead.
Local Open Scope Z_scope.

(** The characters of a C string literal. *)
Definition lit (s : string) : list Z :=
  map (fun a => Z.of_N (Ascii.N_of_ascii a)) (String.list_ascii_of_string s).

(** OpenSSL: the digest of a byte string; the MAC of one under a key, [None] for calls that
    report an error; and whether [HMAC_CTX_new] delivers a context for the expansion of a key
    with some info. *)
Class Hash := {
  sha256 : list Z -> list Z;
  hmac : list Z -> list Z -> option (list Z);
  hmac_ctx_new : list Z -> list Z -> bool
}.

Class HashLaws `{Hash} : Prop := {
  sha256_ok : forall m, len (sha256 m) = 32 /\ bytes_ok (sha256 m);
  hmac_ok : forall k m d, hmac k m = Some d -> len d = 32 /\ bytes_ok d
}.

(* src/src/sl_hkdf.c:9-9 *)
Definition HKDF_HASH_LEN : Z := 32.

(* src/inc/sl_kdf_labels.h:15-15 *)
Definition SL_KDF_LABEL_CLIENT_KEY : list Z := lit "securelink v1 c2s key".
(* src/inc/sl_kdf_labels.h:16-16 *)
Definition SL_KDF_LABEL_SERVER_KEY : list Z := lit "securelink v1 s2c key".
(* src/inc/sl_kdf_labels.h:17-17 *)
Definition SL_KDF_LABEL_CLIENT_IV : list Z := lit "securelink v1 c2s iv".
(* src/inc/sl_kdf_labels.h:18-18 *)
Definition SL_KDF_LABEL_SERVER_IV : list Z := lit "securelink v1 s2c iv".
(* src/inc/sl_kdf_labels.h:20-20 *)
Definition SL_KDF_LABEL_REKEY : list Z := lit "securelink v1 rekey".
(* src/inc/sl_kdf_labels.h:22-22 *)
Definition SL_KDF_LABEL_EXPORTER : list Z := lit "securelink v1 exporter".
(* src/src/sl_handshake_secret.c:9-9 *)
Definition LABEL_MASTER : list Z := lit "securelink v1 master".
(* src/src/sl_handshake_secret.c:10-10 *)
Definition LABEL_CLIENT_FINISHED : list Z := lit "securelink v1 c2s finished".
(* src/src/sl_handshake_secret.c:11-11 *)
Definition LABEL_SERVER_FINISHED : list Z := lit "securelink v1 s2c finished".

(* src/inc/sl_session_keys.h:31-36 *)
Record sl_session_keys_t := mk_keys {
  client_key : list Z;
  client_iv : list Z;
  server_key : list Z;
  server_iv : list Z
}.

Definition zero_keys : sl_session_keys_t :=
  mk_keys (replicate 32 0) (replicate 12 0) (replicate 32 0) (replicate 12 0).

(* src/inc/sl_handshake_secret.h:25-30 *)
Record sl_handshake_secret_t := mk_secret {
  master : list Z;
  client_finished_key : list Z;
  server_finished_key : list Z;
  app_keys : sl_session_keys_t
}.

(* src/src/sl_handshake_secret.c:48-52 *)
Definition sl_handshake_secret_clear : sl_handshake_secret_t :=
  mk_secret (replicate 32 0) (replicate 32 0) (replicate 32 0) zero_keys.

(* src/inc/sl_rekey.h:30-33 *)
Record sl_rekey_epochs_t := mk_epochs { local_epoch : Z; peer_epoch : Z }.

(** The running digest is the bytes absorbed so far. *)
(* src/inc/sl_transcript.h:30-33 *)
Record sl_transcript_t := mk_transcript { ctx : list Z; bytes_absorbed : Z }.

(* src/src/sl_transcript.c:5-10 *)
Definition sl_transcript_init : sl_transcript_t := mk_transcript [] 0.

(* src/src/sl_transcript.c:12-17 *)
Definition sl_transcript_update (t : sl_transcript_t) (data : list Z) : sl_transcript_t :=
  mk_transcript (ctx t ++ data) (u64 (bytes_absorbed t + len data)).

Section Operations.
  Context `{Hash}.

(** The MAC reads as many bytes of the salt as its length is after the conversion to [int]; a
    negative length is outside the contract of the call. *)
(* src/src/sl_hkdf.c:11-31 *)
Definition sl_hkdf_extract_sha256 (ikm : list Z) (salt : option (list Z)) : M (option (list Z)) :=
  let salt := match salt with
              | None => replicate (Z.to_nat HKDF_HASH_LEN) 0
              | Some s => if len s =? 0 then replicate (Z.to_nat HKDF_HASH_LEN) 0 else s
              end in
  let! key := load_bytes salt 0 (to_int (len salt)) in
  match hmac key ikm with
  | None => Ok None
  | Some d => if negb (len d =? HKDF_HASH_LEN) then Ok None else Ok (Some d)
  end.

(** The output loop. [t] is the previous block, empty before the first; 255 blocks are the
    most a permitted length takes. *)
(* src/src/sl_hkdf.c:48-68 *)
Fixpoint expand_loop (fuel : nat) (prk info t : list Z) (done ctr out_len : Z) (out : list Z)
  : M (Z * list Z) :=
  if done <? out_len then
    match fuel with
    | O => Fault
    | S fuel =>
        match hmac prk (t ++ info ++ [ctr]) with
        | None => Ok (-1, out)
        | Some t =>
            let n := if out_len - done <? len t then out_len - done else len t in
            let! b := load_bytes t 0 n in
            let! out := store_bytes out done b in
            expand_loop fuel prk info t (done + n) (u8 (ctr + 1)) out_len out
        end
    end
  else Ok (0, out).

(* src/src/sl_hkdf.c:33-75 *)
Definition sl_hkdf_expand_sha256 (prk info out : list Z) (out_len : Z) : M (Z * list Z) :=
  if 255 * HKDF_HASH_LEN <? out_len then Ok (-1, out)
  else if negb (hmac_ctx_new prk info) then Ok (-1, out)
  else expand_loop 255 prk info [] 0 1 out_len out.

(* src/src/sl_hkdf.c:77-89 *)
Definition sl_hkdf_sha256 (ikm : list Z) (salt : option (list Z)) (info out : list Z) (out_len : Z)
  : M (Z * list Z) :=
  let! prk := sl_hkdf_extract_sha256 ikm salt in
  match prk with
  | None => Ok (-1, out)
  | Some prk => sl_hkdf_expand_sha256 prk info out out_len
  end.

(* src/src/sl_session_keys.c:9-40 *)
Definition sl_session_keys_derive (master salt : list Z) : M (Z * sl_session_keys_t) :=
  let out := zero_keys in
  let! '(rc, ck) := sl_hkdf_sha256 master (Some salt) SL_KDF_LABEL_CLIENT_KEY (client_key out) 32 in
  if negb (rc =? 0) then Ok (-1, zero_keys) else
  let! '(rc, ci) := sl_hkdf_sha256 master (Some salt) SL_KDF_LABEL_CLIENT_IV (client_iv out) 12 in
  if negb (rc =? 0) then Ok (-1, zero_keys) else
  let! '(rc, sk) := sl_hkdf_sha256 master (Some salt) SL_KDF_LABEL_SERVER_KEY (server_key out) 32 in
  if negb (rc =? 0) then Ok (-1, zero_keys) else
  let! '(rc, si) := sl_hkdf_sha256 master (Some salt) SL_KDF_LABEL_SERVER_IV (server_iv out) 12 in
  if negb (rc =? 0) then Ok (-1, zero_keys) else
  Ok (0, mk_keys ck ci sk si).

(* src/src/sl_handshake_secret.c:13-46 *)
Definition sl_handshake_secret_derive (ecdh_shared transcript : list Z)
  : M (Z * sl_handshake_secret_t) :=
  let zero := sl_handshake_secret_clear in
  let! '(rc, m) := sl_hkdf_sha256 ecdh_shared (Some transcript) LABEL_MASTER (master zero) 32 in
  if negb (rc =? 0) then Ok (-1, zero) else
  let! '(rc, cf) := sl_hkdf_sha256 m None LABEL_CLIENT_FINISHED (client_finished_key zero) 32 in
  if negb (rc =? 0) then Ok (-1, zero) else
  let! '(rc, sf) := sl_hkdf_sha256 m None LABEL_SERVER_FINISHED (server_finished_key zero) 32 in
  if negb (rc =? 0) then Ok (-1, zero) else
  let! '(rc, ks) := sl_session_keys_derive m transcript in
  if negb (rc =? 0) then Ok (-1, zero) else
  Ok (0, mk_secret m cf sf ks).

(* src/src/sl_finished.c:12-22 *)
Definition sl_finished_derive_key (handshake_secret : list Z) (is_server : bool) (out_key : list Z)
  : M (Z * list Z) :=
  if len handshake_secret =? 0 then Ok (-1, out_key)
  else
    let label := if is_server then LABEL_SERVER_FINISHED else LABEL_CLIENT_FINISHED in
    sl_hkdf_sha256 handshake_secret None label out_key 32.

(* src/src/sl_finished.c:24-34 *)
Definition sl_finished_compute (finished_key transcript_hash : list Z) : option (list Z) :=
  match hmac finished_key transcript_hash with
  | None => None
  | Some d => if len d =? 32 then Some d else None
  end.

(* src/src/sl_finished.c:36-46 *)
Definition sl_finished_verify (finished_key transcript_hash received_mac : list Z) : M Z :=
  match sl_finished_compute finished_key transcript_hash with
  | None => Ok (-1)
  | Some expected =>
      let! eq := sl_ct_equal expected received_mac 32 in
      Ok (if eq =? 0 then -1 else 0)
  end.

(** The code, the keys, the current secret and the buffer for the next one. *)
(* src/src/sl_rekey.c:9-39 *)
Definition sl_rekey_advance (keys : sl_session_keys_t) (current_secret next_secret_out : list Z)
  : M (Z * sl_session_keys_t * list Z * list Z) :=
  let! '(rc, next) := sl_hkdf_sha256 current_secret None SL_KDF_LABEL_REKEY next_secret_out 32 in
  if negb (rc =? 0) then Ok (-1, keys, current_secret, next)
  else
    let! '(rc, fresh) := sl_session_keys_derive next next in
    if negb (rc =? 0) then Ok (-1, keys, current_secret, next)
    else
      let! cur := sl_secure_zero current_secret 32 in
      Ok (0, fresh, cur, next).

(* src/src/sl_exporter.c:10-18 *)
Definition sl_exporter_init (master_secret out : list Z) : M (Z * list Z) :=
  sl_hkdf_sha256 master_secret None SL_KDF_LABEL_EXPORTER out 32.

(* src/src/sl_exporter.c:20-45 *)
Definition sl_exporter_derive (exporter_secret label : list Z) (context : option (list Z)) (out : list Z)
    (out_len : Z) : M (Z * list Z) :=
  if (out_len =? 0) || (255 * 32 <? out_len) then Ok (-1, out)
  else
    let info := sha256 (label ++ default [] context) in
    sl_hkdf_sha256 exporter_secret None info out out_len.

(* src/src/sl_transcript.c:19-26 *)
Definition sl_transcript_get (t : sl_transcript_t) : list Z := sha256 (ctx t).

(* src/src/sl_transcript.c:28-41 *)
Definition sl_transcript_labelled (t : sl_transcript_t) (label : list Z) : list Z :=
  sha256 (label ++ sl_transcript_get t).

End Operations.

(* src/src/sl_rekey.c:41-49 *)
Definition sl_rekey_check_peer_epoch (e : sl_rekey_epochs_t) (incoming : Z) : Z * sl_rekey_epochs_t :=
  if negb (incoming =? u32 (peer_epoch e + 1)) then (-1, e)
  else (0, mk_epochs (local_epoch e) incoming).

(** ** HKDF against RFC 5869 *)

Section Rfc.
  Context `{HashLaws}.

(** The RFC's [T(i)], [T(i+1)], ... [n] of them, concatenated. *)
Fixpoint rfc_blocks (n : nat) (prk info t : list Z) (i : Z) : option (list Z) :=
  match n with
  | O => Some []
  | S n =>
      match hmac prk (t ++ info ++ [i]) with
      | None => None
      | Some t => app t <$> rfc_blocks n prk info t (i + 1)
      end
  end.

(** HKDF-Expand: the first [l] bytes of [ceil (l / 32)] blocks. *)
Definition rfc_expand (prk info : list Z) (l : Z) : option (list Z) :=
  take (Z.to_nat l) <$> rfc_blocks (Z.to_nat ((l + 31) / 32)) prk info [] 1.

(** HKDF: an absent or empty salt is 32 zero bytes. *)
Definition rfc_hkdf (ikm salt info : list Z) (l : Z) : option (list Z) :=
  match hmac (if decide (salt = []) then replicate 32 0 else salt) ikm with
  | None => None
  | Some prk => rfc_expand prk info l
  end.

(** Whether OpenSSL delivers the context of the expansion. *)
Definition hkdf_ctx (ikm salt info : list Z) : bool :=
  match hmac (if decide (salt = []) then replicate 32 0 else salt) ikm with
  | None => true
  | Some prk => hmac_ctx_new prk info
  end.

(** The RFC's output, unless there is no context. *)
Definition hkdf_out (ikm salt info : list Z) (l : Z) : option (list Z) :=
  if hkdf_ctx ikm salt info then rfc_hkdf ikm salt info l else None.

(** The counter byte wraps only after the last block it can number. *)
Lemma rfc_blocks_wrap n prk info t i :
  0 <= i -> i + Z.of_nat n <= 256 -> rfc_blocks n prk info t (u8 i) = rfc_blocks n prk info t i.
Proof. intros Hi Hn. destruct n; [done|]. by rewrite u8_small by lia. Qed.

(** Writing the next block and then the rest is writing both. *)
Lemma block_then_rest (out d bs : list Z) done m l :
  0 <= done -> 0 <= m -> done + m <= l -> l <= len out -> m = Z.min (l - done) (len d) ->
  let o := take (Z.to_nat done) out ++ take (Z.to_nat m) d ++ drop (Z.to_nat (done + m)) out in
  take (Z.to_nat (done + m)) o ++ take (Z.to_nat (l - (done + m))) bs ++ drop (Z.to_nat l) o =
  take (Z.to_nat done) out ++ take (Z.to_nat (l - done)) (d ++ bs) ++ drop (Z.to_nat l) out.
Proof.
  intros H1 H2 H3 H4 Hm o.
  assert (Ho : len (take (Z.to_nat done) out ++ take (Z.to_nat m) d) = done + m)
    by (rewrite len_app, !len_take; lia).
  unfold o. rewrite (app_assoc (take _ out)). rewrite take_app_exact by done.
  replace (drop (Z.to_nat l) _) with (drop (Z.to_nat l) out).
  2: { rewrite drop_app_ge, drop_drop by (unfold len in Ho; lia). f_equal. unfold len in Ho. lia. }
  rewrite <- app_assoc. f_equal. rewrite app_assoc. f_equal.
  destruct (Z.le_gt_cases (l - done) (len d)).
  - replace (l - (done + m)) with 0 by lia. rewrite app_nil_r, take_app_le by (unfold len in *; lia).
    f_equal. lia.
  - rewrite (firstn_all2 d) by (unfold len in *; lia). rewrite take_app_ge by (unfold len in *; lia).
    do 2 f_equal. unfold len in *. lia.
Qed.

Lemma expand_loop_spec prk info l n : forall fuel t done ctr out,
  (n <= fuel)%nat -> 0 <= done <= l -> l <= len out ->
  32 * Z.of_nat n - 32 < l - done <= 32 * Z.of_nat n -> 0 <= ctr -> ctr + Z.of_nat n <= 256 ->
  match rfc_blocks n prk info t ctr with
  | Some bs => l - done <= len bs /\ expand_loop fuel prk info t done ctr l out =
      Ok (0, take (Z.to_nat done) out ++ take (Z.to_nat (l - done)) bs ++ drop (Z.to_nat l) out)
  | None => exists out', expand_loop fuel prk info t done ctr l out = Ok (-1, out') /\ len out' = len out
  end.
Proof.
  induction n as [|n IH]; intros fuel t done ctr out Hf Hd Hl Hn Hc0 Hc; cbn [rfc_blocks].
  { assert (done = l) as -> by lia. split; [rewrite len_nil; lia|].
    rewrite Z.sub_diag. simpl. rewrite take_drop.
    destruct fuel; cbn [expand_loop]; by rewrite (proj2 (Z.ltb_ge _ _)) by lia. }
  destruct fuel as [|fuel]; [lia|]. cbn [expand_loop]. rewrite (proj2 (Z.ltb_lt _ _)) by lia.
  destruct (hmac prk _) as [d|] eqn:Eh; [|by exists out].
  destruct (hmac_ok _ _ _ Eh) as [Hld _]. rewrite Hld.
  set (m := if l - done <? 32 then l - done else 32).
  assert (Hm : m = Z.min (l - done) 32) by (unfold m; destruct (Z.ltb_spec (l - done) 32); lia).
  rewrite load_bytes_in_bounds by lia. change (drop (Z.to_nat 0) d) with d.
  assert (Hlb : len (take (Z.to_nat m) d) = m) by (rewrite len_take; lia).
  destruct (store_bytes_fits out done (take (Z.to_nat m) d)) as (o & Eo & Hlo); [lia|lia|].
  rewrite Eo. rewrite store_bytes_in_bounds in Eo by lia.
  assert (Ho : o = take (Z.to_nat done) out ++ take (Z.to_nat m) d ++ drop (Z.to_nat (done + m)) out).
  { rewrite Hlb in Eo. congruence. }
  specialize (IH fuel d (done + m) (u8 (ctr + 1)) o).
  rewrite rfc_blocks_wrap in IH by lia.
  destruct (rfc_blocks n prk info d (ctr + 1)) as [bs|]; simpl.
  - destruct IH as [Hbs IH]; [lia|lia|lia|lia|apply u8_range| |].
    { destruct n; [|rewrite u8_small; lia]. pose proof (u8_range (ctr + 1)). lia. }
    split; [rewrite len_app; lia|]. rewrite IH, Ho. f_equal. f_equal.
    by apply block_then_rest; lia.
  - destruct IH as (o' & IH & Hlo'); [lia|lia|lia|lia|apply u8_range| |exists o'; split; [done|lia]].
    destruct n; [|rewrite u8_small; lia]. pose proof (u8_range (ctr + 1)). lia.
Qed.
End Rfc.

(** A salt whose length is an [int] is used whole. *)
Lemma salt_whole (s : list Z) : len s < 2147483648 -> load_bytes s 0 (to_int (len s)) = Ok s.
Proof.
  intros Hs. pose proof (len_nonneg s). rewrite to_int_small by lia. rewrite load_bytes_in_bounds by lia.
  change (drop (Z.to_nat 0) s) with s. by rewrite len_to_nat, firstn_all.
Qed.

(** The whole function on any output length. *)
Lemma hkdf_spec `{HashLaws} (ikm info out : list Z) (salt : option (list Z)) (l : Z) :
  0 <= l <= len out -> len (default [] salt) < 2147483648 ->
  match (if l <=? 8160 then rfc_hkdf ikm (default [] salt) info l else None) with
  | Some okm => len okm = l /\ sl_hkdf_sha256 ikm salt info out l =
      Ok (if hkdf_ctx ikm (default [] salt) info then (0, okm ++ drop (Z.to_nat l) out) else (-1, out))
  | None => exists out', sl_hkdf_sha256 ikm salt info out l = Ok (-1, out') /\ len out' = len out
  end.
Proof.
  intros Hl Hs. unfold sl_hkdf_sha256, sl_hkdf_extract_sha256, rfc_hkdf, hkdf_ctx, HKDF_HASH_LEN.
  set (s1 := match salt with None => _ | Some _ => _ end).
  assert (s1 = if decide (default [] salt = []) then replicate 32 0 else default [] salt) as ->.
  { unfold s1. destruct salt as [[|x sl]|]; done. }
  rewrite salt_whole by (by destruct (decide _)).
  destruct (hmac _ ikm) as [prk|] eqn:Eh; [|destruct (l <=? 8160); by exists out].
  destruct (hmac_ok _ _ _ Eh) as [-> _]. change (32 =? 32) with true. cbn [negb].
  unfold sl_hkdf_expand_sha256, rfc_expand, HKDF_HASH_LEN. change (255 * 32) with 8160.
  destruct (Z.leb_spec l 8160); [|rewrite (proj2 (Z.ltb_lt _ _)) by lia; by exists out].
  rewrite (proj2 (Z.ltb_ge _ _)) by lia.
  assert (Hn : 32 * ((l + 31) / 32) - 32 < l <= 32 * ((l + 31) / 32)) by (Z.div_mod_to_equations; lia).
  pose proof (expand_loop_spec prk info l (Z.to_nat ((l + 31) / 32)) 255 [] 0 1 out) as E.
  destruct (rfc_blocks _ prk info [] 1) as [bs|]; cbn [fmap option_fmap option_map].
  - destruct E as [Hb E]; [lia..|]. rewrite Z.sub_0_r in *. split; [rewrite len_take; lia|].
    destruct (hmac_ctx_new prk info); cbn [negb]; [by rewrite E|done].
  - destruct E as (o & E & Ho); [lia..|]. destruct (hmac_ctx_new prk info); cbn [negb]; [by exists o|by exists out].
Qed.

(** C27: HKDF is the RFC's: for every salt shorter than 2^31 bytes and every output length up to 255
    blocks the code writes exactly the RFC 5869 bytes at the front of the output buffer and
    nothing behind them, an absent or empty salt standing for zeroes; it fails when the MAC does,
    when OpenSSL has no context to give, and for longer outputs, and never leaves the buffer. *)
Theorem hkdf_matches_rfc5869 `{HashLaws} (ikm info out : list Z) (salt : option (list Z)) (l : Z) :
  0 <= l <= len out -> len (default [] salt) < 2147483648 ->
  match (if l <=? 8160 then rfc_hkdf ikm (default [] salt) info l else None) with
  | Some okm => len okm = l /\ sl_hkdf_sha256 ikm salt info out l =
      Ok (if hkdf_ctx ikm (default [] salt) info then (0, okm ++ drop (Z.to_nat l) out) else (-1, out))
  | None => exists out', sl_hkdf_sha256 ikm salt info out l = Ok (-1, out') /\ len out' = len out
  end.
Proof. apply hkdf_spec. Qed.

(** The length of the salt is converted to [int]: of a salt of 2^32 + n bytes only the first n are
    used. *)
Lemma long_salt_truncated `{Hash} ikm s n :
  0 < n < 2147483648 -> len s = 4294967296 + n ->
  sl_hkdf_extract_sha256 ikm (Some s) = sl_hkdf_extract_sha256 ikm (Some (take (Z.to_nat n) s)).
Proof.
  intros Hn Hl. assert (Ht : len (take (Z.to_nat n) s) = n) by (apply len_take; lia).
  unfold sl_hkdf_extract_sha256. rewrite Ht, Hl.
  rewrite (proj2 (Z.eqb_neq (4294967296 + n) 0)), (proj2 (Z.eqb_neq n 0)) by lia. cbv zeta. rewrite Hl, Ht.
  replace (to_int (4294967296 + n)) with n by (unfold to_int; wrap_lia). rewrite to_int_small by lia.
  rewrite !load_bytes_in_bounds by lia. change (drop (Z.to_nat 0) ?x) with x.
  by rewrite take_take, Nat.min_id.
Qed.

(** A checksum in the place of the hash functions. *)
Definition sum_bytes (l : list Z) : Z := foldr (fun b a => b + 3 * a) 7 l mod 256.
#[export] Instance toy_hash : Hash := {|
  sha256 m := replicate 32 (sum_bytes m);
  hmac k m := Some (replicate 32 (sum_bytes (k ++ m)));
  hmac_ctx_new _ _ := true
|}.
#[export] Instance toy_hash_laws : HashLaws.
Proof.
  split; simpl.
  - intros m. split; [done|]. apply (bytes_ok_replicate 32). apply Z.mod_pos_bound. lia.
  - intros k m d [= <-]. split; [done|]. apply (bytes_ok_replicate 32). apply Z.mod_pos_bound. lia.
Qed.

Example hkdf_matches_rfc5869_witness :
  match rfc_hkdf [1; 2] [] [3] 40 with
  | Some okm => len okm = 40 /\
      sl_hkdf_sha256 [1; 2] None [3] (replicate 50 9) 40 = Ok (0, okm ++ replicate 10 9)
  | None => False
  end.
Proof.
  pose proof (hkdf_matches_rfc5869 [1; 2] [3] (replicate 50 9) None 40) as Hk.
  change (if 40 <=? 8160 then rfc_hkdf [1; 2] (default [] None) [3] 40 else None)
    with (rfc_hkdf [1; 2] [] [3] 40) in Hk.
  destruct (rfc_hkdf [1; 2] [] [3] 40) as [okm|] eqn:E; [|vm_compute in E; discriminate].
  apply Hk; vm_compute; [split; congruence|reflexivity].
Defined.

(** ** The schedule *)

Section Schedule.
  Context `{HashLaws}.

(** Filling a whole field. *)
Lemma hkdf_field ikm salt info out l :
  len out = l -> 0 <= l <= 8160 -> len (default [] salt) < 2147483648 ->
  match hkdf_out ikm (default [] salt) info l with
  | Some okm => len okm = l /\ sl_hkdf_sha256 ikm salt info out l = Ok (0, okm)
  | None => exists out', sl_hkdf_sha256 ikm salt info out l = Ok (-1, out')
  end.
Proof.
  intros Ho Hl Hs. pose proof (hkdf_spec ikm info out salt l ltac:(lia) Hs) as E. unfold hkdf_out.
  rewrite (proj2 (Z.leb_le _ _)) in E by lia. destruct (rfc_hkdf _ _ _ _) as [okm|].
  - destruct E as [Hk ->]. destruct (hkdf_ctx _ _ _); [|by exists out]. split; [done|].
    by rewrite drop_ge, app_nil_r by (unfold len in Ho; lia).
  - destruct E as (o & E & _). destruct (hkdf_ctx _ _ _); by exists o.
Qed.

Definition ref_session_keys (m salt : list Z) : option sl_session_keys_t :=
  ck ← hkdf_out m salt SL_KDF_LABEL_CLIENT_KEY 32;
  ci ← hkdf_out m salt SL_KDF_LABEL_CLIENT_IV 12;
  sk ← hkdf_out m salt SL_KDF_LABEL_SERVER_KEY 32;
  si ← hkdf_out m salt SL_KDF_LABEL_SERVER_IV 12;
  Some (mk_keys ck ci sk si).

Definition ref_secret (shared ts : list Z) : option sl_handshake_secret_t :=
  m ← hkdf_out shared ts LABEL_MASTER 32;
  cf ← hkdf_out m [] LABEL_CLIENT_FINISHED 32;
  sf ← hkdf_out m [] LABEL_SERVER_FINISHED 32;
  ks ← ref_session_keys m ts;
  Some (mk_secret m cf sf ks).

(** Run the next derivation of the goal, in both outcomes. *)
Ltac derive_step :=
  match goal with
  | |- context [sl_hkdf_sha256 ?ikm ?salt ?info ?out ?l] =>
      let E := fresh in
      pose proof (hkdf_field ikm salt info out l ltac:(done) ltac:(lia) ltac:(done)) as E;
      cbn [default from_option id] in E;
      destruct (hkdf_out ikm _ info l) as [?|];
      [ rewrite (proj2 E); clear E; cbn [Z.eqb negb mbind option_bind]
      | let o := fresh in destruct E as [o E]; rewrite E; clear E; try done ]
  end.

Lemma session_keys_spec m salt :
  len salt < 2147483648 ->
  sl_session_keys_derive m salt =
  Ok (match ref_session_keys m salt with Some k => (0, k) | None => (-1, zero_keys) end).
Proof.
  intros Hs. unfold sl_session_keys_derive, ref_session_keys. repeat derive_step. done.
Qed.

Lemma secret_spec shared ts :
  len ts < 2147483648 ->
  sl_handshake_secret_derive shared ts =
  Ok (match ref_secret shared ts with
      | Some s => (0, s)
      | None => (-1, sl_handshake_secret_clear)
      end).
Proof.
  intros Hs. unfold sl_handshake_secret_derive, ref_secret. repeat derive_step.
  rewrite session_keys_spec by done. by destruct (ref_session_keys _ _).
Qed.

End Schedule.

(** The handshake key schedule is the documented one: master secret, the two Finished
    keys and the four traffic keys and IVs are the RFC's HKDF outputs under their own labels,
    which are pairwise different from each other and from the rekey and exporter labels; if
    any derivation fails, the caller is left with an all-zero secret and an error. *)
Theorem handshake_secret_schedule `{HashLaws} (shared ts : list Z) :
  len ts = 32 ->
  sl_handshake_secret_derive shared ts =
    Ok (match ref_secret shared ts with
        | Some s => (0, s)
        | None => (-1, sl_handshake_secret_clear)
        end) /\
  NoDup [LABEL_MASTER; LABEL_CLIENT_FINISHED; LABEL_SERVER_FINISHED; SL_KDF_LABEL_CLIENT_KEY;
         SL_KDF_LABEL_CLIENT_IV; SL_KDF_LABEL_SERVER_KEY; SL_KDF_LABEL_SERVER_IV; SL_KDF_LABEL_REKEY;
         SL_KDF_LABEL_EXPORTER].
Proof. intros Hs. split; [apply secret_spec; lia|]. by_deciding. Qed.

Example handshake_secret_schedule_witness :
  exists s, ref_secret [1; 2; 3] (replicate 32 5) = Some s /\
    sl_handshake_secret_derive [1; 2; 3] (replicate 32 5) = Ok (0, s).
Proof.
  destruct (ref_secret [1; 2; 3] (replicate 32 5)) as [s|] eqn:E; [|vm_compute in E; discriminate].
  exists s. split; [done|].
  destruct (handshake_secret_schedule [1; 2; 3] (replicate 32 5) eq_refl) as [Hs _].
  rewrite E in Hs. exact Hs.
Defined.

(** Rekeying: the next secret is derived from the current one, the keys from the next
    secret, and the current one is scrubbed; on an error keys and current secret stay. *)
Lemma rekey_advance_spec `{HashLaws} keys cur next :
  len cur = 32 -> len next = 32 ->
  match (n ← hkdf_out cur [] SL_KDF_LABEL_REKEY 32; k ← ref_session_keys n n; Some (n, k)) with
  | Some (n, k) => sl_rekey_advance keys cur next = Ok (0, k, replicate 32 0, n)
  | None => exists n, sl_rekey_advance keys cur next = Ok (-1, keys, cur, n)
  end.
Proof.
  intros Hc Hn. unfold sl_rekey_advance.
  pose proof (hkdf_field cur None SL_KDF_LABEL_REKEY next 32 Hn) as E. cbn [default from_option] in E.
  destruct (hkdf_out cur [] SL_KDF_LABEL_REKEY 32) as [n|]; cbn [mbind option_bind].
  2: { destruct E as [o ->]; [lia|done|]. by exists o. }
  destruct E as [Hln ->]; [lia|done|]. cbn [Z.eqb negb]. rewrite session_keys_spec by lia.
  destruct (ref_session_keys n n) as [k|]; cbn [mbind option_bind]; [|by exists n].
  cbn [Z.eqb negb]. rewrite <- Hc. rewrite secure_zero_all. by rewrite <- (len_to_nat cur), Hc.
Qed.

(** Peer epochs are accepted one after the other, so no key update is taken twice. *)
Fixpoint accepted_epochs (e : sl_rekey_epochs_t) (incoming : list Z) : list Z * sl_rekey_epochs_t :=
  match incoming with
  | [] => ([], e)
  | i :: inc =>
      let '(rc, e) := sl_rekey_check_peer_epoch e i in
      let '(acc, e) := accepted_epochs e inc in
      (if rc =? 0 then i :: acc else acc, e)
  end.

Lemma accepted_epochs_spec inc : forall e,
  0 <= peer_epoch e -> peer_epoch e + len inc < 4294967296 ->
  let '(acc, e') := accepted_epochs e inc in
  acc = map (fun k => peer_epoch e + 1 + Z.of_nat k) (seq 0 (length acc)) /\
  peer_epoch e' = peer_epoch e + len acc /\ (length acc <= length inc)%nat.
Proof.
  induction inc as [|i inc IH]; intros e H0 Hb; simpl.
  { rewrite len_nil. split_and!; [done|lia|done]. }
  rewrite len_cons in Hb. pose proof (len_nonneg inc). unfold sl_rekey_check_peer_epoch.
  rewrite u32_small by lia. destruct (Z.eqb_spec i (peer_epoch e + 1)) as [->|Hne]; cbn [negb].
  - specialize (IH (mk_epochs (local_epoch e) (peer_epoch e + 1))). cbn [peer_epoch] in IH.
    destruct (accepted_epochs _ inc) as [acc e']. destruct IH as (Ha & Hp & Hl); [lia..|].
    cbn [Z.eqb length seq map]. split_and!; [|rewrite len_cons; lia|lia].
    f_equal; [lia|]. rewrite <- seq_shift, map_map. rewrite Ha at 1. apply map_ext. intros k. lia.
  - specialize (IH e). destruct (accepted_epochs e inc) as [acc e']. destruct IH as (Ha & Hp & Hl); [lia..|].
    cbn [Z.eqb]. split_and!; [done|done|simpl; lia].
Qed.

(** The counter is not strictly increasing at the end of its range: epoch 0 follows the
    last one. *)
Lemma rekey_epoch_wraps l :
  sl_rekey_check_peer_epoch (mk_epochs l UINT32_MAX) 0 = (0, mk_epochs l 0).
Proof. reflexivity. Qed.

(** Exported keys only depend on the label and the context run together, although the
    comment says that hashing them prevents ambiguous pairs. *)
Lemma exporter_label_context_ambiguous `{Hash} es l1 c1 l2 c2 out n :
  l1 ++ c1 = l2 ++ c2 ->
  sl_exporter_derive es l1 (Some c1) out n = sl_exporter_derive es l2 (Some c2) out n.
Proof. intros E. unfold sl_exporter_derive. cbn [default from_option id]. by rewrite E. Qed.
