(* ===== verification/HandshakeEngine.v ===== *)
(** The handshake driver ([inc/handshake_engine.hpp], [src/handshake_engine.cpp]) on top of
    the message codec, the order machine, the transcript and the key schedule, with the
    wrappers of [src/sl_ecdh.c] and [src/sl_ed25519.c] it calls. The elliptic-curve operations
    themselves are OpenSSL's and are a parameter, the class [Curve]. *)

From Stdlib Require Import String.
From S2P Require Import Prelude ByteOrder Codec HandshakeMsg HandshakeState Mem KeySched.
Local Open Scope Z_scope.

(* src/inc/sl_ed25519.h:22-22 *)
Definition SL_ED25519_PUBKEY_LEN : Z := 32.
(* src/inc/sl_ed25519.h:24-24 *)
Definition SL_ED25519_SIG_LEN : Z := 64.
(* src/inc/sl_finished.h:20-20 *)
Definition SL_FINISHED_LEN : Z := 32.

(** OpenSSL: a P-256 key with the encoding of its public point, whether 65 bytes decode to a
    point of the curve other than infinity, the shared secret of a key and a point, and the
    Ed25519 verification of a signature. *)
Class Curve := {
  ec_key : Type;
  ec_public : ec_key -> list Z;
  ec_point_ok : list Z -> bool;
  ecdh_key : ec_key -> list Z -> option (list Z);
  ed_verify : list Z -> list Z -> list Z -> bool
}.

(* src/inc/handshake_engine.hpp:32-37 *)
Inductive HsAction := kNeedMore | kSendBytes | kHandshakeDone | kError.

(* src/inc/handshake_engine.hpp:39-43 *)
Record HsStepResult := mk_step {
  action : HsAction;
  out_bytes : list Z;
  error : string
}.

(* src/inc/handshake_engine.hpp:22-30 *)
Record HandshakeConfig := mk_hcfg {
  cfg_role : HsRole;
  expected_peer_pub : list Z;
  pin_peer_identity : bool
}.

Section Engine.
  Context `{Curve} `{Hash}.

(** Whether the two allocations succeed, and the key that OpenSSL generates. *)
(* src/src/sl_ecdh.c:16-27 *)
Definition sl_ecdh_keypair_new (calloc_ok curve_ok : bool) (generated : option ec_key) : option ec_key :=
  if negb calloc_ok then None else if negb curve_ok then None else generated.

(* src/src/sl_ecdh.c:36-47 *)
Definition sl_ecdh_export_pubkey (kp : ec_key) : option (list Z) :=
  if len (ec_public kp) =? SL_ECDH_PUBKEY_LEN then Some (ec_public kp) else None.

(* src/src/sl_ecdh.c:49-65 *)
Definition sl_ecdh_validate_pubkey (pub : list Z) : M Z :=
  let! b := load pub 0 in
  if negb (b =? 4) then Ok (-1)
  else if ec_point_ok pub then Ok 0 else Ok (-1).

(* src/src/sl_ecdh.c:67-84 *)
Definition sl_ecdh_compute_shared (kp : ec_key) (peer_pub : list Z) : M (option (list Z)) :=
  let! v := sl_ecdh_validate_pubkey peer_pub in
  if negb (v =? 0) then Ok None
  else match ecdh_key kp peer_pub with
       | Some s => if len s =? SL_ECDH_SHARED_LEN then Ok (Some s) else Ok None
       | None => Ok None
       end.

(* src/src/sl_ed25519.c:71-90 *)
Definition sl_ed25519_verify (pub msg sig : list Z) : Z := if ed_verify pub msg sig then 0 else -1.

(** The private key of [cfg] is never read by these functions and is left out. *)
(* src/src/handshake_engine.cpp:25-52 HandshakeEngine::Impl *)
Record Impl := mk_impl {
  cfg : HandshakeConfig;
  fsm : HandshakeState;
  ecdh : option ec_key;
  transcript : sl_transcript_t;
  recv_buf : list Z;
  secret_ready : bool;
  secret : sl_handshake_secret_t;
  peer_ecdh_pub : list Z;
  peer_identity_pub : list Z;
  peer_identity_set : bool
}.

(** [kp] is what [sl_ecdh_keypair_new] returns. *)
(* src/src/handshake_engine.cpp:41-45 HandshakeEngine::Impl::Impl *)
Definition new_engine (c : HandshakeConfig) (kp : option ec_key) : Impl :=
  mk_impl c (new_hs (cfg_role c)) kp sl_transcript_init [] false sl_handshake_secret_clear
    (replicate 65 0) (replicate 32 0) false.

(* src/src/handshake_engine.cpp:63-65 HandshakeEngine::session_keys *)
Definition session_keys (I : Impl) : option sl_session_keys_t :=
  if secret_ready I then Some (app_keys (secret I)) else None.

(* src/src/handshake_engine.cpp:67-72 *)
Definition err (msg : string) : HsStepResult := mk_step kError [] msg.

Definition set_fsm (I : Impl) (h : HandshakeState) : Impl :=
  mk_impl (cfg I) h (ecdh I) (transcript I) (recv_buf I) (secret_ready I) (secret I)
    (peer_ecdh_pub I) (peer_identity_pub I) (peer_identity_set I).
Definition absorb (I : Impl) (data : list Z) : Impl :=
  mk_impl (cfg I) (fsm I) (ecdh I) (sl_transcript_update (transcript I) data) (recv_buf I)
    (secret_ready I) (secret I) (peer_ecdh_pub I) (peer_identity_pub I) (peer_identity_set I).
Definition set_recv_buf (I : Impl) (b : list Z) : Impl :=
  mk_impl (cfg I) (fsm I) (ecdh I) (transcript I) b (secret_ready I) (secret I)
    (peer_ecdh_pub I) (peer_identity_pub I) (peer_identity_set I).
Definition set_peer_ecdh (I : Impl) (p : list Z) : Impl :=
  mk_impl (cfg I) (fsm I) (ecdh I) (transcript I) (recv_buf I) (secret_ready I) (secret I)
    p (peer_identity_pub I) (peer_identity_set I).
Definition set_peer_identity (I : Impl) (p : list Z) : Impl :=
  mk_impl (cfg I) (fsm I) (ecdh I) (transcript I) (recv_buf I) (secret_ready I) (secret I)
    (peer_ecdh_pub I) p true.
Definition set_secret (I : Impl) (ready : bool) (s : sl_handshake_secret_t) : Impl :=
  mk_impl (cfg I) (fsm I) (ecdh I) (transcript I) (recv_buf I) ready s
    (peer_ecdh_pub I) (peer_identity_pub I) (peer_identity_set I).

(* src/src/handshake_engine.cpp:74-90 *)
Definition emit_message (I : Impl) (type : Z) (body : list Z) : M (HsStepResult * Impl) :=
  let! '(rc, hdr) := sl_hs_pack_header [0; 0; 0; 0] type (u32 (len body)) in
  if negb (rc =? 0) then Ok (err "pack_header", I)
  else
    let I := absorb I hdr in
    let I := absorb I body in
    let r := mk_step kSendBytes (hdr ++ body) EmptyString in
    let '(ok, h) := on_sent (fsm I) type in
    let I := set_fsm I h in
    if negb ok then Ok (err "fsm_send_rejected", I) else Ok (r, I).

(** [rnd] is what [sl_rng_bytes] delivers. *)
(* src/src/handshake_engine.cpp:92-113 HandshakeEngine::start *)
Definition engine_start (I : Impl) (rnd : option (list Z)) : M (HsStepResult * Impl) :=
  match ecdh I with
  | None => Ok (err "ecdh_init_failed", I)
  | Some kp =>
      let '(ok, h) := hs_start (fsm I) in
      let I := set_fsm I h in
      if negb ok then Ok (err "fsm_start_failed", I)
      else
        match cfg_role (cfg I) with
        | kServer => Ok (mk_step kNeedMore [] EmptyString, I)
        | kClient =>
            match rnd with
            | None => Ok (err "rng", I)
            | Some r =>
                match sl_ecdh_export_pubkey kp with
                | None => Ok (err "ecdh_export", I)
                | Some p =>
                    let hello := mk_hello r p SL_HS_CIPHER_AES256_GCM in
                    let! '(n, body) := sl_hs_pack_hello hello
                                         (replicate (Z.to_nat SL_HS_HELLO_BODY_LEN) 0) in
                    if n <? 0 then Ok (err "pack_hello", I)
                    else
                      let! b := load_bytes body 0 n in
                      emit_message I SL_HS_CLIENT_HELLO b
                end
            end
        end
  end.

(** The case of [process_one_message] for a Finished. *)
(* src/src/handshake_engine.cpp:172-205 *)
Definition process_finished (I : Impl) (body : list Z) : M (Z * HsStepResult * Impl) :=
  let out := mk_step kNeedMore [] EmptyString in
  if negb (len body =? SL_FINISHED_LEN) then Ok (-1, err "bad_finished", I)
  else
    let check I :=
      let hash := sl_transcript_get (transcript I) in
      let expected_key := match cfg_role (cfg I) with
                          | kClient => server_finished_key (secret I)
                          | kServer => client_finished_key (secret I)
                          end in
      let! v := sl_finished_verify expected_key hash body in
      if negb (v =? 0) then Ok (-1, err "finished_mac_fail", I) else Ok (0, out, I) in
    if negb (secret_ready I) then
      match ecdh I with
      | None => Ok (-1, err "ecdh_compute", I)
      | Some kp =>
          let! sh := sl_ecdh_compute_shared kp (peer_ecdh_pub I) in
          match sh with
          | None => Ok (-1, err "ecdh_compute", I)
          | Some shared =>
              let ts := sl_transcript_get (transcript I) in
              let! '(rc, s) := sl_handshake_secret_derive shared ts in
              let I := set_secret I (secret_ready I) s in
              if negb (rc =? 0) then Ok (-1, err "secret_derive", I)
              else check (set_secret I true s)
          end
      end
    else check I.

(** The code, the result for the caller and the engine. *)
(* src/src/handshake_engine.cpp:115-210 *)
Definition process_one_message (I : Impl) (type : Z) (body : list Z) : M (Z * HsStepResult * Impl) :=
  let out := mk_step kNeedMore [] EmptyString in
  let! '(_, hdr) := sl_hs_pack_header [0; 0; 0; 0] type (len body) in
  let I := absorb I hdr in
  let I := absorb I body in
  let '(ok, h) := on_received (fsm I) type in
  let I := set_fsm I h in
  if negb ok then Ok (-1, err "fsm_recv_rejected", I)
  else if (type =? SL_HS_CLIENT_HELLO) || (type =? SL_HS_SERVER_HELLO) then
    let! r := sl_hs_unpack_hello body in
    match r with
    | None => Ok (-1, err "bad_hello", I)
    | Some h =>
        if negb (hello_cipher h =? SL_HS_CIPHER_AES256_GCM) then Ok (-1, err "bad_cipher", I)
        else
          let! v := sl_ecdh_validate_pubkey (hello_ecdh_pub h) in
          if negb (v =? 0) then Ok (-1, err "bad_peer_ecdh", I)
          else Ok (0, out, set_peer_ecdh I (hello_ecdh_pub h))
    end
  else if type =? SL_HS_CERTIFICATE then
    if negb (len body =? SL_ED25519_PUBKEY_LEN) then Ok (-1, err "bad_cert", I)
    else
      let I := set_peer_identity I body in
      if pin_peer_identity (cfg I) && negb (bool_decide (peer_identity_pub I = expected_peer_pub (cfg I)))
      then Ok (-1, err "peer_identity_pin_mismatch", I)
      else Ok (0, out, I)
  else if type =? SL_HS_CERT_VERIFY then
    if negb (len body =? SL_ED25519_SIG_LEN) then Ok (-1, err "bad_certverify", I)
    else if negb (peer_identity_set I) then Ok (-1, err "certverify_without_cert", I)
    else
      let hash := sl_transcript_get (transcript I) in
      if negb (sl_ed25519_verify (peer_identity_pub I) hash body =? 0)
      then Ok (-1, err "certverify_signature_fail", I)
      else Ok (0, out, I)
  else if type =? SL_HS_FINISHED then process_finished I body
  else Ok (-1, err "unknown_msg_type", I).

(** Each turn removes a header from the buffer, so its length is fuel enough. *)
(* src/src/handshake_engine.cpp:219-233 *)
Fixpoint messages_loop (fuel : nat) (I : Impl) : M (option HsStepResult * Impl) :=
  if SL_HS_HEADER_LEN <=? len (recv_buf I) then
    match fuel with
    | O => Fault
    | S fuel =>
        let! '(rc, type, blen) := sl_hs_unpack_header (recv_buf I) in
        if negb (rc =? 0) then Ok (Some (err "bad_header"), I)
        else if len (recv_buf I) <? SL_HS_HEADER_LEN + blen then Ok (None, I)
        else
          let! body := load_bytes (recv_buf I) SL_HS_HEADER_LEN blen in
          let! '(rc, inner, I) := process_one_message I type body in
          let I := set_recv_buf I (drop (Z.to_nat (SL_HS_HEADER_LEN + blen)) (recv_buf I)) in
          if negb (rc =? 0) then Ok (Some inner, I) else messages_loop fuel I
    end
  else Ok (None, I).

(* src/src/handshake_engine.cpp:212-239 HandshakeEngine::on_bytes *)
Definition on_bytes (I : Impl) (data : list Z) : M (HsStepResult * Impl) :=
  let I := set_recv_buf I (recv_buf I ++ data) in
  let! '(r, I) := messages_loop (length (recv_buf I)) I in
  match r with
  | Some e => Ok (e, I)
  | None =>
      let acc := if decide (state_ (fsm I) = kDone) then kHandshakeDone else kNeedMore in
      Ok (mk_step acc [] EmptyString, I)
  end.

End Engine.

(** ** Every call ends, in bounds *)

(** Close a branch that returned: its code, result and engine are in the goal. *)
Ltac outcome := eexists _, _, _; split_and!; [reflexivity|assumption|auto|done].

Section Total.
  Context `{Curve} `{HashLaws}.

Definition engine_wf (I : Impl) : Prop := len (peer_ecdh_pub I) = 65 /\ bytes_ok (recv_buf I).

Lemma validate_pubkey_spec pub :
  0 < len pub ->
  exists b, sl_ecdh_validate_pubkey pub = Ok (if (b =? 4) && ec_point_ok pub then 0 else -1).
Proof.
  intros Hl. destruct (load_in_bounds pub 0) as (b & E & _); [lia|]. exists b.
  unfold sl_ecdh_validate_pubkey. rewrite E. destruct (b =? 4), (ec_point_ok pub); done.
Qed.

Lemma finished_verify_spec key hash mac :
  bytes_ok mac -> len mac = 32 ->
  sl_finished_verify key hash mac = Ok (if decide (hmac key hash = Some mac) then 0 else -1).
Proof.
  intros Hb Hl. unfold sl_finished_verify, sl_finished_compute.
  destruct (hmac key hash) as [d|] eqn:E; [|by rewrite decide_False].
  destruct (hmac_ok _ _ _ E) as [Hd Hdb]. rewrite Hd. change (32 =? 32) with true. cbv iota.
  rewrite ct_equal_spec by (done || lia).
  rewrite !firstn_all2 by (unfold len in *; lia).
  destruct (decide (d = mac)) as [->|Hne]; [by rewrite decide_True|]. by rewrite decide_False by congruence.
Qed.

Lemma pack_header_any t n : 0 <= n <= 2048 -> sl_hs_pack_header [0; 0; 0; 0] t n = Ok (0, hs_header t n).
Proof. intros. rewrite pack_header_spec by lia. by rewrite app_nil_r. Qed.

(** The derivation step and the check of a Finished, in one equation. *)
Lemma process_finished_spec I body :
  engine_wf I -> bytes_ok body -> len body = 32 ->
  exists rc out I', process_finished I body = Ok (rc, out, I') /\
    (rc = 0 \/ rc = -1) /\ (rc <> 0 -> action out = kError) /\
    cfg I' = cfg I /\ ecdh I' = ecdh I /\ fsm I' = fsm I /\ transcript I' = transcript I /\
    recv_buf I' = recv_buf I /\ peer_ecdh_pub I' = peer_ecdh_pub I /\
    peer_identity_pub I' = peer_identity_pub I /\ peer_identity_set I' = peer_identity_set I /\
    (secret_ready I = true -> secret_ready I' = true /\ secret I' = secret I) /\
    (rc = 0 -> secret_ready I' = true /\
       hmac (match cfg_role (cfg I) with
             | kClient => server_finished_key (secret I')
             | kServer => client_finished_key (secret I') end) (sha256 (ctx (transcript I))) = Some body /\
       (secret_ready I = false -> exists kp shared,
          ecdh I = Some kp /\ ecdh_key kp (peer_ecdh_pub I) = Some shared /\
          ref_secret shared (sha256 (ctx (transcript I))) = Some (secret I'))).
Proof.
  intros [Hp Hr] Hb Hl. unfold process_finished, SL_FINISHED_LEN. rewrite Hl.
  change (32 =? 32) with true. cbn [negb].
  destruct (secret_ready I) eqn:Er; cbn [negb].
  { rewrite finished_verify_spec by done. unfold sl_transcript_get. destruct (decide _) as [Em|Em]; cbn [Z.eqb negb];
      (eexists _, _, _; split; [reflexivity|]; split_and!; auto; done). }
  destruct (ecdh I) as [kp|] eqn:Ek.
  2: { eexists _, _, _; split; [reflexivity|]; split_and!; auto; done. }
  unfold sl_ecdh_compute_shared. destruct (validate_pubkey_spec (peer_ecdh_pub I)) as (b & ->); [lia|].
  destruct (_ && _); cbn [Z.eqb negb].
  2: { eexists _, _, _; split; [reflexivity|]; split_and!; auto; done. }
  destruct (ecdh_key kp (peer_ecdh_pub I)) as [sh|] eqn:Es.
  2: { eexists _, _, _; split; [reflexivity|]; split_and!; auto; done. }
  destruct (len sh =? SL_ECDH_SHARED_LEN).
  2: { eexists _, _, _; split; [reflexivity|]; split_and!; auto; done. }
  unfold sl_transcript_get. rewrite secret_spec by (by rewrite (proj1 (sha256_ok _))). destruct (ref_secret sh _) as [s|] eqn:Ed; cbn [Z.eqb negb].
  2: { eexists _, _, _; split; [reflexivity|]; split_and!; auto; done. }
  rewrite finished_verify_spec by done. cbn [cfg set_secret transcript secret].
  destruct (decide _) as [Em|Em]; cbn [Z.eqb negb].
  - eexists _, _, _. split; [reflexivity|]. split_and!; auto; try done. intros _. split_and!; auto.
    intros _. exists kp, sh. done.
  - eexists _, _, _. split; [reflexivity|]. split_and!; auto; done.
Qed.

(** What every message keeps, and what it adds to the transcript. *)
Definition keeps (I I' : Impl) (t : Z) (body : list Z) : Prop :=
  engine_wf I' /\ cfg I' = cfg I /\ ecdh I' = ecdh I /\ recv_buf I' = recv_buf I /\
  fsm I' = (on_received (fsm I) t).2 /\
  ctx (transcript I') = ctx (transcript I) ++ hs_wire (t, body).

Lemma process_total I t body :
  engine_wf I -> bytes_ok body -> len body <= 2048 ->
  exists rc out I', process_one_message I t body = Ok (rc, out, I') /\ keeps I I' t body /\
    (rc = 0 \/ rc = -1) /\ (rc <> 0 -> action out = kError).
Proof.
  intros Hwf Hb Hl. pose proof (len_nonneg body). unfold process_one_message.
  rewrite pack_header_any by lia.
  set (J := absorb (absorb I (hs_header t (len body))) body).
  change (fsm J) with (fsm I). destruct (on_received (fsm I) t) as [ok h] eqn:Eo.
  assert (HJ : keeps I (set_fsm J h) t body).
  { destruct Hwf. unfold keeps. rewrite Eo. split_and!; try done. simpl. by rewrite <- app_assoc. }
  destruct ok; cbn [negb]; [|outcome].
  destruct (_ || _).
  { destruct (unpack_hello_sound body Hb) as ([h'|] & -> & Hh); [|outcome].
    destruct Hh as [(_ & Hp & _) _].
    destruct (negb _); [outcome|].
    destruct (validate_pubkey_spec (hello_ecdh_pub h')) as (b & ->); [lia|].
    destruct (_ && _); cbn [Z.eqb negb]; [|outcome].
    eexists _, _, _. split; [reflexivity|]. split_and!; [|by left|done].
    destruct HJ as ((_ & Hr) & HJ). split; [|exact HJ]. split; [exact Hp|exact Hr]. }
  destruct (_ =? SL_HS_CERTIFICATE).
  { destruct (negb _); [outcome|].
    destruct (_ && _); outcome. }
  destruct (_ =? SL_HS_CERT_VERIFY).
  { repeat (destruct (negb _); [outcome|]). outcome. }
  destruct (_ =? SL_HS_FINISHED); [|outcome].
  destruct (Z.eqb_spec (len body) 32) as [E32|E32].
  - destruct (process_finished_spec (set_fsm J h) body) as
      (rc & out & I' & E & Hrc & He & Hc & Hk & Hfs & Ht & Hrb & Hp & _); [apply HJ|done|done|].
    exists rc, out, I'. split_and!; auto. destruct HJ as ((Hw1 & Hw2) & HJ). unfold keeps, engine_wf.
    rewrite Hc, Hk, Hfs, Ht, Hrb, Hp. done.
  - unfold process_finished, SL_FINISHED_LEN. rewrite (proj2 (Z.eqb_neq _ _)) by done. cbn [negb].
    outcome.
Qed.

(** The message loop: [P] is kept by accepted messages and [Q] by all; the buffer is split
    into the messages accepted and what is left. *)
Lemma messages_loop_inv (P : Impl -> list (Z * list Z) -> Prop) (Q : Impl -> Prop) :
  (forall I t b out I' rest ms, P I ms -> engine_wf I -> bytes_ok b -> len b <= 2048 ->
     process_one_message I t b = Ok (0, out, I') -> P (set_recv_buf I' rest) (ms ++ [(t, b)])) ->
  (forall I t b I' rest, Q I -> keeps I I' t b -> Q (set_recv_buf I' rest)) ->
  forall fuel I ms0, P I ms0 -> Q I -> engine_wf I -> len (recv_buf I) <= Z.of_nat fuel + 3 ->
  exists r I', messages_loop fuel I = Ok (r, I') /\ engine_wf I' /\ Q I' /\
    match r with
    | None => exists ms, P I' (ms0 ++ ms) /\ recv_buf I = concat (map hs_wire ms) ++ recv_buf I'
    | Some e => action e = kError
    end.
Proof.
  intros HP HQ. induction fuel as [|fuel IH]; intros I ms0 Hp Hq Hwf Hl; cbn [messages_loop]; hs_consts.
  { rewrite (proj2 (Z.leb_gt _ _)) by lia. exists None, I. split_and!; auto. exists []. by rewrite app_nil_r. }
  destruct (Z.leb_spec 4 (len (recv_buf I))) as [H4|H4].
  2: { exists None, I. split_and!; auto. exists []. by rewrite app_nil_r. }
  pose proof (proj2 Hwf) as Hb. destruct (header_of_bytes _ Hb H4) as (t & n & Ht & Hn & Eh).
  set (rest := drop 4 (recv_buf I)) in *. 
  assert (Eu : sl_hs_unpack_header (recv_buf I) = Ok (if 2048 <? n then -1 else 0, t, n)).
  { rewrite Eh. by apply unpack_header_spec. }
  rewrite Eu. clear Eu.
  destruct (Z.ltb_spec 2048 n); cbn [Z.eqb negb]; [eexists _, I; split_and!; auto; done|].
  pose proof (f_equal len Eh) as Hlr. rewrite len_app, len_hs_header in Hlr.
  destruct (Z.ltb_spec (len (recv_buf I)) (4 + n)).
  { exists None, I. split_and!; auto. exists []. by rewrite app_nil_r. }
  destruct (load_bytes_sound (recv_buf I) 4 n) as (body & -> & Hlb & Hbb & Td); [lia..|].
  specialize (Hbb Hb). change (Z.to_nat 4) with 4%nat in Td. fold rest in Td.
  destruct (process_total I t body Hwf Hbb) as (rc & out & J & Ep & HK & Hrc & He); [lia|].
  rewrite Ep. set (J' := set_recv_buf J _).
  assert (Hwf' : engine_wf J').
  { destruct HK as ((K1 & K2) & _). split; [done|]. by apply bytes_ok_drop. }
  specialize (HQ _ _ _ _ (drop (Z.to_nat (4 + n)) (recv_buf J)) Hq HK). fold J' in HQ.
  destruct Hrc as [->| ->]; cbn [Z.eqb negb]; [|exists (Some out), J'; split_and!; auto].
  assert (Erb : recv_buf J' = drop (Z.to_nat (4 + n)) (recv_buf I)).
  { unfold J'. simpl. by destruct HK as (_ & _ & _ & -> & _). }
  pose proof (HP _ _ _ _ _ (drop (Z.to_nat (4 + n)) (recv_buf J)) _ Hp Hwf Hbb ltac:(lia) Ep) as HP'.
  destruct (IH J' _ HP' HQ Hwf') as (r & I' & Er & Hwf2 & HQ2 & Hr).
  { rewrite Erb, len_drop; lia. }
  exists r, I'. split_and!; auto. destruct r as [e|]; [done|]. destruct Hr as (ms & Hp2 & Eb).
  exists ((t, body) :: ms). rewrite <- app_assoc in Hp2. split; [exact Hp2|].
  rewrite Eh, Td, <- Erb, Eb. cbn [map concat]. unfold hs_wire at 2. simpl.
  rewrite Hlb. by rewrite <- !app_assoc.
Qed.

End Total.

(** ** A client that got keys was talking to the server it expects *)

Section Client.
  Context `{Curve} `{HashLaws} (c : HandshakeConfig) (kp : ec_key) (base : list Z).

Definition wires (ms : list (Z * list Z)) : list Z := concat (map hs_wire ms).

Definition hello_fine (I : Impl) (h : sl_hs_hello_t) : Prop :=
  hello_cipher h = SL_HS_CIPHER_AES256_GCM /\ ec_point_ok (hello_ecdh_pub h) = true /\
  peer_ecdh_pub I = hello_ecdh_pub h.

Definition cert_fine (I : Impl) (cert : list Z) : Prop :=
  peer_identity_pub I = cert /\ peer_identity_set I = true /\
  (pin_peer_identity c = true -> cert = expected_peer_pub c).

(** The signature covers everything up to and including the message that carries it. *)
Definition signature_fine (ms : list (Z * list Z)) (cert cv : list Z) : Prop :=
  ed_verify cert (sha256 (base ++ wires ms)) cv = true.

(** So does the Finished. *)
Definition finished_fine (ms : list (Z * list Z)) (h : sl_hs_hello_t) (s : sl_handshake_secret_t)
    (fin : list Z) : Prop :=
  exists shared, ecdh_key kp (hello_ecdh_pub h) = Some shared /\
    ref_secret shared (sha256 (base ++ wires ms)) = Some s /\
    hmac (server_finished_key s) (sha256 (base ++ wires ms)) = Some fin.

(** The messages of an authenticated flight, with the secret they establish. *)
Definition authentic_flight (ms : list (Z * list Z)) (s : sl_handshake_secret_t) : Prop :=
  exists h cert cv fin fins,
    let flight := [(SL_HS_SERVER_HELLO, hello_wire h); (SL_HS_CERTIFICATE, cert);
                   (SL_HS_CERT_VERIFY, cv)] in
    ms = flight ++ map (pair SL_HS_FINISHED) (fin :: fins) /\
    hello_cipher h = SL_HS_CIPHER_AES256_GCM /\ ec_point_ok (hello_ecdh_pub h) = true /\
    (pin_peer_identity c = true -> cert = expected_peer_pub c) /\
    signature_fine flight cert cv /\
    finished_fine (flight ++ [(SL_HS_FINISHED, fin)]) h s fin.

Definition client_phase (I : Impl) (ms : list (Z * list Z)) : Prop :=
  cfg I = c /\ cfg_role c = kClient /\ ecdh I = Some kp /\ role_ (fsm I) = kClient /\
  ctx (transcript I) = base ++ wires ms /\
  match state_ (fsm I) with
  | kWaitServerHello => ms = [] /\ secret_ready I = false
  | kWaitCertificate =>
      exists h, ms = [(SL_HS_SERVER_HELLO, hello_wire h)] /\ hello_fine I h /\ secret_ready I = false
  | kWaitCertVerify =>
      exists h cert, ms = [(SL_HS_SERVER_HELLO, hello_wire h); (SL_HS_CERTIFICATE, cert)] /\
        hello_fine I h /\ cert_fine I cert /\ secret_ready I = false
  | kWaitServerFinished =>
      exists h cert cv fins,
        let flight := [(SL_HS_SERVER_HELLO, hello_wire h); (SL_HS_CERTIFICATE, cert);
                       (SL_HS_CERT_VERIFY, cv)] in
        ms = flight ++ map (pair SL_HS_FINISHED) fins /\
        hello_fine I h /\ cert_fine I cert /\ signature_fine flight cert cv /\
        match fins with
        | [] => secret_ready I = false
        | fin :: _ => secret_ready I = true /\
            finished_fine (flight ++ [(SL_HS_FINISHED, fin)]) h (secret I) fin
        end
  | _ => False
  end.

Lemma wires_snoc ms m : wires (ms ++ [m]) = wires ms ++ hs_wire m.
Proof. unfold wires. rewrite map_app, concat_app. simpl. by rewrite app_nil_r. Qed.

(** The messages a client's machine lets through. *)
Lemma client_receives h t :
  role_ h = kClient -> (on_received h t).1 = true ->
  let h' := (on_received h t).2 in
  role_ h' = kClient /\
  (t = SL_HS_SERVER_HELLO /\ state_ h = kWaitServerHello /\ state_ h' = kWaitCertificate \/
   t = SL_HS_CERTIFICATE /\ state_ h = kWaitCertificate /\ state_ h' = kWaitCertVerify \/
   t = SL_HS_CERT_VERIFY /\ state_ h = kWaitCertVerify /\ state_ h' = kWaitServerFinished \/
   t = SL_HS_FINISHED /\ state_ h = kWaitServerFinished /\ state_ h' = kWaitServerFinished).
Proof.
  destruct h as [r s n m f]. cbn [role_]. intros -> Hok. revert Hok. unfold on_received, is_terminal.
  destruct s; simpl; try done; split_tests; simpl; try done; intros _; split; auto 6.
Qed.

(** Accepting a message of a given type: which checks passed and what was stored. *)
Ltac open_process E :=
  match type of E with process_one_message ?I ?t ?b = _ =>
    unfold process_one_message in E;
    rewrite pack_header_any in E by (pose proof (len_nonneg b); lia);
    cbn [fsm absorb] in E; destruct (on_received (fsm I) t) as [[] ?h]; [|discriminate];
    cbn -[sl_hs_unpack_hello process_finished hs_header app] in E
  end.

Lemma accepted_hello I b out I' :
  bytes_ok b -> len b <= 2048 ->
  process_one_message I SL_HS_SERVER_HELLO b = Ok (0, out, I') ->
  exists h, b = hello_wire h /\ hello_fine I' h /\ secret_ready I' = secret_ready I.
Proof.
  intros Hb Hl E. open_process E.
  destruct (unpack_hello_sound b Hb) as ([h'|] & Eu & Hh); rewrite Eu in E; [|discriminate].
  destruct Hh as [(_ & Hp & _) Ew].
  destruct (Z.eqb_spec (hello_cipher h') SL_HS_CIPHER_AES256_GCM) as [Ec|]; [|discriminate].
  destruct (validate_pubkey_spec (hello_ecdh_pub h')) as (x & Ev); [lia|]. cbn [negb] in E. rewrite Ev in E.
  destruct (x =? 4), (ec_point_ok (hello_ecdh_pub h')) eqn:Eok; try discriminate.
  injection E as <- <-. exists h'. unfold hello_fine. simpl. split_and!; auto.
Qed.

Lemma accepted_cert I b out I' :
  len b <= 2048 -> cfg I = c ->
  process_one_message I SL_HS_CERTIFICATE b = Ok (0, out, I') ->
  cert_fine I' b /\ peer_ecdh_pub I' = peer_ecdh_pub I /\ secret_ready I' = secret_ready I.
Proof.
  intros Hl Hc E. open_process E. destruct (len b =? _); [|discriminate]. cbn [negb] in E.
  rewrite Hc in E. destruct (pin_peer_identity c) eqn:Epin; cbn [andb] in E.
  - destruct (decide (b = expected_peer_pub c)) as [Eb|Eb].
    + rewrite bool_decide_eq_true_2 in E by done. cbn [negb] in E. injection E as <- <-.
      unfold cert_fine. simpl. auto.
    + rewrite bool_decide_eq_false_2 in E by done. discriminate.
  - injection E as <- <-. unfold cert_fine. simpl. rewrite Epin. split_and!; auto; done.
Qed.

Lemma accepted_verify I b out I' :
  len b <= 2048 ->
  process_one_message I SL_HS_CERT_VERIFY b = Ok (0, out, I') ->
  ed_verify (peer_identity_pub I) (sha256 (ctx (transcript I) ++ hs_wire (SL_HS_CERT_VERIFY, b))) b = true /\
  peer_ecdh_pub I' = peer_ecdh_pub I /\ secret_ready I' = secret_ready I /\
  peer_identity_pub I' = peer_identity_pub I /\ peer_identity_set I' = peer_identity_set I.
Proof.
  intros Hl E. open_process E. destruct (len b =? _); [|discriminate]. cbn [negb] in E.
  destruct (peer_identity_set I) eqn:Es; [|discriminate]. cbn [negb] in E.
  unfold sl_ed25519_verify, sl_transcript_get in E. cbn [ctx sl_transcript_update] in E. rewrite <- app_assoc in E.
  change (hs_header SL_HS_CERT_VERIFY (len b) ++ b) with (hs_wire (SL_HS_CERT_VERIFY, b)) in E.
  destruct (ed_verify _ _ _); [|discriminate]. cbn [Z.eqb negb] in E. injection E as <- <-. simpl. auto.
Qed.

Lemma accepted_finished I b out I' :
  bytes_ok b -> len b <= 2048 -> engine_wf I -> cfg_role (cfg I) = kClient ->
  process_one_message I SL_HS_FINISHED b = Ok (0, out, I') ->
  peer_ecdh_pub I' = peer_ecdh_pub I /\ peer_identity_pub I' = peer_identity_pub I /\
  peer_identity_set I' = peer_identity_set I /\ secret_ready I' = true /\
  let hash := sha256 (ctx (transcript I) ++ hs_wire (SL_HS_FINISHED, b)) in
  hmac (server_finished_key (secret I')) hash = Some b /\
  (secret_ready I = true -> secret I' = secret I) /\
  (secret_ready I = false -> exists k shared, ecdh I = Some k /\
     ecdh_key k (peer_ecdh_pub I) = Some shared /\ ref_secret shared hash = Some (secret I')).
Proof.
  intros Hb Hl [Hw1 Hw2] Hr E. open_process E.
  set (J := set_fsm _ _) in E.
  destruct (Z.eqb_spec (len b) 32) as [E32|E32].
  2: { unfold process_finished, SL_FINISHED_LEN in E. rewrite (proj2 (Z.eqb_neq _ _)) in E by done. discriminate. }
  destruct (process_finished_spec J b) as
    (rc & o & I2 & E2 & _ & _ & _ & _ & _ & _ & _ & P1 & P2 & P3 & P4 & P5); [done|done|done|].
  assert (rc = 0 /\ I2 = I') as [-> ->] by (split; congruence).
  destruct (P5 eq_refl) as (R1 & R2 & R3). unfold J in *. cbn [secret transcript set_fsm absorb ctx sl_transcript_update cfg ecdh secret_ready peer_ecdh_pub] in R2, P4, R3.
  rewrite Hr in R2.
  rewrite <- app_assoc in R2, R3. cbv zeta. split_and!; auto. intros Hsr. by apply P4.
Qed.

Lemma client_phase_step I t b out I' rest ms :
  client_phase I ms -> engine_wf I -> bytes_ok b -> len b <= 2048 ->
  process_one_message I t b = Ok (0, out, I') -> client_phase (set_recv_buf I' rest) (ms ++ [(t, b)]).
Proof.
  intros (Hc & Hrole & Hk & Hr & Ht & Hs) Hwf Hb Hl Ep.
  destruct (process_total I t b Hwf Hb Hl) as (rc & o & J & Ep' & HK & _).
  assert (J = I') as -> by congruence. clear Ep'.
  destruct HK as (_ & K2 & K3 & _ & K4 & K5).
  assert (Hok : (on_received (fsm I) t).1 = true).
  { revert Ep. unfold process_one_message. rewrite pack_header_any by (pose proof (len_nonneg b); lia).
    cbn [fsm absorb]. destruct (on_received (fsm I) t) as [[] h]; [done|]. simpl. congruence. }
  destruct (client_receives (fsm I) t Hr Hok) as [Hr' Hcases].
  unfold client_phase. cbn [cfg ecdh fsm transcript set_recv_buf secret_ready secret].
  rewrite K2, K3, K4, K5, Ht, wires_snoc, <- app_assoc. split_and!; try done.
  destruct Hcases as [(-> & E1 & E2)|[(-> & E1 & E2)|[(-> & E1 & E2)|(-> & E1 & E2)]]];
    rewrite E1 in Hs; rewrite E2.
  - destruct Hs as [-> Hsr]. destruct (accepted_hello I b out I' Hb Hl Ep) as (h & -> & Hh & Hs').
    exists h. split_and!; [done|exact Hh|congruence].
  - destruct Hs as (h & -> & Hh & Hsr). destruct (accepted_cert I b out I' Hl Hc Ep) as (Hcert & Hp & Hs').
    exists h, b. split_and!; [done| |exact Hcert|congruence].
    destruct Hh as (? & ? & Hp'). split_and!; auto. simpl. congruence.
  - destruct Hs as (h & cert & -> & Hh & Hcert & Hsr).
    destruct (accepted_verify I b out I' Hl Ep) as (Hv & Hp & Hs' & Hi & Hset).
    destruct Hh as (? & ? & Hp'). destruct Hcert as (Ei & Es & Epin).
    exists h, cert, b, []. split_and!; auto; try congruence.
    + split_and!; auto. simpl. congruence.
    + split_and!; auto; simpl; congruence.
    + unfold signature_fine. rewrite Ei, Ht, <- app_assoc, <- wires_snoc in Hv. exact Hv.
  - destruct Hs as (h & cert & cv & fins & -> & Hh & Hcert & Hsig & Hfin).
    rewrite <- Hc in Hrole.
    destruct (accepted_finished I b out I' Hb Hl Hwf Hrole Ep) as (Hp & Hi & Hset & Hrdy & Hmac & Hold & Hnew).
    destruct Hh as (? & ? & Hp'). destruct Hcert as (Ei & Es & Epin).
    exists h, cert, cv, (fins ++ [b]). split_and!.
    + by rewrite map_app, app_assoc.
    + split_and!; auto. simpl. congruence.
    + split_and!; auto; simpl; congruence.
    + exact Hsig.
    + destruct fins as [|f fins]; simpl.
      * split; [done|]. destruct (Hnew Hfin) as (k & shared & Ek & Esh & Erf).
        rewrite Ht, app_nil_r, <- app_assoc, <- wires_snoc in *. exists shared.
        assert (k = kp) as -> by congruence. rewrite <- Hp'. split_and!; done.
      * destruct Hfin as [Hrd Hff]. rewrite (Hold Hrd). split; [done|exact Hff].
Qed.

Lemma on_bytes_spec I d (Q : Impl -> Prop) :
  engine_wf I -> bytes_ok d -> Q I ->
  (forall I rest, Q I -> Q (set_recv_buf I rest)) ->
  (forall I t b I' rest, Q I -> keeps I I' t b -> Q (set_recv_buf I' rest)) ->
  exists r I', on_bytes I d = Ok (r, I') /\ engine_wf I' /\ Q I' /\
    (action r = kHandshakeDone -> state_ (fsm I') = kDone) /\
    (forall ms, client_phase I ms -> action r <> kError ->
       exists ms', client_phase I' (ms ++ ms') /\ recv_buf I ++ d = wires ms' ++ recv_buf I').
Proof.
  intros [Hw1 Hw2] Hd HQ HQr HQk. unfold on_bytes. set (J := set_recv_buf I (recv_buf I ++ d)).
  assert (HwJ : engine_wf J) by (split; [exact Hw1|by apply bytes_ok_app]).
  assert (Hfuel : len (recv_buf J) <= Z.of_nat (length (recv_buf J)) + 3) by (unfold len; lia).
  destruct (messages_loop_inv (fun I' ms => forall ms0, client_phase I ms0 -> client_phase I' (ms0 ++ ms)) Q)
    with (fuel := length (recv_buf J)) (I := J) (ms0 := @nil (Z * list Z))
    as (r & I' & -> & Hwf & HQ' & Hr); [..|done|done|].
  - intros I1 t b out I2 rest ms Hp Hwf Hb Hl Ep ms0 Hm. rewrite app_assoc.
    by apply (client_phase_step I1 t b out I2 rest (ms0 ++ ms) (Hp ms0 Hm)).
  - exact HQk.
  - intros ms0 Hm. rewrite app_nil_r. exact Hm.
  - by apply HQr.
  - destruct r as [e|].
    { exists e, I'. split_and!; [done|done|done|intros ?; congruence|done]. }
    destruct Hr as (ms & Hp & Eb). eexists _, I'. split; [reflexivity|]. split_and!; [done|done| |].
    + cbn [action]. by destruct (decide (state_ (fsm I') = kDone)).
    + intros ms0 Hm _. exists ms. split; [by apply Hp|exact Eb].
Qed.

End Client.

(** ** Whole conversations *)

(** Feeding the bytes that arrive, chunk by chunk. *)
Fixpoint feed_engine `{Curve} `{Hash} (I : Impl) (chunks : list (list Z)) : M (list HsStepResult * Impl) :=
  match chunks with
  | [] => Ok ([], I)
  | d :: ds =>
      let! '(r, I) := on_bytes I d in
      let! '(rs, I) := feed_engine I ds in
      Ok (r :: rs, I)
  end.

Section Runs.
  Context `{Curve} `{HashLaws}.

Lemma feed_client c kp base chunks : forall I,
  engine_wf I -> Forall bytes_ok chunks ->
  exists rs I', feed_engine I chunks = Ok (rs, I') /\
    (forall ms, client_phase c kp base I ms -> Forall (fun r => action r <> kError) rs ->
       exists ms', client_phase c kp base I' (ms ++ ms') /\
         recv_buf I ++ concat chunks = wires ms' ++ recv_buf I').
Proof.
  induction chunks as [|d ds IH]; intros I Hwf Hb; cbn [feed_engine].
  { exists [], I. split; [done|]. intros ms Hp _. exists []. rewrite !app_nil_r. done. }
  apply Forall_cons in Hb as [Hd Hds].
  destruct (on_bytes_spec c kp base I d (fun _ => True)) as (r & J & -> & HwJ & _ & _ & HJ); [done..|].
  destruct (IH J HwJ Hds) as (rs & I' & -> & HI). eexists _, _. split; [reflexivity|].
  intros ms Hp [Hr Hrs]%Forall_cons. destruct (HJ ms Hp Hr) as (ms1 & Hp1 & E1).
  destruct (HI _ Hp1 Hrs) as (ms2 & Hp2 & E2). exists (ms1 ++ ms2).
  rewrite app_assoc. split; [done|]. cbn [concat]. rewrite app_assoc, E1, <- app_assoc, E2.
  unfold wires. rewrite map_app, concat_app. by rewrite <- app_assoc.
Qed.

(** The client's opening message. *)
Lemma client_start_spec c kp r :
  cfg_role c = kClient -> len r = 32 -> len (ec_public kp) = 65 ->
  let base := hs_wire (SL_HS_CLIENT_HELLO, hello_wire (mk_hello r (ec_public kp) SL_HS_CIPHER_AES256_GCM)) in
  exists I, engine_start (new_engine c (Some kp)) (Some r) = Ok (mk_step kSendBytes base EmptyString, I) /\
    engine_wf I /\ client_phase c kp base I [] /\ recv_buf I = [].
Proof.
  intros Hc Hr Hp base. unfold engine_start, new_engine. cbn [ecdh fsm set_fsm cfg]. rewrite Hc.
  change (hs_start (new_hs kClient)) with (true, mk_hs kClient kWaitServerHello 0 0 EmptyString).
  cbn [negb cfg set_fsm]. unfold sl_ecdh_export_pubkey, SL_ECDH_PUBKEY_LEN. rewrite Hp.
  change (65 =? 65) with true. cbv iota.
  set (hello := mk_hello r (ec_public kp) SL_HS_CIPHER_AES256_GCM) in *.
  assert (Hh : hello_ok hello) by (unfold hello_ok, hello, SL_HS_CIPHER_AES256_GCM; simpl; lia).
  assert (Hlw : len (hello_wire hello) = 99) by (unfold hello_wire; rewrite !len_app, len_be16; simpl; lia).
  rewrite pack_hello_spec by (done || vm_compute; congruence). cbn [Z.ltb Z.compare].
  rewrite load_bytes_front by done. unfold emit_message. rewrite Hlw.
  rewrite u32_small, pack_header_any by lia. change (99 <? 0) with false. cbn [Z.eqb negb].
  set (J := absorb _ _). change (on_sent (fsm J) SL_HS_CLIENT_HELLO)
    with (true, mk_hs kClient kWaitServerHello 1 0 EmptyString). cbn [negb].
  assert (Hb : base = hs_header SL_HS_CLIENT_HELLO 99 ++ hello_wire hello).
  { unfold base, hs_wire. cbn [fst snd]. by rewrite Hlw. }
  rewrite <- Hb. eexists. split; [reflexivity|].
  split_and!; [split; [done|constructor]| |done].
  split_and!; try done. unfold J. cbn [transcript set_fsm absorb sl_transcript_update ctx sl_transcript_init].
  by rewrite app_nil_l, <- Hb, app_nil_r.
Qed.

End Runs.

(** C1: Authentication of the handshake, client side. A started client accepts any chunks
    of bytes without leaving its buffers. If no call reported an error and session keys are
    available, then the bytes fed are a ServerHello with a valid point, a Certificate (the
    pinned one, when pinning), a CertVerify whose signature by that identity checks, and a
    Finished whose MAC under the derived key checks, possibly more Finished messages, and an
    incomplete rest; and the keys are those of the secret derived from the ECDH agreement. The
    transcript hash under the signature, the MAC and the secret is the engine's current one,
    over everything sent and received up to and including the very message that is checked
    (the messages are documented to be signed over the hash before them, which the engine
    refuses: see documented_signature_refused). *)
Theorem client_keys_authenticated `{Curve} `{HashLaws} (c : HandshakeConfig) (kp : ec_key) (r : list Z)
    (chunks : list (list Z)) :
  cfg_role c = kClient -> len r = 32 -> len (ec_public kp) = 65 -> Forall bytes_ok chunks ->
  exists hello I0 rs I,
    engine_start (new_engine c (Some kp)) (Some r) = Ok (mk_step kSendBytes hello EmptyString, I0) /\
    feed_engine I0 chunks = Ok (rs, I) /\
    (Forall (fun r => action r <> kError) rs -> forall ks, session_keys I = Some ks ->
       exists ms s, concat chunks = wires ms ++ recv_buf I /\
         authentic_flight c kp hello ms s /\ ks = app_keys s).
Proof.
  intros Hc Hr Hp Hb. destruct (client_start_spec c kp r Hc Hr Hp) as (I0 & E0 & Hwf & Hph & Hrb).
  match type of E0 with _ = Ok (mk_step _ ?b _, _) => set (base := b) in * end.
  destruct (feed_client c kp base chunks I0 Hwf Hb) as (rs & I & Ef & HI).
  exists base, I0, rs, I. split_and!; [done|done|]. intros Hne ks Hks.
  destruct (HI [] Hph Hne) as (ms & Hpms & Ec). rewrite Hrb in Ec. simpl in Hpms, Ec.
  unfold session_keys in Hks. destruct (secret_ready I) eqn:Er; [|done].
  exists ms, (secret I). split_and!; [done| |congruence].
  destruct Hpms as (_ & _ & _ & _ & _ & Hs). destruct (state_ (fsm I)); try done.
  - destruct Hs as [_ Hs]. congruence.
  - destruct Hs as (h & _ & _ & Hs). congruence.
  - destruct Hs as (h & cert & _ & _ & _ & Hs). congruence.
  - destruct Hs as (h & cert & cv & [|fin fins] & -> & Hh & Hcert & Hsig & Hf); [congruence|].
    destruct Hf as [_ Hf]. destruct Hh as (? & ? & _). destruct Hcert as (_ & _ & Hpin).
    by exists h, cert, cv, fin, fins.
Qed.

(** The engine only ever sends the ClientHello, so neither role can reach [kDone]. *)
Definition short_of_done (h : HandshakeState) : Prop :=
  match role_ h with
  | kClient => state_ h <> kDone
  | kServer => state_ h = kInit \/ state_ h = kWaitClientHello \/ state_ h = kFailed
  end.

Lemma short_of_done_received h t : short_of_done h -> short_of_done (on_received h t).2.
Proof.
  destruct h as [[] s n m f]; unfold short_of_done, on_received, is_terminal; cbn [role_ state_].
  - destruct s; simpl; try done; split_tests; done.
  - intros [->|[->| ->]]; simpl; split_tests; simpl; auto.
Qed.

(** A toy curve: every point starting with 4 is one, the shared secret is a byte string made
    of the two halves' sums, and a signature verifies when it starts with the key's first
    byte and the first byte of the message. *)
#[export] Instance toy_curve : Curve := {|
  ec_key := Z;
  ec_public k := 4 :: replicate 64 (k mod 256);
  ec_point_ok _ := true;
  ecdh_key k p := Some (replicate 32 ((k + sum_bytes p) mod 256));
  ed_verify pub m sig := bool_decide (head pub = head sig) && bool_decide (sig !! 1%nat = head m)
|}.

Definition toy_flight (cert cv fin : list Z) : list Z :=
  hs_wire (SL_HS_SERVER_HELLO, hello_wire (mk_hello (replicate 32 9) (4 :: replicate 64 8) 1))
  ++ hs_wire (SL_HS_CERTIFICATE, cert) ++ hs_wire (SL_HS_CERT_VERIFY, cv) ++ hs_wire (SL_HS_FINISHED, fin).

Definition toy_key : @ec_key toy_curve := 3.
Definition toy_cfg : HandshakeConfig := mk_hcfg kClient (replicate 32 5) true.

(** What the engine does with the chunks it is fed. *)
Definition toy_engine (chunks : list (list Z)) : M (list (HsAction * string) * option sl_session_keys_t) :=
  let! '(_, e) := engine_start (new_engine toy_cfg (Some toy_key)) (Some (replicate 32 1)) in
  let! '(rs, e) := feed_engine e chunks in
  Ok (map (fun r => (action r, error r)) rs, session_keys e).

Lemma toy_engine_run chunks r e rs e' :
  engine_start (new_engine toy_cfg (Some toy_key)) (Some (replicate 32 1)) = Ok (r, e) ->
  feed_engine e chunks = Ok (rs, e') -> toy_engine chunks = Ok (map (fun r => (action r, error r)) rs, session_keys e').
Proof. intros H1 H2. unfold toy_engine. rewrite H1, H2. reflexivity. Qed.

(** A flight fed in two chunks. *)
Definition toy_run (cert cv fin : list Z) : M (list (HsAction * string) * option sl_session_keys_t) :=
  let w := toy_flight cert cv fin in toy_engine [take 207 w; drop 207 w].

(** A signature with a byte chosen such that its second one is the first of the hash over the
    transcript with it. *)
Definition toy_sig : list Z := 5 :: 5 :: 45 :: replicate 61 5.

Definition toy_chunks : list (list Z) :=
  let w := toy_flight (replicate 32 5) toy_sig (replicate 32 7) in [take 207 w; drop 207 w].

(** A conversation without an error, and with keys. *)
Lemma toy_conversation_has_keys :
  exists ks, toy_engine toy_chunks = Ok ([(kNeedMore, EmptyString); (kNeedMore, EmptyString)], Some ks).
Proof. eexists. vm_compute. reflexivity. Qed.

Example client_keys_authenticated_witness :
  exists hello I0 rs I ks,
    engine_start (new_engine toy_cfg (Some toy_key)) (Some (replicate 32 1)) =
      Ok (mk_step kSendBytes hello EmptyString, I0) /\
    feed_engine I0 toy_chunks = Ok (rs, I) /\ session_keys I = Some ks /\
    exists ms s, concat toy_chunks = wires ms ++ recv_buf I /\
      authentic_flight toy_cfg toy_key hello ms s /\ ks = app_keys s.
Proof.
  destruct (client_keys_authenticated toy_cfg toy_key (replicate 32 1) toy_chunks) as (hello & I0 & rs & I & E0 & Ef & Hk).
  - reflexivity.
  - reflexivity.
  - reflexivity.
  - by_deciding.
  - destruct toy_conversation_has_keys as [ks Hr]. rewrite (toy_engine_run toy_chunks _ _ _ _ E0 Ef) in Hr. injection Hr as Hrs Hks.
    exists hello, I0, rs, I, ks. split; [exact E0|]. split; [exact Ef|]. split; [exact Hks|].
    apply Hk; [|exact Hks]. destruct rs as [|r1 [|r2 [|r3 rs]]]; try discriminate. injection Hrs as H2 _ H3 _.
    constructor; [by rewrite H2|]. constructor; [by rewrite H3|]. constructor.
Defined.

(** A signature over the transcript before the message, as the protocol is documented, is refused:
    one that checks for that hash only does not check for the hash with the signature in it. *)
Lemma documented_signature_refused `{Curve} `{Hash} (I : Impl) (sig : list Z) :
  (on_received (fsm I) SL_HS_CERT_VERIFY).1 = true -> peer_identity_set I = true -> len sig = 64 ->
  (forall m, ed_verify (peer_identity_pub I) m sig = true -> m = sha256 (ctx (transcript I))) ->
  sha256 (ctx (transcript I) ++ hs_wire (SL_HS_CERT_VERIFY, sig)) <> sha256 (ctx (transcript I)) ->
  exists I', process_one_message I SL_HS_CERT_VERIFY sig = Ok (-1, err "certverify_signature_fail", I').
Proof.
  intros Hok Hset Hl Honly Hne. unfold process_one_message. rewrite pack_header_any by lia. cbn [fsm absorb].
  destruct (on_received (fsm I) SL_HS_CERT_VERIFY) as [ok h]. cbn [fst] in Hok. subst ok. cbn [negb].
  change ((SL_HS_CERT_VERIFY =? SL_HS_CLIENT_HELLO) || (SL_HS_CERT_VERIFY =? SL_HS_SERVER_HELLO)) with false.
  change (SL_HS_CERT_VERIFY =? SL_HS_CERTIFICATE) with false. change (SL_HS_CERT_VERIFY =? SL_HS_CERT_VERIFY) with true. cbv iota.
  unfold SL_ED25519_SIG_LEN. rewrite Hl. cbn [Z.eqb Pos.eqb negb peer_identity_set set_fsm absorb]. rewrite Hset. cbn [negb].
  unfold sl_ed25519_verify, sl_transcript_get. cbn [transcript ctx sl_transcript_update set_fsm absorb peer_identity_pub].
  destruct (ed_verify _ _ _) eqn:Ev; [|eexists; reflexivity]. exfalso. apply Hne. apply Honly. rewrite <- app_assoc in Ev.
  unfold hs_wire. cbn [fst snd]. by rewrite Hl.
Qed.

(** A failed signature check is reported but not remembered: the machine has already moved
    on, and the next call accepts the Finished and hands out keys. *)
Lemma engine_forgets_failed_signature :
  exists cv fin ks, toy_run (replicate 32 5) cv fin =
    Ok ([(kError, "certverify_signature_fail"%string); (kNeedMore, EmptyString)], Some ks).
Proof. exists (replicate 64 6), (replicate 32 7). eexists. vm_compute. reflexivity. Qed.

(** Keys are handed out although the Finished MAC failed. *)
Lemma engine_keys_without_finished :
  exists fin ks, toy_run (replicate 32 5) toy_sig fin =
    Ok ([(kNeedMore, EmptyString); (kError, "finished_mac_fail"%string)], Some ks).
Proof. exists (replicate 32 8). eexists. vm_compute. reflexivity. Qed.

(** Whatever is fed to an engine of either role, no call reports [kHandshakeDone]. *)
Lemma engine_never_done `{Curve} `{HashLaws} (k : ec_key) chunks : forall I,
  engine_wf I -> short_of_done (fsm I) -> Forall bytes_ok chunks ->
  exists rs I', feed_engine I chunks = Ok (rs, I') /\ short_of_done (fsm I') /\
    Forall (fun r => action r <> kHandshakeDone) rs.
Proof.
  induction chunks as [|d ds IH]; intros I Hwf Hq Hb; cbn [feed_engine]; [by exists [], I|].
  apply Forall_cons in Hb as [Hd Hds].
  destruct (on_bytes_spec (cfg I) k [] I d (fun I => short_of_done (fsm I)))
    as (r & J & -> & HwJ & HqJ & Hdone & _); [done..| |].
  { intros I1 t b I2 rest Hq1 (_ & _ & _ & _ & E & _). cbn [fsm set_recv_buf]. rewrite E.
    by apply short_of_done_received. }
  destruct (IH J HwJ HqJ Hds) as (rs & I' & -> & Hq' & Hrs). eexists _, _. split; [reflexivity|].
  split; [done|]. constructor; [|done]. intros Ha. specialize (Hdone Ha). revert HqJ Hdone.
  unfold short_of_done. destruct (role_ (fsm J)); [congruence|]. intros [E|[E|E]]; congruence.
Qed.
