(* ===== verification/Hex.v ===== *)
(** Hexadecimal text ([src/sl_hexstr.c], the hex helpers of
    [src/sl_trace_id.c] and [src/sl_trace_flags.c]). A [char] is its code; a C string is a
    buffer with a 0 in it. *)

From S2P Require Import Prelude ByteOrder Mem.
Local Open Scope Z_scope.

(** The table [d] both encoders index. *)
Definition hex_table : list Z :=
  [48; 49; 50; 51; 52; 53; 54; 55; 56; 57; 97; 98; 99; 100; 101; 102].

(** The body shared by [sl_hexstr_encode] and [bytes_to_hex]. *)
(* src/src/sl_hexstr.c:11-16 *)
Definition encode_bytes (inp : list Z) (n : Z) (out : list Z) : M (Z * list Z) :=
  let! out := for_up (Z.to_nat n) 0 (fun i out =>
    let! x := load inp i in
    let! hi := load hex_table (Z.land (x ≫ 4) 0x0F) in
    let! out := store out (2 * i) hi in
    let! lo := load hex_table (Z.land x 0x0F) in
    store out (2 * i + 1) lo) out in
  let! out := store out (n * 2) 0 in
  Ok (n * 2, out).

(* src/src/sl_hexstr.c:7-17 *)
Definition sl_hexstr_encode (inp out : list Z) : M (Z * list Z) :=
  if len out <? u64 (u64 (len inp * 2) + 1) then Ok (-1, out)
  else encode_bytes inp (len inp) out.

(* src/src/sl_hexstr.c:19-24 *)
Definition nibble (c : Z) : option Z :=
  if (48 <=? c) && (c <=? 57) then Some (u8 (c - 48))
  else if (97 <=? c) && (c <=? 102) then Some (u8 (c - 97 + 10))
  else if (65 <=? c) && (c <=? 70) then Some (u8 (c - 65 + 10))
  else None.

(** The reading loop shared by [sl_hexstr_decode] and [hex_to_bytes], which differ in the
    digits they take; [inr tt] is the early [return -1]. *)
(* src/src/sl_hexstr.c:28-33 *)
Definition read_digits (digit : Z -> option Z) (inp : list Z) (n : Z) (out : list Z)
  : M (list Z + list Z) :=
  for_ret (Z.to_nat n) 0 (fun i out =>
    let! a := load inp (2 * i) in
    match digit a with
    | None => Ok (inr out)
    | Some hi =>
        let! b := load inp (2 * i + 1) in
        match digit b with
        | None => Ok (inr out)
        | Some lo => let! out := store out i (u8 (Z.lor (hi ≪ 4) lo)) in Ok (inl out)
        end
    end) out.

(* src/src/sl_hexstr.c:26-36 *)
Definition sl_hexstr_decode (inp out : list Z) (expected_len : Z) : M (Z * list Z) :=
  let! r := read_digits nibble inp expected_len out in
  match r with
  | inr out => Ok (-1, out)
  | inl out =>
      let! z := load inp (2 * expected_len) in
      if negb (z =? 0) then Ok (-1, out) else Ok (0, out)
  end.

(* src/src/sl_hexstr.c:38-45 *)
Definition sl_hexstr_ct_equal (a b : list Z) (n : Z) : M Z := sl_ct_equal a b (n * 2).

(** ** Reference *)

Definition hex_digit (v : Z) : Z := if v <? 10 then 48 + v else 87 + v.
Definition hex_of (l : list Z) : list Z := l ≫= fun x => [hex_digit (x / 16); hex_digit (x mod 16)].

(** Reading digits two by two. *)
Fixpoint unhex (digit : Z -> option Z) (s : list Z) : option (list Z) :=
  match s with
  | [] => Some []
  | a :: b :: s => hi ← digit a; lo ← digit b; r ← unhex digit s; Some (hi * 16 + lo :: r)
  | _ => None
  end.

(** What a digit reader must do: values are nibbles, and 0 is no digit. *)
Class DigitReader (digit : Z -> option Z) : Prop := {
  digit_range : forall c v, digit c = Some v -> 0 <= v < 16;
  digit_nul : digit 0 = None;
  digit_of : forall v, 0 <= v < 16 -> digit (hex_digit v) = Some v
}.

#[export] Instance nibble_reader : DigitReader nibble.
Proof.
  split.
  - intros c v. unfold nibble. destruct (Z.leb_spec 48 c), (Z.leb_spec c 57); cbn [andb];
      destruct (Z.leb_spec 97 c), (Z.leb_spec c 102); cbn [andb];
      destruct (Z.leb_spec 65 c), (Z.leb_spec c 70); cbn [andb]; intros; simplify_eq;
      rewrite u8_small; lia.
  - reflexivity.
  - intros v Hv. pose proof (byte_cases (fun v => (16 <=? v) || bool_decide (nibble (hex_digit v) = Some v))) as E.
    specialize (E ltac:(vm_compute; reflexivity) v ltac:(lia)). simpl in E.
    rewrite (proj2 (Z.leb_gt _ _)) in E by lia. by apply bool_decide_eq_true in E.
Qed.

Lemma hex_table_digit v : 0 <= v < 16 -> load hex_table v = Ok (hex_digit v).
Proof.
  intros Hv. pose proof (byte_cases (fun v => (16 <=? v) ||
    match load hex_table v with Ok x => x =? hex_digit v | Fault => false end)) as E.
  specialize (E ltac:(vm_compute; reflexivity) v ltac:(lia)). simpl in E.
  rewrite (proj2 (Z.leb_gt _ _)) in E by lia. destruct (load hex_table v); [|done].
  apply Z.eqb_eq in E. by subst.
Qed.

Lemma high_nibble x : is_u8 x -> Z.land (x ≫ 4) 0x0F = x / 16.
Proof.
  intros. change 0x0F with (Z.ones 4). rewrite Z.land_ones, Z.shiftr_div_pow2 by lia.
  change (2 ^ 4) with 16. apply Z.mod_small. split; [apply Z.div_pos; lia|apply Z.div_lt_upper_bound; lia].
Qed.
Lemma low_nibble x : Z.land x 0x0F = x mod 16.
Proof. change 0x0F with (Z.ones 4). by rewrite Z.land_ones by lia. Qed.

Lemma combine_nibbles hi lo : 0 <= hi < 16 -> 0 <= lo < 16 -> u8 (Z.lor (hi ≪ 4) lo) = hi * 16 + lo.
Proof. intros. rewrite lor_shiftl_add by lia. change (2 ^ 4) with 16. apply u8_small. lia. Qed.

Lemma len_hex_of l : len (hex_of l) = 2 * len l.
Proof. induction l as [|x l IH]; [done|]. unfold hex_of in *. cbn [mbind list_bind app]. rewrite !len_cons, IH. lia. Qed.
#[export] Hint Rewrite len_hex_of : len.

Lemma hex_of_app l k : hex_of (l ++ k) = hex_of l ++ hex_of k.
Proof. apply bind_app. Qed.

Lemma store_pair (w t : list Z) a b x y i :
  i = len w ->
  (let! o := store (w ++ a :: b :: t) i x in store o (i + 1) y) = Ok ((w ++ [x; y]) ++ t).
Proof.
  intros ->. rewrite store_app_at by done.
  replace (w ++ x :: b :: t) with ((w ++ [x]) ++ b :: t) by (by rewrite <- app_assoc).
  rewrite store_app_at by len_lia. by rewrite <- !app_assoc.
Qed.

(** The encoder writes the reference text and a terminator. *)
Lemma encode_bytes_spec inp out :
  bytes_ok inp -> 2 * len inp + 1 <= len out ->
  encode_bytes inp (len inp) out =
  Ok (len inp * 2, hex_of inp ++ 0 :: drop (S (length (hex_of inp))) out).
Proof.
  intros Hb Ho. unfold encode_bytes. rewrite len_to_nat. set (body := fun i out => _).
  destruct (for_up_inv (fun i o => let w := hex_of (take (Z.to_nat i) inp) in o = w ++ drop (length w) out)
    body (length inp) 0 out) as (o & -> & ->); [done| |].
  - intros j o Hj ->. destruct (lookup_lt_is_Some_2 inp (Z.to_nat j)) as [x Hx]; [lia|].
    pose proof (Forall_lookup_1 _ _ _ _ Hb Hx) as Rx. cbv beta in Rx. unfold body. cbv zeta.
    rewrite (load_ok inp j x) by (done || lia). rewrite high_nibble, low_nibble by done.
    rewrite !hex_table_digit by (Z.div_mod_to_equations; lia).
    replace (Z.to_nat (j + 1)) with (S (Z.to_nat j)) by lia.
    rewrite (take_S_r _ _ x), hex_of_app by done. set (w := hex_of (take (Z.to_nat j) inp)).
    assert (Hw : len w = 2 * j).
    { unfold w. rewrite len_hex_of. unfold len. rewrite length_take. lia. }
    destruct (drop (length w) out) as [|a [|b t]] eqn:Ed.
    1-2: apply (f_equal length) in Ed; rewrite length_drop in Ed; unfold len in *; simpl in Ed; lia.
    eexists. split; [apply store_pair; lia|]. unfold hex_of. cbn [mbind list_bind app].
    rewrite length_app, <- drop_drop, Ed. done.
  - rewrite Z.add_0_l, Nat2Z.id, firstn_all.
    pose proof (len_hex_of inp) as Hw. destruct (drop (length (hex_of inp)) out) as [|a t] eqn:Ed.
    { apply (f_equal length) in Ed. rewrite length_drop in Ed. unfold len in *. simpl in Ed. lia. }
    rewrite store_app_at by lia. do 3 f_equal. replace (S (length (hex_of inp))) with (length (hex_of inp) + 1)%nat by lia.
    by rewrite <- drop_drop, Ed.
Qed.

(** ** Reading *)

Section Reader.
  Context (digit : Z -> option Z) `{!DigitReader digit}.

Lemma unhex_hex_of l : bytes_ok l -> unhex digit (hex_of l) = Some l.
Proof.
  induction l as [|x l IH]; intros Hb; [done|]. apply Forall_cons in Hb as [Hx Hb].
  unfold hex_of in *. cbn [mbind list_bind app unhex].
  rewrite !digit_of by (Z.div_mod_to_equations; lia). cbn [mbind option_bind].
  rewrite IH by done. cbn [mbind option_bind]. do 2 f_equal. Z.div_mod_to_equations; lia.
Qed.

Lemma unhex_len s l : unhex digit s = Some l -> len s = 2 * len l /\ bytes_ok l.
Proof.
  revert l. induction s as [s IH] using (induction_ltof1 _ (@length Z)). unfold ltof in IH.
  intros l. destruct s as [|a [|b s]]; simpl; [intros [= <-]; split; [done|constructor]|done|].
  destruct (digit a) as [hi|] eqn:Ea; [|done]. destruct (digit b) as [lo|] eqn:Eb; [|done]. simpl.
  destruct (unhex digit s) as [r|] eqn:Er; [|done]. simpl. intros [= <-].
  destruct (IH s ltac:(simpl; lia) r Er) as [Hl Hb].
  pose proof (digit_range _ _ Ea). pose proof (digit_range _ _ Eb).
  rewrite !len_cons, Hl. split; [lia|]. constructor; [lia|done].
Qed.

(** Reading [n] pairs of a text that is terminated or long enough: a terminator stops the
    reader before it can run past it. It goes on exactly when the text starts with [n] pairs
    of digits. *)
Lemma read_digits_from n tail : forall i s pre out,
  head tail = Some 0 \/ 2 * Z.of_nat n <= len s -> len pre = 2 * i -> 0 <= i -> i + Z.of_nat n <= len out ->
  exists r, for_ret n i (fun i out =>
    let! a := load (pre ++ s ++ tail) (2 * i) in
    match digit a with
    | None => Ok (inr out)
    | Some hi =>
        let! b := load (pre ++ s ++ tail) (2 * i + 1) in
        match digit b with
        | None => Ok (inr out)
        | Some lo => let! out := store out i (u8 (Z.lor (hi ≪ 4) lo)) in Ok (inl out)
        end
    end) out = Ok r /\
  match r with
  | inl o => exists t s' l, s = t ++ s' /\ unhex digit t = Some l /\ length l = n /\
      o = take (Z.to_nat i) out ++ l ++ drop (Z.to_nat i + n) out
  | inr o => len o = len out /\ forall t s' l, s = t ++ s' -> unhex digit t = Some l -> length l <> n
  end.
Proof.
  induction n as [|n IH]; intros i s pre out Htail Hp Hi Ho; cbn [for_ret].
  { eexists. split; [reflexivity|]. exists [], s, []. split_and!; try done.
    by rewrite Nat.add_0_r, app_nil_l, take_drop. }
  assert (Hshort : len s < 2 * Z.of_nat (S n) -> exists junk, tail = 0 :: junk).
  { destruct Htail; [|lia]. destruct tail; simplify_eq/=. eauto. }
  destruct s as [|a s].
  { destruct Hshort as [junk ->]; [rewrite len_nil; lia|]. cbn [app]. rewrite load_app_at by lia. rewrite digit_nul. eexists. split; [reflexivity|].
    split; [done|]. intros t s' l [-> ->]%eq_sym%app_nil. intros [= <-]. done. }
  cbn [app]. rewrite load_app_at by lia. destruct (digit a) as [hi|] eqn:Ea.
  2: { eexists. split; [reflexivity|]. split; [done|]. intros [|x [|y t]] s' l Es; simpl; try done.
       - by intros [= <-].
       - assert (x = a) as -> by (simpl in Es; congruence). by rewrite Ea. }
  replace (pre ++ a :: s ++ tail) with ((pre ++ [a]) ++ s ++ tail) by (by rewrite <- app_assoc).
  destruct s as [|b s].
  { destruct Hshort as [junk ->]; [rewrite len_cons, len_nil; lia|]. cbn [app]. rewrite load_app_at by len_lia. rewrite digit_nul. eexists. split; [reflexivity|].
    split; [done|]. intros [|x [|y t]] s' l Es; simpl; try done. by intros [= <-]. }
  cbn [app]. rewrite load_app_at by len_lia. destruct (digit b) as [lo|] eqn:Eb.
  2: { eexists. split; [reflexivity|]. split; [done|]. intros [|x [|y t]] s' l Es; simpl; try done.
       - by intros [= <-].
       - assert (x = a /\ y = b) as [-> ->] by (simpl in Es; split; congruence). by rewrite Ea, Eb. }
  rewrite combine_nibbles by (by eapply digit_range). rewrite store_ok by lia. cbv beta iota.
  set (o1 := <[_ := _]> out).
  destruct (IH (i + 1) s ((pre ++ [a]) ++ [b]) o1) as (r & Er & Hr);
    [rewrite !len_cons in Htail; destruct Htail; [by left|right; lia]
    |len_lia|lia|unfold o1; rewrite len_insert; lia|].
  exists r. split.
  { rewrite <- Er. f_equal. by rewrite <- !app_assoc. }
  destruct r as [o|o].
  - destruct Hr as (t & s' & l & -> & El & Hl & ->). exists (a :: b :: t), s', (hi * 16 + lo :: l).
    split_and!; [done| |simpl; lia|].
    + simpl. rewrite Ea, Eb. simpl. by rewrite El.
    + replace (Z.to_nat (i + 1)) with (S (Z.to_nat i)) by lia. unfold o1.
      rewrite (take_S_r _ _ (hi * 16 + lo)) by (apply list_lookup_insert_eq; unfold len in Ho; lia).
      rewrite take_insert_ge, drop_insert_lt by lia. rewrite <- app_assoc. cbn [app]. do 4 f_equal. lia.
  - destruct Hr as [Hlo Hr]. split; [unfold o1 in Hlo; by rewrite len_insert in Hlo|].
    intros [|x [|y t]] s' l Es; simpl; try done; [by intros [= <-]|].
    assert (x = a /\ y = b /\ s = t ++ s') as (-> & -> & Es') by (simpl in Es; split_and!; congruence).
    rewrite Ea, Eb. simpl. destruct (unhex digit t) as [l'|] eqn:El; [|done]. intros [= <-]. simpl.
    specialize (Hr t s' l' Es' El). lia.
Qed.

Lemma read_digits_spec s junk out n :
  n = len out ->
  exists r, read_digits digit (s ++ 0 :: junk) n out = Ok r /\
  match r with
  | inl o => exists t s', s = t ++ s' /\ unhex digit t = Some o /\ len o = n
  | inr o => len o = len out /\ forall t s' l, s = t ++ s' -> unhex digit t = Some l -> len l <> n
  end.
Proof.
  intros ->. unfold read_digits. rewrite len_to_nat.
  destruct (read_digits_from (length out) (0 :: junk) 0 s [] out) as (r & Er & Hr);
    [by left|done|done|unfold len; lia|].
  exists r. split; [exact Er|]. destruct r as [o|o].
  - destruct Hr as (t & s' & l & -> & El & Hl & ->). exists t, s'.
    rewrite drop_ge, app_nil_r by (simpl; lia). split_and!; [done|done|unfold len; simpl; lia].
  - destruct Hr as [Ho Hr]. split; [done|]. intros t s' l Es El. specialize (Hr t s' l Es El). unfold len. lia.
Qed.

(** Reading from inside a longer text. *)
Lemma read_digits_inside s tail out :
  len s = 2 * len out ->
  exists r, read_digits digit (s ++ tail) (len out) out = Ok r /\
  match unhex digit s with
  | Some l => r = inl l
  | None => exists o, r = inr o /\ len o = len out
  end.
Proof.
  intros Hs. unfold read_digits. rewrite len_to_nat.
  destruct (read_digits_from (length out) tail 0 s [] out) as (r & Er & Hr);
    [right; unfold len in *; lia|done|done|unfold len; lia|].
  exists r. split; [exact Er|]. destruct r as [o|o].
  - destruct Hr as (t & s' & l & -> & El & Hl & ->). destruct (unhex_len _ _ El) as [Ht _].
    assert (s' = []) as ->.
    { apply len_0_nil. rewrite len_app in Hs. unfold len in *. lia. }
    rewrite app_nil_r, El. rewrite drop_ge, app_nil_r by (simpl; lia). done.
  - destruct Hr as [Ho Hr]. destruct (unhex digit s) as [l|] eqn:El; [|by exists o].
    destruct (unhex_len _ _ El) as [Ht _]. exfalso. apply (Hr s [] l); [by rewrite app_nil_r|done|].
    unfold len in *. lia.
Qed.
End Reader.

(** Lower case. *)
Definition tolower (c : Z) : Z := if (65 <=? c) && (c <=? 70) then c + 32 else c.

Lemma nibble_lower c v : nibble c = Some v -> hex_digit v = tolower c.
Proof.
  intros E. assert (is_u8 c) as Hc.
  { revert E. unfold nibble. destruct (Z.leb_spec 48 c), (Z.leb_spec c 57); cbn [andb]; try lia;
      destruct (Z.leb_spec 97 c), (Z.leb_spec c 102); cbn [andb]; try lia;
      destruct (Z.leb_spec 65 c), (Z.leb_spec c 70); cbn [andb]; try lia; done. }
  pose proof (byte_cases (fun c => match nibble c with Some v => hex_digit v =? tolower c | None => true end)
    ltac:(vm_compute; reflexivity) c Hc) as H. simpl in H. rewrite E in H. by apply Z.eqb_eq.
Qed.

Lemma unhex_lower s l : unhex nibble s = Some l -> hex_of l = map tolower s.
Proof.
  revert l. induction s as [s IH] using (induction_ltof1 _ (@length Z)). unfold ltof in IH.
  intros l. destruct s as [|a [|b s]]; simpl; [by intros [= <-]|done|].
  destruct (nibble a) as [hi|] eqn:Ea; [|done]. destruct (nibble b) as [lo|] eqn:Eb; [|done]. simpl.
  destruct (unhex nibble s) as [r|] eqn:Er; [|done]. simpl. intros [= <-].
  pose proof (digit_range _ _ Ea). pose proof (digit_range _ _ Eb).
  unfold hex_of. cbn [mbind list_bind app]. fold (hex_of r). rewrite (IH s ltac:(simpl; lia) r Er).
  replace ((hi * 16 + lo) / 16) with hi by (Z.div_mod_to_equations; lia).
  replace ((hi * 16 + lo) mod 16) with lo by (Z.div_mod_to_equations; lia).
  by rewrite (nibble_lower _ _ Ea), (nibble_lower _ _ Eb).
Qed.

Lemma decode_spec s junk out :
  Forall (fun c => c <> 0) s ->
  exists rc out', sl_hexstr_decode (s ++ 0 :: junk) out (len out) = Ok (rc, out') /\
    len out' = len out /\ (rc = 0 -> unhex nibble s = Some out') /\
    (forall l, unhex nibble s = Some l -> len l = len out -> rc = 0).
Proof.
  intros Hs. unfold sl_hexstr_decode.
  destruct (read_digits_spec nibble s junk out (len out) eq_refl) as ([o|o] & -> & Hr).
  2: { destruct Hr as [Ho Hr]. eexists _, _. split; [reflexivity|]. split_and!; [done|done|].
       intros l El Hl. exfalso. apply (Hr s [] l); [by rewrite app_nil_r|done|done]. }
  destruct Hr as (t & s' & -> & El & Ho). destruct (unhex_len nibble _ _ El) as [Ht _].
  destruct s' as [|x s'].
  - rewrite app_nil_r. rewrite load_app_at by lia. cbn [Z.eqb negb].
    eexists _, _. split; [reflexivity|]. split_and!; done.
  - rewrite <- app_assoc. cbn [app]. rewrite load_app_at by lia.
    apply Forall_app in Hs as [_ [Hx _]%Forall_cons]. rewrite (proj2 (Z.eqb_neq x 0)) by done. cbn [negb].
    eexists _, _. split; [reflexivity|]. split_and!; [done|done|].
    intros l El' Hl. exfalso. destruct (unhex_len nibble _ _ El') as [Ht' _].
    rewrite len_app, len_cons in Ht'. pose proof (len_nonneg s'). lia.
Qed.

Lemma encode_spec_hex l buf :
  bytes_ok l -> 2 * len l + 1 <= len buf -> len buf < 2 ^ 63 ->
  sl_hexstr_encode l buf = Ok (2 * len l, hex_of l ++ 0 :: drop (S (length (hex_of l))) buf).
Proof.
  intros Hb Hl Hc. change (2 ^ 63) with 9223372036854775808 in Hc. pose proof (len_nonneg l).
  unfold sl_hexstr_encode. rewrite !u64_small by (rewrite ?u64_small; lia).
  rewrite (proj2 (Z.ltb_ge _ _)), encode_bytes_spec by (done || lia). by rewrite Z.mul_comm.
Qed.

Lemma hex_of_nonzero l : bytes_ok l -> Forall (fun c => c <> 0) (hex_of l).
Proof.
  induction l as [|x l IH]; intros Hb; [constructor|]. apply Forall_cons in Hb as [Hx Hb].
  unfold hex_of in *. cbn [mbind list_bind app].
  repeat constructor; [| |by apply IH]; unfold hex_digit; destruct (_ <? _); Z.div_mod_to_equations; lia.
Qed.

(** Decoding hex text is exact and safe: on any NUL-terminated string the decoder never
    reads past the terminator; it succeeds exactly when the string is two hex digits for
    every byte of the output buffer, and then encoding the bytes gives the string back in
    lower case; and every encoded buffer decodes to its bytes. *)
Theorem hexstr_decode_exact (s junk out buf : list Z) :
  Forall (fun c => c <> 0) s -> 2 * len out + 1 <= len buf -> len buf < 2 ^ 63 ->
  exists rc out', sl_hexstr_decode (s ++ 0 :: junk) out (len out) = Ok (rc, out') /\
    len out' = len out /\
    (rc = 0 <-> exists l, unhex nibble s = Some l /\ len l = len out) /\
    (rc = 0 -> sl_hexstr_encode out' buf = Ok (len s, map tolower s ++ 0 :: drop (S (length s)) buf)) /\
    (bytes_ok out -> exists text, sl_hexstr_encode out buf = Ok (2 * len out, text) /\
       sl_hexstr_decode text out' (len out) = Ok (0, out)).
Proof.
  intros Hs Hl Hc. destruct (decode_spec s junk out Hs) as (rc & out' & E & Ho & H0 & H1).
  exists rc, out'. split_and!; [done|done|split| |].
  - intros ->. exists out'. auto.
  - intros (l & El & Hll). eauto.
  - intros ->. pose proof (H0 eq_refl) as El. destruct (unhex_len nibble _ _ El) as [Hsl Hb].
    rewrite encode_spec_hex by (done || lia). rewrite (unhex_lower _ _ El), length_map, <- Hsl. done.
  - intros Hb. eexists. split; [by apply encode_spec_hex|].
    destruct (decode_spec (hex_of out) (drop (S (length (hex_of out))) buf) out' (hex_of_nonzero _ Hb))
      as (rc2 & o2 & E2 & _ & H2 & H3).
    pose proof (unhex_hex_of nibble out Hb) as Eu. rewrite Ho in E2. rewrite E2.
    assert (rc2 = 0) as -> by (apply (H3 out); [done|lia]). rewrite Eu in H2.
    assert (o2 = out) as -> by (specialize (H2 eq_refl); congruence). done.
Qed.

Example hexstr_decode_exact_witness :
  exists rc out', sl_hexstr_decode ([54; 70; 48; 49] ++ 0 :: [88]) [7; 9] (len [7; 9]) = Ok (rc, out') /\
    len out' = len [7; 9] /\
    (rc = 0 <-> exists l, unhex nibble [54; 70; 48; 49] = Some l /\ len l = len [7; 9]) /\
    (rc = 0 -> sl_hexstr_encode out' (replicate 8 1) = Ok (4, [54; 102; 48; 49; 0; 1; 1; 1])) /\
    (bytes_ok [7; 9] -> exists text, sl_hexstr_encode [7; 9] (replicate 8 1) = Ok (2 * len [7; 9], text) /\
       sl_hexstr_decode text out' (len [7; 9]) = Ok (0, [7; 9])).
Proof.
  apply (hexstr_decode_exact [54; 70; 48; 49] [88] [7; 9] (replicate 8 1)).
  - by_deciding.
  - vm_compute. congruence.
  - vm_compute. congruence.
Defined.
