(* ===== verification/Trace.v ===== *)
(** Trace propagation: trace and span ids ([src/sl_trace_id.c]), flags
    ([src/sl_trace_flags.c]), the W3C-style text form ([src/sl_trace_context.c]) and the RPC
    side header that carries it ([src/sl_rpc_trace_header.c]). *)

From S2P Require Import Prelude ByteOrder Codec Hex.
Local Open Scope Z_scope.

(* src/inc/sl_trace_id.h:19-19 *)
Definition SL_TRACE_ID_LEN : Z := 16.
(* src/inc/sl_trace_id.h:20-20 *)
Definition SL_TRACE_ID_HEX_LEN : Z := 32.
(* src/inc/sl_trace_id.h:21-21 *)
Definition SL_SPAN_ID_LEN : Z := 8.
(* src/inc/sl_trace_id.h:22-22 *)
Definition SL_SPAN_ID_HEX_LEN : Z := 16.
(* src/inc/sl_trace_flags.h:19-19 *)
Definition SL_TRACE_FLAG_NONE : Z := 0.
(* src/inc/sl_trace_flags.h:24-24 *)
Definition SL_TRACE_FLAGS_MASK : Z := 7.
(* src/inc/sl_trace_context.h:22-22 *)
Definition SL_TRACE_CTX_WIRE_LEN : Z := 55.
(* src/inc/sl_rpc_trace_header.h:25-25 *)
Definition SL_RPC_TRACE_HEADER_LEN : Z := 56.
(* src/inc/sl_rpc_trace_header.h:26-26 *)
Definition SL_RPC_TRACE_HEADER_V1 : Z := 1.

(* src/inc/sl_trace_context.h:24-28 *)
Record sl_trace_ctx_t := mk_tctx {
  tc_trace_id : list Z;
  tc_span_id : list Z;
  tc_flags : Z
}.

(* src/src/sl_trace_id.c:8-12 *)
Definition from_hex_char (c : Z) : option Z :=
  if (48 <=? c) && (c <=? 57) then Some (u8 (c - 48))
  else if (97 <=? c) && (c <=? 102) then Some (u8 (10 + c - 97))
  else None.

(* src/src/sl_trace_id.c:14-24 *)
Definition hex_to_bytes (hex : list Z) (hex_len : Z) (out : list Z) : M (Z * list Z) :=
  if negb (hex_len =? len out * 2) then Ok (-1, out)
  else
    let! r := read_digits from_hex_char hex (len out) out in
    match r with inr o => Ok (-1, o) | inl o => Ok (0, o) end.

(* src/src/sl_trace_id.c:26-36 *)
Definition bytes_to_hex (inp out : list Z) : M (Z * list Z) :=
  if len out <? len inp * 2 + 1 then Ok (-1, out) else encode_bytes inp (len inp) out.

(** [sl_trace_id_is_zero] and [sl_span_id_is_zero], which differ in the length. *)
(* src/src/sl_trace_id.c:53-58 sl_trace_id_is_zero *)
Definition id_is_zero (n : Z) (bytes : list Z) : M bool :=
  let! r := for_ret (Z.to_nat n) 0 (fun i (_ : unit) =>
    let! b := load bytes i in
    if negb (b =? 0) then Ok (inr false) else Ok (inl tt)) tt in
  match r with inr v => Ok v | inl _ => Ok true end.

(** [rnd] is what [sl_rng_bytes] delivers; the lengths are 16 and 8. *)
(* src/src/sl_trace_id.c:38-44 sl_trace_id_random *)
Definition id_random (n : Z) (rnd : option (list Z)) (out : list Z) : M (Z * list Z) :=
  match rnd with
  | None => Ok (-1, out)
  | Some r =>
      let! out := store_bytes out 0 r in
      let! z := id_is_zero n out in
      if z then let! out := store out 0 1 in Ok (0, out) else Ok (0, out)
  end.

(* src/src/sl_trace_flags.c:5-7 *)
Definition sl_trace_flag_is_set (f bit : Z) : bool := negb (Z.land f bit =? 0).

(* src/src/sl_trace_flags.c:9-11 *)
Definition sl_trace_flags_with (f bit : Z) : Z := u8 (Z.land (Z.lor f bit) SL_TRACE_FLAGS_MASK).

(* src/src/sl_trace_flags.c:13-15 *)
Definition sl_trace_flags_without (f bit : Z) : Z :=
  u8 (Z.land (Z.land f (u8 (Z.lnot bit))) SL_TRACE_FLAGS_MASK).

(* src/src/sl_trace_flags.c:17-19 *)
Definition nib_to_hex (n : Z) : Z := if n <? 10 then 48 + n else 97 + (n - 10).

(* src/src/sl_trace_flags.c:21-27 *)
Definition sl_trace_flags_to_hex (f : Z) (out : list Z) : M (Z * list Z) :=
  if len out <? 3 then Ok (-1, out)
  else
    let! out := store out 0 (nib_to_hex (u8 (Z.land (f ≫ 4) 0x0F))) in
    let! out := store out 1 (nib_to_hex (u8 (Z.land f 0x0F))) in
    let! out := store out 2 0 in
    Ok (2, out).

(* src/src/sl_trace_flags.c:35-44 *)
Definition sl_trace_flags_from_hex (hex : list Z) (n : Z) (out : Z) : M (Z * Z) :=
  if negb (n =? 2) then Ok (-1, out)
  else
    let! a := load hex 0 in
    match from_hex_char a with
    | None => Ok (-1, out)
    | Some hi =>
        let! b := load hex 1 in
        match from_hex_char b with
        | None => Ok (-1, out)
        | Some lo =>
            let v := u8 (Z.lor (hi ≪ 4) lo) in
            if negb (Z.land v (Z.lnot SL_TRACE_FLAGS_MASK) =? 0) then Ok (-1, out) else Ok (0, v)
        end
    end.

(* src/src/sl_trace_context.c:6-10 *)
Definition sl_trace_ctx_is_zero (c : sl_trace_ctx_t) : M bool :=
  let! a := id_is_zero SL_TRACE_ID_LEN (tc_trace_id c) in
  if a then Ok true else id_is_zero SL_SPAN_ID_LEN (tc_span_id c).

(** The characters of a C string. *)
Fixpoint c_str (s : list Z) : list Z :=
  match s with [] => [] | c :: s => if c =? 0 then [] else c :: c_str s end.

(** [snprintf(out, cap, ...)] of a text: what fits, and a terminator; the text's length. *)
Definition snprintf_text (out text : list Z) : M (Z * list Z) :=
  if len out =? 0 then Ok (len text, out)
  else
    let! o := store_bytes out 0 (take (Z.to_nat (len out - 1)) text ++ [0]) in
    Ok (len text, o).

(* src/src/sl_trace_context.c:12-26 *)
Definition sl_trace_ctx_format (c : sl_trace_ctx_t) (out : list Z) : M (Z * list Z) :=
  if len out <? SL_TRACE_CTX_WIRE_LEN + 1 then Ok (-1, out)
  else
    let! '(rc, tid) := bytes_to_hex (tc_trace_id c) (replicate 33 0) in
    if rc <? 0 then Ok (-1, out) else
    let! '(rc, sid) := bytes_to_hex (tc_span_id c) (replicate 17 0) in
    if rc <? 0 then Ok (-1, out) else
    let! '(rc, fl) := sl_trace_flags_to_hex (tc_flags c) (replicate 3 0) in
    if rc <? 0 then Ok (-1, out) else
    let! '(n, out) := snprintf_text out
      ([48; 48; 45] ++ c_str tid ++ [45] ++ c_str sid ++ [45] ++ c_str fl) in
    if (n <? 0) || negb (n =? SL_TRACE_CTX_WIRE_LEN) then Ok (-1, out) else Ok (n, out).

(** The code and the caller's context, which is filled field by field. *)
(* src/src/sl_trace_context.c:28-47 *)
Definition sl_trace_ctx_parse (inp : list Z) (in_len : Z) (out : sl_trace_ctx_t) : M (Z * sl_trace_ctx_t) :=
  if negb (in_len =? SL_TRACE_CTX_WIRE_LEN) then Ok (-1, out)
  else
    let! a := load inp 0 in
    if negb (a =? 48) then Ok (-1, out) else
    let! b := load inp 1 in
    if negb (b =? 48) then Ok (-1, out) else
    let! c := load inp 2 in
    if negb (c =? 45) then Ok (-1, out) else
    let! d := load inp (3 + SL_TRACE_ID_HEX_LEN) in
    if negb (d =? 45) then Ok (-1, out) else
    let! e := load inp (3 + SL_TRACE_ID_HEX_LEN + 1 + SL_SPAN_ID_HEX_LEN) in
    if negb (e =? 45) then Ok (-1, out) else
    let! '(rc, t) := hex_to_bytes (drop 3 inp) SL_TRACE_ID_HEX_LEN (tc_trace_id out) in
    let out := mk_tctx t (tc_span_id out) (tc_flags out) in
    if negb (rc =? 0) then Ok (-1, out) else
    let! '(rc, s) := hex_to_bytes (drop (Z.to_nat (3 + SL_TRACE_ID_HEX_LEN + 1)) inp)
                       SL_SPAN_ID_HEX_LEN (tc_span_id out) in
    let out := mk_tctx t s (tc_flags out) in
    if negb (rc =? 0) then Ok (-1, out) else
    let! '(rc, f) := sl_trace_flags_from_hex (drop (Z.to_nat (SL_TRACE_CTX_WIRE_LEN - 2)) inp) 2
                       (tc_flags out) in
    let out := mk_tctx t s f in
    if negb (rc =? 0) then Ok (-1, out) else
    let! z := sl_trace_ctx_is_zero out in
    if z then Ok (-1, out) else Ok (0, out).

(* src/src/sl_trace_context.c:49-56 *)
Definition sl_trace_ctx_child (parent : sl_trace_ctx_t) (rnd : option (list Z)) (out : sl_trace_ctx_t)
  : M (Z * sl_trace_ctx_t) :=
  let! z := sl_trace_ctx_is_zero parent in
  if z then Ok (-1, out)
  else
    let! '(rc, s) := id_random SL_SPAN_ID_LEN rnd (tc_span_id out) in
    if negb (rc =? 0) then Ok (-1, mk_tctx (tc_trace_id parent) s (tc_flags out))
    else Ok (0, mk_tctx (tc_trace_id parent) s (tc_flags parent)).

(* src/src/sl_trace_context.c:58-64 *)
Definition sl_trace_ctx_root (rnd1 rnd2 : option (list Z)) (out : sl_trace_ctx_t) : M (Z * sl_trace_ctx_t) :=
  let! '(rc, t) := id_random SL_TRACE_ID_LEN rnd1 (tc_trace_id out) in
  if negb (rc =? 0) then Ok (-1, mk_tctx t (tc_span_id out) (tc_flags out)) else
  let! '(rc, s) := id_random SL_SPAN_ID_LEN rnd2 (tc_span_id out) in
  if negb (rc =? 0) then Ok (-1, mk_tctx t s (tc_flags out))
  else Ok (0, mk_tctx t s SL_TRACE_FLAG_NONE).

(* src/src/sl_rpc_trace_header.c:5-15 *)
Definition sl_rpc_trace_header_pack (ctx : sl_trace_ctx_t) (out : list Z) : M (Z * list Z) :=
  let! '(rc, wire) := sl_trace_ctx_format ctx (replicate 56 0) in
  if rc <? 0 then Ok (-1, out)
  else
    let! out := store out 0 SL_RPC_TRACE_HEADER_V1 in
    let! w := load_bytes wire 0 SL_TRACE_CTX_WIRE_LEN in
    let! out := store_bytes out 1 w in
    Ok (SL_RPC_TRACE_HEADER_LEN, out).

(* src/src/sl_rpc_trace_header.c:17-23 *)
Definition sl_rpc_trace_header_unpack (inp : list Z) (out : sl_trace_ctx_t) : M (Z * sl_trace_ctx_t) :=
  let! v := load inp 0 in
  if negb (v =? SL_RPC_TRACE_HEADER_V1) then Ok (-1, out)
  else sl_trace_ctx_parse (drop 1 inp) SL_TRACE_CTX_WIRE_LEN out.

(** ** Reference *)

Definition ctx_text (c : sl_trace_ctx_t) : list Z :=
  [48] ++ [48] ++ [45] ++ hex_of (tc_trace_id c) ++ [45] ++ hex_of (tc_span_id c) ++ [45] ++ hex_of [tc_flags c].

Definition nonzero (l : list Z) : Prop := Exists (fun b => b <> 0) l.

Definition ctx_ok (c : sl_trace_ctx_t) : Prop :=
  len (tc_trace_id c) = 16 /\ bytes_ok (tc_trace_id c) /\ nonzero (tc_trace_id c) /\
  len (tc_span_id c) = 8 /\ bytes_ok (tc_span_id c) /\ nonzero (tc_span_id c) /\ 0 <= tc_flags c < 8.

Ltac trace_consts :=
  unfold SL_TRACE_ID_LEN, SL_TRACE_ID_HEX_LEN, SL_SPAN_ID_LEN, SL_SPAN_ID_HEX_LEN, SL_TRACE_CTX_WIRE_LEN,
    SL_RPC_TRACE_HEADER_LEN, SL_RPC_TRACE_HEADER_V1 in *.

(** Only lower-case digits are read, so the text of a value is unique. *)
Lemma from_hex_char_canonical c v : from_hex_char c = Some v -> 0 <= v < 16 /\ c = hex_digit v.
Proof.
  unfold from_hex_char, hex_digit. destruct (Z.leb_spec 48 c), (Z.leb_spec c 57); cbn [andb];
    destruct (Z.leb_spec 97 c), (Z.leb_spec c 102); cbn [andb]; intros E; simplify_eq;
    try lia; rewrite u8_small by lia;
    match goal with |- context [?a <? 10] => destruct (Z.ltb_spec a 10) end; lia.
Qed.

#[export] Instance from_hex_char_reader : DigitReader from_hex_char.
Proof.
  split.
  - intros c v E. by apply from_hex_char_canonical in E as [? _].
  - reflexivity.
  - intros v Hv. pose proof (byte_cases (fun v => (16 <=? v) ||
      bool_decide (from_hex_char (hex_digit v) = Some v))) as E.
    specialize (E ltac:(vm_compute; reflexivity) v ltac:(lia)). simpl in E.
    rewrite (proj2 (Z.leb_gt _ _)) in E by lia. by apply bool_decide_eq_true in E.
Qed.

Lemma unhex_canonical s l : unhex from_hex_char s = Some l -> s = hex_of l.
Proof.
  revert l. induction s as [s IH] using (induction_ltof1 _ (@length Z)). unfold ltof in IH.
  intros l. destruct s as [|a [|b s]]; simpl; [by intros [= <-]|done|].
  destruct (from_hex_char a) as [hi|] eqn:Ea; [|done]. destruct (from_hex_char b) as [lo|] eqn:Eb; [|done].
  simpl. destruct (unhex from_hex_char s) as [r|] eqn:Er; [|done]. simpl. intros [= <-].
  apply from_hex_char_canonical in Ea as [Ha ->], Eb as [Hb ->].
  unfold hex_of. cbn [mbind list_bind app]. fold (hex_of r). rewrite <- (IH s ltac:(simpl; lia) r Er).
  replace ((hi * 16 + lo) / 16) with hi by (Z.div_mod_to_equations; lia).
  by replace ((hi * 16 + lo) mod 16) with lo by (Z.div_mod_to_equations; lia).
Qed.

Lemma hex_to_bytes_spec s tail n out :
  len s = n -> n = 2 * len out ->
  exists rc o, hex_to_bytes (s ++ tail) n out = Ok (rc, o) /\
    match unhex from_hex_char s with
    | Some l => rc = 0 /\ o = l /\ len o = len out
    | None => rc = -1
    end.
Proof.
  intros Hs Hn. unfold hex_to_bytes. rewrite (proj2 (Z.eqb_eq _ _)) by lia. cbn [negb].
  destruct (read_digits_inside from_hex_char s tail out) as (r & -> & Hr); [lia|].
  destruct (unhex from_hex_char s) as [l|] eqn:El.
  - subst r. destruct (unhex_len _ _ _ El) as [Hl _]. eexists _, _. split; [reflexivity|]. split_and!; [done|done|lia].
  - destruct Hr as (o & -> & _). by eexists _, _.
Qed.

Lemma bytes_to_hex_spec inp n :
  bytes_ok inp -> n = 2 * len inp + 1 ->
  bytes_to_hex inp (replicate (Z.to_nat n) 0) = Ok (2 * len inp, hex_of inp ++ [0]).
Proof.
  intros Hb ->. pose proof (len_nonneg inp). unfold bytes_to_hex.
  rewrite (proj2 (Z.ltb_ge _ _)) by len_lia. rewrite encode_bytes_spec by (done || len_lia).
  rewrite (Z.mul_comm (len inp)), drop_ge; [done|].
  rewrite length_replicate. pose proof (len_hex_of inp). unfold len in *. lia.
Qed.

Lemma c_str_stops s t : Forall (fun c => c <> 0) s -> c_str (s ++ 0 :: t) = s.
Proof.
  induction 1 as [|c s Hc Hs IH]; [done|]. simpl. rewrite (proj2 (Z.eqb_neq c 0)) by done. by rewrite IH.
Qed.

Lemma id_is_zero_spec n l :
  len l = n -> id_is_zero n l = Ok (bool_decide (~ nonzero l)).
Proof.
  intros <-. unfold id_is_zero. rewrite len_to_nat.
  set (body := fun i (_ : unit) => _).
  destruct (for_ret_inv (fun i (_ : unit) => Forall (fun b => b = 0) (take (Z.to_nat i) l))
    (fun v => v = false /\ nonzero l) body (length l) 0 tt) as ([u|v] & -> & Hr); [constructor| | |].
  - intros j [] Hj Hall. destruct (lookup_lt_is_Some_2 l (Z.to_nat j)) as [x Hx]; [lia|].
    unfold body. rewrite (load_ok l j x) by (done || lia). destruct (Z.eqb_spec x 0) as [->|Hne]; cbn [negb].
    + eexists. split; [reflexivity|]. simpl. replace (Z.to_nat (j + 1)) with (S (Z.to_nat j)) by lia.
      rewrite (take_S_r _ _ 0) by done. apply Forall_app. auto.
    + eexists. split; [reflexivity|]. simpl. split; [done|]. apply Exists_exists. exists x.
      split; [by eapply list_elem_of_lookup_2|done].
  - cbv beta in Hr. rewrite Z.add_0_l, Nat2Z.id, firstn_all in Hr. rewrite bool_decide_eq_true_2; [done|].
    intros (x & Hin & Hx)%Exists_exists. rewrite Forall_forall in Hr. by apply Hx, Hr.
  - destruct Hr as [-> Hn]. rewrite bool_decide_eq_false_2; [done|]. by intros H.
Qed.

Lemma flags_to_hex_spec f :
  is_u8 f -> sl_trace_flags_to_hex f [0; 0; 0] = Ok (2, hex_of [f] ++ [0]).
Proof.
  intros Hf. pose proof (byte_cases (fun f => bool_decide (sl_trace_flags_to_hex f [0; 0; 0] =
    Ok (2, hex_of [f] ++ [0])))) as E. apply bool_decide_eq_true_1 with (1 := E ltac:(vm_compute; reflexivity) f Hf).
Qed.

Lemma flags_from_hex_spec a b f :
  exists rc v, sl_trace_flags_from_hex [a; b] 2 f = Ok (rc, v) /\
    match unhex from_hex_char [a; b] with
    | Some [x] => if x <? 8 then rc = 0 /\ v = x else rc = -1
    | _ => rc = -1
    end.
Proof.
  unfold sl_trace_flags_from_hex. cbn [Z.eqb negb Pos.eqb]. load_step. cbn [unhex].
  destruct (from_hex_char a) as [hi|] eqn:Ea; cbn [mbind option_bind]; [|by eexists _, _].
  destruct (from_hex_char b) as [lo|] eqn:Eb; cbn [mbind option_bind]; [|by eexists _, _].
  apply from_hex_char_canonical in Ea as [Ha _], Eb as [Hb _]. rewrite combine_nibbles by done.
  set (v := hi * 16 + lo). assert (Hv : is_u8 v) by (unfold v; lia). clearbody v.
  pose proof (byte_cases (fun v => Bool.eqb (negb (Z.land v (Z.lnot SL_TRACE_FLAGS_MASK) =? 0)) (8 <=? v))
    ltac:(vm_compute; reflexivity) v Hv) as E. apply Bool.eqb_prop in E. rewrite E.
  destruct (Z.leb_spec 8 v), (Z.ltb_spec v 8); try lia; by eexists _, _.
Qed.

(** The parser on 55 bytes, split into its fields. *)
Lemma parse_fields a b c s1 d s2 e x y out :
  len s1 = 32 -> len s2 = 16 -> len (tc_trace_id out) = 16 -> len (tc_span_id out) = 8 ->
  exists rc o,
    sl_trace_ctx_parse ([a] ++ [b] ++ [c] ++ s1 ++ [d] ++ s2 ++ [e] ++ [x] ++ [y]) 55 out = Ok (rc, o) /\
    (rc = 0 <-> [a; b; c; d; e] = [48; 48; 45; 45; 45] /\
       exists t s f, unhex from_hex_char s1 = Some t /\ unhex from_hex_char s2 = Some s /\
         unhex from_hex_char [x; y] = Some [f] /\ f < 8 /\ nonzero t /\ nonzero s) /\
    (rc = 0 -> unhex from_hex_char s1 = Some (tc_trace_id o) /\
       unhex from_hex_char s2 = Some (tc_span_id o) /\ unhex from_hex_char [x; y] = Some [tc_flags o]).
Proof.
  intros H1 H2 Ht Hs. unfold sl_trace_ctx_parse. trace_consts. cbn [Z.eqb negb Pos.eqb].
  repeat read_step.
  repeat match goal with
  | |- context [if negb (?u =? ?k) then Ok (-1, out) else _] =>
      destruct (Z.eqb_spec u k) as [->|]; cbn [negb];
      [|eexists _, _; split; [reflexivity|]; split; [|done]; split; [done|]; intros [? _]; simplify_eq]
  end.
  replace (drop 3 _) with (s1 ++ [45] ++ s2 ++ [45] ++ [x] ++ [y]) by done.
  destruct (hex_to_bytes_spec s1 ([45] ++ s2 ++ [45] ++ [x] ++ [y]) 32 (tc_trace_id out)) as (rc1 & t & -> & E1);
    [lia..|].
  destruct (unhex from_hex_char s1) as [t'|] eqn:U1.
  2: { subst rc1. eexists _, _. split; [reflexivity|]. split; [|done]. split; [done|]. by intros (_ & ? & ? & ? & ? & _). }
  destruct E1 as (-> & -> & L1). cbn [Z.eqb negb tc_trace_id tc_span_id tc_flags].
  replace (drop (Z.to_nat (3 + 32 + 1)) _) with (s2 ++ [45] ++ [x] ++ [y]).
  2: { replace ([48] ++ _) with (([48; 48; 45] ++ s1 ++ [45]) ++ (s2 ++ [45] ++ [x] ++ [y]))
         by (cbn [app]; by rewrite <- !app_assoc).
       rewrite drop_app_exact; [done|]. rewrite !len_app, H1. reflexivity. }
  destruct (hex_to_bytes_spec s2 ([45] ++ [x] ++ [y]) 16 (tc_span_id out)) as (rc2 & s & -> & E2); [lia..|].
  destruct (unhex from_hex_char s2) as [s'|] eqn:U2.
  2: { subst rc2. eexists _, _. split; [reflexivity|]. split; [|done]. split; [done|]. by intros (_ & ? & ? & ? & ? & ? & _). }
  destruct E2 as (-> & -> & L2). cbn [Z.eqb negb tc_trace_id tc_span_id tc_flags].
  replace (drop (Z.to_nat (55 - 2)) _) with ([x; y]).
  2: { replace ([48] ++ _) with (([48; 48; 45] ++ s1 ++ [45] ++ s2 ++ [45]) ++ [x; y])
         by (cbn [app]; rewrite <- !app_assoc; cbn [app]; by rewrite <- !app_assoc).
       rewrite drop_app_exact; [done|]. rewrite !len_app, H1, H2. reflexivity. }
  destruct (flags_from_hex_spec x y (tc_flags out)) as (rc3 & f & -> & E3).
  assert (Hu : match unhex from_hex_char [x; y] with Some [_] => True | Some _ => False | None => True end).
  { simpl. destruct (from_hex_char x); [|done]. simpl. by destruct (from_hex_char y). }
  destruct (unhex from_hex_char [x; y]) as [[|f' [|]]|]; try done.
  2: { subst rc3. eexists _, _. split; [reflexivity|]. split; [|done]. split; [done|]. by intros (_ & ? & ? & ? & _ & _ & ? & _). }
  destruct (Z.ltb_spec f' 8) as [Hf|Hf].
  2: { subst rc3. eexists _, _. split; [reflexivity|]. split; [|done]. split; [done|].
       intros (_ & ? & ? & ? & _ & _ & ? & ? & _). simplify_eq. lia. }
  destruct E3 as [-> ->]. cbn [Z.eqb negb]. unfold sl_trace_ctx_is_zero. trace_consts. cbn [tc_trace_id tc_span_id].
  rewrite id_is_zero_spec by lia. destruct (bool_decide_reflect (~ nonzero t')) as [Hz|Hz].
  { eexists _, _. split; [reflexivity|]. split; [|done]. split; [done|]. intros (_ & ? & ? & ? & ? & _ & _ & _ & ? & ?). by simplify_eq. }
  rewrite id_is_zero_spec by lia. destruct (bool_decide_reflect (~ nonzero s')) as [Hz'|Hz'].
  { eexists _, _. split; [reflexivity|]. split; [|done]. split; [done|]. intros (_ & ? & ? & ? & _ & ? & _ & _ & _ & ?). by simplify_eq. }
  apply dec_stable in Hz, Hz'. eexists _, _. split; [reflexivity|]. split; [|done].
  split; [|done]. intros _. split; [done|]. by exists t', s', f'.
Qed.

Lemma text_fields (inp : list Z) :
  len inp = 55 ->
  exists a b c s1 d s2 e x y,
    inp = [a] ++ [b] ++ [c] ++ s1 ++ [d] ++ s2 ++ [e] ++ [x] ++ [y] /\ len s1 = 32 /\ len s2 = 16.
Proof.
  intros Hl. destruct inp as [|a [|b [|c inp]]]; try (unfold len in Hl; simpl in Hl; lia).
  rewrite !len_cons in Hl. rewrite <- (take_drop 32 inp).
  destruct (drop 32 inp) as [|d r] eqn:E1.
  { apply (f_equal length) in E1. rewrite length_drop in E1. unfold len in Hl. simpl in E1. lia. }
  assert (Hr : len r = 19).
  { apply (f_equal length) in E1. rewrite length_drop in E1. unfold len in *. simpl in E1. lia. }
  rewrite <- (take_drop 16 r). destruct (drop 16 r) as [|e [|x [|y [|z r2]]]] eqn:E2.
  1-3: apply (f_equal length) in E2; rewrite length_drop in E2; unfold len in Hr; simpl in E2; lia.
  - exists a, b, c, (take 32 inp), d, (take 16 r), e, x, y. split; [done|].
    unfold len in *. rewrite !length_take. lia.
  - apply (f_equal length) in E2. rewrite length_drop in E2. unfold len in Hr. simpl in E2. lia.
Qed.

(** The parser accepts exactly the texts of valid contexts. *)
Lemma parse_exact inp out :
  len inp = 55 -> len (tc_trace_id out) = 16 -> len (tc_span_id out) = 8 ->
  exists rc c, sl_trace_ctx_parse inp 55 out = Ok (rc, c) /\
    (rc = 0 -> ctx_ok c /\ inp = ctx_text c) /\
    (forall c', ctx_ok c' -> inp = ctx_text c' -> rc = 0 /\ c = c').
Proof.
  intros Hl Ht Hs. destruct (text_fields inp Hl) as (a & b & k & s1 & d & s2 & e & x & y & -> & H1 & H2).
  destruct (parse_fields a b k s1 d s2 e x y out H1 H2 Ht Hs) as (rc & o & E & Hi & Ho).
  exists rc, o. split_and!; [done| |].
  - intros Hrc. destruct (Ho Hrc) as (U1 & U2 & U3).
    apply Hi in Hrc as [Hsep (t & s & f & U1' & U2' & U3' & Hf & Nt & Ns)].
    injection Hsep as -> -> -> -> ->. rewrite U1 in U1'. rewrite U2 in U2'. rewrite U3 in U3'.
    injection U1' as <-. injection U2' as <-. injection U3' as <-.
    destruct (unhex_len _ _ _ U1) as [L1 B1]. destruct (unhex_len _ _ _ U2) as [L2 B2].
    destruct (unhex_len _ _ _ U3) as [_ B3]. apply Forall_cons in B3 as [B3 _].
    split; [unfold ctx_ok; split_and!; (done || lia)|].
    unfold ctx_text.
    by rewrite <- (unhex_canonical _ _ U1), <- (unhex_canonical _ _ U2), <- (unhex_canonical _ _ U3).
  - intros c' (C1 & C2 & C3 & C4 & C5 & C6 & C7) Ec. unfold ctx_text in Ec.
    cbn [app] in Ec. injection Ec as -> -> -> Ec.
    apply app_inj_1 in Ec as [-> Ec]; [|pose proof (len_hex_of (tc_trace_id c')); unfold len in *; lia].
    injection Ec as -> Ec.
    apply app_inj_1 in Ec as [-> Ec]; [|pose proof (len_hex_of (tc_span_id c')); unfold len in *; lia].
    assert (e = 45) as -> by congruence. assert (Exy : [x; y] = hex_of [tc_flags c']) by (by apply (f_equal tail) in Ec).
    rewrite Exy in Hi, Ho.
    assert (Hfb : bytes_ok [tc_flags c']) by (repeat constructor; lia).
    rewrite (unhex_hex_of _ _ C2), (unhex_hex_of _ _ C5), (unhex_hex_of _ _ Hfb) in Hi, Ho.
    assert (rc = 0) as Hrc.
    { apply Hi. split; [done|]. exists (tc_trace_id c'), (tc_span_id c'), (tc_flags c'). split_and!; (done || lia). }
    split; [done|]. destruct (Ho Hrc) as (U1 & U2 & U3). destruct o, c'. simpl in *. congruence.
Qed.

Lemma format_spec c out :
  ctx_ok c -> 56 <= len out ->
  sl_trace_ctx_format c out = Ok (55, ctx_text c ++ 0 :: drop 56 out).
Proof.
  intros (C1 & C2 & C3 & C4 & C5 & C6 & C7) Ho. unfold sl_trace_ctx_format. trace_consts.
  rewrite (proj2 (Z.ltb_ge _ _)) by lia.
  change (replicate 33 0) with (replicate (Z.to_nat 33) 0). change (replicate 17 0) with (replicate (Z.to_nat 17) 0).
  rewrite (bytes_to_hex_spec (tc_trace_id c) 33), (bytes_to_hex_spec (tc_span_id c) 17) by (done || lia).
  rewrite C1, C4. change (replicate 3 0) with [0; 0; 0]. rewrite flags_to_hex_spec by lia. cbn [Z.ltb Z.compare].
  change (2 * 16 <? 0) with false. change (2 * 8 <? 0) with false. cbv iota.
  assert (Hfb : bytes_ok [tc_flags c]) by (repeat constructor; lia).
  rewrite !c_str_stops by (by apply hex_of_nonzero).
  replace ([48; 48; 45] ++ _) with (ctx_text c) by done.
  assert (Hl : len (ctx_text c) = 55).
  { unfold ctx_text. rewrite !len_app, !len_hex_of, C1, C4. reflexivity. }
  unfold snprintf_text. rewrite (proj2 (Z.eqb_neq _ _)) by lia.
  rewrite firstn_all2 by (unfold len in *; lia). rewrite store_bytes_0 by len_lia. rewrite Hl.
  cbn [Z.eqb Z.ltb Z.compare negb orb Pos.eqb].
  replace (length (ctx_text c ++ [0])) with 56%nat; [by rewrite <- app_assoc|].
  rewrite length_app. unfold len in Hl. cbn [length]. lia.
Qed.

(** The RPC trace header is canonical. Unpacking any 56 bytes stays in bounds and
    accepts exactly the headers of valid contexts (both ids non-zero, only known flags),
    with that context; packing an accepted context writes the very bytes it came from. *)
Theorem trace_header_canonical (inp buf : list Z) (out : sl_trace_ctx_t) :
  len inp = SL_RPC_TRACE_HEADER_LEN -> len buf = SL_RPC_TRACE_HEADER_LEN ->
  len (tc_trace_id out) = SL_TRACE_ID_LEN -> len (tc_span_id out) = SL_SPAN_ID_LEN ->
  exists rc c, sl_rpc_trace_header_unpack inp out = Ok (rc, c) /\
    (rc = 0 -> ctx_ok c /\ sl_rpc_trace_header_pack c buf = Ok (SL_RPC_TRACE_HEADER_LEN, inp)) /\
    (forall c', ctx_ok c' -> sl_rpc_trace_header_pack c' buf = Ok (SL_RPC_TRACE_HEADER_LEN, inp) ->
       rc = 0 /\ c = c').
Proof.
  trace_consts. intros Hi Hbuf Ht Hs.
  assert (Hpack : forall c, ctx_ok c -> sl_rpc_trace_header_pack c buf = Ok (56, 1 :: ctx_text c)).
  { intros c Hc. unfold sl_rpc_trace_header_pack. rewrite format_spec by (first [done | vm_compute; congruence]).
    trace_consts. cbn [Z.ltb Z.compare]. destruct buf as [|b0 buf]; [done|].
    rewrite (store_ok (b0 :: buf)) by lia. change (<[Z.to_nat 0 := 1]> (b0 :: buf)) with ([1] ++ buf).
    assert (Hl : len (ctx_text c) = 55).
    { destruct Hc as (C1 & _ & _ & C4 & _). unfold ctx_text. rewrite !len_app, !len_hex_of, C1, C4. reflexivity. }
    rewrite load_bytes_front by done.
    rewrite len_cons in Hbuf. rewrite store_bytes_append by (done || lia).
    rewrite drop_ge, app_nil_r by (unfold len in *; lia). done. }
  destruct inp as [|v inp]; [done|]. unfold sl_rpc_trace_header_unpack. trace_consts.
  load_step. destruct (Z.eqb_spec v 1) as [->|Hv]; cbn [negb].
  - rewrite len_cons in Hi. destruct (parse_exact inp out) as (rc & c & E & H1 & H2); [lia..|].
    exists rc, c. split_and!; [exact E| |].
    + intros Hrc. destruct (H1 Hrc) as [Hok ->]. split; [done|]. by apply Hpack.
    + intros c' Hok Hp. rewrite Hpack in Hp by done. apply H2; [done|]. congruence.
  - exists (-1), out. split_and!; [done|done|]. intros c' Hok Hp. rewrite Hpack in Hp by done. congruence.
Qed.

Definition sample_ctx : sl_trace_ctx_t := mk_tctx (replicate 16 171) (replicate 8 7) 3.

Example trace_header_canonical_witness :
  let inp := 1 :: ctx_text sample_ctx in
  exists rc c, sl_rpc_trace_header_unpack inp (mk_tctx (replicate 16 0) (replicate 8 0) 0) = Ok (rc, c) /\
    (rc = 0 -> ctx_ok c /\ sl_rpc_trace_header_pack c (replicate 56 0) = Ok (SL_RPC_TRACE_HEADER_LEN, inp)) /\
    (forall c', ctx_ok c' -> sl_rpc_trace_header_pack c' (replicate 56 0) = Ok (SL_RPC_TRACE_HEADER_LEN, inp) ->
       rc = 0 /\ c = c').
Proof.
  apply (trace_header_canonical (1 :: ctx_text sample_ctx) (replicate 56 0)
           (mk_tctx (replicate 16 0) (replicate 8 0) 0)); reflexivity.
Defined.
