(* ===== verification/Streams.v ===== *)
(** The parts of one stream: credit-based flow control ([src/sl_flow_control.c]), stream
    identifiers ([src/sl_stream_id.c]), priorities ([src/sl_priority.c]) and the life cycle
    ([inc/stream_state.hpp], [src/stream_state.cpp]). *)

From Stdlib Require Import String.
From S2P Require Import Prelude.
Local Open Scope Z_scope.

(** ** Flow control *)

(* src/inc/sl_flow_control.h:24-24 *)
Definition SL_FC_INITIAL_WINDOW : Z := 64 * 1024.
(* src/inc/sl_flow_control.h:25-25 *)
Definition SL_FC_MAX_WINDOW : Z := 1073741824.

(* src/inc/sl_flow_control.h:27-30 *)
Record sl_flow_ctrl_t := mk_flow { send_credit : Z; recv_window : Z }.

(* src/src/sl_flow_control.c:7-11 *)
Definition sl_flow_init_with (initial : Z) : sl_flow_ctrl_t := mk_flow initial initial.

(* src/src/sl_flow_control.c:3-5 *)
Definition sl_flow_init : sl_flow_ctrl_t := sl_flow_init_with SL_FC_INITIAL_WINDOW.

(* src/src/sl_flow_control.c:13-18 *)
Definition sl_flow_charge_send (fc : sl_flow_ctrl_t) (bytes : Z) : Z * sl_flow_ctrl_t :=
  if send_credit fc <? bytes then (-1, fc)
  else (0, mk_flow (send_credit fc - bytes) (recv_window fc)).

(* src/src/sl_flow_control.c:20-25 *)
Definition sl_flow_charge_recv (fc : sl_flow_ctrl_t) (bytes : Z) : Z * sl_flow_ctrl_t :=
  if recv_window fc <? bytes then (-1, fc)
  else (0, mk_flow (send_credit fc) (recv_window fc - bytes)).

(* src/src/sl_flow_control.c:27-32 *)
Definition sl_flow_grant_recv (fc : sl_flow_ctrl_t) (bytes : Z) : Z * sl_flow_ctrl_t :=
  if SL_FC_MAX_WINDOW <? u64 (u64 (recv_window fc) + bytes) then (-1, fc)
  else (0, mk_flow (send_credit fc) (recv_window fc + bytes)).

(* src/src/sl_flow_control.c:34-39 *)
Definition sl_flow_grant_send (fc : sl_flow_ctrl_t) (bytes : Z) : Z * sl_flow_ctrl_t :=
  if SL_FC_MAX_WINDOW <? u64 (u64 (send_credit fc) + bytes) then (-1, fc)
  else (0, mk_flow (send_credit fc + bytes) (recv_window fc)).

(* src/src/sl_flow_control.c:41-43 *)
Definition sl_flow_can_send (fc : sl_flow_ctrl_t) (bytes : Z) : bool := bytes <=? send_credit fc.

(** Both balances stay within the hard cap: no operation on machine words overflows. *)
Definition flow_ok (fc : sl_flow_ctrl_t) : Prop :=
  0 <= send_credit fc <= SL_FC_MAX_WINDOW /\ 0 <= recv_window fc <= SL_FC_MAX_WINDOW.

Lemma flow_init_ok w : 0 <= w <= SL_FC_MAX_WINDOW -> flow_ok (sl_flow_init_with w).
Proof. done. Qed.

Lemma flow_ops_ok fc n :
  flow_ok fc -> is_u32 n ->
  flow_ok (sl_flow_charge_send fc n).2 /\ flow_ok (sl_flow_charge_recv fc n).2 /\
  flow_ok (sl_flow_grant_recv fc n).2 /\ flow_ok (sl_flow_grant_send fc n).2.
Proof.
  unfold flow_ok, sl_flow_charge_send, sl_flow_charge_recv, sl_flow_grant_recv, sl_flow_grant_send, SL_FC_MAX_WINDOW.
  intros [H1 H2] Hn. rewrite (u64_small (send_credit fc)), (u64_small (recv_window fc)) by lia.
  rewrite !u64_small by lia.
  destruct (Z.ltb_spec (send_credit fc) n), (Z.ltb_spec (recv_window fc) n),
    (Z.ltb_spec 1073741824 (recv_window fc + n)), (Z.ltb_spec 1073741824 (send_credit fc + n)); simpl; lia.
Qed.

Lemma grant_recv_run fc n :
  flow_ok fc -> is_u32 n -> recv_window fc + n <= SL_FC_MAX_WINDOW ->
  sl_flow_grant_recv fc n = (0, mk_flow (send_credit fc) (recv_window fc + n)).
Proof.
  unfold flow_ok, sl_flow_grant_recv, SL_FC_MAX_WINDOW. intros [_ H] Hn Hle.
  rewrite !u64_small by (rewrite ?u64_small; lia). by rewrite (proj2 (Z.ltb_ge _ _)) by lia.
Qed.

(** ** Stream identifiers *)

(* src/inc/sl_stream_id.h:22-22 *)
Definition SL_STREAM_ID_CONTROL : Z := 0.
(* src/inc/sl_stream_id.h:23-23 *)
Definition SL_STREAM_ID_MAX : Z := 0x7FFFFFFF.

(* src/inc/sl_stream_id.h:25-28 *)
Inductive sl_stream_role_t := SL_STREAM_ROLE_CLIENT | SL_STREAM_ROLE_SERVER.

(* src/inc/sl_stream_id.h:30-33 *)
Record sl_stream_id_alloc_t := mk_alloc { alloc_role : sl_stream_role_t; next_id : Z }.

(* src/src/sl_stream_id.c:3-7 *)
Definition sl_stream_id_init (role : sl_stream_role_t) : sl_stream_id_alloc_t :=
  mk_alloc role (match role with SL_STREAM_ROLE_CLIENT => 1 | SL_STREAM_ROLE_SERVER => 2 end).

(* src/src/sl_stream_id.c:9-15 *)
Definition sl_stream_id_next (a : sl_stream_id_alloc_t) : Z * sl_stream_id_alloc_t :=
  if SL_STREAM_ID_MAX <? next_id a then (0, a)
  else (next_id a, mk_alloc (alloc_role a) (u32 (next_id a + 2))).

(* src/src/sl_stream_id.c:17-19 *)
Definition sl_stream_id_is_control (id : Z) : bool := id =? SL_STREAM_ID_CONTROL.
(* src/src/sl_stream_id.c:21-23 *)
Definition sl_stream_id_is_client_initiated (id : Z) : bool := negb (id =? 0) && (Z.land id 1 =? 1).
(* src/src/sl_stream_id.c:25-27 *)
Definition sl_stream_id_is_server_initiated (id : Z) : bool := negb (id =? 0) && (Z.land id 1 =? 0).

(* src/src/sl_stream_id.c:29-35 *)
Definition sl_stream_id_belongs_to_peer (id : Z) (my_role : sl_stream_role_t) : bool :=
  if sl_stream_id_is_control id then false
  else match my_role with
       | SL_STREAM_ROLE_CLIENT => sl_stream_id_is_server_initiated id
       | SL_STREAM_ROLE_SERVER => sl_stream_id_is_client_initiated id
       end.

(** The allocator's counter keeps the parity of its role, so its ids are never ones the
    other side would allocate, and they only go up. *)
Definition alloc_ok (a : sl_stream_id_alloc_t) : Prop :=
  0 < next_id a <= SL_STREAM_ID_MAX + 2 /\
  next_id a mod 2 = match alloc_role a with SL_STREAM_ROLE_CLIENT => 1 | SL_STREAM_ROLE_SERVER => 0 end.

Lemma alloc_init_ok r : alloc_ok (sl_stream_id_init r).
Proof. unfold alloc_ok, SL_STREAM_ID_MAX. destruct r; simpl; split; (lia || done). Qed.

Lemma land_1_mod x : Z.land x 1 = x mod 2.
Proof. apply (Z.land_ones x 1). lia. Qed.

Lemma stream_id_next_spec a :
  alloc_ok a ->
  let '(id, a') := sl_stream_id_next a in
  alloc_ok a' /\ alloc_role a' = alloc_role a /\
  (id = 0 /\ a' = a \/
   id = next_id a /\ 0 < id <= SL_STREAM_ID_MAX /\ next_id a' = id + 2 /\
   sl_stream_id_belongs_to_peer id (alloc_role a) = false).
Proof.
  unfold alloc_ok, sl_stream_id_next, SL_STREAM_ID_MAX, sl_stream_id_belongs_to_peer, sl_stream_id_is_control,
    SL_STREAM_ID_CONTROL, sl_stream_id_is_server_initiated, sl_stream_id_is_client_initiated.
  intros [H1 H2]. destruct (Z.ltb_spec 0x7FFFFFFF (next_id a)); cbn [next_id alloc_role].
  - split_and!; try done; try lia. by left.
  - rewrite u32_small by lia. split_and!; try done; try lia.
    + destruct (alloc_role a); Z.div_mod_to_equations; lia.
    + right. split_and!; try done; try lia. rewrite (proj2 (Z.eqb_neq _ _)) by lia. cbn [negb andb].
      rewrite land_1_mod, H2. by destruct (alloc_role a).
Qed.

(** ** Priorities *)

(* src/inc/sl_priority.h:26-26 *)
Definition SL_PRIO_URGENT : Z := 0.
(* src/inc/sl_priority.h:28-28 *)
Definition SL_PRIO_NORMAL : Z := 2.
(* src/inc/sl_priority.h:33-33 *)
Definition SL_PRIORITY_COUNT : Z := 5.

(* src/src/sl_priority.c:14-17 *)
Definition sl_priority_default_for (stream_id : Z) : Z :=
  if stream_id =? 0 then SL_PRIO_URGENT else SL_PRIO_NORMAL.

(* src/src/sl_priority.c:19-22 *)
Definition sl_priority_to_byte (p : Z) : Z :=
  if (p <? 0) || (SL_PRIORITY_COUNT <=? p) then SL_PRIO_NORMAL else u8 p.

(* src/src/sl_priority.c:24-27 *)
Definition sl_priority_from_byte (b : Z) : Z := if SL_PRIORITY_COUNT <=? b then SL_PRIO_NORMAL else b.

(** ** Life cycle *)

(* src/inc/stream_state.hpp:21-27 *)
Inductive StreamPhase := kIdle | kOpen | kHalfClosedLocal | kHalfClosedRemote | kClosed.

#[export] Instance StreamPhase_eq_dec : EqDecision StreamPhase.
Proof. solve_decision. Defined.

(** The opening time, which only [age] reads, is left out. *)
(* src/inc/stream_state.hpp:29-56 *)
Record StreamState := mk_stream { st_id : Z; phase_ : StreamPhase; reset_reason_ : string }.

(* src/src/stream_state.cpp:5-8 StreamState::StreamState *)
Definition new_stream (id : Z) : StreamState := mk_stream id kIdle EmptyString.

(* src/src/stream_state.cpp:21-23 StreamState::transition_to *)
Definition transition_to (s : StreamState) (p : StreamPhase) : StreamState :=
  mk_stream (st_id s) p (reset_reason_ s).

(* src/src/stream_state.cpp:25-30 StreamState::open *)
Definition st_open (s : StreamState) : bool * StreamState :=
  if decide (phase_ s = kIdle) then (true, transition_to s kOpen) else (false, s).

(* src/src/stream_state.cpp:32-43 StreamState::on_sent_fin *)
Definition on_sent_fin (s : StreamState) : bool * StreamState :=
  match phase_ s with
  | kOpen => (true, transition_to s kHalfClosedLocal)
  | kHalfClosedRemote => (true, transition_to s kClosed)
  | _ => (false, s)
  end.

(* src/src/stream_state.cpp:45-56 StreamState::on_recv_fin *)
Definition on_recv_fin (s : StreamState) : bool * StreamState :=
  match phase_ s with
  | kOpen => (true, transition_to s kHalfClosedRemote)
  | kHalfClosedLocal => (true, transition_to s kClosed)
  | _ => (false, s)
  end.

(* src/src/stream_state.cpp:58-61 StreamState::reset *)
Definition st_reset (s : StreamState) (reason : string) : StreamState := mk_stream (st_id s) kClosed reason.

(* src/src/stream_state.cpp:63-66 StreamState::can_send *)
Definition can_send (s : StreamState) : bool :=
  match phase_ s with kOpen | kHalfClosedRemote => true | _ => false end.

(* src/src/stream_state.cpp:68-71 StreamState::can_recv *)
Definition can_recv (s : StreamState) : bool :=
  match phase_ s with kOpen | kHalfClosedLocal => true | _ => false end.

(* src/inc/stream_state.hpp:40-40 StreamState::is_closed *)
Definition is_closed (s : StreamState) : bool := bool_decide (phase_ s = kClosed).
