(* ===== verification/Mux.v ===== *)
(** The stream multiplexer ([inc/stream_multiplexer.hpp], [src/stream_multiplexer.cpp]): many
    streams over one session, with per-stream and session flow control. The hash map of
    streams is a finite map; the order in which [pop_outbound] walks it is an argument. *)

From Stdlib Require Import String.
From stdpp Require Import gmap.
From S2P Require Import Prelude ByteOrder Codec StreamFrame Streams.
Local Open Scope Z_scope.

(* src/inc/stream_multiplexer.hpp:27-34 *)
Record StreamRecord := mk_rec {
  rec_state : StreamState;
  flow : sl_flow_ctrl_t;
  priority : Z;
  outbound : list (list Z);
  inbound : list Z;
  inbound_fin : bool
}.

(* src/inc/stream_multiplexer.hpp:36-45 *)
Record MuxStats := mk_mux_stats {
  streams_opened : Z;
  streams_closed : Z;
  frames_in : Z;
  frames_out : Z;
  bytes_in : Z;
  bytes_out : Z;
  flow_blocks : Z;
  resets : Z
}.

(* src/inc/stream_multiplexer.hpp:82-88 StreamMultiplexer *)
Record Mux := mk_mux {
  mux_role : sl_stream_role_t;
  initial_window_ : Z;
  id_alloc_ : sl_stream_id_alloc_t;
  session_flow_ : sl_flow_ctrl_t;
  streams_ : gmap Z StreamRecord;
  stats_ : MuxStats
}.

(* src/src/stream_multiplexer.cpp:8-13 StreamMultiplexer::StreamMultiplexer *)
Definition new_mux (role : sl_stream_role_t) (initial_window : Z) : Mux :=
  mk_mux role initial_window (sl_stream_id_init role) (sl_flow_init_with initial_window) ∅
    (mk_mux_stats 0 0 0 0 0 0 0 0).

Definition set_rec (m : Mux) (id : Z) (r : StreamRecord) : Mux :=
  mk_mux (mux_role m) (initial_window_ m) (id_alloc_ m) (session_flow_ m) (<[id := r]> (streams_ m)) (stats_ m).
Definition set_session (m : Mux) (f : sl_flow_ctrl_t) : Mux :=
  mk_mux (mux_role m) (initial_window_ m) (id_alloc_ m) f (streams_ m) (stats_ m).
Definition set_alloc (m : Mux) (a : sl_stream_id_alloc_t) : Mux :=
  mk_mux (mux_role m) (initial_window_ m) a (session_flow_ m) (streams_ m) (stats_ m).
Definition set_stats (m : Mux) (s : MuxStats) : Mux :=
  mk_mux (mux_role m) (initial_window_ m) (id_alloc_ m) (session_flow_ m) (streams_ m) s.

Definition with_state (r : StreamRecord) (s : StreamState) : StreamRecord :=
  mk_rec s (flow r) (priority r) (outbound r) (inbound r) (inbound_fin r).
Definition with_flow (r : StreamRecord) (f : sl_flow_ctrl_t) : StreamRecord :=
  mk_rec (rec_state r) f (priority r) (outbound r) (inbound r) (inbound_fin r).
Definition with_priority (r : StreamRecord) (p : Z) : StreamRecord :=
  mk_rec (rec_state r) (flow r) p (outbound r) (inbound r) (inbound_fin r).
Definition with_outbound (r : StreamRecord) (o : list (list Z)) : StreamRecord :=
  mk_rec (rec_state r) (flow r) (priority r) o (inbound r) (inbound_fin r).
Definition with_inbound (r : StreamRecord) (b : list Z) : StreamRecord :=
  mk_rec (rec_state r) (flow r) (priority r) (outbound r) b (inbound_fin r).
Definition with_fin (r : StreamRecord) : StreamRecord :=
  mk_rec (rec_state r) (flow r) (priority r) (outbound r) (inbound r) true.

Definition stat_opened (s : MuxStats) : MuxStats :=
  mk_mux_stats (u64 (streams_opened s + 1)) (streams_closed s) (frames_in s) (frames_out s) (bytes_in s)
    (bytes_out s) (flow_blocks s) (resets s).
Definition stat_closed (s : MuxStats) : MuxStats :=
  mk_mux_stats (streams_opened s) (u64 (streams_closed s + 1)) (frames_in s) (frames_out s) (bytes_in s)
    (bytes_out s) (flow_blocks s) (resets s).
Definition stat_in (s : MuxStats) (n : Z) : MuxStats :=
  mk_mux_stats (streams_opened s) (streams_closed s) (u64 (frames_in s + 1)) (frames_out s)
    (u64 (bytes_in s + n)) (bytes_out s) (flow_blocks s) (resets s).
Definition stat_out (s : MuxStats) (n : Z) : MuxStats :=
  mk_mux_stats (streams_opened s) (streams_closed s) (frames_in s) (u64 (frames_out s + 1)) (bytes_in s)
    (u64 (bytes_out s + n)) (flow_blocks s) (resets s).
Definition stat_block (s : MuxStats) : MuxStats :=
  mk_mux_stats (streams_opened s) (streams_closed s) (frames_in s) (frames_out s) (bytes_in s)
    (bytes_out s) (u64 (flow_blocks s + 1)) (resets s).
Definition stat_reset (s : MuxStats) : MuxStats :=
  mk_mux_stats (streams_opened s) (streams_closed s) (frames_in s) (frames_out s) (bytes_in s)
    (bytes_out s) (flow_blocks s) (u64 (resets s + 1)).

(** The record found or made, and the multiplexer that holds it. *)
(* src/src/stream_multiplexer.cpp:20-34 StreamMultiplexer::find_or_create *)
Definition find_or_create (m : Mux) (id : Z) : StreamRecord * Mux :=
  match streams_ m !! id with
  | Some r => (r, m)
  | None =>
      let st := (st_open (new_stream id)).2 in
      let r := mk_rec st (sl_flow_init_with (initial_window_ m)) (sl_priority_default_for id) [] [] false in
      (r, set_stats (set_rec m id r) (stat_opened (stats_ m)))
  end.

(* src/src/stream_multiplexer.cpp:36-43 StreamMultiplexer::open_stream *)
Definition open_stream (m : Mux) (prio : Z) : Z * Mux :=
  let '(id, a) := sl_stream_id_next (id_alloc_ m) in
  let m := set_alloc m a in
  if id =? 0 then (0, m)
  else
    let '(r, m) := find_or_create m id in
    (id, set_rec m id (with_priority r prio)).

(* src/src/stream_multiplexer.cpp:45-71 StreamMultiplexer::send_data *)
Definition send_data (m : Mux) (id : Z) (data : list Z) (fin : bool) : bool * Mux :=
  match streams_ m !! id with
  | None => (false, m)
  | Some r =>
      if negb (can_send (rec_state r)) then (false, m)
      else if SL_STREAM_FRAME_MAX_PAYLOAD <? len data then (false, m)
      else if (0 <? len data) &&
              (negb (sl_flow_can_send (flow r) (u32 (len data))) ||
               negb (sl_flow_can_send (session_flow_ m) (u32 (len data))))
      then (false, set_stats m (stat_block (stats_ m)))
      else
        let '(r, m) :=
          if 0 <? len data then
            let r := with_flow r (sl_flow_charge_send (flow r) (u32 (len data))).2 in
            let m := set_session m (sl_flow_charge_send (session_flow_ m) (u32 (len data))).2 in
            (with_outbound r (outbound r ++ [data]), m)
          else (r, m) in
        let r :=
          if fin then
            let r := with_state r (on_sent_fin (rec_state r)).2 in
            if bool_decide (outbound r = []) then with_outbound r [[]] else r
          else r in
        (true, set_rec m id r)
  end.

(** The FIN flag of a data frame, once its payload is in. *)
(* src/src/stream_multiplexer.cpp:98-101 StreamMultiplexer::on_frame *)
Definition frame_fin (r : StreamRecord) (f : sl_stream_frame_t) : StreamRecord :=
  if negb (Z.land (sf_flags f) SL_STREAM_FLAG_FIN =? 0)
  then with_fin (with_state r (on_recv_fin (rec_state r)).2) else r.

(** The frames of one stream: what [on_frame] does once the record is known. Returns the
    verdict, the record and the multiplexer. *)
(* src/src/stream_multiplexer.cpp:89-121 StreamMultiplexer::on_frame *)
Definition frame_into (m : Mux) (r : StreamRecord) (f : sl_stream_frame_t) : M (bool * StreamRecord * Mux) :=
  match sf_type f with
  | SL_STREAM_FRAME_DATA =>
      if negb (can_recv (rec_state r)) then Ok (false, r, m)
      else
        if 0 <? sf_payload_len f then
          let '(rc, fl) := sl_flow_charge_recv (flow r) (sf_payload_len f) in
          let r := with_flow r fl in
          if negb (rc =? 0) then Ok (false, r, m)
          else
            let '(rc, sfl) := sl_flow_charge_recv (session_flow_ m) (sf_payload_len f) in
            let m := set_session m sfl in
            if negb (rc =? 0) then Ok (false, r, m)
            else
              let! p := load_bytes (default [] (sf_payload f)) 0 (sf_payload_len f) in
              Ok (true, frame_fin (with_inbound r (inbound r ++ p)) f, m)
        else Ok (true, frame_fin r f, m)
  | SL_STREAM_FRAME_WINDOW =>
      if sf_payload_len f <? 4 then Ok (false, r, m)
      else
        let! delta := unpack_u32_be (default [] (sf_payload f)) 0 in
        Ok (true, with_flow r (sl_flow_grant_send (flow r) delta).2, m)
  | SL_STREAM_FRAME_RESET =>
      Ok (true, with_state r (st_reset (rec_state r) "peer_reset"%string),
          set_stats m (stat_reset (stats_ m)))
  | _ => Ok (true, r, m)
  end.

(* src/src/stream_multiplexer.cpp:73-122 StreamMultiplexer::on_frame *)
Definition on_frame (m : Mux) (f : sl_stream_frame_t) : M (bool * Mux) :=
  let m := set_stats m (stat_in (stats_ m) (sf_payload_len f)) in
  if sf_stream_id f =? SL_STREAM_ID_CONTROL then Ok (true, m)
  else
    let into r m :=
      let! '(ok, r, m) := frame_into m r f in
      Ok (ok, set_rec m (sf_stream_id f) r) in
    match streams_ m !! sf_stream_id f with
    | Some r => into r m
    | None =>
        if negb (sl_stream_id_belongs_to_peer (sf_stream_id f) (mux_role m)) then Ok (false, m)
        else let '(r, m) := find_or_create m (sf_stream_id f) in into r m
    end.

(** One band of the scan: the first stream of the walk with that priority and data. *)
(* src/src/stream_multiplexer.cpp:130-132 StreamMultiplexer::pop_outbound *)
Fixpoint scan_band (m : Mux) (order : list Z) (band : Z) : option (Z * StreamRecord * list Z * list (list Z)) :=
  match order with
  | [] => None
  | id :: order =>
      match streams_ m !! id with
      | Some r =>
          if negb (priority r =? band) then scan_band m order band
          else match outbound r with
               | [] => scan_band m order band
               | chunk :: rest => Some (id, r, chunk, rest)
               end
      | None => scan_band m order band
      end
  end.

(* src/src/stream_multiplexer.cpp:129-131 StreamMultiplexer::pop_outbound *)
Fixpoint scan_bands (n : nat) (m : Mux) (order : list Z) (band : Z)
  : option (Z * StreamRecord * list Z * list (list Z)) :=
  match n with
  | O => None
  | S n =>
      match scan_band m order band with
      | Some x => Some x
      | None => scan_bands n m order (band + 1)
      end
  end.

(** The frame, the storage its payload points into, and the multiplexer. *)
(* src/src/stream_multiplexer.cpp:124-154 StreamMultiplexer::pop_outbound *)
Definition pop_outbound (m : Mux) (order storage : list Z) : option sl_stream_frame_t * list Z * Mux :=
  match scan_bands (Z.to_nat SL_PRIORITY_COUNT) m order 0 with
  | None => (None, storage, m)
  | Some (id, r, chunk, rest) =>
      let r := with_outbound r rest in
      let flags :=
        if bool_decide (outbound r = []) && bool_decide (phase_ (rec_state r) = kHalfClosedLocal)
        then SL_STREAM_FLAG_FIN else 0 in
      let storage := chunk in
      let f := mk_stream_frame SL_STREAM_FRAME_DATA flags id
                 (if bool_decide (storage = []) then None else Some storage) (u16 (len storage)) in
      (Some f, storage, set_stats (set_rec m id r) (stat_out (stats_ m) (sf_payload_len f)))
  end.

(** The count, the caller's vector and the multiplexer. *)
(* src/src/stream_multiplexer.cpp:156-171 StreamMultiplexer::read_inbound *)
Definition read_inbound (m : Mux) (id : Z) (out : list Z) : Z * list Z * Mux :=
  match streams_ m !! id with
  | None => (0, out, m)
  | Some r =>
      let out := out ++ inbound r in
      let n := len (inbound r) in
      let r := with_inbound r [] in
      let r := with_flow r (sl_flow_grant_recv (flow r) (u32 n)).2 in
      let m := set_session m (sl_flow_grant_recv (session_flow_ m) (u32 n)).2 in
      let m := set_rec m id r in
      let m := if inbound_fin r && bool_decide (phase_ (rec_state r) = kHalfClosedLocal)
               then set_stats m (stat_closed (stats_ m)) else m in
      (n, out, m)
  end.

(* src/src/stream_multiplexer.cpp:173-180 StreamMultiplexer::reset_stream *)
Definition reset_stream (m : Mux) (id : Z) (reason : string) : bool * Mux :=
  match streams_ m !! id with
  | None => (false, m)
  | Some r => (true, set_stats (set_rec m id (with_state r (st_reset (rec_state r) reason)))
                      (stat_reset (stats_ m)))
  end.

(* src/src/stream_multiplexer.cpp:182-186 StreamMultiplexer::is_open *)
Definition is_open (m : Mux) (id : Z) : bool :=
  match streams_ m !! id with Some r => negb (is_closed (rec_state r)) | None => false end.

(* src/src/stream_multiplexer.cpp:188-195 StreamMultiplexer::open_stream_count *)
Definition open_stream_count (m : Mux) : Z :=
  map_fold (fun _ r n => if is_closed (rec_state r) then n else u64 (n + 1)) 0 (streams_ m).

(** ** Sessions *)

Inductive mux_op :=
| OpOpen (prio : Z)
| OpSend (id : Z) (data : list Z) (fin : bool)
| OpFrame (f : sl_stream_frame_t)
| OpPop (order : list Z)
| OpRead (id : Z)
| OpReset (id : Z) (reason : string).

(** What a call shows its caller. *)
Inductive mux_out :=
| OutId (id : Z)
| OutBool (b : bool)
| OutFrame (f : option sl_stream_frame_t)
| OutBytes (l : list Z).

Definition mux_step (m : Mux) (o : mux_op) : M (mux_out * Mux) :=
  match o with
  | OpOpen p => let '(id, m) := open_stream m p in Ok (OutId id, m)
  | OpSend id d fin => let '(b, m) := send_data m id d fin in Ok (OutBool b, m)
  | OpFrame f => let! '(b, m) := on_frame m f in Ok (OutBool b, m)
  | OpPop order => let '(f, _, m) := pop_outbound m order [] in Ok (OutFrame f, m)
  | OpRead id => let '(_, l, m) := read_inbound m id [] in Ok (OutBytes l, m)
  | OpReset id r => let '(b, m) := reset_stream m id r in Ok (OutBool b, m)
  end.

Fixpoint mux_run (m : Mux) (os : list mux_op) : M (list (mux_op * mux_out) * Mux) :=
  match os with
  | [] => Ok ([], m)
  | o :: os =>
      let! '(r, m) := mux_step m o in
      let! '(rs, m) := mux_run m os in
      Ok ((o, r) :: rs, m)
  end.

(** ** What is queued and what is buffered *)

Definition queued (m : Mux) (id : Z) : list Z :=
  match streams_ m !! id with Some r => concat (outbound r) | None => [] end.
Definition unread (m : Mux) (id : Z) : list Z :=
  match streams_ m !! id with Some r => inbound r | None => [] end.
Definition buffered_total (m : Mux) : Z := map_fold (fun _ r n => len (inbound r) + n) 0 (streams_ m).

Definition rec_ok (r : StreamRecord) : Prop :=
  flow_ok (flow r) /\ Forall (fun c => len c <= SL_STREAM_FRAME_MAX_PAYLOAD) (outbound r).

(** The invariant of a multiplexer with window [w]. *)
Definition mux_ok (w : Z) (m : Mux) : Prop :=
  initial_window_ m = w /\ 0 <= w <= SL_FC_MAX_WINDOW /\ flow_ok (session_flow_ m) /\
  map_Forall (fun _ r => rec_ok r) (streams_ m) /\
  recv_window (session_flow_ m) + buffered_total m = w /\ 0 <= buffered_total m.

Lemma buffered_insert (s : gmap Z StreamRecord) id r :
  map_fold (fun _ r n => len (inbound r) + n) 0 (<[id := r]> s) =
  map_fold (fun _ r n => len (inbound r) + n) 0 s
    - len (match s !! id with Some r => inbound r | None => [] end) + len (inbound r).
Proof.
  assert (Hins : forall (s : gmap Z StreamRecord) id r, s !! id = None ->
    map_fold (fun _ r n => len (inbound r) + n) 0 (<[id := r]> s) =
    len (inbound r) + map_fold (fun _ r n => len (inbound r) + n) 0 s).
  { intros. apply (map_fold_insert_L (fun _ r n => len (inbound r) + n)); [intros; lia|done]. }
  destruct (s !! id) as [r0|] eqn:E.
  - rewrite <- (insert_delete_eq s id r), Hins by apply lookup_delete_eq.
    assert (E2 : s = <[id := r0]> (delete id s)) by (symmetry; by apply insert_delete_id).
    pose proof (Hins (delete id s) id r0 (lookup_delete_eq s id)) as E3. rewrite <- E2 in E3. lia.
  - rewrite Hins by done. change (@len Z []) with 0. lia.
Qed.

Lemma buffered_nonneg m : 0 <= buffered_total m.
Proof.
  unfold buffered_total. apply (map_fold_weak_ind (fun n _ => 0 <= n)); [done|].
  intros. pose proof (len_nonneg (inbound x)). lia.
Qed.

Lemma queued_set m id r j :
  queued (set_rec m id r) j = if decide (j = id) then concat (outbound r) else queued m j.
Proof.
  unfold queued. simpl. destruct (decide (j = id)) as [->|]; [by rewrite lookup_insert_eq|].
  by rewrite lookup_insert_ne by done.
Qed.
Lemma unread_set m id r j :
  unread (set_rec m id r) j = if decide (j = id) then inbound r else unread m j.
Proof.
  unfold unread. simpl. destruct (decide (j = id)) as [->|]; [by rewrite lookup_insert_eq|].
  by rewrite lookup_insert_ne by done.
Qed.

(** Replacing one record, with the session's flow changed by the bytes it gained. *)
Lemma mux_ok_set w m id r f s :
  mux_ok w m -> rec_ok r -> flow_ok f ->
  recv_window f = recv_window (session_flow_ m) + len (unread m id) - len (inbound r) ->
  mux_ok w (set_stats (set_rec (set_session m f) id r) s).
Proof.
  intros (H1 & H2 & H3 & H4 & H5 & _) Hr Hf Hb. unfold mux_ok. cbn.
  split_and!; try done; try apply H2; try apply Hf.
  - by apply map_Forall_insert_2.
  - unfold buffered_total. cbn. rewrite buffered_insert. fold (unread m id). unfold buffered_total in H5. lia.
  - apply (buffered_nonneg (mk_mux _ _ (id_alloc_ m) f (<[id := r]> (streams_ m)) s)).
Qed.

Lemma mux_ok_rec w m id r :
  mux_ok w m -> rec_ok r -> len (inbound r) = len (unread m id) -> mux_ok w (set_rec m id r).
Proof.
  intros Hm Hr Hi. pose proof (mux_ok_set w m id r (session_flow_ m) (stats_ m) Hm Hr) as H.
  apply H; [by destruct Hm as (_ & _ & ? & _)|lia].
Qed.

Lemma mux_ok_lookup w m id r : mux_ok w m -> streams_ m !! id = Some r -> rec_ok r.
Proof. intros (_ & _ & _ & H & _) E. exact (H id r E). Qed.

Lemma new_mux_ok role w : 0 <= w <= SL_FC_MAX_WINDOW -> mux_ok w (new_mux role w).
Proof.
  intros Hw. unfold mux_ok, buffered_total. cbn. rewrite map_fold_empty.
  split_and!; try lia; try done.
Qed.

(** ** One call *)

Definition bytes_sent (o : mux_op) (r : mux_out) (id : Z) : list Z :=
  match o, r with OpSend i d _, OutBool true => if decide (i = id) then d else [] | _, _ => [] end.
Definition bytes_popped (r : mux_out) (id : Z) : list Z :=
  match r with
  | OutFrame (Some f) =>
      if decide (sf_stream_id f = id) then ptr_bytes (sf_payload f) (sf_payload_len f) else []
  | _ => []
  end.
Definition bytes_received (o : mux_op) (r : mux_out) (id : Z) : list Z :=
  match o, r with
  | OpFrame f, OutBool true =>
      if decide (sf_type f = SL_STREAM_FRAME_DATA /\ sf_stream_id f = id /\ id <> SL_STREAM_ID_CONTROL)
      then ptr_bytes (sf_payload f) (sf_payload_len f) else []
  | _, _ => []
  end.
Definition bytes_read (o : mux_op) (r : mux_out) (id : Z) : list Z :=
  match o, r with OpRead i, OutBytes l => if decide (i = id) then l else [] | _, _ => [] end.

(** The total a call took from the session's send credit. *)
Definition bytes_charged (o : mux_op) (r : mux_out) : Z :=
  match o, r with OpSend _ d _, OutBool true => len d | _, _ => 0 end.

(** What each call must do: keep the invariant and account for every byte. *)
Definition step_ok (w : Z) (m : Mux) (o : mux_op) (r : mux_out) (m' : Mux) : Prop :=
  mux_ok w m' /\
  (forall id, queued m id ++ bytes_sent o r id = bytes_popped r id ++ queued m' id) /\
  (forall id, unread m id ++ bytes_received o r id = bytes_read o r id ++ unread m' id) /\
  send_credit (session_flow_ m') = send_credit (session_flow_ m) - bytes_charged o r.

(** Frames as the codec delivers them. *)
Definition frame_ok (f : sl_stream_frame_t) : Prop :=
  ptr_ok (sf_payload f) (sf_payload_len f) /\ is_u16 (sf_payload_len f) /\
  bytes_ok (default [] (sf_payload f)).

Definition op_ok (o : mux_op) : Prop := match o with OpFrame f => frame_ok f | _ => True end.

(** A record replaced by one with the same queue and the same unread bytes. *)
Lemma neutral_rec w m id r s :
  mux_ok w m -> rec_ok r -> concat (outbound r) = queued m id -> inbound r = unread m id ->
  let m' := set_stats (set_rec m id r) s in
  mux_ok w m' /\ (forall j, queued m' j = queued m j) /\ (forall j, unread m' j = unread m j) /\
  session_flow_ m' = session_flow_ m.
Proof.
  intros Hm Hr Hq Hu m'. split_and!; [| | |done].
  - apply (mux_ok_set w m id r (session_flow_ m) s Hm Hr); [by destruct Hm as (_ & _ & ? & _)|].
    rewrite Hu. lia.
  - intros j. change (queued m' j) with (queued (set_rec m id r) j). rewrite queued_set.
    destruct (decide (j = id)) as [->|]; done.
  - intros j. change (unread m' j) with (unread (set_rec m id r) j). rewrite unread_set.
    destruct (decide (j = id)) as [->|]; done.
Qed.

Lemma find_or_create_ok w m id :
  mux_ok w m ->
  let '(r, m') := find_or_create m id in
  mux_ok w m' /\ rec_ok r /\ concat (outbound r) = queued m id /\ inbound r = unread m id /\
  (forall j, queued m' j = queued m j) /\ (forall j, unread m' j = unread m j) /\
  session_flow_ m' = session_flow_ m /\ streams_ m' !! id = Some r.
Proof.
  intros Hm. unfold find_or_create. destruct (streams_ m !! id) as [r|] eqn:E.
  - unfold queued, unread. rewrite E. split_and!; try done. by eapply mux_ok_lookup.
  - assert (Hr : rec_ok (mk_rec (st_open (new_stream id)).2 (sl_flow_init_with (initial_window_ m))
        (sl_priority_default_for id) [] [] false)).
    { destruct Hm as (-> & Hw & _). split; [by apply flow_init_ok|constructor]. }
    assert (Hq : queued m id = []) by (unfold queued; by rewrite E).
    assert (Hu : unread m id = []) by (unfold unread; by rewrite E).
    destruct (neutral_rec w m id _ (stat_opened (stats_ m)) Hm Hr) as (N1 & N2 & N3 & N4); [done|done|].
    split_and!; try done. simpl. by rewrite lookup_insert_eq.
Qed.

Lemma open_ok w m p : mux_ok w m -> let '(id, m') := open_stream m p in step_ok w m (OpOpen p) (OutId id) m'.
Proof.
  intros Hm. unfold open_stream. destruct (sl_stream_id_next (id_alloc_ m)) as [id a].
  assert (Hm1 : mux_ok w (set_alloc m a)) by exact Hm.
  assert (Hsame : forall m', mux_ok w m' -> (forall j, queued m' j = queued m j) ->
    (forall j, unread m' j = unread m j) -> session_flow_ m' = session_flow_ m ->
    step_ok w m (OpOpen p) (OutId id) m').
  { intros m' A B C D. split_and!; [done| | |].
    - intros j. by rewrite B, app_nil_r.
    - intros j. by rewrite C, app_nil_r.
    - rewrite D. simpl. lia. }
  destruct (id =? 0); [by apply Hsame|].
  pose proof (find_or_create_ok w (set_alloc m a) id Hm1) as Hf.
  destruct (find_or_create (set_alloc m a) id) as [r m1].
  destruct Hf as (F1 & F2 & F3 & F4 & F5 & F6 & F7 & F8).
  destruct (neutral_rec w m1 id (with_priority r p) (stats_ m1) F1) as (N1 & N2 & N3 & N4).
  - exact F2.
  - simpl. by rewrite F3, F5.
  - simpl. by rewrite F4, F6.
  - apply Hsame; [exact N1| | |].
    + intros j. transitivity (queued m1 j); [apply N2|apply F5].
    + intros j. transitivity (unread m1 j); [apply N3|apply F6].
    + exact F7.
Qed.

(** A call that changes neither queues nor buffers nor the session's flow. *)
Lemma step_neutral w m o r m' :
  mux_ok w m' -> (forall j, queued m' j = queued m j) -> (forall j, unread m' j = unread m j) ->
  session_flow_ m' = session_flow_ m ->
  (forall j, bytes_sent o r j = []) -> (forall j, bytes_popped r j = []) ->
  (forall j, bytes_received o r j = []) -> (forall j, bytes_read o r j = []) -> bytes_charged o r = 0 ->
  step_ok w m o r m'.
Proof.
  intros A B C D E1 E2 E3 E4 E5. split_and!; [done| | |].
  - intros j. by rewrite B, E1, E2, app_nil_r.
  - intros j. by rewrite C, E3, E4, app_nil_r.
  - rewrite D, E5. lia.
Qed.

Lemma charge_send_run fc n :
  n <= send_credit fc -> sl_flow_charge_send fc n = (0, mk_flow (send_credit fc - n) (recv_window fc)).
Proof. intros. unfold sl_flow_charge_send. by rewrite (proj2 (Z.ltb_ge _ _)) by lia. Qed.

Lemma send_ok w m id d fin :
  mux_ok w m -> let '(b, m') := send_data m id d fin in step_ok w m (OpSend id d fin) (OutBool b) m'.
Proof.
  intros Hm. unfold send_data.
  assert (Hno : forall s, step_ok w m (OpSend id d fin) (OutBool false) (set_stats m s))
    by (intros; by apply step_neutral).
  destruct (streams_ m !! id) as [r|] eqn:E; [|apply (Hno (stats_ m))].
  destruct (can_send (rec_state r)); [|apply (Hno (stats_ m))]. cbn [negb].
  destruct (Z.ltb_spec SL_STREAM_FRAME_MAX_PAYLOAD (len d)) as [|Hl]; [apply (Hno (stats_ m))|].
  pose proof (mux_ok_lookup w m id r Hm E) as [Hfl Hout].
  pose proof (len_nonneg d). unfold SL_STREAM_FRAME_MAX_PAYLOAD in Hl. rewrite u32_small by lia.
  destruct ((0 <? len d) && _) eqn:Eb; [apply Hno|].
  assert (Hq : queued m id = concat (outbound r)) by (unfold queued; by rewrite E).
  assert (Hu : unread m id = inbound r) by (unfold unread; by rewrite E).
  set (upd := if 0 <? len d then _ else (r, m)).
  assert (exists r1 f1, upd = (r1, set_session m f1) /\ rec_ok r1 /\ flow_ok f1 /\
    concat (outbound r1) = concat (outbound r) ++ d /\ inbound r1 = inbound r /\
    recv_window f1 = recv_window (session_flow_ m) /\
    send_credit f1 = send_credit (session_flow_ m) - len d) as (r1 & f1 & -> & R1 & R2 & R3 & R4 & R5 & R6).
  { unfold upd. destruct (Z.ltb_spec 0 (len d)) as [Hpos|Hz].
    - cbn [andb] in Eb.
      apply orb_false_iff in Eb as [B1%negb_false_iff B2%negb_false_iff].
      unfold sl_flow_can_send in B1, B2. apply Z.leb_le in B1, B2. rewrite !charge_send_run by done.
      eexists _, _. split; [reflexivity|]. cbn. split_and!; try done; try lia.
      + unfold rec_ok. cbn. split; [unfold flow_ok in *; cbn; lia|]. apply Forall_app. split; [done|].
        constructor; [|constructor]. unfold SL_STREAM_FRAME_MAX_PAYLOAD. lia.
      + destruct Hm as (_ & _ & Hs & _). unfold flow_ok in *. cbn. lia.
      + rewrite concat_app. simpl. by rewrite app_nil_r.
    - exists r, (session_flow_ m). rewrite (len_0_nil d) by lia. rewrite app_nil_r, len_nil.
      split_and!; try done; try lia; [by destruct m|by destruct Hm as (_ & _ & ? & _)]. }
  set (r2 := if fin then _ else r1).
  assert (H2 : rec_ok r2 /\ concat (outbound r2) = concat (outbound r1) /\ inbound r2 = inbound r1).
  { unfold r2. destruct fin; [|done]. cbn [outbound with_state].
    destruct (bool_decide_reflect (outbound r1 = [])) as [->|]; [|by destruct R1].
    destruct R1 as [? _]. split; [|done]. split; [done|]. constructor; [vm_compute; congruence|constructor]. }
  destruct H2 as (S1 & S2 & S3). split_and!.
  - apply (mux_ok_set w m id r2 f1 (stats_ m) Hm S1 R2). rewrite S3, R4, Hu. lia.
  - intros j. simpl bytes_popped. simpl app. rewrite (queued_set (set_session m f1)). cbn [bytes_sent].
    destruct (decide (id = j)) as [<-|]; [|rewrite decide_False by done; by rewrite app_nil_r].
    rewrite decide_True by done. by rewrite S2, R3, Hq.
  - intros j. rewrite (unread_set (set_session m f1)). cbn [bytes_received bytes_read app]. rewrite app_nil_r.
    destruct (decide (j = id)) as [->|]; [|done]. by rewrite S3, R4, Hu.
  - cbn. done.
Qed.

Lemma charge_recv_cases fc n :
  (sl_flow_charge_recv fc n = (-1, fc) \/
   sl_flow_charge_recv fc n = (0, mk_flow (send_credit fc) (recv_window fc - n)) /\ n <= recv_window fc).
Proof.
  unfold sl_flow_charge_recv. destruct (Z.ltb_spec (recv_window fc) n); [by left|right; split; [done|lia]].
Qed.

Lemma no_bytes_of_other_frame f ok j :
  sf_type f <> SL_STREAM_FRAME_DATA -> bytes_received (OpFrame f) (OutBool ok) j = [].
Proof. intros Ht. destruct ok; [|done]. cbn. rewrite decide_False; [done|]. by intros [? _]. Qed.

(** Updating the record without touching its queue or buffer, for a frame whose verdict
    delivers nothing. *)
Lemma frame_neutral w m f ok r s :
  let id := sf_stream_id f in
  mux_ok w m -> rec_ok r -> concat (outbound r) = queued m id -> inbound r = unread m id ->
  (forall j, bytes_received (OpFrame f) (OutBool ok) j = []) ->
  step_ok w m (OpFrame f) (OutBool ok) (set_stats (set_rec m id r) s).
Proof.
  intros id Hm Hr Hq Hu Hb. destruct (neutral_rec w m id r s Hm Hr Hq Hu) as (N1 & N2 & N3 & N4).
  by apply step_neutral.
Qed.

(** A data frame whose payload was charged to the session and appended. *)
Lemma frame_accepted w m f r fl :
  let id := sf_stream_id f in
  mux_ok w m -> ptr_ok (sf_payload f) (sf_payload_len f) -> sf_type f = SL_STREAM_FRAME_DATA ->
  id <> SL_STREAM_ID_CONTROL -> rec_ok r -> flow_ok fl -> concat (outbound r) = queued m id ->
  inbound r = unread m id ++ ptr_bytes (sf_payload f) (sf_payload_len f) ->
  recv_window fl = recv_window (session_flow_ m) - sf_payload_len f ->
  send_credit fl = send_credit (session_flow_ m) ->
  step_ok w m (OpFrame f) (OutBool true) (set_rec (set_session m fl) id (frame_fin r f)).
Proof.
  intros id Hm Hp Ht Hid Hr Hfl Hq Hi Hw Hc. pose proof (len_ptr_bytes _ _ Hp) as Hlp.
  assert (rec_ok (frame_fin r f) /\ outbound (frame_fin r f) = outbound r /\
          inbound (frame_fin r f) = inbound r) as (F1 & F2 & F3).
  { unfold frame_fin. by destruct (negb _). }
  split_and!.
  - apply (mux_ok_set w m id _ fl (stats_ m) Hm F1 Hfl). rewrite F3, Hi, len_app, Hlp, Hw. lia.
  - intros j. rewrite (queued_set (set_session m fl)), F2, Hq. cbn [bytes_sent bytes_popped app].
    rewrite app_nil_r. destruct (decide (j = id)) as [->|]; done.
  - intros j. rewrite (unread_set (set_session m fl)), F3, Hi. cbn [bytes_received bytes_read app].
    destruct (decide (j = id)) as [->|Hj]; [by rewrite decide_True|].
    rewrite decide_False by (intros (_ & <- & _); done). by rewrite app_nil_r.
  - cbn. lia.
Qed.

Lemma frame_data_ok w m r f :
  let id := sf_stream_id f in
  mux_ok w m -> frame_ok f -> sf_type f = SL_STREAM_FRAME_DATA -> id <> SL_STREAM_ID_CONTROL ->
  rec_ok r -> concat (outbound r) = queued m id -> inbound r = unread m id ->
  exists ok r' m', frame_into m r f = Ok (ok, r', m') /\
    step_ok w m (OpFrame f) (OutBool ok) (set_rec m' id r').
Proof.
  intros id Hm (Hp & Hn & _) Ht Hid Hr Hq Hu. unfold frame_into. rewrite Ht.
  pose proof (len_ptr_bytes _ _ Hp) as Hlp.
  pose proof Hm as (_ & _ & Hs & _).
  assert (Hno : forall fl, flow_ok fl ->
    step_ok w m (OpFrame f) (OutBool false) (set_rec m id (with_flow r fl))).
  { intros fl Hfl. apply (frame_neutral w m f false (with_flow r fl) (stats_ m)); try done.
    split; [done|apply Hr]. }
  destruct (can_recv (rec_state r)); cbn [negb].
  2: { eexists _, _, _. split; [reflexivity|]. destruct r. apply (Hno _ (proj1 Hr)). }
  destruct (Z.ltb_spec 0 (sf_payload_len f)) as [Hpos|Hz].
  - destruct (charge_recv_cases (flow r) (sf_payload_len f)) as [->|[-> Hc]]; cbn [Z.eqb negb].
    { eexists _, _, _. split; [reflexivity|]. apply (Hno _ (proj1 Hr)). }
    assert (Hfl : flow_ok (mk_flow (send_credit (flow r)) (recv_window (flow r) - sf_payload_len f))).
    { destruct Hr as [Hf _]. unfold flow_ok in *. cbn. lia. }
    destruct (charge_recv_cases (session_flow_ m) (sf_payload_len f)) as [->|[-> Hc2]]; cbn [Z.eqb negb].
    { eexists _, _, _. split; [reflexivity|]. destruct m. apply (Hno _ Hfl). }
    rewrite load_ptr by done. eexists _, _, _. split; [reflexivity|].
    apply frame_accepted; try done.
    + split; [done|apply Hr].
    + unfold flow_ok in *. cbn. lia.
    + cbn. by rewrite Hu.
  - assert (E0 : ptr_bytes (sf_payload f) (sf_payload_len f) = []) by (apply len_0_nil; lia).
    eexists _, _, _. split; [reflexivity|].
    assert (Em : m = set_session m (session_flow_ m)) by (by destruct m). rewrite Em at 2.
    apply frame_accepted; try done; [by rewrite E0, app_nil_r|lia].
Qed.

Lemma frame_into_ok w m r f :
  let id := sf_stream_id f in
  mux_ok w m -> frame_ok f -> id <> SL_STREAM_ID_CONTROL ->
  rec_ok r -> concat (outbound r) = queued m id -> inbound r = unread m id ->
  exists ok r' m', frame_into m r f = Ok (ok, r', m') /\
    step_ok w m (OpFrame f) (OutBool ok) (set_rec m' id r').
Proof.
  intros id Hm Hf Hid Hr Hq Hu.
  destruct (decide (sf_type f = SL_STREAM_FRAME_DATA)) as [Ht|Ht]; [by apply frame_data_ok|].
  assert (Hgen : forall ok r' s, rec_ok r' -> outbound r' = outbound r -> inbound r' = inbound r ->
    step_ok w m (OpFrame f) (OutBool ok) (set_stats (set_rec m id r') s)).
  { intros ok r' s A B C. apply frame_neutral; try done.
    - by rewrite B.
    - by rewrite C.
    - intros j. by apply no_bytes_of_other_frame. }
  assert (Hsame : forall ok r', rec_ok r' -> outbound r' = outbound r -> inbound r' = inbound r ->
    step_ok w m (OpFrame f) (OutBool ok) (set_rec m id r')) by (intros; by apply (Hgen ok r' (stats_ m))).
  unfold frame_into. destruct (sf_type f); try done; try (eexists _, _, _; split; [reflexivity|]; by apply Hsame).
  - destruct (Z.ltb_spec (sf_payload_len f) 4); [eexists _, _, _; split; [reflexivity|]; by apply Hsame|].
    destruct Hf as ([_ Hp] & Hn & Hb). destruct Hp as (b & Eb & Hl); [lia|]. rewrite Eb in *. cbn [default from_option Datatypes.id] in *.
    destruct (unpack_u32_sound b 0) as (delta & -> & Hd & _); [done|lia..|].
    eexists _, _, _. split; [reflexivity|]. apply Hsame; try done. split; [|apply Hr].
    by apply flow_ops_ok; [apply Hr|].
Qed.

Lemma frame_step w m f :
  mux_ok w m -> frame_ok f ->
  exists b m', on_frame m f = Ok (b, m') /\ step_ok w m (OpFrame f) (OutBool b) m'.
Proof.
  intros Hm Hf. unfold on_frame.
  set (m1 := set_stats m _). assert (Hm1 : mux_ok w m1) by exact Hm.
  destruct (Z.eqb_spec (sf_stream_id f) SL_STREAM_ID_CONTROL) as [E0|E0].
  { eexists _, _. split; [reflexivity|]. apply step_neutral; try done.
    intros j. cbn. destruct (decide _) as [(_ & <- & ?)|]; done. }
  destruct (streams_ m1 !! sf_stream_id f) as [r|] eqn:E.
  - destruct (frame_into_ok w m1 r f Hm1 Hf E0) as (ok & r' & m' & -> & Hs).
    + by eapply mux_ok_lookup.
    + unfold queued. by rewrite E.
    + unfold unread. by rewrite E.
    + by eexists _, _.
  - destruct (sl_stream_id_belongs_to_peer _ _); cbn [negb].
    2: { eexists _, _. split; [reflexivity|]. by apply step_neutral. }
    pose proof (find_or_create_ok w m1 (sf_stream_id f) Hm1) as Hfc.
    destruct (find_or_create m1 (sf_stream_id f)) as [r m2].
    destruct Hfc as (F1 & F2 & F3 & F4 & F5 & F6 & F7 & F8).
    destruct (frame_into_ok w m2 r f F1 Hf E0 F2) as (ok & r' & m' & -> & (S1 & S2 & S3 & S4)).
    + by rewrite F3, F5.
    + by rewrite F4, F6.
    + eexists _, _. split; [reflexivity|]. split_and!; [done| | |].
      * intros j. rewrite <- S2, F5. done.
      * intros j. rewrite <- S3, F6. done.
      * rewrite S4, F7. done.
Qed.

Lemma scan_bands_spec n m order band id r chunk rest :
  scan_bands n m order band = Some (id, r, chunk, rest) ->
  streams_ m !! id = Some r /\ outbound r = chunk :: rest.
Proof.
  revert band. induction n as [|n IH]; intros band; [done|]. simpl.
  destruct (scan_band m order band) as [x|] eqn:E; [|apply IH].
  intros [= ->]. revert E. clear IH. induction order as [|j order IH2]; [done|]. simpl.
  destruct (streams_ m !! j) as [r0|] eqn:E0; [|done].
  destruct (negb _); [done|]. destruct (outbound r0) eqn:Eo; [done|]. by intros [= <- <- <- <-].
Qed.

Lemma pop_step w m order st :
  mux_ok w m ->
  let '(f, _, m') := pop_outbound m order st in step_ok w m (OpPop order) (OutFrame f) m'.
Proof.
  intros Hm. unfold pop_outbound.
  destruct (scan_bands _ m order 0) as [[[[id r] chunk] rest]|] eqn:E; [|by apply step_neutral].
  apply scan_bands_spec in E as [E Eo]. destruct (mux_ok_lookup w m id r Hm E) as [Hfl Hout].
  rewrite Eo in Hout. apply Forall_cons_1 in Hout as [Hc Hrest]. cbv beta in Hc.
  pose proof (len_nonneg chunk). unfold SL_STREAM_FRAME_MAX_PAYLOAD in Hc.
  set (s := stat_out _ _). set (r' := with_outbound r rest).
  assert (Hi : inbound r' = unread m id) by (unfold unread; by rewrite E).
  split_and!; [| | |cbn; lia].
  - apply (mux_ok_set w m id r' (session_flow_ m) s Hm); [by split|apply Hm|rewrite Hi; lia].
  - intros j. change (queued (set_stats ?m s) j) with (queued m j). rewrite queued_set.
    cbn [bytes_sent bytes_popped sf_stream_id sf_payload sf_payload_len outbound r' with_outbound].
    rewrite app_nil_r. destruct (decide (j = id)) as [->|]; [|by rewrite decide_False].
    rewrite decide_True by done. unfold queued. rewrite E, Eo, u16_small by lia.
    destruct (bool_decide_reflect (chunk = [])) as [->|]; [done|]. unfold ptr_bytes. simpl.
    by rewrite take_ge by (unfold len; lia).
  - intros j. change (unread (set_stats ?m s) j) with (unread m j). rewrite unread_set, Hi.
    cbn [bytes_received bytes_read app]. rewrite app_nil_r. destruct (decide (j = id)) as [->|]; done.
Qed.

Lemma unread_le_buffered m id : len (unread m id) <= buffered_total m.
Proof.
  unfold unread. destruct (streams_ m !! id) as [r|] eqn:E; [|apply buffered_nonneg].
  pose proof (buffered_nonneg (set_rec m id (with_inbound r []))) as H. unfold buffered_total in *.
  cbn in H. rewrite buffered_insert, E in H. cbn in H. change (@len Z []) with 0 in H. lia.
Qed.

Lemma read_step_ok w m id :
  mux_ok w m ->
  let '(_, l, m') := read_inbound m id [] in step_ok w m (OpRead id) (OutBytes l) m'.
Proof.
  intros Hm. unfold read_inbound. destruct (streams_ m !! id) as [r|] eqn:E.
  2: { apply step_neutral; try done. intros j. cbn. by destruct (decide _). }
  destruct (mux_ok_lookup w m id r Hm E) as [Hfl Hout].
  assert (Hu : unread m id = inbound r) by (unfold unread; by rewrite E).
  pose proof Hm as (Hw & Hwr & Hsf & Hrecs & Hb & Hbn).
  pose proof (unread_le_buffered m id) as Hle. rewrite Hu in Hle. pose proof (len_nonneg (inbound r)).
  unfold SL_FC_MAX_WINDOW in Hwr. pose proof Hsf as [_ Hsw]. unfold SL_FC_MAX_WINDOW in Hsw.
  rewrite u32_small by lia.
  rewrite (grant_recv_run (session_flow_ m)) by (try done; unfold SL_FC_MAX_WINDOW; lia).
  set (fl := mk_flow _ _). set (r' := with_flow _ _). set (fin := inbound_fin _ && _).
  assert (Hs : step_ok w m (OpRead id) (OutBytes ([] ++ inbound r)) (set_rec (set_session m fl) id r')).
  2: { by destruct fin. }
  split_and!; [| | |cbn; lia].
  - apply (mux_ok_set w m id r' fl (stats_ m) Hm).
    + split; [|done]. apply flow_ops_ok; [done|lia].
    + unfold flow_ok, SL_FC_MAX_WINDOW in *. cbn. lia.
    + rewrite Hu. change (inbound r') with (@nil Z). change (@len Z []) with 0. cbn. lia.
  - intros j. rewrite (queued_set (set_session m fl)). cbn [bytes_sent bytes_popped app]. rewrite app_nil_r.
    destruct (decide (j = id)) as [->|]; [|done]. unfold queued. by rewrite E.
  - intros j. rewrite (unread_set (set_session m fl)). cbn [bytes_received bytes_read app].
    destruct (decide (j = id)) as [->|]; [rewrite decide_True by done; by rewrite Hu|].
    by rewrite decide_False, app_nil_r by done.
Qed.

Lemma reset_step w m id reason :
  mux_ok w m -> let '(b, m') := reset_stream m id reason in step_ok w m (OpReset id reason) (OutBool b) m'.
Proof.
  intros Hm. unfold reset_stream. destruct (streams_ m !! id) as [r|] eqn:E; [|by apply step_neutral].
  destruct (neutral_rec w m id (with_state r (st_reset (rec_state r) reason)) (stat_reset (stats_ m)) Hm)
    as (N1 & N2 & N3 & N4).
  - by apply (mux_ok_lookup w m id r Hm E).
  - unfold queued. by rewrite E.
  - unfold unread. by rewrite E.
  - by apply step_neutral.
Qed.

Lemma mux_step_ok w m o :
  mux_ok w m -> op_ok o -> exists r m', mux_step m o = Ok (r, m') /\ step_ok w m o r m'.
Proof.
  intros Hm Ho. destruct o as [p|id d fin|f|order|id|id reason]; cbn [mux_step].
  - pose proof (open_ok w m p Hm). destruct (open_stream m p). eauto.
  - pose proof (send_ok w m id d fin Hm). destruct (send_data m id d fin). eauto.
  - destruct (frame_step w m f Hm Ho) as (b & m' & -> & ?). eexists _, _. by split.
  - pose proof (pop_step w m order [] Hm). destruct (pop_outbound m order []) as [[f s] m']. eauto.
  - pose proof (read_step_ok w m id Hm). destruct (read_inbound m id []) as [[n l] m']. eauto.
  - pose proof (reset_step w m id reason Hm). destruct (reset_stream m id reason). eauto.
Qed.

(** ** Whole sessions *)

Definition all_sent (log : list (mux_op * mux_out)) (id : Z) : list Z :=
  concat (map (fun x => bytes_sent x.1 x.2 id) log).
Definition all_popped (log : list (mux_op * mux_out)) (id : Z) : list Z :=
  concat (map (fun x => bytes_popped x.2 id) log).
Definition all_received (log : list (mux_op * mux_out)) (id : Z) : list Z :=
  concat (map (fun x => bytes_received x.1 x.2 id) log).
Definition all_read (log : list (mux_op * mux_out)) (id : Z) : list Z :=
  concat (map (fun x => bytes_read x.1 x.2 id) log).
Definition all_charged (log : list (mux_op * mux_out)) : Z :=
  foldr (fun x n => bytes_charged x.1 x.2 + n) 0 log.

Lemma mux_run_ok w m os :
  mux_ok w m -> Forall op_ok os ->
  exists log m', mux_run m os = Ok (log, m') /\ mux_ok w m' /\ map fst log = os /\
    (forall id, queued m id ++ all_sent log id = all_popped log id ++ queued m' id) /\
    (forall id, unread m id ++ all_received log id = all_read log id ++ unread m' id) /\
    send_credit (session_flow_ m') = send_credit (session_flow_ m) - all_charged log.
Proof.
  intros Hm Hos. revert m Hm. induction Hos as [|o os Ho _ IH]; intros m Hm.
  - exists [], m. split_and!; try done; try (intros; by rewrite app_nil_r). cbn. lia.
  - destruct (mux_step_ok w m o Hm Ho) as (r & m1 & E1 & S1 & S2 & S3 & S4).
    destruct (IH m1 S1) as (log & m2 & E2 & T1 & T2 & T3 & T4 & T5).
    exists ((o, r) :: log), m2. cbn [mux_run]. rewrite E1. cbn. rewrite E2. cbn.
    split_and!; try done.
    + by rewrite T2.
    + intros id. unfold all_sent, all_popped in *. cbn. by rewrite app_assoc, S2, <- !app_assoc, T3.
    + intros id. unfold all_received, all_read in *. cbn. by rewrite app_assoc, S3, <- !app_assoc, T4.
    + unfold all_charged in *. cbn [foldr fst snd]. lia.
Qed.

(** C8: In any run of calls on a fresh multiplexer, in any order and with any walk order of
    the stream table, every stream is a FIFO in both directions: the bytes accepted for
    sending are exactly the bytes of the frames popped so far followed by those still queued,
    and the bytes of the accepted data frames are exactly those read so far followed by those
    still buffered. No call faults. *)
Theorem mux_streams_fifo role w os :
  0 <= w <= SL_FC_MAX_WINDOW -> Forall op_ok os ->
  exists log m', mux_run (new_mux role w) os = Ok (log, m') /\ map fst log = os /\
    forall id, all_sent log id = all_popped log id ++ queued m' id /\
               all_received log id = all_read log id ++ unread m' id.
Proof.
  intros Hw Hos. destruct (mux_run_ok w (new_mux role w) os) as (log & m' & E & _ & El & Hs & Hr & _);
    [by apply new_mux_ok|done|].
  exists log, m'. split_and!; [done..|]. intros id. by rewrite <- Hs, <- Hr.
Qed.

(** Inbound buffering is bounded by flow control: after any run of calls on a fresh
    multiplexer with window [w], the bytes buffered over all streams and the session's
    remaining receive window add up to exactly [w]. *)
Theorem mux_inbound_bounded role w os :
  0 <= w <= SL_FC_MAX_WINDOW -> Forall op_ok os ->
  exists log m', mux_run (new_mux role w) os = Ok (log, m') /\
    buffered_total m' + recv_window (session_flow_ m') = w /\ 0 <= recv_window (session_flow_ m') /\
    forall id, len (unread m' id) <= buffered_total m' <= w.
Proof.
  intros Hw Hos. destruct (mux_run_ok w (new_mux role w) os) as (log & m' & E & Hm & _);
    [by apply new_mux_ok|done|].
  destruct Hm as (_ & _ & [_ Hf] & _ & Hb & Hn). exists log, m'.
  split_and!; [done|lia|lia|]. intros id. split; [apply unread_le_buffered|lia].
Qed.

(** A run that opens a stream, sends on it, pops the frame, and receives and reads data on a
    stream of the peer. *)
Definition demo_ops : list mux_op :=
  [OpOpen 1; OpSend 1 [10; 20; 30] true; OpPop [1];
   OpFrame (mk_stream_frame SL_STREAM_FRAME_DATA 0 2 (Some [7; 8]) 2);
   OpRead 2;
   OpFrame (mk_stream_frame SL_STREAM_FRAME_DATA SL_STREAM_FLAG_FIN 2 (Some [9]) 1)].

Lemma demo_ops_ok : Forall op_ok demo_ops.
Proof.
  repeat constructor; cbn; try lia; intros; eexists; (split; [reflexivity|vm_compute; congruence]).
Qed.

Lemma mux_streams_fifo_witness :
  exists log m', mux_run (new_mux SL_STREAM_ROLE_CLIENT 100) demo_ops = Ok (log, m') /\
    forall id, all_sent log id = all_popped log id ++ queued m' id /\
               all_received log id = all_read log id ++ unread m' id.
Proof.
  destruct (mux_streams_fifo SL_STREAM_ROLE_CLIENT 100 demo_ops) as (log & m' & E & _ & H).
  - vm_compute. split; congruence.
  - apply demo_ops_ok.
  - exists log, m'. by split.
Defined.

Lemma mux_inbound_bounded_witness :
  exists log m', mux_run (new_mux SL_STREAM_ROLE_CLIENT 100) demo_ops = Ok (log, m') /\
    buffered_total m' + recv_window (session_flow_ m') = 100.
Proof.
  destruct (mux_inbound_bounded SL_STREAM_ROLE_CLIENT 100 demo_ops) as (log & m' & E & H & _).
  - vm_compute. split; congruence.
  - apply demo_ops_ok.
  - exists log, m'. by split.
Defined.

(** ** What the multiplexer does not do *)

(** Nothing ever gives the session back its send credit, so the bytes a session sends over
    its whole life, on all streams together, never exceed its initial window. *)
Theorem session_credit_never_returns role w os :
  0 <= w <= SL_FC_MAX_WINDOW -> Forall op_ok os ->
  exists log m', mux_run (new_mux role w) os = Ok (log, m') /\ all_charged log <= w.
Proof.
  intros Hw Hos. destruct (mux_run_ok w (new_mux role w) os) as (log & m' & E & Hm & _ & _ & _ & Hc);
    [by apply new_mux_ok|done|].
  exists log, m'. split; [done|]. destruct Hm as (_ & _ & [Hf _] & _). cbn in Hc. lia.
Qed.

(** When the peer finished its half first, our last frame carries no FIN flag: the stream is
    then fully closed and [pop_outbound] only marks frames of half-closed streams. *)
Definition fin_after_peer_ops : list mux_op :=
  [OpOpen 1; OpFrame (mk_stream_frame SL_STREAM_FRAME_DATA SL_STREAM_FLAG_FIN 1 None 0);
   OpSend 1 [5] true; OpPop [1]].
Lemma fin_lost_after_peer_fin :
  (let! '(log, _) := mux_run (new_mux SL_STREAM_ROLE_CLIENT 100) fin_after_peer_ops in Ok (last log)) =
  Ok (Some (OpPop [1], OutFrame (Some (mk_stream_frame SL_STREAM_FRAME_DATA 0 1 (Some [5]) 1)))).
Proof. vm_compute. reflexivity. Qed.

(** A data frame that the session window refuses has already been charged to its stream: the
    stream's window shrinks although nothing was buffered_total. *)
Definition session_full_ops : list mux_op :=
  [OpFrame (mk_stream_frame SL_STREAM_FRAME_DATA 0 2 (Some [1; 2; 3]) 3);
   OpFrame (mk_stream_frame SL_STREAM_FRAME_DATA 0 4 (Some [4; 5]) 2)].
Lemma refused_frame_still_charged :
  (let! '(log, m) := mux_run (new_mux SL_STREAM_ROLE_CLIENT 4) session_full_ops in
   Ok (map snd log, unread m 4, recv_window <$> (flow <$> streams_ m !! 4))) =
  Ok ([OutBool true; OutBool false], [], Some 2).
Proof. vm_compute. reflexivity. Qed.
