(* ===== verification/Topic.v ===== *)
(** Topic names and subscription filters ([src/sl_topic.c]): the validators and the matcher
    walk the string by index; they are shown to agree with definitions on the list of
    slash-separated segments. *)

From S2P Require Import Prelude Ctype.
Local Open Scope Z_scope.

(* src/inc/sl_topic.h:21-21 *)
Definition SL_TOPIC_MAX_LEN : Z := 256.
(* src/inc/sl_topic.h:22-22 *)
Definition SL_TOPIC_MAX_SEGMENTS : Z := 16.

Definition ch_slash : Z := 47.
Definition ch_plus : Z := 43.
Definition ch_hash : Z := 35.
Definition ch_minus : Z := 45.
Definition ch_underscore : Z := 95.

(* src/src/sl_topic.c:6-8 *)
Definition seg_char_ok (c : Z) : bool := isalnum c || (c =? ch_underscore) || (c =? ch_minus).

(* src/src/sl_topic.c:10-18 *)
Definition common_structure_ok (s : list Z) (n : Z) : M bool :=
  if (n =? 0) || (SL_TOPIC_MAX_LEN <? n) then Ok false
  else
    let! first := load s 0 in
    if first =? ch_slash then Ok false
    else
      let! lst := load s (n - 1) in
      if lst =? ch_slash then Ok false
      else
        let! segs := for_up (Z.to_nat n) 0 (fun i segs =>
          let! c := load s i in Ok (if c =? ch_slash then u64 (segs + 1) else segs)) 1 in
        Ok (segs <=? SL_TOPIC_MAX_SEGMENTS).

(* src/src/sl_topic.c:20-34 *)
Definition sl_topic_is_valid_publish (topic : list Z) (n : Z) : M bool :=
  let! ok := common_structure_ok topic n in
  if negb ok then Ok false
  else
    let! r := for_ret (Z.to_nat n) 0 (fun i seg_len =>
      let! c := load topic i in
      Ok (if c =? ch_slash then (if seg_len =? 0 then inr false else inl 0)
          else if negb (seg_char_ok c) then inr false
          else inl (u64 (seg_len + 1)))) 0 in
    match r with
    | inl seg_len => Ok (0 <? seg_len)
    | inr b => Ok b
    end.

(** [while (j < len && s[j] != '/') ++j;] *)
(* src/src/sl_topic.c:42-42 sl_topic_is_valid_filter *)
Fixpoint seg_end (fuel : nat) (s : list Z) (n j : Z) : M Z :=
  match fuel with
  | O => Fault
  | S fuel =>
      if j <? n then
        let! c := load s j in
        if c =? ch_slash then Ok j else seg_end fuel s n (j + 1)
      else Ok j
  end.

(** The segment loop. *)
(* src/src/sl_topic.c:40-58 sl_topic_is_valid_filter *)
Fixpoint filter_loop (fuel : nat) (filter : list Z) (n i : Z) : M bool :=
  match fuel with
  | O => Fault
  | S fuel =>
      if i <? n then
        let! j := seg_end (S (Z.to_nat (n - i))) filter n i in
        let seg_len := j - i in
        if seg_len =? 0 then Ok false
        else
          let! c := load filter i in
          let next := filter_loop fuel filter n (if j <? n then j + 1 else j) in
          if (seg_len =? 1) && (c =? ch_plus) then next
          else if (seg_len =? 1) && (c =? ch_hash) then (if negb (j =? n) then Ok false else next)
          else
            let! r := for_ret (Z.to_nat seg_len) i (fun k (_ : unit) =>
              let! c := load filter k in
              Ok (if negb (seg_char_ok c) then inr false else inl tt)) tt in
            match r with inl _ => next | inr b => Ok b end
      else Ok true
  end.

(* src/src/sl_topic.c:36-60 *)
Definition sl_topic_is_valid_filter (filter : list Z) (n : Z) : M bool :=
  let! ok := common_structure_ok filter n in
  if negb ok then Ok false else filter_loop (S (Z.to_nat n)) filter n 0.

(** The paired walk over topic and filter. *)
(* src/src/sl_topic.c:67-91 sl_topic_matches *)
Fixpoint match_loop (fuel : nat) (topic : list Z) (tn : Z) (filter : list Z) (fn ti fi : Z) : M bool :=
  match fuel with
  | O => Fault
  | S fuel =>
      if (ti <? tn) && (fi <? fn) then
        let! fj := seg_end (S (Z.to_nat (fn - fi))) filter fn fi in
        let flen := fj - fi in
        let! fc := load filter fi in
        if (flen =? 1) && (fc =? ch_hash) then Ok true
        else
          let! tj := seg_end (S (Z.to_nat (tn - ti))) topic tn ti in
          let tlen := tj - ti in
          let next := match_loop fuel topic tn filter fn (if tj <? tn then tj + 1 else tj)
                        (if fj <? fn then fj + 1 else fj) in
          if (flen =? 1) && (fc =? ch_plus) then next
          else if negb (flen =? tlen) then Ok false
          else
            let! a := load_bytes filter fi flen in
            let! b := load_bytes topic ti flen in
            if bool_decide (a = b) then next else Ok false
      else Ok ((ti =? tn) && (fi =? fn))
  end.

(* src/src/sl_topic.c:62-92 *)
Definition sl_topic_matches (topic : list Z) (topic_len : Z) (filter : list Z) (filter_len : Z) : M bool :=
  let! ok := sl_topic_is_valid_publish topic topic_len in
  if negb ok then Ok false
  else
    let! ok := sl_topic_is_valid_filter filter filter_len in
    if negb ok then Ok false
    else match_loop (S (Z.to_nat topic_len)) topic topic_len filter filter_len 0 0.

(** ** The same on lists of segments *)

Abbreviation segs := (split_segs ch_slash).
Abbreviation head_seg := (head_part ch_slash).
Abbreviation rest_seg := (rest_part ch_slash).
Abbreviation tail_str := (tail_part ch_slash).
Abbreviation name_ok := (part_ok seg_char_ok).
Abbreviation publish_step := (scan_step ch_slash seg_char_ok).
Abbreviation ends_ok := (ends_clear ch_slash).
Abbreviation no_trail := (no_trailing ch_slash).

Definition seg_plus : list Z := [ch_plus].
Definition seg_hash : list Z := [ch_hash].

Fixpoint filter_segs_ok (gs : list (list Z)) : bool :=
  match gs with
  | [] => true
  | g :: gs =>
      if bool_decide (g = seg_plus) then filter_segs_ok gs
      else if bool_decide (g = seg_hash) then bool_decide (gs = [])
      else name_ok g && filter_segs_ok gs
  end.

Definition size_ok (s : list Z) : bool :=
  (len s <=? SL_TOPIC_MAX_LEN) && (len (segs s) <=? SL_TOPIC_MAX_SEGMENTS).

Definition topic_ok (s : list Z) : bool := size_ok s && forallb name_ok (segs s).
Definition filter_ok (s : list Z) : bool := size_ok s && filter_segs_ok (segs s).

(** Matching by segments: ['+'] stands for one segment, a final ['#'] for one or more. *)
Fixpoint levels_match (ts fs : list (list Z)) : bool :=
  match fs, ts with
  | [], [] => true
  | f :: fs, t :: ts =>
      bool_decide (f = seg_hash) ||
      ((bool_decide (f = seg_plus) || bool_decide (f = t)) && levels_match ts fs)
  | _, _ => false
  end.

(** ** Cutting off the first segment *)

Lemma no_trail_rest l l' : no_trail l -> rest_seg l = Some l' -> l' <> [] /\ no_trail l'.
Proof.
  unfold no_trail. rewrite (cut_part ch_slash l) at 1. unfold tail_str. intros H E. rewrite E in H.
  rewrite last_app_cons in H. destruct l' as [|c l']; [done|]. split; [done|].
  by rewrite last_cons_cons in H.
Qed.

Lemma seg_end_spec l : forall fuel pre,
  (length l < fuel)%nat ->
  seg_end fuel (pre ++ l) (len (pre ++ l)) (len pre) = Ok (len pre + len (head_seg l)).
Proof.
  induction l as [|c l IH]; intros fuel pre Hf; (destruct fuel as [|fuel]; [simpl in Hf; lia|]); cbn [seg_end].
  { rewrite app_nil_r, Z.ltb_irrefl. f_equal. len_lia. }
  rewrite (proj2 (Z.ltb_lt _ _)) by len_lia. rewrite load_app_mid. cbn [head_seg].
  destruct (c =? ch_slash); [f_equal; len_lia|].
  replace (len pre + 1) with (len (pre ++ [c])) by len_lia.
  replace (pre ++ c :: l) with ((pre ++ [c]) ++ l) by (by rewrite <- app_assoc).
  rewrite IH by (simpl in Hf; lia). f_equal. len_lia.
Qed.

(** The scan as the loops call it, with what it leaves at the next position. *)
Lemma seg_end_at pre l :
  let n := len (pre ++ l) in
  seg_end (S (Z.to_nat (n - len pre))) (pre ++ l) n (len pre) = Ok (len pre + len (head_seg l)) /\
  (len pre + len (head_seg l) <? n) = bool_decide (is_Some (rest_seg l)).
Proof.
  intros n. split.
  - apply seg_end_spec. unfold n. rewrite len_app. unfold len. lia.
  - unfold n. rewrite len_app. rewrite (cut_part ch_slash l) at 2. rewrite len_app. unfold tail_str.
    destruct (rest_seg l) as [l'|].
    + rewrite bool_decide_eq_true_2 by eauto. apply Z.ltb_lt. rewrite len_cons. len_lia.
    + rewrite bool_decide_eq_false_2 by (by intros [??]). apply Z.ltb_ge. len_lia.
Qed.

(** Where the next segment starts, as the split of the string the loops continue on. *)
Lemma seg_next pre l l' :
  rest_seg l = Some l' ->
  pre ++ l = (pre ++ head_seg l ++ [ch_slash]) ++ l' /\
  len pre + len (head_seg l) + 1 = len (pre ++ head_seg l ++ [ch_slash]).
Proof.
  intros E. split.
  - rewrite (cut_part ch_slash l) at 1. unfold tail_str. rewrite E. by rewrite <- !app_assoc.
  - len_lia.
Qed.

Lemma seg_last pre l : rest_seg l = None -> l = head_seg l /\ len pre + len (head_seg l) = len (pre ++ l).
Proof.
  intros E. assert (El : l = head_seg l) by (rewrite (cut_part ch_slash l) at 1; unfold tail_str; by rewrite E, app_nil_r).
  split; [done|]. rewrite <- El. len_lia.
Qed.

(** The first byte of a segment decides whether it is a wildcard. *)
Lemma seg_wild l c k :
  l <> [] -> load l 0 = Ok c -> (len (head_seg l) =? 1) && (c =? k) = bool_decide (head_seg l = [k]).
Proof.
  destruct l as [|a l]; [done|]. intros _ [= <-]. cbn [head_seg].
  destruct (Z.eqb_spec a ch_slash) as [->|Ha].
  { cbn. by rewrite bool_decide_eq_false_2. }
  destruct (Z.eqb_spec a k) as [->|Hk].
  - rewrite andb_true_r. destruct (head_seg l) as [|b g].
    + by rewrite bool_decide_eq_true_2.
    + rewrite bool_decide_eq_false_2 by done. rewrite len_cons, len_cons. apply Z.eqb_neq. len_lia.
  - rewrite andb_false_r, bool_decide_eq_false_2; [done|congruence].
Qed.

Lemma load_first (pre l : list Z) : load (pre ++ l) (len pre) = load l 0.
Proof. rewrite <- (load_app_r pre l 0) by lia. f_equal. lia. Qed.

Lemma load_cons_0 (l : list Z) : l <> [] -> exists c, load l 0 = Ok c.
Proof. destruct l as [|c l]; [done|]. by exists c. Qed.

Lemma name_loop pre g post :
  for_ret (length g) (len pre) (fun k (_ : unit) =>
    let! c := load (pre ++ g ++ post) k in
    Ok (if negb (seg_char_ok c) then inr false else inl tt)) tt =
  Ok (if forallb seg_char_ok g then inl tt else inr false).
Proof.
  rewrite (for_ret_list (fun c (_ : unit) => if negb (seg_char_ok c) then inr false else inl tt) _ g pre post)
    by done.
  f_equal. induction g as [|c g IH]; [done|]. simpl. by destruct (seg_char_ok c).
Qed.

Lemma filter_loop_spec fuel : forall pre l,
  (length l < fuel)%nat -> l <> [] -> no_trail l ->
  filter_loop fuel (pre ++ l) (len (pre ++ l)) (len pre) = Ok (filter_segs_ok (segs l)).
Proof.
  induction fuel as [|fuel IH]; intros pre l Hf Hl Ht; [lia|]. cbn [filter_loop].
  rewrite (proj2 (Z.ltb_lt _ _)) by (destruct l; [done|len_lia]).
  destruct (seg_end_at pre l) as [-> ->]. cbv beta iota zeta.
  replace (len pre + len (head_seg l) - len pre) with (len (head_seg l)) by lia.
  rewrite load_first. destruct (load_cons_0 l Hl) as [c Ec]. rewrite Ec. cbv beta iota zeta.
  rewrite !(seg_wild l c) by done. rewrite (segs_cut ch_slash l). cbn [filter_segs_ok]. fold seg_plus seg_hash.
  set (next := filter_loop fuel _ _ _).
  assert (Hnext : next = Ok (filter_segs_ok (match rest_seg l with Some l' => segs l' | None => [] end))).
  { unfold next. destruct (rest_seg l) as [l'|] eqn:E.
    - rewrite bool_decide_eq_true_2 by eauto. destruct (seg_next pre l l' E) as [-> ->].
      destruct (no_trail_rest l l' Ht E). apply rest_seg_shorter in E. apply IH; [lia|done|done].
    - rewrite bool_decide_eq_false_2 by (by intros [??]). destruct (seg_last pre l E) as [_ ->].
      destruct fuel; [destruct l; simpl in Hf; [done|lia]|]. cbn [filter_loop]. by rewrite Z.ltb_irrefl. }
  rewrite Hnext. clearbody next.
  unfold name_ok. destruct (Z.eqb_spec (len (head_seg l)) 0) as [E0|E0].
  { apply len_0_nil in E0. by rewrite E0. }
  rewrite (bool_decide_eq_false_2 (head_seg l = [])) by (intros Eh; by rewrite Eh in E0).
  destruct (bool_decide (head_seg l = seg_plus)); [done|].
  destruct (bool_decide (head_seg l = seg_hash)).
  - destruct (rest_seg l) as [l'|] eqn:E.
    + destruct (seg_next pre l l' E) as [E1 E2].
      rewrite (proj2 (Z.eqb_neq _ _)) by (rewrite E1, len_app, <- E2; len_lia). cbn [negb].
      rewrite bool_decide_eq_false_2; [done|apply segs_not_nil].
    + destruct (seg_last pre l E) as [_ ->]. by rewrite Z.eqb_refl.
  - rewrite len_to_nat. pose proof (name_loop pre (head_seg l) (tail_str l)) as Hn.
    rewrite <- cut_part in Hn. rewrite Hn. destruct (forallb _ _); done.
Qed.

Lemma load_head pre l n : n = len (head_seg l) -> load_bytes (pre ++ l) (len pre) n = Ok (head_seg l).
Proof.
  intros ->. pose proof (load_bytes_app_mid pre (head_seg l) (tail_str l) _ _ eq_refl eq_refl) as H.
  by rewrite <- cut_part in H.
Qed.

Lemma match_loop_end fuel t tn f fn ti fi :
  (0 < fuel)%nat -> tn <= ti \/ fn <= fi ->
  match_loop fuel t tn f fn ti fi = Ok ((ti =? tn) && (fi =? fn)).
Proof.
  intros Hf H. destruct fuel; [lia|]. cbn [match_loop].
  destruct (Z.ltb_spec ti tn), (Z.ltb_spec fi fn); try done; lia.
Qed.

Lemma match_loop_spec fuel : forall pt t pf f,
  (length t < fuel)%nat -> t <> [] -> f <> [] -> no_trail t -> no_trail f ->
  match_loop fuel (pt ++ t) (len (pt ++ t)) (pf ++ f) (len (pf ++ f)) (len pt) (len pf) =
  Ok (levels_match (segs t) (segs f)).
Proof.
  induction fuel as [|fuel IH]; intros pt t pf f Hf Ht Hfl Tt Tf; [lia|]. cbn [match_loop].
  rewrite !(proj2 (Z.ltb_lt _ _)) by (destruct t, f; done || len_lia). cbn [andb].
  destruct (seg_end_at pf f) as [-> ->]. destruct (seg_end_at pt t) as [-> ->]. cbv beta iota zeta.
  rewrite !Z.add_simpl_l, load_first. destruct (load_cons_0 f Hfl) as [c Ec]. rewrite Ec. cbv beta iota zeta.
  rewrite !(seg_wild f c) by done. rewrite (segs_cut ch_slash t), (segs_cut ch_slash f). cbn [levels_match].
  fold seg_plus seg_hash. destruct (bool_decide (head_seg f = seg_hash)); [done|]. cbn [orb].
  set (next := match_loop fuel _ _ _ _ _ _).
  assert (Hnext : next = Ok (levels_match (match rest_seg t with Some t' => segs t' | None => [] end)
                               (match rest_seg f with Some f' => segs f' | None => [] end))).
  { unfold next. assert (0 < fuel)%nat by (destruct t; simpl in Hf; [done|lia]).
    destruct (rest_seg t) as [t'|] eqn:Et, (rest_seg f) as [f'|] eqn:Ef;
      rewrite ?(bool_decide_eq_true_2 (is_Some (Some _))) by eauto;
      rewrite ?(bool_decide_eq_false_2 (is_Some None)) by (by intros [??]).
    - destruct (seg_next pt t t' Et) as [-> ->], (seg_next pf f f' Ef) as [-> ->].
      destruct (no_trail_rest t t' Tt Et), (no_trail_rest f f' Tf Ef). apply rest_seg_shorter in Et.
      apply IH; [lia|done..].
    - destruct (seg_last pf f Ef) as [_ ->]. rewrite match_loop_end by (auto || lia).
      destruct (seg_next pt t t' Et) as [E1 E2]. destruct (no_trail_rest t t' Tt Et) as [Hn _].
      rewrite (proj2 (Z.eqb_neq _ _)) by (rewrite E1, len_app, <- E2; destruct t'; [done|len_lia]).
      pose proof (segs_not_nil ch_slash t'). by destruct (segs t').
    - destruct (seg_last pt t Et) as [_ ->]. rewrite match_loop_end by (auto || lia).
      destruct (seg_next pf f f' Ef) as [E1 E2]. destruct (no_trail_rest f f' Tf Ef) as [Hn _].
      rewrite (proj2 (Z.eqb_neq (_ + _ + _) _)) by (rewrite E1, len_app, <- E2; destruct f'; [done|len_lia]).
      rewrite andb_false_r. pose proof (segs_not_nil ch_slash f'). by destruct (segs f').
    - destruct (seg_last pt t Et) as [_ ->], (seg_last pf f Ef) as [_ ->].
      rewrite match_loop_end by (lia || (left; lia)). by rewrite !Z.eqb_refl. }
  rewrite Hnext. clearbody next.
  destruct (bool_decide (head_seg f = seg_plus)); [done|]. cbn [orb].
  destruct (Z.eqb_spec (len (head_seg f)) (len (head_seg t))) as [El|El]; cbn [negb].
  2: { rewrite bool_decide_eq_false_2; [done|congruence]. }
  rewrite (load_head pf f _ eq_refl), (load_head pt t) by done.
  by destruct (bool_decide (head_seg f = head_seg t)).
Qed.

(** ** The validators *)

Lemma count_segs l : forall k,
  0 <= k -> k + len l < 2 ^ 64 ->
  foldl (fun a c => if c =? ch_slash then u64 (a + 1) else a) k l = k + len (segs l) - 1.
Proof.
  induction l as [|c l IH]; intros k H0 Hk; [change (len (segs [])) with 1; cbn [foldl]; lia|]. rewrite len_cons in Hk. pose proof (len_nonneg l).
  cbn [foldl split_segs]. destruct (c =? ch_slash).
  - rewrite u64_small by lia. rewrite IH by lia. rewrite len_cons. lia.
  - rewrite IH by lia. pose proof (segs_not_nil ch_slash l). destruct (segs l); [done|]. by rewrite !len_cons.
Qed.

Lemma common_structure_spec s : common_structure_ok s (len s) = Ok (ends_ok s && size_ok s).
Proof.
  unfold common_structure_ok, size_ok. destruct s as [|c s]; [done|].
  destruct (Z.eqb_spec (len (c :: s)) 0) as [E|_]; [len_lia|]. cbn [orb].
  destruct (Z.ltb_spec SL_TOPIC_MAX_LEN (len (c :: s))) as [Hl|Hl].
  { rewrite (proj2 (Z.leb_gt _ _)) by lia. by rewrite andb_false_r. }
  rewrite (proj2 (Z.leb_le _ SL_TOPIC_MAX_LEN)) by lia. cbn [andb].
  rewrite ends_guard by done. destruct (ends_ok (c :: s)); [|done]. cbn [andb]. rewrite len_to_nat.
  rewrite (for_up_list (fun c a => if c =? ch_slash then u64 (a + 1) else a) _ (c :: s) [] [])
    by (intros; by rewrite app_nil_r).
  unfold SL_TOPIC_MAX_LEN in Hl. rewrite count_segs by lia. do 2 f_equal. lia.
Qed.

Lemma filter_segs_no_empty gs : filter_segs_ok gs = true -> [] ∉ gs.
Proof.
  induction gs as [|g gs IH]; [set_solver|]. cbn [filter_segs_ok].
  destruct (bool_decide_reflect (g = seg_plus)) as [->|]; [intros; rewrite not_elem_of_cons; auto|].
  destruct (bool_decide_reflect (g = seg_hash)) as [->|].
  - intros ->%bool_decide_eq_true_1. set_solver.
  - intros [Hg Hgs]%andb_prop. rewrite not_elem_of_cons. split; [|auto]. intros <-. done.
Qed.

(** Neither validator accepts a string the structure check refuses for its ends. *)
Lemma ends_needed s (b : bool) : (b = true -> [] ∉ segs s) -> ends_ok s && size_ok s && b = size_ok s && b.
Proof.
  intros H. destruct (ends_ok s) eqn:E; [done|]. apply bad_ends in E. destruct b; [by destruct H|].
  by rewrite !andb_false_r.
Qed.

Lemma valid_publish_spec s : sl_topic_is_valid_publish s (len s) = Ok (topic_ok s).
Proof.
  unfold sl_topic_is_valid_publish, topic_ok. rewrite common_structure_spec.
  rewrite <- (ends_needed s) by apply names_no_empty.
  destruct (ends_ok s && size_ok s) eqn:E; [|done]. cbn [negb andb]. rewrite len_to_nat.
  rewrite (for_ret_list publish_step _ s [] []) by (intros; by rewrite app_nil_r).
  apply andb_prop in E as [_ [Hl _]%andb_prop]. apply Z.leb_le in Hl. unfold SL_TOPIC_MAX_LEN in Hl.
  rewrite <- (scan_segs ch_slash) by lia. by destruct (list_ret publish_step s 0).
Qed.

Lemma valid_filter_spec s : sl_topic_is_valid_filter s (len s) = Ok (filter_ok s).
Proof.
  unfold sl_topic_is_valid_filter, filter_ok. rewrite common_structure_spec.
  rewrite <- (ends_needed s) by apply filter_segs_no_empty.
  destruct (ends_ok s && size_ok s) eqn:E; [|done]. cbn [negb andb].
  apply andb_prop in E as [[H1 H2]%good_ends _].
  apply (filter_loop_spec _ [] s); [unfold len; lia|done|done].
Qed.

Lemma topic_matches_spec t f :
  sl_topic_matches t (len t) f (len f) =
  Ok (topic_ok t && filter_ok f && levels_match (segs t) (segs f)).
Proof.
  unfold sl_topic_matches. rewrite valid_publish_spec, valid_filter_spec.
  destruct (topic_ok t) eqn:Et; [|done]. destruct (filter_ok f) eqn:Ef; [|done]. cbn [negb andb].
  assert (Hends : forall s, [] ∉ segs s -> s <> [] /\ no_trail s).
  { intros s Hs. apply good_ends. destruct (ends_ok s) eqn:E; [done|]. by apply bad_ends in E. }
  destruct (Hends t) as [A1 A2]; [apply andb_prop in Et as [_ ?]; by apply (names_no_empty seg_char_ok)|].
  destruct (Hends f) as [B1 B2]; [apply andb_prop in Ef as [_ ?]; by apply filter_segs_no_empty|].
  apply (match_loop_spec _ [] t [] f); try done. unfold len. lia.
Qed.

(** On every pair of strings the index-walking matcher stays in bounds, terminates, and
    accepts exactly when the topic is a well-formed name, the filter is a well-formed filter and
    they match segment by segment, with ['+'] standing for one segment and a final ['#'] for
    one or more. *)
Theorem topic_matches_levels t f :
  sl_topic_matches t (len t) f (len f) =
  Ok (topic_ok t && filter_ok f && levels_match (segs t) (segs f)).
Proof. apply topic_matches_spec. Qed.

(** The header promises that ['#'] matches zero or more trailing segments, and the test
    expects ["a/b"] to match ["a/b/#"]; the walk stops at the end of the topic and answers no,
    for every topic and the filter made of it and a final ["/#"]. *)
Lemma levels_match_zero_tail ts : ~ In seg_plus ts -> ~ In seg_hash ts -> levels_match ts (ts ++ [seg_hash]) = false.
Proof.
  induction ts as [|t ts IH]; [done|]. intros H1 H2. cbn in H1, H2. cbn [levels_match app].
  rewrite (bool_decide_eq_false_2 (t = seg_hash)) by (intros ->; tauto).
  rewrite IH by tauto. by rewrite andb_false_r.
Qed.

Definition str_a_b : list Z := [97; 47; 98].
Definition str_a_b_hash : list Z := [97; 47; 98; 47; 35].
Lemma hash_needs_a_segment : sl_topic_matches str_a_b 3 str_a_b_hash 5 = Ok false.
Proof. vm_compute. reflexivity. Qed.
