(* ===== verification/TopicTrie.v ===== *)
(** The subscription trie ([inc/topic_trie.hpp], [src/topic_trie.cpp]). The tree of
    [unique_ptr] nodes is a tree value; the operations walk it along the segments of a filter
    and change the node they reach. The trie is shown to implement the set of its
    subscriptions. *)

From stdpp Require Import gmap.
From S2P Require Import Prelude Ctype Topic.
Local Open Scope Z_scope.
#[local] Set Warnings "-register-all".

(* src/inc/topic_trie.hpp:42-47 *)
Inductive Node := mk_node {
  children : gmap (list Z) Node;
  plus : option Node;
  hash_subs : gset Z;
  exact_subs : gset Z
}.

(** [Node()]: no children and no subscribers. *)
Definition new_node : Node := mk_node ∅ None ∅ ∅.

(* src/inc/topic_trie.hpp:56-57 *)
Record TopicTrie := mk_trie { root_ : Node; total_subs_ : Z }.

Definition new_trie : TopicTrie := mk_trie new_node 0.

(** One turn of [split]'s loop: the pieces so far and where the current one starts. *)
(* src/src/topic_trie.cpp:11-14 TopicTrie::split *)
Definition split_body (s : list Z) (i : Z) (st : list (list Z) * Z) : M (list (list Z) * Z) :=
  let '(out, start) := st in
  if i =? len s then
    let! seg := load_bytes s start (i - start) in Ok (out ++ [seg], i + 1)
  else
    let! c := load s i in
    if c =? ch_slash then
      let! seg := load_bytes s start (i - start) in Ok (out ++ [seg], i + 1)
    else Ok (out, start).

(* src/src/topic_trie.cpp:7-17 TopicTrie::split *)
Definition split (s : list Z) : M (list (list Z)) :=
  let! '(out, _) := for_up (S (length s)) 0 (split_body s) ([], 0) in Ok out.

(** [subscribe] below a node: the verdict and the node as the walk leaves it. *)
(* src/src/topic_trie.cpp:24-43 TopicTrie::subscribe *)
Fixpoint subscribe_at (node : Node) (segs : list (list Z)) (sub_id : Z) : bool * Node :=
  match segs with
  | [] =>
      (bool_decide (sub_id ∉ exact_subs node),
       mk_node (children node) (plus node) (hash_subs node) ({[sub_id]} ∪ exact_subs node))
  | seg :: segs =>
      if bool_decide (seg = seg_hash) then
        (bool_decide (sub_id ∉ hash_subs node),
         mk_node (children node) (plus node) ({[sub_id]} ∪ hash_subs node) (exact_subs node))
      else if bool_decide (seg = seg_plus) then
        let '(r, n) := subscribe_at (default new_node (plus node)) segs sub_id in
        (r, mk_node (children node) (Some n) (hash_subs node) (exact_subs node))
      else
        let '(r, n) := subscribe_at (default new_node (children node !! seg)) segs sub_id in
        (r, mk_node (<[seg := n]> (children node)) (plus node) (hash_subs node) (exact_subs node))
  end.

(* src/src/topic_trie.cpp:19-44 TopicTrie::subscribe *)
Definition subscribe (t : TopicTrie) (filter : list Z) (sub_id : Z) : M (bool * TopicTrie) :=
  let! segs := split filter in
  let '(inserted, n) := subscribe_at (root_ t) segs sub_id in
  Ok (inserted, mk_trie n (if inserted then u64 (total_subs_ t + 1) else total_subs_ t)).

(** [unsubscribe] below a node. *)
(* src/src/topic_trie.cpp:50-69 TopicTrie::unsubscribe *)
Fixpoint unsubscribe_at (node : Node) (segs : list (list Z)) (sub_id : Z) : bool * Node :=
  match segs with
  | [] =>
      (bool_decide (sub_id ∈ exact_subs node),
       mk_node (children node) (plus node) (hash_subs node) (exact_subs node ∖ {[sub_id]}))
  | seg :: segs =>
      if bool_decide (seg = seg_hash) then
        (bool_decide (sub_id ∈ hash_subs node),
         mk_node (children node) (plus node) (hash_subs node ∖ {[sub_id]}) (exact_subs node))
      else if bool_decide (seg = seg_plus) then
        match plus node with
        | None => (false, node)
        | Some p =>
            let '(r, n) := unsubscribe_at p segs sub_id in
            (r, mk_node (children node) (Some n) (hash_subs node) (exact_subs node))
        end
      else
        match children node !! seg with
        | None => (false, node)
        | Some c =>
            let '(r, n) := unsubscribe_at c segs sub_id in
            (r, mk_node (<[seg := n]> (children node)) (plus node) (hash_subs node) (exact_subs node))
        end
  end.

(* src/src/topic_trie.cpp:46-70 TopicTrie::unsubscribe *)
Definition unsubscribe (t : TopicTrie) (filter : list Z) (sub_id : Z) : M (bool * TopicTrie) :=
  let! segs := split filter in
  let '(removed, n) := unsubscribe_at (root_ t) segs sub_id in
  Ok (removed, mk_trie n (if removed then u64 (total_subs_ t - 1) else total_subs_ t)).

(** The walk over every node. The source keeps the nodes still to visit on an explicit stack;
    each node of the tree is visited once, so the walk is a recursion over the tree. *)
(* src/src/topic_trie.cpp:78-87 TopicTrie::unsubscribe_all *)
Fixpoint remove_everywhere (sub_id : Z) (n : Node) : Z * Node :=
  let r := (if bool_decide (sub_id ∈ exact_subs n) then 1 else 0) +
           (if bool_decide (sub_id ∈ hash_subs n) then 1 else 0) in
  let p := remove_everywhere sub_id <$> plus n in
  let cs := remove_everywhere sub_id <$> children n in
  (r + default 0 (fst <$> p) + map_fold (fun _ c a => fst c + a) 0 cs,
   mk_node (snd <$> cs) (snd <$> p) (hash_subs n ∖ {[sub_id]}) (exact_subs n ∖ {[sub_id]})).

(* src/src/topic_trie.cpp:74-89 TopicTrie::unsubscribe_all *)
Definition unsubscribe_all (t : TopicTrie) (sub_id : Z) : Z * TopicTrie :=
  let '(removed, n) := remove_everywhere sub_id (root_ t) in
  (u64 removed, mk_trie n (u64 (total_subs_ t - removed))).

(** [segs] is the part of the topic from [depth] on. *)
(* src/src/topic_trie.cpp:91-112 TopicTrie::match_into *)
Fixpoint match_into (node : Node) (segs : list (list Z)) (out : gset Z) : gset Z :=
  let out := hash_subs node ∪ out in
  match segs with
  | [] => exact_subs node ∪ out
  | seg :: segs =>
      let out := match children node !! seg with Some c => match_into c segs out | None => out end in
      match plus node with Some p => match_into p segs out | None => out end
  end.

(** The subscribers, as a set: the order of the returned vector is that of the hash set. *)
(* src/src/topic_trie.cpp:114-120 TopicTrie::match *)
Definition trie_match (t : TopicTrie) (topic : list Z) : M (gset Z) :=
  let! segs := split topic in Ok (match_into (root_ t) segs ∅).

(* src/src/topic_trie.cpp:122-125 TopicTrie::subscription_count *)
Definition subscription_count (t : TopicTrie) : Z := total_subs_ t.

(** ** Splitting *)

Lemma split_loop rest : forall pre seg out,
  exists k, for_up (S (length rest)) (len (pre ++ seg)) (split_body (pre ++ seg ++ rest)) (out, len pre) =
    Ok (out ++ match segs rest with g :: gs => (seg ++ g) :: gs | [] => [] end, k).
Proof.
  induction rest as [|c rest IH]; intros pre seg out.
  - rewrite app_nil_r. cbn. rewrite Z.eqb_refl.
    pose proof (load_bytes_app_mid pre seg [] (len pre) (len (pre ++ seg) - len pre)) as E.
    rewrite app_nil_r in E. rewrite E by len_lia. rewrite app_nil_r. eauto.
  - remember (length (c :: rest)) as n eqn:En. cbn [for_up]. rewrite En. clear n En. unfold split_body at 1.
    rewrite (proj2 (Z.eqb_neq _ _)) by len_lia. pose proof (load_app_mid (pre ++ seg) c rest) as El. rewrite <- app_assoc in El. rewrite El. cbn [segs].
    destruct (Z.eqb_spec c ch_slash) as [->|Hc].
    + rewrite (load_bytes_app_mid pre seg (ch_slash :: rest)) by len_lia.
      replace (len (pre ++ seg) + 1) with (len ((pre ++ seg ++ [ch_slash]) ++ [])) by len_lia.
      replace (pre ++ seg ++ ch_slash :: rest) with ((pre ++ seg ++ [ch_slash]) ++ [] ++ rest)
        by (by rewrite <- !app_assoc).
      destruct (IH (pre ++ seg ++ [ch_slash]) [] (out ++ [seg])) as [k Ek].
      exists k. replace (len ((pre ++ seg ++ [ch_slash]) ++ [])) with (len (pre ++ seg ++ [ch_slash])) in *
        by (by rewrite app_nil_r).
      cbn [length]. rewrite Ek. rewrite <- app_assoc, app_nil_r. do 2 f_equal.
      pose proof (segs_not_nil ch_slash rest). by destruct (segs rest).
    + replace (len (pre ++ seg) + 1) with (len (pre ++ seg ++ [c])) by len_lia.
      replace (pre ++ seg ++ c :: rest) with (pre ++ (seg ++ [c]) ++ rest) by (by rewrite <- !app_assoc).
      destruct (IH pre (seg ++ [c]) out) as [k Ek]. exists k. cbn [length]. rewrite Ek. do 2 f_equal.
      pose proof (segs_not_nil ch_slash rest). destruct (segs rest); [done|]. by rewrite <- app_assoc.
Qed.

Lemma split_spec s : split s = Ok (segs s).
Proof.
  unfold split. destruct (split_loop s [] [] []) as [k E]. cbn [app] in E.
  change (len []) with 0 in E. rewrite E.
  pose proof (segs_not_nil ch_slash s). by destruct (segs s).
Qed.

(** ** Subscriptions as paths *)

(** A filter as a path: [None] for ['+'], [Some g] for a literal segment, and whether it ends
    in ['#']. Whatever follows a ['#'] is ignored. *)
Definition path : Type := list (option (list Z)).

Fixpoint path_of (gs : list (list Z)) : path * bool :=
  match gs with
  | [] => ([], false)
  | g :: gs =>
      if bool_decide (g = seg_hash) then ([], true)
      else let '(p, h) := path_of gs in
           ((if bool_decide (g = seg_plus) then None else Some g) :: p, h)
  end.

(** The subscribers stored at a path. *)
Fixpoint has (n : Node) (p : path) (h : bool) : gset Z :=
  match p with
  | [] => if h then hash_subs n else exact_subs n
  | None :: p => match plus n with Some c => has c p h | None => ∅ end
  | Some g :: p => match children n !! g with Some c => has c p h | None => ∅ end
  end.

Lemma has_new p h : has new_node p h = ∅.
Proof. destruct p as [|[g|] p], h; cbn; rewrite ?lookup_empty; done. Qed.
Lemma has_default_plus n p h : has (default new_node (plus n)) p h = has n (None :: p) h.
Proof. cbn. destruct (plus n); [done|]. apply has_new. Qed.
Lemma has_default_child n g p h : has (default new_node (children n !! g)) p h = has n (Some g :: p) h.
Proof. cbn. destruct (children n !! g); [done|]. apply has_new. Qed.

Lemma path_cons_dec {A} x (q p : path) (k h : bool) (a b : A) :
  (if decide (x :: q = x :: p /\ k = h) then a else b) = if decide (q = p /\ k = h) then a else b.
Proof. destruct (decide (q = p /\ k = h)); [rewrite decide_True by naive_solver|rewrite decide_False by naive_solver]; done. Qed.

Lemma subscribe_at_spec gs id : forall n,
  let '(p, h) := path_of gs in
  let '(r, n') := subscribe_at n gs id in
  r = bool_decide (id ∉ has n p h) /\
  forall q k, has n' q k = if decide (q = p /\ k = h) then {[id]} ∪ has n p h else has n q k.
Proof.
  induction gs as [|g gs IH]; intros n; cbn [path_of subscribe_at].
  { split; [done|]. intros [|[x|] q] [|]; cbn; done. }
  destruct (bool_decide_reflect (g = seg_hash)).
  { split; [done|]. intros [|[x|] q] [|]; cbn; done. }
  destruct (path_of gs) as [p h]. destruct (bool_decide_reflect (g = seg_plus)) as [->|Hp].
  - specialize (IH (default new_node (plus n))).
    destruct (subscribe_at _ gs id) as [r n']. destruct IH as [-> IH]. rewrite has_default_plus.
    split; [done|]. intros [|[x|] q] k; cbn; [done|done|]. rewrite IH, !has_default_plus. by rewrite path_cons_dec.
  - specialize (IH (default new_node (children n !! g))).
    destruct (subscribe_at _ gs id) as [r n']. destruct IH as [-> IH]. rewrite has_default_child.
    split; [done|]. intros [|[x|] q] k; cbn [has children]; [done| |done].
    destruct (decide (x = g)) as [->|Hx].
    + rewrite lookup_insert_eq, IH, !has_default_child. by rewrite path_cons_dec.
    + rewrite lookup_insert_ne by done. rewrite decide_False by naive_solver. done.
Qed.

Lemma unsubscribe_at_spec gs id : forall n,
  let '(p, h) := path_of gs in
  let '(r, n') := unsubscribe_at n gs id in
  r = bool_decide (id ∈ has n p h) /\
  forall q k, has n' q k = if decide (q = p /\ k = h) then has n p h ∖ {[id]} else has n q k.
Proof.
  induction gs as [|g gs IH]; intros n; cbn [path_of unsubscribe_at].
  { split; [done|]. intros [|[x|] q] [|]; cbn; done. }
  destruct (bool_decide_reflect (g = seg_hash)).
  { split; [done|]. intros [|[x|] q] [|]; cbn; done. }
  destruct (path_of gs) as [p h]. destruct (bool_decide_reflect (g = seg_plus)) as [->|Hp]; cbn [has].
  - destruct (plus n) as [c|] eqn:Ec.
    2: { rewrite bool_decide_eq_false_2 by set_solver. split; [done|]. intros q k.
         destruct (decide _) as [[-> ->]|]; [|done]. cbn. rewrite Ec. set_solver. }
    specialize (IH c). destruct (unsubscribe_at c gs id) as [r n']. destruct IH as [-> IH].
    split; [done|]. intros [|[x|] q] k; cbn; [done|done|]. rewrite IH, Ec. by rewrite path_cons_dec.
  - destruct (children n !! g) as [c|] eqn:Ec.
    2: { rewrite bool_decide_eq_false_2 by set_solver. split; [done|]. intros q k.
         destruct (decide _) as [[-> ->]|]; [|done]. cbn. rewrite Ec. set_solver. }
    specialize (IH c). destruct (unsubscribe_at c gs id) as [r n']. destruct IH as [-> IH].
    split; [done|]. intros [|[x|] q] k; cbn [has children]; [done| |done].
    destruct (decide (x = g)) as [->|Hx].
    + rewrite lookup_insert_eq, IH, Ec. by rewrite path_cons_dec.
    + rewrite lookup_insert_ne by done. rewrite decide_False by naive_solver. done.
Qed.

Lemma remove_everywhere_has id p h : forall n, has (remove_everywhere id n).2 p h = has n p h ∖ {[id]}.
Proof.
  induction p as [|[g|] p IH]; intros [cs pl hs es]; [by destruct h| |].
  - cbn. rewrite !lookup_fmap. destruct (cs !! g); cbn; [apply IH|set_solver].
  - cbn. destruct pl; cbn; [apply IH|set_solver].
Qed.

(** When a path matches the segments of a topic: ['#'] takes zero or more. *)
Fixpoint path_match (p : path) (h : bool) (ts : list (list Z)) : Prop :=
  match p, ts with
  | [], _ => h = true \/ ts = []
  | x :: p, t :: ts => (x = None \/ x = Some t) /\ path_match p h ts
  | _ :: _, [] => False
  end.

Lemma match_into_spec ts : forall n out id,
  id ∈ match_into n ts out <-> id ∈ out \/ exists p h, id ∈ has n p h /\ path_match p h ts.
Proof.
  induction ts as [|t ts IH]; intros n out id; cbn [match_into].
  - split.
    + rewrite !elem_of_union. intros [H|[H|H]]; [right|right|by left].
      * exists [], false. by split; [|right].
      * exists [], true. by split; [|left].
    + intros [H|([|x p] & h & H & Hm)]; [set_solver| |done]. destruct h; cbn in H; set_solver.
  - assert (Hc : forall (o : option Node) s, 
      id ∈ match o with Some c => match_into c ts s | None => s end <->
      id ∈ s \/ exists c p h, o = Some c /\ id ∈ has c p h /\ path_match p h ts).
    { intros [c|] s; [rewrite IH|]; naive_solver. }
    rewrite !Hc, elem_of_union. split.
    + intros [[[H|H]|(c & p & h & Ec & H & Hm)]|(c & p & h & Ec & H & Hm)]; [right|by left|right|right].
      * exists [], true. by split; [|left].
      * exists (Some t :: p), h. cbn. rewrite Ec. auto.
      * exists (None :: p), h. cbn. rewrite Ec. auto.
    + intros [H|(p & h & H & Hm)]; [auto|]. destruct p as [|x p]; cbn in Hm.
      { destruct Hm as [->|]; [|done]. cbn in H. auto. }
      destruct Hm as [[->| ->] Hm]; cbn in H.
      * destruct (plus n) as [c|]; [|set_solver]. right. by exists c, p, h.
      * destruct (children n !! t) as [c|]; [|set_solver]. left. right. by exists c, p, h.
Qed.

(** ** Counting *)

Fixpoint node_size (n : Node) : nat :=
  S (match plus n with Some c => node_size c | None => 0%nat end +
     map_fold (fun _ c a => node_size c + a) 0 (children n))%nat.

Lemma map_fold_sum_ge {A} (f : A -> nat) (m : gmap (list Z) A) k c :
  m !! k = Some c -> (f c <= map_fold (fun _ c a => f c + a) 0 m)%nat.
Proof.
  intros E. rewrite <- (insert_delete_id m k c E).
  rewrite map_fold_insert_L; [lia|intros; lia|by rewrite lookup_delete_eq].
Qed.

Lemma node_induction (P : Node -> Prop) :
  (forall cs pl hs es, map_Forall (fun _ c => P c) cs -> (forall c, pl = Some c -> P c) ->
     P (mk_node cs pl hs es)) ->
  forall n, P n.
Proof.
  intros Hn n. remember (node_size n) as k eqn:Ek. revert n Ek.
  induction (lt_wf k) as [k _ IH]. intros [cs pl hs es] ->. apply Hn.
  - intros g c Ec. eapply IH; [|reflexivity]. cbn.
    pose proof (map_fold_sum_ge node_size cs g c Ec). lia.
  - intros c ->. eapply IH; [|reflexivity]. cbn. lia.
Qed.

(** Every subscription stored in a tree, with its path. *)
Definition entry : Type := path * bool * Z.
Definition push (x : option (list Z)) (e : entry) : entry := let '(p, h, id) := e in (x :: p, h, id).

Fixpoint entries (n : Node) : list entry :=
  ((fun id => ([], false, id)) <$> elements (exact_subs n)) ++
  ((fun id => ([], true, id)) <$> elements (hash_subs n)) ++
  match plus n with Some c => push None <$> entries c | None => [] end ++
  map_fold (fun g c l => (push (Some g) <$> entries c) ++ l) [] (children n).

Lemma elem_child_entries (m : gmap (list Z) Node) e :
  e ∈ map_fold (fun g c l => (push (Some g) <$> entries c) ++ l) [] m <->
  exists g c p h id, m !! g = Some c /\ (p, h, id) ∈ entries c /\ e = (Some g :: p, h, id).
Proof.
  apply (map_fold_weak_ind (fun l m => e ∈ l <-> exists g c p h id,
    m !! g = Some c /\ (p, h, id) ∈ entries c /\ e = (Some g :: p, h, id))).
  - split; [by intros ?%not_elem_of_nil|]. intros (g & c & p & h & id & E & _). by rewrite lookup_empty in E.
  - intros g c m' l Hg IH. rewrite elem_of_app, IH, list_elem_of_fmap. split.
    + intros [([[p h] id] & -> & H)|(g' & c' & p & h & id & E & H & ->)].
      * exists g, c, p, h, id. by rewrite lookup_insert_eq.
      * exists g', c', p, h, id. rewrite lookup_insert_ne by congruence. done.
    + intros (g' & c' & p & h & id & E & H & ->). destruct (decide (g' = g)) as [->|Hne].
      * rewrite lookup_insert_eq in E. simplify_eq. left. by exists (p, h, id).
      * rewrite lookup_insert_ne in E by done. right. eauto 10.
Qed.

Lemma elem_entries n : forall p h id, (p, h, id) ∈ entries n <-> id ∈ has n p h.
Proof.
  induction n as [cs pl hs es IHc IHp] using node_induction. intros p h id. cbn [entries].
  rewrite !elem_of_app, !list_elem_of_fmap, elem_child_entries. setoid_rewrite elem_of_elements.
  destruct p as [|[g|] p]; cbn [has plus children exact_subs hash_subs].
  - split.
    + intros [(x & E & H)|[(x & E & H)|[H|(g & c & p & h' & x & _ & _ & E)]]]; simplify_eq; try done.
      destruct pl as [c|]; [|by apply not_elem_of_nil in H].
      apply list_elem_of_fmap in H as ([[q k] y] & E & _). done.
    + intros H. destruct h; [right; left|left]; by exists id.
  - split.
    + intros [(x & E & H)|[(x & E & H)|[H|(g' & c & p' & h' & x & E1 & E2 & E)]]]; simplify_eq.
      * destruct pl as [c|]; [|by apply not_elem_of_nil in H].
        apply list_elem_of_fmap in H as ([[q k] y] & E & _). done.
      * rewrite E1. by apply (IHc g' c E1).
    + intros H. destruct (cs !! g) as [c|] eqn:E; [|by apply not_elem_of_empty in H]. right. right. right.
      exists g, c, p, h, id. split_and!; [done| |done]. by apply (IHc g c E).
  - split.
    + intros [(x & E & H)|[(x & E & H)|[H|(g' & c & p' & h' & x & E1 & E2 & E)]]]; simplify_eq.
      destruct pl as [c|]; [|by apply not_elem_of_nil in H].
      apply list_elem_of_fmap in H as ([[q k] y] & E & H). cbn in E. simplify_eq. by apply (IHp c eq_refl).
    + intros H. destruct pl as [c|]; [|by apply not_elem_of_empty in H]. right. right. left.
      apply list_elem_of_fmap. exists (p, h, id). split; [done|]. by apply (IHp c eq_refl).
Qed.

#[local] Instance push_inj x : Inj (=) (=) (push x).
Proof. intros [[p h] id] [[q k] y] E. cbn in E. by simplify_eq. Qed.

Lemma NoDup_child_entries (m : gmap (list Z) Node) :
  map_Forall (fun _ c => NoDup (entries c)) m ->
  NoDup (map_fold (fun g c l => (push (Some g) <$> entries c) ++ l) [] m).
Proof.
  intros Hm. apply (map_fold_weak_ind (fun l m => map_Forall (fun _ c => NoDup (entries c)) m ->
    (forall p h id, (p, h, id) ∈ l -> exists g q, p = Some g :: q /\ is_Some (m !! g)) /\ NoDup l)); [| |done].
  { intros _. split; [by intros p h id ?%not_elem_of_nil|constructor]. }
  clear m Hm. intros g c m l Hg IH Hm. apply map_Forall_insert in Hm as [Hc Hm]; [|done].
  destruct (IH Hm) as [Hl Hnd]. split.
  - intros p h id [H|H]%elem_of_app.
    + apply list_elem_of_fmap in H as ([[q k] y] & E & _). cbn in E. simplify_eq.
      exists g, q. by rewrite lookup_insert_eq.
    + destruct (Hl _ _ _ H) as (g' & q & -> & [c' E]). exists g', q. split; [done|].
      rewrite lookup_insert_ne by congruence. eauto.
  - apply NoDup_app. split_and!; [apply NoDup_fmap_2; [apply _|exact Hc]| |done].
    intros [[p h] id] H1 H2. apply list_elem_of_fmap in H1 as ([[q k] y] & E & _). cbn in E. simplify_eq.
    destruct (Hl _ _ _ H2) as (g' & q' & E' & [c' E]). simplify_eq.
Qed.

Lemma NoDup_entries n : NoDup (entries n).
Proof.
  induction n as [cs pl hs es IHc IHp] using node_induction. cbn [entries plus children exact_subs hash_subs].
  assert (Hpl : NoDup (match pl with Some c => push None <$> entries c | None => [] end)).
  { destruct pl as [c|]; [|constructor]. apply NoDup_fmap_2; [apply _|by apply IHp]. }
  assert (Hin : forall e, e ∈ match pl with Some c => push None <$> entries c | None => [] end ->
    exists p h id, e = (None :: p, h, id)).
  { intros e He. destruct pl as [c|]; [|by apply not_elem_of_nil in He].
    apply list_elem_of_fmap in He as ([[q k] y] & -> & _). cbn. eauto. }
  repeat (apply NoDup_app; split_and!); try (apply NoDup_fmap_2; [|apply NoDup_elements]; intros ???; by simplify_eq).
  - intros e (x & -> & _)%list_elem_of_fmap H. rewrite !elem_of_app, elem_child_entries in H.
    destruct H as [(y & ? & _)%list_elem_of_fmap|[(p & h & y & ?)%Hin|(g & c & p & h & y & _ & _ & ?)]]; done.
  - intros e (x & -> & _)%list_elem_of_fmap H. rewrite !elem_of_app, elem_child_entries in H.
    destruct H as [(p & h & y & ?)%Hin|(g & c & p & h & y & _ & _ & ?)]; done.
  - done.
  - intros e (p & h & y & ->)%Hin H. rewrite elem_child_entries in H.
    destruct H as (g & c & q & k & z & _ & _ & ?). done.
  - by apply NoDup_child_entries.
Qed.

Lemma fold_lens (L : list (list Z * Node)) (f : Node -> Node) (r : Node -> Z) :
  Forall (fun gc => len (entries gc.2) = r gc.2 + len (entries (f gc.2))) L ->
  len (foldr (uncurry (fun g c l => (push (Some g) <$> entries c) ++ l)) [] L) =
  foldr (uncurry (fun _ c a => r c + a)) 0 L +
  len (foldr (uncurry (fun g c l => (push (Some g) <$> entries (f c)) ++ l)) [] L).
Proof.
  induction 1 as [|[g c] L Hc _ IH]; [done|]. cbn [foldr fst snd uncurry] in *.
  rewrite !len_app, IH. unfold len in *. rewrite !length_fmap. lia.
Qed.

Lemma size_minus_one (X : gset Z) id :
  Z.of_nat (size X) = (if bool_decide (id ∈ X) then 1 else 0) + Z.of_nat (size (X ∖ {[id]})).
Proof.
  destruct (bool_decide_reflect (id ∈ X)) as [H|H].
  - rewrite size_difference by set_solver. rewrite size_singleton.
    assert (size X <> 0)%nat; [|lia]. intros E%size_empty_inv. set_solver.
  - replace (X ∖ {[id]}) with X by set_solver. lia.
Qed.

Lemma len_elements_minus (X : gset Z) id (f : Z -> entry) :
  len (f <$> elements X) = (if bool_decide (id ∈ X) then 1 else 0) + len (f <$> elements (X ∖ {[id]})).
Proof. unfold len. rewrite !length_fmap. apply size_minus_one. Qed.

Lemma remove_everywhere_count id n :
  len (entries n) = (remove_everywhere id n).1 + len (entries (remove_everywhere id n).2).
Proof.
  induction n as [cs pl hs es IHc IHp] using node_induction.
  cbn [entries remove_everywhere plus children exact_subs hash_subs fst snd].
  rewrite !len_app, !map_fold_fmap, !map_fold_foldr.
  rewrite (len_elements_minus es id), (len_elements_minus hs id).
  assert (Hc : Forall (fun gc => len (entries gc.2) =
    (remove_everywhere id gc.2).1 + len (entries (remove_everywhere id gc.2).2)) (map_to_list cs)).
  { apply Forall_forall. intros [g c] H%elem_of_map_to_list. exact (IHc g c H). }
  pose proof (fold_lens (map_to_list cs) (fun c => (remove_everywhere id c).2)
                (fun c => (remove_everywhere id c).1) Hc) as Hf.
  assert (Hp : len (match pl with Some c => push None <$> entries c | None => [] end) =
    default 0 (fst <$> (remove_everywhere id <$> pl)) +
    len (match snd <$> (remove_everywhere id <$> pl) with Some c => push None <$> entries c | None => [] end)).
  { destruct pl as [c|]; [|done]. cbn. specialize (IHp c eq_refl). unfold len in *. rewrite !length_fmap. lia. }
  rewrite Hp. clear Hp IHc IHp Hc.
  unfold compose in *. rewrite Hf.
  match goal with |- ?a + ?b + (?c + ?d + (?e + ?f + (?g + ?h))) = _ =>
    transitivity (a + c + e + g + (b + (d + (f + h)))); [lia|reflexivity]
  end.
Qed.

(** ** The trie as a set of subscriptions *)

Definition entry_of (filter : list Z) (id : Z) : entry := (path_of (segs filter), id).

(** The abstraction relation. *)
Definition trie_repr (t : TopicTrie) (S : gset entry) : Prop :=
  (forall p h id, id ∈ has (root_ t) p h <-> (p, h, id) ∈ S) /\ total_subs_ t = u64 (Z.of_nat (size S)).

Lemma new_trie_repr : trie_repr new_trie ∅.
Proof. split; [|done]. intros p h id. cbn [root_ new_trie]. rewrite has_new. set_solver. Qed.

Lemma subscribe_repr t S filter id :
  trie_repr t S ->
  exists t', subscribe t filter id = Ok (bool_decide (entry_of filter id ∉ S), t') /\
             trie_repr t' ({[entry_of filter id]} ∪ S).
Proof.
  intros [Hh Ht]. unfold subscribe, entry_of. rewrite split_spec.
  pose proof (subscribe_at_spec (segs filter) id (root_ t)) as Hs.
  destruct (path_of (segs filter)) as [p h]. destruct (subscribe_at _ _ _) as [r n]. destruct Hs as [-> Hs].
  rewrite (bool_decide_ext _ ((p, h, id) ∉ S)) by (by rewrite Hh).
  eexists. split; [reflexivity|]. split; cbn.
  - intros q k x. rewrite Hs. destruct (decide (q = p /\ k = h)) as [[-> ->]|Hne].
    + rewrite !elem_of_union, !elem_of_singleton, Hh. naive_solver.
    + rewrite elem_of_union, elem_of_singleton, Hh. naive_solver.
  - destruct (bool_decide_reflect ((p, h, id) ∉ S)) as [Hn|Hn].
    + rewrite size_union by set_solver. rewrite size_singleton, Ht. wrap_lia.
    + apply dec_stable in Hn. by rewrite subseteq_union_1_L by set_solver.
Qed.

Lemma unsubscribe_repr t S filter id :
  trie_repr t S ->
  exists t', unsubscribe t filter id = Ok (bool_decide (entry_of filter id ∈ S), t') /\
             trie_repr t' (S ∖ {[entry_of filter id]}).
Proof.
  intros [Hh Ht]. unfold unsubscribe, entry_of. rewrite split_spec.
  pose proof (unsubscribe_at_spec (segs filter) id (root_ t)) as Hs.
  destruct (path_of (segs filter)) as [p h]. destruct (unsubscribe_at _ _ _) as [r n]. destruct Hs as [-> Hs].
  rewrite (bool_decide_ext _ ((p, h, id) ∈ S)) by (by rewrite Hh).
  eexists. split; [reflexivity|]. split; cbn.
  - intros q k x. rewrite Hs. destruct (decide (q = p /\ k = h)) as [[-> ->]|Hne].
    + rewrite !elem_of_difference, !elem_of_singleton, Hh. naive_solver.
    + rewrite elem_of_difference, elem_of_singleton, Hh. naive_solver.
  - destruct (bool_decide_reflect ((p, h, id) ∈ S)) as [Hn|Hn].
    + rewrite size_difference by set_solver. rewrite size_singleton, Ht.
      assert (size S <> 0)%nat by (intros E%size_empty_inv; set_solver). wrap_lia.
    + by rewrite difference_disjoint_L by set_solver.
Qed.

Lemma repr_size t S : trie_repr t S -> len (entries (root_ t)) = Z.of_nat (size S).
Proof.
  intros [Hh _]. assert (E : S = list_to_set (entries (root_ t))).
  { apply set_eq. intros [[p h] id]. by rewrite elem_of_list_to_set, elem_entries. }
  rewrite E. rewrite size_list_to_set by apply NoDup_entries. done.
Qed.

Lemma unsubscribe_all_repr t S id :
  trie_repr t S ->
  let S' := filter (fun e => e.2 <> id) S in
  exists t', unsubscribe_all t id = (u64 (Z.of_nat (size S) - Z.of_nat (size S')), t') /\ trie_repr t' S'.
Proof.
  intros Hr S'. pose proof Hr as [Hh Ht]. unfold unsubscribe_all.
  pose proof (remove_everywhere_count id (root_ t)) as Hc.
  pose proof (fun p h => remove_everywhere_has id p h (root_ t)) as Hrm.
  destruct (remove_everywhere id (root_ t)) as [r n]. cbn in Hc, Hrm.
  assert (Hh' : forall p h x, x ∈ has n p h <-> (p, h, x) ∈ S').
  { intros p h x. rewrite Hrm. unfold S'. rewrite elem_of_difference, elem_of_singleton, elem_of_filter, Hh.
    cbn. naive_solver. }
  assert (Hr' : trie_repr (mk_trie n (u64 (Z.of_nat (size S')))) S') by done.
  pose proof (repr_size _ _ Hr) as E1. pose proof (repr_size _ _ Hr') as E2. cbn in E2.
  eexists. split; [f_equal; f_equal; lia|]. split; [done|]. cbn. rewrite Ht. wrap_lia.
Qed.

(** ** Runs of operations *)

Inductive trie_op :=
| TSubscribe (filter : list Z) (id : Z)
| TUnsubscribe (filter : list Z) (id : Z)
| TDrop (id : Z)
| TMatch (topic : list Z)
| TCount.

Inductive trie_out := TBool (b : bool) | TNum (n : Z) | TSet (s : gset Z).

Definition trie_step (t : TopicTrie) (o : trie_op) : M (trie_out * TopicTrie) :=
  match o with
  | TSubscribe f id => let! '(b, t) := subscribe t f id in Ok (TBool b, t)
  | TUnsubscribe f id => let! '(b, t) := unsubscribe t f id in Ok (TBool b, t)
  | TDrop id => let '(n, t) := unsubscribe_all t id in Ok (TNum n, t)
  | TMatch topic => let! s := trie_match t topic in Ok (TSet s, t)
  | TCount => Ok (TNum (subscription_count t), t)
  end.

Fixpoint trie_run (t : TopicTrie) (os : list trie_op) : M (list trie_out * TopicTrie) :=
  match os with
  | [] => Ok ([], t)
  | o :: os =>
      let! '(r, t) := trie_step t o in
      let! '(rs, t) := trie_run t os in Ok (r :: rs, t)
  end.

(** Matching by segments as the header describes it: a ['#'] takes zero or more. *)
Fixpoint levels_match0 (ts fs : list (list Z)) {struct fs} : bool :=
  match fs with
  | [] => bool_decide (ts = [])
  | f :: fs =>
      bool_decide (f = seg_hash) ||
      match ts with
      | [] => false
      | t :: ts => (bool_decide (f = seg_plus) || bool_decide (f = t)) && levels_match0 ts fs
      end
  end.

Lemma path_of_match fs : forall ts,
  path_match (path_of fs).1 (path_of fs).2 ts <-> levels_match0 ts fs = true.
Proof.
  induction fs as [|f fs IH]; intros ts; cbn [path_of levels_match0].
  { rewrite bool_decide_eq_true. cbn. naive_solver. }
  destruct (bool_decide_reflect (f = seg_hash)); [cbn; naive_solver|].
  destruct (path_of fs) as [p h]. cbn in IH |- *. destruct ts as [|t ts]; [done|].
  rewrite IH, andb_true_iff, orb_true_iff.
  destruct (bool_decide_reflect (f = seg_plus)), (bool_decide_reflect (f = t)); naive_solver.
Qed.

(** Filters and paths determine each other on well-formed filters. *)
Fixpoint join (gs : list (list Z)) : list Z :=
  match gs with
  | [] => []
  | [g] => g
  | g :: gs => g ++ ch_slash :: join gs
  end.

Lemma join_segs s : join (segs s) = s.
Proof.
  induction s as [|c s IH]; [done|]. cbn [segs]. pose proof (segs_not_nil ch_slash s).
  destruct (Z.eqb_spec c ch_slash) as [->|].
  - destruct (segs s) as [|g gs]; [done|]. cbn in *. by rewrite IH.
  - destruct (segs s) as [|g [|g' gs]]; [done|..]; cbn in *; by rewrite IH.
Qed.

Definition filter_of (e : entry) : list Z * Z :=
  let '(p, h, id) := e in
  (join ((default seg_plus <$> p) ++ if h : bool then [seg_hash] else []), id).

Lemma path_of_segs gs :
  filter_segs_ok gs = true ->
  (default seg_plus <$> (path_of gs).1) ++ (if (path_of gs).2 then [seg_hash] else []) = gs.
Proof.
  induction gs as [|g gs IH]; [done|]. cbn [filter_segs_ok path_of]. intros H.
  destruct (bool_decide_reflect (g = seg_hash)) as [->|Hh].
  { destruct (bool_decide_reflect (seg_hash = seg_plus)); [done|]. apply bool_decide_eq_true_1 in H as ->. done. }
  destruct (path_of gs) as [p h]. cbn in IH |- *.
  destruct (bool_decide_reflect (g = seg_plus)) as [->|Hp]; [by rewrite IH|].
  apply andb_prop in H as [_ H]. cbn. by rewrite IH.
Qed.

Lemma filter_of_entry f id : filter_ok f = true -> filter_of (entry_of f id) = (f, id).
Proof.
  intros [_ H]%andb_prop. unfold entry_of, filter_of. pose proof (path_of_segs _ H) as E.
  destruct (path_of (segs f)) as [p h]. cbn in E. by rewrite E, join_segs.
Qed.

(** ** Refinement *)

(** The abstract state is a set of pairs of a filter and a subscriber. *)
Definition sub_entry (e : list Z * Z) : entry := entry_of e.1 e.2.

Definition valid_subs (S : gset (list Z * Z)) : Prop := forall e, e ∈ S -> filter_ok e.1 = true.
Definition trie_abs (t : TopicTrie) (S : gset (list Z * Z)) : Prop :=
  valid_subs S /\ trie_repr t (set_map sub_entry S).

Lemma sub_entry_inj e e' :
  filter_ok e.1 = true -> filter_ok e'.1 = true -> sub_entry e = sub_entry e' -> e = e'.
Proof.
  destruct e as [f id], e' as [f' id']. cbn. intros H H' E%(f_equal filter_of).
  unfold sub_entry in E. by rewrite !filter_of_entry in E by done.
Qed.

Lemma elem_sub_entry S e :
  valid_subs S -> filter_ok e.1 = true -> sub_entry e ∈ (set_map sub_entry S : gset entry) <-> e ∈ S.
Proof.
  intros HS He. rewrite elem_of_map. split; [|eauto].
  intros (e' & E & H). by apply sub_entry_inj in E as <-; auto.
Qed.

Lemma size_set_map_le `{Countable A, Countable B} (f : A -> B) (X : gset A) :
  (size (set_map f X : gset B) <= size X)%nat.
Proof.
  induction X as [|x X Hx IH] using set_ind_L; [by rewrite set_map_empty|].
  rewrite set_map_union_L, set_map_singleton_L, (size_union {[x]}) by set_solver.
  rewrite size_union_alt, !size_singleton.
  pose proof (subseteq_size (set_map f X ∖ {[f x]} : gset B) (set_map f X)) as Hs.
  specialize (Hs ltac:(set_solver)). lia.
Qed.

Lemma size_sub_entries S : valid_subs S -> size (set_map sub_entry S : gset entry) = size S.
Proof.
  intros HS. apply Nat.le_antisymm; [apply size_set_map_le|].
  assert (E : S = set_map filter_of (set_map sub_entry S : gset entry)).
  { apply set_eq. intros e. rewrite elem_of_map. setoid_rewrite elem_of_map. split.
    - intros He. exists (sub_entry e). split; [|eauto]. symmetry. destruct e. by apply filter_of_entry, (HS _ He).
    - intros (x & -> & e' & -> & He). pose proof (HS _ He) as Hv. destruct e' as [f id].
      unfold sub_entry. by rewrite filter_of_entry. }
  rewrite E at 1. apply size_set_map_le.
Qed.

(** The abstract machine. *)
Definition spec_matching (S : gset (list Z * Z)) (topic : list Z) : gset Z :=
  set_map snd (filter (fun e => levels_match0 (segs topic) (segs e.1) = true) S).

Definition spec_step (S : gset (list Z * Z)) (o : trie_op) : trie_out * gset (list Z * Z) :=
  match o with
  | TSubscribe f id => (TBool (bool_decide ((f, id) ∉ S)), {[(f, id)]} ∪ S)
  | TUnsubscribe f id => (TBool (bool_decide ((f, id) ∈ S)), S ∖ {[(f, id)]})
  | TDrop id =>
      let S' := filter (fun e => e.2 <> id) S in
      (TNum (u64 (Z.of_nat (size S) - Z.of_nat (size S'))), S')
  | TMatch topic => (TSet (spec_matching S topic), S)
  | TCount => (TNum (u64 (Z.of_nat (size S))), S)
  end.

Fixpoint spec_run (S : gset (list Z * Z)) (os : list trie_op) : list trie_out * gset (list Z * Z) :=
  match os with
  | [] => ([], S)
  | o :: os => let '(r, S1) := spec_step S o in let '(rs, S2) := spec_run S1 os in (r :: rs, S2)
  end.

(** The operations the broker performs: filters are validated first. *)
Definition trie_op_ok (o : trie_op) : Prop :=
  match o with TSubscribe f _ | TUnsubscribe f _ => filter_ok f = true | _ => True end.

Lemma match_abs t S topic : trie_abs t S -> trie_match t topic = Ok (spec_matching S topic).
Proof.
  intros [HS [Hh _]]. unfold trie_match. rewrite split_spec. f_equal. apply set_eq. intros id.
  rewrite match_into_spec. unfold spec_matching. rewrite elem_of_map. split.
  - intros [H|(p & h & H & Hm)]; [set_solver|]. apply Hh, elem_of_map in H as (e & E & He).
    exists e. rewrite elem_of_filter. unfold sub_entry, entry_of in E. injection E as E ->.
    split_and!; [done| |done]. apply path_of_match. by rewrite <- E.
  - intros (e & -> & [Hm He]%elem_of_filter). right. apply path_of_match in Hm.
    exists (path_of (segs e.1)).1, (path_of (segs e.1)).2. split; [|done]. apply Hh, elem_of_map.
    exists e. split; [|done]. unfold sub_entry, entry_of. by destruct (path_of _).
Qed.

Lemma trie_step_refines t S o :
  trie_abs t S -> trie_op_ok o ->
  exists t', trie_step t o = Ok ((spec_step S o).1, t') /\ trie_abs t' (spec_step S o).2.
Proof.
  intros Ha Ho. pose proof Ha as [HS Hr]. destruct o as [f id|f id|id|topic|]; cbn [trie_step spec_step fst snd].
  - destruct (subscribe_repr _ _ f id Hr) as (t' & -> & Hr'). exists t'.
    rewrite (bool_decide_ext _ ((f, id) ∉ S)) by (by rewrite (elem_sub_entry S (f, id))).
    split; [done|]. split.
    + intros e [->%elem_of_singleton|?]%elem_of_union; [done|by apply HS].
    + by rewrite set_map_union_L, set_map_singleton_L.
  - destruct (unsubscribe_repr _ _ f id Hr) as (t' & -> & Hr'). exists t'.
    rewrite (bool_decide_ext _ ((f, id) ∈ S)) by (by rewrite (elem_sub_entry S (f, id))).
    split; [done|]. split; [intros e ?; apply HS; set_solver|].
    replace (set_map sub_entry (S ∖ {[(f, id)]})) with ((set_map sub_entry S : gset entry) ∖ {[entry_of f id]}); [done|].
    apply set_eq. intros x. rewrite elem_of_difference, !elem_of_map, elem_of_singleton.
    setoid_rewrite elem_of_difference. setoid_rewrite elem_of_singleton. split.
    + intros [(e & -> & He) Hne]. exists e. split_and!; [done|done|]. by intros ->.
    + intros (e & -> & He & Hne). split; [eauto|]. intros E. apply Hne. apply sub_entry_inj; auto.
  - destruct (unsubscribe_all_repr _ _ id Hr) as (t' & Eu & Hr'). exists t'.
    set (S' := filter _ S). assert (HS' : valid_subs S') by (intros e [_ ?]%elem_of_filter; auto).
    match type of Hr' with trie_repr _ ?X => assert (E : X = set_map sub_entry S') end.
    { apply set_eq. intros x. rewrite elem_of_filter, !elem_of_map. unfold S'. setoid_rewrite elem_of_filter.
      split; [intros [Hx (e & -> & He)]|intros (e & -> & Hx & He)]; eauto. }
    rewrite E in Eu, Hr'. rewrite !size_sub_entries in Eu by done. rewrite Eu. done.
  - exists t. by rewrite (match_abs t S topic Ha).
  - exists t. split; [|done]. destruct Hr as [_ Ht]. unfold subscription_count. by rewrite Ht, size_sub_entries.
Qed.

(** C23: The trie implements its specification: on every sequence of subscribe, unsubscribe,
    disconnect, match and count calls with well-formed filters, starting from an empty trie, it
    returns what a plain set of (filter, subscriber) pairs would: [match] finds exactly the
    subscribers one of whose filters matches the topic segment by segment, and the counts are
    the sizes of that set. *)
Theorem topic_trie_refines_set os :
  Forall trie_op_ok os ->
  exists t, trie_run new_trie os = Ok ((spec_run ∅ os).1, t).
Proof.
  assert (Hgen : forall t S, trie_abs t S -> Forall trie_op_ok os ->
    exists t', trie_run t os = Ok ((spec_run S os).1, t')).
  { induction os as [|o os IH]; intros t S Ha Hos; [by exists t|].
    apply Forall_cons_1 in Hos as [Ho Hos]. destruct (trie_step_refines t S o Ha Ho) as (t1 & E1 & Ha1).
    cbn [trie_run spec_run]. rewrite E1. destruct (spec_step S o) as [r S1]. cbn in *.
    destruct (IH t1 S1 Ha1 Hos) as (t2 & E2). rewrite E2. destruct (spec_run S1 os). by exists t2. }
  intros Hos. apply (Hgen new_trie ∅); [|done]. split; [intros e ?; set_solver|].
  rewrite set_map_empty. apply new_trie_repr.
Qed.

(** Two filters that both match one topic, a match, an unsubscription and a disconnect. *)
Definition demo_trie_ops : list trie_op :=
  [TSubscribe str_a_b 1; TSubscribe str_a_b_hash 2; TMatch str_a_b; TUnsubscribe str_a_b 1;
   TMatch str_a_b; TDrop 2; TCount].

Lemma topic_trie_refines_set_witness :
  exists t, trie_run new_trie demo_trie_ops = Ok ((spec_run ∅ demo_trie_ops).1, t).
Proof. apply (topic_trie_refines_set demo_trie_ops). repeat constructor. Defined.

(** The trie and [sl_topic_matches] disagree: a subscriber to ["a/b/#"] gets a publish on
    ["a/b"] from the trie, while the matcher used for retained messages says no. *)
Lemma trie_and_matcher_disagree :
  (let! '(_, t) := subscribe new_trie str_a_b_hash 7 in trie_match t str_a_b) = Ok {[7]} /\
  sl_topic_matches str_a_b 3 str_a_b_hash 5 = Ok false.
Proof. split; vm_compute; reflexivity. Qed.
