(* ===== verification/Broker.v ===== *)
(** The publish/subscribe broker: per-identity access rules ([src/topic_acl.cpp]) and the
    dispatcher with retained messages ([src/pubsub_broker.cpp]). The broker holds its ACL
    through a shared pointer, so changes of the rules are operations on the same state. The
    iteration orders of the two hash containers are parameters. *)

From stdpp Require Import gmap.
From S2P Require Import Prelude Ctype Topic TopicTrie.
Local Open Scope Z_scope.

(** ** Access rules *)

(* src/inc/topic_acl.hpp:20-23 *)
Inductive TopicOp := kPublish | kSubscribe.

(* src/inc/topic_acl.hpp:25-28 *)
Record TopicRule := mk_rule { rule_filter : list Z; rule_allow : bool }.

(* src/inc/topic_acl.hpp:49-52 *)
Record Entry := mk_entry { publish_rules : list TopicRule; subscribe_rules : list TopicRule }.

(* src/inc/topic_acl.hpp:57-59 *)
Record TopicAcl := mk_acl { by_fp_ : gmap (list Z) Entry; default_allow_ : bool }.

Definition new_acl : TopicAcl := mk_acl ∅ false.

(** The entry of the table [d] of hexadecimal digits. *)
Definition hex_digit (n : Z) : Z := if n <? 10 then 48 + n else 87 + n.

(* src/src/topic_acl.cpp:9-17 TopicAcl::fp_key *)
Fixpoint fp_key (fp : list Z) : list Z :=
  match fp with
  | [] => []
  | b :: fp => hex_digit (Z.land (b ≫ 4) 15) :: hex_digit (Z.land b 15) :: fp_key fp
  end.

Definition add_rule (e : Entry) (op : TopicOp) (r : TopicRule) : Entry :=
  match op with
  | kPublish => mk_entry (publish_rules e ++ [r]) (subscribe_rules e)
  | kSubscribe => mk_entry (publish_rules e) (subscribe_rules e ++ [r])
  end.

(* src/src/topic_acl.cpp:19-26 TopicAcl::allow *)
Definition acl_allow (a : TopicAcl) (fp : list Z) (op : TopicOp) (filter : list Z) : TopicAcl :=
  let e := default (mk_entry [] []) (by_fp_ a !! fp_key fp) in
  mk_acl (<[fp_key fp := add_rule e op (mk_rule filter true)]> (by_fp_ a)) (default_allow_ a).

(* src/src/topic_acl.cpp:28-35 TopicAcl::deny *)
Definition acl_deny (a : TopicAcl) (fp : list Z) (op : TopicOp) (filter : list Z) : TopicAcl :=
  let e := default (mk_entry [] []) (by_fp_ a !! fp_key fp) in
  mk_acl (<[fp_key fp := add_rule e op (mk_rule filter false)]> (by_fp_ a)) (default_allow_ a).

(* src/src/topic_acl.cpp:37-40 TopicAcl::clear *)
Definition acl_clear (a : TopicAcl) (fp : list Z) : TopicAcl :=
  mk_acl (delete (fp_key fp) (by_fp_ a)) (default_allow_ a).

(* src/inc/topic_acl.hpp:39-39 TopicAcl::set_default_allow *)
Definition set_default_allow (a : TopicAcl) (allow : bool) : TopicAcl := mk_acl (by_fp_ a) allow.

(* src/src/topic_acl.cpp:42-52 TopicAcl::eval *)
Fixpoint eval (default_allow : bool) (rules : list TopicRule) (s : list Z) : M bool :=
  match rules with
  | [] => Ok default_allow
  | r :: rules =>
      let! m := sl_topic_matches s (len s) (rule_filter r) (len (rule_filter r)) in
      if m then Ok (rule_allow r) else eval default_allow rules s
  end.

(* src/src/topic_acl.cpp:54-62 TopicAcl::check *)
Definition acl_check (a : TopicAcl) (fp : list Z) (op : TopicOp) (topic_or_filter : list Z) : M bool :=
  match by_fp_ a !! fp_key fp with
  | None => Ok (default_allow_ a)
  | Some e =>
      eval (default_allow_ a) (match op with kPublish => publish_rules e | kSubscribe => subscribe_rules e end)
        topic_or_filter
  end.

(* src/src/topic_acl.cpp:64-69 TopicAcl::rule_count *)
Definition rule_count (a : TopicAcl) (fp : list Z) : Z :=
  match by_fp_ a !! fp_key fp with
  | None => 0
  | Some e => u64 (len (publish_rules e) + len (subscribe_rules e))
  end.

(* src/src/topic_acl.cpp:71-74 TopicAcl::identity_count *)
Definition identity_count (a : TopicAcl) : Z := Z.of_nat (size (by_fp_ a)).

(** ** The broker *)

(* src/inc/pubsub_broker.hpp:24-29 *)
Record PubSubDelivery := mk_delivery {
  subscriber : Z;
  dv_topic : list Z;
  dv_payload : list Z;
  retained : bool
}.

(* src/inc/pubsub_broker.hpp:31-40 *)
Record PubSubBrokerStats := mk_broker_stats {
  publishes_total : Z;
  publishes_denied : Z;
  publishes_no_match : Z;
  subscribes_total : Z;
  subscribes_denied : Z;
  unsubscribes_total : Z;
  deliveries_queued : Z;
  retained_replays : Z
}.

(* src/inc/pubsub_broker.hpp:72-76 *)
Record PubSubBroker := mk_broker {
  acl_ : option TopicAcl;
  trie_ : TopicTrie;
  retained_ : gmap (list Z) (list Z);
  bstats_ : PubSubBrokerStats
}.

(* src/src/pubsub_broker.cpp:7-8 PubSubBroker::PubSubBroker *)
Definition new_broker (acl : option TopicAcl) : PubSubBroker :=
  mk_broker acl new_trie ∅ (mk_broker_stats 0 0 0 0 0 0 0 0).

Definition stat_publish (s : PubSubBrokerStats) (denied no_match delivered : Z) : PubSubBrokerStats :=
  mk_broker_stats (u64 (publishes_total s + 1)) (u64 (publishes_denied s + denied))
    (u64 (publishes_no_match s + no_match)) (subscribes_total s) (subscribes_denied s)
    (unsubscribes_total s) (u64 (deliveries_queued s + delivered)) (retained_replays s).
Definition stat_subscribe (s : PubSubBrokerStats) (denied replays : Z) : PubSubBrokerStats :=
  mk_broker_stats (publishes_total s) (publishes_denied s) (publishes_no_match s)
    (u64 (subscribes_total s + 1)) (u64 (subscribes_denied s + denied)) (unsubscribes_total s)
    (deliveries_queued s) (u64 (retained_replays s + replays)).
Definition stat_unsubscribe (s : PubSubBrokerStats) (n : Z) : PubSubBrokerStats :=
  mk_broker_stats (publishes_total s) (publishes_denied s) (publishes_no_match s) (subscribes_total s)
    (subscribes_denied s) (u64 (unsubscribes_total s + n)) (deliveries_queued s) (retained_replays s).

(** [acl_ && !acl_->check(...)]: whether the rules refuse the call. *)
Definition acl_refuses (acl : option TopicAcl) (fp : list Z) (op : TopicOp) (s : list Z) : M bool :=
  match acl with
  | None => Ok false
  | Some a => let! ok := acl_check a fp op s in Ok (negb ok)
  end.

Section broker.
Context (sub_order : gset Z -> list Z) (map_order : gmap (list Z) (list Z) -> list (list Z * list Z)).

(* src/src/pubsub_broker.cpp:10-51 PubSubBroker::publish *)
Definition publish (b : PubSubBroker) (publisher topic payload : list Z) (retain : bool)
  : M (list PubSubDelivery * PubSubBroker) :=
  let! valid := sl_topic_is_valid_publish topic (len topic) in
  if negb valid then
    Ok ([], mk_broker (acl_ b) (trie_ b) (retained_ b) (stat_publish (bstats_ b) 1 0 0))
  else
    let! refused := acl_refuses (acl_ b) publisher kPublish topic in
    if refused then
      Ok ([], mk_broker (acl_ b) (trie_ b) (retained_ b) (stat_publish (bstats_ b) 1 0 0))
    else
      let! found := trie_match (trie_ b) topic in
      let subs := sub_order found in
      let kept := if retain then <[topic := payload]> (retained_ b) else retained_ b in
      match subs with
      | [] => Ok ([], mk_broker (acl_ b) (trie_ b) kept (stat_publish (bstats_ b) 0 1 0))
      | _ =>
          Ok (map (fun s => mk_delivery s topic payload false) subs,
              mk_broker (acl_ b) (trie_ b) kept (stat_publish (bstats_ b) 0 0 (len subs)))
      end.

(** The replay loop over the retained messages. *)
(* src/src/pubsub_broker.cpp:77-88 PubSubBroker::subscribe *)
Fixpoint replay_loop (kept : list (list Z * list Z)) (sub_id : Z) (filter : list Z) : M (list PubSubDelivery) :=
  match kept with
  | [] => Ok []
  | (topic, payload) :: kept =>
      let! m := sl_topic_matches topic (len topic) filter (len filter) in
      let! rest := replay_loop kept sub_id filter in
      Ok (if m then mk_delivery sub_id topic payload true :: rest else rest)
  end.

(* src/src/pubsub_broker.cpp:53-91 PubSubBroker::subscribe *)
Definition broker_subscribe (b : PubSubBroker) (subscriber_fp : list Z) (sub_id : Z) (filter : list Z)
  : M (list PubSubDelivery * PubSubBroker) :=
  let! valid := sl_topic_is_valid_filter filter (len filter) in
  if negb valid then
    Ok ([], mk_broker (acl_ b) (trie_ b) (retained_ b) (stat_subscribe (bstats_ b) 1 0))
  else
    let! refused := acl_refuses (acl_ b) subscriber_fp kSubscribe filter in
    if refused then
      Ok ([], mk_broker (acl_ b) (trie_ b) (retained_ b) (stat_subscribe (bstats_ b) 1 0))
    else
      let! '(_, t) := subscribe (trie_ b) filter sub_id in
      let! replays := replay_loop (map_order (retained_ b)) sub_id filter in
      Ok (replays, mk_broker (acl_ b) t (retained_ b) (stat_subscribe (bstats_ b) 0 (len replays))).
End broker.

(* src/src/pubsub_broker.cpp:93-100 PubSubBroker::unsubscribe *)
Definition broker_unsubscribe (b : PubSubBroker) (sub_id : Z) (filter : list Z) : M (bool * PubSubBroker) :=
  let! '(ok, t) := unsubscribe (trie_ b) filter sub_id in
  Ok (ok, mk_broker (acl_ b) t (retained_ b)
            (if ok then stat_unsubscribe (bstats_ b) 1 else bstats_ b)).

(* src/src/pubsub_broker.cpp:102-109 PubSubBroker::drop_subscriber *)
Definition drop_subscriber (b : PubSubBroker) (sub_id : Z) : Z * PubSubBroker :=
  let '(n, t) := unsubscribe_all (trie_ b) sub_id in
  (n, mk_broker (acl_ b) t (retained_ b)
        (if 0 <? n then stat_unsubscribe (bstats_ b) n else bstats_ b)).

(* src/src/pubsub_broker.cpp:111-113 PubSubBroker::subscription_count *)
Definition broker_subscription_count (b : PubSubBroker) : Z := subscription_count (trie_ b).
(* src/src/pubsub_broker.cpp:115-118 PubSubBroker::retained_count *)
Definition retained_count (b : PubSubBroker) : Z := Z.of_nat (size (retained_ b)).

(** ** Specification *)

Definition topic_matches_filter (topic filter : list Z) : bool :=
  topic_ok topic && filter_ok filter && levels_match (segs topic) (segs filter).

(** The first rule that matches decides. *)
Fixpoint spec_eval (d : bool) (rules : list TopicRule) (s : list Z) : bool :=
  match rules with
  | [] => d
  | r :: rules => if topic_matches_filter s (rule_filter r) then rule_allow r else spec_eval d rules s
  end.

Definition spec_allows (acl : option TopicAcl) (fp : list Z) (op : TopicOp) (s : list Z) : bool :=
  match acl with
  | None => true
  | Some a =>
      match by_fp_ a !! fp_key fp with
      | None => default_allow_ a
      | Some e =>
          spec_eval (default_allow_ a)
            (match op with kPublish => publish_rules e | kSubscribe => subscribe_rules e end) s
      end
  end.

Lemma eval_spec d rules s : eval d rules s = Ok (spec_eval d rules s).
Proof.
  induction rules as [|r rules IH]; [done|]. cbn [eval spec_eval]. rewrite topic_matches_spec.
  fold (topic_matches_filter s (rule_filter r)). by destruct (topic_matches_filter _ _).
Qed.

Lemma acl_refuses_spec acl fp op s : acl_refuses acl fp op s = Ok (negb (spec_allows acl fp op s)).
Proof.
  unfold acl_refuses, acl_check, spec_allows. destruct acl as [a|]; [|done].
  destruct (by_fp_ a !! fp_key fp); [|done]. by rewrite eval_spec.
Qed.

(** The same with the matching that the header documents: a final ['#'] stands for zero or more
    segments. *)
Definition doc_matches (topic filter : list Z) : bool :=
  topic_ok topic && filter_ok filter && levels_match0 (segs topic) (segs filter).

Fixpoint doc_eval (d : bool) (rules : list TopicRule) (s : list Z) : bool :=
  match rules with
  | [] => d
  | r :: rules => if doc_matches s (rule_filter r) then rule_allow r else doc_eval d rules s
  end.

(** The rules an operation of an identity is checked against, and the default. *)
Definition rules_for (acl : option TopicAcl) (fp : list Z) (op : TopicOp) : list TopicRule :=
  match acl with
  | None => []
  | Some a =>
      match by_fp_ a !! fp_key fp with
      | None => []
      | Some e => match op with kPublish => publish_rules e | kSubscribe => subscribe_rules e end
      end
  end.

Definition doc_allows (acl : option TopicAcl) (fp : list Z) (op : TopicOp) (s : list Z) : bool :=
  doc_eval (match acl with None => true | Some a => default_allow_ a end) (rules_for acl fp op) s.

(** The name is what comes before the final ['#'] of the filter. *)
Definition hash_parent (name filter : list Z) : bool :=
  bool_decide (last (segs filter) = Some seg_hash) && levels_match0 (segs name) (removelast (segs filter)).

Lemma levels_match_doc fs : forall ts, filter_segs_ok fs = true ->
  bool_decide (last fs = Some seg_hash) && levels_match0 ts (removelast fs) = false ->
  levels_match ts fs = levels_match0 ts fs.
Proof.
  induction fs as [|f fs IH]; intros [|t ts] Hf Hp; cbn [levels_match levels_match0]; [done..| |].
  - destruct (bool_decide_reflect (f = seg_hash)) as [->|]; [|done]. cbn [filter_segs_ok] in Hf.
    rewrite bool_decide_false in Hf by done. rewrite bool_decide_true in Hf by done. apply bool_decide_eq_true in Hf as ->. done.
  - destruct (bool_decide_reflect (f = seg_hash)) as [->|Hn]; [done|]. cbn [orb].
    destruct (bool_decide (f = seg_plus) || bool_decide (f = t)) eqn:Em; [|done]. cbn [andb]. apply IH.
    + cbn [filter_segs_ok] in Hf. destruct (bool_decide (f = seg_plus)); [done|].
      rewrite (bool_decide_false (f = seg_hash)) in Hf by done. by apply andb_prop in Hf as [_ ?].
    + destruct fs as [|f' fs]; [done|]. rewrite last_cons_cons in Hp.
      change (removelast (f :: f' :: fs)) with (f :: removelast (f' :: fs)) in Hp. cbn [levels_match0] in Hp.
      rewrite (bool_decide_false (f = seg_hash)), Em in Hp by done. exact Hp.
Qed.

Lemma matches_doc name filter : hash_parent name filter = false -> topic_matches_filter name filter = doc_matches name filter.
Proof.
  intros Hp. unfold topic_matches_filter, doc_matches. destruct (topic_ok name); [|done].
  destruct (filter_ok filter) eqn:Ef; [|done]. cbn [andb]. apply andb_prop in Ef as [_ Ef]. by apply levels_match_doc.
Qed.

Definition rules_clear (rules : list TopicRule) (name : list Z) : Prop :=
  Forall (fun r => hash_parent name (rule_filter r) = false) rules.

Lemma allows_doc acl fp op name : rules_clear (rules_for acl fp op) name -> spec_allows acl fp op name = doc_allows acl fp op name.
Proof.
  intros Hc. unfold spec_allows, doc_allows in *. unfold rules_for in *. destruct acl as [a|]; [|done].
  destruct (by_fp_ a !! fp_key fp) as [e|]; [|done].
  revert Hc. generalize (match op with kPublish => publish_rules e | kSubscribe => subscribe_rules e end).
  induction l as [|r l IH]; [done|]. intros [Hr Hc]%Forall_cons. cbn [spec_eval doc_eval]. by rewrite (matches_doc _ _ Hr), IH.
Qed.

(** The broker's calls, the calls on the rules it shares, and what each returns. *)
Inductive broker_op :=
| BPublish (fp topic payload : list Z) (retain : bool)
| BSubscribe (fp : list Z) (id : Z) (filter : list Z)
| BUnsubscribe (id : Z) (filter : list Z)
| BDrop (id : Z)
| BSetAcl (acl : option TopicAcl).

Inductive broker_out := BDeliver (ds : list PubSubDelivery) | BBool (b : bool) | BNum (n : Z) | BUnit.

(** Deliveries are compared up to order. *)
Definition out_equiv (r r' : broker_out) : Prop :=
  match r, r' with BDeliver ds, BDeliver ds' => ds ≡ₚ ds' | _, _ => r = r' end.

#[export] Instance out_equiv_refl : Reflexive out_equiv.
Proof. intros []; cbn; reflexivity. Qed.

(** The abstract broker: the accepted subscriptions, the retained messages and the rules. *)
Record spec_broker := mk_spec { sp_subs : gset (list Z * Z); sp_kept : gmap (list Z) (list Z); sp_acl : option TopicAcl }.

Definition spec_broker_step (b : spec_broker) (o : broker_op) : broker_out * spec_broker :=
  match o with
  | BPublish fp topic payload retain =>
      if topic_ok topic && spec_allows (sp_acl b) fp kPublish topic then
        (BDeliver (map (fun s => mk_delivery s topic payload false) (elements (spec_matching (sp_subs b) topic))),
         mk_spec (sp_subs b) (if retain then <[topic := payload]> (sp_kept b) else sp_kept b) (sp_acl b))
      else (BDeliver [], b)
  | BSubscribe fp id filter =>
      if filter_ok filter && spec_allows (sp_acl b) fp kSubscribe filter then
        (BDeliver (map (fun m => mk_delivery id m.1 m.2 true)
           (base.filter (fun m => topic_matches_filter m.1 filter = true) (map_to_list (sp_kept b)))),
         mk_spec ({[(filter, id)]} ∪ sp_subs b) (sp_kept b) (sp_acl b))
      else (BDeliver [], b)
  | BUnsubscribe id filter =>
      (BBool (bool_decide ((filter, id) ∈ sp_subs b)),
       mk_spec (sp_subs b ∖ {[(filter, id)]}) (sp_kept b) (sp_acl b))
  | BDrop id =>
      let S' := base.filter (fun e => e.2 <> id) (sp_subs b) in
      (BNum (u64 (Z.of_nat (size (sp_subs b)) - Z.of_nat (size S'))), mk_spec S' (sp_kept b) (sp_acl b))
  | BSetAcl acl => (BUnit, mk_spec (sp_subs b) (sp_kept b) acl)
  end.

(** The same step with the documented matching. *)
Definition doc_broker_step (b : spec_broker) (o : broker_op) : broker_out * spec_broker :=
  match o with
  | BPublish fp topic payload retain =>
      if topic_ok topic && doc_allows (sp_acl b) fp kPublish topic then
        (BDeliver (map (fun s => mk_delivery s topic payload false) (elements (spec_matching (sp_subs b) topic))),
         mk_spec (sp_subs b) (if retain then <[topic := payload]> (sp_kept b) else sp_kept b) (sp_acl b))
      else (BDeliver [], b)
  | BSubscribe fp id filter =>
      if filter_ok filter && doc_allows (sp_acl b) fp kSubscribe filter then
        (BDeliver (map (fun m => mk_delivery id m.1 m.2 true)
           (base.filter (fun m => doc_matches m.1 filter = true) (map_to_list (sp_kept b)))),
         mk_spec ({[(filter, id)]} ∪ sp_subs b) (sp_kept b) (sp_acl b))
      else (BDeliver [], b)
  | _ => spec_broker_step b o
  end.

Fixpoint doc_broker_run (s : spec_broker) (os : list broker_op) : list broker_out * spec_broker :=
  match os with
  | [] => ([], s)
  | o :: os =>
      let '(r, s1) := doc_broker_step s o in
      let '(rs, s2) := doc_broker_run s1 os in (r :: rs, s2)
  end.

(** No name the matcher is given is the parent of a filter it is compared with. *)
Definition step_clear (s : spec_broker) (o : broker_op) : Prop :=
  match o with
  | BPublish fp topic _ _ => rules_clear (rules_for (sp_acl s) fp kPublish) topic
  | BSubscribe fp _ filter =>
      rules_clear (rules_for (sp_acl s) fp kSubscribe) filter /\
      Forall (fun m => hash_parent m.1 filter = false) (map_to_list (sp_kept s))
  | _ => True
  end.

Fixpoint run_clear (s : spec_broker) (os : list broker_op) : Prop :=
  match os with [] => True | o :: os => step_clear s o /\ run_clear (doc_broker_step s o).2 os end.

Lemma filter_doc (filter : list Z) (l : list (list Z * list Z)) : Forall (fun m => hash_parent m.1 filter = false) l ->
  base.filter (fun m => topic_matches_filter m.1 filter = true) l = base.filter (fun m => doc_matches m.1 filter = true) l.
Proof.
  induction l as [|m l IH]; [done|]. intros [Hm Hl]%Forall_cons. rewrite !filter_cons, IH by done.
  by rewrite (matches_doc _ _ Hm).
Qed.

Lemma doc_step_clear s o : step_clear s o -> doc_broker_step s o = spec_broker_step s o.
Proof.
  destruct o as [fp topic payload retain|fp id filter|id filter|id|acl]; intros Hc; cbn [doc_broker_step spec_broker_step]; try done.
  - by rewrite allows_doc.
  - destruct Hc as [Hr Hk]. by rewrite (allows_doc _ _ _ _ Hr), (filter_doc _ _ Hk).
Qed.

Definition broker_op_ok (o : broker_op) : Prop :=
  match o with BUnsubscribe _ f => filter_ok f = true | _ => True end.

Definition broker_abs (b : PubSubBroker) (s : spec_broker) : Prop :=
  trie_abs (trie_ b) (sp_subs s) /\ retained_ b = sp_kept s /\ acl_ b = sp_acl s.

Lemma new_broker_abs acl : broker_abs (new_broker acl) (mk_spec ∅ ∅ acl).
Proof. split; [|done]. split; [intros e ?; set_solver|]. cbn. rewrite set_map_empty. apply new_trie_repr. Qed.

Section refinement.
Context (sub_order : gset Z -> list Z) (map_order : gmap (list Z) (list Z) -> list (list Z * list Z)).
Context (Hsub : forall s, sub_order s ≡ₚ elements s) (Hmap : forall m, map_order m ≡ₚ map_to_list m).

Definition broker_step (b : PubSubBroker) (o : broker_op) : M (broker_out * PubSubBroker) :=
  match o with
  | BPublish fp topic payload retain =>
      let! '(ds, b) := publish sub_order b fp topic payload retain in Ok (BDeliver ds, b)
  | BSubscribe fp id filter =>
      let! '(ds, b) := broker_subscribe map_order b fp id filter in Ok (BDeliver ds, b)
  | BUnsubscribe id filter => let! '(ok, b) := broker_unsubscribe b id filter in Ok (BBool ok, b)
  | BDrop id => let '(n, b) := drop_subscriber b id in Ok (BNum n, b)
  | BSetAcl acl => Ok (BUnit, mk_broker acl (trie_ b) (retained_ b) (bstats_ b))
  end.

Fixpoint broker_run (b : PubSubBroker) (os : list broker_op) : M (list broker_out * PubSubBroker) :=
  match os with
  | [] => Ok ([], b)
  | o :: os =>
      let! '(r, b) := broker_step b o in
      let! '(rs, b) := broker_run b os in Ok (r :: rs, b)
  end.

Fixpoint spec_broker_run (s : spec_broker) (os : list broker_op) : list broker_out * spec_broker :=
  match os with
  | [] => ([], s)
  | o :: os =>
      let '(r, s1) := spec_broker_step s o in
      let '(rs, s2) := spec_broker_run s1 os in (r :: rs, s2)
  end.

Lemma replay_loop_spec kept id filter :
  replay_loop kept id filter =
  Ok (map (fun m => mk_delivery id m.1 m.2 true)
        (base.filter (fun m => topic_matches_filter m.1 filter = true) kept)).
Proof.
  induction kept as [|[t p] kept IH]; [done|]. cbn [replay_loop]. rewrite topic_matches_spec, IH.
  rewrite filter_cons. cbn [fst]. fold (topic_matches_filter t filter).
  destruct (topic_matches_filter t filter) eqn:E; [rewrite decide_True by done|rewrite decide_False by done]; done.
Qed.

Lemma publish_refines b s fp topic payload retain :
  broker_abs b s ->
  let '(r, s') := spec_broker_step s (BPublish fp topic payload retain) in
  exists ds b', publish sub_order b fp topic payload retain = Ok (ds, b') /\
    out_equiv (BDeliver ds) r /\ broker_abs b' s'.
Proof.
  intros (Ht & Hk & Ha). cbn [spec_broker_step]. unfold publish. rewrite valid_publish_spec, <- Ha, <- Hk.
  destruct (topic_ok topic); cbn [negb andb]; [|eexists _, _; done].
  rewrite acl_refuses_spec. destruct (spec_allows _ _ _ _); cbn [negb]; [|eexists _, _; done].
  rewrite (match_abs _ _ _ Ht). pose proof (Hsub (spec_matching (sp_subs s) topic)) as Hp.
  destruct (sub_order _) as [|x xs]; eexists _, _; (split; [reflexivity|]); (split; [|done]); cbn [out_equiv].
  - apply Permutation_nil in Hp. by rewrite Hp.
  - by apply (fmap_Permutation (fun i => mk_delivery i topic payload false)).
Qed.

Lemma subscribe_refines b s fp id filter :
  broker_abs b s ->
  let '(r, s') := spec_broker_step s (BSubscribe fp id filter) in
  exists ds b', broker_subscribe map_order b fp id filter = Ok (ds, b') /\
    out_equiv (BDeliver ds) r /\ broker_abs b' s'.
Proof.
  intros (Ht & Hk & Ha). cbn [spec_broker_step]. unfold broker_subscribe. rewrite valid_filter_spec, <- Ha, <- Hk.
  destruct (filter_ok filter) eqn:Ef; cbn [negb andb]; [|eexists _, _; done].
  rewrite acl_refuses_spec. destruct (spec_allows _ _ _ _); cbn [negb]; [|eexists _, _; done].
  destruct (trie_step_refines _ _ (TSubscribe filter id) Ht Ef) as (t' & E & Ht').
  cbn in E. destruct (subscribe (trie_ b) filter id) as [[ok t1]|]; [|done]. injection E as _ ->.
  rewrite replay_loop_spec. eexists _, _. split; [reflexivity|]. split; [|done]. cbn [out_equiv].
  apply fmap_Permutation. by rewrite Hmap.
Qed.

Lemma broker_step_refines b s o :
  broker_abs b s -> broker_op_ok o ->
  exists r b', broker_step b o = Ok (r, b') /\ out_equiv r (spec_broker_step s o).1 /\
    broker_abs b' (spec_broker_step s o).2.
Proof.
  intros Hb Ho. destruct o as [fp topic payload retain|fp id filter|id filter|id|acl]; cbn [broker_step].
  - pose proof (publish_refines b s fp topic payload retain Hb) as H.
    destruct (spec_broker_step _ _). destruct H as (ds & b' & -> & H). eauto.
  - pose proof (subscribe_refines b s fp id filter Hb) as H.
    destruct (spec_broker_step _ _). destruct H as (ds & b' & -> & H). eauto.
  - destruct Hb as (Ht & Hk & Ha). unfold broker_unsubscribe.
    destruct (trie_step_refines _ _ (TUnsubscribe filter id) Ht Ho) as (t' & E & Ht').
    cbn in E. destruct (unsubscribe (trie_ b) filter id) as [[ok t1]|]; [|done]. injection E as -> ->.
    eexists _, _. by split.
  - destruct Hb as (Ht & Hk & Ha). unfold drop_subscriber.
    destruct (trie_step_refines _ _ (TDrop id) Ht I) as (t' & E & Ht').
    cbn in E. destruct (unsubscribe_all (trie_ b) id) as [n t1]. injection E as -> ->.
    eexists _, _. by split.
  - destruct Hb as (Ht & Hk & Ha). eexists _, _. by split.
Qed.

Lemma doc_run_clear os : forall s, run_clear s os -> doc_broker_run s os = spec_broker_run s os.
Proof.
  induction os as [|o os IH]; intros s; [done|]. cbn [run_clear doc_broker_run spec_broker_run]. intros [Ho Hc].
  rewrite (doc_step_clear s o Ho) in *. destruct (spec_broker_step s o) as [x s1]. by rewrite IH.
Qed.

(** What the broker does in terms of the matcher the code calls. *)
Lemma broker_run_refines acl os :
  Forall broker_op_ok os ->
  exists rs b, broker_run (new_broker acl) os = Ok (rs, b) /\
    Forall2 out_equiv rs (spec_broker_run (mk_spec ∅ ∅ acl) os).1.
Proof.
  assert (Hgen : forall b s, broker_abs b s -> Forall broker_op_ok os ->
    exists rs b', broker_run b os = Ok (rs, b') /\ Forall2 out_equiv rs (spec_broker_run s os).1).
  { induction os as [|o os IH]; intros b s Hb Hos; [eexists _, _; by split; [|constructor]|].
    apply Forall_cons_1 in Hos as [Ho Hos].
    destruct (broker_step_refines b s o Hb Ho) as (r & b1 & E1 & Hr & Hb1).
    cbn [broker_run spec_broker_run]. rewrite E1. destruct (spec_broker_step s o) as [r' s1]. cbn in *.
    destruct (IH b1 s1 Hb1 Hos) as (rs & b2 & E2 & Hrs). rewrite E2. destruct (spec_broker_run s1 os).
    eexists _, _. split; [reflexivity|]. by constructor. }
  intros Hos. apply Hgen; [apply new_broker_abs|done].
Qed.

End refinement.

Definition fp_a : list Z := replicate 32 1.
Definition str_hash : list Z := [35].
Definition deny_a_acl : TopicAcl :=
  acl_deny (set_default_allow new_acl true) fp_a kSubscribe str_a_b.

Definition demo_broker_ops : list broker_op :=
  [BSubscribe fp_a 1 str_a_b_hash; BPublish fp_a str_a_b [9] true; BSubscribe fp_a 2 str_hash; BUnsubscribe 1 str_a_b_hash].


(** The rules are matched against the requested filter as if it were a topic name, and a name
    with a wildcard matches no rule: under the default-allow policy an identity that is denied
    ["a/b"] still gets it by subscribing to ["#"]. *)
Lemma wildcard_bypasses_deny :
  acl_check deny_a_acl fp_a kSubscribe str_a_b = Ok false /\
  acl_check deny_a_acl fp_a kSubscribe str_hash = Ok true /\
  (let! '(_, b) := broker_subscribe map_to_list (new_broker (Some deny_a_acl)) fp_a 7 str_hash in
   let! '(ds, _) := publish elements b fp_a str_a_b [42] false in Ok ds) =
  Ok [mk_delivery 7 str_a_b [42] false].
Proof. split_and!; vm_compute; reflexivity. Qed.

(** Conversely no allow rule, not even ["#"] itself, ever permits a wildcard subscription. *)
Lemma wildcard_never_allowed_by_rule d rules f :
  topic_ok f = false -> eval d rules f = Ok d.
Proof.
  intros Hf. rewrite eval_spec. induction rules as [|r rules IH]; [done|]. cbn [spec_eval].
  unfold topic_matches_filter. rewrite Hf. cbn [andb]. done.
Qed.
