(* ===== verification/Stdio.v ===== *)
(** The part of C stdio the storage modules use: a stream is the contents of its file and a
    position. Reads stop at the end of the file; writes of a stream opened for appending go to
    the end, and only as far as the disk has room for. *)

From S2P Require Import Prelude.
Local Open Scope Z_scope.

Record FILE := mk_file { contents : list Z; fpos : Z }.

Definition fread (f : FILE) (n : Z) : list Z * FILE :=
  let bs := take (Z.to_nat n) (drop (Z.to_nat (fpos f)) (contents f)) in
  (bs, mk_file (contents f) (fpos f + len bs)).

(** [(long)v] for an unsigned 64-bit [v]. *)
Definition to_long (v : Z) : Z := if v <? 2 ^ 63 then v else v - 2 ^ 64.

(** [None] is the error return. *)
Definition fseek_set (f : FILE) (off : Z) : option FILE :=
  if off <? 0 then None else Some (mk_file (contents f) off).
Definition fseek_cur (f : FILE) (off : Z) : option FILE := fseek_set f (fpos f + off).
Definition fseek_end (f : FILE) : FILE := mk_file (contents f) (len (contents f)).
Definition ftell (f : FILE) : Z := fpos f.

(** [fwrite] on a stream opened with ["a"]; [room] is the size the file can grow to. Returns
    the number of bytes written. *)
Definition fwrite (room : Z) (f : FILE) (bs : list Z) : Z * FILE :=
  let w := take (Z.to_nat (room - len (contents f))) bs in
  (len w, mk_file (contents f ++ w) (len (contents f ++ w))).

Lemma fread_app pre bs post n :
  n = len bs ->
  fread (mk_file (pre ++ bs ++ post) (len pre)) n = (bs, mk_file (pre ++ bs ++ post) (len (pre ++ bs))).
Proof.
  intros ->. unfold fread. cbn [fpos contents]. rewrite drop_len_app, take_len_app. by rewrite len_app.
Qed.

(** Reading at the split of the contents: what comes back is a prefix of the rest. *)
Lemma fread_at pre l n :
  0 <= n ->
  fread (mk_file (pre ++ l) (len pre)) n =
  (take (Z.to_nat n) l, mk_file (pre ++ l) (len (pre ++ take (Z.to_nat n) l))).
Proof. intros. unfold fread. cbn [fpos contents]. rewrite drop_len_app, len_app. done. Qed.

(** A read that got everything it asked for. *)
Lemma take_all {A} n (l : list A) : 0 <= n -> len (take (Z.to_nat n) l) = n -> n <= len l.
Proof. intros Hn. unfold len. rewrite length_take. lia. Qed.
Lemma take_some {A} n (l : list A) : 0 <= n -> len (take (Z.to_nat n) l) <> n -> len l < n.
Proof. intros Hn. unfold len. rewrite length_take. lia. Qed.

Lemma fwrite_fits room f bs :
  len (contents f) + len bs <= room ->
  fwrite room f bs = (len bs, mk_file (contents f ++ bs) (len (contents f ++ bs))).
Proof.
  intros H. unfold fwrite. rewrite take_ge by (unfold len in *; lia). done.
Qed.

Lemma fwrite_full room f bs :
  (fwrite room f bs).1 = len bs -> (fwrite room f bs).2 = mk_file (contents f ++ bs) (len (contents f ++ bs)).
Proof.
  unfold fwrite. cbn [fst snd]. intros H.
  assert (E : take (Z.to_nat (room - len (contents f))) bs = bs).
  { apply take_ge. unfold len in *. rewrite length_take in H. lia. }
  by rewrite E.
Qed.
