(* ===== verification/AuditLog.v ===== *)
(** The hash-chained audit log ([src/sl_audit_log.c]): every entry carries the SHA-256 digest
    of the previous digest, its header and its payload. Time, the room on the disk and the hash
    are arguments. *)

From S2P Require Import Prelude ByteOrder Codec Stdio KeySched.
Local Open Scope Z_scope.

Definition SHA256_DIGEST_LENGTH : Z := 32.
Definition zero_hash : list Z := replicate 32 0.

(* src/src/sl_audit_log.c:9-12 *)
Record sl_audit_log := mk_audit { audit_fp : FILE; prev_hash : list Z }.

Section audit.
Context `{Hash}.

(** [None] for a file that cannot be opened; [readable] is the outcome of the second [fopen]. *)
(* src/src/sl_audit_log.c:30-49 *)
Definition sl_audit_log_open (file : option (list Z)) (readable : bool) : option sl_audit_log :=
  match file with
  | None => None
  | Some c =>
      let fp := mk_file c (len c) in
      if readable then
        let size := ftell (fseek_end (mk_file c 0)) in
        if SHA256_DIGEST_LENGTH <=? size then
          match fseek_set (mk_file c 0) (size - SHA256_DIGEST_LENGTH) with
          | Some r => Some (mk_audit fp (fread r SHA256_DIGEST_LENGTH).1)
          | None => Some (mk_audit fp (fread (mk_file c size) SHA256_DIGEST_LENGTH).1)
          end
        else Some (mk_audit fp zero_hash)
      else Some (mk_audit fp zero_hash)
  end.

(** The return code and the log. *)
(* src/src/sl_audit_log.c:57-85 *)
Definition sl_audit_log_append (now room : Z) (L : sl_audit_log) (event : Z) (payload : option (list Z))
  : M (Z * sl_audit_log) :=
  let payload := default [] payload in
  let plen := len payload in
  if 1024 <? plen then Ok (-1, L)
  else
    let! header := pack_u64_be (replicate 16 0) 0 now in
    let! header := pack_u32_be header 8 event in
    let! header := pack_u32_be header 12 (u32 plen) in
    let new_hash := sha256 (prev_hash L ++ header ++ payload) in
    let '(n, fp) := fwrite room (audit_fp L) header in
    if negb (n =? len header) then Ok (-1, mk_audit fp (prev_hash L))
    else
      let '(n, fp) := if 0 <? plen then fwrite room fp payload else (plen, fp) in
      if negb (n =? plen) then Ok (-1, mk_audit fp (prev_hash L))
      else
        let '(n, fp) := fwrite room fp new_hash in
        if negb (n =? len new_hash) then Ok (-1, mk_audit fp (prev_hash L))
        else Ok (0, mk_audit fp new_hash).

(** The [while] loop of the verifier; a round consumes at least 48 bytes. *)
(* src/src/sl_audit_log.c:95-123 sl_audit_log_verify *)
Fixpoint verify_loop (fuel : nat) (fp : FILE) (prev : list Z) : M Z :=
  match fuel with
  | O => Fault
  | S fuel =>
      let '(header, fp) := fread fp 16 in
      if negb (len header =? 16) then Ok 0
      else
        let! plen := unpack_u32_be header 12 in
        if 1024 <? plen then Ok (-1)
        else
          let '(payload, fp) := if 0 <? plen then fread fp plen else ([], fp) in
          if (0 <? plen) && negb (len payload =? plen) then Ok (-1)
          else
            let '(stored, fp) := fread fp SHA256_DIGEST_LENGTH in
            if negb (len stored =? SHA256_DIGEST_LENGTH) then Ok (-1)
            else
              let computed := sha256 (prev ++ header ++ payload) in
              if negb (bool_decide (stored = computed)) then Ok (-1)
              else verify_loop fuel fp computed
  end.

(* src/src/sl_audit_log.c:87-126 *)
Definition sl_audit_log_verify (file : option (list Z)) : M Z :=
  match file with
  | None => Ok (-1)
  | Some c => verify_loop (S (length c)) (mk_file c 0) zero_hash
  end.

(** ** Chains *)

(** An entry is its 16-byte header and its payload. *)
Definition audit_entry : Type := list Z * list Z.

Definition audit_header (now event plen : Z) : list Z := be64 now ++ be32 event ++ be32 plen.

Definition entry_ok (e : audit_entry) : Prop :=
  exists a, len a = 12 /\ bytes_ok a /\ e.1 = a ++ be32 (len e.2) /\ len e.2 <= 1024 /\ bytes_ok e.2.

Definition entry_digest (prev : list Z) (e : audit_entry) : list Z := sha256 (prev ++ e.1 ++ e.2).

Fixpoint chain_file (prev : list Z) (es : list audit_entry) : list Z :=
  match es with
  | [] => []
  | e :: es => e.1 ++ e.2 ++ entry_digest prev e ++ chain_file (entry_digest prev e) es
  end.

Definition chain_last (prev : list Z) (es : list audit_entry) : list Z := foldl entry_digest prev es.

Lemma chain_file_app prev es es' :
  chain_file prev (es ++ es') = chain_file prev es ++ chain_file (chain_last prev es) es'.
Proof.
  revert prev. induction es as [|e es IH]; intros prev; [done|]. cbn. by rewrite IH, <- !app_assoc.
Qed.

Context `{!HashLaws}.

Lemma len_digest prev e : len (entry_digest prev e) = 32.
Proof. apply sha256_ok. Qed.

Lemma unpack_len a n : len a = 12 -> is_u32 n -> unpack_u32_be (a ++ be32 n) 12 = Ok n.
Proof. intros Ha Hn. pose proof (unpack_u32_at a [] n 12) as E. rewrite app_nil_r in E. by apply E. Qed.

(** One round on a well-formed entry. *)
Lemma verify_step fuel pre e rest prev :
  entry_ok e ->
  verify_loop (S fuel) (mk_file (pre ++ e.1 ++ e.2 ++ entry_digest prev e ++ rest) (len pre)) prev =
  verify_loop fuel (mk_file (pre ++ e.1 ++ e.2 ++ entry_digest prev e ++ rest)
                     (len (pre ++ e.1 ++ e.2 ++ entry_digest prev e))) (entry_digest prev e).
Proof.
  intros (a & Ha & _ & Eh & Hp & _). destruct e as [h p]. cbn [fst snd] in *. cbn [verify_loop].
  assert (Hh : len h = 16) by (rewrite Eh; len_lia).
  rewrite (fread_app pre h) by done. rewrite Hh. cbn [Z.eqb Pos.eqb negb].
  pose proof (len_nonneg p).
  rewrite Eh at 1. rewrite unpack_len by lia.
  destruct (Z.ltb_spec 1024 (len p)); [lia|].
  set (d := entry_digest prev (h, p)). assert (Hd : len d = 32) by apply len_digest.
  assert (Ep : (if 0 <? len p then fread (mk_file (pre ++ h ++ p ++ d ++ rest) (len (pre ++ h))) (len p)
     else ([], mk_file (pre ++ h ++ p ++ d ++ rest) (len (pre ++ h)))) =
     (p, mk_file (pre ++ h ++ p ++ d ++ rest) (len (pre ++ h ++ p)))).
  { destruct (Z.ltb_spec 0 (len p)).
    - rewrite (app_assoc pre h), fread_app by done. by rewrite <- !app_assoc.
    - rewrite (len_0_nil p) by lia. by rewrite app_nil_r. }
  rewrite Ep. rewrite Z.eqb_refl, andb_false_r.
  replace (pre ++ h ++ p ++ d ++ rest) with ((pre ++ h ++ p) ++ d ++ rest) by (by rewrite <- !app_assoc).
  rewrite fread_app by done. rewrite Hd. change (32 =? SHA256_DIGEST_LENGTH) with true. cbn [negb].
  rewrite bool_decide_eq_true_2 by done. cbn [negb]. by rewrite <- !app_assoc.
Qed.

Lemma len_entry e prev : entry_ok e -> 48 <= len (e.1 ++ e.2 ++ entry_digest prev e).
Proof.
  intros (a & Ha & _ & -> & _). pose proof (len_digest prev e). pose proof (len_nonneg e.2).
  rewrite !len_app. change (len (be32 (len e.2))) with 4. lia.
Qed.

Lemma verify_complete es : forall fuel pre prev tail,
  Forall entry_ok es -> len tail < 16 -> (length es < fuel)%nat ->
  verify_loop fuel (mk_file (pre ++ chain_file prev es ++ tail) (len pre)) prev = Ok 0.
Proof.
  induction es as [|e es IH]; intros fuel pre prev tail Hes Ht Hf; (destruct fuel as [|fuel]; [cbn in Hf; lia|]).
  - cbn [verify_loop chain_file app]. rewrite fread_at by lia.
    rewrite (proj2 (Z.eqb_neq (len (take _ _)) 16)); [done|]. unfold len in *. rewrite length_take. lia.
  - apply Forall_cons_1 in Hes as [He Hes]. cbn [chain_file]. rewrite <- !app_assoc.
    rewrite verify_step by done.
    replace (pre ++ e.1 ++ e.2 ++ entry_digest prev e ++ chain_file (entry_digest prev e) es ++ tail)
      with ((pre ++ e.1 ++ e.2 ++ entry_digest prev e) ++ chain_file (entry_digest prev e) es ++ tail)
      by (by rewrite <- !app_assoc).
    apply IH; [done|done|]. cbn in Hf. lia.
Qed.

(** The header a round reads: twelve bytes and the length of the payload. *)
Lemma header_split h :
  len h = 16 -> bytes_ok h ->
  exists plen, unpack_u32_be h 12 = Ok plen /\ is_u32 plen /\ h = take 12 h ++ be32 plen.
Proof.
  intros Hh Bh. destruct (unpack_u32_sound h 12) as (plen & E & Hpl & Ed); [done|lia|lia|].
  replace (drop (Z.to_nat (12 + 4)) h) with (@nil Z) in Ed
    by (symmetry; apply drop_ge; unfold len in Hh; lia).
  rewrite app_nil_r in Ed. exists plen. split_and!; [done|lia|lia|]. rewrite <- Ed. symmetry. apply take_drop.
Qed.

(** The payload a round reads. *)
Lemma payload_read pre l plen :
  0 <= plen ->
  (if 0 <? plen then fread (mk_file (pre ++ l) (len pre)) plen else ([], mk_file (pre ++ l) (len pre))) =
  (take (Z.to_nat plen) l, mk_file (pre ++ l) (len (pre ++ take (Z.to_nat plen) l))).
Proof.
  intros. destruct (Z.ltb_spec 0 plen); [by rewrite fread_at by lia|].
  replace plen with 0 by lia. by rewrite app_nil_r.
Qed.

(** What a round can find. *)
Lemma verify_round fuel pre l prev :
  bytes_ok l ->
  let run := verify_loop (S fuel) (mk_file (pre ++ l) (len pre)) prev in
  run = Ok 0 /\ len l < 16 \/ run = Ok (-1) \/
  exists e l', entry_ok e /\ l = e.1 ++ e.2 ++ entry_digest prev e ++ l'.
Proof.
  intros Hb run. unfold run. cbn [verify_loop]. rewrite fread_at by lia. rewrite <- (take_drop (Z.to_nat 16) l) in Hb.
  destruct (Z.eqb_spec (len (take (Z.to_nat 16) l)) 16) as [Hh|Hh]; cbn [negb].
  2: { left. split; [done|]. by apply take_some in Hh; [|lia]. }
  pose proof (eq_sym (take_drop (Z.to_nat 16) l)) as El.
  set (h := take (Z.to_nat 16) l) in *. set (l1 := drop (Z.to_nat 16) l) in *. clearbody h l1.
  apply bytes_ok_app_inv in Hb as [Bh Bl1]. destruct (header_split h Hh Bh) as (plen & -> & Hpl & Eh).
  destruct (Z.ltb_spec 1024 plen); [by right; left|]. rewrite El, (app_assoc pre h l1), payload_read by lia.
  cbv beta iota. pose proof (eq_sym (take_drop (Z.to_nat plen) l1)) as El1.
  destruct (Z.eqb_spec (len (take (Z.to_nat plen) l1)) plen) as [Hp|Hp].
  2: { right. left. destruct (Z.ltb_spec 0 plen); [done|]. destruct Hp. by replace plen with 0 by lia. }
  rewrite andb_false_r. set (p := take (Z.to_nat plen) l1) in *. set (l2 := drop (Z.to_nat plen) l1) in *.
  clearbody p l2. rewrite El1 in Bl1. apply bytes_ok_app_inv in Bl1 as [Bp _].
  rewrite El1, app_assoc, fread_at by (unfold SHA256_DIGEST_LENGTH; lia).
  pose proof (eq_sym (take_drop (Z.to_nat SHA256_DIGEST_LENGTH) l2)) as El2.
  set (d := take _ l2) in *. set (l3 := drop _ l2) in *. clearbody d l3.
  destruct (negb (len d =? _)); [by right; left|].
  destruct (bool_decide_reflect (d = sha256 (prev ++ h ++ p))) as [Edg|]; cbn [negb]; [|by right; left].
  right. right. exists (h, p), l3. split.
  - exists (take 12 h). cbn [fst snd]. rewrite Hp. split_and!; try done.
    + unfold len in *. rewrite length_take. lia.
    + auto with bytes.
  - cbn [fst snd]. change (entry_digest prev (h, p)) with (sha256 (prev ++ h ++ p)).
    rewrite <- Edg, El2. done.
Qed.

(** The loop always ends with a verdict, and a good one means a chain. *)
Lemma verify_sound fuel : forall pre l prev,
  bytes_ok l -> (length l < fuel)%nat ->
  exists r, verify_loop fuel (mk_file (pre ++ l) (len pre)) prev = Ok r /\
    (r = 0 -> exists es tail, l = chain_file prev es ++ tail /\ Forall entry_ok es /\ len tail < 16).
Proof.
  induction fuel as [|fuel IH]; intros pre l prev Hb Hf; [lia|].
  destruct (verify_round fuel pre l prev Hb) as [[E Hl]|[E|(e & l' & He & El)]].
  - exists 0. split; [done|]. intros _. by exists [], l.
  - exists (-1). split; [done|lia].
  - pose proof (len_entry e prev He) as Hlen. subst l. rewrite verify_step by done.
    destruct (IH (pre ++ e.1 ++ e.2 ++ entry_digest prev e) l' (entry_digest prev e)) as (r & E & Hr).
    { by repeat (apply bytes_ok_app_inv in Hb as [_ Hb]). }
    { rewrite !app_assoc in Hf. rewrite length_app in Hf. rewrite <- !app_assoc in Hf. unfold len in Hlen. lia. }
    rewrite <- !app_assoc in E. exists r. split; [done|]. intros E0. destruct (Hr E0) as (es & tail & -> & Hes & Ht).
    exists (e :: es), tail. cbn [chain_file]. rewrite <- !app_assoc. split_and!; [done|by constructor|done].
Qed.

(** ** Appending *)

Definition audit_repr (L : sl_audit_log) (es : list audit_entry) : Prop :=
  contents (audit_fp L) = chain_file zero_hash es /\ prev_hash L = chain_last zero_hash es /\ Forall entry_ok es.

Definition new_entry (now event : Z) (p : list Z) : audit_entry := (audit_header now event (len p), p).

Lemma bytes_ok_be32 v : bytes_ok (be32 v).
Proof. unfold be32. repeat constructor; apply u8_range. Qed.
Lemma bytes_ok_be64 v : bytes_ok (be64 v).
Proof. apply bytes_ok_app; apply bytes_ok_be32. Qed.

Lemma new_entry_ok now event p : len p <= 1024 -> bytes_ok p -> entry_ok (new_entry now event p).
Proof.
  intros. exists (be64 now ++ be32 event). split_and!; try done.
  apply bytes_ok_app; [apply bytes_ok_be64|apply bytes_ok_be32].
Qed.

Lemma append_spec now room L event payload es :
  let p := default [] payload in
  audit_repr L es -> bytes_ok p -> len (contents (audit_fp L)) + 1072 <= room ->
  if decide (1024 < len p) then sl_audit_log_append now room L event payload = Ok (-1, L)
  else exists L', sl_audit_log_append now room L event payload = Ok (0, L') /\
         audit_repr L' (es ++ [new_entry now event p]) /\
         len (contents (audit_fp L')) <= len (contents (audit_fp L)) + 1072.
Proof.
  intros p (Hc & Hh & Hes) Hp Hroom. unfold sl_audit_log_append. fold p. pose proof (len_nonneg p).
  destruct (decide (1024 < len p)); [by rewrite (proj2 (Z.ltb_lt _ _)) by lia|].
  rewrite (proj2 (Z.ltb_ge _ _)) by lia. change (replicate 16 0) with ([] ++ replicate 16 0).
  rewrite pack_u64_append by done. cbv beta iota. rewrite pack_u32_append by done. cbv beta iota.
  rewrite pack_u32_append by done. cbv beta iota. cbn [drop replicate app].
  rewrite app_nil_r, u32_small, <- app_assoc by lia. fold (audit_header now event (len p)).
  set (h := audit_header now event (len p)). set (d := sha256 _).
  assert (Hlh : len h = 16) by done. assert (Hd : len d = 32) by apply sha256_ok.
  rewrite fwrite_fits by lia. rewrite Z.eqb_refl. cbn [negb contents].
  set (f1 := mk_file _ _).
  assert (Ep : (if 0 <? len p then fwrite room f1 p else (len p, f1)) =
    (len p, mk_file ((contents (audit_fp L) ++ h) ++ p) (len ((contents (audit_fp L) ++ h) ++ p)))).
  { destruct (Z.ltb_spec 0 (len p)).
    - apply fwrite_fits. unfold f1. cbn [contents]. rewrite len_app. lia.
    - rewrite (len_0_nil p) by lia. by rewrite app_nil_r. }
  rewrite Ep, Z.eqb_refl. cbn [negb]. rewrite fwrite_fits by (cbn [contents]; rewrite !len_app; lia).
  rewrite Z.eqb_refl. cbn [negb contents]. eexists. split; [reflexivity|].
  cbn [audit_fp prev_hash contents]. split; [|rewrite !len_app; lia].
  assert (Ed : entry_digest (chain_last zero_hash es) (new_entry now event p) = d) by (unfold d; by rewrite Hh).
  split_and!.
  - cbn [audit_fp contents]. rewrite chain_file_app. cbn [chain_file new_entry fst snd].
    fold (new_entry now event p). rewrite Ed, Hc, app_nil_r. by rewrite <- !app_assoc.
  - unfold chain_last. rewrite foldl_app. cbn. done.
  - apply Forall_app. split; [done|]. constructor; [|constructor]. apply new_entry_ok; [lia|done].
Qed.

Lemma chain_file_last es :
  es <> [] -> exists pre, chain_file zero_hash es = pre ++ chain_last zero_hash es /\ len (chain_last zero_hash es) = 32.
Proof.
  destruct es as [|e es _] using rev_ind; [done|]. intros _. rewrite chain_file_app. unfold chain_last.
  rewrite foldl_app. cbn [chain_file foldl]. rewrite app_nil_r.
  eexists (chain_file zero_hash es ++ e.1 ++ e.2). split; [by rewrite <- !app_assoc|apply len_digest].
Qed.

(** Opening the file again picks up the chain where it ended. *)
Lemma reopen_repr es :
  Forall entry_ok es ->
  exists L, sl_audit_log_open (Some (chain_file zero_hash es)) true = Some L /\ audit_repr L es.
Proof.
  intros Hes. unfold sl_audit_log_open, ftell, fseek_end. cbn [fpos contents].
  destruct (decide (es = [])) as [->|Hne]; [by eexists|].
  destruct (chain_file_last es Hne) as (pre & E & Hl). rewrite E. pose proof (len_nonneg pre).
  assert (Hlen : len (pre ++ chain_last zero_hash es) = len pre + 32) by (rewrite len_app; lia).
  unfold SHA256_DIGEST_LENGTH. rewrite Hlen, (proj2 (Z.leb_le _ _)) by lia.
  unfold fseek_set. rewrite (proj2 (Z.ltb_ge _ _)) by lia. cbn [contents].
  replace (len pre + 32 - 32) with (len pre) by lia.
  pose proof (fread_app pre (chain_last zero_hash es) [] 32 (eq_sym Hl)) as Er. rewrite app_nil_r in Er.
  rewrite Er. cbn [fst]. eexists. split; [reflexivity|]. by split.
Qed.

(** ** Sessions *)

Inductive audit_op := AAppend (now event : Z) (payload : option (list Z)) | AReopen.

Definition audit_step (room : Z) (L : sl_audit_log) (o : audit_op) : M (Z * sl_audit_log) :=
  match o with
  | AAppend now event payload => sl_audit_log_append now room L event payload
  | AReopen =>
      match sl_audit_log_open (Some (contents (audit_fp L))) true with
      | Some L => Ok (0, L)
      | None => Ok (-1, L)
      end
  end.

Fixpoint audit_run (room : Z) (L : sl_audit_log) (os : list audit_op) : M (list Z * sl_audit_log) :=
  match os with
  | [] => Ok ([], L)
  | o :: os =>
      let! '(r, L) := audit_step room L o in
      let! '(rs, L) := audit_run room L os in Ok (r :: rs, L)
  end.

Definition audit_op_ok (o : audit_op) : Prop :=
  match o with AAppend _ _ p => bytes_ok (default [] p) | AReopen => True end.

(** What the session should have recorded. *)
Definition audit_entries (os : list audit_op) : list audit_entry :=
  omap (fun o => match o with
                 | AAppend now event p =>
                     if decide (1024 < len (default [] p)) then None
                     else Some (new_entry now event (default [] p))
                 | AReopen => None
                 end) os.

Lemma audit_run_repr room os : forall L es,
  Forall audit_op_ok os -> audit_repr L es ->
  len (contents (audit_fp L)) + 1072 * len os <= room ->
  exists rs L', audit_run room L os = Ok (rs, L') /\ audit_repr L' (es ++ audit_entries os) /\ length rs = length os.
Proof.
  induction os as [|o os IH]; intros L es Hos HL Hroom.
  { exists [], L. cbn. by rewrite app_nil_r. }
  apply Forall_cons_1 in Hos as [Ho Hos]. rewrite len_cons in Hroom. pose proof (len_nonneg os) as Hn0.
  assert (Hnext : forall r L1 es1, audit_step room L o = Ok (r, L1) -> audit_repr L1 es1 ->
    len (contents (audit_fp L1)) <= len (contents (audit_fp L)) + 1072 ->
    es1 ++ audit_entries os = es ++ audit_entries (o :: os) ->
    exists rs L', audit_run room L (o :: os) = Ok (rs, L') /\ audit_repr L' (es ++ audit_entries (o :: os)) /\
      length rs = length (o :: os)).
  { intros r L1 es1 E1 H1 Hl1 Ees. destruct (IH L1 es1 Hos H1) as (rs & L2 & E2 & H2 & Hn); [lia|].
    exists (r :: rs), L2. cbn [audit_run]. rewrite E1, E2. rewrite <- Ees. split_and!; [done|done|]. cbn. lia. }
  destruct o as [now event payload|].
  - pose proof (append_spec now room L event payload es HL Ho ltac:(lia)) as Ha.
    cbn [audit_step] in Hnext. cbn [audit_entries omap list_omap] in Hnext |- *.
    destruct (decide (1024 < len (default [] payload))).
    + by apply (Hnext (-1) L es); [|done|lia|].
    + destruct Ha as (L1 & Ea & H1 & Hl1). apply (Hnext 0 L1 _ Ea H1 Hl1). by rewrite <- app_assoc.
  - destruct HL as (Hc & Hh & Hes). destruct (reopen_repr es Hes) as (L1 & E1 & H1).
    apply (Hnext 0 L1 es); [unfold audit_step; by rewrite Hc, E1|done| |done].
    destruct H1 as (-> & _). rewrite Hc. lia.
Qed.

(** ** Tampering *)

(** The inputs that are hashed along a chain. *)
Fixpoint chain_inputs (prev : list Z) (es : list audit_entry) : list (list Z) :=
  match es with
  | [] => []
  | e :: es => (prev ++ e.1 ++ e.2) :: chain_inputs (entry_digest prev e) es
  end.

Lemma chain_inputs_snoc e es : forall prev,
  chain_inputs prev (es ++ [e]) = chain_inputs prev es ++ [chain_last prev es ++ e.1 ++ e.2].
Proof. induction es as [|e' es IH]; intros prev; [done|]. cbn [app chain_inputs]. by rewrite IH. Qed.

(** What an undetected change would have to exhibit, among the inputs at hand: two that
    collide, or one whose digest is the zero block a chain starts from. *)
Definition sha256_broken (xs : list (list Z)) : Prop :=
  (exists x y, x ∈ xs /\ y ∈ xs /\ x <> y /\ sha256 x = sha256 y) \/ exists x, x ∈ xs /\ sha256 x = zero_hash.

Lemma sha256_broken_mono xs ys : xs ⊆ ys -> sha256_broken xs -> sha256_broken ys.
Proof. intros Hs [(x & y & Hx & Hy & Hn & E)|(x & Hx & E)]; [left; exists x, y|right; exists x]; auto. Qed.

Lemma entry_bytes_inj a b prev prev' :
  entry_ok a -> entry_ok b -> len prev = 32 -> len prev' = 32 ->
  prev ++ a.1 ++ a.2 = prev' ++ b.1 ++ b.2 -> prev = prev' /\ a = b.
Proof.
  intros (x & Hx & _ & Ea & _) (y & Hy & _ & Eb & _) Hp Hp' E.
  apply app_inj_1 in E as [-> E]; [|unfold len in *; lia].
  apply app_inj_1 in E as [E1 E2].
  - split; [done|]. destruct a, b. cbn in *. congruence.
  - rewrite Ea, Eb, !length_app. change (length (be32 (len a.2))) with 4%nat.
    change (length (be32 (len b.2))) with 4%nat. unfold len in *. lia.
Qed.

Lemma len_chain_last es : len (chain_last zero_hash es) = 32.
Proof.
  destruct es as [|e es _] using rev_ind; [done|]. unfold chain_last. rewrite foldl_app. apply len_digest.
Qed.

Lemma chain_last_inj es : forall es',
  Forall entry_ok es -> Forall entry_ok es' -> chain_last zero_hash es = chain_last zero_hash es' ->
  es = es' \/ sha256_broken (chain_inputs zero_hash es ++ chain_inputs zero_hash es').
Proof.
  assert (Hz : forall e l, chain_last zero_hash (l ++ [e]) = sha256 (chain_last zero_hash l ++ e.1 ++ e.2))
    by (intros; unfold chain_last; by rewrite foldl_app).
  induction es as [|e es IH] using rev_ind; intros es' Hes Hes' E;
    (destruct es' as [|e' es' _] using rev_ind; [try by left|]); rewrite ?Hz, ?chain_inputs_snoc in *.
  1,2: right; right; eexists; split; [|solve [exact E | symmetry; exact E]]; set_solver.
  apply Forall_app in Hes as [Hes [He _]%Forall_cons_1]. apply Forall_app in Hes' as [Hes' [He' _]%Forall_cons_1].
  destruct (decide (chain_last zero_hash es ++ e.1 ++ e.2 = chain_last zero_hash es' ++ e'.1 ++ e'.2)) as [Ex|Hx].
  - apply entry_bytes_inj in Ex as [El ->]; try done; try apply len_chain_last.
    destruct (IH es' Hes Hes' El) as [->|Hb]; [by left|right]. eapply sha256_broken_mono; [|exact Hb]. set_solver.
  - right. left. do 2 eexists. split_and!; [| |exact Hx|exact E]; set_solver.
Qed.

Lemma chain_file_long es : forall prev, Forall entry_ok es -> (length es <= length (chain_file prev es))%nat.
Proof.
  induction es as [|e es IH]; intros prev Hes; [done|]. apply Forall_cons_1 in Hes as [He Hes].
  cbn [chain_file]. pose proof (len_entry e prev He) as Hl. pose proof (IH (entry_digest prev e) Hes).
  unfold len in Hl. rewrite !length_app in *. cbn. lia.
Qed.

Lemma chain_verifies es tail :
  Forall entry_ok es -> len tail < 16 -> sl_audit_log_verify (Some (chain_file zero_hash es ++ tail)) = Ok 0.
Proof.
  intros Hes Ht. apply (verify_complete es _ [] zero_hash tail); [done|done|].
  pose proof (chain_file_long es zero_hash Hes). rewrite length_app. lia.
Qed.

(** The log keeps its promise to the verifier: after any sequence of appends and reopenings
    of a fresh log file, on a disk with room for the entries, the file is the hash chain of
    exactly the entries that were appended, and the verifier accepts it. *)
Theorem audit_log_appends_verify room os :
  Forall audit_op_ok os -> 1072 * len os <= room ->
  exists L rs L', sl_audit_log_open (Some []) true = Some L /\ audit_run room L os = Ok (rs, L') /\
    contents (audit_fp L') = chain_file zero_hash (audit_entries os) /\
    sl_audit_log_verify (Some (contents (audit_fp L'))) = Ok 0.
Proof.
  intros Hos Hroom. destruct (reopen_repr []) as (L & EL & HL); [constructor|].
  destruct (audit_run_repr room os L [] Hos HL) as (rs & L' & E & (Hc & _ & Hes) & _).
  { destruct HL as (-> & _). change (len (chain_file zero_hash [])) with 0. lia. }
  exists L, rs, L'. split_and!; [done|done|done|]. rewrite Hc, <- (app_nil_r (chain_file _ _)).
  by apply chain_verifies.
Qed.

(** C7: Tamper evidence: whoever knows the digest [chain_last] of an honest log can trust a
    file with that final digest. The verifier never faults, whatever the bytes; if it accepts,
    the file is a hash chain and fewer than sixteen ignored bytes; and if that chain ends in the
    honest log's digest, then it is the honest log itself, entry for entry, unless the inputs
    hashed along the two chains exhibit a SHA-256 collision or a preimage of the zero block. *)
Theorem audit_log_tamper_evident es file :
  Forall entry_ok es -> bytes_ok file ->
  exists r, sl_audit_log_verify (Some file) = Ok r /\
    (r = 0 -> exists es' tail, file = chain_file zero_hash es' ++ tail /\ len tail < 16 /\
       (chain_last zero_hash es' = chain_last zero_hash es ->
        es' = es \/ sha256_broken (chain_inputs zero_hash es' ++ chain_inputs zero_hash es))).
Proof.
  intros Hes Hb. destruct (verify_sound (S (length file)) [] file zero_hash Hb) as (r & E & Hr); [lia|].
  exists r. split; [done|]. intros E0. destruct (Hr E0) as (es' & tail & Ef & Hes' & Ht).
  exists es', tail. split_and!; [done|done|]. by apply chain_last_inj.
Qed.

(** The header says the verifier reports a truncated file; a cut inside the header of the
    last entry is accepted. *)
Lemma truncated_header_accepted es e k :
  Forall entry_ok es -> entry_ok e -> (k < 16)%nat ->
  sl_audit_log_verify (Some (take (length (chain_file zero_hash es) + k) (chain_file zero_hash (es ++ [e])))) = Ok 0.
Proof.
  intros Hes (a & Ha & _ & Ee & _) Hk. rewrite chain_file_app, take_app_add. apply chain_verifies; [done|].
  unfold len. rewrite length_take. lia.
Qed.
End audit.

Definition demo_audit_ops : list audit_op := [AAppend 1000 1 (Some [104; 105]); AReopen; AAppend 2000 4 None].

Lemma audit_log_appends_verify_witness :
  exists L rs L', sl_audit_log_open (Some []) true = Some L /\
    audit_run (H := toy_hash) 4000 L demo_audit_ops = Ok (rs, L') /\
    sl_audit_log_verify (H := toy_hash) (Some (contents (audit_fp L'))) = Ok 0.
Proof.
  destruct (audit_log_appends_verify (H := toy_hash) 4000 demo_audit_ops) as (L & rs & L' & A & B & _ & D).
  - repeat constructor; lia.
  - vm_compute. congruence.
  - by exists L, rs, L'.
Defined.

Lemma audit_log_tamper_evident_witness :
  let es := [new_entry 5 1 [7]] in
  let file := chain_file (H := toy_hash) zero_hash es ++ [1; 2; 3] in
  sl_audit_log_verify (H := toy_hash) (Some file) = Ok 0 /\
  exists es' tail, file = chain_file (H := toy_hash) zero_hash es' ++ tail /\ len tail < 16 /\
    (chain_last (H := toy_hash) zero_hash es' = chain_last (H := toy_hash) zero_hash es ->
     es' = es \/ sha256_broken (H := toy_hash)
       (chain_inputs (H := toy_hash) zero_hash es' ++ chain_inputs (H := toy_hash) zero_hash es)).
Proof.
  intros es file. assert (E0 : sl_audit_log_verify (H := toy_hash) (Some file) = Ok 0) by (vm_compute; reflexivity).
  split; [done|].
  destruct (audit_log_tamper_evident (H := toy_hash) es file) as (r & E & Hr).
  - constructor; [|constructor]. apply new_entry_ok; [vm_compute; congruence|by_deciding].
  - by_deciding.
  - apply Hr. rewrite E0 in E. by injection E.
Defined.
