(* ===== verification/Snapshot.v ===== *)
(** Atomic snapshots ([src/sl_snapshot.c]). The directory is a finite map from names to file
    contents; the room on the disk and the outcomes of [fopen], [fflush] and [rename] are
    arguments. The checksum's lazily built table is threaded through. *)

From Stdlib Require Import String.
From stdpp Require Import gmap.
From S2P Require Import Prelude ByteOrder Codec Crc32 Stdio KeySched.
Local Open Scope Z_scope.

(* src/inc/sl_snapshot.h:27-27 *)
Definition SL_SNAPSHOT_MAGIC : list Z := lit "SLSS".
(* src/inc/sl_snapshot.h:28-28 *)
Definition SL_SNAPSHOT_VERSION : Z := 1.

(** The checksum of header and payload, as both directions compute it. *)
(* src/src/sl_snapshot.c:56-59 sl_snapshot_save *)
Definition snapshot_crc (s : crc_statics) (header payload : list Z) : M (Z * crc_statics) :=
  let crc := sl_crc32c_init in
  let! '(crc, s) := sl_crc32c_update s crc header in
  let! '(crc, s) := (if 0 <? len payload then sl_crc32c_update s crc payload else Ok (crc, s)) in
  Ok (sl_crc32c_finalize crc, s).

(** The outcomes of the calls that can fail, besides short writes. *)
Record save_env := mk_env { fopen_ok : bool; fflush_ok : bool; rename_ok : bool; disk_room : Z }.

Abbreviation directory := (gmap (list Z) (list Z)).
Definition tmp_name (path : list Z) : list Z := path ++ lit ".tmp".

(** [fwrite(p, 1, n, fp) != n] is tested after each write; [None] is such a failure. *)
Definition fwrite_all (room : Z) (fp : FILE) (bs : list Z) : option FILE :=
  let '(n, fp) := fwrite room fp bs in if negb (n =? len bs) then None else Some fp.

(** The return code, the directory and the checksum statics. *)
(* src/src/sl_snapshot.c:31-73 *)
Definition sl_snapshot_save (s : crc_statics) (env : save_env) (fs : directory) (path payload : list Z)
  : M (Z * directory * crc_statics) :=
  let tmp := tmp_name path in
  if 1024 <=? len tmp then Ok (-1, fs, s)
  else if negb (fopen_ok env) then Ok (-1, fs, s)
  else
    let fp := mk_file [] 0 in
    let unlinked := delete tmp fs in
    let! header := store_bytes (replicate 16 0) 0 SL_SNAPSHOT_MAGIC in
    let! header := pack_u32_be header 4 SL_SNAPSHOT_VERSION in
    let! header := pack_u64_be header 8 (len payload) in
    match fwrite_all (disk_room env) fp header with
    | None => Ok (-1, unlinked, s)
    | Some fp =>
        match (if 0 <? len payload then fwrite_all (disk_room env) fp payload else Some fp) with
        | None => Ok (-1, unlinked, s)
        | Some fp =>
            let! '(crc_final, s) := snapshot_crc s header payload in
            let! crc_buf := pack_u32_be (replicate 4 0) 0 crc_final in
            match fwrite_all (disk_room env) fp crc_buf with
            | None => Ok (-1, unlinked, s)
            | Some fp =>
                if negb (fflush_ok env) then Ok (-1, unlinked, s)
                else if negb (rename_ok env) then Ok (-1, unlinked, s)
                else Ok (0, <[path := contents fp]> unlinked, s)
            end
        end
    end.

(** [None] is the error return. *)
(* src/src/sl_snapshot.c:75-82 *)
Definition read_header (fp : FILE) : M (option Z * FILE) :=
  let '(header, fp) := fread fp 16 in
  if negb (len header =? 16) then Ok (None, fp)
  else
    let! magic := load_bytes header 0 4 in
    if negb (bool_decide (magic = SL_SNAPSHOT_MAGIC)) then Ok (None, fp)
    else
      let! version := unpack_u32_be header 4 in
      if negb (version =? SL_SNAPSHOT_VERSION) then Ok (None, fp)
      else let! plen := unpack_u64_be header 8 in Ok (Some plen, fp).

(** The return code, the caller's buffer, the length if it was set, and the statics. *)
(* src/src/sl_snapshot.c:84-115 *)
Definition sl_snapshot_load (s : crc_statics) (fs : directory) (path buf : list Z)
  : M (Z * list Z * option Z * crc_statics) :=
  match fs !! path with
  | None => Ok (-1, buf, None, s)
  | Some file =>
      let! '(r, fp) := read_header (mk_file file 0) in
      match r with
      | None => Ok (-1, buf, None, s)
      | Some plen =>
          if len buf <? plen then Ok (-2, buf, Some plen, s)
          else
            let '(got, fp) := if 0 <? plen then fread fp plen else ([], fp) in
            let! buf := store_bytes buf 0 got in
            if (0 <? plen) && negb (len got =? plen) then Ok (-1, buf, Some plen, s)
            else
              let '(crc_buf, fp) := fread fp 4 in
              if negb (len crc_buf =? 4) then Ok (-1, buf, Some plen, s)
              else
                let! stored := unpack_u32_be crc_buf 0 in
                let '(hdr, _) := fread (mk_file file 0) 16 in
                let! payload := load_bytes buf 0 plen in
                let! '(computed, s) := snapshot_crc s hdr payload in
                if negb (stored =? computed) then Ok (-1, buf, Some plen, s)
                else Ok (0, buf, Some plen, s)
      end
  end.

(** [malloc_ok] is the outcome of the allocation of the scratch buffer. *)
(* src/src/sl_snapshot.c:117-129 *)
Definition sl_snapshot_verify (s : crc_statics) (fs : directory) (path : list Z) (malloc_ok : bool)
  : M (Z * crc_statics) :=
  match fs !! path with
  | None => Ok (-1, s)
  | Some file =>
      if len file <? 20 then Ok (-1, s)
      else
        let plen := len file - 20 in
        if negb malloc_ok && (0 <? plen) then Ok (-1, s)
        else
          let! '(rc, _, _, s) := sl_snapshot_load s fs path (replicate (Z.to_nat plen) 0) in
          Ok (rc, s)
  end.

(** ** The file format *)

Definition snapshot_header (n : Z) : list Z := SL_SNAPSHOT_MAGIC ++ be32 SL_SNAPSHOT_VERSION ++ be64 n.
Definition snapshot_file (payload : list Z) : list Z :=
  let h := snapshot_header (len payload) in h ++ payload ++ be32 (crc32c (h ++ payload)).

Lemma len_snapshot_header n : len (snapshot_header n) = 16.
Proof. done. Qed.

Lemma snapshot_crc_spec s h p :
  statics_ok s -> bytes_ok h -> bytes_ok p ->
  exists s', snapshot_crc s h p = Ok (crc32c (h ++ p), s') /\ statics_ok s'.
Proof.
  intros Hs Hh Hp. unfold snapshot_crc.
  destruct (crc_update_spec s sl_crc32c_init h) as (s1 & -> & H1 & _); [done|done|done|].
  unfold crc32c. rewrite crc_bits_app. destruct (Z.ltb_spec 0 (len p)).
  - destruct (crc_update_spec s1 (crc_bits sl_crc32c_init h) p) as (s2 & -> & H2 & _);
      [done|by apply crc_bits_range|done|]. eauto.
  - rewrite (len_0_nil p) by (pose proof (len_nonneg p); lia). eauto.
Qed.

Lemma snapshot_header_built n :
  is_u64 n ->
  (let! header := store_bytes (replicate 16 0) 0 SL_SNAPSHOT_MAGIC in
   let! header := pack_u32_be header 4 SL_SNAPSHOT_VERSION in
   pack_u64_be header 8 n) = Ok (snapshot_header n).
Proof.
  intros Hn. change (replicate 16 0) with ([] ++ replicate 16 0).
  rewrite store_bytes_append by done. cbv beta iota. rewrite pack_u32_append by done. cbv beta iota.
  rewrite pack_u64_append by done. cbn [drop replicate length SL_SNAPSHOT_MAGIC lit]. f_equal.
Qed.

Lemma bytes_ok_snapshot_header n : bytes_ok (snapshot_header n).
Proof.
  unfold snapshot_header, SL_SNAPSHOT_MAGIC, be64, be32.
  repeat (apply bytes_ok_app || apply bytes_ok_cons || apply bytes_ok_nil || apply u8_range); by_deciding.
Qed.

Lemma tmp_name_ne path : tmp_name path <> path.
Proof. unfold tmp_name. intros E%(f_equal length). rewrite length_app in E. cbn in E. lia. Qed.

Lemma fwrite_all_some room fp bs fp' :
  fwrite_all room fp bs = Some fp' -> contents fp' = contents fp ++ bs.
Proof.
  unfold fwrite_all. destruct (fwrite room fp bs) as [n f] eqn:E.
  destruct (Z.eqb_spec n (len bs)) as [->|]; cbn [negb]; [|done]. intros [= <-].
  pose proof (fwrite_full room fp bs) as H. rewrite E in H. cbn in H. by rewrite H.
Qed.

Lemma fwrite_all_fits room fp bs :
  len (contents fp) + len bs <= room -> exists fp', fwrite_all room fp bs = Some fp' /\ contents fp' = contents fp ++ bs.
Proof.
  intros H. unfold fwrite_all. rewrite fwrite_fits by done. rewrite Z.eqb_refl. by eexists.
Qed.

(** Either the new snapshot is in place or the directory holds what it held, and a failure
    has a cause. *)
Lemma save_spec s env fs path payload :
  statics_ok s -> bytes_ok payload -> is_u64 (len payload) ->
  exists rc fs' s', sl_snapshot_save s env fs path payload = Ok (rc, fs', s') /\ statics_ok s' /\
    (forall name, name <> path -> name <> tmp_name path -> fs' !! name = fs !! name) /\
    (rc = 0 /\ fs' !! path = Some (snapshot_file payload) \/ rc = -1 /\ fs' !! path = fs !! path).
Proof.
  intros Hs Hp Hn. unfold sl_snapshot_save. pose proof (tmp_name_ne path) as Hne.
  assert (Hno : forall s' fs', statics_ok s' -> fs' = fs \/ fs' = delete (tmp_name path) fs ->
    exists rc fs1 s1, Ok (-1, fs', s') = Ok (rc, fs1, s1) /\ statics_ok s1 /\
    (forall name, name <> path -> name <> tmp_name path -> fs1 !! name = fs !! name) /\
    (rc = 0 /\ fs1 !! path = Some (snapshot_file payload) \/ rc = -1 /\ fs1 !! path = fs !! path)).
  { intros s' fs' Hs' Hfs. eexists _, _, _. split; [reflexivity|]. split; [done|].
    assert (Hl : forall name, name <> tmp_name path -> fs' !! name = fs !! name).
    { intros name Hname. destruct Hfs as [->| ->]; [done|]. by rewrite lookup_delete_ne by congruence. }
    split; [by auto|]. right. auto. }
  destruct (1024 <=? _); [by apply Hno; [|left]|]. destruct (negb _); [by apply Hno; [|left]|].
  pose proof (snapshot_header_built (len payload) Hn) as Eh.
  destruct (store_bytes _ 0 _) as [h1|]; [|done]. destruct (pack_u32_be h1 4 _) as [h2|]; [|done].
  rewrite Eh. set (h := snapshot_header (len payload)) in *.
  destruct (fwrite_all _ _ h) as [fp1|] eqn:E1; [|by apply Hno; [|right]]. apply fwrite_all_some in E1.
  set (wp := if 0 <? len payload then _ else _).
  assert (Hwp : forall fp2, wp = Some fp2 -> contents fp2 = h ++ payload).
  { unfold wp. intros fp2. destruct (Z.ltb_spec 0 (len payload)).
    - intros ->%fwrite_all_some. by rewrite E1.
    - intros [= <-]. rewrite E1, (len_0_nil payload) by (pose proof (len_nonneg payload); lia). by rewrite app_nil_r. }
  destruct wp as [fp2|]; [|by apply Hno; [|right]]. specialize (Hwp fp2 eq_refl).
  destruct (snapshot_crc_spec s h payload Hs) as (s1 & -> & Hs1); [apply bytes_ok_snapshot_header|done|].
  change (replicate 4 0) with ([] ++ replicate 4 0). rewrite pack_u32_append by done. cbv beta iota. cbn [app drop replicate].
  destruct (fwrite_all _ fp2 _) as [fp3|] eqn:E3; [|by apply Hno; [|right]]. apply fwrite_all_some in E3.
  destruct (negb _); [by apply Hno; [|right]|]. destruct (negb _); [by apply Hno; [|right]|].
  eexists _, _, _. split; [reflexivity|]. split; [done|]. split.
  - intros name H1 H2. by rewrite lookup_insert_ne, lookup_delete_ne by congruence.
  - left. split; [done|]. rewrite lookup_insert_eq, E3, Hwp, app_nil_r. by rewrite <- app_assoc.
Qed.

Lemma read_header_spec n rest :
  is_u64 n ->
  read_header (mk_file (snapshot_header n ++ rest) 0) =
  Ok (Some n, mk_file (snapshot_header n ++ rest) 16).
Proof.
  intros Hn. unfold read_header. pose proof (fread_app [] (snapshot_header n) rest 16 eq_refl) as E.
  cbn [app] in E. change (len (@nil Z)) with 0 in E. rewrite E. rewrite len_snapshot_header. cbn [Z.eqb Pos.eqb negb].
  assert (E0 : load_bytes (snapshot_header n) 0 4 = Ok SL_SNAPSHOT_MAGIC) by (by apply load_bytes_front).
  assert (E4 : unpack_u32_be (snapshot_header n) 4 = Ok SL_SNAPSHOT_VERSION) by (by apply unpack_u32_at).
  pose proof (unpack_u64_at (SL_SNAPSHOT_MAGIC ++ be32 SL_SNAPSHOT_VERSION) [] n 8 eq_refl Hn) as E8.
  rewrite app_nil_r, <- app_assoc in E8. fold (snapshot_header n) in E8.
  rewrite E0, bool_decide_eq_true_2 by done. cbn [negb]. rewrite E4, E8. done.
Qed.

(** Loading a file whose header announces the payload [q] and that ends in the checksum [c]. *)
Lemma load_spec s fs path q c buf :
  statics_ok s -> bytes_ok q -> is_u64 (len q) -> is_u32 c -> len q <= len buf ->
  fs !! path = Some (snapshot_header (len q) ++ q ++ be32 c) ->
  exists s', statics_ok s' /\ sl_snapshot_load s fs path buf =
    Ok (if c =? crc32c (snapshot_header (len q) ++ q) then 0 else -1, q ++ drop (length q) buf, Some (len q), s').
Proof.
  intros Hs Hq Hn Hc Hbuf Hf. unfold sl_snapshot_load. rewrite Hf, read_header_spec by done.
  set (h := snapshot_header (len q)). pose proof (len_nonneg q).
  rewrite (proj2 (Z.ltb_ge _ _)) by lia.
  assert (Er : (if 0 <? len q then fread (mk_file (h ++ q ++ be32 c) 16) (len q)
     else ([], mk_file (h ++ q ++ be32 c) 16)) = (q, mk_file (h ++ q ++ be32 c) (len (h ++ q)))).
  { destruct (Z.ltb_spec 0 (len q)).
    - by apply (fread_app h q (be32 c)).
    - rewrite (len_0_nil q) by lia. by rewrite app_nil_r. }
  rewrite Er, store_bytes_0, Z.eqb_refl, andb_false_r by lia. cbv beta iota.
  pose proof (fread_app (h ++ q) (be32 c) [] 4 eq_refl) as E4. rewrite app_nil_r, <- app_assoc in E4. rewrite E4.
  change (len (be32 c) =? 4) with true. cbn [negb].
  pose proof (unpack_u32_at [] [] c 0 eq_refl Hc) as Eu. cbn [app] in Eu. rewrite app_nil_r in Eu. rewrite Eu.
  pose proof (fread_app [] h (q ++ be32 c) 16 eq_refl) as E16. cbn [app] in E16.
  change (len (@nil Z)) with 0 in E16. rewrite E16, load_bytes_front by done.
  destruct (snapshot_crc_spec s h q Hs) as (s1 & -> & Hs1); [apply bytes_ok_snapshot_header|done|].
  exists s1. split; [done|]. by destruct (c =? crc32c (h ++ q)).
Qed.

(** Saving a snapshot is all or nothing. Whatever fails on the way (opening, a short write
    at any point, flushing, renaming), either the call reports success and loading returns
    exactly the payload, or it reports failure and the previous snapshot is untouched; no other
    file is touched either way. *)
Theorem snapshot_save_atomic s env fs path payload buf :
  statics_ok s -> bytes_ok payload -> is_u64 (len payload) -> len payload <= len buf ->
  exists rc fs' s', sl_snapshot_save s env fs path payload = Ok (rc, fs', s') /\
    (forall name, name <> path -> name <> tmp_name path -> fs' !! name = fs !! name) /\
    (rc = 0 /\ (exists s'', sl_snapshot_load s' fs' path buf =
                  Ok (0, payload ++ drop (length payload) buf, Some (len payload), s'')) \/
     rc = -1 /\ fs' !! path = fs !! path).
Proof.
  intros Hs Hp Hn Hb. destruct (save_spec s env fs path payload Hs Hp Hn) as (rc & fs' & s' & E & Hs' & Hother & Hres).
  exists rc, fs', s'. split_and!; [done|done|]. destruct Hres as [[-> Hf]|]; [left|by right]. split; [done|].
  assert (Hc : is_u32 (crc32c (snapshot_header (len payload) ++ payload))).
  { apply crc32c_range, bytes_ok_app; [apply bytes_ok_snapshot_header|done]. }
  destruct (load_spec s' fs' path payload _ buf Hs' Hp Hn Hc Hb Hf) as (s'' & _ & El).
  rewrite Z.eqb_refl in El. by exists s''.
Qed.

Lemma snapshot_save_atomic_witness :
  exists rc fs' s', sl_snapshot_save crc_start (mk_env true true true 100) ∅ (lit "state") [1; 2; 3] = Ok (rc, fs', s') /\
    (rc = 0 /\ (exists s'', sl_snapshot_load s' fs' (lit "state") (replicate 3 0) = Ok (0, [1; 2; 3], Some 3, s'')) \/
     rc = -1 /\ fs' !! lit "state" = None).
Proof.
  destruct (snapshot_save_atomic crc_start (mk_env true true true 100) ∅ (lit "state") [1; 2; 3] (replicate 3 0))
    as (rc & fs' & s' & E & _ & H).
  - split; [reflexivity|discriminate].
  - by_deciding.
  - by_deciding.
  - by_deciding.
  - exists rc, fs', s'. split; [exact E|exact H].
Defined.

(** A snapshot with one byte of its payload changed is refused. *)
Theorem snapshot_corruption_detected s fs path pre x y post buf :
  let good := pre ++ x :: post in
  let bad := pre ++ y :: post in
  statics_ok s -> bytes_ok good -> bytes_ok bad -> x <> y -> is_u64 (len good) -> len good <= len buf ->
  fs !! path = Some (snapshot_header (len good) ++ bad ++ be32 (crc32c (snapshot_header (len good) ++ good))) ->
  exists buf' s', sl_snapshot_load s fs path buf = Ok (-1, buf', Some (len good), s').
Proof.
  intros good bad Hs Hg Hb Hne Hn Hbuf Hf. assert (El : len good = len bad) by (unfold good, bad; len_lia).
  rewrite El in Hf, Hbuf, Hn |- *.
  set (c := crc32c (snapshot_header (len bad) ++ good)) in *.
  assert (Hc : is_u32 c) by (apply crc32c_range, bytes_ok_app; [apply bytes_ok_snapshot_header|done]).
  destruct (load_spec s fs path bad c buf Hs Hb Hn Hc Hbuf Hf) as (s' & _ & E).
  destruct (Z.eqb_spec c (crc32c (snapshot_header (len bad) ++ bad))) as [Ec|_]; [|eauto].
  destruct Hne. unfold c, good, bad in Ec. rewrite !app_assoc in Ec.
  apply bytes_ok_app_inv in Hg as [Hpre Hg]. apply Forall_cons_1 in Hg as [Hx Hpost].
  apply bytes_ok_app_inv in Hb as [_ Hb]. apply Forall_cons_1 in Hb as [Hy _].
  apply crc32c_byte_inj in Ec; try done. apply bytes_ok_app; [apply bytes_ok_snapshot_header|done].
Qed.

Lemma snapshot_corruption_detected_witness :
  exists buf' s', sl_snapshot_load crc_start
    {[lit "s" := snapshot_header 3 ++ [1; 9; 3] ++ be32 (crc32c (snapshot_header 3 ++ [1; 2; 3]))]}
    (lit "s") (replicate 3 0) = Ok (-1, buf', Some 3, s').
Proof.
  apply (snapshot_corruption_detected crc_start _ (lit "s") [1] 2 9 [3] (replicate 3 0)).
  - split; [reflexivity|discriminate].
  - by_deciding.
  - by_deciding.
  - lia.
  - by_deciding.
  - by_deciding.
  - vm_compute. reflexivity.
Defined.
