(* ===== verification/KvStore.v ===== *)
(** The append-only key-value store ([src/sl_kvstore.c]): records on disk and a hash index in
    memory. A bucket is the list of its chain; an entry found through a pointer is changed where
    it stands. Keys passed in are non-NULL; the outcome of the allocations of an insertion and
    the room on the disk are arguments. *)

From stdpp Require Import gmap.
From S2P Require Import Prelude ByteOrder Codec Crc32 Varint Stdio.
Local Open Scope Z_scope.

(* src/src/sl_kvstore.c:11-11 *)
Definition SL_KV_BUCKETS : Z := 4096.
(* src/src/sl_kvstore.c:12-12 *)
Definition SL_KV_FLAG_TOMB : Z := 1.

(* src/src/sl_kvstore.c:14-21 *)
Record kv_entry := mk_kv { kv_key : list Z; file_offset : Z; kv_vlen : Z; kv_flags : Z }.

(* src/src/sl_kvstore.c:23-27 *)
Record sl_kvstore := mk_store { kv_fp : FILE; buckets : gmap Z (list kv_entry); kv_count : Z }.

Definition bucket (kv : sl_kvstore) (b : Z) : list kv_entry := default [] (buckets kv !! b).

(* src/src/sl_kvstore.c:29-34 *)
Definition hash_bytes (data : list Z) : Z :=
  foldl (fun h b => u32 (Z.lxor h b * 16777619)) 2166136261 data.

Definition bucket_of (key : list Z) : Z := hash_bytes key mod SL_KV_BUCKETS.

(** The first entry of a chain with that key. *)
(* src/src/sl_kvstore.c:39-42 find_entry *)
Fixpoint find_in (chain : list kv_entry) (key : list Z) : option kv_entry :=
  match chain with
  | [] => None
  | e :: chain => if bool_decide (kv_key e = key) then Some e else find_in chain key
  end.

(* src/src/sl_kvstore.c:36-43 *)
Definition find_entry (kv : sl_kvstore) (key : list Z) : option kv_entry :=
  find_in (bucket kv (bucket_of key)) key.

(** Assignments through the pointer [find_entry] returned. *)
Fixpoint change_in (f : kv_entry -> kv_entry) (chain : list kv_entry) (key : list Z) : list kv_entry :=
  match chain with
  | [] => []
  | e :: chain => if bool_decide (kv_key e = key) then f e :: chain else e :: change_in f chain key
  end.
Definition change_entry (f : kv_entry -> kv_entry) (kv : sl_kvstore) (key : list Z) : sl_kvstore :=
  let b := bucket_of key in
  mk_store (kv_fp kv) (<[b := change_in f (bucket kv b) key]> (buckets kv)) (kv_count kv).

(** [None] is a failed allocation. *)
(* src/src/sl_kvstore.c:45-60 *)
Definition upsert_entry (alloc_ok : bool) (kv : sl_kvstore) (key : list Z) : option sl_kvstore :=
  match find_entry kv key with
  | Some _ => Some kv
  | None =>
      let b := bucket_of key in
      if negb alloc_ok then None
      else Some (mk_store (kv_fp kv) (<[b := mk_kv key 0 0 0 :: bucket kv b]> (buckets kv))
                   (u64 (kv_count kv + 1)))
  end.

(** The return code, the stream, the offset of the record and the checksum statics. *)
(* src/src/sl_kvstore.c:62-96 *)
Definition write_record (s : crc_statics) (room : Z) (fp : FILE) (key value : list Z) (flags : Z)
  : M (Z * FILE * Z * crc_statics) :=
  let vlen := len value in
  let hdr := replicate 21 0 in
  let! r := hdr_varint (len key) hdr 0 in
  match r with
  | None => Ok (-1, fp, 0, s)
  | Some (hp, hdr) =>
      let! r := hdr_varint vlen hdr hp in
      match r with
      | None => Ok (-1, fp, 0, s)
      | Some (hp, hdr) =>
          let! hdr := store hdr hp flags in
          let hp := hp + 1 in
          let fp := fseek_end fp in
          let off := ftell fp in
          let! h := load_bytes hdr 0 hp in
          let! '(crc, s) := sl_crc32c_update s sl_crc32c_init h in
          let! '(crc, s) := sl_crc32c_update s crc key in
          let! '(crc, s) := (if 0 <? vlen then sl_crc32c_update s crc value else Ok (crc, s)) in
          let crc_final := sl_crc32c_finalize crc in
          let '(n, fp) := fwrite room fp h in
          if negb (n =? hp) then Ok (-1, fp, 0, s)
          else
            let '(n, fp) := fwrite room fp key in
            if negb (n =? len key) then Ok (-1, fp, 0, s)
            else
              let '(n, fp) := if 0 <? vlen then fwrite room fp value else (vlen, fp) in
              if negb (n =? vlen) then Ok (-1, fp, 0, s)
              else
                let '(n, fp) := fwrite room fp (be32 crc_final) in
                if negb (n =? 4) then Ok (-1, fp, 0, s)
                else Ok (0, fp, off, s)
      end
  end.

(** The header of a record: both lengths and how many bytes they took; [None] breaks off. *)
(* src/src/sl_kvstore.c:114-118 sl_kvstore_open *)
Definition read_lengths (hdr : list Z) : M (option (Z * Z * Z * Z)) :=
  let! r := sl_varint_decode_u64 hdr in
  match r with
  | None => Ok None
  | Some (kn, klen) =>
      let! r := sl_varint_decode_u64 (drop (Z.to_nat kn) hdr) in
      match r with
      | None => Ok None
      | Some (vn, vlen) => Ok (Some (kn, klen, vn, vlen))
      end
  end.

Definition with_fp (kv : sl_kvstore) (fp : FILE) : sl_kvstore := mk_store fp (buckets kv) (kv_count kv).

(** What a replayed record does to the index, and the seek past its value. *)
(* src/src/sl_kvstore.c:128-139 sl_kvstore_open *)
Definition replay_apply (alloc_ok : bool) (kv : sl_kvstore) (key : list Z) (flags voff vlen : Z)
  : sl_kvstore * option FILE :=
  if negb (Z.land flags SL_KV_FLAG_TOMB =? 0) then
    (match find_entry kv key with
     | Some _ => change_entry (fun e =>
         mk_kv (kv_key e) (file_offset e) (kv_vlen e) (Z.lor (kv_flags e) SL_KV_FLAG_TOMB)) kv key
     | None => kv
     end, Some (kv_fp kv))
  else
    (match upsert_entry alloc_ok kv key with
     | Some kv => change_entry (fun e => mk_kv (kv_key e) voff vlen 0) kv key
     | None => kv
     end, fseek_cur (kv_fp kv) (to_long vlen)).

(** One round of the replay: the store and the next position, or no position for [break]. *)
(* src/src/sl_kvstore.c:109-144 sl_kvstore_open *)
Definition replay_round (alloc_ok : bool) (kv : sl_kvstore) (pos : Z) : M (sl_kvstore * option Z) :=
  let rec_off := pos in
  let '(hdr_buf, fp) := fread (kv_fp kv) 21 in
  let kv := with_fp kv fp in
  let got := len hdr_buf in
  if got =? 0 then Ok (kv, None)
  else
    let! r := read_lengths hdr_buf in
    match r with
    | None => Ok (kv, None)
    | Some (kn, klen, vn, vlen) =>
        if got <? kn + vn + 1 then Ok (kv, None)
        else
          let! flags := load hdr_buf (kn + vn) in
          let key_off := rec_off + kn + vn + 1 in
          match fseek_set fp key_off with
          | None => Ok (kv, None)
          | Some fp =>
              if 4096 <? klen then Ok (with_fp kv fp, None)
              else
                let '(buf, fp) := fread fp klen in
                let kv := with_fp kv fp in
                if negb (len buf =? klen) then Ok (kv, None)
                else
                  let '(kv, skipped) := replay_apply alloc_ok kv buf flags (key_off + klen) vlen in
                  match skipped with
                  | None => Ok (kv, None)
                  | Some fp =>
                      match fseek_cur fp 4 with
                      | None => Ok (with_fp kv fp, None)
                      | Some fp => Ok (with_fp kv fp, Some (ftell fp))
                      end
                  end
          end
    end.

Fixpoint kv_replay (fuel : nat) (alloc_ok : bool) (kv : sl_kvstore) (pos : Z) : M sl_kvstore :=
  match fuel with
  | O => Fault
  | S fuel =>
      let! '(kv, next) := replay_round alloc_ok kv pos in
      match next with
      | None => Ok kv
      | Some pos => kv_replay fuel alloc_ok kv pos
      end
  end.

(** [None] for a file that cannot be opened. The loop has no bound of its own. *)
(* src/src/sl_kvstore.c:98-146 *)
Definition sl_kvstore_open (fuel : nat) (alloc_ok : bool) (file : option (list Z)) : M (option sl_kvstore) :=
  match file with
  | None => Ok None
  | Some c => let! kv := kv_replay fuel alloc_ok (mk_store (mk_file c 0) ∅ 0) 0 in Ok (Some kv)
  end.

(** The return code, the store and the checksum statics. *)
(* src/src/sl_kvstore.c:163-182 *)
Definition sl_kvstore_put (s : crc_statics) (room : Z) (alloc_ok : bool) (kv : sl_kvstore) (key value : list Z)
  : M (Z * sl_kvstore * crc_statics) :=
  let! '(rc, fp, off, s) := write_record s room (kv_fp kv) key value 0 in
  let kv := with_fp kv fp in
  if negb (rc =? 0) then Ok (-1, kv, s)
  else
    match upsert_entry alloc_ok kv key with
    | None => Ok (-1, kv, s)
    | Some kv => Ok (0, change_entry (fun e => mk_kv (kv_key e) off (len value) 0) kv key, s)
    end.

(* src/src/sl_kvstore.c:184-193 *)
Definition sl_kvstore_delete (s : crc_statics) (room : Z) (kv : sl_kvstore) (key : list Z)
  : M (Z * sl_kvstore * crc_statics) :=
  let! '(rc, fp, _, s) := write_record s room (kv_fp kv) key [] SL_KV_FLAG_TOMB in
  let kv := with_fp kv fp in
  if negb (rc =? 0) then Ok (-1, kv, s)
  else
    let kv := match find_entry kv key with
              | Some _ => change_entry (fun e =>
                  mk_kv (kv_key e) (file_offset e) 0 (Z.lor (kv_flags e) SL_KV_FLAG_TOMB)) kv key
              | None => kv
              end in
    Ok (0, kv, s).

Definition is_tomb (e : kv_entry) : bool := negb (Z.land (kv_flags e) SL_KV_FLAG_TOMB =? 0).

(** The return code, the caller's buffer, [*vlen_out] if it was set, and the store. *)
(* src/src/sl_kvstore.c:195-219 *)
Definition sl_kvstore_get (kv : sl_kvstore) (key buf : list Z) : M (Z * list Z * option Z * sl_kvstore) :=
  match find_entry kv key with
  | None => Ok (-2, buf, None, kv)
  | Some e =>
      if is_tomb e then Ok (-2, buf, None, kv)
      else
        let vlen_out := Some (kv_vlen e) in
        if len buf <? kv_vlen e then Ok (-3, buf, vlen_out, kv)
        else
          match fseek_set (kv_fp kv) (file_offset e) with
          | None => Ok (-1, buf, vlen_out, kv)
          | Some fp =>
              let '(hdr, fp) := fread fp 21 in
              if len hdr =? 0 then Ok (-1, buf, vlen_out, with_fp kv fp)
              else
                let! r := read_lengths hdr in
                match r with
                | None => Ok (-1, buf, vlen_out, with_fp kv fp)
                | Some (kn, klen_disk, vn, vlen_disk) =>
                    match fseek_set fp (file_offset e + kn + vn + 1 + to_long klen_disk) with
                    | None => Ok (-1, buf, vlen_out, with_fp kv fp)
                    | Some fp =>
                        let '(bs, fp) := fread fp vlen_disk in
                        let! buf := store_bytes buf 0 bs in
                        if negb (len bs =? vlen_disk) then Ok (-1, buf, vlen_out, with_fp kv fp)
                        else Ok (0, buf, vlen_out, with_fp kv fp)
                    end
                end
          end
  end.

(* src/src/sl_kvstore.c:221-225 *)
Definition sl_kvstore_has (kv : sl_kvstore) (key : list Z) : bool :=
  match find_entry kv key with Some e => negb (is_tomb e) | None => false end.

(* src/src/sl_kvstore.c:227-236 *)
Definition sl_kvstore_size (kv : sl_kvstore) : Z :=
  foldl (fun live i => foldl (fun live e => if is_tomb e then live else u64 (live + 1)) live (bucket kv i))
    0 (seqZ 0 SL_KV_BUCKETS).

(** ** Records *)

Definition record_header (key value : list Z) (flags : Z) : list Z :=
  varint (len key) ++ varint (len value) ++ [flags].
Definition record_bytes (key value : list Z) (flags : Z) : list Z :=
  let h := record_header key value flags in
  h ++ key ++ value ++ be32 (crc32c (h ++ key ++ value)).

Definition kv_ok (key value : list Z) : Prop :=
  bytes_ok key /\ bytes_ok value /\ len key < 2 ^ 63 /\ len value < 2 ^ 63.

Lemma kv_ok_u64 key value : kv_ok key value -> is_u64 (len key) /\ is_u64 (len value).
Proof. intros (_ & _ & Hk & Hv). pose proof (len_nonneg key). pose proof (len_nonneg value). lia. Qed.

(** The stack array as [write_record] fills it. *)
Lemma record_header_built key value flags :
  kv_ok key value ->
  exists rest hp, (let! r := hdr_varint (len key) (replicate 21 0) 0 in
    match r with
    | None => Ok None
    | Some (hp, hdr) =>
        let! r := hdr_varint (len value) hdr hp in
        match r with
        | None => Ok None
        | Some (hp, hdr) => let! hdr := store hdr hp flags in Ok (Some (hp, hdr))
        end
    end) = Ok (Some (hp, record_header key value flags ++ rest)) /\
    hp + 1 = len (record_header key value flags).
Proof.
  intros [Hk Hv]%kv_ok_u64. pose proof (len_varint _ Hk) as Lk. pose proof (len_varint _ Hv) as Lv.
  change (replicate 21 0) with ([] ++ replicate 21 0).
  rewrite hdr_varint_at by (done || (rewrite len_replicate; lia)). cbn [app].
  assert (Hd : len (drop (length (varint (len key))) (replicate 21 0)) = 21 - len (varint (len key))).
  { unfold len in *. rewrite length_drop, length_replicate. lia. }
  rewrite hdr_varint_at by (done || lia).
  set (tl := drop (length (varint (len value))) _).
  assert (Ht : len tl = 21 - len (varint (len key)) - len (varint (len value))).
  { unfold tl. rewrite len_drop_nat; [|unfold len in *; lia]. rewrite Hd. unfold len. lia. }
  destruct tl as [|b tl]; [rewrite len_nil in Ht; lia|].
  rewrite store_app_at by done. exists tl, (len (varint (len key) ++ varint (len value))).
  unfold record_header. split; [by rewrite <- !app_assoc|]. len_lia.
Qed.

Lemma bytes_ok_record_header key value flags :
  kv_ok key value -> is_u8 flags -> bytes_ok (record_header key value flags).
Proof.
  intros [Hk Hv]%kv_ok_u64 Hf. repeat apply bytes_ok_app; [apply bytes_ok_varint; lia..|].
  repeat constructor; lia.
Qed.

Lemma write_record_spec s room fp key value flags :
  statics_ok s -> kv_ok key value -> is_u8 flags ->
  len (contents fp) + len (record_bytes key value flags) <= room ->
  exists fp' s', write_record s room fp key value flags = Ok (0, fp', len (contents fp), s') /\ statics_ok s' /\
    contents fp' = contents fp ++ record_bytes key value flags.
Proof.
  intros Hs Hkv Hf Hroom. pose proof Hkv as (Hkb & Hvb & _).
  destruct (record_header_built key value flags Hkv) as (rest & hp & Eh & Hhp).
  pose proof (bytes_ok_record_header key value flags Hkv Hf) as Hhb.
  unfold write_record. revert Eh. destruct (hdr_varint (len key) _ 0) as [[[hp1 hdr1]|]|]; try done.
  destruct (hdr_varint (len value) hdr1 hp1) as [[[hp2 hdr2]|]|]; try done.
  destruct (store hdr2 hp2 flags) as [hdr3|]; [|done]. intros [= -> ->].
  rewrite load_bytes_front by done. rewrite Hhp. clear Hhp.
  unfold record_bytes in *. set (h := record_header key value flags) in *. clearbody h.
  destruct (crc_update_spec s sl_crc32c_init h) as (s1 & -> & H1 & _); [done|done|done|].
  assert (C1 : is_u32 (crc_bits sl_crc32c_init h)) by (by apply crc_bits_range).
  destruct (crc_update_spec s1 (crc_bits sl_crc32c_init h) key) as (s2 & -> & H2 & _); [done|done|done|].
  set (c2 := crc_bits _ key). assert (C2 : is_u32 c2) by (by apply crc_bits_range).
  assert (exists s3, (if 0 <? len value then sl_crc32c_update s2 c2 value else Ok (c2, s2)) =
    Ok (crc_bits c2 value, s3) /\ statics_ok s3) as (s3 & -> & H3).
  { destruct (Z.ltb_spec 0 (len value)).
    - destruct (crc_update_spec s2 c2 value) as (s3 & -> & H3 & _); eauto.
    - rewrite (len_0_nil value) by (pose proof (len_nonneg value); lia). eauto. }
  assert (Ec : sl_crc32c_finalize (crc_bits c2 value) = crc32c (h ++ key ++ value)).
  { unfold crc32c. by rewrite !crc_bits_app. }
  rewrite Ec. clear Ec C2. clearbody c2. set (c := crc32c _) in *. clearbody c.
  rewrite !len_app in Hroom. change (len (be32 c)) with 4 in Hroom.
  pose proof (len_nonneg value). pose proof (len_nonneg key).
  unfold ftell, fseek_end. cbn [fpos]. rewrite fwrite_fits by (cbn [contents]; lia). rewrite Z.eqb_refl. cbn [negb contents].
  rewrite fwrite_fits by (cbn [contents]; rewrite len_app; lia). rewrite Z.eqb_refl. cbn [negb contents].
  set (f2 := mk_file ((contents fp ++ h) ++ key) _).
  assert (Ev : exists p, (if 0 <? len value then fwrite room f2 value else (len value, f2)) =
    (len value, mk_file (((contents fp ++ h) ++ key) ++ value) p)).
  { unfold f2. destruct (Z.ltb_spec 0 (len value)).
    - rewrite fwrite_fits by (cbn [contents]; rewrite !len_app; lia). eauto.
    - rewrite (len_0_nil value) by lia. rewrite app_nil_r. eauto. }
  destruct Ev as (p & ->). rewrite Z.eqb_refl. cbn [negb].
  rewrite fwrite_fits by (cbn [contents]; rewrite !len_app; change (len (be32 c)) with 4; lia).
  cbn [contents]. change (len (be32 c) =? 4) with true. cbn [negb].
  eexists _, _. split; [reflexivity|]. split; [done|]. cbn [contents]. by rewrite <- !app_assoc.
Qed.

Lemma read_lengths_spec k v rest :
  is_u64 k -> is_u64 v ->
  read_lengths (varint k ++ varint v ++ rest) = Ok (Some (len (varint k), k, len (varint v), v)).
Proof.
  intros Hk Hv. unfold read_lengths. rewrite varint_decode_front by done.
  rewrite drop_len_app, varint_decode_front by done. done.
Qed.

(** The 21 bytes read at the start of a record hold its whole header. *)
Lemma read_record_header pre key value flags rest :
  kv_ok key value ->
  exists rest' p,
    fread (mk_file (pre ++ record_header key value flags ++ rest) (len pre)) 21 =
      (record_header key value flags ++ rest', mk_file (pre ++ record_header key value flags ++ rest) p).
Proof.
  intros [Hk Hv]%kv_ok_u64. rewrite fread_at by lia.
  pose proof (len_varint _ Hk). pose proof (len_varint _ Hv).
  exists (take (21 - length (record_header key value flags)) rest).
  rewrite take_app_ge; [by eexists|]. unfold record_header. rewrite !length_app. unfold len in *. cbn [length]. lia.
Qed.

(** ** The index *)

Definition key_of (e : kv_entry) : list Z := kv_key e.

Lemma bucket_of_range key : 0 <= bucket_of key < SL_KV_BUCKETS.
Proof. apply Z.mod_pos_bound. done. Qed.

Lemma find_in_key chain key e : find_in chain key = Some e -> kv_key e = key.
Proof.
  induction chain as [|x chain IH]; [done|]. cbn. destruct (bool_decide_reflect (kv_key x = key)); [|done].
  by intros [= ->].
Qed.

Lemma find_change_in f chain key k :
  (forall e, kv_key (f e) = kv_key e) ->
  find_in (change_in f chain key) k = if bool_decide (k = key) then f <$> find_in chain k else find_in chain k.
Proof.
  intros Hf. induction chain as [|e chain IH]; cbn; [by destruct (bool_decide _)|].
  destruct (bool_decide_reflect (kv_key e = key)) as [He|He]; cbn; rewrite ?Hf.
  - destruct (bool_decide_reflect (kv_key e = k)) as [Hek|Hek], (bool_decide_reflect (k = key)) as [Hk|Hk]; cbn; congruence.
  - rewrite IH. destruct (bool_decide_reflect (kv_key e = k)) as [Hek|Hek], (bool_decide_reflect (k = key)) as [Hk|Hk]; cbn; congruence.
Qed.

Lemma bucket_insert kv fp b chain n i :
  bucket (mk_store fp (<[b := chain]> (buckets kv)) n) i = if decide (i = b) then chain else bucket kv i.
Proof.
  unfold bucket. cbn. destruct (decide (i = b)) as [->|]; [by rewrite lookup_insert_eq|].
  by rewrite lookup_insert_ne.
Qed.

Lemma find_change f kv key k :
  (forall e, kv_key (f e) = kv_key e) ->
  find_entry (change_entry f kv key) k =
  if bool_decide (k = key) then f <$> find_entry kv k else find_entry kv k.
Proof.
  intros Hf. unfold find_entry, change_entry. rewrite bucket_insert.
  destruct (decide (bucket_of k = bucket_of key)) as [E|E].
  - rewrite E, find_change_in by done. done.
  - rewrite bool_decide_eq_false_2; [done|congruence].
Qed.

Lemma find_upsert kv key k :
  exists kv', upsert_entry true kv key = Some kv' /\ kv_fp kv' = kv_fp kv /\
    find_entry kv' k = if bool_decide (k = key) then Some (default (mk_kv key 0 0 0) (find_entry kv k)) else find_entry kv k.
Proof.
  unfold upsert_entry. destruct (find_entry kv key) as [e|] eqn:E.
  - exists kv. split_and!; [done|done|]. destruct (bool_decide_reflect (k = key)) as [->|]; [by rewrite E|done].
  - cbn [negb]. eexists. split; [reflexivity|]. split; [done|]. unfold find_entry at 1. rewrite bucket_insert.
    destruct (decide (bucket_of k = bucket_of key)) as [Eb|Eb].
    + cbn. destruct (bool_decide_reflect (key = k)) as [->|Hne].
      * rewrite bool_decide_eq_true_2, E by done. done.
      * rewrite bool_decide_eq_false_2 by congruence. unfold find_entry. by rewrite Eb.
    + rewrite bool_decide_eq_false_2; [done|congruence].
Qed.

(** Chains hold distinct keys of their own bucket. *)
Definition chains_ok (kv : sl_kvstore) : Prop :=
  forall b, NoDup (kv_key <$> bucket kv b) /\ Forall (fun e => bucket_of (kv_key e) = b) (bucket kv b).

Lemma change_in_keys f chain key :
  (forall e, kv_key (f e) = kv_key e) -> kv_key <$> change_in f chain key = kv_key <$> chain.
Proof.
  intros Hf. induction chain as [|e chain IH]; [done|]. cbn. destruct (bool_decide _); cbn; [by rewrite Hf|].
  by f_equal.
Qed.

Lemma Forall_keys (P : list Z -> Prop) chain : Forall (fun e => P (kv_key e)) chain <-> Forall P (kv_key <$> chain).
Proof. by rewrite Forall_fmap. Qed.

Lemma chains_ok_change f kv key :
  (forall e, kv_key (f e) = kv_key e) -> chains_ok kv -> chains_ok (change_entry f kv key).
Proof.
  intros Hf Hc b. unfold change_entry. rewrite bucket_insert. destruct (decide (b = bucket_of key)) as [->|]; [|apply Hc].
  destruct (Hc (bucket_of key)) as [H1 H2]. rewrite change_in_keys by done. split; [done|].
  rewrite (Forall_keys (fun k => bucket_of k = bucket_of key)) in H2 |- *. by rewrite change_in_keys.
Qed.

Lemma find_in_None chain key : find_in chain key = None -> key ∉ (kv_key <$> chain).
Proof.
  induction chain as [|e chain IH]; [intros _; apply not_elem_of_nil|]. cbn.
  destruct (bool_decide_reflect (kv_key e = key)); [done|]. intros H. rewrite not_elem_of_cons. split; [congruence|auto].
Qed.

Lemma chains_ok_upsert kv key kv' : chains_ok kv -> upsert_entry true kv key = Some kv' -> chains_ok kv'.
Proof.
  intros Hc. unfold upsert_entry. destruct (find_entry kv key) eqn:E; [by intros [= <-]|]. cbn [negb]. intros [= <-] b.
  rewrite bucket_insert. destruct (decide (b = bucket_of key)) as [->|]; [|apply Hc].
  destruct (Hc (bucket_of key)) as [H1 H2]. cbn. split; constructor; try done. by apply find_in_None.
Qed.

Lemma find_in_elem chain e : NoDup (kv_key <$> chain) -> e ∈ chain -> find_in chain (kv_key e) = Some e.
Proof.
  induction chain as [|x chain IH]; [intros _ ?%not_elem_of_nil; done|]. cbn. intros [Hx Hn]%NoDup_cons.
  intros [->|He]%elem_of_cons; [by rewrite bool_decide_eq_true_2|].
  rewrite bool_decide_eq_false_2; [by apply IH|]. intros E. apply Hx. rewrite E. apply list_elem_of_fmap. eauto.
Qed.
Lemma find_in_Some chain key e : find_in chain key = Some e -> e ∈ chain.
Proof.
  induction chain as [|x chain IH]; [done|]. cbn. destruct (bool_decide _); [intros [= ->]; set_solver|]. set_solver.
Qed.

Definition all_entries (kv : sl_kvstore) : list kv_entry := concat (bucket kv <$> seqZ 0 SL_KV_BUCKETS).

Lemma elem_all_entries kv e :
  chains_ok kv -> e ∈ all_entries kv <-> find_entry kv (kv_key e) = Some e.
Proof.
  intros Hc. unfold all_entries. rewrite list_elem_of_In, in_concat. split.
  - intros (chain & H1 & H2). apply list_elem_of_In, list_elem_of_fmap in H1 as (b & -> & _).
    apply list_elem_of_In in H2. destruct (Hc b) as [Hn Hb]. rewrite Forall_forall in Hb.
    unfold find_entry. rewrite (Hb e H2). by apply find_in_elem.
  - intros H%find_in_Some. exists (bucket kv (bucket_of (kv_key e))). split; [|by apply list_elem_of_In].
    apply list_elem_of_In, list_elem_of_fmap. eexists. split; [reflexivity|]. apply elem_of_seqZ, bucket_of_range.
Qed.

Lemma NoDup_all_keys kv : chains_ok kv -> NoDup (kv_key <$> all_entries kv).
Proof.
  intros Hc. unfold all_entries. pose proof (NoDup_seqZ 0 SL_KV_BUCKETS) as Hn.
  induction Hn as [|b l Hb _ IH]; [constructor|]. cbn. rewrite fmap_app. apply NoDup_app. split_and!; [apply Hc| |done].
  intros k H1 H2. destruct (Hc b) as [_ Hk]. rewrite (Forall_keys (fun k => bucket_of k = b)), Forall_forall in Hk.
  specialize (Hk k H1). apply list_elem_of_fmap in H2 as (e & -> & He).
  apply list_elem_of_In, in_concat in He as (chain & H2 & H3).
  apply list_elem_of_In, list_elem_of_fmap in H2 as (b' & -> & Hb'). apply list_elem_of_In in H3.
  destruct (Hc b') as [_ Hk']. rewrite Forall_forall in Hk'. rewrite (Hk' e H3) in Hk. congruence.
Qed.

Definition live_entries (kv : sl_kvstore) : list kv_entry := filter (fun e => is_tomb e = false) (all_entries kv).

Lemma count_live l : forall k,
  is_u64 k ->
  foldl (fun live e => if is_tomb e then live else u64 (live + 1)) k l =
  u64 (k + len (filter (fun e => is_tomb e = false) l)).
Proof.
  induction l as [|e l IH]; intros k Hk; [cbn; rewrite len_nil, Z.add_0_r; by rewrite u64_small|].
  cbn [foldl]. rewrite filter_cons. destruct (is_tomb e) eqn:E.
  - rewrite decide_False by done. by apply IH.
  - rewrite decide_True by done. rewrite IH by apply u64_range. rewrite len_cons. wrap_lia.
Qed.

Lemma kvstore_size_spec kv : sl_kvstore_size kv = u64 (len (live_entries kv)).
Proof.
  unfold sl_kvstore_size, live_entries, all_entries. change 0 with (u64 0) at 1. rewrite <- (Z.add_0_l (len _)).
  assert (Hgen : forall l k, is_u64 k ->
    foldl (fun live i => foldl (fun live e => if is_tomb e then live else u64 (live + 1)) live (bucket kv i)) k l =
    u64 (k + len (filter (fun e => is_tomb e = false) (concat (bucket kv <$> l))))).
  { induction l as [|b l IH]; intros k Hk; [cbn; rewrite len_nil, Z.add_0_r; by rewrite u64_small|].
    cbn [foldl fmap list_fmap concat]. rewrite count_live by done. rewrite IH by apply u64_range.
    rewrite filter_app, len_app. wrap_lia. }
  by apply Hgen.
Qed.

(** ** The store as a map *)

(** The record of [key] and [v] lies at [off] in the file. *)
Definition stored_at (c : list Z) (off : Z) (key v : list Z) : Prop :=
  exists pre post, c = pre ++ record_bytes key v 0 ++ post /\ off = len pre.

Definition entry_repr (c : list Z) (m : gmap (list Z) (list Z)) (key : list Z) (o : option kv_entry) : Prop :=
  match o with
  | None => m !! key = None
  | Some e =>
      if is_tomb e then m !! key = None
      else exists v, m !! key = Some v /\ kv_ok key v /\ kv_vlen e = len v /\ stored_at c (file_offset e) key v
  end.

Definition kv_repr (kv : sl_kvstore) (m : gmap (list Z) (list Z)) : Prop :=
  chains_ok kv /\ forall key, entry_repr (contents (kv_fp kv)) m key (find_entry kv key).

Lemma stored_at_app c off key v x : stored_at c off key v -> stored_at (c ++ x) off key v.
Proof. intros (pre & post & -> & ->). exists pre, (post ++ x). by rewrite <- !app_assoc. Qed.

Lemma entry_repr_app c x m key o : entry_repr c m key o -> entry_repr (c ++ x) m key o.
Proof.
  destruct o as [e|]; [|done]. cbn. destruct (is_tomb e); [done|].
  intros (v & ? & ? & ? & ?). exists v. split_and!; try done. by apply stored_at_app.
Qed.

Lemma tomb_set f : negb (Z.land (Z.lor f SL_KV_FLAG_TOMB) SL_KV_FLAG_TOMB =? 0) = true.
Proof.
  apply negb_true_iff, Z.eqb_neq. rewrite Z.land_lor_distr_l. intros [_ H]%Z.lor_eq_0_iff. done.
Qed.

Lemma NoDup_fmap_filter {A B} (f : A -> B) (P : A -> Prop) `{!forall x, Decision (P x)} l :
  NoDup (f <$> l) -> NoDup (f <$> filter P l).
Proof.
  induction l as [|x l IH]; [done|]. cbn [fmap list_fmap]. intros [Hx Hn]%NoDup_cons. rewrite filter_cons.
  destruct (decide (P x)); [|by apply IH]. cbn. constructor; [|by apply IH].
  intros (y & E & [_ Hy]%list_elem_of_filter)%list_elem_of_fmap. apply Hx, list_elem_of_fmap. eauto.
Qed.

(** What the index alone must know: which keys are live, and the lengths of their values. *)
Definition index_repr (kv : sl_kvstore) (m : gmap (list Z) (list Z)) : Prop :=
  chains_ok kv /\ forall key,
    match find_entry kv key with
    | None => m !! key = None
    | Some e => if is_tomb e then m !! key = None else exists v, m !! key = Some v /\ kv_vlen e = len v
    end.

Lemma repr_index kv m : kv_repr kv m -> index_repr kv m.
Proof.
  intros [Hc Hm]. split; [done|]. intros key. specialize (Hm key). destruct (find_entry kv key) as [e|]; [|done].
  cbn in Hm. destruct (is_tomb e); [done|]. destruct Hm as (v & ? & _ & ? & _). eauto.
Qed.

Lemma size_repr kv m : index_repr kv m -> sl_kvstore_size kv = u64 (Z.of_nat (size m)).
Proof.
  intros [Hc Hm]. rewrite kvstore_size_spec. f_equal. rewrite <- size_dom.
  assert (E : dom m = list_to_set (kv_key <$> live_entries kv)).
  { apply set_eq. intros key. rewrite elem_of_dom, elem_of_list_to_set, list_elem_of_fmap. unfold live_entries.
    setoid_rewrite list_elem_of_filter. specialize (Hm key). split.
    - intros [v Hv]. destruct (find_entry kv key) as [e|] eqn:E; [|congruence].
      destruct (is_tomb e) eqn:Et; [congruence|]. pose proof (find_in_key _ _ _ E) as Hk. exists e.
      split_and!; [done|done|]. apply elem_all_entries; [done|]. by rewrite Hk.
    - intros (e & -> & Et & He). apply elem_all_entries in He; [|done]. rewrite He, Et in Hm. destruct Hm as (v & -> & _). eauto. }
  rewrite E, size_list_to_set; [unfold len; by rewrite length_fmap|].
  by apply NoDup_fmap_filter, NoDup_all_keys.
Qed.

Lemma has_repr kv m key : index_repr kv m -> sl_kvstore_has kv key = bool_decide (is_Some (m !! key)).
Proof.
  intros [_ Hm]. specialize (Hm key). unfold sl_kvstore_has. destruct (find_entry kv key) as [e|]; cbn in Hm.
  - destruct (is_tomb e); cbn; [by rewrite Hm|]. destruct Hm as (v & -> & _). by rewrite bool_decide_eq_true_2.
  - by rewrite Hm.
Qed.

Lemma put_repr s room kv m key value :
  kv_repr kv m -> statics_ok s -> kv_ok key value ->
  len (contents (kv_fp kv)) + len (record_bytes key value 0) <= room ->
  exists kv' s', sl_kvstore_put s room true kv key value = Ok (0, kv', s') /\ statics_ok s' /\
    kv_repr kv' (<[key := value]> m) /\
    contents (kv_fp kv') = contents (kv_fp kv) ++ record_bytes key value 0.
Proof.
  intros [Hc Hm] Hs Hkv Hroom. unfold sl_kvstore_put.
  destruct (write_record_spec s room (kv_fp kv) key value 0 Hs Hkv ltac:(lia) Hroom) as (fp & s' & -> & Hs' & Hfp).
  cbn [Z.eqb negb]. set (kv1 := with_fp kv fp).
  assert (Hc1 : chains_ok kv1) by exact Hc.
  destruct (find_upsert kv1 key key) as (kv2 & Eu & Hfp2 & _). rewrite Eu.
  set (f := fun e => mk_kv (kv_key e) (len (contents (kv_fp kv))) (len value) 0).
  assert (Hf : forall e, kv_key (f e) = kv_key e) by done.
  eexists _, _. split; [reflexivity|]. split; [done|].
  assert (Hcont : contents (kv_fp (change_entry f kv2 key)) = contents (kv_fp kv) ++ record_bytes key value 0).
  { cbn. by rewrite Hfp2. }
  split; [|done]. split; [apply chains_ok_change; [done|]; by eapply chains_ok_upsert|]. intros k. rewrite Hcont.
  rewrite find_change by done. destruct (find_upsert kv1 key k) as (kv2' & Eu' & _ & Ek).
  rewrite Eu in Eu'. injection Eu' as <-. rewrite Ek. clear Ek.
  destruct (bool_decide_reflect (k = key)) as [Ekk|Hne]; [subst k|].
  - cbn. exists value. rewrite lookup_insert_eq. split_and!; try done.
    exists (contents (kv_fp kv)), []. by rewrite app_nil_r.
  - pose proof (entry_repr_app _ (record_bytes key value 0) _ _ _ (Hm k)) as Hk.
    change (find_entry kv1 k) with (find_entry kv k). unfold entry_repr in *. by rewrite lookup_insert_ne by done.
Qed.

Lemma delete_repr s room kv m key :
  kv_repr kv m -> statics_ok s -> kv_ok key [] ->
  len (contents (kv_fp kv)) + len (record_bytes key [] SL_KV_FLAG_TOMB) <= room ->
  exists kv' s', sl_kvstore_delete s room kv key = Ok (0, kv', s') /\ statics_ok s' /\
    kv_repr kv' (delete key m) /\
    contents (kv_fp kv') = contents (kv_fp kv) ++ record_bytes key [] SL_KV_FLAG_TOMB.
Proof.
  intros [Hc Hm] Hs Hkv Hroom. unfold sl_kvstore_delete.
  destruct (write_record_spec s room (kv_fp kv) key [] SL_KV_FLAG_TOMB Hs Hkv ltac:(done) Hroom) as (fp & s' & -> & Hs' & Hfp).
  cbn [Z.eqb negb]. set (kv1 := with_fp kv fp).
  set (f := fun e => mk_kv (kv_key e) (file_offset e) 0 (Z.lor (kv_flags e) SL_KV_FLAG_TOMB)).
  assert (Hf : forall e, kv_key (f e) = kv_key e) by done.
  eexists _, _. split; [reflexivity|]. split; [done|].
  assert (Hk : forall k, k <> key -> entry_repr (contents fp) (delete key m) k (find_entry kv k)).
  { intros k Hne. rewrite Hfp. pose proof (entry_repr_app _ (record_bytes key [] SL_KV_FLAG_TOMB) _ _ _ (Hm k)) as Hk.
    unfold entry_repr in *. by rewrite lookup_delete_ne by congruence. }
  change (find_entry kv1 key) with (find_entry kv key).
  destruct (find_entry kv key) as [e|] eqn:E.
  - split; [|done]. split; [by apply chains_ok_change|]. intros k. rewrite find_change by done.
    change (find_entry kv1 k) with (find_entry kv k). cbn [kv_fp change_entry].
    destruct (bool_decide_reflect (k = key)) as [->|Hne]; [|by apply Hk].
    rewrite E. cbn [fmap option_fmap option_map entry_repr f]. unfold is_tomb. cbn [kv_flags f].
    rewrite tomb_set. apply lookup_delete_eq.
  - split; [|done]. split; [done|]. intros k. change (find_entry kv1 k) with (find_entry kv k). cbn [kv_fp kv1 with_fp].
    destruct (decide (k = key)) as [->|Hne]; [|by apply Hk]. rewrite E. cbn. apply lookup_delete_eq.
Qed.

(** What [get] should return for the binding of its key. *)
Definition spec_get (o : option (list Z)) (buf : list Z) : Z * list Z * option Z :=
  match o with
  | None => (-2, buf, None)
  | Some v => if len buf <? len v then (-3, buf, Some (len v)) else (0, v ++ drop (length v) buf, Some (len v))
  end.

Lemma get_repr kv m key buf :
  kv_repr kv m ->
  exists fp, sl_kvstore_get kv key buf = Ok (spec_get (m !! key) buf, with_fp kv fp) /\
    contents fp = contents (kv_fp kv).
Proof.
  intros [_ Hm]. specialize (Hm key). unfold sl_kvstore_get. destruct kv as [[c pos] bs n]. cbn [kv_fp contents] in *.
  destruct (find_entry _ key) as [e|]; cbn in Hm; [|rewrite Hm; by exists (mk_file c pos)].
  destruct (is_tomb e); [rewrite Hm; by exists (mk_file c pos)|].
  destruct Hm as (v & -> & Hkv & -> & pre & post & Ec & ->). cbn [spec_get].
  destruct (Z.ltb_spec (len buf) (len v)) as [|Hbuf]; [by exists (mk_file c pos)|].
  unfold fseek_set at 1. rewrite (proj2 (Z.ltb_ge _ _)) by apply len_nonneg. cbn [contents].
  unfold record_bytes in Ec. set (crc := be32 _) in Ec. clearbody crc. rewrite <- !app_assoc in Ec. rewrite Ec.
  destruct (read_record_header pre key v 0 (key ++ v ++ crc ++ post) Hkv) as (rest & p & ->).
  pose proof (kv_ok_u64 _ _ Hkv) as [Hk Hv]. pose proof Hkv as (_ & _ & Hk63 & _).
  pose proof (len_varint _ Hk) as Lk. pose proof (len_varint _ Hv) as Lv.
  rewrite (proj2 (Z.eqb_neq (len _) 0)) by (unfold record_header; rewrite !len_app; pose proof (len_nonneg rest); cbn [len length]; len_lia).
  unfold record_header at 1. rewrite <- !app_assoc, read_lengths_spec by done.
  unfold to_long. rewrite (proj2 (Z.ltb_lt (len key) _)) by lia.
  pose proof (len_nonneg pre). pose proof (len_nonneg key).
  unfold fseek_set. rewrite (proj2 (Z.ltb_ge _ _)) by lia. cbn [contents].
  set (h := record_header key v 0).
  assert (Hh : len h = len (varint (len key)) + len (varint (len v)) + 1) by (unfold h, record_header; len_lia).
  replace (len pre + len (varint (len key)) + len (varint (len v)) + 1 + len key) with (len (pre ++ h ++ key)) by len_lia.
  replace (pre ++ h ++ key ++ v ++ crc ++ post) with ((pre ++ h ++ key) ++ v ++ crc ++ post) by (by rewrite <- !app_assoc).
  rewrite fread_app by done. rewrite store_bytes_0 by lia. rewrite Z.eqb_refl. cbn [negb].
  eexists (mk_file _ _). split; [reflexivity|]. cbn. by rewrite <- !app_assoc.
Qed.

Lemma kv_repr_fp kv m fp : kv_repr kv m -> contents fp = contents (kv_fp kv) -> kv_repr (with_fp kv fp) m.
Proof. intros [Hc Hm] E. split; [done|]. intros key. cbn [kv_fp with_fp]. rewrite E. apply Hm. Qed.

(** ** Sessions *)

Inductive kv_op :=
| KPut (key value : list Z)
| KDelete (key : list Z)
| KGet (key buf : list Z)
| KHas (key : list Z)
| KSize.

Inductive kv_out := KRc (rc : Z) | KVal (r : Z * list Z * option Z) | KBool (b : bool) | KNum (n : Z).

Definition kv_step (room : Z) (st : sl_kvstore * crc_statics) (o : kv_op) : M (kv_out * (sl_kvstore * crc_statics)) :=
  let '(kv, s) := st in
  match o with
  | KPut key value => let! '(rc, kv, s) := sl_kvstore_put s room true kv key value in Ok (KRc rc, (kv, s))
  | KDelete key => let! '(rc, kv, s) := sl_kvstore_delete s room kv key in Ok (KRc rc, (kv, s))
  | KGet key buf => let! '(r, kv) := sl_kvstore_get kv key buf in Ok (KVal r, (kv, s))
  | KHas key => Ok (KBool (sl_kvstore_has kv key), (kv, s))
  | KSize => Ok (KNum (sl_kvstore_size kv), (kv, s))
  end.

Fixpoint kv_run (room : Z) (st : sl_kvstore * crc_statics) (os : list kv_op)
  : M (list kv_out * (sl_kvstore * crc_statics)) :=
  match os with
  | [] => Ok ([], st)
  | o :: os =>
      let! '(r, st) := kv_step room st o in
      let! '(rs, st) := kv_run room st os in Ok (r :: rs, st)
  end.

Definition kv_spec_step (m : gmap (list Z) (list Z)) (o : kv_op) : kv_out * gmap (list Z) (list Z) :=
  match o with
  | KPut key value => (KRc 0, <[key := value]> m)
  | KDelete key => (KRc 0, delete key m)
  | KGet key buf => (KVal (spec_get (m !! key) buf), m)
  | KHas key => (KBool (bool_decide (is_Some (m !! key))), m)
  | KSize => (KNum (u64 (Z.of_nat (size m))), m)
  end.

Fixpoint kv_spec_run (m : gmap (list Z) (list Z)) (os : list kv_op) : list kv_out * gmap (list Z) (list Z) :=
  match os with
  | [] => ([], m)
  | o :: os => let '(r, m1) := kv_spec_step m o in let '(rs, m2) := kv_spec_run m1 os in (r :: rs, m2)
  end.

Definition kv_op_ok (o : kv_op) : Prop :=
  match o with KPut key value => kv_ok key value | KDelete key => kv_ok key [] | _ => True end.

(** The bytes an operation appends. *)
Definition op_bytes (o : kv_op) : list Z :=
  match o with
  | KPut key value => record_bytes key value 0
  | KDelete key => record_bytes key [] SL_KV_FLAG_TOMB
  | _ => []
  end.
Definition log_bytes (os : list kv_op) : list Z := concat (op_bytes <$> os).

Lemma kv_step_refines room kv s m o :
  kv_repr kv m -> statics_ok s -> kv_op_ok o -> len (contents (kv_fp kv)) + len (op_bytes o) <= room ->
  exists kv' s', kv_step room (kv, s) o = Ok ((kv_spec_step m o).1, (kv', s')) /\
    kv_repr kv' (kv_spec_step m o).2 /\ statics_ok s' /\
    contents (kv_fp kv') = contents (kv_fp kv) ++ op_bytes o.
Proof.
  intros Hr Hs Ho Hroom. destruct o as [key value|key|key buf|key|]; cbn [kv_step kv_spec_step op_bytes fst snd] in *.
  - destruct (put_repr s room kv m key value Hr Hs Ho Hroom) as (kv' & s' & -> & H1 & H2 & H3). eauto 10.
  - destruct (delete_repr s room kv m key Hr Hs Ho Hroom) as (kv' & s' & -> & H1 & H2 & H3). eauto 10.
  - destruct (get_repr kv m key buf Hr) as (fp & -> & Hfp). eexists _, _. split; [reflexivity|].
    split_and!; [by apply kv_repr_fp|done|]. cbn. by rewrite app_nil_r.
  - rewrite (has_repr kv m) by (by apply repr_index). eexists _, _. split; [reflexivity|]. by rewrite app_nil_r.
  - rewrite (size_repr kv m) by (by apply repr_index). eexists _, _. split; [reflexivity|]. by rewrite app_nil_r.
Qed.

Lemma kv_run_refines room os : forall kv s m,
  kv_repr kv m -> statics_ok s -> Forall kv_op_ok os -> len (contents (kv_fp kv)) + len (log_bytes os) <= room ->
  exists kv' s', kv_run room (kv, s) os = Ok ((kv_spec_run m os).1, (kv', s')) /\
    kv_repr kv' (kv_spec_run m os).2 /\ contents (kv_fp kv') = contents (kv_fp kv) ++ log_bytes os.
Proof.
  induction os as [|o os IH]; intros kv s m Hr Hs Hos Hroom.
  { exists kv, s. cbn. by rewrite app_nil_r. }
  apply Forall_cons_1 in Hos as [Ho Hos]. unfold log_bytes in *. cbn [fmap list_fmap concat] in *.
  rewrite len_app in Hroom. pose proof (len_nonneg (concat (op_bytes <$> os))).
  destruct (kv_step_refines room kv s m o Hr Hs Ho ltac:(lia)) as (kv1 & s1 & E1 & Hr1 & Hs1 & Ec1).
  cbn [kv_run kv_spec_run]. rewrite E1. destruct (kv_spec_step m o) as [r m1]. cbn [fst snd] in *.
  destruct (IH kv1 s1 m1 Hr1 Hs1 Hos) as (kv2 & s2 & E2 & Hr2 & Ec2); [rewrite Ec1, len_app; lia|].
  rewrite E2. destruct (kv_spec_run m1 os) as [rs m2]. exists kv2, s2. split_and!; [done|done|].
  by rewrite Ec2, Ec1, <- app_assoc.
Qed.

(** Opening an empty file. *)
Lemma open_empty : sl_kvstore_open 1 true (Some []) = Ok (Some (mk_store (mk_file [] 0) ∅ 0)).
Proof. reflexivity. Qed.

Lemma empty_repr : kv_repr (mk_store (mk_file [] 0) ∅ 0) ∅.
Proof.
  split; [|intros key; cbn; unfold find_entry, bucket; cbn; by rewrite lookup_empty].
  intros b. unfold bucket. cbn. rewrite lookup_empty. cbn. split; constructor.
Qed.

(** C6: Within one session the store is a map: on a freshly created file, while the disk has room
    for the records, every sequence of put, delete, get, has and size calls returns what a finite map from keys to values would,
    reading the values back from the records on disk; no call faults, and the file is the log of
    the operations. *)
Theorem kvstore_session_refines_map room s os :
  statics_ok s -> Forall kv_op_ok os -> len (log_bytes os) <= room ->
  exists kv kv' s', sl_kvstore_open 1 true (Some []) = Ok (Some kv) /\
    kv_run room (kv, s) os = Ok ((kv_spec_run ∅ os).1, (kv', s')) /\
    contents (kv_fp kv') = log_bytes os.
Proof.
  intros Hs Hos Hroom. exists (mk_store (mk_file [] 0) ∅ 0).
  destruct (kv_run_refines room os _ s ∅ empty_repr Hs Hos) as (kv' & s' & E & _ & Ec); [exact Hroom|].
  exists kv', s'. split_and!; [apply open_empty|done|]. by rewrite Ec.
Qed.

Definition demo_kv_ops : list kv_op :=
  [KPut [107; 49] [1; 2; 3]; KPut [107; 50] [9]; KGet [107; 49] [0; 0; 0; 0]; KDelete [107; 50];
   KGet [107; 50] [0]; KHas [107; 49]].

Lemma demo_kv_ops_ok : Forall kv_op_ok demo_kv_ops.
Proof. repeat constructor; cbn; lia. Qed.

Lemma kvstore_session_refines_map_witness :
  exists kv kv' s', sl_kvstore_open 1 true (Some []) = Ok (Some kv) /\
    kv_run 1000 (kv, crc_start) demo_kv_ops = Ok ((kv_spec_run ∅ demo_kv_ops).1, (kv', s')) /\
    contents (kv_fp kv') = log_bytes demo_kv_ops.
Proof.
  apply (kvstore_session_refines_map 1000 crc_start demo_kv_ops).
  - split; [reflexivity|discriminate].
  - apply demo_kv_ops_ok.
  - vm_compute. congruence.
Defined.

(** ** Reopening *)

Lemma index_put kv m key f v :
  index_repr kv m -> (forall e, kv_key (f e) = kv_key e) ->
  (forall e, is_tomb (f e) = false /\ kv_vlen (f e) = len v) ->
  exists kv', upsert_entry true kv key = Some kv' /\ kv_fp kv' = kv_fp kv /\
    index_repr (change_entry f kv' key) (<[key := v]> m).
Proof.
  intros [Hc Hm] Hf Hfv. destruct (find_upsert kv key key) as (kv' & Eu & Hfp & _). exists kv'. split_and!; [done|done|].
  split; [apply chains_ok_change; [done|]; by eapply chains_ok_upsert|]. intros k. rewrite find_change by done.
  destruct (find_upsert kv key k) as (kv2 & Eu' & _ & Ek). rewrite Eu in Eu'. injection Eu' as <-. rewrite Ek. clear Ek.
  destruct (bool_decide_reflect (k = key)) as [Ekk|Hne]; [subst k|].
  - cbn. destruct (Hfv (default (mk_kv key 0 0 0) (find_entry kv key))) as [-> Hv]. exists v.
    by rewrite lookup_insert_eq.
  - specialize (Hm k). by rewrite lookup_insert_ne by done.
Qed.

Lemma index_delete kv m key f :
  index_repr kv m -> (forall e, kv_key (f e) = kv_key e) -> (forall e, is_tomb (f e) = true) ->
  index_repr (match find_entry kv key with Some _ => change_entry f kv key | None => kv end) (delete key m).
Proof.
  intros [Hc Hm] Hf Ht.
  assert (Hk : forall k, k <> key -> match find_entry kv k with
    | None => delete key m !! k = None
    | Some e => if is_tomb e then delete key m !! k = None else exists v, delete key m !! k = Some v /\ kv_vlen e = len v
    end).
  { intros k Hne. specialize (Hm k). by rewrite lookup_delete_ne by congruence. }
  destruct (find_entry kv key) as [e|] eqn:E.
  - split; [by apply chains_ok_change|]. intros k. rewrite find_change by done.
    destruct (bool_decide_reflect (k = key)) as [->|Hne]; [|by apply Hk].
    rewrite E. cbn. rewrite Ht. apply lookup_delete_eq.
  - split; [done|]. intros k. destruct (decide (k = key)) as [->|Hne]; [|by apply Hk].
    rewrite E. apply lookup_delete_eq.
Qed.

Lemma index_fp kv m fp : index_repr kv m -> index_repr (with_fp kv fp) m.
Proof. done. Qed.

Lemma fseek_cur_ok c p off : 0 <= p + off -> fseek_cur (mk_file c p) off = Some (mk_file c (p + off)).
Proof. intros. unfold fseek_cur, fseek_set. cbn. by rewrite (proj2 (Z.ltb_ge _ _)) by lia. Qed.

Lemma replay_apply_spec kv m key value flags voff :
  index_repr kv m -> len value < 2 ^ 63 -> 0 <= fpos (kv_fp kv) ->
  (flags = 0 \/ flags = SL_KV_FLAG_TOMB /\ value = []) ->
  exists kv', replay_apply true kv key flags voff (len value) =
    (kv', Some (mk_file (contents (kv_fp kv)) (fpos (kv_fp kv) + len value))) /\
    index_repr kv' (if flags =? 0 then <[key := value]> m else delete key m).
Proof.
  intros Hi Hv63 Hp Hfl. unfold replay_apply. pose proof (len_nonneg value).
  destruct Hfl as [->|[-> ->]].
  - cbn [Z.land Z.eqb negb]. destruct (index_put kv m key (fun e => mk_kv (kv_key e) voff (len value) 0) value Hi)
      as (kv' & -> & _ & Hi'); [done|done|].
    destruct (kv_fp kv) as [c p] eqn:Efp. cbn [contents fpos] in *.
    unfold to_long. rewrite (proj2 (Z.ltb_lt _ _)) by lia. rewrite fseek_cur_ok by lia. by eexists.
  - change (negb (Z.land SL_KV_FLAG_TOMB SL_KV_FLAG_TOMB =? 0)) with true. cbv iota.
    eexists. split.
    + do 2 f_equal. rewrite len_nil, Z.add_0_r. by destruct (kv_fp kv).
    + apply index_delete; [done|done|]. intros e. apply tomb_set.
Qed.

(** One round of the replay on a record: the index follows the operation that wrote it. *)
Lemma replay_round_spec kv m pre key value flags post :
  index_repr kv m -> kv_ok key value -> len key <= 4096 ->
  (flags = 0 \/ flags = SL_KV_FLAG_TOMB /\ value = []) ->
  kv_fp kv = mk_file (pre ++ record_bytes key value flags ++ post) (len pre) ->
  exists kv', replay_round true kv (len pre) = Ok (kv', Some (len (pre ++ record_bytes key value flags))) /\
    index_repr kv' (if flags =? 0 then <[key := value]> m else delete key m) /\
    kv_fp kv' = mk_file (pre ++ record_bytes key value flags ++ post) (len (pre ++ record_bytes key value flags)).
Proof.
  intros Hi Hkv Hk4 Hfl Hfp. unfold replay_round. rewrite Hfp.
  unfold record_bytes. set (crc := be32 (crc32c _)). assert (Hcrc : len crc = 4) by done. clearbody crc.
  rewrite <- !app_assoc. destruct (read_record_header pre key value flags (key ++ value ++ crc ++ post) Hkv) as (rest & p & ->).
  pose proof (kv_ok_u64 _ _ Hkv) as [Hk Hv]. pose proof Hkv as (_ & _ & Hk63 & Hv63).
  pose proof (len_varint _ Hk) as Lk. pose proof (len_varint _ Hv) as Lv.
  pose proof (len_nonneg pre). pose proof (len_nonneg key). pose proof (len_nonneg value). pose proof (len_nonneg rest).
  set (h := record_header key value flags).
  assert (Hh : len h = len (varint (len key)) + len (varint (len value)) + 1) by (unfold h, record_header; len_lia).
  rewrite (proj2 (Z.eqb_neq _ 0)) by (rewrite len_app; lia).
  assert (Er : read_lengths (h ++ rest) = Ok (Some (len (varint (len key)), len key, len (varint (len value)), len value))).
  { unfold h, record_header. rewrite <- !app_assoc. by apply read_lengths_spec. }
  rewrite Er, (proj2 (Z.ltb_ge (len (h ++ rest)) _)) by (rewrite len_app; lia).
  assert (Ef : load (h ++ rest) (len (varint (len key)) + len (varint (len value))) = Ok flags).
  { unfold h, record_header. rewrite app_assoc, <- app_assoc. apply load_app_at. by rewrite len_app. }
  rewrite Ef. unfold fseek_set at 1. rewrite (proj2 (Z.ltb_ge _ 0)) by lia. rewrite (proj2 (Z.ltb_ge 4096 _)) by lia.
  cbn [contents]. replace (len pre + len (varint (len key)) + len (varint (len value)) + 1) with (len (pre ++ h)) by (rewrite len_app; lia).
  replace (pre ++ h ++ key ++ value ++ crc ++ post) with ((pre ++ h) ++ key ++ value ++ crc ++ post) by (by rewrite <- !app_assoc).
  rewrite fread_app by done. rewrite Z.eqb_refl. cbn [negb].
  set (kv1 := with_fp _ (mk_file _ (len ((pre ++ h) ++ key)))).
  pose proof (len_nonneg ((pre ++ h) ++ key)) as Hp.
  destruct (replay_apply_spec kv1 m key value flags (len (pre ++ h) + len key)) as (kv2 & -> & Hi2); [done..|].
  cbn [kv1 with_fp kv_fp contents fpos]. rewrite fseek_cur_ok by lia. cbn [ftell fpos].
  assert (Ep : len ((pre ++ h) ++ key) + len value + 4 = len (pre ++ h ++ key ++ value ++ crc)) by len_lia.
  rewrite Ep. eexists. split; [reflexivity|]. split; [done|]. cbn [with_fp kv_fp]. by rewrite <- !app_assoc.
Qed.

(** What the replay can read back: keys that fit its buffer. *)
Definition kv_op_short (o : kv_op) : Prop :=
  match o with KPut key _ | KDelete key => len key <= 4096 | _ => True end.

Lemma kv_replay_spec os : forall fuel kv m pre,
  Forall kv_op_ok os -> Forall kv_op_short os -> index_repr kv m -> (length (log_bytes os) < fuel)%nat ->
  kv_fp kv = mk_file (pre ++ log_bytes os) (len pre) ->
  exists kv', kv_replay fuel true kv (len pre) = Ok kv' /\ index_repr kv' (kv_spec_run m os).2 /\
    contents (kv_fp kv') = pre ++ log_bytes os.
Proof.
  induction os as [|o os IH]; intros fuel kv m pre Hok Hsh Hi Hf Hfp.
  { destruct fuel; [cbn in Hf; lia|]. cbn [kv_replay]. unfold replay_round. rewrite Hfp. rewrite fread_at by lia.
    cbn. eexists. by split. }
  apply Forall_cons_1 in Hok as [Ho Hok]. apply Forall_cons_1 in Hsh as [Hs Hsh].
  assert (Hlog : log_bytes (o :: os) = op_bytes o ++ log_bytes os) by done. rewrite Hlog in *.
  assert (Hround : forall key value flags, op_bytes o = record_bytes key value flags -> kv_ok key value -> len key <= 4096 ->
    (flags = 0 \/ flags = SL_KV_FLAG_TOMB /\ value = []) ->
    (kv_spec_step m o).2 = (if flags =? 0 then <[key := value]> m else delete key m) ->
    exists kv', kv_replay fuel true kv (len pre) = Ok kv' /\ index_repr kv' (kv_spec_run m (o :: os)).2 /\
      contents (kv_fp kv') = pre ++ op_bytes o ++ log_bytes os).
  { intros key value flags Eo Hkv Hk4 Hfl Em. destruct fuel as [|fuel]; [lia|]. cbn [kv_replay kv_spec_run].
    rewrite Eo in *. destruct (replay_round_spec kv m pre key value flags (log_bytes os) Hi Hkv Hk4 Hfl Hfp)
      as (kv1 & -> & Hi1 & Hfp1). rewrite <- Em in Hi1. destruct (kv_spec_step m o) as [r m1]. cbn [snd] in Hi1.
    destruct (IH fuel kv1 m1 (pre ++ record_bytes key value flags) Hok Hsh Hi1) as (kv2 & E2 & Hi2 & Ec2).
    - rewrite length_app in Hf. unfold record_bytes in Hf. rewrite !length_app in Hf. cbn [length be32] in Hf. lia.
    - by rewrite <- app_assoc.
    - destruct (kv_spec_run m1 os). exists kv2. rewrite <- app_assoc in Ec2. done. }
  destruct o as [key value|key|key buf|key|]; cbn [op_bytes app] in *.
  - apply (Hround key value 0); auto.
  - apply (Hround key [] SL_KV_FLAG_TOMB); auto.
  - destruct (IH fuel kv m pre Hok Hsh Hi Hf Hfp) as (kv1 & E & Hi1 & Ec). exists kv1. cbn [kv_spec_run kv_spec_step].
    by destruct (kv_spec_run m os).
  - destruct (IH fuel kv m pre Hok Hsh Hi Hf Hfp) as (kv1 & E & Hi1 & Ec). exists kv1. cbn [kv_spec_run kv_spec_step].
    by destruct (kv_spec_run m os).
  - destruct (IH fuel kv m pre Hok Hsh Hi Hf Hfp) as (kv1 & E & Hi1 & Ec). exists kv1. cbn [kv_spec_run kv_spec_step].
    by destruct (kv_spec_run m os).
Qed.

(** C26: Reopening a store recovers its index: replaying the file that any session left behind
    (with keys of at most 4096 bytes) terminates and yields a store in which [has] and [size]
    answer as at the end of that session. *)
Theorem kvstore_reopen_recovers_index os key :
  Forall kv_op_ok os -> Forall kv_op_short os ->
  let m := (kv_spec_run ∅ os).2 in
  exists kv, sl_kvstore_open (S (length (log_bytes os))) true (Some (log_bytes os)) = Ok (Some kv) /\
    contents (kv_fp kv) = log_bytes os /\
    sl_kvstore_has kv key = bool_decide (is_Some (m !! key)) /\ sl_kvstore_size kv = u64 (Z.of_nat (size m)).
Proof.
  intros Hok Hsh m. unfold sl_kvstore_open.
  destruct (kv_replay_spec os (S (length (log_bytes os))) (mk_store (mk_file (log_bytes os) 0) ∅ 0) ∅ [] Hok Hsh)
    as (kv & E & Hi & Ec); [|lia|done|].
  - split; [apply empty_repr|]. intros k. unfold find_entry, bucket. cbn. rewrite lookup_empty. done.
  - change (len []) with 0 in E. rewrite E. exists kv. split_and!; [done|done| |].
    + by apply has_repr.
    + by apply size_repr.
Qed.

Lemma kvstore_reopen_recovers_index_witness :
  exists kv, sl_kvstore_open (S (length (log_bytes demo_kv_ops))) true (Some (log_bytes demo_kv_ops)) = Ok (Some kv) /\
    sl_kvstore_has kv [107; 49] = bool_decide (is_Some ((kv_spec_run ∅ demo_kv_ops).2 !! [107; 49])).
Proof.
  destruct (kvstore_reopen_recovers_index demo_kv_ops [107; 49]) as (kv & E & _ & H & _).
  - apply demo_kv_ops_ok.
  - repeat constructor; vm_compute; congruence.
  - exists kv. split; [exact E|exact H].
Defined.

(** ** Defects *)

(** After reopening, an entry's offset points at its value while [get] expects the start of
    the record: the value bytes are decoded as a header. A stored value is then lost or, worse,
    chosen by its own bytes: here the value [[0; 2; 0; 65; 66]] reads back as [[65; 66]]. *)
Definition reopen_log : list Z := log_bytes [KPut [107] [0; 2; 0; 65; 66]].
Definition get_after_reopen (log key buf : list Z) : M (Z * list Z * option Z) :=
  let! o := sl_kvstore_open (S (length log)) true (Some log) in
  match o with
  | None => Fault
  | Some kv => let! '(r, _) := sl_kvstore_get kv key buf in Ok r
  end.
Lemma reopened_get_returns_other_bytes :
  get_after_reopen reopen_log [107] (replicate 5 7) = Ok (0, [65; 66; 7; 7; 7], Some 5).
Proof. vm_compute. reflexivity. Qed.

(** The length decoded there is not checked against the caller's buffer, which was sized for
    the real value: a value can make [get] write past the end of the buffer. *)
Definition overflow_log : list Z := log_bytes [KPut [107] [0; 6; 0; 1; 2]].
Lemma reopened_get_overflows : get_after_reopen overflow_log [107] (replicate 5 0) = Fault.
Proof. vm_compute. reflexivity. Qed.

(** The checksum of a record is written but never read: a store with a corrupted value opens
    and the key counts as present. *)
Lemma corrupted_record_accepted :
  let log := record_bytes [107] [1; 2] 0 in
  let bad := take 4 log ++ [99] ++ drop 5 log in
  bad <> log /\
  (let! o := sl_kvstore_open 100 true (Some bad) in Ok ((fun kv => sl_kvstore_has kv [107]) <$> o)) = Ok (Some true).
Proof. split; [vm_compute; discriminate|vm_compute; reflexivity]. Qed.

(** A length above [LONG_MAX] makes the replay seek backwards, so a crafted file keeps
    [sl_kvstore_open] in its loop for ever. *)
Definition looping_log : list Z :=
  record_bytes [] [] 0 ++ [0] ++ varint (2 ^ 64 - 16) ++ [0].

(** The store after [n] rounds. *)
Fixpoint rounds (n : nat) (kv : sl_kvstore) (pos : Z) : M (sl_kvstore * option Z) :=
  match n with
  | O => Ok (kv, Some pos)
  | S n =>
      let! '(kv, next) := replay_round true kv pos in
      match next with Some pos => rounds n kv pos | None => Ok (kv, None) end
  end.
Definition looping_store : sl_kvstore :=
  match rounds 2 (mk_store (mk_file looping_log 0) ∅ 0) 0 with
  | Ok (kv, _) => kv
  | Fault => mk_store (mk_file [] 0) ∅ 0
  end.

(** A store that a round leads back to is never left. *)
Lemma replay_stuck kv pos fuel :
  replay_round true kv pos = Ok (kv, Some pos) -> kv_replay fuel true kv pos = Fault.
Proof. intros E. induction fuel as [|f IH]; [done|]. cbn [kv_replay]. by rewrite E. Qed.

Lemma replay_two_rounds kv kv' pos pos' fuel :
  rounds 2 kv pos = Ok (kv', Some pos') ->
  kv_replay fuel true kv pos = Fault \/ exists fuel', kv_replay fuel true kv pos = kv_replay fuel' true kv' pos'.
Proof.
  cbn [rounds]. intros E. destruct fuel as [|[|fuel]]; cbn [kv_replay]; [by left| |];
    (destruct (replay_round true kv pos) as [[kv1 [p1|]]|]; [|discriminate E..]); [by left|].
  destruct (replay_round true kv1 p1) as [[kv2 [p2|]]|]; [|discriminate E..].
  injection E as -> ->. right. by exists fuel.
Qed.

Lemma looping_store_fixed : replay_round true looping_store 7 = Ok (looping_store, Some 7).
Proof. vm_compute. reflexivity. Qed.

Lemma looping_store_reached :
  rounds 2 (mk_store (mk_file looping_log 0) ∅ 0) 0 = Ok (looping_store, Some 7).
Proof. vm_compute. reflexivity. Qed.

Lemma open_never_returns fuel : sl_kvstore_open fuel true (Some looping_log) = Fault.
Proof.
  unfold sl_kvstore_open. destruct (replay_two_rounds _ _ _ _ fuel looping_store_reached) as [->|[f ->]]; [reflexivity|].
  rewrite (replay_stuck _ _ _ looping_store_fixed). reflexivity.
Qed.
