(* ===== verification/Rng.v ===== *)
(** The random generator wrapper (sl_rng.c) and the identifiers drawn from it (sl_id.c).
    OpenSSL's RAND_bytes is a parameter: a generator state, and a call that either fails or
    delivers the number of bytes asked for. *)

From S2P Require Import Prelude ByteOrder Hex.
Local Open Scope Z_scope.

(** ** The parameter *)

Class Rand (R : Type) := RAND_bytes : R -> Z -> option (list Z) * R.

(** What the callers rely on: a call that succeeds has filled the buffer with bytes. *)
Class RandLaws (R : Type) `{Rand R} :=
  rand_fills : forall r n bs r', 0 <= n -> RAND_bytes r n = (Some bs, r') -> len bs = n /\ bytes_ok bs.

(** A generator that replays a list of outcomes; the words it is given are reduced to bytes. *)
Definition toy_rand_bytes (r : list (option (list Z))) (n : Z) : option (list Z) * list (option (list Z)) :=
  match r with
  | Some bs :: r => (Some (take (Z.to_nat n) (map u8 bs ++ replicate (Z.to_nat n) 0)), r)
  | None :: r => (None, r)
  | [] => (None, [])
  end.
#[export] Instance toy_rand : Rand (list (option (list Z))) := toy_rand_bytes.
#[export] Instance toy_rand_laws : RandLaws (list (option (list Z))).
Proof.
  intros r n bs r' Hn. unfold RAND_bytes, toy_rand, toy_rand_bytes.
  destruct r as [|[b|] r]; intros [=]; subst. split.
  - apply len_take. len_lia.
  - apply bytes_ok_take, bytes_ok_app; [|apply bytes_ok_replicate; lia].
    apply Forall_map, Forall_true. intros x. cbn. apply u8_range.
Qed.

Section Rng.
Context {R : Type} `{RandLaws R}.

(** ** Operations *)

(* src/src/sl_rng.c:6-14 *)
Definition sl_rng_init (r : R) : Z * R :=
  let '(o, r) := RAND_bytes r 1 in
  match o with None => (-1, r) | Some _ => (0, r) end.

Definition RNG_CHUNK := 1048576.

(** The buffer after a failure is unspecified: [None] stands for it. *)
(* src/src/sl_rng.c:21-29 [sl_rng_bytes] *)
Fixpoint rng_fill (fuel : nat) (n : Z) (r : R) : M (option (list Z) * R) :=
  if n <=? 0 then Ok (Some [], r) else
  match fuel with
  | O => Fault
  | S fuel =>
      let chunk := if RNG_CHUNK <? n then RNG_CHUNK else n in
      let '(o, r) := RAND_bytes r chunk in
      match o with
      | None => Ok (None, r)
      | Some bs =>
          let! '(o, r) := rng_fill fuel (n - chunk) r in
          Ok (match o with None => None | Some t => Some (bs ++ t) end, r)
      end
  end.

(* src/src/sl_rng.c:16-30 *)
Definition sl_rng_bytes (n : Z) (r : R) : M (option (list Z) * R) :=
  if n =? 0 then Ok (None, r) else rng_fill (S (Z.to_nat (n / RNG_CHUNK))) n r.

(* src/src/sl_rng.c:32-39 *)
Definition sl_rng_u32 (r : R) : M (option Z * R) :=
  let! '(o, r) := sl_rng_bytes 4 r in
  match o with
  | None => Ok (None, r)
  | Some b =>
      let! b0 := load b 0 in let! b1 := load b 1 in
      let! b2 := load b 2 in let! b3 := load b 3 in
      Ok (Some (u32 (Z.lor (Z.lor (Z.lor (b0 ≪ 24) (b1 ≪ 16)) (b2 ≪ 8)) b3)), r)
  end.

(* src/src/sl_rng.c:41-50 *)
Definition sl_rng_u64 (r : R) : M (option Z * R) :=
  let! '(o, r) := sl_rng_bytes 8 r in
  match o with
  | None => Ok (None, r)
  | Some b =>
      let! v := for_up 8 0 (fun i v => let! x := load b i in Ok (u64 (Z.lor (u64 (v ≪ 8)) x))) 0 in
      Ok (Some v, r)
  end.

(* src/src/sl_rng.c:56-56 [sl_rng_uniform] *)
Definition uniform_limit (upper : Z) : Z := UINT64_MAX - UINT64_MAX mod upper.

(* src/src/sl_rng.c:58-64 [sl_rng_uniform] *)
Fixpoint uniform_loop (fuel : nat) (upper : Z) (r : R) : M (option Z * R) :=
  match fuel with
  | O => Fault
  | S fuel =>
      let! '(o, r) := sl_rng_u64 r in
      match o with
      | None => Ok (None, r)
      | Some v => if v <? uniform_limit upper then Ok (Some (v mod upper), r) else uniform_loop fuel upper r
      end
  end.

(* src/src/sl_rng.c:52-65 *)
Definition sl_rng_uniform (fuel : nat) (upper : Z) (r : R) : M (option Z * R) :=
  if upper =? 0 then Ok (None, r) else uniform_loop fuel upper r.

(* src/src/sl_id.c:7-18 *)
Definition sl_id_random_u64 (r : R) : M (option Z * R) :=
  let! x := for_ret 8 0 (fun _ r =>
    let! '(o, r) := sl_rng_u64 r in
    match o with
    | None => Ok (inr (None, r))
    | Some v => if negb (v =? 0) then Ok (inr (Some v, r)) else Ok (inl r)
    end) r in
  match x with inl r => Ok (None, r) | inr res => Ok res end.

(** ** The byte source *)

Lemma rng_fill_total fuel : forall n r,
  0 <= n -> n / RNG_CHUNK < Z.of_nat fuel \/ n = 0 ->
  exists o r', rng_fill fuel n r = Ok (o, r') /\
    match o with None => True | Some bs => len bs = n /\ bytes_ok bs end.
Proof.
  unfold RNG_CHUNK. induction fuel as [|f IH]; intros n r Hn Hf; cbn [rng_fill].
  - destruct Hf as [Hf| ->]; [Z.div_mod_to_equations; lia|]. eexists _, _. split; [done|]. split; [done|apply bytes_ok_nil].
  - destruct (Z.leb_spec n 0); [eexists _, _; split; [done|split; [change (@len Z []) with 0; lia|apply bytes_ok_nil]]|].
    unfold RNG_CHUNK. set (chunk := if 1048576 <? n then _ else _).
    assert (Hc : 0 < chunk <= n /\ (chunk = n \/ chunk = 1048576)) by (unfold chunk; destruct (Z.ltb_spec 1048576 n); lia).
    destruct (RAND_bytes r chunk) as [[bs|] r'] eqn:E; [|by eexists _, _].
    destruct (rand_fills r chunk bs r' ltac:(lia) E) as [Hl Hb].
    destruct (IH (n - chunk) r') as (o & r'' & -> & Ho); [lia|..].
    { destruct Hf as [Hf|]; [|lia]. destruct Hc as [_ [->| ->]]; [right; lia|left; Z.div_mod_to_equations; lia]. }
    simpl. eexists _, _. split; [done|]. destruct o as [t|]; [|done].
    destruct Ho. split; [len_lia|by apply bytes_ok_app].
Qed.

Lemma rng_bytes_total n r :
  0 <= n -> exists o r', sl_rng_bytes n r = Ok (o, r') /\
    match o with None => True | Some bs => len bs = n /\ bytes_ok bs end.
Proof.
  intros Hn. unfold sl_rng_bytes. destruct (Z.eqb_spec n 0); [by eexists _, _|].
  apply rng_fill_total; unfold RNG_CHUNK; [lia|]. left. Z.div_mod_to_equations. lia.
Qed.

(** The eight bytes are read most significant first. *)
Lemma fold_be64 v : is_u64 v ->
  foldl (fun a x => u64 (Z.lor (u64 (a ≪ 8)) x)) 0 (be64 v) = v.
Proof.
  intros Hv.
  assert (Hs : forall q, is_u64 q -> u64 (Z.lor (u64 ((q / 256) ≪ 8)) (q mod 256)) = q).
  { intros q Hq. pose proof (Z.div_mod q 256 ltac:(lia)). pose proof (Z.mod_pos_bound q 256 ltac:(lia)).
    rewrite (u64_small ((q / 256) ≪ 8)) by (rewrite Z.shiftl_mul_pow2 by lia; change (2 ^ 8) with 256; lia).
    rewrite lor_shiftl_add by (try apply Z.mod_pos_bound; lia). change (2 ^ 8) with 256.
    rewrite u64_small; lia. }
  assert (Hd : forall k, v / 2 ^ k / 256 = v / 2 ^ k / 2 ^ 8) by done.
  assert (Hb : forall n m, 0 <= n -> 0 <= m -> v / 2 ^ n / 2 ^ m = v / 2 ^ (n + m)).
  { intros. by rewrite Z.div_div, <- Z.pow_add_r by lia. }
  assert (Hr : forall k, 0 <= k -> is_u64 (v / 2 ^ k)).
  { intros k Hk. split; [apply Z.div_pos; lia|]. apply Z.div_lt_upper_bound; [lia|]. nia. }
  assert (Hl : forall w k, 0 <= k <= 24 -> u8 (u32 w ≫ k) = (w / 2 ^ k) mod 256).
  { intros w k Hk. rewrite shiftr_div by lia. unfold u8, u32. change 4294967296 with (2 ^ 32).
    rewrite <- !Z.land_ones by lia. change 256 with (2 ^ 8). rewrite <- !Z.land_ones by lia.
    rewrite <- !Z.shiftr_div_pow2 by lia. apply Z.bits_inj'. intros i Hi.
    rewrite !Z.land_spec, !Z.shiftr_spec, Z.land_spec, !Z.testbit_ones_nonneg by lia.
    destruct (Z.ltb_spec i 8); [|by rewrite !andb_false_r]. rewrite (proj2 (Z.ltb_lt _ _)) by lia.
    by rewrite !andb_true_r. }
  assert (Hc : forall n m, m = n + 8 -> 0 <= n -> u64 (Z.lor (u64 ((v / 2 ^ m) ≪ 8)) ((v / 2 ^ n) mod 256)) = v / 2 ^ n).
  { intros n m -> Hn. pose proof (Hs (v / 2 ^ n) (Hr n Hn)) as E. by rewrite Hd, Hb in E by lia. }
  unfold be64, be32. cbn [app foldl].
  replace 0 with (v / 2 ^ 64) at 1 by (apply Z.div_small; simpl; lia).
  replace (u8 (u32 (v ≫ 32))) with (u8 (u32 (v ≫ 32) ≫ 0)) by (by rewrite Z.shiftr_0_r).
  replace (u8 (u32 v)) with (u8 (u32 v ≫ 0)) by (by rewrite Z.shiftr_0_r).
  rewrite !Hl, !shiftr_div, !Hb by lia.
  change (32 + 24) with 56. change (32 + 16) with 48. change (32 + 8) with 40. change (32 + 0) with 32.
  rewrite (Hc 56 64), (Hc 48 56), (Hc 40 48), (Hc 32 40), (Hc 24 32), (Hc 16 24), (Hc 8 16), (Hc 0 8) by lia.
  apply Z.div_1_r.
Qed.

Lemma eight_bytes_be64 bs : len bs = 8 -> bytes_ok bs -> exists v, is_u64 v /\ bs = be64 v.
Proof.
  intros Hl Hb. destruct (unpack_u64_sound bs 0) as (v & _ & Hv & E); [done|lia..|].
  exists v. split; [done|]. change (Z.to_nat 0) with 0%nat in E. rewrite drop_0, drop_ge, app_nil_r in E; [done|].
  unfold len in Hl. lia.
Qed.

(** The outcome of one 64-bit draw, and of the k-th of a series. *)
Definition u64_draw (r : R) : option Z * R :=
  let '(o, r) := RAND_bytes r 8 in
  (foldl (fun a x => u64 (Z.lor (u64 (a ≪ 8)) x)) 0 <$> o, r).

Fixpoint nth_draw (k : nat) (r : R) : option Z :=
  match k with O => (u64_draw r).1 | S k => nth_draw k (u64_draw r).2 end.

Lemma rng_u64_spec r :
  sl_rng_u64 r = Ok (u64_draw r) /\ match (u64_draw r).1 with None => True | Some v => is_u64 v end.
Proof.
  unfold sl_rng_u64, u64_draw, sl_rng_bytes. change (8 =? 0) with false.
  change (8 / RNG_CHUNK) with 0. cbn [Z.to_nat rng_fill]. change (8 <=? 0) with false.
  change (RNG_CHUNK <? 8) with false. cbv beta iota zeta. cbn [Z.to_nat].
  destruct (RAND_bytes r 8) as [[bs|] r'] eqn:E; [|done].
  destruct (rand_fills r 8 bs r' ltac:(lia) E) as [Hl Hb].
  change (Z.to_nat 0) with 0%nat. cbn [rng_fill]. change (8 - 8 <=? 0) with true. cbv beta iota.
  rewrite app_nil_r.
  destruct (eight_bytes_be64 bs Hl Hb) as (v & Hv & ->). cbn [fmap option_fmap option_map fst].
  change 8%nat with (length (be64 v)).
  pose proof (for_up_list (fun x a => u64 (Z.lor (u64 (a ≪ 8)) x))
    (fun i v' => let! x := load (be64 v) i in Ok (u64 (Z.lor (u64 (v' ≪ 8)) x))) (be64 v) [] [] 0) as L.
  rewrite fold_be64 by done. split; [|done].
  change (len []) with 0 in L. rewrite L; [by rewrite fold_be64|]. intros. by rewrite app_nil_r.
Qed.

(** ** Rejection sampling *)

Definition settles (upper : Z) (o : option Z) : Prop :=
  match o with None => True | Some v => v < uniform_limit upper end.

Lemma uniform_loop_settles upper : 0 < upper -> forall k fuel r,
  (k < fuel)%nat -> settles upper (nth_draw k r) ->
  exists o r', uniform_loop fuel upper r = Ok (o, r') /\
    match o with None => True | Some x => 0 <= x < upper end.
Proof.
  intros Hu k. induction k as [|k IH]; intros [|fuel] r Hk Hs; try lia; cbn [uniform_loop];
    destruct (rng_u64_spec r) as [-> Hv]; cbn [nth_draw] in Hs; destruct (u64_draw r) as [[v|] r'];
    cbn [fst snd] in *; try (by eexists _, _); destruct (Z.ltb_spec v (uniform_limit upper)).
  1,3: eexists _, _; split; [done|]; cbv beta iota; by apply Z.mod_pos_bound.
  - cbn in Hs. lia.
  - apply IH; [lia|done].
Qed.

Lemma uniform_loop_first upper : forall k fuel r v,
  (k < fuel)%nat -> (forall j, (j < k)%nat -> exists w, nth_draw j r = Some w /\ uniform_limit upper <= w) ->
  nth_draw k r = Some v -> v < uniform_limit upper ->
  exists r', uniform_loop fuel upper r = Ok (Some (v mod upper), r').
Proof.
  intros k. induction k as [|k IH]; intros [|fuel] r v Hk Hj Hd Hv; try lia; cbn [uniform_loop];
    destruct (rng_u64_spec r) as [-> _].
  - cbn [nth_draw] in Hd. destruct (u64_draw r) as [o r']. cbn [fst] in Hd. subst o.
    rewrite (proj2 (Z.ltb_lt _ _)) by done. by eexists.
  - destruct (Hj 0%nat ltac:(lia)) as (w & Hw & Hlw). cbn [nth_draw] in *.
    destruct (u64_draw r) as [o r'] eqn:E. cbn [fst snd] in *. subst o.
    rewrite (proj2 (Z.ltb_ge _ _)) by done. apply (IH fuel r' v); [lia| |done..].
    intros j Hjk. destruct (Hj (S j) ltac:(lia)) as (w' & Hw' & ?). cbn [nth_draw] in Hw'.
    rewrite E in Hw'. by exists w'.
Qed.

(** The accepted words with a given remainder are the terms of one progression, whose length
    does not depend on the remainder. *)
Lemma uniform_limit_fibre upper c w :
  0 < upper -> 0 <= c < upper ->
  (0 <= w < uniform_limit upper /\ w mod upper = c) <->
  (exists i, 0 <= i < UINT64_MAX / upper /\ w = i * upper + c).
Proof.
  intros Hu Hc. unfold uniform_limit.
  assert (E : UINT64_MAX - UINT64_MAX mod upper = UINT64_MAX / upper * upper).
  { pose proof (Z.div_mod UINT64_MAX upper). lia. }
  rewrite E. split.
  - intros [Hw <-]. exists (w / upper). pose proof (Z.div_mod w upper). split; [|lia].
    split; [apply Z.div_pos; lia|]. apply Z.div_lt_upper_bound; lia.
  - intros (i & Hi & ->). split; [nia|]. rewrite Z.add_comm, Z.mod_add by lia. by apply Z.mod_small.
Qed.

(** Rejection sampling is exact.  When the first [k] words drawn are rejected and the next one
    is accepted, [sl_rng_uniform] returns its remainder, which lies below the bound, and every
    value below the bound is the remainder of the same number of accepted words: no value is
    more likely than another. *)
Theorem rng_uniform_unbiased upper k v r fuel :
  0 < upper <= UINT64_MAX -> (k < fuel)%nat ->
  (forall j, (j < k)%nat -> exists w, nth_draw j r = Some w /\ uniform_limit upper <= w) ->
  nth_draw k r = Some v -> v < uniform_limit upper ->
  (exists r', sl_rng_uniform fuel upper r = Ok (Some (v mod upper), r')) /\ 0 <= v mod upper < upper /\
  (forall c w, 0 <= c < upper ->
    (0 <= w < uniform_limit upper /\ w mod upper = c) <->
    (exists i, 0 <= i < UINT64_MAX / upper /\ w = i * upper + c)).
Proof.
  intros Hu Hk Hj Hd Hv. unfold sl_rng_uniform. rewrite (proj2 (Z.eqb_neq _ _)) by lia. split_and!.
  - by apply (uniform_loop_first upper k).
  - apply Z.mod_pos_bound; lia.
  - apply Z.mod_pos_bound; lia.
  - intros c w Hc. apply uniform_limit_fibre; lia.
Qed.

(** The client identifier drawn is never the reserved zero. *)
Lemma id_random_nonzero r :
  exists o r', sl_id_random_u64 r = Ok (o, r') /\ match o with None => True | Some v => 0 < v <= UINT64_MAX end.
Proof.
  unfold sl_id_random_u64.
  destruct (for_ret_inv (fun _ _ => True)
    (fun res : option Z * R => match res.1 with None => True | Some v => 0 < v <= UINT64_MAX end)
    (fun _ r => let! '(o, r) := sl_rng_u64 r in
      match o with
      | None => Ok (inr (None, r))
      | Some v => if negb (v =? 0) then Ok (inr (Some v, r)) else Ok (inl r)
      end) 8 0 r I) as ([r'|[o r']] & -> & Hx).
  - intros j t _ _. destruct (rng_u64_spec t) as [-> Hv]. destruct (u64_draw t) as [[v|] t']; cbn [fst] in *.
    + destruct (Z.eqb_spec v 0); cbn [negb]; eexists; (split; [reflexivity|]); [done|]. cbn. lia.
    + eexists. split; [reflexivity|]. done.
  - by eexists _, _.
  - by eexists _, _.
Qed.
End Rng.

(** The loop leaves at the second draw: the first word is above the limit. *)
Lemma rng_uniform_unbiased_witness :
  let r := [Some [255; 255; 255; 255; 255; 255; 255; 255]; Some [0; 0; 0; 0; 0; 0; 1; 7]] in
  exists r', sl_rng_uniform 2 10 r = Ok (Some 3, r').
Proof.
  intros r. destruct (rng_uniform_unbiased 10 1 263 r 2) as [[r' E] _].
  - lia.
  - lia.
  - intros [|j] Hj; [|lia]. exists 18446744073709551615. split; [vm_compute; reflexivity|].
    vm_compute; discriminate.
  - vm_compute; reflexivity.
  - vm_compute; reflexivity.
  - exists r'. exact E.
Defined.

(** Powers of two lose a full round of words that could have been accepted: the limit is computed
    from the largest word and not from the number of words. *)
Lemma uniform_limit_power_of_two : uniform_limit 256 = 2 ^ 64 - 256.
Proof. vm_compute; reflexivity. Qed.
