(* ===== verification/Id.v ===== *)
(** Identifiers as text (sl_id.c) and the request identifiers of the RPC client (sl_rpc_id.c). *)

From S2P Require Import Prelude ByteOrder Hex.
Local Open Scope Z_scope.

(** ** Client identifiers *)

(* src/src/sl_id.c:20-29 *)
Definition sl_id_to_hex (id : Z) (buf : list Z) : M (Z * list Z) :=
  let! '(_, buf) := for_up 16 0 (fun k '(id, buf) =>
    let! d := load hex_table (Z.land id 0xF) in
    let! buf := store buf (15 - k) d in
    Ok (id ≫ 4, buf)) (id, buf) in
  let! buf := store buf 16 0 in
  Ok (0, buf).

(** The digits taken are those of [Hex.nibble]. *)
(* src/src/sl_id.c:31-46 *)
Definition sl_id_from_hex (hex : list Z) : M (option Z) :=
  let! x := for_ret 16 0 (fun i v =>
    let! c := load hex i in
    match nibble c with
    | None => Ok (inr tt)
    | Some d => Ok (inl (u64 (Z.lor (u64 (v ≪ 4)) d)))
    end) 0 in
  match x with
  | inr _ => Ok None
  | inl v => let! z := load hex 16 in if negb (z =? 0) then Ok None else Ok (Some v)
  end.

(** The digit of weight 16^k. *)
Definition digit16 (id k : Z) : Z := (id / 16 ^ k) mod 16.

Lemma digit16_range id k : 0 <= digit16 id k < 16.
Proof. apply Z.mod_pos_bound. lia. Qed.

Lemma div16_succ id k : 0 <= k -> id / 16 ^ (k + 1) = id / 16 ^ k / 16.
Proof. intros. rewrite Z.pow_add_r, Z.div_div by lia. done. Qed.

Definition is_id_text (id : Z) (b : list Z) : Prop :=
  (forall j, 0 <= j < 16 -> load b j = Ok (hex_digit (digit16 id (15 - j)))) /\ load b 16 = Ok 0.

Lemma id_to_hex_spec id buf :
  17 <= len buf -> exists b, sl_id_to_hex id buf = Ok (0, b) /\ len b = len buf /\ is_id_text id b.
Proof.
  intros Hl. unfold sl_id_to_hex.
  destruct (for_up_inv (fun k '(d, b) => d = id / 16 ^ k /\ len b = len buf /\
      forall j, 16 - k <= j < 16 -> load b j = Ok (hex_digit (digit16 id (15 - j))))
    (fun k '(id, buf) => let! d := load hex_table (Z.land id 0xF) in
      let! buf := store buf (15 - k) d in Ok (id ≫ 4, buf)) 16 0 (id, buf)) as ([d b] & -> & _ & Hb & Hd).
  - rewrite Z.div_1_r. split_and!; [done..|]. lia.
  - intros k [d b] Hk (-> & Hb & Hd). rewrite low_nibble, hex_table_digit by (apply Z.mod_pos_bound; lia).
    rewrite store_ok by lia. eexists. split; [reflexivity|]. cbv beta iota. split_and!.
    + rewrite shiftr_div by lia. rewrite div16_succ by lia. done.
    + by rewrite len_insert.
    + intros j Hj. rewrite load_insert by lia. destruct (Z.eqb_spec (15 - k) j) as [<-|]; [|apply Hd; lia].
      replace (15 - (15 - k)) with k by lia. done.
  - rewrite store_ok by lia. eexists. split; [reflexivity|]. rewrite len_insert. split; [done|].
    split; [intros j Hj|]; rewrite load_insert by lia.
    + rewrite (proj2 (Z.eqb_neq _ _)) by lia. apply Hd. lia.
    + done.
Qed.

Lemma id_from_hex_spec id b : is_u64 id -> is_id_text id b -> sl_id_from_hex b = Ok (Some id).
Proof.
  intros Hid [Hd Hz]. unfold sl_id_from_hex.
  destruct (for_ret_up (R := unit) (fun i v => v = id / 16 ^ (16 - i))
    (fun i v => let! c := load b i in
      match nibble c with
      | None => Ok (inr tt)
      | Some d => Ok (inl (u64 (Z.lor (u64 (v ≪ 4)) d)))
      end) 16 0 0) as (v & -> & ->).
  - symmetry. apply Z.div_small. simpl. lia.
  - intros j v Hj ->. rewrite Hd, digit_of by (try apply digit16_range; lia).
    eexists. split; [reflexivity|]. pose proof (digit16_range id (15 - j)).
    set (q := id / 16 ^ (15 - j)).
    assert (Hq : is_u64 q) by (split; [apply Z.div_pos; lia|apply Z.div_lt_upper_bound; nia]).
    replace (16 - j) with (15 - j + 1) by lia. replace (16 - (j + 1)) with (15 - j) by lia.
    rewrite div16_succ by lia. fold q. unfold digit16. fold q.
    pose proof (Z.div_mod q 16 ltac:(lia)). pose proof (Z.mod_pos_bound q 16 ltac:(lia)).
    rewrite (u64_small ((q / 16) ≪ 4)) by (rewrite Z.shiftl_mul_pow2 by lia; change (2 ^ 4) with 16; lia).
    rewrite lor_shiftl_add by lia. change (2 ^ 4) with 16. rewrite u64_small; lia.
  - rewrite Hz. simpl. rewrite Z.div_1_r. done.
Qed.

(** An identifier survives its text form: the sixteen digits [sl_id_to_hex] writes, followed by
    the terminator, are read back by [sl_id_from_hex] as the same 64-bit value. *)
Theorem id_hex_roundtrip id buf :
  is_u64 id -> 17 <= len buf ->
  exists b, sl_id_to_hex id buf = Ok (0, b) /\ len b = len buf /\ sl_id_from_hex b = Ok (Some id).
Proof.
  intros Hid Hl. destruct (id_to_hex_spec id buf Hl) as (b & E & Hb & Ht).
  exists b. split_and!; [done..|]. by apply id_from_hex_spec.
Qed.

Lemma id_hex_roundtrip_witness :
  exists b, sl_id_to_hex 0xfeedface12345678 (replicate 17 0) = Ok (0, b) /\ len b = 17 /\
    sl_id_from_hex b = Ok (Some 0xfeedface12345678).
Proof. apply (id_hex_roundtrip 0xfeedface12345678 (replicate 17 0)); [lia|vm_compute; discriminate]. Defined.

(** ** RPC request identifiers *)

Definition SL_RPC_ID_RESERVED := 0.

(* src/inc/sl_rpc_id.h:20-24 *)
Record sl_rpc_id_alloc_t := mk_rpc_id { next : Z; allocated : Z; exhausted : bool }.

(* src/src/sl_rpc_id.c:3-8 *)
Definition sl_rpc_id_init : sl_rpc_id_alloc_t := mk_rpc_id 1 0 false.

(* src/src/sl_rpc_id.c:10-21 *)
Definition sl_rpc_id_next (a : sl_rpc_id_alloc_t) : Z * sl_rpc_id_alloc_t :=
  if exhausted a then (SL_RPC_ID_RESERVED, a) else
  let id := next a in
  if id =? UINT32_MAX then (id, mk_rpc_id (next a) (u32 (allocated a + 1)) true)
  else (id, mk_rpc_id (u32 (next a + 1)) (u32 (allocated a + 1)) (exhausted a)).

(* src/src/sl_rpc_id.c:23-25 *)
Definition sl_rpc_id_is_exhausted (a : sl_rpc_id_alloc_t) : bool := exhausted a.

(* src/src/sl_rpc_id.c:27-29 *)
Definition sl_rpc_id_allocated_count (a : sl_rpc_id_alloc_t) : Z := allocated a.

(** The state after [n] calls that handed out an identifier. *)
Definition after_ids (n : Z) (a : sl_rpc_id_alloc_t) : Prop :=
  0 <= n <= UINT32_MAX /\ allocated a = n /\
  if n =? UINT32_MAX then next a = UINT32_MAX /\ exhausted a = true
  else next a = n + 1 /\ exhausted a = false.

Lemma after_ids_init : after_ids 0 sl_rpc_id_init.
Proof. done. Qed.

Lemma rpc_id_next_spec n a :
  after_ids n a ->
  if n =? UINT32_MAX then sl_rpc_id_next a = (0, a)
  else exists a', sl_rpc_id_next a = (n + 1, a') /\ after_ids (n + 1) a'.
Proof.
  unfold after_ids, sl_rpc_id_next. destruct a as [nx al ex]. cbn [next allocated exhausted].
  intros (Hn & -> & H). destruct (Z.eqb_spec n UINT32_MAX) as [|Hne]; destruct H as [-> ->]; [done|].
  destruct (Z.eqb_spec (n + 1) UINT32_MAX) as [E|E]; eexists; (split; [reflexivity|]); cbn [next allocated exhausted];
    rewrite !u32_small by lia.
  - split_and!; done || lia.
  - split_and!; done || lia.
Qed.

(** The identifiers of [n] successive calls. *)
Fixpoint take_ids (n : nat) (a : sl_rpc_id_alloc_t) : list Z * sl_rpc_id_alloc_t :=
  match n with
  | O => ([], a)
  | S n => let '(id, a) := sl_rpc_id_next a in let '(ids, a) := take_ids n a in (id :: ids, a)
  end.

Lemma take_ids_spec n : forall k a,
  after_ids k a ->
  (take_ids n a).1 = map (fun i => let id := k + 1 + Z.of_nat i in if id <=? UINT32_MAX then id else 0) (seq 0 n).
Proof.
  induction n as [|n IH]; intros k a Ha; [done|]. cbn [take_ids seq map].
  pose proof (rpc_id_next_spec k a Ha) as Hn. pose proof Ha as (Hk & _).
  destruct (Z.eqb_spec k UINT32_MAX) as [E|E].
  - rewrite Hn. specialize (IH k a Ha). destruct (take_ids n a) as [ids a']. cbn [fst] in *. subst ids.
    f_equal; [by rewrite E|]. rewrite <- (fmap_S_seq 0 n), map_map. apply map_ext. intros i. cbv zeta.
    by rewrite !(proj2 (Z.leb_gt _ _)) by lia.
  - destruct Hn as (a' & -> & Ha'). specialize (IH (k + 1) a' Ha'). destruct (take_ids n a') as [ids a2].
    cbn [fst] in *. subst ids. f_equal; [cbv zeta; rewrite (proj2 (Z.leb_le _ _)); lia|].
    rewrite <- (fmap_S_seq 0 n), map_map. apply map_ext. intros i. cbv zeta.
    by replace (k + 1 + Z.of_nat (S i)) with (k + 1 + 1 + Z.of_nat i) by lia.
Qed.

(** Request identifiers count up from 1 and are never reused: the i-th call of a session returns
    i as long as i fits 32 bits, and the reserved 0 on every call after that, so two calls that
    both return an identifier return different ones. *)
Theorem rpc_ids_never_reused n i j x y :
  (take_ids n sl_rpc_id_init).1 !! i = Some x -> (take_ids n sl_rpc_id_init).1 !! j = Some y ->
  (x = if Z.of_nat i + 1 <=? UINT32_MAX then Z.of_nat i + 1 else SL_RPC_ID_RESERVED) /\
  (x <> SL_RPC_ID_RESERVED -> x = y -> i = j).
Proof.
  rewrite (take_ids_spec n 0 _ after_ids_init). intros Hx Hy.
  apply list_lookup_fmap_Some in Hx as (i' & -> & [-> Hi]%lookup_seq).
  apply list_lookup_fmap_Some in Hy as (j' & -> & [-> Hj]%lookup_seq).
  cbv zeta. unfold SL_RPC_ID_RESERVED. rewrite !Nat.add_0_l, Z.add_0_l, !(Z.add_comm 1). split; [done|].
  destruct (Z.leb_spec (Z.of_nat i + 1) UINT32_MAX), (Z.leb_spec (Z.of_nat j + 1) UINT32_MAX); lia.
Qed.

Lemma rpc_ids_never_reused_witness : 1 = 0 + 1 /\ (1 <> 0 -> 1 = 2 -> 0%nat = 1%nat).
Proof. exact (rpc_ids_never_reused 3 0 1 1 2 eq_refl eq_refl). Defined.
