(* ===== verification/TokenBucket.v ===== *)
(** Rate limits: the byte-rate token bucket of the file transfers ([src/sl_token_bucket.c]), with
    the monotonic clock in microseconds as an argument of every operation that reads it, and the
    per-peer rate limiter ([src/inc/rate_limiter.hpp]), whose time points are nanoseconds of the
    steady clock, the default one being 0. The limiter's hash map of buckets is a finite map,
    since nothing depends on its order. *)

From stdpp Require Import gmap.
From S2P Require Import Prelude.
Local Open Scope Z_scope.

(* src/inc/sl_token_bucket.h:23-28 *)
Record sl_token_bucket_t := mk_bucket
  { capacity_bytes : Z; rate_bps : Z; tokens : Z; last_refill_us : Z }.

(** [clock] is the timespec of clock_gettime, or [None] when the call fails. *)
(* src/src/sl_token_bucket.c:6-10 *)
Definition now_us (clock : option (Z * Z)) : Z :=
  match clock with
  | None => 0
  | Some (sec, nsec) => u64 (u64 (sec * 1000000) + nsec / 1000)
  end.

(* src/src/sl_token_bucket.c:12-29 *)
Definition refill (now : Z) (tb : sl_token_bucket_t) : sl_token_bucket_t :=
  if last_refill_us tb =? 0 then mk_bucket (capacity_bytes tb) (rate_bps tb) (tokens tb) now
  else if now <=? last_refill_us tb then tb
  else
    let elapsed_us := u64 (now - last_refill_us tb) in
    let add := u64 (rate_bps tb * elapsed_us) / 1000000 in
    if add =? 0 then tb
    else
      let sum := u64 (tokens tb + add) in
      let sum := if capacity_bytes tb <? sum then capacity_bytes tb else sum in
      mk_bucket (capacity_bytes tb) (rate_bps tb) sum now.

(* src/src/sl_token_bucket.c:31-39 *)
Definition sl_token_bucket_init (capacity rate : Z) : sl_token_bucket_t :=
  mk_bucket capacity rate capacity 0.

(* src/src/sl_token_bucket.c:41-47 *)
Definition sl_token_bucket_try_take (now : Z) (tb : sl_token_bucket_t) (bytes : Z) : Z * sl_token_bucket_t :=
  let tb := refill now tb in
  if tokens tb <? bytes then (-1, tb)
  else (0, mk_bucket (capacity_bytes tb) (rate_bps tb) (u64 (tokens tb - bytes)) (last_refill_us tb)).

(* src/src/sl_token_bucket.c:49-56 *)
Definition sl_token_bucket_wait_ms (now : Z) (tb : sl_token_bucket_t) (bytes : Z) : Z * sl_token_bucket_t :=
  if rate_bps tb =? 0 then (0, tb) else
  let tb := refill now tb in
  if bytes <=? tokens tb then (0, tb) else
  let deficit := u64 (bytes - tokens tb) in
  let ms := u64 (u64 (u64 (deficit * 1000) + rate_bps tb) - 1) / rate_bps tb in
  (if UINT32_MAX <? ms then UINT32_MAX else u32 ms, tb).

(* src/src/sl_token_bucket.c:58-62 *)
Definition sl_token_bucket_set_rate (now : Z) (tb : sl_token_bucket_t) (rate : Z) : sl_token_bucket_t :=
  let tb := refill now tb in mk_bucket (capacity_bytes tb) rate (tokens tb) (last_refill_us tb).

(* src/src/sl_token_bucket.c:64-66 *)
Definition sl_token_bucket_tokens (tb : sl_token_bucket_t) : Z := tokens tb.

(** ** The invariant *)

Definition bucket_ok (tb : sl_token_bucket_t) : Prop :=
  is_u64 (capacity_bytes tb) /\ is_u64 (rate_bps tb) /\ 0 <= tokens tb <= capacity_bytes tb /\
  is_u64 (last_refill_us tb).

Lemma bucket_ok_init cap rate : is_u64 cap -> is_u64 rate -> bucket_ok (sl_token_bucket_init cap rate).
Proof. unfold bucket_ok; simpl; lia. Qed.

Lemma refill_ok now tb : is_u64 now -> bucket_ok tb -> bucket_ok (refill now tb).
Proof.
  unfold bucket_ok, refill. intros Hn (Hc & Hr & Ht & Hl). destruct (_ =? 0); [simpl; lia|].
  destruct (_ <=? _); [done|]. cbv zeta. destruct (_ =? 0); [done|]. cbn [capacity_bytes rate_bps tokens last_refill_us].
  pose proof (u64_range (tokens tb + u64 (rate_bps tb * u64 (now - last_refill_us tb)) / 1000000)).
  destruct (Z.ltb_spec (capacity_bytes tb) (u64 (tokens tb + u64 (rate_bps tb * u64 (now - last_refill_us tb)) / 1000000))); lia.
Qed.

Lemma refill_frame now tb :
  capacity_bytes (refill now tb) = capacity_bytes tb /\ rate_bps (refill now tb) = rate_bps tb.
Proof. unfold refill. repeat case_match; done. Qed.

Lemma u64_le z : 0 <= z -> u64 z <= z.
Proof. intros. apply Z.mod_le; lia. Qed.

(** A refill never credits more than the rate allows, whatever wraps around. *)
Lemma refill_credit now tb :
  bucket_ok tb -> 0 < last_refill_us tb <= now -> is_u64 now ->
  let tb' := refill now tb in
  0 < last_refill_us tb' <= now /\
  tokens tb' * 1000000 <= tokens tb * 1000000 + rate_bps tb * (last_refill_us tb' - last_refill_us tb).
Proof.
  intros (Hc & Hr & Ht & Hl) Hn Hu. unfold refill. rewrite (proj2 (Z.eqb_neq _ _)) by lia.
  destruct (Z.leb_spec now (last_refill_us tb)); [cbv zeta; split; [lia|nia]|]. cbv zeta.
  rewrite (u64_small (now - _)) by lia.
  set (add := u64 (rate_bps tb * (now - last_refill_us tb)) / 1000000).
  destruct (Z.eqb_spec add 0); [split; [lia|nia]|]. cbn [last_refill_us tokens].
  split; [lia|].
  assert (Hadd : 0 <= add /\ add * 1000000 <= rate_bps tb * (now - last_refill_us tb)).
  { pose proof (u64_le (rate_bps tb * (now - last_refill_us tb)) ltac:(nia)).
    pose proof (u64_range (rate_bps tb * (now - last_refill_us tb))).
    unfold add. Z.div_mod_to_equations. lia. }
  pose proof (u64_le (tokens tb + add) ltac:(lia)).
  destruct (Z.ltb_spec (capacity_bytes tb) (u64 (tokens tb + add))); lia.
Qed.

(** ** Traffic *)

Inductive bucket_op := Take (bytes : Z) | WaitFor (bytes : Z).

(** One call at time [now]; the first component is the number of bytes granted. *)
Definition bucket_step (now : Z) (op : bucket_op) (tb : sl_token_bucket_t) : Z * sl_token_bucket_t :=
  match op with
  | Take b => let '(rc, tb) := sl_token_bucket_try_take now tb b in (if rc =? 0 then b else 0, tb)
  | WaitFor b => let '(_, tb) := sl_token_bucket_wait_ms now tb b in (0, tb)
  end.

Fixpoint bucket_run (ops : list (Z * bucket_op)) (tb : sl_token_bucket_t) : Z * sl_token_bucket_t :=
  match ops with
  | [] => (0, tb)
  | (now, op) :: ops =>
      let '(g, tb) := bucket_step now op tb in let '(gs, tb) := bucket_run ops tb in (g + gs, tb)
  end.

Definition op_bytes (op : bucket_op) : Z := match op with Take b | WaitFor b => b end.

(** Times do not go backwards. *)
Fixpoint clock_ok (t : Z) (ops : list (Z * bucket_op)) : Prop :=
  match ops with
  | [] => True
  | (now, op) :: ops => t <= now < 2 ^ 64 /\ is_u64 (op_bytes op) /\ clock_ok now ops
  end.

Definition end_time (t : Z) (ops : list (Z * bucket_op)) : Z := default t (fst <$> last ops).

Lemma end_time_cons t now op ops : end_time t ((now, op) :: ops) = end_time now ops.
Proof. unfold end_time. destruct ops; [done|]. rewrite last_cons_cons. by destruct (last (p :: ops)) eqn:E; [|apply last_None in E]. Qed.

Lemma end_time_ge t ops : clock_ok t ops -> t <= end_time t ops.
Proof.
  revert t. induction ops as [|[now op] ops IH]; intros t H; [done|]. rewrite end_time_cons.
  destruct H as (? & _ & H). specialize (IH now H). lia.
Qed.

(** After the first call the bucket has a start time. *)
Lemma bucket_step_credit now op tb :
  bucket_ok tb -> 0 < last_refill_us tb <= now -> is_u64 now -> is_u64 (op_bytes op) ->
  let '(g, tb') := bucket_step now op tb in
  bucket_ok tb' /\ 0 <= g /\ 0 < last_refill_us tb' <= now /\ rate_bps tb' = rate_bps tb /\
  (g + tokens tb') * 1000000 <= tokens tb * 1000000 + rate_bps tb * (last_refill_us tb' - last_refill_us tb).
Proof.
  intros Hok Hl Hn Hb. pose proof (refill_credit now tb Hok Hl Hn) as Hcr. pose proof (refill_ok now tb Hn Hok) as Hok'.
  pose proof (refill_frame now tb) as [_ Hf]. cbv zeta in Hcr.
  destruct op as [b|b]; cbn [bucket_step op_bytes] in *.
  - unfold sl_token_bucket_try_take. destruct (Z.ltb_spec (tokens (refill now tb)) b); cbv beta iota.
    + change (-1 =? 0) with false. cbv iota. split_and!; [done|lia..].
    + change (0 =? 0) with true. cbv iota. destruct Hok' as (? & ? & ? & ?).
      unfold bucket_ok. cbn [tokens capacity_bytes rate_bps last_refill_us].
      rewrite u64_small by lia. split_and!; lia.
  - unfold sl_token_bucket_wait_ms. destruct (Z.eqb_spec (rate_bps tb) 0); [split_and!; [done|nia..]|].
    destruct (Z.leb_spec b (tokens (refill now tb))); split_and!; done || lia.
Qed.

Lemma bucket_run_credit ops : forall tb t,
  bucket_ok tb -> 0 < last_refill_us tb <= t -> clock_ok t ops ->
  let '(g, tb') := bucket_run ops tb in
  (g + tokens tb') * 1000000 <= tokens tb * 1000000 + rate_bps tb * (last_refill_us tb' - last_refill_us tb) /\
  0 <= tokens tb' /\ last_refill_us tb' <= end_time t ops.
Proof.
  induction ops as [|[now op] ops IH]; intros tb t Hok Hl Hc; cbn [bucket_run].
  { destruct Hok as (? & ? & ? & ?). unfold end_time. simpl. lia. }
  destruct Hc as (Hn & Hb & Hc). rewrite end_time_cons.
  pose proof (bucket_step_credit now op tb Hok ltac:(lia) ltac:(lia) Hb) as Hs.
  destruct (bucket_step now op tb) as [g tb1]. destruct Hs as (Hok1 & Hg & Hl1 & Hr1 & Hs).
  specialize (IH tb1 now Hok1 Hl1 Hc). destruct (bucket_run ops tb1) as [gs tb2]. rewrite Hr1 in IH. lia.
Qed.

Lemma first_step now op cap rate :
  is_u64 cap -> is_u64 rate -> 0 < now < 2 ^ 64 -> is_u64 (op_bytes op) -> rate <> 0 \/ (exists b, op = Take b) ->
  let '(g, tb') := bucket_step now op (sl_token_bucket_init cap rate) in
  bucket_ok tb' /\ last_refill_us tb' = now /\ rate_bps tb' = rate /\ g + tokens tb' = cap.
Proof.
  intros Hc Hr Hn Hb Hne. destruct op as [b|b]; cbn [bucket_step op_bytes] in *;
    unfold sl_token_bucket_try_take, sl_token_bucket_wait_ms, sl_token_bucket_init, refill;
    cbn [last_refill_us tokens capacity_bytes rate_bps]; change (0 =? 0) with true;
    cbn [last_refill_us tokens capacity_bytes rate_bps].
  - destruct (Z.ltb_spec cap b); cbv beta iota; unfold bucket_ok; cbn; [lia|]. rewrite u64_small by lia. lia.
  - rewrite (proj2 (Z.eqb_neq _ _)) by (destruct Hne as [|[? ?]]; done).
    destruct (b <=? cap); unfold bucket_ok; cbn; lia.
Qed.

(** C34: The rate limit holds: over any run of [try_take] and [wait_ms] calls, the bytes granted never
    exceed the capacity plus the rate times the time between the first and the last call. No
    assumption is made on the sizes of the products, which may wrap around. *)
Theorem token_bucket_rate_bound cap rate t0 b0 ops g tb :
  is_u64 cap -> is_u64 rate -> 0 < t0 < 2 ^ 64 -> is_u64 b0 -> clock_ok t0 ops ->
  bucket_run ((t0, Take b0) :: ops) (sl_token_bucket_init cap rate) = (g, tb) ->
  g * 1000000 <= cap * 1000000 + rate * (end_time t0 ops - t0).
Proof.
  intros Hc Hr Ht Hb Hops. cbn [bucket_run].
  pose proof (first_step t0 (Take b0) cap rate Hc Hr Ht Hb ltac:(eauto)) as Hf.
  destruct (bucket_step t0 (Take b0) _) as [g0 tb0]. destruct Hf as (Hok & Hl & Hrr & Hg).
  pose proof (bucket_run_credit ops tb0 t0 Hok ltac:(lia) Hops) as Hrun.
  destruct (bucket_run ops tb0) as [gs tb2]. intros [= <- <-]. rewrite Hl, Hrr in Hrun.
  pose proof (end_time_ge t0 ops Hops). nia.
Qed.

Lemma token_bucket_rate_bound_witness :
  exists g tb, bucket_run [(1, Take 900); (500001, Take 400); (1000001, Take 500)] (sl_token_bucket_init 1000 1000)
    = (g, tb) /\ g * 1000000 <= 1000 * 1000000 + 1000 * (1000001 - 1).
Proof.
  eexists _, _. split; [vm_compute; reflexivity|].
  eapply (token_bucket_rate_bound 1000 1000 1 900 [(500001, Take 400); (1000001, Take 500)]);
    [lia|lia|lia|lia|simpl; lia|vm_compute; reflexivity].
Defined.

(** ** Progress *)

(** Without wrap-around a refill credits every whole byte. *)
Lemma refill_exact now tb :
  bucket_ok tb -> 0 < last_refill_us tb <= now -> is_u64 now ->
  rate_bps tb * (now - last_refill_us tb) < 2 ^ 64 ->
  capacity_bytes tb + rate_bps tb * (now - last_refill_us tb) / 1000000 < 2 ^ 64 ->
  tokens (refill now tb) =
    Z.min (capacity_bytes tb) (tokens tb + rate_bps tb * (now - last_refill_us tb) / 1000000).
Proof.
  intros (Hc & Hr & Ht & Hl) Hn Hu Hm Hs. unfold refill. rewrite (proj2 (Z.eqb_neq _ _)) by lia.
  destruct (Z.leb_spec now (last_refill_us tb)).
  { replace (now - last_refill_us tb) with 0 by lia. rewrite Z.mul_0_r. change (0 / 1000000) with 0. lia. }
  cbv zeta. rewrite (u64_small (now - _)), (u64_small (_ * _)) by nia.
  set (add := _ / 1000000) in *. assert (0 <= add) by (apply Z.div_pos; nia).
  destruct (Z.eqb_spec add 0); [lia|]. cbn [tokens]. rewrite u64_small by lia.
  destruct (Z.ltb_spec (capacity_bytes tb) (tokens tb + add)); lia.
Qed.

Lemma wait_ms_value now tb bytes ms tb' :
  bucket_ok tb -> 0 < rate_bps tb -> is_u64 bytes -> is_u64 now -> 0 < last_refill_us tb <= now ->
  bytes * 1000 + rate_bps tb <= 2 ^ 64 -> sl_token_bucket_wait_ms now tb bytes = (ms, tb') -> ms < UINT32_MAX ->
  tb' = refill now tb /\ (bytes - tokens tb') * 1000 <= rate_bps tb * ms.
Proof.
  intros Hok Hr Hb Hn Hl Ho. unfold sl_token_bucket_wait_ms. rewrite (proj2 (Z.eqb_neq _ _)) by lia.
  pose proof (refill_frame now tb) as [_ Hf]. rewrite Hf.
  pose proof (refill_ok now tb Hn Hok) as (? & ? & ? & ?).
  destruct (Z.leb_spec bytes (tokens (refill now tb))); [intros [= <- <-]; split; [done|lia]|].
  set (tk := tokens (refill now tb)) in *.
  rewrite (u64_small (bytes - tk)) by lia. rewrite (u64_small (_ * 1000)) by lia.
  assert (E : u64 (u64 ((bytes - tk) * 1000 + rate_bps tb) - 1) = rate_bps tb + (bytes - tk) * 1000 - 1) by wrap_lia.
  rewrite E. set (q := _ / rate_bps tb).
  assert (Hq : 0 <= q /\ (bytes - tk) * 1000 <= rate_bps tb * q).
  { unfold q. split; [apply Z.div_pos; lia|]. 
    pose proof (Z.div_mod (rate_bps tb + (bytes - tk) * 1000 - 1) (rate_bps tb) ltac:(lia)).
    pose proof (Z.mod_pos_bound (rate_bps tb + (bytes - tk) * 1000 - 1) (rate_bps tb) ltac:(lia)). lia. }
  destruct (Z.ltb_spec UINT32_MAX q); intros [= <- <-] Hms; [lia|]. split; [done|]. rewrite u32_small by lia. apply Hq.
Qed.

(** Waiting is enough: when [wait_ms] answers [ms] for a request that fits the bucket, a [try_take]
    of the same size made [ms] milliseconds later, or at any later time, succeeds, provided no
    product of rate and time leaves 64 bits. *)
Theorem token_bucket_wait_suffices now tb bytes ms tb' later :
  bucket_ok tb -> 0 < rate_bps tb -> 0 < last_refill_us tb <= now -> is_u64 now ->
  0 <= bytes <= capacity_bytes tb -> bytes * 1000 + rate_bps tb <= 2 ^ 64 ->
  sl_token_bucket_wait_ms now tb bytes = (ms, tb') -> ms < UINT32_MAX ->
  now + ms * 1000 <= later < 2 ^ 64 -> rate_bps tb * later < 2 ^ 64 ->
  capacity_bytes tb + rate_bps tb * later < 2 ^ 64 ->
  exists tb'', sl_token_bucket_try_take later tb' bytes = (0, tb'').
Proof.
  intros Hok Hr Hl Hn Hb Ho Hw Hms Hlater Hp Hs.
  destruct (wait_ms_value now tb bytes ms tb') as [-> Hd]; try done; [destruct Hok; lia|].
  pose proof (refill_credit now tb Hok Hl Hn) as [Hl' _]. pose proof (refill_ok now tb Hn Hok) as Hok'.
  pose proof (refill_frame now tb) as [Hcap Hrate].
  assert (Hms0 : 0 <= ms).
  { unfold sl_token_bucket_wait_ms in Hw. repeat case_match; simplify_eq; try done. apply u32_range. }
  set (l' := last_refill_us (refill now tb)) in *. assert (Hl2 : 0 < l' <= later) by lia.
  assert (Hle : rate_bps tb * (later - l') <= rate_bps tb * later) by (apply Z.mul_le_mono_nonneg_l; lia).
  assert (Hdiv : rate_bps tb * (later - l') / 1000000 <= rate_bps tb * later).
  { apply Z.div_le_upper_bound; [lia|]. assert (0 <= rate_bps tb * later) by (apply Z.mul_nonneg_nonneg; lia). lia. }
  unfold sl_token_bucket_try_take. rewrite (refill_exact later (refill now tb)); fold l'; rewrite ?Hcap, ?Hrate; [|done|lia..].
  rewrite (proj2 (Z.ltb_ge _ _)); [by eexists|]. apply Z.min_glb; [lia|].
  assert (bytes - tokens (refill now tb) <= rate_bps tb * (later - l') / 1000000); [|lia].
  apply Z.div_le_lower_bound; [lia|]. nia.
Qed.

Lemma token_bucket_wait_suffices_witness :
  exists tb'', sl_token_bucket_try_take 900001 (mk_bucket 1000 1000 600 500001) 1000 = (0, tb'').
Proof.
  apply (token_bucket_wait_suffices 500001 (mk_bucket 1000 1000 100 1) 1000 400 (mk_bucket 1000 1000 600 500001) 900001);
    try (vm_compute; reflexivity); unfold bucket_ok; simpl; lia.
Defined.

(* src/inc/rate_limiter.hpp:80-84 *)
Record Bucket := mk_Bucket { b_tokens : Z; b_dropped : Z; b_last : Z }.
Definition new_Bucket : Bucket := mk_Bucket 0 0 0.

(* src/inc/rate_limiter.hpp:100-102 [RateLimiter] *)
Record RateLimiter := mk_limiter { refill_per_sec : Z; burst : Z; buckets : gmap (list Z) Bucket }.

(* src/inc/rate_limiter.hpp:22-25 [RateLimiter] *)
Definition new_limiter (tokens_per_sec burst : Z) : RateLimiter := mk_limiter tokens_per_sec burst ∅.

(* src/inc/rate_limiter.hpp:86-98 [refill] *)
Definition rl_refill (rate bst : Z) (b : Bucket) (now : Z) : Bucket :=
  let elapsed := Z.quot (now - b_last b) 1000000 in
  if elapsed <=? 0 then b else
  let add := u64 (rate * u64 elapsed) / 1000 in
  if 0 <? add then
    let sum := u64 (b_tokens b + add) in
    mk_Bucket (u32 (if bst <? sum then bst else sum)) (b_dropped b) now
  else b.

(* src/inc/rate_limiter.hpp:28-43 *)
Definition allow (now : Z) (l : RateLimiter) (key : list Z) (cost : Z) : bool * RateLimiter :=
  let b := default new_Bucket (buckets l !! key) in
  let b := if b_last b =? 0 then mk_Bucket (burst l) (b_dropped b) now
           else rl_refill (refill_per_sec l) (burst l) b now in
  let put b := mk_limiter (refill_per_sec l) (burst l) (<[key := b]> (buckets l)) in
  if cost <=? b_tokens b then (true, put (mk_Bucket (u32 (b_tokens b - cost)) (b_dropped b) (b_last b)))
  else (false, put (mk_Bucket (b_tokens b) (u64 (b_dropped b + 1)) (b_last b))).

(* src/inc/rate_limiter.hpp:46-52 [tokens] *)
Definition rl_tokens (now : Z) (l : RateLimiter) (key : list Z) : Z * RateLimiter :=
  match buckets l !! key with
  | None => (burst l, l)
  | Some b =>
      let b := rl_refill (refill_per_sec l) (burst l) b now in
      (b_tokens b, mk_limiter (refill_per_sec l) (burst l) (<[key := b]> (buckets l)))
  end.

(* src/inc/rate_limiter.hpp:54-57 [dropped] *)
Definition rl_dropped (l : RateLimiter) (key : list Z) : Z :=
  match buckets l !! key with None => 0 | Some b => b_dropped b end.

(* src/inc/rate_limiter.hpp:60-73 *)
Definition evict_idle (now max_age : Z) (l : RateLimiter) : Z * RateLimiter :=
  let cutoff := now - max_age * 1000000000 in
  let kept := filter (fun kb : list Z * Bucket => ~ b_last kb.2 < cutoff) (buckets l) in
  (Z.of_nat (size (buckets l)) - Z.of_nat (size kept), mk_limiter (refill_per_sec l) (burst l) kept).

(* src/inc/rate_limiter.hpp:75-75 *)
Definition bucket_count (l : RateLimiter) : Z := Z.of_nat (size (buckets l)).

(* src/inc/rate_limiter.hpp:77-77 [reset] *)
Definition rl_reset (l : RateLimiter) : RateLimiter := mk_limiter (refill_per_sec l) (burst l) ∅.

(** ** What one key may spend *)

Definition rl_bucket_ok (l : RateLimiter) (b : Bucket) : Prop :=
  0 <= b_tokens b <= burst l /\ 0 < b_last b.

Definition limiter_ok (l : RateLimiter) : Prop :=
  is_u32 (refill_per_sec l) /\ is_u32 (burst l) /\ map_Forall (fun _ b => rl_bucket_ok l b) (buckets l).

Lemma limiter_ok_new rate bst : is_u32 rate -> is_u32 bst -> limiter_ok (new_limiter rate bst).
Proof. intros. unfold limiter_ok. cbn. split_and!; try lia. apply map_Forall_empty. Qed.

Lemma rl_refill_credit l b now :
  is_u32 (refill_per_sec l) -> is_u32 (burst l) -> rl_bucket_ok l b -> b_last b <= now < 2 ^ 63 ->
  let b' := rl_refill (refill_per_sec l) (burst l) b now in
  rl_bucket_ok l b' /\ b_last b <= b_last b' <= now /\
  b_tokens b' * 1000000000 <= b_tokens b * 1000000000 + refill_per_sec l * (b_last b' - b_last b).
Proof.
  intros Hr Hbu Hb Hn. pose proof Hb as [Ht Hl]. unfold rl_refill. cbv zeta.
  rewrite Z.quot_div_nonneg by lia. set (el := (now - b_last b) / 1000000).
  destruct (Z.leb_spec el 0); [split_and!; try apply Hb; try lia|].
  assert (Hel : el * 1000000 <= now - b_last b) by (unfold el; Z.div_mod_to_equations; lia).
  rewrite (u64_small el) by lia. set (add := u64 (refill_per_sec l * el) / 1000).
  assert (Ha : 0 <= add /\ add * 1000 <= refill_per_sec l * el).
  { pose proof (Z.mod_le (refill_per_sec l * el) 18446744073709551616 ltac:(nia) ltac:(lia)) as Hle.
    fold (u64 (refill_per_sec l * el)) in Hle. pose proof (u64_range (refill_per_sec l * el)).
    unfold add. Z.div_mod_to_equations. lia. }
  destruct (Z.ltb_spec 0 add); [|split_and!; try apply Hb; lia].
  pose proof (Z.mod_le (b_tokens b + add) 18446744073709551616 ltac:(lia) ltac:(lia)) as Hle.
  fold (u64 (b_tokens b + add)) in Hle. pose proof (u64_range (b_tokens b + add)).
  unfold rl_bucket_ok. cbn [b_tokens b_last].
  assert (refill_per_sec l * el * 1000000 <= refill_per_sec l * (now - b_last b)) by nia.
  destruct (Z.ltb_spec (burst l) (u64 (b_tokens b + add))); rewrite u32_small by lia; split_and!; lia.
Qed.

(** A request: its time, the peer and the cost. *)
Abbreviation request := (Z * list Z * Z)%type.

(** The total cost granted to [key] by a series of requests of any peers. *)
Fixpoint granted (key : list Z) (reqs : list request) (l : RateLimiter) : Z * RateLimiter :=
  match reqs with
  | [] => (0, l)
  | (now, k, cost) :: reqs =>
      let '(ok, l) := allow now l k cost in
      let '(g, l) := granted key reqs l in
      ((if ok && bool_decide (k = key) then cost else 0) + g, l)
  end.

Fixpoint reqs_ok (t : Z) (reqs : list request) : Prop :=
  match reqs with
  | [] => True
  | (now, _, cost) :: reqs => t <= now < 2 ^ 63 /\ is_u32 cost /\ reqs_ok now reqs
  end.

Definition last_time (t : Z) (reqs : list request) : Z := foldl (fun _ (r : request) => r.1.1) t reqs.

Lemma last_time_ge reqs : forall t, reqs_ok t reqs -> t <= last_time t reqs.
Proof.
  induction reqs as [|[[now k] c] reqs IH]; intros t H; [done|]. destruct H as (? & _ & H).
  specialize (IH now H). unfold last_time in *. simpl. lia.
Qed.

(** What the bucket of [key] has left and when it was last credited. *)
Definition balance (l : RateLimiter) (key : list Z) (t : Z) : Z * Z :=
  match buckets l !! key with None => (burst l, t) | Some b => (b_tokens b, b_last b) end.

Definition no_later (l : RateLimiter) (t : Z) : Prop := map_Forall (fun _ b => b_last b <= t) (buckets l).

Lemma allow_credit now l k cost key t0 :
  limiter_ok l -> 0 < t0 <= now -> no_later l now -> now < 2 ^ 63 -> is_u32 cost ->
  let '(ok, l') := allow now l k cost in
  limiter_ok l' /\ no_later l' now /\ refill_per_sec l' = refill_per_sec l /\ burst l' = burst l /\
  ((if ok && bool_decide (k = key) then cost else 0) + (balance l' key t0).1) * 1000000000 <=
    (balance l key t0).1 * 1000000000 + refill_per_sec l * ((balance l' key t0).2 - (balance l key t0).2).
Proof.
  intros (Hr & Hbu & Hall) Ht Hlt Hn Hc. unfold allow.
  set (b := default new_Bucket (buckets l !! k)).
  set (b1 := if b_last b =? 0 then _ else _).
  assert (H1 : rl_bucket_ok l b1 /\ b_last b1 <= now /\
    (match buckets l !! k with None => (burst l, t0) | Some b => (b_tokens b, b_last b) end) = balance l k t0 /\
    b_tokens b1 * 1000000000 <= (balance l k t0).1 * 1000000000 + refill_per_sec l * (b_last b1 - (balance l k t0).2)).
  { unfold b1, b, balance. destruct (buckets l !! k) as [b0|] eqn:Ek; cbn [default Datatypes.id].
    - pose proof (Hall k b0 Ek) as Hb0. pose proof (Hlt k b0 Ek) as Hl0. cbv beta in Hb0, Hl0.
      rewrite (proj2 (Z.eqb_neq _ _)) by (destruct Hb0; lia).
      destruct (rl_refill_credit l b0 now Hr Hbu Hb0 ltac:(lia)) as (? & ? & ?). split_and!; done || lia.
    - change (b_last new_Bucket =? 0) with true. unfold rl_bucket_ok. cbn. split_and!; try lia; [done|nia]. }
  destruct H1 as (Hb1 & Hl1 & _ & Hcr). clearbody b1.
  assert (Hput : forall b2, rl_bucket_ok l b2 -> b_last b2 <= now ->
     let l' := mk_limiter (refill_per_sec l) (burst l) (<[k := b2]> (buckets l)) in
     limiter_ok l' /\ no_later l' now /\ balance l' k t0 = (b_tokens b2, b_last b2) /\
     (k <> key -> balance l' key t0 = balance l key t0)).
  { intros b2 Hok2 Hl2. split_and!; try done.
    - split_and!; [apply Hr..|apply Hbu|apply Hbu|]. by apply map_Forall_insert_2.
    - by apply map_Forall_insert_2.
    - unfold balance. cbn. by rewrite lookup_insert_eq.
    - intros Hne. unfold balance. cbn. by rewrite lookup_insert_ne. }
  destruct Hb1 as [Ht1 Hp1]. destruct (Z.leb_spec cost (b_tokens b1)).
  - destruct (Hput (mk_Bucket (u32 (b_tokens b1 - cost)) (b_dropped b1) (b_last b1))) as (? & ? & E & Hne).
    { unfold rl_bucket_ok. cbn. rewrite u32_small; lia. } { done. }
    split_and!; try done. cbn [andb]. case_bool_decide as Ek; [subst key|].
    + rewrite E. cbn [fst snd b_tokens b_last]. rewrite u32_small; lia.
    + rewrite Hne by done. lia.
  - destruct (Hput (mk_Bucket (b_tokens b1) (u64 (b_dropped b1 + 1)) (b_last b1))) as (? & ? & E & Hne); [done..|].
    split_and!; try done. cbn [andb]. destruct (decide (k = key)) as [->|Ek].
    + rewrite E. cbn [fst snd b_tokens b_last]. lia.
    + rewrite Hne by done. lia.
Qed.

Lemma granted_credit key t0 reqs : forall l t,
  limiter_ok l -> 0 < t0 <= t -> no_later l t -> reqs_ok t reqs ->
  let '(g, l') := granted key reqs l in
  0 <= (balance l' key t0).1 /\ (balance l' key t0).2 <= last_time t reqs /\
  (g + (balance l' key t0).1) * 1000000000 <=
    (balance l key t0).1 * 1000000000 + refill_per_sec l * ((balance l' key t0).2 - (balance l key t0).2).
Proof.
  induction reqs as [|[[now k] cost] reqs IH]; intros l t Hok Ht Hlt Hq; cbn [granted].
  - destruct Hok as (Hr & Hb & Hall). unfold balance, last_time. simpl.
    destruct (buckets l !! key) as [b|] eqn:E; cbn [fst snd]; [|lia].
    pose proof (Hall key b E) as [? ?]. pose proof (Hlt key b E) as Hl. cbv beta in Hl. lia.
  - destruct Hq as (Hn & Hc & Hq).
    assert (Hln : no_later l now) by (intros k' b' E; pose proof (Hlt k' b' E) as Hl; cbv beta in Hl; lia).
    pose proof (allow_credit now l k cost key t0 Hok ltac:(lia) Hln ltac:(lia) Hc) as Ha.
    destruct (allow now l k cost) as [ok l1]. destruct Ha as (Hok1 & Hl1 & Er & Eb & Ha).
    specialize (IH l1 now Hok1 ltac:(lia) Hl1 Hq). destruct (granted key reqs l1) as [g l2].
    rewrite Er in IH. unfold last_time in *. simpl. lia.
Qed.

(** Each peer is limited by itself: whatever requests the peers interleave, the cost granted to
    one key never exceeds the burst plus the refill rate times the time that has passed, and a
    request of another peer never spends from its bucket. *)
Theorem rate_limiter_bound rate bst t0 reqs key g l :
  is_u32 rate -> is_u32 bst -> 0 < t0 -> reqs_ok t0 reqs ->
  granted key reqs (new_limiter rate bst) = (g, l) ->
  g * 1000000000 <= bst * 1000000000 + rate * (last_time t0 reqs - t0).
Proof.
  intros Hr Hb Ht Hq E.
  pose proof (granted_credit key t0 reqs (new_limiter rate bst) t0 (limiter_ok_new rate bst Hr Hb)
    ltac:(lia) ltac:(apply map_Forall_empty) Hq) as H.
  rewrite E in H. change (balance (new_limiter rate bst) key t0) with (bst, t0) in H.
  cbn [fst snd new_limiter refill_per_sec] in H. nia.
Qed.

Lemma rate_limiter_bound_witness :
  exists g l, granted [1] [(1, [1], 2); (5, [2], 3); (2000000001, [1], 2)] (new_limiter 1 3) = (g, l) /\
    g * 1000000000 <= 3 * 1000000000 + 1 * (2000000001 - 1).
Proof.
  eexists _, _. split; [vm_compute; reflexivity|].
  eapply (rate_limiter_bound 1 3 1 [(1, [1], 2); (5, [2], 3); (2000000001, [1], 2)] [1]);
    [lia|lia|lia|simpl; lia|vm_compute; reflexivity].
Defined.

(** ** Eviction *)

(** A bucket idle for long enough to refill completely holds the burst, as a new one does. *)
Lemma idle_bucket_full l b now :
  is_u32 (refill_per_sec l) -> is_u32 (burst l) -> rl_bucket_ok l b -> b_last b <= now < 2 ^ 63 ->
  0 < burst l -> refill_per_sec l * (now - b_last b) < 2 ^ 63 ->
  (burst l + 1) * 1000000000 <= refill_per_sec l * (now - b_last b - 1000000) ->
  b_tokens (rl_refill (refill_per_sec l) (burst l) b now) = burst l.
Proof.
  intros Hr Hb [Ht Hl] Hn Hb0 Hm Hfull. unfold rl_refill. cbv zeta. rewrite Z.quot_div_nonneg by lia.
  set (el := (now - b_last b) / 1000000).
  assert (Hel : now - b_last b - 1000000 < el * 1000000 <= now - b_last b) by (unfold el; Z.div_mod_to_equations; lia).
  assert (Hpos : 0 < el) by nia.
  rewrite (proj2 (Z.leb_gt _ _)), (u64_small el) by lia.
  rewrite (u64_small (refill_per_sec l * el)) by nia.
  set (add := refill_per_sec l * el / 1000).
  assert (Ha : burst l <= add).
  { unfold add. apply Z.div_le_lower_bound; [lia|]. nia. }
  assert (Hau : add < 2 ^ 63).
  { unfold add. apply Z.div_lt_upper_bound; nia. }
  rewrite (proj2 (Z.ltb_lt 0 add)) by lia. cbn [b_tokens]. rewrite (u64_small (_ + _)) by lia.
  destruct (Z.ltb_spec (burst l) (b_tokens b + add)); rewrite u32_small by lia; lia.
Qed.

(** Evicting idle buckets is not observable when a bucket refills within the idle time allowed:
    a later request of an evicted peer is answered as if its bucket had been kept. *)
Theorem evict_idle_unobservable l now max_age later key cost b :
  limiter_ok l -> buckets l !! key = Some b -> 0 < burst l -> 0 <= max_age ->
  b_last b < now - max_age * 1000000000 -> 0 < now <= later -> later < 2 ^ 63 ->
  refill_per_sec l * later < 2 ^ 63 ->
  (burst l + 1) * 1000000000 <= refill_per_sec l * (max_age * 1000000000 - 1000000) ->
  (allow later (evict_idle now max_age l).2 key cost).1 = (allow later l key cost).1 /\
  (rl_tokens later (evict_idle now max_age l).2 key).1 = (rl_tokens later l key).1.
Proof.
  intros (Hr & Hbu & Hall) Hk Hb0 Hma Hold Hlater Hmax Hm Hfull. pose proof (Hall key b Hk) as Hb. cbv beta in Hb.
  assert (Hev : buckets (evict_idle now max_age l).2 !! key = None).
  { cbn. apply map_lookup_filter_None. right. intros b' E. rewrite Hk in E. simplify_eq. cbn. lia. }
  assert (Hfl : b_tokens (rl_refill (refill_per_sec l) (burst l) b later) = burst l).
  { destruct Hb. apply idle_bucket_full; try done; try lia; nia. }
  unfold allow, rl_tokens. rewrite Hev, Hk. cbn [default Datatypes.id evict_idle snd buckets burst refill_per_sec].
  change (b_last new_Bucket =? 0) with true. cbn [b_tokens].
  rewrite (proj2 (Z.eqb_neq (b_last b) 0)) by (destruct Hb; lia). rewrite Hfl.
  split; [|done]. by destruct (cost <=? burst l).
Qed.

Lemma evict_idle_unobservable_witness :
  let l := mk_limiter 50 100 {[ [1] := mk_Bucket 3 7 1 ]} in
  (allow 9000000000 (evict_idle 8000000000 5 l).2 [1] 40).1 = (allow 9000000000 l [1] 40).1 /\
  (rl_tokens 9000000000 (evict_idle 8000000000 5 l).2 [1]).1 = (rl_tokens 9000000000 l [1]).1.
Proof.
  intros l. apply (evict_idle_unobservable l 8000000000 5 9000000000 [1] 40 (mk_Bucket 3 7 1));
    try (simpl; lia); [|reflexivity].
  split_and!; try (simpl; lia). apply map_Forall_singleton. unfold rl_bucket_ok. simpl. lia.
Defined.

(** With a short idle time eviction hands out a new burst early: a peer that has spent its burst
    gets it again by being idle for the eviction age, long before the refill would allow it. *)
Lemma evict_idle_restores_burst :
  let l := mk_limiter 1 100 {[ [1] := mk_Bucket 0 0 1 ]} in
  (allow 3000000002 l [1] 100).1 = false /\
  (allow 3000000002 (evict_idle 3000000002 2 l).2 [1] 100).1 = true.
Proof. split; vm_compute; reflexivity. Qed.
