(* ===== verification/Timing.v ===== *)
(** Waiting and time limits: the jittered backoff (sl_backoff.c), absolute deadlines (sl_deadline.c),
    the clock readers (sl_clock.c), the timing pads (sl_timing_defense.c) and the periodic key
    rotation (key_rotation.hpp).  A clock reading is the timespec of clock_gettime, or [None]
    when the call fails. *)

From S2P Require Import Prelude KeySched Rng.
Local Open Scope Z_scope.

Abbreviation timespec := (option (Z * Z)).

(** ** Clocks *)

(* src/src/sl_clock.c:15-21 *)
Definition sl_clock_mono_ms (ts : timespec) : Z :=
  match ts with
  | None => 0
  | Some (sec, nsec) => u64 (u64 (sec * 1000) + nsec / 1000000)
  end.

(* src/src/sl_clock.c:7-13 *)
Definition sl_clock_wall_ms (ts : timespec) : Z :=
  match ts with
  | None => 0
  | Some (sec, nsec) => u64 (u64 (sec * 1000) + nsec / 1000000)
  end.

(** Outcomes of nanosleep: done, interrupted with the time left, or another error. *)
Inductive nap := Slept | Interrupted (rem_sec rem_nsec : Z) | NapError.

(** The time asked for at each call of nanosleep, and the result. The loop runs as long as the
    sleep is interrupted; the list of outcomes bounds it. *)
(* src/src/sl_clock.c:27-34 [sl_clock_sleep_ms] *)
Fixpoint sleep_loop (naps : list nap) (req : Z * Z) : M (Z * list (Z * Z)) :=
  match naps with
  | [] => Fault
  | Slept :: _ => Ok (0, [req])
  | NapError :: _ => Ok (-1, [req])
  | Interrupted s n :: naps => let! '(rc, l) := sleep_loop naps (s, n) in Ok (rc, req :: l)
  end.

(* src/src/sl_clock.c:23-35 *)
Definition sl_clock_sleep_ms (naps : list nap) (ms : Z) : M (Z * list (Z * Z)) :=
  sleep_loop naps (ms / 1000, u64 (ms mod 1000 * 1000000)).

(** ** Deadlines *)

(* src/src/sl_deadline.c:7-11 *)
Definition sl_deadline_now_ms (ts : timespec) : Z :=
  match ts with
  | None => 0
  | Some (sec, nsec) => u64 (u64 (sec * 1000) + nsec / 1000000)
  end.

(* src/src/sl_deadline.c:13-15 *)
Definition sl_deadline_in_ms (ts : timespec) (timeout_ms : Z) : Z := u64 (sl_deadline_now_ms ts + timeout_ms).

(* src/src/sl_deadline.c:17-19 *)
Definition sl_deadline_expired (ts : timespec) (deadline_ms : Z) : bool := deadline_ms <=? sl_deadline_now_ms ts.

(* src/src/sl_deadline.c:21-26 *)
Definition sl_deadline_remaining_ms (ts : timespec) (deadline_ms : Z) : Z :=
  let now := sl_deadline_now_ms ts in
  if deadline_ms <=? now then 0 else
  let r := u64 (deadline_ms - now) in
  if UINT32_MAX <? r then UINT32_MAX else u32 r.

Definition ts_ok (ts : timespec) : Prop :=
  match ts with
  | None => False
  | Some (sec, nsec) => 0 <= sec < 2 ^ 50 /\ 0 <= nsec < 1000000000
  end.

Definition elapsed_ns (ts : timespec) : Z :=
  match ts with None => 0 | Some (sec, nsec) => sec * 1000000000 + nsec end.

Lemma now_ms_value ts : ts_ok ts -> sl_deadline_now_ms ts = elapsed_ns ts / 1000000 /\ 0 <= sl_deadline_now_ms ts < 2 ^ 61.
Proof.
  destruct ts as [[s n]|]; [|done]. intros [Hs Hn]. unfold sl_deadline_now_ms, elapsed_ns.
  rewrite (u64_small (s * 1000)) by lia. replace (s * 1000000000 + n) with (s * 1000 * 1000000 + n) by lia.
  rewrite Z.div_add_l by lia.
  assert (0 <= n / 1000000 < 1000) by (split; [apply Z.div_pos|apply Z.div_lt_upper_bound]; lia).
  rewrite u64_small by lia. lia.
Qed.

(** A deadline set [t] milliseconds ahead has expired exactly when the millisecond clock has
    advanced by [t]; until then the remaining time is the exact difference, and it is 0 exactly
    when the deadline has expired. *)
Theorem deadline_exact start later t :
  ts_ok start -> ts_ok later -> is_u32 t -> elapsed_ns start <= elapsed_ns later ->
  let d := sl_deadline_in_ms start t in
  (sl_deadline_expired later d = true <-> t <= elapsed_ns later / 1000000 - elapsed_ns start / 1000000) /\
  sl_deadline_remaining_ms later d = Z.max 0 (t - (elapsed_ns later / 1000000 - elapsed_ns start / 1000000)) /\
  (sl_deadline_remaining_ms later d = 0 <-> sl_deadline_expired later d = true).
Proof.
  intros Hs Hl Ht Hle d. destruct (now_ms_value start Hs) as [Es Rs]. destruct (now_ms_value later Hl) as [El Rl].
  assert (Hm : elapsed_ns start / 1000000 <= elapsed_ns later / 1000000) by (apply Z.div_le_mono; lia).
  assert (Hd : d = elapsed_ns start / 1000000 + t) by (unfold d, sl_deadline_in_ms; rewrite Es, u64_small; lia).
  unfold sl_deadline_expired, sl_deadline_remaining_ms. rewrite Hd, El.
  set (a := elapsed_ns start / 1000000) in *. set (b := elapsed_ns later / 1000000) in *.
  destruct (Z.leb_spec (a + t) b).
  - split_and!; try lia; split; intros; lia || done.
  - rewrite u64_small by lia. rewrite (proj2 (Z.ltb_ge _ _)), u32_small by lia.
    split_and!; try lia; split; intros; lia || done.
Qed.

Lemma deadline_exact_witness :
  let d := sl_deadline_in_ms (Some (5, 999999)) 20 in
  (sl_deadline_expired (Some (5, 20000000)) d = true <-> 20 <= 5020 - 5000) /\
  sl_deadline_remaining_ms (Some (5, 20000000)) d = Z.max 0 (20 - (5020 - 5000)) /\
  (sl_deadline_remaining_ms (Some (5, 20000000)) d = 0 <-> sl_deadline_expired (Some (5, 20000000)) d = true).
Proof. apply (deadline_exact (Some (5, 999999)) (Some (5, 20000000)) 20); vm_compute; intuition discriminate. Defined.

(** ** Backoff *)

(* src/inc/sl_backoff.h:20-25 *)
Record sl_backoff_t := mk_backoff { base_ms : Z; cap_ms : Z; last_ms : Z; attempt : Z }.

(* src/src/sl_backoff.c:7-14 *)
Definition sl_backoff_init (base cap : Z) : option sl_backoff_t :=
  if (base =? 0) || (cap <? base) then None else Some (mk_backoff base cap base 0).

(* src/src/sl_backoff.c:16-20 *)
Definition sl_backoff_reset (b : sl_backoff_t) : sl_backoff_t := mk_backoff (base_ms b) (cap_ms b) (base_ms b) 0.

(* src/src/sl_backoff.c:22-24 *)
Definition sl_backoff_attempt (b : sl_backoff_t) : Z := attempt b.

(* src/src/sl_backoff.c:30-34 [sl_backoff_next] *)
Definition backoff_span (b : sl_backoff_t) : Z :=
  let upper := last_ms b * 3 in
  let upper := if cap_ms b <? upper then cap_ms b else upper in
  let upper := if upper <=? base_ms b then u32 (base_ms b + 1) else upper in
  u64 (upper - base_ms b).

Section Backoff.
Context {R : Type} `{RandLaws R}.

(* src/src/sl_backoff.c:26-43 *)
Definition sl_backoff_next (fuel : nat) (b : sl_backoff_t) (r : R) : M (Z * sl_backoff_t * R) :=
  let! '(o, r) := sl_rng_uniform fuel (backoff_span b) r in
  let x := default 0 o in
  let delay := u32 (base_ms b + u32 x) in
  Ok (delay, mk_backoff (base_ms b) (cap_ms b) delay (u32 (attempt b + 1)), r).

Definition backoff_ok (base cap : Z) (b : sl_backoff_t) : Prop :=
  base_ms b = base /\ cap_ms b = cap /\ 0 < base <= cap /\ base < UINT32_MAX /\ cap <= UINT32_MAX /\
  base <= last_ms b <= cap.

Lemma backoff_ok_init base cap b :
  is_u32 base -> is_u32 cap -> base < UINT32_MAX -> sl_backoff_init base cap = Some b -> backoff_ok base cap b.
Proof.
  intros Hb Hc Hm. unfold sl_backoff_init, backoff_ok.
  destruct (Z.eqb_spec base 0), (Z.ltb_spec cap base); cbn [orb]; intros [=]; subst; cbn; lia.
Qed.

Lemma backoff_span_value base cap b :
  backoff_ok base cap b ->
  backoff_span b = Z.max (base + 1) (Z.min cap (last_ms b * 3)) - base /\ 0 < backoff_span b < 4294967296.
Proof.
  intros (E1 & E2 & Hb & Hm & Hc & Hl). unfold backoff_span. rewrite E1, E2.
  destruct (Z.ltb_spec cap (last_ms b * 3)).
  - destruct (Z.leb_spec cap base); [rewrite u32_small by lia|]; rewrite u64_small; lia.
  - rewrite (proj2 (Z.leb_gt _ _)) by lia. rewrite u64_small; lia.
Qed.

(** Every delay is within its bounds: it is at least the base and below
    min(cap, 3 * previous delay), or exactly the base when that interval is empty or the random
    generator fails; the object stays in its invariant, so this holds for every attempt. The call
    returns as soon as one of the words drawn is accepted by the rejection sampling. *)
Theorem backoff_next_bounds base cap b r fuel k :
  backoff_ok base cap b -> (k < fuel)%nat -> settles (backoff_span b) (nth_draw k r) ->
  exists d b' r', sl_backoff_next fuel b r = Ok (d, b', r') /\ backoff_ok base cap b' /\ last_ms b' = d /\
    base <= d <= cap /\ (d = base \/ d < Z.min cap (last_ms b * 3)).
Proof.
  intros Hok Hk Hs. destruct (backoff_span_value base cap b Hok) as [Es Rs].
  destruct (uniform_loop_settles (backoff_span b) ltac:(lia) k fuel r Hk Hs) as (o & r' & Eu & Ho).
  unfold sl_backoff_next, sl_rng_uniform. rewrite (proj2 (Z.eqb_neq _ _)) by lia. rewrite Eu.
  destruct Hok as (E1 & E2 & Hb & Hm & Hc & Hl).
  assert (Hx : 0 <= default 0 o < backoff_span b) by (destruct o; simpl; lia).
  cbv zeta. rewrite (u32_small (default 0 o)) by lia. rewrite (u32_small (_ + _)) by lia. rewrite E1.
  eexists _, _, _. split; [reflexivity|]. unfold backoff_ok. cbn [base_ms cap_ms last_ms]. lia.
Qed.

(** ** Timing pads *)

(* src/src/sl_timing_defense.c:8-12 *)
Definition sl_timing_now_us (ts : timespec) : Z :=
  match ts with
  | None => 0
  | Some (sec, nsec) => u64 (u64 (sec * 1000000) + nsec / 1000)
  end.

(** The request made to nanosleep, if any. *)
(* src/src/sl_timing_defense.c:14-20 *)
Definition sleep_us (us : Z) : option (Z * Z) :=
  if us =? 0 then None else Some (us / 1000000, u64 (us mod 1000000 * 1000)).

(* src/src/sl_timing_defense.c:22-26 *)
Definition sl_timing_pad_to_floor (ts : timespec) (start_us floor_us : Z) : option (Z * Z) :=
  let now := sl_timing_now_us ts in
  if u64 (start_us + floor_us) <=? now then None else sleep_us (u64 (u64 (start_us + floor_us) - now)).

(* src/src/sl_timing_defense.c:28-33 *)
Definition sl_timing_random_jitter (fuel : nat) (max_us : Z) (r : R) : M (option (Z * Z) * R) :=
  if max_us =? 0 then Ok (None, r) else
  let! '(o, r) := sl_rng_uniform fuel (max_us + 1) r in
  Ok (match o with None => None | Some x => sleep_us x end, r).

Definition nap_us (req : option (Z * Z)) : Z :=
  match req with None => 0 | Some (s, n) => s * 1000000 + n / 1000 end.

Lemma sleep_us_exact us : is_u64 us -> nap_us (sleep_us us) = us.
Proof.
  intros Hu. unfold sleep_us. destruct (Z.eqb_spec us 0); [by subst|]. cbn [nap_us].
  pose proof (Z.mod_pos_bound us 1000000 ltac:(lia)). rewrite u64_small, Z.div_mul by lia.
  pose proof (Z.div_mod us 1000000). lia.
Qed.

(** A fast answer is delayed to the floor and a slow one is not delayed. *)
Lemma pad_reaches_floor ts start floor :
  is_u64 start -> is_u32 floor -> start + floor < 2 ^ 64 ->
  let now := sl_timing_now_us ts in
  now + nap_us (sl_timing_pad_to_floor ts start floor) = Z.max now (start + floor).
Proof.
  intros Hs Hf Ho now. unfold sl_timing_pad_to_floor. fold now. rewrite (u64_small (start + floor)) by lia.
  assert (Hn : 0 <= now) by (unfold now, sl_timing_now_us; destruct ts as [[? ?]|]; [apply u64_range|lia]).
  destruct (Z.leb_spec (start + floor) now); cbn [nap_us]; [lia|].
  rewrite sleep_us_exact, u64_small by (apply u64_range || lia). lia.
Qed.

Lemma jitter_bounded max_us r fuel k :
  is_u32 max_us -> (k < fuel)%nat -> settles (max_us + 1) (nth_draw k r) ->
  exists req r', sl_timing_random_jitter fuel max_us r = Ok (req, r') /\ 0 <= nap_us req <= max_us.
Proof.
  intros Hm Hk Hs. unfold sl_timing_random_jitter. destruct (Z.eqb_spec max_us 0) as [->|]; [by eexists _, _|].
  destruct (uniform_loop_settles (max_us + 1) ltac:(lia) k fuel r Hk Hs) as (o & r' & Eu & Ho).
  unfold sl_rng_uniform. rewrite (proj2 (Z.eqb_neq _ _)) by lia. rewrite Eu. eexists _, _. split; [reflexivity|].
  destruct o as [x|]; [|simpl; lia]. rewrite sleep_us_exact; lia.
Qed.
End Backoff.

Lemma backoff_next_bounds_witness :
  exists d b' r', sl_backoff_next 3 (mk_backoff 100 1000 250 2) [Some [0; 0; 0; 0; 0; 0; 4; 210]] = Ok (d, b', r') /\
    backoff_ok 100 1000 b' /\ last_ms b' = d /\ 100 <= d <= 1000 /\ (d = 100 \/ d < Z.min 1000 (250 * 3)).
Proof.
  apply (backoff_next_bounds 100 1000 (mk_backoff 100 1000 250 2) [Some [0; 0; 0; 0; 0; 0; 4; 210]] 3 0);
    [unfold backoff_ok; simpl; lia|lia|vm_compute; reflexivity].
Defined.

(** With the largest base the upper end wraps to 0 and the delay falls below the base. *)
Lemma backoff_wraps_at_max :
  exists b, sl_backoff_init UINT32_MAX UINT32_MAX = Some b /\
    exists b' r', sl_backoff_next 1 b [Some [0; 0; 0; 0; 0; 0; 0; 1]] = Ok (0, b', r').
Proof. eexists. split; [reflexivity|]. eexists _, _. vm_compute; reflexivity. Qed.

(** ** Key rotation *)

Section KeyRotation.
(** The generator behind the [keygen_] callback: a state, and a new private and public key. *)
Context {G : Type} (keygen : G -> list Z * list Z * G).

(* src/inc/key_rotation.hpp:44-51 [KeyRotation] *)
Record KeyRotation := mk_rotation
  { interval : Z; current_privkey : list Z; current_pubkey : list Z; prev_pubkey : list Z;
    last_rotation : Z; rotation_count : Z }.

(* src/inc/key_rotation.hpp:30-36 *)
Definition rotate_now (now : Z) (k : KeyRotation) (g : G) : KeyRotation * G :=
  let '(priv, pub, g) := keygen g in
  (mk_rotation (interval k) priv pub (current_pubkey k) now (rotation_count k + 1), g).

(** Time points are in nanoseconds; the cast to seconds truncates. *)
(* src/inc/key_rotation.hpp:17-22 *)
Definition needs_rotation (now : Z) (k : KeyRotation) : bool :=
  interval k <=? Z.quot (now - last_rotation k) 1000000000.

(* src/inc/key_rotation.hpp:24-28 *)
Definition rotate_if_needed (now : Z) (k : KeyRotation) (g : G) : KeyRotation * G :=
  if needs_rotation now k then rotate_now now k g else (k, g).

(* src/inc/key_rotation.hpp:11-15 [KeyRotation] *)
Definition new_rotation (now : Z) (interval_sec : Z) (g : G) : KeyRotation * G :=
  rotate_now now (mk_rotation interval_sec (replicate 32 0) (replicate 64 0) (replicate 64 0) 0 0) g.

(** A key is never used past its interval when the check is made, and the key it replaces stays
    available as the previous one. *)
Lemma rotate_if_needed_spec now k g :
  0 <= last_rotation k <= now -> 0 < interval k ->
  let '(k', g') := rotate_if_needed now k g in
  now - last_rotation k' < interval k' * 1000000000 /\ interval k' = interval k /\
  (k' = k /\ g' = g \/
   prev_pubkey k' = current_pubkey k /\ rotation_count k' = rotation_count k + 1 /\
   (current_privkey k', current_pubkey k', g') = keygen g).
Proof.
  intros Hl Hi. unfold rotate_if_needed, needs_rotation. rewrite Z.quot_div_nonneg by lia.
  destruct (Z.leb_spec (interval k) ((now - last_rotation k) / 1000000000)).
  - unfold rotate_now. destruct (keygen g) as [[priv pub] g']. cbn.
    split_and!; [lia|done|]. by right.
  - split_and!; [|done|by left]. pose proof (Z.div_mod (now - last_rotation k) 1000000000 ltac:(lia)).
    pose proof (Z.mod_pos_bound (now - last_rotation k) 1000000000 ltac:(lia)). nia.
Qed.
End KeyRotation.

(** ** Dummy work *)

Section DummyWork.
Context `{HashLaws}.

(* src/src/sl_timing_defense.c:43-45 sl_timing_dummy_work *)
Definition mix_digest (digest block : list Z) : M (list Z) :=
  for_up 64 0 (fun j block =>
    let! b := load block j in
    let! x := load digest (j mod 32) in
    store block j (Z.lxor b x)) block.

(** The byte read at the end. *)
(* src/src/sl_timing_defense.c:35-50 *)
Definition sl_timing_dummy_work (iterations : Z) : M Z :=
  let! block := for_up (Z.to_nat iterations) 0 (fun _ block => mix_digest (sha256 block) block) (replicate 64 0) in
  load block 0.

Lemma mix_digest_ok digest block : len digest = 32 -> bytes_ok digest -> len block = 64 -> bytes_ok block ->
  exists b, mix_digest digest block = Ok b /\ len b = 64 /\ bytes_ok b.
Proof.
  intros Hd Hbd Hb Hbb. unfold mix_digest.
  destruct (for_up_inv (fun _ b => len b = 64 /\ bytes_ok b) (fun j block =>
    let! b := load block j in let! x := load digest (j mod 32) in store block j (Z.lxor b x)) 64 0 block) as (b & E & Hl); [done| |eauto].
  intros j b Hj [Hl Hbb']. pose proof (Z.mod_pos_bound j 32 ltac:(lia)).
  destruct (load_sound b j) as (x & -> & Hx & _); [done|lia..|]. destruct (load_sound digest (j mod 32)) as (y & -> & Hy & _); [done|lia..|].
  rewrite store_ok by lia. eexists. split; [done|]. split; [by rewrite len_insert|]. apply Forall_insert; [done|by apply lxor_u8].
Qed.

(** The work stays within its two arrays for any number of iterations. *)
Lemma dummy_work_total iterations : 0 <= iterations -> exists v, sl_timing_dummy_work iterations = Ok v /\ is_u8 v.
Proof.
  intros Hi. unfold sl_timing_dummy_work.
  destruct (for_up_inv (fun _ b => len b = 64 /\ bytes_ok b) (fun _ block => mix_digest (sha256 block) block) (Z.to_nat iterations) 0 (replicate 64 0))
    as (b & -> & Hl & Hb).
  - split; [done|by apply bytes_ok_replicate].
  - intros j b _ [Hl Hb]. destruct (sha256_ok b). by apply mix_digest_ok.
  - destruct (load_sound b 0) as (v & -> & Hv & _); [done|lia..|]. eauto.
Qed.
End DummyWork.
