(* ===== verification/ChainTable.v ===== *)
(** Hash tables with chained buckets, as sl_lockout.c, sl_dos_guard.c and sl_config.c write them:
    an array of linked lists indexed by an FNV-1a hash, searched with strcmp from the head, with
    new entries pushed at the head.  A key is the bytes of a C string before its terminator; a
    chain is the list of its entries.  Writing through the entry pointer that a search returns is
    [tbl_set]. *)

From stdpp Require Import gmap.
From S2P Require Import Prelude Ctype.
Local Open Scope Z_scope.

(** The same function is repeated in the three files. *)
(* src/src/sl_lockout.c:31-38 *)
Definition fnv1a (s : cstring) : Z := foldl (fun h c => u32 (Z.lxor h c * 16777619)) 2166136261 s.

Section Table.
Context {V : Type} (n : positive).

Abbreviation chain := (list (cstring * V)).
Abbreviation table := (list (list (cstring * V))).

Definition bucket (key : cstring) : nat := Z.to_nat (fnv1a key mod Z.pos n).

(** calloc: every chain empty. *)
Definition tbl_new : table := replicate (Pos.to_nat n) [].

(** [for (e = buckets[b]; e; e = e->next) if (strcmp(e->key, key) == 0) return e;] *)
Fixpoint chain_find (c : chain) (key : cstring) : option V :=
  match c with
  | [] => None
  | (k, v) :: c => if decide (k = key) then Some v else chain_find c key
  end.

(** A write through the pointer found. *)
Fixpoint chain_set (c : chain) (key : cstring) (v : V) : chain :=
  match c with
  | [] => []
  | (k, w) :: c => if decide (k = key) then (k, v) :: c else (k, w) :: chain_set c key v
  end.

Definition tbl_find (t : table) (key : cstring) : option V :=
  match t !! bucket key with Some c => chain_find c key | None => None end.
Definition tbl_set (t : table) (key : cstring) (v : V) : table := alter (fun c => chain_set c key v) (bucket key) t.
Definition tbl_push (t : table) (key : cstring) (v : V) : table := alter (cons (key, v)) (bucket key) t.

Lemma bucket_lt key : (bucket key < Pos.to_nat n)%nat.
Proof. unfold bucket. pose proof (Z.mod_pos_bound (fnv1a key) (Z.pos n) ltac:(lia)). lia. Qed.

Lemma length_tbl_new : length tbl_new = Pos.to_nat n.
Proof. apply length_replicate. Qed.
Lemma length_tbl_set t key v : length (tbl_set t key v) = length t.
Proof. apply length_alter. Qed.
Lemma length_tbl_push t key v : length (tbl_push t key v) = length t.
Proof. apply length_alter. Qed.

(** ** Lookup after a write *)

Lemma find_new key : tbl_find tbl_new key = None.
Proof. unfold tbl_find, tbl_new. by rewrite lookup_replicate_2 by apply bucket_lt. Qed.

Lemma chain_find_set c key v k :
  is_Some (chain_find c key) -> chain_find (chain_set c key v) k = if decide (key = k) then Some v else chain_find c k.
Proof.
  induction c as [|[k0 w] c IH]; simpl; [by intros [? ?]|]. destruct (decide (k0 = key)) as [->|Hne]; intros Hs; simpl.
  - by destruct (decide (key = k)).
  - rewrite IH by done. repeat case_decide; congruence.
Qed.

Lemma find_set t key v k :
  is_Some (tbl_find t key) -> tbl_find (tbl_set t key v) k = if decide (key = k) then Some v else tbl_find t k.
Proof.
  unfold tbl_find, tbl_set. intros Hs. destruct (decide (bucket key = bucket k)) as [E|E].
  - rewrite <- E, list_lookup_alter_eq. destruct (t !! bucket key) as [c|]; [|by destruct Hs].
    simpl. by apply chain_find_set.
  - rewrite list_lookup_alter_ne by done. by rewrite decide_False by congruence.
Qed.

Lemma find_push t key v k :
  length t = Pos.to_nat n -> tbl_find (tbl_push t key v) k = if decide (key = k) then Some v else tbl_find t k.
Proof.
  intros Hl. unfold tbl_find, tbl_push. destruct (decide (bucket key = bucket k)) as [E|E].
  - rewrite <- E, list_lookup_alter_eq. destruct (t !! bucket key) as [c|] eqn:Ec; [done|].
    apply lookup_ge_None in Ec. pose proof (bucket_lt key). lia.
  - rewrite list_lookup_alter_ne by done. by rewrite decide_False by congruence.
Qed.

(** ** Sums over all entries *)

Definition chain_sum (f : V -> Z) (c : chain) : Z := foldr (fun e z => f e.2 + z) 0 c.
Definition tbl_sum (f : V -> Z) (t : table) : Z := foldr (fun c z => chain_sum f c + z) 0 t.

Lemma sum_new f : tbl_sum f tbl_new = 0.
Proof. unfold tbl_new. induction (Pos.to_nat n); simpl; [done|]. unfold tbl_sum in *. lia. Qed.

Lemma sum_alter f (g : chain -> chain) b c d t :
  t !! b = Some c -> chain_sum f (g c) = chain_sum f c + d -> tbl_sum f (alter g b t) = tbl_sum f t + d.
Proof.
  revert b. induction t as [|c0 t IH]; intros b Hb Hd; [done|].
  destruct b as [|b]; simpl in *; simplify_eq.
  - unfold tbl_sum in *. lia.
  - change (chain_sum f c0 + tbl_sum f (alter g b t) = chain_sum f c0 + tbl_sum f t + d). rewrite (IH b) by done. lia.
Qed.

Lemma chain_sum_set f c key v w :
  chain_find c key = Some w -> chain_sum f (chain_set c key v) = chain_sum f c + (f v - f w).
Proof.
  induction c as [|[k u] c IH]; simpl; [done|]. destruct (decide (k = key)); intros; simplify_eq; simpl; [lia|].
  rewrite IH by done. lia.
Qed.

Lemma sum_set f t key v w :
  tbl_find t key = Some w -> tbl_sum f (tbl_set t key v) = tbl_sum f t + (f v - f w).
Proof.
  unfold tbl_find, tbl_set. destruct (t !! bucket key) as [c|] eqn:E; [|done]. intros Hw.
  eapply sum_alter; [done|]. by apply chain_sum_set.
Qed.

Lemma sum_push f t key v :
  length t = Pos.to_nat n -> tbl_sum f (tbl_push t key v) = tbl_sum f t + f v.
Proof.
  intros Hl. pose proof (bucket_lt key). destruct (lookup_lt_is_Some_2 t (bucket key) ltac:(lia)) as [c Hc].
  eapply sum_alter; [done|]. simpl. lia.
Qed.

(** ** Every entry *)

Definition tbl_all (P : V -> Prop) (t : table) : Prop := Forall (Forall (fun e => P e.2)) t.

Lemma all_new P : tbl_all P tbl_new.
Proof. apply Forall_replicate. constructor. Qed.

Lemma all_push (P : V -> Prop) t key v : tbl_all P t -> P v -> tbl_all P (tbl_push t key v).
Proof. intros Ht Hv. apply Forall_alter; [done|]. intros c _ Hc. by constructor. Qed.

Lemma all_set (P : V -> Prop) t key v : tbl_all P t -> P v -> tbl_all P (tbl_set t key v).
Proof.
  intros Ht Hv. apply Forall_alter; [done|]. intros c _ Hc. induction Hc as [|[k w] c Hw Hc IH]; simpl; [done|].
  case_decide; constructor; done.
Qed.

Lemma all_find (P : V -> Prop) t key v : tbl_all P t -> tbl_find t key = Some v -> P v.
Proof.
  unfold tbl_find. intros Ht. destruct (t !! bucket key) as [c|] eqn:E; [|done].
  pose proof (Forall_lookup_1 _ _ _ _ Ht E) as Hc. cbv beta in Hc. clear E.
  induction Hc as [|[k w] c Hw Hc IH]; simpl; [done|]. case_decide; intros; simplify_eq; auto.
Qed.

(** A term of a sum of non-negative terms. *)
Section Terms.
Context (P : V -> Prop) (f : V -> Z).
Hypothesis Hf : forall v, P v -> 0 <= f v.

Lemma chain_sum_nonneg c : Forall (fun e => P e.2) c -> 0 <= chain_sum f c.
Proof. induction 1 as [|[k w] c Hw _ IH]; simpl; [lia|]. pose proof (Hf w Hw). lia. Qed.

Lemma tbl_sum_nonneg t : tbl_all P t -> 0 <= tbl_sum f t.
Proof.
  induction 1 as [|c t Hc _ IH]; simpl; [lia|]. pose proof (chain_sum_nonneg c Hc). unfold tbl_sum in *. lia.
Qed.

Lemma tbl_sum_ge t key v : tbl_all P t -> tbl_find t key = Some v -> f v <= tbl_sum f t.
Proof.
  intros Ht. unfold tbl_find. destruct (t !! _) as [c|] eqn:Ec; [|done]. intros Hc.
  assert (Hin : f v <= chain_sum f c).
  { pose proof (Forall_lookup_1 _ _ _ _ Ht Ec) as H'. cbv beta in H'. clear Ec.
    induction H' as [|[k w] c' Hw Hc' IH]; simpl in *; [done|]. pose proof (Hf w Hw). pose proof (chain_sum_nonneg c' Hc').
    case_decide; simplify_eq; [lia|]. specialize (IH Hc). lia. }
  enough (chain_sum f c <= tbl_sum f t) by lia. clear Hc Hin. revert Ec. generalize (bucket key).
  induction Ht as [|c' t Hc' Ht IH]; intros b Hb; [done|].
  pose proof (chain_sum_nonneg c' Hc'). pose proof (tbl_sum_nonneg t Ht).
  change (tbl_sum f (c' :: t)) with (chain_sum f c' + tbl_sum f t).
  destruct b; simpl in Hb; simplify_eq; [lia|]. specialize (IH b Hb). lia.
Qed.
End Terms.

(** ** The table as a finite map *)

Definition chains_ok (t : table) : Prop :=
  length t = Pos.to_nat n /\
  forall b c, t !! b = Some c -> NoDup c.*1 /\ Forall (fun e => bucket e.1 = b) c.

Lemma chains_ok_new : chains_ok tbl_new.
Proof. split; [apply length_tbl_new|]. intros b c [-> _]%lookup_replicate. split; constructor. Qed.

Lemma chain_set_keys c key v : (chain_set c key v).*1 = c.*1.
Proof. induction c as [|[k w] c IH]; csimpl; [done|]. case_decide; csimpl; [done|by rewrite IH]. Qed.

Lemma chain_find_None c key : chain_find c key = None <-> key ∉ c.*1.
Proof.
  induction c as [|[k w] c IH]; csimpl; [split; [intros _; apply not_elem_of_nil|done]|].
  rewrite not_elem_of_cons. case_decide as E; [subst; naive_solver|]. rewrite IH. naive_solver.
Qed.

Lemma chains_ok_set t key v : chains_ok t -> chains_ok (tbl_set t key v).
Proof.
  intros [Hl Ht]. split; [by rewrite length_tbl_set|]. intros b c. unfold tbl_set.
  destruct (decide (bucket key = b)) as [<-|Hb]; [|rewrite list_lookup_alter_ne by done; apply Ht].
  rewrite list_lookup_alter_eq. destruct (t !! bucket key) as [c0|] eqn:E; [|done]. intros [= <-].
  destruct (Ht _ _ E) as [Hn Hf]. rewrite chain_set_keys. split; [done|].
  rewrite <- (Forall_fmap fst (fun k => bucket k = bucket key)) in *. by rewrite chain_set_keys.
Qed.

Lemma chains_ok_push t key v : chains_ok t -> tbl_find t key = None -> chains_ok (tbl_push t key v).
Proof.
  intros [Hl Ht] Hnone. split; [by rewrite length_tbl_push|]. intros b c. unfold tbl_push.
  destruct (decide (bucket key = b)) as [<-|Hb]; [|rewrite list_lookup_alter_ne by done; apply Ht].
  unfold tbl_find in Hnone. rewrite list_lookup_alter_eq. destruct (t !! bucket key) as [c0|] eqn:E; [|done]. intros [= <-].
  destruct (Ht _ _ E) as [Hn Hf]. simpl. split; [|by constructor].
  constructor; [|done]. by apply chain_find_None.
Qed.

(** The number of entries is the number of keys that are found. *)
Lemma keys_NoDup t : chains_ok t -> NoDup (concat t).*1.
Proof.
  intros [_ Ht].
  assert (H : forall k (u : table), (forall b c, u !! b = Some c -> NoDup c.*1 /\ Forall (fun e => bucket e.1 = (k + b)%nat) c) ->
    NoDup (concat u).*1).
  { intros k u. revert k. induction u as [|c u IH]; intros k Hu; simpl; [constructor|].
    rewrite fmap_app. apply NoDup_app. split_and!.
    - apply (Hu 0%nat c eq_refl).
    - intros x Hx Hx'. destruct (Hu 0%nat c eq_refl) as [_ Hf].
      apply list_elem_of_fmap in Hx as (e & -> & He). apply list_elem_of_fmap in Hx' as (e' & E & He').
      apply list_elem_of_In, in_concat in He' as (c' & Hc' & He').
      apply list_elem_of_In, list_elem_of_lookup in Hc' as [b Hb].
      destruct (Hu (S b) c' Hb) as [_ Hf']. rewrite Forall_forall in Hf, Hf'.
      pose proof (Hf e He). pose proof (Hf' e' ltac:(by apply list_elem_of_In)). rewrite E in *. lia.
    - apply (IH (S k)). intros b c' Hb. destruct (Hu (S b) c' Hb) as [? Hf]. split; [done|].
      eapply Forall_impl; [exact Hf|]. cbv beta. intros; lia. }
  apply (H 0%nat). intros b c Hb. by apply Ht.
Qed.

Definition tbl_map (t : table) : gmap cstring V := list_to_map (concat t).

Lemma tbl_map_lookup t key : chains_ok t -> tbl_map t !! key = tbl_find t key.
Proof.
  intros Hok. pose proof (keys_NoDup t Hok) as Hnd. destruct Hok as [Hl Ht]. unfold tbl_map, tbl_find.
  pose proof (bucket_lt key). destruct (lookup_lt_is_Some_2 t (bucket key) ltac:(lia)) as [c Hc]. rewrite Hc.
  destruct (chain_find c key) as [v|] eqn:E.
  - apply elem_of_list_to_map_1; [done|]. apply list_elem_of_In, in_concat. exists c.
    split; [apply list_elem_of_In; by eapply list_elem_of_lookup_2|]. apply list_elem_of_In.
    clear -E. induction c as [|[k w] c IH]; simpl in *; [done|]. case_decide; simplify_eq; [left|right; auto].
  - apply not_elem_of_list_to_map_1. intros He. apply list_elem_of_fmap in He as ([k v] & -> & He).
    apply list_elem_of_In, in_concat in He as (c' & Hc' & He). apply list_elem_of_In, list_elem_of_lookup in Hc' as [b Hb].
    destruct (Ht _ _ Hb) as [_ Hf]. rewrite Forall_forall in Hf.
    pose proof (Hf _ ltac:(by apply list_elem_of_In)) as Eb. cbn [fst] in Eb, E, Hc. subst b. rewrite Hc in Hb.
    simplify_eq. apply chain_find_None in E. apply E. apply list_elem_of_fmap. exists (k, v).
    split; [done|by apply list_elem_of_In].
Qed.

Lemma tbl_map_size t : chains_ok t -> Z.of_nat (size (tbl_map t)) = tbl_sum (fun _ => 1) t.
Proof.
  intros Hok. pose proof (keys_NoDup t Hok) as Hnd. unfold tbl_map.
  rewrite map_size_list_to_map by done. clear.
  induction t as [|c t IH]; simpl; [done|]. rewrite length_app, Nat2Z.inj_add, IH. f_equal.
  clear. induction c as [|e c IH]; simpl; [done|]. lia.
Qed.
End Table.

#[global] Arguments tbl_new {V} n.
Create Rewrite HintDb chains.
#[export] Hint Rewrite @length_tbl_set @length_tbl_push @length_tbl_new : chains.
