(* ===== verification/Lockout.v ===== *)
(** Failure lockout with exponential windows (sl_lockout.c) over the chained table.  The clock, in
    milliseconds, and the outcome of the allocations are arguments. *)

From stdpp Require Import gmap.
From S2P Require Import Prelude Ctype ChainTable.
Local Open Scope Z_scope.

Abbreviation SL_LOCKOUT_BUCKETS := 1024%positive.

(* src/inc/sl_lockout.h:23-26 *)
Inductive sl_lockout_status_t := SL_LOCKOUT_ALLOW | SL_LOCKOUT_BLOCKED.

#[export] Instance lockout_status_eq_dec : EqDecision sl_lockout_status_t.
Proof. solve_decision. Defined.

(* src/src/sl_lockout.c:10-15 *)
Record entry_t := mk_entry { fails : Z; locked_until_ms : Z }.

(* src/src/sl_lockout.c:17-23 *)
Record sl_lockout := mk_lockout
  { base_lockout_ms : Z; cap_lockout_ms : Z; fail_threshold : Z;
    lk_buckets : list (list (cstring * entry_t)); lk_count : Z }.

(* src/src/sl_lockout.c:40-54 [find_or_create] *)
Definition lk_find_or_create (alloc : bool) (L : sl_lockout) (key : cstring) (create : bool) : option entry_t * sl_lockout :=
  match tbl_find SL_LOCKOUT_BUCKETS (lk_buckets L) key with
  | Some e => (Some e, L)
  | None =>
      if negb create then (None, L)
      else if negb alloc then (None, L)
      else
        let ne := mk_entry 0 0 in
        (Some ne, mk_lockout (base_lockout_ms L) (cap_lockout_ms L) (fail_threshold L)
                    (tbl_push SL_LOCKOUT_BUCKETS (lk_buckets L) key ne) (u64 (lk_count L + 1)))
  end.

(** A write through the entry pointer. *)
Definition lk_write (L : sl_lockout) (key : cstring) (e : entry_t) : sl_lockout :=
  mk_lockout (base_lockout_ms L) (cap_lockout_ms L) (fail_threshold L)
    (tbl_set SL_LOCKOUT_BUCKETS (lk_buckets L) key e) (lk_count L).

(* src/src/sl_lockout.c:56-69 *)
Definition sl_lockout_new (alloc : bool) (base cap threshold : Z) : option sl_lockout :=
  if (base =? 0) || (cap <? base) || (threshold =? 0) then None
  else if negb alloc then None
  else Some (mk_lockout base cap threshold (tbl_new SL_LOCKOUT_BUCKETS) 0).

(* src/src/sl_lockout.c:85-90 *)
Definition sl_lockout_check (now : Z) (L : sl_lockout) (key : cstring) : sl_lockout_status_t :=
  let '(e, _) := lk_find_or_create true L key false in
  match e with
  | None => SL_LOCKOUT_ALLOW
  | Some e => if now <? locked_until_ms e then SL_LOCKOUT_BLOCKED else SL_LOCKOUT_ALLOW
  end.

(* src/src/sl_lockout.c:92-107 *)
Definition sl_lockout_fail (alloc : bool) (now : Z) (L : sl_lockout) (key : cstring) : sl_lockout_status_t * sl_lockout :=
  let '(e, L) := lk_find_or_create alloc L key true in
  match e with
  | None => (SL_LOCKOUT_BLOCKED, L)
  | Some e =>
      let fails' := u32 (fails e + 1) in
      if fail_threshold L <=? fails' then
        let over := u32 (fails' - fail_threshold L) in
        let dur := u64 (base_lockout_ms L ≪ (if over <? 16 then over else 16)) in
        let dur := if cap_lockout_ms L <? dur then cap_lockout_ms L else dur in
        (SL_LOCKOUT_BLOCKED, lk_write L key (mk_entry fails' (u64 (now + dur))))
      else (SL_LOCKOUT_ALLOW, lk_write L key (mk_entry fails' (locked_until_ms e)))
  end.

(* src/src/sl_lockout.c:109-115 *)
Definition sl_lockout_succeed (L : sl_lockout) (key : cstring) : sl_lockout :=
  let '(e, L) := lk_find_or_create true L key false in
  match e with None => L | Some _ => lk_write L key (mk_entry 0 0) end.

(* src/src/sl_lockout.c:117-119 *)
Definition sl_lockout_size (L : sl_lockout) : Z := lk_count L.

(** ** The policy *)

Inductive auth_event := AuthFail | AuthOk.

(** An attempt: its time, the key and its outcome. *)
Abbreviation attempt := (Z * cstring * auth_event)%type.

Definition lockout_step (L : sl_lockout) (a : attempt) : sl_lockout :=
  let '(now, key, ev) := a in
  match ev with AuthFail => (sl_lockout_fail true now L key).2 | AuthOk => sl_lockout_succeed L key end.

Definition lockout_run (L : sl_lockout) (h : list attempt) : sl_lockout := foldl lockout_step L h.

(** The failures of one key since its last success, and the time of the latest. Attempts of
    other keys do not count. *)
Definition failure_step (key : cstring) (s : Z * Z) (a : attempt) : Z * Z :=
  let '(now, k, ev) := a in
  if decide (k = key) then match ev with AuthFail => (s.1 + 1, now) | AuthOk => (0, 0) end else s.
Definition failures (key : cstring) (h : list attempt) : Z * Z := foldl (failure_step key) (0, 0) h.

(** The window that the n-th consecutive failure opens. *)
Definition window (base cap threshold n : Z) : Z := Z.min cap (base * 2 ^ Z.min (n - threshold) 16).

(** The entry kept for a key with [n] failures, the latest at [t]. *)
Definition entry_for (base cap threshold : Z) (s : Z * Z) : entry_t :=
  mk_entry s.1 (if threshold <=? s.1 then s.2 + window base cap threshold s.1 else 0).

Definition times_ok (h : list attempt) : Prop := Forall (fun a : attempt => 0 <= a.1.1 < 2 ^ 63) h.

Ltac lk_simpl := cbn [base_lockout_ms cap_lockout_ms fail_threshold lk_buckets lk_count].

Section Policy.
Context (base cap threshold : Z).
Hypothesis Hbase : 0 < base <= cap.
Hypothesis Hcap : cap <= UINT32_MAX.
Hypothesis Hthr : 0 < threshold <= UINT32_MAX.

(** [m] bounds the number of keys. *)
Definition lockout_rel (L : sl_lockout) (h : list attempt) (m : Z) : Prop :=
  base_lockout_ms L = base /\ cap_lockout_ms L = cap /\ fail_threshold L = threshold /\
  chains_ok SL_LOCKOUT_BUCKETS (lk_buckets L) /\
  lk_count L = tbl_sum (fun _ => 1) (lk_buckets L) /\ 0 <= lk_count L <= m /\
  forall key, match tbl_find SL_LOCKOUT_BUCKETS (lk_buckets L) key with
              | Some e => e = entry_for base cap threshold (failures key h)
              | None => (failures key h).1 = 0
              end.

Lemma failures_bound key h : 0 <= (failures key h).1 <= len h.
Proof.
  unfold failures. induction h as [|[[t k] ev] h IH] using rev_ind; [done|].
  rewrite foldl_app, len_app. cbn [foldl]. change (len [(t, k, ev)]) with 1.
  generalize dependent (foldl (failure_step key) (0, 0) h). intros s IH. unfold failure_step. destruct (decide (k = key)), ev; simpl; lia.
Qed.

Lemma failures_time key h : times_ok h -> 0 <= (failures key h).2 < 2 ^ 63.
Proof.
  unfold failures, times_ok. induction h as [|[[t k] ev] h IH] using rev_ind; [done|].
  intros [H1 H2]%Forall_app. rewrite Forall_singleton in H2. cbn [fst] in H2.
  rewrite foldl_app. cbn [foldl]. specialize (IH H1).
  generalize dependent (foldl (failure_step key) (0, 0) h). intros s IH. unfold failure_step. destruct (decide (k = key)), ev; cbn [snd]; lia.
Qed.

(** A window of doubled base lengths, written out as the code computes it. *)
Lemma window_code n :
  threshold <= n < 2 ^ 32 ->
  let over := u32 (n - threshold) in
  let dur := u64 (base ≪ (if over <? 16 then over else 16)) in
  (if cap <? dur then cap else dur) = window base cap threshold n.
Proof.
  intros Hn. cbv zeta. rewrite (u32_small (n - threshold)) by lia. unfold window.
  replace (if n - threshold <? 16 then n - threshold else 16) with (Z.min (n - threshold) 16)
    by (destruct (Z.ltb_spec (n - threshold) 16); lia).
  rewrite Z.shiftl_mul_pow2 by lia.
  assert (2 ^ Z.min (n - threshold) 16 <= 2 ^ 16) by (apply Z.pow_le_mono_r; lia).
  rewrite u64_small by nia. destruct (Z.ltb_spec cap (base * 2 ^ Z.min (n - threshold) 16)); lia.
Qed.

Lemma failures_snoc key h a : failures key (h ++ [a]) = failure_step key (failures key h) a.
Proof. unfold failures. by rewrite foldl_app. Qed.

Lemma lockout_rel_create L h m key :
  lockout_rel L h m -> 0 <= m < UINT64_MAX ->
  exists L', lk_find_or_create true L key true = (Some (entry_for base cap threshold (failures key h)), L') /\
    lockout_rel L' h (m + 1) /\ is_Some (tbl_find SL_LOCKOUT_BUCKETS (lk_buckets L') key).
Proof.
  intros (E1 & E2 & E3 & Hc & Hn & Hl & Hf) Hm. pose proof (Hf key) as Hk. unfold lk_find_or_create.
  destruct (tbl_find SL_LOCKOUT_BUCKETS (lk_buckets L) key) as [e|] eqn:Ek; cbn [negb].
  { subst e. exists L. split_and!; try done. repeat (split; [done|]). split; [lia|done]. }
  assert (Ee : entry_for base cap threshold (failures key h) = mk_entry 0 0).
  { unfold entry_for. rewrite Hk. by rewrite (proj2 (Z.leb_gt _ _)) by lia. }
  rewrite Ee. eexists. split; [reflexivity|]. pose proof Hc as [Hlen _].
  unfold lockout_rel. lk_simpl. rewrite u64_small by lia. rewrite sum_push by done.
  split_and!; try done; try lia; [by apply chains_ok_push| |].
  - intros k. rewrite find_push by done. destruct (decide (key = k)) as [<-|]; [by rewrite Ee|apply Hf].
  - rewrite find_push by done. rewrite decide_True by done. eauto.
Qed.

Lemma lockout_rel_write L h m t key ev :
  lockout_rel L h m -> is_Some (tbl_find SL_LOCKOUT_BUCKETS (lk_buckets L) key) ->
  lockout_rel (lk_write L key (entry_for base cap threshold (failures key (h ++ [(t, key, ev)])))) (h ++ [(t, key, ev)]) m.
Proof.
  intros (E1 & E2 & E3 & Hc & Hn & Hl & Hf) [w Hw]. unfold lockout_rel, lk_write. lk_simpl.
  rewrite (sum_set _ _ _ _ _ w) by done. split_and!; try done; try lia; [by apply chains_ok_set|].
  intros k. rewrite find_set by eauto. destruct (decide (key = k)) as [<-|Hne]; [done|].
  rewrite failures_snoc. unfold failure_step. rewrite decide_False by done. apply Hf.
Qed.

(** The entry after one more failure, as the code computes it. *)
Lemma entry_for_fail t key h :
  times_ok h -> len h < UINT32_MAX -> 0 <= t < 2 ^ 63 ->
  let e := entry_for base cap threshold (failures key h) in
  let fails' := u32 (fails e + 1) in
  let over := u32 (fails' - threshold) in
  let dur := u64 (base ≪ (if over <? 16 then over else 16)) in
  let dur := if cap <? dur then cap else dur in
  entry_for base cap threshold (failures key (h ++ [(t, key, AuthFail)])) =
  if threshold <=? fails' then mk_entry fails' (u64 (t + dur)) else mk_entry fails' (locked_until_ms e).
Proof.
  intros Hh Hlen Ht. rewrite failures_snoc. unfold failure_step. rewrite decide_True by done. cbv zeta.
  pose proof (failures_bound key h) as Hb. destruct (failures key h) as [n t0] eqn:E. cbn [fst snd] in *.
  unfold entry_for. cbn [fst snd fails locked_until_ms]. rewrite (u32_small (n + 1)) by lia.
  destruct (Z.leb_spec threshold (n + 1)).
  - rewrite (window_code (n + 1)) by lia. f_equal.
    assert (0 <= window base cap threshold (n + 1) <= cap).
    { unfold window. assert (0 <= base * 2 ^ Z.min (n + 1 - threshold) 16) by (pose proof (Z.pow_nonneg 2 (Z.min (n + 1 - threshold) 16) ltac:(lia)); nia). lia. }
    rewrite u64_small by lia. done.
  - rewrite (proj2 (Z.leb_gt threshold n)) by lia. done.
Qed.

Lemma lockout_step_rel L h a :
  lockout_rel L h (len h) -> times_ok (h ++ [a]) -> len h < UINT32_MAX ->
  lockout_rel (lockout_step L a) (h ++ [a]) (len (h ++ [a])).
Proof.
  intros Hr [Hh Ha]%Forall_app Hlen. destruct a as [[t k] ev]. rewrite Forall_singleton in Ha. cbn [fst] in Ha.
  assert (El : len (h ++ [(t, k, ev)]) = len h + 1) by (rewrite len_app; done).
  pose proof (len_nonneg h). cbn [lockout_step]. rewrite El. destruct ev.
  - destruct (lockout_rel_create L h (len h) k Hr ltac:(lia)) as (L' & E & Hr' & Hs).
    unfold sl_lockout_fail. rewrite E. pose proof Hr' as (E1 & E2 & E3 & _). rewrite E1, E2, E3.
    pose proof (entry_for_fail t k h Hh Hlen Ha) as Ee. cbv zeta in Ee.
    pose proof (lockout_rel_write L' h (len h + 1) t k AuthFail Hr' Hs) as Hw. rewrite Ee in Hw. cbv zeta.
    destruct (threshold <=? _); exact Hw.
  - unfold sl_lockout_succeed, lk_find_or_create.
    assert (Ee : entry_for base cap threshold (failures k (h ++ [(t, k, AuthOk)])) = mk_entry 0 0).
    { rewrite failures_snoc. unfold failure_step. rewrite decide_True by done. unfold entry_for.
      cbn [fst]. by rewrite (proj2 (Z.leb_gt _ _)) by lia. }
    destruct Hr as (E1 & E2 & E3 & Hc & Hn & Hl & Hf).
    assert (Hr : lockout_rel L h (len h + 1)) by (split_and!; done || lia).
    destruct (tbl_find SL_LOCKOUT_BUCKETS (lk_buckets L) k) as [e|] eqn:Ek.
    + rewrite <- Ee. apply lockout_rel_write; [done|]. eauto.
    + cbn [negb]. split_and!; try done; try lia. intros key. specialize (Hf key). rewrite failures_snoc.
      unfold failure_step. destruct (decide (k = key)) as [<-|]; [by rewrite Ek|done].
Qed.

Lemma lockout_run_rel L h :
  lockout_rel L [] 0 -> times_ok h -> len h <= UINT32_MAX -> lockout_rel (lockout_run L h) h (len h).
Proof.
  intros H0. unfold lockout_run. induction h as [|a h IH] using rev_ind; intros Ht Hl; [done|].
  rewrite foldl_app. cbn [foldl]. pose proof Ht as [Hh _]%Forall_app.
  assert (len (h ++ [a]) = len h + 1) by (rewrite len_app; done).
  apply lockout_step_rel; [apply IH; [done|lia]|done|lia].
Qed.

Lemma lockout_rel_new L : sl_lockout_new true base cap threshold = Some L -> lockout_rel L [] 0.
Proof.
  unfold sl_lockout_new. destruct (_ || _ || _); [done|]. intros [= <-].
  split_and!; try done; [apply chains_ok_new|]. intros key. lk_simpl. by rewrite find_new.
Qed.

(** What a failure answers and leaves, after any history. *)
Lemma lockout_fail_run L h t key :
  lockout_rel L [] 0 -> times_ok h -> len h < UINT32_MAX ->
  sl_lockout_fail true t (lockout_run L h) key =
  (if threshold <=? (failures key h).1 + 1 then SL_LOCKOUT_BLOCKED else SL_LOCKOUT_ALLOW,
   lockout_run L (h ++ [(t, key, AuthFail)])).
Proof.
  intros H0 Ht Hl. pose proof (len_nonneg h). pose proof (failures_bound key h).
  rewrite (surjective_pairing (sl_lockout_fail _ _ _ _)). f_equal; [|unfold lockout_run; by rewrite foldl_app].
  destruct (lockout_rel_create _ h _ key (lockout_run_rel L h H0 Ht ltac:(lia)) ltac:(lia)) as (L' & E & (_ & _ & E3 & _) & _).
  unfold sl_lockout_fail. rewrite E, E3. unfold entry_for. cbn [fails]. rewrite u32_small by lia.
  by destruct (threshold <=? _).
Qed.

Lemma lockout_check_spec L h m now key :
  lockout_rel L h m -> 0 <= now ->
  sl_lockout_check now L key = SL_LOCKOUT_BLOCKED <->
    threshold <= (failures key h).1 /\ now < (failures key h).2 + window base cap threshold (failures key h).1.
Proof.
  intros (E1 & E2 & E3 & Hc & Hn & Hl & Hf) Hnow. specialize (Hf key).
  unfold sl_lockout_check, lk_find_or_create. destruct (tbl_find SL_LOCKOUT_BUCKETS (lk_buckets L) key) as [e|]; cbn [negb].
  - subst e. unfold entry_for. cbn [locked_until_ms].
    destruct (Z.leb_spec threshold (failures key h).1);
      match goal with |- context [?a <? ?b] => destruct (Z.ltb_spec a b) end; split; intros; done || lia.
  - split; [done|lia].
Qed.
End Policy.

(** The documented window: doubled by every further failure, up to the cap. *)
Definition doubling_window (base cap threshold n : Z) : Z := Z.min cap (base * 2 ^ (n - threshold)).

(** The code doubles at most sixteen times, which makes no difference if that reaches the cap or
    is not needed. *)
Lemma window_doubles base cap threshold n :
  0 <= base -> threshold <= n -> cap <= base * 65536 \/ n <= threshold + 16 ->
  window base cap threshold n = doubling_window base cap threshold n.
Proof.
  intros Hb Hn Hc. unfold window, doubling_window. destruct (Z.le_gt_cases (n - threshold) 16) as [Hs|Hl].
  - by rewrite (Z.min_l (n - threshold)) by lia.
  - rewrite (Z.min_r (n - threshold)) by lia. destruct Hc as [Hc|]; [|lia]. change (2 ^ 16) with 65536.
    assert (2 ^ 16 <= 2 ^ (n - threshold)) as Hp by (apply Z.pow_le_mono_r; lia). change (2 ^ 16) with 65536 in Hp. nia.
Qed.

(** C33: The documented lockout policy, for every history of attempts with memory for their keys:
    a key is blocked exactly when it has failed at least [threshold] times since its last success
    and less than the window of its latest failure has passed, where the window is the base
    length doubled for each failure beyond the threshold, up to the cap. Attempts of other keys
    change nothing. It holds as long as sixteen doublings reach the cap, or while there have been
    at most sixteen failures beyond the threshold: the code doubles no further. *)
Theorem lockout_policy base cap threshold L h now key :
  is_u32 base -> is_u32 cap -> is_u32 threshold -> sl_lockout_new true base cap threshold = Some L ->
  times_ok h -> len h <= UINT32_MAX -> 0 <= now ->
  let L' := lockout_run L h in
  let '(n, t) := failures key h in
  cap <= base * 65536 \/ n <= threshold + 16 ->
  (sl_lockout_check now L' key = SL_LOCKOUT_BLOCKED <->
     threshold <= n /\ now < t + doubling_window base cap threshold n) /\
  sl_lockout_size L' = Z.of_nat (size (tbl_map (lk_buckets L'))).
Proof.
  intros Hb Hc Ht Hnew Hh Hl Hnow.
  assert (Hp : 0 < base <= cap /\ 0 < threshold <= UINT32_MAX).
  { unfold sl_lockout_new in Hnew.
    destruct (Z.eqb_spec base 0), (Z.ltb_spec cap base), (Z.eqb_spec threshold 0); cbn [orb negb] in Hnew; try done; lia. }
  destruct Hp as [Hp1 Hp2]. pose proof (lockout_rel_new base cap threshold L Hnew) as H0.
  pose proof (lockout_run_rel base cap threshold Hp1 ltac:(lia) Hp2 L h H0 Hh Hl) as Hr.
  pose proof (lockout_check_spec base cap threshold Hp2 _ h _ now key Hr Hnow) as Hs.
  destruct Hr as (_ & _ & _ & Hok & Hn & _). destruct (failures key h) as [n t]. cbn [fst snd] in Hs. intros L' Hd. subst L'. split.
  - rewrite Hs. split; intros [? ?]; (split; [done|]); [rewrite <- window_doubles|rewrite window_doubles]; (done || lia).
  - unfold sl_lockout_size. rewrite Hn. symmetry. by eapply tbl_map_size.
Qed.

Lemma lockout_policy_witness :
  let h := [(10, [65], AuthFail); (11, [66], AuthFail); (12, [65], AuthFail); (20, [65], AuthFail)] in
  exists L, sl_lockout_new true 100 1000 2 = Some L /\
    (sl_lockout_check 219 (lockout_run L h) [65] = SL_LOCKOUT_BLOCKED <-> 2 <= 3 /\ 219 < 20 + doubling_window 100 1000 2 3).
Proof.
  intros h. eexists. split; [reflexivity|].
  eapply (fun L E => proj1 (lockout_policy 100 1000 2 L h 219 [65] ltac:(lia) ltac:(lia) ltac:(lia) E
    ltac:(repeat constructor; cbn; lia) ltac:(vm_compute; discriminate) ltac:(lia) ltac:(left; lia))). reflexivity.
Defined.

(** An allocation failure refuses the attempt and changes nothing. *)
Lemma lockout_fail_no_memory now L key :
  tbl_find SL_LOCKOUT_BUCKETS (lk_buckets L) key = None -> sl_lockout_fail false now L key = (SL_LOCKOUT_BLOCKED, L).
Proof. intros E. unfold sl_lockout_fail, lk_find_or_create. by rewrite E. Qed.

(** The doubling stops after sixteen steps, below the cap: with a base of 1 ms and a cap of an hour
    the window never exceeds 65536 ms. *)
Lemma window_stops_below_cap n : 3 <= n -> window 1 3600000 3 n <= 65536.
Proof.
  intros Hn. unfold window.
  assert (2 ^ Z.min (n - 3) 16 <= 2 ^ 16) by (apply Z.pow_le_mono_r; lia). lia.
Qed.
