(* ===== verification/DosGuard.v ===== *)
(** The connection admission guard (sl_dos_guard.c) over the chained table.  The clock, in
    milliseconds, and the outcome of the allocations are arguments. *)

From stdpp Require Import gmap.
From S2P Require Import Prelude Ctype ChainTable.
Local Open Scope Z_scope.

Abbreviation SL_DOS_BUCKETS := 1024%positive.

(* src/src/sl_dos_guard.c:10-16 *)
Record ip_entry_t := mk_ip { half_open : Z; established : Z; oldest_half_open_ms : Z }.

(* src/src/sl_dos_guard.c:18-25 *)
Record sl_dos_guard := mk_guard
  { max_per_ip : Z; max_global : Z; half_open_timeout_ms : Z;
    global_half_open : Z; global_established : Z; dg_buckets : list (list (cstring * ip_entry_t)) }.

Definition with_table (g : sl_dos_guard) (t : list (list (cstring * ip_entry_t))) : sl_dos_guard :=
  mk_guard (max_per_ip g) (max_global g) (half_open_timeout_ms g) (global_half_open g) (global_established g) t.
Definition with_counts (g : sl_dos_guard) (ho est : Z) : sl_dos_guard :=
  mk_guard (max_per_ip g) (max_global g) (half_open_timeout_ms g) ho est (dg_buckets g).

(* src/src/sl_dos_guard.c:39-52 [find_or_create] *)
Definition dg_find_or_create (alloc : bool) (g : sl_dos_guard) (ip : cstring) (create : bool) : option ip_entry_t * sl_dos_guard :=
  match tbl_find SL_DOS_BUCKETS (dg_buckets g) ip with
  | Some e => (Some e, g)
  | None =>
      if negb create then (None, g)
      else if negb alloc then (None, g)
      else (Some (mk_ip 0 0 0), with_table g (tbl_push SL_DOS_BUCKETS (dg_buckets g) ip (mk_ip 0 0 0)))
  end.

(** A write through the entry pointer. *)
Definition dg_write (g : sl_dos_guard) (ip : cstring) (e : ip_entry_t) : sl_dos_guard :=
  with_table g (tbl_set SL_DOS_BUCKETS (dg_buckets g) ip e).

(* src/src/sl_dos_guard.c:54-66 *)
Definition sl_dos_guard_new (alloc : bool) (per_ip global timeout : Z) : option sl_dos_guard :=
  if (per_ip =? 0) || (global =? 0) || (timeout =? 0) then None
  else if negb alloc then None
  else Some (mk_guard per_ip global timeout 0 0 (tbl_new SL_DOS_BUCKETS)).

(* src/src/sl_dos_guard.c:82-95 *)
Definition sl_dos_guard_admit (alloc : bool) (now : Z) (g : sl_dos_guard) (ip : cstring) : bool * sl_dos_guard :=
  if max_global g <=? u32 (global_half_open g + global_established g) then (false, g) else
  let '(e, g) := dg_find_or_create alloc g ip true in
  match e with
  | None => (false, g)
  | Some e =>
      if max_per_ip g <=? u32 (half_open e + established e) then (false, g) else
      let oldest := if half_open e =? 0 then now else oldest_half_open_ms e in
      let g := dg_write g ip (mk_ip (u32 (half_open e + 1)) (established e) oldest) in
      (true, with_counts g (u32 (global_half_open g + 1)) (global_established g))
  end.

(* src/src/sl_dos_guard.c:97-105 *)
Definition sl_dos_guard_promote (g : sl_dos_guard) (ip : cstring) : sl_dos_guard :=
  let '(e, g) := dg_find_or_create true g ip false in
  match e with
  | None => g
  | Some e =>
      if half_open e =? 0 then g else
      let g := dg_write g ip (mk_ip (u32 (half_open e - 1)) (u32 (established e + 1)) (oldest_half_open_ms e)) in
      with_counts g (u32 (global_half_open g - 1)) (u32 (global_established g + 1))
  end.

(* src/src/sl_dos_guard.c:107-118 *)
Definition sl_dos_guard_release (g : sl_dos_guard) (ip : cstring) : sl_dos_guard :=
  let '(e, g) := dg_find_or_create true g ip false in
  match e with
  | None => g
  | Some e =>
      if 0 <? established e then
        let g := dg_write g ip (mk_ip (half_open e) (u32 (established e - 1)) (oldest_half_open_ms e)) in
        with_counts g (global_half_open g) (u32 (global_established g - 1))
      else if 0 <? half_open e then
        let g := dg_write g ip (mk_ip (u32 (half_open e - 1)) (established e) (oldest_half_open_ms e)) in
        with_counts g (u32 (global_half_open g - 1)) (global_established g)
      else g
  end.

(** The state of the sweep: the global count and the number reaped. *)
(* src/src/sl_dos_guard.c:126-136 [sl_dos_guard_sweep] *)
Definition sweep_entry (cutoff timeout : Z) (e : ip_entry_t) (st : Z * Z) : ip_entry_t * (Z * Z) :=
  let '(gho, reaped) := st in
  if half_open e =? 0 then (e, st)
  else if timeout <? u64 (cutoff - oldest_half_open_ms e) then
    let gho' := if gho <? half_open e then 0 else u32 (gho - half_open e) in
    (mk_ip 0 (established e) (oldest_half_open_ms e), (gho', u64 (reaped + half_open e)))
  else (e, st).

(* src/src/sl_dos_guard.c:125-125 [sl_dos_guard_sweep] *)
Fixpoint sweep_chain (cutoff timeout : Z) (c : list (cstring * ip_entry_t)) (st : Z * Z) : list (cstring * ip_entry_t) * (Z * Z) :=
  match c with
  | [] => ([], st)
  | (k, e) :: c =>
      let '(e, st) := sweep_entry cutoff timeout e st in
      let '(c, st) := sweep_chain cutoff timeout c st in ((k, e) :: c, st)
  end.

(* src/src/sl_dos_guard.c:124-124 [sl_dos_guard_sweep] *)
Fixpoint sweep_buckets (cutoff timeout : Z) (t : list (list (cstring * ip_entry_t))) (st : Z * Z)
  : list (list (cstring * ip_entry_t)) * (Z * Z) :=
  match t with
  | [] => ([], st)
  | c :: t =>
      let '(c, st) := sweep_chain cutoff timeout c st in
      let '(t, st) := sweep_buckets cutoff timeout t st in (c :: t, st)
  end.

(* src/src/sl_dos_guard.c:120-140 *)
Definition sl_dos_guard_sweep (now : Z) (g : sl_dos_guard) : Z * sl_dos_guard :=
  let '(t, (gho, reaped)) := sweep_buckets now (half_open_timeout_ms g) (dg_buckets g) (global_half_open g, 0) in
  (reaped, with_counts (with_table g t) gho (global_established g)).

(* src/src/sl_dos_guard.c:142-145 *)
Definition sl_dos_guard_global_inflight (g : sl_dos_guard) : Z := u32 (global_half_open g + global_established g).

(* src/src/sl_dos_guard.c:147-154 *)
Definition sl_dos_guard_per_ip (g : sl_dos_guard) (ip : cstring) : Z :=
  let '(e, _) := dg_find_or_create true g ip false in
  match e with None => 0 | Some e => u32 (half_open e + established e) end.

(** ** The invariant *)

Ltac dg_simpl :=
  unfold dg_write, with_table, with_counts;
  cbn [max_per_ip max_global half_open_timeout_ms global_half_open global_established dg_buckets
       half_open established oldest_half_open_ms].

Definition ip_ok (m : Z) (e : ip_entry_t) : Prop :=
  0 <= half_open e /\ 0 <= established e /\ half_open e + established e <= m.

Definition guard_ok (g : sl_dos_guard) : Prop :=
  0 < max_per_ip g <= UINT32_MAX /\ max_global g <= UINT32_MAX /\
  length (dg_buckets g) = Pos.to_nat SL_DOS_BUCKETS /\
  0 <= global_half_open g /\ 0 <= global_established g /\
  global_half_open g = tbl_sum half_open (dg_buckets g) /\
  global_established g = tbl_sum established (dg_buckets g) /\
  global_half_open g + global_established g <= max_global g /\
  tbl_all (ip_ok (max_per_ip g)) (dg_buckets g).

Lemma guard_ok_new per_ip global timeout g :
  is_u32 per_ip -> is_u32 global -> sl_dos_guard_new true per_ip global timeout = Some g -> guard_ok g.
Proof.
  intros Hp Hg. unfold sl_dos_guard_new. destruct (Z.eqb_spec per_ip 0), (global =? 0), (timeout =? 0); cbn [orb negb]; try done.
  intros [= <-]. unfold guard_ok. dg_simpl. rewrite !sum_new. split_and!; try lia; try done. apply all_new.
Qed.

Lemma half_open_nonneg m e : ip_ok m e -> 0 <= half_open e.
Proof. by intros [? _]. Qed.
Lemma established_nonneg m e : ip_ok m e -> 0 <= established e.
Proof. by intros (_ & ? & _). Qed.

(** Replacing the entry of [ip] and the global counters by the same amounts. *)
Lemma guard_ok_write g ip e e' :
  guard_ok g -> tbl_find SL_DOS_BUCKETS (dg_buckets g) ip = Some e -> ip_ok (max_per_ip g) e' ->
  let ho := global_half_open g + (half_open e' - half_open e) in
  let est := global_established g + (established e' - established e) in
  ho + est <= max_global g ->
  is_u32 ho /\ is_u32 est /\ guard_ok (with_counts (dg_write g ip e') ho est).
Proof.
  intros (Hm & Hg & Hl & H1 & H2 & E1 & E2 & Hle & Hall) He He' ho est Hs.
  pose proof (tbl_sum_ge SL_DOS_BUCKETS _ _ (half_open_nonneg (max_per_ip g)) _ ip e Hall He).
  pose proof (tbl_sum_ge SL_DOS_BUCKETS _ _ (established_nonneg (max_per_ip g)) _ ip e Hall He).
  pose proof He' as (? & ? & ?). pose proof (all_find _ _ _ _ _ Hall He) as (? & ? & ?).
  split_and!; try lia. unfold guard_ok. dg_simpl. rewrite length_tbl_set.
  rewrite (sum_set _ _ _ _ _ e), (sum_set _ _ _ _ _ e) by done.
  split_and!; try lia; try done. by apply all_set.
Qed.

Lemma entry_find_or_create_ok alloc g ip create :
  guard_ok g ->
  let '(e, g') := dg_find_or_create alloc g ip create in
  guard_ok g' /\ max_per_ip g' = max_per_ip g /\ max_global g' = max_global g /\
  global_half_open g' = global_half_open g /\ global_established g' = global_established g /\
  match e with
  | None => g' = g /\ tbl_find SL_DOS_BUCKETS (dg_buckets g) ip = None
  | Some e => tbl_find SL_DOS_BUCKETS (dg_buckets g') ip = Some e /\ ip_ok (max_per_ip g) e /\
      (tbl_find SL_DOS_BUCKETS (dg_buckets g) ip = Some e \/
       tbl_find SL_DOS_BUCKETS (dg_buckets g) ip = None /\ e = mk_ip 0 0 0)
  end.
Proof.
  intros Hok. pose proof Hok as (Hm & Hg & Hl & H1 & H2 & E1 & E2 & Hle & Hall). unfold dg_find_or_create.
  destruct (tbl_find SL_DOS_BUCKETS (dg_buckets g) ip) as [e|] eqn:E.
  { split_and!; try done; [by eapply (all_find SL_DOS_BUCKETS)|by left]. }
  destruct create, alloc; cbn [negb]; try (by split_and!).
  assert (Hz : ip_ok (max_per_ip g) (mk_ip 0 0 0)) by (unfold ip_ok; simpl; lia).
  split_and!; try done; dg_simpl; [|by rewrite find_push, decide_True by done|by right].
  unfold guard_ok. dg_simpl. rewrite length_tbl_push, !sum_push by done. cbn [half_open established].
  split_and!; try lia; try done. by apply all_push.
Qed.

(** ** Operations *)

Lemma admit_spec now g ip :
  guard_ok g ->
  let '(ok, g') := sl_dos_guard_admit true now g ip in
  guard_ok g' /\ max_per_ip g' = max_per_ip g /\ max_global g' = max_global g /\
  (ok = true <-> sl_dos_guard_global_inflight g < max_global g /\ sl_dos_guard_per_ip g ip < max_per_ip g) /\
  sl_dos_guard_global_inflight g' = sl_dos_guard_global_inflight g + (if ok then 1 else 0).
Proof.
  intros Hok. pose proof Hok as (Hm & Hg & Hl & H1 & H2 & _ & _ & Hle & _).
  unfold sl_dos_guard_admit, sl_dos_guard_global_inflight, sl_dos_guard_per_ip.
  rewrite (u32_small (global_half_open g + _)) by lia.
  destruct (Z.leb_spec (max_global g) (global_half_open g + global_established g)) as [Hfull|Hfree].
  { split_and!; try done; [|rewrite u32_small; lia]. split; [done|lia]. }
  pose proof (entry_find_or_create_ok true g ip true Hok) as Hfc.
  assert (Hper : (let '(e, _) := dg_find_or_create true g ip false in
      match e with None => 0 | Some e => u32 (half_open e + established e) end) =
      match tbl_find SL_DOS_BUCKETS (dg_buckets g) ip with None => 0 | Some e => u32 (half_open e + established e) end).
  { unfold dg_find_or_create. by destruct (tbl_find _ _ ip). }
  rewrite Hper. clear Hper.
  assert (Hsome : (dg_find_or_create true g ip true).1 <> None).
  { unfold dg_find_or_create. by destruct (tbl_find _ _ ip). }
  destruct (dg_find_or_create true g ip true) as [[e|] g1]; [clear Hsome|done].
  destruct Hfc as (Hok1 & Ep & Eg & Eh & Ee & Hf1 & He & Hold). pose proof He as (? & ? & ?). cbv iota beta.
  rewrite Ep. rewrite (u32_small (half_open e + established e)) by lia.
  assert (Hold' : match tbl_find SL_DOS_BUCKETS (dg_buckets g) ip with None => 0 | Some e => u32 (half_open e + established e) end
      = half_open e + established e).
  { destruct Hold as [-> | [-> ->]]; [apply u32_small; lia|done]. }
  rewrite Hold'. destruct (Z.leb_spec (max_per_ip g) (half_open e + established e)).
  { rewrite Eh, Ee. split_and!; try done; [split; [done|lia]|rewrite u32_small; lia]. }
  rewrite (u32_small (half_open e + 1)) by lia.
  set (oldest := if half_open e =? 0 then now else oldest_half_open_ms e).
  destruct (guard_ok_write g1 ip e (mk_ip (half_open e + 1) (established e) oldest) Hok1 Hf1) as (R1 & R2 & Hw).
  { unfold ip_ok. cbn. lia. } { cbn. lia. }
  cbn [half_open established] in R1, R2, Hw.
  replace (half_open e + 1 - half_open e) with 1 in * by lia. rewrite Z.sub_diag, Z.add_0_r in *.
  dg_simpl. unfold dg_write, with_table, with_counts in Hw.
  cbn [max_per_ip max_global half_open_timeout_ms global_half_open global_established dg_buckets] in Hw.
  rewrite (u32_small (global_half_open g1 + 1)) by lia. rewrite Ep, Eg in *. split_and!; try done.
  rewrite Eh, Ee, u32_small; lia.
Qed.

Lemma promote_ok g ip :
  guard_ok g -> guard_ok (sl_dos_guard_promote g ip) /\
  sl_dos_guard_global_inflight (sl_dos_guard_promote g ip) = sl_dos_guard_global_inflight g.
Proof.
  intros Hok. unfold sl_dos_guard_promote. pose proof (entry_find_or_create_ok true g ip false Hok) as Hfc.
  destruct (dg_find_or_create true g ip false) as [[e|] g1].
  2: { by destruct Hfc as (? & _ & _ & _ & _ & -> & _). }
  destruct Hfc as (Hok1 & Ep & Eg & Eh & Ee & Hf1 & He & Hold). pose proof He as (? & ? & ?).
  unfold sl_dos_guard_global_inflight. destruct (Z.eqb_spec (half_open e) 0); [by rewrite Eh, Ee|].
  pose proof Hok1 as (? & ? & _ & ? & ? & _ & _ & ? & _). rewrite Ep in *.
  rewrite (u32_small (half_open e - 1)), (u32_small (established e + 1)) by lia.
  destruct (guard_ok_write g1 ip e (mk_ip (half_open e - 1) (established e + 1) (oldest_half_open_ms e)) Hok1 Hf1) as (R1 & R2 & Hw).
  { unfold ip_ok. cbn. lia. } { cbn. lia. }
  cbn [half_open established] in R1, R2, Hw. dg_simpl.
  replace (global_half_open g1 - 1) with (global_half_open g1 + (half_open e - 1 - half_open e)) by lia.
  replace (global_established g1 + 1) with (global_established g1 + (established e + 1 - established e)) by lia.
  rewrite !u32_small by lia. split; [exact Hw|]. lia.
Qed.

Lemma release_ok g ip : guard_ok g -> guard_ok (sl_dos_guard_release g ip).
Proof.
  intros Hok. unfold sl_dos_guard_release. pose proof (entry_find_or_create_ok true g ip false Hok) as Hfc.
  destruct (dg_find_or_create true g ip false) as [[e|] g1].
  2: { by destruct Hfc as (? & _ & _ & _ & _ & -> & _). }
  destruct Hfc as (Hok1 & Ep & Eg & Eh & Ee & Hf1 & He & Hold). pose proof He as (? & ? & ?).
  pose proof Hok1 as (? & ? & _ & ? & ? & _ & _ & ? & _). rewrite Ep in *.
  destruct (Z.ltb_spec 0 (established e)).
  - rewrite (u32_small (established e - 1)) by lia.
    destruct (guard_ok_write g1 ip e (mk_ip (half_open e) (established e - 1) (oldest_half_open_ms e)) Hok1 Hf1) as (R1 & R2 & Hw).
    { unfold ip_ok. cbn. lia. } { cbn. lia. }
    cbn [half_open established] in R1, R2, Hw. rewrite Z.sub_diag, Z.add_0_r in Hw. dg_simpl.
    replace (global_established g1 - 1) with (global_established g1 + (established e - 1 - established e)) by lia.
    rewrite u32_small by lia. exact Hw.
  - destruct (Z.ltb_spec 0 (half_open e)); [|done]. rewrite (u32_small (half_open e - 1)) by lia.
    destruct (guard_ok_write g1 ip e (mk_ip (half_open e - 1) (established e) (oldest_half_open_ms e)) Hok1 Hf1) as (R1 & R2 & Hw).
    { unfold ip_ok. cbn. lia. } { cbn. lia. }
    cbn [half_open established] in R1, R2, Hw. rewrite Z.sub_diag, Z.add_0_r in Hw. dg_simpl.
    replace (global_half_open g1 - 1) with (global_half_open g1 + (half_open e - 1 - half_open e)) by lia.
    rewrite u32_small by lia. exact Hw.
Qed.

(** ** Sweeping *)

Section Sweep.
Context (cutoff timeout m : Z).

Lemma sweep_chain_spec c : forall gho reaped,
  Forall (fun e => ip_ok m e.2) c -> chain_sum half_open c <= gho < 4294967296 ->
  0 <= reaped -> reaped + chain_sum half_open c < 4294967296 ->
  exists c' d, sweep_chain cutoff timeout c (gho, reaped) = (c', (gho - d, reaped + d)) /\
    0 <= d /\ chain_sum half_open c' = chain_sum half_open c - d /\ 0 <= chain_sum half_open c' /\
    chain_sum established c' = chain_sum established c /\ Forall (fun e => ip_ok m e.2) c'.
Proof.
  induction c as [|[k e] c IH]; intros gho reaped Hc Hg Hr Hs.
  { exists [], 0. simpl. split_and!; try lia; [|done]. do 2 f_equal; lia. }
  apply Forall_cons in Hc as [He Hc]. pose proof He as (? & ? & ?). cbn [fst snd] in *.
  cbn [chain_sum foldr snd] in Hg, Hs. fold (chain_sum half_open c) in Hg, Hs.
  pose proof (chain_sum_nonneg _ _ (half_open_nonneg m) c Hc).
  cbn [sweep_chain]. unfold sweep_entry. destruct (Z.eqb_spec (half_open e) 0) as [E0|E0].
  - destruct (IH gho reaped Hc) as (c' & d & -> & ? & Eh & ? & Ee & Hall); [lia..|].
    exists ((k, e) :: c'), d. cbn [chain_sum foldr snd]. fold (chain_sum half_open c') (chain_sum half_open c)
      (chain_sum established c') (chain_sum established c). split_and!; try done; try lia. by constructor.
  - destruct (timeout <? u64 (cutoff - oldest_half_open_ms e)).
    + rewrite (proj2 (Z.ltb_ge _ _)) by lia. rewrite u32_small, u64_small by lia.
      destruct (IH (gho - half_open e) (reaped + half_open e) Hc) as (c' & d & -> & ? & Eh & ? & Ee & Hall); [lia..|].
      eexists ((k, mk_ip 0 (established e) (oldest_half_open_ms e)) :: c'), (half_open e + d).
      cbn [chain_sum foldr snd half_open established]. fold (chain_sum half_open c') (chain_sum half_open c)
        (chain_sum established c') (chain_sum established c). split_and!; try lia; [do 2 f_equal; lia|].
      constructor; [|done]. unfold ip_ok. cbn. lia.
    + destruct (IH gho reaped Hc) as (c' & d & -> & ? & Eh & ? & Ee & Hall); [lia..|].
      exists ((k, e) :: c'), d. cbn [chain_sum foldr snd]. fold (chain_sum half_open c') (chain_sum half_open c)
        (chain_sum established c') (chain_sum established c). split_and!; try done; try lia. by constructor.
Qed.

Lemma sweep_buckets_spec t : forall gho reaped,
  tbl_all (ip_ok m) t -> tbl_sum half_open t <= gho < 4294967296 ->
  0 <= reaped -> reaped + tbl_sum half_open t < 4294967296 ->
  exists t' d, sweep_buckets cutoff timeout t (gho, reaped) = (t', (gho - d, reaped + d)) /\
    0 <= d /\ tbl_sum half_open t' = tbl_sum half_open t - d /\ 0 <= tbl_sum half_open t' /\
    tbl_sum established t' = tbl_sum established t /\ tbl_all (ip_ok m) t' /\ length t' = length t.
Proof.
  induction t as [|c t IH]; intros gho reaped Ht Hg Hr Hs.
  { exists [], 0. simpl. split_and!; try lia; [|done..]. do 2 f_equal; lia. }
  apply Forall_cons in Ht as [Hc Ht]. cbn [tbl_sum foldr] in Hg, Hs. fold (tbl_sum half_open t) in Hg, Hs.
  pose proof (tbl_sum_nonneg _ _ (half_open_nonneg m) t Ht).
  cbn [sweep_buckets].
  destruct (sweep_chain_spec c gho reaped Hc) as (c' & d & -> & ? & Eh & ? & Ee & Hall); [lia..|].
  destruct (IH (gho - d) (reaped + d) Ht) as (t' & d' & -> & ? & Eh' & ? & Ee' & Hall' & Hl); [lia..|].
  exists (c' :: t'), (d + d'). cbn [tbl_sum foldr length]. fold (tbl_sum half_open t') (tbl_sum half_open t)
    (tbl_sum established t') (tbl_sum established t). split_and!; try lia; [do 2 f_equal; lia|by constructor].
Qed.
End Sweep.

Lemma guard_sweep_ok now g :
  guard_ok g -> let '(reaped, g') := sl_dos_guard_sweep now g in
  guard_ok g' /\ sl_dos_guard_global_inflight g' = sl_dos_guard_global_inflight g - reaped /\ 0 <= reaped.
Proof.
  intros (Hm & Hg & Hl & H1 & H2 & E1 & E2 & Hle & Hall). unfold sl_dos_guard_sweep, sl_dos_guard_global_inflight.
  destruct (sweep_buckets_spec now (half_open_timeout_ms g) (max_per_ip g) (dg_buckets g) (global_half_open g) 0 Hall)
    as (t' & d & -> & Hd & Eh & Hn & Ee & Ha & Hlen); [lia..|].
  dg_simpl. split_and!; [|rewrite !u32_small; lia|lia]. unfold guard_ok. dg_simpl. split_and!; try lia; done.
Qed.

(** ** Histories *)

Inductive guard_op := Admit (now : Z) (alloc : bool) (ip : cstring) | Promote (ip : cstring)
  | Release (ip : cstring) | Sweep (now : Z).

Definition guard_step (g : sl_dos_guard) (op : guard_op) : sl_dos_guard :=
  match op with
  | Admit now alloc ip => (sl_dos_guard_admit alloc now g ip).2
  | Promote ip => sl_dos_guard_promote g ip
  | Release ip => sl_dos_guard_release g ip
  | Sweep now => (sl_dos_guard_sweep now g).2
  end.

Lemma frame_limits g op :
  max_per_ip (guard_step g op) = max_per_ip g /\ max_global (guard_step g op) = max_global g.
Proof.
  destruct op as [now alloc ip|ip|ip|now]; cbn [guard_step];
    unfold sl_dos_guard_admit, sl_dos_guard_promote, sl_dos_guard_release, sl_dos_guard_sweep, dg_find_or_create;
    repeat case_match; simplify_eq; done.
Qed.

Lemma guard_step_ok g op : guard_ok g -> guard_ok (guard_step g op).
Proof.
  intros Hok. destruct op as [now [] ip|ip|ip|now]; cbn [guard_step].
  - pose proof (admit_spec now g ip Hok) as Ha. destruct (sl_dos_guard_admit true now g ip). apply Ha.
  - destruct (tbl_find SL_DOS_BUCKETS (dg_buckets g) ip) as [e|] eqn:E.
    + assert (Ea : sl_dos_guard_admit false now g ip = sl_dos_guard_admit true now g ip)
        by (unfold sl_dos_guard_admit, dg_find_or_create; by rewrite E).
      rewrite Ea. pose proof (admit_spec now g ip Hok) as Ha. destruct (sl_dos_guard_admit true now g ip). apply Ha.
    + unfold sl_dos_guard_admit, dg_find_or_create. rewrite E. by destruct (_ <=? _).
  - by apply promote_ok.
  - by apply release_ok.
  - pose proof (guard_sweep_ok now g Hok) as Hs. destruct (sl_dos_guard_sweep now g). apply Hs.
Qed.

Lemma guard_run_ok ops : forall g, guard_ok g ->
  let g' := foldl guard_step g ops in
  guard_ok g' /\ max_per_ip g' = max_per_ip g /\ max_global g' = max_global g.
Proof.
  induction ops as [|op ops IH]; intros g Hok; cbn [foldl]; [done|].
  destruct (IH (guard_step g op) (guard_step_ok g op Hok)) as (? & E1 & E2). destruct (frame_limits g op).
  cbv zeta. split_and!; congruence || done.
Qed.

Lemma per_ip_le g ip : guard_ok g -> 0 <= sl_dos_guard_per_ip g ip <= max_per_ip g.
Proof.
  intros (Hm & _ & _ & _ & _ & _ & _ & _ & Hall). unfold sl_dos_guard_per_ip, dg_find_or_create.
  destruct (tbl_find SL_DOS_BUCKETS (dg_buckets g) ip) as [e|] eqn:E; cbn [negb]; [|lia].
  pose proof (all_find _ _ _ _ _ Hall E) as (? & ? & ?). rewrite u32_small; lia.
Qed.

(** The counters in every reachable state: after any sequence of admissions (with or without
    memory), promotions, releases and sweeps, the global count is the sum over all addresses and
    stays within the global cap, no address's count exceeds its cap, and the next connection is
    admitted exactly when both counts leave room. *)
Lemma guard_counters_capped per_ip global timeout g ops now ip :
  is_u32 per_ip -> is_u32 global -> sl_dos_guard_new true per_ip global timeout = Some g ->
  let g' := foldl guard_step g ops in
  sl_dos_guard_global_inflight g' = tbl_sum (fun e => half_open e + established e) (dg_buckets g') /\
  0 <= sl_dos_guard_global_inflight g' <= global /\ 0 <= sl_dos_guard_per_ip g' ip <= per_ip /\
  ((sl_dos_guard_admit true now g' ip).1 = true <->
     sl_dos_guard_global_inflight g' < global /\ sl_dos_guard_per_ip g' ip < per_ip).
Proof.
  intros Hp Hgl Hnew g'. pose proof (guard_ok_new per_ip global timeout g Hp Hgl Hnew) as Hok.
  assert (E : max_per_ip g = per_ip /\ max_global g = global).
  { unfold sl_dos_guard_new in Hnew. destruct (_ || _); [done|]. cbn [negb] in Hnew. by simplify_eq. }
  destruct E as [Ep Eg]. destruct (guard_run_ok ops g Hok) as (Hok' & Ep' & Eg'). fold g' in Hok', Ep', Eg'.
  rewrite Ep in Ep'. rewrite Eg in Eg'. pose proof (per_ip_le g' ip Hok') as Hper. rewrite Ep' in Hper.
  pose proof (admit_spec now g' ip Hok') as Ha. destruct (sl_dos_guard_admit true now g' ip) as [ok g2].
  rewrite Ep', Eg' in Ha. destruct Ha as (_ & _ & _ & Ha & _).
  destruct Hok' as (_ & Hgm & _ & H1 & H2 & E1 & E2 & Hle & _). unfold sl_dos_guard_global_inflight in *.
  rewrite (u32_small (global_half_open g' + _)) in * by lia. split_and!; [|lia|lia|apply Hper|apply Hper|exact Ha].
  rewrite E1, E2. clear. induction (dg_buckets g') as [|c t IH]; [done|]. unfold tbl_sum in *. simpl. rewrite <- IH.
  enough (chain_sum half_open c + chain_sum established c = chain_sum (fun e => half_open e + established e) c) by lia.
  clear. induction c as [|[k e] c IH]; [done|]. unfold chain_sum in *. simpl. lia.
Qed.

(** ** Connections *)

(** The count of one address. *)
Definition ip_count (g : sl_dos_guard) (ip : cstring) : Z :=
  match tbl_find SL_DOS_BUCKETS (dg_buckets g) ip with None => 0 | Some e => half_open e + established e end.

Lemma per_ip_count g ip : guard_ok g -> sl_dos_guard_per_ip g ip = ip_count g ip.
Proof.
  intros (Hm & _ & _ & _ & _ & _ & _ & _ & Hall). unfold sl_dos_guard_per_ip, ip_count, dg_find_or_create.
  destruct (tbl_find SL_DOS_BUCKETS (dg_buckets g) ip) as [e|] eqn:E; cbn [negb]; [|done].
  pose proof (all_find _ _ _ _ _ Hall E) as (? & ? & ?). rewrite u32_small; lia.
Qed.

Lemma inflight_counts g : guard_ok g -> sl_dos_guard_global_inflight g = global_half_open g + global_established g.
Proof. intros (_ & ? & _ & ? & ? & _ & _ & ? & _). apply u32_small. lia. Qed.

Lemma count_write g ip e e' ho est k :
  tbl_find SL_DOS_BUCKETS (dg_buckets g) ip = Some e ->
  ip_count (with_counts (dg_write g ip e') ho est) k =
  ip_count g k + (if decide (ip = k) then half_open e' + established e' - (half_open e + established e) else 0).
Proof.
  intros E. unfold ip_count. dg_simpl. rewrite find_set by (by eexists). case_decide; [subst k; rewrite E; lia|].
  destruct (tbl_find SL_DOS_BUCKETS (dg_buckets g) k); lia.
Qed.

Lemma count_find_or_create alloc g ip create k :
  guard_ok g -> ip_count (dg_find_or_create alloc g ip create).2 k = ip_count g k.
Proof.
  intros (_ & _ & Hl & _). unfold dg_find_or_create, ip_count. destruct (tbl_find SL_DOS_BUCKETS (dg_buckets g) ip) eqn:E; [done|].
  destruct create, alloc; cbn [negb snd]; try done. dg_simpl. rewrite find_push by done. case_decide as Hk; [|done]. subst k. by rewrite E.
Qed.

(** One more connection of [ip], or none; the same number; one less if there was one. *)
Lemma admit_counts alloc now g ip k : guard_ok g ->
  let '(ok, g') := sl_dos_guard_admit alloc now g ip in
  ip_count g' k = ip_count g k + (if decide (ip = k) then if ok then 1 else 0 else 0) /\
  (ok = false -> sl_dos_guard_global_inflight g' = sl_dos_guard_global_inflight g).
Proof.
  intros Hok. unfold sl_dos_guard_admit. destruct (max_global g <=? _); [split; [|done]; case_decide; lia|].
  pose proof (entry_find_or_create_ok alloc g ip true Hok) as Hfc. pose proof (count_find_or_create alloc g ip true k Hok) as Hc.
  destruct (dg_find_or_create alloc g ip true) as [[e|] g1]; cbn [snd] in Hc.
  2: { destruct Hfc as (_ & _ & _ & Eh & Ee & _). split; [case_decide; lia|]. unfold sl_dos_guard_global_inflight. by rewrite Eh, Ee. }
  destruct Hfc as (Hok1 & Ep & Eg & Eh & Ee & Hf1 & (? & ? & ?) & _). destruct Hok as (Hm & _).
  destruct (Z.leb_spec (max_per_ip g1) (u32 (half_open e + established e))) as [|Hr].
  { split; [case_decide; lia|]. unfold sl_dos_guard_global_inflight. by rewrite Eh, Ee. }
  rewrite u32_small in Hr by lia. rewrite (count_write _ _ e) by done. cbn [half_open established].
  rewrite (u32_small (half_open e + 1)), Hc by lia. split; [case_decide; lia|done].
Qed.

Lemma promote_counts g ip k : guard_ok g -> ip_count (sl_dos_guard_promote g ip) k = ip_count g k.
Proof.
  intros Hok. unfold sl_dos_guard_promote. pose proof (entry_find_or_create_ok true g ip false Hok) as Hfc.
  pose proof (count_find_or_create true g ip false k Hok) as Hc.
  destruct (dg_find_or_create true g ip false) as [[e|] g1]; cbn [snd] in Hc; [|done].
  destruct Hfc as (_ & _ & _ & _ & _ & Hf1 & (? & ? & ?) & _). destruct Hok as (Hm & _).
  destruct (Z.eqb_spec (half_open e) 0); [done|]. rewrite (count_write _ _ e) by done. cbn [half_open established].
  rewrite !u32_small, Hc by lia. case_decide; lia.
Qed.

Lemma release_counts g ip : guard_ok g -> 0 < ip_count g ip ->
  (forall k, ip_count (sl_dos_guard_release g ip) k = ip_count g k - (if decide (ip = k) then 1 else 0)) /\
  sl_dos_guard_global_inflight (sl_dos_guard_release g ip) = sl_dos_guard_global_inflight g - 1.
Proof.
  intros Hok Hpos. pose proof (release_ok g ip Hok) as Hok'. rewrite !inflight_counts by done. clear Hok'.
  unfold sl_dos_guard_release, dg_find_or_create. unfold ip_count at 1 in Hpos.
  pose proof Hok as (Hm & Hg & _ & H1 & H2 & E1 & E2 & Hle & Hall).
  destruct (tbl_find SL_DOS_BUCKETS (dg_buckets g) ip) as [e|] eqn:E; [|lia]. pose proof (all_find _ _ _ _ _ Hall E) as (? & ? & ?).
  pose proof (tbl_sum_ge SL_DOS_BUCKETS _ _ (half_open_nonneg (max_per_ip g)) _ ip e Hall E).
  pose proof (tbl_sum_ge SL_DOS_BUCKETS _ _ (established_nonneg (max_per_ip g)) _ ip e Hall E).
  destruct (Z.ltb_spec 0 (established e)); [|destruct (Z.ltb_spec 0 (half_open e)); [|lia]].
  all: split; [intros k; rewrite (count_write _ _ e) by done; cbn [half_open established];
    rewrite ?(u32_small (established e - 1)), ?(u32_small (half_open e - 1)) by lia; case_decide; lia|].
  all: dg_simpl; rewrite u32_small; lia.
Qed.

(** A server that uses the guard as its header asks: it registers a connection when it accepts
    it, promotes it when its handshake is done and releases it when it closes. The open
    connections are listed with their address and whether their handshake is done. *)
Inductive conn_event := CAccept (now : Z) (alloc : bool) (ip : cstring) | CHandshake (i : nat) | CClose (i : nat).

Definition conn_step (s : sl_dos_guard * list (cstring * bool)) (e : conn_event) : sl_dos_guard * list (cstring * bool) :=
  let '(g, live) := s in
  match e with
  | CAccept now alloc ip => let '(ok, g) := sl_dos_guard_admit alloc now g ip in (g, if ok then live ++ [(ip, false)] else live)
  | CHandshake i =>
      match live !! i with
      | Some (ip, false) => (sl_dos_guard_promote g ip, <[i := (ip, true)]> live)
      | _ => (g, live)
      end
  | CClose i => match live !! i with Some (ip, _) => (sl_dos_guard_release g ip, delete i live) | None => (g, live) end
  end.

(** The open connections of an address, and those of them still in the handshake. *)
Definition conns_of (ip : cstring) (live : list (cstring * bool)) : Z := len (filter (fun c => c.1 = ip) live).
Definition half_open_of (ip : cstring) (live : list (cstring * bool)) : Z := len (filter (fun c => c = (ip, false)) live).

Lemma conns_of_split ip live i c : live !! i = Some c ->
  conns_of ip live = conns_of ip (delete i live) + (if decide (c.1 = ip) then 1 else 0) /\
  forall b, conns_of ip (<[i := (c.1, b)]> live) = conns_of ip live.
Proof.
  intros Hi. unfold conns_of. split.
  - rewrite <- (take_drop_middle live i c Hi) at 1. rewrite delete_take_drop, !filter_app, filter_cons.
    case_decide; rewrite !len_app, ?len_cons; lia.
  - intros b. rewrite (insert_take_drop live i) by (by eapply lookup_lt_Some). rewrite <- (take_drop_middle live i c Hi) at 3.
    rewrite !filter_app, !filter_cons. cbn [fst]. case_decide; by rewrite !len_app, ?len_cons.
Qed.

Definition tracks (s : sl_dos_guard * list (cstring * bool)) : Prop :=
  guard_ok s.1 /\ sl_dos_guard_global_inflight s.1 = len s.2 /\ forall ip, ip_count s.1 ip = conns_of ip s.2.

Lemma conn_step_tracks s e : tracks s -> tracks (conn_step s e).
Proof.
  destruct s as [g live]. intros (Hok & Hg & Hc). cbn [fst snd] in *. destruct e as [now alloc ip|i|i]; cbn [conn_step].
  - pose proof (guard_step_ok g (Admit now alloc ip) Hok) as Hok'. cbn [guard_step] in Hok'.
    pose proof (fun k => admit_counts alloc now g ip k Hok) as Hk. pose proof (admit_spec now g ip Hok) as Ha.
    assert (Hin : let '(ok, g') := sl_dos_guard_admit alloc now g ip in
      sl_dos_guard_global_inflight g' = sl_dos_guard_global_inflight g + (if ok then 1 else 0)).
    { destruct (sl_dos_guard_admit alloc now g ip) as [[] g'] eqn:E; [|destruct (Hk ip) as [_ H0]; rewrite H0; [lia|done]].
      assert (E' : sl_dos_guard_admit true now g ip = (true, g')).
      { revert E. unfold sl_dos_guard_admit, dg_find_or_create. destruct (max_global g <=? _); [done|].
        destruct (tbl_find _ _ ip); [done|]. by destruct alloc. }
      rewrite E' in Ha. by destruct Ha as (_ & _ & _ & _ & ?). }
    destruct (sl_dos_guard_admit alloc now g ip) as [ok g']. cbn [snd] in Hok'. split; [done|]. cbn [fst snd]. split.
    + rewrite Hin, Hg. destruct ok; [rewrite len_app; change (len [(ip, false)]) with 1|]; lia.
    + intros k. destruct (Hk k) as [-> _]. rewrite Hc. destruct ok; [|case_decide; lia]. unfold conns_of.
      rewrite filter_app, len_app, filter_cons. cbn [fst]. rewrite filter_nil. case_decide; unfold len; cbn [length]; lia.
  - destruct (live !! i) as [[ip []]|] eqn:Ei; try done. destruct (promote_ok g ip Hok) as [Hok' Hin]. split; [done|]. cbn [fst snd].
    split; [rewrite Hin, Hg; unfold len; by rewrite length_insert|]. intros k. rewrite promote_counts, Hc by done.
    symmetry. by apply (proj2 (conns_of_split k live i (ip, false) Ei)).
  - destruct (live !! i) as [[ip b]|] eqn:Ei; [|done]. pose proof (proj1 (conns_of_split ip live i _ Ei)) as Hs. cbn [fst] in Hs.
    rewrite decide_True in Hs by done. destruct (release_counts g ip Hok) as [Hk Hin].
    { rewrite Hc, Hs. pose proof (len_nonneg (filter (fun c => c.1 = ip) (delete i live))). unfold conns_of. lia. }
    split; [by apply release_ok|]. cbn [fst snd]. split.
    + rewrite Hin, Hg. unfold len. rewrite length_delete by (by eexists). apply lookup_lt_Some in Ei. lia.
    + intros k. rewrite Hk, Hc, (proj1 (conns_of_split k live i _ Ei)). cbn [fst]. case_decide; lia.
Qed.

Lemma half_open_le ip live : half_open_of ip live <= conns_of ip live.
Proof.
  unfold half_open_of, conns_of. induction live as [|[k b] live IH]; [done|]. rewrite !filter_cons. cbn [fst].
  repeat case_decide; simplify_eq; rewrite ?len_cons; lia.
Qed.

Lemma conn_step_limits s e : max_per_ip (conn_step s e).1 = max_per_ip s.1 /\ max_global (conn_step s e).1 = max_global s.1.
Proof.
  destruct s as [g live], e as [now alloc ip|i|i]; cbn [conn_step].
  - pose proof (frame_limits g (Admit now alloc ip)) as H. cbn [guard_step] in H. by destruct (sl_dos_guard_admit alloc now g ip).
  - destruct (live !! i) as [[ip []]|]; try done. apply (frame_limits g (Promote ip)).
  - destruct (live !! i) as [[ip b]|]; [|done]. apply (frame_limits g (Release ip)).
Qed.

(** C28: The documented caps hold for the connections themselves. Whatever connections a server
    accepts, completes and closes, in any order and with memory failing at any time, as long as
    nothing is swept: the guard's counts are the numbers of open connections, in all and of each
    address; those in all are within the global cap, and those of one address that are half-open
    within the cap per address (so are all of them, the code being stricter than its header). A
    connection is only admitted when both documented caps leave room, and is admitted when there
    is memory, room in the global cap and fewer open connections of its address than its cap. *)
Theorem dos_guard_caps per_ip global timeout g evs alloc now ip :
  is_u32 per_ip -> is_u32 global -> sl_dos_guard_new true per_ip global timeout = Some g ->
  let '(g', live) := foldl conn_step (g, []) evs in
  sl_dos_guard_global_inflight g' = len live /\ sl_dos_guard_per_ip g' ip = conns_of ip live /\
  len live <= global /\ half_open_of ip live <= per_ip /\ conns_of ip live <= per_ip /\
  ((sl_dos_guard_admit alloc now g' ip).1 = true -> len live < global /\ half_open_of ip live < per_ip) /\
  (len live < global -> conns_of ip live < per_ip -> (sl_dos_guard_admit true now g' ip).1 = true).
Proof.
  intros Hp Hgl Hnew. pose proof (guard_ok_new per_ip global timeout g Hp Hgl Hnew) as Hok.
  assert (E : max_per_ip g = per_ip /\ max_global g = global /\ tracks (g, [])).
  { unfold sl_dos_guard_new in Hnew. destruct (_ || _); [done|]. cbn [negb] in Hnew. simplify_eq. split; [done|]. split; [done|].
    split; [done|]. split; [done|]. intros k. unfold ip_count. cbn [fst dg_buckets]. by rewrite find_new. }
  assert (Hrun : forall s, tracks s -> let s' := foldl conn_step s evs in
    tracks s' /\ max_per_ip s'.1 = max_per_ip s.1 /\ max_global s'.1 = max_global s.1).
  { induction evs as [|e evs IH]; intros s Hs; [done|]. cbn [foldl]. destruct (IH _ (conn_step_tracks s e Hs)) as (? & E1 & E2).
    cbv zeta. rewrite E1, E2. split; [done|]. apply conn_step_limits. }
  destruct E as (Ep & Eg & Ht). destruct (Hrun _ Ht) as (Ht' & Ep' & Eg'). clear Hrun Ht Hok.
  destruct (foldl conn_step (g, []) evs) as [g' live]. destruct Ht' as (Hok & Hin & Hc). cbn [fst snd] in *.
  rewrite Ep in Ep'. rewrite Eg in Eg'. pose proof (per_ip_le g' ip Hok) as Hper.
  rewrite (per_ip_count g' ip Hok), Hc in *. rewrite Ep' in Hper.
  pose proof (inflight_counts g' Hok) as Hif. pose proof Hok as (_ & _ & _ & _ & _ & _ & _ & Hle & _).
  pose proof (half_open_le ip live). pose proof (admit_spec now g' ip Hok) as Ha.
  rewrite (per_ip_count g' ip Hok), Hc, Hin, Ep', Eg' in Ha.
  split_and!; try done; try lia.
  - intros Hy. assert (Ha' : (sl_dos_guard_admit true now g' ip).1 = true).
    { revert Hy. unfold sl_dos_guard_admit, dg_find_or_create. destruct (max_global g' <=? _); [done|].
      destruct (tbl_find _ _ ip); [done|]. by destruct alloc. }
    destruct (sl_dos_guard_admit true now g' ip) as [ok g2]. destruct Ha as (_ & _ & _ & Ha & _). apply Ha in Ha'. lia.
  - intros H1 H2. destruct (sl_dos_guard_admit true now g' ip) as [ok g2]. destruct Ha as (_ & _ & _ & Ha & _). by apply Ha.
Qed.

Lemma dos_guard_caps_witness :
  exists g, sl_dos_guard_new true 2 3 100 = Some g /\
    let '(g', live) := foldl conn_step (g, []) [CAccept 1 true [49]; CAccept 2 true [49]; CHandshake 0; CAccept 2 true [49]; CAccept 3 true [50]; CClose 1] in
    live = [([49], true); ([50], false)] /\ sl_dos_guard_per_ip g' [49] = 1 /\ (sl_dos_guard_admit true 4 g' [49]).1 = true.
Proof.
  eexists. split; [reflexivity|].
  pose proof (dos_guard_caps 2 3 100 _ [CAccept 1 true [49]; CAccept 2 true [49]; CHandshake 0; CAccept 2 true [49]; CAccept 3 true [50]; CClose 1]
    true 4 [49] ltac:(lia) ltac:(lia) eq_refl) as H.
  destruct (foldl conn_step _ _) as [g' live] eqn:E. destruct H as (_ & Hp & _ & _ & _ & _ & Ha).
  assert (El : live = [([49], true); ([50], false)]) by (vm_compute in E; congruence). rewrite El in *.
  split; [reflexivity|]. split; [exact Hp|]. by apply Ha.
Defined.

(** The cap per address is documented for half-open connections and counts established ones. *)
Lemma established_count_against_cap :
  exists g, sl_dos_guard_new true 1 8 100 = Some g /\
    let '(g', live) := foldl conn_step (g, []) [CAccept 1 true [49]; CHandshake 0] in
    half_open_of [49] live = 0 /\ (sl_dos_guard_admit true 2 g' [49]).1 = false.
Proof. eexists. split; [reflexivity|]. vm_compute. by split. Qed.

(** The age checked by the sweep is that of the first half-open connection since the address last
    had none: a connection opened 11 ms before the sweep is reaped by a timeout of 100 ms. *)
Lemma sweep_reaps_young :
  exists g, sl_dos_guard_new true 8 8 100 = Some g /\
    let g' := foldl guard_step g [Admit 0 true [49]; Admit 90 true [49]; Promote [49]] in
    (sl_dos_guard_sweep 101 g').1 = 1.
Proof. eexists. split; [reflexivity|]. vm_compute; reflexivity. Qed.

(** A swept connection that is closed later is taken off the established ones: one connection is
    still open, and the guard counts none. *)
Lemma release_after_sweep_undercounts :
  exists g, sl_dos_guard_new true 8 8 100 = Some g /\
    let g' := foldl guard_step g [Admit 0 true [49]; Admit 0 true [49]; Promote [49]; Sweep 101; Release [49]] in
    sl_dos_guard_global_inflight g' = 0.
Proof. eexists. split; [reflexivity|]. vm_compute; reflexivity. Qed.
