(* ===== verification/Config.v ===== *)
(** The configuration loader (sl_config.c): INI text into a flat table of strings, and typed readers
    over it.  A C string is the list of its bytes before the terminator; the outcome of the
    allocations of one sl_config_set is an argument. *)

From Stdlib Require Import String.
From stdpp Require Import gmap.
From S2P Require Import Prelude Ctype KeySched ChainTable.
Local Open Scope Z_scope.

Abbreviation SL_CFG_BUCKETS := 256%positive.

(** ** The table *)

(* src/src/sl_config.c:16-19 *)
Record sl_config := mk_config { cfg_buckets : list (list (cstring * cstring)); cfg_count : Z }.

(* src/src/sl_config.c:35-37 *)
Definition sl_config_new : sl_config := mk_config (tbl_new SL_CFG_BUCKETS) 0.

(* src/src/sl_config.c:54-60 [find] *)
Definition cfg_find (c : sl_config) (key : cstring) : option cstring := tbl_find SL_CFG_BUCKETS (cfg_buckets c) key.

(* src/src/sl_config.c:62-84 *)
Definition sl_config_set (alloc : bool) (c : sl_config) (key value : cstring) : Z * sl_config :=
  match cfg_find c key with
  | Some _ =>
      if negb alloc then (-1, c)
      else (0, mk_config (tbl_set SL_CFG_BUCKETS (cfg_buckets c) key value) (cfg_count c))
  | None =>
      if negb alloc then (-1, c)
      else (0, mk_config (tbl_push SL_CFG_BUCKETS (cfg_buckets c) key value) (u64 (cfg_count c + 1)))
  end.

(** ** The loader *)

(* src/src/sl_config.c:31-31 [trim] *)
Definition rstrip (s : cstring) : cstring := reverse (skip_spaces (reverse s)).

(* src/src/sl_config.c:27-33 *)
Definition trim (s : cstring) : cstring := rstrip (skip_spaces s).

(** What one line does: [inl] continues with the table and the section, [inr] is [rc = -1; break]. *)
(* src/src/sl_config.c:96-119 [sl_config_load_file] *)
Definition load_line (alloc : bool) (line : list Z) (st : sl_config * cstring) : (sl_config * cstring) + sl_config :=
  let '(c, section) := st in
  let p := trim (cstr line) in
  match p with
  | [] => inl st
  | ch :: p1 =>
      if (ch =? 35) || (ch =? 59) then inl st
      else if ch =? 91 then
        match strchr p 93 with
        | None => inr c
        | Some (a, _) => inl (c, snprintf 128 (trim (drop 1 a)))
        end
      else
        match strchr p 61 with
        | None => inr c
        | Some (k, v) =>
            let k := trim k in
            let v := trim v in
            let full := match section with
                        | [] => snprintf 256 k
                        | _ => snprintf 256 (section ++ [46] ++ k)
                        end in
            let '(rc, c) := sl_config_set alloc c full v in
            if negb (rc =? 0) then inr c else inl (c, section)
        end
  end.

(** The loop over the lines of the file. Each fgets takes at least one byte, so the length of the text
    bounds the number of rounds. [mem] gives the allocation outcomes in order. *)
(* src/src/sl_config.c:95-120 [sl_config_load_file] *)
Fixpoint load_loop (fuel : nat) (mem : list bool) (text : list Z) (st : sl_config * cstring) : M (Z * sl_config) :=
  match text with
  | [] => Ok (0, st.1)
  | _ :: _ =>
      match fuel with
      | O => Fault
      | S fuel =>
          let '(line, text) := fgets 1023 text in
          match load_line (default true (head mem)) line st with
          | inr c => Ok (-1, c)
          | inl st => load_loop fuel (tail mem) text st
          end
      end
  end.

(** [file] is [None] when fopen fails. *)
(* src/src/sl_config.c:86-123 *)
Definition sl_config_load_file (mem : list bool) (c : sl_config) (file : option (list Z)) : M (Z * sl_config) :=
  match file with
  | None => Ok (-1, c)
  | Some text => load_loop (length text) mem text (c, [])
  end.

(** ** Readers *)

(* src/src/sl_config.c:125-130 *)
Definition sl_config_get_str (c : sl_config) (key : cstring) (fallback : option cstring) : option cstring :=
  match cfg_find c key with Some v => Some v | None => fallback end.

(* src/src/sl_config.c:132-139 *)
Definition sl_config_get_int (c : sl_config) (key : cstring) (fb : Z) : Z :=
  match sl_config_get_str c key None with
  | None => fb
  | Some v => let '(n, e) := strtol v in match e with [] => to_int n | _ => fb end
  end.

(* src/src/sl_config.c:141-148 *)
Definition sl_config_get_u32 (c : sl_config) (key : cstring) (fb : Z) : Z :=
  match sl_config_get_str c key None with
  | None => fb
  | Some v => let '(n, e) := strtoul v in match e with [] => u32 n | _ => fb end
  end.

(* src/src/sl_config.c:150-157 *)
Definition sl_config_get_u64 (c : sl_config) (key : cstring) (fb : Z) : Z :=
  match sl_config_get_str c key None with
  | None => fb
  | Some v => let '(n, e) := strtoul v in match e with [] => n | _ => fb end
  end.

(* src/src/sl_config.c:159-167 *)
Definition sl_config_get_bool (c : sl_config) (key : cstring) (fb : bool) : bool :=
  match sl_config_get_str c key None with
  | None => fb
  | Some v =>
      if strcasecmp_eq v (lit "true") || strcasecmp_eq v (lit "yes") ||
         strcasecmp_eq v (lit "on") || bool_decide (v = lit "1") then true
      else if strcasecmp_eq v (lit "false") || strcasecmp_eq v (lit "no") ||
         strcasecmp_eq v (lit "off") || bool_decide (v = lit "0") then false
      else fb
  end.

(* src/src/sl_config.c:169-171 *)
Definition sl_config_size (c : sl_config) : Z := cfg_count c.

(** ** The table is a map *)

Definition config_ok (c : sl_config) : Prop :=
  chains_ok SL_CFG_BUCKETS (cfg_buckets c) /\ cfg_count c = tbl_sum (fun _ => 1) (cfg_buckets c).

Lemma config_ok_new : config_ok sl_config_new.
Proof. split; [apply chains_ok_new|]. symmetry. apply (sum_new SL_CFG_BUCKETS). Qed.

Lemma config_set_spec c key value :
  config_ok c -> 0 <= cfg_count c < UINT64_MAX ->
  exists c', sl_config_set true c key value = (0, c') /\ config_ok c' /\
    cfg_count c <= cfg_count c' <= cfg_count c + 1 /\
    (forall k, cfg_find c' k = if decide (key = k) then Some value else cfg_find c k).
Proof.
  intros [Hc Hn] Hb. unfold sl_config_set, cfg_find. pose proof Hc as [Hl _].
  destruct (tbl_find SL_CFG_BUCKETS (cfg_buckets c) key) as [w|] eqn:E; cbn [negb]; eexists; (split; [reflexivity|]);
    unfold config_ok; cbn [cfg_buckets cfg_count].
  - rewrite (sum_set _ _ _ _ _ w) by done. split_and!; try lia; [by apply chains_ok_set|].
    intros k. rewrite find_set by eauto. done.
  - rewrite sum_push, u64_small by (done || lia). split_and!; try lia; [by apply chains_ok_push|].
    intros k. by rewrite find_push.
Qed.

(** ** Text *)

Inductive cfg_line := Blank | Comment (t : cstring) | SectionLine (name : cstring) | Setting (k v : cstring).

Definition print_line (l : cfg_line) : list Z :=
  match l with
  | Blank => [10]
  | Comment t => 35 :: t ++ [10]
  | SectionLine s => 91 :: s ++ [93; 10]
  | Setting k v => k ++ [32; 61; 32] ++ v ++ [10]
  end.

(** No terminator and no newline. *)
Definition text_ok (s : cstring) : Prop := Forall (fun c => c <> 0 /\ c <> 10) s.

(** No space at either end. *)
Definition edges_ok (s : cstring) : Prop := skip_spaces s = s /\ skip_spaces (reverse s) = reverse s.

Definition line_ok (l : cfg_line) : Prop :=
  len (print_line l) <= 1023 /\
  match l with
  | Blank => True
  | Comment t => text_ok t
  | SectionLine s => text_ok s /\ edges_ok s /\ (93 ∉ s)
  | Setting k v =>
      text_ok k /\ edges_ok k /\ (61 ∉ k) /\ text_ok v /\ edges_ok v /\
      match k with [] => False | c :: _ => c <> 35 /\ c <> 59 /\ c <> 91 end
  end.

(** What the text means: the settings in force and the current section. *)
Definition full_key (section k : cstring) : cstring :=
  take 255 (match section with [] => k | _ => section ++ [46] ++ k end).

Definition line_means (st : gmap cstring cstring * cstring) (l : cfg_line) : gmap cstring cstring * cstring :=
  let '(m, section) := st in
  match l with
  | Blank | Comment _ => st
  | SectionLine s => (m, take 127 s)
  | Setting k v => (<[full_key section k := v]> m, section)
  end.

(** ** Reading lines *)

Lemma fgets_line l : forall n rest,
  text_ok l -> (length l < n)%nat -> fgets n (l ++ 10 :: rest) = (l ++ [10], rest).
Proof.
  induction l as [|c l IH]; intros [|n] rest Hl Hn; simpl in *; try lia; [done|].
  apply Forall_cons in Hl as [[_ Hc] Hl]. rewrite (proj2 (Z.eqb_neq c 10)) by done.
  by rewrite IH by (done || lia).
Qed.

Lemma skip_spaces_app a s : Forall (fun c => isspace c = true) a -> skip_spaces (a ++ s) = skip_spaces s.
Proof. induction 1 as [|c a Hc _ IH]; simpl; [done|]. by rewrite Hc. Qed.

Lemma rstrip_app s b : Forall (fun c => isspace c = true) b -> rstrip (s ++ b) = rstrip s.
Proof. intros Hb. unfold rstrip. rewrite reverse_app, skip_spaces_app; [done|]. by apply Forall_reverse. Qed.

Lemma skip_spaces_head c s : skip_spaces (c :: s) = c :: s -> isspace c = false.
Proof.
  simpl. destruct (isspace c); [|done]. intros E. exfalso.
  assert (Hl : forall t, (length (skip_spaces t) <= length t)%nat)
    by (clear; induction t as [|x t IH]; simpl; [lia|]; destruct (isspace x); simpl; lia).
  specialize (Hl s). rewrite E in Hl. simpl in Hl. lia.
Qed.

Lemma skip_spaces_stop u v : u <> [] -> skip_spaces u = u -> skip_spaces (u ++ v) = u ++ v.
Proof. intros Hu E. destruct u as [|c u]; [done|]. simpl. by rewrite (skip_spaces_head _ _ E). Qed.

(** Blanks around a string are dropped. *)
Lemma trim_pad a s b :
  Forall (fun c => isspace c = true) a -> Forall (fun c => isspace c = true) b -> edges_ok s -> trim (a ++ s ++ b) = s.
Proof.
  intros Ha Hb [H1 H2]. unfold trim. rewrite skip_spaces_app by done.
  destruct (decide (s = [])) as [->|Hs].
  - cbn [app]. rewrite <- (app_nil_r b). by rewrite skip_spaces_app.
  - rewrite (skip_spaces_stop s b), rstrip_app by done. unfold rstrip. by rewrite H2, reverse_involutive.
Qed.

Lemma trim_ok s : edges_ok s -> trim s = s.
Proof. intros H. rewrite <- (trim_pad [] s []) at 2 by done. by rewrite app_nil_r. Qed.

(** Spaces at the end of one string do not disturb what is before them. *)
Lemma edges_app s t : edges_ok s -> edges_ok t -> s <> [] -> t <> [] -> forall mid, edges_ok (s ++ mid ++ t).
Proof.
  intros [Hs _] [_ Ht] Hns Hnt mid. split; [by apply skip_spaces_stop|].
  rewrite !reverse_app, <- app_assoc. apply skip_spaces_stop; [|done].
  intros E. apply Hnt. by rewrite <- (reverse_involutive t), E.
Qed.

(** ** One line *)

Ltac spaces := repeat constructor.

Lemma load_setting alloc c section k v :
  line_ok (Setting k v) ->
  load_line alloc (k ++ [32; 61; 32] ++ v ++ [10]) (c, section) =
  let '(rc, c') := sl_config_set alloc c (full_key section k) v in
  if negb (rc =? 0) then inr c' else inl (c', section).
Proof.
  intros (_ & Hk & Ek & Hq & Hv & Ev & Hh). unfold load_line.
  rewrite cstr_text.
  2: { repeat (apply Forall_app; split); repeat constructor; try done;
       (eapply Forall_impl; [eassumption|]); by intros ? [? _]. }
  assert (Hkn : k <> []) by (by destruct k).
  set (w := if decide (v = []) then [] else 32 :: v).
  assert (Ep : trim (k ++ [32; 61; 32] ++ v ++ [10]) = (k ++ [32]) ++ 61 :: w).
  { unfold w. destruct (decide (v = [])) as [->|Hvn].
    - replace (k ++ [32; 61; 32] ++ [] ++ [10]) with ([] ++ ((k ++ [32; 61])) ++ [32; 10]) by (by rewrite <- app_assoc).
      rewrite trim_pad; [by rewrite <- app_assoc|spaces..|]. apply (edges_app k [61] Ek ltac:(done) Hkn ltac:(done) [32]).
    - replace (k ++ [32; 61; 32] ++ v ++ [10]) with ([] ++ (k ++ [32; 61; 32] ++ v) ++ [10]) by (by rewrite <- !app_assoc).
      rewrite trim_pad; [by rewrite <- !app_assoc|spaces..|]. by apply edges_app. }
  rewrite Ep. rewrite strchr_first by (rewrite elem_of_app, list_elem_of_singleton; naive_solver lia).
  assert (Et : trim (k ++ [32]) = k) by (apply (trim_pad [] k [32]); [spaces..|done]).
  assert (Ew : trim w = v).
  { unfold w. destruct (decide (v = [])) as [->|]; [done|].
    pose proof (trim_pad [32] v [] ltac:(spaces) ltac:(spaces) Ev) as E. rewrite app_nil_r in E. exact E. }
  rewrite Et, Ew. destruct k as [|ch k1]; [done|]. cbn [app]. destruct Hh as (H1 & H2 & H3).
  rewrite (proj2 (Z.eqb_neq ch 35)), (proj2 (Z.eqb_neq ch 59)), (proj2 (Z.eqb_neq ch 91)) by done. cbn [orb].
  unfold full_key, snprintf. by destruct section.
Qed.

Lemma load_section alloc c section s :
  line_ok (SectionLine s) -> load_line alloc (91 :: s ++ [93; 10]) (c, section) = inl (c, take 127 s).
Proof.
  intros (_ & Hs & Es & Hq). unfold load_line. rewrite cstr_text.
  2: { constructor; [done|]. apply Forall_app. split; [|repeat constructor; done].
       eapply Forall_impl; [exact Hs|]. by intros ? [? _]. }
  assert (Ep : trim (91 :: s ++ [93; 10]) = 91 :: s ++ [93]).
  { pose proof (trim_pad [] (91 :: s ++ [93]) [10]) as E. cbn [app] in E. rewrite <- app_assoc in E.
    apply E; [spaces..|]. apply (edges_app [91] [93]); done. }
  rewrite Ep. cbn [orb Z.eqb Pos.eqb].
  change (91 :: s ++ [93]) with ((91 :: s) ++ 93 :: []). rewrite strchr_first by (rewrite not_elem_of_cons; done).
  cbn [drop]. by rewrite trim_ok.
Qed.

Lemma load_skip alloc l st : line_ok l -> (l = Blank \/ exists t, l = Comment t) -> load_line alloc (print_line l) st = inl st.
Proof.
  intros Hl [->|[t ->]]; destruct st as [c section]; [done|]. destruct Hl as [_ Ht].
  unfold load_line. cbn [print_line]. rewrite cstr_text.
  2: { constructor; [done|]. apply Forall_app. split; [|repeat constructor; done].
       eapply Forall_impl; [exact Ht|]. by intros ? [? _]. }
  unfold trim. change (skip_spaces (35 :: t ++ [10])) with (35 :: t ++ [10]).
  destruct (rstrip (35 :: t ++ [10])) as [|ch p] eqn:E; [done|].
  assert (ch = 35) as ->; [|done].
  change (35 :: t ++ [10]) with ([35] ++ (t ++ [10])) in E. unfold rstrip in E. rewrite reverse_app in E.
  assert (Hx : forall u, exists u', skip_spaces (u ++ [35]) = u' ++ [35]).
  { clear. induction u as [|x u [u' IH]]; simpl; [by exists []|]. destruct (isspace x); [by exists u'|by exists (x :: u)]. }
  destruct (Hx (reverse (t ++ [10]))) as [u' Eu]. change (reverse [35]) with [35] in E. rewrite Eu, reverse_app in E.
  change (reverse [35]) with [35] in E. cbn [app] in E. by simplify_eq.
Qed.

(** ** Whole files *)

Definition config_rel (c : sl_config) (m : gmap cstring cstring) (n : Z) : Prop :=
  config_ok c /\ 0 <= cfg_count c <= n /\ forall k, cfg_find c k = m !! k.

Lemma load_line_means l c section m n :
  line_ok l -> config_rel c m n -> 0 <= n < UINT64_MAX ->
  exists c', load_line true (print_line l) (c, section) = inl (c', (line_means (m, section) l).2) /\
    config_rel c' (line_means (m, section) l).1 (n + 1).
Proof.
  intros Hl (Hok & Hc & Hf) Hn.
  assert (Hkeep : config_rel c m (n + 1)) by (split_and!; done || lia).
  destruct l as [|t|s|k v]; cbn [line_means fst snd].
  - exists c. split; [|done]. rewrite load_skip; auto.
  - exists c. split; [|done]. rewrite load_skip; eauto.
  - exists c. split; [|done]. by apply load_section.
  - destruct (config_set_spec c (full_key section k) v Hok ltac:(lia)) as (c' & E & Hok' & Hc' & Hf').
    exists c'. cbn [print_line]. rewrite load_setting by done. rewrite E. split; [done|].
    split_and!; [done|lia|lia|]. intros key. rewrite Hf'. destruct (decide (full_key section k = key)) as [<-|Hne].
    + by rewrite lookup_insert_eq.
    + by rewrite lookup_insert_ne.
Qed.

Lemma print_line_shape l : line_ok l -> exists t, print_line l = t ++ [10] /\ text_ok t /\ (length t < 1023)%nat.
Proof.
  intros [Hlen Hl]. assert (H : exists t, print_line l = t ++ [10] /\ text_ok t).
  { destruct l as [|t|s|k v]; cbn [print_line].
    - exists []. split; [done|constructor].
    - exists (35 :: t). split; [done|by constructor].
    - exists (91 :: s ++ [93]). split; [by rewrite <- app_comm_cons, <- app_assoc|].
      destruct Hl as (Hs & _). constructor; [done|]. apply Forall_app. split; [done|by repeat constructor].
    - exists (k ++ [32; 61; 32] ++ v). split; [by rewrite <- !app_assoc|]. destruct Hl as (Hk & _ & _ & Hv & _).
      repeat (apply Forall_app; split); done || by repeat constructor. }
  destruct H as (t & E & Ht). exists t. split_and!; [done..|]. rewrite E in Hlen. unfold len in Hlen.
  rewrite length_app in Hlen. simpl in Hlen. lia.
Qed.

Lemma load_loop_means ls : forall fuel c section m n,
  Forall line_ok ls -> (length (concat (map print_line ls)) <= fuel)%nat ->
  config_rel c m n -> 0 <= n -> n + len ls <= UINT64_MAX ->
  exists c', load_loop fuel [] (concat (map print_line ls)) (c, section) = Ok (0, c') /\
    config_rel c' (foldl line_means (m, section) ls).1 (n + len ls).
Proof.
  induction ls as [|l ls IH]; intros fuel c section m n Hls Hfuel Hr Hn Hb.
  { exists c. cbn [map concat foldl fst]. change (@len cfg_line []) with 0. rewrite Z.add_0_r. split; [by destruct fuel|done]. }
  apply Forall_cons in Hls as [Hl Hls]. rewrite len_cons in Hb. pose proof (len_nonneg ls).
  destruct (print_line_shape l Hl) as (t & Et & Htx & Hlt).
  destruct (load_line_means l c section m n Hl Hr ltac:(lia)) as (c1 & E1 & Hr1).
  cbn [map concat] in *. rewrite length_app in Hfuel. rewrite Et in Hfuel |- *. rewrite length_app in Hfuel. simpl in Hfuel.
  rewrite <- app_assoc. cbn [app]. destruct fuel as [|fuel]; [lia|].
  assert (Hne : exists x y, t ++ 10 :: concat (map print_line ls) = x :: y) by (destruct t; by eexists _, _).
  destruct Hne as (x & y & Hxy). cbn [load_loop]. rewrite Hxy. rewrite <- Hxy. rewrite fgets_line by done.
  rewrite <- Et. cbn [head default tail]. rewrite E1.
  destruct (IH fuel c1 (line_means (m, section) l).2 (line_means (m, section) l).1 (n + 1) Hls) as (c2 & E2 & Hr2);
    [lia|done|lia|lia|].
  exists c2. split; [exact E2|]. cbn [foldl]. rewrite len_cons.
  replace (n + (1 + len ls)) with (n + 1 + len ls) by lia.
  destruct (line_means (m, section) l); exact Hr2.
Qed.

(** Loading what was printed gives back the settings: for every sequence of blank lines, comments,
    section headers and settings within the line length, the loader succeeds, every key reads as the
    value of its last setting under its section, and the number of entries is the number of keys. *)
Theorem config_load_roundtrip ls key fallback :
  Forall line_ok ls -> len ls <= UINT64_MAX ->
  let m := (foldl line_means (∅, []) ls).1 in
  exists c, sl_config_load_file [] sl_config_new (Some (concat (map print_line ls))) = Ok (0, c) /\
    sl_config_get_str c key fallback = match m !! key with Some v => Some v | None => fallback end /\
    sl_config_size c = Z.of_nat (size m).
Proof.
  intros Hls Hn m. unfold sl_config_load_file.
  destruct (load_loop_means ls (length (concat (map print_line ls))) sl_config_new [] ∅ 0 Hls) as (c & E & Hok & Hc & Hf);
    [lia|split_and!; [apply config_ok_new|done|done|]|lia|lia|].
  - intros k. unfold cfg_find. cbn [sl_config_new cfg_buckets]. by rewrite find_new, lookup_empty.
  - exists c. split_and!; [exact E|by unfold sl_config_get_str; rewrite Hf|].
    destruct Hok as [Hch Hcnt]. unfold sl_config_size. rewrite Hcnt, <- (tbl_map_size SL_CFG_BUCKETS) by done.
    do 2 f_equal. apply map_eq. intros k. rewrite (tbl_map_lookup SL_CFG_BUCKETS) by done. apply Hf.
Qed.

Lemma config_load_roundtrip_witness :
  exists c, sl_config_load_file [] sl_config_new
      (Some (concat (map print_line [Comment (lit "demo"); SectionLine (lit "net"); Setting (lit "port") (lit "4443")]))) = Ok (0, c) /\
    sl_config_get_str c (lit "net.port") None = Some (lit "4443").
Proof.
  destruct (config_load_roundtrip [Comment (lit "demo"); SectionLine (lit "net"); Setting (lit "port") (lit "4443")]
    (lit "net.port") None) as (c & E & Hs & _).
  - repeat constructor; cbv; try (intuition discriminate); (intros H; repeat (apply elem_of_cons in H as [H|H]; [discriminate|]); by apply not_elem_of_nil in H).
  - vm_compute; discriminate.
  - exists c. split; [exact E|]. rewrite Hs. vm_compute; reflexivity.
Defined.

(** ** Numbers *)

(** Every int survives the configuration: a key set to the decimal text of [n] reads back as [n]
    whenever [n] fits an int, with or without a sign. *)
Theorem config_int_roundtrip c key n fb :
  config_ok c -> 0 <= cfg_count c < UINT64_MAX -> -2147483648 <= n <= 2147483647 ->
  exists c', sl_config_set true c key (dec_int n) = (0, c') /\ sl_config_get_int c' key fb = n.
Proof.
  intros Hok Hc Hn. destruct (config_set_spec c key (dec_int n) Hok Hc) as (c' & E & _ & _ & Hf).
  exists c'. split; [done|]. unfold sl_config_get_int, sl_config_get_str. rewrite Hf, decide_True by done.
  unfold strtol. rewrite scan_dec by lia. unfold to_int.
  replace (if n <? 0 then Z.max (- 2 ^ 63) (- Z.abs n) else Z.min (2 ^ 63 - 1) (Z.abs n)) with n
    by (destruct (Z.ltb_spec n 0); lia).
  rewrite u32_small; lia.
Qed.

Lemma config_int_roundtrip_witness :
  exists c', sl_config_set true sl_config_new (lit "net.port") (dec_int (-17)) = (0, c') /\
    sl_config_get_int c' (lit "net.port") 5 = -17.
Proof. apply (config_int_roundtrip sl_config_new (lit "net.port") (-17) 5 config_ok_new); simpl; lia. Defined.

(** ** Deviations *)

Definition config_of (s : list Z) : sl_config :=
  match sl_config_load_file [] sl_config_new (Some s) with Ok (_, c) => c | Fault => sl_config_new end.

(** A line longer than the buffer is read in pieces: the tail of a long comment is a setting. *)
Lemma long_comment_sets_key :
  sl_config_get_str (config_of (35 :: replicate 1022 120 ++ lit "admin=on" ++ [10])) (lit "admin") None = Some (lit "on").
Proof. vm_compute; reflexivity. Qed.

(** An empty value is a number, zero, and not the fallback. *)
Lemma empty_value_is_zero : sl_config_get_int (config_of (lit "port=" ++ [10])) (lit "port") 4443 = 0.
Proof. vm_compute; reflexivity. Qed.

(** Values out of range are reduced silently; a negative value is accepted as unsigned. *)
Lemma out_of_range_wraps :
  sl_config_get_int (config_of (lit "port=4294967297")) (lit "port") 4443 = 1 /\
  sl_config_get_u32 (config_of (lit "cap=-1")) (lit "cap") 7 = UINT32_MAX.
Proof. split; vm_compute; reflexivity. Qed.
