(* ===== verification/ResumeMap.v ===== *)
(** The bitmap of received chunks (sl_resume_map.c): one bit per chunk, least significant bit first. *)

From stdpp Require Import gmap numbers.
From S2P Require Import Prelude.
Local Open Scope Z_scope.

(* src/inc/sl_resume_map.h:19-23 *)
Record sl_resume_map_t := mk_rmap { rm_bits : list Z; total_chunks : Z; received_chunks : Z }.

Definition bitmap_bytes (total : Z) : Z := u32 (total + 7) / 8.

(* src/src/sl_resume_map.c:6-14 *)
Definition sl_resume_map_init (alloc : bool) (total : Z) : option sl_resume_map_t :=
  let bytes := bitmap_bytes total in
  if negb alloc then None
  else Some (mk_rmap (replicate (Z.to_nat (if bytes =? 0 then 1 else bytes)) 0) total 0).

(* src/src/sl_resume_map.c:23-32 *)
Definition sl_resume_map_set (r : sl_resume_map_t) (i : Z) : M (Z * sl_resume_map_t) :=
  if total_chunks r <=? i then Ok (-1, r) else
  let! b := load (rm_bits r) (i / 8) in
  let mask := u8 (1 ≪ (i mod 8)) in
  if Z.land b mask =? 0 then
    let! bits := store (rm_bits r) (i / 8) (Z.lor b mask) in
    Ok (0, mk_rmap bits (total_chunks r) (u32 (received_chunks r + 1)))
  else Ok (0, r).

(* src/src/sl_resume_map.c:34-37 *)
Definition sl_resume_map_has (r : sl_resume_map_t) (i : Z) : M bool :=
  if total_chunks r <=? i then Ok false else
  let! b := load (rm_bits r) (i / 8) in
  Ok (negb (Z.land (b ≫ (i mod 8)) 1 =? 0)).

(* src/src/sl_resume_map.c:39-41 *)
Definition sl_resume_map_complete (r : sl_resume_map_t) : bool := received_chunks r =? total_chunks r.

(** The indices written and the flag [more]. *)
(* src/src/sl_resume_map.c:43-58 *)
Definition sl_resume_map_missing (r : sl_resume_map_t) (out_cap : Z) : M (list Z * bool) :=
  let! x := for_ret (Z.to_nat (total_chunks r)) 0 (fun i found =>
    let! h := sl_resume_map_has r i in
    if h : bool then Ok (inl found)
    else if len found <? out_cap then Ok (inl (found ++ [i]))
    else Ok (inr found)) [] in
  match x with inl found => Ok (found, false) | inr found => Ok (found, true) end.

(* src/src/sl_resume_map.c:60-67 *)
Definition sl_resume_map_serialize (r : sl_resume_map_t) (out : list Z) : M (Z * list Z) :=
  let bytes := bitmap_bytes (total_chunks r) in
  if len out <? bytes then Ok (-1, out) else
  let! b := load_bytes (rm_bits r) 0 bytes in
  let! out := store_bytes out 0 b in
  Ok (bytes, out).

(* src/src/sl_resume_map.c:69-82 *)
Definition sl_resume_map_deserialize (alloc : bool) (inp : list Z) (total : Z) : M (option sl_resume_map_t) :=
  let bytes := bitmap_bytes total in
  if len inp <? bytes then Ok None else
  match sl_resume_map_init alloc total with
  | None => Ok None
  | Some r =>
      let! b := load_bytes inp 0 bytes in
      let! bits := store_bytes (rm_bits r) 0 b in
      let! r := for_up (Z.to_nat total) 0 (fun i r =>
        let! h := sl_resume_map_has r i in
        Ok (if h : bool then mk_rmap (rm_bits r) (total_chunks r) (u32 (received_chunks r + 1)) else r))
        (mk_rmap bits (total_chunks r) 0) in
      Ok (Some r)
  end.

(** ** Bits *)

Definition bit_of (bits : list Z) (i : Z) : bool :=
  match bits !! Z.to_nat (i / 8) with Some b => Z.testbit b (i mod 8) | None => false end.

Definition indices (total : Z) : list Z := map Z.of_nat (seq 0 (Z.to_nat total)).
Definition have (bits : list Z) (total : Z) : list Z := filter (fun i => bit_of bits i = true) (indices total).

(** The bitmap has its size, and the counter counts the bits. [UINT32_MAX - 7] is where the size
    computation wraps. *)
Definition rmap_ok (r : sl_resume_map_t) : Prop :=
  0 <= total_chunks r <= UINT32_MAX - 7 /\ total_chunks r <= 8 * len (rm_bits r) /\ bytes_ok (rm_bits r) /\
  len (rm_bits r) = Z.max 1 (bitmap_bytes (total_chunks r)) /\
  received_chunks r = len (have (rm_bits r) (total_chunks r)).

Lemma bitmap_bytes_ok total : 0 <= total <= UINT32_MAX - 7 -> 0 <= bitmap_bytes total <= 8 * total + 8 /\ total <= 8 * bitmap_bytes total.
Proof. intros H. unfold bitmap_bytes. rewrite u32_small by lia. Z.div_mod_to_equations. lia. Qed.

Lemma in_indices total i : i ∈ indices total <-> 0 <= i < total.
Proof.
  unfold indices. rewrite list_elem_of_fmap. split.
  - intros (k & -> & [? ?]%elem_of_seq). lia.
  - intros H. exists (Z.to_nat i). split; [lia|]. apply elem_of_seq. lia.
Qed.

Lemma len_indices total : 0 <= total -> len (indices total) = total.
Proof. intros. unfold indices. rewrite len_map. unfold len. rewrite length_seq. lia. Qed.

Lemma indices_S total : 0 <= total -> indices (total + 1) = indices total ++ [total].
Proof.
  intros H. unfold indices. replace (Z.to_nat (total + 1)) with (S (Z.to_nat total)) by lia.
  rewrite seq_S, map_app. simpl. by rewrite Z2Nat.id.
Qed.

Lemma bit_zero n i : bit_of (replicate n 0) i = false.
Proof.
  unfold bit_of. destruct (replicate n 0 !! _) eqn:E; [|done]. apply lookup_replicate in E as [-> _].
  apply Z.testbit_0_l.
Qed.

Lemma rmap_ok_init total r : 0 <= total <= UINT32_MAX - 7 -> sl_resume_map_init true total = Some r -> 
  rmap_ok r /\ total_chunks r = total /\ have (rm_bits r) total = [].
Proof.
  intros Ht. unfold sl_resume_map_init. cbn [negb]. intros [= <-]. pose proof (bitmap_bytes_ok total Ht).
  assert (Hh : forall n, have (replicate n 0) total = []).
  { intros n. unfold have. induction (indices total) as [|i l IH]; [done|].
    by rewrite filter_cons_False by (by rewrite bit_zero). }
  unfold rmap_ok. cbn [rm_bits total_chunks received_chunks]. rewrite Hh, len_replicate.
  split_and!; try lia; try done; [..|by apply bytes_ok_replicate|]; destruct (Z.eqb_spec (bitmap_bytes total) 0); lia.
Qed.

(** An index below the total has its byte in the bitmap. *)
Lemma rmap_byte r i : rmap_ok r -> 0 <= i < total_chunks r ->
  exists b, load (rm_bits r) (i / 8) = Ok b /\ rm_bits r !! Z.to_nat (i / 8) = Some b /\ is_u8 b /\ 0 <= i / 8 < len (rm_bits r).
Proof.
  intros (Ht & Hl & Hb & _) Hi.
  assert (Hd : 0 <= i / 8 < len (rm_bits r)) by (Z.div_mod_to_equations; lia).
  destruct (load_in_bounds (rm_bits r) (i / 8) Hd) as (b & E & El). exists b.
  pose proof (load_u8 _ _ _ Hb E). split_and!; done || lia.
Qed.

Lemma has_spec r i : rmap_ok r -> 0 <= i -> sl_resume_map_has r i = Ok ((i <? total_chunks r) && bit_of (rm_bits r) i).
Proof.
  intros Hr Hi. unfold sl_resume_map_has. destruct (Z.leb_spec (total_chunks r) i).
  - by rewrite (proj2 (Z.ltb_ge _ _)) by lia.
  - destruct (rmap_byte r i Hr ltac:(lia)) as (b & -> & E & _). unfold bit_of. rewrite E, land_shiftr_1.
    by rewrite (proj2 (Z.ltb_lt _ _)) by lia.
Qed.

Lemma mask_test b k : is_u8 b -> 0 <= k < 8 ->
  Z.land b (u8 (1 ≪ k)) = 0 <-> Z.testbit b k = false.
Proof.
  intros Hb Hk. rewrite Z.shiftl_mul_pow2, Z.mul_1_l by lia.
  rewrite u8_small by (split; [lia|]; apply (Z.pow_lt_mono_r 2 k 8); lia). split.
  - intros E. apply (f_equal (fun z => Z.testbit z k)) in E. rewrite Z.land_spec, Z.bits_0, Z.pow2_bits_true in E by lia.
    by rewrite andb_true_r in E.
  - intros E. apply Z.bits_inj'. intros n Hn. rewrite Z.land_spec, Z.bits_0. destruct (decide (n = k)) as [->|].
    + by rewrite E.
    + rewrite Z.pow2_bits_false by lia. apply andb_false_r.
Qed.

Lemma bit_set bits i b j :
  bits !! Z.to_nat (i / 8) = Some b -> 0 <= i -> 0 <= j ->
  bit_of (<[Z.to_nat (i / 8) := Z.lor b (u8 (1 ≪ (i mod 8)))]> bits) j = bool_decide (i = j) || bit_of bits j.
Proof.
  intros Hb Hi Hj. unfold bit_of. pose proof (lookup_lt_Some _ _ _ Hb).
  pose proof (Z.mod_pos_bound i 8 ltac:(lia)) as Hm. pose proof (Z.mod_pos_bound j 8 ltac:(lia)) as Hmj.
  assert (Hk : u8 (1 ≪ (i mod 8)) = 2 ^ (i mod 8)).
  { rewrite Z.shiftl_mul_pow2, Z.mul_1_l by lia. apply u8_small. split; [lia|]. apply (Z.pow_lt_mono_r 2 (i mod 8) 8); lia. }
  rewrite Hk. destruct (decide (i / 8 = j / 8)) as [E|E].
  - rewrite <- E, Hb, list_lookup_insert_eq by done. rewrite Z.lor_spec.
    destruct (decide (i = j)) as [->|Hne].
    + rewrite Z.pow2_bits_true by lia. rewrite bool_decide_eq_true_2 by done. apply orb_true_r.
    + rewrite Z.pow2_bits_false, orb_false_r, bool_decide_eq_false_2; [done..|].
      intros Em. apply Hne. rewrite (Z.div_mod i 8), (Z.div_mod j 8) by lia. lia.
  - rewrite list_lookup_insert_ne by (assert (0 <= i / 8) by (apply Z.div_pos; lia); assert (0 <= j / 8) by (apply Z.div_pos; lia); lia).
    rewrite bool_decide_eq_false_2; [done|]. congruence.
Qed.

(** Adding one index to a filtered duplicate-free list. *)
Lemma filter_add (P Q : Z -> Prop) `{!forall x, Decision (P x), !forall x, Decision (Q x)} l i :
  NoDup l -> i ∈ l -> ~ P i -> (forall j, j ∈ l -> Q j <-> j = i \/ P j) -> len (filter Q l) = len (filter P l) + 1.
Proof.
  intros Hnd. revert i. induction Hnd as [|x l Hx Hnd IH]; intros i Hi HP HQ; [by apply not_elem_of_nil in Hi|].
  assert (Hsame : i ∉ l -> filter Q l = filter P l).
  { intros Hil. apply filter_ext_in. intros y Hy. rewrite HQ by set_solver. naive_solver. }
  apply elem_of_cons in Hi as [->|Hi].
  - rewrite filter_cons_True, filter_cons_False by (try done; apply HQ; set_solver). rewrite Hsame by done. len_lia.
  - assert (x <> i) by (intros ->; done). pose proof (HQ x ltac:(set_solver)) as E.
    specialize (IH i Hi HP ltac:(intros; apply HQ; set_solver)). destruct (decide (P x)).
    + rewrite !filter_cons_True by naive_solver. rewrite !len_cons. lia.
    + rewrite !filter_cons_False by naive_solver. lia.
Qed.

Lemma NoDup_indices total : NoDup (indices total).
Proof. apply NoDup_fmap_2; [intros ? ?; apply Nat2Z.inj|apply NoDup_seq]. Qed.

(** ** Operations *)

Lemma have_bits bits bits' total :
  (forall i, 0 <= i < total -> bit_of bits i = bit_of bits' i) -> have bits total = have bits' total.
Proof.
  intros H. unfold have. apply filter_ext_in. intros i Hi%in_indices. by rewrite H.
Qed.

Lemma have_le bits total : 0 <= total -> len (have bits total) <= total.
Proof.
  intros H. rewrite <- (len_indices total H) at 2. unfold len, have.
  apply inj_le, length_filter.
Qed.

Lemma set_spec r i :
  rmap_ok r -> 0 <= i < total_chunks r ->
  exists r', sl_resume_map_set r i = Ok (0, r') /\ rmap_ok r' /\ total_chunks r' = total_chunks r /\
    len (rm_bits r') = len (rm_bits r) /\
    (forall j, 0 <= j -> bit_of (rm_bits r') j = bool_decide (i = j) || bit_of (rm_bits r) j) /\
    received_chunks r' = received_chunks r + (if bit_of (rm_bits r) i then 0 else 1).
Proof.
  intros Hr Hi. destruct (rmap_byte r i Hr Hi) as (b & El & Eb & Hb & Hd). pose proof Hr as (Ht & Hl & Hbs & Hlen & Hc).
  unfold sl_resume_map_set. rewrite (proj2 (Z.leb_gt _ _)) by lia. rewrite El.
  pose proof (Z.mod_pos_bound i 8 ltac:(lia)) as Hm.
  assert (Hbit : bit_of (rm_bits r) i = Z.testbit b (i mod 8)) by (unfold bit_of; by rewrite Eb).
  destruct (Z.eqb_spec (Z.land b (u8 (1 ≪ (i mod 8)))) 0) as [E|E].
  - apply mask_test in E; [|done..]. rewrite store_ok by done. eexists. split; [reflexivity|].
    cbn [total_chunks rm_bits received_chunks]. rewrite Hbit, E, len_insert.
    set (bits' := <[_ := _]> (rm_bits r)).
    assert (Hj : forall j, 0 <= j -> bit_of bits' j = bool_decide (i = j) || bit_of (rm_bits r) j)
      by (intros; apply bit_set; done || lia).
    assert (Hn : len (have bits' (total_chunks r)) = len (have (rm_bits r) (total_chunks r)) + 1).
    { unfold have. eapply (filter_add _ _ _ i); [apply NoDup_indices|by apply in_indices|by rewrite Hbit, E|].
      intros j [? ?]%in_indices. rewrite Hj by lia. rewrite orb_true_iff, bool_decide_eq_true. naive_solver. }
    pose proof (have_le bits' (total_chunks r) ltac:(lia)). pose proof (len_nonneg (have (rm_bits r) (total_chunks r))).
    rewrite u32_small by lia. split_and!; try done; try lia. unfold rmap_ok. cbn [total_chunks rm_bits received_chunks].
    unfold bits' at 1 2 3. rewrite len_insert. split_and!; try lia.
    apply Forall_insert; [done|]. apply lor_u8; [done|apply u8_range].
  - assert (Hset : Z.testbit b (i mod 8) = true) by (rewrite mask_test in E by done; by destruct (Z.testbit b (i mod 8))).
    exists r. rewrite Hbit, Hset. split_and!; try done; [|lia]. intros j Hj. case_bool_decide; [|done].
    subst j. by rewrite Hbit, Hset.
Qed.

Lemma set_out_of_range r i : total_chunks r <= i -> sl_resume_map_set r i = Ok (-1, r).
Proof. intros H. unfold sl_resume_map_set. by rewrite (proj2 (Z.leb_le _ _)). Qed.

Lemma complete_spec r : rmap_ok r ->
  sl_resume_map_complete r = true <-> forall i, 0 <= i < total_chunks r -> bit_of (rm_bits r) i = true.
Proof.
  intros (Ht & _ & _ & _ & Hc). unfold sl_resume_map_complete. rewrite Z.eqb_eq, Hc. unfold have.
  rewrite <- (len_indices (total_chunks r)) at 2 by lia. split.
  - intros E i Hi. assert (Hf : Forall (fun i => bit_of (rm_bits r) i = true) (indices (total_chunks r))).
    { exact (proj1 (filter_len_all _ _) E). }
    rewrite Forall_forall in Hf. apply Hf. by apply in_indices.
  - intros H. apply (proj2 (filter_len_all _ _)), Forall_forall. intros i Hi%in_indices. by apply H.
Qed.

Definition lacks (bits : list Z) (total : Z) : list Z := filter (fun i => bit_of bits i = false) (indices total).

Lemma missing_spec r cap :
  rmap_ok r -> 0 <= cap ->
  sl_resume_map_missing r cap =
  Ok (take (Z.to_nat cap) (lacks (rm_bits r) (total_chunks r)), cap <? len (lacks (rm_bits r) (total_chunks r))).
Proof.
  intros Hr Hcap. unfold sl_resume_map_missing. pose proof Hr as (Ht & _).
  set (L := lacks (rm_bits r) (total_chunks r)).
  assert (Hpre : forall i, 0 <= i <= total_chunks r -> exists rest, L = lacks (rm_bits r) i ++ rest /\
      rest = filter (fun j => bit_of (rm_bits r) j = false) (map Z.of_nat (seq (Z.to_nat i) (Z.to_nat (total_chunks r - i))))).
  { intros i Hi. eexists. split; [|reflexivity]. unfold L, lacks, indices. rewrite <- filter_app, <- map_app.
    rewrite <- seq_app. do 4 f_equal. lia. }
  destruct (for_ret_inv (fun i found => found = lacks (rm_bits r) i /\ len found <= cap)
    (fun found => found = take (Z.to_nat cap) L /\ cap < len L)
    (fun i found => let! h := sl_resume_map_has r i in
      if h : bool then Ok (inl found) else if len found <? cap then Ok (inl (found ++ [i])) else Ok (inr found))
    (Z.to_nat (total_chunks r)) 0 []) as (x & -> & Hx).
  - split; [done|]. by change (@len Z []) with 0.
  - intros i found Hi [-> Hle]. rewrite has_spec by (done || lia). rewrite (proj2 (Z.ltb_lt _ _)) by lia. cbn [andb].
    assert (HS : lacks (rm_bits r) (i + 1) = lacks (rm_bits r) i ++ (if bit_of (rm_bits r) i then [] else [i])).
    { unfold lacks. rewrite indices_S, filter_app by lia. f_equal. destruct (bit_of (rm_bits r) i) eqn:E;
        [by rewrite filter_cons_False by congruence|by rewrite filter_cons_True]. }
    destruct (bit_of (rm_bits r) i) eqn:Eb; [eexists; split; [reflexivity|]; by rewrite HS, app_nil_r|].
    destruct (Z.ltb_spec (len (lacks (rm_bits r) i)) cap); eexists; (split; [reflexivity|]).
    + rewrite HS. split; [done|]. rewrite len_app. change (len [i]) with 1. lia.
    + destruct (Hpre (i + 1) ltac:(lia)) as (rest & E & _). rewrite HS in E. rewrite E, <- app_assoc. cbn [app].
      split; [rewrite take_app_exact; [done|lia]|]. rewrite len_app, len_cons. pose proof (len_nonneg rest). lia.
  - rewrite Z.add_0_l, Z2Nat.id in Hx by lia. destruct x as [found|found]; destruct Hx as [-> Hle].
    + fold L in Hle |- *. rewrite (proj2 (Z.ltb_ge _ _)), take_ge; [done|unfold len in Hle; lia|lia].
    + by rewrite (proj2 (Z.ltb_lt _ _)) by lia.
Qed.

(** ** The set of chunks *)

(** Marking a series of chunks; indices out of range are refused and change nothing. *)
Fixpoint mark_all (r : sl_resume_map_t) (l : list Z) : M sl_resume_map_t :=
  match l with
  | [] => Ok r
  | i :: l => let! '(_, r) := sl_resume_map_set r i in mark_all r l
  end.

Lemma mark_all_spec l : forall r, rmap_ok r -> Forall (fun i => 0 <= i) l ->
  exists r', mark_all r l = Ok r' /\ rmap_ok r' /\ total_chunks r' = total_chunks r /\
    len (rm_bits r') = len (rm_bits r) /\
    forall j, 0 <= j < total_chunks r -> bit_of (rm_bits r') j = bool_decide (j ∈ l) || bit_of (rm_bits r) j.
Proof.
  induction l as [|i l IH]; intros r Hr Hl; cbn [mark_all].
  { exists r. split_and!; try done. }
  apply Forall_cons in Hl as [Hi Hl]. destruct (decide (i < total_chunks r)) as [Hlt|Hge].
  - destruct (set_spec r i Hr ltac:(lia)) as (r1 & -> & Hr1 & Et & Elen & Hb & _).
    destruct (IH r1 Hr1 Hl) as (r2 & -> & Hr2 & Et2 & Elen2 & Hb2). exists r2. split_and!; try done; try congruence.
    intros j Hj. rewrite Hb2, Hb by lia. rewrite orb_assoc. f_equal.
    apply eq_true_iff_eq. rewrite orb_true_iff, !bool_decide_eq_true, elem_of_cons. naive_solver.
  - rewrite set_out_of_range by lia. destruct (IH r Hr Hl) as (r2 & -> & Hr2 & Et2 & Elen2 & Hb2).
    exists r2. split_and!; try done. intros j Hj. rewrite Hb2 by lia. f_equal. apply bool_decide_ext.
    rewrite elem_of_cons. naive_solver lia.
Qed.

(** The bitmap is the set of chunks marked: after any series of [set] calls, in any order and with
    repetitions, [has] answers membership, the counter is the size of the set, [complete] holds
    exactly when every chunk has been marked, and [missing] lists the first gaps in order and
    says whether there are more. *)
Theorem resume_map_refines_set total r l i cap :
  0 <= total <= UINT32_MAX - 7 -> sl_resume_map_init true total = Some r -> Forall (fun i => 0 <= i) l ->
  0 <= i -> 0 <= cap ->
  let gaps := filter (fun j => j ∉ l) (indices total) in
  exists r', mark_all r l = Ok r' /\
    sl_resume_map_has r' i = Ok (bool_decide (i < total /\ i ∈ l)) /\
    received_chunks r' = total - len gaps /\
    (sl_resume_map_complete r' = true <-> gaps = []) /\
    sl_resume_map_missing r' cap = Ok (take (Z.to_nat cap) gaps, cap <? len gaps).
Proof.
  intros Ht Hinit Hl Hi Hcap gaps. destruct (rmap_ok_init total r Ht Hinit) as (Hr & Et & Hh).
  destruct (mark_all_spec l r Hr Hl) as (r' & -> & Hr' & Et' & _ & Hb). rewrite Et in Et', Hb.
  assert (Hz : forall j, bit_of (rm_bits r) j = false).
  { unfold sl_resume_map_init in Hinit. cbn [negb] in Hinit.
    injection Hinit as <-. intros j. apply bit_zero. }
  assert (Hb' : forall j, 0 <= j < total -> bit_of (rm_bits r') j = bool_decide (j ∈ l)).
  { intros j Hj. rewrite Hb, Hz by done. apply orb_false_r. }
  assert (Hg : lacks (rm_bits r') total = gaps).
  { unfold lacks, gaps. apply filter_ext_in. intros j Hj%in_indices.
    rewrite Hb' by done. apply bool_decide_eq_false. }
  exists r'. split_and!; [done|..].
  - rewrite has_spec by done. rewrite Et'. destruct (Z.ltb_spec i total); cbn [andb].
    + rewrite Hb' by lia. f_equal. apply bool_decide_ext. naive_solver.
    + f_equal. symmetry. apply bool_decide_eq_false. naive_solver lia.
  - destruct Hr' as (_ & _ & _ & _ & ->). rewrite Et', <- Hg. unfold have, lacks.
    rewrite <- (len_indices total) at 2 by lia. clear. induction (indices total) as [|j js IH]; [done|].
    destruct (bit_of (rm_bits r') j) eqn:E.
    + rewrite (filter_cons_True _ j), (filter_cons_False _ j) by congruence. rewrite !len_cons. lia.
    + rewrite (filter_cons_False _ j), (filter_cons_True _ j) by congruence. rewrite !len_cons. lia.
  - rewrite complete_spec by done. rewrite Et'. split.
    + intros H. unfold gaps. apply filter_none. intros j Hj%in_indices Hn.
      specialize (H j Hj). rewrite Hb' in H by done. by apply bool_decide_eq_true in H.
    + intros E j Hj. rewrite Hb' by done. apply bool_decide_eq_true. destruct (decide (j ∈ l)); [done|]. exfalso.
      apply (not_elem_of_nil j). rewrite <- E. apply list_elem_of_filter. split; [done|by apply in_indices].
  - rewrite missing_spec by done. by rewrite Et', Hg.
Qed.

Lemma resume_map_refines_set_witness :
  exists r r', sl_resume_map_init true 10 = Some r /\ mark_all r [9; 2; 9; 40] = Ok r' /\
    received_chunks r' = 10 - len (filter (fun j => j ∉ [9; 2; 9; 40]) (indices 10)).
Proof.
  eexists. destruct (resume_map_refines_set 10 (mk_rmap [0; 0] 10 0) [9; 2; 9; 40] 3 4) as (r' & E & _ & Hc & _);
    [lia|reflexivity|repeat constructor; lia|lia|lia|].
  exists r'. split_and!; [reflexivity|exact E|exact Hc].
Defined.

(** ** Persistence *)

Lemma recount_loop bits total : forall n i r,
  rm_bits r = bits -> total_chunks r = total -> total <= 8 * len bits -> bytes_ok bits ->
  0 <= i -> i + Z.of_nat n = total -> total <= UINT32_MAX -> received_chunks r = len (have bits i) ->
  for_up n i (fun i r => let! h := sl_resume_map_has r i in
    Ok (if h : bool then mk_rmap (rm_bits r) (total_chunks r) (u32 (received_chunks r + 1)) else r)) r =
  Ok (mk_rmap bits total (len (have bits total))).
Proof.
  induction n as [|n IH]; intros i r Hb Ht Hl Hok Hi Hn Hm Hc; cbn [for_up].
  { replace total with i in * by lia. destruct r; cbn in *. by subst. }
  assert (Hd : 0 <= i / 8 < len bits) by (Z.div_mod_to_equations; lia).
  unfold sl_resume_map_has at 1. rewrite Ht, Hb. rewrite (proj2 (Z.leb_gt _ _)) by lia.
  destruct (load_in_bounds bits (i / 8) Hd) as (b & El & Eb). rewrite El, land_shiftr_1.
  assert (Hbit : bit_of bits i = Z.testbit b (i mod 8)) by (unfold bit_of; by rewrite Eb).
  assert (HS : have bits (i + 1) = have bits i ++ (if bit_of bits i then [i] else [])).
  { unfold have. rewrite indices_S, filter_app by lia. f_equal. destruct (bit_of bits i) eqn:E;
      [by rewrite filter_cons_True|by rewrite filter_cons_False by congruence]. }
  pose proof (have_le bits i Hi). pose proof (len_nonneg (have bits i)).
  rewrite <- Hbit. apply IH; try done; try lia.
  - by destruct (bit_of bits i).
  - by destruct (bit_of bits i).
  - rewrite HS. destruct (bit_of bits i); cbn [received_chunks]; [|by rewrite app_nil_r].
    rewrite Hc, len_app, u32_small by lia. done.
Qed.

(** A bitmap survives persistence: what [serialize] writes is read back by [deserialize] as the same
    map, with the counter recomputed from the bits. *)
Theorem resume_map_roundtrip r out tail :
  rmap_ok r -> 0 < total_chunks r -> bitmap_bytes (total_chunks r) <= len out ->
  exists n out', sl_resume_map_serialize r out = Ok (n, out') /\ n = bitmap_bytes (total_chunks r) /\
    sl_resume_map_deserialize true (take (Z.to_nat n) out' ++ tail) (total_chunks r) = Ok (Some r).
Proof.
  intros Hr Hpos Hlen. pose proof Hr as (Ht & Hl & Hb & Hsz & Hc). pose proof (bitmap_bytes_ok _ Ht) as [Hn0 Hn].
  set (n := bitmap_bytes (total_chunks r)) in *. unfold sl_resume_map_serialize. fold n.
  rewrite (proj2 (Z.ltb_ge _ _)) by lia. rewrite load_bytes_in_bounds by lia.
  change (Z.to_nat 0) with 0%nat. rewrite drop_0. set (w := take (Z.to_nat n) (rm_bits r)).
  assert (Hw : len w = n) by (apply len_take; lia).
  rewrite store_bytes_0 by lia. eexists _, _. split; [reflexivity|]. split; [done|].
  rewrite take_app_exact by done.
  unfold sl_resume_map_deserialize. fold n. rewrite len_app, Hw. pose proof (len_nonneg tail).
  rewrite (proj2 (Z.ltb_ge _ _)) by lia. unfold sl_resume_map_init. fold n. cbn [negb rm_bits total_chunks].
  rewrite load_bytes_front by done.
  rewrite (proj2 (Z.eqb_neq n 0)) by lia.
  rewrite store_bytes_0 by (rewrite len_replicate; lia).
  rewrite drop_ge by (rewrite length_replicate; unfold len in Hw; lia). rewrite app_nil_r.
  assert (Hbits : w = rm_bits r) by (unfold w; apply take_ge; unfold len in *; lia).
  rewrite Hbits. rewrite (recount_loop (rm_bits r) (total_chunks r)); try done; try lia.
  rewrite <- Hc. by destruct r.
Qed.

Lemma resume_map_roundtrip_witness :
  exists n out', sl_resume_map_serialize (mk_rmap [4; 2] 10 2) [7; 7; 7] = Ok (n, out') /\ n = 2 /\
    sl_resume_map_deserialize true (take (Z.to_nat n) out' ++ [9]) 10 = Ok (Some (mk_rmap [4; 2] 10 2)).
Proof.
  apply (resume_map_roundtrip (mk_rmap [4; 2] 10 2) [7; 7; 7] [9]);
    [split_and!; by_deciding|vm_compute; reflexivity|vm_compute; discriminate].
Defined.

(** ** Very large maps *)

(** From [2^32 - 7] chunks on, the size of the bitmap wraps to nothing: one byte is allocated, and the
    first mark past it writes outside. *)
Lemma resume_map_size_wraps :
  exists r, sl_resume_map_init true UINT32_MAX = Some r /\ len (rm_bits r) = 1 /\ sl_resume_map_set r 8 = Fault.
Proof. exists (mk_rmap [0] UINT32_MAX 0). split; [reflexivity|]. split; reflexivity. Qed.
