(* ===== verification/FileTransfer.v ===== *)
(** File transfer: the streaming digest (sl_sha256_stream.c), the sender (file_sender.cpp) and the
    receiver (file_receiver.cpp).  A file on disk is the list of its bytes; the outcomes of the
    system calls and of the OpenSSL calls are arguments: a list of counts gives how much each
    read or pwrite transfers (a count of 0 or less is an error; when the list ends, calls
    transfer all they can). *)

From S2P Require Import Prelude ByteOrder Codec Mem Crc32 KeySched FileMeta FileChunk TokenBucket ResumeMap.
Local Open Scope Z_scope.

(** The number of bytes one call transfers when [want] are possible; -1 is an error. *)
Definition transfers (outs : list Z) (want : Z) : Z :=
  match outs with
  | [] => want
  | k :: _ => if k <=? 0 then -1 else Z.min k want
  end.

Section FileTransfer.
Context `{HashLaws}.

(** ** The streaming digest *)

(** The context of EVP_DigestUpdate is what it has absorbed. *)
(* src/src/sl_sha256_stream.c:6-10 *)
Record sl_sha256_stream := mk_stream { hs_input : list Z; hs_bytes : Z; hs_finalized : bool }.

(* src/src/sl_sha256_stream.c:12-23 *)
Definition sl_sha256_stream_new (alloc evp_new evp_init : bool) : option sl_sha256_stream :=
  if negb alloc then None
  else if negb evp_new then None
  else if negb evp_init then None
  else Some (mk_stream [] 0 false).

(* src/src/sl_sha256_stream.c:31-39 *)
Definition sl_sha256_stream_update (evp : bool) (h : sl_sha256_stream) (data : list Z) : Z * sl_sha256_stream :=
  if hs_finalized h then (-1, h)
  else if len data =? 0 then (0, h)
  else if negb evp then (-1, h)
  else (0, mk_stream (hs_input h ++ data) (u64 (hs_bytes h + len data)) (hs_finalized h)).

(* src/src/sl_sha256_stream.c:41-49 *)
Definition sl_sha256_stream_finalize (evp : bool) (h : sl_sha256_stream) : option (list Z) * sl_sha256_stream :=
  if hs_finalized h then (None, h)
  else if negb evp then (None, h)
  else
    let d := sha256 (hs_input h) in
    if negb (len d =? 32) then (None, h)
    else (Some d, mk_stream (hs_input h) (hs_bytes h) true).

(* src/src/sl_sha256_stream.c:51-53 *)
Definition sl_sha256_stream_bytes (h : sl_sha256_stream) : Z := hs_bytes h.

(** [for (;;) { n = read(...); if (n < 0) fail; if (n == 0) break; update(...); }]: the loop both sides
    run over a whole file, whose length bounds the rounds. The result of the update is ignored. *)
(* src/src/file_receiver.cpp:99-104 [on_chunk] *)
Fixpoint hash_loop (fuel : nat) (bufsize : Z) (outs : list Z) (evps : list bool) (rest : list Z) (h : sl_sha256_stream)
  : M (bool * sl_sha256_stream) :=
  match fuel with
  | O => Fault
  | S fuel =>
      let n := transfers outs (Z.min bufsize (len rest)) in
      if n <? 0 then Ok (false, h)
      else if n =? 0 then Ok (true, h)
      else
        let '(_, h) := sl_sha256_stream_update (default true (head evps)) h (take (Z.to_nat n) rest) in
        hash_loop fuel bufsize (tail outs) (tail evps) (drop (Z.to_nat n) rest) h
  end.

(** ** The sender *)

(* src/inc/file_sender.hpp:28-32 *)
Record FileSenderStats := mk_tx_stats { chunks_sent : Z; bytes_sent : Z; throttle_hits : Z }.

(* src/inc/file_sender.hpp:57-64 [FileSender] *)
Record FileSender := mk_sender
  { tx_wire_name : list Z; tx_chunk_size : Z; tx_fd : option (list Z); tx_meta : sl_file_meta_t;
    tx_next_idx : Z; tx_bucket : option sl_token_bucket_t; tx_stats : FileSenderStats; tx_crc : crc_statics }.

Definition zero_meta : sl_file_meta_t := mk_meta 0 0 0 0 0 (replicate 32 0) (replicate 257 0) 0.

(* src/src/file_sender.cpp:14-19 [FileSender] *)
Definition new_sender (wire_name : list Z) (chunk_size : Z) (crc : crc_statics) : FileSender :=
  mk_sender wire_name chunk_size None zero_meta 0 None (mk_tx_stats 0 0 0) crc.

(** What the system answers while a file is opened: the file with its mode and time, and the outcomes
    of fstat, of the allocations of the digest, of both lseek calls, of the reads and of OpenSSL. *)
Record open_env := mk_open
  { oe_file : option (list Z * Z * Z); oe_fstat : bool; oe_stream : bool; oe_lseek1 : bool; oe_lseek2 : bool;
    oe_reads : list Z; oe_evps : list bool; oe_final : bool }.

Definition with_meta (s : FileSender) (m : sl_file_meta_t) : FileSender :=
  mk_sender (tx_wire_name s) (tx_chunk_size s) (tx_fd s) m (tx_next_idx s) (tx_bucket s) (tx_stats s) (tx_crc s).

(* src/src/file_sender.cpp:34-68 *)
Definition compute_meta (e : open_env) (s : FileSender) (bytes : list Z) (mode mtime : Z) : M (bool * FileSender) :=
  if negb (oe_fstat e) then Ok (false, s) else
  let m := tx_meta s in
  let total := u64 (len bytes) in
  let chunks := if total =? 0 then 0 else u32 (u64 (u64 (total + tx_chunk_size s) - 1) / tx_chunk_size s) in
  let m := mk_meta total (tx_chunk_size s) chunks (Z.land mode 511) (u32 mtime) (fm_sha256 m) (fm_name m) (fm_name_len m) in
  match sl_sha256_stream_new (oe_stream e) (oe_stream e) (oe_stream e) with
  | None => Ok (false, with_meta s m)
  | Some h =>
      if negb (oe_lseek1 e) then Ok (false, with_meta s m) else
      let! '(ok, h) := hash_loop (S (length bytes)) (tx_chunk_size s) (oe_reads e) (oe_evps e) bytes h in
      if negb ok then Ok (false, with_meta s m) else
          let '(d, _) := sl_sha256_stream_finalize (oe_final e) h in
          let m := mk_meta (fm_total_size m) (fm_chunk_size m) (fm_total_chunks m) (fm_mode m) (fm_mtime_s m)
                     (default (fm_sha256 m) d) (fm_name m) (fm_name_len m) in
          if SL_FILE_NAME_MAX <? len (tx_wire_name s) then Ok (false, with_meta s m) else
          let! name := store_bytes (fm_name m) 0 (tx_wire_name s) in
          let! name := store name (len (tx_wire_name s)) 0 in
          let m := mk_meta (fm_total_size m) (fm_chunk_size m) (fm_total_chunks m) (fm_mode m) (fm_mtime_s m)
                     (fm_sha256 m) name (u16 (len (tx_wire_name s))) in
          if negb (oe_lseek2 e) then Ok (false, with_meta s m) else
          let s := mk_sender (tx_wire_name s) (tx_chunk_size s) (tx_fd s) m 0 (tx_bucket s) (tx_stats s) (tx_crc s) in
          let! v := sl_file_meta_validate m in
          Ok (v =? 0, s)
  end.

(* src/src/file_sender.cpp:25-32 [open] *)
Definition tx_open (e : open_env) (s : FileSender) : M (bool * FileSender) :=
  if (tx_chunk_size s <? SL_FILE_CHUNK_MIN) || (SL_FILE_CHUNK_MAX <? tx_chunk_size s) then Ok (false, s) else
  match oe_file e with
  | None => Ok (false, s)
  | Some (bytes, mode, mtime) =>
      let s := mk_sender (tx_wire_name s) (tx_chunk_size s) (Some bytes) (tx_meta s) (tx_next_idx s) (tx_bucket s)
                 (tx_stats s) (tx_crc s) in
      compute_meta e s bytes mode mtime
  end.

(** The frame handed to the send callback, and what it answered. *)
(* src/src/file_sender.cpp:70-76 *)
Definition send_meta (send : list Z -> bool) (s : FileSender) : M (bool * option (list Z)) :=
  let wire := replicate (Z.to_nat (SL_FILE_META_FIXED_LEN + fm_name_len (tx_meta s))) 0 in
  let! '(n, wire) := sl_file_meta_pack (tx_meta s) wire in
  if n <? 0 then Ok (false, None)
  else let wire := take (Z.to_nat n) wire in Ok (send wire, Some wire).

(* src/src/file_sender.cpp:122-124 *)
Definition has_more (s : FileSender) : bool := tx_next_idx s <? fm_total_chunks (tx_meta s).

(** The outcomes of one send: the clock of the bucket, lseek, the read, and the callback. *)
Record send_env := mk_send { se_now : Z; se_lseek : bool; se_read : list Z; se_send : list Z -> bool }.

(* src/src/file_sender.cpp:89-113 [send_next_chunk] *)
Definition send_chunk_body (e : send_env) (s : FileSender) : M (bool * option (list Z) * FileSender) :=
  if negb (se_lseek e) then Ok (false, None, s) else
  let off := u64 (tx_next_idx s * tx_chunk_size s) in
  let rest := drop (Z.to_nat off) (default [] (tx_fd s)) in
  let got := transfers (se_read e) (Z.min (tx_chunk_size s) (len rest)) in
  if got <=? 0 then Ok (false, None, s) else
  let data := take (Z.to_nat got) rest in
  let flags := if u32 (tx_next_idx s + 1) =? fm_total_chunks (tx_meta s) then SL_FILE_CHUNK_FLAG_LAST else 0 in
  let c := mk_chunk (tx_next_idx s) (u32 (len data)) 0 flags (Some data) in
  let wire := replicate (Z.to_nat (SL_FILE_CHUNK_HEADER_LEN + len data)) 0 in
  let! '(n, wire, crc) := sl_file_chunk_pack (tx_crc s) c wire in
  let s := mk_sender (tx_wire_name s) (tx_chunk_size s) (tx_fd s) (tx_meta s) (tx_next_idx s) (tx_bucket s) (tx_stats s) crc in
  if n <? 0 then Ok (false, None, s) else
  let wire := take (Z.to_nat n) wire in
  if negb (se_send e wire) then Ok (false, Some wire, s) else
  let st := mk_tx_stats (u32 (chunks_sent (tx_stats s) + 1)) (u64 (bytes_sent (tx_stats s) + len data)) (throttle_hits (tx_stats s)) in
  Ok (true, Some wire, mk_sender (tx_wire_name s) (tx_chunk_size s) (tx_fd s) (tx_meta s) (u32 (tx_next_idx s + 1)) (tx_bucket s) st (tx_crc s)).

(* src/src/file_sender.cpp:78-114 *)
Definition send_next_chunk (e : send_env) (s : FileSender) : M (bool * option (list Z) * FileSender) :=
  if negb (has_more s) then Ok (false, None, s) else
  match tx_bucket s with
  | None => send_chunk_body e s
  | Some tb =>
      let '(rc, tb) := sl_token_bucket_try_take (se_now e) tb (tx_chunk_size s) in
      if negb (rc =? 0) then
        let st := mk_tx_stats (chunks_sent (tx_stats s)) (bytes_sent (tx_stats s)) (u32 (throttle_hits (tx_stats s) + 1)) in
        Ok (false, None, mk_sender (tx_wire_name s) (tx_chunk_size s) (tx_fd s) (tx_meta s) (tx_next_idx s) (Some tb) st (tx_crc s))
      else
        send_chunk_body e (mk_sender (tx_wire_name s) (tx_chunk_size s) (tx_fd s) (tx_meta s) (tx_next_idx s) (Some tb) (tx_stats s) (tx_crc s))
  end.

(* src/src/file_sender.cpp:116-120 *)
Definition seek_chunk (s : FileSender) (i : Z) : bool * FileSender :=
  if fm_total_chunks (tx_meta s) <? i then (false, s)
  else (true, mk_sender (tx_wire_name s) (tx_chunk_size s) (tx_fd s) (tx_meta s) i (tx_bucket s) (tx_stats s) (tx_crc s)).

(* src/src/file_sender.cpp:126-130 *)
Definition set_throttle (s : FileSender) (capacity rate : Z) : FileSender :=
  mk_sender (tx_wire_name s) (tx_chunk_size s) (tx_fd s) (tx_meta s) (tx_next_idx s)
    (Some (sl_token_bucket_init capacity rate)) (tx_stats s) (tx_crc s).

(** ** The receiver *)

(* src/inc/file_receiver.hpp:17-25 *)
Inductive FileRxResult :=
  kAccepted | kDuplicate | kBadChunk | kBadMeta | kComplete | kHashMismatch | kIoError.

(* src/inc/file_receiver.hpp:27-32 *)
Record FileReceiverStats := mk_rx_stats { chunks_received : Z; duplicates : Z; bad_chunks : Z; bytes_received : Z }.

(* src/inc/file_receiver.hpp:60-68 [FileReceiver] *)
Record FileReceiver := mk_receiver
  { rx_dest_dir : list Z; rx_dest_path : list Z; rx_fd : option (list Z); rx_meta_set : bool; rx_meta : sl_file_meta_t;
    rx_resume : sl_resume_map_t; rx_hasher : option sl_sha256_stream; rx_hash_done : bool;
    rx_stats : FileReceiverStats; rx_crc : crc_statics }.

(* src/src/file_receiver.cpp:14-15 [FileReceiver] *)
Definition new_receiver (dir : list Z) (crc : crc_statics) : FileReceiver :=
  mk_receiver dir [] None false zero_meta (mk_rmap [] 0 0) None false (mk_rx_stats 0 0 0 0) crc.

(** The outcomes of on_meta: the bitmap, the digest, the open and the ftruncate. *)
Record meta_env := mk_menv { me_resume : bool; me_stream : bool; me_open : bool; me_truncate : bool }.

(** The path joins the directory and the name; the file is truncated, then extended with zeros. *)
(* src/src/file_receiver.cpp:23-31 *)
Definition open_dest_file (e : meta_env) (r : FileReceiver) : bool * FileReceiver :=
  let path := rx_dest_dir r ++ [47] ++ file_name (rx_meta r) in
  let put fd := mk_receiver (rx_dest_dir r) path fd (rx_meta_set r) (rx_meta r) (rx_resume r) (rx_hasher r) (rx_hash_done r) (rx_stats r) (rx_crc r) in
  if negb (me_open e) then (false, put None)
  else if 0 <? fm_total_size (rx_meta r) then
    if negb (me_truncate e) then (false, put (Some []))
    else (true, put (Some (replicate (Z.to_nat (fm_total_size (rx_meta r))) 0)))
  else (true, put (Some [])).

(* src/src/file_receiver.cpp:33-46 *)
Definition on_meta (e : meta_env) (r : FileReceiver) (wire : list Z) : M (FileRxResult * FileReceiver) :=
  if rx_meta_set r then Ok (kBadMeta, r) else
  let! o := sl_file_meta_unpack wire in
  match o with
  | None => Ok (kBadMeta, r)
  | Some m =>
      let put rm h := mk_receiver (rx_dest_dir r) (rx_dest_path r) (rx_fd r) false m rm h (rx_hash_done r) (rx_stats r) (rx_crc r) in
      match sl_resume_map_init (me_resume e) (fm_total_chunks m) with
      | None => Ok (kIoError, put (rx_resume r) (rx_hasher r))
      | Some rm =>
          match sl_sha256_stream_new (me_stream e) (me_stream e) (me_stream e) with
          | None => Ok (kIoError, put rm None)
          | Some h =>
              let '(ok, r) := open_dest_file e (put rm (Some h)) in
              if negb ok then Ok (kIoError, r)
              else Ok (kAccepted, mk_receiver (rx_dest_dir r) (rx_dest_path r) (rx_fd r) true (rx_meta r) (rx_resume r)
                                    (rx_hasher r) (rx_hash_done r) (rx_stats r) (rx_crc r))
          end
      end
  end.

(** pwrite past the end fills the gap with zeros. *)
Definition pwrite (disk : list Z) (off : Z) (bs : list Z) : list Z :=
  take (Z.to_nat off) (disk ++ replicate (Z.to_nat (off - len disk)) 0) ++ bs ++ drop (Z.to_nat (off + len bs)) disk.

(** The result is whether all was written. *)
(* src/src/file_receiver.cpp:76-83 [on_chunk] *)
Fixpoint pwrite_loop (fuel : nat) (outs : list Z) (data : list Z) (off : Z) (disk : list Z) : M (bool * list Z) :=
  match data with
  | [] => Ok (true, disk)
  | _ :: _ =>
      match fuel with
      | O => Fault
      | S fuel =>
          let n := transfers outs (len data) in
          if n <=? 0 then Ok (false, disk)
          else pwrite_loop fuel (tail outs) (drop (Z.to_nat n) data) (off + n) (pwrite disk off (take (Z.to_nat n) data))
      end
  end.

(** The outcomes of on_chunk. *)
Record chunk_env := mk_cenv { ce_pwrite : list Z; ce_lseek : bool; ce_reads : list Z; ce_evps : list bool; ce_final : bool }.

Definition with_stats (r : FileReceiver) (st : FileReceiverStats) : FileReceiver :=
  mk_receiver (rx_dest_dir r) (rx_dest_path r) (rx_fd r) (rx_meta_set r) (rx_meta r) (rx_resume r) (rx_hasher r)
    (rx_hash_done r) st (rx_crc r).
Definition with_disk (r : FileReceiver) (d : list Z) : FileReceiver :=
  mk_receiver (rx_dest_dir r) (rx_dest_path r) (Some d) (rx_meta_set r) (rx_meta r) (rx_resume r) (rx_hasher r)
    (rx_hash_done r) (rx_stats r) (rx_crc r).
Definition with_resume (r : FileReceiver) (m : sl_resume_map_t) : FileReceiver :=
  mk_receiver (rx_dest_dir r) (rx_dest_path r) (rx_fd r) (rx_meta_set r) (rx_meta r) m (rx_hasher r)
    (rx_hash_done r) (rx_stats r) (rx_crc r).
Definition with_hasher (r : FileReceiver) (h : sl_sha256_stream) (done : bool) : FileReceiver :=
  mk_receiver (rx_dest_dir r) (rx_dest_path r) (rx_fd r) (rx_meta_set r) (rx_meta r) (rx_resume r) (Some h)
    done (rx_stats r) (rx_crc r).
Definition with_rx_crc (r : FileReceiver) (s : crc_statics) : FileReceiver :=
  mk_receiver (rx_dest_dir r) (rx_dest_path r) (rx_fd r) (rx_meta_set r) (rx_meta r) (rx_resume r) (rx_hasher r)
    (rx_hash_done r) (rx_stats r) s.

Definition bad_chunk (r : FileReceiver) : FileRxResult * FileReceiver :=
  let st := rx_stats r in
  (kBadChunk, with_stats r (mk_rx_stats (chunks_received st) (duplicates st) (u32 (bad_chunks st + 1)) (bytes_received st))).

(** The digest of the file on disk, once every chunk is there. *)
(* src/src/file_receiver.cpp:95-113 [on_chunk] *)
Definition verify_file (e : chunk_env) (r : FileReceiver) : M (FileRxResult * FileReceiver) :=
  if rx_hash_done r then Ok (kComplete, r) else
  if negb (ce_lseek e) then Ok (kIoError, r) else
  match rx_hasher r, rx_fd r with
  | Some h, Some disk =>
      let! '(ok, h) := hash_loop (S (length disk)) 16384 (ce_reads e) (ce_evps e) disk h in
      if negb ok then Ok (kIoError, with_hasher r h false) else
          let '(d, h) := sl_sha256_stream_finalize (ce_final e) h in
          match d with
          | None => Ok (kIoError, with_hasher r h false)
          | Some digest =>
              let r := with_hasher r h true in
              let! eq := sl_ct_equal digest (fm_sha256 (rx_meta r)) 32 in
              if negb (eq =? 1) then Ok (kHashMismatch, r) else Ok (kComplete, r)
          end
  | _, _ => Fault
  end.

(* src/src/file_receiver.cpp:74-92 [on_chunk] *)
Definition store_chunk (e : chunk_env) (r : FileReceiver) (c : sl_file_chunk_t) : M (FileRxResult * FileReceiver) :=
  let off := u64 (fc_index c * fm_chunk_size (rx_meta r)) in
  match rx_fd r with
  | None => Fault
  | Some disk =>
      let! '(ok, disk) := pwrite_loop (length (chunk_bytes c)) (ce_pwrite e) (chunk_bytes c) off disk in
      let r := with_disk r disk in
      if negb ok then Ok (kIoError, r) else
      let! '(_, rm) := sl_resume_map_set (rx_resume r) (fc_index c) in
      let st := rx_stats r in
      let r := with_stats (with_resume r rm)
                 (mk_rx_stats (u32 (chunks_received st + 1)) (duplicates st) (bad_chunks st) (u64 (bytes_received st + fc_data_len c))) in
      if negb (sl_resume_map_complete rm) then Ok (kAccepted, r) else verify_file e r
  end.

(* src/src/file_receiver.cpp:48-114 *)
Definition on_chunk (e : chunk_env) (r : FileReceiver) (wire : list Z) : M (FileRxResult * FileReceiver) :=
  if negb (rx_meta_set r) then Ok (kBadMeta, r) else
  let! o := sl_file_chunk_unpack wire in
  match o with
  | None => Ok (bad_chunk r)
  | Some c =>
      let m := rx_meta r in
      if fm_total_chunks m <=? fc_index c then Ok (bad_chunk r)
      else if fm_chunk_size m <? fc_data_len c then Ok (bad_chunk r)
      else if (u32 (fc_index c + 1) <? fm_total_chunks m) && negb (fc_data_len c =? fm_chunk_size m) then Ok (bad_chunk r)
      else
        let! '(ok, crc) := sl_file_chunk_crc_ok (rx_crc r) c in
        let r := with_rx_crc r crc in
        if negb ok then Ok (bad_chunk r) else
        let! has := sl_resume_map_has (rx_resume r) (fc_index c) in
        if has : bool then
          let st := rx_stats r in
          Ok (kDuplicate, with_stats r (mk_rx_stats (chunks_received st) (u32 (duplicates st + 1)) (bad_chunks st) (bytes_received st)))
        else store_chunk e r c
  end.

(* src/src/file_receiver.cpp:116-118 *)
Definition is_complete (r : FileReceiver) : bool :=
  rx_meta_set r && sl_resume_map_complete (rx_resume r) && rx_hash_done r.

(* src/src/file_receiver.cpp:124-131 *)
Definition missing_chunks (r : FileReceiver) (max : Z) : M (list Z) :=
  let! '(l, _) := sl_resume_map_missing (rx_resume r) max in Ok l.

(** ** Loops over files *)

Definition positive (outs : list Z) : Prop := Forall (fun k => 0 < k) outs.

Lemma transfers_range outs want : 0 <= want -> transfers outs want <= want.
Proof. intros. unfold transfers. destruct outs as [|k outs]; [lia|]. destruct (Z.leb_spec k 0); lia. Qed.

Lemma transfers_positive outs want : positive outs -> 0 < want -> 0 < transfers outs want <= want.
Proof.
  intros Ho Hw. unfold transfers. destruct outs as [|k outs]; [lia|]. apply Forall_cons in Ho as [Hk _].
  rewrite (proj2 (Z.leb_gt _ _)) by lia. lia.
Qed.

Lemma transfers_zero outs : positive outs -> transfers outs 0 = 0.
Proof.
  intros Ho. unfold transfers. destruct outs as [|k outs]; [done|]. apply Forall_cons in Ho as [Hk _].
  rewrite (proj2 (Z.leb_gt _ _)) by lia. lia.
Qed.

Lemma positive_tail outs : positive outs -> positive (tail outs).
Proof. intros Ho. destruct outs; [done|]. by apply Forall_cons in Ho as [_ ?]. Qed.

(** No update of the digest failed. *)
Definition absorbed (evps : list bool) : Prop := Forall (eq true) evps.

Lemma absorbed_tail evps : absorbed evps -> default true (head evps) = true /\ absorbed (tail evps).
Proof. intros Ha. destruct Ha as [|x l Hx Hl]; [by split; [|constructor]|by split]. Qed.

(** The loop ends, and absorbs the whole file unless a read or an update fails. *)
Lemma hash_loop_total fuel : forall buf outs evps rest h,
  0 < buf -> (length rest < fuel)%nat -> hs_finalized h = false ->
  exists ok h', hash_loop fuel buf outs evps rest h = Ok (ok, h') /\ hs_finalized h' = false /\
    (ok = true -> absorbed evps -> hs_input h' = hs_input h ++ rest) /\ (positive outs -> ok = true).
Proof.
  induction fuel as [|f IH]; intros buf outs evps rest h Hbuf Hf Hh; [lia|]. cbn [hash_loop].
  pose proof (len_nonneg rest). set (want := Z.min buf (len rest)).
  pose proof (transfers_range outs want ltac:(lia)) as Hr. set (n := transfers outs want) in *.
  destruct (Z.ltb_spec n 0).
  { eexists _, _. split_and!; [done..|]. intros Hp. destruct (decide (len rest = 0)) as [E|E].
    - unfold n, want in *. rewrite E, Z.min_r, transfers_zero in * by (done || lia). lia.
    - pose proof (transfers_positive outs want Hp ltac:(lia)). lia. }
  destruct (Z.eqb_spec n 0) as [E0|E0].
  { assert (Hz : len rest = 0 \/ ~ positive outs).
    { destruct (decide (len rest = 0)) as [|Hne]; [by left|right]. intros Hp.
      pose proof (transfers_positive outs want Hp ltac:(lia)). lia. }
    assert (Hz' : len rest = 0).
    { unfold n, transfers, want in E0. destruct outs as [|k outs]; [lia|]. destruct (Z.leb_spec k 0); lia. }
    apply len_0_nil in Hz'. subst rest. eexists _, _. split_and!; [done..| |done]. intros _ _. by rewrite app_nil_r. }
  unfold sl_sha256_stream_update. rewrite Hh.
  assert (Hl : len (take (Z.to_nat n) rest) = n) by (apply len_take; lia).
  rewrite Hl, (proj2 (Z.eqb_neq n 0)) by done.
  assert (Hlt : (length (drop (Z.to_nat n) rest) < f)%nat) by (rewrite length_drop; unfold len in *; lia).
  destruct (default true (head evps)) eqn:Eh; cbn [negb].
  - destruct (IH buf (tail outs) (tail evps) (drop (Z.to_nat n) rest)
      (mk_stream (hs_input h ++ take (Z.to_nat n) rest) (u64 (hs_bytes h + n)) false)) as (ok & h' & -> & Hf' & Hin & Hok); try done.
    exists ok, h'. split_and!; [done..| |].
    + intros Eok Ha. rewrite (Hin Eok) by (by apply absorbed_tail). cbn [hs_input]. by rewrite <- app_assoc, take_drop.
    + intros Hp. apply Hok. by apply positive_tail.
  - destruct (IH buf (tail outs) (tail evps) (drop (Z.to_nat n) rest) h) as (ok & h' & -> & Hf' & Hin & Hok); try done.
    exists ok, h'. split_and!; [done..| |].
    + intros _ Ha%absorbed_tail. destruct Ha. congruence.
    + intros Hp. apply Hok. by apply positive_tail.
Qed.

Lemma pwrite_in_bounds disk off bs :
  0 <= off -> off + len bs <= len disk ->
  pwrite disk off bs = take (Z.to_nat off) disk ++ bs ++ drop (Z.to_nat (off + len bs)) disk.
Proof.
  intros Ho Hl. unfold pwrite. pose proof (len_nonneg bs).
  replace (Z.to_nat (off - len disk)) with 0%nat by lia. simpl. by rewrite app_nil_r.
Qed.

Lemma len_pwrite disk off bs : 0 <= off -> off + len bs <= len disk -> len (pwrite disk off bs) = len disk.
Proof.
  intros Ho Hl. pose proof (len_nonneg bs). rewrite pwrite_in_bounds by done.
  rewrite !len_app, len_take, len_drop by lia. lia.
Qed.

Lemma pwrite_lookup disk off bs p :
  0 <= off -> off + len bs <= len disk ->
  pwrite disk off bs !! p =
  if decide (off <= Z.of_nat p < off + len bs) then bs !! Z.to_nat (Z.of_nat p - off) else disk !! p.
Proof.
  intros Ho Hl. pose proof (len_nonneg bs). rewrite pwrite_in_bounds by done.
  assert (Ht : length (take (Z.to_nat off) disk) = Z.to_nat off) by (rewrite length_take; unfold len in *; lia).
  destruct (decide (Z.of_nat p < off)).
  - rewrite decide_False by lia. rewrite lookup_app_l by lia. by rewrite lookup_take_lt by lia.
  - rewrite lookup_app_r by lia. rewrite Ht. case_decide.
    + rewrite lookup_app_l by (unfold len in *; lia). f_equal. lia.
    + rewrite lookup_app_r by (unfold len in *; lia). rewrite lookup_drop. f_equal. unfold len in *. lia.
Qed.

Lemma pwrite_nil disk off : 0 <= off <= len disk -> pwrite disk off [] = disk.
Proof.
  intros Ho. rewrite pwrite_in_bounds by (rewrite ?len_nil; lia). rewrite len_nil, Z.add_0_r. cbn [app].
  apply take_drop.
Qed.

Lemma pwrite_pwrite disk off a b :
  0 <= off -> off + len a + len b <= len disk ->
  pwrite (pwrite disk off a) (off + len a) b = pwrite disk off (a ++ b).
Proof.
  intros Ho Hl. pose proof (len_nonneg a). pose proof (len_nonneg b).
  apply list_eq. intros p. rewrite pwrite_lookup by (rewrite ?len_pwrite; lia).
  rewrite !pwrite_lookup by (rewrite ?len_app; lia). rewrite len_app.
  repeat case_decide; try lia; [..|done].
  - rewrite lookup_app_r by (unfold len in *; lia). f_equal. unfold len. lia.
  - rewrite lookup_app_l by (unfold len in *; lia). done.
Qed.

Lemma pwrite_loop_total fuel : forall outs data off disk,
  (length data <= fuel)%nat -> exists ok d, pwrite_loop fuel outs data off disk = Ok (ok, d).
Proof.
  induction fuel as [|f IH]; intros outs data off disk Hf; destruct data as [|x data]; cbn [pwrite_loop]; eauto; [simpl in Hf; lia|].
  set (n := transfers outs _). destruct (Z.leb_spec n 0); [eauto|]. apply IH. rewrite length_drop. simpl in *. lia.
Qed.

Lemma pwrite_loop_spec fuel : forall outs data off disk,
  (length data <= fuel)%nat -> positive outs -> 0 <= off -> off + len data <= len disk ->
  pwrite_loop fuel outs data off disk = Ok (true, pwrite disk off data).
Proof.
  induction fuel as [|f IH]; intros outs data off disk Hf Hp Ho Hl.
  - destruct data; [|simpl in Hf; lia]. cbn [pwrite_loop]. rewrite len_nil in Hl. by rewrite pwrite_nil by lia.
  - destruct (decide (data = [])) as [->|Hne].
    { cbn [pwrite_loop]. rewrite len_nil in Hl. by rewrite pwrite_nil by lia. }
    assert (Hpos : 0 < len data) by (destruct data; [done|]; rewrite len_cons; pose proof (len_nonneg data); lia).
    pose proof (transfers_positive outs (len data) Hp Hpos) as Hn.
    assert (E : pwrite_loop (S f) outs data off disk =
      let n := transfers outs (len data) in
      if n <=? 0 then Ok (false, disk)
      else pwrite_loop f (tail outs) (drop (Z.to_nat n) data) (off + n) (pwrite disk off (take (Z.to_nat n) data)))
      by (by destruct data).
    rewrite E. cbv zeta. set (n := transfers outs (len data)) in *. rewrite (proj2 (Z.leb_gt _ _)) by lia.
    assert (Ht : len (take (Z.to_nat n) data) = n) by (apply len_take; lia).
    assert (Hd : len (drop (Z.to_nat n) data) = len data - n) by (apply len_drop; lia).
    rewrite IH; [|rewrite length_drop; unfold len in *; lia|by apply positive_tail|lia|rewrite len_pwrite by lia; lia].
    rewrite <- Ht at 2. rewrite pwrite_pwrite by lia. by rewrite take_drop.
Qed.
(** ** The receiver's invariant *)

Definition rx_ok (r : FileReceiver) : Prop :=
  rx_meta_set r = true /\ statics_ok (rx_crc r) /\ rmap_ok (rx_resume r) /\
  total_chunks (rx_resume r) = fm_total_chunks (rx_meta r) /\
  len (fm_sha256 (rx_meta r)) = 32 /\ bytes_ok (fm_sha256 (rx_meta r)) /\
  1024 <= fm_chunk_size (rx_meta r) <= 65536 /\
  exists disk h, rx_fd r = Some disk /\ rx_hasher r = Some h /\
    (sl_resume_map_complete (rx_resume r) = false ->
     hs_input h = [] /\ hs_finalized h = false /\ rx_hash_done r = false).

Definition verified (r : FileReceiver) : Prop :=
  is_complete r = true /\ exists disk, rx_fd r = Some disk /\ sha256 disk = fm_sha256 (rx_meta r).

Lemma rx_ok_stats r st crc : rx_ok r -> statics_ok crc -> rx_ok (with_stats (with_rx_crc r crc) st).
Proof. intros (? & ? & ? & ? & ? & ? & ? & Hx) ?. repeat (split; [done|]). exact Hx. Qed.

Lemma rx_ok_bad r : rx_ok r -> rx_ok (bad_chunk r).2.
Proof. intros (? & ? & ? & ? & ? & ? & ? & Hx). repeat (split; [done|]). exact Hx. Qed.

Lemma verify_file_ok e r disk h :
  rx_ok r -> rx_fd r = Some disk -> rx_hasher r = Some h -> hs_input h = [] -> hs_finalized h = false ->
  rx_hash_done r = false -> sl_resume_map_complete (rx_resume r) = true ->
  exists res r', verify_file e r = Ok (res, r') /\ rx_ok r' /\ rx_meta r' = rx_meta r /\ rx_resume r' = rx_resume r /\
    rx_fd r' = rx_fd r /\ (res = kComplete -> is_complete r' = true /\ (absorbed (ce_evps e) -> verified r')) /\
    (sha256 disk = fm_sha256 (rx_meta r) -> ce_lseek e = true -> positive (ce_reads e) -> absorbed (ce_evps e) ->
     ce_final e = true -> res = kComplete).
Proof.
  intros Hok Hd Hh Hin Hfin Hdone Hc. unfold verify_file. rewrite Hdone, Hd, Hh.
  destruct (ce_lseek e) eqn:El; cbn [negb]; [|by eexists _, _; split_and!; try done].
  destruct (hash_loop_total (S (length disk)) 16384 (ce_reads e) (ce_evps e) disk h) as (ok & h1 & -> & Hf1 & Hin1 & Hp1); [lia|lia|done|].
  assert (Hkeep : forall h' done, rx_ok (with_hasher r h' done)).
  { intros h' done'. destruct Hok as (? & ? & ? & ? & ? & ? & ? & ?). repeat (split; [done|]).
    exists disk, h'. split_and!; try done. cbn [with_hasher rx_resume]. by rewrite Hc. }
  destruct ok; cbn [negb].
  2: { eexists _, _. split_and!; try done. intros _ _ Hpos. by specialize (Hp1 Hpos). }
  unfold sl_sha256_stream_finalize. rewrite Hf1.
  destruct (ce_final e) eqn:Ef; cbn [negb]; [|eexists _, _; split_and!; try done].
  destruct (sha256_ok (hs_input h1)) as [Hl Hb]. specialize (Hin1 eq_refl). rewrite Hin in Hin1. cbn [app] in Hin1.
  rewrite Hl. change (negb (32 =? 32)) with false. cbv iota.
  destruct Hok as (Hm & _ & _ & _ & Hls & Hbs & _). cbn [with_hasher rx_meta].
  rewrite ct_equal_spec by (done || lia).
  rewrite !take_ge by (unfold len in *; lia).
  destruct (decide (sha256 (hs_input h1) = fm_sha256 (rx_meta r))) as [Es|Es]; cbn [Z.eqb Pos.eqb negb].
  - eexists _, _. split_and!; try done; try apply Hkeep. intros _. set (r' := with_hasher _ _ _).
    assert (Hcm : is_complete r' = true) by (unfold is_complete; cbn; by rewrite Hm, Hc).
    split; [done|]. intros Ha. split; [done|]. exists disk. split; [done|]. by rewrite <- (Hin1 Ha).
  - eexists _, _. split_and!; try done; try apply Hkeep. intros Ed _ _ Ha. by rewrite (Hin1 Ha) in Es.
Qed.

(** Everything [on_chunk] checks before it writes. *)
Definition chunk_acceptable (r : FileReceiver) (c : sl_file_chunk_t) : Prop :=
  chunk_shape c /\ bytes_ok (chunk_bytes c) /\ fc_index c < fm_total_chunks (rx_meta r) /\
  fc_data_len c <= fm_chunk_size (rx_meta r) /\
  (fc_index c + 1 < fm_total_chunks (rx_meta r) -> fc_data_len c = fm_chunk_size (rx_meta r)) /\
  bit_of (rm_bits (rx_resume r)) (fc_index c) = false.

Lemma on_chunk_cases e r wire :
  rx_ok r -> bytes_ok wire ->
  (exists res crc st, on_chunk e r wire = Ok (res, with_stats (with_rx_crc r crc) st) /\ statics_ok crc /\
     (res = kBadChunk \/ res = kDuplicate)) \/
  (exists c crc, statics_ok crc /\ chunk_acceptable r c /\ on_chunk e r wire = store_chunk e (with_rx_crc r crc) c).
Proof.
  intros Hok Hw. pose proof Hok as (Hm & Hs & Hr & Ht & _ & _ & Hcs & _). unfold on_chunk. rewrite Hm. cbn [negb].
  assert (Hbad : bad_chunk r = (kBadChunk, with_stats (with_rx_crc r (rx_crc r))
    (mk_rx_stats (chunks_received (rx_stats r)) (duplicates (rx_stats r)) (u32 (bad_chunks (rx_stats r) + 1)) (bytes_received (rx_stats r))))) by done.
  destruct (chunk_unpack_sound wire Hw) as (o & -> & Ho). destruct o as [c|].
  2: { left. rewrite Hbad. eexists _, _, _. split_and!; [done..|by left]. }
  destruct Ho as (Hsh & Hby & _). pose proof Hsh as (Hi & _ & _ & _ & Hc).
  pose proof Hr as (Htot & _).
  destruct (Z.leb_spec (fm_total_chunks (rx_meta r)) (fc_index c)); [left; rewrite Hbad; eexists _, _, _; split_and!; [done..|by left]|].
  destruct (Z.ltb_spec (fm_chunk_size (rx_meta r)) (fc_data_len c)); [left; rewrite Hbad; eexists _, _, _; split_and!; [done..|by left]|].
  rewrite (u32_small (fc_index c + 1)) by lia.
  destruct ((fc_index c + 1 <? fm_total_chunks (rx_meta r)) && negb (fc_data_len c =? fm_chunk_size (rx_meta r))) eqn:E.
  { left. rewrite Hbad. eexists _, _, _. split_and!; [done..|by left]. }
  destruct (chunk_crc_ok_spec (rx_crc r) c Hs (ptr_canon_ok _ _ Hc) Hby) as (s' & Hs' & ->).
  destruct (fc_crc32c c =? chunk_crc c); cbn [negb].
  2: { left. eexists _, s', _. split_and!; [reflexivity|done|by left]. }
  cbn [with_rx_crc rx_resume]. rewrite has_spec by (done || lia). rewrite Ht, (proj2 (Z.ltb_lt _ _)) by lia. cbn [andb].
  destruct (bit_of (rm_bits (rx_resume r)) (fc_index c)) eqn:Eb.
  - left. eexists _, s', _. split_and!; [reflexivity|done|by right].
  - right. exists c, s'. split_and!; try done. unfold chunk_acceptable. split_and!; try done; try lia.
Qed.
Lemma gap_incomplete r c : rx_ok r -> chunk_acceptable r c -> sl_resume_map_complete (rx_resume r) = false.
Proof.
  intros (_ & _ & Hr & Ht & _) ((Hi & _) & _ & Hlt & _ & _ & Hb).
  destruct (sl_resume_map_complete (rx_resume r)) eqn:E; [|done]. rewrite complete_spec in E by done.
  rewrite E in Hb by lia. done.
Qed.

Definition advanced (r r' : FileReceiver) : Prop :=
  rx_ok r' /\ rx_meta r' = rx_meta r.

Lemma store_chunk_ok e r c :
  rx_ok r -> chunk_acceptable r c ->
  exists res r', store_chunk e r c = Ok (res, r') /\ advanced r r' /\
    (res = kComplete -> is_complete r' = true /\ (absorbed (ce_evps e) -> verified r')).
Proof.
  intros Hok Hc. pose proof (gap_incomplete r c Hok Hc) as Hinc.
  pose proof Hok as (Hm & Hs & Hr & Ht & Hls & Hbs & Hcs & disk & h & Hd & Hh & Hg). specialize (Hg Hinc).
  destruct Hg as (Hin & Hfin & Hdone). pose proof Hc as ((Hi & _) & _ & Hlt & _). unfold store_chunk. rewrite Hd.
  destruct (pwrite_loop_total (length (chunk_bytes c)) (ce_pwrite e) (chunk_bytes c)
    (u64 (fc_index c * fm_chunk_size (rx_meta r))) disk (le_n _)) as (ok & d' & ->).
  assert (Hdk : rx_ok (with_disk r d')) by (repeat (split; [done|]); by exists d', h).
  destruct ok; cbn [negb]; [|by eexists _, _].
  cbn [with_disk rx_resume]. destruct (set_spec (rx_resume r) (fc_index c) Hr ltac:(lia)) as (rm & -> & Hrm & Etot & _ & _ & _).
  set (st := mk_rx_stats _ _ _ _). set (r1 := with_stats (with_resume (with_disk r d') rm) st).
  assert (Hr1 : rx_ok r1).
  { split; [done|]. split; [done|]. split; [done|]. split; [cbn; by rewrite Etot|]. repeat (split; [done|]). by exists d', h. }
  destruct (sl_resume_map_complete rm) eqn:Ec; cbn [negb]; [|by eexists _, _].
  destruct (verify_file_ok e r1 d' h) as (res & r' & -> & Hok' & Em & _ & _ & Hv & _); try done.
  eexists _, _. split; [done|]. by split.
Qed.

(** Once every chunk is there, nothing that arrives changes the file. *)
Lemma on_chunk_ok e r wire :
  rx_ok r -> bytes_ok wire ->
  exists res r', on_chunk e r wire = Ok (res, r') /\ advanced r r' /\
    (res = kComplete -> is_complete r' = true /\ (absorbed (ce_evps e) -> verified r')) /\
    (is_complete r = true -> is_complete r' = true /\ (verified r -> verified r')).
Proof.
  intros Hok Hw. destruct (on_chunk_cases e r wire Hok Hw) as [(res & crc & st & -> & Hcrc & Hres)|(c & crc & Hcrc & Hc & ->)].
  - eexists _, _. split; [done|]. split; [split; [by apply rx_ok_stats|done]|]. split; [|done]. by destruct Hres as [-> | ->].
  - assert (Hok' : rx_ok (with_rx_crc r crc)) by (pose proof (rx_ok_stats r (rx_stats r) crc Hok Hcrc) as Hx; by destruct r).
    assert (Hc' : chunk_acceptable (with_rx_crc r crc) c) by exact Hc.
    destruct (store_chunk_ok e _ c Hok' Hc') as (res & r' & -> & [Hok2 Em] & Hv).
    eexists _, _. split; [done|]. split; [by split|]. split; [done|].
    intros Hcm. unfold is_complete in Hcm. rewrite (gap_incomplete r c Hok Hc), andb_false_r in Hcm. done.
Qed.

(** A session: the frames that arrive, with what the system answers while each is handled. *)
Fixpoint rx_run (arrivals : list (chunk_env * list Z)) (r : FileReceiver) : M (list FileRxResult * FileReceiver) :=
  match arrivals with
  | [] => Ok ([], r)
  | (e, wire) :: arrivals =>
      let! '(res, r) := on_chunk e r wire in
      let! '(l, r) := rx_run arrivals r in
      Ok (res :: l, r)
  end.

(** Frames are bytes; reads, writes and OpenSSL may answer anything. *)
Definition arrival_ok (a : chunk_env * list Z) : Prop := bytes_ok a.2.

Definition arrival_absorbed (a : chunk_env * list Z) : Prop := absorbed (ce_evps a.1).

Lemma rx_run_ok arrivals : forall r,
  rx_ok r -> Forall arrival_ok arrivals ->
  exists l r', rx_run arrivals r = Ok (l, r') /\ advanced r r' /\
    (kComplete ∈ l \/ is_complete r = true -> is_complete r' = true) /\
    (kComplete ∈ l -> Forall arrival_absorbed arrivals -> verified r') /\ (verified r -> verified r').
Proof.
  induction arrivals as [|[e w] arrivals IH]; intros r Hok Ha; cbn [rx_run].
  { eexists _, _. split; [done|]. split; [by split|]. split_and!; [intros [Hx|]; [|done]|intros Hx|done]; by apply not_elem_of_nil in Hx. }
  apply Forall_cons in Ha as [Hw Ha].
  destruct (on_chunk_ok e r w Hok Hw) as (res & r1 & -> & [Hok1 Em1] & Hc1 & Hk1).
  destruct (IH r1 Hok1 Ha) as (l & r2 & -> & [Hok2 Em2] & Hcm & Hv2 & Hk2).
  eexists _, _. split; [done|]. split; [split; [done|congruence]|]. split_and!.
  - intros [[<-|Hx]%elem_of_cons|Hc]; apply Hcm; [right; exact (proj1 (Hc1 eq_refl))|by left|right; exact (proj1 (Hk1 Hc))].
  - intros [<-|Hx]%elem_of_cons [Hev Hevs]%Forall_cons; [exact (Hk2 (proj2 (Hc1 eq_refl) Hev))|by apply Hv2].
  - intros Hv. pose proof Hv as [Hc _]. exact (Hk2 (proj2 (Hk1 Hc) Hv)).
Qed.

Lemma meta_unpack_sha wire m : bytes_ok wire -> sl_file_meta_unpack wire = Ok (Some m) -> bytes_ok (fm_sha256 m).
Proof.
  intros Hw. unfold sl_file_meta_unpack. destruct (_ <? _); [done|].
  repeat match goal with |- (let! x := ?f in _) = _ -> _ => destruct f eqn:?; [|done] end.
  destruct (_ <? _); [done|]. destruct (_ <? _); [done|].
  repeat match goal with |- (let! x := ?f in _) = _ -> _ => destruct f eqn:?; [|done] end.
  destruct (_ =? _); [|done]. intros [= <-]. cbn [fm_sha256].
  match goal with E : load_bytes wire 24 32 = Ok _ |- _ => unfold load_bytes in E; destruct (_ && _) in E; [|done]; simplify_eq end.
  by apply bytes_ok_take, bytes_ok_drop.
Qed.

Lemma on_meta_ok e r wire r' :
  bytes_ok wire -> statics_ok (rx_crc r) -> rx_hash_done r = false -> on_meta e r wire = Ok (kAccepted, r') ->
  fm_total_chunks (rx_meta r') <= UINT32_MAX - 7 -> rx_ok r'.
Proof.
  intros Hw Hs Hdone. unfold on_meta. destruct (rx_meta_set r); [done|].
  destruct (meta_unpack_valid wire Hw) as (o & Eo & Ho). rewrite Eo. destruct o as [m|]; [|done].
  pose proof (meta_unpack_sha wire m Hw Eo) as Hsha. destruct Ho as (Hmo & _ & Htc & _ & _ & Hl & _).
  destruct (meta_ok_range m Hmo) as (Hcs & _).
  destruct (sl_resume_map_init (me_resume e) (fm_total_chunks m)) as [rm|] eqn:Erm; [|done].
  destruct (sl_sha256_stream_new _ _ _) as [h|] eqn:Eh; [|done].
  assert (Hh : h = mk_stream [] 0 false) by (unfold sl_sha256_stream_new in Eh; by repeat case_match; simplify_eq).
  assert (Hal : me_resume e = true) by (unfold sl_resume_map_init in Erm; by destruct (me_resume e)).
  rewrite Hal in Erm. unfold open_dest_file. cbn [rx_meta rx_dest_dir]. intros E Htot.
  assert (Hfin : exists disk path, r' = mk_receiver (rx_dest_dir r) path (Some disk) true m rm (Some h) (rx_hash_done r) (rx_stats r) (rx_crc r)).
  { repeat case_match; simplify_eq; cbn; by eexists _, _. }
  destruct Hfin as (disk & path & ->). cbn [rx_meta] in Htot.
  destruct (rmap_ok_init (fm_total_chunks m) rm ltac:(lia) Erm) as (Hrm & Et & _).
  repeat (split; [done|]). exists disk, h. split_and!; try done. by rewrite Hh.
Qed.

(** C20: The receiver holds against hostile frames and a failing system: after accepted metadata that
    announces at most 2^32 - 8 chunks (with more, the size of its bitmap wraps around and chunks
    fault), every frame that arrives, in whatever order, damaged or forged, and however reads, writes
    and OpenSSL fail, is handled without a fault and leaves the metadata; a reported completion
    is never taken back; and when completion is reported in a session in which no update of the digest
    failed (the code ignores such a failure), the file on disk has the announced SHA-256 digest to
    the end of the session. *)
Theorem file_receive_integrity em r0 wire r arrivals :
  bytes_ok wire -> statics_ok (rx_crc r0) -> rx_hash_done r0 = false -> on_meta em r0 wire = Ok (kAccepted, r) ->
  fm_total_chunks (rx_meta r) <= UINT32_MAX - 7 -> Forall arrival_ok arrivals ->
  exists l r', rx_run arrivals r = Ok (l, r') /\ rx_meta r' = rx_meta r /\
    (kComplete ∈ l -> is_complete r' = true) /\
    (kComplete ∈ l -> Forall arrival_absorbed arrivals ->
       exists disk, rx_fd r' = Some disk /\ sha256 disk = fm_sha256 (rx_meta r)).
Proof.
  intros Hw Hs Hd Hm Ht Ha. pose proof (on_meta_ok em r0 wire r Hw Hs Hd Hm Ht) as Hok.
  destruct (rx_run_ok arrivals r Hok Ha) as (l & r' & E & [Hok' Em] & Hc & Hv & _).
  exists l, r'. split_and!; try done; [auto|]. intros Hin Hev. destruct (Hv Hin Hev) as [_ (disk & Hf & Hsh)].
  exists disk. split; [done|]. congruence.
Qed.
(** ** Delivery *)

Section Delivery.
Context (F : list Z) (m : sl_file_meta_t).
Hypothesis Hbytes : bytes_ok F.
Hypothesis Hne : 0 < len F.
Hypothesis Hvalid : meta_valid m.
Hypothesis Hsize : fm_total_size m = len F.
Hypothesis Hsha : fm_sha256 m = sha256 F.
Hypothesis Htot : fm_total_chunks m <= UINT32_MAX - 7.
Hypothesis Hbig : len F + fm_chunk_size m <= 2 ^ 64.

Abbreviation cs := (fm_chunk_size m).
Abbreviation total := (fm_total_chunks m).

Definition piece (i : Z) : list Z := take (Z.to_nat cs) (drop (Z.to_nat (i * cs)) F).

Definition piece_flags (i : Z) : Z := if i + 1 =? total then SL_FILE_CHUNK_FLAG_LAST else 0.

Definition piece_chunk (i : Z) : sl_file_chunk_t :=
  mk_chunk i (len (piece i)) (crc32c (piece i)) (piece_flags i) (Some (piece i)).

Definition piece_wire (i : Z) : list Z := chunk_wire (piece_chunk i) (crc32c (piece i)).

Lemma cs_range : 1024 <= cs <= 65536.
Proof. destruct Hvalid as (Ho & _). by destruct (meta_ok_range m Ho). Qed.

(** The chunks cover the file, and only the last may be short. *)
Lemma total_range : len F <= total * cs < len F + cs /\ 0 < total.
Proof.
  pose proof cs_range as Hc. destruct Hvalid as (Ho & _). destruct (meta_ok_range m Ho) as (_ & _ & _ & Ht).
  pose proof (chunks_expected_ceil m ltac:(lia) ltac:(lia) ltac:(lia)) as He. rewrite <- Ht, Hsize in He. nia.
Qed.

Lemma len_piece i : 0 <= i < total -> len (piece i) = Z.min cs (len F - i * cs) /\ 0 < len (piece i).
Proof.
  intros Hi. pose proof total_range. pose proof cs_range. unfold piece.
  assert (Hd : len (drop (Z.to_nat (i * cs)) F) = len F - i * cs) by (apply len_drop; nia).
  unfold len in *. rewrite length_take. nia.
Qed.

Lemma piece_last i : 0 <= i -> i + 1 < total -> len (piece i) = cs.
Proof. intros Hi Hl. pose proof total_range. pose proof cs_range. destruct (len_piece i ltac:(lia)) as [-> _]. nia. Qed.

Lemma bytes_ok_piece i : bytes_ok (piece i).
Proof. by apply bytes_ok_take, bytes_ok_drop. Qed.

Lemma piece_canon i : 0 <= i < total -> ptr_canon (Some (piece i)) (len (piece i)) /\ ptr_bytes (Some (piece i)) (len (piece i)) = piece i.
Proof.
  intros Hi. destruct (len_piece i Hi) as [_ Hp].
  assert (E : ptr_bytes (Some (piece i)) (len (piece i)) = piece i).
  { unfold ptr_bytes. cbn [default Datatypes.id]. apply take_ge. unfold len. lia. }
  split; [|done]. unfold ptr_canon. rewrite E, (proj2 (Z.ltb_lt _ _)) by lia. split_and!; [lia|done|done].
Qed.

Lemma piece_shape i : 0 <= i < total -> chunk_shape (piece_chunk i).
Proof.
  intros Hi. pose proof cs_range. destruct (len_piece i Hi) as [Hl Hp]. pose proof (crc32c_range (piece i) (bytes_ok_piece i)).
  unfold chunk_shape, piece_chunk. cbn [fc_index fc_flags fc_crc32c fc_data_len fc_data]. chunk_consts.
  split_and!; try lia; try (unfold piece_flags, SL_FILE_CHUNK_FLAG_LAST; destruct (_ =? _); lia). by apply piece_canon.
Qed.

Lemma piece_chunk_crc i : 0 <= i < total -> chunk_bytes (piece_chunk i) = piece i /\ chunk_crc (piece_chunk i) = crc32c (piece i).
Proof.
  intros Hi. destruct (len_piece i Hi) as [_ Hp]. destruct (piece_canon i Hi) as [_ E].
  unfold chunk_crc, chunk_bytes, piece_chunk. cbn [fc_data_len fc_data]. rewrite E. by rewrite (proj2 (Z.ltb_lt _ _)) by lia.
Qed.

(** What the sender emits for its next chunk. *)
Definition tx_ready (s : FileSender) : Prop :=
  tx_fd s = Some F /\ tx_chunk_size s = cs /\ tx_meta s = m /\ tx_bucket s = None /\ statics_ok (tx_crc s).

Lemma send_next_piece e s :
  tx_ready s -> 0 <= tx_next_idx s < total -> se_lseek e = true -> se_read e = [] -> se_send e (piece_wire (tx_next_idx s)) = true ->
  exists s', send_next_chunk e s = Ok (true, Some (piece_wire (tx_next_idx s)), s') /\ tx_ready s' /\
    tx_next_idx s' = tx_next_idx s + 1.
Proof.
  intros (Hfd & Hcs & Hm & Hb & Hst) Hi Hls Hrd Hsd. set (i := tx_next_idx s) in *.
  pose proof total_range. pose proof cs_range. destruct (len_piece i Hi) as [Hl Hp]. destruct (piece_canon i Hi) as [Hcan Ebs].
  unfold send_next_chunk, has_more. fold i. rewrite Hm, (proj2 (Z.ltb_lt _ _)), Hb by lia. cbn [negb].
  unfold send_chunk_body. rewrite Hls, Hfd, Hcs, Hrd, Hm. cbn [negb default Datatypes.id transfers]. fold i.
  rewrite (u64_small (i * cs)) by nia.
  assert (Hd : len (drop (Z.to_nat (i * cs)) F) = len F - i * cs) by (apply len_drop; nia).
  rewrite Hd, <- Hl, (proj2 (Z.leb_gt _ _)) by lia.
  assert (Ep : take (Z.to_nat (len (piece i))) (drop (Z.to_nat (i * cs)) F) = piece i).
  { unfold piece at 2. destruct (decide (cs <= len F - i * cs)).
    - do 2 f_equal. lia.
    - rewrite !take_ge; [done|unfold len in *; lia|unfold len in *; lia]. }
  rewrite Ep. rewrite (u32_small (i + 1)), (u32_small (len (piece i))) by lia. fold (piece_flags i).
  set (c := mk_chunk i (len (piece i)) 0 (piece_flags i) (Some (piece i))).
  destruct (chunk_pack_fits (tx_crc s) c (replicate (Z.to_nat (SL_FILE_CHUNK_HEADER_LEN + len (piece i))) 0) Hst) as (s1 & Hs1 & ->).
  { by apply ptr_canon_ok. } { unfold chunk_bytes. cbn [c fc_data fc_data_len]. rewrite Ebs. apply bytes_ok_piece. }
  { rewrite len_replicate. chunk_consts. cbn [c fc_data_len]. lia. }
  assert (Hcrc : chunk_crc c = crc32c (piece i)).
  { unfold chunk_crc, chunk_bytes. cbn [c fc_data fc_data_len]. by rewrite Ebs, (proj2 (Z.ltb_lt _ _)) by lia. }
  rewrite Hcrc. cbn [c fc_data_len]. rewrite (proj2 (Z.ltb_ge _ _)) by lia.
  assert (Hw : chunk_wire c (crc32c (piece i)) = piece_wire i) by done.
  assert (Hlw : len (piece_wire i) = 16 + len (piece i)).
  { rewrite <- Hw. rewrite len_chunk_wire by (by apply ptr_canon_ok). done. }
  rewrite Hw, take_app_exact by lia. rewrite Hsd. cbn [negb].
  eexists. split; [reflexivity|]. split; [by split_and!|]. cbn [tx_next_idx]. fold i. rewrite u32_small; lia.
Qed.
(** *** The receiving side *)

Definition good_env (e : chunk_env) : Prop :=
  positive (ce_pwrite e) /\ ce_lseek e = true /\ positive (ce_reads e) /\ absorbed (ce_evps e) /\ ce_final e = true.

(** The chunks in [S] have arrived. *)
Definition rx_has (S : list Z) (r : FileReceiver) : Prop :=
  rx_ok r /\ rx_meta r = m /\
  (forall i, 0 <= i < total -> bit_of (rm_bits (rx_resume r)) i = bool_decide (i ∈ S)) /\
  (sl_resume_map_complete (rx_resume r) = true -> rx_hash_done r = true) /\
  exists disk, rx_fd r = Some disk /\ len disk = len F /\
    forall p, (p < length F)%nat -> Z.of_nat p / cs ∈ S -> disk !! p = F !! p.

Lemma rx_has_complete S r :
  rx_has S r -> sl_resume_map_complete (rx_resume r) = true -> rx_fd r = Some F.
Proof.
  intros (Hok & Hm & Hbit & _ & disk & Hd & Hl & Hp) Hc. pose proof Hok as (_ & _ & Hr & Ht & _).
  rewrite complete_spec in Hc by done. rewrite Ht, Hm in Hc. rewrite Hd. f_equal. apply list_eq. intros p.
  pose proof total_range. pose proof cs_range.
  destruct (decide (p < length F)%nat) as [Hlt|Hge].
  - apply Hp; [done|]. assert (Hi : 0 <= Z.of_nat p / cs < total).
    { split; [apply Z.div_pos; lia|]. apply Z.div_lt_upper_bound; [lia|]. unfold len in *. lia. }
    specialize (Hc _ Hi). rewrite Hbit in Hc by done. by apply bool_decide_eq_true in Hc.
  - rewrite !lookup_ge_None_2; [done|lia|unfold len in Hl; lia].
Qed.

(** Writing piece [i] where it belongs makes the bytes of that piece right and leaves the others. *)
Lemma pwrite_piece disk i p :
  0 <= i < total -> len disk = len F -> (p < length F)%nat ->
  pwrite disk (i * cs) (piece i) !! p = if decide (Z.of_nat p / cs = i) then F !! p else disk !! p.
Proof.
  intros Hi Hl Hp. pose proof total_range. pose proof cs_range. destruct (len_piece i Hi) as [Hlp Hpp].
  rewrite pwrite_lookup by nia.
  assert (Hdiv : Z.of_nat p / cs = i <-> i * cs <= Z.of_nat p < i * cs + len (piece i)).
  { pose proof (Z.div_mod (Z.of_nat p) cs ltac:(lia)). pose proof (Z.mod_pos_bound (Z.of_nat p) cs ltac:(lia)).
    unfold len in *. split; [intros <-; nia|intros Hb]. nia. }
  destruct (decide (Z.of_nat p / cs = i)) as [E|E].
  - apply Hdiv in E. rewrite decide_True by done. unfold piece. rewrite lookup_take_lt by lia. rewrite lookup_drop. f_equal. lia.
  - rewrite decide_False; [done|]. intros Hb. by apply E, Hdiv.
Qed.

(** A new piece is stored, and the last one completes the file. *)
Lemma store_piece e r i S :
  rx_has S r -> 0 <= i < total -> good_env e -> i ∉ S ->
  exists res r', store_chunk e r (piece_chunk i) = Ok (res, r') /\ rx_has (i :: S) r' /\
    (sl_resume_map_complete (rx_resume r') = true -> res = kComplete).
Proof.
  intros Hhas Hi (Hpw & Hls & Hrd & Hev & Hfin) HiS. pose proof Hhas as (Hok & Hm & Hbit & Hcd & disk & Hd & Hl & Hp).
  pose proof Hok as (Hms & Hs & Hr & Ht & Hsl & Hsb & Hcs & disk' & h & Hd' & Hh & Hg). rewrite Hd in Hd'. simplify_eq Hd'. intros <-.
  pose proof total_range as [Htr _]. pose proof cs_range. destruct (len_piece i Hi) as [Hlp Hpp].
  destruct (piece_chunk_crc i Hi) as [Eb _].
  assert (Hinc : sl_resume_map_complete (rx_resume r) = false).
  { destruct (sl_resume_map_complete (rx_resume r)) eqn:E; [|done]. rewrite complete_spec in E by done.
    specialize (E i ltac:(rewrite Ht, Hm; lia)). rewrite Hbit in E by done. by apply bool_decide_eq_true in E. }
  destruct (Hg Hinc) as (Hin & Hhf & Hdone).
  unfold store_chunk. rewrite Hd, Hm, Eb. change (fc_index (piece_chunk i)) with i.
  rewrite (u64_small (i * cs)) by nia. rewrite pwrite_loop_spec by (try lia; try done; nia). cbn [negb with_disk rx_resume].
  destruct (set_spec (rx_resume r) i Hr ltac:(rewrite Ht, Hm; lia)) as (rm & -> & Hrm & Etot & _ & Hbits & _).
  set (d2 := pwrite disk (i * cs) (piece i)). set (st := mk_rx_stats _ _ _ _).
  set (r1 := with_stats (with_resume (with_disk r d2) rm) st).
  assert (Hl2 : len d2 = len F) by (unfold d2; rewrite len_pwrite; [done|nia|nia]).
  assert (Hr1 : rx_ok r1).
  { split; [done|]. split; [done|]. split; [done|]. split; [cbn; by rewrite Etot|]. repeat (split; [done|]). by exists d2, h. }
  assert (Hb1 : forall j, 0 <= j < total -> bit_of (rm_bits rm) j = bool_decide (j ∈ i :: S)).
  { intros j Hj. rewrite Hbits, Hbit by lia. apply eq_true_iff_eq.
    rewrite orb_true_iff, !bool_decide_eq_true, elem_of_cons. naive_solver. }
  assert (Hp1 : forall p, (p < length F)%nat -> Z.of_nat p / cs ∈ i :: S -> d2 !! p = F !! p).
  { intros p Hpl Hin'. unfold d2. rewrite pwrite_piece by done. case_decide as E; [done|]. apply Hp; [done|].
    apply elem_of_cons in Hin' as [|]; done. }
  destruct (sl_resume_map_complete rm) eqn:Ec; cbn [negb].
  - assert (HF : d2 = F).
    { assert (Hx : rx_has (i :: S) (with_hasher r1 h true)).
      { split; [|split_and!; try done; by exists d2]. destruct Hr1 as (? & ? & ? & ? & ? & ? & ? & _). repeat (split; [done|]).
        exists d2, h. split_and!; try done. cbn. by rewrite Ec. }
      pose proof (rx_has_complete _ _ Hx Ec) as E. cbn in E. by simplify_eq. }
    destruct (verify_file_ok e r1 d2 h Hr1) as (res & r' & -> & Hok' & Em & Er & Ef & Hv & Hsucc); try done.
    assert (Eres : res = kComplete).
    { apply Hsucc; try done. change (rx_meta r1) with (rx_meta r). by rewrite Hm, Hsha, HF. }
    eexists _, _. split; [done|]. split; [|done]. destruct (Hv Eres) as [Hcm _].
    apply andb_prop in Hcm as [_ Hcm]. split; [done|]. split; [by rewrite Em|]. split; [by rewrite Er|]. split; [done|].
    exists d2. rewrite Ef. by split_and!.
  - eexists _, _. split; [done|]. split; [|intros E; change (sl_resume_map_complete rm = true) in E; congruence].
    split; [done|]. split; [done|]. split; [done|]. split.
    + intros E. change (sl_resume_map_complete rm = true) in E. congruence.
    + exists d2. by split_and!.
Qed.

Lemma on_chunk_piece e r i S :
  rx_has S r -> 0 <= i < total -> good_env e ->
  exists res r', on_chunk e r (piece_wire i) = Ok (res, r') /\ rx_has (i :: S) r' /\
    (sl_resume_map_complete (rx_resume r') = true -> sl_resume_map_complete (rx_resume r) = true \/ res = kComplete).
Proof.
  intros Hhas Hi (Hpw & Hls & Hrd & Hev & Hfin). pose proof Hhas as (Hok & Hm & Hbit & Hcd & disk & Hd & Hl & Hp).
  pose proof Hok as (Hms & Hs & Hr & Ht & _ & _ & _ & disk' & h & Hd' & Hh & Hg). rewrite Hd in Hd'. simplify_eq Hd'. intros <-.
  pose proof total_range as [Htr _]. pose proof cs_range. destruct (len_piece i Hi) as [Hlp Hpp].
  destruct (piece_chunk_crc i Hi) as [Eb Ec]. pose proof (piece_shape i Hi) as Hshape. pose proof Hshape as (_ & _ & _ & _ & Hcan).
  assert (Eu : sl_file_chunk_unpack (piece_wire i) = Ok (Some (piece_chunk i))).
  { pose proof (chunk_unpack_wire (piece_chunk i) [] Hshape) as Eu. by rewrite app_nil_r in Eu. }
  unfold on_chunk. rewrite Hms, Eu. cbn [negb]. cbv zeta. rewrite Hm.
  change (fc_index (piece_chunk i)) with i. change (fc_data_len (piece_chunk i)) with (len (piece i)).
  rewrite (proj2 (Z.leb_gt total i)), (proj2 (Z.ltb_ge cs (len (piece i)))) by lia.
  rewrite (u32_small (i + 1)) by lia.
  replace ((i + 1 <? total) && negb (len (piece i) =? cs)) with false.
  2: { destruct (Z.ltb_spec (i + 1) total); [|done]. rewrite (piece_last i) by lia. by rewrite Z.eqb_refl. }
  destruct (chunk_crc_ok_spec (rx_crc r) (piece_chunk i) Hs (ptr_canon_ok _ _ Hcan)) as (s' & Hs' & ->); [rewrite Eb; apply bytes_ok_piece|].
  rewrite Ec. change (fc_crc32c (piece_chunk i)) with (crc32c (piece i)). rewrite Z.eqb_refl. cbn [negb].
  change (rx_resume (with_rx_crc r s')) with (rx_resume r). rewrite has_spec by (done || lia). rewrite Ht, Hm, (proj2 (Z.ltb_lt _ _)) by lia. cbn [andb].
  rewrite Hbit by done. case_bool_decide as HiS.
  - eexists _, _. split; [reflexivity|]. split; [|by left]. split; [by apply rx_ok_stats|]. split; [done|]. split; [|split; [done|]].
    + intros j Hj. cbn. rewrite Hbit by done. apply bool_decide_ext. rewrite elem_of_cons. naive_solver.
    + exists disk. split_and!; try done. intros p Hpl Hin. apply Hp; [done|]. apply elem_of_cons in Hin as [->|]; done.
  - assert (Hhas' : rx_has S (with_rx_crc r s')).
    { split; [|by split_and!; eauto]. pose proof (rx_ok_stats r (rx_stats r) s' Hok Hs') as Hx. by destruct r. }
    destruct (store_piece e _ i S Hhas' Hi (conj Hpw (conj Hls (conj Hrd (conj Hev Hfin)))) HiS) as (res & r' & -> & Hh' & Hres).
    eexists _, _. split; [done|]. split; [done|]. intros E. right. by apply Hres.
Qed.
Lemma rx_run_pieces idxs : forall envs r S,
  rx_has S r -> Forall (fun i => 0 <= i < total) idxs -> Forall good_env envs -> length envs = length idxs ->
  exists l r' S', rx_run (zip envs (map piece_wire idxs)) r = Ok (l, r') /\ rx_has S' r' /\
    (forall i, i ∈ idxs -> i ∈ S') /\
    (sl_resume_map_complete (rx_resume r') = true -> sl_resume_map_complete (rx_resume r) = true \/ kComplete ∈ l) /\
    (forall i, i ∈ S -> i ∈ S').
Proof.
  induction idxs as [|i idxs IH]; intros [|e envs] r S Hh Hi He Hlen; try done; cbn [map zip_with rx_run].
  { exists [], r, S. split_and!; try done; [|by left]. intros i Hx. by apply not_elem_of_nil in Hx. }
  apply Forall_cons in Hi as [Hi1 Hi]. apply Forall_cons in He as [He1 He].
  destruct (on_chunk_piece e r i S Hh Hi1 He1) as (res & r1 & -> & Hh1 & Hc1).
  destruct (IH envs r1 (i :: S) Hh1 Hi He ltac:(simpl in Hlen; lia)) as (l & r2 & S2 & -> & Hh2 & Hall & Hc2 & Hsub).
  exists (res :: l), r2, S2. split_and!; try done.
  - intros j [->|Hj]%elem_of_cons; [apply Hsub; left|by apply Hall].
  - intros E. destruct (Hc2 E) as [E1|E1]; [|right; by right]. destruct (Hc1 E1) as [|Er]; [by left|right; rewrite Er; left].
  - intros j Hj. apply Hsub. by right.
Qed.

Lemma all_arrived S r (idxs : list Z) :
  rx_has S r -> (forall i, 0 <= i < total -> i ∈ idxs) -> (forall i, i ∈ idxs -> i ∈ S) ->
  sl_resume_map_complete (rx_resume r) = true.
Proof.
  intros ((_ & _ & Hr & Ht & _) & Hm & Hbit & _) Hcov Hall. rewrite complete_spec by done. rewrite Ht, Hm.
  intros i Hi. rewrite Hbit by done. apply bool_decide_eq_true. auto.
Qed.

Lemma rx_start dir crc :
  statics_ok crc ->
  exists r, on_meta (mk_menv true true true true) (new_receiver dir crc) (meta_wire m) = Ok (kAccepted, r) /\
    rx_has [] r /\ sl_resume_map_complete (rx_resume r) = false.
Proof.
  intros Hs. pose proof total_range as [Htr Ht0]. pose proof cs_range as Hcs.
  pose proof (meta_unpack_wire m [] Hvalid) as Eu. rewrite app_nil_r in Eu.
  unfold on_meta. cbn [new_receiver rx_meta_set]. rewrite Eu. cbn [me_resume me_stream].
  destruct (sl_resume_map_init true total) as [rm|] eqn:Erm; [|done].
  destruct (rmap_ok_init total rm ltac:(destruct Hvalid as (_ & _ & ? & _); lia) Erm) as (Hrm & Et & _).
  unfold sl_sha256_stream_new, open_dest_file. cbn [negb rx_meta me_open me_truncate].
  rewrite (proj2 (Z.ltb_lt 0 (fm_total_size m))) by lia. cbn [negb]. eexists. split; [reflexivity|].
  destruct Hvalid as (_ & _ & _ & _ & _ & Hsl & _).
  assert (Hz : forall j, bit_of (rm_bits rm) j = false).
  { unfold sl_resume_map_init in Erm. cbn [negb] in Erm. injection Erm as <-. intros j. apply bit_zero. }
  assert (Hnc : sl_resume_map_complete rm = false).
  { destruct (sl_resume_map_complete rm) eqn:E; [|done]. rewrite complete_spec in E by done.
    specialize (E 0 ltac:(lia)). by rewrite Hz in E. }
  split; [|exact Hnc]. split; [|split_and!; try done].
  - repeat (split; [done|]). split; [cbn [rx_meta]; rewrite Hsha; apply sha256_ok|]. split; [done|]. eexists _, _. by split_and!.
  - intros E. cbn in E. congruence.
  - eexists. split_and!; [reflexivity|rewrite Hsize, len_replicate; lia|]. intros p _ Hx. by apply not_elem_of_nil in Hx.
Qed.

(** The sender asked for a series of chunks, by seeking to each. *)
Fixpoint tx_session (e : send_env) (idxs : list Z) (s : FileSender) : M (list (list Z)) :=
  match idxs with
  | [] => Ok []
  | i :: idxs =>
      let '(_, s) := seek_chunk s i in
      let! '(_, w, s) := send_next_chunk e s in
      let! ws := tx_session e idxs s in
      Ok (match w with Some w => w :: ws | None => ws end)
  end.

Lemma tx_session_pieces now idxs : forall s,
  tx_ready s -> Forall (fun i => 0 <= i < total) idxs ->
  tx_session (mk_send now true [] (fun _ => true)) idxs s = Ok (map piece_wire idxs).
Proof.
  induction idxs as [|i idxs IH]; intros s Hr Hi; cbn [tx_session map]; [done|].
  apply Forall_cons in Hi as [Hi1 Hi]. unfold seek_chunk. pose proof Hr as (Hfd & Hcs & Hm & Hb & Hst).
  rewrite Hm, (proj2 (Z.ltb_ge _ _)) by lia.
  set (s1 := mk_sender _ _ _ _ i _ _ _).
  assert (Hr1 : tx_ready s1) by (by split_and!).
  destruct (send_next_piece (mk_send now true [] (fun _ => true)) s1 Hr1 Hi1) as (s2 & -> & Hr2 & _); try done.
  by rewrite IH.
Qed.
End Delivery.

(** ** Opening *)

Lemma store_as_bytes buf i v : 0 <= i < len buf -> store buf i v = store_bytes buf i [v].
Proof.
  intros Hi. rewrite store_ok, store_bytes_in_bounds by (rewrite ?len_cons, ?len_nil; lia). f_equal.
  rewrite insert_take_drop by (unfold len in Hi; lia). do 3 f_equal. unfold len. simpl. lia.
Qed.

Ltac tx_simpl := cbn [new_sender tx_wire_name tx_chunk_size tx_fd tx_meta tx_next_idx tx_bucket tx_stats tx_crc
  fm_total_size fm_chunk_size fm_total_chunks fm_mode fm_mtime_s fm_sha256 fm_name fm_name_len default Datatypes.id].

Lemma open_ready e name cs0 crc F mode mtime s :
  statics_ok crc -> oe_file e = Some (F, mode, mtime) -> oe_evps e = [] -> oe_final e = true -> 0 <= mode ->
  bytes_ok name -> len F + 65536 <= 2 ^ 64 ->
  tx_open e (new_sender name cs0 crc) = Ok (true, s) ->
  let m := tx_meta s in
  tx_ready F m s /\ meta_valid m /\ fm_total_size m = len F /\ fm_sha256 m = sha256 F /\ fm_chunk_size m = cs0.
Proof.
  intros Hst Ef Ev Efin Hmode Hname Hbig. unfold tx_open. cbn [new_sender tx_chunk_size].
  destruct (Z.ltb_spec cs0 SL_FILE_CHUNK_MIN), (Z.ltb_spec SL_FILE_CHUNK_MAX cs0); cbn [orb]; try done.
  rewrite Ef. unfold compute_meta, sl_sha256_stream_new. destruct (oe_fstat e); cbn [negb]; [|done].
  destruct (oe_stream e); cbn [negb]; [|done]. destruct (oe_lseek1 e); cbn [negb]; [|done].
  tx_simpl. rewrite Ev. meta_consts.
  destruct (hash_loop_total (S (length F)) cs0 (oe_reads e) [] F (mk_stream [] 0 false)) as (ok & h & -> & Hhf & Hin & _); [lia|lia|done|].
  destruct ok; cbn [negb]; [|done]. specialize (Hin eq_refl (Forall_nil_2 _)). cbn [hs_input app] in Hin.
  unfold sl_sha256_stream_finalize. rewrite Hhf, Efin. destruct (sha256_ok F) as [Hsl Hsb]. cbn [negb]. rewrite Hin, Hsl.
  change (negb (32 =? 32)) with false. cbv iota. tx_simpl.
  destruct (Z.ltb_spec 256 (len name)); [done|]. pose proof (len_nonneg name) as Hn0. pose proof (len_nonneg F).
  change (fm_name zero_meta) with (replicate (Z.to_nat (256 + 1)) 0).
  destruct (name_into_zeros name (256 + 1) ltac:(lia)) as (a & Ea & Eb). rewrite Ea.
  assert (Hla : len a = 257).
  { rewrite store_bytes_0 in Ea by (rewrite len_replicate; lia).
    assert (Ha : a = name ++ drop (length name) (replicate (Z.to_nat (256 + 1)) 0)) by congruence.
    rewrite Ha. unfold len in *. rewrite length_app, length_drop, length_replicate. lia. }
  rewrite store_as_bytes, Eb by lia. destruct (oe_lseek2 e); cbn [negb]; [|done].
  rewrite (u64_small (len F)), (u16_small (len name)) by lia.
  set (m := mk_meta _ _ _ _ _ _ _ _).
  rewrite file_meta_validate_spec; [|cbn; lia|cbn [m fm_name]; rewrite len_app, len_replicate; meta_consts; lia].
  destruct (meta_ok m) eqn:Hmo; [|done]. intros [= <-]. cbn [tx_meta].
  assert (Hfn : file_name m = name) by (unfold file_name; cbn [m fm_name_len fm_name]; by rewrite take_app_exact).
  assert (Hland : is_u32 (Z.land mode 511)).
  { change 511 with (Z.ones 9). rewrite Z.land_ones by lia. pose proof (Z.mod_pos_bound mode (2 ^ 9)). lia. }
  assert (Hch : is_u32 (fm_total_chunks m)) by (cbn [m fm_total_chunks]; destruct (_ =? 0); [lia|apply u32_range]).
  split_and!; try done. unfold meta_valid. rewrite Hfn.
  split_and!; try done; try apply Hch; try apply Hland; try apply u32_range; cbn [m fm_total_size]; lia.
Qed.

(** C19: A file arrives as it was sent. Let an unthrottled sender have opened a non-empty file that
    makes at most 2^32 - 8 chunks, with no failure while it was hashed. Its metadata is accepted.
    Once every chunk has been requested and delivered at least once, in any order and with
    repetitions, each read whole by the sender and sent, the receiver reports completion and its file
    is byte for byte the sender's. The sender's reads while it hashes and the receiver's reads and
    writes may be short, but none of them fails. *)
Theorem file_transfer_delivers e name cs0 crc0 crc1 F mode mtime s dir now idxs envs :
  statics_ok crc0 -> statics_ok crc1 -> oe_file e = Some (F, mode, mtime) -> oe_evps e = [] -> oe_final e = true ->
  0 <= mode -> bytes_ok name -> bytes_ok F -> 0 < len F -> len F + 65536 <= 2 ^ 64 ->
  tx_open e (new_sender name cs0 crc0) = Ok (true, s) ->
  fm_total_chunks (tx_meta s) <= UINT32_MAX - 7 ->
  Forall (fun i => 0 <= i < fm_total_chunks (tx_meta s)) idxs ->
  (forall i, 0 <= i < fm_total_chunks (tx_meta s) -> i ∈ idxs) ->
  Forall good_env envs -> length envs = length idxs ->
  exists wire wires r r' l,
    send_meta (fun _ => true) s = Ok (true, Some wire) /\
    on_meta (mk_menv true true true true) (new_receiver dir crc1) wire = Ok (kAccepted, r) /\
    tx_session (mk_send now true [] (fun _ => true)) idxs s = Ok wires /\
    rx_run (zip envs wires) r = Ok (l, r') /\
    kComplete ∈ l /\ is_complete r' = true /\ rx_fd r' = Some F.
Proof.
  intros Hs0 Hs1 Ef Ev Efin Hmode Hname HF Hne Hbig Hopen Htot Hidx Hcov Henv Hlen.
  destruct (open_ready e name cs0 crc0 F mode mtime s Hs0 Ef Ev Efin Hmode Hname Hbig Hopen) as (Hr & Hv & Hsz & Hsha & Hcs).
  pose proof Hv as (Hmo & _). destruct (meta_ok_range _ Hmo) as (Hcr & Hnl & _).
  set (m := tx_meta s) in *. exists (meta_wire m).
  destruct (rx_start F m Hne Hv Hsz Hsha Htot ltac:(lia) dir crc1 Hs1) as (r & Er & Hhas & Hnc).
  pose proof (tx_session_pieces F m HF Hne Hv Hsz Htot ltac:(lia) now idxs s Hr Hidx) as Et.
  destruct (rx_run_pieces F m HF Hne Hv Hsz Hsha Htot ltac:(lia) idxs envs r [] Hhas Hidx Henv Hlen)
    as (l & r' & S' & Erun & Hh' & Hall & Hc & _).
  eexists _, r, r', l. split_and!; [|exact Er|exact Et|exact Erun|..].
  - unfold send_meta. fold m. pose proof (meta_valid_packable m Hv) as Hpk. pose proof (len_meta_wire m Hpk) as Hlw.
    rewrite meta_pack_fits by (rewrite ?len_replicate; meta_consts; done || lia).
    pose proof (len_nonneg (meta_wire m)). rewrite (proj2 (Z.ltb_ge _ _)) by lia. by rewrite take_len_app.
  - destruct (Hc (all_arrived F m S' r' idxs Hh' Hcov Hall)) as [E|]; [|done]. congruence.
  - pose proof (all_arrived F m S' r' idxs Hh' Hcov Hall) as E.
    destruct Hh' as ((Hms & _) & _ & _ & Hd & _). unfold is_complete. by rewrite Hms, E, (Hd E).
  - apply (rx_has_complete F m Hne Hv Hsz ltac:(lia) S' r' Hh').
    exact (all_arrived F m S' r' idxs Hh' Hcov Hall).
Qed.
End FileTransfer.

(** ** Witnesses *)

Definition demo_file : list Z := replicate 1500 7.
Definition demo_open : open_env := mk_open (Some (demo_file, 420, 5)) true true true true [700] [] true.
Definition demo_env : chunk_env := mk_cenv [100; 3] true [9] [] true.

Definition demo_meta : sl_file_meta_t :=
  mk_meta 1500 1024 2 420 5 (sha256 demo_file) ([97] ++ replicate 256 0) 1.

Definition demo_sender : FileSender :=
  mk_sender [97] 1024 (Some demo_file) demo_meta 0 None (mk_tx_stats 0 0 0) crc_start.

Lemma demo_opens : tx_open demo_open (new_sender [97] 1024 crc_start) = Ok (true, demo_sender).
Proof. vm_compute; reflexivity. Qed.

Lemma file_transfer_delivers_witness :
  exists wires r r' l,
    tx_session (mk_send 0 true [] (fun _ => true)) [1; 0; 1] demo_sender = Ok wires /\
    rx_run (zip [demo_env; demo_env; demo_env] wires) r = Ok (l, r') /\ kComplete ∈ l /\ rx_fd r' = Some demo_file.
Proof.
  destruct (file_transfer_delivers demo_open [97] 1024 crc_start crc_start demo_file 420 5 demo_sender [47] 0 [1; 0; 1]
    [demo_env; demo_env; demo_env] crc_start_ok crc_start_ok eq_refl eq_refl eq_refl) as
    (wire & wires & r & r' & l & _ & _ & E1 & E2 & E3 & _ & E4).
  - lia.
  - by_deciding.
  - by_deciding.
  - vm_compute; reflexivity.
  - vm_compute; discriminate.
  - exact demo_opens.
  - vm_compute; discriminate.
  - repeat constructor; cbn; lia.
  - cbn. intros i Hi. assert (i = 0 \/ i = 1) as [-> | ->] by lia; by_deciding.
  - repeat constructor; cbn; lia.
  - reflexivity.
  - exists wires, r, r', l. split_and!; assumption.
Defined.

Definition demo_chunk (i : Z) (data : list Z) : list Z :=
  let c := mk_chunk i (len data) (crc32c data) (if i =? 1 then SL_FILE_CHUNK_FLAG_LAST else 0) (Some data) in
  chunk_wire c (fc_crc32c c).

(** A hostile frame, the last chunk, the first one while a write fails, and the first one again. *)
Definition demo_arrivals : list (chunk_env * list Z) :=
  [(demo_env, [1; 2; 3]); (demo_env, demo_chunk 1 (replicate 476 7));
   (mk_cenv [-1] true [] [] true, demo_chunk 0 (replicate 1024 7)); (demo_env, demo_chunk 0 (replicate 1024 7));
   (demo_env, demo_chunk 0 (replicate 1024 8))].

Lemma file_receive_integrity_witness :
  exists r l r' disk, on_meta (mk_menv true true true true) (new_receiver [47] crc_start) (meta_wire demo_meta) = Ok (kAccepted, r) /\
    rx_run demo_arrivals r = Ok (l, r') /\ l = [kBadChunk; kAccepted; kIoError; kComplete; kDuplicate] /\
    is_complete r' = true /\ rx_fd r' = Some disk /\ sha256 disk = sha256 demo_file.
Proof.
  eexists. assert (E : on_meta (mk_menv true true true true) (new_receiver [47] crc_start) (meta_wire demo_meta) = Ok (kAccepted, _))
    by (vm_compute; reflexivity).
  destruct (file_receive_integrity (mk_menv true true true true) (new_receiver [47] crc_start) (meta_wire demo_meta) _
    demo_arrivals ltac:(by_deciding) crc_start_ok eq_refl E) as (l & r' & E2 & _ & Hc & Hv).
  - vm_compute; discriminate.
  - unfold demo_arrivals, arrival_ok. repeat constructor; by_deciding.
  - assert (El : l = [kBadChunk; kAccepted; kIoError; kComplete; kDuplicate]) by (vm_compute in E2; congruence).
    assert (Hin : kComplete ∈ l) by (rewrite El; do 3 right; left).
    destruct (Hv Hin) as (disk & Hf & Hd); [unfold demo_arrivals, arrival_absorbed; repeat constructor|].
    exists l, r', disk. split_and!; [exact E|exact E2|exact El|exact (Hc Hin)|exact Hf|exact Hd].
Defined.

(** ** Deviations *)

(** A file whose digest does not match is reported once, and from then on the receiver says it is
    complete. *)
Lemma complete_after_mismatch :
  let m := mk_meta 1024 1024 1 420 5 (sha256 [1]) ([97] ++ replicate 256 0) 1 in
  let c := mk_chunk 0 1024 (crc32c (replicate 1024 7)) 1 (Some (replicate 1024 7)) in
  exists r r', on_meta (mk_menv true true true true) (new_receiver [47] crc_start) (meta_wire m) = Ok (kAccepted, r) /\
    on_chunk demo_env r (chunk_wire c (fc_crc32c c)) = Ok (kHashMismatch, r') /\ is_complete r' = true.
Proof. do 2 eexists. split; [vm_compute; reflexivity|]. split; [vm_compute; reflexivity|vm_compute; reflexivity]. Qed.

(** A failed update of the digest goes unnoticed: completion is reported of a file whose digest is
    not the announced one, which is that of the part absorbed. *)
Lemma failed_update_unnoticed :
  let m := mk_meta 1500 1500 1 420 5 (sha256 (replicate 500 7)) ([97] ++ replicate 256 0) 1 in
  let c := mk_chunk 0 1500 (crc32c demo_file) 1 (Some demo_file) in
  exists r r', on_meta (mk_menv true true true true) (new_receiver [47] crc_start) (meta_wire m) = Ok (kAccepted, r) /\
    on_chunk (mk_cenv [] true [1000] [false] true) r (chunk_wire c (fc_crc32c c)) = Ok (kComplete, r') /\
    rx_fd r' = Some demo_file /\ sha256 demo_file <> fm_sha256 m.
Proof.
  do 2 eexists. split; [vm_compute; reflexivity|]. split; [vm_compute; reflexivity|].
  split; [vm_compute; reflexivity|vm_compute; discriminate].
Qed.

(** A short read makes the sender send a truncated chunk and go on to the next; the receiver refuses
    it, so that the chunk is missing until it is asked for again. *)
Lemma short_read_truncates :
  exists w s r r', send_next_chunk (mk_send 0 true [700] (fun _ => true)) demo_sender = Ok (true, Some w, s) /\
    tx_next_idx s = 1 /\
    on_meta (mk_menv true true true true) (new_receiver [47] crc_start) (meta_wire demo_meta) = Ok (kAccepted, r) /\
    on_chunk demo_env r w = Ok (kBadChunk, r') /\ missing_chunks r' 64 = Ok [0; 1].
Proof.
  do 4 eexists. split; [vm_compute; reflexivity|]. split; [vm_compute; reflexivity|].
  split; [vm_compute; reflexivity|]. split; vm_compute; reflexivity.
Qed.

(** A read error while the digest is computed is final: the transfer stays incomplete, nothing is
    missing, and the chunk that would have to come again is a duplicate. *)
Lemma verify_error_is_final :
  let m := mk_meta 1024 1024 1 420 5 (sha256 (replicate 1024 7)) ([97] ++ replicate 256 0) 1 in
  let c := mk_chunk 0 1024 (crc32c (replicate 1024 7)) 1 (Some (replicate 1024 7)) in
  let w := chunk_wire c (fc_crc32c c) in
  exists r r' r'', on_meta (mk_menv true true true true) (new_receiver [47] crc_start) (meta_wire m) = Ok (kAccepted, r) /\
    on_chunk (mk_cenv [] true [512; -1] [] true) r w = Ok (kIoError, r') /\
    on_chunk demo_env r' w = Ok (kDuplicate, r'') /\ is_complete r'' = false /\ missing_chunks r'' 64 = Ok [].
Proof.
  do 3 eexists. split; [vm_compute; reflexivity|]. split; [vm_compute; reflexivity|].
  split; [vm_compute; reflexivity|]. split; vm_compute; reflexivity.
Qed.

(** An empty file has no chunk, so it never completes. *)
Lemma empty_file_never_completes e r w res r' :
  rx_meta_set r = true -> fm_total_chunks (rx_meta r) = 0 -> rx_hash_done r = false -> bytes_ok w ->
  on_chunk e r w = Ok (res, r') -> res = kBadChunk /\ is_complete r' = false.
Proof.
  intros Hm Ht Hd Hw. unfold on_chunk. rewrite Hm. cbn [negb].
  assert (Hbad : is_complete (bad_chunk r).2 = false) by (unfold is_complete; cbn; by rewrite Hd, andb_false_r).
  destruct (chunk_unpack_sound w Hw) as (o & -> & Ho). destruct o as [c|]; [|by intros [= <- <-]].
  destruct Ho as ((Hi & _) & _). rewrite Ht, (proj2 (Z.leb_le _ _)) by lia. by intros [= <- <-].
Qed.

(** Metadata may announce a file of 2^32 - 1 chunks: the bitmap then holds one byte, and the first
    well-formed chunk past it reads and writes outside. *)
Definition huge_meta : sl_file_meta_t :=
  mk_meta (UINT32_MAX * 1024) 1024 UINT32_MAX 420 5 (replicate 32 0) ([97] ++ replicate 256 0) 1.

Lemma huge_transfer_overflows e :
  let c := mk_chunk 8 1024 (crc32c (replicate 1024 7)) 0 (Some (replicate 1024 7)) in
  exists r, on_meta (mk_menv true true true true) (new_receiver [47] crc_start) (meta_wire huge_meta) = Ok (kAccepted, r) /\
    on_chunk e r (chunk_wire c (fc_crc32c c)) = Fault.
Proof.
  intros c. assert (Eu : sl_file_meta_unpack (meta_wire huge_meta) = Ok (Some huge_meta)) by (vm_compute; reflexivity).
  unfold on_meta. cbn [new_receiver rx_meta_set]. rewrite Eu.
  assert (Ei : sl_resume_map_init true (fm_total_chunks huge_meta) = Some (mk_rmap [0] UINT32_MAX 0)) by reflexivity.
  cbn [me_resume]. rewrite Ei. unfold open_dest_file, sl_sha256_stream_new. cbn [me_stream negb me_open rx_meta me_truncate].
  assert (Ep : (0 <? fm_total_size huge_meta) = true) by reflexivity. rewrite Ep.
  generalize (replicate (Z.to_nat (fm_total_size huge_meta)) 0). intros disk.
  eexists. split; [reflexivity|]. vm_compute; reflexivity.
Qed.
