(* ===== verification/RpcServer.v ===== *)
(** The server side of RPC: method names ([src/sl_rpc_method.c]) and the dispatcher
    ([src/rpc_dispatcher.cpp]).  A handler is application code: a function from the body to a
    response, or [None] when it throws. *)

From stdpp Require Import gmap.
From S2P Require Import Prelude Ctype ByteOrder Codec RpcMsg.
Local Open Scope Z_scope.

(** ** Method names *)

(* src/inc/sl_rpc_method.h:21-21 *)
Definition SL_RPC_METHOD_NAME_MAX : Z := 128.

Definition ch_dot : Z := 46.
Definition method_char (c : Z) : bool := isalnum c || (c =? 95).

(* src/src/sl_rpc_method.c:6-22 *)
Definition sl_rpc_method_is_valid (method : list Z) (n : Z) : M bool :=
  if (n =? 0) || (SL_RPC_METHOD_NAME_MAX <? n) then Ok false
  else
    let! first := load method 0 in
    if first =? ch_dot then Ok false
    else
      let! lst := load method (n - 1) in
      if lst =? ch_dot then Ok false
      else
        let! r := for_ret (Z.to_nat n) 0 (fun i segment_len =>
          let! c := load method i in
          Ok (if c =? ch_dot then (if segment_len =? 0 then inr false else inl 0)
              else if negb (method_char c) then inr false
              else inl (u64 (segment_len + 1)))) 0 in
        match r with
        | inl segment_len => Ok (0 <? segment_len)
        | inr b => Ok b
        end.

(** The two buffers after the call; both are untouched when it fails. *)
(* src/src/sl_rpc_method.c:24-47 *)
Definition sl_rpc_method_split (method : list Z) (n : Z) (ns_out leaf_out : list Z)
  : M (Z * list Z * list Z) :=
  let! ok := sl_rpc_method_is_valid method n in
  if negb ok then Ok (-1, ns_out, leaf_out)
  else
    let! last_dot := for_up (Z.to_nat n) 0 (fun i d =>
      let! c := load method i in Ok (if c =? ch_dot then Some i else d)) None in
    match last_dot with
    | None =>
        let! ns_out := store ns_out 0 0 in
        let! m := load_bytes method 0 n in
        let! leaf_out := store_bytes leaf_out 0 m in
        let! leaf_out := store leaf_out n 0 in
        Ok (0, ns_out, leaf_out)
    | Some ns_len =>
        let leaf_len := n - ns_len - 1 in
        let! ns := load_bytes method 0 ns_len in
        let! ns_out := store_bytes ns_out 0 ns in
        let! ns_out := store ns_out ns_len 0 in
        let! leaf := load_bytes method (ns_len + 1) leaf_len in
        let! leaf_out := store_bytes leaf_out 0 leaf in
        let! leaf_out := store leaf_out leaf_len 0 in
        Ok (0, ns_out, leaf_out)
    end.

(** The names of the header: dotted parts of letters, digits and underscores. *)
Definition method_ok (m : list Z) : bool :=
  (len m <=? SL_RPC_METHOD_NAME_MAX) && forallb (part_ok method_char) (split_segs ch_dot m).

Lemma method_valid_spec m : sl_rpc_method_is_valid m (len m) = Ok (method_ok m).
Proof.
  unfold sl_rpc_method_is_valid, method_ok. destruct m as [|c s]; [done|].
  destruct (Z.eqb_spec (len (c :: s)) 0) as [E|_]; [len_lia|]. cbn [orb].
  destruct (Z.ltb_spec SL_RPC_METHOD_NAME_MAX (len (c :: s))) as [Hl|Hl].
  { by rewrite (proj2 (Z.leb_gt _ _)) by lia. }
  rewrite (proj2 (Z.leb_le _ SL_RPC_METHOD_NAME_MAX)) by lia. cbn [andb]. rewrite ends_guard by done.
  destruct (ends_clear ch_dot (c :: s)) eqn:E.
  2: { destruct (forallb _ _) eqn:F; [|done]. apply parts_ends in F. congruence. }
  rewrite len_to_nat.
  rewrite (for_ret_list (scan_step ch_dot method_char) _ (c :: s) [] []) by (intros; by rewrite app_nil_r).
  unfold SL_RPC_METHOD_NAME_MAX in Hl. rewrite <- (scan_segs ch_dot) by lia.
  by destruct (list_ret _ (c :: s) 0).
Qed.

Lemma method_ok_len m : method_ok m = true -> 1 <= len m <= SL_RPC_METHOD_NAME_MAX.
Proof.
  unfold method_ok. intros [H1%Z.leb_le H2]%andb_prop. split; [|done].
  destruct m as [|c m]; [done|len_lia].
Qed.

(** A valid name has no terminator inside. *)
Lemma method_ok_text m : method_ok m = true -> Forall (fun c => c <> 0) m.
Proof.
  intros [_ H%parts_chars]%andb_prop. eapply Forall_impl; [exact H|]. by intros c [E|E] E0; subst c.
Qed.

(** Cutting at the last dot. *)
Fixpoint last_dot_at (l : list Z) (i : Z) (d : option Z) : option Z :=
  match l with [] => d | c :: l => last_dot_at l (i + 1) (if c =? ch_dot then Some i else d) end.

Lemma last_dot_loop l : forall pre d,
  for_up (length l) (len pre) (fun i d =>
    let! c := load (pre ++ l) i in Ok (if c =? ch_dot then Some i else d)) d =
  Ok (last_dot_at l (len pre) d).
Proof.
  induction l as [|c l IH]; intros pre d; [done|]. cbn [for_up length last_dot_at].
  rewrite load_app_mid. cbv beta iota. specialize (IH (pre ++ [c])). rewrite <- app_assoc in IH.
  replace (len pre + 1) with (len (pre ++ [c])) by len_lia. apply IH.
Qed.

Lemma last_dot_found l : forall i d,
  match last_dot_at l i d with
  | None => d = None /\ ch_dot ∉ l
  | Some k => (d = Some k /\ ch_dot ∉ l) \/
      exists a b, l = a ++ ch_dot :: b /\ k = i + len a /\ ch_dot ∉ b
  end.
Proof.
  induction l as [|c l IH]; intros i d; cbn [last_dot_at].
  - destruct d; [left|]; split; set_solver.
  - specialize (IH (i + 1) (if c =? ch_dot then Some i else d)).
    destruct (last_dot_at _ _ _) as [k|].
    + destruct IH as [[E Hn]|(a & b & -> & -> & Hn)].
      * destruct (Z.eqb_spec c ch_dot) as [->|Hc]; [|left; set_solver].
        right. exists [], l. injection E as <-. split_and!; [done|change (len (@nil Z)) with 0; lia|done].
      * right. exists (c :: a), b. split_and!; [done|len_lia|done].
    + destruct (Z.eqb_spec c ch_dot); set_solver.
Qed.

(** [b] starts with the text [s] and its terminator. *)
Definition holds_text (b s : list Z) : Prop := exists rest, b = s ++ 0 :: rest.

Lemma store_text buf s :
  len s < len buf ->
  exists b1 b2, store_bytes buf 0 s = Ok b1 /\ store b1 (len s) 0 = Ok b2 /\ holds_text b2 s /\ len b2 = len buf.
Proof.
  intros Hl. rewrite store_bytes_0 by lia.
  destruct (drop (length s) buf) as [|x rest] eqn:E.
  { apply (f_equal len) in E. rewrite len_drop_nat in E by (unfold len in *; lia). change (@len Z []) with 0 in E.
    unfold len in *. lia. }
  eexists _, _. split; [reflexivity|]. rewrite (store_app_at s x 0 rest) by done.
  split; [reflexivity|]. split; [by exists rest|].
  apply (f_equal len) in E. rewrite len_drop_nat in E by (unfold len in *; lia).
  rewrite len_app, !len_cons in *. unfold len in *. lia.
Qed.

(** A valid name is cut at its last dot: the two parts give the name back, and the leaf, which is
    not empty, has no dot of its own.  A name without a dot has an empty namespace. *)
Lemma method_split_spec m ns_out leaf_out :
  method_ok m = true -> SL_RPC_METHOD_NAME_MAX < len ns_out -> SL_RPC_METHOD_NAME_MAX < len leaf_out ->
  exists ns leaf b1 b2,
    sl_rpc_method_split m (len m) ns_out leaf_out = Ok (0, b1, b2) /\
    holds_text b1 ns /\ holds_text b2 leaf /\ (ch_dot ∉ leaf) /\ leaf <> [] /\
    (m = ns ++ ch_dot :: leaf \/ (ns = [] /\ m = leaf)).
Proof.
  intros Hm H1 H2. pose proof (method_ok_len m Hm) as Hl. unfold sl_rpc_method_split.
  rewrite method_valid_spec, Hm, len_to_nat. cbn [negb].
  pose proof (last_dot_loop m [] None) as Ed. cbn [app] in Ed. change (len (@nil Z)) with 0 in Ed. rewrite Ed.
  pose proof (last_dot_found m 0 None) as Hd. destruct (last_dot_at m 0 None) as [k|].
  - destruct Hd as [[? _]|(ns & leaf & E & -> & Hn)]; [done|].
    assert (Hlen : len m = len ns + 1 + len leaf) by (rewrite E, len_app, len_cons; lia).
    pose proof (len_nonneg ns). pose proof (len_nonneg leaf). rewrite Z.add_0_l.
    replace (len m - len ns - 1) with (len leaf) by lia. rewrite E, load_bytes_front by done.
    destruct (store_text ns_out ns) as (a1 & a2 & -> & Ea2 & Ha & _); [lia|]. rewrite Ea2.
    replace (ns ++ ch_dot :: leaf) with ((ns ++ [ch_dot]) ++ leaf ++ []) by (rewrite <- app_assoc, app_nil_r; done).
    rewrite load_bytes_app_mid by len_lia.
    destruct (store_text leaf_out leaf) as (c1 & c2 & -> & Ec2 & Hc & _); [lia|]. rewrite Ec2.
    exists ns, leaf, a2, c2. split_and!; [done..| |left; by rewrite <- app_assoc, app_nil_r]. intros ->.
    apply andb_prop in Hm as [_ Hm%parts_ends]. apply good_ends in Hm as [_ Hm]. apply Hm. by rewrite E, last_snoc.
  - destruct Hd as [_ Hn]. rewrite (store_ok ns_out) by lia.
    rewrite load_bytes_in_bounds, len_to_nat, drop_0, take_ge by (done || lia).
    destruct (store_text leaf_out m) as (c1 & c2 & -> & Ec2 & Hc & _); [lia|]. rewrite Ec2.
    eexists [], m, _, c2. split_and!; [done| |done..| |by right]; [|intros ->; done].
    destruct ns_out as [|x r]; [done|]. by exists r.
Qed.

(** ** The dispatcher *)

(* src/inc/rpc_dispatcher.hpp:19-22 *)
Record RpcResponse := mk_rpc_response { resp_status : sl_rpc_status_t; resp_body : list Z }.

(* src/inc/rpc_dispatcher.hpp:24-24 *)
Definition RpcHandler : Type := list Z -> option RpcResponse.

(* src/inc/rpc_dispatcher.hpp:37-43 *)
Record DispatchStats := mk_dispatch_stats {
  requests_total : Z; responses_ok : Z; responses_error : Z; method_not_found : Z; handler_threw : Z
}.

(* src/inc/rpc_dispatcher.hpp:51-53 *)
Record RpcDispatcher := mk_dispatcher { methods_ : gmap (list Z) RpcHandler; dstats_ : DispatchStats }.

(* src/inc/rpc_dispatcher.hpp:51-53 *)
Definition new_dispatcher : RpcDispatcher := mk_dispatcher ∅ (mk_dispatch_stats 0 0 0 0 0).

(* src/src/rpc_dispatcher.cpp:7-10 *)
Definition register_method (method : list Z) (h : RpcHandler) (d : RpcDispatcher) : RpcDispatcher :=
  mk_dispatcher (<[method := h]> (methods_ d)) (dstats_ d).

(* src/src/rpc_dispatcher.cpp:12-15 *)
Definition unregister_method (method : list Z) (d : RpcDispatcher) : RpcDispatcher :=
  mk_dispatcher (delete method (methods_ d)) (dstats_ d).

(* src/src/rpc_dispatcher.cpp:17-20 *)
Definition method_count (d : RpcDispatcher) : Z := Z.of_nat (size (methods_ d)).

(* src/src/rpc_dispatcher.cpp:22-25 *)
Definition dispatcher_stats (d : RpcDispatcher) : DispatchStats := dstats_ d.

(* src/src/rpc_dispatcher.cpp:27-43 *)
Definition make_response (req_id : Z) (r : RpcResponse) : M (list Z) :=
  let resp := mk_response req_id (resp_status r)
                (if bool_decide (resp_body r = []) then None else Some (resp_body r)) (u32 (len (resp_body r))) in
  let out := replicate (Z.to_nat (12 + len (resp_body r))) 0 in
  let! '(n, out) := sl_rpc_response_pack resp out in
  Ok (if n <? 0 then [] else take (Z.to_nat n) out).

Definition count_total (s : DispatchStats) : DispatchStats :=
  mk_dispatch_stats (u64 (requests_total s + 1)) (responses_ok s) (responses_error s) (method_not_found s) (handler_threw s).
Definition count_ok (s : DispatchStats) : DispatchStats :=
  mk_dispatch_stats (requests_total s) (u64 (responses_ok s + 1)) (responses_error s) (method_not_found s) (handler_threw s).
Definition count_error (s : DispatchStats) : DispatchStats :=
  mk_dispatch_stats (requests_total s) (responses_ok s) (u64 (responses_error s + 1)) (method_not_found s) (handler_threw s).
Definition count_not_found (s : DispatchStats) : DispatchStats :=
  mk_dispatch_stats (requests_total s) (responses_ok s) (responses_error s) (u64 (method_not_found s + 1)) (handler_threw s).
Definition count_threw (s : DispatchStats) : DispatchStats :=
  mk_dispatch_stats (requests_total s) (responses_ok s) (responses_error s) (method_not_found s) (u64 (handler_threw s + 1)).

(** The lock is dropped while the handler runs; what other calls do to the counters meanwhile
    commutes with what this one does.  The method is looked up as a C string. *)
(* src/src/rpc_dispatcher.cpp:45-99 *)
Definition handle (request_bytes : list Z) (d : RpcDispatcher) : M (list Z * RpcDispatcher) :=
  let! req := sl_rpc_request_unpack request_bytes zero_request in
  match req with
  | None =>
      let d := mk_dispatcher (methods_ d) (count_error (count_total (dstats_ d))) in
      let! out := make_response 0 (mk_rpc_response SL_RPC_BAD_REQUEST []) in
      Ok (out, d)
  | Some req =>
      let d := mk_dispatcher (methods_ d) (count_total (dstats_ d)) in
      match methods_ d !! cstr (rq_method req) with
      | None =>
          let d := mk_dispatcher (methods_ d) (count_error (count_not_found (dstats_ d))) in
          let! out := make_response (rq_id req) (mk_rpc_response SL_RPC_NOT_FOUND []) in
          Ok (out, d)
      | Some handler =>
          let! body := (if 0 <? rq_body_len req then load_bytes (default [] (rq_body req)) 0 (rq_body_len req)
                        else Ok []) in
          let '(result, d) :=
            match handler body with
            | Some r => (r, d)
            | None => (mk_rpc_response SL_RPC_INTERNAL [],
                       mk_dispatcher (methods_ d) (count_error (count_threw (dstats_ d))))
            end in
          let d := mk_dispatcher (methods_ d)
                     (if resp_status result =? SL_RPC_OK then count_ok (dstats_ d) else count_error (dstats_ d)) in
          let! out := make_response (rq_id req) result in
          Ok (out, d)
      end
  end.

(** What the service answers to a request: the contract of the header. *)
Definition answer (methods : gmap (list Z) RpcHandler) (method body : list Z) : RpcResponse :=
  match methods !! method with
  | None => mk_rpc_response SL_RPC_NOT_FOUND []
  | Some h => match h body with Some r => r | None => mk_rpc_response SL_RPC_INTERNAL [] end
  end.

(** A response that fits a message, and the message that carries it. *)
Definition sendable (r : RpcResponse) : Prop := is_u8 (resp_status r) /\ len (resp_body r) <= SL_RPC_BODY_MAX.

Definition carry (id : Z) (r : RpcResponse) : sl_rpc_response_t :=
  mk_response id (resp_status r)
    (if bool_decide (resp_body r = []) then None else Some (resp_body r)) (len (resp_body r)).

(** The pointer and length passed for a vector. *)
Lemma body_canon (body : list Z) : ptr_canon (if bool_decide (body = []) then None else Some body) (len body).
Proof.
  destruct body as [|x b]; [done|]. rewrite bool_decide_eq_false_2 by done. unfold ptr_canon, ptr_bytes.
  cbn [default]. rewrite len_to_nat, take_ge by done. rewrite (proj2 (Z.ltb_lt _ _)) by len_lia.
  split_and!; [len_lia|done..].
Qed.

Lemma body_bytes (body : list Z) : ptr_bytes (if bool_decide (body = []) then None else Some body) (len body) = body.
Proof.
  destruct body as [|x b]; [done|]. rewrite bool_decide_eq_false_2 by done. unfold ptr_bytes.
  cbn [default]. by rewrite len_to_nat, take_ge by done.
Qed.

Lemma carry_valid id r : is_u32 id -> sendable r -> response_valid (carry id r).
Proof.
  intros Hi [Hs Hb]. unfold response_valid, carry. cbn [rs_id rs_status rs_body rs_body_len].
  repeat (split; [done|]). apply body_canon.
Qed.

Lemma make_response_spec id r :
  is_u32 id -> sendable r -> make_response id r = Ok (response_wire (carry id r)).
Proof.
  intros Hi Hs. pose proof (carry_valid id r Hi Hs) as Hv. apply response_valid_packable in Hv.
  pose proof (len_response_wire _ Hv) as Hl. destruct Hs as [_ Hb]. pose proof (len_nonneg (resp_body r)).
  unfold make_response. unfold SL_RPC_BODY_MAX in Hb. rewrite u32_small by lia. fold (carry id r).
  cbn [rs_body_len carry] in Hl.
  rewrite response_pack_fits; [|done|rewrite len_replicate; lia].
  rewrite (proj2 (Z.ltb_ge _ _)) by lia. by rewrite take_len_app.
Qed.

(** A response whose body does not fit becomes the empty message. *)
Lemma make_response_oversized id r :
  SL_RPC_BODY_MAX < len (resp_body r) < 2 ^ 32 -> make_response id r = Ok [].
Proof.
  intros Hb. unfold make_response, sl_rpc_response_pack. cbn [rs_body_len].
  unfold SL_RPC_BODY_MAX in *. rewrite u32_small by lia. by rewrite (proj2 (Z.ltb_lt _ _)) by lia.
Qed.

Lemma not_found_sendable : sendable (mk_rpc_response SL_RPC_NOT_FOUND []).
Proof. done. Qed.

(** A valid request for [m] gets the contract's answer, under the request's identifier. *)
Lemma handle_request req m d :
  request_valid req -> request_method req = m -> Forall (fun c => c <> 0) m ->
  sendable (answer (methods_ d) m (ptr_bytes (rq_body req) (rq_body_len req))) ->
  exists d', handle (request_wire req) d =
    Ok (response_wire (carry (rq_id req) (answer (methods_ d) m (ptr_bytes (rq_body req) (rq_body_len req)))), d') /\
    methods_ d' = methods_ d.
Proof.
  intros Hv Em Ht Hs. unfold handle. pose proof (request_unpack_wire req [] Hv) as Eu.
  rewrite app_nil_r in Eu. rewrite Eu. cbv beta iota zeta. cbn [methods_ dstats_].
  destruct Hv as (Hi & Hm & Ea & Hl & Hb & Hc).
  assert (Ec : cstr (rq_method req) = m).
  { rewrite Ea, Em, cstr_app_text by done. replace (Z.to_nat _) with (S (Z.to_nat (SL_RPC_METHOD_MAX - rq_method_len req))) by lia.
    cbn [replicate cstr Z.eqb]. by rewrite app_nil_r. }
  rewrite Ec. unfold answer in *. destruct (methods_ d !! m) as [h|].
  2: { rewrite make_response_spec by done. eauto. }
  assert (Eb : (if 0 <? rq_body_len req then load_bytes (default [] (rq_body req)) 0 (rq_body_len req) else Ok []) =
               Ok (ptr_bytes (rq_body req) (rq_body_len req))).
  { destruct (Z.ltb_spec 0 (rq_body_len req)); [by apply load_ptr, ptr_canon_ok|].
    destruct Hc as [H0 _]. by replace (rq_body_len req) with 0 by lia. }
  rewrite Eb. destruct (h _) as [r|]; rewrite make_response_spec by done; eauto.
Qed.

Lemma make_response_total id r : len (resp_body r) < 2 ^ 63 -> exists out, make_response id r = Ok out.
Proof.
  intros Hsz. unfold make_response. set (resp := mk_response _ _ _ _). set (n := u32 (len (resp_body r))).
  pose proof (u32_range (len (resp_body r))) as Hn. fold n in Hn.
  destruct (Z.ltb_spec SL_RPC_BODY_MAX n) as [Hb|Hb].
  { unfold sl_rpc_response_pack. cbn [resp rs_body_len]. fold n. rewrite (proj2 (Z.ltb_lt _ _)) by done. eauto. }
  assert (Hle : n <= len (resp_body r)) by (apply Z.mod_le; [apply len_nonneg|lia]).
  assert (Hp : response_packable resp).
  { split; [done|]. cbn [resp rs_body rs_body_len]. fold n. split; [lia|]. intros Hpos.
    exists (resp_body r). rewrite bool_decide_eq_false_2; [done|]. intros E. rewrite E in Hle.
    change (@len Z []) with 0 in Hle. lia. }
  rewrite response_pack_fits; [eauto|done|]. rewrite len_response_wire, len_replicate by done.
  cbn [resp rs_body_len]. fold n. lia.
Qed.

(** Whatever bytes arrive and whatever the handlers do, [handle] answers and keeps the table of
    methods. *)
Lemma handle_total inp d :
  bytes_ok inp -> (forall m h b r, methods_ d !! m = Some h -> h b = Some r -> len (resp_body r) < 2 ^ 63) ->
  exists out d', handle inp d = Ok (out, d') /\ methods_ d' = methods_ d.
Proof.
  intros Hb Hh. unfold handle.
  destruct (request_unpack_valid inp Hb) as ([req|] & -> & Hv); cbv beta iota zeta; cbn [methods_ dstats_].
  2: { destruct (make_response_total 0 (mk_rpc_response SL_RPC_BAD_REQUEST [])) as [o ->]; [done|]. eauto. }
  destruct (methods_ d !! _) as [h|] eqn:Em.
  2: { destruct (make_response_total (rq_id req) (mk_rpc_response SL_RPC_NOT_FOUND [])) as [o ->]; [done|]. eauto. }
  assert (exists body, (if 0 <? rq_body_len req then load_bytes (default [] (rq_body req)) 0 (rq_body_len req)
                        else Ok []) = Ok body) as [body ->].
  { destruct (0 <? rq_body_len req); [|eauto]. destruct Hv as (_ & _ & _ & _ & _ & Hc).
    rewrite load_ptr by by apply ptr_canon_ok. eauto. }
  destruct (h body) as [r|] eqn:Er.
  - destruct (make_response_total (rq_id req) r) as [o ->]; [by eapply Hh|]. eauto.
  - destruct (make_response_total (rq_id req) (mk_rpc_response SL_RPC_INTERNAL [])) as [o ->]; [done|]. eauto.
Qed.

(** A handler that throws is counted as two error responses: in the catch clause and after it. *)
Lemma throw_counted_twice :
  let req := mk_request 7 ([101] ++ replicate 128 0) 1 None 0 in
  let d := register_method [101] (fun _ => None) new_dispatcher in
  match handle (request_wire req) d with
  | Ok (_, d') => requests_total (dstats_ d') = 1 /\ responses_error (dstats_ d') = 2
  | Fault => False
  end.
Proof. by vm_compute. Qed.

(** A name with a 0 byte inside reaches the handler of the part before it. *)
Lemma nul_cuts_method :
  let req := mk_request 7 ([101; 0; 47] ++ replicate 126 0) 3 None 0 in
  let d := register_method [101] (fun _ => Some (mk_rpc_response SL_RPC_OK [1])) new_dispatcher in
  match handle (request_wire req) d with
  | Ok (_, d') => responses_ok (dstats_ d') = 1
  | Fault => False
  end.
Proof. by vm_compute. Qed.
