(* ===== verification/RpcClient.v ===== *)
(** The client side of RPC ([src/rpc_client.cpp]) and a call from end to end.

    A future is an index into the list of the futures handed out so far; [set_value] on a promise
    that is already fulfilled throws, which is a [Fault] here.  Every section under the client's
    mutex is one step, so the interleavings of the threads are the sequences of steps; a promise
    moved out of the table belongs to its thread, and fulfilling it is part of the step. *)

From stdpp Require Import gmap.
From S2P Require Import Prelude Ctype ByteOrder Codec RpcMsg RpcServer Id Timing.
Local Open Scope Z_scope.

(* src/inc/rpc_client.hpp:29-33 *)
Record RpcReply := mk_reply { reply_status : sl_rpc_status_t; reply_body : list Z; timed_out : bool }.

(* src/inc/rpc_client.hpp:76-79 *)
Record Pending := mk_pending { promise : nat; deadline_ms : Z }.
#[export] Instance Pending_eq_dec : EqDecision Pending.
Proof. solve_decision. Defined.

(* src/inc/rpc_client.hpp:65-72 *)
Record ClientStats := mk_client_stats {
  calls_started : Z; responses_matched : Z; timeouts : Z; cancellations : Z; send_failures : Z; unmatched : Z
}.

(* src/inc/rpc_client.hpp:81-85 *)
Record RpcClient := mk_client {
  ids_ : sl_rpc_id_alloc_t; pending_ : gmap Z Pending; cstats_ : ClientStats;
  futures : list (option RpcReply)
}.

(** [std::promise::set_value]. *)
Definition set_value (k : nat) (r : RpcReply) (fs : list (option RpcReply)) : M (list (option RpcReply)) :=
  match fs !! k with
  | Some None => Ok (<[k := Some r]> fs)
  | _ => Fault
  end.

Fixpoint set_values (ps : list Pending) (r : RpcReply) (fs : list (option RpcReply)) : M (list (option RpcReply)) :=
  match ps with
  | [] => Ok fs
  | p :: ps => let! fs := set_value (promise p) r fs in set_values ps r fs
  end.

(* src/src/rpc_client.cpp:10-12 *)
Definition new_client : RpcClient := mk_client sl_rpc_id_init ∅ (mk_client_stats 0 0 0 0 0 0) [].

(** A reply given at once: nothing of the client changes but the new future. *)
Definition reply_now (c : RpcClient) (ids : sl_rpc_id_alloc_t) (st : sl_rpc_status_t)
  : M (nat * option (Z * list Z) * RpcClient) :=
  let k := length (futures c) in
  let! fs := set_value k (mk_reply st [] false) (futures c ++ [None]) in
  Ok (k, None, mk_client ids (pending_ c) (cstats_ c) fs).

Definition count_started (s : ClientStats) : ClientStats :=
  mk_client_stats (u64 (calls_started s + 1)) (responses_matched s) (timeouts s) (cancellations s) (send_failures s) (unmatched s).
Definition count_matched (s : ClientStats) : ClientStats :=
  mk_client_stats (calls_started s) (u64 (responses_matched s + 1)) (timeouts s) (cancellations s) (send_failures s) (unmatched s).
Definition count_timeouts (n : Z) (s : ClientStats) : ClientStats :=
  mk_client_stats (calls_started s) (responses_matched s) (u64 (timeouts s + n)) (cancellations s) (send_failures s) (unmatched s).
Definition count_cancelled (n : Z) (s : ClientStats) : ClientStats :=
  mk_client_stats (calls_started s) (responses_matched s) (timeouts s) (u64 (cancellations s + n)) (send_failures s) (unmatched s).
Definition count_send_failure (s : ClientStats) : ClientStats :=
  mk_client_stats (calls_started s) (responses_matched s) (timeouts s) (cancellations s) (u64 (send_failures s + 1)) (unmatched s).
Definition count_unmatched (s : ClientStats) : ClientStats :=
  mk_client_stats (calls_started s) (responses_matched s) (timeouts s) (cancellations s) (send_failures s) (u64 (unmatched s + 1)).

(** The first half of [call], up to the end of its locked block: the future, and the identifier
    and bytes to send unless the call is already answered.  [emplace] keeps an existing entry. *)
(* src/src/rpc_client.cpp:18-72 call *)
Definition call_begin (method body : list Z) (timeout_ms : Z) (now : timespec) (c : RpcClient)
  : M (nat * option (Z * list Z) * RpcClient) :=
  let! ok := sl_rpc_method_is_valid method (len method) in
  if negb ok then reply_now c (ids_ c) SL_RPC_BAD_REQUEST
  else if SL_RPC_BODY_MAX <? len body then reply_now c (ids_ c) SL_RPC_BAD_REQUEST
  else
    let '(id, ids) := sl_rpc_id_next (ids_ c) in
    if id =? SL_RPC_ID_RESERVED then reply_now c ids SL_RPC_UNAVAILABLE
    else
      let! arr := store_bytes (rq_method zero_request) 0 method in
      let req := mk_request id arr (u16 (len method)) (if bool_decide (body = []) then None else Some body)
                   (u32 (len body)) in
      let wire := replicate (Z.to_nat (12 + len method + len body)) 0 in
      let! '(n, wire) := sl_rpc_request_pack req wire in
      if n <? 0 then reply_now c ids SL_RPC_BAD_REQUEST
      else
        let wire := take (Z.to_nat n) wire in
        let k := length (futures c) in
        let pend := mk_pending k (if 0 <? timeout_ms then sl_deadline_in_ms now timeout_ms else 0) in
        let pending := match pending_ c !! id with Some _ => pending_ c | None => <[id := pend]> (pending_ c) end in
        Ok (k, Some (id, wire), mk_client ids pending (count_started (cstats_ c)) (futures c ++ [None])).

(** The second half, with what [send_fn_] returned. *)
(* src/src/rpc_client.cpp:74-88 call *)
Definition call_finish (id : Z) (sent : bool) (c : RpcClient) : M RpcClient :=
  if sent then Ok c
  else
    match pending_ c !! id with
    | None => Ok c
    | Some p =>
        let! fs := set_value (promise p) (mk_reply SL_RPC_UNAVAILABLE [] false) (futures c) in
        Ok (mk_client (ids_ c) (delete id (pending_ c)) (count_send_failure (cstats_ c)) fs)
    end.

(** [call] with nothing in between; [send_fn] is [None] when it is empty. *)
(* src/src/rpc_client.cpp:18-88 *)
Definition call (send_fn : option (list Z -> bool)) (method body : list Z) (timeout_ms : Z) (now : timespec)
  (c : RpcClient) : M (nat * RpcClient) :=
  let! '(k, out, c) := call_begin method body timeout_ms now c in
  match out with
  | None => Ok (k, c)
  | Some (id, wire) =>
      let sent := match send_fn with Some f => f wire | None => false end in
      let! c := call_finish id sent c in
      Ok (k, c)
  end.

(* src/src/rpc_client.cpp:90-118 *)
Definition on_response (wire_bytes : list Z) (c : RpcClient) : M (bool * RpcClient) :=
  let! resp := sl_rpc_response_unpack wire_bytes in
  match resp with
  | None => Ok (false, mk_client (ids_ c) (pending_ c) (count_unmatched (cstats_ c)) (futures c))
  | Some resp =>
      match pending_ c !! rs_id resp with
      | None => Ok (false, mk_client (ids_ c) (pending_ c) (count_unmatched (cstats_ c)) (futures c))
      | Some p =>
          let! body := (if 0 <? rs_body_len resp then load_bytes (default [] (rs_body resp)) 0 (rs_body_len resp)
                        else Ok []) in
          let! fs := set_value (promise p) (mk_reply (rs_status resp) body false) (futures c) in
          Ok (true, mk_client (ids_ c) (delete (rs_id resp) (pending_ c)) (count_matched (cstats_ c)) fs)
      end
  end.

(** The clock is read once for each entry the sweep visits: [clk id] is the reading. *)
Definition is_expired (clk : Z -> timespec) (e : Z * Pending) : Prop :=
  deadline_ms e.2 <> 0 /\ sl_deadline_expired (clk e.1) (deadline_ms e.2) = true.
#[export] Instance is_expired_dec clk e : Decision (is_expired clk e).
Proof. apply _. Defined.

(** The entries are visited in the order of the hash table; any order gives the same futures. *)
(* src/src/rpc_client.cpp:120-142 *)
Definition sweep_timeouts (clk : Z -> timespec) (c : RpcClient) : M (Z * RpcClient) :=
  let expired := filter (is_expired clk) (map_to_list (pending_ c)) in
  let! fs := set_values (map snd expired) (mk_reply SL_RPC_UNAVAILABLE [] true) (futures c) in
  Ok (len expired,
      mk_client (ids_ c) (filter (fun e => ~ is_expired clk e) (pending_ c))
        (count_timeouts (len expired) (cstats_ c)) fs).

(* src/src/rpc_client.cpp:144-157 *)
Definition cancel_all (status : sl_rpc_status_t) (c : RpcClient) : M RpcClient :=
  let all := map_to_list (pending_ c) in
  let! fs := set_values (map snd all) (mk_reply status [] false) (futures c) in
  Ok (mk_client (ids_ c) ∅ (count_cancelled (Z.of_nat (size (pending_ c))) (cstats_ c)) fs).

(* src/src/rpc_client.cpp:159-162 *)
Definition pending_count (c : RpcClient) : Z := Z.of_nat (size (pending_ c)).

(* src/src/rpc_client.cpp:164-167 *)
Definition client_stats (c : RpcClient) : ClientStats := cstats_ c.

(* src/src/rpc_client.cpp:14-16 *)
Definition client_destroy (c : RpcClient) : M RpcClient := cancel_all SL_RPC_UNAVAILABLE c.

(** ** Interleavings *)

Inductive rpc_event :=
  | EvCall (method body : list Z) (timeout_ms : Z) (now : timespec)
  | EvSent (id : Z) (sent : bool)
  | EvResponse (wire_bytes : list Z)
  | EvSweep (clk : Z -> timespec)
  | EvCancel (status : sl_rpc_status_t).

Definition rpc_step (c : RpcClient) (e : rpc_event) : M RpcClient :=
  match e with
  | EvCall m b t now => let! '(_, _, c) := call_begin m b t now c in Ok c
  | EvSent id sent => call_finish id sent c
  | EvResponse w => let! '(_, c) := on_response w c in Ok c
  | EvSweep clk => let! '(_, c) := sweep_timeouts clk c in Ok c
  | EvCancel st => cancel_all st c
  end.

Fixpoint rpc_run (c : RpcClient) (evs : list rpc_event) : M RpcClient :=
  match evs with
  | [] => Ok c
  | e :: evs => let! c := rpc_step c e in rpc_run c evs
  end.

(** The bytes of the network are bytes. *)
Definition event_ok (e : rpc_event) : Prop :=
  match e with EvResponse w => bytes_ok w | _ => True end.

(** ** Every promise is fulfilled once *)

(** The table and the futures agree: the calls in the table are, one to one, the futures without a
    value. *)
Record linked (m : gmap Z Pending) (fs : list (option RpcReply)) : Prop := {
  linked_open : forall id p, m !! id = Some p -> fs !! promise p = Some None;
  linked_inj : forall id1 id2 p1 p2, m !! id1 = Some p1 -> m !! id2 = Some p2 -> promise p1 = promise p2 -> id1 = id2;
  linked_owned : forall k, fs !! k = Some None -> exists id p, m !! id = Some p /\ promise p = k
}.

(** What happens to the futures over time: they keep their values, and a call leaves the table
    only with a value. *)
Definition evolves (c c' : RpcClient) : Prop :=
  (forall k r, futures c !! k = Some (Some r) -> futures c' !! k = Some (Some r)) /\
  (forall id p, pending_ c !! id = Some p ->
     pending_ c' !! id = Some p \/ exists r, futures c' !! promise p = Some (Some r)).

#[export] Instance evolves_preorder : PreOrder evolves.
Proof.
  split; [by split; eauto|]. intros a b c [F1 P1] [F2 P2]. split; [by eauto|].
  intros id p H. destruct (P1 id p H) as [H'|[r H']]; [by eauto|]. right. eauto.
Qed.

Lemma set_value_ok k r fs : fs !! k = Some None -> set_value k r fs = Ok (<[k := Some r]> fs).
Proof. intros E. unfold set_value. by rewrite E. Qed.

Lemma linked_delete m fs id p r :
  linked m fs -> m !! id = Some p -> linked (delete id m) (<[promise p := Some r]> fs).
Proof.
  intros [Ho Hi Hw] E. split.
  - intros id' p' [Hne E']%lookup_delete_Some. rewrite list_lookup_insert_ne; [eauto|].
    intros Ep. apply Hne. by eapply Hi.
  - intros id1 id2 p1 p2 [_ E1]%lookup_delete_Some [_ E2]%lookup_delete_Some. by eapply Hi.
  - intros k Hk. destruct (decide (promise p = k)) as [<-|Hne].
    { rewrite list_lookup_insert_eq in Hk; [done|]. by eapply lookup_lt_Some, Ho. }
    rewrite list_lookup_insert_ne in Hk by done. destruct (Hw k Hk) as (id' & p' & E' & <-).
    exists id', p'. split; [|done]. apply lookup_delete_Some. split; [|done]. intros <-. congruence.
Qed.

(** Taking the entries [es] out of the table and fulfilling their promises. *)
Lemma settle es : forall m fs r m',
  linked m fs -> NoDup es -> (forall id p, (id, p) ∈ es -> m !! id = Some p) ->
  (forall id p, m' !! id = Some p <-> m !! id = Some p /\ (id, p) ∉ es) ->
  exists fs', set_values (map snd es) r fs = Ok fs' /\ linked m' fs' /\ length fs' = length fs /\
    Z.of_nat (size m) = Z.of_nat (size m') + len es /\
    (forall id p, (id, p) ∈ es -> fs' !! promise p = Some (Some r)) /\
    (forall k, (forall id p, (id, p) ∈ es -> promise p <> k) -> fs' !! k = fs !! k).
Proof.
  induction es as [|[id p] es IH]; intros m fs r m' HL Hnd Hin Hm'.
  { assert (m' = m) as ->.
    { apply map_eq. intros i. apply option_eq. intros q. rewrite Hm'. set_solver. }
    exists fs. split_and!; [done..|change (@len (Z * Pending) []) with 0; lia|set_solver|done]. }
  apply NoDup_cons in Hnd as [Hni Hnd]. assert (E : m !! id = Some p) by (apply Hin; set_solver).
  assert (Hfresh : forall q, (id, q) ∉ es).
  { intros q Hq. assert (q = p) as -> by (specialize (Hin id q); rewrite E in Hin; set_solver). done. }
  pose proof (linked_open _ _ HL _ _ E) as Eo. cbn [map set_values snd]. rewrite set_value_ok by done.
  destruct (IH (delete id m) (<[promise p := Some r]> fs) r m') as (fs' & Ef & HL' & Hl & Hs & Hr & Hk).
  - by apply linked_delete.
  - done.
  - intros i q Hq. apply lookup_delete_Some. split; [|apply Hin; set_solver]. intros <-. by eapply Hfresh.
  - intros i q. rewrite Hm', lookup_delete_Some, not_elem_of_cons. split; [|set_solver].
    intros [E' [Hne Hq]]. split_and!; [|done..]. intros <-. apply Hne. congruence.
  - exists fs'. split_and!; [done..| | | |].
    + by rewrite Hl, length_insert.
    + rewrite map_size_delete_Some in Hs by done. rewrite len_cons.
      pose proof (map_size_ne_0_lookup_2 m id ltac:(eauto)). lia.
    + intros i q [[= -> ->]|Hq]%elem_of_cons; [|by eapply Hr].
      rewrite Hk; [apply list_lookup_insert_eq; by eapply lookup_lt_Some|].
      intros i q Hq Ep. assert (i = id) as ->; [|by eapply Hfresh].
      apply (linked_inj _ _ HL i id q p); [apply Hin; set_solver|done..].
    + intros k Hne. rewrite Hk by (intros i q ?; apply (Hne i); set_solver).
      apply list_lookup_insert_ne. apply (Hne id). set_solver.
Qed.

Definition outcomes (s : ClientStats) : Z :=
  responses_matched s + timeouts s + cancellations s + send_failures s.

Record client_ok (c : RpcClient) : Prop := {
  ok_linked : linked (pending_ c) (futures c);
  ok_ids : exists n, after_ids n (ids_ c) /\ forall id p, pending_ c !! id = Some p -> 1 <= id <= n;
  ok_books : calls_started (cstats_ c) = u64 (outcomes (cstats_ c) + Z.of_nat (size (pending_ c)))
}.

Lemma new_client_ok : client_ok new_client.
Proof.
  split; [split|..]; cbn; try done.
  exists 0. split; [apply after_ids_init|done].
Qed.

(** The steps that end calls: [es] leave the table and the counters account for them. *)
Lemma settle_client c es r m' st' :
  client_ok c -> NoDup es -> (forall id p, (id, p) ∈ es -> pending_ c !! id = Some p) ->
  (forall id p, m' !! id = Some p <-> pending_ c !! id = Some p /\ (id, p) ∉ es) ->
  calls_started st' = calls_started (cstats_ c) -> u64 (outcomes st') = u64 (outcomes (cstats_ c) + len es) ->
  exists fs', set_values (map snd es) r (futures c) = Ok fs' /\
    client_ok (mk_client (ids_ c) m' st' fs') /\ evolves c (mk_client (ids_ c) m' st' fs') /\
    (forall id p, (id, p) ∈ es -> fs' !! promise p = Some (Some r)) /\
    (forall k, (forall id p, (id, p) ∈ es -> promise p <> k) -> fs' !! k = futures c !! k).
Proof.
  intros [HL (n & Hn & Hids) Hb] Hnd Hin Hm' Hs Ho.
  destruct (settle es (pending_ c) (futures c) r m' HL Hnd Hin Hm') as (fs' & Ef & HL' & _ & Hsz & Hr & Hk).
  exists fs'. split_and!; [done| | |done..].
  - split; [done| |]; cbn [ids_ pending_ cstats_ futures].
    + exists n. split; [done|]. intros id p [E _]%Hm'. eauto.
    + rewrite Hs, Hb, Hsz. rewrite Z.add_comm, <- Z.add_assoc, (Z.add_comm (len es)), (Z.add_comm (Z.of_nat _)).
      unfold u64 in *. rewrite Z.add_mod, <- Ho, <- Z.add_mod by lia. done.
  - split; cbn [futures pending_].
    + intros k q Ek. rewrite Hk; [done|]. intros id p He <-.
      apply Hin, (linked_open _ _ HL) in He. congruence.
    + intros id p E. destruct (decide ((id, p) ∈ es)) as [He|He]; [right; eauto|]. left. by apply Hm'.
Qed.

Ltac books := unfold outcomes, count_started, count_matched, count_timeouts, count_cancelled, count_send_failure, count_unmatched;
  cbn [calls_started responses_matched timeouts cancellations send_failures unmatched]; wrap_lia.

(** One call leaves the table. *)
Lemma settle_one c id p r st' :
  client_ok c -> pending_ c !! id = Some p ->
  calls_started st' = calls_started (cstats_ c) -> u64 (outcomes st') = u64 (outcomes (cstats_ c) + 1) ->
  exists fs', set_value (promise p) r (futures c) = Ok fs' /\
    client_ok (mk_client (ids_ c) (delete id (pending_ c)) st' fs') /\
    evolves c (mk_client (ids_ c) (delete id (pending_ c)) st' fs') /\
    fs' !! promise p = Some (Some r) /\ (forall k, promise p <> k -> fs' !! k = futures c !! k).
Proof.
  intros Hc E Hs Ho.
  destruct (settle_client c [(id, p)] r (delete id (pending_ c)) st' Hc) as (fs' & Ef & Hok & Hev & Hr & Hk).
  - apply NoDup_singleton.
  - intros i q Hq. apply list_elem_of_singleton in Hq. by simplify_eq.
  - intros i q. rewrite lookup_delete_Some, list_elem_of_singleton. split.
    + intros [Hne Hq]. split; [done|]. congruence.
    + intros [Hq Hne]. split; [|done]. intros <-. apply Hne. congruence.
  - done.
  - done.
  - exists fs'. cbn [map set_values snd] in Ef. split_and!; [|done..| |].
    + by destruct (set_value _ _ _).
    + eapply Hr. by apply list_elem_of_singleton.
    + intros k Hne. apply Hk. intros i q Hq. apply list_elem_of_singleton in Hq. by simplify_eq.
Qed.

(** ** The operations *)

Lemma reply_now_ok c ids st :
  client_ok c -> (exists n, after_ids n ids /\ forall id p, pending_ c !! id = Some p -> 1 <= id <= n) ->
  exists c', reply_now c ids st = Ok (length (futures c), None, c') /\ client_ok c' /\ evolves c c' /\
    futures c' = futures c ++ [Some (mk_reply st [] false)].
Proof.
  intros [HL _ Hb] Hids. unfold reply_now.
  rewrite set_value_ok by (by rewrite lookup_app_r, Nat.sub_diag by lia).
  rewrite insert_app_r_alt, Nat.sub_diag by lia. cbn [insert list_insert].
  eexists. split; [reflexivity|]. split_and!; [|split|done]; cbn [ids_ pending_ cstats_ futures].
  - split; [|done|done]. destruct HL as [Ho Hi Hw]. split; [|done|].
    + intros id p E. apply lookup_app_l_Some. eauto.
    + intros k [E|[_ E]]%lookup_app_Some; [eauto|]. by apply list_lookup_singleton_Some in E as [_ [=]].
  - intros k r E. by apply lookup_app_l_Some.
  - by left.
Qed.

(** The request a call sends. *)
Definition call_request (id : Z) (method body : list Z) : sl_rpc_request_t :=
  mk_request id (method ++ replicate (Z.to_nat (SL_RPC_METHOD_MAX + 1 - len method)) 0) (len method)
    (if bool_decide (body = []) then None else Some body) (len body).

Lemma call_request_valid id method body :
  is_u32 id -> method_ok method = true -> len body <= SL_RPC_BODY_MAX ->
  request_valid (call_request id method body) /\ request_method (call_request id method body) = method.
Proof.
  intros Hi Hm Hb. pose proof (method_ok_len _ Hm) as Hl. unfold SL_RPC_METHOD_NAME_MAX in Hl.
  assert (Em : request_method (call_request id method body) = method).
  { unfold request_method, call_request. cbn [rq_method rq_method_len]. apply take_len_app. }
  split; [|done]. unfold request_valid. rewrite Em. unfold call_request, SL_RPC_METHOD_MAX in *.
  cbn [rq_id rq_method rq_method_len rq_body rq_body_len]. repeat (split; [done|]). apply body_canon.
Qed.

(** A new call enters the table. *)
Lemma start_ok c n ids' p :
  client_ok c -> after_ids n (ids_ c) -> after_ids (n + 1) ids' -> promise p = length (futures c) ->
  let c' := mk_client ids' (<[n + 1 := p]> (pending_ c)) (count_started (cstats_ c)) (futures c ++ [None]) in
  pending_ c !! (n + 1) = None /\ client_ok c' /\ evolves c c'.
Proof.
  intros [HL (n' & Hn' & Hids) Hbk] Hn Hn1 Hp.
  assert (n' = n) as -> by (destruct Hn as (_ & <- & _), Hn' as (_ & <- & _); done).
  assert (Hfree : pending_ c !! (n + 1) = None).
  { destruct (pending_ c !! (n + 1)) as [q|] eqn:E; [|done]. apply Hids in E. lia. }
  destruct HL as [Ho Hi Hw].
  assert (Hlt : forall id q, pending_ c !! id = Some q -> (promise q < promise p)%nat)
    by (intros id q E; rewrite Hp; by eapply lookup_lt_Some, Ho).
  split; [done|]. split; [split|split]; cbn [ids_ pending_ cstats_ futures].
  - split.
    + intros id q [[<- <-]|[_ E]]%lookup_insert_Some; [by rewrite Hp, lookup_app_r, Nat.sub_diag by lia|].
      apply lookup_app_l_Some. eauto.
    + intros i1 i2 q1 q2 [[<- <-]|[_ E1]]%lookup_insert_Some [[<- <-]|[_ E2]]%lookup_insert_Some Eq; try done; [..|by eauto];
        [apply Hlt in E2|apply Hlt in E1]; lia.
    + intros k [E|[Hk E]]%lookup_app_Some.
      * destruct (Hw k E) as (id & q & Eq & <-). exists id, q. split; [|done]. apply lookup_insert_Some. right.
        split; [|done]. intros <-. congruence.
      * apply list_lookup_singleton_Some in E as [E _]. exists (n + 1), p. rewrite lookup_insert_eq. split; [done|lia].
  - exists (n + 1). split; [done|]. intros id q [[<- _]|[_ E]]%lookup_insert_Some; [destruct Hn as [? _]; lia|].
    apply Hids in E. lia.
  - rewrite map_size_insert_None by done. cbn [count_started calls_started]. rewrite Hbk. books.
  - intros k r E. by apply lookup_app_l_Some.
  - intros id q E. left. apply lookup_insert_Some. right. split; [|done]. intros <-. congruence.
Qed.

(** A call that reaches the wire: the next identifier, the packed request, a new entry. *)
Lemma call_begin_sends method body t now c n :
  client_ok c -> after_ids n (ids_ c) -> n <> UINT32_MAX ->
  method_ok method = true -> len body <= SL_RPC_BODY_MAX ->
  exists ids' st' p,
    call_begin method body t now c =
      Ok (length (futures c), Some (n + 1, request_wire (call_request (n + 1) method body)),
          mk_client ids' (<[n + 1 := p]> (pending_ c)) st' (futures c ++ [None])) /\
    promise p = length (futures c) /\
    deadline_ms p = (if 0 <? t then sl_deadline_in_ms now t else 0) /\
    client_ok (mk_client ids' (<[n + 1 := p]> (pending_ c)) st' (futures c ++ [None])) /\
    evolves c (mk_client ids' (<[n + 1 := p]> (pending_ c)) st' (futures c ++ [None])).
Proof.
  intros Hc Hn Hne Hm Hb.
  pose proof (method_ok_len _ Hm) as Hl. unfold SL_RPC_METHOD_NAME_MAX in Hl. pose proof (len_nonneg body).
  pose proof (proj1 Hn). assert (Hu : is_u32 (n + 1)) by lia.
  destruct (call_request_valid (n + 1) method body Hu Hm Hb) as [Hv _].
  pose proof (len_request_wire _ (request_valid_packable _ Hv)) as Hwl.
  unfold call_begin. rewrite method_valid_spec, Hm, (proj2 (Z.ltb_ge _ _)) by done. cbn [negb].
  pose proof (rpc_id_next_spec n (ids_ c) Hn) as Hnx. rewrite (proj2 (Z.eqb_neq _ _)) in Hnx by done.
  destruct Hnx as (ids' & -> & Hids'). unfold SL_RPC_ID_RESERVED. rewrite (proj2 (Z.eqb_neq (n + 1) 0)) by lia.
  unfold zero_request. cbn [rq_method]. rewrite store_bytes_0 by (rewrite len_replicate; unfold SL_RPC_METHOD_MAX; lia).
  rewrite drop_replicate. unfold SL_RPC_BODY_MAX in Hb. rewrite u16_small, u32_small by lia.
  replace (Z.to_nat (SL_RPC_METHOD_MAX + 1) - length method)%nat
    with (Z.to_nat (SL_RPC_METHOD_MAX + 1 - len method)) by (unfold SL_RPC_METHOD_MAX, len; lia).
  fold (call_request (n + 1) method body). cbn [call_request rq_method_len rq_body_len] in Hwl.
  rewrite request_pack_fits; [|by apply request_valid_packable|rewrite len_replicate; lia].
  rewrite (proj2 (Z.ltb_ge _ 0)) by lia. rewrite take_len_app.
  set (p := mk_pending _ _). destruct (start_ok c n ids' p Hc Hn Hids' eq_refl) as (-> & Hok & Hev).
  exists ids', (count_started (cstats_ c)), p. by split_and!.
Qed.

Lemma call_begin_ok method body t now c :
  client_ok c -> exists k out c', call_begin method body t now c = Ok (k, out, c') /\ client_ok c' /\ evolves c c'.
Proof.
  intros Hc. destruct (ok_ids c Hc) as (n & Hn & Hids).
  assert (Hnow : forall st, exists k out c', reply_now c (ids_ c) st = Ok (k, out, c') /\ client_ok c' /\ evolves c c').
  { intros st. destruct (reply_now_ok c (ids_ c) st Hc ltac:(eauto)) as (c' & E & ? & ? & _). eauto 6. }
  destruct (method_ok method) eqn:Hm.
  2: { unfold call_begin. rewrite method_valid_spec, Hm. apply Hnow. }
  destruct (Z.ltb_spec SL_RPC_BODY_MAX (len body)) as [Hb|Hb].
  { unfold call_begin. rewrite method_valid_spec, Hm, (proj2 (Z.ltb_lt _ _)) by done. apply Hnow. }
  destruct (decide (n = UINT32_MAX)) as [E|Hne].
  - unfold call_begin. rewrite method_valid_spec, Hm, (proj2 (Z.ltb_ge _ _)) by done. cbn [negb].
    pose proof (rpc_id_next_spec n (ids_ c) Hn) as Hnx. rewrite (proj2 (Z.eqb_eq _ _)) in Hnx by done.
    rewrite Hnx. apply Hnow.
  - destruct (call_begin_sends method body t now c n Hc Hn Hne Hm Hb) as (ids' & st' & p & -> & _ & _ & Hok & Hev).
    eauto 6.
Qed.

Lemma call_finish_ok id sent c :
  client_ok c -> exists c', call_finish id sent c = Ok c' /\ client_ok c' /\ evolves c c'.
Proof.
  intros Hc. unfold call_finish. destruct sent; [by exists c|]. destruct (pending_ c !! id) as [p|] eqn:E; [|by exists c].
  destruct (settle_one c id p (mk_reply SL_RPC_UNAVAILABLE [] false) (count_send_failure (cstats_ c)) Hc E)
    as (fs' & -> & Hok & Hev & _); [done|books|]. eauto.
Qed.

Lemma unmatched_ok c :
  client_ok c ->
  client_ok (mk_client (ids_ c) (pending_ c) (count_unmatched (cstats_ c)) (futures c)) /\
  evolves c (mk_client (ids_ c) (pending_ c) (count_unmatched (cstats_ c)) (futures c)).
Proof. intros [HL Hi Hb]. split; [by split|]. split; by eauto. Qed.

(** A response for a call in the table: its future gets the status and the body of the message,
    and nothing else changes. *)
Lemma on_response_matched resp rest id p c :
  client_ok c -> response_valid resp -> rs_id resp = id -> pending_ c !! id = Some p ->
  exists c', on_response (response_wire resp ++ rest) c = Ok (true, c') /\ client_ok c' /\ evolves c c' /\
    futures c' !! promise p = Some (Some (mk_reply (rs_status resp) (ptr_bytes (rs_body resp) (rs_body_len resp)) false)) /\
    (forall k, promise p <> k -> futures c' !! k = futures c !! k).
Proof.
  intros Hc Hv Hid E. unfold on_response. rewrite response_unpack_wire by done. rewrite Hid, E.
  destruct Hv as (_ & _ & _ & Hcn).
  assert ((if 0 <? rs_body_len resp then load_bytes (default [] (rs_body resp)) 0 (rs_body_len resp) else Ok []) =
          Ok (ptr_bytes (rs_body resp) (rs_body_len resp))) as ->.
  { destruct (Z.ltb_spec 0 (rs_body_len resp)); [by apply load_ptr, ptr_canon_ok|].
    destruct Hcn as [H0 _]. by replace (rs_body_len resp) with 0 by lia. }
  destruct (settle_one c id p (mk_reply (rs_status resp) (ptr_bytes (rs_body resp) (rs_body_len resp)) false)
    (count_matched (cstats_ c)) Hc E) as (fs' & -> & Hok & Hev & Hr & Hk); [done|books|]. eauto 7.
Qed.

Lemma on_response_ok w c :
  client_ok c -> bytes_ok w -> exists b c', on_response w c = Ok (b, c') /\ client_ok c' /\ evolves c c'.
Proof.
  intros Hc Hw. destruct (response_unpack_sound w Hw) as ([resp|] & Eu & H).
  - destruct H as [Hv [rest ->]]. destruct (pending_ c !! rs_id resp) as [p|] eqn:E.
    + destruct (on_response_matched resp rest _ p c Hc Hv eq_refl E) as (c' & -> & ? & ? & _). eauto.
    + unfold on_response. rewrite Eu, E. destruct (unmatched_ok c Hc). eauto.
  - unfold on_response. rewrite Eu. destruct (unmatched_ok c Hc). eauto.
Qed.

(** The sweep ends exactly the calls whose deadline has passed. *)
Lemma sweep_ok clk c :
  client_ok c -> exists n c', sweep_timeouts clk c = Ok (n, c') /\ client_ok c' /\ evolves c c' /\
    pending_ c' = filter (fun e => ~ is_expired clk e) (pending_ c) /\
    (forall id p, pending_ c !! id = Some p -> is_expired clk (id, p) ->
       futures c' !! promise p = Some (Some (mk_reply SL_RPC_UNAVAILABLE [] true))).
Proof.
  intros Hc. unfold sweep_timeouts. set (es := filter (is_expired clk) (map_to_list (pending_ c))).
  assert (Hes : forall id p, (id, p) ∈ es <-> is_expired clk (id, p) /\ pending_ c !! id = Some p)
    by (intros; unfold es; by rewrite list_elem_of_filter, elem_of_map_to_list).
  destruct (settle_client c es (mk_reply SL_RPC_UNAVAILABLE [] true) (filter (fun e => ~ is_expired clk e) (pending_ c))
    (count_timeouts (len es) (cstats_ c)) Hc) as (fs' & -> & Hok & Hev & Hr & Hk).
  - apply NoDup_filter, NoDup_map_to_list.
  - intros id p H. by apply Hes.
  - intros id p. rewrite map_lookup_filter_Some, Hes. naive_solver.
  - done.
  - books.
  - eexists _, _. split_and!; [done..|]. intros id p E Hx. eapply Hr. by apply Hes.
Qed.

Lemma cancel_ok st c :
  client_ok c -> exists c', cancel_all st c = Ok c' /\ client_ok c' /\ evolves c c' /\ pending_ c' = ∅.
Proof.
  intros Hc. unfold cancel_all.
  destruct (settle_client c (map_to_list (pending_ c)) (mk_reply st [] false) ∅
    (count_cancelled (Z.of_nat (size (pending_ c))) (cstats_ c)) Hc) as (fs' & -> & Hok & Hev & _ & _).
  - apply NoDup_map_to_list.
  - intros id p. apply elem_of_map_to_list.
  - intros id p. rewrite elem_of_map_to_list, lookup_empty. naive_solver.
  - done.
  - unfold len. rewrite length_map_to_list. books.
  - eauto.
Qed.

Lemma rpc_step_ok c e :
  client_ok c -> event_ok e -> exists c', rpc_step c e = Ok c' /\ client_ok c' /\ evolves c c'.
Proof.
  intros Hc He. destruct e as [m b t now|id sent|w|clk|st]; cbn [rpc_step].
  - destruct (call_begin_ok m b t now c Hc) as (k & out & c' & -> & H). eauto.
  - by apply call_finish_ok.
  - destruct (on_response_ok w c Hc He) as (b & c' & -> & H). eauto.
  - destruct (sweep_ok clk c Hc) as (n & c' & -> & H1 & H2 & _). eauto.
  - destruct (cancel_ok st c Hc) as (c' & -> & H1 & H2 & _). eauto.
Qed.

Lemma rpc_run_ok evs : forall c,
  client_ok c -> Forall event_ok evs -> exists c', rpc_run c evs = Ok c' /\ client_ok c' /\ evolves c c'.
Proof.
  induction evs as [|e evs IH]; intros c Hc Hev; [exists c; by split_and!|]. apply Forall_cons in Hev as [He Hev].
  destruct (rpc_step_ok c e Hc He) as (c1 & E1 & H1 & V1). destruct (IH c1 H1 Hev) as (c2 & E2 & H2 & V2).
  exists c2. cbn [rpc_run]. rewrite E1. split_and!; [done..|]. by transitivity c1.
Qed.

(** ** What callers see *)

(** The states the threads can bring a client to. *)
Definition reachable (c : RpcClient) : Prop :=
  exists evs, Forall event_ok evs /\ rpc_run new_client evs = Ok c.

Lemma reachable_ok c : reachable c -> client_ok c.
Proof.
  intros (evs & Hev & E). destruct (rpc_run_ok evs new_client new_client_ok Hev) as (c' & E' & Hok & _). congruence.
Qed.

(** C18: whatever the interleaving of calls, send results, responses (any bytes), sweeps and
    cancellations, no promise is fulfilled twice (that would throw, a [Fault] here); the futures
    still waiting are exactly the calls in the table; every call started is accounted for by one
    counter or by the table; a future keeps its value for ever; and destroying the client leaves
    no future waiting. *)
Theorem rpc_calls_resolve_once evs :
  Forall event_ok evs ->
  exists c, rpc_run new_client evs = Ok c /\
    (forall k, futures c !! k = Some None <-> exists id p, pending_ c !! id = Some p /\ promise p = k) /\
    calls_started (cstats_ c) = u64 (outcomes (cstats_ c) + pending_count c) /\
    (forall evs', Forall event_ok evs' -> exists c', rpc_run c evs' = Ok c' /\
       forall k r, futures c !! k = Some (Some r) -> futures c' !! k = Some (Some r)) /\
    (exists c', client_destroy c = Ok c' /\
       forall k, (k < length (futures c))%nat -> exists r, futures c' !! k = Some (Some r)).
Proof.
  intros Hev. destruct (rpc_run_ok evs new_client new_client_ok Hev) as (c & E & Hok & _).
  exists c. split; [done|]. pose proof Hok as [[Ho Hi Hw] _ Hb]. split_and!.
  - intros k. split; [apply Hw|]. intros (id & p & Ep & <-). eauto.
  - done.
  - intros evs' Hev'. destruct (rpc_run_ok evs' c Hok Hev') as (c' & E' & _ & Hf & _). eauto.
  - destruct (cancel_ok SL_RPC_UNAVAILABLE c Hok) as (c' & E' & _ & [Hf Hp] & Hnil). exists c'. split; [done|].
    intros k Hk. apply lookup_lt_is_Some in Hk as [[r|] Ek]; [eauto|].
    destruct (Hw k Ek) as (id & p & Ep & <-). destruct (Hp id p Ep) as [H|H]; [|done]. by rewrite Hnil in H.
Qed.

Definition echo : list Z := [101; 99; 104; 111].
Definition echo_handler : RpcHandler := fun b => Some (mk_rpc_response SL_RPC_OK b).
Definition clk0 : timespec := Some (5, 0).

Lemma rpc_calls_resolve_once_witness :
  exists c, rpc_run new_client [EvCall echo [1] 20 clk0; EvResponse [2]; EvCall [46] [] 0 clk0; EvSent 1 false] = Ok c /\
    calls_started (cstats_ c) = u64 (outcomes (cstats_ c) + pending_count c).
Proof.
  destruct (rpc_calls_resolve_once [EvCall echo [1] 20 clk0; EvResponse [2]; EvCall [46] [] 0 clk0; EvSent 1 false])
    as (c & E & _ & Hb & _); [|by exists c].
  repeat (constructor; try done).
Defined.

Lemma not_exhausted n a : after_ids n a -> sl_rpc_id_is_exhausted a = false -> n <> UINT32_MAX.
Proof. unfold sl_rpc_id_is_exhausted. intros (_ & _ & H) He ->. rewrite Z.eqb_refl in H. destruct H. congruence. Qed.

(** a call from end to end.  A call with a valid name and a body that fits hands one request
    to the transport.  If the dispatcher is given that request, at whatever time, and the client
    is given the dispatcher's reply while the call is still waiting, with any other activity of
    the client in between, then the caller's future gets the answer of the service for that
    method and body (the handler's response, NOT_FOUND for an unknown method, INTERNAL for a
    handler that throws), and no other future changes. *)
Theorem rpc_call_answered c method body t now :
  reachable c -> method_ok method = true -> len body <= SL_RPC_BODY_MAX -> sl_rpc_id_is_exhausted (ids_ c) = false ->
  exists id wire c1,
    call_begin method body t now c = Ok (length (futures c), Some (id, wire), c1) /\
    forall evs c2 d, Forall event_ok evs -> rpc_run c1 evs = Ok c2 ->
      futures c2 !! length (futures c) = Some None ->
      sendable (answer (methods_ d) method body) ->
      exists out d' c3, handle wire d = Ok (out, d') /\ on_response out c2 = Ok (true, c3) /\
        futures c3 !! length (futures c) =
          Some (Some (mk_reply (resp_status (answer (methods_ d) method body))
                               (resp_body (answer (methods_ d) method body)) false)) /\
        (forall k, k <> length (futures c) -> futures c3 !! k = futures c2 !! k).
Proof.
  intros Hr%reachable_ok Hm Hb Hx. destruct (ok_ids c Hr) as (n & Hn & _).
  pose proof (not_exhausted _ _ Hn Hx) as Hne.
  destruct (call_begin_sends method body t now c n Hr Hn Hne Hm Hb) as (ids' & st' & p & -> & Hp & _ & Hok & _).
  eexists _, _, _. split; [reflexivity|]. intros evs c2 d Hev E2 Hw Hs.
  destruct (rpc_run_ok evs _ Hok Hev) as (c2' & E2' & Hok2 & [_ Hpend]). assert (c2' = c2) as -> by congruence.
  destruct (Hpend (n + 1) p) as [Ep|[r Er]]; [apply lookup_insert_eq| |rewrite Hp in Er; congruence].
  assert (Hu : is_u32 (n + 1)) by (destruct Hn as [? _]; lia).
  destruct (call_request_valid (n + 1) method body Hu Hm Hb) as [Hv Em].
  destruct (handle_request _ method d Hv Em) as (d' & Eh & _); [by apply method_ok_text|..];
    cbn [call_request rq_body rq_body_len rq_id] in *; rewrite body_bytes in *; [done|].
  pose proof (carry_valid (n + 1) _ Hu Hs) as Hcv.
  destruct (on_response_matched _ [] (n + 1) p c2 Hok2 Hcv eq_refl Ep) as (c3 & E3 & _ & _ & Hr3 & Hk3).
  rewrite app_nil_r in E3. eexists _, d', c3. split; [exact Eh|]. split; [exact E3|]. rewrite <- Hp. split.
  - rewrite Hr3. cbn [carry rs_status rs_body rs_body_len]. by rewrite body_bytes.
  - intros k Hk. by apply Hk3.
Qed.

Lemma new_client_reachable : reachable new_client.
Proof. exists []. by split. Qed.

Lemma rpc_call_answered_witness :
  exists id wire c1,
    call_begin echo [7; 8] 1000 clk0 new_client = Ok (O, Some (id, wire), c1) /\
    exists out d' c3, handle wire (register_method echo echo_handler new_dispatcher) = Ok (out, d') /\
      on_response out c1 = Ok (true, c3) /\ futures c3 !! O = Some (Some (mk_reply SL_RPC_OK [7; 8] false)).
Proof.
  assert (H1 : method_ok echo = true) by by vm_compute.
  assert (H2 : len [7; 8] <= SL_RPC_BODY_MAX) by by vm_compute.
  destruct (rpc_call_answered new_client echo [7; 8] 1000 clk0 new_client_reachable H1 H2 eq_refl)
    as (id & wire & c1 & E & H). exists id, wire, c1. split; [exact E|].
  assert (Hc1 : futures c1 = [None]) by (vm_compute in E; injection E as _ _ <-; done).
  destruct (H [] c1 (register_method echo echo_handler new_dispatcher)) as (out & d' & c3 & E1 & E2 & E3 & _).
  - constructor.
  - done.
  - by rewrite Hc1.
  - by vm_compute.
  - exists out, d', c3. split; [exact E1|]. split; [exact E2|]. exact E3.
Defined.

(** a call with a timeout does not wait past it.  Whatever else the client does after the
    call, a sweep whose clock readings are all at least [t] milliseconds later leaves the future
    with a value: the one it had, or the time-out reply. *)
Theorem rpc_call_times_out c method body t now :
  reachable c -> method_ok method = true -> len body <= SL_RPC_BODY_MAX -> sl_rpc_id_is_exhausted (ids_ c) = false ->
  ts_ok now -> 0 < t -> is_u32 t ->
  exists id wire c1,
    call_begin method body t now c = Ok (length (futures c), Some (id, wire), c1) /\
    forall evs c2 clk, Forall event_ok evs -> rpc_run c1 evs = Ok c2 ->
      (forall id, ts_ok (clk id) /\ elapsed_ns now / 1000000 + t <= elapsed_ns (clk id) / 1000000) ->
      exists n c3, sweep_timeouts clk c2 = Ok (n, c3) /\
        (futures c2 !! length (futures c) = Some None ->
         futures c3 !! length (futures c) = Some (Some (mk_reply SL_RPC_UNAVAILABLE [] true))) /\
        exists r, futures c3 !! length (futures c) = Some (Some r).
Proof.
  intros Hr%reachable_ok Hm Hb Hx Hnow Ht Hu. destruct (ok_ids c Hr) as (n & Hn & _).
  pose proof (not_exhausted _ _ Hn Hx) as Hne.
  destruct (call_begin_sends method body t now c n Hr Hn Hne Hm Hb) as (ids' & st' & p & -> & Hp & Hd & Hok & _).
  eexists _, _, _. split; [reflexivity|]. intros evs c2 clk Hev E2 Hclk.
  destruct (rpc_run_ok evs _ Hok Hev) as (c2' & E2' & Hok2 & [_ Hpend]). assert (c2' = c2) as -> by congruence.
  destruct (sweep_ok clk c2 Hok2) as (m & c3 & E3 & Hok3 & [Hf _] & _ & Hx3). exists m, c3. split; [done|].
  destruct (Hpend (n + 1) p) as [Ep|[r Er]]; [apply lookup_insert_eq| |].
  - assert (Hexp : is_expired clk (n + 1, p)).
    { unfold is_expired. cbn [fst snd]. rewrite Hd, (proj2 (Z.ltb_lt _ _)) by done.
      destruct (now_ms_value now Hnow) as [Es Rs]. destruct (Hclk (n + 1)) as [Hc1 Hc2].
      destruct (now_ms_value (clk (n + 1)) Hc1) as [El Rl].
      unfold sl_deadline_in_ms, sl_deadline_expired. rewrite u64_small by lia. split; [lia|]. apply Z.leb_le. lia. }
    specialize (Hx3 _ _ Ep Hexp). rewrite Hp in Hx3. eauto.
  - rewrite Hp in Er. split; [congruence|eauto].
Qed.

Lemma rpc_call_times_out_witness :
  exists id wire c1, call_begin echo [] 20 clk0 new_client = Ok (O, Some (id, wire), c1) /\
    exists n c3, sweep_timeouts (fun _ => Some (6, 0)) c1 = Ok (n, c3) /\ exists r, futures c3 !! O = Some (Some r).
Proof.
  assert (H1 : method_ok echo = true) by by vm_compute.
  assert (H2 : len (@nil Z) <= SL_RPC_BODY_MAX) by by vm_compute.
  destruct (rpc_call_times_out new_client echo [] 20 clk0 new_client_reachable H1 H2 eq_refl)
    as (id & wire & c1 & E & H); [done|lia|lia|]. exists id, wire, c1. split; [exact E|].
  destruct (H [] c1 (fun _ => Some (6, 0))) as (n & c3 & E1 & _ & E2).
  - constructor.
  - done.
  - intros _. split; [done|]. by vm_compute.
  - exists n, c3. split; [exact E1|exact E2].
Defined.

(** When the handler's body does not fit, the reply is empty and the call stays in the table. *)
Lemma oversized_reply_lost id r c :
  SL_RPC_BODY_MAX < len (resp_body r) < 2 ^ 32 ->
  make_response id r = Ok [] /\
  on_response [] c = Ok (false, mk_client (ids_ c) (pending_ c) (count_unmatched (cstats_ c)) (futures c)).
Proof. intros H. split; [by apply make_response_oversized|done]. Qed.
