(* ===== verification/Session.v ===== *)
(** The life of a connection ([src/connection_state.cpp]) and the table of sessions
    ([src/session_manager.cpp]).  Readings of the steady clock, in nanoseconds, and of the calendar
    clock, in seconds, are arguments. *)

From Stdlib Require Import String.
From stdpp Require Import gmap.
From S2P Require Import Prelude ByteOrder Aead Ticket KeySched.
Local Open Scope Z_scope.

(** ** The connection state machine *)

(* src/inc/connection_state.hpp:21-27 *)
Inductive ConnState := kFresh | kHandshaking | kAuthenticated | kClosing | kClosed.
#[export] Instance ConnState_eq_dec : EqDecision ConnState.
Proof. solve_decision. Defined.

(* src/inc/connection_state.hpp:29-39 *)
Inductive ConnEvent :=
  | kStartHandshake | kHandshakeDone | kHandshakeFailed | kRecvAppRecord | kSendAppRecord
  | kBeginClose | kPeerClosed | kIoError | kTimeout.

(* src/inc/connection_state.hpp:66-70 ConnectionState *)
Record ConnectionState := mk_conn {
  conn_state : ConnState; entered_ : Z; events_ : Z; invalids_ : Z; close_reason_ : list Z
}.

(* src/src/connection_state.cpp:5-7 *)
Definition new_conn (now : Z) : ConnectionState := mk_conn kFresh now 0 0 [].

(* src/src/connection_state.cpp:9-12 *)
Definition conn_transition_to (s : ConnState) (now : Z) (c : ConnectionState) : ConnectionState :=
  mk_conn s now (events_ c) (invalids_ c) (close_reason_ c).

(* src/src/connection_state.cpp:14-23 *)
Definition state_name (c : ConnectionState) : list Z :=
  match conn_state c with
  | kFresh => lit "fresh"
  | kHandshaking => lit "handshaking"
  | kAuthenticated => lit "authenticated"
  | kClosing => lit "closing"
  | kClosed => lit "closed"
  end.

(* src/src/connection_state.cpp:29-34 on_event *)
Definition invalid (now : Z) (c : ConnectionState) : bool * ConnectionState :=
  let c := mk_conn (conn_state c) (entered_ c) (events_ c) (u64 (invalids_ c + 1)) (close_reason_ c) in
  let c := conn_transition_to kClosed now c in
  (false, match close_reason_ c with
          | [] => mk_conn (conn_state c) (entered_ c) (events_ c) (invalids_ c) (lit "invalid_transition")
          | _ => c
          end).

(* src/src/connection_state.cpp:25-81 *)
Definition on_event (ev : ConnEvent) (now : Z) (c : ConnectionState) : bool * ConnectionState :=
  let c := mk_conn (conn_state c) (entered_ c) (u64 (events_ c + 1)) (invalids_ c) (close_reason_ c) in
  match conn_state c with
  | kFresh =>
      match ev with
      | kStartHandshake => (true, conn_transition_to kHandshaking now c)
      | kPeerClosed | kIoError | kTimeout => (true, conn_transition_to kClosed now c)
      | _ => invalid now c
      end
  | kHandshaking =>
      match ev with
      | kHandshakeDone => (true, conn_transition_to kAuthenticated now c)
      | kHandshakeFailed => (true, conn_transition_to kClosed now c)
      | kPeerClosed | kIoError | kTimeout => (true, conn_transition_to kClosed now c)
      | _ => invalid now c
      end
  | kAuthenticated =>
      match ev with
      | kRecvAppRecord | kSendAppRecord => (true, c)
      | kBeginClose => (true, conn_transition_to kClosing now c)
      | kPeerClosed | kIoError | kTimeout => (true, conn_transition_to kClosed now c)
      | _ => invalid now c
      end
  | kClosing =>
      match ev with
      | kPeerClosed | kIoError | kTimeout => (true, conn_transition_to kClosed now c)
      | kRecvAppRecord => (true, c)
      | _ => invalid now c
      end
  | kClosed =>
      match ev with
      | kPeerClosed | kIoError | kTimeout => (true, c)
      | _ => invalid now c
      end
  end.

(* src/inc/connection_state.hpp:49-55 ConnectionState *)
Definition conn_is_terminal (c : ConnectionState) : bool := bool_decide (conn_state c = kClosed).
Definition can_send_app (c : ConnectionState) : bool := bool_decide (conn_state c = kAuthenticated).
Definition events_handled (c : ConnectionState) : Z := events_ c.
Definition invalid_transitions (c : ConnectionState) : Z := invalids_ c.

(* src/src/connection_state.cpp:83-86 *)
Definition time_in_state (now : Z) (c : ConnectionState) : Z := Z.quot (now - entered_ c) 1000000.

(* src/inc/connection_state.hpp:60-60 *)
Definition set_close_reason (r : list Z) (c : ConnectionState) : ConnectionState :=
  mk_conn (conn_state c) (entered_ c) (events_ c) (invalids_ c) r.

(** A history of events with the time of each, and the answers. *)
Fixpoint conn_run (c : ConnectionState) (evs : list (ConnEvent * Z)) : list bool * ConnectionState :=
  match evs with
  | [] => ([], c)
  | (e, now) :: evs =>
      let '(b, c) := on_event e now c in let '(bs, c) := conn_run c evs in (b :: bs, c)
  end.

(** The contract, on histories: what must have happened for the state to be reached. *)
Definition app_record (e : ConnEvent) : Prop := e = kRecvAppRecord \/ e = kSendAppRecord.
Definition history (s : ConnState) (h : list ConnEvent) : Prop :=
  match s with
  | kFresh => h = []
  | kHandshaking => h = [kStartHandshake]
  | kAuthenticated => exists apps, Forall app_record apps /\ h = kStartHandshake :: kHandshakeDone :: apps
  | kClosing => exists apps drain, Forall app_record apps /\ Forall (eq kRecvAppRecord) drain /\
      h = kStartHandshake :: kHandshakeDone :: apps ++ kBeginClose :: drain
  | kClosed => True
  end.

Lemma history_step h e now c :
  history (conn_state c) h -> history (conn_state (on_event e now c).2) (h ++ [e]).
Proof.
  unfold on_event. cbv zeta. cbn [conn_state].
  assert (Hinv : forall c', conn_state (invalid now c').2 = kClosed).
  { intros c'. unfold invalid. cbn. by destruct (close_reason_ c'). }
  destruct (conn_state c) eqn:Es; cbn [history]; intros Hh; destruct e; rewrite ?Hinv; cbn [snd conn_state conn_transition_to];
    rewrite ?Es; cbn [history]; try done; try (by subst h).
  - subst h. exists []. by split.
  - destruct Hh as (a & Ha & ->). exists (a ++ [kRecvAppRecord]). split; [|done].
    apply Forall_app. split; [done|]. repeat constructor.
  - destruct Hh as (a & Ha & ->). exists (a ++ [kSendAppRecord]). split; [|done].
    apply Forall_app. split; [done|]. by repeat constructor; right.
  - destruct Hh as (a & Ha & ->). exists a, []. by repeat split.
  - destruct Hh as (a & d & Ha & Hd & ->). exists a, (d ++ [kRecvAppRecord]). split_and!; [done| |].
    + apply Forall_app. split; [done|]. by repeat constructor.
    + cbn [app]. by rewrite <- app_assoc.
Qed.

Lemma conn_run_history evs : forall c h,
  history (conn_state c) h -> history (conn_state (conn_run c evs).2) (h ++ map fst evs).
Proof.
  induction evs as [|[e now] evs IH]; intros c h Hh; cbn [conn_run map fst].
  - by rewrite app_nil_r.
  - pose proof (history_step h e now c Hh) as H1. destruct (on_event e now c) as [b c1]. cbn [snd] in H1.
    specialize (IH c1 (h ++ [e]) H1). rewrite <- app_assoc in IH. by destruct (conn_run c1 evs).
Qed.

Lemma closed_stays e now c : conn_state c = kClosed -> conn_state (on_event e now c).2 = kClosed.
Proof.
  intros E. unfold on_event. cbv zeta. cbn [conn_state]. rewrite E. unfold invalid.
  destruct e; cbn; rewrite ?E; try done; by destruct (close_reason_ c).
Qed.

(** The answer to an event: valid, or counted and closing the connection with a reason. *)
Lemma event_answer e now c :
  let '(b, c') := on_event e now c in
  events_ c' = u64 (events_ c + 1) /\
  (if b then invalids_ c' = invalids_ c /\ close_reason_ c' = close_reason_ c
   else invalids_ c' = u64 (invalids_ c + 1) /\ conn_state c' = kClosed /\
        close_reason_ c' = (if bool_decide (close_reason_ c = []) then lit "invalid_transition" else close_reason_ c)).
Proof.
  unfold on_event, invalid. cbv zeta. cbn [conn_state].
  destruct (conn_state c), e; cbn; try done; by destruct (close_reason_ c).
Qed.

Lemma apps_stay evs : forall c,
  conn_state c = kAuthenticated -> Forall app_record (map fst evs) -> conn_state (conn_run c evs).2 = kAuthenticated.
Proof.
  induction evs as [|[e now] evs IH]; intros c E Hap; [done|]. cbn [map fst] in Hap.
  apply Forall_cons in Hap as [He Hap]. cbn [conn_run].
  assert (E1 : conn_state (on_event e now c).2 = kAuthenticated).
  { unfold on_event. cbv zeta. cbn [conn_state]. rewrite E. by destruct He as [-> | ->]. }
  destruct (on_event e now c) as [b c1]. specialize (IH c1 E1 Hap). by destruct (conn_run c1 evs).
Qed.

(** application data moves only on an authenticated connection.  Whatever events a connection
    has seen, it may send exactly when its history is a handshake started, a handshake done and
    then application records only; an event is refused exactly when it is counted as invalid, and
    it closes the connection; and a closed connection stays closed. *)
Theorem conn_sends_only_authenticated now evs e later c bs b c' :
  conn_run (new_conn now) evs = (bs, c) -> on_event e later c = (b, c') ->
  (can_send_app c = true <->
     exists apps, Forall app_record apps /\ map fst evs = kStartHandshake :: kHandshakeDone :: apps) /\
  (e = kSendAppRecord -> b = can_send_app c) /\
  (b = false -> conn_is_terminal c' = true /\ invalid_transitions c' = u64 (invalid_transitions c + 1)) /\
  (conn_is_terminal c = true -> conn_is_terminal c' = true).
Proof.
  intros Er Eo. pose proof (conn_run_history evs (new_conn now) [] eq_refl) as Hh.
  rewrite Er in Hh. cbn [snd app] in Hh. unfold can_send_app, conn_is_terminal, invalid_transitions.
  pose proof (event_answer e later c) as Ha. rewrite Eo in Ha. destruct Ha as [_ Ha]. split_and!.
  - rewrite bool_decide_eq_true. split; [by intros E; rewrite E in Hh|].
    intros (apps & Hap & E). destruct evs as [|[e1 t1] [|[e2 t2] evs]]; try done.
    injection E as -> -> <-. pose proof (apps_stay evs _ (eq_refl : conn_state (conn_run (new_conn now)
      [(kStartHandshake, t1); (kHandshakeDone, t2)]).2 = kAuthenticated) Hap) as Hs.
    revert Er Hs. cbn. destruct (conn_run _ evs) as [bs1 c1]. cbn. by intros [= _ ->].
  - intros ->. revert Eo. unfold on_event, invalid. cbv zeta. cbn [conn_state].
    destruct (conn_state c); cbn; by intros [= <- _].
  - intros ->. destruct Ha as (-> & -> & _). by rewrite bool_decide_eq_true.
  - rewrite !bool_decide_eq_true. intros E. pose proof (closed_stays e later c E) as H. by rewrite Eo in H.
Qed.

Lemma conn_sends_only_authenticated_witness :
  let c := (conn_run (new_conn 0) [(kStartHandshake, 1); (kHandshakeDone, 2); (kRecvAppRecord, 3)]).2 in
  let '(b, c') := on_event kHandshakeDone 4 c in
  (can_send_app c = true <->
     exists apps, Forall app_record apps /\
       [kStartHandshake; kHandshakeDone; kRecvAppRecord] = kStartHandshake :: kHandshakeDone :: apps) /\
  (kHandshakeDone = kSendAppRecord -> b = can_send_app c) /\
  (b = false -> conn_is_terminal c' = true /\ invalid_transitions c' = u64 (invalid_transitions c + 1)) /\
  (conn_is_terminal c = true -> conn_is_terminal c' = true).
Proof.
  exact (conn_sends_only_authenticated 0 [(kStartHandshake, 1); (kHandshakeDone, 2); (kRecvAppRecord, 3)]
    kHandshakeDone 4 _ _ _ _ eq_refl eq_refl).
Defined.

(** ** Sessions *)

(* src/inc/session_manager.hpp:23-30 *)
Record SessionStats := mk_sstats {
  bytes_sent : Z; bytes_received : Z; records_sent : Z; records_received : Z; rekeys_local : Z; rekeys_peer : Z
}.

(* src/inc/session_manager.hpp:32-40 *)
Record Session := mk_session {
  sess_id : Z; peer_label : list Z; peer_identity : list Z; opened_at : Z; last_activity : Z;
  sess_stats : SessionStats; authenticated : bool
}.

(* src/inc/session_manager.hpp:42-50 *)
Record SessionManagerConfig := mk_smcfg {
  rekey_after_bytes : Z; rekey_after_seconds : Z; ticket_lifetime_seconds : Z; idle_timeout_seconds : Z
}.
Definition default_smcfg : SessionManagerConfig := mk_smcfg (2 ^ 30) 3600 (6 * 3600) 600.

(* src/inc/session_manager.hpp:108-111 SessionManager *)
Record SessionManager := mk_manager { smcfg_ : SessionManagerConfig; sessions_ : gmap Z Session; next_id_ : Z }.

(* src/src/session_manager.cpp:9-9 *)
Definition new_manager (cfg : SessionManagerConfig) : SessionManager := mk_manager cfg ∅ 1.

(** [emplace] keeps an entry that is already there. *)
(* src/src/session_manager.cpp:11-25 *)
Definition register_session (label identity : list Z) (now : Z) (m : SessionManager) : Z * SessionManager :=
  let id := next_id_ m in
  let s := mk_session id label identity now now (mk_sstats 0 0 0 0 0 0) true in
  (id, mk_manager (smcfg_ m)
         (match sessions_ m !! id with Some _ => sessions_ m | None => <[id := s]> (sessions_ m) end)
         (u64 (next_id_ m + 1))).

Definition with_stats (st : SessionStats) (t : Z) (s : Session) : Session :=
  mk_session (sess_id s) (peer_label s) (peer_identity s) (opened_at s) t st (authenticated s).

(** [duration_cast] to seconds truncates; the limits are widened to [long]. *)
(* src/src/session_manager.cpp:27-45 *)
Definition record_traffic (id sent received now : Z) (m : SessionManager) : bool * SessionManager :=
  match sessions_ m !! id with
  | None => (false, m)
  | Some s =>
      let st := sess_stats s in
      let st := mk_sstats (u64 (bytes_sent st + sent)) (u64 (bytes_received st + received))
        (if 0 <? sent then u64 (records_sent st + 1) else records_sent st)
        (if 0 <? received then u64 (records_received st + 1) else records_received st)
        (rekeys_local st) (rekeys_peer st) in
      let s := with_stats st now s in
      let total := u64 (bytes_sent st + bytes_received st) in
      let age_s := Z.quot (last_activity s - opened_at s) 1000000000 in
      ((rekey_after_bytes (smcfg_ m) <=? total) || (rekey_after_seconds (smcfg_ m) <=? age_s),
       mk_manager (smcfg_ m) (<[id := s]> (sessions_ m)) (next_id_ m))
  end.

(* src/src/session_manager.cpp:47-51 *)
Definition note_rekey_local (id : Z) (m : SessionManager) : SessionManager :=
  mk_manager (smcfg_ m) (alter (fun s => let st := sess_stats s in
    with_stats (mk_sstats (bytes_sent st) (bytes_received st) (records_sent st) (records_received st)
      (u32 (rekeys_local st + 1)) (rekeys_peer st)) (last_activity s) s) id (sessions_ m)) (next_id_ m).

(* src/src/session_manager.cpp:53-57 *)
Definition note_rekey_peer (id : Z) (m : SessionManager) : SessionManager :=
  mk_manager (smcfg_ m) (alter (fun s => let st := sess_stats s in
    with_stats (mk_sstats (bytes_sent st) (bytes_received st) (records_sent st) (records_received st)
      (rekeys_local st) (u32 (rekeys_peer st + 1))) (last_activity s) s) id (sessions_ m)) (next_id_ m).

Section Tickets.
Context `{Gcm}.

(** [time] is the calendar clock and [rnd] the random bytes of the IV. *)
(* src/src/session_manager.cpp:59-76 *)
Definition issue_ticket (id : Z) (stk secret : list Z) (time : Z) (rnd : option (list Z)) (m : SessionManager)
  : M (list Z) :=
  match sessions_ m !! id with
  | None => Ok []
  | Some s =>
      let! secret := load_bytes secret 0 32 in
      let! identity := load_bytes (peer_identity s) 0 32 in
      let body := mk_ticket (u32 time) (ticket_lifetime_seconds (smcfg_ m)) secret identity in
      let! '(rc, wire) := sl_ticket_seal stk body rnd (replicate (Z.to_nat SL_TICKET_TOTAL_LEN) 0) in
      Ok (if negb (rc =? 0) then [] else wire)
  end.

(* src/src/session_manager.cpp:78-90 *)
Definition consume_ticket (stk ticket_bytes : list Z) (time : Z) : M (option sl_ticket_body_t) :=
  if negb (len ticket_bytes =? SL_TICKET_TOTAL_LEN) then Ok None
  else
    let! '(rc, body) := sl_ticket_open stk ticket_bytes in
    if negb (rc =? 0) then Ok None
    else if negb (sl_ticket_is_fresh body (u32 time)) then Ok None
    else Ok (Some body).

End Tickets.

(* src/src/session_manager.cpp:92-95 *)
Definition close_session (id : Z) (m : SessionManager) : SessionManager :=
  mk_manager (smcfg_ m) (delete id (sessions_ m)) (next_id_ m).

(* src/src/session_manager.cpp:97-102 *)
Definition session_snapshot (id : Z) (m : SessionManager) : option Session := sessions_ m !! id.

(* src/src/session_manager.cpp:104-107 *)
Definition active_count (m : SessionManager) : Z := Z.of_nat (size (sessions_ m)).

Definition is_idle (cfg : SessionManagerConfig) (now : Z) (e : Z * Session) : Prop :=
  idle_timeout_seconds cfg <= Z.quot (now - last_activity e.2) 1000000000.
#[export] Instance is_idle_dec cfg now e : Decision (is_idle cfg now e).
Proof. unfold is_idle. apply _. Defined.

(* src/src/session_manager.cpp:109-124 *)
Definition session_sweep (now : Z) (m : SessionManager) : Z * SessionManager :=
  (Z.of_nat (size (filter (is_idle (smcfg_ m) now) (sessions_ m))),
   mk_manager (smcfg_ m) (filter (fun e => ~ is_idle (smcfg_ m) now e) (sessions_ m)) (next_id_ m)).

(** ** The table *)

Lemma size_filter_split {V} (P : Z * V -> Prop) `{!forall e, Decision (P e)} (t : gmap Z V) :
  size t = (size (filter P t) + size (filter (fun e => ~ P e) t))%nat.
Proof.
  rewrite <- map_size_disj_union; [by rewrite map_filter_union_complement|]. apply map_disjoint_filter_complement.
Qed.

Inductive session_op :=
  | OpRegister (label identity : list Z) (now : Z)
  | OpTraffic (id sent received now : Z)
  | OpRekeyLocal (id : Z)
  | OpRekeyPeer (id : Z)
  | OpClose (id : Z)
  | OpSweep (now : Z).

Definition session_step (m : SessionManager) (o : session_op) : SessionManager :=
  match o with
  | OpRegister l i now => (register_session l i now m).2
  | OpTraffic id s r now => (record_traffic id s r now m).2
  | OpRekeyLocal id => note_rekey_local id m
  | OpRekeyPeer id => note_rekey_peer id m
  | OpClose id => close_session id m
  | OpSweep now => (session_sweep now m).2
  end.

Definition is_register (o : session_op) : bool := match o with OpRegister _ _ _ => true | _ => false end.
Definition registered (ops : list session_op) : Z := len (filter (fun o => is_register o = true) ops).

(** After [n] registrations: the next identifier is [n + 1], the identifiers in the table are
    among those given out, and each session carries its own. *)
Definition manager_ok (n : Z) (m : SessionManager) : Prop :=
  next_id_ m = n + 1 /\
  forall id s, sessions_ m !! id = Some s -> 1 <= id <= n /\ sess_id s = id /\ authenticated s = true.

Lemma session_step_ok n m o :
  0 <= n -> (is_register o = true -> n + 2 < 2 ^ 64) -> manager_ok n m ->
  manager_ok (if is_register o then n + 1 else n) (session_step m o).
Proof.
  intros H0 Hn [Hx Hs]. destruct o as [l i now|id s r now|id|id|id|now]; cbn [is_register session_step].
  - unfold register_session, manager_ok. cbn [snd next_id_ sessions_ smcfg_]. specialize (Hn eq_refl).
    split; [rewrite Hx, u64_small; lia|].
    destruct (sessions_ m !! next_id_ m) as [q|] eqn:E; [apply Hs in E; lia|].
    intros id s [[<- <-]|[_ Es]]%lookup_insert_Some; [split_and!; cbn; done || lia|].
    apply Hs in Es as (? & ? & ?). split_and!; done || lia.
  - unfold record_traffic. destruct (sessions_ m !! id) as [q|] eqn:E; [|done]. split; [done|]. cbn [snd sessions_].
    intros id' s' [[<- <-]|[_ Es]]%lookup_insert_Some; [by apply Hs in E|by apply Hs].
  - split; [done|]. cbn [note_rekey_local sessions_].
    intros id' s' [(<- & q & E & ->)|[_ Es]]%lookup_alter_Some; [by apply Hs in E|by apply Hs].
  - split; [done|]. cbn [note_rekey_peer sessions_].
    intros id' s' [(<- & q & E & ->)|[_ Es]]%lookup_alter_Some; [by apply Hs in E|by apply Hs].
  - split; [done|]. cbn [close_session sessions_]. intros id' s' [_ Es]%lookup_delete_Some. by apply Hs.
  - split; [done|]. cbn [session_sweep snd sessions_]. intros id' s' [Es _]%map_lookup_filter_Some. by apply Hs.
Qed.

Lemma session_run_ok ops : forall n m,
  0 <= n -> n + registered ops + 1 < 2 ^ 64 -> manager_ok n m ->
  manager_ok (n + registered ops) (foldl session_step m ops).
Proof.
  induction ops as [|o ops IH]; intros n m H0 Hn Hm; cbn [foldl]; [by rewrite Z.add_0_r|].
  unfold registered in *. pose proof (len_nonneg (filter (fun o => is_register o = true) ops)).
  destruct (is_register o) eqn:E.
  - rewrite filter_cons_True in * by done. rewrite len_cons in *. rewrite Z.add_assoc. apply IH; [lia..|].
    pose proof (session_step_ok n m o H0 ltac:(lia) Hm) as Hs. by rewrite E in Hs.
  - rewrite filter_cons_False in * by congruence. apply IH; [lia..|].
    pose proof (session_step_ok n m o H0 ltac:(congruence) Hm) as Hs. by rewrite E in Hs.
Qed.

(** sessions keep their identity.  After any operations, registering a peer gives an
    identifier that no earlier session had, and leaves the other sessions as they were; the
    session of an identifier carries that identifier and is authenticated; a sweep removes exactly
    the sessions idle for the configured time, and counts them. *)
Theorem session_table_sound cfg ops label identity now m :
  registered ops + 2 < 2 ^ 64 -> m = foldl session_step (new_manager cfg) ops ->
  let '(id, m') := register_session label identity now m in
  sessions_ m !! id = None /\
  (forall j, j <> id -> session_snapshot j m' = session_snapshot j m) /\
  (exists s, session_snapshot id m' = Some s /\ sess_id s = id /\ peer_identity s = identity) /\
  (forall j s, session_snapshot j m = Some s -> sess_id s = j /\ j < id /\ authenticated s = true) /\
  (forall t, let '(k, m2) := session_sweep t m in
     active_count m = active_count m2 + k /\
     forall j s, session_snapshot j m2 = Some s <->
       session_snapshot j m = Some s /\ Z.quot (t - last_activity s) 1000000000 < idle_timeout_seconds (smcfg_ m)).
Proof.
  intros Hr ->. set (m := foldl _ _ _). pose proof (len_nonneg (filter (fun o => is_register o = true) ops)).
  destruct (session_run_ok ops 0 (new_manager cfg)) as [Hx Hs]; [lia|lia|by split|]. fold m in Hx, Hs.
  unfold register_session, session_snapshot. rewrite Z.add_0_l in *.
  assert (Hfree : sessions_ m !! next_id_ m = None).
  { destruct (sessions_ m !! next_id_ m) as [q|] eqn:E; [|done]. apply Hs in E. lia. }
  rewrite Hfree. cbn [sessions_]. split_and!.
  - done.
  - intros j Hj. by apply lookup_insert_ne.
  - eexists. rewrite lookup_insert_eq. by split_and!.
  - intros j s E. apply Hs in E as (? & ? & ?). split_and!; done || lia.
  - intros t. unfold session_sweep, active_count. cbn [sessions_]. split.
    + rewrite <- Nat2Z.inj_add. f_equal. rewrite Nat.add_comm. apply size_filter_split.
    + intros j s. rewrite map_lookup_filter_Some. unfold is_idle. cbn [snd].
      split; intros [E Hi]; (split; [done|lia]).
Qed.

Lemma session_table_sound_witness :
  let m := foldl session_step (new_manager default_smcfg)
    [OpRegister [97] (replicate 32 1) 5; OpTraffic 1 10 20 7; OpClose 1] in
  let '(id, m') := register_session [98] (replicate 32 2) 9 m in
  sessions_ m !! id = None /\
  (forall j, j <> id -> session_snapshot j m' = session_snapshot j m) /\
  (exists s, session_snapshot id m' = Some s /\ sess_id s = id /\ peer_identity s = replicate 32 2) /\
  (forall j s, session_snapshot j m = Some s -> sess_id s = j /\ j < id /\ authenticated s = true) /\
  (forall t, let '(k, m2) := session_sweep t m in
     active_count m = active_count m2 + k /\
     forall j s, session_snapshot j m2 = Some s <->
       session_snapshot j m = Some s /\ Z.quot (t - last_activity s) 1000000000 < idle_timeout_seconds (smcfg_ m)).
Proof.
  apply (session_table_sound default_smcfg [OpRegister [97] (replicate 32 1) 5; OpTraffic 1 10 20 7; OpClose 1]
    [98] (replicate 32 2) 9); [by vm_compute|done].
Defined.

(** ** Rekeying and resumption *)

(** Once a rekey is recommended it is recommended for ever: a completed rekey resets nothing. *)
Lemma rekey_recommended_for_ever id sent received now m m1 later :
  record_traffic id sent received now m = (true, m1) -> now <= later ->
  fst (record_traffic id 0 0 later (note_rekey_local id m1)) = true.
Proof.
  unfold record_traffic. destruct (sessions_ m !! id) as [s|] eqn:E; [|done]. cbv zeta.
  intros [= Hb <-] Hle. cbn [note_rekey_local sessions_ smcfg_]. rewrite lookup_alter_eq, lookup_insert_eq. cbn [fmap option_fmap option_map fst].
  unfold with_stats in *.
  cbn [sess_stats bytes_sent bytes_received last_activity opened_at smcfg_] in *. rewrite !Z.add_0_r.
  apply orb_true_intro. apply orb_prop in Hb as [Hb|Hb]; [left|right].
  - rewrite (u64_small (u64 (bytes_sent _ + _))), (u64_small (u64 (bytes_received _ + _))) by apply u64_range. done.
  - apply Z.leb_le in Hb. apply Z.leb_le. etransitivity; [exact Hb|]. apply Z.quot_le_mono; lia.
Qed.

(** a ticket resumes the session it was issued for, while it is fresh.  A ticket issued for a
    session opens, under the same key, to the resumption secret given and the identity of the
    session's peer; it is accepted from the second it was issued until its lifetime has passed, as
    often as it is presented, and at no other time. *)
Theorem session_ticket_resumes `{GcmLaws} m id s stk secret time iv wire :
  session_snapshot id m = Some s -> len (peer_identity s) = 32 -> len secret = 32 -> is_u32 time ->
  is_u32 (ticket_lifetime_seconds (smcfg_ m)) -> len iv = SL_TICKET_IV_LEN ->
  issue_ticket id stk secret time (Some iv) m = Ok wire -> wire <> [] ->
  forall later, is_u32 later ->
    consume_ticket stk wire later =
    Ok (if bool_decide (time <= later < time + ticket_lifetime_seconds (smcfg_ m))
        then Some (mk_ticket time (ticket_lifetime_seconds (smcfg_ m)) secret (peer_identity s)) else None).
Proof.
  intros Es Hp Hsec Ht Hl Hi Eis Hne later Hlater. unfold session_snapshot in Es. unfold issue_ticket in Eis.
  rewrite Es, (load_all secret), (load_all (peer_identity s)), u32_small in Eis by done.
  set (b := mk_ticket _ _ _ _) in *. set (out := replicate _ _) in *.
  assert (Hb : ticket_ok b) by (repeat (split; [done|]); done).
  assert (Ho : len out = SL_TICKET_TOTAL_LEN) by (unfold out; rewrite len_replicate; done).
  pose proof (ticket_seal_run stk b iv out Hb Hi Ho) as Hrun.
  destruct (gcm_seal _ _ _ _) as [ct tag|w] eqn:Eg.
  2: { destruct Hrun as [o Eo]. rewrite Eo in Eis. cbn in Eis. congruence. }
  assert (Hw : wire = iv ++ ct ++ tag) by (rewrite Hrun in Eis; cbn in Eis; congruence).
  destruct (gcm_seal_len _ _ _ _ _ _ Eg) as [Hct Htag]. rewrite len_ticket_pt in Hct by done.
  unfold consume_ticket. rewrite (proj2 (Z.eqb_eq (len wire) _)).
  2: { rewrite Hw, !len_app. rewrite Hct, Htag, Hi. done. }
  rewrite (ticket_seal_opens stk b iv out wire Hb Hi Ho) by (by rewrite Hw). cbn [negb Z.eqb].
  rewrite u32_small by done. pose proof (ticket_fresh_spec b later Hb Hlater) as Hf.
  destruct (sl_ticket_is_fresh b later); cbn [negb].
  - by rewrite bool_decide_eq_true_2 by by apply Hf.
  - rewrite bool_decide_eq_false_2; [done|]. intros Hc. apply Hf in Hc. done.
Qed.

Lemma session_ticket_resumes_witness :
  let m := (register_session [97] (replicate 32 3) 0 (new_manager default_smcfg)).2 in
  exists wire, issue_ticket 1 [4] (replicate 32 7) 1000 (Some (replicate 12 1)) m = Ok wire /\
    consume_ticket [4] wire 2000 = Ok (Some (mk_ticket 1000 21600 (replicate 32 7) (replicate 32 3))) /\
    consume_ticket [4] wire 22600 = Ok None.
Proof.
  intros m. eexists. split; [vm_compute; reflexivity|].
  split; (etransitivity; [eapply (session_ticket_resumes m 1 _ [4] (replicate 32 7) 1000 (replicate 12 1));
    [reflexivity|reflexivity|reflexivity|lia|vm_compute; split; congruence|reflexivity|reflexivity|discriminate|lia]
    |reflexivity]).
Defined.
