(* ===== verification/EventLog.v ===== *)
(** The binary event log ([src/sl_event_log.c]) and the replay harness over it
    ([src/replay_harness.cpp]).  The clock, the room on the disk and the outcome of opening
    files are arguments; [a+b] streams write at the end of the file.  The visitor of
    [sl_event_log_iterate] is a function that threads the caller's state.  The harness's
    handlers are handles, and [handle] is what calling one does to the system under test;
    sleeping is recorded as the list of delays, elapsed time is an argument. *)

From stdpp Require Import gmap.
From S2P Require Import Prelude ByteOrder Codec Crc32 Varint Stdio Timing.
Local Open Scope Z_scope.

(* src/src/sl_event_log.c:13-16 *)
Record sl_event_log := mk_evlog { ev_fp : FILE; next_seq : Z }.

(* src/inc/sl_event_log.h:52-58 *)
Record sl_event_record_t := mk_event {
  ev_seq : Z; ev_timestamp_ns : Z; ev_type : Z; ev_payload : option (list Z); ev_payload_len : Z
}.

(* src/src/sl_event_log.c:18-22 *)
Definition now_ns (ts : timespec) : Z :=
  match ts with None => 0 | Some (sec, nsec) => u64 (u64 (sec * 1000000000) + nsec) end.

(* src/src/sl_event_log.c:24-30 *)
Definition read_u32_be (fp : FILE) : option Z * FILE :=
  let '(b, fp) := fread fp 4 in
  match b with
  | [b0; b1; b2; b3] => (Some (Z.lor (Z.lor (Z.lor (b0 ≪ 24) (b1 ≪ 16)) (b2 ≪ 8)) b3), fp)
  | _ => (None, fp)
  end.

(** The outcome of [fwrite] is not looked at. *)
(* src/src/sl_event_log.c:32-38 *)
Definition write_u32_be (room : Z) (fp : FILE) (v : Z) : FILE := (fwrite room fp (be32 v)).2.

(** One [sl_varint_decode_u64(hdr + o, got - o, &v)]: the value and the new offset. *)
Definition hdr_field (hdr : list Z) (o : Z) : M (option (Z * Z)) :=
  let! r := sl_varint_decode_u64 (drop (Z.to_nat o) hdr) in
  match r with
  | None => Ok None
  | Some (n, v) => if n <? 0 then Ok None else Ok (Some (v, o + n))
  end.

(** The four fields at the front of a record and their length; [None] breaks off the loop. *)
(* src/src/sl_event_log.c:126-131 sl_event_log_iterate *)
Definition decode_hdr (hdr : list Z) : M (option (Z * Z * Z * Z * Z)) :=
  let! r := hdr_field hdr 0 in
  match r with
  | None => Ok None
  | Some (seq, o) =>
      let! r := hdr_field hdr o in
      match r with
      | None => Ok None
      | Some (ts, o) =>
          let! r := hdr_field hdr o in
          match r with
          | None => Ok None
          | Some (type, o) =>
              let! r := hdr_field hdr o in
              match r with
              | None => Ok None
              | Some (plen, o) => Ok (Some (seq, ts, type, plen, o))
              end
          end
      end
  end.

(** [long] arithmetic: overflow is undefined. *)
Definition is_long (z : Z) : bool := (- 2 ^ 63 <=? z) && (z <? 2 ^ 63).

(** A failed [fseek] leaves the stream where it is. *)
(* src/src/sl_event_log.c:50-63 sl_event_log_open *)
Fixpoint open_loop (fuel : nat) (fp : FILE) (next : Z) : M (FILE * Z) :=
  match fuel with
  | O => Fault
  | S fuel =>
      let pos := ftell fp in
      let '(hdr, fp) := fread fp 64 in
      if len hdr =? 0 then Ok (fp, next)
      else
        let! r := decode_hdr hdr in
        match r with
        | None => Ok (fp, next)
        | Some (seq, _, _, plen, o) =>
            let off := pos + o + to_long plen + 4 in
            if negb (is_long off) then Fault
            else
              let fp := match fseek_set fp off with Some fp => fp | None => fp end in
              open_loop fuel fp (if next <=? seq then u64 (seq + 1) else next)
        end
  end.

(** [file] is [None] when [fopen] or [calloc] fails. *)
(* src/src/sl_event_log.c:40-66 *)
Definition sl_event_log_open (fuel : nat) (file : option (list Z)) : M (option sl_event_log) :=
  match file with
  | None => Ok None
  | Some c =>
      let! '(fp, next) := open_loop fuel (mk_file c 0) 1 in
      Ok (Some (mk_evlog (fseek_end fp) next))
  end.

(* src/src/sl_event_log.c:74-104 *)
Definition sl_event_log_append (s : crc_statics) (room : Z) (ts : timespec) (L : sl_event_log) (type : Z)
  (payload : list Z) : M (Z * sl_event_log * crc_statics) :=
  let plen := len payload in
  if 2 ^ 20 <? plen then Ok (-1, L, s)
  else
    let hdr := replicate 40 0 in
    let! r := hdr_varint (next_seq L) hdr 0 in
    match r with None => Ok (-1, L, s) | Some (off, hdr) =>
    let! r := hdr_varint (now_ns ts) hdr off in
    match r with None => Ok (-1, L, s) | Some (off, hdr) =>
    let! r := hdr_varint type hdr off in
    match r with None => Ok (-1, L, s) | Some (off, hdr) =>
    let! r := hdr_varint plen hdr off in
    match r with None => Ok (-1, L, s) | Some (off, hdr) =>
    let! h := load_bytes hdr 0 off in
    let! '(crc, s) := sl_crc32c_update s sl_crc32c_init h in
    let! '(crc, s) := (if 0 <? plen then sl_crc32c_update s crc payload else Ok (crc, s)) in
    let crc_final := sl_crc32c_finalize crc in
    let '(n, fp) := fwrite room (ev_fp L) h in
    if negb (n =? off) then Ok (-1, mk_evlog fp (next_seq L), s)
    else
      let '(n, fp) := if 0 <? plen then fwrite room fp payload else (plen, fp) in
      if negb (n =? plen) then Ok (-1, mk_evlog fp (next_seq L), s)
      else
        let fp := write_u32_be room fp crc_final in
        Ok (0, mk_evlog fp (u64 (next_seq L + 1)), s)
    end end end end.

(* src/src/sl_event_log.c:106-108 *)
Definition sl_event_log_seq (L : sl_event_log) : Z := next_seq L.

Section Iterate.
Context {U : Type} (visitor : sl_event_record_t -> U -> Z * U).

(* src/src/sl_event_log.c:120-146 sl_event_log_iterate *)
Fixpoint iterate_loop (fuel : nat) (fp : FILE) (user : U) : M U :=
  match fuel with
  | O => Fault
  | S fuel =>
      let pos := ftell fp in
      let '(hdr, fp) := fread fp 40 in
      if len hdr =? 0 then Ok user
      else
        let! r := decode_hdr hdr in
        match r with
        | None => Ok user
        | Some (seq, ts, type, plen, o) =>
            let fp := match fseek_set fp (pos + o) with Some fp => fp | None => fp end in
            if 2 ^ 20 <? plen then Ok user
            else
              let '(payload, fp) := if 0 <? plen then fread fp plen else ([], fp) in
              if (0 <? plen) && negb (len payload =? plen) then Ok user
              else
                let '(crc_stored, fp) := read_u32_be fp in
                match crc_stored with
                | None => Ok user
                | Some _ =>
                    let rec := mk_event seq ts (u32 type) (if 0 <? plen then Some payload else None) plen in
                    let '(rc, user) := visitor rec user in
                    if negb (rc =? 0) then Ok user else iterate_loop fuel fp user
                end
        end
  end.

(** Every round moves the stream forward, so one round more than there are bytes is enough. *)
(* src/src/sl_event_log.c:110-149 *)
Definition sl_event_log_iterate (file : option (list Z)) (user : U) : M (Z * U) :=
  match file with
  | None => Ok (-1, user)
  | Some c => let! user := iterate_loop (S (length c)) (mk_file c 0) user in Ok (0, user)
  end.

End Iterate.

(** ** The log as a list of records *)

(** What a caller hands to one append: the clock, the type and the payload. *)
Definition event : Type := timespec * Z * list Z.

Definition event_ok (e : event) : Prop :=
  let '(ts, type, payload) := e in
  is_u32 type /\ bytes_ok payload /\ len payload <= 2 ^ 20.

Definition ev_hdr (seq ts type plen : Z) : list Z := varint seq ++ varint ts ++ varint type ++ varint plen.

(** One record on disk, and the record the visitor gets. *)
Definition ev_wire (seq : Z) (e : event) : list Z :=
  let '(ts, type, payload) := e in
  let h := ev_hdr seq (now_ns ts) type (len payload) in
  h ++ payload ++ be32 (crc32c (h ++ payload)).
Definition ev_view (seq : Z) (e : event) : sl_event_record_t :=
  let '(ts, type, payload) := e in
  mk_event seq (now_ns ts) type (if 0 <? len payload then Some payload else None) (len payload).

Fixpoint ev_log (seq : Z) (es : list event) : list Z :=
  match es with [] => [] | e :: es => ev_wire seq e ++ ev_log (seq + 1) es end.

(** The visitor is called on the records in order until it returns something else than 0. *)
Fixpoint visit {U} (visitor : sl_event_record_t -> U -> Z * U) (seq : Z) (es : list event) (u : U) : U :=
  match es with
  | [] => u
  | e :: es => let '(rc, u) := visitor (ev_view seq e) u in if rc =? 0 then visit visitor (seq + 1) es u else u
  end.

Lemma now_ns_u64 ts : is_u64 (now_ns ts).
Proof. destruct ts as [[s n]|]; [apply u64_range|done]. Qed.

Lemma event_ok_len ts type payload : event_ok (ts, type, payload) -> 0 <= len payload <= 2 ^ 20.
Proof. intros (_ & _ & H). pose proof (len_nonneg payload). lia. Qed.

Lemma hdr_field_at v pre rest o :
  o = len pre -> is_u64 v -> hdr_field (pre ++ varint v ++ rest) o = Ok (Some (v, len (pre ++ varint v))).
Proof.
  intros -> Hv. unfold hdr_field. rewrite drop_len_app, varint_decode_front by done.
  pose proof (len_varint v Hv). rewrite (proj2 (Z.ltb_ge _ _)) by lia. by rewrite len_app.
Qed.

Section Header.
Context (seq ts type plen : Z) (Hs : is_u64 seq) (Ht : is_u64 ts) (Hy : is_u64 type) (Hp : is_u64 plen).

Lemma len_ev_hdr : 4 <= len (ev_hdr seq ts type plen) <= 40.
Proof.
  unfold ev_hdr. rewrite !len_app. pose proof (len_varint seq Hs). pose proof (len_varint ts Ht).
  pose proof (len_varint type Hy). pose proof (len_varint plen Hp). lia.
Qed.

Lemma ev_hdr_bytes : bytes_ok (ev_hdr seq ts type plen).
Proof. unfold ev_hdr. repeat apply bytes_ok_app; apply bytes_ok_varint; lia. Qed.

Lemma decode_hdr_front rest :
  decode_hdr (ev_hdr seq ts type plen ++ rest) =
  Ok (Some (seq, ts, type, plen, len (ev_hdr seq ts type plen))).
Proof.
  unfold decode_hdr, ev_hdr. rewrite <- !app_assoc.
  pose proof (hdr_field_at seq [] (varint ts ++ varint type ++ varint plen ++ rest) 0 eq_refl Hs) as E1.
  cbn [app] in E1. rewrite E1.
  rewrite (hdr_field_at ts (varint seq)) by done.
  rewrite (app_assoc (varint seq)), (hdr_field_at type (varint seq ++ varint ts)) by done.
  rewrite (app_assoc (varint seq ++ varint ts)), (hdr_field_at plen ((varint seq ++ varint ts) ++ varint type)) by done.
  by rewrite <- !app_assoc.
Qed.

(** The buffer of a reader that asks for [n] bytes holds the whole header. *)
Lemma decode_hdr_read n rest :
  40 <= n -> 
  let hdr := take (Z.to_nat n) (ev_hdr seq ts type plen ++ rest) in
  0 < len hdr /\ decode_hdr hdr = Ok (Some (seq, ts, type, plen, len (ev_hdr seq ts type plen))).
Proof.
  intros Hn hdr. pose proof len_ev_hdr as Hl.
  assert (E : hdr = ev_hdr seq ts type plen ++ take (Z.to_nat n - length (ev_hdr seq ts type plen)) rest).
  { unfold hdr. rewrite take_app_ge by (unfold len in *; lia). done. }
  rewrite E. split; [rewrite len_app; pose proof (len_nonneg (take (Z.to_nat n - length (ev_hdr seq ts type plen)) rest)); lia|].
  apply decode_hdr_front.
Qed.

(** The header as [sl_event_log_append] builds it. *)
Lemma build_hdr :
  exists rest, (let! r := hdr_varint seq (replicate 40 0) 0 in
    match r with None => Ok None | Some (off, hdr) =>
    let! r := hdr_varint ts hdr off in
    match r with None => Ok None | Some (off, hdr) =>
    let! r := hdr_varint type hdr off in
    match r with None => Ok None | Some (off, hdr) => hdr_varint plen hdr off end end end) =
  Ok (Some (len (ev_hdr seq ts type plen), ev_hdr seq ts type plen ++ rest)).
Proof.
  pose proof (len_varint seq Hs). pose proof (len_varint ts Ht). pose proof (len_varint type Hy). pose proof (len_varint plen Hp).
  set (buf := replicate 40 0). assert (Hb : len buf = 40) by done. clearbody buf.
  pose proof (hdr_varint_at seq [] buf 0 eq_refl Hs ltac:(lia)) as E1. cbn [app] in E1. rewrite E1.
  rewrite hdr_varint_at by (done || (unfold len in *; rewrite ?length_drop; lia)).
  rewrite hdr_varint_at by (done || (unfold len in *; rewrite ?length_drop; lia)).
  rewrite hdr_varint_at by (done || (unfold len in *; rewrite ?length_drop; lia)).
  eexists. unfold ev_hdr. rewrite <- !app_assoc. reflexivity.
Qed.
End Header.

Lemma ev_hdr_args seq ts type payload :
  is_u64 seq -> event_ok (ts, type, payload) ->
  is_u64 (now_ns ts) /\ is_u64 type /\ is_u64 (len payload).
Proof.
  intros Hs He. pose proof (event_ok_len _ _ _ He). destruct He as (Hy & _). pose proof (now_ns_u64 ts). lia.
Qed.

(** An append that fits the disk writes exactly one record at the end. *)
Lemma event_append_spec s room L e :
  statics_ok s -> is_u64 (next_seq L) -> event_ok e ->
  len (contents (ev_fp L)) + len (ev_wire (next_seq L) e) <= room ->
  exists s', let '(ts, type, payload) := e in
    sl_event_log_append s room ts L type payload =
      Ok (0, mk_evlog (mk_file (contents (ev_fp L) ++ ev_wire (next_seq L) e)
                         (len (contents (ev_fp L) ++ ev_wire (next_seq L) e))) (u64 (next_seq L + 1)), s') /\
    statics_ok s'.
Proof.
  destruct e as [[ts type] payload]. intros Hst Hq He Hroom.
  destruct (ev_hdr_args _ _ _ _ Hq He) as (Ht & Hy & Hp). pose proof (event_ok_len _ _ _ He) as Hl.
  destruct He as (_ & Hb & _). unfold sl_event_log_append. rewrite (proj2 (Z.ltb_ge _ _)) by lia.
  destruct (build_hdr (next_seq L) (now_ns ts) type (len payload)) as [rest E]; [done..|]. revert E.
  destruct (hdr_varint (next_seq L) _ _) as [[[o1 h1]|]|]; try done.
  destruct (hdr_varint (now_ns ts) _ _) as [[[o2 h2]|]|]; try done.
  destruct (hdr_varint type _ _) as [[[o3 h3]|]|]; try done. intros ->.
  cbn [ev_wire] in *. set (h := ev_hdr _ _ _ _) in *. rewrite load_bytes_front by done.
  assert (Hh : bytes_ok h) by by apply ev_hdr_bytes.
  destruct (crc_update_spec s sl_crc32c_init h Hst ltac:(unfold sl_crc32c_init; lia) Hh) as (s1 & -> & Hs1 & _).
  assert (Hc : is_u32 (crc_bits sl_crc32c_init h)) by (apply crc_bits_range; [unfold sl_crc32c_init; lia|done]).
  assert (exists s2, (if 0 <? len payload then sl_crc32c_update s1 (crc_bits sl_crc32c_init h) payload
     else Ok (crc_bits sl_crc32c_init h, s1)) = Ok (crc_bits sl_crc32c_init (h ++ payload), s2) /\ statics_ok s2)
    as (s2 & -> & Hs2).
  { rewrite crc_bits_app. destruct (Z.ltb_spec 0 (len payload)).
    - destruct (crc_update_spec s1 _ payload Hs1 Hc Hb) as (s2 & -> & Hs2 & _). eauto.
    - rewrite (len_0_nil payload) by lia. eauto. }
  change (sl_crc32c_finalize (crc_bits sl_crc32c_init (h ++ payload))) with (crc32c (h ++ payload)).
  rewrite !len_app, len_be32 in Hroom. pose proof (len_nonneg h).
  rewrite fwrite_fits by lia. rewrite Z.eqb_refl. cbn [negb].
  assert (exists fp, (if 0 <? len payload then fwrite room (mk_file (contents (ev_fp L) ++ h) (len (contents (ev_fp L) ++ h))) payload
     else (len payload, mk_file (contents (ev_fp L) ++ h) (len (contents (ev_fp L) ++ h)))) = (len payload, fp) /\
     contents fp = contents (ev_fp L) ++ h ++ payload) as (fp & -> & Hfp).
  { destruct (Z.ltb_spec 0 (len payload)).
    - rewrite fwrite_fits by (cbn [contents]; rewrite len_app; lia). eexists. split; [reflexivity|]. cbn [contents]. by rewrite app_assoc.
    - rewrite (len_0_nil payload) by lia. eexists. split; [done|]. cbn. by rewrite app_nil_r. }
  rewrite Z.eqb_refl. cbn [negb]. unfold write_u32_be.
  rewrite fwrite_fits by (rewrite Hfp, !len_app, len_be32; lia). rewrite Hfp.
  exists s2. split; [|done]. cbn [snd]. by rewrite <- !app_assoc.
Qed.

Fixpoint append_all (s : crc_statics) (room : Z) (L : sl_event_log) (es : list event)
  : M (option (sl_event_log * crc_statics)) :=
  match es with
  | [] => Ok (Some (L, s))
  | (ts, type, payload) :: es =>
      let! '(rc, L, s) := sl_event_log_append s room ts L type payload in
      if rc =? 0 then append_all s room L es else Ok None
  end.

Lemma append_all_spec es : forall s room L,
  statics_ok s -> 0 <= next_seq L -> next_seq L + len es < 2 ^ 64 -> Forall event_ok es ->
  len (contents (ev_fp L) ++ ev_log (next_seq L) es) <= room ->
  exists s' L', append_all s room L es = Ok (Some (L', s')) /\ statics_ok s' /\
    contents (ev_fp L') = contents (ev_fp L) ++ ev_log (next_seq L) es /\ next_seq L' = next_seq L + len es.
Proof.
  induction es as [|e es IH]; intros s room L Hs H0 Hn He Hr.
  { exists s, L. cbn [ev_log]. rewrite app_nil_r. change (@len event []) with 0. rewrite Z.add_0_r. by split_and!. }
  apply Forall_cons in He as [He Hes]. rewrite len_cons in *. pose proof (len_nonneg es). cbn [ev_log] in *.
  rewrite !len_app in Hr. pose proof (len_nonneg (ev_log (next_seq L + 1) es)).
  destruct (event_append_spec s room L e Hs ltac:(lia) He ltac:(lia)) as (s1 & E). destruct e as [[ts type] payload].
  destruct E as [E1 Hs1]. cbn [append_all]. rewrite E1. cbn [Z.eqb].
  set (L1 := mk_evlog _ _) in *. assert (Hq : next_seq L1 = next_seq L + 1) by (cbn; apply u64_small; lia).
  destruct (IH s1 room L1) as (s2 & L2 & E2 & Hs2 & Hc2 & Hq2); [done|lia|lia|done| |].
  - rewrite Hq. cbn [L1 ev_fp contents]. rewrite !len_app. lia.
  - exists s2, L2. split_and!; [done..| |lia]. rewrite Hc2, Hq. cbn [L1 ev_fp contents]. by rewrite <- app_assoc.
Qed.

(** ** Reading back *)

Lemma len_ev_wire seq ts type payload :
  len (ev_wire seq (ts, type, payload)) = len (ev_hdr seq (now_ns ts) type (len payload)) + len payload + 4.
Proof. unfold ev_wire. rewrite !len_app, len_be32. lia. Qed.

Lemma open_loop_spec es : forall fuel pre seq,
  (length es < fuel)%nat -> 1 <= seq -> seq + len es < 2 ^ 64 -> Forall event_ok es ->
  len (pre ++ ev_log seq es) < 2 ^ 62 ->
  exists fp, open_loop fuel (mk_file (pre ++ ev_log seq es) (len pre)) seq = Ok (fp, seq + len es) /\
    contents fp = pre ++ ev_log seq es.
Proof.
  induction es as [|e es IH]; intros fuel pre seq Hf Hs Hn He Hsz; (destruct fuel as [|fuel]; [lia|]);
    cbn [open_loop ev_log]; cbv zeta.
  { rewrite fread_at by lia. rewrite take_nil. cbn [length]. change (len (@nil Z) =? 0) with true. cbv iota.
    change (@len event []) with 0. rewrite Z.add_0_r. eauto. }
  apply Forall_cons in He as [He Hes]. rewrite len_cons in *. pose proof (len_nonneg es). cbn [ev_log] in Hsz.
  destruct e as [[ts type] payload]. destruct (ev_hdr_args seq ts type payload ltac:(lia) He) as (Ht & Hy & Hp).
  pose proof (event_ok_len _ _ _ He) as Hl. pose proof (len_ev_wire seq ts type payload) as Hw.
  rewrite fread_at by lia. cbn [ev_wire] in *. set (h := ev_hdr _ _ _ _) in *.
  rewrite <- (app_assoc h).
  destruct (decode_hdr_read seq (now_ns ts) type (len payload) ltac:(lia) Ht Hy Hp 64
    ((payload ++ be32 (crc32c (h ++ payload))) ++ ev_log (seq + 1) es) ltac:(lia)) as [Hpos Ed].
  fold h in Hpos, Ed. rewrite (proj2 (Z.eqb_neq _ _)) by lia. rewrite Ed.
  rewrite !len_app in Hsz. rewrite len_be32 in Hsz. pose proof (len_nonneg pre). pose proof (len_nonneg h).
  pose proof (len_nonneg (ev_log (seq + 1) es)). unfold to_long, ftell. cbn [fpos].
  rewrite (proj2 (Z.ltb_lt (len payload) _)) by lia.
  unfold is_long. rewrite (proj2 (Z.leb_le _ _)), (proj2 (Z.ltb_lt _ _)) by lia. cbn [negb andb].
  unfold fseek_set. rewrite (proj2 (Z.ltb_ge _ _)) by lia. rewrite Z.leb_refl, u64_small by lia. cbn [contents].
  specialize (IH fuel (pre ++ h ++ payload ++ be32 (crc32c (h ++ payload))) (seq + 1)).
  rewrite <- !app_assoc in IH. rewrite <- !app_assoc.
  replace (len pre + len h + len payload + 4) with (len (pre ++ h ++ payload ++ be32 (crc32c (h ++ payload))))
    by (rewrite !len_app, len_be32; lia).
  replace (seq + (1 + len es)) with (seq + 1 + len es) by lia.
  apply IH; [cbn [length] in Hf; lia|lia|lia|done|]. rewrite !len_app, len_be32. lia.
Qed.

Lemma read_u32_at pre v post :
  is_u32 v -> exists w, read_u32_be (mk_file (pre ++ be32 v ++ post) (len pre)) =
    (Some w, mk_file (pre ++ be32 v ++ post) (len (pre ++ be32 v))).
Proof. intros Hv. unfold read_u32_be. rewrite fread_app by done. unfold be32. eauto. Qed.

Section Reading.
Context {U : Type} (visitor : sl_event_record_t -> U -> Z * U).

Lemma iterate_loop_spec es : forall fuel pre seq u,
  (length es < fuel)%nat -> 0 <= seq -> seq + len es < 2 ^ 64 -> Forall event_ok es ->
  iterate_loop visitor fuel (mk_file (pre ++ ev_log seq es) (len pre)) u = Ok (visit visitor seq es u).
Proof.
  induction es as [|e es IH]; intros fuel pre seq u Hf Hs Hn He; (destruct fuel as [|fuel]; [lia|]);
    cbn [iterate_loop ev_log visit]; cbv zeta.
  { rewrite fread_at by lia. rewrite take_nil. by change (len (@nil Z) =? 0) with true. }
  apply Forall_cons in He as [He Hes]. rewrite len_cons in *. pose proof (len_nonneg es).
  destruct e as [[ts type] payload]. destruct (ev_hdr_args seq ts type payload ltac:(lia) He) as (Ht & Hy & Hp).
  pose proof (event_ok_len _ _ _ He) as Hl. rewrite fread_at by lia. cbn [ev_wire]. set (h := ev_hdr _ _ _ _) in *.
  set (crc := crc32c (h ++ payload)).
  assert (Hcrc : is_u32 crc).
  { destruct He as (_ & Hb & _). apply crc32c_range, bytes_ok_app; [by apply ev_hdr_bytes; lia|done]. }
  rewrite <- (app_assoc h).
  destruct (decode_hdr_read seq (now_ns ts) type (len payload) ltac:(lia) Ht Hy Hp 40
    ((payload ++ be32 crc) ++ ev_log (seq + 1) es) ltac:(lia)) as [Hpos Ed].
  fold h in Hpos, Ed. rewrite (proj2 (Z.eqb_neq _ _)) by lia. rewrite Ed.
  pose proof (len_nonneg pre). pose proof (len_nonneg h). unfold fseek_set, ftell. cbn [fpos contents].
  rewrite (proj2 (Z.ltb_ge _ 0)), (proj2 (Z.ltb_ge _ (len payload))) by lia. rewrite <- !app_assoc.
  set (tail := be32 crc ++ ev_log (seq + 1) es).
  assert (Hrd : (if 0 <? len payload then fread (mk_file (pre ++ h ++ payload ++ tail) (len pre + len h)) (len payload)
      else ([], mk_file (pre ++ h ++ payload ++ tail) (len pre + len h))) =
      (payload, mk_file ((pre ++ h ++ payload) ++ tail) (len (pre ++ h ++ payload)))).
  { rewrite <- len_app. destruct (Z.ltb_spec 0 (len payload)).
    - rewrite app_assoc, fread_app by done. by rewrite <- !app_assoc.
    - rewrite (len_0_nil payload) by lia. cbn [app]. by rewrite app_nil_r, <- app_assoc. }
  rewrite Hrd, Z.eqb_refl, andb_false_r.
  destruct (read_u32_at (pre ++ h ++ payload) crc (ev_log (seq + 1) es) Hcrc) as [w Ew]. unfold tail. rewrite Ew.
  cbn [ev_view]. destruct He as (Hy32 & _). rewrite u32_small by done.
  destruct (visitor _ u) as [rc u1]. destruct (rc =? 0); [|done]. cbn [negb].
  specialize (IH fuel ((pre ++ h ++ payload) ++ be32 crc) (seq + 1) u1). rewrite <- app_assoc in IH.
  apply IH; [cbn [length] in Hf; lia|lia|lia|done].
Qed.

Lemma hdr_field_total hdr o : 0 <= o <= len hdr ->
  exists r, hdr_field hdr o = Ok r /\ match r with Some (_, o') => o < o' <= len hdr | None => True end.
Proof.
  intros Ho. unfold hdr_field, sl_varint_decode_u64.
  destruct (varint_decode_total (Z.to_nat SL_VARINT_MAX_LEN) (drop (Z.to_nat o) hdr) 0 0 0) as ([[n v]|] & -> & H); [lia|lia| |eauto].
  rewrite len_drop in H by lia. rewrite (proj2 (Z.ltb_ge _ _)) by lia. eexists. split; [done|]. cbv iota beta. lia.
Qed.

Lemma decode_hdr_total hdr :
  exists r, decode_hdr hdr = Ok r /\ match r with Some (_, _, _, _, o) => 0 < o <= len hdr | None => True end.
Proof.
  unfold decode_hdr. pose proof (len_nonneg hdr).
  destruct (hdr_field_total hdr 0) as ([[v1 o1]|] & -> & H1); [lia| |eauto].
  destruct (hdr_field_total hdr o1) as ([[v2 o2]|] & -> & H2); [lia| |eauto].
  destruct (hdr_field_total hdr o2) as ([[v3 o3]|] & -> & H3); [lia| |eauto].
  destruct (hdr_field_total hdr o3) as ([[v4 o4]|] & -> & H4); [lia| |eauto].
  eexists. split; [done|]. cbv iota beta. lia.
Qed.

Lemma fread_pos f n : 0 <= fpos f -> 0 <= n ->
  contents (fread f n).2 = contents f /\ fpos f <= fpos (fread f n).2 /\
  (0 < len (fread f n).1 -> fpos f < len (contents f)) /\
  fpos (fread f n).2 <= Z.max (fpos f) (len (contents f)).
Proof.
  intros Hp Hn. unfold fread. cbn [fst snd contents fpos]. pose proof (len_nonneg (take (Z.to_nat n) (drop (Z.to_nat (fpos f)) (contents f)))) as H0.
  unfold len in *. rewrite length_take, length_drop in *. split_and!; try done; lia.
Qed.

(** Iterating over any file at all returns. *)
Lemma iterate_loop_total fuel : forall fp u,
  0 <= fpos fp -> len (contents fp) - fpos fp < Z.of_nat fuel -> (0 < fuel)%nat ->
  exists u', iterate_loop visitor fuel fp u = Ok u'.
Proof.
  induction fuel as [|fuel IH]; intros fp u Hp Hf H0; [lia|]. cbn [iterate_loop]. cbv zeta.
  pose proof (fread_pos fp 40 Hp ltac:(lia)) as (Hc & Hge & Hlt & _).
  destruct (fread fp 40) as [hdr fp1]. cbn [fst snd] in *.
  destruct (Z.eqb_spec (len hdr) 0) as [|Hne]; [eauto|]. pose proof (len_nonneg hdr).
  destruct (decode_hdr_total hdr) as ([[[[[sq ts] ty] pl] o]|] & -> & Ho); [|eauto].
  destruct (2 ^ 20 <? pl); [eauto|]. unfold fseek_set, ftell. rewrite (proj2 (Z.ltb_ge _ 0)) by lia.
  set (fp2 := mk_file (contents fp1) (fpos fp + o)).
  assert (Hp2 : exists pay fp3, (if 0 <? pl then fread fp2 pl else ([], fp2)) = (pay, fp3) /\
     contents fp3 = contents fp /\ fpos fp + o <= fpos fp3).
  { destruct (Z.ltb_spec 0 pl); [|eexists _, _; split; [done|]; by split; [|cbn; lia]].
    pose proof (fread_pos fp2 pl ltac:(cbn; lia) ltac:(lia)) as (Hc2 & Hg2 & _ & _).
    destruct (fread fp2 pl) as [pay fp3]. cbn [fst snd] in *. eexists _, _. split; [done|].
    split; [by rewrite Hc2, <- Hc|]. cbn [fp2 fpos] in Hg2. lia. }
  destruct Hp2 as (pay & fp3 & -> & Hc3 & Hg3). destruct (_ && _); [eauto|].
  unfold read_u32_be. pose proof (fread_pos fp3 4 ltac:(lia) ltac:(lia)) as (Hc4 & Hg4 & _ & _).
  destruct (fread fp3 4) as [b4 fp4]. cbn [fst snd] in *.
  destruct b4 as [|b0 [|b1 [|b2 [|b3 [|]]]]]; eauto.
  destruct (visitor _ u) as [rc u1]. destruct (negb _); [eauto|].
  apply IH; [lia|rewrite Hc4, Hc3; lia|]. specialize (Hlt ltac:(lia)). lia.
Qed.
End Reading.

(** The program run several times: each session opens the file, appends and closes it. *)
Fixpoint log_sessions (s : crc_statics) (room : Z) (fuel : nat) (c : list Z) (sessions : list (list event))
  : M (option (list Z)) :=
  match sessions with
  | [] => Ok (Some c)
  | es :: sessions =>
      let! o := sl_event_log_open fuel (Some c) in
      match o with
      | None => Ok None
      | Some L =>
          let! r := append_all s room L es in
          match r with
          | None => Ok None
          | Some (L, s) => log_sessions s room fuel (contents (ev_fp L)) sessions
          end
      end
  end.

Lemma ev_log_app es fs : forall seq, ev_log seq (es ++ fs) = ev_log seq es ++ ev_log (seq + len es) fs.
Proof.
  induction es as [|e es IH]; intros seq; cbn [ev_log app]; [change (@len event []) with 0; by rewrite Z.add_0_r|].
  rewrite IH, <- app_assoc, len_cons. do 3 f_equal. lia.
Qed.

Lemma ev_log_length es : forall seq, 1 <= seq -> seq + len es < 2 ^ 64 -> Forall event_ok es -> len es <= len (ev_log seq es).
Proof.
  induction es as [|e es IH]; intros seq Hs Hn He; [done|]. apply Forall_cons in He as [He Hes].
  cbn [ev_log]. rewrite len_app, len_cons in *. pose proof (len_nonneg es). specialize (IH (seq + 1) ltac:(lia) ltac:(lia) Hes).
  destruct e as [[ts type] payload]. rewrite len_ev_wire. pose proof (event_ok_len _ _ _ He).
  destruct (ev_hdr_args seq ts type payload ltac:(lia) He) as (Ht & Hy & Hp).
  pose proof (len_ev_hdr seq (now_ns ts) type (len payload) ltac:(lia) Ht Hy Hp). lia.
Qed.

Lemma log_sessions_spec sessions : forall s room fuel old,
  statics_ok s -> Forall event_ok old -> Forall (Forall event_ok) sessions ->
  len (old ++ concat sessions) < 2 ^ 62 ->
  len (ev_log 1 (old ++ concat sessions)) <= room -> room < 2 ^ 62 ->
  (length (old ++ concat sessions) < fuel)%nat ->
  log_sessions s room fuel (ev_log 1 old) sessions = Ok (Some (ev_log 1 (old ++ concat sessions))).
Proof.
  induction sessions as [|es ss IH]; intros s room fuel old Hs Ho He Hn Hr Hr62 Hf; cbn [log_sessions concat].
  { by rewrite app_nil_r. }
  apply Forall_cons in He as [He Hes]. cbn [concat] in *.
  assert (Hle : len (ev_log 1 (old ++ es)) <= room).
  { rewrite app_assoc, ev_log_app, len_app in Hr. pose proof (len_nonneg (ev_log (1 + len (old ++ es)) (concat ss))). lia. }
  rewrite !len_app in Hn. pose proof (len_nonneg old). pose proof (len_nonneg es). pose proof (len_nonneg (concat ss)).
  rewrite !length_app in Hf.
  rewrite ev_log_app, len_app in Hle. pose proof (len_nonneg (ev_log (1 + len old) es)).
  unfold sl_event_log_open. pose proof (open_loop_spec old fuel [] 1 ltac:(lia) ltac:(lia) ltac:(lia) Ho) as Hop.
  cbn [app] in Hop. destruct Hop as (fp & Eop & Hfp); [lia|]. change (len (@nil Z)) with 0 in Eop. rewrite Eop.
  destruct (append_all_spec es s room (mk_evlog (fseek_end fp) (1 + len old))) as (s' & L' & Ea & Hs' & Hc & _);
    cbn [ev_fp next_seq fseek_end contents] in *; [done|lia|lia|done|rewrite Hfp, len_app; lia|].
  rewrite Ea, Hc, Hfp, <- ev_log_app, app_assoc. apply IH; try done.
  - by apply Forall_app.
  - rewrite <- app_assoc, !len_app. lia.
  - by rewrite <- app_assoc.
  - rewrite <- app_assoc, !length_app. lia.
Qed.

(** C25: the log replays what was appended.  Events appended over any number of sessions, with room
    for them on the disk, each opening the file that the last one left, come back to a visitor in the order of the appends,
    numbered from 1 without gaps, with their time, type and payload, until the visitor asks to
    stop; and on any other file, damaged or not, the visit returns. *)
Theorem event_log_replays {U} (visitor : sl_event_record_t -> U -> Z * U) u s room fuel sessions other :
  statics_ok s -> Forall (Forall event_ok) sessions -> len (concat sessions) < 2 ^ 62 ->
  len (ev_log 1 (concat sessions)) <= room -> room < 2 ^ 62 -> (length (concat sessions) < fuel)%nat ->
  (exists c, log_sessions s room fuel [] sessions = Ok (Some c) /\
     sl_event_log_iterate visitor (Some c) u = Ok (0, visit visitor 1 (concat sessions) u)) /\
  (exists u', sl_event_log_iterate visitor (Some other) u = Ok (0, u')).
Proof.
  intros Hs He Hn Hr Hr62 Hf. assert (Hall : Forall event_ok (concat sessions)) by by apply Forall_concat.
  split.
  - exists (ev_log 1 (concat sessions)). split; [by apply (log_sessions_spec sessions s room fuel [])|].
    unfold sl_event_log_iterate. pose proof (ev_log_length (concat sessions) 1 ltac:(lia) ltac:(lia) Hall) as Hl.
    pose proof (iterate_loop_spec visitor (concat sessions) (S (length (ev_log 1 (concat sessions)))) [] 1 u) as E.
    cbn [app] in E. change (len (@nil Z)) with 0 in E. rewrite E; [done|unfold len in Hl; lia|lia|lia|done].
  - unfold sl_event_log_iterate.
    destruct (iterate_loop_total visitor (S (length other)) (mk_file other 0) u) as (u' & ->); cbn [fpos contents]; eauto; unfold len; lia.
Qed.

Definition two_sessions : list (list event) := [[(Some (5, 7), 3, [1; 2]); (None, 99, [])]; [(Some (6, 0), 4, [9])]].

Lemma event_log_replays_witness :
  exists c, log_sessions crc_start 100 10 [] two_sessions = Ok (Some c) /\
    sl_event_log_iterate (fun r l => (0, l ++ [(ev_seq r, ev_payload r)])) (Some c) [] =
      Ok (0, [(1, Some [1; 2]); (2, None); (3, Some [9])]).
Proof.
  destruct (event_log_replays (fun r l => (0, l ++ [(ev_seq r, ev_payload r)])) [] crc_start 100 10 two_sessions [])
    as [(c & Ec & Ei) _].
  - apply crc_start_ok.
  - by_deciding.
  - by vm_compute.
  - by vm_compute.
  - lia.
  - by vm_compute; lia.
  - exists c. split; [exact Ec|]. exact Ei.
Defined.

(** ** What the log does not do *)

(** The length field of a record is trusted when the log is opened: this one sends the stream back
    to the start of the record, and opening never returns. *)
Definition looping_events : list Z := ev_hdr 1 0 1 (2 ^ 64 - 17).
Lemma event_log_open_loops fuel : forall next, open_loop fuel (mk_file looping_events 0) next = Fault.
Proof.
  induction fuel as [|fuel IH]; intros next; [done|]. cbn [open_loop]. cbv zeta.
  change (fread (mk_file looping_events 0) 64) with (looping_events, mk_file looping_events 13). cbv beta iota zeta.
  change (len looping_events =? 0) with false. cbv iota.
  assert (decode_hdr looping_events = Ok (Some (1, 0, 1, 2 ^ 64 - 17, 13))) as -> by by vm_compute.
  change (is_long (ftell (mk_file looping_events 0) + 13 + to_long (2 ^ 64 - 17) + 4)) with true. cbv iota beta.
  change (fseek_set (mk_file looping_events 13) (ftell (mk_file looping_events 0) + 13 + to_long (2 ^ 64 - 17) + 4))
    with (Some (mk_file looping_events 0)). apply IH.
Qed.

(** The checksum is read and not compared: a record with another payload is delivered. *)
Lemma damaged_record_delivered :
  sl_event_log_iterate (fun r l => (0, l ++ [ev_payload r]))
    (Some (ev_hdr 1 0 1 1 ++ [77] ++ be32 (crc32c (ev_hdr 1 0 1 1 ++ [76])))) [] = Ok (0, [Some [77]]).
Proof. by vm_compute. Qed.

(** When the disk fills up in the checksum, the append still reports success. *)
Lemma append_full_disk :
  match sl_event_log_append crc_start 6 None (mk_evlog (mk_file [] 0) 1) 1 [76] with
  | Ok (rc, L, _) => rc = 0 /\ len (contents (ev_fp L)) = 6 /\
      sl_event_log_iterate (fun r l => (0, l ++ [ev_payload r])) (Some (contents (ev_fp L))) [] = Ok (0, [])
  | Fault => False
  end.
Proof. by vm_compute. Qed.

(* src/inc/replay_harness.hpp:21-26 *)
Record ReplayEvent := mk_revent { seq : Z; timestamp_ns : Z; r_type : Z; payload : list Z }.

(* src/inc/replay_harness.hpp:30-35 *)
Record ReplayStats := mk_rstats { events_seen : Z; events_dispatched : Z; events_skipped : Z; elapsed_ns : Z }.

(* src/inc/replay_harness.hpp:69-70 *)
Record ReplayHarness := mk_harness { handlers_ : gmap Z Z; default_handler_ : option Z }.

(* src/src/replay_harness.cpp:8-10 ReplayHarness::on *)
Definition on (type handler : Z) (h : ReplayHarness) : ReplayHarness := mk_harness (<[type := handler]> (handlers_ h)) (default_handler_ h).
(* src/src/replay_harness.cpp:12-14 *)
Definition on_default (handler : option Z) (h : ReplayHarness) : ReplayHarness := mk_harness (handlers_ h) handler.

Section system.
Context {S : Type} (handle : Z -> ReplayEvent -> S -> S).

(* src/src/replay_harness.cpp:16-23 ReplayHarness::dispatch *)
Definition replay_dispatch (h : ReplayHarness) (ev : ReplayEvent) (s : S) : S :=
  match handlers_ h !! r_type ev with
  | Some f => handle f ev s
  | None => match default_handler_ h with Some f => handle f ev s | None => s end
  end.

(** [slept] is the delays so far, in milliseconds; [sys] the system under test. *)
(* src/inc/replay_harness.hpp:59-65 *)
Record RunCtx := mk_ctx {
  c_stats : ReplayStats; c_respect : bool; c_max_sleep_ms : Z; c_prev_ts_ns : Z; slept : list Z; sys : S
}.

(* src/src/replay_harness.cpp:25-58 *)
Definition visitor_thunk (h : ReplayHarness) (rec : sl_event_record_t) (ctx : RunCtx) : Z * RunCtx :=
  let st := c_stats ctx in
  let seen := u64 (events_seen st + 1) in
  let ev := mk_revent (ev_seq rec) (ev_timestamp_ns rec) (ev_type rec)
              (match ev_payload rec with Some b => if 0 <? ev_payload_len rec then take (Z.to_nat (ev_payload_len rec)) b else [] | None => [] end) in
  let slept :=
    if c_respect ctx && negb (c_prev_ts_ns ctx =? 0) && (c_prev_ts_ns ctx <? timestamp_ns ev) then
      let delta_ms := (timestamp_ns ev - c_prev_ts_ns ctx) / 1000000 in
      let delta_ms := if c_max_sleep_ms ctx <? delta_ms then c_max_sleep_ms ctx else delta_ms in
      if 0 <? delta_ms then slept ctx ++ [delta_ms] else slept ctx
    else slept ctx in
  let handler_present := bool_decide (is_Some (handlers_ h !! r_type ev)) in
  if handler_present || bool_decide (is_Some (default_handler_ h)) then
    (0, mk_ctx (mk_rstats seen (u64 (events_dispatched st + 1)) (events_skipped st) (elapsed_ns st)) (c_respect ctx) (c_max_sleep_ms ctx)
          (timestamp_ns ev) slept (replay_dispatch h ev (sys ctx)))
  else
    (0, mk_ctx (mk_rstats seen (events_dispatched st) (u64 (events_skipped st + 1)) (elapsed_ns st)) (c_respect ctx) (c_max_sleep_ms ctx)
          (timestamp_ns ev) slept (sys ctx)).

Definition no_stats : ReplayStats := mk_rstats 0 0 0 0.

(** The result of the iteration is ignored. *)
(* src/src/replay_harness.cpp:60-75 *)
Definition run_file (h : ReplayHarness) (file : option (list Z)) (respect_timing : bool) (max_sleep_ms elapsed : Z) (s : S)
    : M (ReplayStats * list Z * S) :=
  let! '(_, ctx) := sl_event_log_iterate (visitor_thunk h) file (mk_ctx no_stats respect_timing max_sleep_ms 0 [] s) in
  let st := c_stats ctx in
  Ok (mk_rstats (events_seen st) (events_dispatched st) (events_skipped st) elapsed, slept ctx, sys ctx).

(** The body of the loop of [run_events]: the statistics, the previous time, the delays and
    the system. *)
(* src/src/replay_harness.cpp:84-103 ReplayHarness::run_events *)
Definition event_body (h : ReplayHarness) (respect_timing : bool) (max_sleep_ms : Z) (st : ReplayStats * Z * list Z * S) (ev : ReplayEvent)
    : ReplayStats * Z * list Z * S :=
  let '(stats, prev_ts, slept, s) := st in
  let seen := u64 (events_seen stats + 1) in
  let slept :=
    if respect_timing && negb (prev_ts =? 0) && (prev_ts <? timestamp_ns ev) then
      let delta_ms := (timestamp_ns ev - prev_ts) / 1000000 in
      let delta_ms := if max_sleep_ms <? delta_ms then max_sleep_ms else delta_ms in
      if 0 <? delta_ms then slept ++ [delta_ms] else slept
    else slept in
  let handler_present := bool_decide (is_Some (handlers_ h !! r_type ev)) in
  if handler_present || bool_decide (is_Some (default_handler_ h)) then
    (mk_rstats seen (u64 (events_dispatched stats + 1)) (events_skipped stats) (elapsed_ns stats), timestamp_ns ev, slept, replay_dispatch h ev s)
  else (mk_rstats seen (events_dispatched stats) (u64 (events_skipped stats + 1)) (elapsed_ns stats), timestamp_ns ev, slept, s).

(* src/src/replay_harness.cpp:77-109 *)
Definition run_events (h : ReplayHarness) (events : list ReplayEvent) (respect_timing : bool) (max_sleep_ms elapsed : Z) (s : S)
    : ReplayStats * list Z * S :=
  let '(st, _, slept, s) := foldl (event_body h respect_timing max_sleep_ms) (no_stats, 0, [], s) events in
  (mk_rstats (events_seen st) (events_dispatched st) (events_skipped st) elapsed, slept, s).

(** ** A replayed log is the run of its events *)

(** The event the harness makes of the [k]th one appended. *)
Definition replay_of (k : Z) (e : event) : ReplayEvent :=
  let '(ts, type, body) := e in mk_revent k (now_ns ts) type body.
Fixpoint replay_list (k : Z) (es : list event) : list ReplayEvent :=
  match es with [] => [] | e :: es => replay_of k e :: replay_list (k + 1) es end.

Definition ctx_of (respect : bool) (cap : Z) (st : ReplayStats * Z * list Z * S) : RunCtx :=
  let '(stats, prev, sl, s) := st in mk_ctx stats respect cap prev sl s.

Lemma thunk_step h respect cap st k e : visitor_thunk h (ev_view k e) (ctx_of respect cap st) =
  (0, ctx_of respect cap (event_body h respect cap st (replay_of k e))).
Proof.
  destruct st as [[[stats prev] sl] s], e as [[ts type] body]. unfold visitor_thunk, event_body, ctx_of, replay_of, ev_view.
  cbn [ev_seq ev_timestamp_ns ev_type ev_payload ev_payload_len c_stats c_respect c_max_sleep_ms c_prev_ts_ns slept sys].
  assert (Eb : match (if 0 <? len body then Some body else None) with
    | Some b => if 0 <? len body then take (Z.to_nat (len body)) b else [] | None => [] end = body).
  { destruct (Z.ltb_spec 0 (len body)); [rewrite len_to_nat; apply firstn_all|].
    symmetry. apply len_0_nil. pose proof (len_nonneg body). lia. }
  rewrite Eb. cbn [r_type timestamp_ns]. by destruct (_ || _).
Qed.

Lemma visit_events h respect cap es : forall k st,
  visit (visitor_thunk h) k es (ctx_of respect cap st) = ctx_of respect cap (foldl (event_body h respect cap) st (replay_list k es)).
Proof.
  induction es as [|e es IH]; intros k st; cbn [visit replay_list foldl]; [done|].
  rewrite thunk_step. cbn [Z.eqb]. apply IH.
Qed.

(** C21: Replaying a log does what the captured events do. Events appended over any number of
    sessions, with room for them on the disk, and replayed from the file drive the system under test through exactly the
    states that running them from memory does, numbered from 1, with the same delays and
    statistics; and any other file, damaged or not, is replayed to an end. *)
Theorem replay_matches_capture (h : ReplayHarness) st room fuel sessions other respect cap elapsed (s : S) :
  statics_ok st -> Forall (Forall event_ok) sessions -> len (concat sessions) < 2 ^ 62 ->
  len (ev_log 1 (concat sessions)) <= room -> room < 2 ^ 62 -> (length (concat sessions) < fuel)%nat ->
  (exists c, log_sessions st room fuel [] sessions = Ok (Some c) /\
     run_file h (Some c) respect cap elapsed s = Ok (run_events h (replay_list 1 (concat sessions)) respect cap elapsed s)) /\
  exists r, run_file h (Some other) respect cap elapsed s = Ok r.
Proof.
  intros Hs He Hn Hr Hr62 Hf. assert (Hall : Forall event_ok (concat sessions)) by by apply Forall_concat.
  assert (E0 : mk_ctx no_stats respect cap 0 [] s = ctx_of respect cap (no_stats, 0, [], s)) by done. split.
  - exists (ev_log 1 (concat sessions)). split; [by apply (log_sessions_spec sessions st room fuel [])|].
    unfold run_file, run_events, sl_event_log_iterate. pose proof (ev_log_length (concat sessions) 1 ltac:(lia) ltac:(lia) Hall) as Hl.
    pose proof (iterate_loop_spec (visitor_thunk h) (concat sessions) (Datatypes.S (length (ev_log 1 (concat sessions)))) [] 1
      (mk_ctx no_stats respect cap 0 [] s)) as E.
    cbn [app] in E. change (len (@nil Z)) with 0 in E. rewrite E; [|unfold len in Hl; lia|lia|lia|done].
    rewrite E0, visit_events. by destruct (foldl _ _ _) as [[[stats prev] sl] s'].
  - unfold run_file, sl_event_log_iterate.
    destruct (iterate_loop_total (visitor_thunk h) (Datatypes.S (length other)) (mk_file other 0) (mk_ctx no_stats respect cap 0 [] s))
      as (u' & ->); cbn [fpos contents]; eauto; unfold len; lia.
Qed.

Lemma capped_delay cap x : (0 <? (if cap <? x then cap else x)) = true -> 0 < (if cap <? x then cap else x) <= cap.
Proof. intros H%Z.ltb_lt. destruct (Z.ltb_spec cap x); lia. Qed.

(** Every event is counted as dispatched or skipped, every delay is positive and within the
    cap, and there is none without [respect_timing]. *)
Lemma event_body_stats h respect cap : 0 <= cap -> forall evs stats prev sl s,
  is_u64 (events_seen stats) -> events_seen stats = u64 (events_dispatched stats + events_skipped stats) -> Forall (fun d => 0 < d <= cap) sl ->
  let '(stats', _, sl', _) := foldl (event_body h respect cap) (stats, prev, sl, s) evs in
  events_seen stats' = u64 (events_dispatched stats' + events_skipped stats') /\ events_seen stats' = u64 (events_seen stats + len evs) /\
  Forall (fun d => 0 < d <= cap) sl' /\ (respect = false -> sl' = sl).
Proof.
  intros Hcap. induction evs as [|ev evs IH]; intros stats prev sl s Hu Hst Hsl; cbn [foldl].
  { split; [done|]. rewrite Z.add_0_r, u64_small by done. done. }
  destruct (event_body h respect cap (stats, prev, sl, s) ev) as [[[stats1 prev1] sl1] s1] eqn:E.
  assert (H1 : is_u64 (events_seen stats1) /\ events_seen stats1 = u64 (events_dispatched stats1 + events_skipped stats1) /\
    events_seen stats1 = u64 (events_seen stats + 1) /\ Forall (fun d => 0 < d <= cap) sl1 /\ (respect = false -> sl1 = sl)).
  { unfold event_body in E. destruct (_ || _); injection E as <- _ <- _; cbn [events_seen events_dispatched events_skipped];
      (split; [apply u64_range|]); (split; [rewrite Hst; unfold u64; rewrite !Zplus_mod_idemp_l, ?Zplus_mod_idemp_r; f_equal; lia|]);
      (split; [done|]); (split; [|by intros ->]);
      (destruct (respect && _ && _); [|done]); (destruct (0 <? _) eqn:Ed; [|done]); apply Forall_app; (split; [done|]); apply Forall_singleton; by apply capped_delay. }
  destruct H1 as (Hu1 & Hst1 & Hs1 & Hsl1 & Hr1). specialize (IH stats1 prev1 sl1 s1 Hu1 Hst1 Hsl1).
  destruct (foldl _ _ evs) as [[[stats' prev'] sl'] s']. destruct IH as (A & B & C & D). split; [done|]. split; [|split; [done|]].
  - rewrite B, Hs1, len_cons. unfold u64. rewrite Zplus_mod_idemp_l. f_equal. lia.
  - intros Hf. by rewrite D, Hr1.
Qed.

End system.

(** Type 3 has a handler that keeps the payloads; type 4 has none. *)
Definition keeper : ReplayHarness := on 3 1 (mk_harness ∅ None).

Lemma replay_matches_capture_witness :
  exists c, log_sessions crc_start 100 10 [] two_sessions = Ok (Some c) /\
    run_file (fun _ ev s => s ++ [payload ev]) keeper (Some c) true 200 9 [] = Ok (mk_rstats 3 1 2 9, [], [[1; 2]]).
Proof.
  destruct (replay_matches_capture (fun _ ev s => s ++ [payload ev]) keeper crc_start 100 10 two_sessions [] true 200 9 [])
    as [(c & Hc & Hr) _].
  - apply crc_start_ok.
  - by_deciding.
  - reflexivity.
  - by_deciding.
  - reflexivity.
  - cbn. lia.
  - exists c. split; [exact Hc|]. rewrite Hr. vm_compute. reflexivity.
Defined.

(** A file that cannot be opened is reported as an empty run. *)
Example missing_log_unnoticed (h : ReplayHarness) :
  run_file (fun _ _ s => s) h None false 200 0 tt = Ok (mk_rstats 0 0 0 0, [], tt).
Proof. reflexivity. Qed.
