(* ===== verification/StateStore.v ===== *)
(** The typed facade over the key-value store ([src/state_store.cpp], [inc/state_store.hpp]) and
    its prefixed views. *)

From stdpp Require Import gmap.
From S2P Require Import Prelude ByteOrder Crc32 Stdio KvStore.
Local Open Scope Z_scope.

(** [kv_] is [None] for a store that failed to open; the statics are those of the checksum. *)
(* src/inc/state_store.hpp:44-45 StateStore *)
Record StateStore := mk_state_store { kv_ : option sl_kvstore; crc_ : crc_statics }.

(* src/src/state_store.cpp:7-8 *)
Definition open_store (fuel : nat) (alloc : bool) (file : option (list Z)) (s : crc_statics) : M StateStore :=
  let! kv := sl_kvstore_open fuel alloc file in Ok (mk_state_store kv s).

(* src/inc/state_store.hpp:26-26 *)
Definition ok (st : StateStore) : bool := bool_decide (is_Some (kv_ st)).

Definition put_raw (room : Z) (alloc : bool) (key value : list Z) (st : StateStore) : M (bool * StateStore) :=
  match kv_ st with
  | None => Ok (false, st)
  | Some kv =>
      let! '(rc, kv, s) := sl_kvstore_put (crc_ st) room alloc kv key value in
      Ok (rc =? 0, mk_state_store (Some kv) s)
  end.

(* src/src/state_store.cpp:14-19 *)
Definition put_string (room : Z) (alloc : bool) (key value : list Z) (st : StateStore) : M (bool * StateStore) :=
  put_raw room alloc key value st.

(* src/src/state_store.cpp:21-30 *)
Definition put_u64 (room : Z) (alloc : bool) (key : list Z) (value : Z) (st : StateStore) : M (bool * StateStore) :=
  match kv_ st with
  | None => Ok (false, st)
  | Some _ =>
      let! buf := for_up 8 0 (fun i buf => store buf i (u8 (value ≫ (56 - 8 * i)))) (replicate 8 0) in
      put_raw room alloc key buf st
  end.

(* src/src/state_store.cpp:32-38 *)
Definition put_bytes (room : Z) (alloc : bool) (key data : list Z) (st : StateStore) : M (bool * StateStore) :=
  put_raw room alloc key data st.

(** A [resize] of the buffer to [n]. *)
Definition resize (n : Z) (b : list Z) : list Z :=
  take (Z.to_nat n) b ++ replicate (Z.to_nat n - length b) 0.

(* src/src/state_store.cpp:40-55 *)
Definition get_string (key : list Z) (st : StateStore) : M (option (list Z) * StateStore) :=
  match kv_ st with
  | None => Ok (None, st)
  | Some kv =>
      let out := replicate 4096 0 in
      let! '(rc, out, got, kv) := sl_kvstore_get kv key out in
      let got := default 0 got in
      let! '(rc, out, got, kv) :=
        (if rc =? -3 then
           let out := resize got out in
           let! '(rc, out, g, kv) := sl_kvstore_get kv key out in
           Ok (rc, out, default got g, kv)
         else Ok (rc, out, got, kv)) in
      let st := mk_state_store (Some kv) (crc_ st) in
      if negb (rc =? 0) then Ok (None, st) else Ok (Some (resize got out), st)
  end.

(* src/src/state_store.cpp:57-67 *)
Definition get_u64 (key : list Z) (st : StateStore) : M (option Z * StateStore) :=
  match kv_ st with
  | None => Ok (None, st)
  | Some kv =>
      let! '(rc, buf, got, kv) := sl_kvstore_get kv key (replicate 8 0) in
      let st := mk_state_store (Some kv) (crc_ st) in
      if negb (rc =? 0) then Ok (None, st)
      else if negb (default 0 got =? 8) then Ok (None, st)
      else
        let! v := for_up 8 0 (fun i v => let! b := load buf i in Ok (Z.lor (u64 (v ≪ 8)) b)) 0 in
        Ok (Some v, st)
  end.

(** The same code as [get_string], on a vector. *)
(* src/src/state_store.cpp:69-84 *)
Definition get_bytes (key : list Z) (st : StateStore) : M (option (list Z) * StateStore) := get_string key st.

(* src/src/state_store.cpp:86-89 *)
Definition ss_remove (room : Z) (key : list Z) (st : StateStore) : M (bool * StateStore) :=
  match kv_ st with
  | None => Ok (false, st)
  | Some kv =>
      let! '(rc, kv, s) := sl_kvstore_delete (crc_ st) room kv key in
      Ok (rc =? 0, mk_state_store (Some kv) s)
  end.

(* src/src/state_store.cpp:91-94 *)
Definition ss_has (key : list Z) (st : StateStore) : bool :=
  match kv_ st with None => false | Some kv => sl_kvstore_has kv key end.

(** [synced] is what [sl_kvstore_sync] returns. *)
(* src/src/state_store.cpp:96-98 *)
Definition ss_sync (synced : Z) (st : StateStore) : bool := ok st && (synced =? 0).

(* src/src/state_store.cpp:100-102 *)
Definition ss_size (st : StateStore) : Z :=
  match kv_ st with None => 0 | Some kv => sl_kvstore_size kv end.

(** A view puts its prefix and a colon in front of every key. *)
(* src/inc/state_store.hpp:69-76 *)
Definition make (prefix key : list Z) : list Z := prefix ++ [58] ++ key.

(* src/inc/state_store.hpp:53-66 StateStoreView *)
Definition view_put_string room alloc prefix key value := put_string room alloc (make prefix key) value.
Definition view_get_string prefix key := get_string (make prefix key).
Definition view_put_u64 room alloc prefix key v := put_u64 room alloc (make prefix key) v.
Definition view_get_u64 prefix key := get_u64 (make prefix key).
Definition view_remove room prefix key := ss_remove room (make prefix key).
Definition view_has prefix key := ss_has (make prefix key).

(** ** The store as a typed map *)

(** A store that is open and holds the map [m]. *)
Definition ss_repr (st : StateStore) (m : gmap (list Z) (list Z)) : Prop :=
  exists kv, kv_ st = Some kv /\ kv_repr kv m /\ statics_ok (crc_ st).
Definition ss_file (st : StateStore) : list Z := match kv_ st with Some kv => contents (kv_fp kv) | None => [] end.

Lemma put_raw_repr room key value st m :
  ss_repr st m -> kv_ok key value -> len (ss_file st) + len (record_bytes key value 0) <= room ->
  exists st', put_raw room true key value st = Ok (true, st') /\ ss_repr st' (<[key := value]> m) /\
    ss_file st' = ss_file st ++ record_bytes key value 0.
Proof.
  intros (kv & Ek & Hr & Hs) Hkv Hroom. unfold put_raw, ss_file in *. rewrite Ek in *.
  destruct (put_repr (crc_ st) room kv m key value Hr Hs Hkv Hroom) as (kv' & s' & -> & Hs' & Hr' & Hc).
  eexists. split; [reflexivity|]. split; [by exists kv'|]. by rewrite <- Hc.
Qed.

Lemma ss_remove_repr room key st m :
  ss_repr st m -> kv_ok key [] -> len (ss_file st) + len (record_bytes key [] SL_KV_FLAG_TOMB) <= room ->
  exists st', ss_remove room key st = Ok (true, st') /\ ss_repr st' (delete key m) /\
    ss_file st' = ss_file st ++ record_bytes key [] SL_KV_FLAG_TOMB.
Proof.
  intros (kv & Ek & Hr & Hs) Hkv Hroom. unfold ss_remove, ss_file in *. rewrite Ek in *.
  destruct (delete_repr (crc_ st) room kv m key Hr Hs Hkv Hroom) as (kv' & s' & -> & Hs' & Hr' & Hc).
  eexists. split; [reflexivity|]. split; [by exists kv'|]. by rewrite <- Hc.
Qed.

Lemma resize_exact v b : resize (len v) (v ++ b) = v.
Proof.
  unfold resize. rewrite take_len_app, len_to_nat, length_app.
  replace (length v - (length v + length b))%nat with O by lia. apply app_nil_r.
Qed.

Lemma len_resize n b : 0 <= n -> len (resize n b) = n.
Proof. intros Hn. unfold resize, len. rewrite length_app, length_take, length_replicate. lia. Qed.

(** Strings of any length come back, the long ones through a second, larger buffer. *)
Lemma get_string_repr key st m :
  ss_repr st m -> exists st', get_string key st = Ok (m !! key, st') /\ ss_repr st' m /\ ss_file st' = ss_file st.
Proof.
  intros (kv & Ek & Hr & Hs). unfold get_string, ss_file. rewrite Ek.
  destruct (get_repr kv m key (replicate 4096 0) Hr) as (fp1 & -> & Hc1).
  destruct (m !! key) as [v|] eqn:Em; cbn [spec_get]; cycle 1.
  { eexists. split; [reflexivity|]. split; [|by cbn; rewrite Hc1]. eexists. split_and!; [reflexivity|by apply kv_repr_fp|done]. }
  destruct (Z.ltb_spec (len (replicate 4096 0)) (len v)) as [Hlt|Hle]; cbn [from_option id Z.eqb Pos.eqb negb].
  - pose proof (kv_repr_fp kv m fp1 Hr Hc1) as Hr1.
    destruct (get_repr _ m key (resize (len v) (replicate 4096 0)) Hr1) as (fp2 & -> & Hc2).
    rewrite Em. cbn [spec_get]. rewrite len_resize by apply len_nonneg. rewrite (proj2 (Z.ltb_ge _ _)) by lia.
    cbn [from_option id Z.eqb negb]. rewrite resize_exact. eexists. split; [reflexivity|].
    split; [|by cbn; rewrite Hc2, <- Hc1]. eexists. split_and!; [reflexivity|by apply kv_repr_fp|done].
  - rewrite resize_exact. eexists. split; [reflexivity|]. split; [|by cbn; rewrite Hc1].
    eexists. split_and!; [reflexivity|by apply kv_repr_fp|done].
Qed.

(** A value of eight bytes reads as a number, any other does not. *)
Definition as_u64 (o : option (list Z)) : option Z :=
  match o with Some v => if len v =? 8 then Some (bytes_u64 v) else None | None => None end.

Lemma get_u64_repr key st m :
  ss_repr st m -> exists st', get_u64 key st = Ok (as_u64 (m !! key), st') /\ ss_repr st' m /\ ss_file st' = ss_file st.
Proof.
  intros (kv & Ek & Hr & Hs). unfold get_u64, ss_file. rewrite Ek.
  destruct (get_repr kv m key (replicate 8 0) Hr) as (fp1 & -> & Hc1).
  set (st' := mk_state_store (Some (with_fp kv fp1)) (crc_ st)).
  assert (Hst : ss_repr st' m) by (eexists; split_and!; [reflexivity|by apply kv_repr_fp|done]).
  assert (Hf : ss_file st' = contents (kv_fp kv)) by (cbn; by rewrite Hc1).
  exists st'. split; [|done]. destruct (m !! key) as [v|] eqn:Em; cbn [spec_get as_u64]; [|done].
  change (len (replicate 8 0)) with 8. destruct (Z.ltb_spec 8 (len v)).
  { rewrite (proj2 (Z.eqb_neq (len v) 8)) by lia. done. }
  cbn [Z.eqb negb from_option id]. destruct (Z.eqb_spec (len v) 8) as [E|]; cbn [negb]; [|done].
  rewrite drop_ge, app_nil_r by (unfold len in E; cbn; lia). rewrite bytes_u64_loop by done. done.
Qed.

(** ** Typed sessions *)

Inductive ss_op :=
  | PutString (key value : list Z) | PutU64 (key : list Z) (v : Z)
  | GetString (key : list Z) | GetU64 (key : list Z)
  | Remove (key : list Z) | Has (key : list Z) | Size.
Inductive ss_out := OBool (b : bool) | OStr (s : option (list Z)) | ONum (n : option Z).

Definition ss_step (room : Z) (o : ss_op) (st : StateStore) : M (ss_out * StateStore) :=
  match o with
  | PutString k v => let! '(b, st) := put_string room true k v st in Ok (OBool b, st)
  | PutU64 k v => let! '(b, st) := put_u64 room true k v st in Ok (OBool b, st)
  | GetString k => let! '(r, st) := get_string k st in Ok (OStr r, st)
  | GetU64 k => let! '(r, st) := get_u64 k st in Ok (ONum r, st)
  | Remove k => let! '(b, st) := ss_remove room k st in Ok (OBool b, st)
  | Has k => Ok (OBool (ss_has k st), st)
  | Size => Ok (ONum (Some (ss_size st)), st)
  end.

Fixpoint ss_run (room : Z) (os : list ss_op) (st : StateStore) : M (list ss_out * StateStore) :=
  match os with
  | [] => Ok ([], st)
  | o :: os => let! '(r, st) := ss_step room o st in let! '(rs, st) := ss_run room os st in Ok (r :: rs, st)
  end.

(** The contract: one map from keys to typed values. *)
Inductive ss_value := VStr (s : list Z) | VU64 (v : Z).
Definition value_bytes (v : ss_value) : list Z := match v with VStr s => s | VU64 n => u64_bytes n end.

Definition ss_spec_step (o : ss_op) (m : gmap (list Z) ss_value) : ss_out * gmap (list Z) ss_value :=
  match o with
  | PutString k v => (OBool true, <[k := VStr v]> m)
  | PutU64 k v => (OBool true, <[k := VU64 v]> m)
  | GetString k => (OStr (value_bytes <$> m !! k), m)
  | GetU64 k => (ONum (match m !! k with Some (VU64 n) => Some n | Some (VStr s) => as_u64 (Some s) | None => None end), m)
  | Remove k => (OBool true, delete k m)
  | Has k => (OBool (bool_decide (is_Some (m !! k))), m)
  | Size => (ONum (Some (u64 (Z.of_nat (size m)))), m)
  end.

Fixpoint ss_spec_run (os : list ss_op) (m : gmap (list Z) ss_value) : list ss_out * gmap (list Z) ss_value :=
  match os with
  | [] => ([], m)
  | o :: os => let '(r, m) := ss_spec_step o m in let '(rs, m) := ss_spec_run os m in (r :: rs, m)
  end.

Definition ss_op_ok (o : ss_op) : Prop :=
  match o with
  | PutString k v => kv_ok k v
  | PutU64 k v => kv_ok k [] /\ is_u64 v
  | Remove k => kv_ok k []
  | _ => True
  end.
Definition ss_op_bytes (o : ss_op) : list Z :=
  match o with
  | PutString k v => record_bytes k v 0
  | PutU64 k v => record_bytes k (u64_bytes v) 0
  | Remove k => record_bytes k [] SL_KV_FLAG_TOMB
  | _ => []
  end.

(** The numbers in the map are 64-bit. *)
Definition typed_ok (m : gmap (list Z) ss_value) : Prop := map_Forall (fun _ v => match v with VU64 n => is_u64 n | _ => True end) m.

Lemma ss_step_refines room o st m :
  ss_repr st (value_bytes <$> m) -> typed_ok m -> ss_op_ok o -> len (ss_file st) + len (ss_op_bytes o) <= room ->
  exists st', ss_step room o st = Ok ((ss_spec_step o m).1, st') /\
    ss_repr st' (value_bytes <$> (ss_spec_step o m).2) /\ typed_ok (ss_spec_step o m).2 /\
    ss_file st' = ss_file st ++ ss_op_bytes o.
Proof.
  intros Hr Ht Ho Hroom. destruct o as [k v|k v|k|k|k|k|]; cbn [ss_step ss_spec_step ss_op_bytes fst snd ss_op_ok] in *.
  - destruct (put_raw_repr room k v st _ Hr Ho Hroom) as (st' & E & Hr' & Hf). unfold put_string. rewrite E.
    exists st'. rewrite fmap_insert. split_and!; [done|done| |done]. by apply map_Forall_insert_2.
  - destruct Ho as [(Hk & _ & Hl & _) Hv]. destruct (u64_bytes_ok v) as [Hb Hl8].
    destruct (put_raw_repr room k (u64_bytes v) st _ Hr) as (st' & E & Hr' & Hf); [split_and!; [done|done|done|lia]|done|].
    assert (E' : put_u64 room true k v st = put_raw room true k (u64_bytes v) st).
    { unfold put_u64. rewrite u64_bytes_loop. destruct Hr as (kv & -> & _). done. }
    rewrite E', E. exists st'. rewrite fmap_insert. split_and!; [done|done| |done]. by apply map_Forall_insert_2.
  - destruct (get_string_repr k st _ Hr) as (st' & -> & Hr' & Hf). exists st'. rewrite lookup_fmap, app_nil_r. by split_and!.
  - destruct (get_u64_repr k st _ Hr) as (st' & -> & Hr' & Hf). exists st'. rewrite lookup_fmap, app_nil_r.
    split_and!; [|done..]. do 2 f_equal. destruct (m !! k) as [[s|n]|] eqn:Em; [done| |done]. cbn [fmap option_fmap option_map value_bytes as_u64].
    destruct (u64_bytes_ok n) as [_ ->]. apply Ht in Em. cbn in Em. by rewrite bytes_u64_bytes.
  - destruct (ss_remove_repr room k st _ Hr Ho Hroom) as (st' & -> & Hr' & Hf). exists st'. rewrite fmap_delete.
    split_and!; [done|done| |done]. by apply map_Forall_delete.
  - exists st. rewrite app_nil_r. split_and!; [|done..]. unfold ss_has. destruct Hr as (kv & -> & Hr & _).
    rewrite (has_repr kv _ k (repr_index _ _ Hr)), lookup_fmap. do 3 f_equal. apply bool_decide_ext. by rewrite fmap_is_Some.
  - exists st. rewrite app_nil_r. split_and!; [|done..]. unfold ss_size. destruct Hr as (kv & -> & Hr & _).
    rewrite (size_repr kv _ (repr_index _ _ Hr)). by rewrite map_size_fmap.
Qed.

Lemma ss_run_refines room os : forall st m,
  ss_repr st (value_bytes <$> m) -> typed_ok m -> Forall ss_op_ok os ->
  len (ss_file st) + len (concat (ss_op_bytes <$> os)) <= room ->
  exists st', ss_run room os st = Ok ((ss_spec_run os m).1, st').
Proof.
  induction os as [|o os IH]; intros st m Hr Ht Hos Hroom; [by exists st|].
  apply Forall_cons in Hos as [Ho Hos]. cbn [fmap list_fmap concat] in Hroom. rewrite len_app in Hroom.
  pose proof (len_nonneg (concat (ss_op_bytes <$> os))). cbn [ss_run ss_spec_run].
  destruct (ss_step_refines room o st m Hr Ht Ho ltac:(lia)) as (st1 & -> & Hr1 & Ht1 & Hf1).
  destruct (ss_spec_step o m) as [r m1]. cbn [fst snd] in *.
  destruct (IH st1 m1 Hr1 Ht1 Hos) as (st2 & ->); [rewrite Hf1, len_app; lia|].
  destruct (ss_spec_run os m1) as [rs m2]. by exists st2.
Qed.

(** C24: the typed store is a map from keys to strings and 64-bit numbers.  On a new file, with
    room on the disk for its records, any sequence of typed puts, gets, removals and queries answers as that map would: numbers come
    back as they were put, strings of any length come back whole (also those that do not fit the
    first buffer of 4096 bytes), through the records on disk and without a fault. *)
Theorem state_store_refines_map room s os :
  statics_ok s -> Forall ss_op_ok os -> len (concat (ss_op_bytes <$> os)) <= room ->
  exists st st', open_store 1 true (Some []) s = Ok st /\
    ss_run room os st = Ok ((ss_spec_run os ∅).1, st').
Proof.
  intros Hs Hos Hroom. unfold open_store. rewrite open_empty.
  set (st := mk_state_store _ _). exists st.
  destruct (ss_run_refines room os st ∅) as (st' & E).
  - rewrite fmap_empty. eexists. split_and!; [reflexivity|apply empty_repr|done].
  - done.
  - done.
  - exact Hroom.
  - by exists st'.
Qed.

Definition demo_ss_ops : list ss_op :=
  [PutU64 [97] 0x0102030405060708; PutString [98] (repeat 7 20); GetU64 [97]; GetString [97]; GetString [98];
   GetU64 [98]; Remove [97]; Has [97]; Size].

Lemma state_store_refines_map_witness :
  exists st st', open_store 1 true (Some []) crc_start = Ok st /\
    ss_run 1000 demo_ss_ops st =
      Ok ([OBool true; OBool true; ONum (Some 0x0102030405060708); OStr (Some [1; 2; 3; 4; 5; 6; 7; 8]);
           OStr (Some (repeat 7 20)); ONum None; OBool true; OBool false; ONum (Some 1)], st').
Proof.
  apply (state_store_refines_map 1000 crc_start demo_ss_ops).
  - apply crc_start_ok.
  - repeat constructor; cbn; lia.
  - vm_compute. congruence.
Defined.

(** ** Views *)

(** Views with prefixes that contain no colon never share a key. *)
Lemma views_disjoint p1 p2 k1 k2 :
  58 ∉ p1 -> 58 ∉ p2 -> make p1 k1 = make p2 k2 -> p1 = p2 /\ k1 = k2.
Proof.
  unfold make. cbn [app]. revert p2. induction p1 as [|a p1 IH]; intros [|b p2] H1 H2 E; cbn [app] in E.
  - by injection E.
  - injection E as <- _. set_solver.
  - injection E as -> _. set_solver.
  - injection E as -> E. destruct (IH p2) as [-> ->]; [set_solver..|done|done].
Qed.

(** With a colon in a prefix they can. *)
Lemma views_collide : make [97] [98; 58; 99] = make [97; 58; 98] [99].
Proof. done. Qed.
