(* ===== verification/Sanitize.v ===== *)
(** Checks on untrusted input ([src/sl_input_sanitize.c]): sizes, printable text, UTF-8,
    metacharacters.  The UTF-8 validator is compared with the definition of the encoding. *)

From Stdlib Require Import ZifyBool.
From S2P Require Import Prelude Codec.
Local Open Scope Z_scope.

(* src/src/sl_input_sanitize.c:6-9 *)
Definition sl_in_range_size (n min max : Z) : bool :=
  if max <? min then false else (min <=? n) && (n <=? max).

(** [buf] is [None] for NULL. *)
(* src/src/sl_input_sanitize.c:11-18 *)
Definition sl_is_printable_ascii (buf : option (list Z)) (n : Z) : M bool :=
  if null_with_len buf n then Ok false
  else
    let! r := for_ret (Z.to_nat n) 0 (fun i (_ : unit) =>
      let! c := load (default [] buf) i in
      Ok (if (c <? 0x20) || (0x7E <? c) then inr false else inl tt)) tt in
    match r with inr b => Ok b | inl _ => Ok true end.

(** The lead byte: the bits it contributes and the number of bytes that follow. *)
(* src/src/sl_input_sanitize.c:27-32 sl_is_valid_utf8 *)
Definition utf8_lead (b0 : Z) : option (Z * Z) :=
  if Z.land b0 0xE0 =? 0xC0 then Some (Z.land b0 0x1F, 1)
  else if Z.land b0 0xF0 =? 0xE0 then Some (Z.land b0 0x0F, 2)
  else if Z.land b0 0xF8 =? 0xF0 then Some (Z.land b0 0x07, 3)
  else None.

(* src/src/sl_input_sanitize.c:41-48 sl_is_valid_utf8 *)
Definition cp_allowed (extra cp : Z) : bool :=
  negb ((extra =? 1) && (cp <? 0x80)) && negb ((extra =? 2) && (cp <? 0x800)) &&
  negb ((extra =? 3) && (cp <? 0x10000)) && negb ((0xD800 <=? cp) && (cp <=? 0xDFFF)) &&
  negb (0x10FFFF <? cp).

(* src/src/sl_input_sanitize.c:23-51 sl_is_valid_utf8 *)
Fixpoint utf8_loop (fuel : nat) (buf : list Z) (n i : Z) : M bool :=
  match fuel with
  | O => Fault
  | S fuel =>
      if negb (i <? n) then Ok true
      else
        let! b0 := load buf i in
        if b0 <? 0x80 then utf8_loop fuel buf n (u64 (i + 1))
        else
          match utf8_lead b0 with
          | None => Ok false
          | Some (cp, extra) =>
              if n <=? u64 (i + extra) then Ok false
              else
                let! r := for_ret (Z.to_nat extra) 1 (fun k cp =>
                  let! bk := load buf (i + k) in
                  Ok (if negb (Z.land bk 0xC0 =? 0x80) then inr false
                      else inl (Z.lor (u32 (cp ≪ 6)) (Z.land bk 0x3F)))) cp in
                match r with
                | inr b => Ok b
                | inl cp => if cp_allowed extra cp then utf8_loop fuel buf n (u64 (i + 1 + extra)) else Ok false
                end
          end
  end.

(** Every round takes a byte, so one round more than there are bytes is enough. *)
(* src/src/sl_input_sanitize.c:20-53 *)
Definition sl_is_valid_utf8 (buf : option (list Z)) (n : Z) : M bool :=
  if null_with_len buf n then Ok false else utf8_loop (S (Z.to_nat n)) (default [] buf) n 0.

Definition is_metachar (c : Z) : bool :=
  existsb (Z.eqb c) [0; 10; 13; 9; 39; 34; 96; 92; 59; 124; 38; 36; 60; 62; 40; 41].

(* src/src/sl_input_sanitize.c:55-68 *)
Definition sl_has_metachars (buf : option (list Z)) (n : Z) : M bool :=
  match buf with
  | None => Ok false
  | Some buf =>
      let! r := for_ret (Z.to_nat n) 0 (fun i (_ : unit) =>
        let! c := load buf i in Ok (if is_metachar c then inr true else inl tt)) tt in
      match r with inr b => Ok b | inl _ => Ok false end
  end.

(** [None] when the sum or product does not fit. *)
(* src/src/sl_input_sanitize.c:70-74 *)
Definition sl_size_add_safe (a b : Z) : option Z := if UINT64_MAX - a <? b then None else Some (u64 (a + b)).
(* src/src/sl_input_sanitize.c:76-80 *)
Definition sl_size_mul_safe (a b : Z) : option Z :=
  if negb (a =? 0) && (UINT64_MAX / a <? b) then None else Some (u64 (a * b)).

(** ** Sizes *)

Lemma size_add_safe_exact a b :
  is_u64 a -> is_u64 b -> sl_size_add_safe a b = if a + b <? 2 ^ 64 then Some (a + b) else None.
Proof.
  intros Ha Hb. unfold sl_size_add_safe. destruct (Z.ltb_spec (UINT64_MAX - a) b), (Z.ltb_spec (a + b) (2 ^ 64)); try lia; try done.
  by rewrite u64_small by lia.
Qed.

Lemma size_mul_safe_exact a b :
  is_u64 a -> is_u64 b -> sl_size_mul_safe a b = if a * b <? 2 ^ 64 then Some (a * b) else None.
Proof.
  intros Ha Hb. unfold sl_size_mul_safe. destruct (Z.eqb_spec a 0) as [->|Hne]; [done|]. cbn [negb andb].
  destruct (Z.ltb_spec (UINT64_MAX / a) b) as [H|H], (Z.ltb_spec (a * b) (2 ^ 64)) as [H2|H2]; [|done| |].
  - exfalso. assert (b <= UINT64_MAX / a); [apply Z.div_le_lower_bound; lia|lia].
  - by rewrite u64_small by nia.
  - exfalso. assert (a * b <= a * (UINT64_MAX / a)) by (apply Z.mul_le_mono_nonneg_l; lia).
    pose proof (Z.mul_div_le UINT64_MAX a ltac:(lia)). lia.
Qed.

(** ** The UTF-8 encoding *)

Definition scalar (cp : Z) : Prop := 0 <= cp < 0xD800 \/ 0xE000 <= cp <= 0x10FFFF.

Definition utf8_encode (cp : Z) : list Z :=
  if cp <? 0x80 then [cp]
  else if cp <? 0x800 then [192 + cp / 64; 128 + cp mod 64]
  else if cp <? 0x10000 then [224 + cp / 4096; 128 + cp / 64 mod 64; 128 + cp mod 64]
  else [240 + cp / 262144; 128 + cp / 4096 mod 64; 128 + cp / 64 mod 64; 128 + cp mod 64].

(** The masks as ranges. *)
Lemma utf8_lead_range b :
  is_u8 b ->
  utf8_lead b = if (192 <=? b) && (b <? 224) then Some (b - 192, 1)
                else if (224 <=? b) && (b <? 240) then Some (b - 224, 2)
                else if (240 <=? b) && (b <? 248) then Some (b - 240, 3) else None.
Proof.
  intros Hb. apply (byte_cases (fun b => bool_decide (utf8_lead b =
    if (192 <=? b) && (b <? 224) then Some (b - 192, 1)
    else if (224 <=? b) && (b <? 240) then Some (b - 224, 2)
    else if (240 <=? b) && (b <? 248) then Some (b - 240, 3) else None))) in Hb; [|by vm_compute].
  by apply bool_decide_eq_true_1 in Hb.
Qed.

Definition cont (b : Z) : bool := (128 <=? b) && (b <? 192).
Lemma cont_range b : is_u8 b -> (Z.land b 0xC0 =? 0x80) = cont b /\ (cont b = true -> Z.land b 0x3F = b - 128).
Proof.
  intros Hb. apply (byte_cases (fun b => bool_decide ((Z.land b 0xC0 =? 0x80) = cont b) &&
    implb (cont b) (Z.land b 0x3F =? b - 128))) in Hb; [|by vm_compute].
  apply andb_prop in Hb as [H1%bool_decide_eq_true_1 H2]. split; [done|]. intros E. rewrite E in H2.
  by apply Z.eqb_eq.
Qed.

(** The continuation bytes as a fold. *)
Definition cont_step (b cp : Z) : Z + bool :=
  if negb (Z.land b 0xC0 =? 0x80) then inr false else inl (Z.lor (u32 (cp ≪ 6)) (Z.land b 0x3F)).

Lemma cont_step_range b cp :
  is_u8 b -> 0 <= cp < 2 ^ 26 -> cont_step b cp = if cont b then inl (cp * 64 + (b - 128)) else inr false.
Proof.
  intros Hb Hcp. destruct (cont_range b Hb) as [E1 E2]. unfold cont_step. rewrite E1.
  destruct (cont b) eqn:Ec; [|done]. cbn [negb]. rewrite E2 by done.
  unfold cont in Ec. apply andb_prop in Ec as [?%Z.leb_le ?%Z.ltb_lt].
  rewrite u32_small by (rewrite Z.shiftl_mul_pow2 by lia; change (2 ^ 6) with 64; lia).
  rewrite lor_shiftl_add by (simpl; lia). done.
Qed.

(** One character: the code point and what follows it. *)
Definition utf8_next (l : list Z) : option (Z * list Z) :=
  match l with
  | [] => None
  | b0 :: l =>
      if b0 <? 0x80 then Some (b0, l)
      else match utf8_lead b0 with
      | None => None
      | Some (cp, extra) =>
          if len l <? extra then None
          else match list_ret cont_step (take (Z.to_nat extra) l) cp with
          | inr _ => None
          | inl cp => if cp_allowed extra cp then Some (cp, drop (Z.to_nat extra) l) else None
          end
      end
  end.

Lemma cp_allowed_spec extra cp :
  cp_allowed extra cp = true <->
  (extra = 1 -> 0x80 <= cp) /\ (extra = 2 -> 0x800 <= cp) /\ (extra = 3 -> 0x10000 <= cp) /\
  ~ (0xD800 <= cp <= 0xDFFF) /\ cp <= 0x10FFFF.
Proof. unfold cp_allowed. lia. Qed.

Lemma utf8_encode_1 cp : cp < 0x80 -> utf8_encode cp = [cp].
Proof. intros. unfold utf8_encode. by rewrite (proj2 (Z.ltb_lt _ _)) by lia. Qed.
Lemma utf8_encode_2 cp : 0x80 <= cp < 0x800 -> utf8_encode cp = [192 + cp / 64; 128 + cp mod 64].
Proof.
  intros. unfold utf8_encode. rewrite (proj2 (Z.ltb_ge _ 0x80)) by lia. by rewrite (proj2 (Z.ltb_lt _ _)) by lia.
Qed.
Lemma utf8_encode_3 cp :
  0x800 <= cp < 0x10000 -> utf8_encode cp = [224 + cp / 4096; 128 + cp / 64 mod 64; 128 + cp mod 64].
Proof.
  intros. unfold utf8_encode. rewrite (proj2 (Z.ltb_ge _ 0x80)), (proj2 (Z.ltb_ge _ 0x800)) by lia.
  by rewrite (proj2 (Z.ltb_lt _ _)) by lia.
Qed.
Lemma utf8_encode_4 cp :
  0x10000 <= cp ->
  utf8_encode cp = [240 + cp / 262144; 128 + cp / 4096 mod 64; 128 + cp / 64 mod 64; 128 + cp mod 64].
Proof.
  intros. unfold utf8_encode.
  by rewrite (proj2 (Z.ltb_ge _ 0x80)), (proj2 (Z.ltb_ge _ 0x800)), (proj2 (Z.ltb_ge _ 0x10000)) by lia.
Qed.

(** The continuation bytes of one character, as arithmetic. *)
Lemma conts_1 b1 cp :
  is_u8 b1 -> 0 <= cp < 32 ->
  list_ret cont_step [b1] cp = if cont b1 then inl (cp * 64 + (b1 - 128)) else inr false.
Proof. intros. cbn [list_ret]. rewrite cont_step_range by lia. by destruct (cont b1). Qed.
Lemma conts_2 b1 b2 cp :
  is_u8 b1 -> is_u8 b2 -> 0 <= cp < 16 ->
  list_ret cont_step [b1; b2] cp =
  if cont b1 && cont b2 then inl (cp * 4096 + (b1 - 128) * 64 + (b2 - 128)) else inr false.
Proof.
  intros. cbn [list_ret]. rewrite cont_step_range by lia. destruct (cont b1) eqn:E; [|done].
  unfold cont in E. rewrite cont_step_range by lia. cbn [andb]. destruct (cont b2); [|done]. f_equal. lia.
Qed.
Lemma conts_3 b1 b2 b3 cp :
  is_u8 b1 -> is_u8 b2 -> is_u8 b3 -> 0 <= cp < 8 ->
  list_ret cont_step [b1; b2; b3] cp =
  if cont b1 && cont b2 && cont b3 then inl (cp * 262144 + (b1 - 128) * 4096 + (b2 - 128) * 64 + (b3 - 128)) else inr false.
Proof.
  intros. cbn [list_ret]. rewrite cont_step_range by lia. destruct (cont b1) eqn:E; [|done].
  unfold cont in E. rewrite cont_step_range by lia. cbn [andb]. destruct (cont b2) eqn:E2; [|done].
  unfold cont in E2. rewrite cont_step_range by lia. destruct (cont b3); [|done]. f_equal. lia.
Qed.

Lemma split_at_len (l : list Z) n : n <= len l -> 0 <= n -> exists a b, l = a ++ b /\ len a = n.
Proof.
  intros. exists (take (Z.to_nat n) l), (drop (Z.to_nat n) l). split; [by rewrite take_drop|]. apply len_take; lia.
Qed.

Ltac list_arith := cbn [app]; repeat match goal with |- ?a :: ?l = ?b :: ?k =>
  replace b with a by (Z.div_mod_to_equations; lia); apply (f_equal (cons a)) end; try done.

Lemma utf8_next_sound l cp rest :
  bytes_ok l -> utf8_next l = Some (cp, rest) -> scalar cp /\ l = utf8_encode cp ++ rest.
Proof.
  destruct l as [|b0 l]; [done|]. intros [H0 Hl]%Forall_cons. cbn [utf8_next].
  destruct (Z.ltb_spec b0 0x80).
  { intros [= -> ->]. split; [left; lia|]. by rewrite utf8_encode_1 by lia. }
  rewrite utf8_lead_range by done.
  destruct ((192 <=? b0) && (b0 <? 224)) eqn:E1; [|destruct ((224 <=? b0) && (b0 <? 240)) eqn:E2;
    [|destruct ((240 <=? b0) && (b0 <? 248)) eqn:E3; [|done]]].
  - destruct (Z.ltb_spec (len l) 1); [done|]. destruct l as [|b1 l]; [done|]. apply Forall_cons in Hl as [G1 Hl].
    change (take (Z.to_nat 1) (b1 :: l)) with [b1]. change (drop (Z.to_nat 1) (b1 :: l)) with l.
    rewrite conts_1 by lia. destruct (cont b1) eqn:C1; [|done]. destruct (cp_allowed _ _) eqn:Ea; [|done].
    intros [= <- <-]. apply cp_allowed_spec in Ea. unfold cont in *. split; [unfold scalar; lia|].
    rewrite utf8_encode_2 by lia. list_arith.
  - destruct (Z.ltb_spec (len l) 2); [done|]. destruct l as [|b1 [|b2 l]]; [done|exfalso; len_lia|].
    apply Forall_cons in Hl as [G1 [G2 Hl]%Forall_cons].
    change (take (Z.to_nat 2) (b1 :: b2 :: l)) with [b1; b2]. change (drop (Z.to_nat 2) (b1 :: b2 :: l)) with l.
    rewrite conts_2 by lia. destruct (cont b1 && cont b2) eqn:C1; [|done]. destruct (cp_allowed _ _) eqn:Ea; [|done].
    intros [= <- <-]. apply cp_allowed_spec in Ea. unfold cont in *. split; [unfold scalar; lia|].
    rewrite utf8_encode_3 by lia. list_arith.
  - destruct (Z.ltb_spec (len l) 3); [done|]. destruct l as [|b1 [|b2 [|b3 l]]]; [done|exfalso; len_lia..|].
    apply Forall_cons in Hl as [G1 [G2 [G3 Hl]%Forall_cons]%Forall_cons].
    change (take (Z.to_nat 3) (b1 :: b2 :: b3 :: l)) with [b1; b2; b3]. change (drop (Z.to_nat 3) (b1 :: b2 :: b3 :: l)) with l.
    rewrite conts_3 by lia. destruct (cont b1 && cont b2 && cont b3) eqn:C1; [|done]. destruct (cp_allowed _ _) eqn:Ea; [|done].
    intros [= <- <-]. apply cp_allowed_spec in Ea. unfold cont in *. split; [unfold scalar; lia|].
    rewrite utf8_encode_4 by lia. list_arith.
Qed.

Ltac range_test := repeat match goal with
  | |- context [if ?b then _ else _] => first [replace b with true by lia | replace b with false by lia]; cbv iota
  end.

Lemma utf8_next_complete cp rest : scalar cp -> utf8_next (utf8_encode cp ++ rest) = Some (cp, rest).
Proof.
  unfold scalar. intros Hs. destruct (decide (cp < 0x80)) as [C1|C1].
  { rewrite utf8_encode_1 by lia. cbn [app utf8_next]. by rewrite (proj2 (Z.ltb_lt _ _)) by lia. }
  pose proof (Z.mod_pos_bound cp 64 ltac:(lia)). pose proof (Z.mod_pos_bound (cp / 64) 64 ltac:(lia)).
  pose proof (Z.mod_pos_bound (cp / 4096) 64 ltac:(lia)). pose proof (len_nonneg rest).
  destruct (decide (cp < 0x800)) as [C2|C2]; [|destruct (decide (cp < 0x10000)) as [C3|C3]].
  - assert (2 <= cp / 64 < 32) by (Z.div_mod_to_equations; lia).
    rewrite utf8_encode_2 by lia. cbn [app utf8_next]. rewrite utf8_lead_range by lia. range_test.
    rewrite !len_cons. range_test.
    match goal with |- context [take (Z.to_nat 1) (?a :: rest)] =>
      change (take (Z.to_nat 1) (a :: rest)) with [a]; change (drop (Z.to_nat 1) (a :: rest)) with rest end.
    rewrite conts_1 by lia. unfold cont. range_test.
    replace ((192 + cp / 64 - 192) * 64 + (128 + cp mod 64 - 128)) with cp by (Z.div_mod_to_equations; lia).
    by rewrite (proj2 (cp_allowed_spec _ _)) by lia.
  - assert (0 <= cp / 4096 < 16) by (Z.div_mod_to_equations; lia).
    rewrite utf8_encode_3 by lia. cbn [app utf8_next]. rewrite utf8_lead_range by lia. range_test.
    rewrite !len_cons. range_test.
    match goal with |- context [take (Z.to_nat 2) (?a :: ?b :: rest)] =>
      change (take (Z.to_nat 2) (a :: b :: rest)) with [a; b]; change (drop (Z.to_nat 2) (a :: b :: rest)) with rest end.
    rewrite conts_2 by lia. unfold cont. range_test.
    match goal with |- context [cp_allowed 2 ?x] => replace x with cp by (Z.div_mod_to_equations; lia) end.
    by rewrite (proj2 (cp_allowed_spec _ _)) by lia.
  - assert (0 <= cp / 262144 < 8) by (Z.div_mod_to_equations; lia).
    rewrite utf8_encode_4 by lia. cbn [app utf8_next]. rewrite utf8_lead_range by lia. range_test.
    rewrite !len_cons. range_test.
    match goal with |- context [take (Z.to_nat 3) (?a :: ?b :: ?c :: rest)] =>
      change (take (Z.to_nat 3) (a :: b :: c :: rest)) with [a; b; c]; change (drop (Z.to_nat 3) (a :: b :: c :: rest)) with rest end.
    rewrite conts_3 by lia. unfold cont. range_test.
    match goal with |- context [cp_allowed 3 ?x] => replace x with cp by (Z.div_mod_to_equations; lia) end.
    by rewrite (proj2 (cp_allowed_spec _ _)) by lia.
Qed.

(** The loop takes one character after the other. *)
Fixpoint utf8_all (fuel : nat) (l : list Z) : bool :=
  match fuel, l with
  | _, [] => true
  | O, _ => false
  | S fuel, _ => match utf8_next l with Some (_, rest) => utf8_all fuel rest | None => false end
  end.

Lemma utf8_loop_spec fuel : forall pre l,
  (length l < fuel)%nat -> len (pre ++ l) < 2 ^ 63 ->
  utf8_loop fuel (pre ++ l) (len (pre ++ l)) (len pre) = Ok (utf8_all fuel l).
Proof.
  induction fuel as [|fuel IH]; intros pre l Hf Hn; [lia|]. cbn [utf8_loop utf8_all].
  pose proof (len_nonneg pre). destruct l as [|b0 l].
  { rewrite app_nil_r, Z.ltb_irrefl. done. }
  rewrite len_app, len_cons in *. pose proof (len_nonneg l). rewrite (proj2 (Z.ltb_lt _ _)) by lia. cbn [negb].
  rewrite load_app_mid. cbn [utf8_next length] in *. destruct (b0 <? 0x80).
  { rewrite u64_small by lia. specialize (IH (pre ++ [b0]) l). rewrite <- app_assoc in IH. cbn [app] in IH.
    rewrite (len_app pre [b0]), len_app, len_cons in IH. apply IH; lia. }
  destruct (utf8_lead b0) as [[cp extra]|] eqn:El; [|done].
  assert (He : 1 <= extra <= 3) by (revert El; unfold utf8_lead; repeat case_match; intros; simplify_eq; lia).
  rewrite u64_small by lia. destruct (Z.ltb_spec (len l) extra) as [Hs|Hs].
  { by rewrite (proj2 (Z.leb_le _ _)) by lia. }
  rewrite (proj2 (Z.leb_gt _ _)) by lia. destruct (split_at_len l extra) as (cs & tl & -> & Hcs); [lia..|].
  rewrite <- Hcs, len_to_nat, take_app_length, drop_app_length.
  rewrite (for_ret_list_at cont_step _ (len pre) cs (pre ++ [b0]) tl); [|rewrite len_app; done|].
  2: { intros i s. by rewrite <- app_assoc. }
  destruct (list_ret cont_step cs cp) as [cp'|b] eqn:Er.
  2: { destruct b; [|done]. exfalso. clear -Er. revert cp Er. induction cs as [|c cs IHc]; intros cp; cbn [list_ret]; [done|].
       unfold cont_step at 1. destruct (negb _); [done|]. apply IHc. }
  destruct (cp_allowed (len cs) cp'); [|done]. rewrite len_app in *. rewrite u64_small by lia.
  specialize (IH (pre ++ b0 :: cs) tl). rewrite <- app_assoc in IH. cbn [app] in IH.
  rewrite !len_app, !len_cons, len_app in IH. replace (len pre + 1 + len cs) with (len pre + (1 + len cs)) by lia.
  apply IH; [rewrite length_app in Hf; lia|lia].
Qed.

Lemma utf8_all_exact fuel : forall l,
  (length l < fuel)%nat -> bytes_ok l ->
  utf8_all fuel l = true <-> exists cps, Forall scalar cps /\ l = concat (map utf8_encode cps).
Proof.
  induction fuel as [|fuel IH]; intros l Hf Hl; [lia|]. cbn [utf8_all]. destruct l as [|b0 l].
  { split; [|done]. intros _. by exists []. }
  destruct (utf8_next (b0 :: l)) as [[cp rest]|] eqn:En.
  - destruct (utf8_next_sound _ _ _ Hl En) as [Hs El].
    assert (Hlen : (0 < length (utf8_encode cp))%nat) by (unfold utf8_encode; repeat case_match; cbn; lia).
    rewrite El in Hf, Hl. rewrite length_app in Hf. apply bytes_ok_app_inv in Hl as [_ Hl].
    rewrite IH by (done || lia). rewrite El. split.
    + intros (cps & Hc & ->). exists (cp :: cps). by split; [constructor|].
    + intros (cps & Hc & E). destruct cps as [|c cps]; [destruct (utf8_encode cp); [cbn in Hlen; lia|done]|].
      apply Forall_cons in Hc as [Hc Hcs]. cbn [map concat] in E.
      assert (Ec : Some (cp, rest) = Some (c, concat (map utf8_encode cps)))
        by (rewrite <- (utf8_next_complete cp) by done; by rewrite E, utf8_next_complete).
      injection Ec as -> ->. by exists cps.
  - split; [done|]. intros ([|c cps] & Hc & E); [done|]. apply Forall_cons in Hc as [Hc _]. cbn [map concat] in E.
    by rewrite E, utf8_next_complete in En.
Qed.

(** C39: the UTF-8 validator accepts exactly the UTF-8 encodings of sequences of Unicode scalar
    values (no overlong form, no surrogate, nothing above U+10FFFF), and stays inside the buffer
    on every input. *)
Theorem utf8_validator_exact buf :
  bytes_ok buf -> len buf < 2 ^ 63 ->
  exists b, sl_is_valid_utf8 (Some buf) (len buf) = Ok b /\
    (b = true <-> exists cps, Forall scalar cps /\ buf = concat (map utf8_encode cps)).
Proof.
  intros Hb Hl. exists (utf8_all (S (length buf)) buf). unfold sl_is_valid_utf8, null_with_len.
  rewrite bool_decide_eq_false_2 by done. rewrite andb_false_r. cbn [from_option id]. rewrite len_to_nat. split.
  - by apply (utf8_loop_spec (S (length buf)) [] buf); [lia|].
  - apply utf8_all_exact; [lia|done].
Qed.

Lemma utf8_validator_exact_witness :
  exists b, sl_is_valid_utf8 (Some [226; 130; 172; 36]) 4 = Ok b /\
    (b = true <-> exists cps, Forall scalar cps /\ [226; 130; 172; 36] = concat (map utf8_encode cps)).
Proof. apply (utf8_validator_exact [226; 130; 172; 36]); [by_deciding|vm_compute; reflexivity]. Defined.

(** ** The scans *)

Lemma scan_none (p : Z -> bool) l : forall pre,
  for_ret (length l) (len pre) (fun i (_ : unit) => let! c := load (pre ++ l) i in Ok (if p c then inr true else inl tt)) tt =
  Ok (if existsb p l then inr true else inl tt).
Proof.
  intros pre. rewrite (for_ret_list (fun c (_ : unit) => if p c then inr true else inl tt) _ l pre [])
    by (intros; by rewrite app_nil_r). f_equal.
  induction l as [|c l IH]; [done|]. cbn [list_ret existsb]. destruct (p c); [done|apply IH; exact pre].
Qed.

Lemma has_metachars_exact buf : sl_has_metachars (Some buf) (len buf) = Ok (existsb is_metachar buf).
Proof.
  unfold sl_has_metachars. rewrite len_to_nat.
  pose proof (scan_none is_metachar buf []) as E. cbn [app] in E. change (len (@nil Z)) with 0 in E. rewrite E.
  by destruct (existsb is_metachar buf).
Qed.

Lemma printable_exact buf :
  sl_is_printable_ascii (Some buf) (len buf) = Ok (forallb (fun c => (0x20 <=? c) && (c <=? 0x7E)) buf).
Proof.
  unfold sl_is_printable_ascii, null_with_len. rewrite bool_decide_eq_false_2 by done.
  rewrite andb_false_r, len_to_nat. cbn [from_option id].
  rewrite (for_ret_list (fun c (_ : unit) => if (c <? 0x20) || (0x7E <? c) then inr false else inl tt) _ buf [] [])
    by (intros; by rewrite app_nil_r).
  induction buf as [|c l IH]; [done|]. cbn [list_ret forallb].
  destruct ((c <? 0x20) || (0x7E <? c)) eqn:E.
  - by replace ((0x20 <=? c) && (c <=? 0x7E)) with false by lia.
  - replace ((0x20 <=? c) && (c <=? 0x7E)) with true by lia. exact IH.
Qed.

(** Text without metacharacters is not thereby printable: the bytes above 0x7E and most control
    characters pass. *)
Lemma metachars_not_printable : sl_has_metachars (Some [27; 200]) 2 = Ok false /\ sl_is_printable_ascii (Some [27; 200]) 2 = Ok false.
Proof. by vm_compute. Qed.
