(* ===== verification/Redact.v ===== *)
(** Redaction of log lines ([src/sl_log_redact.c]).  The input is a C string; a scan of it is a
    recursion on what is left.  The output is the text written so far, against the capacity of
    the caller's buffer; [None] is the -1 return. *)

From Stdlib Require Import String ZifyBool.
From S2P Require Import Prelude Ctype KeySched.
Local Open Scope Z_scope.

(* src/src/sl_log_redact.c:7-11 *)
Definition is_hex (c : Z) : bool :=
  ((48 <=? c) && (c <=? 57)) || ((97 <=? c) && (c <=? 102)) || ((65 <=? c) && (c <=? 70)).

(* src/src/sl_log_redact.c:21-25 *)
Definition append_ch (cap : Z) (out : cstring) (c : Z) : option cstring :=
  if cap <=? len out + 1 then None else Some (out ++ [c]).

(* src/src/sl_log_redact.c:13-19 *)
Fixpoint append (cap : Z) (out s : cstring) : option cstring :=
  match s with
  | [] => Some out
  | c :: s => match append_ch cap out c with None => None | Some out => append cap out s end
  end.

(** The longest prefix whose characters satisfy [p], and the rest. *)
Fixpoint span (p : Z -> bool) (s : cstring) : cstring * cstring :=
  match s with
  | [] => ([], [])
  | c :: s' => if p c then let '(a, b) := span p s' in (c :: a, b) else ([], s)
  end.

(** The end of every scan: room for the terminator. *)
Definition finish (cap : Z) (out : cstring) : option cstring := if cap <=? len out then None else Some out.

(** The text that stands for a run of [n] digits; [num] has room for 15 characters. *)
Definition hex_mask (n : Z) : cstring := lit "<REDACTED-HEX-" ++ snprintf 16 (dec 20 n ++ [62]).

(* src/src/sl_log_redact.c:31-50 sl_log_redact_hex *)
Fixpoint redact_hex_loop (fuel : nat) (cap : Z) (s out : cstring) : M (option cstring) :=
  match s, fuel with
  | [], _ => Ok (finish cap out)
  | _, O => Fault
  | _, S fuel =>
      let '(run, rest) := span is_hex s in
      if 32 <=? len run then
        match append cap out (lit "<REDACTED-HEX-") with
        | None => Ok None
        | Some out =>
            match append cap out (snprintf 16 (dec 20 (len run) ++ [62])) with
            | None => Ok None
            | Some out => redact_hex_loop fuel cap rest out
            end
        end
      else
        match append cap out run with
        | None => Ok None
        | Some out =>
            match rest with
            | [] => redact_hex_loop fuel cap [] out
            | c :: rest =>
                match append_ch cap out c with
                | None => Ok None
                | Some out => redact_hex_loop fuel cap rest out
                end
            end
        end
  end.

(* src/src/sl_log_redact.c:27-54 *)
Definition sl_log_redact_hex (s : cstring) (cap : Z) : M (option cstring) :=
  if cap =? 0 then Ok None else redact_hex_loop (length s) cap s [].

Definition email_char (c : Z) : bool :=
  isalnum c || (c =? 46) || (c =? 95) || (c =? 43) || (c =? 45) || (c =? 64).

(** [at] and the tests on it: some character before the first ['@'] of the word, and one after. *)
Definition is_email (word : cstring) : bool :=
  match strchr word 64 with
  | Some (before, after) => negb (bool_decide (before = [])) && negb (bool_decide (after = []))
  | None => false
  end.

(* src/src/sl_log_redact.c:60-82 sl_log_redact_email *)
Fixpoint redact_email_loop (fuel : nat) (cap : Z) (s out : cstring) : M (option cstring) :=
  match s, fuel with
  | [], _ => Ok (finish cap out)
  | _, O => Fault
  | _, S fuel =>
      let '(word, rest) := span email_char s in
      match append cap out (if is_email word then lit "<email>" else word) with
      | None => Ok None
      | Some out =>
          match rest with
          | [] => redact_email_loop fuel cap [] out
          | c :: rest =>
              match append_ch cap out c with
              | None => Ok None
              | Some out => redact_email_loop fuel cap rest out
              end
          end
      end
  end.

(* src/src/sl_log_redact.c:56-86 *)
Definition sl_log_redact_email (s : cstring) (cap : Z) : M (option cstring) :=
  if cap =? 0 then Ok None else redact_email_loop (length s) cap s [].

(** One to three digits: what follows them. *)
(* src/src/sl_log_redact.c:98-102 sl_log_redact_ipv4 *)
Definition octet (s : cstring) : option cstring :=
  match s with
  | a :: s => if isdigit a then
      match s with
      | b :: s' => if isdigit b then
          match s' with
          | c :: s'' => if isdigit c then Some s'' else Some s'
          | [] => Some []
          end else Some s
      | [] => Some []
      end else None
  | [] => None
  end.
Definition dot (s : cstring) : option cstring := match s with 46 :: s => Some s | _ => None end.

(* src/src/sl_log_redact.c:94-108 sl_log_redact_ipv4 *)
Definition quad (s : cstring) : option cstring :=
  match octet s with None => None | Some s =>
  match dot s with None => None | Some s =>
  match octet s with None => None | Some s =>
  match dot s with None => None | Some s =>
  match octet s with None => None | Some s =>
  match dot s with None => None | Some s => octet s end end end end end end.

(* src/src/sl_log_redact.c:92-115 sl_log_redact_ipv4 *)
Fixpoint redact_ipv4_loop (fuel : nat) (cap : Z) (s out : cstring) : M (option cstring) :=
  match s, fuel with
  | [], _ => Ok (finish cap out)
  | _, O => Fault
  | c :: rest, S fuel =>
      match quad s with
      | Some after =>
          match append cap out (lit "<ip>") with
          | None => Ok None
          | Some out => redact_ipv4_loop fuel cap after out
          end
      | None =>
          match append_ch cap out c with
          | None => Ok None
          | Some out => redact_ipv4_loop fuel cap rest out
          end
      end
  end.

(* src/src/sl_log_redact.c:88-119 *)
Definition sl_log_redact_ipv4 (s : cstring) (cap : Z) : M (option cstring) :=
  if cap =? 0 then Ok None else redact_ipv4_loop (length s) cap s [].

(* src/src/sl_log_redact.c:121-126 *)
Definition sl_log_redact_all (s : cstring) (cap : Z) : M (option cstring) :=
  let! t1 := sl_log_redact_hex s 1024 in
  match t1 with
  | None => Ok None
  | Some t1 =>
      let! t2 := sl_log_redact_email t1 1024 in
      match t2 with
      | None => Ok None
      | Some t2 => sl_log_redact_ipv4 t2 cap
      end
  end.

(** ** Writing *)

Lemma append_text_spec cap s : forall out, append cap out s = if bool_decide (s = []) || (len out + len s <? cap) then Some (out ++ s) else None.
Proof.
  induction s as [|c s IH]; intros out; cbn [append]; [by rewrite app_nil_r|].
  rewrite bool_decide_eq_false_2 by done. cbn [orb]. unfold append_ch. rewrite len_cons. pose proof (len_nonneg s).
  destruct (Z.leb_spec cap (len out + 1)).
  { by rewrite (proj2 (Z.ltb_ge _ _)) by lia. }
  rewrite IH, len_app. change (len [c]) with 1. rewrite <- app_assoc. cbn [app].
  destruct s as [|d s].
  { rewrite bool_decide_eq_true_2 by done. cbn [orb]. change (len (@nil Z)) with 0. by rewrite (proj2 (Z.ltb_lt _ _)) by lia. }
  rewrite bool_decide_eq_false_2 by done. cbn [orb]. rewrite <- Z.add_assoc. done.
Qed.

Lemma append_out cap out s o : append cap out s = Some o -> o = out ++ s.
Proof. rewrite append_text_spec. destruct (_ || _); congruence. Qed.
Lemma append_ch_out cap out c o : append_ch cap out c = Some o -> o = out ++ [c].
Proof. unfold append_ch. destruct (_ <=? _); congruence. Qed.
Lemma finish_out cap out o : finish cap out = Some o -> o = out /\ len out < cap.
Proof. unfold finish. destruct (Z.leb_spec cap (len out)); [done|]. by intros [= <-]. Qed.

(** ** The three scans as functions of the text *)

Lemma span_spec p s : let '(a, b) := span p s in
  s = a ++ b /\ forallb p a = true /\ match b with c :: _ => p c = false | [] => True end.
Proof.
  induction s as [|c s IH]; cbn [span]; [done|]. destruct (p c) eqn:E; [|done].
  destruct (span p s) as [a b]. destruct IH as (-> & Ha & Hb). cbn [forallb]. by rewrite E.
Qed.

Lemma span_nil p s b : span p s = ([], b) -> b = s.
Proof. intros E. pose proof (span_spec p s) as H. rewrite E in H. by destruct H as [-> _]. Qed.

Fixpoint hex_out (fuel : nat) (s : cstring) : cstring :=
  match fuel, s with
  | S fuel, _ :: _ =>
      let '(run, rest) := span is_hex s in
      if 32 <=? len run then hex_mask (len run) ++ hex_out fuel rest
      else run ++ match rest with [] => [] | c :: rest => c :: hex_out fuel rest end
  | _, _ => []
  end.
Fixpoint email_out (fuel : nat) (s : cstring) : cstring :=
  match fuel, s with
  | S fuel, _ :: _ =>
      let '(word, rest) := span email_char s in
      (if is_email word then lit "<email>" else word) ++ match rest with [] => [] | c :: rest => c :: email_out fuel rest end
  | _, _ => []
  end.
Fixpoint ip_out (fuel : nat) (s : cstring) : cstring :=
  match fuel, s with
  | S fuel, c :: rest =>
      match quad s with Some after => lit "<ip>" ++ ip_out fuel after | None => c :: ip_out fuel rest end
  | _, _ => []
  end.

(** A scan answers with the text it stands for, if that fits the buffer with its terminator. *)
Definition writes (cap : Z) (m : M (option cstring)) (text : cstring) : Prop := m = Ok (finish cap text).

Lemma append_full cap out s more : append cap out s = None -> finish cap (out ++ s ++ more) = None.
Proof.
  rewrite append_text_spec. destruct (bool_decide_reflect (s = [])); [done|]. cbn [orb].
  destruct (Z.ltb_spec (len out + len s) cap); [done|]. intros _. unfold finish. rewrite !len_app.
  pose proof (len_nonneg more). by rewrite (proj2 (Z.leb_le _ _)) by lia.
Qed.
Lemma append_ch_full cap out c more : append_ch cap out c = None -> finish cap (out ++ c :: more) = None.
Proof.
  intros E. apply (append_full cap out [c] more). cbn [append]. by rewrite E.
Qed.

Lemma span_shorter p s a b : span p s = (a, b) -> (length s = length a + length b)%nat.
Proof. intros E. pose proof (span_spec p s) as H. rewrite E in H. destruct H as [-> _]. by rewrite length_app. Qed.

Lemma hex_loop_writes cap fuel : forall s out,
  (length s <= fuel)%nat -> writes cap (redact_hex_loop fuel cap s out) (out ++ hex_out fuel s).
Proof.
  induction fuel as [|fuel IH]; intros s out Hf; (destruct s as [|c s]; [cbn; by rewrite app_nil_r|cbn [length] in Hf]); [lia|].
  cbn [redact_hex_loop hex_out]. destruct (span is_hex (c :: s)) as [run rest] eqn:Es.
  pose proof (span_shorter _ _ _ _ Es) as Hl. cbn [length] in Hl. destruct (Z.leb_spec 32 (len run)).
  - unfold hex_mask. set (num := snprintf _ _). rewrite <- (app_assoc (lit _)).
    destruct (append cap out _) as [o1|] eqn:E1; [apply append_out in E1 as ->|by apply append_full with (more := num ++ hex_out fuel rest) in E1; red; rewrite E1].
    rewrite app_assoc.
    destruct (append cap _ num) as [o2|] eqn:E2; [apply append_out in E2 as ->|by apply append_full with (more := hex_out fuel rest) in E2; red; rewrite E2].
    rewrite app_assoc. apply IH. unfold len in *. lia.
  - destruct (append cap out run) as [o1|] eqn:E1; [apply append_out in E1 as ->|by eapply append_full in E1; red; rewrite E1].
    destruct rest as [|d rest]; [rewrite app_nil_r; by destruct fuel|].
    rewrite app_assoc. destruct (append_ch cap _ d) as [o2|] eqn:E2; [apply append_ch_out in E2 as ->|by eapply append_ch_full in E2; red; rewrite E2].
    replace ((out ++ run) ++ d :: hex_out fuel rest) with (((out ++ run) ++ [d]) ++ hex_out fuel rest) by (by rewrite <- !app_assoc).
    apply IH. cbn [length] in Hl. lia.
Qed.

Lemma email_loop_writes cap fuel : forall s out,
  (length s <= fuel)%nat -> writes cap (redact_email_loop fuel cap s out) (out ++ email_out fuel s).
Proof.
  induction fuel as [|fuel IH]; intros s out Hf; (destruct s as [|c s]; [cbn; by rewrite app_nil_r|cbn [length] in Hf]); [lia|].
  cbn [redact_email_loop email_out]. destruct (span email_char (c :: s)) as [word rest] eqn:Es.
  pose proof (span_shorter _ _ _ _ Es) as Hl. cbn [length] in Hl.
  destruct (append cap out _) as [o1|] eqn:E1; [apply append_out in E1 as ->|by eapply append_full in E1; red; rewrite E1].
  destruct rest as [|d rest]; [rewrite app_nil_r; by destruct fuel|].
  rewrite app_assoc. destruct (append_ch cap _ d) as [o2|] eqn:E2; [apply append_ch_out in E2 as ->|by eapply append_ch_full in E2; red; rewrite E2].
  set (w := if is_email word then _ else _) in *.
  replace ((out ++ w) ++ d :: email_out fuel rest) with (((out ++ w) ++ [d]) ++ email_out fuel rest) by (by rewrite <- !app_assoc).
  apply IH. cbn [length] in Hl. lia.
Qed.

Lemma octet_shorter s r : octet s = Some r -> (length r < length s)%nat.
Proof. destruct s as [|a [|b [|c s]]]; cbn; repeat case_match; intros; simplify_eq; cbn; lia. Qed.
Lemma dot_shorter s r : dot s = Some r -> (length r < length s)%nat.
Proof. destruct s as [|c s]; [done|]. cbn. repeat case_match; intros; simplify_eq; cbn; lia. Qed.
Lemma quad_shorter s r : quad s = Some r -> (length r < length s)%nat.
Proof.
  unfold quad. repeat case_match; try done.
  repeat match goal with H : octet _ = Some _ |- _ => apply octet_shorter in H | H : dot _ = Some _ |- _ => apply dot_shorter in H end.
  intros H6%octet_shorter. lia.
Qed.

Lemma ip_loop_writes cap fuel : forall s out,
  (length s <= fuel)%nat -> writes cap (redact_ipv4_loop fuel cap s out) (out ++ ip_out fuel s).
Proof.
  induction fuel as [|fuel IH]; intros s out Hf; (destruct s as [|c s]; [cbn; by rewrite app_nil_r|cbn [length] in Hf]); [lia|].
  cbn [redact_ipv4_loop ip_out]. destruct (quad (c :: s)) as [after|] eqn:Eq.
  - apply quad_shorter in Eq. cbn [length] in Eq.
    destruct (append cap out _) as [o1|] eqn:E1; [apply append_out in E1 as ->|by eapply append_full in E1; red; rewrite E1].
    rewrite app_assoc. apply IH. lia.
  - destruct (append_ch cap _ c) as [o2|] eqn:E2; [apply append_ch_out in E2 as ->|by eapply append_ch_full in E2; red; rewrite E2].
    replace (out ++ c :: ip_out fuel s) with ((out ++ [c]) ++ ip_out fuel s) by (by rewrite <- app_assoc).
    apply IH. lia.
Qed.

(** ** No long run of hex digits is left *)

(** No run reaches 32 digits, counting [k] digits before the text; and the run at its end. *)
Fixpoint ok_run (k : Z) (l : cstring) : bool :=
  match l with
  | [] => true
  | c :: l => if is_hex c then (k + 1 <? 32) && ok_run (k + 1) l else ok_run 0 l
  end.
Fixpoint run_after (k : Z) (l : cstring) : Z :=
  match l with [] => k | c :: l => run_after (if is_hex c then k + 1 else 0) l end.

Lemma ok_run_app a b : forall k, ok_run k (a ++ b) = ok_run k a && ok_run (run_after k a) b.
Proof.
  induction a as [|c a IH]; intros k; [done|]. cbn [app ok_run run_after]. destruct (is_hex c); rewrite IH; [|done].
  by rewrite andb_assoc.
Qed.

Lemma ok_run_mono l : forall k k', k' <= k -> ok_run k l = true -> ok_run k' l = true.
Proof.
  induction l as [|c l IH]; intros k k' Hk; [done|]. cbn [ok_run]. destruct (is_hex c); [|done].
  intros [H1 H2]%andb_prop. rewrite (proj2 (Z.ltb_lt _ _)) by lia. cbn [andb]. eapply IH; [|exact H2]. lia.
Qed.

Lemma hexes_run l : forall k, forallb is_hex l = true -> run_after k l = k + len l /\ (k + len l < 32 -> ok_run k l = true).
Proof.
  induction l as [|c l IH]; intros k; [cbn; intros; change (len (@nil Z)) with 0; split; [lia|done]|].
  cbn [forallb run_after ok_run]. intros [-> H]%andb_prop. rewrite len_cons. destruct (IH (k + 1) H) as [E1 E2].
  split; [lia|]. intros Hk. pose proof (len_nonneg l). rewrite (proj2 (Z.ltb_lt _ _)) by lia. apply E2. lia.
Qed.

Lemma hexes_short run : forall k, 0 <= k < 32 -> forallb is_hex run = true -> ok_run k run = true -> k + len run < 32.
Proof.
  induction run as [|c run IH]; intros k Hk; [change (len (@nil Z)) with 0; lia|]. cbn [ok_run forallb].
  intros [-> Hx]%andb_prop [H1%Z.ltb_lt H2]%andb_prop. rewrite len_cons. specialize (IH (k + 1) ltac:(lia) Hx H2). lia.
Qed.

Lemma run_after_nonneg l : forall k, 0 <= k -> 0 <= run_after k l.
Proof. induction l as [|c l IH]; intros k Hk; cbn; [done|]. apply IH. destruct (is_hex c); lia. Qed.

Lemma ok_run_clean a run b : ok_run 0 (a ++ run ++ b) = true -> forallb is_hex run = true -> len run < 32.
Proof.
  rewrite !ok_run_app. intros [_ [H _]%andb_prop]%andb_prop Hx.
  apply (ok_run_mono _ _ 0) in H; [|by apply run_after_nonneg]. by apply (hexes_short run 0) in H; [lia| |].
Qed.

(** A mask resets the count. *)
Definition resets (m : cstring) : Prop := forall k, ok_run k m = true /\ run_after k m = 0.
Lemma resets_app m l k : resets m -> ok_run k (m ++ l) = ok_run 0 l.
Proof. intros Hm. rewrite ok_run_app. destruct (Hm k) as [-> ->]. done. Qed.

Lemma dec_hexes fuel : forall n, 0 <= n -> forallb is_hex (dec fuel n) = true.
Proof.
  induction fuel as [|f IH]; intros n Hn; [done|]. cbn [dec]. rewrite forallb_app. cbn [forallb].
  pose proof (Z.mod_pos_bound n 10 ltac:(lia)). rewrite andb_true_r. apply andb_true_intro. split.
  - destruct (n <? 10); [done|]. apply IH. apply Z.div_pos; lia.
  - unfold is_hex. lia.
Qed.

Lemma dec_len fuel : forall n k, 0 <= n < 10 ^ Z.of_nat k -> (0 < k)%nat -> len (dec fuel n) <= Z.of_nat k.
Proof.
  induction fuel as [|f IH]; intros n k Hn Hk; [change (len (dec 0 n)) with 0; lia|]. cbn [dec]. rewrite len_app. change (len [48 + n mod 10]) with 1.
  destruct (Z.ltb_spec n 10); [change (len (@nil Z)) with 0; lia|]. destruct k as [|[|k]]; [lia|cbn in Hn; lia|].
  assert (0 <= n / 10 < 10 ^ Z.of_nat (S k)).
  { split; [apply Z.div_pos; lia|]. apply Z.div_lt_upper_bound; [lia|]. rewrite <- Z.pow_succ_r by lia.
    replace (Z.succ (Z.of_nat (S k))) with (Z.of_nat (S (S k))) by lia. lia. }
  specialize (IH (n / 10) (S k) ltac:(done) ltac:(lia)). lia.
Qed.

Lemma hex_mask_resets n : 0 <= n < 10 ^ 14 -> resets (hex_mask n).
Proof.
  intros Hn. unfold hex_mask, snprintf. pose proof (dec_len 20 n 14 ltac:(done) ltac:(lia)) as Hl.
  rewrite take_ge by (rewrite length_app; change (length [62]) with 1%nat; unfold len in Hl; lia). intros k.
  rewrite !ok_run_app. assert (Hr : forall k, run_after k (lit "<REDACTED-HEX-") = 0) by done.
  assert (Ho : ok_run k (lit "<REDACTED-HEX-") = true) by done. rewrite Hr, Ho.
  destruct (hexes_run (dec 20 n) 0) as [E1 E2]; [by apply dec_hexes; lia|].
  rewrite E2 by lia. split; [done|]. clear -Hr.
  assert (run_app : forall a b k, run_after k (a ++ b) = run_after (run_after k a) b)
    by (induction a as [|c a IH]; intros b j; cbn; [done|apply IH]).
  by rewrite !run_app.
Qed.

Lemma hex_out_clean fuel : forall s, (length s <= fuel)%nat -> len s < 10 ^ 14 -> ok_run 0 (hex_out fuel s) = true.
Proof.
  induction fuel as [|fuel IH]; intros s Hf Hn; [done|]. destruct s as [|c s]; [done|]. cbn [hex_out].
  pose proof (span_spec is_hex (c :: s)) as Hs. destruct (span is_hex (c :: s)) as [run rest] eqn:Es.
  destruct Hs as (Er & Hx & Hd). pose proof (span_shorter _ _ _ _ Es) as Hl. cbn [length] in *.
  rewrite Er in Hn. rewrite len_app in Hn. pose proof (len_nonneg run). pose proof (len_nonneg rest).
  destruct (Z.leb_spec 32 (len run)).
  - rewrite resets_app by (apply hex_mask_resets; lia). apply IH; [unfold len in *; lia|lia].
  - rewrite ok_run_app. destruct (hexes_run run 0 Hx) as [_ ->]; [|lia]. cbn [andb].
    destruct rest as [|d rest]; [done|]. cbn [ok_run]. rewrite Hd. cbn [length] in Hl. rewrite len_cons in *.
    apply IH; lia.
Qed.

Lemma email_out_clean fuel : forall s k, 0 <= k -> ok_run k s = true -> ok_run k (email_out fuel s) = true.
Proof.
  induction fuel as [|fuel IH]; intros s k Hk Hs; [done|]. destruct s as [|c s]; [done|]. cbn [email_out].
  pose proof (span_spec email_char (c :: s)) as Hsp. destruct (span email_char (c :: s)) as [word rest].
  destruct Hsp as (Er & _ & _). rewrite Er, ok_run_app in Hs. apply andb_prop in Hs as [H1 H2].
  assert (Hrest : forall j, 0 <= j -> ok_run j rest = true ->
    ok_run j (match rest with [] => [] | d :: r => d :: email_out fuel r end) = true).
  { intros j Hj. destruct rest as [|d r]; [done|]. cbn [ok_run]. destruct (is_hex d); [|by apply IH].
    intros [-> H]%andb_prop. cbn [andb]. apply IH; [lia|done]. }
  destruct (is_email word).
  - assert (Hm : resets (lit "<email>")) by done. rewrite resets_app by done. apply Hrest; [lia|].
    eapply ok_run_mono; [|exact H2]. by apply run_after_nonneg.
  - rewrite ok_run_app, H1. cbn [andb]. apply Hrest; [by apply run_after_nonneg|done].
Qed.

Lemma quad_suffix s r : quad s = Some r -> exists a, s = a ++ r.
Proof.
  assert (Ho : forall s r, octet s = Some r -> exists a, s = a ++ r).
  { intros t u. destruct t as [|a [|b [|c t]]]; cbn; repeat case_match; intros; simplify_eq;
      (by exists [a]) || (by exists [a; b]) || (by exists [a; b; c]). }
  assert (Hd : forall s r, dot s = Some r -> exists a, s = a ++ r).
  { intros t u. destruct t as [|c t]; [done|]. cbn. repeat case_match; intros; simplify_eq. by eexists [_]. }
  unfold quad. repeat case_match; try done. intros H6%Ho.
  repeat match goal with H : octet _ = Some _ |- _ => apply Ho in H | H : dot _ = Some _ |- _ => apply Hd in H end.
  repeat match goal with H : exists _, _ |- _ => destruct H as [? ->] end. rewrite !app_assoc. eauto.
Qed.

Lemma ip_out_clean fuel : forall s k, 0 <= k -> ok_run k s = true -> ok_run k (ip_out fuel s) = true.
Proof.
  induction fuel as [|fuel IH]; intros s k Hk Hs; [done|]. destruct s as [|c s]; [done|]. cbn [ip_out].
  destruct (quad (c :: s)) as [after|] eqn:Eq.
  - assert (Hm : resets (lit "<ip>")) by done. rewrite resets_app by done.
    apply quad_suffix in Eq as [a Ea]. rewrite Ea, ok_run_app in Hs. apply andb_prop in Hs as [_ H2].
    apply IH; [lia|]. eapply ok_run_mono; [|exact H2]. by apply run_after_nonneg.
  - revert Hs. cbn [ok_run]. destruct (is_hex c); [|by apply IH]. intros [-> H]%andb_prop. apply IH; [lia|done].
Qed.

(** ** No dotted quad is left *)

(** What a match cannot go past: the end of the text or the start of a mask. *)
Definition stops (z : cstring) : Prop := z = [] \/ exists z', z = 60 :: z'.

Lemma octet_stop x z r :
  stops z -> octet (x ++ z) = Some r ->
  exists x', r = x' ++ z /\ (forall y, x' <> [] -> octet (x ++ y) = Some (x' ++ y)) /\ (forall y, octet (x ++ y) <> None).
Proof.
  intros Hz. assert (Hd : forall b z', z = b :: z' -> isdigit b = false) by (intros b z' ->; destruct Hz as [|[w [= -> ->]]]; done).
  destruct x as [|a [|b [|c x]]]; cbn [app octet].
  - destruct z as [|b z']; [done|]. cbn [octet]. rewrite (Hd b z') by done. done.
  - destruct (isdigit a) eqn:Ea; [|done]. intros E. exists []. split; [|split; [done|]].
    + destruct z as [|b z']; [by injection E as <-|]. rewrite (Hd b z') in E by done. by injection E as <-.
    + intros y. repeat case_match; congruence.
  - destruct (isdigit a) eqn:Ea; [|done]. destruct (isdigit b) eqn:Eb.
    + intros E. exists []. split; [|split; [done|]].
      * destruct z as [|c z']; [by injection E as <-|]. rewrite (Hd c z') in E by done. by injection E as <-.
      * intros y. repeat case_match; congruence.
    + intros [= <-]. exists [b]. by split_and!.
  - destruct (isdigit a); [|done]. destruct (isdigit b); [|intros [= <-]; by exists (b :: c :: x)].
    destruct (isdigit c); [intros [= <-]; by exists x|intros [= <-]; by exists (c :: x)].
Qed.

Lemma dot_stop x z r : stops z -> dot (x ++ z) = Some r -> exists x', x = 46 :: x' /\ r = x' ++ z.
Proof.
  intros Hz. destruct x as [|c x].
  - destruct Hz as [->|[w ->]]; done.
  - intros E. exists x. cbn in E. repeat case_match; simplify_eq. done.
Qed.

Lemma octet_dot_stop x z r :
  stops z -> match octet (x ++ z) with Some s => dot s | None => None end = Some r ->
  exists x', r = x' ++ z /\ forall y, match octet (x ++ y) with Some s => dot s | None => None end = Some (x' ++ y).
Proof.
  intros Hz. destruct (octet (x ++ z)) as [s|] eqn:Eo; [|done]. intros Ed.
  destruct (octet_stop x z s Hz Eo) as (x1 & -> & Hx1 & _). destruct (dot_stop x1 z r Hz Ed) as (x2 & -> & ->).
  exists x2. split; [done|]. intros y. by rewrite Hx1.
Qed.

Lemma quad_unfold s : quad s =
  match (match octet s with Some s => dot s | None => None end) with None => None | Some s =>
  match (match octet s with Some s => dot s | None => None end) with None => None | Some s =>
  match (match octet s with Some s => dot s | None => None end) with None => None | Some s => octet s end end end.
Proof. unfold quad. by repeat case_match. Qed.

(** A match that ends before a stop is a match whatever follows. *)
Lemma quad_stop x z y : stops z -> quad (x ++ z) <> None -> quad (x ++ y) <> None.
Proof.
  intros Hz. rewrite !quad_unfold.
  destruct (match octet (x ++ z) with Some s => dot s | None => None end) as [s1|] eqn:E1; [|done].
  destruct (octet_dot_stop x z s1 Hz E1) as (x1 & -> & H1). rewrite H1.
  destruct (match octet (x1 ++ z) with Some s => dot s | None => None end) as [s2|] eqn:E2; [|done].
  destruct (octet_dot_stop x1 z s2 Hz E2) as (x2 & -> & H2). rewrite H2.
  destruct (match octet (x2 ++ z) with Some s => dot s | None => None end) as [s3|] eqn:E3; [|done].
  destruct (octet_dot_stop x2 z s3 Hz E3) as (x3 & -> & H3). rewrite H3.
  destruct (octet (x3 ++ z)) as [s4|] eqn:E4; [|done]. intros _.
  destruct (octet_stop x3 z s4 Hz E4) as (x4 & -> & _ & H4). apply H4.
Qed.

(** The output agrees with the input up to the first mask. *)
Lemma ip_out_agree fuel : forall s, (length s <= fuel)%nat ->
  exists x y z, s = x ++ y /\ ip_out fuel s = x ++ z /\ stops z.
Proof.
  induction fuel as [|fuel IH]; intros s Hf.
  { destruct s; [|cbn in Hf; lia]. exists [], [], []. split_and!; [done..|by left]. }
  destruct s as [|c s]; [exists [], [], []; split_and!; [done..|by left]|]. cbn [ip_out length] in *.
  destruct (quad (c :: s)) as [after|].
  - exists [], (c :: s). eexists. split_and!; [done|reflexivity|]. right. by eexists.
  - destruct (IH s ltac:(lia)) as (x & y & z & -> & E & Hz). exists (c :: x), y, z. by rewrite E.
Qed.

Lemma ip_out_no_quad fuel : forall s a b,
  (length s <= fuel)%nat -> ip_out fuel s = a ++ b -> quad b = None.
Proof.
  induction fuel as [|fuel IH]; intros s a b Hf E.
  { cbn in E. symmetry in E. by apply app_nil in E as [_ ->]. }
  destruct s as [|c s]; [cbn in E; symmetry in E; by apply app_nil in E as [_ ->]|]. cbn [ip_out length] in *.
  destruct (quad (c :: s)) as [after|] eqn:Eq.
  - apply quad_shorter in Eq. cbn [length] in Eq. change (lit "<ip>") with [60; 105; 112; 62] in E. cbn [app] in E.
    destruct a as [|? [|? [|? [|? a]]]]; cbn [app] in E; [simplify_eq; done..|].
    injection E as _ _ _ _ E. by apply (IH after a b); [lia|].
  - destruct a as [|? a]; cbn [app] in E; [|injection E as _ E; by apply (IH s a b); [lia|]].
    rewrite <- E. destruct (ip_out_agree fuel s) as (x & y & z & Es & Eo & Hz); [lia|].
    destruct (quad (c :: ip_out fuel s)) as [r|] eqn:Er; [exfalso|done].
    rewrite Eo in Er. apply (quad_stop (c :: x) z y Hz); [cbn [app]; by rewrite Er|]. cbn [app]. by rewrite <- Es.
Qed.

(** ** All of it *)

Lemma redact_hex_writes s cap : 0 < cap -> sl_log_redact_hex s cap = Ok (finish cap (hex_out (length s) s)).
Proof.
  intros Hc. unfold sl_log_redact_hex. rewrite (proj2 (Z.eqb_neq _ _)) by lia. by apply (hex_loop_writes cap _ s []).
Qed.
Lemma redact_email_writes s cap : 0 < cap -> sl_log_redact_email s cap = Ok (finish cap (email_out (length s) s)).
Proof.
  intros Hc. unfold sl_log_redact_email. rewrite (proj2 (Z.eqb_neq _ _)) by lia. by apply (email_loop_writes cap _ s []).
Qed.
Lemma redact_ipv4_writes s cap : 0 < cap -> sl_log_redact_ipv4 s cap = Ok (finish cap (ip_out (length s) s)).
Proof.
  intros Hc. unfold sl_log_redact_ipv4. rewrite (proj2 (Z.eqb_neq _ _)) by lia. by apply (ip_loop_writes cap _ s []).
Qed.

Lemma hex_out_len fuel : forall s, (length s <= fuel)%nat -> len s < 10 ^ 14 -> len (hex_out fuel s) <= len s.
Proof.
  induction fuel as [|fuel IH]; intros s Hf Hn; [cbn; apply len_nonneg|]. destruct s as [|c s]; [done|]. cbn [hex_out].
  pose proof (span_spec is_hex (c :: s)) as Hs. destruct (span is_hex (c :: s)) as [run rest] eqn:Es.
  destruct Hs as (Er & _ & _). pose proof (span_shorter _ _ _ _ Es) as Hl. cbn [length] in *. rewrite Er in *.
  rewrite len_app in *. pose proof (len_nonneg run). pose proof (len_nonneg rest). destruct (Z.leb_spec 32 (len run)).
  - specialize (IH rest ltac:(unfold len in *; lia) ltac:(lia)). rewrite len_app. unfold hex_mask, snprintf.
    pose proof (dec_len 20 (len run) 14 ltac:(cbn; lia) ltac:(lia)). rewrite len_app.
    assert (len (take (16 - 1) (dec 20 (len run) ++ [62])) <= 15) by (unfold len; rewrite length_take; lia).
    change (len (lit "<REDACTED-HEX-")) with 14. lia.
  - rewrite len_app. destruct rest as [|d rest]; [change (len (@nil Z)) with 0; lia|]. rewrite !len_cons in *. cbn [length] in Hl.
    specialize (IH rest ltac:(lia) ltac:(lia)). lia.
Qed.

Lemma strchr_len s c a b : strchr s c = Some (a, b) -> len s = len a + 1 + len b.
Proof.
  revert a b. induction s as [|x s IH]; intros a b; cbn [strchr]; [done|]. destruct (x =? c).
  - intros [= <- <-]. change (len (@nil Z)) with 0. rewrite len_cons. lia.
  - destruct (strchr s c) as [[a' b']|]; [|done]. intros [= <- <-]. rewrite !len_cons, (IH a' b') by done. lia.
Qed.

Lemma email_out_len fuel : forall s, (length s <= fuel)%nat -> len (email_out fuel s) <= 3 * len s.
Proof.
  induction fuel as [|fuel IH]; intros s Hf; [cbn; pose proof (len_nonneg s); change (len (@nil Z)) with 0; lia|].
  destruct s as [|c s]; [done|]. cbn [email_out].
  pose proof (span_spec email_char (c :: s)) as Hs. destruct (span email_char (c :: s)) as [word rest] eqn:Es.
  destruct Hs as (Er & _ & _). pose proof (span_shorter _ _ _ _ Es) as Hl. cbn [length] in *. rewrite Er.
  rewrite !len_app. pose proof (len_nonneg word). pose proof (len_nonneg rest).
  assert (len (if is_email word then lit "<email>" else word) <= 3 * len word).
  { unfold is_email. destruct (strchr word 64) as [[x y]|] eqn:E; [|lia]. apply strchr_len in E.
    destruct x as [|? x]; [cbn; lia|]. destruct y as [|? y]; [rewrite andb_comm; cbn; lia|].
    rewrite !len_cons in E. pose proof (len_nonneg x). pose proof (len_nonneg y).
    rewrite !bool_decide_eq_false_2 by done. cbn [negb andb]. change (len (lit "<email>")) with 7. lia. }
  destruct rest as [|d rest]; [change (len (@nil Z)) with 0; lia|]. rewrite !len_cons in *. cbn [length] in Hl.
  specialize (IH rest ltac:(lia)). lia.
Qed.

Lemma ip_out_len fuel : forall s, len (ip_out fuel s) <= len s.
Proof.
  induction fuel as [|fuel IH]; intros s; [cbn; apply len_nonneg|]. destruct s as [|c s]; [done|]. cbn [ip_out].
  destruct (quad (c :: s)) as [after|] eqn:Eq; [|rewrite !len_cons; specialize (IH s); lia].
  rewrite len_app. change (len (lit "<ip>")) with 4. specialize (IH after).
  assert (len after + 7 <= len (c :: s)); [|lia]. revert Eq. unfold quad. repeat case_match; try done.
  repeat match goal with H : octet _ = Some _ |- _ => apply octet_shorter in H | H : dot _ = Some _ |- _ => apply dot_shorter in H end.
  intros H6%octet_shorter. unfold len. lia.
Qed.

(** what redaction guarantees.  Whenever [sl_log_redact_all] succeeds, its output fits the
    buffer with its terminator, no 32 consecutive characters of it are hex digits, and nowhere in
    it does an IPv4 dotted quad stand; and it always succeeds on lines of up to 340 characters
    when the buffer has three bytes for each of them. *)
Theorem redact_all_hides s cap :
  len s < 10 ^ 14 -> 0 < cap ->
  exists r, sl_log_redact_all s cap = Ok r /\
    (forall out, r = Some out -> len out < cap /\
       (forall a run b, out = a ++ run ++ b -> forallb is_hex run = true -> len run < 32) /\
       (forall a b, out = a ++ b -> quad b = None)) /\
    (len s <= 340 -> 3 * len s < cap -> r <> None).
Proof.
  intros Hn Hc. unfold sl_log_redact_all. rewrite redact_hex_writes by lia.
  set (t1 := hex_out (length s) s). pose proof (hex_out_clean (length s) s ltac:(lia) Hn) as C1. fold t1 in C1.
  pose proof (hex_out_len (length s) s ltac:(lia) Hn) as L1. fold t1 in L1.
  unfold finish at 1. destruct (Z.leb_spec 1024 (len t1)).
  { exists None. split_and!; [done..|lia]. }
  rewrite redact_email_writes by lia. set (t2 := email_out (length t1) t1).
  pose proof (email_out_clean (length t1) t1 0 ltac:(lia) C1) as C2. fold t2 in C2.
  pose proof (email_out_len (length t1) t1 ltac:(lia)) as L2. fold t2 in L2.
  unfold finish at 1. destruct (Z.leb_spec 1024 (len t2)).
  { exists None. split_and!; [done..|lia]. }
  rewrite redact_ipv4_writes by lia. eexists. split; [reflexivity|]. pose proof (ip_out_len (length t2) t2) as L3. split.
  - intros out [-> Hlt]%finish_out. split_and!; [done| |].
    + intros a run b E. apply (ok_run_clean a run b). rewrite <- E. by apply ip_out_clean.
    + intros a b E. by eapply ip_out_no_quad; [|exact E].
  - intros Hs Hcap. unfold finish. by rewrite (proj2 (Z.leb_gt _ _)) by lia.
Qed.

Definition demo_line : cstring := lit "ip 10.0.0.1 key 0123456789abcdef0123456789ABCDEF0 by a@b.c".
Lemma redact_all_hides_witness :
  exists out, sl_log_redact_all demo_line 256 = Ok (Some out) /\ out = lit "ip <ip> key <REDACTED-HEX-33> by <email>" /\
    (forall a b, out = a ++ b -> quad b = None).
Proof.
  destruct (redact_all_hides demo_line 256) as (r & E & H & _); [by vm_compute|lia|].
  assert (Er : r = Some (lit "ip <ip> key <REDACTED-HEX-33> by <email>")) by (vm_compute in E |- *; congruence).
  exists (lit "ip <ip> key <REDACTED-HEX-33> by <email>"). rewrite E, Er. split_and!; [done..|].
  by apply (H _ Er).
Defined.

(** An address with an ['@'] in front is not recognised as an e-mail address. *)
Lemma leading_at_not_redacted :
  sl_log_redact_email (lit "cc @alice@example.com") 256 = Ok (Some (lit "cc @alice@example.com")).
Proof. by vm_compute. Qed.
