(* ===== verification/Pow.v ===== *)
(** The client puzzle ([src/sl_pow.c]): leading zero bits of a SHA-256 digest.  The hash and the
    random generator are the parameters of KeySched.v and Rng.v. *)

From S2P Require Import Prelude ByteOrder KeySched Rng.
Local Open Scope Z_scope.

(* src/inc/sl_pow.h:24-24 *)
Definition SL_POW_CHALLENGE_LEN : Z := 16.
(* src/inc/sl_pow.h:25-25 *)
Definition SL_POW_NONCE_LEN : Z := 8.

(* src/src/sl_pow.c:8-10 *)
Definition sl_pow_make_challenge {R} `{Rand R} (r : R) : M (option (list Z) * R) :=
  sl_rng_bytes SL_POW_CHALLENGE_LEN r.

(** [while ((b & 0x80) == 0) { ++zeros; b <<= 1; }]: at most seven rounds for a byte that is not 0. *)
(* src/src/sl_pow.c:17-17 leading_zero_bits *)
Fixpoint byte_zeros (fuel : nat) (b zeros : Z) : M Z :=
  if Z.land b 0x80 =? 0 then
    match fuel with O => Fault | S fuel => byte_zeros fuel (u8 (b ≪ 1)) (u32 (zeros + 1)) end
  else Ok zeros.

(* src/src/sl_pow.c:12-21 *)
Definition leading_zero_bits (digest : list Z) : M Z :=
  let! r := for_ret (length digest) 0 (fun i zeros =>
    let! b := load digest i in
    if b =? 0 then Ok (inl (u32 (zeros + 8)))
    else let! z := byte_zeros 7 b zeros in Ok (inr z)) 0 in
  match r with inl z => Ok z | inr z => Ok z end.

Section Puzzle.
Context `{Hash}.

(* src/src/sl_pow.c:23-37 *)
Definition sl_pow_verify (challenge nonce : list Z) (difficulty_bits : Z) : M bool :=
  if 256 <? difficulty_bits then Ok false
  else
    let! c := load_bytes challenge 0 SL_POW_CHALLENGE_LEN in
    let! n := load_bytes nonce 0 SL_POW_NONCE_LEN in
    let! z := leading_zero_bits (sha256 (c ++ n)) in
    Ok (difficulty_bits <=? z).

(** The loop of the solver: [i] candidates have been tried of [max_iters]. *)
(* src/src/sl_pow.c:52-65 sl_pow_solve *)
Fixpoint solve_loop (todo : nat) (i counter difficulty_bits : Z) (input : list Z) : M (option (list Z)) :=
  match todo with
  | O => Ok None
  | S todo =>
      let v := u64 (counter + i) in
      let! input := for_up 8 0 (fun b input => store input (SL_POW_CHALLENGE_LEN + b) (u8 (v ≫ (56 - 8 * b)))) input in
      let! z := leading_zero_bits (sha256 input) in
      if difficulty_bits <=? z then
        let! n := load_bytes input SL_POW_CHALLENGE_LEN SL_POW_NONCE_LEN in Ok (Some n)
      else solve_loop todo (i + 1) counter difficulty_bits input
  end.

(** The nonce, or [None] for -1.  A failing generator leaves the counter at 0. *)
(* src/src/sl_pow.c:39-66 *)
Definition sl_pow_solve {R} `{Rand R} (challenge : list Z) (difficulty_bits max_iters : Z) (r : R)
  : M (option (list Z) * R) :=
  let! c := load_bytes challenge 0 SL_POW_CHALLENGE_LEN in
  let! input := store_bytes (replicate (Z.to_nat (SL_POW_CHALLENGE_LEN + SL_POW_NONCE_LEN)) 0) 0 c in
  let! '(o, r) := sl_rng_u64 r in
  let counter := default 0 o in
  let! n := solve_loop (Z.to_nat max_iters) 0 counter difficulty_bits input in
  Ok (n, r).
End Puzzle.

(** ** Leading zeros and size *)

(** The digest as a number, most significant byte first. *)
Definition be_value (l : list Z) : Z := foldl (fun v b => v * 256 + b) 0 l.

Fixpoint zeros_of (l : list Z) : Z :=
  match l with [] => 0 | b :: l => if b =? 0 then 8 + zeros_of l else 7 - Z.log2 b end.

Lemma byte_zeros_spec fuel : forall b z,
  0 < b < 256 -> 7 - Z.log2 b <= Z.of_nat fuel -> 0 <= z -> z + (7 - Z.log2 b) < 2 ^ 32 ->
  byte_zeros fuel b z = Ok (z + (7 - Z.log2 b)).
Proof.
  induction fuel as [|f IH]; intros b z Hb Hf H0 Hz; cbn [byte_zeros]; rewrite land_80 by lia;
    (destruct (Z.ltb_spec b 128) as [Hlt|Hge];
      [assert (Z.log2 b < 7) by (apply Z.log2_lt_pow2; lia)
      |rewrite (Z.log2_unique b 7) by (simpl; lia); f_equal; lia]).
  - lia.
  - rewrite Z.shiftl_mul_pow2 by lia. change (2 ^ 1) with 2. unfold u8. rewrite Z.mod_small by lia.
    pose proof (Z.log2_double b ltac:(lia)) as Hd. rewrite (Z.mul_comm b 2).
    rewrite u32_small by lia. rewrite IH by lia. f_equal. lia.
Qed.

Lemma zeros_of_range l : bytes_ok l -> 0 <= zeros_of l <= 8 * len l.
Proof.
  induction 1 as [|b l Hb Hl IH]; [done|]. cbn [zeros_of]. rewrite len_cons. destruct (Z.eqb_spec b 0); [lia|].
  assert (0 <= Z.log2 b < 8) by (split; [apply Z.log2_nonneg|apply Z.log2_lt_pow2; lia]). pose proof (len_nonneg l). lia.
Qed.

Lemma leading_zero_bits_spec l : bytes_ok l -> len l < 2 ^ 28 -> leading_zero_bits l = Ok (zeros_of l).
Proof.
  intros Hl Hn. unfold leading_zero_bits.
  assert (G : forall l pre z, bytes_ok l -> 0 <= z -> z + 8 * len l < 2 ^ 32 ->
    (let! r := for_ret (length l) (len pre) (fun i zeros =>
       let! b := load (pre ++ l) i in
       if b =? 0 then Ok (inl (u32 (zeros + 8)))
       else let! z := byte_zeros 7 b zeros in Ok (inr z)) z in
     match r with inl z => Ok z | inr z => Ok z end) = Ok (z + zeros_of l)); [|exact (G l [] 0 Hl ltac:(lia) ltac:(lia))].
  clear. induction l as [|b l IH]; intros pre z Hl H0 Hn; cbn [for_ret length zeros_of]; [f_equal; lia|].
  apply Forall_cons in Hl as [Hb Hl]. rewrite len_cons in Hn. pose proof (len_nonneg l). rewrite load_app_mid.
  destruct (Z.eqb_spec b 0) as [->|Hne].
  - rewrite u32_small by lia. specialize (IH (pre ++ [0]) (z + 8) Hl ltac:(lia) ltac:(lia)).
    rewrite <- app_assoc in IH. rewrite len_app in IH. cbn [app] in IH. change (len [0]) with 1 in IH. rewrite IH. f_equal. lia.
  - pose proof (Z.log2_nonneg b). rewrite byte_zeros_spec by lia. done.
Qed.

Lemma be_value_acc l : forall v, foldl (fun v b => v * 256 + b) v l = v * 256 ^ len l + be_value l.
Proof.
  unfold be_value. induction l as [|b l IH]; intros v; [change (len (@nil Z)) with 0; cbn [foldl]; lia|]. cbn [foldl]. rewrite IH, (IH (0 * 256 + b)).
  rewrite len_cons, Z.pow_add_r by (pose proof (len_nonneg l); lia). lia.
Qed.

Lemma be_value_cons b l : be_value (b :: l) = b * 256 ^ len l + be_value l.
Proof. unfold be_value at 1. cbn [foldl]. rewrite be_value_acc. lia. Qed.

Lemma pow256 n : 0 <= n -> 256 ^ n = 2 ^ (8 * n).
Proof. intros. change 256 with (2 ^ 8). by rewrite <- Z.pow_mul_r by lia. Qed.

Lemma be_value_range l : bytes_ok l -> 0 <= be_value l < 256 ^ len l.
Proof.
  induction 1 as [|b l Hb Hl IH]; [done|]. rewrite be_value_cons, len_cons, Z.pow_add_r by (pose proof (len_nonneg l); lia).
  change (256 ^ 1) with 256. nia.
Qed.

(** [d] leading zero bits are there exactly when the number is below the matching power of two. *)
Lemma zeros_of_value l : forall d, bytes_ok l -> 0 <= d <= 8 * len l -> d <= zeros_of l <-> be_value l < 2 ^ (8 * len l - d).
Proof.
  induction l as [|b l IH]; intros d Hl Hd; [change (len (@nil Z)) with 0 in *; cbn; replace d with 0 by lia; cbn; lia|].
  apply Forall_cons in Hl as [Hb Hl]. pose proof (be_value_range l Hl) as Hr. pose proof (len_nonneg l).
  pose proof (zeros_of_range l Hl). rewrite be_value_cons, len_cons in *. cbn [zeros_of]. rewrite pow256 in * by lia.
  set (w := 8 * len l) in *. replace (8 * (1 + len l) - d) with (w + (8 - d)) by lia.
  assert (Hw : 0 < 2 ^ w) by (apply Z.pow_pos_nonneg; lia).
  destruct (Z.eqb_spec b 0) as [->|Hne].
  - destruct (decide (d <= 8)).
    + split; [|lia]. intros _. rewrite Z.pow_add_r by lia. assert (0 < 2 ^ (8 - d)) by (apply Z.pow_pos_nonneg; lia). nia.
    + specialize (IH (d - 8) Hl ltac:(lia)). fold w in IH. replace (w - (d - 8)) with (w + (8 - d)) in IH by lia. lia.
  - destruct (decide (d <= 8)).
    + rewrite Z.pow_add_r by lia. assert (Hp : 0 < 2 ^ (8 - d)) by (apply Z.pow_pos_nonneg; lia).
      assert (Hb2 : b < 2 ^ (8 - d) <-> Z.log2 b < 8 - d) by (apply Z.log2_lt_pow2; lia).
      split; intros Hx.
      * assert (b < 2 ^ (8 - d)) by (apply Hb2; lia). nia.
      * assert (Hx2 : b < 2 ^ (8 - d)) by nia. apply Hb2 in Hx2. lia.
    + pose proof (Z.log2_nonneg b). split; [lia|]. intros Hx. exfalso.
      assert (2 ^ (w + (8 - d)) <= 2 ^ w) by (apply Z.pow_le_mono_r; lia). nia.
Qed.

(** ** Solving and verifying *)

Section Correct.
Context `{HashLaws}.

(** A nonce solves a challenge at a difficulty. *)
Definition solves (challenge nonce : list Z) (d : Z) : Prop :=
  0 <= d <= 256 /\ be_value (sha256 (challenge ++ nonce)) < 2 ^ (256 - d).
#[export] Instance solves_dec c n d : Decision (solves c n d).
Proof. unfold solves. apply _. Defined.

Lemma digest_zeros m d :
  exists z, leading_zero_bits (sha256 m) = Ok z /\ z <= 256 /\
    (0 <= d <= 256 -> d <= z <-> be_value (sha256 m) < 2 ^ (256 - d)).
Proof.
  destruct (sha256_ok m) as [Hl Hb]. exists (zeros_of (sha256 m)). split_and!.
  - apply leading_zero_bits_spec; [done|lia].
  - pose proof (zeros_of_range _ Hb). lia.
  - intros Hd. rewrite zeros_of_value by (done || lia). by rewrite Hl.
Qed.

Lemma pow_verify_spec challenge nonce d :
  len challenge = SL_POW_CHALLENGE_LEN -> len nonce = SL_POW_NONCE_LEN -> 0 <= d ->
  sl_pow_verify challenge nonce d = Ok (bool_decide (solves challenge nonce d)).
Proof.
  intros Hc Hn Hd. unfold sl_pow_verify. destruct (Z.ltb_spec 256 d).
  { rewrite bool_decide_eq_false_2; [done|]. unfold solves. lia. }
  rewrite <- Hc, <- Hn. rewrite !load_bytes_in_bounds by (pose proof (len_nonneg challenge); pose proof (len_nonneg nonce); lia).
  rewrite !drop_0, !len_to_nat, !take_ge by done.
  destruct (digest_zeros (challenge ++ nonce) d) as (z & -> & _ & Hz). f_equal. unfold solves.
  destruct (Z.leb_spec d z); [rewrite bool_decide_eq_true_2|rewrite bool_decide_eq_false_2]; try done; lia.
Qed.

Lemma nonce_loop challenge tail v :
  len challenge = SL_POW_CHALLENGE_LEN -> length tail = 8%nat ->
  for_up 8 0 (fun b input => store input (SL_POW_CHALLENGE_LEN + b) (u8 (v ≫ (56 - 8 * b)))) (challenge ++ tail) =
  Ok (challenge ++ u64_bytes v).
Proof.
  intros Hc Ht. rewrite <- Hc. set (w := fun i : nat => u8 (v ≫ (56 - 8 * Z.of_nat i))).
  destruct (for_up_inv (fun i d => exists tl, d = challenge ++ map w (seq 0 (Z.to_nat i)) ++ tl /\ Z.of_nat (length tl) = 8 - i)
    (fun b input => store input (len challenge + b) (u8 (v ≫ (56 - 8 * b)))) 8 0 (challenge ++ tail)) as (d & -> & tl & -> & Hl).
  - exists tail. by rewrite Ht.
  - intros k d Hk (tl & -> & Hl). destruct tl as [|x tl]; [cbn in Hl; lia|].
    rewrite app_assoc, store_app_at by (rewrite len_app, len_map; unfold len; rewrite length_seq; lia).
    eexists. split; [reflexivity|]. exists tl. cbn [length] in Hl. split; [|lia].
    replace (Z.to_nat (k + 1)) with (S (Z.to_nat k)) by lia. rewrite seq_S, map_app, <- !app_assoc. cbn [map app].
    do 3 f_equal. unfold w. rewrite Nat.add_0_l, Z2Nat.id by lia. done.
  - destruct tl; [|cbn in Hl; lia]. by rewrite app_nil_r.
Qed.

Lemma solve_loop_spec challenge counter d todo : forall i tail,
  len challenge = SL_POW_CHALLENGE_LEN -> length tail = 8%nat -> 0 <= d <= 256 ->
  exists r, solve_loop todo i counter d (challenge ++ tail) = Ok r /\
    match r with
    | Some n => exists k, i <= k < i + Z.of_nat todo /\ n = u64_bytes (u64 (counter + k)) /\ solves challenge n d
    | None => forall k, i <= k < i + Z.of_nat todo -> ~ solves challenge (u64_bytes (u64 (counter + k))) d
    end.
Proof.
  induction todo as [|todo IH]; intros i tail Hc Ht Hd; cbn [solve_loop].
  { exists None. split; [done|]. lia. }
  rewrite nonce_loop by done. set (n := u64_bytes (u64 (counter + i))).
  destruct (digest_zeros (challenge ++ n) d) as (z & -> & _ & Hz). destruct (Z.leb_spec d z).
  - exists (Some n). split.
    + rewrite <- Hc. rewrite <- (app_nil_r n) at 1. by rewrite load_bytes_app_mid.
    + exists i. split; [lia|]. split; [done|]. split; [done|]. by apply Hz.
  - destruct (IH (i + 1) n Hc eq_refl Hd) as (r & -> & Hr). exists r. split; [done|]. destruct r as [m|].
    + destruct Hr as (k & Hk & E & Hs). exists k. split; [lia|]. by split.
    + intros k Hk. destruct (decide (k = i)) as [->|]; [|apply Hr; lia]. fold n. unfold solves. lia.
Qed.
End Correct.

(** the puzzle.  Verification accepts exactly the nonces for which the digest of challenge and
    nonce, read as a 256-bit number, is below 2^(256 - difficulty).  The solver answers within its
    budget: with a nonce that verifies, or, when none of the consecutive counter values it tried
    solves the challenge, with failure. *)
Theorem pow_solver_sound `{HashLaws} {R} `{RandLaws R} challenge d max_iters (r : R) :
  len challenge = SL_POW_CHALLENGE_LEN -> 0 <= d <= 256 -> 0 <= max_iters ->
  (forall nonce, len nonce = SL_POW_NONCE_LEN ->
     sl_pow_verify challenge nonce d = Ok (bool_decide (be_value (sha256 (challenge ++ nonce)) < 2 ^ (256 - d)))) /\
  exists o r' start, sl_pow_solve challenge d max_iters r = Ok (o, r') /\
    match o with
    | Some nonce => sl_pow_verify challenge nonce d = Ok true
    | None => forall k, 0 <= k < max_iters ->
        sl_pow_verify challenge (u64_bytes (u64 (start + k))) d = Ok false
    end.
Proof.
  intros Hc Hd Hm. split.
  - intros nonce Hn. rewrite pow_verify_spec by (done || lia). f_equal. apply bool_decide_ext. unfold solves. naive_solver.
  - unfold sl_pow_solve. rewrite (load_bytes_in_bounds challenge) by (unfold SL_POW_CHALLENGE_LEN in *; lia).
    rewrite drop_0, take_ge by (unfold len in Hc; lia).
    rewrite store_bytes_0 by (rewrite len_replicate; unfold SL_POW_CHALLENGE_LEN, SL_POW_NONCE_LEN in *; lia).
    destruct (rng_u64_spec r) as [-> _]. destruct (u64_draw r) as [o r'].
    assert (Ht : length (drop (length challenge) (replicate (Z.to_nat (SL_POW_CHALLENGE_LEN + SL_POW_NONCE_LEN)) 0)) = 8%nat)
      by (rewrite length_drop, length_replicate; unfold len, SL_POW_CHALLENGE_LEN, SL_POW_NONCE_LEN in *; lia).
    destruct (solve_loop_spec challenge (default 0 o) d (Z.to_nat max_iters) 0 _ Hc Ht Hd) as (n & -> & Hn).
    exists n, r', (default 0 o). split; [done|]. destruct n as [nonce|].
    + destruct Hn as (k & _ & -> & Hs). rewrite pow_verify_spec by (done || lia). by rewrite bool_decide_eq_true_2.
    + intros k Hk. rewrite pow_verify_spec by (done || lia). rewrite bool_decide_eq_false_2; [done|]. apply Hn. lia.
Qed.

Lemma pow_solver_sound_witness :
  exists o r' start, sl_pow_solve (replicate 16 3) 1 20 [Some (replicate 8 0)] = Ok (o, r') /\
    match o with
    | Some nonce => sl_pow_verify (replicate 16 3) nonce 1 = Ok true
    | None => forall k, 0 <= k < 20 -> sl_pow_verify (replicate 16 3) (u64_bytes (u64 (start + k))) 1 = Ok false
    end.
Proof. apply (pow_solver_sound (replicate 16 3) 1 20 [Some (replicate 8 0)]); [done|lia|lia]. Defined.
