(* ===== verification/ServerName.v ===== *)
(** The server name extension ([src/sl_server_name.c]): host names and their wire form. *)

From Stdlib Require Import ZifyBool.
From S2P Require Import Prelude Ctype ByteOrder Codec.
Local Open Scope Z_scope.

(* src/inc/sl_server_name.h:26-26 *)
Definition SL_SERVER_NAME_MAX_LEN : Z := 253.

(** [sn_host] is the array of [SL_SERVER_NAME_MAX_LEN + 1] chars. *)
(* src/inc/sl_server_name.h:28-32 *)
Record sl_server_name_t := mk_server_name { sn_type : Z; sn_host : list Z; sn_host_len : Z }.

Definition host_dot : Z := 46.
Definition hyphen : Z := 45.

(* src/src/sl_server_name.c:6-24 *)
Definition sl_server_name_is_valid_host (host : list Z) (n : Z) : M bool :=
  if (n =? 0) || (SL_SERVER_NAME_MAX_LEN <? n) then Ok false
  else
    let! first := load host 0 in
    if first =? host_dot then Ok false
    else
      let! lst := load host (n - 1) in
      if lst =? host_dot then Ok false
      else
        let! r := for_ret (Z.to_nat n) 0 (fun i label_len =>
          let! c := load host i in
          Ok (if c =? host_dot then
                (if (label_len =? 0) || (63 <? label_len) then inr false else inl 0)
              else if negb (isalnum c || (c =? hyphen)) then inr false
              else if (c =? hyphen) && (label_len =? 0) then inr false
              else inl (u64 (label_len + 1)))) 0 in
        match r with
        | inl label_len => Ok ((0 <? label_len) && (label_len <=? 63))
        | inr b => Ok b
        end.

(* src/src/sl_server_name.c:26-38 *)
Definition sl_server_name_pack (sn : sl_server_name_t) (out : list Z) : M (Z * list Z) :=
  let! ok := sl_server_name_is_valid_host (sn_host sn) (sn_host_len sn) in
  if negb ok then Ok (-1, out)
  else
    let need := 1 + 2 + sn_host_len sn in
    if len out <? need then Ok (-1, out)
    else
      let! out := store_bytes out 0 [sn_type sn] in
      let! out := store_bytes out 1 [u8 (sn_host_len sn ≫ 8)] in
      let! out := store_bytes out 2 [u8 (Z.land (sn_host_len sn) 0xFF)] in
      let! h := load_bytes (sn_host sn) 0 (sn_host_len sn) in
      let! out := store_bytes out 3 h in
      Ok (need, out).

(** [None] is the -1 return. *)
(* src/src/sl_server_name.c:40-57 *)
Definition sl_server_name_unpack (inp : list Z) : M (option sl_server_name_t) :=
  if len inp <? 3 then Ok None
  else
    let host := replicate (Z.to_nat (SL_SERVER_NAME_MAX_LEN + 1)) 0 in
    let! type := load inp 0 in
    let! hl := unpack_u16 inp 1 in
    if SL_SERVER_NAME_MAX_LEN <? hl then Ok None
    else if len inp <? 3 + hl then Ok None
    else
      let! b := load_bytes inp 3 hl in
      let! host := store_bytes host 0 b in
      let! host := store_bytes host hl [0] in
      let! ok := sl_server_name_is_valid_host host (u8 hl) in
      if negb ok then Ok None else Ok (Some (mk_server_name type host (u8 hl))).

(** ** Host names *)

Definition host_char (c : Z) : bool := isalnum c || (c =? hyphen).
Definition label_ok (g : list Z) : bool :=
  (1 <=? len g) && (len g <=? 63) && forallb host_char g && negb (bool_decide (head g = Some hyphen)).
Definition host_ok (h : list Z) : bool :=
  (len h <=? SL_SERVER_NAME_MAX_LEN) && forallb label_ok (split_segs host_dot h).

Definition label_step (c k : Z) : Z + bool :=
  if c =? host_dot then (if (k =? 0) || (63 <? k) then inr false else inl 0)
  else if negb (host_char c) then inr false
  else if (c =? hyphen) && (k =? 0) then inr false else inl (u64 (k + 1)).

(** The scan with [k] good characters of the current label behind it. *)
Lemma label_fold l : forall k,
  0 <= k -> k + len l < 2 ^ 64 ->
  match list_ret label_step l k with inl n => (0 <? n) && (n <=? 63) | inr b => b end =
  (1 <=? k + len (head_part host_dot l)) && (k + len (head_part host_dot l) <=? 63) &&
  forallb host_char (head_part host_dot l) &&
  negb ((k =? 0) && bool_decide (head (head_part host_dot l) = Some hyphen)) &&
  forallb label_ok (match rest_part host_dot l with Some l' => split_segs host_dot l' | None => [] end).
Proof.
  induction l as [|c l IH]; intros k H0 Hk.
  { cbn [list_ret head_part rest_part forallb head]. change (len (@nil Z)) with 0.
    rewrite bool_decide_eq_false_2 by done. lia. }
  rewrite len_cons in Hk. pose proof (len_nonneg l). cbn [list_ret]. unfold label_step at 1. cbn [head_part rest_part].
  destruct (c =? host_dot) eqn:Ec.
  - change (len (@nil Z)) with 0. cbn [forallb head]. rewrite (bool_decide_eq_false_2 (None = _)) by done.
    destruct ((k =? 0) || (63 <? k)) eqn:Ek; [lia|]. rewrite IH by lia.
    rewrite (segs_cut host_dot l). cbn [forallb]. unfold label_ok at 2. lia.
  - destruct (host_char c) eqn:Eh; cbn [negb forallb]; rewrite Eh; [|rewrite !andb_false_r; by rewrite ?andb_false_l].
    cbn [head]. rewrite len_cons. pose proof (len_nonneg (head_part host_dot l)).
    destruct (Z.eqb_spec c hyphen) as [->|Hne].
    + rewrite bool_decide_eq_true_2 by done. destruct (Z.eqb_spec k 0) as [->|Hk0]; cbn [andb negb];
        [by rewrite andb_false_r|]. rewrite IH by (rewrite u64_small by lia; lia).
      rewrite u64_small by lia. rewrite (proj2 (Z.eqb_neq (k + 1) 0)) by lia. cbn [andb negb].
      replace (k + 1 + len (head_part host_dot l)) with (k + (1 + len (head_part host_dot l))) by lia. done.
    + rewrite bool_decide_eq_false_2 by congruence. cbn [andb]. rewrite andb_false_r. cbn [negb].
      rewrite IH by (rewrite u64_small by lia; lia).
      rewrite u64_small by lia. rewrite (proj2 (Z.eqb_neq (k + 1) 0)) by lia. cbn [andb negb].
      replace (k + 1 + len (head_part host_dot l)) with (k + (1 + len (head_part host_dot l))) by lia. done.
Qed.

Lemma labels_ends h : forallb label_ok (split_segs host_dot h) = true -> ends_clear host_dot h = true.
Proof.
  intros H. apply (parts_ends host_dot host_char). rewrite forallb_forall in *. intros g Hg. apply H in Hg.
  unfold label_ok, part_ok in *. destruct g; [done|]. rewrite bool_decide_eq_false_2 by done.
  cbn [negb andb]. lia.
Qed.

Lemma valid_host_spec h rest : sl_server_name_is_valid_host (h ++ rest) (len h) = Ok (host_ok h).
Proof.
  unfold sl_server_name_is_valid_host, host_ok. destruct h as [|c s]; [done|].
  destruct (Z.eqb_spec (len (c :: s)) 0) as [E|_]; [len_lia|]. cbn [orb].
  destruct (Z.ltb_spec SL_SERVER_NAME_MAX_LEN (len (c :: s))) as [Hl|Hl].
  { by rewrite (proj2 (Z.leb_gt _ _)) by lia. }
  rewrite (proj2 (Z.leb_le _ SL_SERVER_NAME_MAX_LEN)) by lia. cbn [andb].
  assert (Hload : forall i, 0 <= i < len (c :: s) -> load ((c :: s) ++ rest) i = load (c :: s) i).
  { intros i Hi. destruct (load_in_bounds (c :: s) i Hi) as (v & Ev & _). rewrite Ev. by apply load_prefix. }
  pose proof (len_nonneg s) as Hs. rewrite !Hload by (rewrite len_cons; lia). rewrite ends_guard by done.
  destruct (ends_clear host_dot (c :: s)) eqn:E.
  2: { destruct (forallb _ _) eqn:F; [|done]. apply labels_ends in F. congruence. }
  rewrite len_to_nat, (for_ret_list label_step _ (c :: s) [] rest) by done.
  unfold SL_SERVER_NAME_MAX_LEN in Hl. pose proof (label_fold (c :: s) 0 ltac:(lia) ltac:(lia)) as Hf.
  rewrite (segs_cut host_dot (c :: s)). cbn [forallb]. unfold label_ok at 1.
  change (0 =? 0) with true in Hf. rewrite Z.add_0_l in Hf. cbn [andb] in Hf.
  destruct (list_ret label_step (c :: s) 0) as [n|b]; f_equal; rewrite Hf; by rewrite <- !andb_assoc.
Qed.

(** ** The wire form *)

Definition host_of (sn : sl_server_name_t) : list Z := take (Z.to_nat (sn_host_len sn)) (sn_host sn).
Definition server_name_wire (sn : sl_server_name_t) : list Z := [sn_type sn] ++ be16 (sn_host_len sn) ++ host_of sn.

(** A valid host at the front of an array of the right size. *)
Definition server_name_packable (sn : sl_server_name_t) : Prop :=
  len (host_of sn) = sn_host_len sn /\ host_ok (host_of sn) = true.
Definition server_name_valid (sn : sl_server_name_t) : Prop :=
  is_u8 (sn_type sn) /\ len (host_of sn) = sn_host_len sn /\ host_ok (host_of sn) = true /\
  sn_host sn = host_of sn ++ replicate (Z.to_nat (SL_SERVER_NAME_MAX_LEN + 1 - sn_host_len sn)) 0.

Lemma host_ok_len h : host_ok h = true -> 1 <= len h <= 253.
Proof.
  unfold host_ok, SL_SERVER_NAME_MAX_LEN. intros [H1 H2]%andb_prop. destruct h; [done|]. rewrite len_cons in *.
  pose proof (len_nonneg h). lia.
Qed.

Lemma host_array sn :
  server_name_packable sn -> exists rest, sn_host sn = host_of sn ++ rest /\ 1 <= sn_host_len sn <= 253.
Proof.
  intros [Hl Hk]. exists (drop (Z.to_nat (sn_host_len sn)) (sn_host sn)). unfold host_of at 1. rewrite take_drop.
  split; [done|]. apply host_ok_len in Hk. lia.
Qed.

Lemma len_server_name_wire sn : server_name_packable sn -> len (server_name_wire sn) = 3 + sn_host_len sn.
Proof. intros [Hl _]. unfold server_name_wire. autorewrite with len. change (len [sn_type sn]) with 1. lia. Qed.

Lemma server_name_valid_packable sn : server_name_valid sn -> server_name_packable sn.
Proof. by intros (_ & H1 & H2 & _). Qed.

Lemma pack_guard sn : server_name_packable sn ->
  sl_server_name_is_valid_host (sn_host sn) (sn_host_len sn) = Ok true.
Proof.
  intros Hp. destruct (host_array sn Hp) as (rest & E & _). destruct Hp as [Hl Hk]. rewrite E, <- Hl at 1.
  rewrite valid_host_spec, Hk. done.
Qed.

Lemma server_name_pack_fits sn out :
  server_name_packable sn -> len (server_name_wire sn) <= len out ->
  sl_server_name_pack sn out =
  Ok (len (server_name_wire sn), server_name_wire sn ++ drop (length (server_name_wire sn)) out).
Proof.
  intros Hp Hlen. pose proof (len_server_name_wire sn Hp) as Hw. unfold sl_server_name_pack. rewrite pack_guard by done.
  destruct (host_array sn Hp) as (rest & E & Hr). destruct Hp as [Hl Hk]. cbn [negb].
  rewrite (proj2 (Z.ltb_ge _ _)) by lia.
  assert (Hb : [u8 (sn_host_len sn ≫ 8)] ++ [u8 (Z.land (sn_host_len sn) 0xFF)] = be16 (sn_host_len sn)).
  { unfold be16. cbn [app]. do 2 f_equal. change 0xFF with (Z.ones 8). rewrite Z.land_ones by lia.
    unfold u8. by rewrite Z.mod_mod by lia. }
  assert (El : load_bytes (sn_host sn) 0 (sn_host_len sn) = Ok (host_of sn)) by (rewrite E; by apply load_bytes_front).
  rewrite El.
  assert (Hw' : len ([sn_type sn] ++ be16 (sn_host_len sn) ++ host_of sn) = 3 + sn_host_len sn) by exact Hw.
  change out with ([] ++ out) at 1. fill. unfold server_name_wire. rewrite Hw', <- Hb, <- !app_assoc.
  by rewrite !length_app.
Qed.

Lemma server_name_pack_short sn out :
  server_name_packable sn -> len out < len (server_name_wire sn) -> sl_server_name_pack sn out = Ok (-1, out).
Proof.
  intros Hp Hl. rewrite len_server_name_wire in Hl by done. unfold sl_server_name_pack. rewrite pack_guard by done.
  cbn [negb]. by rewrite (proj2 (Z.ltb_lt _ _)) by lia.
Qed.

Lemma server_name_unpack_wire sn rest :
  server_name_valid sn -> sl_server_name_unpack (server_name_wire sn ++ rest) = Ok (Some sn).
Proof.
  intros Hv. pose proof (server_name_valid_packable sn Hv) as Hp. pose proof (len_server_name_wire sn Hp) as Hw.
  destruct (host_array sn Hp) as (_ & _ & Hr). destruct Hv as (Ht & Hl & Hk & Ea). pose proof (len_nonneg rest).
  unfold sl_server_name_unpack. rewrite len_app, Hw. rewrite (proj2 (Z.ltb_ge _ 3)) by lia.
  unfold server_name_wire. rewrite <- !app_assoc. unfold SL_SERVER_NAME_MAX_LEN in *.
  repeat first [read_step | test_step].
  destruct (name_into_zeros (host_of sn) (253 + 1)) as (a & -> & E); [lia|]. rewrite Hl in E. rewrite E, <- Ea.
  rewrite u8_small by lia. rewrite pack_guard by done. cbn [negb]. by destruct sn.
Qed.

Lemma server_name_unpack_sound inp :
  bytes_ok inp ->
  accepts (sl_server_name_unpack inp)
    (fun sn => server_name_valid sn /\ exists rest, inp = server_name_wire sn ++ rest).
Proof.
  intros Hb. unfold sl_server_name_unpack, SL_SERVER_NAME_MAX_LEN. repeat first [branch_step | sound_step].
  destruct (name_into_zeros bs (253 + 1)) as (a & -> & E); [lia|]. rewrite L in E. rewrite E.
  rewrite u8_small by lia. pose proof (valid_host_spec bs (replicate (Z.to_nat (253 + 1 - v0)) 0)) as Es. rewrite L in Es. rewrite Es.
  destruct (host_ok bs) eqn:Hk; cbn [negb]; [|apply accepts_none]. apply accepts_some.
  assert (Eh : host_of (mk_server_name v (bs ++ replicate (Z.to_nat (253 + 1 - v0)) 0) v0) = bs).
  { unfold host_of. cbn [sn_host sn_host_len]. apply take_app_exact. lia. }
  split.
  - unfold server_name_valid. rewrite Eh. cbn [sn_type sn_host sn_host_len]. by repeat (split; [done|]).
  - exists (drop (Z.to_nat (3 + v0)) inp). unfold server_name_wire. rewrite Eh. cbn [sn_type sn_host_len]. by consume inp.
Qed.

#[export] Instance server_name_format : WireFormat sl_server_name_t := {|
  wire := server_name_wire;
  packable := server_name_packable;
  valid := server_name_valid;
  pack := sl_server_name_pack;
  unpack := sl_server_name_unpack;
  valid_packable := server_name_valid_packable;
  pack_fits := server_name_pack_fits;
  pack_short := server_name_pack_short;
  unpack_wire := server_name_unpack_wire;
  unpack_valid := fun inp Hb => accepts_impl _ _ _ (server_name_unpack_sound inp Hb) (fun sn => @proj1 _ _)
|}.
#[export] Instance server_name_canonical : CanonicalFormat sl_server_name_t.
Proof. intros inp Hb. eapply accepts_impl; [by apply server_name_unpack_sound|]. by intros r [_ ?]. Qed.

(** the server name extension and its validator.  On any bytes the decoder stays in bounds and
    accepts only a host of dotted labels (1 to 63 letters, digits and hyphens, no leading hyphen,
    at most 253 characters), and then the bytes it took are exactly what the encoder writes for
    the result; and what the encoder writes, the decoder reads back. *)
Theorem server_name_exact inp :
  bytes_ok inp ->
  exists r, sl_server_name_unpack inp = Ok r /\
    (forall sn, r = Some sn ->
       host_ok (host_of sn) = true /\
       exists rest, inp = server_name_wire sn ++ rest /\
         sl_server_name_pack sn (replicate (length (server_name_wire sn)) 0) =
           Ok (len (server_name_wire sn), server_name_wire sn)) /\
    (forall sn rest, server_name_valid sn -> inp = server_name_wire sn ++ rest -> r = Some sn).
Proof.
  intros Hb. destruct (server_name_unpack_sound inp Hb) as (r & Er & Hr). exists r. split_and!; [done| |].
  - intros sn ->. destruct Hr as [Hv [rest E]]. split; [apply Hv|]. exists rest. split; [done|].
    rewrite server_name_pack_fits; [|by apply server_name_valid_packable|rewrite len_replicate; unfold len; lia].
    by rewrite drop_ge, app_nil_r by (rewrite length_replicate; lia).
  - intros sn rest Hv ->. rewrite server_name_unpack_wire in Er by done. congruence.
Qed.

Lemma server_name_exact_witness :
  exists r, sl_server_name_unpack [0; 0; 3; 97; 46; 98; 9] = Ok r /\
    (forall sn, r = Some sn ->
       host_ok (host_of sn) = true /\
       exists rest, [0; 0; 3; 97; 46; 98; 9] = server_name_wire sn ++ rest /\
         sl_server_name_pack sn (replicate (length (server_name_wire sn)) 0) =
           Ok (len (server_name_wire sn), server_name_wire sn)) /\
    (forall sn rest, server_name_valid sn -> [0; 0; 3; 97; 46; 98; 9] = server_name_wire sn ++ rest -> r = Some sn).
Proof. apply (server_name_exact [0; 0; 3; 97; 46; 98; 9]). by_deciding. Defined.

(** A label may end with a hyphen, which RFC 1123 does not allow. *)
Lemma trailing_hyphen_accepted : sl_server_name_is_valid_host [97; 45] 2 = Ok true.
Proof. by vm_compute. Qed.
