(* ===== verification/Negotiate.v ===== *)
(** Version and cipher-suite negotiation ([inc/sl_version.h], [src/sl_version.c],
    [inc/sl_cipher.h], [src/sl_cipher.c]). Both modules keep a table of at most eight
    16-bit identifiers, with the same code over different field names; the shared
    operations are defined once. The theorems follow an offer over the wire to the choice
    the other side makes. *)

From Stdlib Require Import String.
From S2P Require Import Prelude ByteOrder Codec.
Local Open Scope Z_scope.

(* src/inc/sl_cipher.h:27-27 *)
Definition SL_CIPHER_LIST_MAX : Z := 8.
(* src/inc/sl_cipher.h:24-24 *)
Definition SL_CIPHER_AES256_GCM_SHA256 : Z := 0x0001.
(* src/inc/sl_cipher.h:25-25 *)
Definition SL_CIPHER_CHACHA20_POLY1305 : Z := 0x0002.
(* src/inc/sl_version.h:22-23 *)
Definition SL_VERSION_CURRENT : Z := 0x0100.

(** The struct: [suites] of the one module, [versions] of the other. *)
(* src/inc/sl_cipher.h:29-32 *)
Record sl_cipher_list_t := mk_idl {
  suites : list Z;
  idl_count : Z
}.
(* src/inc/sl_version.h:25-28 *)
Definition sl_version_list_t : Type := sl_cipher_list_t.

(* src/src/sl_cipher.c:5-8 *)
Definition sl_cipher_list_init : sl_cipher_list_t :=
  mk_idl (replicate (Z.to_nat SL_CIPHER_LIST_MAX) 0) 0.

(* src/src/sl_cipher.c:20-26 *)
Definition sl_cipher_list_has (l : sl_cipher_list_t) (suite : Z) : M bool :=
  let! r := for_ret (Z.to_nat (idl_count l)) 0 (fun i (_ : unit) =>
    let! s := load (suites l) i in
    Ok (if s =? suite then inr true else inl tt)) tt in
  match r with inr b => Ok b | inl _ => Ok false end.

(* src/src/sl_cipher.c:10-18 *)
Definition sl_cipher_list_add (l : sl_cipher_list_t) (suite : Z) : M (Z * sl_cipher_list_t) :=
  if SL_CIPHER_LIST_MAX <=? idl_count l then Ok (-1, l)
  else
    let! r := for_ret (Z.to_nat (idl_count l)) 0 (fun i (_ : unit) =>
      let! s := load (suites l) i in
      Ok (if s =? suite then inr tt else inl tt)) tt in
    match r with
    | inr _ => Ok (0, l)
    | inl _ =>
        let! ss := store (suites l) (idl_count l) suite in
        Ok (0, mk_idl ss (u8 (idl_count l + 1)))
    end.

(* src/src/sl_cipher.c:28-39 *)
Definition sl_cipher_list_encode (l : sl_cipher_list_t) (out : list Z) : M (Z * list Z) :=
  let need := 1 + idl_count l * 2 in
  if len out <? need then Ok (-1, out)
  else
    let! out := store out 0 (idl_count l) in
    let! out := for_up (Z.to_nat (idl_count l)) 0 (fun i out =>
      let! s := load (suites l) i in
      let! out := store out (1 + 2 * i) (u8 (s ≫ 8)) in
      store out (1 + 2 * i + 1) (u8 (Z.land s 0xFF))) out in
    Ok (need, out).

(* src/src/sl_cipher.c:41-54 *)
Definition sl_cipher_list_decode (inp : list Z) : M (Z * sl_cipher_list_t) :=
  let out := sl_cipher_list_init in
  if len inp <? 1 then Ok (-1, out)
  else
    let! count := load inp 0 in
    if SL_CIPHER_LIST_MAX <? count then Ok (-1, out)
    else if len inp <? 1 + count * 2 then Ok (-1, out)
    else
      let! out := for_up (Z.to_nat count) 0 (fun i out =>
        let! s := unpack_u16 inp (1 + 2 * i) in
        let! '(_, out) := sl_cipher_list_add out s in
        Ok out) out in
      Ok (0, out).

(* src/src/sl_cipher.c:76-79 *)
Definition sl_cipher_is_supported (suite : Z) : bool := suite =? SL_CIPHER_AES256_GCM_SHA256.

(* src/src/sl_cipher.c:56-66 *)
Definition sl_cipher_choose (server_pref client_offered : sl_cipher_list_t) : M Z :=
  let! r := for_ret (Z.to_nat (idl_count server_pref)) 0 (fun i (_ : unit) =>
    let! s := load (suites server_pref) i in
    let! h := sl_cipher_list_has client_offered s in
    Ok (if h && sl_cipher_is_supported s then inr s else inl tt)) tt in
  match r with inr s => Ok s | inl _ => Ok 0 end.

(* src/src/sl_cipher.c:68-74 *)
Definition sl_cipher_name (suite : Z) : string :=
  if suite =? SL_CIPHER_AES256_GCM_SHA256 then "AES256-GCM-SHA256"
  else if suite =? SL_CIPHER_CHACHA20_POLY1305 then "CHACHA20-POLY1305"
  else "unknown".

(** The version module repeats the code of the table. *)
(* src/src/sl_version.c:5-8 *)
Definition sl_version_list_init : sl_version_list_t := sl_cipher_list_init.
(* src/src/sl_version.c:10-18 *)
Definition sl_version_list_add : sl_version_list_t -> Z -> M (Z * sl_version_list_t) := sl_cipher_list_add.
(* src/src/sl_version.c:20-26 *)
Definition sl_version_list_has : sl_version_list_t -> Z -> M bool := sl_cipher_list_has.
(* src/src/sl_version.c:28-39 *)
Definition sl_version_list_encode : sl_version_list_t -> list Z -> M (Z * list Z) := sl_cipher_list_encode.
(* src/src/sl_version.c:41-55 *)
Definition sl_version_list_decode : list Z -> M (Z * sl_version_list_t) := sl_cipher_list_decode.

(* src/src/sl_version.c:57-66 *)
Definition sl_version_choose (a b : sl_version_list_t) : M Z :=
  for_up (Z.to_nat (idl_count a)) 0 (fun i best =>
    let! v := load (suites a) i in
    let! h := sl_version_list_has b v in
    Ok (if h && (best <? v) then v else best)) 0.

(** ** The table as a list of distinct identifiers *)

Definition ids (l : list Z) : sl_cipher_list_t :=
  mk_idl (l ++ replicate (Z.to_nat (SL_CIPHER_LIST_MAX - len l)) 0) (len l).

Definition ids_ok (l : list Z) : Prop := NoDup l /\ len l <= SL_CIPHER_LIST_MAX /\ Forall (fun s => is_u16 s) l.

Definition add1 (l : list Z) (s : Z) : list Z := if decide (s ∈ l) then l else l ++ [s].

(** The documented layout. *)
Definition ids_wire (l : list Z) : list Z := len l :: concat (map be16 l).

Lemma ids_count l : Z.to_nat (idl_count (ids l)) = length l.
Proof. apply len_to_nat. Qed.

Lemma search_spec {R} (r : R) l s :
  list_ret (fun c (_ : unit) => if c =? s then inr r else inl tt) l tt = if decide (s ∈ l) then inr r else inl tt.
Proof.
  induction l as [|c l IH]; cbn [list_ret]; [by rewrite decide_False by apply not_elem_of_nil|].
  destruct (Z.eqb_spec c s) as [->|]; [by rewrite decide_True by (apply list_elem_of_here)|]. rewrite IH.
  apply decide_ext. set_solver.
Qed.

Lemma list_has_spec l s : sl_cipher_list_has (ids l) s = Ok (bool_decide (s ∈ l)).
Proof.
  unfold sl_cipher_list_has. rewrite ids_count.
  rewrite (for_ret_list (fun c (_ : unit) => if c =? s then inr true else inl tt) _ l [] (replicate _ 0) tt)
    by (intros ? []; done).
  rewrite search_spec. by destruct (decide (s ∈ l)); [rewrite bool_decide_true|rewrite bool_decide_false].
Qed.

Lemma list_add_spec l s : len l < SL_CIPHER_LIST_MAX -> sl_cipher_list_add (ids l) s = Ok (0, ids (add1 l s)).
Proof.
  intros Hl. unfold sl_cipher_list_add. rewrite (proj2 (Z.leb_gt _ _)) by done. rewrite ids_count.
  rewrite (for_ret_list (fun c (_ : unit) => if c =? s then inr tt else inl tt) _ l [] (replicate _ 0) tt)
    by (intros ? []; done).
  rewrite search_spec. unfold add1. destruct (decide _); [done|]. cbn [ids suites idl_count].
  unfold SL_CIPHER_LIST_MAX in *. pose proof (len_nonneg l).
  replace (Z.to_nat (8 - len l)) with (S (Z.to_nat (8 - len (l ++ [s])))) by len_lia.
  cbn [replicate]. rewrite store_app_at by done. unfold ids, SL_CIPHER_LIST_MAX. do 2 f_equal. f_equal.
  - by rewrite <- app_assoc.
  - rewrite len_app. apply u8_small. unfold len in *. simpl. lia.
Qed.

Lemma add_full l s : len l = SL_CIPHER_LIST_MAX -> sl_cipher_list_add (ids l) s = Ok (-1, ids l).
Proof. intros Hl. unfold sl_cipher_list_add. cbn [idl_count ids]. by rewrite Hl. Qed.

(** ** Over the wire *)

Lemma len_codes l : len (concat (map be16 l)) = 2 * len l.
Proof. induction l as [|x l IH]; [done|]. cbn [map concat]. rewrite len_app, len_cons, IH, len_be16. lia. Qed.
#[local] Hint Rewrite len_codes : len.

Lemma len_ids_wire l : len (ids_wire l) = 1 + 2 * len l.
Proof. unfold ids_wire. autorewrite with len. lia. Qed.

Definition encode_body (ss : list Z) (i : Z) (out : list Z) : M (list Z) :=
  let! s := load ss i in
  let! out := store out (1 + 2 * i) (u8 (s ≫ 8)) in
  store out (1 + 2 * i + 1) (u8 (Z.land s 0xFF)).

Lemma encode_body_spec l0 s post w rest :
  len w = 1 + 2 * len l0 -> 2 <= len rest ->
  encode_body (l0 ++ s :: post) (len l0) (w ++ rest) = Ok ((w ++ be16 s) ++ drop 2 rest).
Proof.
  intros Hw Hr. destruct rest as [|x [|y rest]]; [done..|].
  unfold encode_body. rewrite load_app_mid. cbv beta iota. rewrite store_app_at by done. cbv beta iota.
  change (w ++ u8 (s ≫ 8) :: y :: rest) with (w ++ [u8 (s ≫ 8)] ++ y :: rest). rewrite app_assoc.
  rewrite store_app_at by len_lia. rewrite <- !app_assoc. cbn [app be16 drop].
  change 0xFF with (Z.ones 8). rewrite Z.land_ones by lia. change (s mod 2 ^ 8) with (u8 s).
  by rewrite (u8_small (u8 s)) by apply u8_range.
Qed.

Lemma list_encode_loop l : forall l0 post w rest,
  len w = 1 + 2 * len l0 -> 2 * len l <= len rest ->
  for_up (length l) (len l0) (encode_body (l0 ++ l ++ post)) (w ++ rest) =
  Ok ((w ++ concat (map be16 l)) ++ drop (2 * length l) rest).
Proof.
  induction l as [|s l IH]; intros l0 post w rest Hw Hr; [by rewrite app_nil_r|]. rewrite len_cons in Hr.
  pose proof (len_nonneg l). cbn [length for_up]. cbn [app]. rewrite encode_body_spec by (done || lia). cbv beta iota.
  replace (len l0 + 1) with (len (l0 ++ [s])) by len_lia.
  change (l0 ++ s :: l ++ post) with (l0 ++ [s] ++ l ++ post). rewrite (app_assoc l0).
  rewrite IH; [|len_lia|rewrite len_drop_nat; lia].
  rewrite drop_drop. cbn [map concat]. rewrite <- !app_assoc. repeat f_equal. lia.
Qed.

Lemma list_encode_spec l out :
  len l <= SL_CIPHER_LIST_MAX -> len (ids_wire l) <= len out ->
  sl_cipher_list_encode (ids l) out = Ok (len (ids_wire l), ids_wire l ++ drop (length (ids_wire l)) out).
Proof.
  rewrite len_ids_wire. intros Hl Ho. pose proof (len_nonneg l). destruct out as [|b out]; [unfold len in Ho; simpl in Ho; lia|].
  rewrite len_cons in Ho. unfold sl_cipher_list_encode. cbn [ids idl_count suites]. rewrite (proj2 (Z.ltb_ge _ _)) by len_lia.
  change (b :: out) with ([] ++ b :: out). rewrite store_app_at by done. cbv beta iota. fold (encode_body (l ++ replicate (Z.to_nat (SL_CIPHER_LIST_MAX - len l)) 0)).
  rewrite len_to_nat. pose proof (list_encode_loop l [] (replicate (Z.to_nat (SL_CIPHER_LIST_MAX - len l)) 0) [len l] out eq_refl ltac:(lia)) as E.
  change (len []) with 0 in E. cbn [app] in *. rewrite E. do 2 f_equal; [lia|]. unfold ids_wire. cbn [app length drop]. do 3 f_equal.
  pose proof (len_codes l). unfold len in *. lia.
Qed.

Lemma encode_no_room l out : len out < len (ids_wire l) -> sl_cipher_list_encode (ids l) out = Ok (-1, out).
Proof.
  rewrite len_ids_wire. intros Ho. unfold sl_cipher_list_encode. cbn [ids idl_count].
  by rewrite (proj2 (Z.ltb_lt _ _)) by lia.
Qed.

Lemma len_add1 l s : len (add1 l s) <= len l + 1.
Proof. unfold add1. case_decide; len_lia. Qed.

Definition decode_body (inp : list Z) (i : Z) (out : sl_cipher_list_t) : M sl_cipher_list_t :=
  let! s := unpack_u16 inp (1 + 2 * i) in
  let! '(_, out) := sl_cipher_list_add out s in
  Ok out.

(** Decoding adds the identifiers one by one; at most eight, so none is refused. *)
Lemma list_decode_loop l : forall acc k w post,
  Forall (fun s => is_u16 s) l -> len w = 1 + 2 * k -> len acc + len l <= SL_CIPHER_LIST_MAX ->
  for_up (length l) k (decode_body (w ++ concat (map be16 l) ++ post)) (ids acc) = Ok (ids (foldl add1 acc l)).
Proof.
  induction l as [|s l IH]; intros acc k w post Hl Hw Ha; [done|]. inversion_clear Hl. rewrite len_cons in Ha.
  pose proof (len_nonneg l). pose proof (len_add1 acc s). cbn [length for_up map concat foldl]. unfold decode_body at 1.
  rewrite <- (app_assoc (be16 s)). rewrite unpack_u16_at by done. cbv beta iota. rewrite list_add_spec by lia. cbv beta iota.
  rewrite app_assoc. apply IH; [done|len_lia|lia].
Qed.

Lemma decode_wire l rest :
  len l <= SL_CIPHER_LIST_MAX -> Forall (fun s => is_u16 s) l ->
  sl_cipher_list_decode (ids_wire l ++ rest) = Ok (0, ids (foldl add1 [] l)).
Proof.
  intros Hl Hu. unfold sl_cipher_list_decode. pose proof (len_nonneg rest). pose proof (len_nonneg l).
  rewrite (proj2 (Z.ltb_ge _ 1)) by (rewrite len_app, len_ids_wire; lia).
  change (load (ids_wire l ++ rest) 0) with (Ok (len l)). cbv beta iota.
  rewrite (proj2 (Z.ltb_ge _ (len l))) by done.
  rewrite (proj2 (Z.ltb_ge _ (1 + len l * 2))) by (rewrite len_app, len_ids_wire; lia). rewrite len_to_nat.
  fold (decode_body (ids_wire l ++ rest)). change sl_cipher_list_init with (ids []).
  change (ids_wire l ++ rest) with ([len l] ++ concat (map be16 l) ++ rest).
  by rewrite list_decode_loop by (done || (change (len []) with 0; lia)).
Qed.

(** Every input is refused or is the encoding of at most eight identifiers, with
    anything after it ignored. *)
Lemma codes_of_bytes n : forall bs, bytes_ok bs -> 2 * Z.of_nat n <= len bs ->
  exists l, length l = n /\ Forall (fun s => is_u16 s) l /\ bs = concat (map be16 l) ++ drop (2 * n) bs.
Proof.
  induction n as [|n IH]; intros bs Hb Hn; [by exists []|].
  destruct bs as [|x [|y bs]]; [unfold len in Hn; simpl in Hn; lia..|]. rewrite !len_cons in Hn.
  inversion_clear Hb as [|?? Hx Hb1]. inversion_clear Hb1 as [|?? Hy Hb2].
  destruct (IH bs Hb2 ltac:(lia)) as (l & Hl & Hu & E). exists ((x * 256 + y) :: l). split; [by rewrite <- Hl|]. split.
  - constructor; [lia|done].
  - cbn [map concat]. rewrite be16_of_bytes by done. replace (2 * S n)%nat with (S (S (2 * n))) by lia. cbn [drop app]. by rewrite <- E.
Qed.

Lemma list_decode_spec inp :
  bytes_ok inp ->
  sl_cipher_list_decode inp = Ok (-1, sl_cipher_list_init) \/
  exists l rest, inp = ids_wire l ++ rest /\ len l <= SL_CIPHER_LIST_MAX /\ Forall (fun s => is_u16 s) l /\
    sl_cipher_list_decode inp = Ok (0, ids (foldl add1 [] l)).
Proof.
  intros Hb. unfold sl_cipher_list_decode at 1. destruct (Z.ltb_spec (len inp) 1); [by left|].
  destruct inp as [|c bs]; [by unfold len in *|]. change (load (c :: bs) 0) with (Ok c). cbv beta iota.
  destruct (Z.ltb_spec SL_CIPHER_LIST_MAX c) as [|Hc]; [by left|].
  destruct (Z.ltb_spec (len (c :: bs)) (1 + c * 2)) as [|Hn]; [by left|]. rewrite len_cons in Hn. right.
  inversion_clear Hb as [|?? Hc8 Hbs]. destruct (codes_of_bytes (Z.to_nat c) bs Hbs ltac:(lia)) as (l & Hl & Hu & E).
  assert (c = len l) as -> by (unfold len; lia). exists l, (drop (2 * Z.to_nat (len l)) bs).
  assert (Ei : len l :: bs = ids_wire l ++ drop (2 * Z.to_nat (len l)) bs) by (unfold ids_wire; cbn [app]; by rewrite <- E).
  repeat (split; [done|]). rewrite Ei. by apply decode_wire.
Qed.

Lemma add1_nodup l s : NoDup l -> NoDup (add1 l s).
Proof.
  intros H. unfold add1. case_decide as Hs; [done|]. apply NoDup_app. split; [done|]. split; [set_solver|apply NoDup_singleton].
Qed.

Lemma add1_new acc l : NoDup (acc ++ l) -> foldl add1 acc l = acc ++ l.
Proof.
  revert acc. induction l as [|s l IH]; intros acc H; [by rewrite app_nil_r|]. cbn [foldl].
  assert (Hs : s ∉ acc) by (apply NoDup_app in H as (_ & H & _); set_solver).
  unfold add1 at 2. rewrite decide_False by done. rewrite IH; rewrite <- app_assoc; done.
Qed.

(** ** The choices *)

Definition eligible (lc : list Z) (s : Z) : bool := bool_decide (s ∈ lc) && sl_cipher_is_supported s.

Lemma cipher_choose_list ls lc :
  sl_cipher_choose (ids ls) (ids lc) =
  Ok match list_ret (fun s (_ : unit) => if eligible lc s then inr s else inl tt) ls tt with
     | inr s => s | inl _ => 0 end.
Proof.
  unfold sl_cipher_choose. rewrite ids_count.
  rewrite (for_ret_list (fun s (_ : unit) => if eligible lc s then inr s else inl tt) _ ls [] (replicate (Z.to_nat (SL_CIPHER_LIST_MAX - len ls)) 0) tt).
  - by destruct (list_ret _ _ _).
  - intros i []. cbn [ids suites app]. destruct (load _ i); [|done]. cbv beta iota. by rewrite list_has_spec.
Qed.

(** The server's first choice among what it can use and the client offers. *)
Lemma cipher_choose_spec ls lc :
  exists s, sl_cipher_choose (ids ls) (ids lc) = Ok s /\
    ((exists l1 l2, ls = l1 ++ s :: l2 /\ eligible lc s = true /\ Forall (fun t => eligible lc t = false) l1) \/
     (s = 0 /\ Forall (fun t => eligible lc t = false) ls)).
Proof.
  rewrite cipher_choose_list. eexists. split; [done|].
  induction ls as [|t ls IH]; cbn [list_ret]; [by right|]. destruct (eligible lc t) eqn:Et.
  - left. by exists [], ls.
  - destruct IH as [(l1 & l2 & E & He & Hf)|[E Hf]].
    + left. exists (t :: l1), l2. split; [cbn [app]; by f_equal|]. split; [done|by constructor].
    + right. split; [done|by constructor].
Qed.

Lemma version_choose_fold (la lb : list Z) :
  sl_version_choose (ids la) (ids lb) =
  Ok (foldl (fun best v => if bool_decide (v ∈ lb) && (best <? v) then v else best) 0 la).
Proof.
  unfold sl_version_choose. rewrite ids_count.
  apply (for_up_list (fun v best => if bool_decide (v ∈ lb) && (best <? v) then v else best) _ la [] (replicate (Z.to_nat (SL_CIPHER_LIST_MAX - len la)) 0) 0).
  intros i best. cbn [ids suites app]. destruct (load _ i); [|done]. cbv beta iota. unfold sl_version_list_has. by rewrite list_has_spec.
Qed.

Lemma best_fold (lb la : list Z) : forall b,
  let v := foldl (fun best v => if bool_decide (v ∈ lb) && (best <? v) then v else best) b la in
  b <= v /\ (forall w, w ∈ la -> w ∈ lb -> w <= v) /\ (v = b \/ (v ∈ la /\ v ∈ lb)).
Proof.
  induction la as [|x la IH]; intros b; cbn [foldl]; [split; [lia|]; split; [intros w H; by apply not_elem_of_nil in H|by left]|].
  set (b' := if _ : bool then x else b). specialize (IH b') as (H1 & H2 & H3).
  assert (Hb : b <= b' /\ (x ∈ lb -> x <= b') /\ (b' = b \/ (b' = x /\ x ∈ lb))).
  { subst b'. case_bool_decide; cbn [andb]; [destruct (Z.ltb_spec b x)|]; cbv iota;
      (split; [lia|]; split; [intros ?; first [lia | contradiction]|auto]). }
  split; [lia|]. split.
  - intros w [->|Hw]%elem_of_cons Hl; [specialize (proj1 (proj2 Hb) Hl); lia|by apply H2].
  - destruct H3 as [->|[]]; [|right; split; [by right|done]]. destruct Hb as (_ & _ & [->|[-> ?]]); [by left|right].
    split; [by left|done].
Qed.

Lemma version_choose_spec la lb :
  Forall (fun s => is_u16 s) la ->
  exists v, sl_version_choose (ids la) (ids lb) = Ok v /\ 0 <= v /\
    (forall w, w ∈ la -> w ∈ lb -> w <= v) /\ (v = 0 \/ (v ∈ la /\ v ∈ lb)).
Proof. intros _. rewrite version_choose_fold. eexists. split; [done|]. apply (best_fold lb la 0). Qed.

(** Both sides compute the same version. *)
Lemma version_choose_sym la lb : sl_version_choose (ids la) (ids lb) = sl_version_choose (ids lb) (ids la).
Proof.
  rewrite !version_choose_fold. f_equal.
  destruct (best_fold lb la 0) as (A1 & A2 & A3), (best_fold la lb 0) as (B1 & B2 & B3).
  apply Z.le_antisymm.
  - destruct A3 as [->|[]]; [done|by apply B2].
  - destruct B3 as [->|[]]; [done|by apply A2].
Qed.

(** Negotiation reaches the documented choice. A client's offer of distinct identifiers,
    encoded into any buffer with room, is decoded by the server as the same offer; the
    cipher suite the server then picks is the first of its own preference list that the
    client offers and the code supports, and 0 only if there is none; the version is the
    highest both sides list, 0 only if they share none but 0, and either side computes the
    same one. *)
Theorem negotiation_exact ls lc out :
  ids_ok lc -> ids_ok ls -> len (ids_wire lc) <= len out ->
  exists n w, sl_cipher_list_encode (ids lc) out = Ok (n, w) /\
    sl_cipher_list_decode (take (Z.to_nat n) w) = Ok (0, ids lc) /\
    (exists s, sl_cipher_choose (ids ls) (ids lc) = Ok s /\
      ((exists l1 l2, ls = l1 ++ s :: l2 /\ s ∈ lc /\ sl_cipher_is_supported s = true /\
          Forall (fun t => eligible lc t = false) l1) \/
       (s = 0 /\ Forall (fun t => eligible lc t = false) ls))) /\
    (exists v, sl_version_choose (ids ls) (ids lc) = Ok v /\ sl_version_choose (ids lc) (ids ls) = Ok v /\
      (forall w, w ∈ ls -> w ∈ lc -> w <= v) /\ (v = 0 \/ (v ∈ ls /\ v ∈ lc))).
Proof.
  intros (Hc1 & Hc2 & Hc3) (_ & _ & Hs3) Ho. rewrite list_encode_spec by done. eexists _, _. split; [done|]. split.
  { rewrite len_to_nat, take_app_length, <- (app_nil_r (ids_wire lc)), decode_wire by done.
    by rewrite add1_new by done. }
  split.
  - destruct (cipher_choose_spec ls lc) as (s & E & H). exists s. split; [done|].
    destruct H as [(l1 & l2 & H1 & [H2 H3]%andb_prop & H4)|H]; [left|by right].
    exists l1, l2. apply bool_decide_eq_true in H2. done.
  - destruct (version_choose_spec ls lc Hs3) as (v & E & _ & H). exists v. by rewrite (version_choose_sym lc ls).
Qed.

Lemma negotiation_exact_witness :
  ids_ok [2; 1] /\ exists n w, sl_cipher_list_encode (ids [2; 1]) (replicate 17 7) = Ok (n, w) /\ n = 5.
Proof.
  assert (H : ids_ok [2; 1]) by (split; [apply (bool_decide_unpack _); vm_compute; exact I|split; [by vm_compute|repeat constructor; lia]]).
  split; [done|]. destruct (negotiation_exact [2; 1] [2; 1] (replicate 17 7) H H) as (n & w & E & _); [by vm_compute|].
  exists n, w. split; [done|]. vm_compute in E. congruence.
Defined.

(** With a full table, even a suite that is already listed is refused, although a
    duplicate is otherwise accepted. *)
Example full_list_refuses_member :
  sl_cipher_list_add (ids [1; 2; 3; 4; 5; 6; 7]) 1 = Ok (0, ids [1; 2; 3; 4; 5; 6; 7]) /\
  sl_cipher_list_add (ids [1; 2; 3; 4; 5; 6; 7; 8]) 1 = Ok (-1, ids [1; 2; 3; 4; 5; 6; 7; 8]).
Proof. done. Qed.
