(* ===== verification/Alert.v ===== *)
(** Alerts and diagnostic codes ([inc/sl_alert.h], [src/sl_alert.c],
    [inc/sl_diag_code.h], [src/sl_diag_code.c], [inc/sl_alert_ext.h],
    [src/sl_alert_ext.c], [inc/sl_close_notify.h], [src/sl_close_notify.c]). The two enums
    are integers, as a C enum read from the wire may hold any value; their enumerators are
    constants. *)

From Stdlib Require Import String.
From stdpp Require Import strings.
From S2P Require Import Prelude ByteOrder Codec.
Local Open Scope Z_scope.

(* src/inc/sl_alert.h:19-19 *)
Definition SL_ALERT_LEVEL_WARNING : Z := 1.
(* src/inc/sl_alert.h:20-20 *)
Definition SL_ALERT_LEVEL_FATAL : Z := 2.

(* src/inc/sl_alert.h:23-23 *)
Definition SL_ALERT_CLOSE_NOTIFY : Z := 0.
(* src/inc/sl_alert.h:24-24 *)
Definition SL_ALERT_UNEXPECTED_RECORD : Z := 10.
(* src/inc/sl_alert.h:25-25 *)
Definition SL_ALERT_BAD_RECORD_MAC : Z := 20.
(* src/inc/sl_alert.h:26-26 *)
Definition SL_ALERT_RECORD_OVERFLOW : Z := 22.
(* src/inc/sl_alert.h:27-27 *)
Definition SL_ALERT_HANDSHAKE_FAILURE : Z := 40.
(* src/inc/sl_alert.h:28-28 *)
Definition SL_ALERT_BAD_CERTIFICATE : Z := 42.
(* src/inc/sl_alert.h:29-29 *)
Definition SL_ALERT_DECRYPT_ERROR : Z := 51.
(* src/inc/sl_alert.h:30-30 *)
Definition SL_ALERT_PROTOCOL_VERSION : Z := 70.
(* src/inc/sl_alert.h:31-31 *)
Definition SL_ALERT_INTERNAL_ERROR : Z := 80.
(* src/inc/sl_alert.h:32-32 *)
Definition SL_ALERT_USER_CANCELED : Z := 90.
(* src/inc/sl_alert.h:33-33 *)
Definition SL_ALERT_RATE_LIMITED : Z := 100.
(* src/inc/sl_alert.h:34-34 *)
Definition SL_ALERT_REPLAY : Z := 101.
(* src/inc/sl_alert.h:35-35 *)
Definition SL_ALERT_QUARANTINED : Z := 102.

(* src/inc/sl_diag_code.h:24-24 *)
Definition SL_DIAG_OK : Z := 0x0000.
(* src/inc/sl_diag_code.h:27-27 *)
Definition SL_DIAG_VERSION_MISMATCH : Z := 0x1001.
(* src/inc/sl_diag_code.h:28-28 *)
Definition SL_DIAG_CIPHER_MISMATCH : Z := 0x1002.
(* src/inc/sl_diag_code.h:29-29 *)
Definition SL_DIAG_BAD_RECORD : Z := 0x1003.
(* src/inc/sl_diag_code.h:30-30 *)
Definition SL_DIAG_UNEXPECTED_MESSAGE : Z := 0x1004.
(* src/inc/sl_diag_code.h:31-31 *)
Definition SL_DIAG_BAD_EXTENSION : Z := 0x1005.
(* src/inc/sl_diag_code.h:32-32 *)
Definition SL_DIAG_OVERSIZE : Z := 0x1006.
(* src/inc/sl_diag_code.h:35-35 *)
Definition SL_DIAG_BAD_MAC : Z := 0x2001.
(* src/inc/sl_diag_code.h:36-36 *)
Definition SL_DIAG_DECRYPT_FAIL : Z := 0x2002.
(* src/inc/sl_diag_code.h:37-37 *)
Definition SL_DIAG_BAD_SIGNATURE : Z := 0x2003.
(* src/inc/sl_diag_code.h:38-38 *)
Definition SL_DIAG_BAD_ECDH : Z := 0x2004.
(* src/inc/sl_diag_code.h:39-39 *)
Definition SL_DIAG_KDF_FAIL : Z := 0x2005.
(* src/inc/sl_diag_code.h:40-40 *)
Definition SL_DIAG_RNG_FAIL : Z := 0x2006.
(* src/inc/sl_diag_code.h:43-43 *)
Definition SL_DIAG_RATE_LIMITED : Z := 0x3001.
(* src/inc/sl_diag_code.h:44-44 *)
Definition SL_DIAG_LOCKED_OUT : Z := 0x3002.
(* src/inc/sl_diag_code.h:45-45 *)
Definition SL_DIAG_QUARANTINED : Z := 0x3003.
(* src/inc/sl_diag_code.h:46-46 *)
Definition SL_DIAG_REPLAY : Z := 0x3004.
(* src/inc/sl_diag_code.h:47-47 *)
Definition SL_DIAG_CLOCK_SKEW : Z := 0x3005.
(* src/inc/sl_diag_code.h:50-50 *)
Definition SL_DIAG_PEER_UNKNOWN : Z := 0x4001.
(* src/inc/sl_diag_code.h:51-51 *)
Definition SL_DIAG_PIN_MISMATCH : Z := 0x4002.
(* src/inc/sl_diag_code.h:52-52 *)
Definition SL_DIAG_TICKET_EXPIRED : Z := 0x4003.
(* src/inc/sl_diag_code.h:53-53 *)
Definition SL_DIAG_TICKET_INVALID : Z := 0x4004.
(* src/inc/sl_diag_code.h:56-56 *)
Definition SL_DIAG_OUT_OF_MEMORY : Z := 0x5001.
(* src/inc/sl_diag_code.h:57-57 *)
Definition SL_DIAG_TOO_MANY_CONNECTIONS : Z := 0x5002.
(* src/inc/sl_diag_code.h:58-58 *)
Definition SL_DIAG_IO_ERROR : Z := 0x5003.
(* src/inc/sl_diag_code.h:59-59 *)
Definition SL_DIAG_TIMEOUT : Z := 0x5004.
(* src/inc/sl_diag_code.h:62-62 *)
Definition SL_DIAG_INTERNAL : Z := 0x9001.
(* src/inc/sl_diag_code.h:63-63 *)
Definition SL_DIAG_NOT_IMPLEMENTED : Z := 0x9002.

(** The 2-byte payload; [out] is what the caller's array holds after the call. *)
(* src/src/sl_alert.c:5-12 *)
Definition sl_alert_pack (level code : Z) : Z * list Z :=
  if negb (level =? SL_ALERT_LEVEL_WARNING) && negb (level =? SL_ALERT_LEVEL_FATAL) then (-1, [])
  else (0, [level; u8 code]).

(** [Some (level, code)] on success. *)
(* src/src/sl_alert.c:14-21 *)
Definition sl_alert_unpack (inp : list Z) : M (option (Z * Z)) :=
  let! l := load inp 0 in
  if negb (l =? SL_ALERT_LEVEL_WARNING) && negb (l =? SL_ALERT_LEVEL_FATAL) then Ok None
  else
    let! c := load inp 1 in
    Ok (Some (l, c)).

(* src/src/sl_alert.c:23-40 *)
Definition sl_alert_code_name (c : Z) : string :=
  if c =? SL_ALERT_CLOSE_NOTIFY then "close_notify" else
  if c =? SL_ALERT_UNEXPECTED_RECORD then "unexpected_record" else
  if c =? SL_ALERT_BAD_RECORD_MAC then "bad_record_mac" else
  if c =? SL_ALERT_RECORD_OVERFLOW then "record_overflow" else
  if c =? SL_ALERT_HANDSHAKE_FAILURE then "handshake_failure" else
  if c =? SL_ALERT_BAD_CERTIFICATE then "bad_certificate" else
  if c =? SL_ALERT_DECRYPT_ERROR then "decrypt_error" else
  if c =? SL_ALERT_PROTOCOL_VERSION then "protocol_version" else
  if c =? SL_ALERT_INTERNAL_ERROR then "internal_error" else
  if c =? SL_ALERT_USER_CANCELED then "user_canceled" else
  if c =? SL_ALERT_RATE_LIMITED then "rate_limited" else
  if c =? SL_ALERT_REPLAY then "replay" else
  if c =? SL_ALERT_QUARANTINED then "quarantined" else
  "unknown".

(* src/src/sl_diag_code.c:3-35 *)
Definition sl_diag_code_name (c : Z) : string :=
  if c =? SL_DIAG_OK then "ok" else
  if c =? SL_DIAG_VERSION_MISMATCH then "version_mismatch" else
  if c =? SL_DIAG_CIPHER_MISMATCH then "cipher_mismatch" else
  if c =? SL_DIAG_BAD_RECORD then "bad_record" else
  if c =? SL_DIAG_UNEXPECTED_MESSAGE then "unexpected_message" else
  if c =? SL_DIAG_BAD_EXTENSION then "bad_extension" else
  if c =? SL_DIAG_OVERSIZE then "oversize" else
  if c =? SL_DIAG_BAD_MAC then "bad_mac" else
  if c =? SL_DIAG_DECRYPT_FAIL then "decrypt_fail" else
  if c =? SL_DIAG_BAD_SIGNATURE then "bad_signature" else
  if c =? SL_DIAG_BAD_ECDH then "bad_ecdh" else
  if c =? SL_DIAG_KDF_FAIL then "kdf_fail" else
  if c =? SL_DIAG_RNG_FAIL then "rng_fail" else
  if c =? SL_DIAG_RATE_LIMITED then "rate_limited" else
  if c =? SL_DIAG_LOCKED_OUT then "locked_out" else
  if c =? SL_DIAG_QUARANTINED then "quarantined" else
  if c =? SL_DIAG_REPLAY then "replay" else
  if c =? SL_DIAG_CLOCK_SKEW then "clock_skew" else
  if c =? SL_DIAG_PEER_UNKNOWN then "peer_unknown" else
  if c =? SL_DIAG_PIN_MISMATCH then "pin_mismatch" else
  if c =? SL_DIAG_TICKET_EXPIRED then "ticket_expired" else
  if c =? SL_DIAG_TICKET_INVALID then "ticket_invalid" else
  if c =? SL_DIAG_OUT_OF_MEMORY then "out_of_memory" else
  if c =? SL_DIAG_TOO_MANY_CONNECTIONS then "too_many_connections" else
  if c =? SL_DIAG_IO_ERROR then "io_error" else
  if c =? SL_DIAG_TIMEOUT then "timeout" else
  if c =? SL_DIAG_INTERNAL then "internal" else
  if c =? SL_DIAG_NOT_IMPLEMENTED then "not_implemented" else
  "unknown".

(* src/src/sl_diag_code.c:37-49 *)
Definition sl_diag_category (c : Z) : string :=
  let x := Z.land (u16 c) 0xF000 in
  if x =? 0x0000 then "ok" else
  if x =? 0x1000 then "protocol" else
  if x =? 0x2000 then "crypto" else
  if x =? 0x3000 then "policy" else
  if x =? 0x4000 then "identity" else
  if x =? 0x5000 then "resource" else
  if x =? 0x9000 then "internal" else
  "unknown".

(* src/src/sl_alert_ext.c:3-13 *)
Definition sl_alert_ext_pack (level legacy diag : Z) : Z * list Z :=
  if negb (level =? SL_ALERT_LEVEL_WARNING) && negb (level =? SL_ALERT_LEVEL_FATAL) then (-1, [])
  else (0, [level; u8 legacy; u8 (u16 diag ≫ 8); u8 (Z.land (u16 diag) 0xFF)]).

(* src/src/sl_alert_ext.c:15-25 *)
Definition sl_alert_ext_unpack (inp : list Z) : M (option (Z * Z * Z)) :=
  let! l := load inp 0 in
  if negb (l =? SL_ALERT_LEVEL_WARNING) && negb (l =? SL_ALERT_LEVEL_FATAL) then Ok None
  else
    let! c := load inp 1 in
    let! d2 := load inp 2 in
    let! d3 := load inp 3 in
    Ok (Some (l, c, Z.lor (d2 ≪ 8) d3)).

(* src/src/sl_alert_ext.c:27-45 *)
Definition sl_alert_from_diag (diag : Z) : Z :=
  if diag =? SL_DIAG_VERSION_MISMATCH then SL_ALERT_PROTOCOL_VERSION else
  if diag =? SL_DIAG_CIPHER_MISMATCH then SL_ALERT_HANDSHAKE_FAILURE else
  if diag =? SL_DIAG_BAD_RECORD then SL_ALERT_BAD_RECORD_MAC else
  if diag =? SL_DIAG_UNEXPECTED_MESSAGE then SL_ALERT_UNEXPECTED_RECORD else
  if diag =? SL_DIAG_BAD_EXTENSION then SL_ALERT_HANDSHAKE_FAILURE else
  if diag =? SL_DIAG_OVERSIZE then SL_ALERT_RECORD_OVERFLOW else
  if diag =? SL_DIAG_BAD_MAC then SL_ALERT_BAD_RECORD_MAC else
  if diag =? SL_DIAG_DECRYPT_FAIL then SL_ALERT_DECRYPT_ERROR else
  if diag =? SL_DIAG_BAD_SIGNATURE then SL_ALERT_BAD_CERTIFICATE else
  if diag =? SL_DIAG_BAD_ECDH then SL_ALERT_HANDSHAKE_FAILURE else
  if diag =? SL_DIAG_RATE_LIMITED then SL_ALERT_RATE_LIMITED else
  if diag =? SL_DIAG_REPLAY then SL_ALERT_REPLAY else
  if diag =? SL_DIAG_QUARANTINED then SL_ALERT_QUARANTINED else
  if diag =? SL_DIAG_PIN_MISMATCH then SL_ALERT_BAD_CERTIFICATE else
  SL_ALERT_INTERNAL_ERROR.

(* src/src/sl_close_notify.c:5-9 *)
Definition sl_close_notify_pack : list Z := [SL_ALERT_LEVEL_FATAL; u8 SL_ALERT_CLOSE_NOTIFY].

(* src/src/sl_close_notify.c:11-15 *)
Definition sl_close_notify_is (buf : list Z) : M Z :=
  if negb (len buf =? 2) then Ok 0
  else
    let! b0 := load buf 0 in
    if negb (b0 =? SL_ALERT_LEVEL_FATAL) then Ok 0
    else
      let! b1 := load buf 1 in
      Ok (if b1 =? u8 SL_ALERT_CLOSE_NOTIFY then 1 else 0).

(** ** Specifications *)

(** The enumerators of the two types. *)
Definition alert_codes : list Z :=   [SL_ALERT_CLOSE_NOTIFY; SL_ALERT_UNEXPECTED_RECORD;
   SL_ALERT_BAD_RECORD_MAC; SL_ALERT_RECORD_OVERFLOW; SL_ALERT_HANDSHAKE_FAILURE;
   SL_ALERT_BAD_CERTIFICATE; SL_ALERT_DECRYPT_ERROR; SL_ALERT_PROTOCOL_VERSION;
   SL_ALERT_INTERNAL_ERROR; SL_ALERT_USER_CANCELED; SL_ALERT_RATE_LIMITED; SL_ALERT_REPLAY;
   SL_ALERT_QUARANTINED].
Definition diag_codes : list Z :=   [SL_DIAG_OK; SL_DIAG_VERSION_MISMATCH; SL_DIAG_CIPHER_MISMATCH;
   SL_DIAG_BAD_RECORD; SL_DIAG_UNEXPECTED_MESSAGE; SL_DIAG_BAD_EXTENSION; SL_DIAG_OVERSIZE;
   SL_DIAG_BAD_MAC; SL_DIAG_DECRYPT_FAIL; SL_DIAG_BAD_SIGNATURE; SL_DIAG_BAD_ECDH; SL_DIAG_KDF_FAIL;
   SL_DIAG_RNG_FAIL; SL_DIAG_RATE_LIMITED; SL_DIAG_LOCKED_OUT; SL_DIAG_QUARANTINED; SL_DIAG_REPLAY;
   SL_DIAG_CLOCK_SKEW; SL_DIAG_PEER_UNKNOWN; SL_DIAG_PIN_MISMATCH; SL_DIAG_TICKET_EXPIRED;
   SL_DIAG_TICKET_INVALID; SL_DIAG_OUT_OF_MEMORY; SL_DIAG_TOO_MANY_CONNECTIONS; SL_DIAG_IO_ERROR;
   SL_DIAG_TIMEOUT; SL_DIAG_INTERNAL; SL_DIAG_NOT_IMPLEMENTED].

(** The names tell the codes apart, and no two agree. *)
Lemma alert_names_distinct : NoDup (map sl_alert_code_name alert_codes) /\ ("unknown" ∉ map sl_alert_code_name alert_codes)%string.
Proof. split; apply (bool_decide_unpack _); vm_compute; exact I. Qed.
Lemma diag_names_distinct : NoDup (map sl_diag_code_name diag_codes) /\ ("unknown" ∉ map sl_diag_code_name diag_codes)%string.
Proof. split; apply (bool_decide_unpack _); vm_compute; exact I. Qed.

Lemma level_cases l :
  negb (l =? SL_ALERT_LEVEL_WARNING) && negb (l =? SL_ALERT_LEVEL_FATAL) = false <->
  l = SL_ALERT_LEVEL_WARNING \/ l = SL_ALERT_LEVEL_FATAL.
Proof. unfold SL_ALERT_LEVEL_WARNING, SL_ALERT_LEVEL_FATAL. lia. Qed.

Lemma u16_low_byte d : u8 (Z.land d 0xFF) = u8 d.
Proof. change 0xFF with (Z.ones 8). rewrite Z.land_ones by lia. apply u8_small, u8_range. Qed.

(** What is packed is read back, by the reader of the extended form and by the reader of
    the 2-byte form. *)
Lemma ext_roundtrip level legacy diag :
  level = SL_ALERT_LEVEL_WARNING \/ level = SL_ALERT_LEVEL_FATAL -> is_u8 legacy -> is_u16 diag ->
  exists w, sl_alert_ext_pack level legacy diag = (0, w) /\ len w = 4 /\
    sl_alert_ext_unpack w = Ok (Some (level, legacy, diag)) /\
    sl_alert_unpack (take 2 w) = Ok (Some (level, legacy)).
Proof.
  intros Hl Hc Hd. unfold sl_alert_ext_pack. rewrite (proj2 (level_cases level) Hl). eexists. split; [done|]. split; [done|].
  unfold sl_alert_ext_unpack, sl_alert_unpack. cbn [take].
  change (load (level :: _) 0) with (Ok level). cbv beta iota. rewrite (proj2 (level_cases level) Hl).
  change (load (level :: ?a :: ?l) 1) with (Ok a). cbv beta iota.
  change (load (level :: ?a :: ?b :: ?l) 2) with (Ok b). change (load (level :: ?a :: ?b :: ?c :: ?l) 3) with (Ok c). cbv beta iota.
  rewrite u16_low_byte, (u8_small legacy), (u16_small diag) by done. split; [|done].
  do 3 f_equal. rewrite lor_shiftl_add by (apply u8_range || lia). rewrite <- (bytes16 diag) at 3 by done. lia.
Qed.

(** Conversely every accepted message is what packing its contents gives. *)
Lemma ext_canonical inp l c d :
  bytes_ok inp -> sl_alert_ext_unpack inp = Ok (Some (l, c, d)) ->
  sl_alert_ext_pack l c d = (0, take 4 inp).
Proof.
  intros Hb. unfold sl_alert_ext_unpack. destruct inp as [|x0 inp]; [done|]. change (load (x0 :: inp) 0) with (Ok x0). cbv beta iota.
  destruct (negb (x0 =? SL_ALERT_LEVEL_WARNING) && negb (x0 =? SL_ALERT_LEVEL_FATAL)) eqn:El; [done|].
  destruct inp as [|x1 [|x2 [|x3 inp]]]; [done..|].
  change (load (x0 :: x1 :: x2 :: x3 :: inp) 1) with (Ok x1). change (load (x0 :: x1 :: x2 :: x3 :: inp) 2) with (Ok x2).
  change (load (x0 :: x1 :: x2 :: x3 :: inp) 3) with (Ok x3). cbv beta iota. intros E. simplify_eq.
  unfold sl_alert_ext_pack. rewrite El. unfold bytes_ok in Hb. rewrite !Forall_cons in Hb. destruct Hb as (H0 & H1 & H2 & H3 & _).
  rewrite lor_shiftl_add by lia. change (2 ^ 8) with 256. rewrite (u16_small (x2 * 256 + x3)), u16_low_byte, (u8_small c) by lia.
  pose proof (be16_of_bytes x2 x3 H2 H3) as E. unfold be16 in E. injection E as -> ->. done.
Qed.

Lemma close_notify_spec buf : sl_close_notify_is buf = Ok (if decide (buf = sl_close_notify_pack) then 1 else 0).
Proof.
  unfold sl_close_notify_is. destruct (Z.eqb_spec (len buf) 2) as [Hl|Hl]; cbn [negb].
  - destruct buf as [|a [|b [|? ?]]]; [done..| |unfold len in Hl; simpl in Hl; lia].
    change (load [a; b] 0) with (Ok a). change (load [a; b] 1) with (Ok b). cbv beta iota.
    change (u8 SL_ALERT_CLOSE_NOTIFY) with 0. unfold sl_close_notify_pack. change (u8 SL_ALERT_CLOSE_NOTIFY) with 0.
    destruct (Z.eqb_spec a SL_ALERT_LEVEL_FATAL) as [->|]; cbn [negb]; [|by rewrite decide_False by congruence].
    destruct (Z.eqb_spec b 0) as [->|]; [by rewrite decide_True|by rewrite decide_False by congruence].
  - rewrite decide_False; [done|]. intros ->. done.
Qed.

(** Alerts mean the same on both sides. An extended alert with a valid level reads back
    as packed, and a peer that knows only the 2-byte form reads its level and legacy code
    from the first two bytes; every accepted extended alert is the packing of what was
    read. A buffer counts as close_notify exactly when it is the one message the packer
    writes, which the alert reader reads as a fatal close_notify. Every diagnostic code
    maps to a defined alert code and lies in a named category. *)
Theorem alerts_agree :
  (forall level legacy diag,
    level = SL_ALERT_LEVEL_WARNING \/ level = SL_ALERT_LEVEL_FATAL -> is_u8 legacy -> is_u16 diag ->
    exists w, sl_alert_ext_pack level legacy diag = (0, w) /\ len w = 4 /\
      sl_alert_ext_unpack w = Ok (Some (level, legacy, diag)) /\
      sl_alert_unpack (take 2 w) = Ok (Some (level, legacy))) /\
  (forall inp l c d, bytes_ok inp -> sl_alert_ext_unpack inp = Ok (Some (l, c, d)) ->
    sl_alert_ext_pack l c d = (0, take 4 inp)) /\
  (forall buf, sl_close_notify_is buf = Ok (if decide (buf = sl_close_notify_pack) then 1 else 0)) /\
  sl_alert_unpack sl_close_notify_pack = Ok (Some (SL_ALERT_LEVEL_FATAL, SL_ALERT_CLOSE_NOTIFY)) /\
  Forall (fun d => is_u16 d /\ sl_alert_from_diag d ∈ alert_codes /\ sl_diag_category d <> "unknown"%string) diag_codes.
Proof.
  split; [exact ext_roundtrip|]. split; [exact ext_canonical|]. split; [exact close_notify_spec|]. split; [done|].
  apply (bool_decide_unpack _). vm_compute. exact I.
Qed.

(** Locked-out and unknown peers, expired tickets and exhausted resources have diagnostic
    codes but no alert of their own: the 2-byte form reports them as internal errors. *)
Example unmapped_diagnostics :
  filter (fun d => sl_alert_from_diag d = SL_ALERT_INTERNAL_ERROR) diag_codes =
  [SL_DIAG_OK; SL_DIAG_KDF_FAIL; SL_DIAG_RNG_FAIL; SL_DIAG_LOCKED_OUT; SL_DIAG_CLOCK_SKEW; SL_DIAG_PEER_UNKNOWN;
   SL_DIAG_TICKET_EXPIRED; SL_DIAG_TICKET_INVALID; SL_DIAG_OUT_OF_MEMORY; SL_DIAG_TOO_MANY_CONNECTIONS;
   SL_DIAG_IO_ERROR; SL_DIAG_TIMEOUT; SL_DIAG_INTERNAL; SL_DIAG_NOT_IMPLEMENTED].
Proof. vm_compute. done. Qed.
