(* ===== verification/Endpoint.v ===== *)
(** Endpoints: a host and a port in one string ([inc/sl_endpoint.h],
    [src/sl_endpoint.c]). A string argument is its bytes before the terminator; the [host]
    array of the struct is kept with all its 256 bytes. *)

From S2P Require Import Prelude Ctype.
Local Open Scope Z_scope.

(* src/inc/sl_endpoint.h:21-21 *)
Definition SL_ENDPOINT_HOST_MAX : Z := 256.

(* src/inc/sl_endpoint.h:23-26 *)
Record sl_endpoint_t := mk_ep {
  ep_host : list Z;
  ep_port : Z
}.

(* src/src/sl_endpoint.c:7-15 *)
Definition parse_port (s : cstring) : option Z :=
  match s with
  | [] => None
  | _ =>
      let '(v, e) := strtoul s in
      match e with
      | _ :: _ => None
      | [] => if (v <? 1) || (65535 <? v) then None else Some (u16 v)
      end
  end.

Definition zero_endpoint : sl_endpoint_t := mk_ep (replicate (Z.to_nat SL_ENDPOINT_HOST_MAX) 0) 0.

(** The common end of both branches: the host is copied and terminated, then the port is
    parsed into the struct. *)
(* src/src/sl_endpoint.c:33-37 *)
Definition fill_endpoint (h p : cstring) (out : sl_endpoint_t) : M (Z * sl_endpoint_t) :=
  let hlen := len h in
  if (hlen =? 0) || (len (ep_host out) <=? hlen) then Ok (-1, out)
  else
    let! hb := store_bytes (ep_host out) 0 h in
    let! hb := store hb hlen 0 in
    match parse_port p with
    | Some v => Ok (0, mk_ep hb v)
    | None => Ok (-1, mk_ep hb (ep_port out))
    end.

(** The result code and what [*out] holds. *)
(* src/src/sl_endpoint.c:17-38 *)
Definition sl_endpoint_parse (s : cstring) : M (Z * sl_endpoint_t) :=
  let out := zero_endpoint in
  if bool_decide (head s = Some 91) then
    match strchr s 93 with
    | None => Ok (-1, out)
    | Some (before, after) =>
        if bool_decide (head after = Some 58) then fill_endpoint (drop 1 before) (drop 1 after) out
        else Ok (-1, out)
    end
  else
    match strrchr s 58 with
    | None => Ok (-1, out)
    | Some (before, after) => if bool_decide (before = []) then Ok (-1, out) else fill_endpoint before after out
    end.

(** The text both formats print. *)
Definition endpoint_text (h : cstring) (port : Z) : cstring :=
  match strchr h 58 with
  | Some _ => [91] ++ h ++ [93; 58] ++ dec 20 port
  | None => h ++ [58] ++ dec 20 port
  end.

(** [buf] becomes what snprintf leaves in a buffer of [cap] bytes. *)
(* src/src/sl_endpoint.c:40-47 *)
Definition sl_endpoint_format (ep : sl_endpoint_t) (cap : Z) : Z * cstring :=
  let t := endpoint_text (cstr (ep_host ep)) (ep_port ep) in
  (if (0 <? len t) && (len t <? cap) then len t else -1, snprintf (Z.to_nat cap) t).

(* src/src/sl_endpoint.c:49-55 *)
Definition sl_endpoint_is_loopback (ep : sl_endpoint_t) : bool :=
  let h := cstr (ep_host ep) in
  bool_decide (h = [49; 50; 55; 46; 48; 46; 48; 46; 49]) ||
  bool_decide (h = [58; 58; 49]) ||
  bool_decide (h = [108; 111; 99; 97; 108; 104; 111; 115; 116]).

(** ** Specifications *)

Definition text_ok (s : cstring) : Prop := Forall (fun c => c <> 0) s.
Definition host_ok (h : cstring) : Prop := text_ok h /\ 0 < len h < SL_ENDPOINT_HOST_MAX.

Definition ep_of (h : cstring) (port : Z) : sl_endpoint_t :=
  mk_ep (h ++ replicate (Z.to_nat (SL_ENDPOINT_HOST_MAX - len h)) 0) port.

Lemma ep_of_host h port : text_ok h -> len h < SL_ENDPOINT_HOST_MAX -> cstr (ep_host (ep_of h port)) = h.
Proof.
  intros Ht Hl. cbn [ep_of ep_host]. rewrite cstr_app_text by done. unfold SL_ENDPOINT_HOST_MAX in *.
  replace (Z.to_nat (256 - len h)) with (S (Z.to_nat (255 - len h))) by lia. cbn [replicate cstr]. apply app_nil_r.
Qed.

Lemma fill_spec h p :
  fill_endpoint h p zero_endpoint =
  Ok (if (0 <? len h) && (len h <? SL_ENDPOINT_HOST_MAX)
      then match parse_port p with Some v => (0, ep_of h v) | None => (-1, ep_of h 0) end
      else (-1, zero_endpoint)).
Proof.
  unfold fill_endpoint. pose proof (len_nonneg h).
  change (len (ep_host zero_endpoint)) with SL_ENDPOINT_HOST_MAX.
  destruct ((len h =? 0) || (SL_ENDPOINT_HOST_MAX <=? len h)) eqn:Eh.
  - replace ((0 <? len h) && (len h <? SL_ENDPOINT_HOST_MAX)) with false by lia. done.
  - replace ((0 <? len h) && (len h <? SL_ENDPOINT_HOST_MAX)) with true by lia.
    cbn [zero_endpoint ep_host ep_port]. rewrite store_bytes_0 by (rewrite len_replicate; unfold SL_ENDPOINT_HOST_MAX in *; lia).
    cbv beta iota. rewrite drop_replicate. unfold ep_of, SL_ENDPOINT_HOST_MAX in *.
    replace (Z.to_nat 256 - length h)%nat with (S (Z.to_nat (255 - len h))) by (unfold len in *; lia). cbn [replicate].
    rewrite store_app_at by done. cbv beta iota.
    replace (Z.to_nat (256 - len h)) with (S (Z.to_nat (255 - len h))) by lia.
    by destruct (parse_port p).
Qed.

Lemma parse_port_range p v : parse_port p = Some v -> 1 <= v <= 65535.
Proof.
  unfold parse_port. destruct p as [|c p]; [done|]. destruct (strtoul (c :: p)) as [n [|]]; [|done].
  destruct ((n <? 1) || (65535 <? n)) eqn:E; [done|]. intros [= <-]. rewrite u16_small by lia. lia.
Qed.

Lemma parse_port_dec n : 1 <= n <= 65535 -> parse_port (dec 20 n) = Some n.
Proof.
  intros Hn. unfold parse_port. destruct (dec_head 20 n) as (c & s & E & _); [lia..|]. rewrite E, <- E.
  unfold strtoul. pose proof (scan_dec n ltac:(lia)) as Es. unfold dec_int in Es. rewrite (proj2 (Z.ltb_ge n 0)) in Es by lia.
  rewrite Es. rewrite Z.abs_eq by lia. rewrite (proj2 (Z.ltb_ge UINT64_MAX n)) by lia.
  replace ((n <? 1) || (65535 <? n)) with false by lia. by rewrite u16_small by lia.
Qed.

Lemma len_dec fuel n : len (dec fuel n) <= Z.of_nat fuel.
Proof.
  revert n. induction fuel as [|f IH]; intros n; cbn [dec]; [done|]. rewrite len_app. specialize (IH (n / 10)).
  destruct (n <? 10); unfold len in *; simpl length; lia.
Qed.

Lemma dec_digits fuel n : 0 <= n -> Forall (fun c => 48 <= c <= 57) (dec fuel n).
Proof.
  revert n. induction fuel as [|f IH]; intros n Hn; cbn [dec]; [constructor|].
  pose proof (Z.mod_pos_bound n 10 ltac:(lia)). apply Forall_app. split; [|repeat constructor; lia].
  destruct (n <? 10); [constructor|]. apply IH, Z.div_pos; lia.
Qed.

(** The strings the parser accepts, and what it makes of them. *)
Definition endpoint_form (s h p : cstring) : Prop :=
  (s = [91] ++ h ++ [93; 58] ++ p /\ 93 ∉ h) \/
  (head s <> Some 91 /\ s = h ++ [58] ++ p /\ 58 ∉ p).

Lemma parse_form s h p :
  endpoint_form s h p -> 0 < len h -> sl_endpoint_parse s = fill_endpoint h p zero_endpoint.
Proof.
  intros [[-> Hh]|(Hs & -> & Hp)] Hl; unfold sl_endpoint_parse.
  - rewrite bool_decide_true by done. change ([91] ++ h ++ [93; 58] ++ p) with ((91 :: h) ++ 93 :: 58 :: p).
    by rewrite strchr_first by (rewrite not_elem_of_cons; split; [lia|done]).
  - rewrite bool_decide_false by done. change (h ++ [58] ++ p) with (h ++ 58 :: p).
    rewrite strrchr_last, bool_decide_false by (done || by intros ->). done.
Qed.

Lemma parse_split s :
  (exists h p, endpoint_form s h p /\ 0 < len h) \/ sl_endpoint_parse s = Ok (-1, zero_endpoint).
Proof.
  unfold sl_endpoint_parse. case_bool_decide as Hs.
  - destruct s as [|c s]; [done|]. injection Hs as ->.
    destruct (strchr (91 :: s) 93) as [[a b]|] eqn:E; [|by right]. case_bool_decide as Hx; [|by right].
    apply strchr_some in E as [E Ha]. destruct b as [|x b]; [done|]. injection Hx as ->.
    destruct a as [|y a]; [done|]. injection E as <- ->. rewrite not_elem_of_cons in Ha.
    destruct (decide (0 < len a)) as [Hl|Hl].
    + left. exists a, b. split; [left; split; [done|apply Ha]|done].
    + right. change (drop 1 (91 :: a)) with a. rewrite fill_spec. pose proof (len_nonneg a).
      by rewrite (proj2 (Z.ltb_ge 0 (len a))) by lia.
  - destruct (strrchr s 58) as [[a b]|] eqn:E; [|by right]. case_bool_decide as Ha; [by right|].
    left. apply strrchr_some in E as [-> Hb]. exists a, b. split; [by right|]. destruct a as [|y a]; [done|].
    rewrite len_cons. pose proof (len_nonneg a). lia.
Qed.

(** The endpoint parser is total and exact: it accepts a string exactly when it is
    [[host]:port] with no closing bracket in the host, or [host:port] split at the last
    colon, with a host of 1 to 255 bytes and a port between 1 and 65535; the struct then
    holds that host, terminated, and that port. *)
Theorem endpoint_parse_exact s :
  exists rc ep, sl_endpoint_parse s = Ok (rc, ep) /\ (rc = 0 \/ rc = -1) /\
    (rc = 0 <-> exists h p v, endpoint_form s h p /\ 0 < len h < SL_ENDPOINT_HOST_MAX /\
       parse_port p = Some v /\ 1 <= v <= 65535 /\ ep = ep_of h v).
Proof.
  destruct (parse_split s) as [(h & p & Hf & Hl)|E].
  - rewrite (parse_form s h p Hf Hl), fill_spec, (proj2 (Z.ltb_lt _ _)) by done. cbn [andb].
    assert (Hu : forall h' p', endpoint_form s h' p' -> 0 < len h' -> h' = h /\ p' = p).
    { intros h' p' [[E H1]|(H1 & E & H2)] Hl'; destruct Hf as [[E' G1]|(G1 & E' & G2)].
      - rewrite E in E'. injection E' as E'. pose proof (strchr_first h' 93 (58 :: p') H1) as A.
        rewrite E', (strchr_first h 93 (58 :: p) G1) in A. by simplify_eq.
      - by rewrite E in G1.
      - by rewrite E' in H1.
      - pose proof (strrchr_last h' 58 p' H2) as A. cbn [app] in *. rewrite <- E, E', (strrchr_last h 58 p G2) in A. by simplify_eq. }
    destruct (Z.ltb_spec (len h) SL_ENDPOINT_HOST_MAX) as [Hm|Hm].
    + destruct (parse_port p) as [v|] eqn:Ep; eexists _, _; (split; [done|]); (split; [auto|]).
      * split; [|done]. intros _. exists h, p, v. pose proof (parse_port_range p v Ep). done.
      * split; [done|]. intros (h' & p' & v' & Hf' & Hl' & Ep' & _). destruct (Hu h' p' Hf' ltac:(lia)) as [-> ->]. congruence.
    + eexists _, _. split; [done|]. split; [auto|]. split; [done|].
      intros (h' & p' & v' & Hf' & Hl' & _). destruct (Hu h' p' Hf' ltac:(lia)) as [-> ->]. lia.
  - eexists _, _. split; [exact E|]. split; [auto|]. split; [done|].
    intros (h & p & v & Hf & Hl & Ep & _). rewrite (parse_form s h p Hf) in E by lia.
    rewrite fill_spec, Ep in E. replace ((0 <? len h) && (len h <? SL_ENDPOINT_HOST_MAX)) with true in E by lia. done.
Qed.

(** Formatting and parsing an endpoint gives it back, for a host that needs no brackets
    or can be put between them. *)
Theorem endpoint_roundtrip h port cap :
  host_ok h -> 1 <= port <= 65535 -> (58 ∈ h -> 93 ∉ h) -> head h <> Some 91 -> 300 <= cap ->
  exists n t, sl_endpoint_format (ep_of h port) cap = (n, t) /\ n = len t /\
    sl_endpoint_parse t = Ok (0, ep_of h port).
Proof.
  intros [Ht Hl] Hp Hb Hh Hc. unfold sl_endpoint_format. rewrite ep_of_host by (done || lia). cbn [ep_of ep_port].
  assert (Hd : len (dec 20 port) <= 20) by (apply len_dec).
  assert (Hf : endpoint_form (endpoint_text h port) h (dec 20 port) /\ 0 < len (endpoint_text h port) < 300).
  { unfold SL_ENDPOINT_HOST_MAX in Hl. pose proof (len_nonneg (dec 20 port)). unfold endpoint_text.
    destruct (strchr h 58) as [[a b]|] eqn:E.
    - apply strchr_some in E as [E _]. split; [left; split; [done|]|autorewrite with len; lia].
      apply Hb. rewrite E. apply elem_of_app. right. by left.
    - split; [right|autorewrite with len; lia]. split; [destruct h; done|]. split; [done|].
      intros Hin. pose proof (proj1 (Forall_forall _ _) (dec_digits 20 port ltac:(lia)) _ Hin) as Hx. cbv beta in Hx. lia. }
  destruct Hf as [Hf Hn]. replace ((0 <? _) && _) with true by lia. eexists _, _. split; [done|].
  unfold snprintf. rewrite take_ge by (unfold len in *; lia). split; [done|].
  rewrite (parse_form _ h (dec 20 port)) by (done || lia). rewrite fill_spec, parse_port_dec by done.
  replace ((0 <? len h) && (len h <? SL_ENDPOINT_HOST_MAX)) with true by lia. done.
Qed.

Lemma endpoint_roundtrip_witness :
  exists n t, sl_endpoint_format (ep_of [58; 58; 49] 4443) 300 = (n, t) /\
    sl_endpoint_parse t = Ok (0, ep_of [58; 58; 49] 4443).
Proof.
  destruct (endpoint_roundtrip [58; 58; 49] 4443 300) as (n & t & E & _ & H); [|lia|..].
  - split; [repeat constructor; lia|by vm_compute].
  - intros _. rewrite !not_elem_of_cons. repeat (split; [lia|]). apply not_elem_of_nil.
  - done.
  - lia.
  - by exists n, t.
Defined.

(** An IPv6 address without a port is taken for a host and a port. *)
Example bare_ipv6_misread : sl_endpoint_parse [58; 58; 49] = Ok (0, ep_of [58] 1).
Proof. done. Qed.

(** The port may have leading spaces or a sign, and a negative number wraps. *)
Example port_with_sign :
  parse_port [32; 43; 56; 48] = Some 80 /\
  parse_port [45; 49; 56; 52; 52; 54; 55; 52; 52; 48; 55; 51; 55; 48; 57; 53; 53; 49; 53; 51; 54] = Some 80.
Proof. done. Qed.
