(* ===== verification/BeaconService.v ===== *)
(** The beacon service ([inc/beacon_registry.hpp], [src/beacon_registry.cpp],
    [inc/beacon_server.hpp], [src/beacon_server.cpp], [inc/beacon_client.hpp],
    [src/beacon_client.cpp], [inc/beacon_metrics.hpp]): the client that sends a sealed
    status message at intervals and the server that authenticates it, refuses replays and
    tells which clients are alive. Clock readings, the outcomes of socket calls and random
    draws are arguments. *)

From stdpp Require Import gmap.
From S2P Require Import Prelude ByteOrder Codec Mem Aead Beacon ReplayGuard Framing Rng.
Local Open Scope Z_scope.

(** ** The allow-list *)

(* src/inc/beacon_registry.hpp:20-26 *)
Record ClientEntry := mk_entry {
  ce_client_id : Z;
  ce_label : list Z;
  ce_key : list Z;
  ce_static_iv : list Z;
  ce_enabled : bool
}.

(* src/inc/beacon_registry.hpp:54-57 *)
Definition BeaconRegistry : Type := gmap Z ClientEntry.

(* src/src/beacon_registry.cpp:5-9 *)
Definition registry_upsert (entry : ClientEntry) (r : BeaconRegistry) : bool * BeaconRegistry :=
  (bool_decide (r !! ce_client_id entry = None), <[ce_client_id entry := entry]> r).

(* src/src/beacon_registry.cpp:11-17 *)
Definition set_enabled (client_id : Z) (enabled : bool) (r : BeaconRegistry) : bool * BeaconRegistry :=
  match r !! client_id with
  | None => (false, r)
  | Some e => (true, <[client_id := mk_entry (ce_client_id e) (ce_label e) (ce_key e) (ce_static_iv e) enabled]> r)
  end.

(* src/src/beacon_registry.cpp:19-22 *)
Definition registry_remove (client_id : Z) (r : BeaconRegistry) : bool * BeaconRegistry :=
  (bool_decide (r !! client_id <> None), delete client_id r).

(* src/src/beacon_registry.cpp:24-29 *)
Definition registry_lookup (client_id : Z) (r : BeaconRegistry) : option ClientEntry := r !! client_id.

(* src/src/beacon_registry.cpp:31-34 *)
Definition registry_size (r : BeaconRegistry) : Z := Z.of_nat (size r).

(** ** The server *)

(* src/inc/beacon_server.hpp:17-27 *)
Record BeaconServerConfig := mk_server_config {
  liveness_timeout_ms : Z;
  max_skew_ms : Z;
  bs_key : list Z;
  bs_static_iv : list Z
}.

(* src/inc/beacon_server.hpp:29-40 *)
Record ClientState := mk_client {
  cs_client_id : Z;
  beacons_received : Z;
  replays_rejected : Z;
  auth_failures : Z;
  skew_rejections : Z;
  last_seq : Z;
  last_seen_mono_ms : Z;
  last_seen_wall_ms : Z;
  alive : bool;
  replay : ReplayGuard
}.

(* src/inc/beacon_server.hpp:42-48 *)
Inductive BeaconResult := kAccepted | kAuthFailed | kReplay | kClockSkew | kMalformed.

#[export] Instance BeaconResult_eq_dec : EqDecision BeaconResult.
Proof. solve_decision. Defined.

Abbreviation window := REPLAY_WINDOW_SIZE.

(** The value-initialised entry [operator[]] creates. *)
Definition zero_client : ClientState := mk_client 0 0 0 0 0 0 0 0 false (new_guard window).

Definition zero_beacon : sl_beacon_t := mk_beacon 0 0 0 0 0 0 zero_payload.

Definition claim (id : Z) (cs : ClientState) : ClientState :=
  if cs_client_id cs =? 0
  then mk_client id (beacons_received cs) (replays_rejected cs) (auth_failures cs) (skew_rejections cs) (last_seq cs)
         (last_seen_mono_ms cs) (last_seen_wall_ms cs) (alive cs) (replay cs)
  else cs.
Definition count_replay (cs : ClientState) : ClientState :=
  mk_client (cs_client_id cs) (beacons_received cs) (u64 (replays_rejected cs + 1)) (auth_failures cs)
    (skew_rejections cs) (last_seq cs) (last_seen_mono_ms cs) (last_seen_wall_ms cs) (alive cs) (replay cs).
Definition count_auth_failure (cs : ClientState) : ClientState :=
  mk_client (cs_client_id cs) (beacons_received cs) (replays_rejected cs) (u64 (auth_failures cs + 1))
    (skew_rejections cs) (last_seq cs) (last_seen_mono_ms cs) (last_seen_wall_ms cs) (alive cs) (replay cs).
Definition count_skew (cs : ClientState) : ClientState :=
  mk_client (cs_client_id cs) (beacons_received cs) (replays_rejected cs) (auth_failures cs)
    (u64 (skew_rejections cs + 1)) (last_seq cs) (last_seen_mono_ms cs) (last_seen_wall_ms cs) (alive cs) (replay cs).
Definition set_replay (cs : ClientState) (g : ReplayGuard) : ClientState :=
  mk_client (cs_client_id cs) (beacons_received cs) (replays_rejected cs) (auth_failures cs) (skew_rejections cs)
    (last_seq cs) (last_seen_mono_ms cs) (last_seen_wall_ms cs) (alive cs) g.
Definition set_alive (cs : ClientState) (b : bool) : ClientState :=
  mk_client (cs_client_id cs) (beacons_received cs) (replays_rejected cs) (auth_failures cs) (skew_rejections cs)
    (last_seq cs) (last_seen_mono_ms cs) (last_seen_wall_ms cs) b (replay cs).

Section Server.
Context `{Gcm}.

(** [cs] is the entry of the client the header names, written back by the caller; the
    wall clock is read before the monotonic one. *)
(* src/src/beacon_server.cpp:34-71 BeaconServer::on_beacon *)
Definition on_beacon_client (cfg : BeaconServerConfig) (now_wall now_mono : Z) (wire : list Z) (peek : sl_beacon_t)
  (cs : ClientState) : M (BeaconResult * ClientState) :=
  let! ok := would_accept window (replay cs) (bc_sequence peek) in
  if negb ok then Ok (kReplay, count_replay cs)
  else
    let! '(rc, opened) := sl_beacon_open wire (bs_key cfg) (bs_static_iv cfg) (bc_sequence peek) zero_beacon in
    if negb (rc =? 0) then Ok (kAuthFailed, count_auth_failure cs)
    else
      let skew := if now_wall <? bc_timestamp_ms opened then u64 (bc_timestamp_ms opened - now_wall)
                  else u64 (now_wall - bc_timestamp_ms opened) in
      if max_skew_ms cfg <? skew then Ok (kClockSkew, count_skew cs)
      else
        let! '(ok, g) := check_and_update window (replay cs) (bc_sequence opened) in
        let cs := set_replay cs g in
        if negb ok then Ok (kReplay, count_replay cs)
        else
          Ok (kAccepted, mk_client (cs_client_id cs) (u64 (beacons_received cs + 1)) (replays_rejected cs)
                (auth_failures cs) (skew_rejections cs) (bc_sequence opened) now_mono (bc_timestamp_ms opened)
                true (replay cs)).

(* src/src/beacon_server.cpp:13-32 BeaconServer::on_beacon *)
Definition on_beacon (cfg : BeaconServerConfig) (now_wall now_mono : Z) (wire : list Z) (clients : gmap Z ClientState)
  : M (BeaconResult * gmap Z ClientState) :=
  if len wire <? SL_BEACON_HEADER_LEN + SL_AEAD_TAG_LEN then Ok (kMalformed, clients)
  else
    let! peek := sl_beacon_unpack_header wire in
    if negb (sl_beacon_validate peek =? 0) then Ok (kMalformed, clients)
    else
      let cs := claim (bc_client_id peek) (default zero_client (clients !! bc_client_id peek)) in
      let! '(r, cs) := on_beacon_client cfg now_wall now_mono wire peek cs in
      Ok (r, <[bc_client_id peek := cs]> clients).

End Server.

Definition is_stale (cfg : BeaconServerConfig) (now : Z) (cs : ClientState) : bool :=
  alive cs && (liveness_timeout_ms cfg <? u64 (now - last_seen_mono_ms cs)).

(** The loop treats each entry alone, so the order of the table does not matter. *)
(* src/src/beacon_server.cpp:74-86 BeaconServer::reap_stale *)
Definition reap_stale (cfg : BeaconServerConfig) (now : Z) (clients : gmap Z ClientState) : Z * gmap Z ClientState :=
  (Z.of_nat (size (filter (fun e => is_stale cfg now e.2 = true) clients)),
   (fun cs => if is_stale cfg now cs then set_alive cs false else cs) <$> clients).

(* src/src/beacon_server.cpp:88-93 BeaconServer::snapshot *)
Definition server_snapshot (client_id : Z) (clients : gmap Z ClientState) : option ClientState := clients !! client_id.

(* src/src/beacon_server.cpp:95-98 BeaconServer::client_count *)
Definition client_count (clients : gmap Z ClientState) : Z := Z.of_nat (size clients).

(** ** The client *)

(* src/inc/beacon_client.hpp:20-36 *)
Record BeaconClientConfig := mk_client_config {
  cc_client_id : Z;
  interval_ms : Z;
  jitter_ms : Z;
  connect_timeout_ms : Z;
  io_timeout_ms : Z;
  request_ack : bool;
  static_payload : list Z;
  cc_key : list Z;
  cc_static_iv : list Z
}.

(* src/inc/beacon_client.hpp:38-44 *)
Record BeaconClientStats := mk_client_stats {
  beacons_sent : Z;
  acks_received : Z;
  send_failures : Z;
  reconnects : Z;
  last_rtt_ms : Z
}.

(* src/inc/beacon_client.hpp:75-79 *)
Record BeaconClient := mk_beacon_client {
  fd_ : Z;
  seq_ : Z;
  running_ : bool;
  stats_ : BeaconClientStats
}.

Definition new_beacon_client : BeaconClient := mk_beacon_client (-1) 1 false (mk_client_stats 0 0 0 0 0).

Definition set_fd (c : BeaconClient) (fd : Z) : BeaconClient := mk_beacon_client fd (seq_ c) (running_ c) (stats_ c).
Definition set_stats (c : BeaconClient) (s : BeaconClientStats) : BeaconClient :=
  mk_beacon_client (fd_ c) (seq_ c) (running_ c) s.

(** What one call of send does: it takes [n] bytes, would block (and poll then returns
    [pr]), or fails. *)
Inductive send_outcome := Sent (n : Z) | WouldBlock (pr : Z) | SendFailed.

(** [None]: the call is still running when the given outcomes end. [sent] is also the number
    of bytes on the connection when it returns. *)
(* src/src/beacon_client.cpp:32-50 *)
Fixpoint write_all (io : list send_outcome) (sent n : Z) : option (bool * Z) :=
  if sent <? n then
    match io with
    | [] => None
    | Sent k :: io => if 0 <? k then write_all io (sent + k) n else Some (false, sent)
    | WouldBlock pr :: io => if pr <=? 0 then Some (false, sent) else write_all io sent n
    | SendFailed :: _ => Some (false, sent)
    end
  else Some (true, sent).

(** One address of getaddrinfo's list: the descriptor socket returns, whether fcntl
    succeeds, what connect does, what poll returns and what getsockopt reports. *)
Record address_try := mk_try {
  try_socket : Z;
  try_nonblocking : bool;
  try_connect : Z;
  try_in_progress : bool;
  try_poll : Z;
  try_getsockopt : Z;
  try_error : Z
}.

(** The descriptor of the first address that connects, and the descriptors closed on the
    way. *)
(* src/src/beacon_client.cpp:78-99 BeaconClient::connect *)
Fixpoint try_addresses (ts : list address_try) : option Z * list Z :=
  match ts with
  | [] => (None, [])
  | t :: ts =>
      let next := try_addresses ts in
      let close_and_next := (next.1, try_socket t :: next.2) in
      if try_socket t <? 0 then next
      else if negb (try_nonblocking t) then close_and_next
      else if try_connect t =? 0 then (Some (try_socket t), [])
      else if negb (try_in_progress t) then close_and_next
      else if try_poll t <=? 0 then close_and_next
      else if negb (try_getsockopt t =? 0) || negb (try_error t =? 0) then close_and_next
      else (Some (try_socket t), [])
  end.

(** [gai] is getaddrinfo's result, [None] for a failure. The descriptors closed come
    first. *)
(* src/src/beacon_client.cpp:62-106 *)
Definition connect (gai : option (list address_try)) (c : BeaconClient) : bool * list Z * BeaconClient :=
  let closed := if 0 <=? fd_ c then [fd_ c] else [] in
  let c := set_fd c (if 0 <=? fd_ c then -1 else fd_ c) in
  match gai with
  | None | Some [] => (false, closed, c)
  | Some ts =>
      let '(r, more) := try_addresses ts in
      let c := set_fd c (default (fd_ c) r) in
      (negb (fd_ c <? 0), closed ++ more, c)
  end.

Section Client.
Context `{Gcm}.

(** The beacon the client seals. *)
(* src/src/beacon_client.cpp:109-120 BeaconClient::send_beacon_locked *)
Definition make_beacon (cfg : BeaconClientConfig) (seq now_wall flags : Z) : M sl_beacon_t :=
  let n := u16 (Z.min (len (static_payload cfg)) SL_BEACON_MAX_PAYLOAD) in
  let! p := (if 0 <? n then
               let! src := load_bytes (static_payload cfg) 0 n in store_bytes zero_payload 0 src
             else Ok zero_payload) in
  Ok (mk_beacon (cc_client_id cfg) seq now_wall (interval_ms cfg) n flags p).

(** The result, the bytes put on the connection, the client. *)
(* src/src/beacon_client.cpp:108-137 *)
Definition send_beacon_locked (cfg : BeaconClientConfig) (now_wall flags : Z) (io : list send_outcome) (c : BeaconClient)
  : M (option (bool * list Z * BeaconClient)) :=
  let! b := make_beacon cfg (seq_ c) now_wall flags in
  let wire := replicate (Z.to_nat (sl_beacon_wire_size b)) 0 in
  let! '(rc, wire) := sl_beacon_seal b (cc_key cfg) (cc_static_iv cfg) (seq_ c) wire in
  match rc with
  | None => Ok (Some (false, [], c))
  | Some wire_len =>
      let! w := load_bytes wire 0 wire_len in
      let! frame := encode kData 0 w in
      match write_all io 0 (len frame) with
      | None => Ok None
      | Some (false, sent) => Ok (Some (false, take (Z.to_nat sent) frame, c))
      | Some (true, _) =>
          let s := stats_ c in
          Ok (Some (true, frame,
            mk_beacon_client (fd_ c) (u64 (seq_ c + 1)) (running_ c)
              (mk_client_stats (u64 (beacons_sent s + 1)) (acks_received s) (send_failures s) (reconnects s) (last_rtt_ms s))))
      end
  end.

(** [pr] is what poll returns, [n] what recv returns. *)
(* src/src/beacon_client.cpp:139-149 *)
Definition wait_for_ack (pr n : Z) (c : BeaconClient) : bool * BeaconClient :=
  if pr <=? 0 then (false, c)
  else if n <=? 0 then (false, c)
  else
    let s := stats_ c in
    (true, set_stats c (mk_client_stats (beacons_sent s) (u64 (acks_received s + 1)) (send_failures s) (reconnects s) (last_rtt_ms s))).

Definition count_failure (c : BeaconClient) : BeaconClient :=
  let s := stats_ c in
  set_stats c (mk_client_stats (beacons_sent s) (acks_received s) (u64 (send_failures s + 1)) (reconnects s) (last_rtt_ms s)).

(** [t0], [t1]: the monotonic clock before sending and after the acknowledgement. *)
(* src/src/beacon_client.cpp:177-193 *)
Definition send_one (cfg : BeaconClientConfig) (t0 now_wall t1 : Z) (io : list send_outcome) (ack_pr ack_n : Z) (c : BeaconClient)
  : M (option (bool * list Z * BeaconClient)) :=
  let flags := if request_ack cfg then SL_BEACON_FLAG_REQUEST_ACK else 0 in
  let! r := send_beacon_locked cfg now_wall flags io c in
  match r with
  | None => Ok None
  | Some (false, out, c) => Ok (Some (false, out, count_failure c))
  | Some (true, out, c) =>
      if request_ack cfg then
        let '(ok, c) := wait_for_ack ack_pr ack_n c in
        if negb ok then Ok (Some (false, out, count_failure c))
        else
          let s := stats_ c in
          Ok (Some (true, out, set_stats c (mk_client_stats (beacons_sent s) (acks_received s) (send_failures s)
                (reconnects s) (u64 (t1 - t0)))))
      else Ok (Some (true, out, c))
  end.

End Client.

(** Up to eight attempts; each one reads [running_], sleeps, and connects. The result also
    lists the delays slept and the descriptors closed. *)
(* src/src/beacon_client.cpp:155-163 BeaconClient::reconnect_with_backoff *)
Fixpoint reconnect_loop (attempts : nat) (delay : Z) (env : list (bool * option (list address_try))) (c : BeaconClient)
  : option (bool * list Z * list Z * BeaconClient) :=
  match attempts with
  | O => Some (false, [], [], c)
  | S attempts =>
      match env with
      | [] => None
      | (run, gai) :: env =>
          if negb run then Some (false, [], [], c)
          else
            let '(ok, closed, c) := connect gai c in
            if ok then
              let s := stats_ c in
              Some (true, [delay], closed,
                set_stats c (mk_client_stats (beacons_sent s) (acks_received s) (send_failures s) (u64 (reconnects s + 1)) (last_rtt_ms s)))
            else
              match reconnect_loop attempts (Z.min (u32 (delay * 2)) 30000) env c with
              | None => None
              | Some (r, ds, cl, c) => Some (r, delay :: ds, closed ++ cl, c)
              end
      end
  end.

(* src/src/beacon_client.cpp:151-164 *)
Definition reconnect_with_backoff := reconnect_loop 8 500.

(* src/src/beacon_client.cpp:166-175 *)
Definition next_delay_ms `{RandLaws R} (fuel : nat) (cfg : BeaconClientConfig) (r : R) : M (Z * R) :=
  if jitter_ms cfg =? 0 then Ok (interval_ms cfg, r)
  else
    let! '(o, r) := sl_rng_uniform fuel (u32 (2 * jitter_ms cfg + 1)) r in
    let j := default 0 o in
    let out := interval_ms cfg + (j - jitter_ms cfg) in
    Ok (if out <? 100 then 100 else u32 out, r).

Section Run.
Context `{Gcm} `{RandLaws R}.

(** One turn of the loop; [run] is what it reads from [running_]. The result tells whether
    the loop goes on, the bytes sent, the descriptors closed and the time slept at the end. *)
(* src/src/beacon_client.cpp:197-206 BeaconClient::run *)
Definition run_turn (cfg : BeaconClientConfig) (run : bool) (env : list (bool * option (list address_try)))
  (t0 now_wall t1 : Z) (io : list send_outcome) (ack_pr ack_n : Z) (fuel : nat) (rnd : R) (c : BeaconClient)
  : M (option (bool * list Z * list Z * option Z * BeaconClient * R)) :=
  if negb run then Ok (Some (false, [], [], None, c, rnd))
  else
    match (if fd_ c <? 0 then reconnect_with_backoff env c else Some (true, [], [], c)) with
    | None => Ok None
    | Some (false, _, closed, c) => Ok (Some (false, [], closed, None, c, rnd))
    | Some (true, _, closed, c) =>
        let! r := send_one cfg t0 now_wall t1 io ack_pr ack_n c in
        match r with
        | None => Ok None
        | Some (false, out, c) => Ok (Some (true, out, closed ++ [fd_ c], None, set_fd c (-1), rnd))
        | Some (true, out, c) =>
            let! '(d, rnd) := next_delay_ms fuel cfg rnd in
            Ok (Some (true, out, closed, Some d, c, rnd))
        end
    end.

End Run.

(** ** The server accepts a beacon once *)

Lemma window_ok : exists k, 6 <= k < 32 /\ window = 2 ^ k.
Proof. by exists 10. Qed.

Definition guard_of (clients : gmap Z ClientState) (id : Z) : ReplayGuard :=
  replay (default zero_client (clients !! id)).

(** [A id] lists the numbers accepted from client [id]. *)
Definition server_ok (A : Z -> list Z) (clients : gmap Z ClientState) : Prop :=
  forall id, guard_rel window (A id) (guard_of clients id).

Definition accept (A : Z -> list Z) (id s : Z) : Z -> list Z := fun i => if decide (i = id) then s :: A id else A i.

Lemma server_ok_empty : server_ok (fun _ => []) ∅.
Proof. intros id. unfold guard_of. rewrite lookup_empty. apply (guard_rel_new window window_ok). Qed.

Lemma server_ok_insert A clients id cs S :
  server_ok A clients -> guard_rel window S (replay cs) ->
  server_ok (fun i => if decide (i = id) then S else A i) (<[id := cs]> clients).
Proof.
  intros HA Hcs i. unfold guard_of. destruct (decide (i = id)) as [->|].
  - by rewrite lookup_insert_eq.
  - rewrite lookup_insert_ne by done. apply HA.
Qed.

Lemma server_ok_ext A B clients : (forall i, A i = B i) -> server_ok A clients -> server_ok B clients.
Proof. intros E H i. rewrite <- E. apply H. Qed.

Lemma fresh_not_in S s : fresh window S s = true -> s ∉ S.
Proof.
  unfold fresh. intros [_ [Ht%Z.ltb_lt|[_ Hn]%andb_prop]%orb_prop]%andb_prop.
  - intros Hin%top_ge. lia.
  - apply negb_true_iff, bool_decide_eq_false in Hn. done.
Qed.

Section ServerSpec.
Context `{GcmLaws}.

(** The fields the server reads after opening are those of the header it looked at. *)
Lemma open_header wire key iv seq b0 rc b peek :
  sl_beacon_unpack_header wire = Ok peek -> sl_beacon_open wire key iv seq b0 = Ok (rc, b) ->
  rc = 0 -> exists p, b = set_payload peek p.
Proof.
  intros Eu. unfold sl_beacon_open. destruct (len wire <? _); [intros; by simplify_eq|]. rewrite Eu.
  destruct (negb (sl_beacon_validate peek =? 0)); [intros; by simplify_eq|].
  destruct (negb (len wire =? _)); [intros; by simplify_eq|].
  destruct (load_bytes wire 0 _); [|done]. destruct (load_bytes wire SL_BEACON_HEADER_LEN _); [|done].
  destruct (load_bytes wire (_ + _) _); [|done]. destruct (sl_nonce_build _ _ _); [|done].
  destruct (sl_aead_open _ _ _ _ _) as [rc' w]. destruct (store_bytes _ 0 w) as [p|]; [|done].
  destruct (negb (rc' =? 0)); intros; simplify_eq. by exists p.
Qed.

Definition skew_of (now_wall ts : Z) : Z := Z.abs (ts - now_wall).

(** The verdict in terms of what was accepted before and what opening gives. *)
Definition verdict (cfg : BeaconServerConfig) (A : list Z) (now_wall : Z) (peek : sl_beacon_t) (rc : Z) : BeaconResult :=
  if negb (fresh window A (bc_sequence peek)) then kReplay
  else if negb (rc =? 0) then kAuthFailed
  else if max_skew_ms cfg <? skew_of now_wall (bc_timestamp_ms peek) then kClockSkew
  else kAccepted.

Lemma on_beacon_client_spec cfg now_wall now_mono wire peek cs A rc opened :
  guard_rel window A (replay cs) -> beacon_fields peek -> is_u64 now_wall ->
  sl_beacon_unpack_header wire = Ok peek ->
  sl_beacon_open wire (bs_key cfg) (bs_static_iv cfg) (bc_sequence peek) zero_beacon = Ok (rc, opened) ->
  exists cs', on_beacon_client cfg now_wall now_mono wire peek cs = Ok (verdict cfg A now_wall peek rc, cs') /\
    guard_rel window (if decide (verdict cfg A now_wall peek rc = kAccepted) then bc_sequence peek :: A else A) (replay cs') /\
    (verdict cfg A now_wall peek rc = kAccepted -> alive cs' = true /\ last_seen_mono_ms cs' = now_mono /\
       last_seq cs' = bc_sequence peek) /\
    (verdict cfg A now_wall peek rc <> kAccepted -> alive cs' = alive cs /\ last_seen_mono_ms cs' = last_seen_mono_ms cs).
Proof.
  intros Hg (_ & Hs & Ht & _) Hn Eu Eo. unfold on_beacon_client, verdict.
  rewrite (would_accept_fresh window window_ok A) by done. cbv beta iota.
  destruct (fresh window A (bc_sequence peek)) eqn:Ef; cbn [negb]; [|eexists; split; [done|]; by rewrite decide_False].
  rewrite Eo. cbv beta iota. destruct (Z.eqb_spec rc 0) as [->|Hr]; cbn [negb]; [|eexists; split; [done|]; by rewrite decide_False].
  destruct (open_header _ _ _ _ _ _ _ _ Eu Eo eq_refl) as [p ->]. cbn [set_payload bc_timestamp_ms bc_sequence].
  replace (if now_wall <? bc_timestamp_ms peek then u64 (bc_timestamp_ms peek - now_wall) else u64 (now_wall - bc_timestamp_ms peek))
    with (skew_of now_wall (bc_timestamp_ms peek))
    by (unfold skew_of; destruct (Z.ltb_spec now_wall (bc_timestamp_ms peek)); rewrite u64_small; lia).
  destruct (max_skew_ms cfg <? _); [eexists; split; [done|]; by rewrite decide_False|].
  destruct (check_refines window window_ok A (replay cs) (bc_sequence peek) Hg Hs) as (g & -> & Hg').
  unfold spec_step in *. rewrite Ef in *. cbn [fst snd negb] in *. eexists. split; [done|]. by rewrite decide_True.
Qed.

Lemma claim_replay id cs : replay (claim id cs) = replay cs.
Proof. unfold claim. by destruct (_ =? 0). Qed.

(** One beacon: refused as malformed with nothing changed, or judged by [verdict]. *)
Lemma on_beacon_spec cfg now_wall now_mono wire clients A :
  server_ok A clients -> bytes_ok wire -> len (bs_static_iv cfg) = SL_AEAD_IV_LEN -> is_u64 now_wall ->
  on_beacon cfg now_wall now_mono wire clients = Ok (kMalformed, clients) \/
  exists peek rc opened cs',
    let id := bc_client_id peek in
    sl_beacon_unpack_header wire = Ok peek /\ beacon_fields peek /\ sl_beacon_validate peek = 0 /\
    sl_beacon_open wire (bs_key cfg) (bs_static_iv cfg) (bc_sequence peek) zero_beacon = Ok (rc, opened) /\
    (rc = 0 -> sl_beacon_seal opened (bs_key cfg) (bs_static_iv cfg) (bc_sequence peek) (replicate (length wire) 0) =
               Ok (Some (len wire), wire) /\ exists p, opened = set_payload peek p) /\
    on_beacon cfg now_wall now_mono wire clients = Ok (verdict cfg (A id) now_wall peek rc, <[id := cs']> clients) /\
    server_ok (if decide (verdict cfg (A id) now_wall peek rc = kAccepted) then accept A id (bc_sequence peek) else A)
      (<[id := cs']> clients) /\
    (verdict cfg (A id) now_wall peek rc = kAccepted -> alive cs' = true /\ last_seen_mono_ms cs' = now_mono /\
       last_seq cs' = bc_sequence peek).
Proof.
  intros HA Hb Hi Hn. unfold on_beacon at 1. destruct (Z.ltb_spec (len wire) (SL_BEACON_HEADER_LEN + SL_AEAD_TAG_LEN)) as [|Hl]; [by left|].
  beacon_consts. destruct (beacon_header_sound wire Hb) as (peek & E & Hf & Hp); [lia|].
  assert (Eu : sl_beacon_unpack_header wire = Ok peek).
  { rewrite E, beacon_unpack_header_spec by done. f_equal. destruct peek. simpl in *. by subst. }
  rewrite Eu. cbv beta iota. destruct (Z.eqb_spec (sl_beacon_validate peek) 0) as [Hv|]; cbn [negb]; [|by left]. right.
  destruct (beacon_open_authentic wire (bs_key cfg) (bs_static_iv cfg) (replicate (length wire) 0) (bc_sequence peek) zero_beacon)
    as (rc & opened & Eo & Hauth & _); [done|done|by rewrite len_replicate|].
  set (cs := claim (bc_client_id peek) (default zero_client (clients !! bc_client_id peek))).
  destruct (on_beacon_client_spec cfg now_wall now_mono wire peek cs (A (bc_client_id peek)) rc opened)
    as (cs' & Ec & Hg & Hlive & _); [unfold cs; rewrite claim_replay; apply HA|done..|].
  exists peek, rc, opened, cs'. split; [done|]. split; [done|]. split; [done|]. split; [done|]. split.
  { intros ->. destruct (Hauth eq_refl) as [_ ?]. split; [done|]. by eapply open_header. }
  split. { unfold on_beacon. rewrite (proj2 (Z.ltb_ge _ _)) by (beacon_consts; lia). rewrite Eu, Hv. cbn [Z.eqb negb]. fold cs. by rewrite Ec. }
  split; [|done]. pose proof (server_ok_insert A clients (bc_client_id peek) cs' _ HA Hg) as Hs.
  eapply server_ok_ext, Hs. intros i. unfold accept. by repeat case_decide; subst.
Qed.

End ServerSpec.

(** A run of the server on what arrives, with the clock readings at each arrival. *)
Fixpoint serve `{Gcm} (cfg : BeaconServerConfig) (clients : gmap Z ClientState) (inputs : list (Z * Z * list Z))
  : M (list BeaconResult * gmap Z ClientState) :=
  match inputs with
  | [] => Ok ([], clients)
  | (wall, mono, w) :: inputs =>
      let! '(r, clients) := on_beacon cfg wall mono w clients in
      let! '(rs, clients) := serve cfg clients inputs in
      Ok (r :: rs, clients)
  end.

Definition input_ok (x : Z * Z * list Z) : Prop := is_u64 x.1.1 /\ bytes_ok x.2.

(** The client and number an arrival names, if it was accepted. *)
Definition accepted_name (x : Z * Z * list Z) (r : BeaconResult) : option (Z * Z) :=
  match r, sl_beacon_unpack_header x.2 with
  | kAccepted, Ok b => Some (bc_client_id b, bc_sequence b)
  | _, _ => None
  end.
Definition accepted_names (inputs : list (Z * Z * list Z)) (rs : list BeaconResult) : list (Z * Z) :=
  omap (fun p => accepted_name p.1 p.2) (zip inputs rs).

(** An arrival that deserved to be accepted: the sealing of a beacon under the server's key
    and the number in its header, recent enough. *)
Definition genuine `{Gcm} (cfg : BeaconServerConfig) (x : Z * Z * list Z) : Prop :=
  exists b, sl_beacon_validate b = 0 /\
    sl_beacon_seal b (bs_key cfg) (bs_static_iv cfg) (bc_sequence b) (replicate (length x.2) 0) = Ok (Some (len x.2), x.2) /\
    skew_of x.1.1 (bc_timestamp_ms b) <= max_skew_ms cfg.

Lemma verdict_accepted cfg A now peek rc :
  verdict cfg A now peek rc = kAccepted <->
  fresh window A (bc_sequence peek) = true /\ rc = 0 /\ skew_of now (bc_timestamp_ms peek) <= max_skew_ms cfg.
Proof.
  unfold verdict. destruct (fresh _ _ _); cbn [negb]; [|naive_solver]. destruct (Z.eqb_spec rc 0); cbn [negb]; [|naive_solver].
  destruct (Z.ltb_spec (max_skew_ms cfg) (skew_of now (bc_timestamp_ms peek))); naive_solver lia.
Qed.

Lemma serve_spec `{GcmLaws} cfg inputs : forall A clients,
  server_ok A clients -> len (bs_static_iv cfg) = SL_AEAD_IV_LEN -> Forall input_ok inputs ->
  exists rs clients', serve cfg clients inputs = Ok (rs, clients') /\ length rs = length inputs /\
    NoDup (accepted_names inputs rs) /\ (forall id s, (id, s) ∈ accepted_names inputs rs -> s ∉ A id) /\
    Forall2 (fun x r => r = kAccepted -> genuine cfg x) inputs rs.
Proof.
  induction inputs as [|[[wall mono] w] inputs IH]; intros A clients HA Hi Hx; cbn [serve].
  { exists [], clients. repeat (split; [done|]). split; [constructor|]. split; [|constructor]. intros id s Hin. by apply not_elem_of_nil in Hin. }
  inversion_clear Hx as [|?? [Hw Hb] Hx']. cbn [fst snd] in *.
  destruct (on_beacon_spec cfg wall mono w clients A HA Hb Hi Hw)
    as [->|(peek & rc & opened & cs' & Eu & Hf & Hv & Eo & Hseal & -> & HA' & _)]; cbv beta iota.
  { destruct (IH A clients HA Hi Hx') as (rs & clients' & -> & Hl & Hnd & Hni & Hg). exists (kMalformed :: rs), clients'.
    split; [done|]. split; [cbn; by f_equal|]. split; [done|]. split; [done|]. by constructor. }
  set (v := verdict cfg (A (bc_client_id peek)) wall peek rc) in *. destruct (decide (v = kAccepted)) as [Ev|Ev].
  - destruct (IH _ _ HA' Hi Hx') as (rs & clients' & -> & Hl & Hnd & Hni & Hg). exists (v :: rs), clients'.
    destruct (proj1 (verdict_accepted _ _ _ _ _) Ev) as (Hfr & -> & Hsk). destruct (Hseal eq_refl) as [Es [p ->]].
    split; [done|]. split; [cbn; by f_equal|].
    assert (En : accepted_names ((wall, mono, w) :: inputs) (v :: rs) = (bc_client_id peek, bc_sequence peek) :: accepted_names inputs rs).
    { unfold accepted_names. cbn [zip zip_with omap list_omap]. unfold accepted_name at 1. cbn [fst snd]. by rewrite Ev, Eu. }
    rewrite En. split.
    { constructor; [|done]. intros Hin. apply (Hni _ _ Hin). unfold accept. rewrite decide_True by done. by left. }
    split.
    { intros id s [E|Hin]%elem_of_cons; [injection E as -> ->; by apply fresh_not_in|].
      specialize (Hni id s Hin). unfold accept in Hni. case_decide; [subst; set_solver|done]. }
    constructor; [|done]. intros _. by exists (set_payload peek p).
  - destruct (IH _ _ HA' Hi Hx') as (rs & clients' & -> & Hl & Hnd & Hni & Hg). exists (v :: rs), clients'.
    assert (En : accepted_names ((wall, mono, w) :: inputs) (v :: rs) = accepted_names inputs rs).
    { unfold accepted_names. cbn [zip zip_with omap list_omap]. unfold accepted_name at 1. cbn [fst snd]. by destruct v. }
    rewrite En. split; [done|]. split; [cbn; by f_equal|]. split; [done|]. split; [done|]. by constructor.
Qed.

(** C14: A run of the beacon server from an empty table, on any bytes at any times. It never
    leaves its buffers. Every arrival it accepts is the sealing, under the server's key and
    the number in its header, of a valid beacon whose timestamp is within the allowed
    skew, and no client and number are accepted twice: forging, replaying and reordering
    messages cannot make the server count one beacon more than once. *)
Theorem beacon_server_accepts_once `{GcmLaws} cfg inputs :
  len (bs_static_iv cfg) = SL_AEAD_IV_LEN -> Forall input_ok inputs ->
  exists rs clients, serve cfg ∅ inputs = Ok (rs, clients) /\ length rs = length inputs /\
    NoDup (accepted_names inputs rs) /\
    Forall2 (fun x r => r = kAccepted -> genuine cfg x) inputs rs.
Proof.
  intros Hi Hx. destruct (serve_spec cfg inputs _ ∅ server_ok_empty Hi Hx) as (rs & clients & E & Hl & Hn & _ & Hg).
  by exists rs, clients.
Qed.

(** ** Delivery *)

Section Delivery.
Context `{GcmLaws}.

Definition client_cfg_ok (cfg : BeaconClientConfig) : Prop :=
  is_u64 (cc_client_id cfg) /\ is_u32 (interval_ms cfg) /\ (interval_ms cfg = 0 \/ 100 <= interval_ms cfg <= 600000) /\
  bytes_ok (static_payload cfg) /\ len (cc_static_iv cfg) = SL_AEAD_IV_LEN.

Definition sent_len (cfg : BeaconClientConfig) : Z := Z.min (len (static_payload cfg)) SL_BEACON_MAX_PAYLOAD.
Definition sent_payload (cfg : BeaconClientConfig) : list Z := take (Z.to_nat (sent_len cfg)) (static_payload cfg).

Definition beacon_of (cfg : BeaconClientConfig) (seq now_wall flags : Z) : sl_beacon_t :=
  mk_beacon (cc_client_id cfg) seq now_wall (interval_ms cfg) (sent_len cfg) flags
    (sent_payload cfg ++ drop (length (sent_payload cfg)) zero_payload).

Lemma len_sent cfg : len (sent_payload cfg) = sent_len cfg /\ 0 <= sent_len cfg <= 1024.
Proof.
  unfold sent_payload, sent_len, SL_BEACON_MAX_PAYLOAD. pose proof (len_nonneg (static_payload cfg)).
  rewrite len_take; lia.
Qed.

Lemma len_zero_payload : len zero_payload = 1024.
Proof. done. Qed.

Lemma make_beacon_spec cfg seq now_wall flags : make_beacon cfg seq now_wall flags = Ok (beacon_of cfg seq now_wall flags).
Proof.
  unfold make_beacon, beacon_of. destruct (len_sent cfg) as [Hl Hr]. fold (sent_len cfg). rewrite u16_small by lia.
  pose proof len_zero_payload. destruct (Z.ltb_spec 0 (sent_len cfg)).
  - rewrite load_bytes_in_bounds by (unfold sent_len in *; lia). cbv beta iota.
    change (take (Z.to_nat (sent_len cfg)) (drop (Z.to_nat 0) (static_payload cfg))) with (sent_payload cfg).
    by rewrite store_bytes_0 by lia.
  - assert (E : sent_payload cfg = []) by (apply len_0_nil; lia). by rewrite E.
Qed.

Lemma beacon_of_ok cfg seq now_wall flags :
  client_cfg_ok cfg -> 0 < seq < 18446744073709551616 -> is_u64 now_wall -> flags = 0 \/ flags = SL_BEACON_FLAG_REQUEST_ACK ->
  beacon_ok (beacon_of cfg seq now_wall flags).
Proof.
  intros (Hid & Hiv & Hint & _) Hs Hw Hfl. destruct (len_sent cfg) as [Hl Hr]. pose proof len_zero_payload as Hz.
  assert (Hf2 : is_u16 flags /\ Z.land flags (Z.lnot (Z.lor SL_BEACON_FLAG_REQUEST_ACK SL_BEACON_FLAG_LAST)) = 0).
  { by destruct Hfl as [->| ->]. }
  split; [|split].
  - unfold sl_beacon_validate, beacon_of. cbn [bc_sequence bc_payload_len bc_flags bc_interval_ms].
    rewrite (proj2 (Z.eqb_neq seq 0)) by lia. unfold SL_BEACON_MAX_PAYLOAD. rewrite (proj2 (Z.ltb_ge 1024 _)) by lia.
    rewrite (proj2 Hf2). cbn [Z.eqb negb]. by replace (negb (interval_ms cfg =? 0) && ((interval_ms cfg <? 100) || (600000 <? interval_ms cfg))) with false by lia.
  - unfold beacon_of. cbn [bc_payload]. rewrite len_app, len_drop_nat by (unfold len in *; lia). unfold SL_BEACON_MAX_PAYLOAD, len in *. lia.
  - unfold beacon_fields, beacon_of. cbn. repeat (split; [done || lia|]). apply Hf2.
Qed.

Lemma beacon_of_payload cfg seq now_wall flags : beacon_payload (beacon_of cfg seq now_wall flags) = sent_payload cfg.
Proof.
  unfold beacon_payload, beacon_of. cbn [bc_payload_len bc_payload]. destruct (len_sent cfg) as [Hl _].
  by rewrite (take_app_exact (sent_len cfg)) by lia.
Qed.

Definition sent_client (c : BeaconClient) : BeaconClient :=
  let s := stats_ c in
  mk_beacon_client (fd_ c) (u64 (seq_ c + 1)) (running_ c)
    (mk_client_stats (u64 (beacons_sent s + 1)) (acks_received s) (send_failures s) (reconnects s) (last_rtt_ms s)).

(** A send: one data frame around the sealed beacon. The receiving parser gives the beacon
    back and the server's opener accepts it. If the write fails, the sequence number is not
    used up. *)
Lemma send_beacon_run cfg now_wall flags io c ct tag :
  let b := beacon_of cfg (seq_ c) now_wall flags in
  let wire := beacon_wire b ct tag in
  let frame := frame_wire (mk_frame kData 0 wire) in
  client_cfg_ok cfg -> 0 < seq_ c < 18446744073709551616 -> is_u64 now_wall -> flags = 0 \/ flags = SL_BEACON_FLAG_REQUEST_ACK ->
  gcm_seal (cc_key cfg) (nonce_of (cc_static_iv cfg) (seq_ c)) (beacon_header b) (sent_payload cfg) = GcmSealed ct tag ->
  len frame = 56 + sent_len cfg /\
  send_beacon_locked cfg now_wall flags io c =
    Ok (match write_all io 0 (56 + sent_len cfg) with
        | None => None
        | Some (false, sent) => Some (false, take (Z.to_nat sent) frame, c)
        | Some (true, _) => Some (true, frame, sent_client c)
        end) /\
  sl_beacon_unpack_header wire = Ok (set_payload b zero_payload) /\
  sl_beacon_open wire (cc_key cfg) (cc_static_iv cfg) (seq_ c) zero_beacon = Ok (0, b).
Proof.
  intros b wire frame Hc Hs Hw Hfl Eg. unfold send_beacon_locked. rewrite make_beacon_spec. cbv beta iota. fold b.
  pose proof (beacon_of_ok cfg (seq_ c) now_wall flags Hc Hs Hw Hfl : beacon_ok b) as Hb.
  destruct (len_sent cfg) as [Hsl Hr].
  assert (Hsz : sl_beacon_wire_size b = 48 + sent_len cfg) by (unfold sl_beacon_wire_size, SL_BEACON_HEADER_LEN, SL_AEAD_TAG_LEN; cbn; lia).
  pose proof Hc as (_ & _ & _ & _ & Hi). set (o := replicate (Z.to_nat (sl_beacon_wire_size b)) 0).
  assert (Ho : len o = sl_beacon_wire_size b) by (unfold o; rewrite len_replicate; lia).
  assert (Hpl : beacon_payload b = sent_payload cfg) by apply beacon_of_payload.
  pose proof (beacon_seal_run b (cc_key cfg) (cc_static_iv cfg) (seq_ c) o Hb Hi ltac:(lia)) as Hrun. rewrite Hpl, Eg in Hrun.
  fold wire in Hrun. destruct (gcm_seal_len _ _ _ _ _ _ Eg) as [Hct Htag].
  assert (Hwl : len wire = sl_beacon_wire_size b).
  { unfold wire, beacon_wire. rewrite !len_app, len_beacon_header. unfold SL_AEAD_TAG_LEN in Htag. lia. }
  assert (Hfl' : len frame = 56 + sent_len cfg) by (unfold frame; rewrite len_frame_wire; cbn [payload]; lia).
  split; [done|]. split; [|split].
  - rewrite Hrun. cbv beta iota. rewrite drop_ge by (unfold len in Ho; lia). rewrite load_bytes_front by done. cbv beta iota.
    rewrite frame_encode_wire by lia. cbv beta iota. fold frame. rewrite Hfl'. by destruct (write_all io 0 _) as [[[] ?]|].
  - unfold wire, beacon_wire. by rewrite beacon_unpack_header_spec by apply Hb.
  - destruct (beacon_seal_open_roundtrip b zero_beacon (cc_key cfg) (cc_static_iv cfg) o _ (seq_ c) _ Hb Hi ltac:(lia) Hrun) as [_ Hop].
    rewrite drop_ge, app_nil_r, take_ge in Hop by (unfold len in *; lia). rewrite Hop. by rewrite Hpl.
Qed.

(** A frame on its own is what the next parser step returns. *)
Lemma deliver_frame wire f0 :
  len wire <= MAX_FRAME_SIZE ->
  next (feed (new_parser MAX_FRAME_SIZE) (frame_wire (mk_frame kData 0 wire))) f0 =
  Ok (kReady, mk_frame kData 0 wire, new_parser MAX_FRAME_SIZE).
Proof.
  intros Hl. unfold feed, new_parser. cbn [buf_ max_frame_ app]. rewrite <- (app_nil_r (frame_wire _)).
  apply next_wire. unfold frame_valid, MAX_FRAME_SIZE in *. cbn [type flags payload]. pose proof (len_nonneg wire).
  split; [done|]. split; [lia|]. split; [done|lia].
Qed.

Lemma fresh_above S s : 0 < s -> top S < s -> fresh window S s = true.
Proof. intros Hs Ht. unfold fresh. rewrite (proj2 (Z.eqb_neq s 0)), (proj2 (Z.ltb_lt (top S) s)) by lia. done. Qed.

Lemma on_beacon_not_malformed scfg wall mono wire clients peek :
  SL_BEACON_HEADER_LEN + SL_AEAD_TAG_LEN <= len wire -> sl_beacon_unpack_header wire = Ok peek ->
  sl_beacon_validate peek = 0 -> on_beacon scfg wall mono wire clients <> Ok (kMalformed, clients).
Proof.
  intros Hl Eu Hv. unfold on_beacon. rewrite (proj2 (Z.ltb_ge _ _)) by lia. rewrite Eu, Hv. cbv beta iota. cbn [Z.eqb negb].
  unfold on_beacon_client. destruct (would_accept _ _ _) as [[]|]; cbn [negb]; try done.
  destruct (sl_beacon_open _ _ _ _ _) as [[rc o]|]; try done. destruct (negb (rc =? 0)); try done.
  repeat (case_match; try done); congruence.
Qed.

(** One round: the clocks of both sides, the outcomes of the client's send calls. *)
Record round := mk_round { client_wall : Z; send_io : list send_outcome; server_wall : Z; server_mono : Z }.

(** The client sends, the server's connection parses the frame and hands over its payload;
    [None] when a send does not complete. *)
Fixpoint exchange (cfg : BeaconClientConfig) (scfg : BeaconServerConfig) (flags : Z) (c : BeaconClient)
  (clients : gmap Z ClientState) (rounds : list round) : M (option (list BeaconResult * BeaconClient * gmap Z ClientState)) :=
  match rounds with
  | [] => Ok (Some ([], c, clients))
  | r :: rounds =>
      let! s := send_beacon_locked cfg (client_wall r) flags (send_io r) c in
      match s with
      | Some (true, out, c) =>
          let! '(_, f, _) := next (feed (new_parser MAX_FRAME_SIZE) out) (mk_frame kInvalid 0 []) in
          let! '(v, clients) := on_beacon scfg (server_wall r) (server_mono r) (payload f) clients in
          let! rest := exchange cfg scfg flags c clients rounds in
          Ok (match rest with Some (vs, c, clients) => Some (v :: vs, c, clients) | None => None end)
      | _ => Ok None
      end
  end.

Definition round_ok (cfg : BeaconClientConfig) (scfg : BeaconServerConfig) (r : round) : Prop :=
  is_u64 (client_wall r) /\ is_u64 (server_wall r) /\
  skew_of (server_wall r) (client_wall r) <= max_skew_ms scfg /\
  exists sent, write_all (send_io r) 0 (56 + sent_len cfg) = Some (true, sent).

(** The same key material on both sides, and a cipher that seals. *)
Definition paired (cfg : BeaconClientConfig) (scfg : BeaconServerConfig) : Prop :=
  cc_key cfg = bs_key scfg /\ cc_static_iv cfg = bs_static_iv scfg /\
  forall iv aad pt, bytes_ok pt -> exists ct tag, gcm_seal (cc_key cfg) iv aad pt = GcmSealed ct tag /\ bytes_ok ct /\ bytes_ok tag.

Lemma exchange_spec cfg scfg flags rounds : forall c clients A,
  client_cfg_ok cfg -> paired cfg scfg -> flags = 0 \/ flags = SL_BEACON_FLAG_REQUEST_ACK -> server_ok A clients ->
  top (A (cc_client_id cfg)) < seq_ c -> 0 < seq_ c -> seq_ c + len rounds < 18446744073709551616 ->
  Forall (round_ok cfg scfg) rounds ->
  exists c' clients', exchange cfg scfg flags c clients rounds = Ok (Some (replicate (length rounds) kAccepted, c', clients')) /\
    seq_ c' = seq_ c + len rounds /\
    (forall r, last rounds = Some r -> exists cs, clients' !! cc_client_id cfg = Some cs /\ alive cs = true /\
       last_seen_mono_ms cs = server_mono r /\ last_seq cs = seq_ c' - 1).
Proof.
  induction rounds as [|r rounds IH]; intros c clients A Hc Hp Hfl HA Ht Hs Hn Hr; cbn [exchange].
  { exists c, clients. split; [done|]. split; [unfold len; simpl; lia|done]. }
  rewrite Forall_cons in Hr. destruct Hr as [(Hcw & Hsw & Hsk & sent & Ew) Hr']. rewrite len_cons in *. pose proof (len_nonneg rounds).
  pose proof Hp as (Ek & Ei & Hseal). pose proof Hc as (_ & _ & _ & Hpay & Hi).
  set (b := beacon_of cfg (seq_ c) (client_wall r) flags).
  destruct (Hseal (nonce_of (cc_static_iv cfg) (seq_ c)) (beacon_header b) (sent_payload cfg) ltac:(by apply Forall_take))
    as (ct & tag & Eg & Hbc & Hbt).
  destruct (send_beacon_run cfg (client_wall r) flags (send_io r) c ct tag Hc ltac:(lia) Hcw Hfl Eg) as (Hfl' & -> & Eu & Eo).
  fold b in Hfl', Eu, Eo |- *. set (wire := beacon_wire b ct tag) in *. rewrite Ew. cbv beta iota.
  destruct (len_sent cfg) as [_ Hlen]. rewrite len_frame_wire in Hfl'. cbn [payload] in Hfl'.
  rewrite deliver_frame by (unfold MAX_FRAME_SIZE; lia). cbv beta iota. cbn [payload].
  assert (Hwb : bytes_ok wire).
  { unfold wire, beacon_wire, beacon_header. repeat apply bytes_ok_app; auto with bytes. }
  destruct (on_beacon_spec scfg (server_wall r) (server_mono r) wire clients A HA Hwb ltac:(congruence) Hsw)
    as [Em|(peek & rc & opened & cs' & Eu' & _ & _ & Eo' & _ & Eb & HA' & Hlive)].
  { exfalso. eapply on_beacon_not_malformed; [|exact Eu| |exact Em]; [beacon_consts; lia|].
    apply (beacon_of_ok cfg (seq_ c) (client_wall r) flags Hc ltac:(lia) Hcw Hfl). }
  rewrite Eu in Eu'. injection Eu' as <-. cbn [set_payload bc_client_id bc_sequence b beacon_of] in *.
  rewrite <- Ek, <- Ei, Eo in Eo'. injection Eo' as <- <-.
  assert (Ev : verdict scfg (A (cc_client_id cfg)) (server_wall r) (set_payload b zero_payload) 0 = kAccepted).
  { apply verdict_accepted. split; [by apply fresh_above|]. split; [done|exact Hsk]. }
  rewrite Ev in *. rewrite Eb. cbv beta iota. rewrite decide_True in HA' by done.
  destruct (IH (sent_client c) (<[cc_client_id cfg := cs']> clients) (accept A (cc_client_id cfg) (seq_ c)))
    as (c' & clients' & Ex & Hseq & Hlast); [done|done|done|done|..]; cbn [sent_client seq_] in *; rewrite ?(u64_small (seq_ c + 1)) in * by lia;
    [unfold accept; rewrite decide_True by done; cbn [top foldr]; fold (top (A (cc_client_id cfg))); lia|lia|lia|done|].
  rewrite Ex. cbv beta iota. exists c', clients'. split; [done|]. split; [lia|]. intros r' Hl. destruct rounds as [|r2 rounds'].
  - injection Hl as <-. cbn [exchange replicate length] in Ex. injection Ex as <- <-. exists cs'. rewrite lookup_insert_eq.
    destruct (Hlive eq_refl) as (? & ? & ?). cbn [sent_client seq_]. rewrite u64_small by lia. repeat (split; [done|]). lia.
  - by apply Hlast.
Qed.

End Delivery.

(** ** Liveness *)

Lemma reap_lookup cfg now clients id cs :
  clients !! id = Some cs ->
  (reap_stale cfg now clients).2 !! id = Some (if is_stale cfg now cs then set_alive cs false else cs).
Proof. intros E. cbn [reap_stale snd]. by rewrite lookup_fmap, E. Qed.

(** What one sweep counts is how many fewer clients are alive after it. *)
Lemma reap_count cfg now clients :
  (reap_stale cfg now clients).1 =
  Z.of_nat (size (filter (fun e => alive e.2 = true) clients)) -
  Z.of_nat (size (filter (fun e => alive e.2 = true) (reap_stale cfg now clients).2)).
Proof.
  cbn [reap_stale fst snd]. induction clients as [|id cs m Hm IH] using map_ind; [done|].
  rewrite fmap_insert, !map_filter_insert. cbn [snd].
  destruct (is_stale cfg now cs) eqn:Es.
  - unfold is_stale in Es. apply andb_prop in Es as [Ea _]. rewrite Ea. cbn [set_alive alive].
    rewrite decide_True, decide_True, decide_False by done.
    rewrite !map_size_insert_None by (rewrite ?map_lookup_filter_None; auto).
    rewrite delete_id by (rewrite ?lookup_fmap, ?Hm; done). lia.
  - rewrite decide_False by done. rewrite (delete_id m) by done.
    destruct (alive cs).
    + rewrite !decide_True by done. rewrite !map_size_insert_None by (rewrite ?map_lookup_filter_None, ?lookup_fmap, ?Hm; auto). lia.
    + rewrite !decide_False by done. rewrite !delete_id by (rewrite ?lookup_fmap, ?Hm; done). done.
Qed.

(** C15: Beacons get through and keep the client alive. A new client and an empty server with
    the same key material, a cipher that seals, clocks within the allowed skew and writes
    that complete: every beacon the client sends is parsed, authenticated and accepted,
    in order, with consecutive numbers; the server then holds the client as alive, with
    the time and number of the last beacon, and a later sweep takes it for dead exactly
    when more than the liveness timeout has passed since. *)
Theorem beacons_delivered `{GcmLaws} cfg scfg flags fd rounds :
  client_cfg_ok cfg -> paired cfg scfg -> flags = 0 \/ flags = SL_BEACON_FLAG_REQUEST_ACK ->
  1 + len rounds < 18446744073709551616 -> Forall (round_ok cfg scfg) rounds ->
  exists c clients,
    exchange cfg scfg flags (set_fd new_beacon_client fd) ∅ rounds =
      Ok (Some (replicate (length rounds) kAccepted, c, clients)) /\ seq_ c = 1 + len rounds /\
    forall r, last rounds = Some r ->
      exists cs, clients !! cc_client_id cfg = Some cs /\ alive cs = true /\
        last_seen_mono_ms cs = server_mono r /\ last_seq cs = len rounds /\
        forall now, 0 <= server_mono r <= now -> is_u64 now ->
          exists cs', (reap_stale scfg now clients).2 !! cc_client_id cfg = Some cs' /\
            alive cs' = bool_decide (now - server_mono r <= liveness_timeout_ms scfg).
Proof.
  intros Hc Hp Hfl Hn Hr.
  destruct (exchange_spec cfg scfg flags rounds (set_fd new_beacon_client fd) ∅ (fun _ => []) Hc Hp Hfl server_ok_empty)
    as (c & clients & E & Hs & Hl); [done|done|done|done|]. cbn [set_fd new_beacon_client seq_] in Hs.
  exists c, clients. split; [done|]. split; [done|]. intros r Hlast. destruct (Hl r Hlast) as (cs & El & Ha & Hm & Hq).
  exists cs. repeat (split; [done|]). split; [lia|]. intros now Hnow Hu. eexists. split; [by apply reap_lookup|].
  unfold is_stale. rewrite Ha, Hm, u64_small by lia. cbn [andb].
  destruct (Z.ltb_spec (liveness_timeout_ms scfg) (now - server_mono r)); [by rewrite bool_decide_false by lia|].
  by rewrite bool_decide_true by lia.
Qed.

(** ** Connecting and waiting *)

(** The descriptors the loop opens. *)
Fixpoint opened_sockets (ts : list address_try) : list Z :=
  match ts with
  | [] => []
  | t :: ts =>
      if try_socket t <? 0 then opened_sockets ts
      else if try_nonblocking t && ((try_connect t =? 0) || (try_in_progress t && (0 <? try_poll t) && (try_getsockopt t =? 0) && (try_error t =? 0)))
      then [try_socket t]
      else try_socket t :: opened_sockets ts
  end.

(** No descriptor is lost: all that were opened are closed again, but the one kept. *)
Lemma connect_no_leak ts :
  let '(r, closed) := try_addresses ts in opened_sockets ts = closed ++ match r with Some fd => [fd] | None => [] end.
Proof.
  induction ts as [|t ts IH]; [done|]. cbn [try_addresses opened_sockets]. destruct (try_addresses ts) as [r closed].
  cbn [fst snd] in *. destruct (try_socket t <? 0); [done|]. destruct (try_nonblocking t); cbn [negb andb]; [|by rewrite IH].
  destruct (try_connect t =? 0); cbn [orb]; [done|]. destruct (try_in_progress t); cbn [negb andb]; [|by rewrite IH].
  destruct (Z.leb_spec (try_poll t) 0), (Z.ltb_spec 0 (try_poll t)); try lia; cbn [andb]; [by rewrite IH|].
  destruct (try_getsockopt t =? 0), (try_error t =? 0); cbn [negb orb andb]; done || by rewrite IH.
Qed.

Fixpoint doubling (n : nat) (d : Z) : list Z :=
  match n with O => [] | S n => d :: doubling n (Z.min (d * 2) 30000) end.

(** Reconnecting sleeps for the first delays of 0.5, 1, 2, 4, 8, 16, 30, 30 seconds. *)
Lemma reconnect_delays n : forall d env c r ds cl c',
  0 <= d <= 30000 -> reconnect_loop n d env c = Some (r, ds, cl, c') -> ds `prefix_of` doubling n d.
Proof.
  induction n as [|n IH]; intros d env c r ds cl c' Hd; cbn [reconnect_loop doubling]; [intros; by simplify_eq|].
  destruct env as [|[run gai] env]; [done|]. destruct run; cbn [negb]; [|intros; simplify_eq; apply prefix_nil].
  destruct (connect gai c) as [[ok closed] c1]. destruct ok; [intros; simplify_eq; apply prefix_cons, prefix_nil|].
  rewrite u32_small by lia. destruct (reconnect_loop n _ env c1) as [[[[r1 ds1] cl1] c2]|] eqn:E; [|done].
  intros [= <- <- <- <-]. apply prefix_cons. eapply IH, E. lia.
Qed.

Section Delay.
Context {R : Type} `{RandLaws R}.

(** The wait between beacons: the interval, moved by at most the jitter, at least 100 ms. *)
Lemma next_delay_bounds cfg k fuel (r : R) :
  0 < jitter_ms cfg < 2 ^ 31 -> 0 <= interval_ms cfg -> interval_ms cfg + jitter_ms cfg < 2 ^ 32 ->
  (k < fuel)%nat -> settles (2 * jitter_ms cfg + 1) (nth_draw k r) ->
  exists d r', next_delay_ms fuel cfg r = Ok (d, r') /\
    Z.max 100 (interval_ms cfg - jitter_ms cfg) <= d <= Z.max 100 (interval_ms cfg + jitter_ms cfg).
Proof.
  intros Hj Hi Hs Hk Hset. unfold next_delay_ms. rewrite (proj2 (Z.eqb_neq _ 0)) by lia. rewrite u32_small by lia.
  unfold sl_rng_uniform. rewrite (proj2 (Z.eqb_neq _ 0)) by lia.
  destruct (uniform_loop_settles (2 * jitter_ms cfg + 1) ltac:(lia) k fuel r Hk Hset) as (o & r' & -> & Ho). cbv beta iota.
  assert (Hd : 0 <= default 0 o < 2 * jitter_ms cfg + 1) by (destruct o; cbn in *; lia).
  eexists _, _. split; [done|]. destruct (Z.ltb_spec (interval_ms cfg + (default 0 o - jitter_ms cfg)) 100); [lia|].
  rewrite u32_small by lia. lia.
Qed.

End Delay.

(** ** Concrete runs *)

Definition sample_client : BeaconClientConfig :=
  mk_client_config 7 5000 500 5000 3000 true [1; 2] [9] (replicate 12 3).
Definition sample_server : BeaconServerConfig := mk_server_config 15000 30000 [9] (replicate 12 3).

Definition sample_rounds : list round :=
  [mk_round 1000 [Sent 20; WouldBlock 1; Sent 38] 1500 10; mk_round 6000 [Sent 58] 6100 5010].

Definition sample_wire : list Z :=
  match sl_beacon_seal (beacon_of sample_client 1 1000 0) [9] (replicate 12 3) 1 (replicate 50 0) with
  | Ok (_, w) => w
  | Fault => []
  end.

Lemma toy_seals k iv aad pt :
  bytes_ok pt -> exists ct tag, gcm_seal k iv aad pt = GcmSealed ct tag /\ bytes_ok ct /\ bytes_ok tag.
Proof.
  intros Hb. eexists _, _. split; [done|]. split.
  - apply Forall_map. eapply Forall_impl; [exact Hb|]. intros x Hx. apply lxor_u8; [apply Z.mod_pos_bound; lia|done].
  - apply Forall_replicate. apply Z.mod_pos_bound. lia.
Qed.

Lemma beacons_delivered_witness :
  exists c clients, exchange sample_client sample_server 0 (set_fd new_beacon_client 4) ∅ sample_rounds =
    Ok (Some ([kAccepted; kAccepted], c, clients)) /\ seq_ c = 3.
Proof.
  destruct (beacons_delivered sample_client sample_server 0 4 sample_rounds) as (c & clients & E & Hs & _).
  - unfold client_cfg_ok. cbn [sample_client cc_client_id interval_ms static_payload cc_static_iv].
    split; [lia|]. split; [lia|]. split; [lia|]. split; [by_deciding|reflexivity].
  - split; [reflexivity|]. split; [reflexivity|]. intros. by apply toy_seals.
  - by left.
  - vm_compute. reflexivity.
  - repeat (apply Forall_cons_2; [unfold round_ok; cbn [client_wall server_wall send_io];
      split; [lia|]; split; [lia|]; split; [by vm_compute|]; exists 58; reflexivity|]). apply Forall_nil_2.
  - exists c, clients. split; [exact E|exact Hs].
Defined.

Lemma beacon_server_accepts_once_witness :
  exists rs clients, serve sample_server ∅ [(1500, 10, sample_wire); (1501, 11, sample_wire); (1502, 12, [0; 1])] =
    Ok (rs, clients) /\ rs = [kAccepted; kReplay; kMalformed].
Proof.
  destruct (beacon_server_accepts_once sample_server [(1500, 10, sample_wire); (1501, 11, sample_wire); (1502, 12, [0; 1])])
    as (rs & clients & E & _).
  - reflexivity.
  - repeat (apply Forall_cons_2; [split; [cbn; lia|apply (bool_decide_unpack _); vm_compute; exact I]|]). apply Forall_nil_2.
  - exists rs, clients. split; [done|]. vm_compute in E. by injection E as <- _.
Defined.

(** A write that fails leaves the sequence number as it was, so the next beacon is sealed
    under the same key and nonce with another timestamp: the connection has then carried
    two messages under one nonce. *)
Example retry_reuses_nonce :
  exists out1 c1 out2 c2,
    send_beacon_locked sample_client 1000 0 [Sent 57; SendFailed] (set_fd new_beacon_client 4) = Ok (Some (false, out1, c1)) /\
    send_beacon_locked sample_client 6000 0 [Sent 58] c1 = Ok (Some (true, out2, c2)) /\
    seq_ c1 = 1 /\ len out1 = 57 /\
    (* the client and the number that determine the nonce *)
    take 16 (drop 8 out1) = take 16 (drop 8 out2) /\
    (* the timestamp *)
    take 8 (drop 24 out1) <> take 8 (drop 24 out2).
Proof. eexists _, _, _, _. split; [vm_compute; reflexivity|]. split; [vm_compute; reflexivity|]. by vm_compute. Qed.

(** The nonce depends on the number alone: clients that share the server's single key seal
    their n-th beacons under the same nonce. *)
Lemma clients_share_nonces `{GcmLaws} cfg1 cfg2 io seq now1 now2 ct1 tag1 ct2 tag2 c :
  client_cfg_ok cfg1 -> client_cfg_ok cfg2 -> cc_key cfg1 = cc_key cfg2 -> cc_static_iv cfg1 = cc_static_iv cfg2 ->
  0 < seq_ c < 18446744073709551616 -> is_u64 now1 -> is_u64 now2 -> seq = seq_ c ->
  gcm_seal (cc_key cfg1) (nonce_of (cc_static_iv cfg1) seq) (beacon_header (beacon_of cfg1 seq now1 0)) (sent_payload cfg1) = GcmSealed ct1 tag1 ->
  gcm_seal (cc_key cfg1) (nonce_of (cc_static_iv cfg1) seq) (beacon_header (beacon_of cfg2 seq now2 0)) (sent_payload cfg2) = GcmSealed ct2 tag2 ->
  write_all io 0 (56 + sent_len cfg1) = Some (true, 56 + sent_len cfg1) ->
  write_all io 0 (56 + sent_len cfg2) = Some (true, 56 + sent_len cfg2) ->
  send_beacon_locked cfg1 now1 0 io c = Ok (Some (true, frame_wire (mk_frame kData 0 (beacon_wire (beacon_of cfg1 seq now1 0) ct1 tag1)), sent_client c)) /\
  send_beacon_locked cfg2 now2 0 io c = Ok (Some (true, frame_wire (mk_frame kData 0 (beacon_wire (beacon_of cfg2 seq now2 0) ct2 tag2)), sent_client c)).
Proof.
  intros H1 H2 Ek Ei Hs Hn1 Hn2 -> E1 E2 W1 W2. rewrite Ek, Ei in E2.
  destruct (send_beacon_run cfg1 now1 0 io c ct1 tag1 H1 Hs Hn1 ltac:(by left) E1) as (_ & -> & _).
  destruct (send_beacon_run cfg2 now2 0 io c ct2 tag2 H2 Hs Hn2 ltac:(by left) E2) as (_ & -> & _). by rewrite W1, W2.
Qed.

(** A forged header creates an entry for the client it names before anything is
    authenticated: the table grows with every identifier an attacker makes up. *)
Example forged_header_creates_client :
  exists clients, on_beacon sample_server 1500 10 (beacon_header (beacon_of sample_client 1 1000 0) ++ replicate 18 0) ∅ =
    Ok (kAuthFailed, clients) /\ client_count clients = 1.
Proof. eexists. split; vm_compute; reflexivity. Qed.

(** Whatever arrives counts as an acknowledgement. *)
Example any_bytes_are_an_ack c : (wait_for_ack 1 1 c).1 = true.
Proof. done. Qed.

(** The bound of the draw is computed in 32 bits: with a jitter of 2^31 ms it is 1, and every
    wait is the minimum. *)
Example jitter_wraps :
  next_delay_ms 1 (mk_client_config 7 5000 (2 ^ 31) 5000 3000 true [] [] []) [Some (be64 12345)] = Ok (100, []).
Proof. vm_compute. reflexivity. Qed.
