(* ===== verification/SnapshotManager.v ===== *)
(** Periodic snapshots of a component ([inc/snapshot_manager.hpp],
    [src/snapshot_manager.cpp]), over the atomic snapshot files of [Snapshot]. The
    component's state and its two conversions are parameters; the outcomes of the file
    operations and of the buffer's allocation are arguments. *)

From Stdlib Require Import String.
From stdpp Require Import gmap.
From S2P Require Import Prelude ByteOrder Codec Crc32 Stdio KeySched Snapshot.
Local Open Scope Z_scope.

(* src/inc/snapshot_manager.hpp:24-28 *)
Record SnapshotManagerConfig := mk_smc {
  sm_path : list Z;
  sm_interval_ms : Z;
  fsync_on_save : bool
}.

(* src/inc/snapshot_manager.hpp:30-36 *)
Record SnapshotManagerStats := mk_sms {
  saves_ok : Z;
  saves_failed : Z;
  loads_ok : Z;
  loads_failed : Z;
  last_size_bytes : Z
}.

(** The manager, and the disk and the checksum table it works on. *)
Record SnapshotManager := mk_sm {
  sm_running : bool;
  sm_stats : SnapshotManagerStats;
  sm_fs : directory;
  sm_crc : crc_statics
}.

Definition new_snapshot_manager (fs : directory) (s : crc_statics) : SnapshotManager :=
  mk_sm false (mk_sms 0 0 0 0 0) fs s.

Definition count_load_failure (st : SnapshotManagerStats) : SnapshotManagerStats :=
  mk_sms (saves_ok st) (saves_failed st) (loads_ok st) (u64 (loads_failed st + 1)) (last_size_bytes st).

Section Manager.
Context {App : Type} (serialize_ : option (App -> list Z)) (deserialize_ : option (list Z -> App -> bool * App)).
Context (cfg_ : SnapshotManagerConfig).

(** [None] is the exception of a buffer that cannot be allocated. The component's state is
    what the deserializer leaves. *)
(* src/src/snapshot_manager.cpp:18-45 *)
Definition restore (alloc_ok : Z -> bool) (m : SnapshotManager) (a : App) : M (option bool * SnapshotManager * App) :=
  match deserialize_ with
  | None => Ok (Some false, m, a)
  | Some deserialize =>
      let! '(rc, _, size, s) := sl_snapshot_load (sm_crc m) (sm_fs m) (sm_path cfg_) [] in
      let m := mk_sm (sm_running m) (sm_stats m) (sm_fs m) s in
      if rc =? -1 then Ok (Some true, m, a)
      else
        let size := default 0 size in
        if negb (alloc_ok size) then Ok (None, m, a)
        else
          let buf := replicate (Z.to_nat size) 0 in
          let! '(rc, buf, size2, s) := sl_snapshot_load (sm_crc m) (sm_fs m) (sm_path cfg_) buf in
          let size := default size size2 in
          let m := mk_sm (sm_running m) (sm_stats m) (sm_fs m) s in
          let failed := mk_sm (sm_running m) (count_load_failure (sm_stats m)) (sm_fs m) s in
          if negb (rc =? 0) then Ok (Some false, failed, a)
          else
            let buf := take (Z.to_nat size) buf ++ replicate (Z.to_nat (size - len buf)) 0 in
            let '(ok, a) := deserialize buf a in
            if negb ok then Ok (Some false, failed, a)
            else
              let st := sm_stats m in
              Ok (Some true,
                  mk_sm (sm_running m) (mk_sms (saves_ok st) (saves_failed st) (u64 (loads_ok st + 1)) (loads_failed st) (len buf))
                    (sm_fs m) s, a)
  end.

(* src/src/snapshot_manager.cpp:47-60 *)
Definition save_now (env : save_env) (a : App) (m : SnapshotManager) : M (bool * SnapshotManager) :=
  match serialize_ with
  | None => Ok (false, m)
  | Some serialize =>
      let payload := serialize a in
      let! '(rc, fs, s) := sl_snapshot_save (sm_crc m) env (sm_fs m) (sm_path cfg_) payload in
      let st := sm_stats m in
      if rc =? 0 then
        Ok (true, mk_sm (sm_running m) (mk_sms (u64 (saves_ok st + 1)) (saves_failed st) (loads_ok st) (loads_failed st) (len payload)) fs s)
      else
        Ok (false, mk_sm (sm_running m) (mk_sms (saves_ok st) (u64 (saves_failed st + 1)) (loads_ok st) (loads_failed st) (last_size_bytes st)) fs s)
  end.

(** Whether a timer thread is to be started. *)
(* src/src/snapshot_manager.cpp:62-65 *)
Definition sm_start (m : SnapshotManager) : bool * SnapshotManager :=
  (negb (sm_running m), mk_sm true (sm_stats m) (sm_fs m) (sm_crc m)).

(** Whether the timer thread is woken and joined. *)
(* src/src/snapshot_manager.cpp:67-71 *)
Definition sm_stop (m : SnapshotManager) : bool * SnapshotManager :=
  (sm_running m, mk_sm false (sm_stats m) (sm_fs m) (sm_crc m)).

(** The timer thread: [ticks] lists, for each wait, whether the flag is still set when the
    wait returns, and the component's state and the disk at the save that follows. *)
(* src/src/snapshot_manager.cpp:73-83 *)
Fixpoint timer_loop (ticks : list (bool * App * save_env)) (m : SnapshotManager) : M SnapshotManager :=
  match ticks with
  | [] => Ok m
  | (still_running, a, env) :: ticks =>
      if negb still_running then Ok m
      else
        let! '(_, m) := save_now env a m in
        timer_loop ticks m
  end.

(** ** What a restart finds *)

Hypothesis serialize_bytes : forall f a, serialize_ = Some f -> bytes_ok (f a) /\ is_u64 (len (f a)).

(** The file on disk is the snapshot of [last], or there is none. *)
Definition holds (last : option (list Z)) (m : SnapshotManager) : Prop :=
  statics_ok (sm_crc m) /\ sm_fs m !! sm_path cfg_ = snapshot_file <$> last.

Lemma save_now_holds f env a m last :
  serialize_ = Some f -> holds last m ->
  exists ok m', save_now env a m = Ok (ok, m') /\ holds (if ok then Some (f a) else last) m' /\
    sm_running m' = sm_running m /\
    sm_stats m' = if ok then mk_sms (u64 (saves_ok (sm_stats m) + 1)) (saves_failed (sm_stats m)) (loads_ok (sm_stats m))
                               (loads_failed (sm_stats m)) (len (f a))
                  else mk_sms (saves_ok (sm_stats m)) (u64 (saves_failed (sm_stats m) + 1)) (loads_ok (sm_stats m))
                         (loads_failed (sm_stats m)) (last_size_bytes (sm_stats m)).
Proof.
  intros Ef [Hs Hf]. destruct (serialize_bytes f a Ef) as [Hb Hn]. unfold save_now. rewrite Ef.
  destruct (save_spec (sm_crc m) env (sm_fs m) (sm_path cfg_) (f a) Hs Hb Hn) as (rc & fs' & s' & -> & Hs' & _ & [[-> Hp]|[-> Hp]]);
    cbv beta iota; cbn [Z.eqb]; eexists _, _; (split; [done|]); (split; [|done]); split; cbn [sm_crc sm_fs]; [done|done|done|congruence].
Qed.

(** The first pass only learns the size; an empty payload is verified by it already. *)
Lemma load_sizes s fs path q :
  statics_ok s -> bytes_ok q -> is_u64 (len q) -> fs !! path = Some (snapshot_file q) ->
  exists rc buf s', sl_snapshot_load s fs path [] = Ok (rc, buf, Some (len q), s') /\ rc <> -1 /\ statics_ok s'.
Proof.
  intros Hs Hq Hn Hf. destruct (Z.ltb_spec 0 (len q)).
  - unfold sl_snapshot_load. rewrite Hf. unfold snapshot_file. rewrite read_header_spec by done. cbv beta iota.
    rewrite (proj2 (Z.ltb_lt _ _)) by done. by eexists _, _, _.
  - assert (Hc : is_u32 (crc32c (snapshot_header (len q) ++ q))).
    { apply crc32c_range, bytes_ok_app; [apply bytes_ok_snapshot_header|done]. }
    destruct (load_spec s fs path q _ [] Hs Hq Hn Hc ltac:(done) Hf) as (s' & Hs' & ->). rewrite Z.eqb_refl.
    by eexists _, _, _.
Qed.

Lemma restore_holds d alloc_ok a m last :
  deserialize_ = Some d -> holds last m ->
  (forall q, last = Some q -> bytes_ok q /\ is_u64 (len q) /\ alloc_ok (len q) = true) ->
  exists m', restore alloc_ok m a =
    Ok (match last with None => (Some true, m', a) | Some q => (Some (d q a).1, m', (d q a).2) end) /\ holds last m'.
Proof.
  intros Ed [Hs Hf] Hq. unfold restore. rewrite Ed. destruct last as [q|].
  - destruct (Hq q eq_refl) as (Hb & Hn & Ha). pose proof (len_nonneg q). cbn [fmap option_fmap option_map] in Hf.
    destruct (load_sizes (sm_crc m) (sm_fs m) (sm_path cfg_) q Hs Hb Hn Hf) as (rc & buf & s1 & -> & Hrc & Hs1).
    cbv beta iota. rewrite (proj2 (Z.eqb_neq rc (-1))) by done. cbn [sm_crc sm_fs]. change (default 0 (Some (len q))) with (len q). rewrite Ha. cbn [negb].
    assert (Hc : is_u32 (crc32c (snapshot_header (len q) ++ q))).
    { apply crc32c_range, bytes_ok_app; [apply bytes_ok_snapshot_header|done]. }
    destruct (load_spec s1 (sm_fs m) (sm_path cfg_) q _ (replicate (Z.to_nat (len q)) 0) Hs1 Hb Hn Hc ltac:(rewrite len_replicate; lia) Hf)
      as (s2 & Hs2 & ->). rewrite Z.eqb_refl. cbv beta iota. cbn [Z.eqb negb]. change (default (len q) (Some (len q))) with (len q).
    rewrite drop_ge, app_nil_r by (rewrite length_replicate, len_to_nat; lia). rewrite len_to_nat, take_ge by lia.
    replace (len q - len q) with 0 by lia. cbn [Z.to_nat replicate]. rewrite app_nil_r.
    destruct (d q a) as [[] a']; cbn [negb fst snd]; by eexists; (split; [done|]).
  - cbn [fmap option_fmap option_map] in Hf. unfold sl_snapshot_load. rewrite Hf. cbv beta iota. cbn [Z.eqb Pos.eqb]. by eexists; split.
Qed.

(** A sequence of saves of successive states: which ones succeeded, and the manager. *)
Fixpoint save_run (saves : list (App * save_env)) (m : SnapshotManager) : M (list bool * SnapshotManager) :=
  match saves with
  | [] => Ok ([], m)
  | (a, env) :: saves =>
      let! '(ok, m) := save_now env a m in
      let! '(oks, m) := save_run saves m in
      Ok (ok :: oks, m)
  end.

(** The payload of the last save that succeeded. *)
Fixpoint last_saved (f : App -> list Z) (saves : list (App * save_env)) (oks : list bool) (last : option (list Z)) : option (list Z) :=
  match saves, oks with
  | (a, _) :: saves, ok :: oks => last_saved f saves oks (if ok then Some (f a) else last)
  | _, _ => last
  end.

Lemma save_run_holds f saves : forall m last,
  serialize_ = Some f -> holds last m ->
  exists oks m', save_run saves m = Ok (oks, m') /\ holds (last_saved f saves oks last) m' /\ length oks = length saves.
Proof.
  induction saves as [|[a env] saves IH]; intros m last Ef Hm; cbn [save_run]; [by exists [], m|].
  destruct (save_now_holds f env a m last Ef Hm) as (ok & m1 & -> & Hm1 & _). cbv beta iota.
  destruct (IH m1 _ Ef Hm1) as (oks & m' & -> & Hm' & Hl). exists (ok :: oks), m'. split; [done|]. split; [done|]. cbn. by f_equal.
Qed.

Lemma last_saved_from f saves oks last q :
  last_saved f saves oks last = Some q -> last = Some q \/ exists a env, (a, env) ∈ saves /\ q = f a.
Proof.
  revert oks last. induction saves as [|[a env] saves IH]; intros oks last; cbn [last_saved]; [by left|].
  destruct oks as [|ok oks]; [by left|]. intros [E|(a' & env' & Hin & ->)]%IH.
  - destruct ok; [|by left]. injection E as <-. right. exists a, env. split; [by left|done].
  - right. exists a', env'. split; [by right|done].
Qed.

(** A restart finds the last state that was saved. Starting without a snapshot, after any
    sequence of saves, each of which may fail at any point, restoring calls the
    deserializer with exactly the bytes of the last successful save, and reports what it
    answers; if none succeeded it reports success and leaves the component alone. *)
Theorem snapshot_manager_recovers f d saves s alloc_ok a :
  serialize_ = Some f -> deserialize_ = Some d -> statics_ok s ->
  (forall x env, (x, env) ∈ saves -> alloc_ok (len (f x)) = true) ->
  exists oks m m',
    save_run saves (new_snapshot_manager ∅ s) = Ok (oks, m) /\ length oks = length saves /\
    restore alloc_ok m a =
      Ok (match last_saved f saves oks None with
          | None => (Some true, m', a)
          | Some q => (Some (d q a).1, m', (d q a).2)
          end).
Proof.
  intros Ef Ed Hs Ha. destruct (save_run_holds f saves (new_snapshot_manager ∅ s) None Ef) as (oks & m & E & Hm & Hl).
  { split; [done|]. apply lookup_empty. }
  destruct (restore_holds d alloc_ok a m _ Ed Hm) as (m' & Er & _); [|by exists oks, m, m'].
  intros q Eq. destruct (last_saved_from f saves oks None q Eq) as [|(x & env & Hin & ->)]; [done|].
  destruct (serialize_bytes f x Ef). eauto.
Qed.

End Manager.

Lemma snapshot_manager_recovers_witness :
  exists oks m m',
    save_run (Some (fun a => [u8 a])) (mk_smc (lit "state") 60000 true)
      [(1, mk_env true true true 100); (2, mk_env true true true 100); (3, mk_env true false true 100)]
      (new_snapshot_manager ∅ crc_start) = Ok (oks, m) /\
    restore (Some (fun b _ => (true, default 0 (head b)))) (mk_smc (lit "state") 60000 true) (fun _ => true) m 9 =
      Ok (Some true, m', 2).
Proof.
  destruct (snapshot_manager_recovers (Some (fun a => [u8 a])) (Some (fun b _ => (true, default 0 (head b))))
    (mk_smc (lit "state") 60000 true)
    ltac:(intros f a [= <-]; split; [apply bytes_ok_cons; [apply u8_range|constructor]|done])
    (fun a => [u8 a]) (fun b _ => (true, default 0 (head b)))
    [(1, mk_env true true true 100); (2, mk_env true true true 100); (3, mk_env true false true 100)]
    crc_start (fun _ => true) 9 eq_refl eq_refl) as (oks & m & m' & E & _ & Er).
  - split; [reflexivity|discriminate].
  - done.
  - exists oks, m, m'. split; [exact E|]. rewrite Er. vm_compute in E. injection E as <- _. reflexivity.
Defined.

(** A snapshot whose header is damaged is taken for a missing one: restoring reports success
    and the next save replaces it. *)
Example damaged_header_ignored :
  exists m', restore (Some (fun b (_ : Z) => (true, 0))) (mk_smc (lit "state") 60000 true) (fun _ => true)
    (new_snapshot_manager {[lit "state" := 0 :: tail (snapshot_file [1; 2; 3])]} crc_start) 9 = Ok (Some true, m', 9).
Proof. eexists. vm_compute. reflexivity. Qed.

(** A header that announces more than can be allocated makes restoring throw. *)
Example announced_size_throws :
  exists m', restore (Some (fun b (_ : Z) => (true, 0))) (mk_smc (lit "state") 60000 true) (fun n => n <? 2 ^ 40)
    (new_snapshot_manager {[lit "state" := snapshot_header (2 ^ 63)]} crc_start) 9 = Ok (None, m', 9).
Proof. eexists. vm_compute. reflexivity. Qed.
