(* ===== verification/PubSubClient.v ===== *)
(** The publish/subscribe client ([inc/pubsub_client.hpp], [src/pubsub_client.cpp]): it
    encodes requests, keeps the handlers of its filters and dispatches the messages that
    arrive. Handlers are values of a parameter type with a function that tells whether a
    call throws; the order in which the table is walked is an argument. The theorems follow
    a message from one client through the broker to the handlers of another. *)

From stdpp Require Import gmap.
From S2P Require Import Prelude ByteOrder Codec Ctype PubSubMsg Topic TopicTrie Broker.
Local Open Scope Z_scope.

(* src/inc/pubsub_client.hpp:41-49 *)
Record PubSubClientStats := mk_pcs {
  publishes_sent : Z;
  subscribes_sent : Z;
  unsubscribes_sent : Z;
  publishes_received : Z;
  handler_misses : Z;
  pc_send_failures : Z;
  handler_exceptions : Z
}.

Section Client.
Context {H : Type}.

(* src/inc/pubsub_client.hpp:52-56 *)
Record PubSubClient := mk_pc {
  handlers_ : gmap (list Z) H;
  pc_stats : PubSubClientStats
}.

Definition new_pubsub_client : PubSubClient := mk_pc ∅ (mk_pcs 0 0 0 0 0 0 0).

(* src/src/pubsub_client.cpp:12-19 *)
Definition pc_pack (m : sl_pubsub_msg_t) : M (list Z) :=
  let out := replicate (Z.to_nat (u32 (SL_PUBSUB_HEADER_LEN + ps_topic_len m + ps_payload_len m))) 0 in
  let! '(n, out) := sl_pubsub_pack m out in
  Ok (if n <? 0 then [] else take (Z.to_nat n) out).

Definition count_send_failure (c : PubSubClient) : PubSubClient :=
  let s := pc_stats c in
  mk_pc (handlers_ c) (mk_pcs (publishes_sent s) (subscribes_sent s) (unsubscribes_sent s) (publishes_received s)
    (handler_misses s) (u64 (pc_send_failures s + 1)) (handler_exceptions s)).

(** [send] is the caller's callback. The result carries what was handed to it. *)
(* src/src/pubsub_client.cpp:21-38 *)
Definition pc_subscribe (send : list Z -> bool) (filter : list Z) (handler : H) (c : PubSubClient)
  : M (bool * option (list Z) * PubSubClient) :=
  let! valid := sl_topic_is_valid_filter filter (len filter) in
  if negb valid then Ok (false, None, c)
  else
    let! wire := pc_pack (mk_pubsub SL_PUBSUB_SUBSCRIBE 0 (Some filter) (u16 (len filter)) None 0) in
    if bool_decide (wire = []) then Ok (false, None, count_send_failure c)
    else if negb (send wire) then Ok (false, Some wire, count_send_failure c)
    else
      let s := pc_stats c in
      Ok (true, Some wire, mk_pc (<[filter := handler]> (handlers_ c))
        (mk_pcs (publishes_sent s) (u64 (subscribes_sent s + 1)) (unsubscribes_sent s) (publishes_received s)
           (handler_misses s) (pc_send_failures s) (handler_exceptions s))).

(* src/src/pubsub_client.cpp:40-56 *)
Definition pc_unsubscribe (send : list Z -> bool) (filter : list Z) (c : PubSubClient) : M (bool * option (list Z) * PubSubClient) :=
  let! wire := pc_pack (mk_pubsub SL_PUBSUB_UNSUBSCRIBE 0 (Some filter) (u16 (len filter)) None 0) in
  if bool_decide (wire = []) then Ok (false, None, count_send_failure c)
  else if negb (send wire) then Ok (false, Some wire, count_send_failure c)
  else
    let s := pc_stats c in
    Ok (true, Some wire, mk_pc (delete filter (handlers_ c))
      (mk_pcs (publishes_sent s) (subscribes_sent s) (u64 (unsubscribes_sent s + 1)) (publishes_received s)
         (handler_misses s) (pc_send_failures s) (handler_exceptions s))).

(* src/src/pubsub_client.cpp:58-79 *)
Definition pc_publish (send : list Z -> bool) (topic payload : list Z) (retain : bool) (c : PubSubClient)
  : M (bool * option (list Z) * PubSubClient) :=
  let! valid := sl_topic_is_valid_publish topic (len topic) in
  if negb valid then Ok (false, None, c)
  else
    let! wire := pc_pack (mk_pubsub SL_PUBSUB_PUBLISH (if retain then SL_PUBSUB_FLAG_RETAIN else 0)
                            (Some topic) (u16 (len topic))
                            (if bool_decide (payload = []) then None else Some payload) (u32 (len payload))) in
    if bool_decide (wire = []) then Ok (false, None, count_send_failure c)
    else if negb (send wire) then Ok (false, Some wire, count_send_failure c)
    else
      let s := pc_stats c in
      Ok (true, Some wire, mk_pc (handlers_ c)
        (mk_pcs (u64 (publishes_sent s + 1)) (subscribes_sent s) (unsubscribes_sent s) (publishes_received s)
           (handler_misses s) (pc_send_failures s) (handler_exceptions s))).

(** The walk over the handlers: those whose filter matches. *)
(* src/src/pubsub_client.cpp:102-107 PubSubClient::on_message *)
Fixpoint matching_handlers (topic : list Z) (hs : list (list Z * H)) : M (list H) :=
  match hs with
  | [] => Ok []
  | (filter, h) :: hs =>
      let! m := sl_topic_matches topic (len topic) filter (len filter) in
      let! rest := matching_handlers topic hs in
      Ok (if m then h :: rest else rest)
  end.

(** [walk] is the order of the table, [throws] tells which calls throw. The result carries
    the calls made: handler, topic, payload. *)
(* src/src/pubsub_client.cpp:81-125 *)
Definition on_message (walk : gmap (list Z) H -> list (list Z * H)) (throws : H -> list Z -> list Z -> bool)
  (wire_bytes : list Z) (c : PubSubClient) : M (bool * list (H * list Z * list Z) * PubSubClient) :=
  let! r := sl_pubsub_unpack wire_bytes in
  match r with
  | None => Ok (false, [], c)
  | Some m =>
      if negb (bool_decide (ps_type m = SL_PUBSUB_PUBLISH)) then Ok (true, [], c)
      else
        let topic := ptr_bytes (ps_topic m) (ps_topic_len m) in
        let payload := if 0 <? ps_payload_len m then ptr_bytes (ps_payload m) (ps_payload_len m) else [] in
        let! to_invoke := matching_handlers topic (walk (handlers_ c)) in
        let s := pc_stats c in
        let thrown := len (filter (fun h => throws h topic payload = true) to_invoke) in
        Ok (true, map (fun h => (h, topic, payload)) to_invoke,
            mk_pc (handlers_ c)
              (mk_pcs (publishes_sent s) (subscribes_sent s) (unsubscribes_sent s) (u64 (publishes_received s + 1))
                 (if bool_decide (to_invoke = []) then u64 (handler_misses s + 1) else handler_misses s)
                 (pc_send_failures s) (u64 (handler_exceptions s + thrown))))
  end.

(* src/src/pubsub_client.cpp:127-130 *)
Definition pc_subscription_count (c : PubSubClient) : Z := Z.of_nat (size (handlers_ c)).

(** ** Requests on the wire *)

Lemma pack_wire m : pubsub_packable m -> pc_pack m = Ok (pubsub_wire m).
Proof.
  intros Hm. unfold pc_pack. pose proof (len_pubsub_wire m Hm) as Hl. pose proof Hm as (Ht & (? & _) & Hp & (? & _)).
  pubsub_consts. rewrite u32_small by lia.
  rewrite pubsub_pack_fits by (done || rewrite len_replicate; lia). cbv beta iota.
  rewrite (proj2 (Z.ltb_ge (len (pubsub_wire m)) 0)) by lia. by rewrite len_to_nat, take_app_length.
Qed.

Lemma ptr_some_ok (b : list Z) : ptr_ok (Some b) (len b).
Proof. split; [apply len_nonneg|]. intros _. exists b. split; [done|lia]. Qed.

Lemma wire_not_nil m : pubsub_wire m <> [].
Proof. done. Qed.

(** The message of a publication. *)
Definition publication (topic payload : list Z) (retain : bool) : sl_pubsub_msg_t :=
  mk_pubsub SL_PUBSUB_PUBLISH (if retain then SL_PUBSUB_FLAG_RETAIN else 0) (Some topic) (len topic)
    (if bool_decide (payload = []) then None else Some payload) (len payload).

Lemma topic_ok_len t : topic_ok t = true -> 0 < len t <= 256.
Proof.
  intros [Hs Hn]%andb_prop. apply andb_prop in Hs as [Hl%Z.leb_le _]. unfold SL_TOPIC_MAX_LEN in Hl. split; [|done].
  destruct t; [done|]. rewrite len_cons. pose proof (len_nonneg t). lia.
Qed.

Lemma ptr_canon_some (b : list Z) : 0 < len b -> ptr_canon (Some b) (len b).
Proof.
  intros Hb. unfold ptr_canon. rewrite ptr_some_bytes, (proj2 (Z.ltb_lt 0 (len b))) by done. split; [lia|done].
Qed.

Lemma publication_valid topic payload retain :
  topic_ok topic = true -> len payload <= SL_PUBSUB_MAX_PAYLOAD -> pubsub_valid (publication topic payload retain).
Proof.
  intros Ht%topic_ok_len Hp. unfold pubsub_valid, publication, SL_PUBSUB_MAX_TOPIC.
  cbn [ps_type ps_flags ps_topic ps_topic_len ps_payload ps_payload_len].
  split; [done|]. split; [by destruct retain|]. split; [lia|]. split; [apply ptr_canon_some; lia|]. split; [done|].
  case_bool_decide as E; [by subst payload|]. apply ptr_canon_some. destruct payload; [done|]. rewrite len_cons. pose proof (len_nonneg payload). lia.
Qed.

Lemma publication_bytes topic payload retain :
  (if 0 <? len payload then ptr_bytes (ps_payload (publication topic payload retain)) (len payload) else []) = payload.
Proof.
  cbn [publication ps_payload]. case_bool_decide as E; [by subst payload|]. rewrite ptr_some_bytes.
  destruct payload; [done|]. rewrite len_cons. pose proof (len_nonneg payload). by rewrite (proj2 (Z.ltb_lt 0 _)) by lia.
Qed.

(** A publication of an acceptable topic and payload is handed over as its message. *)
Lemma publish_wire send topic payload retain c :
  topic_ok topic = true -> len payload <= SL_PUBSUB_MAX_PAYLOAD -> send (pubsub_wire (publication topic payload retain)) = true ->
  exists c', pc_publish send topic payload retain c = Ok (true, Some (pubsub_wire (publication topic payload retain)), c') /\
    handlers_ c' = handlers_ c /\ publishes_sent (pc_stats c') = u64 (publishes_sent (pc_stats c) + 1).
Proof.
  intros Ht Hp Hs. unfold pc_publish. rewrite valid_publish_spec, Ht. cbn [negb]. cbv beta iota.
  pose proof (topic_ok_len topic Ht). pose proof (len_nonneg payload). unfold SL_PUBSUB_MAX_PAYLOAD in Hp.
  rewrite u16_small, u32_small by lia. fold (publication topic payload retain).
  rewrite pack_wire by (apply pubsub_valid_packable, publication_valid; [done|unfold SL_PUBSUB_MAX_PAYLOAD; lia]). cbv beta iota.
  rewrite bool_decide_false by apply wire_not_nil. rewrite Hs. cbn [negb]. by eexists.
Qed.

(** A request for a filter the validator refuses is not sent; an accepted one registers the
    handler when it is sent. *)
Lemma subscribe_cases send filter h c :
  exists r o c', pc_subscribe send filter h c = Ok (r, o, c') /\
    handlers_ c' = (if r then <[filter := h]> (handlers_ c) else handlers_ c) /\
    (r = true -> filter_ok filter = true /\
       o = Some (pubsub_wire (mk_pubsub SL_PUBSUB_SUBSCRIBE 0 (Some filter) (len filter) None 0))) /\
    (filter_ok filter = false -> o = None).
Proof.
  unfold pc_subscribe. rewrite valid_filter_spec. destruct (filter_ok filter) eqn:Ef; cbn [negb]; cbv beta iota; [|by eexists _, _, _].
  assert (Hl : len filter <= 256) by (apply andb_prop in Ef as [[Hl%Z.leb_le _]%andb_prop _]; done).
  pose proof (len_nonneg filter). rewrite u16_small by lia. rewrite pack_wire.
  - cbv beta iota. rewrite bool_decide_false by apply wire_not_nil. destruct (send _); cbn [negb]; by eexists _, _, _.
  - unfold pubsub_packable, SL_PUBSUB_MAX_TOPIC, SL_PUBSUB_MAX_PAYLOAD. cbn. split; [lia|]. split; [apply ptr_some_ok|]. split; [lia|].
    split; [lia|]. lia.
Qed.

Lemma matching_spec topic hs :
  matching_handlers topic hs = Ok (map snd (filter (fun e => topic_matches_filter topic e.1 = true) hs)).
Proof.
  induction hs as [|[f h] hs IH]; [done|]. cbn [matching_handlers]. rewrite topic_matches_spec, IH. cbv beta iota.
  rewrite filter_cons. cbn [fst]. unfold topic_matches_filter. by destruct (topic_ok topic && _ && _); [rewrite decide_True|rewrite decide_False].
Qed.

(** The handlers the code's matcher finds for a topic, and those whose filters match it as
    documented. *)
Definition found (topic : list Z) (hs : gmap (list Z) H) : list H :=
  map snd (filter (fun e => topic_matches_filter topic e.1 = true) (map_to_list hs)).
Definition reached (topic : list Z) (hs : gmap (list Z) H) : list H :=
  map snd (filter (fun e => doc_matches topic e.1 = true) (map_to_list hs)).

Lemma found_reached topic hs :
  (forall f, is_Some (hs !! f) -> hash_parent topic f = false) -> found topic hs = reached topic hs.
Proof.
  intros Hc. unfold found, reached. f_equal.
  assert (Hl : Forall (fun e => hash_parent topic e.1 = false) (map_to_list hs)).
  { apply Forall_forall. intros [f h] Hin%elem_of_map_to_list. apply Hc. by eexists. }
  induction Hl as [|e l He _ IH]; [done|]. by rewrite !filter_cons, IH, (matches_doc _ _ He).
Qed.

Section Dispatch.
Context (walk : gmap (list Z) H -> list (list Z * H)) (Hwalk : forall m, walk m ≡ₚ map_to_list m).
Context (throws : H -> list Z -> list Z -> bool).

Lemma on_message_publication topic payload retain c :
  topic_ok topic = true -> len payload <= SL_PUBSUB_MAX_PAYLOAD ->
  exists hs c', on_message walk throws (pubsub_wire (publication topic payload retain)) c =
      Ok (true, map (fun h => (h, topic, payload)) hs, c') /\
    hs ≡ₚ found topic (handlers_ c) /\ handlers_ c' = handlers_ c /\
    publishes_received (pc_stats c') = u64 (publishes_received (pc_stats c) + 1) /\
    handler_misses (pc_stats c') = (if bool_decide (hs = []) then u64 (handler_misses (pc_stats c) + 1) else handler_misses (pc_stats c)) /\
    handler_exceptions (pc_stats c') =
      u64 (handler_exceptions (pc_stats c) + len (filter (fun h => throws h topic payload = true) hs)).
Proof.
  intros Ht Hp. unfold on_message. rewrite <- (app_nil_r (pubsub_wire _)), pubsub_unpack_wire by (by apply publication_valid).
  cbv beta iota. change (bool_decide (ps_type (publication topic payload retain) = SL_PUBSUB_PUBLISH)) with true. cbn [negb].
  change (ps_payload_len (publication topic payload retain)) with (len payload). rewrite publication_bytes.
  change (ptr_bytes (ps_topic (publication topic payload retain)) (ps_topic_len (publication topic payload retain)))
    with (ptr_bytes (Some topic) (len topic)). rewrite ptr_some_bytes, matching_spec. cbv beta iota.
  eexists _, _. split; [done|]. split; [|done]. unfold found.
  apply (fmap_Permutation snd). by rewrite Hwalk.
Qed.

(** C16: From one client's publication to another client's handlers. A publication of a
    well-formed topic and a payload within the limit is sent as a message the broker
    decodes to the same topic, payload and retain flag; if the rules allow it, the broker
    delivers to the subscriber whenever one of the filters that client has registered
    matches, and every delivery to it, sent on as a message, makes the client call
    exactly the handlers whose filters match, once each, with that topic and payload,
    whichever of them throw. Matching is the documented one, in which a final ['#'] stands for
    zero or more segments; excluded are topics that are the parent of a rule or of a
    registered filter ending in ['#'], where the code's matcher differs from it. *)
Theorem pubsub_end_to_end sub_order b s fp topic payload retain id cA cB send :
  (forall S, sub_order S ≡ₚ elements S) -> broker_abs b s -> topic_ok topic = true -> len payload <= SL_PUBSUB_MAX_PAYLOAD ->
  rules_clear (rules_for (sp_acl s) fp kPublish) topic -> doc_allows (sp_acl s) fp kPublish topic = true ->
  (forall w, send w = true) ->
  (forall f, is_Some (handlers_ cB !! f) -> (f, id) ∈ sp_subs s /\ hash_parent topic f = false) ->
  exists wire cA' ds b',
    pc_publish send topic payload retain cA = Ok (true, Some wire, cA') /\
    sl_pubsub_unpack wire = Ok (Some (publication topic payload retain)) /\
    publish sub_order b fp topic payload retain = Ok (ds, b') /\
    (reached topic (handlers_ cB) <> [] -> mk_delivery id topic payload false ∈ ds) /\
    (forall d r, d ∈ ds -> dv_topic d = topic /\ dv_payload d = payload /\
       exists hs cB', on_message walk throws (pubsub_wire (publication (dv_topic d) (dv_payload d) r)) cB =
           Ok (true, map (fun h => (h, topic, payload)) hs, cB') /\
         hs ≡ₚ reached topic (handlers_ cB) /\ handlers_ cB' = handlers_ cB).
Proof.
  intros Hsub Hb Ht Hp Hc Ha Hs Hf. rewrite <- (allows_doc _ _ _ _ Hc) in Ha.
  destruct (publish_wire send topic payload retain cA Ht Hp (Hs _)) as (cA' & Ep & _).
  pose proof (publish_refines sub_order Hsub b s fp topic payload retain Hb) as Hr.
  cbn [spec_broker_step] in Hr. rewrite Ht, Ha in Hr. cbn [andb] in Hr. destruct Hr as (ds & b' & Epub & Hds & _).
  cbn [out_equiv] in Hds. exists (pubsub_wire (publication topic payload retain)), cA', ds, b'. split; [done|]. split.
  { rewrite <- (app_nil_r (pubsub_wire _)). apply pubsub_unpack_wire. by apply publication_valid. }
  split; [done|]. split.
  - intros Hr. rewrite Hds. apply (list_elem_of_fmap_2 (fun i => mk_delivery i topic payload false)), elem_of_elements.
    unfold spec_matching. apply elem_of_map. destruct (reached topic (handlers_ cB)) as [|h hs] eqn:E; [done|].
    assert (Hin : h ∈ reached topic (handlers_ cB)) by (rewrite E; by left).
    apply list_elem_of_fmap in Hin as ([f h'] & -> & [Hm Hin]%list_elem_of_filter). apply elem_of_map_to_list in Hin.
    exists (f, id). split; [done|]. apply elem_of_filter. split; [by apply andb_prop in Hm as [_ Hm]|by apply Hf; eexists].
  - intros d r Hd. rewrite Hds in Hd. apply list_elem_of_fmap in Hd as (i & -> & _). cbn [dv_topic dv_payload].
    split; [done|]. split; [done|]. destruct (on_message_publication topic payload r cB Ht Hp) as (hs & cB' & E & Hh & Hk & _).
    exists hs, cB'. rewrite <- found_reached by (intros f Hi; by apply Hf). done.
Qed.

End Dispatch.
End Client.

(** ** Concrete runs *)

Definition sample_subscriber : PubSubClient := mk_pc (H:=Z) {[str_a_b := 1; str_hash := 2]} (mk_pcs 0 0 0 0 0 0 0).

Lemma pubsub_end_to_end_witness :
  exists b wire cA' ds b',
    broker_subscribe map_to_list (new_broker None) fp_a 7 str_hash = Ok ([], b) /\
    pc_publish (fun _ => true) str_a_b [1; 2] false (new_pubsub_client (H:=Z)) = Ok (true, Some wire, cA') /\
    publish elements b fp_a str_a_b [1; 2] false = Ok (ds, b') /\ mk_delivery 7 str_a_b [1; 2] false ∈ ds.
Proof.
  pose proof (subscribe_refines map_to_list (fun m => ltac:(done)) (new_broker None) (mk_spec ∅ ∅ None) fp_a 7 str_hash
    (new_broker_abs None)) as (ds0 & b & E0 & Hds0 & Hb). apply Permutation_nil_r in Hds0 as ->.
  destruct (pubsub_end_to_end (H:=Z) map_to_list ltac:(done) (fun _ _ _ => false) elements b
    _ fp_a str_a_b [1; 2] false 7 new_pubsub_client (mk_pc {[str_hash := 1]} (mk_pcs 0 0 0 0 0 0 0)) (fun _ => true)
    ltac:(done) Hb eq_refl ltac:(done) (Forall_nil_2 _) eq_refl ltac:(done)) as (wire & cA' & ds & b' & E1 & _ & E2 & Hd & _).
  - cbn [handlers_]. intros f [x [<- _]%lookup_singleton_Some]. split; [cbn [sp_subs]; set_solver|by vm_compute].
  - exists b, wire, cA', ds, b'. split; [exact E0|]. split; [exact E1|]. split; [exact E2|]. apply Hd. by vm_compute.
Defined.

(** The broker's trie lets a final [#] stand for no segment at all, the client's matcher does
    not: a message on the parent topic is delivered and then dropped as unhandled. *)
Example hash_parent_dropped :
  exists b ds b' cB',
    broker_step elements map_to_list (new_broker None) (BSubscribe fp_a 7 str_a_b_hash) = Ok (BDeliver [], b) /\
    publish elements b fp_a str_a_b [1; 2] false = Ok (ds, b') /\ ds = [mk_delivery 7 str_a_b [1; 2] false] /\
    on_message map_to_list (fun _ _ _ => false) (pubsub_wire (publication str_a_b [1; 2] false))
      (mk_pc (H:=Z) {[str_a_b_hash := 1]} (mk_pcs 0 0 0 0 0 0 0)) = Ok (true, [], cB') /\
    handler_misses (pc_stats cB') = 1.
Proof. eexists _, _, _, _. split; [vm_compute; reflexivity|]. split; [vm_compute; reflexivity|]. split; [reflexivity|]. by split; [vm_compute; reflexivity|]. Qed.

(** Overlapping filters: the broker delivers a message once, the client calls every handler
    that matches. *)
Example overlapping_filters :
  exists c', on_message map_to_list (fun h _ _ => h =? 1) (pubsub_wire (publication str_a_b [9] true)) sample_subscriber =
    Ok (true, [(1, str_a_b, [9]); (2, str_a_b, [9])], c') /\ handler_exceptions (pc_stats c') = 1.
Proof. eexists. by split; [vm_compute; reflexivity|]. Qed.
