(* ===== verification/Socket.v ===== *)
(** The socket wrappers ([src/sl_socket.c]). The process is the finite map from its open
    descriptors to their status flags; using or closing a descriptor that is not open is a
    fault. What the system calls return is an argument of each operation. Reading and writing
    exactly [n] bytes are the loops of the code over the sequence of poll/recv and poll/send
    outcomes, and a step relation interleaves a writer with a reader on the same stream. *)

From stdpp Require Import gmap relations.
From S2P Require Import Prelude.
Local Open Scope Z_scope.

Abbreviation process := (gmap Z Z).

Definition O_NONBLOCK : Z := 2048.
Definition O_RDWR : Z := 2.

(** The [close] system call. *)
Definition sys_close (p : process) (fd : Z) : M process :=
  match p !! fd with Some _ => Ok (delete fd p) | None => Fault end.

(** A new descriptor, in blocking mode. *)
Definition sys_open (p : process) (fd : Z) : process := <[fd := O_RDWR]> p.

(** Whether the two [fcntl] calls succeed. *)
Record fcntl_outcome := mk_fcntl { getfl_ok : bool; setfl_ok : bool }.

(* src/src/sl_socket.c:43-49 *)
Definition sl_sock_set_nonblocking (o : fcntl_outcome) (p : process) (fd : Z) (nonblock : bool) : Z * process :=
  match p !! fd with
  | Some flags =>
      if negb (getfl_ok o) then (-1, p)
      else
        let flags := if nonblock then Z.lor flags O_NONBLOCK else Z.land flags (Z.lnot O_NONBLOCK) in
        if setfl_ok o then (0, <[fd := flags]> p) else (-1, p)
  | None => (-1, p)
  end.

(** What the calls return for one address of getaddrinfo's list. *)
Record listen_try := mk_lt { lt_socket : Z; lt_bind : Z; lt_listen : Z }.

(* src/src/sl_socket.c:29-38 sl_sock_listen_tcp *)
Fixpoint listen_loop (ts : list listen_try) (p : process) : M (Z * process) :=
  match ts with
  | [] => Ok (-1, p)
  | t :: ts =>
      let fd := lt_socket t in
      if fd <? 0 then listen_loop ts p
      else
        let p := sys_open p fd in
        if (lt_bind t =? 0) && (lt_listen t =? 0) then Ok (fd, p)
        else let! p := sys_close p fd in listen_loop ts p
  end.

(** [gai] is getaddrinfo's list, [None] for a failure. *)
(* src/src/sl_socket.c:16-41 *)
Definition sl_sock_listen_tcp (gai : option (list listen_try)) (p : process) : M (Z * process) :=
  match gai with None | Some [] => Ok (-1, p) | Some ts => listen_loop ts p end.

Record connect_try := mk_ct {
  ct_socket : Z; ct_fcntl : fcntl_outcome; ct_connect : Z; ct_in_progress : bool;
  ct_poll : Z; ct_getsockopt : Z; ct_error : Z
}.

(* src/src/sl_socket.c:62-82 sl_sock_connect_tcp *)
Fixpoint connect_loop (ts : list connect_try) (p : process) : M (Z * process) :=
  match ts with
  | [] => Ok (-1, p)
  | t :: ts =>
      let s := ct_socket t in
      if s <? 0 then connect_loop ts p
      else
        let '(rc, p) := sl_sock_set_nonblocking (ct_fcntl t) (sys_open p s) s true in
        if negb (rc =? 0) then let! p := sys_close p s in connect_loop ts p
        else if ct_connect t =? 0 then Ok (s, p)
        else if negb (ct_in_progress t) then let! p := sys_close p s in connect_loop ts p
        else if ct_poll t <=? 0 then let! p := sys_close p s in connect_loop ts p
        else if negb (ct_getsockopt t =? 0) || negb (ct_error t =? 0) then let! p := sys_close p s in connect_loop ts p
        else Ok (s, p)
  end.

(** [last] is the outcome of the two calls that put the descriptor back in blocking mode. *)
(* src/src/sl_socket.c:51-86 *)
Definition sl_sock_connect_tcp (gai : option (list connect_try)) (last : fcntl_outcome) (p : process) : M (Z * process) :=
  match gai with
  | None | Some [] => Ok (-1, p)
  | Some ts =>
      let! '(fd, p) := connect_loop ts p in
      if 0 <=? fd then Ok (fd, (sl_sock_set_nonblocking last p fd false).2) else Ok (fd, p)
  end.

(** The address [accept] fills in: the family, the address bytes and the port in network
    order. *)
Inductive sockaddr :=
  | sockaddr_in (addr : list Z) (port_hi port_lo : Z)
  | sockaddr_in6 (addr : list Z) (port_hi port_lo : Z)
  | sockaddr_other.

Definition ntohs (hi lo : Z) : Z := 256 * hi + lo.

(** [inet_ntop] is the C library's; the string and the port are written when both pointers
    are given. *)
(* src/src/sl_socket.c:88-109 *)
Definition sl_sock_accept (inet_ntop : list Z -> list Z) (accepted : Z) (sa : sockaddr) (wanted : bool) (p : process)
  : Z * option (list Z * Z) * process :=
  let fd := accepted in
  if fd <? 0 then (-1, None, p)
  else
    let p := sys_open p fd in
    let peer :=
      match sa with
      | sockaddr_in addr hi lo => (inet_ntop addr, ntohs hi lo)
      | sockaddr_in6 addr hi lo => (inet_ntop addr, ntohs hi lo)
      | sockaddr_other => ([], 0)
      end in
    (fd, if wanted then Some peer else None, p).

(** ** Options *)

Inductive sockopt := TCP_NODELAY (v : Z) | SO_KEEPALIVE (v : Z) | TCP_KEEPIDLE (v : Z) | TCP_KEEPINTVL (v : Z) | TCP_KEEPCNT (v : Z).

(** The options requested, in order, and the return code; [ok] is the outcome of the call
    whose result is tested. *)
(* src/src/sl_socket.c:111-114 *)
Definition sl_sock_set_nodelay (ok on : bool) : Z * list sockopt :=
  (if ok then 0 else -1, [TCP_NODELAY (if on then 1 else 0)]).

(* src/src/sl_socket.c:116-126 *)
Definition sl_sock_set_keepalive (ok on : bool) (idle_sec interval_sec probes : Z) : Z * list sockopt :=
  let first := [SO_KEEPALIVE (if on then 1 else 0)] in
  if negb ok then (-1, first)
  else if negb on then (0, first)
  else (0, first ++ [TCP_KEEPIDLE idle_sec; TCP_KEEPINTVL interval_sec; TCP_KEEPCNT probes]).

(** The timeval of both time-out setters: seconds and microseconds. *)
(* src/src/sl_socket.c:128-131 *)
Definition sl_sock_set_recv_timeout (ms : Z) : Z * Z := (ms / 1000, ms mod 1000 * 1000).
(* src/src/sl_socket.c:133-136 *)
Definition sl_sock_set_send_timeout (ms : Z) : Z * Z := (ms / 1000, ms mod 1000 * 1000).

(* src/src/sl_socket.c:138-142 *)
Definition sl_sock_close (p : process) (fd : Z) : M process :=
  if fd <? 0 then Ok p else sys_close p fd.

(** [(int)timeout_ms], the argument of poll; poll waits without limit when it is negative. *)
(* src/src/sl_socket.c:149-149 sl_sock_read_n *)
Definition poll_timeout (timeout_ms : Z) : Z :=
  if timeout_ms <? 2147483648 then timeout_ms else timeout_ms - 4294967296.

(** ** Reading and writing exactly [n] bytes *)

(** One turn of either loop: what poll returns, what recv or send returns, and whether errno
    is EINTR after it. *)
Record io_event := mk_io { io_poll : Z; io_ret : Z; io_eintr : bool }.

(** One turn: [inl rc] leaves the function, [inr] goes on with the buffer, the count and the
    rest of the incoming stream. *)
(* src/src/sl_socket.c:148-154 sl_sock_read_n *)
Definition read_turn (e : io_event) (buf : list Z) (got : Z) (stream : list Z)
  : M (Z + list Z * Z * list Z) :=
  if io_poll e <=? 0 then Ok (inl (-1))
  else
    let r := io_ret e in
    if r =? 0 then Ok (inl (-1))
    else if r <? 0 then (if io_eintr e then Ok (inr (buf, got, stream)) else Ok (inl (-1)))
    else
      let! bs := load_bytes stream 0 r in
      let! buf := store_bytes buf got bs in
      Ok (inr (buf, got + r, drop (Z.to_nat r) stream)).

(** The return code, [None] while the call has not returned yet; the buffer and the rest of
    the stream. *)
(* src/src/sl_socket.c:144-157 *)
Fixpoint sl_sock_read_n (evs : list io_event) (n : Z) (buf : list Z) (got : Z) (stream : list Z)
  : M (option Z * list Z * list Z) :=
  if got <? n then
    match evs with
    | [] => Ok (None, buf, stream)
    | e :: evs =>
        let! r := read_turn e buf got stream in
        match r with
        | inl rc => Ok (Some rc, buf, stream)
        | inr (buf, got, stream) => sl_sock_read_n evs n buf got stream
        end
    end
  else Ok (Some 0, buf, stream).

(* src/src/sl_socket.c:162-169 sl_sock_write_n *)
Definition write_turn (e : io_event) (data : list Z) (sent : Z) (stream : list Z) : M (Z + Z * list Z) :=
  if io_poll e <=? 0 then Ok (inl (-1))
  else
    let w := io_ret e in
    if w <=? 0 then (if io_eintr e then Ok (inr (sent, stream)) else Ok (inl (-1)))
    else let! bs := load_bytes data sent w in Ok (inr (sent + w, stream ++ bs)).

(* src/src/sl_socket.c:159-171 *)
Fixpoint sl_sock_write_n (evs : list io_event) (data : list Z) (sent : Z) (stream : list Z)
  : M (option Z * list Z) :=
  if sent <? len data then
    match evs with
    | [] => Ok (None, stream)
    | e :: evs =>
        let! r := write_turn e data sent stream in
        match r with
        | inl rc => Ok (Some rc, stream)
        | inr (sent, stream) => sl_sock_write_n evs data sent stream
        end
    end
  else Ok (Some 0, stream).

(** ** Descriptors *)

Lemma sys_close_open p fd flags : p !! fd = None -> sys_close (<[fd := flags]> p) fd = Ok p.
Proof. intros Hf. unfold sys_close. by rewrite lookup_insert_eq, delete_insert_eq, delete_id. Qed.

Lemma set_nonblocking_own o p fd flags nb :
  exists flags', (sl_sock_set_nonblocking o (<[fd := flags]> p) fd nb).2 = <[fd := flags']> p.
Proof.
  unfold sl_sock_set_nonblocking. rewrite lookup_insert_eq. case_match; [by eexists|].
  case_match; [|by eexists]. eexists. by rewrite insert_insert_eq.
Qed.

(** One descriptor more at most, and only the one returned. *)
Definition one_more (p : process) (fd : Z) (p' : process) : Prop :=
  (fd = -1 /\ p' = p) \/ (0 <= fd /\ p !! fd = None /\ exists flags, p' = <[fd := flags]> p).

Lemma listen_loop_one_more ts p :
  Forall (fun t => p !! lt_socket t = None) ts -> exists fd p', listen_loop ts p = Ok (fd, p') /\ one_more p fd p'.
Proof.
  induction 1 as [|t ts Hf _ IH]; cbn [listen_loop]; [unfold one_more; eauto 8|].
  destruct (Z.ltb_spec (lt_socket t) 0); [done|]. case_match; [unfold one_more, sys_open; eauto 10|].
  unfold sys_open. by rewrite sys_close_open.
Qed.

Lemma connect_loop_one_more ts p :
  Forall (fun t => p !! ct_socket t = None) ts -> exists fd p', connect_loop ts p = Ok (fd, p') /\ one_more p fd p'.
Proof.
  induction 1 as [|t ts Hf _ IH]; cbn [connect_loop]; [unfold one_more; eauto 8|].
  destruct (Z.ltb_spec (ct_socket t) 0); [done|]. unfold sys_open.
  destruct (set_nonblocking_own (ct_fcntl t) p (ct_socket t) O_RDWR true) as [fl E].
  destruct (sl_sock_set_nonblocking _ _ _ _) as [rc p1]. cbn [snd] in E. subst p1.
  rewrite sys_close_open by done. repeat (case_match; [first [done|unfold one_more; eauto 10]|]). unfold one_more; eauto 10.
Qed.

(** Opening a listening socket and connecting never leak, lose or close twice a
    descriptor, whichever addresses the resolver lists and whichever calls fail on them:
    either the call fails and the process has the descriptors it had, or it has exactly one
    more, the one returned. A connected descriptor is in blocking mode if the call that sets
    the mode succeeds. *)
Theorem sockets_do_not_leak lts cts last p :
  Forall (fun t => p !! lt_socket t = None) lts -> Forall (fun t => p !! ct_socket t = None) cts ->
  (exists fd p', sl_sock_listen_tcp (Some lts) p = Ok (fd, p') /\ one_more p fd p') /\
  exists fd p', sl_sock_connect_tcp (Some cts) last p = Ok (fd, p') /\ one_more p fd p' /\
    (0 <= fd -> getfl_ok last = true -> setfl_ok last = true ->
     exists flags, p' !! fd = Some flags /\ Z.land flags O_NONBLOCK = 0).
Proof.
  intros Hl Hc. split.
  { destruct (listen_loop_one_more lts p Hl) as (fd & p' & E & Ho). destruct lts; cbn in E |- *; eauto. }
  assert (Ec : sl_sock_connect_tcp (Some cts) last p =
    let! '(fd, p) := connect_loop cts p in
    if 0 <=? fd then Ok (fd, (sl_sock_set_nonblocking last p fd false).2) else Ok (fd, p)) by by destruct cts.
  rewrite Ec. destruct (connect_loop_one_more cts p Hc) as (fd & p' & -> & [[-> ->]|(Hfd & Hn & fl & ->)]).
  - eexists _, _. split; [reflexivity|]. split; [by left|]. lia.
  - rewrite (proj2 (Z.leb_le 0 fd)) by done. eexists _, _. split; [reflexivity|].
    unfold sl_sock_set_nonblocking. rewrite lookup_insert_eq. split.
    + right. split; [done|]. split; [done|]. destruct (negb _); [by eexists|]. destruct (setfl_ok _); [|by eexists].
      eexists. cbn [snd]. by rewrite insert_insert_eq.
    + intros _ -> ->. cbn [negb snd]. eexists. split; [apply lookup_insert_eq|].
      by rewrite <- Z.land_assoc, Z.land_0_r.
Qed.

Lemma sockets_do_not_leak_witness :
  exists fd p', sl_sock_connect_tcp (Some [mk_ct 3 (mk_fcntl true true) (-1) false 0 0 0;
      mk_ct 3 (mk_fcntl true true) (-1) true 1 0 0]) (mk_fcntl true true) {[0 := O_RDWR]} = Ok (fd, p') /\ fd = 3 /\
    one_more {[0 := O_RDWR]} fd p'.
Proof.
  destruct (sockets_do_not_leak [] [mk_ct 3 (mk_fcntl true true) (-1) false 0 0 0;
    mk_ct 3 (mk_fcntl true true) (-1) true 1 0 0] (mk_fcntl true true) {[0 := O_RDWR]} ltac:(constructor)
    ltac:(repeat constructor)) as (_ & fd & p' & E & Ho & _).
  exists fd, p'. split; [exact E|]. split; [|exact Ho]. vm_compute in E. congruence.
Defined.

(** The time-out setters lose nothing: whole milliseconds, and fewer than 10^6 microseconds. *)
Lemma timeval_exact ms :
  0 <= ms -> let '(s, us) := sl_sock_set_recv_timeout ms in s * 1000000 + us = ms * 1000 /\ 0 <= us < 1000000.
Proof. intros. unfold sl_sock_set_recv_timeout. Z.div_mod_to_equations. lia. Qed.

(** A time-out of 2^31 milliseconds or more is negative for poll, which then never times out. *)
Example long_timeout_is_unlimited : poll_timeout 2147483648 < 0.
Proof. vm_compute. done. Qed.

(** When fcntl fails at the end, the descriptor returned as connected is not in blocking mode. *)
Example connected_nonblocking :
  exists p, sl_sock_connect_tcp (Some [mk_ct 3 (mk_fcntl true true) 0 false 0 0 0]) (mk_fcntl true false) ∅ = Ok (3, p) /\
    (p !! 3) = Some (Z.lor O_RDWR O_NONBLOCK).
Proof. eexists. split; [vm_compute; reflexivity|]. by vm_compute. Qed.

(** ** A writer and a reader on one stream *)

Record link := mk_link {
  l_sent : Z; l_wrc : option Z;
  l_stream : list Z;
  l_buf : list Z; l_got : Z; l_rrc : option Z
}.

(** One turn of either thread. The kernel's part: send takes at most what it is given, recv
    returns at most what is asked for and has arrived. The label is whether the turn was
    interrupted by a signal. *)
Inductive link_step (data : list Z) (n : Z) : bool -> link -> link -> Prop :=
  | write_goes_on e l sent stream :
      l_wrc l = None -> l_sent l < len data -> io_ret e <= len data - l_sent l ->
      write_turn e data (l_sent l) (l_stream l) = Ok (inr (sent, stream)) ->
      link_step data n (io_ret e <=? 0) l (mk_link sent None stream (l_buf l) (l_got l) (l_rrc l))
  | write_fails e l rc :
      l_wrc l = None -> l_sent l < len data -> io_ret e <= len data - l_sent l ->
      write_turn e data (l_sent l) (l_stream l) = Ok (inl rc) ->
      link_step data n false l (mk_link (l_sent l) (Some rc) (l_stream l) (l_buf l) (l_got l) (l_rrc l))
  | write_returns l :
      l_wrc l = None -> len data <= l_sent l ->
      link_step data n false l (mk_link (l_sent l) (Some 0) (l_stream l) (l_buf l) (l_got l) (l_rrc l))
  | read_goes_on e l buf got stream :
      l_rrc l = None -> l_got l < n -> io_ret e <= n - l_got l -> io_ret e <= len (l_stream l) ->
      read_turn e (l_buf l) (l_got l) (l_stream l) = Ok (inr (buf, got, stream)) ->
      link_step data n (io_ret e <=? 0) l (mk_link (l_sent l) (l_wrc l) stream buf got None)
  | read_fails e l rc :
      l_rrc l = None -> l_got l < n -> io_ret e <= n - l_got l -> io_ret e <= len (l_stream l) ->
      read_turn e (l_buf l) (l_got l) (l_stream l) = Ok (inl rc) ->
      link_step data n false l (mk_link (l_sent l) (l_wrc l) (l_stream l) (l_buf l) (l_got l) (Some rc))
  | read_returns l :
      l_rrc l = None -> n <= l_got l ->
      link_step data n false l (mk_link (l_sent l) (l_wrc l) (l_stream l) (l_buf l) (l_got l) (Some 0)).

(** A run with the number of its interrupted turns. *)
Inductive link_run (data : list Z) (n : Z) : nat -> nat -> link -> link -> Prop :=
  | run_nil l : link_run data n 0 0 l l
  | run_cons i steps interrupted l1 l2 l3 :
      link_step data n i l1 l2 -> link_run data n steps interrupted l2 l3 ->
      link_run data n (S steps) (if i then S interrupted else interrupted) l1 l3.

Section Transfer.
Context (data buf0 : list Z).

Abbreviation n := (len buf0).

(** What has been read, what is on its way and what is still to be sent make up the data. *)
Record link_ok (l : link) : Prop := {
  lk_split : exists r u, data = r ++ l_stream l ++ u /\ l_got l = len r /\ l_sent l = len (r ++ l_stream l) /\
    l_buf l = r ++ drop (length r) buf0 /\ len r <= n;
  lk_writer : l_wrc l = None \/ l_wrc l = Some (-1) \/ (l_wrc l = Some 0 /\ l_sent l = len data);
  lk_reader : l_rrc l = None \/ l_rrc l = Some (-1) \/ (l_rrc l = Some 0 /\ l_got l = n)
}.

Definition link0 : link := mk_link 0 None [] buf0 0 None.

Lemma link0_ok : link_ok link0.
Proof. split; [|by left..]. exists [], data. pose proof (len_nonneg buf0). by split_and!. Qed.

(** What a turn does to the three parts. *)
Lemma write_turn_cases e r s u :
  io_ret e <= len u ->
  (io_ret e <= 0 /\ write_turn e (r ++ s ++ u) (len (r ++ s)) s = Ok (inr (len (r ++ s), s))) \/
  write_turn e (r ++ s ++ u) (len (r ++ s)) s = Ok (inl (-1)) \/
  exists b u', u = b ++ u' /\ 0 < len b /\ io_ret e = len b /\
    write_turn e (r ++ s ++ u) (len (r ++ s)) s = Ok (inr (len (r ++ s ++ b), s ++ b)).
Proof.
  intros Hu. unfold write_turn. case_match; [by right; left|].
  destruct (Z.leb_spec (io_ret e) 0); [case_match; [by left|by right; left]|]. right; right.
  exists (take (Z.to_nat (io_ret e)) u), (drop (Z.to_nat (io_ret e)) u).
  assert (Hl : len (take (Z.to_nat (io_ret e)) u) = io_ret e) by (rewrite len_take; lia).
  rewrite take_drop, Hl. split_and!; [done..|].
  rewrite <- (take_drop (Z.to_nat (io_ret e)) u) at 1. rewrite (app_assoc r s).
  rewrite load_bytes_app_mid by done. rewrite !len_app, Hl. do 3 f_equal. lia.
Qed.

Lemma read_turn_cases e r s :
  len r <= n -> io_ret e <= n - len r -> io_ret e <= len s ->
  (io_ret e <= 0 /\ read_turn e (r ++ drop (length r) buf0) (len r) s = Ok (inr (r ++ drop (length r) buf0, len r, s))) \/
  read_turn e (r ++ drop (length r) buf0) (len r) s = Ok (inl (-1)) \/
  exists b s', s = b ++ s' /\ 0 < len b /\ io_ret e = len b /\ len (r ++ b) <= n /\
    read_turn e (r ++ drop (length r) buf0) (len r) s =
    Ok (inr ((r ++ b) ++ drop (length (r ++ b)) buf0, len (r ++ b), s')).
Proof.
  intros Hr Hn Hs. unfold read_turn. case_match; [by right; left|].
  destruct (Z.eqb_spec (io_ret e) 0); [by right; left|].
  destruct (Z.ltb_spec (io_ret e) 0); [case_match; [left; by split; [lia|]|by right; left]|]. right; right.
  exists (take (Z.to_nat (io_ret e)) s), (drop (Z.to_nat (io_ret e)) s).
  assert (Hl : len (take (Z.to_nat (io_ret e)) s) = io_ret e) by (rewrite len_take; lia).
  rewrite take_drop, len_app, Hl. split_and!; [done|lia|done|lia|].
  rewrite load_bytes_in_bounds by lia. change (drop (Z.to_nat 0) s) with s.
  rewrite store_bytes_append; [|done|rewrite Hl, len_drop_nat; unfold len in *; lia].
  rewrite drop_drop, length_app. done.
Qed.

Lemma step_ok i l l' : link_ok l -> link_step data n i l l' -> link_ok l'.
Proof.
  intros [(r & u & Hd & Hg & Hs & Hb & Hn) Hw Hr] Hstep.
  destruct Hstep as [e l sent stream Hn1 Hlt He Ht|e l rc Hn1 Hlt He Ht|l Hn1 Hge|e l buf got stream Hn1 Hlt He1 He2 Ht|e l rc Hn1 Hlt He1 He2 Ht|l Hn1 Hge].
  - rewrite Hd, Hs in Ht. rewrite Hs, Hd in He.
    destruct (write_turn_cases e r (l_stream l) u) as [[_ E]|[E|(b & u' & Hu & _ & _ & E)]]; [rewrite !len_app in He; lia|..];
      rewrite E in Ht; [injection Ht as <- <-|done|injection Ht as <- <-]; (split; [|by left|done]).
    + by exists r, u.
    + exists r, u'. rewrite Hd, Hu. cbn. by rewrite <- !app_assoc.
  - rewrite Hd, Hs in Ht. rewrite Hs, Hd in He.
    destruct (write_turn_cases e r (l_stream l) u) as [[_ E]|[E|(b & u' & Hu & _ & _ & E)]]; [rewrite !len_app in He; lia|..];
      rewrite E in Ht; [done|injection Ht as <-|done].
    split; [by exists r, u|right; by left|done].
  - split; [by exists r, u| |done]. right; right. split; [done|]. cbn. rewrite Hs, Hd in *. len_lia.
  - rewrite Hb, Hg in Ht. rewrite Hg in He1.
    destruct (read_turn_cases e r (l_stream l) Hn He1 He2) as [[_ E]|[E|(b & s' & Hs' & _ & _ & Hn' & E)]];
      rewrite E in Ht; [injection Ht as <- <- <-|done|injection Ht as <- <- <-]; (split; [|done|by left]).
    + by exists r, u.
    + exists (r ++ b), u. cbn. rewrite Hd, Hs, Hs'. by rewrite <- !app_assoc.
  - rewrite Hb, Hg in Ht. rewrite Hg in He1.
    destruct (read_turn_cases e r (l_stream l) Hn He1 He2) as [[_ E]|[E|(b & s' & Hs' & _ & _ & Hn' & E)]];
      rewrite E in Ht; [done|injection Ht as <-|done].
    split; [by exists r, u|done|right; by left].
  - split; [by exists r, u|done|]. right; right. split; [done|]. cbn. lia.
Qed.

Lemma run_ok k i l l' : link_run data n k i l l' -> link_ok l -> link_ok l'.
Proof. induction 1 as [|i k ii l1 l2 l3 Hs _ IH]; [done|]. intros H. apply IH. by eapply step_ok. Qed.

Definition running (rc : option Z) : Z := if rc is None then 1 else 0.

(** Bytes still to be sent and received, and calls that have not returned. *)
Definition remaining (l : link) : Z := (len data - l_sent l) + (n - l_got l) + running (l_wrc l) + running (l_rrc l).

Lemma remaining_nonneg l : link_ok l -> 0 <= remaining l.
Proof.
  intros [(r & u & Hd & Hg & Hs & _ & Hn) _ _]. unfold remaining, running. rewrite Hg, Hs, Hd.
  rewrite !len_app. pose proof (len_nonneg u). destruct (l_wrc l), (l_rrc l); lia.
Qed.

Lemma step_decreases i l l' :
  link_ok l -> link_step data n i l l' -> remaining l' <= remaining l /\ (i = false -> remaining l' < remaining l).
Proof.
  intros [(r & u & Hd & Hg & Hs & Hb & Hn) Hw Hr] Hstep. unfold remaining.
  destruct Hstep as [e l sent stream Hn1 Hlt He Ht|e l rc Hn1 Hlt He Ht|l Hn1 Hge|e l buf got stream Hn1 Hlt He1 He2 Ht|e l rc Hn1 Hlt He1 He2 Ht|l Hn1 Hge];
    cbn [l_sent l_got l_wrc l_rrc]; rewrite Hn1; cbn [running]; try lia.
  - unfold write_turn in Ht. case_match; [done|]. destruct (Z.leb_spec (io_ret e) 0); [case_match; [injection Ht as <- <-; lia|done]|].
    destruct (load_bytes _ _ _); [injection Ht as <- <-; lia|done].
  - unfold read_turn in Ht. case_match; [done|]. destruct (Z.eqb_spec (io_ret e) 0); [done|].
    destruct (Z.ltb_spec (io_ret e) 0); [case_match; [injection Ht as <- <- <-; split; [lia|]; destruct (Z.leb_spec (io_ret e) 0); [done|lia]|done]|].
    destruct (load_bytes _ _ _); [|done]. cbn in Ht. destruct (store_bytes _ _ _); [injection Ht as <- <- <-; lia|done].
Qed.

Lemma run_bounded k i l l' :
  link_run data n k i l l' -> link_ok l -> Z.of_nat k + remaining l' <= Z.of_nat i + remaining l.
Proof.
  induction 1 as [|b k i l1 l2 l3 Hs _ IH]; [lia|]. intros H. specialize (IH (step_ok _ _ _ H Hs)).
  destruct (step_decreases _ _ _ H Hs) as [H1 H2]. destruct b; [lia|]. specialize (H2 eq_refl). lia.
Qed.

Lemma progress l :
  link_ok l -> n = len data -> l_wrc l <> Some (-1) -> l_rrc l <> Some (-1) ->
  (l_wrc l = Some 0 /\ l_rrc l = Some 0) \/
  exists l', link_step data n false l l' /\ l_wrc l' <> Some (-1) /\ l_rrc l' <> Some (-1).
Proof.
  intros [(r & u & Hd & Hg & Hs & Hb & Hn) Hw Hr] En Hw1 Hr1.
  assert (Hlen : len data = len r + len (l_stream l) + len u) by (rewrite Hd at 1; rewrite !len_app; lia).
  destruct Hw as [Ew|[Ew|[Ew Hw]]]; [|congruence|].
  - right. destruct (decide (l_sent l < len data)) as [Hlt|Hge].
    + destruct (write_turn_cases (mk_io 1 1 false) r (l_stream l) u) as [[? _]|[E|(b & u' & Hu & Hb1 & _ & E)]];
        [cbn; rewrite Hs, len_app in Hlt; lia|cbn in *; lia|..].
      * unfold write_turn in E. cbn in E. by destruct (load_bytes _ _ _).
      * eexists. split; [apply (write_goes_on data n (mk_io 1 1 false) l); [done|done|cbn; lia|rewrite Hs, Hd; exact E]|]. done.
    + eexists. split; [by apply write_returns; [|lia]|]. done.
  - destruct Hr as [Er|[Er|[Er Hr]]]; [|congruence|by left]. right.
    destruct (decide (l_got l < n)) as [Hlt|Hge].
    + assert (Hs1 : 1 <= len (l_stream l)) by (rewrite Hs, len_app in Hw; lia).
      destruct (read_turn_cases (mk_io 1 1 false) r (l_stream l) Hn ltac:(cbn; lia) ltac:(cbn; lia)) as [[? _]|[E|(b & s' & Hs' & _ & _ & _ & E)]];
        [cbn in *; lia|..].
      * unfold read_turn in E. cbn in E. destruct (load_bytes _ _ _); [|done]. by destruct (store_bytes _ _ _).
      * eexists. split; [apply (read_goes_on data n (mk_io 1 1 false) l); [done|done|cbn; lia|done|rewrite Hb, Hg; exact E]|]. cbn. by rewrite Ew.
    + eexists. split; [by apply read_returns; [|lia]|]. cbn. by rewrite Ew.
Qed.
End Transfer.

(** The loops on their own: what a call that returns 0 has done. *)
Lemma write_n_exact evs data : forall pre post stream s,
  data = pre ++ post -> sl_sock_write_n evs data (len pre) stream = Ok (Some 0, s) -> s = stream ++ post.
Proof.
  induction evs as [|e evs IH]; intros pre post stream s Hd; cbn [sl_sock_write_n]; destruct (Z.ltb_spec (len pre) (len data)) as [Hl|Hl].
  - done.
  - intros [= <-]. rewrite Hd, len_app in Hl. rewrite (len_0_nil post), app_nil_r; [done|pose proof (len_nonneg post); lia].
  - unfold write_turn. destruct (io_poll e <=? 0); [done|].
    destruct (Z.leb_spec (io_ret e) 0); [destruct (io_eintr e); [by apply IH|done]|].
    unfold load_bytes. destruct ((0 <=? len pre) && _ && _) eqn:Eb; [|done]. apply andb_prop in Eb as [_ Eb%Z.leb_le].
    intros E. rewrite Hd, len_app in Eb. cbn in E. rewrite Hd, drop_len_app, <- Hd in E.
    rewrite <- (len_take (io_ret e) post) in E at 1 by lia. rewrite <- len_app in E.
    apply (IH (pre ++ take (Z.to_nat (io_ret e)) post) (drop (Z.to_nat (io_ret e)) post)) in E.
    + by rewrite E, <- app_assoc, take_drop.
    + by rewrite Hd, <- app_assoc, take_drop.
  - intros [= <-]. rewrite Hd, len_app in Hl. rewrite (len_0_nil post), app_nil_r; [done|pose proof (len_nonneg post); lia].
Qed.

Lemma read_n_exact evs n buf0 : forall got stream b s,
  n = len buf0 -> len got <= n ->
  sl_sock_read_n evs n (got ++ drop (length got) buf0) (len got) stream = Ok (Some 0, b, s) ->
  exists bs, b = got ++ bs /\ len b = n /\ stream = bs ++ s.
Proof.
  induction evs as [|e evs IH]; intros got stream b s Hn Hg; cbn [sl_sock_read_n]; destruct (Z.ltb_spec (len got) n) as [Hl|Hl].
  1: done.
  1, 3: intros [= <- <-]; exists []; rewrite drop_ge, !app_nil_r by (unfold len in *; lia); split_and!; [done|lia|done].
  unfold read_turn. destruct (io_poll e <=? 0); [done|]. destruct (Z.eqb_spec (io_ret e) 0); [done|].
  destruct (Z.ltb_spec (io_ret e) 0); [destruct (io_eintr e); [by apply IH|done]|].
  destruct (decide (io_ret e <= len stream)) as [Hs|Hs];
    [|unfold load_bytes; rewrite (proj2 (Z.leb_gt (0 + io_ret e) _)) by lia; by rewrite andb_false_r].
  rewrite load_bytes_in_bounds by lia. change (drop (Z.to_nat 0) stream) with stream.
  assert (Ht : len (take (Z.to_nat (io_ret e)) stream) = io_ret e) by (rewrite len_take; lia).
  destruct (decide (len got + io_ret e <= n)) as [Hf|Hf].
  - rewrite store_bytes_append; [|done|rewrite Ht, len_drop_nat; unfold len in *; lia].
    rewrite drop_drop, <- length_app. intros E. cbn in E.
    replace (len got + io_ret e) with (len (got ++ take (Z.to_nat (io_ret e)) stream)) in E by (rewrite len_app; lia).
    apply IH in E as (bs & -> & Hb & Hst); [|done|rewrite len_app; lia].
    exists (take (Z.to_nat (io_ret e)) stream ++ bs). rewrite <- app_assoc. split_and!; [done|by rewrite app_assoc|].
    by rewrite <- app_assoc, <- Hst, take_drop.
  - unfold store_bytes. rewrite (proj2 (Z.leb_gt (len got + _) _)); [by rewrite andb_false_r|].
    rewrite Ht, len_app, len_drop_nat; unfold len in *; lia.
Qed.

(** C17: Sending and receiving exactly [n] bytes over a socket, with a writer and a reader
    that take turns in any order and are given their bytes in any pieces. What the reader
    has is always a prefix of the data, in place, with the rest of its buffer untouched; when
    the read returns 0 the buffer is the data, everything has been sent and nothing is left
    over. Neither call can loop: the number of turns is bounded by the bytes to move and the
    signals that interrupt, and as long as neither has failed one of them can go on until
    both have returned. *)
Theorem socket_transfer_exact data buf0 k i l :
  len buf0 = len data -> link_run data (len buf0) k i (link0 buf0) l ->
  l_buf l = take (Z.to_nat (l_got l)) data ++ drop (Z.to_nat (l_got l)) buf0 /\
  (l_rrc l = Some 0 -> l_buf l = data /\ l_stream l = [] /\ l_sent l = len data) /\
  Z.of_nat k <= Z.of_nat i + 2 * len data + 2 /\
  (l_wrc l <> Some (-1) -> l_rrc l <> Some (-1) ->
   (l_wrc l = Some 0 /\ l_rrc l = Some 0) \/
   exists l', link_step data (len buf0) false l l' /\ l_wrc l' <> Some (-1) /\ l_rrc l' <> Some (-1)).
Proof.
  intros Hn Hrun. pose proof (run_ok _ _ _ _ _ _ Hrun (link0_ok data buf0)) as Hok.
  pose proof (run_bounded _ _ _ _ _ _ Hrun (link0_ok data buf0)) as Hk.
  pose proof (remaining_nonneg _ _ _ Hok) as Hr. split_and!.
  - destruct (lk_split _ _ _ Hok) as (r & u & Hd & -> & _ & -> & _). rewrite Hd, take_len_app. by rewrite len_to_nat.
  - intros Er. destruct (lk_reader _ _ _ Hok) as [E|[E|[_ Hg]]]; [congruence..|].
    destruct (lk_split _ _ _ Hok) as (r & u & Hd & Hgr & -> & -> & _).
    assert (Hl : len data = len r + len (l_stream l) + len u) by (rewrite Hd at 1; rewrite !len_app; lia).
    assert (Es : l_stream l = []) by (apply len_0_nil; pose proof (len_nonneg u); pose proof (len_nonneg (l_stream l)); lia).
    assert (Eu : u = []) by (apply len_0_nil; pose proof (len_nonneg u); pose proof (len_nonneg (l_stream l)); lia).
    rewrite Es, Eu, !app_nil_r in *. rewrite drop_ge, app_nil_r by (unfold len in *; lia). by rewrite Hd.
  - change (remaining data buf0 (link0 buf0)) with ((len data - 0) + (len buf0 - 0) + 1 + 1) in Hk. lia.
  - by apply progress.
Qed.

Lemma socket_transfer_exact_witness :
  exists l, link_run [5; 6] 2 4 0 (link0 [0; 0]) l /\ l_buf l = [5; 6].
Proof.
  exists (mk_link 2 None [] [5; 6] 2 (Some 0)).
  assert (Hr : link_run [5; 6] (len [0; 0]) 4 0 (link0 [0; 0]) (mk_link 2 None [] [5; 6] 2 (Some 0))).
  { apply (run_cons _ _ false 3 0 _ (mk_link 2 None [5; 6] [0; 0] 0 None));
      [by apply (write_goes_on [5; 6] 2 (mk_io 1 2 false) (link0 [0; 0]) 2 [5; 6])|].
    apply (run_cons _ _ false 2 0 _ (mk_link 2 None [6] [5; 0] 1 None));
      [by apply (read_goes_on [5; 6] 2 (mk_io 1 1 false) (mk_link 2 None [5; 6] [0; 0] 0 None) [5; 0] 1 [6])|].
    apply (run_cons _ _ false 1 0 _ (mk_link 2 None [] [5; 6] 2 None));
      [by apply (read_goes_on [5; 6] 2 (mk_io 1 1 false) (mk_link 2 None [6] [5; 0] 1 None) [5; 6] 2 [])|].
    apply (run_cons _ _ false 0 0 _ (mk_link 2 None [] [5; 6] 2 (Some 0)));
      [by apply (read_returns [5; 6] 2 (mk_link 2 None [] [5; 6] 2 None))|]. apply run_nil. }
  split; [exact Hr|].
  exact (proj1 (proj1 (proj2 (socket_transfer_exact [5; 6] [0; 0] 4 0 _ eq_refl Hr)) eq_refl)).
Defined.

(** The two calls one after the other, on a stream that goes on with other data. *)
Lemma write_then_read wevs revs data more buf0 s b s' :
  len buf0 = len data ->
  sl_sock_write_n wevs data 0 [] = Ok (Some 0, s) ->
  sl_sock_read_n revs (len buf0) buf0 0 (s ++ more) = Ok (Some 0, b, s') -> b = data /\ s' = more.
Proof.
  intros Hn Hw Hr. apply (write_n_exact _ data [] data) in Hw as ->; [|done]. cbn [app] in Hr.
  apply (read_n_exact revs (len buf0) buf0 []) in Hr as (bs & -> & Hb & E); [|done|by apply len_nonneg].
  cbn [app] in *. apply app_inj_1 in E as [-> ->]; [done|unfold len in *; lia].
Qed.
