(* ===== verification/AtomicFile.v ===== *)
(** Whole-file writes ([src/sl_atomic_file.c]) and the identity file built the same way
    ([src/sl_identity_file.c]), with the Ed25519 wrappers it uses ([src/sl_ed25519.c]). The
    disk is a finite map from names to files with their mode; the outcomes of the system
    calls are arguments. A write returns every state of the disk it goes through, in order. A
    file carries a mark that it has been synced: a crash may leave the directory as it was in any
    state gone through, and of a file that was not synced then it keeps nothing for certain but
    its name. *)

From Stdlib Require Import String.
From stdpp Require Import gmap strings.
From S2P Require Import Prelude ByteOrder Codec Mem Crc32 KeySched Stdio Snapshot HandshakeEngine.
Local Open Scope Z_scope.

Record inode := mk_inode { f_mode : Z; f_data : list Z; f_synced : bool }.
Abbreviation disk := (gmap (list Z) inode).

(** [open] with [O_CREAT | O_TRUNC]: the mode is used, less the process's mask, only for a
    file that did not exist. *)
Definition open_trunc (umask mode : Z) (name : list Z) (fs : disk) : disk :=
  <[name := mk_inode (from_option f_mode (Z.land mode (Z.lnot umask)) (fs !! name)) [] false]> fs.
(** [open] with [O_CREAT | O_APPEND]. *)
Definition open_append (umask mode : Z) (name : list Z) (fs : disk) : disk :=
  <[name := default (mk_inode (Z.land mode (Z.lnot umask)) [] false) (fs !! name)]> fs.
(** [write] at the end of the file. *)
Definition write_end (name bs : list Z) (fs : disk) : disk :=
  alter (fun i => mk_inode (f_mode i) (f_data i ++ bs) false) name fs.
(** [fsync]: a call that fails promises nothing. *)
Definition fsync (ok : bool) (name : list Z) (fs : disk) : disk :=
  if ok then alter (fun i => mk_inode (f_mode i) (f_data i) true) name fs else fs.
Definition unlink (ok : bool) (name : list Z) (fs : disk) : disk := if ok then delete name fs else fs.
Definition rename (from to : list Z) (fs : disk) : disk :=
  match fs !! from with Some i => <[to := i]> (delete from fs) | None => fs end.

(** [d'] may be found after a crash in the state [d]. *)
Definition crash_of (d d' : disk) : Prop :=
  forall name, match d !! name, d' !! name with
               | Some i, Some i' => f_mode i' = f_mode i /\ (f_synced i = true -> f_data i' = f_data i)
               | None, None => True
               | _, _ => False
               end.

(** The outcomes of a save: whether open succeeds, what each write returns, whether fsync, rename
    and unlink succeed, and the process's file mode mask. *)
Record save_calls := mk_calls { open_ok : bool; writes : list Z; fsyncs : bool; renames : bool; unlinks : bool; umask : Z }.

(** The write loop: [Some true] when everything is written, [Some false] on an error, [None]
    when the outcomes given end before it does; the states after each write. *)
(* src/src/sl_atomic_file.c:22-27 sl_atomic_write_bytes *)
Fixpoint write_loop (ws : list Z) (tmp data : list Z) (off : Z) (fs : disk) : M (option bool * disk * list disk) :=
  if off <? len data then
    match ws with
    | [] => Ok (None, fs, [])
    | w :: ws =>
        if w <? 0 then Ok (Some false, fs, [])
        else
          let! bs := load_bytes data off w in
          let fs := write_end tmp bs fs in
          let! '(r, fs', trace) := write_loop ws tmp data (off + w) fs in
          Ok (r, fs', fs :: trace)
    end
  else Ok (Some true, fs, []).

(** The return code, [None] for a call that has not returned; the disk, and the states on the
    way to it, that one included. *)
(* src/src/sl_atomic_file.c:10-33 *)
Definition sl_atomic_write_bytes (env : save_calls) (fs : disk) (path : list Z) (data : option (list Z)) (n do_fsync : Z)
  : M (option Z * disk * list disk) :=
  if bool_decide (data = None) && (0 <? n) then Ok (Some (-1), fs, [])
  else
    let tmp := tmp_name path in
    if 1024 <=? len tmp then Ok (Some (-1), fs, [])
    else if negb (open_ok env) then Ok (Some (-1), fs, [])
    else
      let fs := open_trunc (umask env) 420 tmp fs in
      let! '(r, fs1, trace) := write_loop (writes env) tmp (ptr_bytes data n) 0 fs in
      match r with
      | None => Ok (None, fs1, fs :: trace)
      | Some false => let fs2 := unlink (unlinks env) tmp fs1 in Ok (Some (-1), fs2, fs :: trace ++ [fs2])
      | Some true =>
          let fs1 := if negb (do_fsync =? 0) then fsync (fsyncs env) tmp fs1 else fs1 in
          if negb (renames env)
          then let fs2 := unlink (unlinks env) tmp fs1 in Ok (Some (-1), fs2, fs :: trace ++ [fs1; fs2])
          else let fs2 := rename tmp path fs1 in Ok (Some 0, fs2, fs :: trace ++ [fs1; fs2])
      end.

(** [w] is what the single write returns. *)
(* src/src/sl_atomic_file.c:35-50 *)
Definition sl_atomic_append_line (malloc_ok open_ok : bool) (w umask : Z) (fs : disk) (path line : list Z) : M (Z * disk) :=
  let llen := len line in
  if negb malloc_ok then Ok (-1, fs)
  else
    let! buf := store_bytes (replicate (Z.to_nat (llen + 2)) 0) 0 line in
    let! buf := store_bytes buf llen [10] in
    let! buf := store_bytes buf (llen + 1) [0] in
    if negb open_ok then Ok (-1, fs)
    else
      let fs := open_append umask 420 path fs in
      let! written := (if 0 <=? w then load_bytes buf 0 w else Ok []) in
      Ok (if w =? llen + 1 then 0 else -1, write_end path written fs).

(** [None] is the error return. *)
(* src/src/sl_atomic_file.c:52-70 *)
Definition sl_read_all (malloc_ok : bool) (fs : disk) (path : list Z) : option (list Z) :=
  match fs !! path with
  | None => None
  | Some i =>
      let fp := fseek_end (mk_file (f_data i) 0) in
      let sz := ftell fp in
      if sz <? 0 then None
      else
        let fp := mk_file (contents fp) 0 in
        if negb malloc_ok && (0 <? sz) then None
        else
          let '(got, _) := fread fp sz in
          if (0 <? sz) && negb (len got =? sz) then None else Some got
  end.

(** ** The identity file *)

(* src/inc/sl_ed25519.h:23-23 *)
Definition SL_ED25519_PRIVKEY_LEN : Z := 32.
(* src/src/sl_identity_file.c:13-13 *)
Definition SL_ID_MAGIC : list Z := lit "SLID".
(* src/src/sl_identity_file.c:14-14 *)
Definition SL_ID_VER : Z := 1.
(* src/src/sl_identity_file.c:15-15 *)
Definition SL_ID_TOTAL : Z := 4 + 4 + SL_ED25519_PRIVKEY_LEN + SL_ED25519_PUBKEY_LEN + 4.

(** The buffer that is written. *)
(* src/src/sl_identity_file.c:32-38 sl_identity_file_save *)
Definition identity_buf (s : crc_statics) (priv pub : list Z) : M (list Z * crc_statics) :=
  let! buf := store_bytes (replicate (Z.to_nat SL_ID_TOTAL) 0) 0 SL_ID_MAGIC in
  let! buf := pack_u32_be buf 4 SL_ID_VER in
  let! p := load_bytes priv 0 SL_ED25519_PRIVKEY_LEN in
  let! buf := store_bytes buf 8 p in
  let! p := load_bytes pub 0 SL_ED25519_PUBKEY_LEN in
  let! buf := store_bytes buf (8 + SL_ED25519_PRIVKEY_LEN) p in
  let! body := load_bytes buf 0 (SL_ID_TOTAL - 4) in
  let! '(crc, s) := sl_crc32c s body in
  let! buf := pack_u32_be buf (SL_ID_TOTAL - 4) crc in
  Ok (buf, s).

(** The return code, the disk, the states on the way, and what is left in the buffer the
    file was built in. *)
(* src/src/sl_identity_file.c:27-58 *)
Definition sl_identity_file_save (s : crc_statics) (env : save_calls) (fs : disk) (path priv pub : list Z)
  : M (option Z * disk * list disk * list Z * crc_statics) :=
  let! '(buf, s) := identity_buf s priv pub in
  let tmp := tmp_name path in
  if 1024 <=? len tmp then Ok (Some (-1), fs, [], buf, s)
  else
    let! zeroed := sl_secure_zero buf SL_ID_TOTAL in
    if negb (open_ok env) then Ok (Some (-1), fs, [], zeroed, s)
    else
      let fs := open_trunc (umask env) 384 tmp fs in
      let! '(r, fs1, trace) := write_loop (writes env) tmp buf 0 fs in
      match r with
      | None => Ok (None, fs1, fs :: trace, buf, s)
      | Some false => let fs2 := unlink (unlinks env) tmp fs1 in Ok (Some (-1), fs2, fs :: trace ++ [fs2], zeroed, s)
      | Some true =>
          let fs1 := fsync (fsyncs env) tmp fs1 in
          if negb (renames env) then Ok (Some (-1), fs1, fs :: trace ++ [fs1], zeroed, s)
          else let fs2 := rename tmp path fs1 in Ok (Some 0, fs2, fs :: trace ++ [fs1; fs2], zeroed, s)
      end.

(** The two keys, [None] for an error; they are written only on success. *)
(* src/src/sl_identity_file.c:60-83 *)
Definition sl_identity_file_load (s : crc_statics) (fs : disk) (path : list Z)
  : M (option (list Z * list Z) * crc_statics) :=
  match fs !! path with
  | None => Ok (None, s)
  | Some i =>
      let '(buf, _) := fread (mk_file (f_data i) 0) SL_ID_TOTAL in
      if negb (len buf =? SL_ID_TOTAL) then Ok (None, s)
      else
        let! magic := load_bytes buf 0 4 in
        if negb (bool_decide (magic = SL_ID_MAGIC)) then Ok (None, s)
        else
          let! ver := unpack_u32_be buf 4 in
          if negb (ver =? SL_ID_VER) then Ok (None, s)
          else
            let! crc_stored := unpack_u32_be buf (SL_ID_TOTAL - 4) in
            let! body := load_bytes buf 0 (SL_ID_TOTAL - 4) in
            let! '(crc_calc, s) := sl_crc32c s body in
            if negb (crc_stored =? crc_calc) then Ok (None, s)
            else
              let! priv := load_bytes buf 8 SL_ED25519_PRIVKEY_LEN in
              let! pub := load_bytes buf (8 + SL_ED25519_PRIVKEY_LEN) SL_ED25519_PUBKEY_LEN in
              Ok (Some (priv, pub), s)
  end.

(** OpenSSL's answers while a key pair is made: the context, the two steps, and the raw keys
    ([None] for an error return). *)
Record evp_keygen := mk_kg {
  kg_ctx : bool; kg_init : bool; kg_keygen : bool; kg_priv : option (list Z); kg_pub : option (list Z)
}.

(** The return code and the two buffers. *)
(* src/src/sl_ed25519.c:8-33 *)
Definition sl_ed25519_keypair_new (o : evp_keygen) (priv pub : list Z) : M (Z * list Z * list Z) :=
  if negb (kg_ctx o) then Ok (-1, priv, pub)
  else if negb (kg_init o) then Ok (-1, priv, pub)
  else if negb (kg_keygen o) then Ok (-1, priv, pub)
  else match kg_priv o with
       | None => Ok (-1, priv, pub)
       | Some k =>
           let! priv := store_bytes priv 0 k in
           if negb (len k =? SL_ED25519_PRIVKEY_LEN) then Ok (-1, priv, pub)
           else match kg_pub o with
                | None => Ok (-1, priv, pub)
                | Some k =>
                    let! pub := store_bytes pub 0 k in
                    if negb (len k =? SL_ED25519_PUBKEY_LEN) then Ok (-1, priv, pub) else Ok (0, priv, pub)
                end
       end.

(** The return code ([None] while it has not returned), the two buffers, [*was_created], the
    disk and the checksum statics. *)
(* src/src/sl_identity_file.c:85-101 *)
Definition sl_identity_file_load_or_create (s : crc_statics) (env : save_calls) (o : evp_keygen) (fs : disk)
  (path priv pub : list Z) : M (option Z * list Z * list Z * Z * disk * crc_statics) :=
  let! '(loaded, s) := sl_identity_file_load s fs path in
  match loaded with
  | Some (k, p) =>
      let! priv := store_bytes priv 0 k in
      let! pub := store_bytes pub 0 p in
      Ok (Some 0, priv, pub, 0, fs, s)
  | None =>
      let! '(rc, priv, pub) := sl_ed25519_keypair_new o priv pub in
      if negb (rc =? 0) then Ok (Some (-1), priv, pub, 0, fs, s)
      else
        let! '(rc, fs, _, _, s) := sl_identity_file_save s env fs path priv pub in
        match rc with
        | None => Ok (None, priv, pub, 0, fs, s)
        | Some rc =>
            if negb (rc =? 0)
            then let! priv := sl_secure_zero priv SL_ED25519_PRIVKEY_LEN in Ok (Some (-1), priv, pub, 0, fs, s)
            else Ok (Some 0, priv, pub, 1, fs, s)
        end
  end.

(** ** Writing and renaming *)

(** The kernel's part: a write never takes more than it is given. *)
Fixpoint writes_ok (ws : list Z) (n : Z) : Prop :=
  match ws with [] => True | w :: ws => w <= n /\ (0 <= w -> writes_ok ws (n - w)) end.

(** Only [tmp] differs. *)
Definition only_tmp (tmp : list Z) (fs d : disk) : Prop := exists i, d = <[tmp := i]> fs.

Lemma write_loop_spec tmp data fs m : forall ws pre rest,
  data = pre ++ rest -> writes_ok ws (len rest) ->
  exists r got trace, write_loop ws tmp data (len pre) (<[tmp := mk_inode m pre false]> fs) =
      Ok (r, <[tmp := mk_inode m got false]> fs, trace) /\
    Forall (only_tmp tmp fs) trace /\ (r = Some true -> got = data).
Proof.
  induction ws as [|w ws IH]; intros pre rest Hd Hw; cbn [write_loop];
    destruct (Z.ltb_spec (len pre) (len data)) as [Hl|Hl].
  - by exists None, pre, [].
  - exists (Some true), pre, []. split; [done|]. split; [done|]. intros _. rewrite Hd, len_app in Hl.
    rewrite Hd, (len_0_nil rest), app_nil_r; [done|pose proof (len_nonneg rest); lia].
  - destruct Hw as [Hle Hw]. destruct (Z.ltb_spec w 0); [by exists (Some false), pre, []|].
    rewrite Hd, <- (take_drop (Z.to_nat w) rest), load_bytes_app_mid; [|done|rewrite len_take; lia].
    rewrite take_drop. unfold write_end. rewrite alter_insert_eq. cbn [f_mode f_data].
    destruct (IH (pre ++ take (Z.to_nat w) rest) (drop (Z.to_nat w) rest)) as (r & got & tr & E & Htr & Hgot).
    { by rewrite <- app_assoc, take_drop. }
    { rewrite len_drop by lia. apply Hw. lia. }
    rewrite len_app, len_take in E by lia. rewrite Hd in E. rewrite E.
    eexists r, got, _. split; [done|]. split; [|by rewrite <- Hd]. constructor; [by eexists|done].
  - exists (Some true), pre, []. split; [done|]. split; [done|]. intros _. rewrite Hd, len_app in Hl.
    rewrite Hd, (len_0_nil rest), app_nil_r; [done|pose proof (len_nonneg rest); lia].
Qed.

Lemma only_tmp_other path tmp fs d : only_tmp tmp fs d -> path <> tmp -> d !! path = fs !! path.
Proof. intros [i ->] Hne. by rewrite lookup_insert_ne. Qed.

Lemma rename_tmp tmp path i fs : rename tmp path (<[tmp := i]> fs) = <[path := i]> (delete tmp fs).
Proof. unfold rename. by rewrite lookup_insert_eq, delete_insert_eq. Qed.

Definition same_but (path tmp : list Z) (fs d : disk) : Prop := forall name, name <> path -> name <> tmp -> d !! name = fs !! name.

Lemma fsync_tmp ok tmp m bs fs : fsync ok tmp (<[tmp := mk_inode m bs false]> fs) = <[tmp := mk_inode m bs ok]> fs.
Proof. unfold fsync. destruct ok; [|done]. by rewrite alter_insert_eq. Qed.

(** How a save can end: the return code, the disk and the states it went through; [sy] tells
    whether the new contents were synced before the rename. *)
Inductive replacement (path data : list Z) (sy : bool) (fs : disk) : option Z -> disk -> list disk -> Prop :=
  | not_started : replacement path data sy fs (Some (-1)) fs []
  | not_returned tr i :
      Forall (only_tmp (tmp_name path) fs) tr ->
      replacement path data sy fs None (<[tmp_name path := i]> fs) tr
  | given_up tr :
      Forall (only_tmp (tmp_name path) fs) tr ->
      replacement path data sy fs (Some (-1)) (delete (tmp_name path) fs) (tr ++ [delete (tmp_name path) fs])
  | tmp_left tr i :
      Forall (only_tmp (tmp_name path) fs) tr ->
      replacement path data sy fs (Some (-1)) (<[tmp_name path := i]> fs) tr
  | replaced tr m :
      Forall (only_tmp (tmp_name path) fs) tr ->
      replacement path data sy fs (Some 0) (<[path := mk_inode m data sy]> (delete (tmp_name path) fs))
        (tr ++ [<[path := mk_inode m data sy]> (delete (tmp_name path) fs)]).

(** Old or new, and nothing else but the temporary file touched. *)
Definition old_or_new (path data : list Z) (sy : bool) (fs d : disk) : Prop :=
  same_but path (tmp_name path) fs d /\
  (d !! path = fs !! path \/ exists m, d !! path = Some (mk_inode m data sy)).

(** After a crash in the state [d]: the old contents or all of the new ones. *)
Definition crash_old_or_new (path data : list Z) (fs d : disk) : Prop :=
  forall d', crash_of d d' ->
    f_data <$> (d' !! path) = f_data <$> (fs !! path) \/ f_data <$> (d' !! path) = Some data.

(** The file that is replaced, if there is one, is safely on the disk. *)
Definition settled (path : list Z) (fs : disk) : Prop := forall i, fs !! path = Some i -> f_synced i = true.

Lemma crash_contents d d' path :
  crash_of d d' -> (forall i, d !! path = Some i -> f_synced i = true) -> f_data <$> (d' !! path) = f_data <$> (d !! path).
Proof.
  intros Hc Hs. specialize (Hc path). destruct (d !! path) as [i|], (d' !! path) as [i'|]; try done.
  cbn. f_equal. apply Hc. by apply Hs.
Qed.

Lemma old_or_new_crash path data fs d :
  settled path fs -> old_or_new path data true fs d -> crash_old_or_new path data fs d.
Proof.
  intros Hs [_ [E|[m E]]] d' Hc; rewrite (crash_contents d d' path Hc); rewrite E; try done.
  - by left.
  - by right.
  - by intros i [= <-].
Qed.

Lemma replacement_states path data sy fs rc fs' trace :
  replacement path data sy fs rc fs' trace ->
  Forall (old_or_new path data sy fs) (fs :: fs' :: trace) /\
  (rc = Some 0 -> f_data <$> (fs' !! path) = Some data /\ fs' !! tmp_name path = None) /\
  (rc = Some (-1) -> fs' !! path = fs !! path).
Proof.
  assert (Hne : path <> tmp_name path) by (intros E; by apply (tmp_name_ne path)).
  assert (Ho : forall d, only_tmp (tmp_name path) fs d -> old_or_new path data sy fs d).
  { intros d Hd. split; [intros name _ Hn|left]; by eapply only_tmp_other. }
  assert (Hd : old_or_new path data sy fs (delete (tmp_name path) fs)).
  { split; [intros name _ Hn|left]; by rewrite lookup_delete_ne. }
  assert (Hr : forall m, old_or_new path data sy fs (<[path := mk_inode m data sy]> (delete (tmp_name path) fs))).
  { intros m. split; [intros name Hn1 Hn2; by rewrite lookup_insert_ne, lookup_delete_ne|].
    right. exists m. by rewrite lookup_insert_eq. }
  assert (Hi : forall i, old_or_new path data sy fs (<[tmp_name path := i]> fs)) by (intros i; apply Ho; by exists i).
  assert (Htrs : forall tr, Forall (only_tmp (tmp_name path) fs) tr -> Forall (old_or_new path data sy fs) tr)
    by (intros tr Htr; by eapply Forall_impl).
  assert (H0 : old_or_new path data sy fs fs) by (split; [done|by left]).
  destruct 1 as [|tr i Htr|tr Htr|tr i Htr|tr m Htr]; rewrite ?Forall_cons, ?Forall_app, ?Forall_singleton.
  - split; [by auto|]. by split.
  - split; [by auto|]. by split.
  - split; [by auto|]. split; [done|]. intros _. by rewrite lookup_delete_ne.
  - split; [by auto|]. split; [done|]. intros _. by rewrite lookup_insert_ne.
  - split; [by auto|]. split; [|done]. intros _. by rewrite lookup_insert_eq, lookup_insert_ne, lookup_delete_eq.
Qed.

(** A save that ends with the temporary file removed, or left when that fails. *)
Lemma replacement_unlinked path data sy fs tr i u :
  Forall (only_tmp (tmp_name path) fs) tr ->
  let fs2 := unlink u (tmp_name path) (<[tmp_name path := i]> fs) in
  replacement path data sy fs (Some (-1)) fs2 (tr ++ [fs2]) /\ (u = true -> fs2 !! tmp_name path = None).
Proof.
  intros Htr fs2. subst fs2. destruct u; cbn [unlink].
  - rewrite delete_insert_eq. split; [by constructor|]. intros _. by rewrite lookup_delete_eq.
  - split; [|done]. constructor. apply Forall_app. split; [done|]. constructor; [by eexists|done].
Qed.

Lemma atomic_write_cases env fs path data do_fsync :
  writes_ok (writes env) (len data) ->
  exists rc fs' trace, sl_atomic_write_bytes env fs path (Some data) (len data) do_fsync = Ok (rc, fs', trace) /\
    replacement path data (negb (do_fsync =? 0) && fsyncs env) fs rc fs' trace /\
    (rc = Some (-1) -> fs' = fs \/ (unlinks env = true -> fs' !! tmp_name path = None)).
Proof.
  intros Hw. unfold sl_atomic_write_bytes. rewrite bool_decide_eq_false_2 by done. cbn [andb]. rewrite ptr_some_bytes.
  case_match; [eexists _, _, _; split; [done|]; split; [constructor|by left]|].
  case_match; [eexists _, _, _; split; [done|]; split; [constructor|by left]|].
  unfold open_trunc. set (m := from_option _ _ _).
  destruct (write_loop_spec (tmp_name path) data fs m (writes env) [] data eq_refl Hw) as (r & got & tr & E & Htr & Hgot).
  change (len (@nil Z)) with 0 in E. rewrite E. set (sy := negb (do_fsync =? 0) && fsyncs env).
  assert (Hall : Forall (only_tmp (tmp_name path) fs) (<[tmp_name path := mk_inode m [] false]> fs :: tr)) by (constructor; [by eexists|done]).
  assert (Hsy : (if negb (do_fsync =? 0) then fsync (fsyncs env) (tmp_name path) (<[tmp_name path := mk_inode m got false]> fs)
                 else <[tmp_name path := mk_inode m got false]> fs) = <[tmp_name path := mk_inode m got sy]> fs).
  { unfold sy. destruct (do_fsync =? 0); cbn [negb andb]; [done|by rewrite fsync_tmp]. }
  assert (Hall1 : forall i, Forall (only_tmp (tmp_name path) fs) ((<[tmp_name path := mk_inode m [] false]> fs :: tr) ++ [<[tmp_name path := i]> fs])).
  { intros i. apply Forall_app. split; [done|]. constructor; [by eexists|done]. }
  destruct r as [[]|]; cbv zeta; rewrite ?Hsy; [rewrite (Hgot eq_refl) in *; destruct (renames env)|..];
    eexists _, _, _; (split; [reflexivity|]).
  - split; [|done]. rewrite rename_tmp. pose proof (replaced path data sy fs _ m (Hall1 (mk_inode m data sy))) as Hx.
    by rewrite <- app_assoc in Hx.
  - destruct (replacement_unlinked path data sy fs _ (mk_inode m data sy) (unlinks env) (Hall1 (mk_inode m data sy))) as [Hx Hu].
    rewrite <- app_assoc in Hx. split; [exact Hx|]. intros _. by right.
  - destruct (replacement_unlinked path data sy fs _ (mk_inode m got false) (unlinks env) Hall) as [Hx Hu].
    split; [exact Hx|]. intros _. by right.
  - split; [by apply (not_returned path data sy fs (_ :: tr))|done].
Qed.

Lemma read_all_data fs path data : f_data <$> (fs !! path) = Some data -> sl_read_all true fs path = Some data.
Proof.
  unfold sl_read_all. destruct (fs !! path) as [i|]; [|done]. intros [= <-]. cbn [contents fseek_end ftell fpos f_data].
  pose proof (len_nonneg (f_data i)). rewrite (proj2 (Z.ltb_ge _ _)) by done. cbn [negb andb].
  pose proof (fread_app [] (f_data i) [] (len (f_data i)) eq_refl) as E. cbn [app] in E. rewrite app_nil_r in E.
  change (len (@nil Z)) with 0 in E. rewrite E. by rewrite Z.eqb_refl, andb_false_r.
Qed.

(** C22: Replacing a file is atomic. In every state the disk goes through, the file has
    either its old contents or all of the new ones, and no other file but the temporary one
    changes. A call that returns 0 has replaced it, so that reading it gives exactly the data,
    and has left no temporary file; a call that returns -1 has left it as it was, and the temporary
    file is gone unless its removal failed. When syncing is asked for and the fsync succeeds, and
    the old file was safely on the disk, this outlives a crash: whatever is lost of unsynced
    files and directory updates, a crash in any state leaves the file with its old contents or all
    of the new ones. *)
Theorem atomic_write_crash_safe env fs path data do_fsync :
  writes_ok (writes env) (len data) ->
  exists rc fs' trace, sl_atomic_write_bytes env fs path (Some data) (len data) do_fsync = Ok (rc, fs', trace) /\
    Forall (fun d => same_but path (tmp_name path) fs d /\
      (d !! path = fs !! path \/ f_data <$> (d !! path) = Some data)) (fs' :: trace) /\
    (rc = Some 0 -> sl_read_all true fs' path = Some data /\ fs' !! tmp_name path = None) /\
    (rc = Some (-1) -> fs' !! path = fs !! path /\ (fs' = fs \/ (unlinks env = true -> fs' !! tmp_name path = None))) /\
    (do_fsync <> 0 -> fsyncs env = true -> settled path fs ->
       Forall (crash_old_or_new path data fs) (fs :: fs' :: trace)).
Proof.
  intros Hw. destruct (atomic_write_cases env fs path data do_fsync Hw) as (rc & fs' & trace & E & Hr & Ht).
  destruct (replacement_states _ _ _ _ _ _ _ Hr) as (Hs & H0 & H1). exists rc, fs', trace. split_and!; [done|..].
  - apply Forall_cons in Hs as [_ Hs]. eapply Forall_impl; [exact Hs|].
    intros d [Hd [Ho|[m Hn]]]; (split; [done|]); [by left|right; by rewrite Hn].
  - intros Hrc. destruct (H0 Hrc) as [Hd Hn]. split; [by apply read_all_data|done].
  - intros Hrc. split; [by apply H1|by apply Ht].
  - intros Hf Hok Hset. rewrite Hok, (proj2 (Z.eqb_neq _ _)) in Hs by done. cbn [negb andb] in Hs.
    eapply Forall_impl; [exact Hs|]. intros d. by apply old_or_new_crash.
Qed.

Definition demo_calls : save_calls := mk_calls true [2; 0; 1] true true true 18.
Definition demo_disk : disk := {[lit "f" := mk_inode 420 [9] true]}.

Lemma atomic_write_crash_safe_witness :
  exists fs' trace, sl_atomic_write_bytes demo_calls demo_disk (lit "f") (Some [1; 2; 3]) 3 1 =
      Ok (Some 0, fs', trace) /\ sl_read_all true fs' (lit "f") = Some [1; 2; 3] /\ length trace = 6%nat /\
    Forall (crash_old_or_new (lit "f") [1; 2; 3] demo_disk) trace.
Proof.
  destruct (atomic_write_crash_safe demo_calls demo_disk (lit "f") [1; 2; 3] 1)
    as (rc & fs' & trace & E & _ & H0 & _ & Hc); [by vm_compute|].
  change (len [1; 2; 3]) with 3 in E.
  pose proof (f_equal (fun r => match r with Ok (a, _, t) => (a, length t) | Fault => (None, O) end) E) as Er.
  vm_compute in Er. injection Er as <- Hl. exists fs', trace. split_and!.
  - exact E.
  - exact (proj1 (H0 eq_refl)).
  - by symmetry.
  - assert (Hs : settled (lit "f") demo_disk) by (intros i [= <-]; reflexivity).
    specialize (Hc ltac:(discriminate) eq_refl Hs). inversion Hc as [|? ? _ Hc']. by inversion Hc'.
Defined.

(** The crash that loses most. *)
Definition wiped (d : disk) : disk :=
  (fun i => mk_inode (f_mode i) (if f_synced i then f_data i else []) true) <$> d.

Lemma wiped_crash d : crash_of d (wiped d).
Proof. intros name. unfold wiped. rewrite lookup_fmap. destruct (d !! name) as [i|]; [|done]. cbn. by destruct (f_synced i). Qed.

(** Without a sync that succeeds, the call may return 0 and a crash leave neither the old contents
    nor the new ones; the result of fsync is ignored. *)
Lemma unsynced_write_lost do_fsync ok :
  (do_fsync, ok) = (0, true) \/ (do_fsync, ok) = (1, false) ->
  exists fs' trace d', sl_atomic_write_bytes (mk_calls true [3] ok true true 18) demo_disk (lit "f") (Some [1; 2; 3]) 3 do_fsync =
      Ok (Some 0, fs', trace) /\ crash_of fs' d' /\ f_data <$> (d' !! lit "f") = Some [].
Proof.
  intros Hno. destruct (sl_atomic_write_bytes _ _ _ _ _ _) as [[[rc fs'] tr]|] eqn:E.
  2: { destruct Hno as [[= -> ->]|[= -> ->]]; vm_compute in E; discriminate. }
  pose proof (f_equal (fun r => match r with Ok (a, d, _) => (a, f_data <$> (wiped d !! lit "f")) | Fault => (None, None) end) E) as Er.
  assert (Hw : (Some 0, Some []) = (rc, f_data <$> (wiped fs' !! lit "f"))).
  { cbv beta iota in Er. rewrite <- Er. destruct Hno as [[= -> ->]|[= -> ->]]; vm_compute; reflexivity. }
  injection Hw as <- Hw. exists fs', tr, (wiped fs'). split; [done|]. split; [apply wiped_crash|by symmetry].
Qed.

(** A line that was only partly written stays in the file, and the call reports failure. *)
Example short_append_remains :
  sl_atomic_append_line true true 2 0 ∅ (lit "log") (lit "abc") = Ok (-1, {[lit "log" := mk_inode 420 (lit "ab") false]}).
Proof. vm_compute. reflexivity. Qed.

(** ** The identity file *)

Definition identity_body (priv pub : list Z) : list Z := SL_ID_MAGIC ++ be32 SL_ID_VER ++ priv ++ pub.
Definition identity_file (priv pub : list Z) : list Z :=
  identity_body priv pub ++ be32 (crc32c (identity_body priv pub)).

Definition keys_ok (priv pub : list Z) : Prop := bytes_ok priv /\ bytes_ok pub /\ len priv = 32 /\ len pub = 32.

Lemma len_identity_body priv pub : keys_ok priv pub -> len (identity_body priv pub) = 72.
Proof. intros (_ & _ & H1 & H2). unfold identity_body. rewrite !len_app, H1, H2. done. Qed.

Lemma identity_body_bytes priv pub : keys_ok priv pub -> bytes_ok (identity_body priv pub).
Proof.
  intros (H1 & H2 & _). unfold identity_body. apply bytes_ok_app; [by_deciding|]. apply bytes_ok_app; [apply be32_bytes|].
  by apply bytes_ok_app.
Qed.

Lemma identity_built s priv pub :
  statics_ok s -> keys_ok priv pub ->
  exists s', statics_ok s' /\ identity_buf s priv pub = Ok (identity_file priv pub, s').
Proof.
  intros Hs Hk. pose proof Hk as (Hb1 & Hb2 & H1 & H2).
  destruct (crc32c_spec s (identity_body priv pub) Hs (identity_body_bytes _ _ Hk)) as (s' & Ec & Hs').
  exists s'. split; [done|]. unfold identity_buf.
  pose proof (store_bytes_append [] (replicate (Z.to_nat SL_ID_TOTAL) 0) SL_ID_MAGIC 0 eq_refl ltac:(by_deciding)) as E0.
  cbn [app] in E0. rewrite E0. clear E0. cbv beta iota.
  rewrite pack_u32_append by by_deciding. cbv beta iota.
  rewrite <- (app_nil_r priv), load_bytes_front by done. cbv beta iota. rewrite app_nil_r.
  rewrite store_bytes_append; [|done|rewrite H1; by vm_compute]. cbv beta iota.
  rewrite <- (app_nil_r pub), load_bytes_front by done. cbv beta iota. rewrite app_nil_r.
  assert (L1 : length priv = 32%nat) by (unfold len in H1; lia). assert (L2 : length pub = 32%nat) by (unfold len in H2; lia).
  rewrite store_bytes_append; [|rewrite len_app, H1; done|rewrite H2, L1; by vm_compute]. cbv beta iota.
  rewrite L1, L2, !drop_drop.
  replace (((SL_ID_MAGIC ++ be32 SL_ID_VER) ++ priv) ++ pub) with (identity_body priv pub)
    by (unfold identity_body; by rewrite <- !app_assoc).
  rewrite load_bytes_front by (by rewrite len_identity_body). rewrite Ec. cbv beta iota.
  rewrite pack_u32_append; [|by rewrite len_identity_body|by vm_compute]. cbv beta iota.
  unfold identity_file. do 2 f_equal. rewrite drop_drop. by rewrite app_nil_r.
Qed.

Lemma len_identity_file priv pub : keys_ok priv pub -> len (identity_file priv pub) = SL_ID_TOTAL.
Proof. intros Hk. unfold identity_file. rewrite len_app, len_identity_body by done. done. Qed.

Lemma identity_save_cases s env fs path priv pub :
  statics_ok s -> keys_ok priv pub -> writes_ok (writes env) SL_ID_TOTAL ->
  exists rc fs' trace buf s', sl_identity_file_save s env fs path priv pub = Ok (rc, fs', trace, buf, s') /\
    statics_ok s' /\ replacement path (identity_file priv pub) (fsyncs env) fs rc fs' trace /\
    (rc <> None -> len (tmp_name path) < 1024 -> buf = replicate (Z.to_nat SL_ID_TOTAL) 0).
Proof.
  intros Hs Hk Hw. unfold sl_identity_file_save.
  destruct (identity_built s priv pub Hs Hk) as (s' & Hs' & ->). cbv beta iota.
  pose proof (len_identity_file _ _ Hk) as Hl. set (file := identity_file priv pub) in *.
  destruct (Z.leb_spec 1024 (len (tmp_name path))); [eexists _, _, _, _, _; split; [done|]; split; [done|]; split; [constructor|lia]|].
  rewrite <- Hl, secure_zero_all, <- len_to_nat. cbv beta iota.
  case_match; [eexists _, _, _, _, _; split; [done|]; split; [done|]; split; [constructor|done]|].
  unfold open_trunc. set (m := from_option _ _ _).
  destruct (write_loop_spec (tmp_name path) file fs m (writes env) [] file eq_refl ltac:(by rewrite Hl)) as (r & got & tr & E & Htr & Hgot).
  change (len (@nil Z)) with 0 in E. rewrite E.
  assert (Hall : Forall (only_tmp (tmp_name path) fs) (<[tmp_name path := mk_inode m [] false]> fs :: tr)) by (constructor; [by eexists|done]).
  assert (Hall1 : forall i, Forall (only_tmp (tmp_name path) fs) ((<[tmp_name path := mk_inode m [] false]> fs :: tr) ++ [<[tmp_name path := i]> fs])).
  { intros i. apply Forall_app. split; [done|]. constructor; [by eexists|done]. }
  destruct r as [[]|]; cbv zeta; [rewrite (Hgot eq_refl), fsync_tmp in *; destruct (renames env)|..];
    eexists _, _, _, _, _; (split; [reflexivity|]); (split; [done|]).
  - split; [|done]. rewrite rename_tmp. pose proof (replaced path file (fsyncs env) fs _ m (Hall1 (mk_inode m file (fsyncs env)))) as Hx.
    by rewrite <- app_assoc in Hx.
  - split; [|done]. by apply (tmp_left path file (fsyncs env) fs ((_ :: tr) ++ [_])).
  - split; [|done]. exact (proj1 (replacement_unlinked path file (fsyncs env) fs _ (mk_inode m got false) (unlinks env) Hall)).
  - split; [by apply (not_returned path file (fsyncs env) fs (_ :: tr))|done].
Qed.

(** Loading a file with the right header, two keys and any checksum, whatever follows it. *)
Lemma identity_load_spec s fs path i priv pub c rest :
  statics_ok s -> keys_ok priv pub -> is_u32 c -> fs !! path = Some i ->
  f_data i = identity_body priv pub ++ be32 c ++ rest ->
  exists s', statics_ok s' /\ sl_identity_file_load s fs path =
    Ok (if c =? crc32c (identity_body priv pub) then Some (priv, pub) else None, s').
Proof.
  intros Hs Hk Hc Hf Hd. pose proof (len_identity_body _ _ Hk) as Hl. pose proof Hk as (_ & _ & H1 & H2).
  unfold sl_identity_file_load. rewrite Hf, Hd.
  pose proof (fread_app [] (identity_body priv pub ++ be32 c) rest SL_ID_TOTAL) as Er.
  cbn [app] in Er. rewrite <- app_assoc in Er. change (len (@nil Z)) with 0 in Er.
  rewrite Er by (rewrite len_app, Hl; done). rewrite len_app, Hl. change (72 + len (be32 c) =? SL_ID_TOTAL) with true. cbn [negb].
  destruct (crc32c_spec s (identity_body priv pub) Hs (identity_body_bytes _ _ Hk)) as (s' & Ec & Hs').
  exists s'. split; [done|].
  unfold identity_body at 1. rewrite <- !app_assoc, load_bytes_front by done. cbv beta iota.
  rewrite bool_decide_eq_true_2 by done. cbn [negb].
  unfold identity_body at 1. rewrite <- !app_assoc, unpack_u32_at by done. cbv beta iota. cbn [negb Z.eqb].
  change (negb (SL_ID_VER =? SL_ID_VER)) with false. cbv iota.
  rewrite <- (app_nil_r (be32 c)), unpack_u32_at by done. cbv beta iota.
  rewrite load_bytes_front by done. rewrite Ec. cbv beta iota.
  destruct (c =? crc32c (identity_body priv pub)); [|done]. cbn [negb].
  unfold identity_body. rewrite <- !app_assoc.
  rewrite (app_assoc SL_ID_MAGIC), load_bytes_app_mid by done. cbv beta iota.
  rewrite (app_assoc (SL_ID_MAGIC ++ be32 SL_ID_VER)), load_bytes_app_mid; [done| |done]. rewrite len_app, H1. done.
Qed.

(** What a load returns does not depend on the state of the checksum's table. *)
Lemma identity_load_cases fs path :
  (forall i, fs !! path = Some i -> bytes_ok (f_data i)) ->
  exists r, (forall s, statics_ok s -> exists s', sl_identity_file_load s fs path = Ok (r, s') /\ statics_ok s') /\
    (forall k p, r = Some (k, p) -> keys_ok k p).
Proof.
  intros Hf. unfold sl_identity_file_load. destruct (fs !! path) as [i|]; [|exists None; split; [eauto|done]].
  specialize (Hf i eq_refl). unfold fread. cbn [fpos contents]. change (drop (Z.to_nat 0) (f_data i)) with (f_data i).
  set (buf := take _ (f_data i)). assert (Hb : bytes_ok buf) by (unfold buf; auto with bytes).
  destruct (Z.eqb_spec (len buf) SL_ID_TOTAL) as [Hl|]; cbn [negb]; [|exists None; split; [eauto|done]].
  assert (Hl' : len buf = 76) by done. clear Hl.
  destruct (load_bytes_sound buf 0 4) as (magic & -> & _); [lia..|]. cbv beta iota.
  case_match; [exists None; split; [eauto|done]|].
  destruct (unpack_u32_sound buf 4 Hb) as (ver & -> & _); [lia..|]. cbv beta iota.
  case_match; [exists None; split; [eauto|done]|].
  destruct (unpack_u32_sound buf (SL_ID_TOTAL - 4) Hb) as (c & -> & _); [change (SL_ID_TOTAL - 4) with 72; lia..|]. cbv beta iota.
  destruct (load_bytes_sound buf 0 (SL_ID_TOTAL - 4)) as (body & -> & _ & Hbody & _); [done|done|change (SL_ID_TOTAL - 4) with 72; lia|].
  destruct (load_bytes_sound buf 8 SL_ED25519_PRIVKEY_LEN) as (k & -> & Hk1 & Hk2 & _); [done|done|change SL_ED25519_PRIVKEY_LEN with 32; lia|].
  destruct (load_bytes_sound buf (8 + SL_ED25519_PRIVKEY_LEN) SL_ED25519_PUBKEY_LEN) as (p & -> & Hp1 & Hp2 & _);
    [done|done|change (8 + SL_ED25519_PRIVKEY_LEN) with 40; change SL_ED25519_PUBKEY_LEN with 32; lia|].
  exists (if c =? crc32c body then Some (k, p) else None). split.
  - intros s Hs. destruct (crc32c_spec s body Hs (Hbody Hb)) as (s' & -> & Hs'). exists s'.
    cbv beta iota. by destruct (c =? crc32c body).
  - intros k' p'. case_match; [|done]. intros [= <- <-]. by split_and!; auto.
Qed.

(** ** An identity over restarts *)

Section Identity.
Context `{Curve} (ed_public : list Z -> option (list Z)) (ed_sign : list Z -> list Z -> option (list Z)).

(** [key_ok] and the like are the outcomes of allocations in OpenSSL; the raw public key and
    the signature are [None] for an error return. *)
(* src/src/sl_ed25519.c:35-46 *)
Definition sl_ed25519_derive_pub (key_ok : bool) (priv pub : list Z) : M (Z * list Z) :=
  if negb key_ok then Ok (-1, pub)
  else match ed_public priv with
       | Some p => let! pub := store_bytes pub 0 p in Ok (if len p =? SL_ED25519_PUBKEY_LEN then 0 else -1, pub)
       | None => Ok (-1, pub)
       end.

(* src/src/sl_ed25519.c:48-69 *)
Definition sl_ed25519_sign (key_ok md_ok init_ok : bool) (priv : list Z) (msg : option (list Z)) (msg_len : Z) (sig : list Z)
  : M (Z * list Z) :=
  if bool_decide (msg = None) && (0 <? msg_len) then Ok (-1, sig)
  else if negb key_ok then Ok (-1, sig)
  else if negb md_ok then Ok (-1, sig)
  else if negb init_ok then Ok (-1, sig)
  else match ed_sign priv (ptr_bytes msg msg_len) with
       | Some g =>
           let! sig := store_bytes sig 0 g in
           if negb (len g =? SL_ED25519_SIG_LEN) then Ok (-1, sig) else Ok (0, sig)
       | None => Ok (-1, sig)
       end.

(** What the code relies on in OpenSSL: keys are 32 bytes and the public one belongs to the
    private one, and a signature made with a key verifies under its public key. *)
Definition keygen_ok (o : evp_keygen) : Prop :=
  forall k p, kg_priv o = Some k -> kg_pub o = Some p -> keys_ok k p /\ ed_public k = Some p.
Definition sign_ok : Prop :=
  forall k p m, ed_public k = Some p -> exists g, ed_sign k m = Some g /\ len g = 64 /\ ed_verify p m g = true.

Lemma keypair_new_cases o priv pub :
  len priv = 32 -> len pub = 32 -> (forall k, kg_priv o = Some k -> len k = 32) -> keygen_ok o ->
  exists rc k p, sl_ed25519_keypair_new o priv pub = Ok (rc, k, p) /\ len k = 32 /\ len p = 32 /\
    (rc = 0 -> keys_ok k p /\ ed_public k = Some p).
Proof.
  intros H1 H2 Hk Ho. unfold sl_ed25519_keypair_new. repeat (case_match; [by exists (-1), priv, pub|]).
  destruct (kg_priv o) as [k|] eqn:Ek; [|by exists (-1), priv, pub]. specialize (Hk k eq_refl).
  rewrite store_bytes_0, drop_ge, app_nil_r by (unfold len in *; lia). cbv beta iota. rewrite Hk.
  change (32 =? SL_ED25519_PRIVKEY_LEN) with true. cbn [negb].
  destruct (kg_pub o) as [p|] eqn:Ep; [|by exists (-1), k, pub]. destruct (Ho k p Ek Ep) as [Hkeys Hp].
  pose proof Hkeys as (_ & _ & _ & Hpl). rewrite store_bytes_0, drop_ge, app_nil_r by (unfold len in *; lia).
  cbv beta iota. rewrite Hpl. by exists 0, k, p.
Qed.

Lemma store_whole buf k : len buf = 32 -> len k = 32 -> store_bytes buf 0 k = Ok k.
Proof. intros Hb Hk. rewrite store_bytes_0, drop_ge, app_nil_r by (unfold len in *; lia). done. Qed.

Definition disk_bytes (fs : disk) : Prop := forall name i, fs !! name = Some i -> bytes_ok (f_data i).

(** The identity the file holds is the one every later call returns. *)
Lemma load_again fs path k p s env o priv pub :
  (exists s', sl_identity_file_load s fs path = Ok (Some (k, p), s')) -> keys_ok k p -> len priv = 32 -> len pub = 32 ->
  exists s', sl_identity_file_load_or_create s env o fs path priv pub = Ok (Some 0, k, p, 0, fs, s').
Proof.
  intros [s' E] (_ & _ & H1 & H2) Hp1 Hp2. exists s'. unfold sl_identity_file_load_or_create. rewrite E.
  cbv beta iota. rewrite !store_whole by done. done.
Qed.

Lemma saved_loads fs path k p sy fs' tr s :
  keys_ok k p -> statics_ok s -> replacement path (identity_file k p) sy fs (Some 0) fs' tr ->
  exists s', sl_identity_file_load s fs' path = Ok (Some (k, p), s').
Proof.
  intros Hk Hs Hr. apply replacement_states in Hr as (_ & H0 & _). destruct (H0 eq_refl) as [Hd _].
  destruct (fs' !! path) as [i|] eqn:Ei; [|done]. injection Hd as Hd.
  destruct (identity_load_spec s fs' path i k p (crc32c (identity_body k p)) [] Hs Hk) as (s' & _ & E); [|done|by rewrite app_nil_r|].
  - by apply crc32c_range, identity_body_bytes.
  - rewrite Z.eqb_refl in E. eauto.
Qed.

Lemma sign_verifies k p msg :
  sign_ok -> ed_public k = Some p ->
  exists sig, sl_ed25519_sign true true true k (Some msg) (len msg) (replicate 64 0) = Ok (0, sig) /\ sl_ed25519_verify p msg sig = 0.
Proof.
  intros Hsign Hpub. destruct (Hsign k p msg Hpub) as (g & Eg & Hl & Hv). exists g. unfold sl_ed25519_sign, sl_ed25519_verify.
  rewrite bool_decide_eq_false_2, ptr_some_bytes, Eg by done. cbn [andb negb].
  rewrite store_bytes_0, drop_ge, app_nil_r by (unfold len in *; rewrite ?length_replicate; lia). cbv beta iota.
  by rewrite Hl, Hv.
Qed.

(** A process keeps its identity over restarts. Whatever is on the disk, and whatever fails
    on the way, if loading or creating the identity succeeds, every later call on that disk
    returns the same two keys and creates nothing; if the identity was created, a signature
    made with its private key verifies under its public key. *)
Theorem identity_survives_restart s env o fs path priv pub :
  sign_ok -> keygen_ok o -> (forall k, kg_priv o = Some k -> len k = 32) ->
  statics_ok s -> disk_bytes fs -> writes_ok (writes env) SL_ID_TOTAL -> len priv = 32 -> len pub = 32 ->
  exists rc k p created fs' s',
    sl_identity_file_load_or_create s env o fs path priv pub = Ok (rc, k, p, created, fs', s') /\
    (rc = Some 0 -> forall env2 o2 s2 priv2 pub2, statics_ok s2 -> len priv2 = 32 -> len pub2 = 32 ->
       exists s3, sl_identity_file_load_or_create s2 env2 o2 fs' path priv2 pub2 = Ok (Some 0, k, p, 0, fs', s3)) /\
    (rc = Some 0 -> created = 1 -> forall msg, exists sig,
       sl_ed25519_sign true true true k (Some msg) (len msg) (replicate 64 0) = Ok (0, sig) /\ sl_ed25519_verify p msg sig = 0).
Proof.
  intros Hsign Hkg Hkl Hs Hdisk Hw Hp1 Hp2.
  destruct (identity_load_cases fs path (Hdisk path)) as (r & Hload & Hkeys).
  destruct (Hload s Hs) as (s0 & El & Hs0). destruct r as [[k p]|].
  { specialize (Hkeys k p eq_refl). destruct (load_again fs path k p s env o priv pub) as [s' E]; eauto.
    exists (Some 0), k, p, 0, fs, s'. split; [exact E|]. split; [|done].
    intros _ env2 o2 s2 priv2 pub2 Hs2 ? ?. destruct (Hload s2 Hs2) as (s3 & E3 & _). apply load_again; eauto. }
  unfold sl_identity_file_load_or_create. rewrite El. cbv beta iota.
  destruct (keypair_new_cases o priv pub Hp1 Hp2 Hkl Hkg) as (rc & k & p & -> & Hk1 & Hk2 & Hnew). cbv beta iota.
  destruct (Z.eqb_spec rc 0) as [->|]; cbn [negb]; [|by eexists _, _, _, _, _, _].
  destruct (Hnew eq_refl) as [Hkp Hpub].
  destruct (identity_save_cases s0 env fs path k p Hs0 Hkp Hw) as (rc & fs' & tr & buf & s1 & -> & Hs1 & Hrep & _). cbv beta iota.
  destruct rc as [rc|]; [|by eexists _, _, _, _, _, _].
  destruct (Z.eqb_spec rc 0) as [->|]; cbn [negb].
  - eexists _, _, _, _, _, _. split; [reflexivity|]. split.
    + intros _ env2 o2 s2 priv2 pub2 Hs2 ? ?. apply load_again; [|done..]. by eapply saved_loads.
    + intros _ _ msg. by apply sign_verifies.
  - rewrite secure_zero_spec by (rewrite Hk1; done). by eexists _, _, _, _, _, _.
Qed.
End Identity.

(** Loading depends on the contents of the file only. *)
Lemma identity_load_contents s d d' path :
  f_data <$> (d !! path) = f_data <$> (d' !! path) -> sl_identity_file_load s d path = sl_identity_file_load s d' path.
Proof. unfold sl_identity_file_load. destruct (d !! path), (d' !! path); try done. by intros [= ->]. Qed.

Lemma identity_load_file s d path k p :
  statics_ok s -> keys_ok k p -> f_data <$> (d !! path) = Some (identity_file k p) ->
  exists s1, sl_identity_file_load s d path = Ok (Some (k, p), s1).
Proof.
  intros Hs Hk Hd. destruct (d !! path) as [i|] eqn:Ei; [|done]. injection Hd as Hd.
  destruct (identity_load_spec s d path i k p (crc32c (identity_body k p)) [] Hs Hk) as (s2 & _ & E2); [|done|by rewrite app_nil_r|].
  - by apply crc32c_range, identity_body_bytes.
  - rewrite Z.eqb_refl in E2. eauto.
Qed.

(** Saving an identity cannot lose the one that is there: in every state of the disk on the way,
    and after a crash in any of them if the fsync succeeds and the old file was safely on the
    disk, loading gives either what it gave before or the two new keys; a return of 0 means the
    new ones, and the buffer that held the private key is cleared before the call returns, provided
    the file name fits. *)
Theorem identity_save_crash_safe s env fs path k p :
  statics_ok s -> keys_ok k p -> disk_bytes fs -> writes_ok (writes env) SL_ID_TOTAL ->
  exists rc fs' trace buf s', sl_identity_file_save s env fs path k p = Ok (rc, fs', trace, buf, s') /\
    Forall (fun d => forall d', d' = d \/ (fsyncs env = true /\ settled path fs /\ crash_of d d') ->
      exists r, (exists s1, sl_identity_file_load s' d' path = Ok (r, s1)) /\
      (r = Some (k, p) \/ exists s1, sl_identity_file_load s' fs path = Ok (r, s1))) (fs' :: trace) /\
    (rc = Some 0 -> exists s1, sl_identity_file_load s' fs' path = Ok (Some (k, p), s1)) /\
    (rc <> None -> len (tmp_name path) < 1024 -> Forall (fun b => b = 0) buf).
Proof.
  intros Hs Hk Hdisk Hw.
  destruct (identity_save_cases s env fs path k p Hs Hk Hw) as (rc & fs' & tr & buf & s' & E & Hs' & Hrep & Hz).
  exists rc, fs', tr, buf, s'. split; [exact E|].
  destruct (identity_load_cases fs path (Hdisk path)) as (r & Hload & _). destruct (Hload s' Hs') as (s1 & Eold & _).
  destruct (replacement_states _ _ _ _ _ _ _ Hrep) as (Hall & _). apply Forall_cons in Hall as [_ Hall]. split; [|split].
  - eapply Forall_impl; [exact Hall|]. intros d Hd d' Hd'.
    assert (Hc : f_data <$> (d' !! path) = f_data <$> (fs !! path) \/ f_data <$> (d' !! path) = Some (identity_file k p)).
    { destruct Hd' as [->|(Hf & Hset & Hc)].
      - destruct Hd as [_ [->|[m ->]]]; [by left|by right].
      - rewrite Hf in Hd. by eapply old_or_new_crash. }
    destruct Hc as [Ho|Hn].
    + exists r. rewrite (identity_load_contents _ _ _ _ Ho). split; [|right]; by exists s1.
    + exists (Some (k, p)). split; [by apply identity_load_file|by left].
  - intros ->. by eapply saved_loads.
  - intros Hrc Hlen. rewrite (Hz Hrc Hlen). by apply Forall_replicate.
Qed.

(** ** Concrete runs *)

#[local] Instance pair_curve : Curve := {|
  ec_key := unit; ec_public := fun _ => []; ec_point_ok := fun _ => false; ecdh_key := fun _ _ => None;
  ed_verify := fun p m g => bool_decide (g = p ++ p)
|}.
Definition toy_sign (k m : list Z) : option (list Z) := if bool_decide (len k = 32) then Some (k ++ k) else None.
Definition toy_public (k : list Z) : option (list Z) := if bool_decide (len k = 32) then Some k else None.
Definition toy_keygen : evp_keygen := mk_kg true true true (Some (replicate 32 7)) (Some (replicate 32 7)).
Definition blank : list Z := replicate 32 0.

Lemma toy_sign_ok : sign_ok toy_public toy_sign.
Proof.
  intros k p m. unfold toy_public, toy_sign. case_bool_decide; [|done]. intros [= <-]. eexists. split; [done|].
  split; [by rewrite len_app, H|]. by apply bool_decide_eq_true_2.
Qed.

Lemma toy_keygen_ok : keygen_ok toy_public toy_keygen.
Proof. intros k p [= <-] [= <-]. split; [split_and!; by_deciding|done]. Qed.

Lemma identity_survives_restart_witness :
  exists k p fs' s', sl_identity_file_load_or_create crc_start (mk_calls true [76] true true true 18) toy_keygen ∅ (lit "id") blank blank =
      Ok (Some 0, k, p, 1, fs', s') /\
    forall msg, exists sig, sl_ed25519_sign toy_sign true true true k (Some msg) (len msg) (replicate 64 0) = Ok (0, sig) /\
      sl_ed25519_verify p msg sig = 0.
Proof.
  destruct (identity_survives_restart toy_public toy_sign crc_start (mk_calls true [76] true true true 18) toy_keygen ∅ (lit "id") blank blank)
    as (rc & k & p & created & fs' & s' & E & _ & Hsig); [apply toy_sign_ok|apply toy_keygen_ok|by intros ? [= <-]|..].
  - split; [reflexivity|discriminate].
  - intros name i. by rewrite lookup_empty.
  - by vm_compute.
  - reflexivity.
  - reflexivity.
  - pose proof (f_equal (fun r => match r with Ok (a, _, _, c, _, _) => (a, c) | Fault => (None, 0) end) E) as Er.
    vm_compute in Er. injection Er as <- <-. exists k, p, fs', s'. split; [exact E|]. exact (Hsig eq_refl eq_refl).
Defined.

Lemma identity_save_crash_safe_witness :
  exists fs' trace buf s' s1, sl_identity_file_save crc_start (mk_calls true [40; 36] true true true 18) ∅ (lit "id") blank blank =
      Ok (Some 0, fs', trace, buf, s') /\ sl_identity_file_load s' fs' (lit "id") = Ok (Some (blank, blank), s1).
Proof.
  destruct (identity_save_crash_safe crc_start (mk_calls true [40; 36] true true true 18) ∅ (lit "id") blank blank)
    as (rc & fs' & trace & buf & s' & E & _ & H0 & _).
  - split; [reflexivity|discriminate].
  - split_and!; by_deciding.
  - intros name i. by rewrite lookup_empty.
  - by vm_compute.
  - pose proof (f_equal (fun r => match r with Ok (a, _, _, _, _) => a | Fault => None end) E) as Er.
    vm_compute in Er. subst rc. destruct (H0 eq_refl) as [s1 E1]. exists fs', trace, buf, s', s1. split; [exact E|exact E1].
Defined.

(** When the rename fails the private key stays on the disk, in the temporary file. *)
Example failed_rename_leaves_key :
  match sl_identity_file_save crc_start (mk_calls true [76] true false true 18) ∅ (lit "id") blank blank with
  | Ok (rc, fs', _, _, _) => rc = Some (-1) /\ f_data <$> (fs' !! tmp_name (lit "id")) = Some (identity_file blank blank)
  | Fault => False
  end.
Proof. vm_compute. by split. Qed.

(** The mode 0600 is not applied to a temporary file that exists already. *)
Example stale_tmp_keeps_mode :
  match sl_identity_file_save crc_start (mk_calls true [76] true true true 18) {[tmp_name (lit "id") := mk_inode 420 [] true]} (lit "id") blank blank with
  | Ok (rc, fs', _, _, _) => rc = Some 0 /\ f_mode <$> (fs' !! lit "id") = Some 420
  | Fault => False
  end.
Proof. vm_compute. by split. Qed.

(** An identity file that exists but does not load is replaced by a new identity. *)
Example damaged_identity_replaced :
  exists k p fs' s', sl_identity_file_load_or_create crc_start (mk_calls true [76] true true true 18) toy_keygen
      {[lit "id" := mk_inode 384 (take 75 (identity_file blank blank)) true]} (lit "id") blank blank = Ok (Some 0, k, p, 1, fs', s') /\
    f_data <$> (fs' !! lit "id") = Some (identity_file (replicate 32 7) (replicate 32 7)).
Proof. eexists _, _, _, _. split; [vm_compute; reflexivity|]. vm_compute. reflexivity. Qed.
