(* ===== verification/Demo.v ===== *)
(** The demonstration server: the elliptic-curve and block-cipher wrappers of
    [src/crypto_engine.c], the handler of [src/protocol_handler.cpp], the accept loop of
    [src/tcp_server.cpp] that [src/main.cpp] runs with it, and the client program of
    [src/test_client.cpp]. OpenSSL's curve is the class [Curve], its AES the class [Aes];
    whether its calls succeed, what the system calls return and the contents of
    uninitialised arrays are arguments. *)

From Stdlib Require Import String.
From stdpp Require Import gmap strings.
From S2P Require Import Prelude Ctype Codec KeySched HandshakeEngine Socket.
Local Open Scope Z_scope.

(** One block of AES-256, in both directions. *)
Class Aes := { aes_enc : list Z -> list Z -> list Z; aes_dec : list Z -> list Z -> list Z }.

(** Electronic code book: block after block. *)
Fixpoint ecb (f : list Z -> list Z) (blocks : nat) (data : list Z) : list Z :=
  match blocks with O => [] | S n => f (take 16 data) ++ ecb f n (drop 16 data) end.

(** What an update call of OpenSSL produces for the [int] length given, with padding off and
    a whole number of blocks. *)
Definition evp_update (f : list Z -> list Z) (ok : bool) (data : list Z) (n : Z) : list Z :=
  if ok && (0 <? n) then ecb f (Z.to_nat (n / 16)) data else [].

Section Engine.
Context `{Curve} `{Aes}.

(** The outcomes of the calls of key generation, and the key. *)
Record keygen_calls := mk_kgc { calloc_ok : bool; ctx_ok : bool; init_ok : bool; curve_ok : bool; keygen_key : option ec_key }.

(* src/src/crypto_engine.c:23-60 *)
Definition ecc_keypair_create (o : keygen_calls) : option ec_key :=
  if negb (calloc_ok o) then None
  else if negb (ctx_ok o) then None
  else if negb (init_ok o) then None
  else if negb (curve_ok o) then None
  else keygen_key o.

(** [kp] is [None] for a NULL pointer. The return code and the caller's buffer. *)
(* src/src/crypto_engine.c:73-98 *)
Definition ecc_get_public_key (kp : option ec_key) (out_buf : list Z) (buf_len : Z) : M (Z * list Z) :=
  match kp with
  | None => Ok (-1, out_buf)
  | Some kp =>
      if buf_len <? 64 then Ok (-1, out_buf)
      else
        let uncompressed := ec_public kp in
        if negb (len uncompressed =? 65) then Ok (-1, out_buf)
        else
          let! xy := load_bytes uncompressed 1 64 in
          let! out_buf := store_bytes out_buf 0 xy in
          Ok (0, out_buf)
  end.

(** The outcomes of the calls that are tested, the length the sizing call reports (0 if it
    fails), whether the second call works, and the contents of [raw_secret] before it. *)
Record derive_calls := mk_dc { peer_key_ok : bool; derive_ctx_ok : bool; set_peer_ok : bool; reported : Z; derive_ok : bool; junk : list Z }.

(* src/src/crypto_engine.c:100-166 *)
Definition ecc_derive_shared_secret (o : derive_calls) (kp : option ec_key) (peer_pub : list Z) (peer_pub_len : Z)
  (out_secret : list Z) (secret_buf_len : Z) : M (Z * list Z) :=
  match kp with
  | None => Ok (-1, out_secret)
  | Some kp =>
      if negb (peer_pub_len =? 64) || (secret_buf_len <? 32) then Ok (-1, out_secret)
      else
        let! full_key := store (replicate 65 0) 0 4 in
        let! xy := load_bytes peer_pub 0 64 in
        let! full_key := store_bytes full_key 1 xy in
        if negb (peer_key_ok o) then Ok (-1, out_secret)
        else if negb (ec_point_ok full_key) then Ok (-1, out_secret)
        else if negb (derive_ctx_ok o) then Ok (-1, out_secret)
        else if negb (set_peer_ok o) then Ok (-1, out_secret)
        else
          let slen := Z.min (reported o) 64 in
          let! '(raw_secret, slen) :=
            match ecdh_key kp full_key with
            | Some s =>
                if derive_ok o && (len s <=? slen)
                then let! raw := store_bytes (junk o) 0 s in Ok (raw, len s)
                else Ok (junk o, slen)
            | None => Ok (junk o, slen)
            end in
          let copy_len := if slen <? 32 then slen else 32 in
          let! s := load_bytes raw_secret 0 copy_len in
          let! out_secret := store_bytes out_secret 0 s in
          let! out_secret := (if copy_len <? 32 then store_bytes out_secret copy_len (replicate (Z.to_nat (32 - copy_len)) 0) else Ok out_secret) in
          Ok (32, out_secret)
  end.

(** The three pointers are [None] for NULL; [ctx] and [ok] are the outcomes of the allocation
    and of the update call. *)
(* src/src/crypto_engine.c:168-197 *)
Definition aes256_ecb_encrypt (ctx ok : bool) (key plaintext : option (list Z)) (plaintext_len : Z)
  (out_cipher : option (list Z)) (cipher_buf_len : Z) : M (Z * option (list Z)) :=
  match key, plaintext, out_cipher with
  | Some key, Some plaintext, Some out =>
      if negb (plaintext_len mod 16 =? 0) then Ok (-1, out_cipher)
      else if cipher_buf_len <? plaintext_len then Ok (-1, out_cipher)
      else if negb ctx then Ok (-1, out_cipher)
      else
        let c := evp_update (aes_enc key) ok plaintext (to_int plaintext_len) in
        let! out := store_bytes out 0 c in
        Ok (len c, Some out)
  | _, _, _ => Ok (-1, out_cipher)
  end.

(* src/src/crypto_engine.c:199-231 *)
Definition aes256_ecb_decrypt (ctx ok : bool) (key ciphertext : option (list Z)) (ciphertext_len : Z)
  (out_plain : option (list Z)) (plain_buf_len : Z) : M (Z * option (list Z)) :=
  match key, ciphertext, out_plain with
  | Some key, Some ciphertext, Some out =>
      if negb (ciphertext_len mod 16 =? 0) then Ok (-1, out_plain)
      else if plain_buf_len <? ciphertext_len then Ok (-1, out_plain)
      else if negb ctx then Ok (-1, out_plain)
      else
        let c := evp_update (aes_dec key) ok ciphertext (to_int ciphertext_len) in
        let! out := store_bytes out 0 c in
        Ok (len c, Some out)
  | _, _, _ => Ok (-1, out_plain)
  end.

(** ** The handler *)

(** Everything a handshake takes from outside: key generation, the derivation, the two
    outcomes of the encryption, and the arrays that are not initialised. *)
Record handshake_calls := mk_hc {
  hc_keygen : keygen_calls; hc_derive : derive_calls; hc_ctx : bool; hc_update : bool;
  hc_pub0 : list Z; hc_secret0 : list Z; hc_cipher0 : list Z
}.

(** [None] is an exception. *)
(* src/src/protocol_handler.cpp:15-71 *)
Definition handle_handshake (secret_message : list Z) (o : handshake_calls) (client_pubkey : list Z) : M (option (list Z)) :=
  if negb (len client_pubkey =? 64) then Ok None
  else
    match ecc_keypair_create (hc_keygen o) with
    | None => Ok None
    | Some kp =>
        let! '(rc, server_pub) := ecc_get_public_key (Some kp) (hc_pub0 o) 64 in
        if negb (rc =? 0) then Ok None
        else
          let! '(slen, shared_secret) := ecc_derive_shared_secret (hc_derive o) (Some kp) client_pubkey (len client_pubkey) (hc_secret0 o) 32 in
          if slen <? 0 then Ok None
          else
            let msg_len := if 16 <? len secret_message then 16 else len secret_message in
            let! m := load_bytes secret_message 0 msg_len in
            let! plaintext := store_bytes (replicate 16 0) 0 m in
            let! '(enc, c) := aes256_ecb_encrypt (hc_ctx o) (hc_update o) (Some shared_secret) (Some plaintext) 16 (Some (hc_cipher0 o)) 16 in
            if enc <? 0 then Ok None else Ok (Some (server_pub ++ default [] c))
    end.

(** ** The client program *)

Record client_calls := mk_cc { cc_derive : derive_calls; cc_ctx : bool; cc_update : bool; cc_secret0 : list Z; cc_plain0 : list Z }.

(* src/src/main.cpp:28-30 main *)
Definition demo_secret : list Z := lit "U2VjbG91cyBHbWJI".

(** What the client does with what it received: the exit code, and the message it decrypted
    if it got that far. *)
(* src/src/test_client.cpp:60-119 main *)
Definition client_finish (o : client_calls) (kp : ec_key) (received : list Z) : M (Z * option (list Z)) :=
  if negb (len received =? 80) then Ok (1, None)
  else
    let! server_pub := load_bytes received 0 64 in
    let! ciphertext := load_bytes received 64 16 in
    let! '(slen, shared_secret) := ecc_derive_shared_secret (cc_derive o) (Some kp) server_pub 64 (cc_secret0 o) 32 in
    if slen <? 0 then Ok (1, None)
    else
      let! '(dec, decrypted) := aes256_ecb_decrypt (cc_ctx o) (cc_update o) (Some shared_secret) (Some ciphertext) 16 (Some (cc_plain0 o)) 16 in
      if dec <? 0 then Ok (1, None)
      else
        let message := cstr (default [] decrypted) in
        if bool_decide (message = demo_secret) then Ok (0, Some message) else Ok (1, Some message).

(** What the client program takes from outside: key generation, the array its public key goes
    to, what socket and connect return, and what [client_finish] takes. *)
Record client_env := mk_ce {
  ce_keygen : keygen_calls; ce_pub0 : list Z; ce_socket : Z; ce_connect : Z; ce_calls : client_calls
}.

(** [answer] is what the single [recv] delivers, [None] when it fails. The exit code and the
    decrypted message, what was handed to [send], and the descriptors. *)
(* src/src/test_client.cpp:16-119 main *)
Definition client_main (e : client_env) (answer : option (list Z)) (p : process) : M (Z * option (list Z) * list Z * process) :=
  match ecc_keypair_create (ce_keygen e) with
  | None => Ok (1, None, [], p)
  | Some kp =>
      let! '(_, client_pub) := ecc_get_public_key (Some kp) (ce_pub0 e) 64 in
      let sock := ce_socket e in
      if sock <? 0 then Ok (1, None, [], p)
      else
        let p := sys_open p sock in
        if ce_connect e <? 0 then let! p := sys_close p sock in Ok (1, None, [], p)
        else
          let! sent := load_bytes client_pub 0 64 in
          let received := take 80 (default [] answer) in
          let! p := sys_close p sock in
          let! '(rc, message) := client_finish (ce_calls e) kp received in
          Ok (rc, message, sent, p)
  end.
End Engine.

(** ** The accept loop *)

(* src/inc/tcp_server.hpp:23-28 *)
Record TcpServer := mk_tcp { server_fd_ : Z; running_ : bool }.

Definition new_tcp_server : TcpServer := mk_tcp (-1) false.

(* src/src/tcp_server.cpp:106-114 *)
Definition tcp_stop (t : TcpServer) (p : process) : M (TcpServer * process) :=
  if 0 <=? server_fd_ t
  then let! p := sys_close p (server_fd_ t) in Ok (mk_tcp (-1) false, p)
  else Ok (mk_tcp (server_fd_ t) false, p).

(** What socket, bind and listen return. [false] is an exception. *)
(* src/src/tcp_server.cpp:19-40 TcpServer::run *)
Definition tcp_listen (sock bind_rc listen_rc : Z) (t : TcpServer) (p : process) : M (bool * TcpServer * process) :=
  let t := mk_tcp sock (running_ t) in
  if sock <? 0 then Ok (false, t, p)
  else
    let p := sys_open p sock in
    if bind_rc <? 0 then let! p := sys_close p sock in Ok (false, t, p)
    else if listen_rc <? 0 then let! p := sys_close p sock in Ok (false, t, p)
    else Ok (true, t, p).

(* src/src/tcp_server.cpp:42-43 TcpServer::run *)
Definition tcp_begin (t : TcpServer) : TcpServer := mk_tcp (server_fd_ t) true.

(** One turn of the loop: accept failed, after any number of interruptions; a client was
    accepted, sent these bytes first (none: it closed, or the call failed), and took this many
    bytes of the answer; or the signal handler ran. *)
Inductive server_event :=
  | AcceptFailed
  | Client (fd : Z) (received : list Z) (taken : Z)
  | SignalStop.

Section Server.
Context {St : Type} (handler : St -> list Z -> M (option (list Z) * St)).

(** The descriptor of each client served, with what it was sent. *)
(* src/src/tcp_server.cpp:45-103 TcpServer::run *)
Fixpoint serve (evs : list server_event) (t : TcpServer) (s : St) (p : process)
  : M (list (Z * list Z) * TcpServer * St * process) :=
  if negb (running_ t) then Ok ([], t, s, p)
  else
    match evs with
    | [] => Ok ([], t, s, p)
    | SignalStop :: evs => let! '(t, p) := tcp_stop t p in serve evs t s p
    | AcceptFailed :: evs => serve evs t s p
    | Client fd received taken :: evs =>
        let p := sys_open p fd in
        let buffer := take 1024 received in
        if bool_decide (buffer = []) then
          let! p := sys_close p fd in
          let! '(out, t, s, p) := serve evs t s p in Ok ((fd, []) :: out, t, s, p)
        else
          let! '(response, s) := handler s buffer in
          let sent := match response with Some r => take (Z.to_nat taken) r | None => [] end in
          let! p := sys_close p fd in
          let! '(out, t, s, p) := serve evs t s p in Ok ((fd, sent) :: out, t, s, p)
    end.
End Server.

(** ** The server program *)

(** How the program ends: it returns from main, an exception leaves main, or it is still
    waiting for the next client. *)
Inductive server_exit := Exited (code : Z) | Terminated | Serving.

Section Program.
Context `{Curve} `{Aes}.

(** [calls n] is what the [n]th handshake takes from outside. *)
(* src/src/main.cpp:51-58 main *)
Definition main_handler (calls : nat -> handshake_calls) (n : nat) (client_data : list Z) : M (option (list Z) * nat) :=
  let! response := handle_handshake demo_secret (calls n) client_data in Ok (response, S n).

(** The destructor of the server stops it once more. *)
(* src/src/main.cpp:26-62 main *)
Definition server_main (calls : nat -> handshake_calls) (sock bind_rc listen_rc : Z) (evs : list server_event) (p : process)
  : M (server_exit * list (Z * list Z) * process) :=
  let! '(ok, t, p) := tcp_listen sock bind_rc listen_rc new_tcp_server p in
  if negb ok then Ok (Terminated, [], p)
  else
    let! '(out, t, _, p) := serve (main_handler calls) evs (tcp_begin t) O p in
    if running_ t then Ok (Serving, out, p)
    else let! '(_, p) := tcp_stop t p in Ok (Exited 0, out, p).
End Program.

(** Only the blocks counted are read. *)
Lemma ecb_front f n data rest : len data = 16 * Z.of_nat n -> ecb f n (data ++ rest) = ecb f n data.
Proof.
  revert data. induction n as [|n IH]; intros data Hl; cbn [ecb]; [done|].
  rewrite take_app_le, drop_app_le by (unfold len in *; lia). f_equal. apply IH. unfold len in *. rewrite length_drop. lia.
Qed.

(** ** What the code relies on *)

(** The exported point is 65 bytes beginning with 4 and is one of the curve, and the two
    parties compute the same 32 bytes. *)
Class CurveLaws `{Curve} := {
  public_form k : exists xy, ec_public k = 4 :: xy /\ len xy = 64;
  public_on_curve k : ec_point_ok (ec_public k) = true;
  dh_agrees a b : exists s, ecdh_key a (ec_public b) = Some s /\ ecdh_key b (ec_public a) = Some s /\ len s = 32
}.

(** Decryption undoes encryption, block by block. *)
Class AesLaws `{Aes} := {
  aes_block key b : len b = 16 -> len (aes_enc key b) = 16;
  aes_inverse key b : len b = 16 -> aes_dec key (aes_enc key b) = b
}.

Section EcbProofs.
Context `{AesLaws}.

Lemma ecb_len key n data : len data = 16 * Z.of_nat n -> len (ecb (aes_enc key) n data) = 16 * Z.of_nat n.
Proof.
  revert data. induction n as [|n IH]; intros data Hl; cbn [ecb]; [done|].
  rewrite len_app, aes_block, IH; [lia| |]; unfold len in *; rewrite ?length_drop, ?length_take; lia.
Qed.

Lemma ecb_inverse key n data : len data = 16 * Z.of_nat n -> ecb (aes_dec key) n (ecb (aes_enc key) n data) = data.
Proof.
  revert data. induction n as [|n IH]; intros data Hl; cbn [ecb]; [symmetry; apply len_0_nil; lia|].
  assert (Hb : len (take 16 data) = 16) by (unfold len in *; rewrite length_take; lia).
  assert (He : length (aes_enc key (take 16 data)) = 16%nat) by (pose proof (aes_block key _ Hb); unfold len in *; lia).
  rewrite take_app_length', drop_app_length' by done. rewrite aes_inverse, IH, take_drop by (try done; unfold len in *; rewrite length_drop; lia).
  done.
Qed.

Lemma evp_update_blocks f data n : 0 <= n < 2147483648 -> evp_update f true data (to_int n) = ecb f (Z.to_nat (n / 16)) data.
Proof.
  intros. unfold evp_update. rewrite to_int_small by done. cbn [andb]. destruct (Z.ltb_spec 0 n); [done|].
  replace n with 0 by lia. done.
Qed.

(** The block-cipher wrappers are inverse to each other: whatever whole number of blocks,
    of less than 2^31 bytes, is encrypted into a buffer that holds it is what decrypting the
    result with the same key gives back, and both report the length; nothing past the text is
    written in either buffer. *)
Theorem ecb_roundtrip key data out back :
  len data mod 16 = 0 -> len data < 2147483648 -> len data <= len out -> len data <= len back ->
  exists c, aes256_ecb_encrypt true true (Some key) (Some data) (len data) (Some out) (len out) =
      Ok (len data, Some (c ++ drop (length data) out)) /\ len c = len data /\
    aes256_ecb_decrypt true true (Some key) (Some (c ++ drop (length data) out)) (len data) (Some back) (len back) =
      Ok (len data, Some (data ++ drop (length data) back)).
Proof.
  intros Hm Hlt Ho Hb. pose proof (len_nonneg data) as Hnn. unfold aes256_ecb_encrypt, aes256_ecb_decrypt.
  rewrite Hm, !(proj2 (Z.ltb_ge _ _)) by lia. cbn [negb Z.eqb].
  rewrite evp_update_blocks by lia. set (n := Z.to_nat (len data / 16)).
  assert (Hn : len data = 16 * Z.of_nat n) by (unfold n; Z.div_mod_to_equations; lia).
  assert (Hc : len (ecb (aes_enc key) n data) = len data) by (rewrite Hn; by apply ecb_len).
  assert (Hcn : length (ecb (aes_enc key) n data) = length data) by (unfold len in Hc; lia).
  exists (ecb (aes_enc key) n data). rewrite store_bytes_0, Hc, Hcn by lia. split; [done|]. split; [done|].
  assert (Ed : ecb (aes_dec key) n (ecb (aes_enc key) n data ++ drop (length data) out) = data).
  { rewrite <- (ecb_inverse key n data Hn) at 3. apply ecb_front. lia. }
  rewrite evp_update_blocks by lia. fold n. rewrite Ed. by rewrite store_bytes_0.
Qed.
End EcbProofs.

(** ** The handshake *)

(** Every call of OpenSSL succeeds; the uninitialised array has its declared size. *)
Definition derive_works (o : derive_calls) : Prop :=
  peer_key_ok o = true /\ derive_ctx_ok o = true /\ set_peer_ok o = true /\ reported o = 32 /\ derive_ok o = true /\ len (junk o) = 64.

Section Agreement.
Context `{CurveLaws} `{AesLaws}.

Lemma exported k : exists xy, ec_public k = 4 :: xy /\ len xy = 64 /\
  forall buf, len buf = 64 -> ecc_get_public_key (Some k) buf 64 = Ok (0, xy).
Proof.
  destruct (public_form k) as (xy & E & Hl). exists xy. split; [done|]. split; [done|]. intros buf Hb.
  unfold ecc_get_public_key. rewrite E. replace (len (4 :: xy) =? 65) with true by (symmetry; rewrite len_cons, Hl; done).
  cbn [negb Z.ltb]. change (4 :: xy) with ([4] ++ xy). rewrite <- (app_nil_r xy), load_bytes_app_mid by done.
  change (64 <? 64) with false. cbv beta iota.
  rewrite store_bytes_0, drop_ge, app_nil_r by (unfold len in *; rewrite ?length_app in *; simpl in *; lia). done.
Qed.

Lemma derive_spec o k xy s buf :
  derive_works o -> len xy = 64 -> len buf = 32 -> ec_point_ok (4 :: xy) = true -> ecdh_key k (4 :: xy) = Some s -> len s = 32 ->
  ecc_derive_shared_secret o (Some k) xy 64 buf 32 = Ok (32, s).
Proof.
  intros (D1 & D2 & D3 & D4 & D5 & D6) Hxy Hb Hp Hk Hs. unfold ecc_derive_shared_secret.
  change (negb (64 =? 64) || (32 <? 32)) with false. cbv iota.
  change (store (replicate 65 0) 0 4) with (Ok ([4] ++ replicate 64 0)). cbv beta iota.
  rewrite <- (app_nil_r xy) at 1. rewrite load_bytes_front by done. cbv beta iota.
  rewrite (store_bytes_append [4] (replicate 64 0) xy 1) by (try done; rewrite Hxy; done). cbv beta iota.
  rewrite drop_ge, app_nil_r by (unfold len in *; rewrite length_replicate; lia). change ([4] ++ xy) with (4 :: xy).
  rewrite D1, Hp, D2, D3, D4, Hk, D5, Hs. cbn [negb andb]. change (32 <=? Z.min 32 64) with true. cbv iota.
  rewrite store_bytes_0 by lia. cbv beta iota. change (32 <? 32) with false. cbv iota.
  rewrite load_bytes_front by done. cbv beta iota.
  rewrite store_bytes_0, drop_ge, app_nil_r by (unfold len in *; lia). done.
Qed.

(** The two sides' secrets. *)
Lemma shared_secret_agrees a b oa ob bufa bufb :
  derive_works oa -> derive_works ob -> len bufa = 32 -> len bufb = 32 ->
  exists pa pb s, ecc_get_public_key (Some a) (replicate 64 0) 64 = Ok (0, pa) /\
    ecc_get_public_key (Some b) (replicate 64 0) 64 = Ok (0, pb) /\ len s = 32 /\
    ecc_derive_shared_secret oa (Some a) pb 64 bufa 32 = Ok (32, s) /\
    ecc_derive_shared_secret ob (Some b) pa 64 bufb 32 = Ok (32, s).
Proof.
  intros Ha Hb Hba Hbb. destruct (exported a) as (pa & Ea & Hla & Ga), (exported b) as (pb & Eb & Hlb & Gb).
  destruct (dh_agrees a b) as (s & Ka & Kb & Hs). exists pa, pb, s.
  split; [by apply Ga|]. split; [by apply Gb|]. split; [done|].
  split; apply derive_spec; try done; rewrite <- ?Ea, <- ?Eb; try done; apply public_on_curve.
Qed.

Definition handshake_works (o : handshake_calls) (kp : ec_key) : Prop :=
  ecc_keypair_create (hc_keygen o) = Some kp /\ derive_works (hc_derive o) /\ hc_ctx o = true /\ hc_update o = true /\
  len (hc_pub0 o) = 64 /\ len (hc_secret0 o) = 32 /\ len (hc_cipher0 o) = 16.
Definition client_works (o : client_calls) : Prop :=
  derive_works (cc_derive o) /\ cc_ctx o = true /\ cc_update o = true /\ len (cc_secret0 o) = 32 /\ len (cc_plain0 o) = 16.

(** The block the server sends, and its decryption. *)
Lemma one_block key b out :
  len b = 16 -> len out = 16 ->
  aes256_ecb_encrypt true true (Some key) (Some b) 16 (Some out) 16 = Ok (16, Some (aes_enc key b)) /\
  aes256_ecb_decrypt true true (Some key) (Some (aes_enc key b)) 16 (Some out) 16 = Ok (16, Some b).
Proof.
  intros Hb Ho. pose proof (aes_block key b Hb) as He. unfold aes256_ecb_encrypt, aes256_ecb_decrypt.
  change (negb (16 mod 16 =? 0)) with false. change (16 <? 16) with false. cbn [negb].
  change (evp_update ?f true ?d (to_int 16)) with (f (take 16 d) ++ []).
  rewrite !app_nil_r, !(take_ge _ 16) by (unfold len in *; lia). rewrite aes_inverse by done.
  rewrite !store_bytes_0, !drop_ge, !app_nil_r by (unfold len in *; lia). cbv beta iota. by rewrite He, Hb.
Qed.

Definition padded (m : list Z) : list Z := take 16 m ++ replicate (16 - length (take 16 m)) 0.

Lemma handshake_response secret o kp kc pub :
  handshake_works o kp -> ecc_get_public_key (Some kc) (replicate 64 0) 64 = Ok (0, pub) ->
  exists server_pub s, handle_handshake secret o pub = Ok (Some (server_pub ++ aes_enc s (padded secret))) /\
    len server_pub = 64 /\ forall oc buf, derive_works oc -> len buf = 32 ->
      ecc_derive_shared_secret oc (Some kc) server_pub 64 buf 32 = Ok (32, s).
Proof.
  intros (Ek & Hd & Hctx & Hup & Hp & Hs & Hc) Epub.
  destruct (exported kc) as (pc & Ec & Hlc & Gc), (exported kp) as (ps & Es & Hls & Gs).
  rewrite (Gc (replicate 64 0) eq_refl) in Epub. injection Epub as <-.
  destruct (dh_agrees kp kc) as (s & Kp & Kc & Hsl). rewrite Ec in Kp. rewrite Es in Kc.
  pose proof (public_on_curve kc) as Oc. pose proof (public_on_curve kp) as Op. rewrite Ec in Oc. rewrite Es in Op.
  exists ps, s. split; [|split; [done|intros oc buf Hoc Hb; by apply derive_spec]].
  unfold handle_handshake. rewrite Hlc. change (negb (64 =? 64)) with false. cbv iota.
  rewrite Ek, Gs by done. cbv beta iota. change (negb (0 =? 0)) with false. cbv iota.
  rewrite (derive_spec (hc_derive o) kp pc s (hc_secret0 o)) by done. cbv beta iota. change (32 <? 0) with false. cbv iota.
  assert (El : load_bytes secret 0 (if 16 <? len secret then 16 else len secret) = Ok (take 16 secret)).
  { destruct (Z.ltb_spec 16 (len secret)); [rewrite load_bytes_in_bounds by (unfold len in *; lia); done|].
    rewrite take_ge by (unfold len in *; lia). rewrite <- (app_nil_r secret) at 1. by apply load_bytes_front. }
  rewrite El. cbv beta iota.
  assert (Hb : len (padded secret) = 16) by (unfold padded, len; rewrite length_app, length_replicate, length_take; lia).
  rewrite store_bytes_0 by (unfold len; rewrite length_take, length_replicate; lia). cbv beta iota.
  rewrite drop_replicate. change (take 16 secret ++ replicate (16 - length (take 16 secret)) 0) with (padded secret).
  rewrite Hctx, Hup, (proj1 (one_block s (padded secret) (hc_cipher0 o) Hb Hc)). done.
Qed.

(** The demonstration handshake, end to end. Whatever keys the two sides draw, the client
    sends its public key, the server's answer is its own public key and one block, and the
    client, which derives the same secret, decrypts exactly the first 16 bytes of the
    server's message; with the message of the server program the client reports success. *)
Theorem demo_handshake_verified secret o oc kp kc pub :
  Forall (fun c => c <> 0) secret -> handshake_works o kp -> client_works oc ->
  ecc_get_public_key (Some kc) (replicate 64 0) 64 = Ok (0, pub) ->
  exists answer, handle_handshake secret o pub = Ok (Some answer) /\ len answer = 80 /\
    client_finish oc kc answer =
      Ok (if bool_decide (take 16 secret = demo_secret) then 0 else 1, Some (take 16 secret)).
Proof.
  intros Hnz Ho (Hd & Hctx & Hup & Hs & Hp) Epub.
  destruct (handshake_response secret o kp kc pub Ho Epub) as (ps & s & E & Hls & Hder).
  assert (Hb : len (padded secret) = 16) by (unfold padded, len; rewrite length_app, length_replicate, length_take; lia).
  pose proof (aes_block s _ Hb) as He.
  exists (ps ++ aes_enc s (padded secret)). split; [done|]. split; [rewrite len_app; lia|].
  unfold client_finish. replace (len (ps ++ aes_enc s (padded secret)) =? 80) with true by (symmetry; rewrite len_app, Hls, He; done).
  cbn [negb]. rewrite load_bytes_front by done. cbv beta iota.
  rewrite <- (app_nil_r (aes_enc s (padded secret))), load_bytes_app_mid by done. cbv beta iota.
  rewrite Hder by done. cbv beta iota. change (32 <? 0) with false. cbv iota.
  rewrite Hctx, Hup, (proj2 (one_block s (padded secret) (cc_plain0 oc) Hb Hp)). cbv beta iota. change (16 <? 0) with false. cbv iota.
  assert (Ec : cstr (default [] (Some (padded secret))) = take 16 secret).
  { change (default [] (Some (padded secret))) with (padded secret). unfold padded. rewrite cstr_app_text by (by apply Forall_take).
    destruct (16 - length (take 16 secret))%nat; cbn; by rewrite app_nil_r. }
  rewrite Ec. by case_bool_decide.
Qed.

(** The server program serves one client and is stopped by a signal: it returns 0 with the
    answer sent and no descriptor left open. *)
Lemma server_serves_one calls sock fd p pub answer :
  0 <= sock -> sock <> fd -> p !! sock = None -> p !! fd = None -> len pub = 64 -> len answer = 80 ->
  handle_handshake demo_secret (calls O) pub = Ok (Some answer) ->
  server_main calls sock 0 0 [Client fd pub 80; SignalStop] p = Ok (Exited 0, [(fd, answer)], p).
Proof.
  intros Hs Hne Hps Hpf Hpub Hans E. unfold server_main, tcp_listen, tcp_begin, new_tcp_server, sys_open.
  rewrite (proj2 (Z.ltb_ge sock 0)) by done. cbn [Z.ltb Z.compare negb running_ server_fd_ serve]. unfold sys_open.
  assert (Hfd : <[sock := O_RDWR]> p !! fd = None) by (by rewrite lookup_insert_ne).
  rewrite (take_ge pub), bool_decide_eq_false_2 by (unfold len in *; first [lia|by intros ->]).
  unfold main_handler at 1. rewrite E. cbv beta iota. rewrite sys_close_open by done. cbv beta iota.
  cbn [running_ negb]. unfold tcp_stop at 1. cbn [server_fd_]. rewrite (proj2 (Z.leb_le 0 sock)) by done.
  rewrite sys_close_open by done. cbn [serve running_ negb tcp_stop server_fd_].
  rewrite take_ge by (unfold len in *; lia). reflexivity.
Qed.

(** The two demonstration programs, from start to exit. Whatever keys they draw, when the
    system delivers each message in one piece the server, stopped after one client, returns 0;
    the client that receives its answer decrypts the message and exits with 0; and neither
    leaves a descriptor open. *)
Theorem demo_programs_succeed calls kp e kc sock fd ps pc :
  handshake_works (calls O) kp -> client_works (ce_calls e) ->
  ecc_keypair_create (ce_keygen e) = Some kc -> len (ce_pub0 e) = 64 ->
  0 <= sock -> sock <> fd -> ps !! sock = None -> ps !! fd = None ->
  0 <= ce_socket e -> 0 <= ce_connect e -> pc !! ce_socket e = None ->
  exists pub answer,
    server_main calls sock 0 0 [Client fd pub 80; SignalStop] ps = Ok (Exited 0, [(fd, answer)], ps) /\
    client_main e (Some answer) pc = Ok (0, Some demo_secret, pub, pc).
Proof.
  intros Ho Hc Ek Hp0 Hs Hne Hps Hpf Hcs Hcc Hpc. destruct (exported kc) as (pub & _ & Hlp & Hex).
  destruct (demo_handshake_verified demo_secret (calls O) (ce_calls e) kp kc pub) as (answer & Ea & Hla & Ef);
    [by_deciding|done|done|by apply Hex|].
  exists pub, answer. split; [by apply server_serves_one|].
  unfold client_main, sys_open. rewrite Ek, (Hex _ Hp0), !(proj2 (Z.ltb_ge _ 0)) by done. cbv beta iota.
  rewrite <- (app_nil_r pub) at 1. rewrite load_bytes_front by done. cbv beta iota. rewrite sys_close_open by done. cbv beta iota.
  change (default [] (Some answer)) with answer. rewrite take_ge by (unfold len in *; lia).
  rewrite Ef. reflexivity.
Qed.
End Agreement.

(** ** The accept loop *)

Section ServerProofs.
Context {St : Type} (handler : St -> list Z -> M (option (list Z) * St)).
Context (Hhandler : forall s b, exists r s', handler s b = Ok (r, s')).

(** A client's descriptor is not one of those open. *)
Definition event_fresh (p : process) (e : server_event) : Prop :=
  match e with Client fd _ _ => p !! fd = None | _ => True end.

Definition is_client (e : server_event) : bool := match e with Client _ _ _ => true | _ => false end.

(** While the server runs, its own descriptor is the only one it holds. *)
Definition holds_listener (p0 : process) (t : TcpServer) (p : process) : Prop :=
  if running_ t then 0 <= server_fd_ t /\ p0 !! server_fd_ t = None /\ p = <[server_fd_ t := O_RDWR]> p0
  else server_fd_ t = -1 /\ p = p0.

(** The accept loop neither leaks nor closes twice a descriptor, and serves on whatever the
    clients send: for any sequence of clients, failed accepts and signals it does not fault,
    the clients it has served are the first of the sequence, in order, and all of them while
    it runs, and it holds the listening descriptor while it runs and nothing once stopped. *)
Theorem tcp_server_releases evs t s p0 p :
  holds_listener p0 t p -> Forall (event_fresh p) evs -> Forall (event_fresh p0) evs ->
  exists out t' s' p', serve handler evs t s p = Ok (out, t', s', p') /\ holds_listener p0 t' p' /\
    out.*1 `prefix_of` omap (fun e => match e with Client fd _ _ => Some fd | _ => None end) evs /\
    (running_ t' = true -> out.*1 = omap (fun e => match e with Client fd _ _ => Some fd | _ => None end) evs).
Proof.
  revert t s p. induction evs as [|e evs IH]; intros t s p Hh Hf Hf0; cbn [serve];
    destruct (running_ t) eqn:Er; cbn [negb]; try (eexists _, _, _, _; split; [done|]; split; [done|]; split; [apply prefix_nil|congruence]).
  { by eexists _, _, _, _. }
  apply Forall_cons in Hf as [He Hf]. apply Forall_cons in Hf0 as [He0 Hf0].
  destruct e as [|fd received taken|]; cbn [omap list_omap].
  - by apply IH.
  - cbn [event_fresh] in He. unfold sys_open.
    destruct (IH t s p Hh Hf Hf0) as (out0 & t0 & s0 & p1 & E0 & H0).
    case_bool_decide.
    + rewrite sys_close_open by done. rewrite E0. eexists _, _, _, _. split; [reflexivity|].
      destruct H0 as (? & Hp & Hr). split; [done|]. cbn. split; [by apply prefix_cons|]. intros. f_equal. by apply Hr.
    + destruct (Hhandler s (take 1024 received)) as (r & s1 & ->). cbv beta iota. rewrite sys_close_open by done.
      destruct (IH t s1 p Hh Hf Hf0) as (out1 & t1 & s2 & p2 & -> & Hh1 & Hp & Hr).
      eexists _, _, _, _. split; [reflexivity|]. split; [done|]. cbn. split; [by apply prefix_cons|]. intros. f_equal. by apply Hr.
  - unfold holds_listener in Hh. rewrite Er in Hh. destruct Hh as (Hfd & Hn & ->). unfold tcp_stop.
    rewrite (proj2 (Z.leb_le _ _)) by done. rewrite sys_close_open by done. cbv beta iota.
    destruct (IH (mk_tcp (-1) false) s p0) as (out1 & t1 & s2 & p2 & -> & Hh1 & Hp & Hr); [done..|].
    eexists _, _, _, _. split; [reflexivity|]. done.
Qed.
End ServerProofs.

(** ** Concrete runs *)

#[local] Instance demo_curve : Curve := {|
  ec_key := Z; ec_public k := 4 :: replicate 64 k; ec_point_ok _ := true;
  ecdh_key k p := Some (replicate 32 (k + default 0 (p !! 1%nat))); ed_verify _ _ _ := false
|}.
#[local] Instance demo_aes : Aes := {| aes_enc k b := map (Z.add (default 0 (head k))) b; aes_dec k b := map (Z.add (- default 0 (head k))) b |}.

#[local] Instance demo_curve_laws : CurveLaws.
Proof.
  split; [|done|].
  - intros k. by exists (replicate 64 k).
  - intros a b. eexists. split; [reflexivity|]. cbn. split; [|done]. by rewrite Z.add_comm.
Qed.

#[local] Instance demo_aes_laws : AesLaws.
Proof.
  split; cbn.
  - intros k b Hb. unfold len in *. by rewrite length_map.
  - intros k b _. rewrite map_map. rewrite <- (map_id b) at 2. apply map_ext. intros x. lia.
Qed.

Definition demo_derive : derive_calls := mk_dc true true true 32 true (replicate 64 170).
Definition demo_server_calls (update : bool) : handshake_calls :=
  mk_hc (mk_kgc true true true true (Some 5)) demo_derive true update (replicate 64 0) (replicate 32 0) (replicate 16 204).
Definition demo_client_calls : client_calls := mk_cc demo_derive true true (replicate 32 0) (replicate 16 0).
Definition demo_client_env : client_env := mk_ce (mk_kgc true true true true (Some 9)) (replicate 64 0) 3 0 demo_client_calls.

Lemma ecb_roundtrip_witness :
  exists c, aes256_ecb_encrypt true true (Some [7]) (Some (replicate 32 1)) 32 (Some (replicate 40 0)) 40 =
      Ok (32, Some (c ++ replicate 8 0)) /\
    aes256_ecb_decrypt true true (Some [7]) (Some (c ++ replicate 8 0)) 32 (Some (replicate 32 0)) 32 = Ok (32, Some (replicate 32 1)).
Proof.
  destruct (ecb_roundtrip [7] (replicate 32 1) (replicate 40 0) (replicate 32 0)) as (c & E1 & _ & E2); [done..|].
  exists c. split; [exact E1|]. rewrite app_nil_r in E2. exact E2.
Defined.

Lemma demo_handshake_verified_witness :
  exists answer, handle_handshake demo_secret (demo_server_calls true) (replicate 64 9) = Ok (Some answer) /\
    client_finish demo_client_calls 9 answer = Ok (0, Some demo_secret).
Proof.
  destruct (demo_handshake_verified demo_secret (demo_server_calls true) demo_client_calls 5 9 (replicate 64 9))
    as (answer & E & _ & Ef); [by_deciding|by repeat split|by repeat split|reflexivity|].
  exists answer. split; [exact E|exact Ef].
Defined.

Lemma demo_programs_succeed_witness :
  exists pub answer,
    server_main (fun _ => demo_server_calls true) 3 0 0 [Client 4 pub 80; SignalStop] ∅ = Ok (Exited 0, [(4, answer)], ∅) /\
    client_main demo_client_env (Some answer) ∅ =
      Ok (0, Some demo_secret, pub, ∅).
Proof.
  destruct (demo_programs_succeed (fun _ => demo_server_calls true) 5 demo_client_env 9 3 4 ∅ ∅)
    as (pub & answer & Es & Ec); [by repeat split|by repeat split|done..|].
  by exists pub, answer.
Defined.

Lemma tcp_server_releases_witness :
  exists out t' s' p', serve (fun (s : unit) b => Ok (Some b, s)) [Client 4 [1; 2] 1; AcceptFailed; Client 4 [] 0; SignalStop]
      (mk_tcp 3 true) tt {[3 := O_RDWR]} = Ok (out, t', s', p') /\ holds_listener ∅ t' p' /\ out = [(4, [1]); (4, [])].
Proof.
  destruct (tcp_server_releases (fun (s : unit) b => Ok (Some b, s)) ltac:(eauto)
    [Client 4 [1; 2] 1; AcceptFailed; Client 4 [] 0; SignalStop] (mk_tcp 3 true) tt ∅ {[3 := O_RDWR]})
    as (out & t' & s' & p' & E & Hh & _); [done|by repeat constructor|by repeat constructor|].
  exists out, t', s', p'. split; [exact E|]. split; [exact Hh|].
  pose proof (f_equal (fun r => match r with Ok (a, _, _, _) => a | Fault => [] end) E) as Ea. vm_compute in Ea. by symmetry.
Defined.

(** When bind fails, the descriptor is closed but not forgotten, and the destructor closes it
    again. *)
Example bind_failure_closes_twice :
  exists t p, tcp_listen 3 (-1) 0 new_tcp_server ∅ = Ok (false, t, p) /\ tcp_stop t p = Fault.
Proof. eexists _, _. split; reflexivity. Qed.

(** A signal after [listen] and before the flag is set is forgotten, although it has closed the
    descriptor: the loop runs on and every accept fails. *)
Lemma early_stop_spins n :
  exists t p t' p', tcp_listen 3 0 0 new_tcp_server ∅ = Ok (true, t, p) /\ tcp_stop t p = Ok (t', p') /\
    serve (main_handler (fun _ => demo_server_calls true)) (replicate n AcceptFailed) (tcp_begin t') O p' =
      Ok ([], mk_tcp (-1) true, O, ∅).
Proof.
  do 4 eexists. split; [reflexivity|]. split; [reflexivity|]. induction n as [|n IH]; [reflexivity|]. exact IH.
Qed.

(** The client reads once: an answer that arrives in two pieces is taken for a failure. *)
Example split_answer_refused :
  client_main demo_client_env (Some (replicate 64 5)) ∅ =
    Ok (1, None, replicate 64 9, ∅).
Proof. vm_compute. reflexivity. Qed.

(** A failed derivation is reported as success, with whatever was on the stack as the secret. *)
Example failed_derivation_unnoticed :
  ecc_derive_shared_secret (mk_dc true true true 32 false (replicate 64 170)) (Some 5) (replicate 64 9) 64 (replicate 32 0) 32 =
    Ok (32, replicate 32 170).
Proof. vm_compute. reflexivity. Qed.

(** A failed encryption returns 0, which the handler takes for success: it sends the
    uninitialised block. *)
Example failed_encryption_sent :
  handle_handshake demo_secret (demo_server_calls false) (replicate 64 9) = Ok (Some (replicate 64 5 ++ replicate 16 204)).
Proof. vm_compute. reflexivity. Qed.

(** Equal blocks have equal ciphertexts. *)
Lemma ecb_shows_equal_blocks f b rest : len b = 16 -> exists c, ecb f 2 (b ++ b ++ rest) = c ++ c.
Proof.
  intros Hb. assert (Hn : length b = 16%nat) by (unfold len in Hb; lia). exists (f b). cbn [ecb].
  rewrite take_app_length', drop_app_length', take_app_length' by done. by rewrite app_nil_r.
Qed.
