(* ===== verification/Double.v ===== *)
(** Doubles: the IEEE 754 binary64 numbers of the standard library's executable specification,
    with the operations and comparisons the sources use, the conversion of an unsigned
    integer, and the order lemmas. *)

From Stdlib Require Export Floats.SpecFloat.
From S2P Require Import Prelude.
Local Open Scope Z_scope.

Abbreviation double := spec_float.

Definition d_add : double -> double -> double := SFadd 53 1024.
Definition d_sub : double -> double -> double := SFsub 53 1024.
Definition d_mul : double -> double -> double := SFmul 53 1024.
Definition d_div : double -> double -> double := SFdiv 53 1024.
Definition d_lt : double -> double -> bool := SFltb.
Definition d_le : double -> double -> bool := SFleb.
Definition d_isnan (x : double) : bool := match x with S754_nan => true | _ => false end.

(** The nearest double of an integer, and of a decimal fraction [n / 10^k]. *)
Definition d_int (n : Z) : double := binary_normalize 53 1024 n 0 false.
Definition d_frac (n d : Z) : double := d_div (d_int n) (d_int d).

Definition d_zero : double := S754_zero false.
Definition d_one : double := d_int 1.

(** [a < b ? b : a], [b < a ? b : a]: the standard library's maximum and minimum. *)
Definition d_max (a b : double) : double := if d_lt a b then b else a.
Definition d_min (a b : double) : double := if d_lt b a then b else a.

(** ** Order *)

(** The comparison is that of a triple: the class, the exponent and the mantissa, with the
    last two turned round for negative numbers. *)
Definition d_key (x : double) : option (Z * Z * Z) :=
  match x with
  | S754_nan => None
  | S754_infinity s => Some (if s then -2 else 2, 0, 0)
  | S754_zero _ => Some (0, 0, 0)
  | S754_finite s m e => Some (if s then (-1, - e, Zneg m) else (1, e, Zpos m))
  end.

Definition key_cmp (a b : Z * Z * Z) : comparison :=
  match a.1.1 ?= b.1.1 with Eq => match a.1.2 ?= b.1.2 with Eq => a.2 ?= b.2 | c => c end | c => c end.

Lemma compare_key x y :
  SFcompare x y = match d_key x, d_key y with Some a, Some b => Some (key_cmp a b) | _, _ => None end.
Proof.
  destruct x as [sx|[]| |[] mx ex], y as [sy|[]| |[] my ey]; try done; unfold SFcompare, d_key, key_cmp; cbn [fst snd].
  cbn. rewrite (Z.compare_opp ex ey), (Z.compare_antisym ex ey). by destruct (ex ?= ey).
Qed.

Lemma key_cmp_lt_trans a b c : key_cmp a b = Lt -> key_cmp b c = Lt -> key_cmp a c = Lt.
Proof.
  unfold key_cmp. destruct a as [[a1 a2] a3], b as [[b1 b2] b3], c as [[c1 c2] c3]. cbn [fst snd].
  repeat match goal with |- context [?x ?= ?y] => destruct (Z.compare_spec x y) end; try done; lia.
Qed.

Lemma key_cmp_eq a b : key_cmp a b = Eq -> a = b.
Proof.
  unfold key_cmp. destruct a as [[a1 a2] a3], b as [[b1 b2] b3]. cbn [fst snd].
  repeat match goal with |- context [?x ?= ?y] => destruct (Z.compare_spec x y) end; try done. congruence.
Qed.

Lemma key_cmp_refl a : key_cmp a a = Eq.
Proof. unfold key_cmp. by rewrite !Z.compare_refl. Qed.

Lemma d_lt_key x y : d_lt x y = true <-> exists a b, d_key x = Some a /\ d_key y = Some b /\ key_cmp a b = Lt.
Proof.
  unfold d_lt, SFltb. rewrite compare_key. destruct (d_key x) as [a|], (d_key y) as [b|]; try (split; [done|naive_solver]).
  split; [|by intros (a' & b' & [= <-] & [= <-] & ->)]. intros H. exists a, b. by destruct (key_cmp a b).
Qed.

Lemma d_le_key x y : d_le x y = true <-> exists a b, d_key x = Some a /\ d_key y = Some b /\ (key_cmp a b = Lt \/ a = b).
Proof.
  unfold d_le, SFleb. rewrite compare_key. destruct (d_key x) as [a|], (d_key y) as [b|]; try (split; [done|naive_solver]).
  split.
  - intros H. exists a, b. destruct (key_cmp a b) eqn:E; [|by auto|done]. apply key_cmp_eq in E. auto.
  - intros (a' & b' & [= <-] & [= <-] & [->|E]); [done|]. by rewrite E, key_cmp_refl.
Qed.

Lemma d_lt_trans x y z : d_lt x y = true -> d_lt y z = true -> d_lt x z = true.
Proof.
  rewrite !d_lt_key. intros (a & b & Ha & Hb & Hab) (b' & c & Hb' & Hc & Hbc). simplify_eq.
  exists a, c. split; [done|]. split; [done|]. by eapply key_cmp_lt_trans.
Qed.

Lemma d_lt_le_trans x y z : d_lt x y = true -> d_le y z = true -> d_lt x z = true.
Proof.
  rewrite !d_lt_key, d_le_key. intros (a & b & Ha & Hb & Hab) (b' & c & Hb' & Hc & [Hbc| ->]); simplify_eq; [|by eauto].
  exists a, c. split; [done|]. split; [done|]. by eapply key_cmp_lt_trans.
Qed.

Lemma d_le_trans x y z : d_le x y = true -> d_le y z = true -> d_le x z = true.
Proof.
  rewrite !d_le_key. intros (a & b & Ha & Hb & [Hab| ->]) (b' & c & Hb' & Hc & [Hbc|Hbc]); simplify_eq; [|by eauto 6..].
  exists a, c. split; [done|]. split; [done|]. left. by eapply key_cmp_lt_trans.
Qed.

Lemma d_lt_irrefl x : d_lt x x = false.
Proof.
  apply not_true_is_false. rewrite d_lt_key. intros (a & b & Ha & Hb & H). simplify_eq.
  by rewrite key_cmp_refl in H.
Qed.

(** Two numbers compare one way or the other. *)
Lemma d_lt_total x y : d_isnan x = false -> d_isnan y = false -> d_lt x y = false -> d_le y x = true.
Proof.
  intros Hx Hy Hlt. apply d_le_key. destruct (d_key x) as [a|] eqn:Ea; [|by destruct x].
  destruct (d_key y) as [b|] eqn:Eb; [|by destruct y]. exists b, a. split; [done|]. split; [done|].
  destruct (key_cmp b a) eqn:E; [right; by apply key_cmp_eq|by left|].
  exfalso. apply not_true_iff_false in Hlt. destruct Hlt. apply d_lt_key. exists a, b. split; [done|]. split; [done|].
  unfold key_cmp in *. destruct a as [[a1 a2] a3], b as [[b1 b2] b3]. cbn [fst snd] in *.
  revert E. repeat match goal with |- context [?x ?= ?y] => destruct (Z.compare_spec x y) end; try done; lia.
Qed.

Lemma d_lt_le x y : d_lt x y = true -> d_le x y = true.
Proof. rewrite d_lt_key, d_le_key. intros (a & b & ? & ? & ?). exists a, b. auto. Qed.
