(* ===== verification/StringUtil.v ===== *)
(** The string helpers ([src/string_util.cpp]). A string is the list of its bytes; the
    character classes are those of the C locale. A double is printed as printf does it, from its
    exact value. *)

From Stdlib Require Import String.
From S2P Require Import Prelude Ctype KeySched Double.
Local Open Scope Z_scope.

Definition upper (c : Z) : Z := if (97 <=? c) && (c <=? 122) then c - 32 else c.

(* src/src/string_util.cpp:10-14 *)
Definition to_lower (s : cstring) : cstring := map lower s.
(* src/src/string_util.cpp:16-20 *)
Definition to_upper (s : cstring) : cstring := map upper s.

(** [s.compare(pos, n, t) == 0]. *)
Definition substr_eq (s : cstring) (pos n : Z) (t : cstring) : bool :=
  bool_decide (take (Z.to_nat n) (drop (Z.to_nat pos) s) = t).

(* src/src/string_util.cpp:22-25 *)
Definition starts_with (s prefix : cstring) : bool :=
  (len prefix <=? len s) && substr_eq s 0 (len prefix) prefix.
(* src/src/string_util.cpp:27-30 *)
Definition ends_with (s suffix : cstring) : bool :=
  (len suffix <=? len s) && substr_eq s (len s - len suffix) (len suffix) suffix.

(** The standard library's search: the place of the first occurrence, [None] for npos. *)
Fixpoint find_sub (needle s : cstring) : option nat :=
  if bool_decide (take (length needle) s = needle) then Some O
  else match s with [] => None | _ :: s => S <$> find_sub needle s end.
(** [s.find(needle, pos)]. *)
Definition find (s needle : cstring) (pos : Z) : option Z :=
  if len s <? pos then None
  else (fun i => pos + Z.of_nat i) <$> find_sub needle (drop (Z.to_nat pos) s).

(* src/src/string_util.cpp:32-34 *)
Definition contains (s needle : cstring) : bool := bool_decide (is_Some (find s needle 0)).

(* src/src/string_util.cpp:36-43 *)
Definition ieq (a b : cstring) : M bool :=
  if negb (len a =? len b) then Ok false
  else
    let! r := for_ret (length a) 0 (fun i (_ : unit) =>
      let! x := load a i in
      let! y := load b i in
      if negb (lower x =? lower y) then Ok (inr false) else Ok (inl tt)) tt in
    Ok (match r with inl _ => true | inr r => r end).

(** The loops count up from [i] and down from [n]. *)
Fixpoint skip_left (s : cstring) (i : nat) : nat :=
  match s with c :: s => if isspace c then skip_left s (S i) else i | [] => i end.
(* src/src/string_util.cpp:45-49 *)
Definition trim_left (s : cstring) : cstring := drop (skip_left s 0) s.

Fixpoint skip_right (s : cstring) (n : nat) : nat :=
  match n with
  | O => O
  | S m => if match s !! m with Some c => isspace c | None => false end then skip_right s m else n
  end.
(* src/src/string_util.cpp:51-55 *)
Definition trim_right (s : cstring) : cstring := take (skip_right s (length s)) s.

(* src/src/string_util.cpp:57-57 *)
Definition trim (s : cstring) : cstring := trim_left (trim_right s).

(* src/src/string_util.cpp:59-70 *)
Definition split (s : cstring) (sep : Z) (keep_empty : bool) : M (list cstring) :=
  let! '(out, _) := for_up (S (length s)) 0 (fun i '(out, start) =>
    let! at_end := (if i =? len s then Ok true else let! c := load s i in Ok (c =? sep)) in
    if (at_end : bool) then
      let! part := load_bytes s start (i - start) in
      Ok (if keep_empty || negb (bool_decide (part = [])) then out ++ [part] else out, i + 1)
    else Ok (out, start)) ([], 0) in
  Ok out.

(* src/src/string_util.cpp:72-79 *)
Definition join (parts : list cstring) (sep : cstring) : M cstring :=
  for_up (length parts) 0 (fun i out =>
    let! p := load parts i in
    Ok ((if 0 <? i then out ++ sep else out) ++ p)) [].

(** The while loop; each round leaves less of the string to search, so that the length and one
    bounds the rounds. *)
(* src/src/string_util.cpp:85-88 replace_all *)
Fixpoint replace_loop (fuel : nat) (s from to : cstring) (pos : Z) : M cstring :=
  match find s from pos with
  | None => Ok s
  | Some p =>
      match fuel with
      | O => Fault
      | S fuel =>
          let s := take (Z.to_nat p) s ++ to ++ drop (Z.to_nat (p + len from)) s in
          replace_loop fuel s from to (p + len to)
      end
  end.

(* src/src/string_util.cpp:81-90 *)
Definition replace_all (s from to : cstring) : M cstring :=
  match from with [] => Ok s | _ => replace_loop (length s) s from to 0 end.

(** [%0<w>llu]. *)
Definition dec_pad (w : nat) (n : Z) : cstring :=
  let t := dec 20 n in replicate (w - length t) 48 ++ t.

(* src/src/string_util.cpp:103-117 *)
Definition human_duration_ms (ms : Z) : cstring :=
  let sec := ms / 1000 in
  let h := sec / 3600 in
  let m := sec mod 3600 / 60 in
  let s := sec mod 60 in
  if 0 <? h then dec 20 h ++ lit "h" ++ dec_pad 2 m ++ lit "m"
  else if 0 <? m then dec 20 m ++ lit "m" ++ dec_pad 2 s ++ lit "s"
  else dec 20 s ++ lit "." ++ dec_pad 3 (ms mod 1000) ++ lit "s".

(** The value times ten, rounded to the nearest integer and to the even one of two: what
    [%.1f] prints of a finite number that is not negative. *)
Definition tenths (x : double) : Z :=
  match x with
  | S754_finite _ m e =>
      if 0 <=? e then 10 * Z.pos m * 2 ^ e
      else
        let d := 2 ^ (- e) in
        let q := 10 * Z.pos m / d in
        let r := 10 * Z.pos m mod d in
        if (2 * r <? d) || ((2 * r =? d) && Z.even q) then q else q + 1
  | _ => 0
  end.
Definition print_tenths (n : Z) : cstring := dec 20 (n / 10) ++ lit "." ++ dec 20 (n mod 10).

(* src/src/string_util.cpp:93-94 human_bytes *)
Definition units : list cstring := [lit "B"; lit "KiB"; lit "MiB"; lit "GiB"; lit "TiB"; lit "PiB"].

(** The loop, for the units that are left. *)
(* src/src/string_util.cpp:97-97 human_bytes *)
Fixpoint scale (more : nat) (v : double) (u : Z) : double * Z :=
  match more with
  | O => (v, u)
  | S more => if d_le (d_int 1024) v then scale more (d_div v (d_int 1024)) (u + 1) else (v, u)
  end.

(* src/src/string_util.cpp:92-101 *)
Definition human_bytes (n : Z) : cstring :=
  let '(v, u) := scale 5 (d_int n) 0 in
  snprintf 32 (print_tenths (tenths v) ++ lit " " ++ default [] (units !! Z.to_nat u)).

(** The unit exists, and it is the first in which the number is below 1024, or the last. *)
Lemma scale_unit more : forall v u,
  let '(v', u') := scale more v u in
  u <= u' <= u + Z.of_nat more /\ (u' < u + Z.of_nat more -> d_le (d_int 1024) v' = false) /\ (u < u' -> d_le (d_int 1024) v = true).
Proof.
  induction more as [|more IH]; intros v u; cbn [scale]; [split_and!; lia|]. destruct (d_le (d_int 1024) v) eqn:E; [|split_and!; done || lia].
  specialize (IH (d_div v (d_int 1024)) (u + 1)). destruct (scale more (d_div v (d_int 1024)) (u + 1)) as [v' u'].
  destruct IH as (H1 & H2 & _). split_and!; [lia|lia| |done]. intros. apply H2. lia.
Qed.

Lemma human_bytes_shape n : exists t u, human_bytes n = snprintf 32 (print_tenths t ++ lit " " ++ u) /\ u ∈ units.
Proof.
  unfold human_bytes. pose proof (scale_unit 5 (d_int n) 0) as Hs. destruct (scale 5 (d_int n) 0) as [v u]. destruct Hs as (Hu & _).
  destruct (lookup_lt_is_Some_2 units (Z.to_nat u)) as [x Ex]; [change (length units) with 6%nat; lia|].
  exists (tenths v), x. rewrite Ex. split; [done|]. by eapply list_elem_of_lookup_2.
Qed.

(** Some values. The unit is chosen before rounding: one byte less than a mebibyte prints as 1024
    kibibytes. *)
Lemma human_bytes_values :
  map human_bytes [0; 1023; 1536; 1048575; 1048576; 2 ^ 64 - 1] =
  [lit "0.0 B"; lit "1023.0 B"; lit "1.5 KiB"; lit "1024.0 KiB"; lit "1.0 MiB"; lit "16384.0 PiB"].
Proof. vm_compute. reflexivity. Qed.

(** ** Searching *)

Lemma find_sub_some needle s i :
  find_sub needle s = Some i -> exists a b, s = a ++ needle ++ b /\ length a = i.
Proof.
  revert i. induction s as [|c s IH]; intros i; cbn [find_sub]; case_bool_decide as E.
  - intros [= <-]. exists [], []. rewrite <- E. by rewrite take_nil.
  - done.
  - intros [= <-]. exists [], (drop (length needle) (c :: s)). split; [|done]. rewrite <- E at 1. by rewrite take_drop.
  - destruct (find_sub needle s) as [j|]; [|done]. intros [= <-]. destruct (IH j eq_refl) as (a & b & -> & Hl).
    exists (c :: a), b. split; [done|]. cbn. by rewrite Hl.
Qed.

(** The place found is the first. *)
Lemma find_sub_first needle s i a b :
  find_sub needle s = Some i -> s = a ++ needle ++ b -> (i <= length a)%nat.
Proof.
  revert i a. induction s as [|c s IH]; intros i a; cbn [find_sub]; case_bool_decide as E; try (intros [= <-]; lia).
  destruct (find_sub needle s) as [j|] eqn:Ej; [|done]. intros [= <-] Hs. destruct a as [|x a].
  - destruct E. cbn in Hs. rewrite Hs. by rewrite take_app_length.
  - injection Hs as _ Hs. specialize (IH j a eq_refl Hs). cbn. lia.
Qed.

Lemma find_sub_none needle s : find_sub needle s = None -> forall a b, s <> a ++ needle ++ b.
Proof.
  induction s as [|c s IH]; cbn [find_sub]; case_bool_decide as E; try done.
  - intros _ a b Hs. destruct a; [|done]. destruct needle; [|done]. done.
  - destruct (find_sub needle s); [done|]. intros _ a b Hs. destruct a as [|x a].
    + destruct E. cbn in Hs. rewrite Hs. by rewrite take_app_length.
    + injection Hs as _ Hs. by apply (IH eq_refl a b).
Qed.

Lemma contains_spec s needle : contains s needle = true <-> exists a b, s = a ++ needle ++ b.
Proof.
  unfold contains, find. rewrite (proj2 (Z.ltb_ge _ _)) by apply len_nonneg. change (drop (Z.to_nat 0) s) with s.
  rewrite bool_decide_eq_true. split.
  - intros [x Hx]. destruct (find_sub needle s) as [i|] eqn:E; [|done]. apply find_sub_some in E as (a & b & E & _). eauto.
  - intros (a & b & E). destruct (find_sub needle s) eqn:En; [by eexists|]. by destruct (find_sub_none _ _ En a b).
Qed.

(** Replacing left to right without looking at what was put in. *)
Inductive replaces (from to : cstring) : cstring -> cstring -> Prop :=
  | replaces_none s : find_sub from s = None -> replaces from to s s
  | replaces_first a b b' :
      find_sub from (a ++ from ++ b) = Some (length a) -> replaces from to b b' ->
      replaces from to (a ++ from ++ b) (a ++ to ++ b').

Lemma replace_loop_spec from to : from <> [] ->
  forall fuel pre s, (length s <= fuel)%nat ->
  exists s', replace_loop fuel (pre ++ s) from to (len pre) = Ok (pre ++ s') /\ replaces from to s s'.
Proof.
  intros Hf. induction fuel as [|fuel IH]; intros pre s Hs; cbn [replace_loop]; unfold find;
    rewrite (proj2 (Z.ltb_ge _ _)) by (rewrite len_app; pose proof (len_nonneg s); lia); rewrite drop_len_app;
    (destruct (find_sub from s) as [i|] eqn:E; cbn [fmap option_fmap option_map]; [|exists s; split; [done|by constructor]]);
    pose proof E as E'; apply find_sub_some in E' as (a & b & -> & <-).
  - exfalso. rewrite !length_app in Hs. destruct from; [by apply Hf|cbn in Hs; lia].
  - set (p := len pre + Z.of_nat (length a)). assert (Hp : p = len (pre ++ a)) by (unfold p; rewrite len_app; done).
    rewrite Hp. rewrite (app_assoc pre a), take_len_app.
    replace (len (pre ++ a) + len from) with (len ((pre ++ a) ++ from)) by (rewrite len_app; done).
    rewrite (app_assoc (pre ++ a) from), drop_len_app.
    replace (len (pre ++ a) + len to) with (len ((pre ++ a) ++ to)) by (rewrite len_app; done).
    rewrite app_assoc. destruct (IH ((pre ++ a) ++ to) b) as (b' & -> & Hb).
    { rewrite !length_app in Hs. destruct from; [done|]. cbn in Hs. lia. }
    exists (a ++ to ++ b'). split; [by rewrite <- !app_assoc|]. by constructor.
Qed.

(** ** Trimming *)

Lemma skip_left_spec s i : skip_left s i = (i + skip_left s 0)%nat.
Proof.
  revert i. induction s as [|c s IH]; intros i; cbn [skip_left]; [lia|]. destruct (isspace c); [|lia].
  rewrite (IH (S i)), (IH 1%nat). lia.
Qed.

Lemma trim_left_split s :
  exists l, s = l ++ trim_left s /\ forallb isspace l = true /\ (forall c, head (trim_left s) = Some c -> isspace c = false).
Proof.
  unfold trim_left. induction s as [|c s IH]; [by exists []|]. cbn [skip_left]. destruct (isspace c) eqn:E.
  - rewrite skip_left_spec. cbn [drop Nat.add]. destruct IH as (l & El & Hl & Hh). exists (c :: l). split; [cbn; by rewrite <- El|].
    split; [cbn; by rewrite E|done].
  - exists []. split; [done|]. split; [done|]. by intros ? [= <-].
Qed.

Lemma trim_right_split s :
  exists r, s = trim_right s ++ r /\ forallb isspace r = true /\ (forall c, last (trim_right s) = Some c -> isspace c = false).
Proof.
  unfold trim_right. assert (Hg : forall n, (n <= length s)%nat -> forallb isspace (drop n s) = true ->
    exists r, s = take (skip_right s n) s ++ r /\ forallb isspace r = true /\
      (forall c, last (take (skip_right s n) s) = Some c -> isspace c = false)).
  { induction n as [|m IH]; intros Hn Hd; cbn [skip_right].
    - exists s. split; [done|]. by split.
    - destruct (lookup_lt_is_Some_2 s m) as [c Hc]; [lia|]. rewrite Hc. destruct (isspace c) eqn:E.
      + apply IH; [lia|]. rewrite (drop_S s c) by done. cbn. by rewrite E.
      + exists (drop (S m) s). rewrite take_drop. split; [done|]. split; [done|]. intros c' Hc'.
        rewrite (take_S_r s m c) in Hc' by done. rewrite last_snoc in Hc'. by injection Hc' as <-. }
  apply Hg; [done|]. by rewrite drop_all.
Qed.

(** What trimming removes is white space, and all of it at both ends. *)
Lemma trim_spec s :
  exists l r, s = l ++ trim s ++ r /\ forallb isspace l = true /\ forallb isspace r = true /\
    (forall c, head (trim s) = Some c -> isspace c = false) /\ (forall c, last (trim s) = Some c -> isspace c = false).
Proof.
  unfold trim. destruct (trim_right_split s) as (r & Er & Hr & Hl). destruct (trim_left_split (trim_right s)) as (l & El & Hls & Hh).
  exists l, r. rewrite app_assoc, <- El. split_and!; [done..|]. intros c Hc. apply Hl. rewrite El.
  destruct (trim_left (trim_right s)) as [|x t]; [done|]. by rewrite last_app, Hc.
Qed.

(** ** Splitting and joining *)

Section SplitProofs.
Context (sep : Z).

Lemma segs_snoc s c :
  exists gs g, split_segs sep s = gs ++ [g] /\
    split_segs sep (s ++ [c]) = if c =? sep then (gs ++ [g]) ++ [[]] else gs ++ [g ++ [c]].
Proof.
  induction s as [|x s IH]; cbn [split_segs app].
  - exists [], []. split; [done|]. by destruct (c =? sep).
  - destruct IH as (gs & g & E1 & E2). rewrite E1, E2. destruct (x =? sep).
    + exists ([] :: gs), g. split; [done|]. by destruct (c =? sep).
    + destruct gs as [|g0 gs]; cbn.
      * exists [], (x :: g). split; [done|]. by destruct (c =? sep).
      * exists ((x :: g0) :: gs), g. split; [done|]. by destruct (c =? sep).
Qed.

Definition kept (keep_empty : bool) (gs : list cstring) : list cstring :=
  filter (fun g => keep_empty || negb (bool_decide (g = [])) = true) gs.

Lemma kept_app k gs g : kept k (gs ++ [g]) = if k || negb (bool_decide (g = [])) then kept k gs ++ [g] else kept k gs.
Proof. unfold kept. rewrite filter_app. cbn. unfold filter at 2. cbn. case_decide as E; [by rewrite E|]. apply not_true_is_false in E. by rewrite E, app_nil_r. Qed.

Lemma string_split_spec s keep : split s sep keep = Ok (kept keep (split_segs sep s)).
Proof.
  unfold split.
  destruct (for_up_inv (fun i '(out, start) => 0 <= start <= i /\
      (i <= len s -> exists gs, split_segs sep (take (Z.to_nat i) s) = gs ++ [drop (Z.to_nat start) (take (Z.to_nat i) s)] /\ out = kept keep gs) /\
      (i = len s + 1 -> out = kept keep (split_segs sep s)))
    (fun i '(out, start) =>
      let! at_end := (if i =? len s then Ok true else let! c := load s i in Ok (c =? sep)) in
      if (at_end : bool) then
        let! part := load_bytes s start (i - start) in
        Ok (if keep || negb (bool_decide (part = [])) then out ++ [part] else out, i + 1)
      else Ok (out, start)) (S (length s)) 0 ([], 0)) as ([out start] & -> & _ & _ & H).
  - split; [lia|]. split; [|pose proof (len_nonneg s); lia]. intros _. by exists [].
  - intros i [out start] Hi (Hst & Hin & _). assert (Hil : i <= len s) by (unfold len; lia).
    destruct (Hin Hil) as (gs & Es & ->).
    assert (Ep : drop (Z.to_nat start) (take (Z.to_nat i) s) = take (Z.to_nat (i - start)) (drop (Z.to_nat start) s))
      by (rewrite take_drop_commute; do 2 f_equal; lia).
    assert (El : load_bytes s start (i - start) = Ok (drop (Z.to_nat start) (take (Z.to_nat i) s))) by (rewrite load_bytes_in_bounds, Ep by lia; done).
    destruct (Z.eqb_spec i (len s)) as [->|Hne].
    + rewrite El. eexists. split; [reflexivity|]. cbv beta iota. split; [lia|]. split; [lia|]. intros _.
      rewrite len_to_nat, take_ge in * by lia. by rewrite Es, kept_app.
    + destruct (load_in_bounds s i ltac:(lia)) as (c & -> & Hc). cbv beta iota.
      pose proof (segs_snoc (take (Z.to_nat i) s) c) as (gs' & g' & E1 & E2).
      rewrite E1 in Es. apply app_inj_2 in Es as [-> [= ->]]; [|done].
      assert (Et : take (Z.to_nat (i + 1)) s = take (Z.to_nat i) s ++ [c]).
      { replace (Z.to_nat (i + 1)) with (S (Z.to_nat i)) by lia. by apply take_S_r. }
      destruct (c =? sep).
      * rewrite El. eexists. split; [reflexivity|]. cbv beta iota. split; [lia|]. split; [|lia]. intros _.
        eexists. rewrite Et, E2. split; [|symmetry; apply kept_app]. f_equal. f_equal.
        rewrite drop_ge; [done|]. rewrite length_app, length_take. cbn. unfold len in *. lia.
      * eexists. split; [reflexivity|]. cbv beta iota. split; [lia|]. split; [|lia]. intros _.
        exists gs. rewrite Et, E2. split; [|done]. do 2 f_equal. rewrite drop_app_le; [done|].
        rewrite length_take. unfold len in *. lia.
  - cbv beta iota. f_equal. apply H. unfold len. lia.
Qed.

Fixpoint joined (g : cstring) (gs : list cstring) (sp : cstring) : cstring :=
  match gs with [] => g | h :: gs => g ++ sp ++ joined h gs sp end.

Lemma joined_snoc g gs sp h : joined g (gs ++ [h]) sp = joined g gs sp ++ sp ++ h.
Proof. revert g. induction gs as [|k gs IH]; intros g; cbn [joined app]; [done|]. by rewrite IH, <- !app_assoc. Qed.

Lemma join_spec parts sp : join parts sp = Ok (match parts with [] => [] | g :: gs => joined g gs sp end).
Proof.
  unfold join.
  destruct (for_up_inv (fun i out => out = match take (Z.to_nat i) parts with [] => [] | g :: gs => joined g gs sp end)
    (fun i out => let! p := load parts i in Ok ((if 0 <? i then out ++ sp else out) ++ p)) (length parts) 0 []) as (out & -> & ->).
  - done.
  - intros i out Hi ->. destruct (load_in_bounds parts i) as (p & -> & Hp); [unfold len; lia|]. eexists. split; [reflexivity|].
    replace (Z.to_nat (i + 1)) with (S (Z.to_nat i)) by lia. rewrite (take_S_r _ _ p) by done.
    destruct (Z.ltb_spec 0 i) as [H|H].
    + destruct (take (Z.to_nat i) parts) as [|g gs] eqn:E; [|cbn [app]; rewrite joined_snoc; by rewrite app_assoc].
      apply (f_equal length) in E. rewrite length_take in E. apply lookup_lt_Some in Hp. cbn in E. lia.
    + by replace (Z.to_nat i) with 0%nat by lia.
  - rewrite Z.add_0_l, Nat2Z.id, take_ge by done. done.
Qed.

Lemma joined_segs s : match split_segs sep s with [] => [] | g :: gs => joined g gs [sep] end = s.
Proof.
  induction s as [|c s IH]; cbn [split_segs]; [done|]. destruct (split_segs sep s) as [|g gs] eqn:E; [by destruct (segs_not_nil sep s)|].
  destruct (Z.eqb_spec c sep) as [->|]; [cbn [joined app]; by rewrite IH|].
  rewrite <- IH. by destruct gs.
Qed.

Lemma segs_free g : sep ∉ g -> split_segs sep g = [g].
Proof.
  induction g as [|c g IH]; [done|]. rewrite not_elem_of_cons. intros [Hc Hg]. cbn [split_segs].
  rewrite (proj2 (Z.eqb_neq c sep)) by done. by rewrite IH.
Qed.

Lemma segs_first g s : sep ∉ g -> split_segs sep (g ++ sep :: s) = g :: split_segs sep s.
Proof.
  induction g as [|c g IH]; [intros _; cbn; by rewrite Z.eqb_refl|]. rewrite not_elem_of_cons. intros [Hc Hg]. cbn [split_segs app].
  rewrite (proj2 (Z.eqb_neq c sep)) by done. by rewrite IH.
Qed.

Lemma segs_joined g gs : Forall (fun g => sep ∉ g) (g :: gs) -> split_segs sep (joined g gs [sep]) = g :: gs.
Proof.
  revert g. induction gs as [|h gs IH]; intros g; rewrite Forall_cons; intros [Hg Hgs]; cbn [joined app]; [by apply segs_free|].
  rewrite segs_first, IH by done. done.
Qed.

Lemma kept_all gs : kept true gs = gs.
Proof. unfold kept. induction gs as [|g gs IH]; [done|]. rewrite filter_cons_True by done. by rewrite IH. Qed.

(** Splitting and joining are inverse. Joining the parts of any string with the separator
    gives the string back; splitting what was joined gives the parts back, when there is one
    at least and none holds the separator; and leaving out the empty parts leaves the others
    as they are, in order. *)
Theorem split_join_roundtrip s gs :
  (let! parts := split s sep true in join parts [sep]) = Ok s /\
  (gs <> [] -> Forall (fun g => sep ∉ g) gs -> (let! t := join gs [sep] in split t sep true) = Ok gs) /\
  (let! parts := split s sep true in Ok (filter (fun g => negb (bool_decide (g = [])) = true) parts)) = split s sep false.
Proof.
  split_and!.
  - rewrite string_split_spec, kept_all, join_spec. f_equal. apply joined_segs.
  - intros Hne Hgs. destruct gs as [|g gs]; [done|]. rewrite join_spec. cbv beta iota. by rewrite string_split_spec, kept_all, segs_joined.
  - rewrite !string_split_spec, kept_all. done.
Qed.
End SplitProofs.

(** Replacing every occurrence terminates, also when the replacement contains the text that
    is replaced, and goes from left to right over the original string: each occurrence found
    is the first one in what is left, and what was put in is not searched again. *)
Theorem replace_all_spec s from to :
  from <> [] -> exists s', replace_all s from to = Ok s' /\ replaces from to s s'.
Proof.
  intros Hf. unfold replace_all. destruct from as [|c f] eqn:E; [done|]. rewrite <- E in *.
  destruct (replace_loop_spec from to ltac:(congruence) (length s) [] s ltac:(done)) as (s' & E' & Hs).
  exists s'. split; [exact E'|done].
Qed.

Lemma replace_all_spec_witness :
  replace_all (lit "aXbX") (lit "X") (lit "XX") = Ok (lit "aXXbXX") /\ replaces (lit "X") (lit "XX") (lit "aXbX") (lit "aXXbXX").
Proof.
  destruct (replace_all_spec (lit "aXbX") (lit "X") (lit "XX")) as (s' & E & Hs); [done|].
  assert (Es : s' = lit "aXXbXX") by (vm_compute in E; by injection E). subst s'. split; [exact E|exact Hs].
Defined.

Lemma split_join_roundtrip_witness :
  (let! t := join [[97]; []; [98]] [44] in split t 44 true) = Ok [[97]; []; [98]].
Proof.
  apply (split_join_roundtrip 44 [] [[97]; []; [98]]); [done|]. repeat constructor; set_solver.
Defined.

(** ** Comparing *)

Lemma ieq_spec a b : ieq a b = Ok (bool_decide (to_lower a = to_lower b)).
Proof.
  unfold ieq, to_lower. destruct (Z.eqb_spec (len a) (len b)) as [Hl|Hl]; cbn [negb].
  - set (body := fun i (_ : unit) => _).
    assert (Hg : forall l r pre pre', length l = length r -> a = pre ++ l -> b = pre' ++ r -> length pre = length pre' ->
      exists x, for_ret (length l) (len pre) body tt = Ok x /\
        (match x with inl _ => true | inr r => r end) = bool_decide (map lower l = map lower r)).
    { induction l as [|x l IH]; intros [|y r] pre pre' Hlen Ha Hb Hp; try done; [by exists (inl tt)|]. cbn [length for_ret].
      assert (Ex : load a (len pre) = Ok x) by (rewrite Ha; apply load_app_mid).
      assert (Ey : load b (len pre) = Ok y) by (rewrite Hb; replace (len pre) with (len pre') by (unfold len; lia); apply load_app_mid).
      unfold body at 1. rewrite Ex, Ey.
      cbv beta iota. cbn [map]. destruct (Z.eqb_spec (lower x) (lower y)) as [E|E]; cbn [negb].
      - destruct (IH r (pre ++ [x]) (pre' ++ [y])) as (z & Ez & Hz); [by injection Hlen|by rewrite Ha, <- app_assoc|by rewrite Hb, <- app_assoc|by rewrite !length_app, Hp|].
        exists z. split; [rewrite <- Ez; f_equal; len_lia|]. rewrite Hz. apply bool_decide_ext. split; congruence.
      - exists (inr false). split; [done|]. symmetry. apply bool_decide_eq_false. congruence. }
    destruct (Hg a b [] []) as (x & Ex & Hx); [unfold len in Hl; lia|done..|]. change (len (@nil Z)) with 0 in Ex. rewrite Ex.
    cbv beta iota. by rewrite Hx.
  - symmetry. f_equal. apply bool_decide_eq_false. intros E. apply (f_equal length) in E. rewrite !length_map in E. unfold len in Hl. lia.
Qed.

Lemma starts_with_spec s p : starts_with s p = true <-> exists t, s = p ++ t.
Proof.
  unfold starts_with, substr_eq. rewrite andb_true_iff, Z.leb_le, bool_decide_eq_true. change (drop (Z.to_nat 0) s) with s. rewrite len_to_nat.
  split; [intros [_ E]; exists (drop (length p) s); by rewrite <- E at 1; rewrite take_drop|].
  intros [t ->]. split; [rewrite len_app; pose proof (len_nonneg t); lia|]. by rewrite take_app_length.
Qed.

Lemma ends_with_spec s p : ends_with s p = true <-> exists t, s = t ++ p.
Proof.
  unfold ends_with, substr_eq. rewrite andb_true_iff, Z.leb_le, bool_decide_eq_true. rewrite len_to_nat. split.
  - intros [Hl E]. exists (take (Z.to_nat (len s - len p)) s). rewrite <- (take_drop (Z.to_nat (len s - len p)) s) at 1. f_equal.
    etrans; [symmetry; apply take_ge|exact E]. rewrite length_drop. unfold len in *. lia.
  - intros [t ->]. split; [rewrite len_app; pose proof (len_nonneg t); lia|].
    replace (len (t ++ p) - len p) with (len t) by (rewrite len_app; lia). by rewrite drop_len_app, take_ge.
Qed.

(** The example of the header: minutes have two digits after hours, seconds after minutes. *)
Example durations :
  human_duration_ms 72000 = lit "1m12s" /\ human_duration_ms 11040000 = lit "3h04m" /\ human_duration_ms 1005 = lit "1.005s".
Proof. vm_compute. done. Qed.
