(* ===== verification/CliArgs.v ===== *)
(** Command-line options ([src/cli_args.cpp]) and the beacon program that uses them
    ([src/beacon_cli.cpp]): what it makes of its options, the key material it derives from the
    shared secret, and its run up to the exit code. Arguments are lists of non-zero bytes; an
    exception of type CliError is the left side of a sum, with its message. *)

From Stdlib Require Import String.
From stdpp Require Import gmap strings.
From S2P Require Import Prelude Ctype Codec Hex Id Rng Aead Beacon KeySched BeaconService.
Local Open Scope Z_scope.

(* src/inc/cli_args.hpp:43-46 *)
Record CliArgs := mk_cli {
  program_ : cstring;
  values_ : gmap cstring cstring;
  flags_ : gset cstring;
  positionals_ : list cstring
}.

Definition set_value (c : CliArgs) (name val : cstring) : CliArgs :=
  mk_cli (program_ c) (<[name := val]> (values_ c)) (flags_ c) (positionals_ c).
Definition set_flag (c : CliArgs) (name : cstring) : CliArgs :=
  mk_cli (program_ c) (values_ c) ({[name]} ∪ flags_ c) (positionals_ c).
Definition add_positional (c : CliArgs) (a : cstring) : CliArgs :=
  mk_cli (program_ c) (values_ c) (flags_ c) (positionals_ c ++ [a]).

Definition dashes : cstring := lit "--".

Section Parse.
Context (boolean_flags : gset cstring).

(* src/src/cli_args.cpp:14-42 CliArgs::CliArgs *)
Fixpoint parse_args (args : list cstring) (c : CliArgs) : cstring + CliArgs :=
  match args with
  | [] => inr c
  | a :: rest =>
      if (len a <? 2) || negb (bool_decide (take 2 a = dashes)) then parse_args rest (add_positional c a)
      else
        let body := drop 2 a in
        match strchr body 61 with
        | Some (name, val) =>
            if bool_decide (name ∈ boolean_flags) then inl (lit "boolean flag --" ++ name ++ lit " takes no value")
            else parse_args rest (set_value c name val)
        | None =>
            let name := body in
            if bool_decide (name ∈ boolean_flags) then parse_args rest (set_flag c name)
            else match rest with
                 | [] => inl (lit "missing value for --" ++ name)
                 | v :: rest => parse_args rest (set_value c name v)
                 end
        end
  end.

(* src/src/cli_args.cpp:10-43 CliArgs::CliArgs *)
Definition new_cli (argv : list cstring) : cstring + CliArgs :=
  match argv with
  | [] => inr (mk_cli [] ∅ ∅ [])
  | p :: args => parse_args args (mk_cli p ∅ ∅ [])
  end.
End Parse.

(* src/src/cli_args.cpp:45-49 CliArgs::get *)
Definition cli_get (c : CliArgs) (name : cstring) : option cstring := values_ c !! name.
(* src/src/cli_args.cpp:51-53 CliArgs::flag *)
Definition cli_flag (c : CliArgs) (name : cstring) : bool := bool_decide (name ∈ flags_ c).
(* src/src/cli_args.cpp:55-58 CliArgs::get_string *)
Definition get_string (c : CliArgs) (name fb : cstring) : cstring := default fb (cli_get c name).

(** The standard library's conversions: [None] when they throw. Text after the number is
    ignored. *)
Definition stoi (s : cstring) : option Z :=
  let '(neg, m, e) := scan_int s in
  if bool_decide (e = s) then None
  else
    let v := if neg then - m else m in
    if (-2147483648 <=? v) && (v <=? INT_MAX) then Some v else None.
Definition stoul (s : cstring) : option Z :=
  let '(neg, m, e) := scan_int s in
  if bool_decide (e = s) then None
  else if UINT64_MAX <? m then None
  else Some (if neg then u64 (- m) else m).

(* src/src/cli_args.cpp:60-65 CliArgs::get_int *)
Definition get_int (c : CliArgs) (name : cstring) (fb : Z) : cstring + Z :=
  match cli_get c name with
  | None => inr fb
  | Some v => match stoi v with Some n => inr n | None => inl (lit "invalid integer for --" ++ name) end
  end.

(* src/src/cli_args.cpp:67-86 CliArgs::get_u32 *)
Definition get_u32 (c : CliArgs) (name : cstring) (fb : Z) : cstring + Z :=
  match cli_get c name with
  | None => inr fb
  | Some v =>
      match stoul v with
      | Some u => if UINT32_MAX <? u then inl (lit "value for --" ++ name ++ lit " exceeds u32 range") else inr (u32 u)
      | None => inl (lit "invalid u32 for --" ++ name)
      end
  end.

(* src/src/cli_args.cpp:88-96 CliArgs::get_u64 *)
Definition get_u64 (c : CliArgs) (name : cstring) (fb : Z) : cstring + Z :=
  match cli_get c name with
  | None => inr fb
  | Some v => match stoul v with Some u => inr u | None => inl (lit "invalid u64 for --" ++ name) end
  end.

(** ** The beacon program *)

Section Program.
Context `{Hash} `{Rand}.

(** The return code, the key and the IV. *)
(* src/src/beacon_cli.cpp:42-58 *)
Definition derive_from_secret (secret key iv : list Z) : M (Z * list Z * list Z) :=
  let! '(rc, key) := sl_hkdf_sha256 secret None SL_KDF_LABEL_CLIENT_KEY key SL_AEAD_KEY_LEN in
  if negb (rc =? 0) then Ok (-1, key, iv)
  else
    let! '(rc, iv) := sl_hkdf_sha256 secret None SL_KDF_LABEL_CLIENT_IV iv SL_AEAD_IV_LEN in
    if negb (rc =? 0) then Ok (-1, key, iv) else Ok (0, key, iv).

(* src/src/beacon_cli.cpp:79-79 main *)
Definition cli_booleans : gset cstring := {[lit "no-ack"; lit "verbose"; lit "help"]}.

(** Either the exit code or the host, the port and the rest of the configuration; the random
    source. *)
(* src/src/beacon_cli.cpp:78-110 main *)
Definition cli_configure (argv : list cstring) (r : R) : M ((Z + cstring * Z * BeaconClientConfig * CliArgs) * R) :=
  match new_cli cli_booleans argv with
  | inl _ => Ok (inl 2, r)
  | inr args =>
      if cli_flag args (lit "help") then Ok (inl 0, r)
      else match cli_get args (lit "secret") with
           | None => Ok (inl 2, r)
           | Some secret =>
               match get_int args (lit "port") 4443 with
               | inl _ => Ok (inl 2, r)
               | inr port =>
                   match get_u32 args (lit "interval") 5000 with
                   | inl _ => Ok (inl 2, r)
                   | inr interval =>
                       match get_u32 args (lit "jitter") 500 with
                       | inl _ => Ok (inl 2, r)
                       | inr jitter =>
                           let! '(id, r) :=
                             match cli_get args (lit "client-id") with
                             | Some h => let! p := sl_id_from_hex (h ++ [0]) in Ok (match p with Some v => inr v | None => inl 2 end, r)
                             | None => let! '(o, r) := sl_id_random_u64 r in Ok (match o with Some v => inr v | None => inl 1 end, r)
                             end in
                           match id with
                           | inl rc => Ok (inl rc, r)
                           | inr client_id =>
                               let! '(rc, key, iv) := derive_from_secret secret (replicate 32 0) (replicate 12 0) in
                               if negb (rc =? 0) then Ok (inl 1, r)
                               else Ok (inr (get_string args (lit "host") (lit "127.0.0.1"), u16 port,
                                      mk_client_config client_id interval jitter 5000 3000 (negb (cli_flag args (lit "no-ack"))) [] key iv,
                                      args), r)
                           end
                       end
                   end
               end
           end
  end.
End Program.

(** *** The rest of [main] *)

Section Main.
Context `{Gcm} `{Hash} `{RandLaws R}.

(** What surrounds one call of [send_one]: whether a stop signal has arrived by the time the loop
    looks, the clock readings, the calls of send and the acknowledgement. *)
Record cli_round := mk_cli_round {
  rd_stop : bool; rd_t0 : Z; rd_wall : Z; rd_t1 : Z; rd_io : list send_outcome; rd_poll : Z; rd_recv : Z
}.

(** The bytes sent and the client; [None]: still running when the rounds end. *)
(* src/src/beacon_cli.cpp:131-136 main *)
Fixpoint send_counted (cfg : BeaconClientConfig) (count i : Z) (rounds : list cli_round) (out : list Z) (c : BeaconClient)
    : M (option (list Z * BeaconClient)) :=
  if i <? count then
    match rounds with
    | [] => Ok None
    | rd :: rounds =>
        if rd_stop rd then Ok (Some (out, c))
        else
          let! r := send_one cfg (rd_t0 rd) (rd_wall rd) (rd_t1 rd) (rd_io rd) (rd_poll rd) (rd_recv rd) c in
          match r with
          | None => Ok None
          | Some (ok, o, c) => if ok then send_counted cfg count (i + 1) rounds (out ++ o) c else Ok (Some (out ++ o, c))
          end
    end
  else Ok (Some (out, c)).

Definition set_running (c : BeaconClient) (b : bool) : BeaconClient := mk_beacon_client (fd_ c) (seq_ c) b (stats_ c).

(* src/src/beacon_client.cpp:209-211 BeaconClient::stop *)
Definition client_stop (c : BeaconClient) : BeaconClient := set_running c false.

(** A turn of [run]: [rd_stop] of the round says that a stop signal arrives before the loop reads
    [running_]; [tn_env] is what a reconnection meets. *)
Record cli_turn := mk_cli_turn { tn_round : cli_round; tn_env : list (bool * option (list address_try)); tn_fuel : nat }.

(** The loop of [run]. The descriptors closed are collected as well. *)
(* src/src/beacon_client.cpp:197-206 BeaconClient::run *)
Fixpoint run_turns (cfg : BeaconClientConfig) (turns : list cli_turn) (out closed : list Z) (rnd : R) (c : BeaconClient)
    : M (option (list Z * list Z * BeaconClient)) :=
  match turns with
  | [] => Ok None
  | t :: turns =>
      let rd := tn_round t in
      let c := if rd_stop rd then client_stop c else c in
      let! r := run_turn cfg (running_ c) (tn_env t) (rd_t0 rd) (rd_wall rd) (rd_t1 rd) (rd_io rd) (rd_poll rd) (rd_recv rd) (tn_fuel t) rnd c in
      match r with
      | None => Ok None
      | Some (go, o, cl, _, c, rnd) =>
          if go then run_turns cfg turns (out ++ o) (closed ++ cl) rnd c else Ok (Some (out ++ o, closed ++ cl, c))
      end
  end.

(* src/src/beacon_client.cpp:195-207 BeaconClient::run *)
Definition client_run (cfg : BeaconClientConfig) (turns : list cli_turn) (rnd : R) (c : BeaconClient) : M (option (list Z * list Z * BeaconClient)) :=
  run_turns cfg turns [] [] rnd (set_running c true).

(* src/src/beacon_client.cpp:58-60 BeaconClient::~BeaconClient *)
Definition client_destroy (c : BeaconClient) : list Z := if 0 <=? fd_ c then [fd_ c] else [].

(** The exit status, the bytes sent and the descriptors closed. The client's constructor draws
    from the random source and ignores the result. *)
(* src/src/beacon_cli.cpp:117-152 main *)
Definition cli_session (args : CliArgs) (cfg : BeaconClientConfig) (gai : option (list address_try)) (rounds : list cli_round)
    (turns : list cli_turn) (rnd : R) : M (option (Z * list Z * list Z * BeaconClientStats)) :=
  let '(_, rnd) := sl_rng_init rnd in
  let '(ok, closed, c) := connect gai new_beacon_client in
  if negb ok then Ok (Some (1, [], closed ++ client_destroy c, stats_ c))
  else
    match get_u32 args (lit "count") 0 with
    | inl _ => Ok (Some (2, [], closed ++ client_destroy c, stats_ c))
    | inr count =>
        if count =? 0 then
          let! r := client_run cfg turns rnd c in
          Ok (match r with None => None | Some (out, cl, c) => Some (0, out, closed ++ cl ++ client_destroy c, stats_ c) end)
        else
          let! r := send_counted cfg count 0 rounds [] c in
          Ok (match r with None => None | Some (out, c) => Some (0, out, closed ++ client_destroy c, stats_ c) end)
    end.

(* src/src/beacon_cli.cpp:78-152 main *)
Definition beacon_main (argv : list cstring) (gai : option (list address_try)) (rounds : list cli_round) (turns : list cli_turn) (rnd : R)
    : M (option (Z * list Z * list Z * BeaconClientStats)) :=
  let! '(r, rnd) := cli_configure argv rnd in
  match r with
  | inl rc => Ok (Some (rc, [], [], mk_client_stats 0 0 0 0 0))
  | inr (_, _, cfg, args) => cli_session args cfg gai rounds turns rnd
  end.

End Main.

(** ** The grammar *)

(** What an argument, or two of them, can be. *)
Inductive cli_item :=
  | OptEq (name val : cstring)
  | OptNext (name val : cstring)
  | BoolFlag (name : cstring)
  | Positional (a : cstring).

Definition item_args (i : cli_item) : list cstring :=
  match i with
  | OptEq name val => [dashes ++ name ++ 61 :: val]
  | OptNext name val => [dashes ++ name; val]
  | BoolFlag name => [dashes ++ name]
  | Positional a => [a]
  end.

Definition item_apply (c : CliArgs) (i : cli_item) : CliArgs :=
  match i with
  | OptEq name val | OptNext name val => set_value c name val
  | BoolFlag name => set_flag c name
  | Positional a => add_positional c a
  end.

Section Grammar.
Context (bf : gset cstring).

Definition item_ok (i : cli_item) : Prop :=
  match i with
  | OptEq name _ | OptNext name _ => (61 ∉ name) /\ (name ∉ bf)
  | BoolFlag name => (61 ∉ name) /\ (name ∈ bf)
  | Positional a => take 2 a <> dashes
  end.

Lemma strchr_none s c : c ∉ s -> strchr s c = None.
Proof.
  induction s as [|x s IH]; [done|]. rewrite not_elem_of_cons. intros [Hx Hs]. cbn [strchr].
  rewrite (proj2 (Z.eqb_neq x c)) by done. by rewrite IH.
Qed.

Lemma strchr_none_inv s c : strchr s c = None -> c ∉ s.
Proof.
  induction s as [|x s IH]; cbn [strchr]; [intros _; apply not_elem_of_nil|].
  destruct (Z.eqb_spec x c); [done|]. destruct (strchr s c) as [[]|]; [done|]. intros _. apply not_elem_of_cons. auto.
Qed.

(** An argument that begins with two dashes, and one that does not. *)
Lemma dashed_guard a : (len a <? 2) || negb (bool_decide (take 2 a = dashes)) = negb (bool_decide (take 2 a = dashes)).
Proof.
  destruct (Z.ltb_spec (len a) 2) as [H|]; [|done]. cbn [orb]. symmetry. apply negb_true_iff, bool_decide_eq_false. intros E.
  apply (f_equal length) in E. rewrite length_take in E. unfold len in H. change (length dashes) with 2%nat in E. lia.
Qed.

Lemma take_dashes name : take 2 (dashes ++ name) = dashes.
Proof. done. Qed.
Lemma drop_dashes name : drop 2 (dashes ++ name) = name.
Proof. done. Qed.

Lemma parse_item i args c :
  item_ok i -> parse_args bf (item_args i ++ args) c = parse_args bf args (item_apply c i).
Proof.
  destruct i as [name val|name val|name|a]; cbn [item_ok item_args item_apply app]; intros Hi; cbn [parse_args]; rewrite dashed_guard.
  - rewrite take_dashes, bool_decide_eq_true_2, drop_dashes by done. cbn [negb]. destruct Hi as [Hn Hb].
    rewrite strchr_first by done. by rewrite bool_decide_eq_false_2.
  - rewrite take_dashes, bool_decide_eq_true_2, drop_dashes by done. cbn [negb]. destruct Hi as [Hn Hb].
    rewrite strchr_none by done. by rewrite bool_decide_eq_false_2.
  - rewrite take_dashes, bool_decide_eq_true_2, drop_dashes by done. cbn [negb]. destruct Hi as [Hn Hb].
    rewrite strchr_none by done. by rewrite bool_decide_eq_true_2.
  - by rewrite bool_decide_eq_false_2.
Qed.

Lemma parse_items items : forall c,
  Forall item_ok items -> parse_args bf (concat (map item_args items)) c = inr (foldl item_apply c items).
Proof.
  induction items as [|i items IH]; intros c Hi; [done|]. apply Forall_cons in Hi as [Hi His]. cbn [map concat foldl].
  rewrite parse_item by done. by apply IH.
Qed.

Lemma dashed a : take 2 a = dashes -> a = dashes ++ drop 2 a.
Proof. intros E. by rewrite <- E, take_drop. Qed.

Lemma parse_args_items fuel : forall args c c',
  (length args <= fuel)%nat -> parse_args bf args c = inr c' ->
  exists items, Forall item_ok items /\ args = concat (map item_args items) /\ c' = foldl item_apply c items.
Proof.
  induction fuel as [|fuel IH]; intros [|a args] c c' Hf; cbn [length] in Hf; try lia; cbn [parse_args];
    try (intros [= <-]; by exists []).
  rewrite dashed_guard. case_bool_decide as Ed; cbn [negb].
  - destruct (strchr (drop 2 a) 61) as [[name val]|] eqn:Es.
    + case_bool_decide as Eb; [done|]. intros E. destruct (IH args _ _ ltac:(lia) E) as (items & Hi & -> & ->).
      apply strchr_some in Es as [Es Hn]. exists (OptEq name val :: items). split; [by constructor|]. split; [|done].
      cbn [map concat item_args app]. by rewrite <- Es, <- dashed.
    + apply strchr_none_inv in Es. case_bool_decide as Eb.
      * intros E. destruct (IH args _ _ ltac:(lia) E) as (items & Hi & -> & ->).
        exists (BoolFlag (drop 2 a) :: items). split; [by constructor|]. split; [|done].
        cbn [map concat item_args app]. by rewrite <- dashed.
      * destruct args as [|v args]; [done|]. cbn [length] in Hf. intros E.
        destruct (IH args _ _ ltac:(lia) E) as (items & Hi & -> & ->).
        exists (OptNext (drop 2 a) v :: items). split; [by constructor|]. split; [|done].
        cbn [map concat item_args app]. by rewrite <- dashed.
  - intros E. destruct (IH args _ _ ltac:(lia) E) as (items & Hi & -> & ->).
    exists (Positional a :: items). split; [by constructor|]. by split.
Qed.

(** The command-line parser accepts exactly the sequences of options, flags and
    positional arguments of its grammar, and what it stores is what they say, from left to
    right: the last value given to an option is the one it has, a boolean flag takes no
    value, another option takes the text after the first equals sign or the whole next
    argument, and the rest is positional. *)
Theorem cli_parse_exact p args c :
  new_cli bf (p :: args) = inr c <->
  exists items, Forall item_ok items /\ args = concat (map item_args items) /\ c = foldl item_apply (mk_cli p ∅ ∅ []) items.
Proof.
  cbn [new_cli]. split.
  - by apply (parse_args_items (length args)).
  - intros (items & Hi & -> & ->). by apply parse_items.
Qed.
End Grammar.

(** ** Numbers *)

Lemma dec_not_empty n : 0 <= n -> dec 20 n <> [].
Proof. intros Hn. by destruct (dec_head 20 n ltac:(lia) Hn) as (c & s & -> & _). Qed.

(** A decimal number within 32 bits is read as that number; a larger one is refused, not
    truncated. *)
Lemma get_u32_exact c name fb n :
  cli_get c name = Some (dec 20 n) -> is_u64 n ->
  get_u32 c name fb = if n <=? UINT32_MAX then inr n else inl (lit "value for --" ++ name ++ lit " exceeds u32 range").
Proof.
  intros Hg Hn. unfold get_u32, stoul. rewrite Hg.
  pose proof (scan_dec n ltac:(lia)) as Es. unfold dec_int in Es. rewrite (proj2 (Z.ltb_ge n 0)) in Es by lia. rewrite Es.
  rewrite bool_decide_eq_false_2 by (intros E; apply (dec_not_empty n); [lia|done]).
  rewrite (proj2 (Z.ltb_ge _ (Z.abs n))) by lia. rewrite Z.abs_eq by lia.
  destruct (Z.ltb_spec UINT32_MAX n), (Z.leb_spec n UINT32_MAX); try lia; [done|]. by rewrite u32_small by lia.
Qed.

(** Text after the digits is ignored, and a port outside 16 bits is cut down. *)
Example trailing_text_ignored : stoi (lit "4443x") = Some 4443.
Proof. reflexivity. Qed.
Example port_truncated : u16 70000 = 4464.
Proof. reflexivity. Qed.

(** An option that nobody asks for is accepted, and swallows the argument after it. *)
Example unknown_option_accepted :
  exists c, new_cli cli_booleans [lit "beacon_cli"; lit "--verbos"; lit "--no-ack"] = inr c /\
    cli_flag c (lit "no-ack") = false /\ cli_get c (lit "verbos") = Some (lit "--no-ack").
Proof. eexists. split; [vm_compute; reflexivity|]. by vm_compute. Qed.

(** ** From the command line to accepted beacons *)

Lemma id_from_hex_u64 h v : sl_id_from_hex h = Ok (Some v) -> is_u64 v.
Proof.
  unfold sl_id_from_hex. set (body := fun i v => _).
  assert (Hb : forall n i v, is_u64 v -> match for_ret n i body v with Ok (inl w) => is_u64 w | _ => True end).
  { induction n as [|n IH]; intros i v0 Hv; [done|]. cbn [for_ret]. unfold body at 1.
    destruct (load h i) as [c|]; [|done]. destruct (nibble c) as [d|]; [|done]. cbv beta iota. apply IH, u64_range. }
  specialize (Hb 16%nat 0 0 ltac:(lia)). destruct (for_ret 16 0 body 0) as [[w|]|]; [|done..]. cbv beta iota.
  destruct (load h 16) as [z|]; [|done]. case_match; [done|]. by intros [= <-].
Qed.

Section Composition.
Context `{HashLaws} `{RandLaws} `{GcmLaws}.

Lemma derived_iv secret key iv rc key' iv' :
  len key = 32 -> len iv = 12 -> derive_from_secret secret key iv = Ok (rc, key', iv') -> rc = 0 -> len iv' = SL_AEAD_IV_LEN.
Proof.
  intros Hk Hi. unfold derive_from_secret.
  destruct (sl_hkdf_sha256 secret None SL_KDF_LABEL_CLIENT_KEY key SL_AEAD_KEY_LEN) as [[rc1 k1]|]; [|done]. cbv beta iota.
  case_match; [by intros [= <- _ _]|].
  pose proof (hkdf_spec secret SL_KDF_LABEL_CLIENT_IV iv None SL_AEAD_IV_LEN ltac:(rewrite Hi; done) ltac:(done)) as E.
  destruct (if SL_AEAD_IV_LEN <=? 8160 then _ else _) as [okm|].
  - destruct E as [Hl ->]. destruct (hkdf_ctx _ _ _); cbv beta iota; [|by intros [= <- _ _]].
    intros [= <- <- <-] _. rewrite len_app, Hl, len_drop by (rewrite Hi; done). rewrite Hi. done.
  - destruct E as (out' & -> & _). cbv beta iota. by intros [= <- _ _].
Qed.

(** What the program's configuration is made of. *)
Lemma cli_configured argv r host port cfg args r' :
  cli_configure argv r = Ok (inr (host, port, cfg, args), r') ->
  exists secret, cli_get args (lit "secret") = Some secret /\
    derive_from_secret secret (replicate 32 0) (replicate 12 0) = Ok (0, cc_key cfg, cc_static_iv cfg) /\
    static_payload cfg = [] /\ is_u64 (cc_client_id cfg) /\ get_u32 args (lit "interval") 5000 = inr (interval_ms cfg).
Proof.
  unfold cli_configure. destruct (new_cli cli_booleans argv) as [|a]; [done|]. case_match; [done|].
  destruct (cli_get a (lit "secret")) as [secret|] eqn:Es; [|done]. destruct (get_int a (lit "port") 4443) as [|p]; [done|].
  destruct (get_u32 a (lit "interval") 5000) as [|iv] eqn:Ei; [done|]. destruct (get_u32 a (lit "jitter") 500) as [|j]; [done|].
  set (drawn := match cli_get a (lit "client-id") with Some h => _ | None => _ end).
  assert (Hid : match drawn with Ok (inr v, _) => is_u64 v | _ => True end).
  { unfold drawn. destruct (cli_get a (lit "client-id")) as [h|].
    - destruct (sl_id_from_hex (h ++ [0])) as [[v|]|] eqn:Eh; [|done..]. by eapply id_from_hex_u64.
    - destruct (id_random_nonzero r) as (o & r1 & -> & Hv). destruct o; [|done]. cbn. lia. }
  destruct drawn as [[[rc|id] r1]|]; [done| |done]. cbv beta iota.
  destruct (derive_from_secret secret (replicate 32 0) (replicate 12 0)) as [[[rc key] ivv]|] eqn:Ed; [|done]. cbv beta iota.
  destruct (Z.eqb_spec rc 0) as [->|]; [|done]. cbn [negb]. intros [= <- <- <- <- <-].
  exists secret. split; [done|]. split; [done|]. split; [done|]. by split.
Qed.

Definition secret_of (args : CliArgs) : cstring := default [] (cli_get args (lit "secret")).

(** From the command line to accepted beacons. If the program accepts its arguments and
    the interval is one the protocol allows, every beacon it then sends to a server whose key
    material was derived from the same secret is authenticated and accepted, in order, and
    the server holds the client as alive. *)
Theorem cli_beacons_accepted argv r host port cfg args r' scfg flags fd rounds :
  cli_configure argv r = Ok (inr (host, port, cfg, args), r') ->
  interval_ms cfg = 0 \/ 100 <= interval_ms cfg <= 600000 ->
  derive_from_secret (secret_of args) (replicate 32 0) (replicate 12 0) = Ok (0, bs_key scfg, bs_static_iv scfg) ->
  (forall iv aad pt, bytes_ok pt -> exists ct tag, gcm_seal (bs_key scfg) iv aad pt = GcmSealed ct tag /\ bytes_ok ct /\ bytes_ok tag) ->
  flags = 0 \/ flags = SL_BEACON_FLAG_REQUEST_ACK ->
  1 + len rounds < 18446744073709551616 -> Forall (round_ok cfg scfg) rounds ->
  exists c clients, exchange cfg scfg flags (set_fd new_beacon_client fd) ∅ rounds =
      Ok (Some (replicate (length rounds) kAccepted, c, clients)) /\
    (rounds <> [] -> exists cs, clients !! cc_client_id cfg = Some cs /\ alive cs = true /\ last_seq cs = len rounds).
Proof.
  intros Hcli Hint Hd Hseal Hfl Hn Hr.
  destruct (cli_configured _ _ _ _ _ _ _ Hcli) as (secret & Es & Ed & Hpay & Hid & Hiv).
  unfold secret_of in Hd. rewrite Es in Hd. change (default [] (Some secret)) with secret in Hd. rewrite Ed in Hd.
  injection Hd as Hk Hv.
  assert (Hcfg : client_cfg_ok cfg).
  { split; [done|]. split; [destruct Hint as [->|]; lia|]. split; [done|]. rewrite Hpay. split; [apply bytes_ok_nil|].
    by apply (derived_iv secret (replicate 32 0) (replicate 12 0) 0 (cc_key cfg)). }
  assert (Hp : paired cfg scfg) by (split; [done|]; split; [done|]; by rewrite Hk).
  destruct (exchange_spec cfg scfg flags rounds (set_fd new_beacon_client fd) ∅ (fun _ => []) Hcfg Hp Hfl server_ok_empty)
    as (c & clients & E & Hs & Hl); [done|done|done|done|]. cbn [set_fd new_beacon_client seq_] in Hs.
  exists c, clients. split; [exact E|]. intros Hne. destruct (last rounds) as [x|] eqn:Ex; [|by apply last_None in Ex].
  destruct (Hl x eq_refl) as (cs & E1 & E2 & _ & E4). exists cs. split; [done|]. split; [done|]. lia.
Qed.
End Composition.

(** ** Concrete runs *)

Definition sample_argv : list cstring := [lit "beacon_cli"; lit "--secret=s3"; lit "--port"; lit "4000"; lit "--client-id=00000000000000ab"].

Definition sample_material : list Z * list Z :=
  match derive_from_secret (lit "s3") (replicate 32 0) (replicate 12 0) with Ok (_, k, iv) => (k, iv) | Fault => ([], []) end.
Definition sample_cli_client : BeaconClientConfig :=
  mk_client_config 171 5000 500 5000 3000 true [] sample_material.1 sample_material.2.
Definition sample_cli_server : BeaconServerConfig := mk_server_config 15000 30000 sample_material.1 sample_material.2.

Lemma sample_accepted :
  exists args, cli_configure sample_argv [] = Ok (inr (lit "127.0.0.1", 4000, sample_cli_client, args), []) /\ secret_of args = lit "s3".
Proof. eexists. split; [vm_compute; reflexivity|]. by vm_compute. Qed.

Lemma cli_parse_exact_witness :
  exists c, new_cli cli_booleans [lit "p"; lit "--host=h"; lit "--no-ack"; lit "x"; lit "--port"; lit "--1"] = inr c /\
    cli_get c (lit "port") = Some (lit "--1").
Proof.
  exists (foldl item_apply (mk_cli (lit "p") ∅ ∅ []) [OptEq (lit "host") (lit "h"); BoolFlag (lit "no-ack"); Positional (lit "x"); OptNext (lit "port") (lit "--1")]).
  split; [|by vm_compute].
  apply cli_parse_exact.
  exists [OptEq (lit "host") (lit "h"); BoolFlag (lit "no-ack"); Positional (lit "x"); OptNext (lit "port") (lit "--1")].
  split; [|split; reflexivity].
  repeat constructor; try (by apply (bool_decide_unpack _); vm_compute).
Defined.

Lemma cli_beacons_accepted_witness :
  exists c clients, exchange sample_cli_client sample_cli_server 0 (set_fd new_beacon_client 4) ∅ [mk_round 1000 [Sent 56] 1500 10] =
    Ok (Some ([kAccepted], c, clients)).
Proof.
  destruct sample_accepted as (args & E & Es).
  destruct (cli_beacons_accepted sample_argv [] (lit "127.0.0.1") 4000 sample_cli_client args [] sample_cli_server 0 4 [mk_round 1000 [Sent 56] 1500 10])
    as (c & clients & Ex & _).
  - exact E.
  - right. cbn. lia.
  - rewrite Es. vm_compute. reflexivity.
  - intros. by apply toy_seals.
  - by left.
  - reflexivity.
  - constructor; [|constructor]. unfold round_ok. cbn [client_wall server_wall send_io]. split; [lia|]. split; [lia|]. split; [by vm_compute|]. by exists 56.
  - exists c, clients. exact Ex.
Defined.

(** Two runs with the same secret use the same key and IV and number their beacons from 1, so
    that their first beacons are sealed under one key and nonce. *)
Example runs_share_nonces :
  exists a1 a2 c1 c2 r1 r2 h1 h2 p1 p2,
    cli_configure [lit "b"; lit "--secret=s3"; lit "--client-id=0000000000000001"] [] = Ok (inr (h1, p1, c1, a1), r1) /\
    cli_configure [lit "b"; lit "--secret=s3"; lit "--client-id=0000000000000002"] [] = Ok (inr (h2, p2, c2, a2), r2) /\
    cc_client_id c1 <> cc_client_id c2 /\ cc_key c1 = cc_key c2 /\ cc_static_iv c1 = cc_static_iv c2 /\ seq_ new_beacon_client = 1.
Proof. eexists _, _, _, _, _, _, _, _, _, _. split; [vm_compute; reflexivity|]. split; [vm_compute; reflexivity|]. by vm_compute. Qed.

(** An interval the protocol refuses is accepted on the command line. *)
Example short_interval_accepted :
  exists c a r h p, cli_configure [lit "b"; lit "--secret=s3"; lit "--client-id=0000000000000001"; lit "--interval=50"] [] = Ok (inr (h, p, c, a), r) /\
    interval_ms c = 50.
Proof. eexists _, _, _, _, _. split; [vm_compute; reflexivity|]. by vm_compute. Qed.

(** ** The program's run *)

Section MainSpec.
Context `{Gcm} `{Hash} `{RandLaws R}.

(** Sending keeps the descriptor and counts at most one beacon. *)
Definition one_more (c c' : BeaconClient) : Prop :=
  fd_ c' = fd_ c /\ (beacons_sent (stats_ c') = beacons_sent (stats_ c) \/ beacons_sent (stats_ c') = u64 (beacons_sent (stats_ c) + 1)).

Lemma send_beacon_keeps cfg wall flags io c ok o c' :
  send_beacon_locked cfg wall flags io c = Ok (Some (ok, o, c')) -> one_more c c'.
Proof.
  unfold send_beacon_locked, one_more. destruct (make_beacon _ _ _ _) as [b|]; [|done]. cbv zeta.
  destruct (sl_beacon_seal _ _ _ _ _) as [[[n|] w]|]; [| |done]; [|intros [= <- <- <-]; auto].
  destruct (load_bytes _ _ _) as [bs|]; [|done]. destruct (Framing.encode _ _ _) as [frame|]; [|done].
  destruct (write_all _ _ _) as [[[] sent]|]; [| |done]; intros [= <- <- <-]; cbn; auto.
Qed.

Lemma send_one_keeps cfg t0 wall t1 io pr n c ok o c' :
  send_one cfg t0 wall t1 io pr n c = Ok (Some (ok, o, c')) -> one_more c c'.
Proof.
  unfold send_one. destruct (send_beacon_locked _ _ _ _ _) as [[[[b out] c1]|]|] eqn:E; [|done..].
  apply send_beacon_keeps in E. unfold one_more in *. destruct b; [|by intros [= <- <- <-]].
  destruct (request_ack cfg); [|by intros [= <- <- <-]]. unfold wait_for_ack.
  destruct (pr <=? 0); [by intros [= <- <- <-]|]. destruct (n <=? 0); by intros [= <- <- <-].
Qed.

(** The counted loop sends no more than it is asked to, on one descriptor. *)
Lemma send_counted_spec cfg count : forall rounds i out c out' c',
  0 <= beacons_sent (stats_ c) <= i -> i <= count -> count < 2 ^ 64 ->
  send_counted cfg count i rounds out c = Ok (Some (out', c')) ->
  fd_ c' = fd_ c /\ 0 <= beacons_sent (stats_ c') <= count.
Proof.
  induction rounds as [|rd rounds IH]; intros i out c out' c' Hb Hi Hc; cbn [send_counted];
    (destruct (Z.ltb_spec i count); [|intros [= <- <-]; split; [done|lia]]); [done|].
  destruct (rd_stop rd); [intros [= <- <-]; split; [done|lia]|].
  destruct (send_one _ _ _ _ _ _ _ c) as [[[[ok o] c1]|]|] eqn:E; [|done..]. apply send_one_keeps in E as [Ef Es].
  assert (Hs : 0 <= beacons_sent (stats_ c1) <= i + 1) by (destruct Es as [->| ->]; [lia|rewrite u64_small; lia]).
  destruct ok; [|intros [= <- <-]; split; [done|lia]]. intros E. rewrite <- Ef. eapply IH; [| |done|exact E]; lia.
Qed.

(** It ends when the calls it makes end. *)
Lemma send_counted_returns cfg count : forall rounds i out c,
  count <= i + len rounds ->
  (forall rd c, rd ∈ rounds -> exists r, send_one cfg (rd_t0 rd) (rd_wall rd) (rd_t1 rd) (rd_io rd) (rd_poll rd) (rd_recv rd) c = Ok (Some r)) ->
  exists r, send_counted cfg count i rounds out c = Ok (Some r).
Proof.
  induction rounds as [|rd rounds IH]; intros i out c Hn Hr; cbn [send_counted]; (destruct (Z.ltb_spec i count); [|eauto]).
  - rewrite len_nil in Hn. lia.
  - rewrite len_cons in Hn. destruct (rd_stop rd); [eauto|].
    destruct (Hr rd c ltac:(apply list_elem_of_here)) as [[[ok o] c1] ->]. destruct ok; [|eauto].
    apply IH; [lia|]. intros. apply Hr. by apply list_elem_of_further.
Qed.

(** The sockets a connection attempt opens: one for each address up to the one that connects. *)
Fixpoint sockets_opened (ts : list address_try) : list Z :=
  match ts with
  | [] => []
  | t :: ts =>
      if try_socket t <? 0 then sockets_opened ts
      else match try_addresses [t] with
           | (Some _, _) => [try_socket t]
           | (None, _) => try_socket t :: sockets_opened ts
           end
  end.

Lemma connect_sockets gai ok closed c :
  connect gai new_beacon_client = (ok, closed, c) -> closed ++ client_destroy c = sockets_opened (default [] gai).
Proof.
  unfold connect. cbn [fd_ new_beacon_client Z.leb Z.compare set_fd].
  destruct gai as [[|t ts]|]; [by intros [= <- <- <-]| |by intros [= <- <- <-]]. cbn [default]. change (id ?l) with l.
  generalize (t :: ts). clear t ts. intros ts.
  destruct (try_addresses ts) as [r more] eqn:E. intros [= <- <- <-]. unfold client_destroy. cbn [fd_ set_fd app].
  assert (Hr : match r with Some fd => 0 <= fd | None => True end /\ sockets_opened ts = more ++ match r with Some fd => [fd] | None => [] end).
  { revert r more E. induction ts as [|t ts IH]; intros r more E; cbn [try_addresses] in E; [by injection E as <- <-|].
    destruct (try_addresses ts) as [r' more'] eqn:E'. destruct (IH r' more' eq_refl) as [Hr Hs]. cbn [sockets_opened try_addresses fst snd] in *.
    rewrite Hs. destruct (Z.ltb_spec (try_socket t) 0); [by injection E as <- <-|].
    repeat match type of E with context [if ?b then _ else _] => destruct b end; injection E as <- <-; try done; by split. }
  destruct Hr as [Hr ->]. destruct r as [fd|]; cbn [default]; [change (id fd) with fd; by rewrite (proj2 (Z.leb_le _ _))|done].
Qed.

(** A run with a count that gets its connection exits with 0, closes every socket it opened
    exactly once, and has sent no more beacons than asked. *)
Theorem counted_run args cfg gai rounds turns rnd count closed c :
  get_u32 args (lit "count") 0 = inr count -> 0 < count <= UINT32_MAX -> count <= len rounds ->
  (forall rd c, rd ∈ rounds -> exists r, send_one cfg (rd_t0 rd) (rd_wall rd) (rd_t1 rd) (rd_io rd) (rd_poll rd) (rd_recv rd) c = Ok (Some r)) ->
  connect gai new_beacon_client = (true, closed, c) ->
  exists out stats, cli_session args cfg gai rounds turns rnd = Ok (Some (0, out, sockets_opened (default [] gai), stats)) /\
    0 <= beacons_sent stats <= count.
Proof.
  intros Hcount Hc Hl Hr Hconn. unfold cli_session. destruct (sl_rng_init rnd) as [rc rnd']. rewrite Hconn, Hcount. cbn [negb].
  rewrite (proj2 (Z.eqb_neq count 0)) by lia.
  destruct (send_counted_returns cfg count rounds 0 [] c ltac:(lia) Hr) as [[out c'] E]. rewrite E.
  assert (Hz : beacons_sent (stats_ c) = 0).
  { revert Hconn. unfold connect. destruct gai as [[|]|]; [done| |done]. destruct (try_addresses _). by intros [= _ _ <-]. }
  destruct (send_counted_spec cfg count rounds 0 [] c out c') as [Ef Hb]; [lia|lia|lia|done|].
  exists out, (stats_ c'). split; [|done]. do 3 f_equal. rewrite <- (connect_sockets _ _ _ _ Hconn). unfold client_destroy. by rewrite Ef.
Qed.

(** [run] sets its flag before it looks at it: a stop signal between the installation of the
    handlers and the call of [run] is forgotten. *)
Lemma stop_before_run_lost cfg turns rnd c : client_run cfg turns rnd (client_stop c) = client_run cfg turns rnd c.
Proof. done. Qed.

End MainSpec.
