(* ===== verification/Tracing.v ===== *)
(** Spans ([src/span.cpp]), the sampler ([src/sl_trace_sampler.c]), the tracer
    ([src/tracer.cpp]) and the exporters ([src/span_exporter.cpp]), over the trace contexts of
    Trace.v. Times are nanoseconds since the epoch and arguments, as is what the random source
    delivers. An exporter is an instance of the class [SpanExporter], and the tracer works with
    any of them. The file opens with a reference for the JSON texts the exporters write:
    values, the printer that lays them out without spaces, a reader of that part of RFC 8259
    (texts in UTF-8, without spaces, fractions and exponents), and the proof that the reader gives
    back what was printed. *)

From Stdlib Require Import String.
From S2P Require Import Prelude Ctype KeySched Hex Trace Sanitize StringUtil Double.
Local Open Scope Z_scope.

Unset Elimination Schemes.
Inductive json :=
  | JStr (s : list Z)
  | JNum (n : Z)
  | JObj (members : list (list Z * json))
  | JArr (elems : list json).
Set Elimination Schemes.

Section JsonInd.
Context (P : json -> Prop).
Context (Hstr : forall s, P (JStr s)) (Hnum : forall n, P (JNum n)).
Context (Hobj : forall ms, Forall (fun m => P m.2) ms -> P (JObj ms)) (Harr : forall es, Forall P es -> P (JArr es)).

Fixpoint json_ind' (v : json) : P v :=
  match v with
  | JStr s => Hstr s
  | JNum n => Hnum n
  | JObj ms => Hobj ms ((fix go (l : list (list Z * json)) : Forall (fun m => P m.2) l :=
      match l with [] => Forall_nil_2 _ | m :: l => Forall_cons_2 _ _ _ (json_ind' m.2) (go l) end) ms)
  | JArr es => Harr es ((fix go (l : list json) : Forall P l :=
      match l with [] => Forall_nil_2 _ | m :: l => Forall_cons_2 _ _ _ (json_ind' m) (go l) end) es)
  end.
End JsonInd.

(** ** Printing *)

Definition escape_byte (c : Z) : list Z :=
  if c =? 34 then [92; 34]
  else if c =? 92 then [92; 92]
  else if c =? 10 then [92; 110]
  else if c =? 13 then [92; 114]
  else if c =? 9 then [92; 116]
  else if c <? 32 then [92; 117; 48; 48; hex_digit (c / 16); hex_digit (c mod 16)]
  else [c].

Definition quoted (s : list Z) : list Z := 34 :: (s ≫= escape_byte) ++ [34].

(** The texts with commas between them. *)
Fixpoint commas (l : list (list Z)) : list Z :=
  match l with [] => [] | [x] => x | x :: l => x ++ 44 :: commas l end.

Fixpoint print_json (v : json) : list Z :=
  match v with
  | JStr s => quoted s
  | JNum n => dec_int n
  | JObj ms => 123 :: commas (map (fun m => quoted m.1 ++ 58 :: print_json m.2) ms) ++ [125]
  | JArr es => 91 :: commas (map print_json es) ++ [93]
  end.

(** ** Reading *)

Definition unhex2 (a b : Z) : option Z :=
  match nibble a, nibble b with Some x, Some y => Some (x * 16 + y) | _, _ => None end.

(** After the opening quote: the string and what follows the closing one. *)
Fixpoint read_string (s : list Z) : option (list Z * list Z) :=
  match s with
  | [] => None
  | c :: r =>
      if c =? 34 then Some ([], r)
      else if c =? 92 then
        match r with
        | e :: r =>
            let simple b := match read_string r with Some (t, k) => Some (b :: t, k) | None => None end in
            if e =? 34 then simple 34
            else if e =? 92 then simple 92
            else if e =? 110 then simple 10
            else if e =? 114 then simple 13
            else if e =? 116 then simple 9
            else if e =? 117 then
              match r with
              | z1 :: z2 :: h :: l :: r =>
                  if (z1 =? 48) && (z2 =? 48) then
                    match unhex2 h l, read_string r with Some b, Some (t, k) => Some (utf8_encode b ++ t, k) | _, _ => None end
                  else None
              | _ => None
              end
            else None
        | [] => None
        end
      else if c <? 32 then None
      else match read_string r with Some (t, k) => Some (c :: t, k) | None => None end
  end.

(** A number: a sign or not, and digits, of which the first is 0 only if it is the only one. *)
Definition read_number (s : list Z) : option (Z * list Z) :=
  let '(neg, t) := match s with c :: t => if c =? 45 then (true, t) else (false, s) | [] => (false, s) end in
  match t with
  | d :: u =>
      if d =? 48 then match u with e :: _ => if isdigit e then None else Some (0, u) | [] => Some (0, u) end
      else if isdigit d then let '(m, k) := read_digits10 0 t in Some (if (neg : bool) then - m else m, k)
      else None
  | [] => None
  end.

Fixpoint read_json (fuel : nat) (s : list Z) : option (json * list Z) :=
  match fuel with
  | O => None
  | S fuel =>
      match s with
      | [] => None
      | c :: r =>
          if c =? 34 then match read_string r with Some (t, k) => Some (JStr t, k) | None => None end
          else if c =? 123 then
            match r with
            | d :: k => if d =? 125 then Some (JObj [], k)
                        else match read_members fuel r with Some (ms, k) => Some (JObj ms, k) | None => None end
            | [] => None
            end
          else if c =? 91 then
            match r with
            | d :: k => if d =? 93 then Some (JArr [], k)
                        else match read_elems fuel r with Some (es, k) => Some (JArr es, k) | None => None end
            | [] => None
            end
          else match read_number s with Some (n, k) => Some (JNum n, k) | None => None end
      end
  end
with read_members (fuel : nat) (s : list Z) : option (list (list Z * json) * list Z) :=
  match fuel with
  | O => None
  | S fuel =>
      match s with
      | q :: r =>
          if q =? 34 then
            match read_string r with
            | Some (name, c :: r) =>
                if c =? 58 then
                  match read_json fuel r with
                  | Some (v, d :: k) =>
                      if d =? 125 then Some ([(name, v)], k)
                      else if d =? 44 then match read_members fuel k with Some (ms, k) => Some ((name, v) :: ms, k) | None => None end
                      else None
                  | _ => None
                  end
                else None
            | _ => None
            end
          else None
      | [] => None
      end
  end
with read_elems (fuel : nat) (s : list Z) : option (list json * list Z) :=
  match fuel with
  | O => None
  | S fuel =>
      match read_json fuel s with
      | Some (v, d :: k) =>
          if d =? 93 then Some ([v], k)
          else if d =? 44 then match read_elems fuel k with Some (es, k) => Some (v :: es, k) | None => None end
          else None
      | _ => None
      end
  end.

(** A JSON text is UTF-8, and one value from its first byte to its last, which bounds the depth. *)
Definition read_text (s : list Z) : option json :=
  if utf8_all (S (length s)) s then
    match read_json (length s) s with Some (v, []) => Some v | _ => None end
  else None.

(** ** Texts in UTF-8 *)

Definition utf8 (l : list Z) : Prop := exists cps, Forall scalar cps /\ l = concat (map utf8_encode cps).

Lemma utf8_encode_bytes cp : scalar cp -> bytes_ok (utf8_encode cp).
Proof.
  unfold scalar. intros Hc. unfold utf8_encode.
  destruct (Z.ltb_spec cp 0x80); [|destruct (Z.ltb_spec cp 0x800); [|destruct (Z.ltb_spec cp 0x10000)]];
    repeat constructor; Z.div_mod_to_equations; lia.
Qed.

Lemma utf8_bytes l : utf8 l -> bytes_ok l.
Proof.
  intros (cps & Hc & ->). induction Hc as [|cp cps Hs _ IH]; [constructor|]. cbn [map concat].
  apply bytes_ok_app; [by apply utf8_encode_bytes|done].
Qed.

Lemma utf8_app l k : utf8 l -> utf8 k -> utf8 (l ++ k).
Proof.
  intros (c1 & H1 & ->) (c2 & H2 & ->). exists (c1 ++ c2). split; [by apply Forall_app|]. by rewrite map_app, concat_app.
Qed.

Definition ascii (l : list Z) : Prop := Forall (fun c => 0 <= c < 128) l.

Lemma ascii_utf8 l : ascii l -> utf8 l.
Proof.
  intros Hl. exists l. split; [eapply Forall_impl; [exact Hl|]; intros c Hc; cbv beta in Hc; left; lia|].
  induction Hl as [|c l Hc _ IH]; [done|]. cbn [map concat]. rewrite utf8_encode_1 by lia. cbn [app]. by rewrite <- IH.
Qed.

Lemma utf8_checked l : bytes_ok l -> utf8_all (S (length l)) l = true -> utf8 l.
Proof. intros Hb. by apply utf8_all_exact; [lia|]. Qed.

Lemma utf8_check l : utf8 l -> utf8_all (S (length l)) l = true.
Proof. intros Hu. apply utf8_all_exact; [lia|by apply utf8_bytes|done]. Qed.

(** A character is escaped by ASCII or printed as it is. *)
Lemma escape_encode cp : scalar cp -> utf8 (utf8_encode cp ≫= escape_byte).
Proof.
  intros Hs. assert (H0 : 0 <= cp) by (unfold scalar in Hs; lia). destruct (Z.ltb_spec cp 0x80) as [H|H].
  - rewrite utf8_encode_1 by lia. cbn [mbind list_bind]. rewrite app_nil_r. apply ascii_utf8. unfold escape_byte.
    assert (Hd : forall v, 0 <= v < 16 -> 0 <= hex_digit v < 128) by (intros v Hv; unfold hex_digit; destruct (Z.ltb_spec v 10); lia).
    repeat case_match; repeat constructor; try lia; apply Hd; Z.div_mod_to_equations; lia.
  - assert (Hbig : Forall (fun c => 128 <= c) (utf8_encode cp)).
    { unfold scalar in Hs. unfold utf8_encode. rewrite (proj2 (Z.ltb_ge _ _)) by lia.
      destruct (Z.ltb_spec cp 0x800); [|destruct (Z.ltb_spec cp 0x10000)]; repeat constructor; Z.div_mod_to_equations; lia. }
    assert (E : forall l, Forall (fun c => 128 <= c) l -> l ≫= escape_byte = l).
    { induction 1 as [|c l Hc _ IH]; [done|]. rewrite bind_cons, IH. unfold escape_byte.
      rewrite !(proj2 (Z.eqb_neq c _)), (proj2 (Z.ltb_ge c 32)) by lia. done. }
    rewrite E by done. exists [cp]. split; [by constructor|]. cbn. by rewrite app_nil_r.
Qed.

Lemma quoted_utf8 s : utf8 s -> utf8 (quoted s).
Proof.
  intros (cps & Hc & ->). unfold quoted. change (34 :: ?x) with ([34] ++ x).
  apply utf8_app; [by apply ascii_utf8; repeat constructor; lia|]. apply utf8_app; [|by apply ascii_utf8; repeat constructor; lia].
  induction Hc as [|cp cps Hs _ IH]; [by exists []|]. cbn [map concat]. rewrite bind_app.
  apply utf8_app; [by apply escape_encode|done].
Qed.

Lemma commas_utf8 l : Forall utf8 l -> utf8 (commas l).
Proof.
  induction 1 as [|x l Hx Hl IH]; [by exists []|]. destruct l as [|y l]; [done|].
  change (commas (x :: y :: l)) with (x ++ [44] ++ commas (y :: l)). apply utf8_app; [done|].
  apply utf8_app; [by apply ascii_utf8; repeat constructor; lia|done].
Qed.

Lemma dec_ascii fuel n : 0 <= n -> ascii (dec fuel n).
Proof.
  revert n. induction fuel as [|f IH]; intros n Hn; cbn [dec]; [constructor|]. apply Forall_app. split.
  - case_match; [constructor|]. apply IH. apply Z.div_pos; lia.
  - repeat constructor; pose proof (Z.mod_pos_bound n 10); lia.
Qed.

(** ** What is printed is read back *)

Lemma nibble_hex v : 0 <= v < 16 -> nibble (hex_digit v) = Some v.
Proof. intros Hv. assert (H : Forall (fun v => nibble (hex_digit v) = Some v) (seqZ 0 16)) by by_deciding.
  rewrite Forall_forall in H. apply H. apply elem_of_seqZ. lia. Qed.

Lemma read_string_quoted s rest : bytes_ok s -> read_string ((s ≫= escape_byte) ++ 34 :: rest) = Some (s, rest).
Proof.
  induction 1 as [|c s Hc _ IH]; [done|]. rewrite bind_cons, <- app_assoc. unfold escape_byte at 1.
  destruct (Z.eqb_spec c 34) as [->|H1]; [cbn [app read_string]; simpl; by rewrite IH|].
  destruct (Z.eqb_spec c 92) as [->|H2]; [cbn [app read_string]; simpl; by rewrite IH|].
  destruct (Z.eqb_spec c 10) as [->|H3]; [cbn [app read_string]; simpl; by rewrite IH|].
  destruct (Z.eqb_spec c 13) as [->|H4]; [cbn [app read_string]; simpl; by rewrite IH|].
  destruct (Z.eqb_spec c 9) as [->|H5]; [cbn [app read_string]; simpl; by rewrite IH|].
  destruct (Z.ltb_spec c 32) as [H6|H6].
  - cbn [app read_string]. simpl. unfold unhex2. rewrite !nibble_hex by (Z.div_mod_to_equations; lia). rewrite IH.
    replace (c / 16 * 16 + c mod 16) with c by (Z.div_mod_to_equations; lia). by rewrite utf8_encode_1 by lia.
  - cbn [app read_string]. rewrite (proj2 (Z.eqb_neq c 34)), (proj2 (Z.eqb_neq c 92)), (proj2 (Z.ltb_ge c 32)) by done. by rewrite IH.
Qed.

Fixpoint json_size (v : json) : nat :=
  match v with
  | JStr _ | JNum _ => 1
  | JObj ms => S (foldr (fun m n => S (json_size m.2 + n)) O ms)
  | JArr es => S (foldr (fun e n => S (json_size e + n)) O es)
  end.

Fixpoint json_ok (v : json) : Prop :=
  match v with
  | JStr s => utf8 s
  | JNum n => Z.abs n < 10 ^ 20
  | JObj ms => foldr (fun m p => (utf8 m.1 /\ json_ok m.2) /\ p) True ms
  | JArr es => foldr (fun e p => json_ok e /\ p) True es
  end.

(** What may follow a value: not a digit. *)
Definition closes (rest : list Z) : Prop := match rest with [] => True | c :: _ => isdigit c = false end.

Lemma read_digits_stop s n rest : read_digits10 0 s = (n, []) -> closes rest -> read_digits10 0 (s ++ rest) = (n, rest).
Proof.
  intros E Hc. rewrite (read_digits_app _ _ _ _ E). destruct rest as [|c rest]; [done|]. cbn in *. by rewrite Hc.
Qed.

(** The first digit of a positive number is not 0. *)
Lemma dec_head_pos fuel : forall n, 0 < n < 10 ^ Z.of_nat fuel -> exists c s, dec fuel n = c :: s /\ isdigit c = true /\ c <> 48.
Proof.
  induction fuel as [|f IH]; intros n Hn; [cbn in Hn; lia|]. cbn [dec].
  pose proof (Z.mod_pos_bound n 10 ltac:(lia)). destruct (Z.ltb_spec n 10).
  - eexists _, _. split; [reflexivity|]. rewrite Z.mod_small by lia. split; [apply digit_isdigit; lia|lia].
  - destruct (IH (n / 10)) as (c & s & -> & Hc & Hne); [|by eexists _, _].
    rewrite Nat2Z.inj_succ, Z.pow_succ_r in Hn by lia. split; [apply Z.div_str_pos; lia|apply Z.div_lt_upper_bound; lia].
Qed.

Lemma read_number_dec n rest : Z.abs n < 10 ^ 20 -> closes rest -> read_number (dec_int n ++ rest) = Some (n, rest).
Proof.
  intros Hn Hr. unfold dec_int, read_number. destruct (Z.ltb_spec n 0) as [H|H].
  - cbn [app]. change (45 =? 45) with true. cbv beta iota. destruct (dec_head_pos 20 (- n)) as (c & s & E & Hc & Hne); [simpl; lia|].
    pose proof (read_dec 20 (- n) ltac:(lia) ltac:(simpl; lia)) as Ed. apply (read_digits_stop _ _ rest) in Ed; [|done].
    rewrite E in Ed |- *. cbn [app] in *. rewrite (proj2 (Z.eqb_neq c 48)), Hc, Ed by done. do 2 f_equal. lia.
  - destruct (decide (n = 0)) as [->|Hn0].
    { change (dec 20 0) with [48]. cbn [app]. change (48 =? 45) with false. change (48 =? 48) with true. cbv beta iota.
      destruct rest as [|e rest]; [done|]. cbn [closes] in Hr. by rewrite Hr. }
    destruct (dec_head_pos 20 n) as (c & s & E & Hc & Hne); [simpl; lia|].
    pose proof (read_dec 20 n ltac:(lia) ltac:(simpl; lia)) as Ed. apply (read_digits_stop _ _ rest) in Ed; [|done].
    rewrite E in Ed |- *. cbn [app] in *. destruct (isdigit_isspace c Hc) as (_ & Hm & _).
    rewrite (proj2 (Z.eqb_neq c 45)), (proj2 (Z.eqb_neq c 48)) by done. rewrite Hc, Ed. done.
Qed.

Lemma read_quoted fuel s rest : bytes_ok s -> read_json (S fuel) (quoted s ++ rest) = Some (JStr s, rest).
Proof. intros Hs. unfold quoted. cbn [app read_json]. simpl. rewrite <- app_assoc. cbn [app]. by rewrite read_string_quoted. Qed.

Lemma read_members_step fuel name v d rest :
  bytes_ok name -> read_json fuel (print_json v ++ d :: rest) = Some (v, d :: rest) ->
  read_members (S fuel) ((quoted name ++ 58 :: print_json v) ++ d :: rest) =
    if d =? 125 then Some ([(name, v)], rest)
    else if d =? 44 then match read_members fuel rest with Some (ms, k) => Some ((name, v) :: ms, k) | None => None end
    else None.
Proof.
  intros Hn Hv. unfold quoted. cbn [app read_members]. simpl. rewrite <- !app_assoc. cbn [app]. rewrite read_string_quoted by done.
  simpl. by rewrite Hv.
Qed.

Lemma dec_int_head n : exists c l, dec_int n = c :: l /\ (c = 45 \/ 48 <= c <= 57).
Proof.
  unfold dec_int. destruct (Z.ltb_spec n 0); [eexists _, _; split; [reflexivity|by left]|].
  destruct (dec_head 20 n) as (c & l & -> & Hc); [lia..|]. eexists _, _. split; [reflexivity|]. right.
  unfold isdigit in Hc. apply andb_prop in Hc as [H1%Z.leb_le H2%Z.leb_le]. lia.
Qed.

Lemma print_not_empty v : exists c l, print_json v = c :: l /\ c <> 93.
Proof.
  destruct v as [s|n|ms|es]; cbn [print_json]; [by eexists _, _| |by eexists _, _..].
  destruct (dec_int_head n) as (c & l & -> & Hc). eexists _, _. split; [reflexivity|]. lia.
Qed.

Definition reads_back (v : json) : Prop :=
  forall fuel rest, json_ok v -> closes rest -> (json_size v <= fuel)%nat -> read_json fuel (print_json v ++ rest) = Some (v, rest).

Lemma members_back ms : forall fuel rest,
  Forall (fun m => reads_back m.2) ms -> ms <> [] -> json_ok (JObj ms) -> (json_size (JObj ms) <= S fuel)%nat ->
  read_members fuel (commas (map (fun m => quoted m.1 ++ 58 :: print_json m.2) ms) ++ 125 :: rest) = Some (ms, rest).
Proof.
  induction ms as [|[name v] ms IH]; intros fuel rest Hb Hne Hok Hs; [done|].
  apply Forall_cons in Hb as [Hv Hms]. cbn in Hv. destruct Hok as [[Hn%utf8_bytes Hok] Hoks]. cbn [json_size foldr snd] in Hs.
  destruct fuel as [|fuel]; [lia|]. destruct ms as [|m ms].
  - cbn [map commas fst snd]. rewrite read_members_step; [done|done|]. apply Hv; [done|done|cbn in Hs; lia].
  - change (commas (map (fun m => quoted m.1 ++ 58 :: print_json m.2) ((name, v) :: m :: ms)))
      with ((quoted name ++ 58 :: print_json v) ++ 44 :: commas (map (fun m => quoted m.1 ++ 58 :: print_json m.2) (m :: ms))).
    rewrite <- app_assoc. cbn [app]. rewrite read_members_step; [|done|apply Hv; [done|done|cbn in Hs; lia]].
    simpl. pose proof (IH fuel rest Hms ltac:(done) Hoks ltac:(cbn in Hs |- *; lia)) as E. simpl in E. by rewrite E.
Qed.

Lemma elems_back es : forall fuel rest,
  Forall reads_back es -> es <> [] -> json_ok (JArr es) -> (json_size (JArr es) <= S fuel)%nat ->
  read_elems fuel (commas (map print_json es) ++ 93 :: rest) = Some (es, rest).
Proof.
  induction es as [|v es IH]; intros fuel rest Hb Hne Hok Hs; [done|].
  apply Forall_cons in Hb as [Hv Hes]. destruct Hok as [Hok Hoks]. cbn [json_size foldr] in Hs.
  destruct fuel as [|fuel]; [lia|]. destruct es as [|e es]; cbn [read_elems].
  - cbn [map commas]. rewrite Hv; [done|done|done|cbn in Hs; lia].
  - change (commas (map print_json (v :: e :: es))) with (print_json v ++ 44 :: commas (map print_json (e :: es))).
    rewrite <- app_assoc. cbn [app]. rewrite Hv; [|done|done|cbn in Hs; lia].
    pose proof (IH fuel rest Hes ltac:(done) Hoks ltac:(cbn in Hs |- *; lia)) as E. simpl in *. by rewrite E.
Qed.

(** Every value is read back from its text, whatever follows it. *)
Lemma read_print v : reads_back v.
Proof.
  induction v as [s|n|ms IH|es IH] using json_ind'; intros fuel rest Hok Hr Hs; (destruct fuel as [|fuel]; [cbn in Hs; lia|]).
  - by apply read_quoted, utf8_bytes.
  - cbn [print_json]. cbn [json_ok] in Hok. destruct (dec_int_head n) as (c & l & E & Hc).
    pose proof (read_number_dec n rest Hok Hr) as En. rewrite E in En |- *. cbn [app read_json] in *.
    rewrite (proj2 (Z.eqb_neq c 34)), (proj2 (Z.eqb_neq c 123)), (proj2 (Z.eqb_neq c 91)) by lia. by rewrite En.
  - cbn [print_json app read_json]. change (123 =? 34) with false. change (123 =? 123) with true. cbv iota.
    destruct ms as [|m ms]; [done|]. rewrite <- app_assoc. cbn [app].
    pose proof (members_back (m :: ms) fuel rest IH ltac:(done) Hok Hs) as E.
    assert (Eq : exists l, commas (map (fun m => quoted m.1 ++ 58 :: print_json m.2) (m :: ms)) ++ 125 :: rest = 34 :: l)
      by (destruct ms; by eexists).
    destruct Eq as [l El]. rewrite El in *. change (34 =? 125) with false. cbv iota. by rewrite E.
  - cbn [print_json app read_json]. change (91 =? 34) with false. change (91 =? 123) with false. change (91 =? 91) with true. cbv iota.
    destruct es as [|e es]; [done|]. rewrite <- app_assoc. cbn [app].
    pose proof (elems_back (e :: es) fuel rest IH ltac:(done) Hok Hs) as E.
    assert (Eq : exists c l, commas (map print_json (e :: es)) ++ 93 :: rest = c :: l /\ c <> 93).
    { destruct (print_not_empty e) as (c & l & Ec & Hc). destruct es; cbn [map commas]; rewrite Ec; by eexists _, _. }
    destruct Eq as (c & l & El & Hc). rewrite El in *. rewrite (proj2 (Z.eqb_neq c 93)) by done. by rewrite E.
Qed.

Lemma print_utf8 v : json_ok v -> utf8 (print_json v).
Proof.
  assert (H1 : forall c, 0 <= c < 128 -> utf8 [c]) by (intros c Hc; apply ascii_utf8; constructor; [done|constructor]).
  induction v as [s|n|ms IH|es IH] using json_ind'; intros Hok; cbn [print_json].
  - by apply quoted_utf8.
  - apply ascii_utf8. unfold dec_int. destruct (Z.ltb_spec n 0); [constructor; [lia|]|]; apply dec_ascii; lia.
  - change (123 :: ?x) with ([123] ++ x). apply utf8_app; [by apply H1|]. apply utf8_app; [|by apply H1]. apply commas_utf8, Forall_map.
    induction IH as [|m ms Hm _ IHl]; [constructor|]. destruct Hok as [[Hk Hv] Hms]. constructor; [|by apply IHl]. cbv beta.
    change (58 :: ?x) with ([58] ++ x). apply utf8_app; [by apply quoted_utf8|]. apply utf8_app; [by apply H1|by apply Hm].
  - change (91 :: ?x) with ([91] ++ x). apply utf8_app; [by apply H1|]. apply utf8_app; [|by apply H1]. apply commas_utf8, Forall_map.
    induction IH as [|e es He _ IHl]; [constructor|]. destruct Hok as [Hv Hes]. constructor; [by apply He|by apply IHl].
Qed.

(** The length of a text bounds the depth of its value. *)
Lemma length_commas l : l <> [] -> (length (commas l) + 1 = foldr (fun x n => S (length x + n)) O l)%nat.
Proof.
  induction l as [|x l IH]; [done|]. intros _. destruct l as [|y l]; [cbn; lia|].
  change (commas (x :: y :: l)) with (x ++ 44 :: commas (y :: l)). rewrite length_app. cbn [length foldr] in *.
  specialize (IH ltac:(done)). lia.
Qed.

Lemma size_length v : (json_size v <= length (print_json v))%nat.
Proof.
  induction v as [s|n|ms IH|es IH] using json_ind'; cbn [json_size print_json].
  - unfold quoted. cbn. lia.
  - destruct (dec_int_head n) as (c & l & -> & _). cbn. lia.
  - cbn [length]. rewrite length_app. destruct ms as [|m ms]; [cbn; lia|].
    pose proof (length_commas (map (fun m => quoted m.1 ++ 58 :: print_json m.2) (m :: ms)) ltac:(done)) as Hl.
    assert (Hs : (foldr (fun m n => S (json_size m.2 + n)) O (m :: ms) <=
      foldr (fun x n => S (length x + n)) O (map (fun m => quoted m.1 ++ 58%Z :: print_json m.2) (m :: ms)))%nat).
    { clear Hl. induction IH as [|x xs Hx _ IHl]; [done|]. cbn [foldr map]. rewrite length_app. cbn [length]. lia. }
    cbn [length]. lia.
  - cbn [length]. rewrite length_app. destruct es as [|e es]; [cbn; lia|].
    pose proof (length_commas (map print_json (e :: es)) ltac:(done)) as Hl.
    assert (Hs : (foldr (fun e n => S (json_size e + n)) O (e :: es) <= foldr (fun x n => S (length x + n)) O (map print_json (e :: es)))%nat).
    { clear Hl. induction IH as [|x xs Hx _ IHl]; [done|]. cbn [foldr map]. lia. }
    cbn [length]. lia.
Qed.

(** The text of a value is JSON and reads back as the value. *)
Lemma read_text_print v : json_ok v -> read_text (print_json v) = Some v.
Proof.
  intros Hok. unfold read_text. rewrite utf8_check by (by apply print_utf8).
  pose proof (read_print v (length (print_json v)) [] Hok I (size_length v)) as E. rewrite app_nil_r in E. by rewrite E.
Qed.

(* src/inc/sl_trace_flags.h:20-20 *)
Definition SL_TRACE_FLAG_SAMPLED : Z := 1.
(* src/inc/sl_trace_flags.h:21-21 *)
Definition SL_TRACE_FLAG_DEBUG : Z := 2.

(* src/inc/sl_span_kind.h:14-20 *)
Inductive sl_span_kind_t := SL_SPAN_INTERNAL | SL_SPAN_SERVER | SL_SPAN_CLIENT | SL_SPAN_PRODUCER | SL_SPAN_CONSUMER.
(* src/inc/sl_span_kind.h:22-26 *)
Inductive sl_span_status_t := SL_SPAN_STATUS_UNSET | SL_SPAN_STATUS_OK | SL_SPAN_STATUS_ERROR.

(* src/src/sl_span_kind.c:3-12 *)
Definition sl_span_kind_name (k : sl_span_kind_t) : cstring :=
  match k with
  | SL_SPAN_INTERNAL => lit "internal"
  | SL_SPAN_SERVER => lit "server"
  | SL_SPAN_CLIENT => lit "client"
  | SL_SPAN_PRODUCER => lit "producer"
  | SL_SPAN_CONSUMER => lit "consumer"
  end.

(* src/src/sl_span_kind.c:14-21 *)
Definition sl_span_status_name (s : sl_span_status_t) : cstring :=
  match s with
  | SL_SPAN_STATUS_UNSET => lit "unset"
  | SL_SPAN_STATUS_OK => lit "ok"
  | SL_SPAN_STATUS_ERROR => lit "error"
  end.

(** ** Spans *)

(* src/inc/span.hpp:22-25 *)
Record SpanAttribute := mk_attr { a_key : cstring; a_value : cstring }.
(* src/inc/span.hpp:27-31 *)
Record SpanEvent := mk_event { e_at : Z; e_name : cstring; e_attributes : list SpanAttribute }.

(* src/inc/span.hpp:61-72 *)
Record Span := mk_span {
  ctx_ : sl_trace_ctx_t;
  parent_ : sl_trace_ctx_t;
  name_ : cstring;
  kind_ : sl_span_kind_t;
  status_ : sl_span_status_t;
  status_desc_ : cstring;
  attrs_ : list SpanAttribute;
  events_ : list SpanEvent;
  start_ : Z;
  end_ : Z;
  ended_ : bool
}.

(* src/src/span.cpp:5-13 *)
Definition new_span (ctx parent : sl_trace_ctx_t) (name : cstring) (kind : sl_span_kind_t) (now : Z) : Span :=
  mk_span ctx parent name kind SL_SPAN_STATUS_UNSET [] [] [] now 0 false.

(* src/src/span.cpp:15-18 *)
Definition set_attribute (key value : cstring) (s : Span) : Span :=
  if ended_ s then s
  else mk_span (ctx_ s) (parent_ s) (name_ s) (kind_ s) (status_ s) (status_desc_ s) (attrs_ s ++ [mk_attr key value])
         (events_ s) (start_ s) (end_ s) (ended_ s).

(* src/src/span.cpp:24-28 *)
Definition add_event (now : Z) (name : cstring) (attrs : list SpanAttribute) (s : Span) : Span :=
  if ended_ s then s
  else mk_span (ctx_ s) (parent_ s) (name_ s) (kind_ s) (status_ s) (status_desc_ s) (attrs_ s)
         (events_ s ++ [mk_event now name attrs]) (start_ s) (end_ s) (ended_ s).

(* src/src/span.cpp:30-34 *)
Definition set_status (status : sl_span_status_t) (description : cstring) (s : Span) : Span :=
  if ended_ s then s
  else mk_span (ctx_ s) (parent_ s) (name_ s) (kind_ s) status description (attrs_ s) (events_ s) (start_ s) (end_ s) (ended_ s).

(* src/src/span.cpp:36-40 *)
Definition span_end (now : Z) (s : Span) : Span :=
  if ended_ s then s
  else mk_span (ctx_ s) (parent_ s) (name_ s) (kind_ s) (status_ s) (status_desc_ s) (attrs_ s) (events_ s) (start_ s) now true.

(** Whole microseconds, rounded towards zero. *)
(* src/src/span.cpp:42-45 *)
Definition duration (now : Z) (s : Span) : Z := Z.quot ((if ended_ s then end_ s else now) - start_ s) 1000.

(** ** The sampler *)

(* src/inc/sl_trace_sampler.h:23-25 *)
Record sl_trace_sampler_t := mk_sampler { ratio : double }.

(* src/src/sl_trace_sampler.c:5-10 *)
Definition sl_trace_sampler_init (r : double) : sl_trace_sampler_t :=
  let r := if d_lt r d_zero || d_isnan r then d_zero else r in
  let r := if d_lt d_one r then d_one else r in
  mk_sampler r.

(* src/src/sl_trace_sampler.c:12-27 *)
Definition sl_trace_sampler_should_sample (s : sl_trace_sampler_t) (ctx : sl_trace_ctx_t) : M bool :=
  if sl_trace_flag_is_set (tc_flags ctx) SL_TRACE_FLAG_DEBUG then Ok true
  else if d_le (ratio s) d_zero then Ok false
  else if d_le d_one (ratio s) then Ok true
  else
    let! v := for_up 8 0 (fun i v => let! b := load (tc_trace_id ctx) i in Ok (Z.lor (u64 (v ≪ 8)) b)) 0 in
    let f := d_div (d_int v) (d_int 18446744073709551616) in
    Ok (d_lt f (ratio s)).

(** ** Exporters *)

Class SpanExporter (E : Type) := { export_span : Z -> Span -> E -> M E }.

(** *** The buffer *)

(* src/inc/span_exporter.hpp:29-38 *)
Record InMemorySpanExporter := mk_memory { spans_ : list Span }.

(* src/src/span_exporter.cpp:9-12 InMemorySpanExporter::export_span *)
Definition memory_export (s : Span) (e : InMemorySpanExporter) : InMemorySpanExporter := mk_memory (spans_ e ++ [s]).
#[export] Instance memory_exporter : SpanExporter InMemorySpanExporter := {| export_span _ s e := Ok (memory_export s e) |}.

(* src/src/span_exporter.cpp:14-19 InMemorySpanExporter::drain *)
Definition exporter_drain (e : InMemorySpanExporter) : list Span * InMemorySpanExporter := (spans_ e, mk_memory []).
(* src/src/span_exporter.cpp:21-24 InMemorySpanExporter::size *)
Definition exporter_size (e : InMemorySpanExporter) : Z := len (spans_ e).

(** *** JSON lines *)

(* src/src/span_exporter.cpp:38-58 *)
Definition escape_json (s : cstring) : list Z :=
  [34] ++ (s ≫= fun c =>
    if c =? 34 then [92; 34]
    else if c =? 92 then [92; 92]
    else if c =? 10 then [92; 110]
    else if c =? 13 then [92; 114]
    else if c =? 9 then [92; 116]
    else if c <? 32 then [92; 117] ++ replicate (4 - length (hex_of [c])) 48 ++ hex_of [c]
    else [c]) ++ [34].

(* src/src/span_exporter.cpp:60-63 *)
Definition time_us (t : Z) : Z := u64 (Z.quot t 1000).

(** A member's name in quotes and the colon. *)
Definition field (k : string) : list Z := [34] ++ lit k ++ [34; 58].
Definition text (s : cstring) : list Z := [34] ++ s ++ [34].

(** The loop over the attributes, with a comma before each but the first. *)
(* src/src/span_exporter.cpp:95-100 span_to_json *)
Definition attrs_json (l : list SpanAttribute) : list Z :=
  (foldl (fun '(out, first) a =>
     (out ++ (if (first : bool) then [] else [44]) ++ escape_json (a_key a) ++ [58] ++ escape_json (a_value a), false)) ([], true) l).1.

(* src/src/span_exporter.cpp:106-123 span_to_json *)
Definition events_json (l : list SpanEvent) : list Z :=
  (foldl (fun '(out, first) e =>
     (out ++ (if (first : bool) then [] else [44]) ++ [123] ++ field "at_us" ++ dec_int (time_us (e_at e)) ++ [44] ++
        field "name" ++ escape_json (e_name e) ++
        (if bool_decide (e_attributes e = []) then [] else [44] ++ field "attributes" ++ [123] ++ attrs_json (e_attributes e) ++ [125]) ++
        [125], false)) ([], true) l).1.

(** [now] is read when the span has not ended. *)
(* src/src/span_exporter.cpp:65-128 *)
Definition span_to_json (now : Z) (s : Span) : M (list Z) :=
  let! '(_, tid) := bytes_to_hex (tc_trace_id (ctx_ s)) (replicate 33 0) in
  let! '(_, sid) := bytes_to_hex (tc_span_id (ctx_ s)) (replicate 17 0) in
  let! z := id_is_zero SL_SPAN_ID_LEN (tc_span_id (parent_ s)) in
  let! '(_, psid) := (if z then Ok (0, replicate 17 0) else bytes_to_hex (tc_span_id (parent_ s)) (replicate 17 0)) in
  Ok ([123] ++
      field "trace_id" ++ text (c_str tid) ++ [44] ++
      field "span_id" ++ text (c_str sid) ++ [44] ++
      (if bool_decide (c_str psid = []) then [] else field "parent_id" ++ text (c_str psid) ++ [44]) ++
      field "name" ++ escape_json (name_ s) ++ [44] ++
      field "kind" ++ text (sl_span_kind_name (kind_ s)) ++ [44] ++
      field "status" ++ text (sl_span_status_name (status_ s)) ++ [44] ++
      (if bool_decide (status_desc_ s = []) then [] else field "status_desc" ++ escape_json (status_desc_ s) ++ [44]) ++
      field "start_us" ++ dec_int (time_us (start_ s)) ++ [44] ++
      field "end_us" ++ dec_int (time_us (end_ s)) ++ [44] ++
      field "duration_us" ++ dec_int (duration now s) ++
      (if bool_decide (attrs_ s = []) then [] else [44] ++ field "attributes" ++ [123] ++ attrs_json (attrs_ s) ++ [125]) ++
      (if bool_decide (events_ s = []) then [] else [44] ++ field "events" ++ [91] ++ events_json (events_ s) ++ [93]) ++
      [125]).

(** The stream it writes to. *)
Record JsonStdoutSpanExporter := mk_jsonl { os_ : list Z }.

(* src/src/span_exporter.cpp:28-31 JsonStdoutSpanExporter::export_span *)
Definition json_export (now : Z) (s : Span) (e : JsonStdoutSpanExporter) : M JsonStdoutSpanExporter :=
  let! t := span_to_json now s in Ok (mk_jsonl (os_ e ++ t ++ [10])).
#[export] Instance json_exporter : SpanExporter JsonStdoutSpanExporter := {| export_span := json_export |}.

(** ** The tracer *)

(* src/inc/tracer.hpp:44-48 *)
Record TracerStats := mk_tstats { spans_started : Z; spans_exported : Z; spans_dropped : Z }.

Section Tracer.
Context {E : Type} `{SpanExporter E}.

(** [exporter_] is [None] for a null pointer. *)
(* src/inc/tracer.hpp:52-57 *)
Record Tracer := mk_tracer { sampler_ : sl_trace_sampler_t; exporter_ : option E; stats_ : TracerStats }.

(* src/src/tracer.cpp:5-8 *)
Definition new_tracer (sample_ratio : double) (exporter : option E) : Tracer :=
  mk_tracer (sl_trace_sampler_init sample_ratio) exporter (mk_tstats 0 0 0).

Definition zero_ctx : sl_trace_ctx_t := mk_tctx (replicate 16 0) (replicate 8 0) 0.

Definition count_started (t : Tracer) : Tracer :=
  mk_tracer (sampler_ t) (exporter_ t)
    (mk_tstats (u64 (spans_started (stats_ t) + 1)) (spans_exported (stats_ t)) (spans_dropped (stats_ t))).

(** [rnd1] and [rnd2] are what the random source delivers. *)
(* src/src/tracer.cpp:10-24 *)
Definition start_root_span (rnd1 rnd2 : option (list Z)) (now : Z) (name : cstring) (kind : sl_span_kind_t) (t : Tracer) : M (Span * Tracer) :=
  let! '(_, ctx) := sl_trace_ctx_root rnd1 rnd2 zero_ctx in
  let! sampled := sl_trace_sampler_should_sample (sampler_ t) ctx in
  let ctx := if (sampled : bool) then mk_tctx (tc_trace_id ctx) (tc_span_id ctx) (sl_trace_flags_with (tc_flags ctx) SL_TRACE_FLAG_SAMPLED) else ctx in
  Ok (new_span ctx zero_ctx name kind now, count_started t).

(* src/src/tracer.cpp:26-39 *)
Definition start_span (parent_ctx : sl_trace_ctx_t) (rnd1 rnd2 : option (list Z)) (now : Z) (name : cstring) (kind : sl_span_kind_t)
  (t : Tracer) : M (Span * Tracer) :=
  let! z := sl_trace_ctx_is_zero parent_ctx in
  if z then start_root_span rnd1 rnd2 now name kind t
  else
    let! '(_, child) := sl_trace_ctx_child parent_ctx rnd1 zero_ctx in
    Ok (new_span child parent_ctx name kind now, count_started t).

(* src/src/tracer.cpp:41-52 *)
Definition finish (now : Z) (s : Span) (t : Tracer) : M Tracer :=
  let st := stats_ t in
  let sampled := sl_trace_flag_is_set (tc_flags (ctx_ s)) SL_TRACE_FLAG_SAMPLED in
  match exporter_ t with
  | Some e =>
      if sampled then
        let! e := export_span now s e in
        Ok (mk_tracer (sampler_ t) (Some e) (mk_tstats (spans_started st) (u64 (spans_exported st + 1)) (spans_dropped st)))
      else Ok (mk_tracer (sampler_ t) (Some e) (mk_tstats (spans_started st) (spans_exported st) (u64 (spans_dropped st + 1))))
  | None => Ok (mk_tracer (sampler_ t) None (mk_tstats (spans_started st) (spans_exported st) (u64 (spans_dropped st + 1))))
  end.

(** The destructor of a scoped span. *)
(* src/src/tracer.cpp:62-65 ScopedSpan::~ScopedSpan *)
Definition scope_exit (now : Z) (s : Span) (t : Tracer) : M Tracer :=
  finish now (if ended_ s then s else span_end now s) t.
End Tracer.

(** ** The JSON of a span *)

Definition attr_member (a : SpanAttribute) : list Z * json := (a_key a, JStr (a_value a)).
Definition event_value (e : SpanEvent) : json :=
  JObj ([(lit "at_us", JNum (time_us (e_at e))); (lit "name", JStr (e_name e))] ++
        (if bool_decide (e_attributes e = []) then [] else [(lit "attributes", JObj (map attr_member (e_attributes e)))])).

(** The value a span's line denotes. *)
Definition span_value (now : Z) (s : Span) : json :=
  JObj ([(lit "trace_id", JStr (hex_of (tc_trace_id (ctx_ s)))); (lit "span_id", JStr (hex_of (tc_span_id (ctx_ s))))] ++
        (if bool_decide (nonzero (tc_span_id (parent_ s))) then [(lit "parent_id", JStr (hex_of (tc_span_id (parent_ s))))] else []) ++
        [(lit "name", JStr (name_ s)); (lit "kind", JStr (sl_span_kind_name (kind_ s))); (lit "status", JStr (sl_span_status_name (status_ s)))] ++
        (if bool_decide (status_desc_ s = []) then [] else [(lit "status_desc", JStr (status_desc_ s))]) ++
        [(lit "start_us", JNum (time_us (start_ s))); (lit "end_us", JNum (time_us (end_ s))); (lit "duration_us", JNum (duration now s))] ++
        (if bool_decide (attrs_ s = []) then [] else [(lit "attributes", JObj (map attr_member (attrs_ s)))]) ++
        (if bool_decide (events_ s = []) then [] else [(lit "events", JArr (map event_value (events_ s)))])).

Definition attr_ok (a : SpanAttribute) : Prop := utf8 (a_key a) /\ utf8 (a_value a).
Definition event_ok (e : SpanEvent) : Prop := utf8 (e_name e) /\ Forall attr_ok (e_attributes e).

(** The identifiers of a span are byte strings of the right length, its texts are UTF-8, and its
    duration is one of a clock. *)
Record span_ok (now : Z) (s : Span) : Prop := {
  so_trace : bytes_ok (tc_trace_id (ctx_ s)) /\ len (tc_trace_id (ctx_ s)) = 16;
  so_span : bytes_ok (tc_span_id (ctx_ s)) /\ len (tc_span_id (ctx_ s)) = 8;
  so_parent : bytes_ok (tc_span_id (parent_ s)) /\ len (tc_span_id (parent_ s)) = 8;
  so_name : utf8 (name_ s);
  so_desc : utf8 (status_desc_ s);
  so_attrs : Forall attr_ok (attrs_ s);
  so_events : Forall event_ok (events_ s);
  so_duration : Z.abs (duration now s) < 10 ^ 20
}.

Lemma escape_quoted s : escape_json s = quoted s.
Proof. reflexivity. Qed.

Definition plain (s : list Z) : bool := forallb (fun c => (32 <=? c) && negb (c =? 34) && negb (c =? 92)) s.

Lemma quoted_plain s : plain s = true -> quoted s = text s.
Proof.
  intros Hs. unfold quoted, text. cbn [app]. do 2 f_equal. induction s as [|c s IH]; [done|].
  cbn in Hs. apply andb_prop in Hs as [Hc Hs]. apply andb_prop in Hc as [Hc H3]. apply andb_prop in Hc as [H1%Z.leb_le H2].
  rewrite bind_cons, IH by done. unfold escape_byte. apply negb_true_iff in H2, H3. rewrite H2, H3.
  rewrite (proj2 (Z.eqb_neq c 10)), (proj2 (Z.eqb_neq c 13)), (proj2 (Z.eqb_neq c 9)), (proj2 (Z.ltb_ge c 32)) by lia. done.
Qed.

Lemma hex_plain l : bytes_ok l -> plain (hex_of l) = true.
Proof.
  induction 1 as [|x l Hx _ IH]; [done|]. unfold hex_of. rewrite bind_cons. unfold plain. rewrite forallb_app. apply andb_true_intro. split; [|exact IH].
  assert (Hd : forall v, 0 <= v < 16 -> (32 <=? hex_digit v) && negb (hex_digit v =? 34) && negb (hex_digit v =? 92) = true).
  { intros v Hv. unfold hex_digit. destruct (Z.ltb_spec v 10); rewrite (proj2 (Z.leb_le _ _)), !(proj2 (Z.eqb_neq _ _)) by lia; done. }
  cbn [forallb]. rewrite !Hd by (Z.div_mod_to_equations; lia). done.
Qed.

(** The loop with a comma before each item but the first. *)
Lemma foldl_commas {A} (f : A -> list Z) l :
  (foldl (fun '(out, first) a => (out ++ (if (first : bool) then [] else [44]) ++ f a, false)) ([], true) l).1 = commas (map f l).
Proof.
  assert (Hg : forall l out, (foldl (fun '(out, first) a => (out ++ (if (first : bool) then [] else [44]) ++ f a, false)) (out, false) l).1 =
    out ++ match l with [] => [] | _ => 44 :: commas (map f l) end).
  { clear l. induction l as [|a l IH]; intros out; [by rewrite app_nil_r|]. cbn [foldl]. rewrite IH. rewrite <- app_assoc. f_equal.
    cbn [app]. destruct l; cbn [map commas]; [by rewrite app_nil_r|done]. }
  destruct l as [|a l]; [done|]. cbn [foldl app]. rewrite Hg. destruct l; cbn [map commas]; [by rewrite app_nil_r|done].
Qed.

Lemma attrs_spec l : attrs_json l = commas (map (fun m => quoted m.1 ++ 58 :: print_json m.2) (map attr_member l)).
Proof.
  unfold attrs_json. rewrite (foldl_commas (fun a => escape_json (a_key a) ++ [58] ++ escape_json (a_value a))). by rewrite map_map.
Qed.

Lemma field_quoted k : plain (lit k) = true -> field k = quoted (lit k) ++ [58].
Proof. intros H. rewrite quoted_plain by done. unfold field, text. by rewrite <- !app_assoc. Qed.

(** Right-nested concatenations. *)
Ltac app_norm := repeat (progress (cbn [app]; rewrite <- ?app_assoc)).

Lemma event_spec e :
  [123] ++ field "at_us" ++ dec_int (time_us (e_at e)) ++ [44] ++ field "name" ++ escape_json (e_name e) ++
    (if bool_decide (e_attributes e = []) then [] else [44] ++ field "attributes" ++ [123] ++ attrs_json (e_attributes e) ++ [125]) ++ [125] =
  print_json (event_value e).
Proof.
  rewrite (escape_quoted (e_name e)), attrs_spec, !field_quoted by done. unfold event_value.
  case_bool_decide; cbn [print_json map commas app fst snd]; app_norm; reflexivity.
Qed.

Lemma events_spec l : events_json l = commas (map print_json (map event_value l)).
Proof.
  unfold events_json.
  rewrite (foldl_commas (fun e => [123] ++ field "at_us" ++ dec_int (time_us (e_at e)) ++ [44] ++ field "name" ++ escape_json (e_name e) ++
    (if bool_decide (e_attributes e = []) then [] else [44] ++ field "attributes" ++ [123] ++ attrs_json (e_attributes e) ++ [125]) ++ [125])).
  f_equal. rewrite map_map. apply map_ext. intros e. apply event_spec.
Qed.

Lemma hex_text l n : bytes_ok l -> n = 2 * len l + 1 ->
  exists h, bytes_to_hex l (replicate (Z.to_nat n) 0) = Ok (2 * len l, h) /\ c_str h = hex_of l.
Proof.
  intros Hb Hn. eexists. split; [by apply bytes_to_hex_spec|]. apply c_str_stops. by apply hex_of_nonzero.
Qed.

Lemma names_plain k st : plain (sl_span_kind_name k) = true /\ plain (sl_span_status_name st) = true.
Proof. by destruct k, st. Qed.

(** The text is the one of the value. *)
Lemma span_to_json_spec now s : span_ok now s -> span_to_json now s = Ok (print_json (span_value now s)).
Proof.
  intros [[T1 T2] [S1 S2] [P1 P2] _ _ _ _ _]. unfold span_to_json.
  destruct (hex_text (tc_trace_id (ctx_ s)) 33 T1 ltac:(lia)) as (h1 & E1 & C1). change (Z.to_nat 33) with 33%nat in E1. rewrite E1. clear E1.
  destruct (hex_text (tc_span_id (ctx_ s)) 17 S1 ltac:(lia)) as (h2 & E2 & C2). change (Z.to_nat 17) with 17%nat in E2. rewrite E2. clear E2.
  cbv beta iota. rewrite id_is_zero_spec by done. cbv beta iota.
  assert (Ep : exists rc h3, (if bool_decide (~ nonzero (tc_span_id (parent_ s))) then Ok (0, replicate 17 0) else bytes_to_hex (tc_span_id (parent_ s)) (replicate 17 0)) =
    Ok (rc, h3) /\ c_str h3 = if bool_decide (nonzero (tc_span_id (parent_ s))) then hex_of (tc_span_id (parent_ s)) else []).
  { destruct (hex_text (tc_span_id (parent_ s)) 17 P1 ltac:(lia)) as (h3 & E3 & C3). change (Z.to_nat 17) with 17%nat in E3.
    case_bool_decide as Hz; [rewrite bool_decide_eq_false_2 by done; by eexists _, _|].
    destruct (decide (nonzero (tc_span_id (parent_ s)))) as [Hy|]; [|done]. rewrite bool_decide_eq_true_2 by done. eauto. }
  destruct Ep as (rc3 & h3 & -> & C3). cbv beta iota. rewrite C1, C2, C3.
  destruct (names_plain (kind_ s) (status_ s)) as [Hk Hs].
  rewrite !escape_quoted, attrs_spec, events_spec, !field_quoted by done.
  rewrite <- (quoted_plain (hex_of (tc_trace_id (ctx_ s)))), <- (quoted_plain (hex_of (tc_span_id (ctx_ s)))) by by apply hex_plain.
  rewrite <- (quoted_plain _ Hk), <- (quoted_plain _ Hs).
  assert (Hp : (if bool_decide ((if bool_decide (nonzero (tc_span_id (parent_ s))) then hex_of (tc_span_id (parent_ s)) else []) = []) then []
      else (quoted (lit "parent_id") ++ [58]) ++ text (if bool_decide (nonzero (tc_span_id (parent_ s))) then hex_of (tc_span_id (parent_ s)) else []) ++ [44]) =
    (if bool_decide (nonzero (tc_span_id (parent_ s))) then (quoted (lit "parent_id") ++ [58]) ++ quoted (hex_of (tc_span_id (parent_ s))) ++ [44] else [])).
  { case_bool_decide as Hz; [|done]. rewrite bool_decide_eq_false_2; [by rewrite <- quoted_plain by by apply hex_plain|].
    intros E. apply (f_equal len) in E. rewrite len_hex_of, P2 in E. done. }
  rewrite Hp. clear Hp. unfold span_value. f_equal. repeat case_bool_decide; cbn [print_json map commas app fst snd]; app_norm; reflexivity.
Qed.

Lemma members_ok ms : Forall (fun m => utf8 m.1 /\ json_ok m.2) ms -> json_ok (JObj ms).
Proof. induction 1 as [|m ms Hm _ IH]; [done|]. by split. Qed.
Lemma elems_ok es : Forall json_ok es -> json_ok (JArr es).
Proof. induction 1 as [|e es He _ IH]; [done|]. by split. Qed.

Lemma time_us_small t : Z.abs (time_us t) < 10 ^ 20.
Proof. unfold time_us. pose proof (u64_range (Z.quot t 1000)). simpl. lia. Qed.

Lemma hex_of_utf8 l : bytes_ok l -> utf8 (hex_of l).
Proof.
  intros Hl. apply ascii_utf8. induction Hl as [|x l Hx _ IH]; [constructor|]. unfold hex_of. rewrite bind_cons. apply Forall_app. split; [|exact IH].
  assert (Hd : forall v, 0 <= v < 16 -> 0 <= hex_digit v < 128) by (intros v Hv; unfold hex_digit; destruct (Z.ltb_spec v 10); lia).
  repeat constructor; apply Hd; Z.div_mod_to_equations; lia.
Qed.

Lemma attrs_value_ok l : Forall attr_ok l -> json_ok (JObj (map attr_member l)).
Proof. intros Hl. apply members_ok, Forall_map. exact Hl. Qed.

Ltac lit_utf8 :=
  cbn [json_ok sl_span_kind_name sl_span_status_name];
  lazymatch goal with |- utf8 (lit _) => apply ascii_utf8; unfold ascii; by_deciding end.

Ltac each_member := rewrite ?Forall_cons, ?Forall_nil; cbn [fst snd]; repeat match goal with |- _ /\ _ => split end; try exact I.

Lemma event_value_ok e : event_ok e -> json_ok (event_value e).
Proof.
  intros [Hn Ha]. apply members_ok. apply Forall_app. split; [|case_bool_decide]; each_member.
  - lit_utf8.
  - apply time_us_small.
  - lit_utf8.
  - exact Hn.
  - lit_utf8.
  - by apply attrs_value_ok.
Qed.

Lemma span_value_ok now s : span_ok now s -> json_ok (span_value now s).
Proof.
  intros [[T1 _] [S1 _] [P1 _] Hn Hd Ha He Hdur]. apply members_ok. unfold span_value.
  rewrite !Forall_app. split_and!; try case_bool_decide; each_member; try assumption;
    try apply time_us_small; try lit_utf8; try (by apply hex_of_utf8).
  - destruct (kind_ s); lit_utf8.
  - destruct (status_ s); lit_utf8.
  - by apply attrs_value_ok.
  - apply elems_ok, Forall_map. eapply Forall_impl; [exact He|]. apply event_value_ok.
Qed.

(** *** One line each *)

Lemma quoted_line s : bytes_ok s -> 10 ∉ quoted s.
Proof.
  intros Hs. unfold quoted. rewrite not_elem_of_cons, not_elem_of_app. split; [done|]. split; [|by set_solver].
  intros (c & Hc & Hin)%list_elem_of_bind. unfold bytes_ok in Hs. rewrite Forall_forall in Hs. specialize (Hs c Hin).
  assert (Hd : forall v, 0 <= v -> 10 <> hex_digit v) by (intros v; unfold hex_digit; case_match; lia).
  revert Hc. unfold escape_byte.
  destruct (Z.eqb_spec c 34); [by set_solver|]. destruct (Z.eqb_spec c 92); [by set_solver|]. destruct (Z.eqb_spec c 10); [by set_solver|].
  destruct (Z.eqb_spec c 13); [by set_solver|]. destruct (Z.eqb_spec c 9); [by set_solver|]. destruct (Z.ltb_spec c 32).
  - rewrite !elem_of_cons. pose proof (Hd (c / 16) ltac:(Z.div_mod_to_equations; lia)). pose proof (Hd (c mod 16) ltac:(Z.div_mod_to_equations; lia)).
    intros [?|[?|[?|[?|[?|[?|H10%elem_of_nil]]]]]]; done.
  - rewrite list_elem_of_singleton. congruence.
Qed.

Lemma commas_line l : Forall (fun x => 10 ∉ x) l -> 10 ∉ commas l.
Proof.
  induction 1 as [|x l Hx Hl IH]; [apply not_elem_of_nil|]. destruct l as [|y l]; [done|].
  change (commas (x :: y :: l)) with (x ++ 44 :: commas (y :: l)). rewrite not_elem_of_app, not_elem_of_cons. done.
Qed.

Lemma dec_line fuel n : 0 <= n -> 10 ∉ dec fuel n.
Proof.
  revert n. induction fuel as [|f IH]; intros n Hn; cbn [dec]; [apply not_elem_of_nil|]. rewrite not_elem_of_app. split.
  - case_match; [apply not_elem_of_nil|]. apply IH. apply Z.div_pos; lia.
  - rewrite list_elem_of_singleton. pose proof (Z.mod_pos_bound n 10). lia.
Qed.

Lemma json_line v : json_ok v -> 10 ∉ print_json v.
Proof.
  induction v as [s|n|ms IH|es IH] using json_ind'; intros Hok; cbn [print_json].
  - by apply quoted_line, utf8_bytes.
  - unfold dec_int. destruct (Z.ltb_spec n 0); [rewrite not_elem_of_cons; split; [done|]|]; apply dec_line; lia.
  - rewrite not_elem_of_cons, not_elem_of_app. split; [done|]. split; [|by set_solver]. apply commas_line, Forall_map.
    induction IH as [|m ms Hm _ IHl]; [done|]. destruct Hok as [[Hk Hv] Hms]. constructor; [|by apply IHl]. cbv beta.
    rewrite not_elem_of_app, not_elem_of_cons. split; [by apply quoted_line, utf8_bytes|]. split; [done|by apply Hm].
  - rewrite not_elem_of_cons, not_elem_of_app. split; [done|]. split; [|by set_solver]. apply commas_line, Forall_map.
    induction IH as [|e es He _ IHl]; [done|]. destruct Hok as [Hv Hes]. constructor; [by apply He|by apply IHl].
Qed.

Fixpoint export_all {E} `{SpanExporter E} (l : list (Z * Span)) (e : E) : M E :=
  match l with [] => Ok e | (now, s) :: l => let! e := export_span now s e in export_all l e end.

(** C37: The exported lines are the spans. When the names, descriptions, attributes and events of
    the spans are texts in UTF-8, whatever characters they hold, the stream has exactly one line
    for each exported span, in order, and each line is a JSON text (UTF-8, as RFC 8259 asks): that
    of an object with the span's identifiers, names, times, attributes and events, and of nothing
    else. No value can close its quotes or its line. *)
Theorem json_lines_faithful l os :
  Forall (fun x => span_ok x.1 x.2) l ->
  exists os', export_all l (mk_jsonl os) = Ok (mk_jsonl (os ++ os')) /\
    exists lines, split_segs 10 os' = lines ++ [[]] /\
      Forall2 (fun line x => read_text line = Some (span_value x.1 x.2)) lines l.
Proof.
  intros Hl. revert os. induction Hl as [|[now s] l Hs _ IH]; intros os; cbn [export_all].
  - exists []. rewrite app_nil_r. split; [done|]. exists []. by split.
  - cbn in Hs. cbn [export_span json_exporter]. unfold json_export. rewrite span_to_json_spec by done. cbv beta iota. cbn [os_].
    destruct (IH (os ++ print_json (span_value now s) ++ [10])) as (os' & -> & lines & El & Hr).
    exists ((print_json (span_value now s) ++ [10]) ++ os'). split; [by rewrite !app_assoc|].
    pose proof (span_value_ok now s Hs) as Hok. rewrite <- app_assoc. cbn [app]. rewrite segs_first, El by (by apply json_line).
    exists (print_json (span_value now s) :: lines). split; [done|]. constructor; [|done].
    by apply read_text_print.
Qed.

(** ** Sampling *)

(** The first eight bytes as a number, and the decision for an identifier. *)
Definition id_value (tid : list Z) : Z := foldl (fun v b => Z.lor (u64 (v ≪ 8)) b) 0 (take 8 tid).
Definition sampled_of (s : sl_trace_sampler_t) (tid : list Z) : bool :=
  if d_le (ratio s) d_zero then false
  else if d_le d_one (ratio s) then true
  else d_lt (d_div (d_int (id_value tid)) (d_int 18446744073709551616)) (ratio s).

Lemma should_sample_spec s c :
  8 <= len (tc_trace_id c) ->
  sl_trace_sampler_should_sample s c =
  Ok (sl_trace_flag_is_set (tc_flags c) SL_TRACE_FLAG_DEBUG || sampled_of s (tc_trace_id c)).
Proof.
  intros Hl. unfold sl_trace_sampler_should_sample, sampled_of. destruct (sl_trace_flag_is_set _ _); [done|]. cbn [orb].
  destruct (d_le (ratio s) d_zero); [done|]. destruct (d_le d_one (ratio s)); [done|].
  pose proof (for_up_list (fun b v => Z.lor (u64 (v ≪ 8)) b) (fun i v => let! b := load (tc_trace_id c) i in Ok (Z.lor (u64 (v ≪ 8)) b))
    (take 8 (tc_trace_id c)) [] (drop 8 (tc_trace_id c)) 0) as E.
  cbn [app] in E. rewrite take_drop in E. specialize (E ltac:(done)).
  assert (El : length (take 8 (tc_trace_id c)) = 8%nat) by (rewrite length_take; unfold len in Hl; lia). rewrite El in E.
  change (len (@nil Z)) with 0 in E. rewrite E. done.
Qed.

(** A higher ratio samples every trace a lower one does. *)
Lemma sampling_monotone s1 s2 tid :
  d_le (ratio s1) (ratio s2) = true -> sampled_of s1 tid = true -> sampled_of s2 tid = true.
Proof.
  unfold sampled_of. intros Hle.
  destruct (d_le (ratio s1) d_zero) eqn:E1; [done|]. destruct (d_le (ratio s2) d_zero) eqn:E2.
  { by rewrite (d_le_trans _ _ _ Hle E2) in E1. }
  destruct (d_le d_one (ratio s1)) eqn:E3; [by rewrite (d_le_trans _ _ _ E3 Hle)|].
  intros Hlt. destruct (d_le d_one (ratio s2)); [done|]. by eapply d_lt_le_trans.
Qed.

(** ** A tracer at work *)

Lemma id_random_spec n r out :
  0 < n -> len r = n -> len out = n ->
  exists o, id_random n (Some r) out = Ok (0, o) /\ len o = n /\ nonzero o.
Proof.
  intros Hn Hr Ho. unfold id_random. rewrite store_bytes_0, drop_ge, app_nil_r by (unfold len in *; lia). cbv beta iota.
  rewrite id_is_zero_spec by done. cbv beta iota. case_bool_decide as Hz.
  - destruct r as [|b r]; [change (len (@nil Z)) with 0 in Hr; lia|]. eexists. split; [reflexivity|]. split; [by rewrite <- Hr|]. by left.
  - exists r. split; [done|]. split; [done|]. done.
Qed.

(** What a caller does: start a trace, start a span under the [i]-th one, finish the [i]-th. *)
Inductive trace_op :=
  | TRoot (r1 r2 : list Z) (name : cstring) (kind : sl_span_kind_t)
  | TChild (i : nat) (r : list Z) (name : cstring) (kind : sl_span_kind_t)
  | TFinish (i : nat).

Abbreviation mem_tracer := (Tracer (E:=InMemorySpanExporter)).

Definition trace_step (now : Z) (o : trace_op) (st : list Span * mem_tracer) : M (list Span * mem_tracer) :=
  let '(spans, t) := st in
  match o with
  | TRoot r1 r2 name kind => let! '(s, t) := start_root_span (Some r1) (Some r2) now name kind t in Ok (spans ++ [s], t)
  | TChild i r name kind =>
      match spans !! i with
      | Some p => let! '(s, t) := start_span (ctx_ p) (Some r) (Some r) now name kind t in Ok (spans ++ [s], t)
      | None => Ok (spans, t)
      end
  | TFinish i => match spans !! i with Some s => let! t := scope_exit now s t in Ok (spans, t) | None => Ok (spans, t) end
  end.

Fixpoint trace_run (ops : list (Z * trace_op)) (st : list Span * mem_tracer) : M (list Span * mem_tracer) :=
  match ops with [] => Ok st | (now, o) :: ops => let! st := trace_step now o st in trace_run ops st end.

(** The random bytes have the lengths asked for, and the spans named exist: [n] of them so
    far. *)
Fixpoint trace_ops_ok (n : nat) (ops : list (Z * trace_op)) : Prop :=
  match ops with
  | [] => True
  | (_, TRoot r1 r2 _ _) :: ops => (len r1 = 16 /\ len r2 = 8) /\ trace_ops_ok (S n) ops
  | (_, TChild i r _ _) :: ops => ((i < n)%nat /\ len r = 8) /\ trace_ops_ok (S n) ops
  | (_, TFinish i) :: ops => (i < n)%nat /\ trace_ops_ok n ops
  end.

(** A context whose flags are the decision for its trace. *)
Definition ctx_consistent (s : sl_trace_sampler_t) (c : sl_trace_ctx_t) : Prop :=
  len (tc_trace_id c) = 16 /\ len (tc_span_id c) = 8 /\ nonzero (tc_trace_id c) /\ nonzero (tc_span_id c) /\
  tc_flags c = if sampled_of s (tc_trace_id c) then SL_TRACE_FLAG_SAMPLED else 0.

Lemma root_consistent {E} (t : Tracer (E:=E)) r1 r2 now name kind :
  len r1 = 16 -> len r2 = 8 ->
  exists s, start_root_span (Some r1) (Some r2) now name kind t = Ok (s, count_started t) /\
    ctx_consistent (sampler_ t) (ctx_ s) /\ ended_ s = false.
Proof.
  intros H1 H2. unfold start_root_span, sl_trace_ctx_root. cbn [zero_ctx tc_trace_id tc_span_id].
  destruct (id_random_spec SL_TRACE_ID_LEN r1 (replicate 16 0)) as (o1 & -> & L1 & N1); [done..|]. cbv beta iota.
  change (negb (0 =? 0)) with false. cbv iota.
  destruct (id_random_spec SL_SPAN_ID_LEN r2 (replicate 8 0)) as (o2 & -> & L2 & N2); [done..|]. cbv beta iota.
  change (negb (0 =? 0)) with false. cbv iota.
  rewrite should_sample_spec by (cbn [tc_trace_id]; rewrite L1; done). cbn [tc_flags tc_trace_id tc_span_id]. cbv beta iota.
  change (sl_trace_flag_is_set SL_TRACE_FLAG_NONE SL_TRACE_FLAG_DEBUG) with false. cbn [orb].
  eexists. split; [reflexivity|]. unfold ctx_consistent. cbn [ctx_ new_span ended_]. split; [|done].
  by destruct (sampled_of (sampler_ t) o1) eqn:Es; cbn [tc_trace_id tc_span_id tc_flags]; rewrite ?Es; split_and!.
Qed.

Lemma child_consistent {E} (t : Tracer (E:=E)) c r now name kind :
  ctx_consistent (sampler_ t) c -> len r = 8 ->
  exists s, start_span c (Some r) (Some r) now name kind t = Ok (s, count_started t) /\
    ctx_consistent (sampler_ t) (ctx_ s) /\ tc_trace_id (ctx_ s) = tc_trace_id c /\ ended_ s = false.
Proof.
  intros (L1 & L2 & N1 & N2 & Hf) Hr. unfold start_span, sl_trace_ctx_child, sl_trace_ctx_is_zero.
  rewrite !id_is_zero_spec by done. cbv beta iota.
  rewrite (bool_decide_eq_false_2 (~ nonzero (tc_trace_id c))), (bool_decide_eq_false_2 (~ nonzero (tc_span_id c))) by (intros H; by apply H).
  cbv beta iota. cbn [zero_ctx tc_span_id tc_flags].
  destruct (id_random_spec SL_SPAN_ID_LEN r (replicate 8 0)) as (o & -> & Lo & No); [done..|]. cbv beta iota.
  change (negb (0 =? 0)) with false. cbv iota. eexists. split; [reflexivity|]. cbn. by split_and!.
Qed.

(** The contexts of the spans that were finished, in order. *)
Definition finished (spans : list Span) (ops : list (Z * trace_op)) : list sl_trace_ctx_t :=
  omap (fun x : Z * trace_op => match x.2 with TFinish i => ctx_ <$> spans !! i | _ => None end) ops.

Definition is_sampled (c : sl_trace_ctx_t) : Prop := sl_trace_flag_is_set (tc_flags c) SL_TRACE_FLAG_SAMPLED = true.
#[local] Instance is_sampled_dec c : Decision (is_sampled c) := _.

Record tracer_state (s : sl_trace_sampler_t) (spans : list Span) (done_ : list sl_trace_ctx_t) (t : mem_tracer) : Prop := {
  ts_sampler : sampler_ t = s;
  ts_spans : Forall (fun x => ctx_consistent s (ctx_ x)) spans;
  ts_exported : exists e, exporter_ t = Some e /\ map ctx_ (spans_ e) = filter is_sampled done_;
  ts_started : spans_started (stats_ t) = u64 (len spans);
  ts_counted : spans_exported (stats_ t) = u64 (len (filter is_sampled done_)) /\
    spans_dropped (stats_ t) = u64 (len (filter (fun c => ~ is_sampled c) done_))
}.

Lemma u64_add_1 n : u64 (u64 n + 1) = u64 (n + 1).
Proof. unfold u64. by rewrite Zplus_mod_idemp_l. Qed.

Lemma started_state s spans done_ t x :
  tracer_state s spans done_ t -> ctx_consistent s (ctx_ x) -> tracer_state s (spans ++ [x]) done_ (count_started t).
Proof.
  intros [H1 H2 H3 H4 H5] Hx. split; cbn; [done|apply Forall_app; auto|done|rewrite H4, u64_add_1; f_equal; len_lia|done].
Qed.

Lemma finish_state s spans done_ t now x :
  tracer_state s spans done_ t -> exists t', scope_exit now x t = Ok t' /\ tracer_state s spans (done_ ++ [ctx_ x]) t'.
Proof.
  intros [H1 H2 (e & He & H3) H4 [H5 H6]]. unfold scope_exit, finish. rewrite He.
  set (y := if ended_ x then x else span_end now x).
  assert (Hc : ctx_ y = ctx_ x) by (unfold y, span_end; by destruct (ended_ x)). rewrite Hc.
  destruct (sl_trace_flag_is_set (tc_flags (ctx_ x)) SL_TRACE_FLAG_SAMPLED) eqn:Es; (eexists; split; [reflexivity|]).
  - assert (Hs : is_sampled (ctx_ x)) by done.
    assert (F1 : filter is_sampled (done_ ++ [ctx_ x]) = filter is_sampled done_ ++ [ctx_ x]) by (by rewrite filter_app, filter_cons_True).
    assert (F2 : filter (fun c => ~ is_sampled c) (done_ ++ [ctx_ x]) = filter (fun c => ~ is_sampled c) done_)
      by (rewrite filter_app, filter_cons_False, filter_nil, app_nil_r by auto; done).
    split; cbn [sampler_ exporter_ stats_ spans_started spans_exported spans_dropped]; rewrite ?F1, ?F2; [done..| |done|].
    + eexists. split; [reflexivity|]. cbn [spans_ memory_export]. by rewrite map_app, H3, <- Hc.
    + by rewrite H5, u64_add_1, len_app.
  - assert (Hs : ~ is_sampled (ctx_ x)) by (unfold is_sampled; by rewrite Es).
    assert (F1 : filter is_sampled (done_ ++ [ctx_ x]) = filter is_sampled done_)
      by (rewrite filter_app, filter_cons_False, filter_nil, app_nil_r by auto; done).
    assert (F2 : filter (fun c => ~ is_sampled c) (done_ ++ [ctx_ x]) = filter (fun c => ~ is_sampled c) done_ ++ [ctx_ x])
      by (by rewrite filter_app, filter_cons_True).
    split; cbn [sampler_ exporter_ stats_ spans_started spans_exported spans_dropped]; rewrite ?F1, ?F2; [done..| |done|].
    + by exists e.
    + by rewrite H6, u64_add_1, len_app.
Qed.

Lemma trace_run_state s ops : forall spans done_ t,
  tracer_state s spans done_ t -> trace_ops_ok (length spans) ops ->
  exists more t', trace_run ops (spans, t) = Ok (spans ++ more, t') /\
    tracer_state s (spans ++ more) (done_ ++ finished (spans ++ more) ops) t'.
Proof.
  induction ops as [|[now o] ops IH]; intros spans done_ t Ht Hok; cbn [trace_run].
  { exists [], t. unfold finished. cbn. by rewrite !app_nil_r. }
  destruct o as [r1 r2 name kind|i r name kind|i]; cbn [trace_step]; destruct Hok as [Ho Hok].
  - destruct Ho as [Hr1 Hr2]. destruct (root_consistent t r1 r2 now name kind Hr1 Hr2) as (x & -> & Hx & _). cbv beta iota.
    rewrite (ts_sampler _ _ _ _ Ht) in Hx. destruct (IH (spans ++ [x]) done_ (count_started t)) as (more & t' & -> & H').
    { by apply started_state. }
    { rewrite length_app, Nat.add_comm. exact Hok. }
    exists (x :: more), t'. rewrite <- app_assoc in *. by split.
  - destruct Ho as [Hi Hr]. destruct (lookup_lt_is_Some_2 spans i Hi) as [p Hp]. rewrite Hp.
    pose proof (proj1 (Forall_forall _ _) (ts_spans _ _ _ _ Ht) p (list_elem_of_lookup_2 _ _ _ Hp)) as Hcp. cbn in Hcp.
    rewrite <- (ts_sampler _ _ _ _ Ht) in Hcp. destruct (child_consistent t (ctx_ p) r now name kind Hcp Hr) as (x & -> & Hx & _). cbv beta iota.
    rewrite (ts_sampler _ _ _ _ Ht) in Hx. destruct (IH (spans ++ [x]) done_ (count_started t)) as (more & t' & -> & H').
    { by apply started_state. }
    { rewrite length_app, Nat.add_comm. exact Hok. }
    exists (x :: more), t'. rewrite <- app_assoc in *. by split.
  - destruct (lookup_lt_is_Some_2 spans i Ho) as [p Hp]. rewrite Hp.
    destruct (finish_state s spans done_ t now p Ht) as (t1 & -> & Ht1). cbv beta iota.
    destruct (IH spans (done_ ++ [ctx_ p]) t1 Ht1 Hok) as (more & t' & -> & H'). exists more, t'. split; [done|].
    unfold finished in *. cbn [omap list_omap snd]. rewrite lookup_app_l, Hp by (by eapply lookup_lt_Some). cbn.
    by rewrite <- app_assoc in H'.
Qed.

Lemma filter_agree {A} (P Q : A -> Prop) `{!forall x, Decision (P x), !forall x, Decision (Q x)} (l : list A) :
  (forall x, x ∈ l -> P x <-> Q x) -> filter P l = filter Q l.
Proof.
  induction l as [|x l IH]; intros Hiff; [done|]. assert (Hl : filter P l = filter Q l) by (apply IH; intros y Hy; apply Hiff; by right).
  destruct (decide (P x)) as [Hp|Hp].
  - rewrite !filter_cons_True, Hl; [done|by apply Hiff; [left|]|done].
  - rewrite !filter_cons_False, Hl; [done|intros Hq; apply Hp; by apply Hiff; [left|]|done].
Qed.

Lemma filter_counts (l : list sl_trace_ctx_t) :
  (length (filter is_sampled l) + length (filter (fun c => ~ is_sampled c) l))%nat = length l.
Proof.
  induction l as [|c l IH]; [done|]. destruct (decide (is_sampled c)) as [Hc|Hc].
  - rewrite (filter_cons_True is_sampled), (filter_cons_False (fun c => ~ is_sampled c)) by auto. cbn. lia.
  - rewrite (filter_cons_False is_sampled), (filter_cons_True (fun c => ~ is_sampled c)) by auto. cbn. lia.
Qed.

(** Traces are sampled as a whole. For any sequence of roots, children and finishes, the
    spans that carry the sampled flag are those whose trace identifier the sampler selects,
    so that two spans of one trace, in this process or in another with the same ratio, agree;
    the exporter receives exactly the finished spans of the selected traces, in order, each
    started span is counted once and each finished one is counted as exported or as dropped. *)
Theorem traces_sampled_whole r ops :
  trace_ops_ok 0 ops ->
  exists spans t e, trace_run ops ([], new_tracer r (Some (mk_memory []))) = Ok (spans, t) /\ exporter_ t = Some e /\
    Forall (fun x => is_sampled (ctx_ x) <-> sampled_of (sl_trace_sampler_init r) (tc_trace_id (ctx_ x)) = true) spans /\
    map ctx_ (spans_ e) = filter (fun c => sampled_of (sl_trace_sampler_init r) (tc_trace_id c) = true) (finished spans ops) /\
    spans_started (stats_ t) = u64 (len spans) /\
    u64 (spans_exported (stats_ t) + spans_dropped (stats_ t)) = u64 (len (finished spans ops)).
Proof.
  intros Hok.
  destruct (trace_run_state (sl_trace_sampler_init r) ops [] [] (new_tracer r (Some (mk_memory [])))) as (spans & t & E & [H1 H2 (e & He & H3) H4 [H5 H6]]).
  { split; cbn; try done. by exists (mk_memory []). }
  { done. }
  cbn [app] in *.
  assert (Hiff : forall x, ctx_consistent (sl_trace_sampler_init r) (ctx_ x) ->
    is_sampled (ctx_ x) <-> sampled_of (sl_trace_sampler_init r) (tc_trace_id (ctx_ x)) = true).
  { intros x (_ & _ & _ & _ & Hf). unfold is_sampled. rewrite Hf. by destruct (sampled_of _ _). }
  exists spans, t, e. split; [done|]. split; [done|]. split; [by eapply Forall_impl|]. split; [|split; [done|]].
  - rewrite H3. apply filter_agree. intros c Hc. unfold finished in Hc.
    apply list_elem_of_omap in Hc as ([now [| |i]] & _ & Hx); cbn in Hx; try done.
    destruct (spans !! i) as [x|] eqn:Ex; [|done]. injection Hx as <-. apply Hiff.
    exact (proj1 (Forall_forall _ _) H2 x (list_elem_of_lookup_2 _ _ _ Ex)).
  - rewrite H5, H6. unfold u64. rewrite <- Zplus_mod. f_equal. unfold len. rewrite <- Nat2Z.inj_add. f_equal.
    apply filter_counts.
Qed.

(** ** Concrete runs *)

Definition half : double := d_frac 1 2.
Definition sample_trace : list (Z * trace_op) :=
  [(1, TRoot (replicate 16 16) (replicate 8 1) (lit "req") SL_SPAN_SERVER); (2, TRoot (replicate 16 200) (replicate 8 2) (lit "bg") SL_SPAN_INTERNAL);
   (3, TChild 0 (replicate 8 3) (lit "db") SL_SPAN_CLIENT); (4, TFinish 2); (5, TFinish 1); (6, TFinish 0)].

Lemma traces_sampled_whole_witness :
  exists spans t e, trace_run sample_trace ([], new_tracer half (Some (mk_memory []))) = Ok (spans, t) /\ exporter_ t = Some e /\
    map name_ (spans_ e) = [lit "db"; lit "req"] /\ spans_dropped (stats_ t) = 1.
Proof.
  destruct (traces_sampled_whole half sample_trace) as (spans & t & e & E & He & _).
  - repeat split; by_deciding.
  - exists spans, t, e. split; [exact E|]. split; [exact He|]. vm_compute in E. injection E as <- <-.
    vm_compute in He. injection He as <-. split; vm_compute; reflexivity.
Defined.

Definition sample_span : Span :=
  set_attribute (lit "k") [34; 10; 7; 195; 169] (new_span (mk_tctx (replicate 16 171) (replicate 8 7) 1) zero_ctx [34; 125] SL_SPAN_SERVER 1000).

Lemma json_lines_faithful_witness :
  exists os', export_all [(5000, sample_span)] (mk_jsonl []) = Ok (mk_jsonl os') /\
    exists line, split_segs 10 os' = [line; []] /\ read_text line = Some (span_value 5000 sample_span).
Proof.
  destruct (json_lines_faithful [(5000, sample_span)] []) as (os' & E & lines & Es & Hl).
  - constructor; [|constructor]. split; [split; by_deciding..|apply utf8_checked; by_deciding|apply utf8_checked; by_deciding| | |by_deciding].
    + constructor; [|constructor]. split; apply utf8_checked; by_deciding.
    + constructor.
  - exists os'. split; [exact E|]. apply Forall2_cons_inv_r in Hl as (line & l & Hr & Hn & ->).
    apply Forall2_nil_inv_r in Hn as ->. by exists line.
Defined.

(** Bytes that are not UTF-8 are copied: the line of a span named by the byte 255 is not JSON. *)
Example raw_bytes_not_json :
  let s := new_span (mk_tctx (replicate 16 171) (replicate 8 7) 1) zero_ctx [255] SL_SPAN_SERVER 1000 in
  exists t, span_to_json 5000 s = Ok t /\ read_text t = None.
Proof. eexists. split; [vm_compute; reflexivity|]. vm_compute. reflexivity. Qed.

(** When the random source fails, the span is made all the same, under the all-zero
    identifier that the format reserves, and sampled. *)
Example root_without_identifier :
  exists s t, start_root_span None None 0 (lit "x") SL_SPAN_INTERNAL (new_tracer half (Some (mk_memory []))) = Ok (s, t) /\
    tc_trace_id (ctx_ s) = replicate 16 0 /\ is_sampled (ctx_ s).
Proof. eexists _, _. split; [vm_compute; reflexivity|]. by vm_compute. Qed.
