(* ===== verification/Monitoring.v ===== *)
(** Two parts of the monitoring. The ring of recent samples ([src/timeseries.cpp]) and its
    statistics, on the doubles of Double.v, with clock readings as arguments: the ring refines
    the list of the most recent samples, and the statistics never index outside it. Health
    reports ([src/health_check.cpp]): a probe is a handle; what calling it does, a result or
    an exception, is an argument of the run, as are the clock reading and the iteration orders
    of the two hash tables, and [run_all] is split at the point where it releases the lock, so
    that other calls can come between its two halves. *)

From stdpp Require Import gmap.
From Stdlib Require Import String.
From S2P Require Import Prelude Ctype KeySched Double.
Local Open Scope Z_scope.

(* src/inc/timeseries.hpp:18-21 *)
Record TsSample := mk_sample { timestamp_ms : Z; value : double }.

(* src/inc/timeseries.hpp:23-31 *)
Record TsStats := mk_stats { ts_min : double; ts_max : double; ts_mean : double; p50 : double; p95 : double; p99 : double; ts_count : Z }.

(* src/inc/timeseries.hpp:58-62 *)
Record TimeSeries := mk_series { cap_ : Z; ring_ : list TsSample; head_ : Z; used_ : Z }.

(* src/src/timeseries.cpp:9-11 *)
Definition new_series (capacity : Z) : TimeSeries :=
  let cap := if 0 <? capacity then capacity else 1 in
  mk_series cap (replicate (Z.to_nat cap) (mk_sample 0 d_zero)) 0 0.

(* src/src/timeseries.cpp:22-27 TimeSeries::push *)
Definition ts_push (ts_ms : Z) (v : double) (t : TimeSeries) : M TimeSeries :=
  let! ring := store (ring_ t) (head_ t) (mk_sample ts_ms v) in
  Ok (mk_series (cap_ t) ring ((head_ t + 1) mod cap_ t) (if used_ t <? cap_ t then used_ t + 1 else used_ t)).

(* src/src/timeseries.cpp:29-33 *)
Definition ts_clear (t : TimeSeries) : TimeSeries := mk_series (cap_ t) (ring_ t) 0 0.

(* src/src/timeseries.cpp:35-38 *)
Definition ts_size (t : TimeSeries) : Z := used_ t.

(* src/src/timeseries.cpp:40-52 *)
Definition samples (t : TimeSeries) : M (list TsSample) :=
  if used_ t <? cap_ t then
    for_up (Z.to_nat (used_ t)) 0 (fun i out => let! s := load (ring_ t) i in Ok (out ++ [s])) []
  else
    for_up (Z.to_nat (cap_ t)) 0 (fun i out => let! s := load (ring_ t) ((head_ t + i) mod cap_ t) in Ok (out ++ [s])) [].

(** ** Statistics *)

(** [std::sort]: the values in ascending order. *)
Fixpoint insert_sorted (x : double) (l : list double) : list double :=
  match l with
  | [] => [x]
  | y :: l' => if d_lt y x then y :: insert_sorted x l' else x :: l
  end.
Definition sorted (l : list double) : list double := foldr insert_sorted [] l.

(** The conversion of a non-negative double to an integer drops the fraction. *)
Definition d_trunc (x : double) : Z :=
  match x with S754_finite false m e => Z.shiftl (Zpos m) e | _ => 0 end.

Definition min_element (x : double) (l : list double) : double := foldl (fun m v => if d_lt v m then v else m) x l.
Definition max_element (x : double) (l : list double) : double := foldl (fun m v => if d_lt m v then v else m) x l.

(** Where the fraction [q] of [n] values falls. *)
Definition pct_index (n : Z) (q : double) : double := d_mul q (d_int (n - 1)).

(* src/src/timeseries.cpp:64-70 pct *)
Definition pct (values : list double) (q : double) : M double :=
  let idx := pct_index (len values) q in
  let lo := d_trunc idx in
  let hi := Z.min (lo + 1) (len values - 1) in
  let frac := d_sub idx (d_int lo) in
  let! a := load values lo in
  let! b := load values hi in
  Ok (d_add (d_mul a (d_sub d_one frac)) (d_mul b frac)).

(* src/src/timeseries.cpp:54-75 *)
Definition compute_stats (values : list double) : M TsStats :=
  match values with
  | [] => Ok (mk_stats d_zero d_zero d_zero d_zero d_zero d_zero 0)
  | x :: l =>
      let mean := d_div (foldl d_add d_zero values) (d_int (len values)) in
      let vs := sorted values in
      let! m := pct vs (d_frac 50 100) in
      let! a := pct vs (d_frac 95 100) in
      let! b := pct vs (d_frac 99 100) in
      Ok (mk_stats (min_element x l) (max_element x l) mean m a b (len values))
  end.

(* src/src/timeseries.cpp:77-84 *)
Definition stats (t : TimeSeries) : M (option TsStats) :=
  let! sm := samples t in
  match sm with
  | [] => Ok None
  | _ => let! s := compute_stats (map value sm) in Ok (Some s)
  end.

(** The clock is read twice. *)
(* src/src/timeseries.cpp:86-97 *)
Definition stats_window (now1 now2 window_ms : Z) (t : TimeSeries) : M (option TsStats) :=
  let! sm := samples t in
  match sm with
  | [] => Ok None
  | _ =>
      let cutoff := if window_ms <? now1 then u64 (now2 - window_ms) else 0 in
      match map value (filter (fun s => cutoff <= timestamp_ms s) sm) with
      | [] => Ok None
      | vals => let! s := compute_stats vals in Ok (Some s)
      end
  end.

(** ** The ring refines the most recent samples *)

Section refinement.
Context (cap : Z) (Hcap : 0 < cap).

(** The specification: a list that keeps its last [cap] elements. *)
Definition last_n {A} (n : Z) (l : list A) : list A := drop (Z.to_nat (len l - n)) l.

(** The position in the ring of the [i]th oldest of [n] samples, when the next one goes to [h]. *)
Definition slot (h n i : Z) : Z := (h - n + i) mod cap.

Definition holds (l : list TsSample) (t : TimeSeries) : Prop :=
  cap_ t = cap /\ len (ring_ t) = cap /\ 0 <= head_ t < cap /\ used_ t = len l /\ len l <= cap /\
  (len l < cap -> head_ t = len l) /\
  (forall i s, 0 <= i -> load l i = Ok s -> load (ring_ t) (slot (head_ t) (len l) i) = Ok s).

Lemma holds_new : holds [] (mk_series cap (replicate (Z.to_nat cap) (mk_sample 0 d_zero)) 0 0).
Proof.
  unfold holds. cbn. rewrite len_replicate. split_and!; try done; try (rewrite ?len_nil; lia).
  intros i s Hi Hl. apply load_lookup in Hl as [_ Hl]. by rewrite lookup_nil in Hl.
Qed.

Lemma slot_range h n i : 0 <= slot h n i < cap.
Proof. apply Z.mod_pos_bound. lia. Qed.

(** The slots of at most [cap] consecutive samples are different. *)
Lemma slot_inj h n i j : 0 <= i < cap -> 0 <= j < cap -> slot h n i = slot h n j -> i = j.
Proof.
  unfold slot. intros Hi Hj E.
  assert (Hm : (i - j) mod cap = 0).
  { replace (i - j) with ((h - n + i) - (h - n + j)) by lia. rewrite Zminus_mod, E. by rewrite Z.sub_diag, Z.mod_0_l by lia. }
  apply Z.mod_divide in Hm as [q Hq]; [|lia]. assert (q = 0) by nia. lia.
Qed.

Lemma last_n_small {A} (l : list A) : len l <= cap -> last_n cap l = l.
Proof. intros H. unfold last_n. by rewrite Z2Nat.nonpos by lia. Qed.

Lemma load_snoc {A} (l : list A) x i s : 0 <= i -> load (l ++ [x]) i = Ok s -> (load l i = Ok s /\ i < len l) \/ (i = len l /\ s = x).
Proof.
  intros Hi Hl. destruct (decide (i < len l)) as [Hlt|Hge].
  - left. destruct (load_in_bounds l i) as (v & Hv & _); [lia|]. rewrite (load_prefix l [x] i v Hv) in Hl. by simplify_eq.
  - right. replace i with (len l + (i - len l)) in Hl by lia. rewrite load_app_r in Hl by lia.
    apply load_lookup in Hl as [_ Hl]. apply list_lookup_singleton_Some in Hl as [E ->]. split; [lia|done].
Qed.

Lemma load_tail {A} (y : A) l i : 0 <= i -> load (y :: l) (i + 1) = load l i.
Proof. intros Hi. change (y :: l) with ([y] ++ l). rewrite Z.add_comm. change 1 with (len [y]). by apply load_app_r. Qed.

Lemma slot_shift h m k n i : m - n = k -> slot ((h + k) mod cap) m i = slot h n i.
Proof. intros E. unfold slot. rewrite Zplus_mod, Zminus_mod, Z.mod_mod, <- Zminus_mod, <- Zplus_mod by lia. f_equal. lia. Qed.

Lemma slot_next h n : 0 <= h < cap -> slot h n n = h.
Proof. intros H. unfold slot. replace (h - n + n) with h by lia. by apply Z.mod_small. Qed.

Lemma holds_push l t ts v : holds l t ->
  exists t', ts_push ts v t = Ok t' /\ holds (last_n cap (l ++ [mk_sample ts v])) t'.
Proof.
  intros (Hc & Hr & Hh & Hu & Hl & Hhd & Hs). unfold ts_push. rewrite store_ok by lia. eexists. split; [done|].
  rewrite Hc, Hu. pose proof (len_nonneg l) as Hnn.
  assert (Hmod : 0 <= (head_ t + 1) mod cap < cap) by (apply Z.mod_pos_bound; lia).
  destruct (Z.ltb_spec (len l) cap) as [Hlt|Hge].
  - rewrite last_n_small by len_lia. unfold holds. cbn. rewrite len_insert, len_app. change (len [mk_sample ts v]) with 1.
    split_and!; try lia.
    { intros Hlt'. rewrite Hhd by lia. apply Z.mod_small. lia. }
    intros i s Hi Hld. rewrite (slot_shift _ _ _ (len l)) by lia. pose proof (slot_range (head_ t) (len l) i).
    rewrite load_insert by lia. apply load_snoc in Hld as [[Hld Hi']|[-> ->]]; [|by rewrite slot_next, Z.eqb_refl by lia|done].
    destruct (Z.eqb_spec (head_ t) (slot (head_ t) (len l) i)) as [E|_]; [|by apply Hs].
    exfalso. rewrite <- (slot_next (head_ t) (len l)) in E at 1 by lia. apply slot_inj in E; lia.
  - destruct l as [|y l']; [len_lia|]. rewrite len_cons in *.
    assert (E : last_n cap ((y :: l') ++ [mk_sample ts v]) = l' ++ [mk_sample ts v]).
    { unfold last_n. replace (Z.to_nat _) with 1%nat; [done|]. len_lia. }
    rewrite E. unfold holds. cbn. rewrite len_insert, len_app. change (len [mk_sample ts v]) with 1.
    split_and!; try lia.
    intros i s Hi Hld. replace (slot ((head_ t + 1) mod cap) (len l' + 1) i) with (slot (head_ t) (len l') i)
      by (symmetry; apply slot_shift; lia).
    assert (Esl : slot (head_ t) (len l') i = slot (head_ t) (1 + len l') (i + 1)) by (unfold slot; f_equal; lia).
    pose proof (slot_range (head_ t) (len l') i). rewrite load_insert by lia.
    apply load_snoc in Hld as [[Hld Hi']|[-> ->]]; [|by rewrite slot_next, Z.eqb_refl by lia|done].
    destruct (Z.eqb_spec (head_ t) (slot (head_ t) (len l') i)) as [E'|_].
    + exfalso. rewrite <- (slot_next (head_ t) (len l')) in E' at 1 by lia. apply slot_inj in E'; lia.
    + rewrite Esl. apply Hs; [lia|]. by rewrite load_tail.
Qed.

Lemma holds_clear l t : holds l t -> holds [] (ts_clear t).
Proof.
  intros (Hc & Hr & Hh & Hu & Hl & Hhd & Hs). unfold holds, ts_clear. cbn. split_and!; try done; try (rewrite ?len_nil; lia).
  intros i s Hi Hld. apply load_lookup in Hld as [_ Hld]. by rewrite lookup_nil in Hld.
Qed.

Lemma copy_loop {A} (f : Z -> M A) (l : list A) :
  (forall i s, 0 <= i -> load l i = Ok s -> f i = Ok s) ->
  for_up (length l) 0 (fun i out => let! s := f i in Ok (out ++ [s])) [] = Ok l.
Proof.
  intros Hf. destruct (for_up_inv (fun i out => 0 <= i /\ out = take (Z.to_nat i) l)
    (fun i out => let! s := f i in Ok (out ++ [s])) (length l) 0 []) as (s' & -> & _ & ->).
  - done.
  - intros j s Hj [Hj0 ->]. destruct (load_in_bounds l j) as (x & Hx & Hn); [unfold len; lia|].
    rewrite (Hf j x) by done. eexists. split; [done|]. split; [lia|].
    replace (Z.to_nat (j + 1)) with (S (Z.to_nat j)) by lia. by rewrite (take_S_r _ _ _ Hn).
  - by rewrite take_ge by lia.
Qed.

Lemma holds_samples l t : holds l t -> samples t = Ok l.
Proof.
  intros (Hc & Hr & Hh & Hu & Hl & Hhd & Hs). unfold samples. rewrite Hu, Hc.
  destruct (Z.ltb_spec (len l) cap) as [Hlt|Hge].
  - rewrite len_to_nat. apply copy_loop. intros i s Hi Hld.
    assert (i < len l) by (apply load_lookup in Hld as [_ Hld]; apply lookup_lt_Some in Hld; unfold len; lia).
    rewrite <- (Hs i s) by done. f_equal. unfold slot. rewrite Hhd, Z.sub_diag by done. symmetry. apply Z.mod_small. lia.
  - assert (Ecap : cap = len l) by lia. rewrite Ecap at 1. rewrite len_to_nat. apply copy_loop. intros i s Hi Hld.
    rewrite <- (Hs i s) by done. f_equal. unfold slot. rewrite <- Ecap.
    replace (head_ t - cap + i) with (head_ t + i + (-1) * cap) by lia. by rewrite Z.mod_add by lia.
Qed.

End refinement.

Inductive ts_op := TsPush (ts : Z) (v : double) | TsClear.

Fixpoint ts_run (ops : list ts_op) (t : TimeSeries) : M TimeSeries :=
  match ops with
  | [] => Ok t
  | TsPush ts v :: ops => let! t := ts_push ts v t in ts_run ops t
  | TsClear :: ops => ts_run ops (ts_clear t)
  end.

(** What was pushed since the last clear. *)
Definition since_clear (ops : list ts_op) : list TsSample :=
  foldl (fun l o => match o with TsPush ts v => l ++ [mk_sample ts v] | TsClear => [] end) [] ops.

Lemma last_n_snoc {A} n (l : list A) x : 0 < n -> last_n n (last_n n l ++ [x]) = last_n n (l ++ [x]).
Proof.
  intros Hn. unfold last_n.
  destruct (decide (len l <= n)) as [Hle|Hgt].
  - by rewrite (Z2Nat.nonpos (len l - n)) by lia.
  - rewrite !drop_app_le by (rewrite ?length_drop; len_lia). rewrite drop_drop. do 2 f_equal. len_lia.
Qed.

Lemma ts_run_holds cap ops : 0 < cap -> forall l0 t, holds cap (last_n cap l0) t ->
  exists t', ts_run ops t = Ok t' /\
    holds cap (last_n cap (foldl (fun l o => match o with TsPush ts v => l ++ [mk_sample ts v] | TsClear => [] end) l0 ops)) t'.
Proof.
  intros Hcap. induction ops as [|o ops IH]; intros l0 t Ht; cbn [ts_run foldl]; [by eauto|].
  destruct o as [ts v|].
  - destruct (holds_push cap Hcap _ _ ts v Ht) as (t1 & -> & H1). rewrite last_n_snoc in H1 by done. by apply IH.
  - apply IH. rewrite last_n_small by (rewrite ?len_nil; lia). by eapply (holds_clear cap Hcap).
Qed.

(** C38: The time series is the list of the most recent samples. After any sequence of pushes
    and clears [samples] returns, in the order they were pushed, the last [capacity] of the
    samples pushed since the last clear ([1] when the capacity is zero), [size] is their
    number, and no step reads or writes outside the ring. *)
Theorem time_series_refines_window (capacity : Z) (ops : list ts_op) :
  0 <= capacity ->
  exists t, ts_run ops (new_series capacity) = Ok t /\
    samples t = Ok (last_n (Z.max capacity 1) (since_clear ops)) /\
    ts_size t = Z.min (Z.max capacity 1) (len (since_clear ops)).
Proof.
  intros Hc. set (cap := Z.max capacity 1).
  assert (Hcap : 0 < cap) by lia.
  assert (Hnew : new_series capacity = mk_series cap (replicate (Z.to_nat cap) (mk_sample 0 d_zero)) 0 0).
  { unfold new_series, cap. destruct (Z.ltb_spec 0 capacity); do 2 f_equal; lia. }
  destruct (ts_run_holds cap ops Hcap [] (new_series capacity)) as (t & Hrun & Ht).
  { rewrite Hnew, last_n_small by (rewrite ?len_nil; lia). by apply holds_new. }
  exists t. split; [done|]. split; [by apply (holds_samples cap)|].
  destruct Ht as (_ & _ & _ & Hu & _). unfold ts_size. rewrite Hu. unfold since_clear, last_n. len_lia.
Qed.

Lemma time_series_refines_window_witness :
  exists t, ts_run [TsPush 1 d_one; TsClear; TsPush 2 d_one; TsPush 3 d_zero; TsPush 4 d_one] (new_series 2) = Ok t /\
    samples t = Ok [mk_sample 3 d_zero; mk_sample 4 d_one].
Proof.
  destruct (time_series_refines_window 2 [TsPush 1 d_one; TsClear; TsPush 2 d_one; TsPush 3 d_zero; TsPush 4 d_one])
    as (t & Hr & Hs & _); [done|].
  exists t. split; [exact Hr|]. rewrite Hs. reflexivity.
Defined.

(** ** The statistics *)

Lemma length_insert_sorted x l : length (insert_sorted x l) = S (length l).
Proof. induction l as [|y l IH]; cbn; [done|]. destruct (d_lt y x); cbn; by rewrite ?IH. Qed.

Lemma len_sorted l : len (sorted l) = len l.
Proof.
  unfold len. f_equal. induction l as [|x l IH]; [done|]. change (sorted (x :: l)) with (insert_sorted x (sorted l)).
  by rewrite length_insert_sorted, IH.
Qed.

Definition numbers (l : list double) : Prop := Forall (fun x => d_isnan x = false) l.

Lemma d_le_refl x : d_isnan x = false -> d_le x x = true.
Proof. intros H. apply d_lt_total; [done..|]. apply d_lt_irrefl. Qed.

(** A fold that keeps the better of two by a relation returns an element no other one beats. *)
Lemma fold_best (R : double -> double -> bool) :
  (forall x y z, R x y = true -> R y z = true -> R x z = true) ->
  (forall x, d_isnan x = false -> R x x = true) ->
  forall better, (forall m v, d_isnan m = false -> d_isnan v = false -> R (if better v m : bool then v else m) m = true /\ R (if better v m then v else m) v = true) ->
  forall l m, d_isnan m = false -> numbers l ->
  let b := foldl (fun m v => if better v m then v else m) m l in
  b ∈ m :: l /\ Forall (fun v => R b v = true) (m :: l).
Proof.
  intros Htr Hrefl better Hb l. induction l as [|v l IH]; intros m Hm Hl; cbn [foldl].
  - split; [by left|]. constructor; [by apply Hrefl|constructor].
  - apply Forall_cons in Hl as [Hv Hl]. destruct (Hb m v Hm Hv) as [H1 H2].
    destruct (IH (if better v m then v else m)) as [Hin Hall]; [by destruct (better v m)|done|].
    apply Forall_cons in Hall as [Hh Hall]. split.
    + apply elem_of_cons in Hin as [->|Hin]; [destruct (better v m); set_solver|set_solver].
    + constructor; [by eapply Htr|]. constructor; [by eapply Htr|done].
Qed.

Lemma min_element_spec x l : d_isnan x = false -> numbers l ->
  min_element x l ∈ x :: l /\ Forall (fun v => d_le (min_element x l) v = true) (x :: l).
Proof.
  intros Hx Hl. apply (fold_best d_le); [apply d_le_trans|apply d_le_refl| |done..].
  intros m v Hm Hv. destruct (d_lt v m) eqn:E.
  - split; [by apply d_lt_le|by apply d_le_refl].
  - split; [by apply d_le_refl|by apply d_lt_total].
Qed.

Lemma max_element_spec x l : d_isnan x = false -> numbers l ->
  max_element x l ∈ x :: l /\ Forall (fun v => d_le v (max_element x l) = true) (x :: l).
Proof.
  intros Hx Hl. apply (fold_best (fun a b => d_le b a)) with (better := fun v m => d_lt m v);
    [intros a b c H1 H2; by eapply d_le_trans|apply d_le_refl| |done..].
  intros m v Hm Hv. destruct (d_lt m v) eqn:E.
  - split; [by apply d_lt_le|by apply d_le_refl].
  - split; [by apply d_le_refl|by apply d_lt_total].
Qed.

(** The largest number of samples for which the percentile indices are evaluated below. *)
Definition max_samples : Z := 4096.

Definition index_ok (q : double) (n : Z) : bool :=
  let i := d_trunc (pct_index n q) in (0 <=? i) && (i <=? n - 1).

Lemma indices_ok n q : 1 <= n <= max_samples -> q ∈ [d_frac 50 100; d_frac 95 100; d_frac 99 100] ->
  0 <= d_trunc (pct_index n q) <= n - 1.
Proof.
  intros Hn Hq.
  assert (H : forallb (fun q => forallb (index_ok q) (seqZ 1 max_samples)) [d_frac 50 100; d_frac 95 100; d_frac 99 100] = true)
    by (vm_compute; reflexivity).
  rewrite forallb_forall in H. specialize (H q (proj1 (list_elem_of_In _ _) Hq)). rewrite forallb_forall in H.
  specialize (H n). unfold index_ok in H. rewrite <- list_elem_of_In, elem_of_seqZ in H.
  specialize (H ltac:(unfold max_samples in *; lia)). lia.
Qed.

Lemma pct_ok l q : 1 <= len l <= max_samples -> q ∈ [d_frac 50 100; d_frac 95 100; d_frac 99 100] -> exists p, pct l q = Ok p.
Proof.
  intros Hl Hq. pose proof (indices_ok (len l) q Hl Hq) as Hi. unfold pct.
  destruct (load_in_bounds l (d_trunc (pct_index (len l) q))) as (a & -> & _); [lia|].
  destruct (load_in_bounds l (Z.min (d_trunc (pct_index (len l) q) + 1) (len l - 1))) as (b & -> & _); [lia|].
  by eauto.
Qed.

(** The statistics of a non-empty series of at most 4096 numbers exist: the percentiles
    never index outside the sorted values. The count is the number of samples, and the
    minimum and the maximum are samples that no other sample is below or above. *)
Theorem series_statistics_sound (t : TimeSeries) (sm : list TsSample) :
  samples t = Ok sm -> 1 <= len sm <= max_samples -> numbers (map value sm) ->
  exists s, stats t = Ok (Some s) /\ ts_count s = len sm /\
    ts_min s ∈ map value sm /\ ts_max s ∈ map value sm /\
    Forall (fun v => d_le (ts_min s) v = true /\ d_le v (ts_max s) = true) (map value sm).
Proof.
  intros Hs Hn Hv. unfold stats. rewrite Hs. destruct sm as [|x sm]; [len_lia|]. cbn [map] in *.
  apply Forall_cons in Hv as [Hx Hv]. unfold compute_stats.
  assert (Hl : 1 <= len (sorted (value x :: map value sm)) <= max_samples).
  { rewrite len_sorted. autorewrite with len in *. lia. }
  destruct (pct_ok _ (d_frac 50 100) Hl) as [a Ha]; [rewrite !elem_of_cons; by auto|].
  destruct (pct_ok _ (d_frac 95 100) Hl) as [b Hb]; [rewrite !elem_of_cons; by auto|].
  destruct (pct_ok _ (d_frac 99 100) Hl) as [c Hc]; [rewrite !elem_of_cons; by auto|].
  rewrite Ha, Hb, Hc. eexists. split; [done|]. cbn.
  destruct (min_element_spec (value x) (map value sm)) as [Hmi Hma]; [done..|].
  destruct (max_element_spec (value x) (map value sm)) as [Hxi Hxa]; [done..|].
  split; [autorewrite with len; lia|]. split; [done|]. split; [done|].
  apply Forall_forall. intros v Hin. rewrite Forall_forall in Hma, Hxa. auto.
Qed.

Definition three_samples : TimeSeries :=
  mk_series 4 [mk_sample 1 (d_int 5); mk_sample 2 (d_int 3); mk_sample 3 (d_int 9); mk_sample 0 d_zero] 3 3.

Lemma series_statistics_sound_witness :
  exists s, stats three_samples = Ok (Some s) /\ ts_count s = 3.
Proof.
  destruct (series_statistics_sound three_samples [mk_sample 1 (d_int 5); mk_sample 2 (d_int 3); mk_sample 3 (d_int 9)])
    as (s & Hs & Hc & _).
  - reflexivity.
  - split; done.
  - repeat constructor.
  - exists s. split; [exact Hs|exact Hc].
Defined.

(** One infinite sample has no percentiles: infinity times a zero fraction is not a number. *)
Example infinite_sample_percentile :
  pct [S754_infinity false] (d_frac 50 100) = Ok S754_nan.
Proof. reflexivity. Qed.

(* src/inc/health_check.hpp:18-22 *)
Inductive HealthStatus := kHealthy | kDegraded | kUnhealthy.

#[export] Instance health_status_eq_dec : EqDecision HealthStatus.
Proof. solve_decision. Defined.

Definition status_int (s : HealthStatus) : Z := match s with kHealthy => 0 | kDegraded => 1 | kUnhealthy => 2 end.

(* src/inc/health_check.hpp:24-28 *)
Record ProbeResult := mk_probe { pr_status : HealthStatus; pr_detail : cstring; checked_at : Z }.

(** What a call of a probe does. *)
Inductive outcome := Returns (r : ProbeResult) | ThrowsException (what : cstring) | ThrowsOther.

(** A registered function. *)
Definition ProbeFn : Type := Z.

(* src/inc/health_check.hpp:60-61 *)
Record HealthCheck := mk_health { probes_ : gmap cstring ProbeFn; last_ : gmap cstring ProbeResult }.
Definition new_health : HealthCheck := mk_health ∅ ∅.

(* src/src/health_check.cpp:8-15 *)
Definition to_string (s : HealthStatus) : cstring :=
  match s with
  | kHealthy => lit "healthy"
  | kDegraded => lit "degraded"
  | kUnhealthy => lit "unhealthy"
  end.

(* src/src/health_check.cpp:17-20 *)
Definition register_probe (name : cstring) (fn : ProbeFn) (h : HealthCheck) : HealthCheck :=
  mk_health (<[name := fn]> (probes_ h)) (last_ h).

(* src/src/health_check.cpp:22-26 *)
Definition unregister_probe (name : cstring) (h : HealthCheck) : HealthCheck :=
  mk_health (delete name (probes_ h)) (delete name (last_ h)).

Section orders.
Context (probe_order : gmap cstring ProbeFn -> list (cstring * ProbeFn))
        (result_order : gmap cstring ProbeResult -> list (cstring * ProbeResult)).

(** The first critical section of [run_all]: the registered probes. *)
(* src/src/health_check.cpp:29-35 HealthCheck::run_all *)
Definition run_snapshot (h : HealthCheck) : list (cstring * ProbeFn) := probe_order (probes_ h).

(** Calling one probe. *)
(* src/src/health_check.cpp:39-52 HealthCheck::run_all *)
Definition probe_result (now : Z) (o : outcome) : ProbeResult :=
  match o with
  | Returns r => mk_probe (pr_status r) (pr_detail r) now
  | ThrowsException what => mk_probe kUnhealthy (lit "probe threw: " ++ what) now
  | ThrowsOther => mk_probe kUnhealthy (lit "probe threw unknown exception") now
  end.

(** The calls of the probes and the second critical section. *)
(* src/src/health_check.cpp:37-55 HealthCheck::run_all *)
Definition run_finish (now : Z) (call : ProbeFn -> outcome) (snapshot : list (cstring * ProbeFn)) (h : HealthCheck) : HealthCheck :=
  let results := foldl (fun m p => <[p.1 := probe_result now (call p.2)]> m) ∅ snapshot in
  mk_health (probes_ h) results.

(* src/src/health_check.cpp:28-56 *)
Definition run_all (now : Z) (call : ProbeFn -> outcome) (h : HealthCheck) : HealthCheck :=
  run_finish now call (run_snapshot h) h.

(* src/src/health_check.cpp:63-69 *)
Definition aggregate_locked (h : HealthCheck) : HealthStatus :=
  foldl (fun worst p => if status_int worst <? status_int (pr_status p.2) then pr_status p.2 else worst) kHealthy (result_order (last_ h)).

(* src/src/health_check.cpp:58-61 *)
Definition aggregate (h : HealthCheck) : HealthStatus := aggregate_locked h.

Definition q : cstring := [34].
Definition nl : cstring := [10].

(* src/src/health_check.cpp:80-86 HealthCheck::render *)
Definition render_probe (first : bool) (p : cstring * ProbeResult) : cstring :=
  (if first then [] else lit "," ++ nl) ++
  lit "    {" ++ q ++ lit "name" ++ q ++ lit ":" ++ q ++ p.1 ++ q ++ lit "," ++
  q ++ lit "status" ++ q ++ lit ":" ++ q ++ to_string (pr_status p.2) ++ q ++ lit "," ++
  q ++ lit "detail" ++ q ++ lit ":" ++ q ++ pr_detail p.2 ++ q ++ lit "}".

(* src/src/health_check.cpp:71-95 *)
Definition health_render (h : HealthCheck) : cstring :=
  lit "{" ++ nl ++
  lit "  " ++ q ++ lit "status" ++ q ++ lit ": " ++ q ++ to_string (aggregate_locked h) ++ q ++ lit "," ++ nl ++
  lit "  " ++ q ++ lit "probes" ++ q ++ lit ": [" ++ nl ++
  (foldl (fun st p => (st.1 ++ render_probe st.2 p, false)) ([], true) (result_order (last_ h))).1 ++
  nl ++ lit "  ]" ++ nl ++ lit "}" ++ nl.

(* src/src/health_check.cpp:97-100 *)
Definition probe_count (h : HealthCheck) : Z := Z.of_nat (size (probes_ h)).

(** ** The aggregate is the worst status *)

Context (Hprobes : forall m, probe_order m ≡ₚ map_to_list m) (Hresults : forall m, result_order m ≡ₚ map_to_list m).

Lemma worst_fold (l : list (cstring * ProbeResult)) w :
  let r := foldl (fun worst p => if status_int worst <? status_int (pr_status p.2) then pr_status p.2 else worst) w l in
  status_int w <= status_int r /\ Forall (fun p => status_int (pr_status p.2) <= status_int r) l /\
  (r = w \/ exists p, p ∈ l /\ pr_status p.2 = r).
Proof.
  revert w. induction l as [|p l IH]; intros w; cbn [foldl]; [split_and!; auto; lia|].
  specialize (IH (if status_int w <? status_int (pr_status p.2) then pr_status p.2 else w)). cbn zeta in IH.
  destruct IH as (Hw & Hall & Hex).
  destruct (Z.ltb_spec (status_int w) (status_int (pr_status p.2))) as [Hlt|Hge].
  - split; [lia|]. split; [by constructor|]. right. destruct Hex as [E|(p' & Hin & E)]; [exists p|exists p']; (split; [set_solver|done]).
  - split; [lia|]. split; [constructor; [lia|done]|]. destruct Hex as [E|(p' & Hin & E)]; [by left|right; exists p'; set_solver].
Qed.

Lemma aggregate_spec h :
  (forall n r, last_ h !! n = Some r -> status_int (pr_status r) <= status_int (aggregate h)) /\
  (aggregate h = kHealthy \/ exists n r, last_ h !! n = Some r /\ pr_status r = aggregate h).
Proof.
  unfold aggregate, aggregate_locked. destruct (worst_fold (result_order (last_ h)) kHealthy) as (_ & Hall & Hex). split.
  - intros n r Hn. rewrite Forall_forall in Hall. apply (Hall (n, r)). rewrite Hresults. by apply elem_of_map_to_list.
  - destruct Hex as [E|((n & r) & Hin & E)]; [by left|right]. exists n, r. rewrite Hresults in Hin. by apply elem_of_map_to_list in Hin.
Qed.

Lemma results_spec now call (l : list (cstring * ProbeFn)) : NoDup l.*1 -> forall (m : gmap cstring ProbeResult) n,
  foldl (fun m p => <[p.1 := probe_result now (call p.2)]> m) m l !! n =
  match (list_to_map l : gmap cstring ProbeFn) !! n with Some f => Some (probe_result now (call f)) | None => m !! n end.
Proof.
  induction l as [|[k f] l IH]; intros Hnd m n; cbn [foldl]; [done|].
  apply NoDup_cons in Hnd as [Hk Hnd]. rewrite IH by done. 
  change (list_to_map ((k, f) :: l)) with (<[k := f]> (list_to_map l : gmap cstring ProbeFn)).
  destruct (decide (k = n)) as [<-|Hne].
  - rewrite !lookup_insert_eq. by rewrite (not_elem_of_list_to_map_1 l k Hk).
  - by rewrite !lookup_insert_ne by done.
Qed.

(** A run records exactly the registered probes. *)
Lemma run_all_last now call h n :
  last_ (run_all now call h) !! n = (fun f => probe_result now (call f)) <$> probes_ h !! n.
Proof.
  unfold run_all, run_finish, run_snapshot. cbn [last_]. rewrite results_spec.
  - rewrite (list_to_map_proper _ (map_to_list (probes_ h))), list_to_map_to_list; [|by rewrite Hprobes; apply NoDup_fst_map_to_list|done].
    by destruct (probes_ h !! n).
  - rewrite Hprobes. apply NoDup_fst_map_to_list.
Qed.

Definition outcome_status (o : outcome) : HealthStatus := match o with Returns r => pr_status r | _ => kUnhealthy end.

Lemma probe_result_status now o : pr_status (probe_result now o) = outcome_status o.
Proof. by destruct o. Qed.

(** After a run the aggregate is the worst status of the registered probes. It is healthy
    exactly when every registered probe returned healthy, unhealthy exactly when one of them
    returned unhealthy or threw, whatever the hash tables' iteration orders; and the
    results are those of the registered probes, one each, with the time of this run. *)
Theorem health_reports_worst (now : Z) (call : ProbeFn -> outcome) (h : HealthCheck) :
  let h' := run_all now call h in
  (aggregate h' = kHealthy <-> forall n f, probes_ h !! n = Some f -> outcome_status (call f) = kHealthy) /\
  (aggregate h' = kUnhealthy <-> exists n f, probes_ h !! n = Some f /\ outcome_status (call f) = kUnhealthy) /\
  (forall n, last_ h' !! n = (fun f => probe_result now (call f)) <$> probes_ h !! n) /\
  probes_ h' = probes_ h.
Proof.
  cbn zeta. set (h' := run_all now call h). destruct (aggregate_spec h') as [Hge Hat].
  assert (Hl : forall n f, probes_ h !! n = Some f -> status_int (outcome_status (call f)) <= status_int (aggregate h')).
  { intros n f Hn. rewrite <- (probe_result_status now). apply (Hge n). unfold h'. by rewrite run_all_last, Hn. }
  assert (Hr : aggregate h' = kHealthy \/ exists n f, probes_ h !! n = Some f /\ outcome_status (call f) = aggregate h').
  { destruct Hat as [E|(n & r & Hn & E)]; [by left|right]. unfold h' in Hn. rewrite run_all_last in Hn.
    apply fmap_Some in Hn as (f & Hn & ->). exists n, f. by rewrite <- (probe_result_status now). }
  split_and!; [| |intros n; apply run_all_last|done].
  - split.
    + intros E n f Hn. specialize (Hl n f Hn). rewrite E in Hl. by destruct (outcome_status (call f)).
    + intros Hall. destruct Hr as [E|(n & f & Hn & E)]; [done|]. rewrite <- E. by eapply Hall.
  - split.
    + intros E. destruct Hr as [E'|(n & f & Hn & E')]; [congruence|]. exists n, f. by rewrite <- E.
    + intros (n & f & Hn & E). specialize (Hl n f Hn). rewrite E in Hl. by destruct (aggregate h').
Qed.

(** ** Calls one after the other keep the results to registered probes *)

Inductive health_op := HRegister (name : cstring) (fn : ProbeFn) | HUnregister (name : cstring) | HRun (now : Z) (call : ProbeFn -> outcome).

Definition health_step (h : HealthCheck) (o : health_op) : HealthCheck :=
  match o with
  | HRegister n f => register_probe n f h
  | HUnregister n => unregister_probe n h
  | HRun now call => run_all now call h
  end.

(** The results of calls that do not overlap are results of registered probes. *)
Lemma results_registered ops :
  let h := foldl health_step new_health ops in dom (last_ h) ⊆ dom (probes_ h).
Proof.
  cbn zeta. assert (H0 : dom (last_ new_health) ⊆ dom (probes_ new_health)) by done. revert H0.
  generalize new_health. induction ops as [|o ops IH]; intros h H0; cbn [foldl]; [done|]. apply IH.
  destruct o as [n f|n|now call]; cbn.
  - rewrite dom_insert. set_solver.
  - rewrite !dom_delete. set_solver.
  - intros n Hn. change (n ∈ dom (last_ (run_all now call h))) in Hn. apply elem_of_dom in Hn as [r Hr].
    rewrite run_all_last in Hr. apply fmap_Some in Hr as (f & Hf & _). apply elem_of_dom. eauto.
Qed.

End orders.

Lemma health_reports_worst_witness :
  let h := register_probe (lit "disk") 2 (register_probe (lit "db") 1 new_health) in
  let call := fun f => if f =? 1 then Returns (mk_probe kDegraded [] 0) else ThrowsOther in
  aggregate map_to_list (run_all map_to_list 7 call h) = kUnhealthy.
Proof.
  cbn zeta.
  destruct (health_reports_worst map_to_list map_to_list (fun m => Permutation_refl _) (fun m => Permutation_refl _) 7
    (fun f => if f =? 1 then Returns (mk_probe kDegraded [] 0) else ThrowsOther)
    (register_probe (lit "disk") 2 (register_probe (lit "db") 1 new_health))) as (_ & [_ H] & _).
  apply H. exists (lit "disk"), 2. split; reflexivity.
Defined.

(** A probe that is removed while a run is in progress comes back with the run's results, and
    counts in the aggregate until the next run. *)
Example removed_probe_returns :
  let h0 := register_probe (lit "db") 1 new_health in
  let snapshot := run_snapshot map_to_list h0 in
  let h1 := unregister_probe (lit "db") h0 in
  let h2 := run_finish 5 (fun _ => ThrowsOther) snapshot h1 in
  probe_count h2 = 0 /\ aggregate map_to_list h2 = kUnhealthy.
Proof. split; reflexivity. Qed.

(** Names and details are printed as they are: a detail with quotes prints the same report as
    one more probe would. *)
Example detail_forges_probe :
  let forged := lit "x" ++ q ++ lit "}," ++ nl ++ lit "    {" ++ q ++ lit "name" ++ q ++ lit ":" ++ q ++ lit "db" ++ q ++ lit "," ++
                q ++ lit "status" ++ q ++ lit ":" ++ q ++ lit "healthy" ++ q ++ lit "," ++ q ++ lit "detail" ++ q ++ lit ":" ++ q ++ lit "y" in
  let one := mk_health ∅ {[ lit "a" := mk_probe kHealthy forged 0 ]} in
  let two := mk_health ∅ {[ lit "a" := mk_probe kHealthy (lit "x") 0; lit "db" := mk_probe kHealthy (lit "y") 0 ]} in
  health_render map_to_list one = health_render (fun m => reverse (map_to_list m)) two.
Proof. vm_compute. reflexivity. Qed.
