(* ===== verification/Metrics.v ===== *)
(** The metrics registry ([src/metrics_registry.cpp]), the counters of the beacon subsystem
    ([src/inc/beacon_metrics.hpp]) and the diagnostic record of a connection
    ([src/connection_diag.cpp]). A reference to a counter or gauge is the key of its series:
    series are never removed. A label set is its list of pairs in the map's order. The
    iteration order of the hash table and the text the stream prints for a double are
    arguments. *)

From stdpp Require Import gmap.
From Stdlib Require Import String.
From S2P Require Import Prelude Ctype KeySched Hex Alert StringUtil Double.
Local Open Scope Z_scope.

(* src/inc/metrics_registry.hpp:25-25 *)
Definition LabelSet : Type := list (cstring * cstring).

#[export] Instance label_set_eq_dec : EqDecision LabelSet.
Proof. unfold LabelSet. solve_decision. Defined.
#[export] Instance label_set_countable : Countable LabelSet.
Proof. unfold LabelSet. apply _. Defined.

(* src/inc/metrics_registry.hpp:71-76 *)
Record Series := mk_mseries { s_name : cstring; s_labels : LabelSet; s_counter : option Z; s_gauge : option double }.

(* src/inc/metrics_registry.hpp:81-81 *)
Record MetricsRegistry := mk_registry { series_ : gmap cstring Series }.
Definition new_registry : MetricsRegistry := mk_registry ∅.

(* src/src/metrics_registry.cpp:8-22 *)
Definition make_key (name : cstring) (labels : LabelSet) : cstring :=
  (foldl (fun st kv => (st.1 ++ (if st.2 : bool then [] else [44]) ++ kv.1 ++ [61] ++ kv.2, false)) (name ++ [123], true) labels).1 ++ [125].

(* src/src/metrics_registry.cpp:24-40 *)
Definition counter (name : cstring) (labels : LabelSet) (r : MetricsRegistry) : MetricsRegistry :=
  let key := make_key name labels in
  let s := match series_ r !! key with None => mk_mseries name labels (Some 0) None | Some s => s end in
  let s := match s_counter s with None => mk_mseries (s_name s) (s_labels s) (Some 0) (s_gauge s) | Some _ => s end in
  mk_registry (<[key := s]> (series_ r)).

(* src/src/metrics_registry.cpp:42-58 *)
Definition gauge (name : cstring) (labels : LabelSet) (r : MetricsRegistry) : MetricsRegistry :=
  let key := make_key name labels in
  let s := match series_ r !! key with None => mk_mseries name labels None (Some d_zero) | Some s => s end in
  let s := match s_gauge s with None => mk_mseries (s_name s) (s_labels s) (s_counter s) (Some d_zero) | Some _ => s end in
  mk_registry (<[key := s]> (series_ r)).

(** Through the reference to the counter or gauge of the series [key]. *)
(* src/inc/metrics_registry.hpp:29-31 Counter::inc *)
Definition counter_inc (key : cstring) (by_ : Z) (r : MetricsRegistry) : MetricsRegistry :=
  mk_registry (alter (fun s => mk_mseries (s_name s) (s_labels s) ((fun v => u64 (v + by_)) <$> s_counter s) (s_gauge s)) key (series_ r)).
(* src/inc/metrics_registry.hpp:32-34 Counter::value *)
Definition counter_value (key : cstring) (r : MetricsRegistry) : option Z := series_ r !! key ≫= s_counter.
(* src/inc/metrics_registry.hpp:41-46 Gauge::set *)
Definition gauge_set (key : cstring) (v : double) (r : MetricsRegistry) : MetricsRegistry :=
  mk_registry (alter (fun s => mk_mseries (s_name s) (s_labels s) (s_counter s) ((fun _ => v) <$> s_gauge s)) key (series_ r)).
(* src/inc/metrics_registry.hpp:49-54 Gauge::value *)
Definition gauge_value (key : cstring) (r : MetricsRegistry) : option double := series_ r !! key ≫= s_gauge.
(** A load, an addition and a store. *)
(* src/inc/metrics_registry.hpp:47-47 Gauge::inc *)
Definition gauge_inc (key : cstring) (d : double) (r : MetricsRegistry) : MetricsRegistry :=
  match gauge_value key r with Some v => gauge_set key (d_add v d) r | None => r end.
(* src/inc/metrics_registry.hpp:48-48 Gauge::dec *)
Definition gauge_dec (key : cstring) (d : double) (r : MetricsRegistry) : MetricsRegistry :=
  match gauge_value key r with Some v => gauge_set key (d_sub v d) r | None => r end.

(* src/src/metrics_registry.cpp:60-70 *)
Definition render_labels (labels : LabelSet) : cstring :=
  match labels with
  | [] => []
  | _ => lit "{" ++
      (foldl (fun st kv => (st.1 ++ (if st.2 : bool then [] else lit ",") ++ kv.1 ++ lit "=" ++ [34] ++ kv.2 ++ [34], false)) ([], true) labels).1 ++
      lit "}"
  end.

Section render.
Context (order : gmap cstring Series -> list (cstring * Series)) (show_double : double -> cstring).

(* src/src/metrics_registry.cpp:74-87 MetricsRegistry::render *)
Definition render_series (s : Series) : cstring :=
  match s_counter s with
  | Some v => lit "# TYPE " ++ s_name s ++ lit " counter" ++ [10] ++ s_name s ++ render_labels (s_labels s) ++ lit " " ++ dec 20 v ++ [10]
  | None => []
  end ++
  match s_gauge s with
  | Some v => lit "# TYPE " ++ s_name s ++ lit " gauge" ++ [10] ++ s_name s ++ render_labels (s_labels s) ++ lit " " ++ show_double v ++ [10]
  | None => []
  end.

(* src/src/metrics_registry.cpp:72-94 *)
Definition registry_render (r : MetricsRegistry) : cstring := order (series_ r) ≫= fun p => render_series p.2.
End render.

(* src/src/metrics_registry.cpp:96-99 *)
Definition series_count (r : MetricsRegistry) : Z := Z.of_nat (size (series_ r)).

(** ** Keys *)

(** Names and labels whose keys cannot be confused: no brace in the name, no comma in a label
    and no equals sign in its name. *)
Definition clean (name : cstring) (labels : LabelSet) : Prop :=
  (123 ∉ name) /\ Forall (fun kv => (44 ∉ kv.1) /\ (61 ∉ kv.1) /\ (44 ∉ kv.2)) labels.

Definition label_text (kv : cstring * cstring) : cstring := kv.1 ++ [61] ++ kv.2.
Definition labels_text (labels : LabelSet) : cstring :=
  match map label_text labels with [] => [] | g :: gs => joined g gs [44] end.

Lemma make_key_spec name labels : make_key name labels = name ++ [123] ++ labels_text labels ++ [125].
Proof.
  unfold make_key.
  assert (H : forall ls acc, (foldl (fun st kv => (st.1 ++ (if st.2 : bool then [] else [44]) ++ kv.1 ++ [61] ++ kv.2, false))
    (acc, false) ls).1 = acc ++ mjoin (map (fun kv => [44] ++ label_text kv) ls)).
  { induction ls as [|kv ls IH]; intros acc; cbn [foldl]; [by rewrite app_nil_r|]. cbn [fst snd]. rewrite IH.
    unfold label_text. cbn [map mjoin list_join]. by rewrite <- !app_assoc. }
  destruct labels as [|kv ls]; cbn [foldl fst snd]; [by rewrite <- app_assoc|]. rewrite H, <- !app_assoc. do 2 f_equal.
  unfold labels_text. cbn [map]. change ([] ++ ?l) with l. rewrite !app_assoc. f_equal.
  rewrite <- (app_assoc kv.1). change (kv.1 ++ [61] ++ kv.2) with (label_text kv).
  generalize (label_text kv).
  induction ls as [|kv' ls IH]; intros g; cbn [map mjoin list_join joined]; [by rewrite app_nil_r|].
  by rewrite <- (IH (label_text kv')), <- !app_assoc.
Qed.

Lemma first_sep_inj (x : Z) a b a' b' : x ∉ a -> x ∉ a' -> a ++ x :: b = a' ++ x :: b' -> a = a' /\ b = b'.
Proof.
  revert a'. induction a as [|c a IH]; intros [|c' a'] Ha Ha'; cbn; rewrite ?not_elem_of_cons in *.
  - by intros [= <-].
  - intros [= -> _]. by destruct Ha'.
  - intros [= -> _]. by destruct Ha.
  - intros [= <- E]. by destruct (IH a') as [-> ->]; [destruct Ha; done|destruct Ha'; done|..].
Qed.

Lemma label_text_free kv : (44 ∉ kv.1) /\ (61 ∉ kv.1) /\ (44 ∉ kv.2) -> 44 ∉ label_text kv.
Proof. intros (H1 & _ & H2). unfold label_text. set_solver. Qed.

Lemma labels_text_inj ls ls' :
  Forall (fun kv => (44 ∉ kv.1) /\ (61 ∉ kv.1) /\ (44 ∉ kv.2)) ls ->
  Forall (fun kv => (44 ∉ kv.1) /\ (61 ∉ kv.1) /\ (44 ∉ kv.2)) ls' ->
  labels_text ls = labels_text ls' -> ls = ls'.
Proof.
  intros Hl Hl' E.
  assert (Hseg : forall l, Forall (fun kv => (44 ∉ kv.1) /\ (61 ∉ kv.1) /\ (44 ∉ kv.2)) l -> l <> [] ->
    split_segs 44 (labels_text l) = map label_text l).
  { intros [|kv l] H Hne; [done|]. unfold labels_text. cbn [map]. apply segs_joined.
    change (label_text kv :: map label_text l) with (map label_text (kv :: l)). apply Forall_map.
    eapply Forall_impl; [done|]. apply label_text_free. }
  assert (Hne : forall kv l, labels_text (kv :: l) <> []).
  { intros [k v] l. unfold labels_text. cbn [map]. destruct (map label_text l); cbn [joined]; by destruct k. }
  destruct ls as [|kv ls], ls' as [|kv' ls']; [done| | |].
  - by destruct (Hne kv' ls').
  - by destruct (Hne kv ls).
  - pose proof (Hseg _ Hl ltac:(done)) as E1. pose proof (Hseg _ Hl' ltac:(done)) as E2. rewrite E, E2 in E1. clear E E2 Hseg Hne.
    revert Hl Hl' E1. generalize (kv :: ls) (kv' :: ls'). clear. induction l as [|[k v] l IH]; intros [|[k' v'] l'] H H' E; try done.
    cbn [map] in E. unfold label_text at 1 3 in E. cbn [fst snd] in E.
    apply Forall_cons in H as [(Hk & Hk2 & _) H]. apply Forall_cons in H' as [(Hk' & Hk2' & _) H']. cbn [fst snd] in *.
    injection E as E0 E. destruct (first_sep_inj 61 k' v' k v) as [-> ->]; [done..|]. f_equal. by apply IH.
Qed.

(** Distinct series of clean names have distinct keys. *)
Lemma make_key_inj n ls n' ls' : clean n ls -> clean n' ls' -> make_key n ls = make_key n' ls' -> (n, ls) = (n', ls').
Proof.
  intros [Hn Hl] [Hn' Hl']. rewrite !make_key_spec. intros E. apply first_sep_inj in E as [-> E]; [|done..].
  apply app_inj_2 in E as [E _]; [|done]. f_equal. by apply labels_text_inj.
Qed.

(** ** The registry refines a map from series to values *)

Inductive metric_op :=
| MInc (name : cstring) (labels : LabelSet) (by_ : Z)
| MSet (name : cstring) (labels : LabelSet) (v : double)
| MAdd (name : cstring) (labels : LabelSet) (d : double)
| MSub (name : cstring) (labels : LabelSet) (d : double).

Definition op_series (o : metric_op) : cstring * LabelSet :=
  match o with MInc n ls _ | MSet n ls _ | MAdd n ls _ | MSub n ls _ => (n, ls) end.

Definition metric_step (r : MetricsRegistry) (o : metric_op) : MetricsRegistry :=
  match o with
  | MInc n ls by_ => counter_inc (make_key n ls) by_ (counter n ls r)
  | MSet n ls v => gauge_set (make_key n ls) v (gauge n ls r)
  | MAdd n ls d => gauge_inc (make_key n ls) d (gauge n ls r)
  | MSub n ls d => gauge_dec (make_key n ls) d (gauge n ls r)
  end.

(** The specification: what an operation does to the pair of values of its own series. *)
Definition spec_update (o : metric_op) (v : option Z * option double) : option Z * option double :=
  match o with
  | MInc _ _ by_ => (Some (u64 (default 0 v.1 + by_)), v.2)
  | MSet _ _ x => (v.1, Some x)
  | MAdd _ _ d => (v.1, Some (d_add (default d_zero v.2) d))
  | MSub _ _ d => (v.1, Some (d_sub (default d_zero v.2) d))
  end.

Definition spec_value (ops : list metric_op) (p : cstring * LabelSet) : option Z * option double :=
  foldl (fun v o => if bool_decide (op_series o = p) then spec_update o v else v) (None, None) ops.

Definition registry_value (r : MetricsRegistry) (p : cstring * LabelSet) : option Z * option double :=
  (counter_value (make_key p.1 p.2) r, gauge_value (make_key p.1 p.2) r).

Lemma step_own r o : registry_value (metric_step r o) (op_series o) = spec_update o (registry_value r (op_series o)).
Proof.
  destruct r as [m]. unfold registry_value, counter_value, gauge_value.
  destruct o as [n ls b|n ls v|n ls d|n ls d]; cbn [op_series metric_step spec_update fst snd];
    unfold counter_inc, gauge_inc, gauge_dec, gauge_set, gauge_value, counter, gauge; cbn [series_];
    rewrite ?lookup_insert_eq; cbn; destruct (m !! make_key n ls) as [[sn sl [c|] [g|]]|]; cbn;
    rewrite ?lookup_alter_eq, ?lookup_insert_eq; done.
Qed.

Lemma step_other r o key : key <> make_key (op_series o).1 (op_series o).2 -> series_ (metric_step r o) !! key = series_ r !! key.
Proof.
  intros Hne. destruct r as [m].
  destruct o as [n ls b|n ls v|n ls d|n ls d]; cbn [op_series fst snd] in Hne; cbn [metric_step];
    unfold counter_inc, gauge_inc, gauge_dec, gauge_set, gauge_value, counter, gauge; cbn [series_].
  1,2: by rewrite lookup_alter_ne, lookup_insert_ne by congruence.
  all: rewrite lookup_insert_eq; cbn; destruct (match m !! _ with Some _ => _ | None => _ end) as [sn sl sc [g|]]; cbn;
    by rewrite ?lookup_alter_ne, lookup_insert_ne by congruence.
Qed.

(** The registry keeps one value per name and label set. When no name holds an opening
    brace, no label a comma and no label name an equals sign, then after any sequence of
    increments and gauge updates the counter of a series is the sum modulo 2^64 of its own
    increments and its gauge the result of its own updates in order: no series sees another
    one's operations. *)
Theorem registry_series_independent (ops : list metric_op) (p : cstring * LabelSet) :
  Forall (fun o => clean (op_series o).1 (op_series o).2) ops -> clean p.1 p.2 ->
  registry_value (foldl metric_step new_registry ops) p = spec_value ops p.
Proof.
  intros Hops Hp. unfold spec_value.
  assert (H0 : registry_value new_registry p = (None, None)) by done. revert H0. generalize new_registry (@None Z, @None double).
  induction ops as [|o ops IH]; intros r v H0; cbn [foldl]; [done|].
  apply Forall_cons in Hops as [Ho Hops]. apply IH; [done|].
  case_bool_decide as E; [by rewrite <- E, step_own, E, H0|]. rewrite <- H0.
  assert (Hk : make_key p.1 p.2 <> make_key (op_series o).1 (op_series o).2).
  { intros Ek. apply make_key_inj in Ek; [|done..]. destruct E. by destruct (op_series o), p. }
  unfold registry_value, counter_value, gauge_value. by rewrite !step_other.
Qed.

Lemma registry_series_independent_witness :
  registry_value (foldl metric_step new_registry
    [MInc (lit "rx") [(lit "peer", lit "a")] 3; MInc (lit "rx") [(lit "peer", lit "b")] 5; MInc (lit "rx") [(lit "peer", lit "a")] 4])
    (lit "rx", [(lit "peer", lit "a")]) = (Some 7, None).
Proof.
  rewrite registry_series_independent; [reflexivity| |].
  - repeat (apply Forall_cons; split); try apply Forall_nil_2; by_deciding.
  - by_deciding.
Defined.

(** A label value with a comma and an equals sign shares the series of another label set. *)
Example label_collision :
  registry_value (foldl metric_step new_registry [MInc (lit "rx") [(lit "a", lit "1,b=2")] 1]) (lit "rx", [(lit "a", lit "1"); (lit "b", lit "2")])
  = (Some 1, None).
Proof. vm_compute. reflexivity. Qed.

(** The text of one series with a quote in a label value is that of two series. *)
Example label_value_forges_series :
  render_series (fun _ => []) (mk_mseries (lit "rx") [(lit "a", lit "x" ++ [34] ++ lit "} 0" ++ [10] ++ lit "ok{b=" ++ [34] ++ lit "y")] (Some 1) None)
  = lit "# TYPE rx counter" ++ [10] ++ lit "rx{a=" ++ [34] ++ lit "x" ++ [34] ++ lit "} 0" ++ [10] ++
    lit "ok{b=" ++ [34] ++ lit "y" ++ [34] ++ lit "} 1" ++ [10].
Proof. vm_compute. reflexivity. Qed.

(** Two threads that add to one gauge: both load before either stores, and one addition is
    lost. *)
Example gauge_increment_lost :
  let r := gauge (lit "g") [] new_registry in
  let v1 := gauge_value (lit "g{}") r in
  let v2 := gauge_value (lit "g{}") r in
  let r := gauge_set (lit "g{}") (d_add (default d_zero v1) d_one) r in
  let r := gauge_set (lit "g{}") (d_add (default d_zero v2) d_one) r in
  gauge_value (lit "g{}") r = Some d_one.
Proof. vm_compute. reflexivity. Qed.

(** ** Beacon counters *)

Inductive bm_event := BmAccepted | BmReplay | BmAuthFail | BmSkew | BmMalformed | BmAckSent | BmAckFailed | BmReaperRun
  | BmClientsKnown (v : Z) | BmClientsAlive (v : Z).

(* src/inc/beacon_metrics.hpp:76-85 *)
Record BeaconMetrics := mk_bm {
  beacons_accepted_ : Z; beacons_replayed_ : Z; beacons_auth_fail_ : Z; beacons_skew_ : Z; beacons_malformed_ : Z;
  acks_sent_ : Z; acks_failed_ : Z; clients_known_ : Z; clients_alive_ : Z; reaper_runs_ : Z
}.
Definition new_bm : BeaconMetrics := mk_bm 0 0 0 0 0 0 0 0 0 0.

(* src/inc/beacon_metrics.hpp:29-43 *)
Definition bm_apply (m : BeaconMetrics) (e : bm_event) : BeaconMetrics :=
  let '(mk_bm a r f s x k n c l p) := m in
  match e with
  | BmAccepted => mk_bm (u64 (a + 1)) r f s x k n c l p
  | BmReplay => mk_bm a (u64 (r + 1)) f s x k n c l p
  | BmAuthFail => mk_bm a r (u64 (f + 1)) s x k n c l p
  | BmSkew => mk_bm a r f (u64 (s + 1)) x k n c l p
  | BmMalformed => mk_bm a r f s (u64 (x + 1)) k n c l p
  | BmAckSent => mk_bm a r f s x (u64 (k + 1)) n c l p
  | BmAckFailed => mk_bm a r f s x k (u64 (n + 1)) c l p
  | BmReaperRun => mk_bm a r f s x k n c l (u64 (p + 1))
  | BmClientsKnown v => mk_bm a r f s x k n v l p
  | BmClientsAlive v => mk_bm a r f s x k n c v p
  end.

(** The ten loads one after the other; [gaps] holds what other threads do before each. *)
(* src/inc/beacon_metrics.hpp:45-58 *)
Definition snapshot (gap : nat -> list bm_event) (m : BeaconMetrics) : BeaconMetrics :=
  let after := fun i => foldl bm_apply m (mjoin (map gap (seq 0 (S i)))) in
  mk_bm (beacons_accepted_ (after 0%nat)) (beacons_replayed_ (after 1%nat)) (beacons_auth_fail_ (after 2%nat)) (beacons_skew_ (after 3%nat))
    (beacons_malformed_ (after 4%nat)) (acks_sent_ (after 5%nat)) (acks_failed_ (after 6%nat)) (clients_known_ (after 7%nat))
    (clients_alive_ (after 8%nat)) (reaper_runs_ (after 9%nat)).

(* src/inc/beacon_metrics.hpp:61-73 *)
Definition bm_render (s : BeaconMetrics) : cstring :=
  lit "beacons_accepted=" ++ dec 20 (beacons_accepted_ s) ++ lit " beacons_replayed=" ++ dec 20 (beacons_replayed_ s) ++
  lit " beacons_auth_fail=" ++ dec 20 (beacons_auth_fail_ s) ++ lit " beacons_skew=" ++ dec 20 (beacons_skew_ s) ++
  lit " beacons_malformed=" ++ dec 20 (beacons_malformed_ s) ++ lit " acks_sent=" ++ dec 20 (acks_sent_ s) ++
  lit " acks_failed=" ++ dec 20 (acks_failed_ s) ++ lit " clients_known=" ++ dec 20 (clients_known_ s) ++
  lit " clients_alive=" ++ dec 20 (clients_alive_ s) ++ lit " reaper_runs=" ++ dec 20 (reaper_runs_ s).

(** With nothing in between the copy is the state. *)
Lemma snapshot_quiet m : snapshot (fun _ => []) m = m.
Proof. by destruct m. Qed.

(** A copy that shows an acknowledgement and not the beacon it acknowledges: the two loads
    are apart. *)
Example snapshot_not_consistent :
  let s := snapshot (fun i => if decide (i = 3%nat) then [BmAccepted; BmAckSent] else []) new_bm in
  beacons_accepted_ s = 0 /\ acks_sent_ s = 1.
Proof. split; reflexivity. Qed.

(** ** Connection diagnostics *)

(* src/inc/connection_diag.hpp:20-24 *)
Record DiagEntry := mk_entry { d_at : Z; d_code : Z; d_detail : cstring }.

(* src/inc/connection_diag.hpp:54-59 *)
Record ConnectionDiag := mk_cdiag {
  conn_id_ : Z; peer_ : cstring; version_ : Z; cipher_ : Z; entries_ : list DiagEntry; opened_at_ : Z
}.

(* src/src/connection_diag.cpp:7-10 *)
Definition new_cdiag (conn_id : Z) (peer : cstring) (now : Z) : ConnectionDiag := mk_cdiag conn_id peer 0 0 [] now.

(* src/src/connection_diag.cpp:12-19 *)
Definition record (now code : Z) (detail : cstring) (d : ConnectionDiag) : ConnectionDiag :=
  mk_cdiag (conn_id_ d) (peer_ d) (version_ d) (cipher_ d) (entries_ d ++ [mk_entry now code detail]) (opened_at_ d).

(* src/inc/connection_diag.hpp:32-32 *)
Definition set_negotiated_version (v : Z) (d : ConnectionDiag) : ConnectionDiag :=
  mk_cdiag (conn_id_ d) (peer_ d) v (cipher_ d) (entries_ d) (opened_at_ d).
(* src/inc/connection_diag.hpp:33-33 *)
Definition set_negotiated_cipher (c : Z) (d : ConnectionDiag) : ConnectionDiag :=
  mk_cdiag (conn_id_ d) (peer_ d) (version_ d) c (entries_ d) (opened_at_ d).
(* src/inc/connection_diag.hpp:34-34 *)
Definition set_peer_label (s : cstring) (d : ConnectionDiag) : ConnectionDiag :=
  mk_cdiag (conn_id_ d) s (version_ d) (cipher_ d) (entries_ d) (opened_at_ d).

(* src/src/connection_diag.cpp:21-24 *)
Definition last_code (d : ConnectionDiag) : Z := match last (entries_ d) with Some e => d_code e | None => SL_DIAG_OK end.

(* src/src/connection_diag.cpp:59-62 *)
Definition entry_count (d : ConnectionDiag) : Z := len (entries_ d).

(** The hexadecimal text of a number below 16^fuel. *)
Fixpoint hex_text (fuel : nat) (n : Z) : cstring :=
  match fuel with
  | O => []
  | S fuel => (if n <? 16 then [] else hex_text fuel (n / 16)) ++ [hex_digit (n mod 16)]
  end.

(* src/src/connection_diag.cpp:26-40 *)
Definition summary (d : ConnectionDiag) : cstring :=
  lit "conn=" ++ dec 20 (conn_id_ d) ++ lit " peer=" ++ peer_ d ++ lit " version=0x" ++ hex_text 4 (version_ d) ++
  lit " cipher=0x" ++ hex_text 4 (cipher_ d) ++ lit " events=" ++ dec 20 (len (entries_ d)) ++
  match last (entries_ d) with
  | Some e => lit " last=" ++ lit (sl_diag_code_name (d_code e)) ++
      (if bool_decide (d_detail e = []) then [] else lit "(" ++ d_detail e ++ lit ")")
  | None => []
  end.

(** Times are nanoseconds; the line shows whole milliseconds. *)
(* src/src/connection_diag.cpp:42-57 *)
Definition cdiag_render (d : ConnectionDiag) : cstring :=
  lit "conn_id=" ++ dec 20 (conn_id_ d) ++ [10] ++ lit "peer=" ++ peer_ d ++ [10] ++
  lit "version=0x" ++ hex_text 4 (version_ d) ++ lit " cipher=0x" ++ hex_text 4 (cipher_ d) ++ [10] ++ lit "events:" ++ [10] ++
  (entries_ d ≫= fun e =>
    lit "  +" ++ dec_int (Z.quot (d_at e - opened_at_ d) 1000000) ++ lit "ms  " ++
    lit (sl_diag_category (d_code e)) ++ lit "/" ++ lit (sl_diag_code_name (d_code e)) ++
    (if bool_decide (d_detail e = []) then [] else lit "  -- " ++ d_detail e) ++ [10]).

(** The entries are what was recorded, in order, and the last code that of the last one. *)
Lemma diag_records (l : list (Z * Z * cstring)) d :
  let d' := foldl (fun d x => record x.1.1 x.1.2 x.2 d) d l in
  entries_ d' = entries_ d ++ map (fun x => mk_entry x.1.1 x.1.2 x.2) l /\ entry_count d' = entry_count d + len l /\
  last_code d' = match last l with Some x => x.1.2 | None => last_code d end.
Proof.
  cbn zeta. assert (E : forall d, entries_ (foldl (fun d x => record x.1.1 x.1.2 x.2 d) d l) = entries_ d ++ map (fun x => mk_entry x.1.1 x.1.2 x.2) l).
  { induction l as [|x l IH]; intros d0; cbn [foldl map]; [by rewrite app_nil_r|]. rewrite IH. cbn. by rewrite <- app_assoc. }
  split; [done|]. unfold entry_count, last_code. rewrite E. split; [len_lia|].
  rewrite last_app, <- list_fmap_map || rewrite last_app. change (map ?f l) with (f <$> l). rewrite fmap_last. by destruct (last l).
Qed.
