(* ===== verification/Intrusion.v ===== *)
(** Threat scores ([src/threat_score.cpp]), the anomaly detector ([src/anomaly_detector.cpp])
    and the intrusion monitor that combines them ([src/intrusion_monitor.cpp]), on the doubles
    of Double.v. The exponential and the logarithm of the mathematical library are parameters,
    clock readings (nanoseconds since the clock's epoch) arguments: the monitor reads the clock
    once for each call of the score table. *)

From stdpp Require Import gmap.
From S2P Require Import Prelude Ctype Double.
Local Open Scope Z_scope.

Definition d_sqrt : double -> double := SFsqrt 53 1024.
Definition d_opp : double -> double := SFopp.
Definition d_abs : double -> double := SFabs.

(** ** The anomaly detector *)

(* src/inc/anomaly_detector.hpp:46-54 *)
Record AnomalyDetector := mk_detector {
  alpha_ : double; z_threshold_ : double; warmup_ : Z;
  mean_ : double; var_ : double; last_ : double; last_z_ : double; n_ : Z; anomalies_ : Z
}.

(** With the assertions compiled out, as in a release build. *)
(* src/src/anomaly_detector.cpp:8-30 *)
Definition new_detector (alpha z_threshold : double) (warmup_samples : Z) : AnomalyDetector :=
  let a := if d_le alpha d_zero then d_frac 1 1000000 else alpha in
  let a := if d_lt d_one a then d_one else a in
  let z := if d_le z_threshold d_zero then d_int 3 else z_threshold in
  mk_detector a z warmup_samples d_zero d_zero d_zero d_zero 0 0.

(* src/src/anomaly_detector.cpp:32-60 *)
Definition observe (v : double) (d : AnomalyDetector) : bool * AnomalyDetector :=
  let n := u64 (n_ d + 1) in
  if n =? 1 then (false, mk_detector (alpha_ d) (z_threshold_ d) (warmup_ d) v d_zero v d_zero n (anomalies_ d))
  else
    let diff := d_sub v (mean_ d) in
    let sigma_before := d_sqrt (var_ d) in
    let z := if d_lt d_zero sigma_before then d_div diff sigma_before else d_zero in
    let incr := d_mul (alpha_ d) diff in
    let mean := d_add (mean_ d) incr in
    let var := d_mul (d_sub d_one (alpha_ d)) (d_add (var_ d) (d_mul (d_mul (alpha_ d) diff) diff)) in
    if n <=? warmup_ d then (false, mk_detector (alpha_ d) (z_threshold_ d) (warmup_ d) mean var v z n (anomalies_ d))
    else
      let anomalous := d_lt (z_threshold_ d) (d_abs z) in
      (anomalous, mk_detector (alpha_ d) (z_threshold_ d) (warmup_ d) mean var v z n
                    (if anomalous then u64 (anomalies_ d + 1) else anomalies_ d)).

(* src/src/anomaly_detector.cpp:62-65 *)
Definition reset (d : AnomalyDetector) : AnomalyDetector :=
  mk_detector (alpha_ d) (z_threshold_ d) (warmup_ d) d_zero d_zero d_zero d_zero 0 0.

(** ** Threat scores *)

(* src/inc/threat_score.hpp:22-32 *)
Inductive ThreatSignal :=
| kAuthFailure | kReplayDetected | kMalformedFrame | kClockSkew | kRateLimited | kAnomalousTiming | kAnomalousVolume
| kUnknownClientId | kHandshakeAbort.

(* src/inc/threat_score.hpp:34-51 *)
Record ThreatPolicy := mk_policy {
  weight_auth_failure : double; weight_replay : double; weight_malformed : double; weight_skew : double;
  weight_rate_limited : double; weight_anomaly_timing : double; weight_anomaly_volume : double; weight_unknown_id : double;
  weight_handshake_abort : double; half_life_seconds : double; block_threshold : double
}.
Definition default_policy : ThreatPolicy :=
  mk_policy (d_int 8) (d_int 5) (d_int 6) (d_int 2) (d_int 1) (d_int 4) (d_int 4) (d_int 3) (d_int 5) (d_int 300) (d_int 20).

(* src/inc/threat_score.hpp:77-81 *)
Record Entry := mk_tentry { e_score : double; last_updated : Z; e_signals : Z }.
Definition no_entry : Entry := mk_tentry d_zero 0 0.

(* src/inc/threat_score.hpp:86-89 *)
Record ThreatScore := mk_threat { t_policy : ThreatPolicy; decay_rate_ : double; peers_ : gmap cstring Entry }.

(** The mathematical library. *)
Class Libm := { m_exp : double -> double; m_log : double -> double }.

Section Scores.
Context `{Libm}.

(* src/src/threat_score.cpp:7-10 *)
Definition new_threat (p : ThreatPolicy) : ThreatScore :=
  mk_threat p (d_div (m_log (d_int 2)) (if d_lt d_zero (half_life_seconds p) then half_life_seconds p else d_one)) ∅.

(* src/src/threat_score.cpp:12-25 *)
Definition weight_for (p : ThreatPolicy) (sig : ThreatSignal) : double :=
  match sig with
  | kAuthFailure => weight_auth_failure p
  | kReplayDetected => weight_replay p
  | kMalformedFrame => weight_malformed p
  | kClockSkew => weight_skew p
  | kRateLimited => weight_rate_limited p
  | kAnomalousTiming => weight_anomaly_timing p
  | kAnomalousVolume => weight_anomaly_volume p
  | kUnknownClientId => weight_unknown_id p
  | kHandshakeAbort => weight_handshake_abort p
  end.

(** A duration in seconds, from one in nanoseconds. *)
Definition seconds (ns : Z) : double := d_div (d_int ns) (d_int 1000000000).

(* src/src/threat_score.cpp:27-31 *)
Definition decayed (t : ThreatScore) (e : Entry) (now : Z) : double :=
  let dt := seconds (now - last_updated e) in
  if d_le dt d_zero then e_score e
  else d_mul (e_score e) (m_exp (d_mul (d_opp (decay_rate_ t)) dt)).

(* src/src/threat_score.cpp:33-44 ThreatScore::signal *)
Definition threat_signal (now : Z) (peer : cstring) (sig : ThreatSignal) (t : ThreatScore) : double * ThreatScore :=
  let e := default no_entry (peers_ t !! peer) in
  let e := if last_updated e =? 0 then mk_tentry (e_score e) now (e_signals e) else e in
  let score := d_add (decayed t e now) (weight_for (t_policy t) sig) in
  (score, mk_threat (t_policy t) (decay_rate_ t) (<[peer := mk_tentry score now (u64 (e_signals e + 1))]> (peers_ t))).

(* src/src/threat_score.cpp:46-51 ThreatScore::score *)
Definition threat_score (now : Z) (peer : cstring) (t : ThreatScore) : double :=
  match peers_ t !! peer with None => d_zero | Some e => decayed t e now end.

(* src/src/threat_score.cpp:53-55 *)
Definition is_blocked (now : Z) (peer : cstring) (t : ThreatScore) : bool :=
  d_le (block_threshold (t_policy t)) (threat_score now peer t).

(* src/src/threat_score.cpp:57-60 ThreatScore::clear *)
Definition threat_clear (peer : cstring) (t : ThreatScore) : ThreatScore :=
  mk_threat (t_policy t) (decay_rate_ t) (delete peer (peers_ t)).

(* src/src/threat_score.cpp:62-72 *)
Definition blocked_peers (order : gmap cstring Entry -> list (cstring * Entry)) (now : Z) (t : ThreatScore) : list cstring :=
  (filter (fun p => d_le (block_threshold (t_policy t)) (decayed t p.2 now) = true) (order (peers_ t))).*1.

(* src/src/threat_score.cpp:74-77 *)
Definition tracked_count (t : ThreatScore) : Z := Z.of_nat (size (peers_ t)).

(** ** The intrusion monitor *)

(* src/inc/intrusion_monitor.hpp:20-28 *)
Record IntrusionPolicy := mk_ipolicy { anomaly_alpha : double; anomaly_z_threshold : double; anomaly_warmup : Z; threat : ThreatPolicy }.
Definition default_ipolicy : IntrusionPolicy := mk_ipolicy (d_frac 1 10) (d_frac 35 10) 30 default_policy.

(* src/inc/intrusion_monitor.hpp:30-35 *)
Record IntrusionDecision := mk_decision { block : bool; d_score : double; anomaly_timing : bool; anomaly_volume : bool }.

(* src/inc/intrusion_monitor.hpp:66-71 *)
Record IntrusionMonitor := mk_monitor {
  policy_ : IntrusionPolicy; score_ : ThreatScore; timing_ : gmap cstring AnomalyDetector; volume_ : gmap cstring AnomalyDetector
}.

(* src/src/intrusion_monitor.cpp:5-6 *)
Definition new_monitor (p : IntrusionPolicy) : IntrusionMonitor := mk_monitor p (new_threat (threat p)) ∅ ∅.

(** The detector of a peer, made when there is none. *)
(* src/src/intrusion_monitor.cpp:8-28 *)
Definition detector_for (p : IntrusionPolicy) (m : gmap cstring AnomalyDetector) (peer : cstring) : AnomalyDetector :=
  match m !! peer with
  | Some d => d
  | None => new_detector (anomaly_alpha p) (anomaly_z_threshold p) (anomaly_warmup p)
  end.

(** The score and the block flag are read one after the other, each at its own time. *)
(* src/src/intrusion_monitor.cpp:30-35 *)
Definition build_decision (now1 now2 : Z) (peer : cstring) (m : IntrusionMonitor) : IntrusionDecision :=
  mk_decision (is_blocked now2 peer (score_ m)) (threat_score now1 peer (score_ m)) false false.

(** The clock readings of one call. *)
Record clocks := mk_clocks { at_signal : Z; at_score : Z; at_block : Z }.

(* src/src/intrusion_monitor.cpp:37-64 *)
Definition report (c : clocks) (sig : ThreatSignal) (peer : cstring) (m : IntrusionMonitor) : IntrusionDecision * IntrusionMonitor :=
  let m := mk_monitor (policy_ m) (threat_signal (at_signal c) peer sig (score_ m)).2 (timing_ m) (volume_ m) in
  (build_decision (at_score c) (at_block c) peer m, m).

(* src/src/intrusion_monitor.cpp:66-78 *)
Definition observe_beacon_timing (c : clocks) (peer : cstring) (interval_ms : double) (m : IntrusionMonitor)
    : IntrusionDecision * IntrusionMonitor :=
  let '(anom, d) := observe interval_ms (detector_for (policy_ m) (timing_ m) peer) in
  let s := if anom then (threat_signal (at_signal c) peer kAnomalousTiming (score_ m)).2 else score_ m in
  let m := mk_monitor (policy_ m) s (<[peer := d]> (timing_ m)) (volume_ m) in
  let r := build_decision (at_score c) (at_block c) peer m in
  (mk_decision (block r) (d_score r) anom (anomaly_volume r), m).

(* src/src/intrusion_monitor.cpp:80-92 *)
Definition observe_volume (c : clocks) (peer : cstring) (bytes : double) (m : IntrusionMonitor)
    : IntrusionDecision * IntrusionMonitor :=
  let '(anom, d) := observe bytes (detector_for (policy_ m) (volume_ m) peer) in
  let s := if anom then (threat_signal (at_signal c) peer kAnomalousVolume (score_ m)).2 else score_ m in
  let m := mk_monitor (policy_ m) s (timing_ m) (<[peer := d]> (volume_ m)) in
  let r := build_decision (at_score c) (at_block c) peer m in
  (mk_decision (block r) (d_score r) (anomaly_timing r) anom, m).

(* src/src/intrusion_monitor.cpp:98-103 IntrusionMonitor::clear *)
Definition monitor_clear (peer : cstring) (m : IntrusionMonitor) : IntrusionMonitor :=
  mk_monitor (policy_ m) (threat_clear peer (score_ m)) (delete peer (timing_ m)) (delete peer (volume_ m)).

(** ** Peers do not affect each other *)

Inductive monitor_op :=
| OpReport (c : clocks) (sig : ThreatSignal) (peer : cstring)
| OpTiming (c : clocks) (peer : cstring) (interval_ms : double)
| OpVolume (c : clocks) (peer : cstring) (bytes : double)
| OpClear (peer : cstring).

Definition op_peer (o : monitor_op) : cstring :=
  match o with OpReport _ _ p | OpTiming _ p _ | OpVolume _ p _ | OpClear p => p end.

Definition monitor_step (o : monitor_op) (m : IntrusionMonitor) : list IntrusionDecision * IntrusionMonitor :=
  match o with
  | OpReport c sig p => let '(d, m) := report c sig p m in ([d], m)
  | OpTiming c p v => let '(d, m) := observe_beacon_timing c p v m in ([d], m)
  | OpVolume c p v => let '(d, m) := observe_volume c p v m in ([d], m)
  | OpClear p => ([], monitor_clear p m)
  end.

(** The decisions of a run, each with the peer it was returned for. *)
Fixpoint monitor_run (ops : list monitor_op) (m : IntrusionMonitor) : list (cstring * IntrusionDecision) * IntrusionMonitor :=
  match ops with
  | [] => ([], m)
  | o :: ops =>
      let '(ds, m) := monitor_step o m in
      let '(rest, m) := monitor_run ops m in
      (map (pair (op_peer o)) ds ++ rest, m)
  end.

(** Two monitors agree on a peer when they have its policy, score and detectors. *)
Definition agree (p : cstring) (m m' : IntrusionMonitor) : Prop :=
  policy_ m = policy_ m' /\ t_policy (score_ m) = t_policy (score_ m') /\ decay_rate_ (score_ m) = decay_rate_ (score_ m') /\
  peers_ (score_ m) !! p = peers_ (score_ m') !! p /\ timing_ m !! p = timing_ m' !! p /\ volume_ m !! p = volume_ m' !! p.

Lemma agree_decision p now1 now2 m m' : agree p m m' -> build_decision now1 now2 p m = build_decision now1 now2 p m'.
Proof.
  intros (_ & Hp & Hd & Hs & _). unfold build_decision, is_blocked, threat_score, decayed. by rewrite Hp, Hd, Hs.
Qed.

Lemma agree_signal p m m' now sig : agree p m m' ->
  let s := (threat_signal now p sig (score_ m)).2 in let s' := (threat_signal now p sig (score_ m')).2 in
  t_policy s = t_policy s' /\ decay_rate_ s = decay_rate_ s' /\ peers_ s !! p = peers_ s' !! p.
Proof.
  intros (_ & Hp & Hd & Hs & _). cbn. rewrite !lookup_insert_eq. unfold decayed. by rewrite Hp, Hd, Hs.
Qed.

(** An operation of the peer does the same in both. *)
Lemma agree_step p o m m' : op_peer o = p -> agree p m m' ->
  (monitor_step o m).1 = (monitor_step o m').1 /\ agree p (monitor_step o m).2 (monitor_step o m').2.
Proof.
  intros <- Ha. pose proof Ha as (Hpol & Hp & Hd & Hs & Ht & Hv).
  destruct o as [c sig q|c q v|c q v|q]; cbn [op_peer monitor_step] in *.
  - pose proof (agree_signal q m m' (at_signal c) sig Ha) as (H1 & H2 & H3). unfold report. cbn [fst snd].
    assert (agree q (mk_monitor (policy_ m) (threat_signal (at_signal c) q sig (score_ m)).2 (timing_ m) (volume_ m))
      (mk_monitor (policy_ m') (threat_signal (at_signal c) q sig (score_ m')).2 (timing_ m') (volume_ m'))) as Ha' by done.
    split; [f_equal; by apply agree_decision|done].
  - unfold observe_beacon_timing, detector_for. rewrite Hpol, Ht.
    destruct (observe v _) as [anom d]. cbn [fst snd].
    assert (agree q (mk_monitor (policy_ m') (if anom then (threat_signal (at_signal c) q kAnomalousTiming (score_ m)).2 else score_ m) (<[q := d]> (timing_ m)) (volume_ m))
      (mk_monitor (policy_ m') (if anom then (threat_signal (at_signal c) q kAnomalousTiming (score_ m')).2 else score_ m') (<[q := d]> (timing_ m')) (volume_ m'))) as Ha'.
    { pose proof (agree_signal q m m' (at_signal c) kAnomalousTiming Ha) as (H1 & H2 & H3).
      destruct anom; unfold agree; cbn [policy_ score_ timing_ volume_]; rewrite !lookup_insert_eq; done. }
    by rewrite (agree_decision _ _ _ _ _ Ha').
  - unfold observe_volume, detector_for. rewrite Hpol, Hv.
    destruct (observe v _) as [anom d]. cbn [fst snd].
    assert (agree q (mk_monitor (policy_ m') (if anom then (threat_signal (at_signal c) q kAnomalousVolume (score_ m)).2 else score_ m) (timing_ m) (<[q := d]> (volume_ m)))
      (mk_monitor (policy_ m') (if anom then (threat_signal (at_signal c) q kAnomalousVolume (score_ m')).2 else score_ m') (timing_ m') (<[q := d]> (volume_ m')))) as Ha'.
    { pose proof (agree_signal q m m' (at_signal c) kAnomalousVolume Ha) as (H1 & H2 & H3).
      destruct anom; unfold agree; cbn [policy_ score_ timing_ volume_]; rewrite !lookup_insert_eq; done. }
    by rewrite (agree_decision _ _ _ _ _ Ha').
  - split; [done|]. unfold agree. cbn. by rewrite !lookup_delete_eq.
Qed.

(** An operation of another peer changes nothing of this one. *)
Lemma agree_other p o m : op_peer o <> p -> agree p (monitor_step o m).2 m.
Proof.
  intros Hne. destruct o as [c sig q|c q v|c q v|q]; cbn [op_peer monitor_step] in *.
  - unfold agree. cbn. by rewrite lookup_insert_ne.
  - unfold observe_beacon_timing. destruct (observe _ _) as [[] d]; unfold agree; cbn; by rewrite ?lookup_insert_ne.
  - unfold observe_volume. destruct (observe _ _) as [[] d]; unfold agree; cbn; by rewrite ?lookup_insert_ne.
  - unfold agree. cbn. by rewrite !lookup_delete_ne.
Qed.

Lemma agree_trans p a b c : agree p a b -> agree p b c -> agree p a c.
Proof. unfold agree. naive_solver congruence. Qed.

Lemma filter_pairs (p q : cstring) (ds : list IntrusionDecision) :
  filter (fun x => x.1 = p) (map (pair q) ds) = if bool_decide (q = p) then map (pair q) ds else [].
Proof.
  induction ds as [|d ds IH]; [by case_bool_decide|]. cbn [map]. case_bool_decide.
  - by rewrite filter_cons_True, IH.
  - by rewrite filter_cons_False, IH.
Qed.

Lemma run_projection p ops : forall m m', agree p m m' ->
  filter (fun d => d.1 = p) (monitor_run ops m).1 = (monitor_run (filter (fun o => op_peer o = p) ops) m').1 /\
  agree p (monitor_run ops m).2 (monitor_run (filter (fun o => op_peer o = p) ops) m').2.
Proof.
  induction ops as [|o ops IH]; intros m m' Ha; cbn [monitor_run]; [by rewrite !filter_nil|].
  destruct (decide (op_peer o = p)) as [Ho|Ho].
  - rewrite filter_cons_True by done. cbn [monitor_run]. destruct (agree_step p o m m' Ho Ha) as [Hd Ha'].
    destruct (monitor_step o m) as [ds m1], (monitor_step o m') as [ds' m1']. cbn [fst snd] in *. subst ds'.
    destruct (IH m1 m1' Ha') as [IHd IHa].
    destruct (monitor_run ops m1), (monitor_run (filter _ ops) m1'). cbn [fst snd] in *.
    rewrite filter_app, filter_pairs, bool_decide_eq_true_2, IHd by done. done.
  - rewrite filter_cons_False by done. pose proof (agree_other p o m Ho) as Ho'.
    destruct (monitor_step o m) as [ds m1]. cbn [snd] in Ho'.
    destruct (IH m1 m' (agree_trans _ _ _ _ Ho' Ha)) as [IHd IHa]. destruct (monitor_run ops m1). cbn [fst snd] in *.
    by rewrite filter_app, filter_pairs, bool_decide_eq_false_2, IHd by done.
Qed.

(** C29: No peer can change what is decided about another. Whatever signals and observations of
    different peers are interleaved, the decisions returned for a peer, and the score and
    detectors kept for it, are those of a monitor that saw that peer's operations alone. *)
Theorem monitor_peers_independent (policy : IntrusionPolicy) (ops : list monitor_op) (p : cstring) :
  let all := monitor_run ops (new_monitor policy) in
  let own := monitor_run (filter (fun o => op_peer o = p) ops) (new_monitor policy) in
  filter (fun d => d.1 = p) all.1 = own.1 /\
  (forall now1 now2, build_decision now1 now2 p all.2 = build_decision now1 now2 p own.2) /\
  timing_ all.2 !! p = timing_ own.2 !! p /\ volume_ all.2 !! p = volume_ own.2 !! p.
Proof.
  cbn zeta. destruct (run_projection p ops (new_monitor policy) (new_monitor policy)) as [Hd Ha]; [done|].
  split; [done|]. split; [intros now1 now2; by apply agree_decision|]. by destruct Ha as (_ & _ & _ & _ & ? & ?).
Qed.

(** A cleared peer has no score and, with a positive threshold, is not blocked. *)
Lemma cleared_not_blocked now1 now2 p m : d_lt d_zero (block_threshold (t_policy (score_ m))) = true ->
  build_decision now1 now2 p (monitor_clear p m) = mk_decision false d_zero false false.
Proof.
  intros Ht. unfold build_decision, is_blocked, threat_score. cbn. rewrite lookup_delete_eq. f_equal.
  apply not_true_is_false. intros Hle. pose proof (d_lt_le_trans _ _ _ Ht Hle) as Hlt. by rewrite d_lt_irrefl in Hlt.
Qed.

(** The peers listed as blocked are those [is_blocked] names at the same time. *)
Lemma blocked_peers_spec order now t p : (forall m, order m ≡ₚ map_to_list m) ->
  d_lt d_zero (block_threshold (t_policy t)) = true -> p ∈ blocked_peers order now t <-> is_blocked now p t = true.
Proof.
  intros Ho Ht. unfold blocked_peers, is_blocked, threat_score. rewrite list_elem_of_fmap. split.
  - intros ([k e] & -> & [He Hin]%list_elem_of_filter). rewrite Ho in Hin. apply elem_of_map_to_list in Hin. cbn [fst snd] in *. by rewrite Hin.
  - destruct (peers_ t !! p) as [e|] eqn:E.
    + intros He. exists (p, e). split; [done|]. apply list_elem_of_filter. split; [done|]. rewrite Ho. by apply elem_of_map_to_list.
    + intros Hle. pose proof (d_lt_le_trans _ _ _ Ht Hle) as Hlt. by rewrite d_lt_irrefl in Hlt.
Qed.

(** Signals of one instant add up: without time between them nothing decays. *)
Lemma decayed_now t e now : last_updated e = now -> decayed t e now = e_score e.
Proof. intros <-. unfold decayed. by rewrite Z.sub_diag. Qed.

Definition fresh_at (now : Z) (p : cstring) (t : ThreatScore) : Prop :=
  match peers_ t !! p with Some e => last_updated e = now | None => True end.

Lemma signal_now now p sig t : fresh_at now p t ->
  let t' := (threat_signal now p sig t).2 in
  fresh_at now p t' /\ threat_score now p t' = d_add (threat_score now p t) (weight_for (t_policy t) sig).
Proof.
  unfold fresh_at, threat_score, threat_signal. cbn [snd peers_]. rewrite lookup_insert_eq. intros Hf. split; [done|].
  rewrite decayed_now by done. cbn [e_score]. f_equal. destruct (peers_ t !! p) as [e|]; cbn [default].
  - change (id e) with e. rewrite (decayed_now t e) by done. destruct (last_updated e =? 0); by rewrite decayed_now.
  - by rewrite decayed_now.
Qed.

Lemma instant_signals now p sigs : forall t, fresh_at now p t ->
  threat_score now p (foldl (fun t s => (threat_signal now p s t).2) t sigs) =
  foldl (fun x s => d_add x (weight_for (t_policy t) s)) (threat_score now p t) sigs.
Proof.
  induction sigs as [|s sigs IH]; intros t Hf; cbn [foldl]; [done|]. destruct (signal_now now p s t Hf) as [Hf' E].
  by rewrite IH, E.
Qed.

(** Three failed authentications at one instant block a peer under the default policy, two do
    not, whatever the mathematical library computes. *)
Lemma three_failures_block (now : Z) (p : cstring) :
  is_blocked now p (foldl (fun t s => (threat_signal now p s t).2) (new_threat default_policy) [kAuthFailure; kAuthFailure]) = false /\
  is_blocked now p (foldl (fun t s => (threat_signal now p s t).2) (new_threat default_policy) [kAuthFailure; kAuthFailure; kAuthFailure]) = true.
Proof.
  assert (Hf : fresh_at now p (new_threat default_policy)) by (unfold fresh_at; cbn [peers_ new_threat]; by rewrite lookup_empty).
  assert (H0 : threat_score now p (new_threat default_policy) = d_zero) by (unfold threat_score; cbn [peers_ new_threat]; by rewrite lookup_empty).
  unfold is_blocked. rewrite !instant_signals, H0 by done. split; vm_compute; reflexivity.
Qed.

End Scores.

(** ** Steady traffic *)

Definition d_isfin (x : double) : bool := match x with S754_zero _ | S754_finite _ _ _ => true | _ => false end.
Definition d_iszero (x : double) : bool := match x with S754_zero _ => true | _ => false end.

(** A finite number other than the negative zero. *)
Definition steady (v : double) : bool := match v with S754_zero s => negb s | S754_finite _ _ _ => true | _ => false end.

Lemma sub_self v : d_isfin v = true -> d_sub v v = d_zero.
Proof.
  destruct v as [[]| | |s m e]; try done. intros _. unfold d_sub, SFsub. by rewrite Z.sub_diag.
Qed.

Lemma mul_zero x y : d_isfin x = true -> d_iszero y = true -> d_iszero (d_mul x y) = true.
Proof. by destruct x, y. Qed.

Lemma add_zero v y : steady v = true -> d_iszero y = true -> d_add v y = v.
Proof. by destruct v as [[]| | |], y as [[]| | |]. Qed.

Lemma zeros_add x y : d_iszero x = true -> d_iszero y = true -> d_iszero (d_add x y) = true.
Proof. by destruct x as [[]| | |], y as [[]| | |]. Qed.

Lemma zero_finite x : d_iszero x = true -> d_isfin x = true.
Proof. by destruct x. Qed.

Lemma sqrt_zero x : d_iszero x = true -> d_lt d_zero (d_sqrt x) = false.
Proof. by destruct x as [[]| | |]. Qed.

(** The smoothing factor is finite, as is its complement, and the threshold is not below zero. *)
Definition configured (d : AnomalyDetector) : Prop :=
  d_isfin (alpha_ d) = true /\ d_isfin (d_sub d_one (alpha_ d)) = true /\ d_lt (z_threshold_ d) d_zero = false.

(** What the detector knows after at least one observation of [v] and nothing else. *)
Definition settled (v : double) (d : AnomalyDetector) : Prop :=
  configured d /\ mean_ d = v /\ d_iszero (var_ d) = true /\ anomalies_ d = 0.

(** After steady observations no value at all is flagged: with no variance the score is zero. *)
Lemma settled_misses v w d : settled v d -> (observe w d).1 = false.
Proof.
  intros ((_ & _ & Hz) & _ & Hv & _). unfold observe. rewrite sqrt_zero by done.
  destruct (_ =? 1); [done|]. destruct (_ <=? _); [done|]. done.
Qed.

Lemma settled_step v d : steady v = true -> settled v d \/ (configured d /\ n_ d = 0 /\ anomalies_ d = 0) -> settled v (observe v d).2.
Proof.
  intros Hs Hd. assert (Hfin : d_isfin v = true) by (by destruct v).
  destruct Hd as [((Ha & H1a & Hz) & Hm & Hv & Hn)|((Ha & H1a & Hz) & H0 & Hn)].
  2:{ unfold observe. by rewrite H0. }
  unfold observe. rewrite Hm, sub_self, sqrt_zero by done.
  destruct (_ =? 1); [by split|].
  assert (Hi : d_iszero (d_mul (alpha_ d) d_zero) = true) by (by apply mul_zero).
  assert (Hvar : d_iszero (d_mul (d_sub d_one (alpha_ d)) (d_add (var_ d) (d_mul (d_mul (alpha_ d) d_zero) d_zero))) = true).
  { apply mul_zero; [done|]. apply zeros_add; [done|]. apply mul_zero; [by apply zero_finite|done]. }
  assert (Hlt : d_lt (z_threshold_ d) (d_abs d_zero) = false) by done.
  rewrite Hlt, (add_zero _ _ Hs Hi). destruct (_ <=? _); done.
Qed.

Definition observe_all (vs : list double) (d : AnomalyDetector) : AnomalyDetector := foldl (fun d v => (observe v d).2) d vs.

Lemma observe_steady k v d : steady v = true -> settled v d -> settled v (observe_all (replicate k v) d).
Proof. intros Hs. revert d. induction k as [|k IH]; intros d Hd; cbn; [done|]. apply IH. apply settled_step; auto. Qed.

Lemma new_configured alpha z warmup :
  d_isfin (alpha_ (new_detector alpha z warmup)) = true -> d_isfin (d_sub d_one (alpha_ (new_detector alpha z warmup))) = true ->
  configured (new_detector alpha z warmup).
Proof.
  intros H1 H2. split; [done|]. split; [done|]. cbn [new_detector z_threshold_]. destruct (d_le z d_zero) eqn:E; [done|].
  apply not_true_is_false. intros Hlt. apply d_lt_le in Hlt. congruence.
Qed.

(** A constant stream of observations is never reported as anomalous, and neither is the
    observation that follows it, however far off: for a detector with a finite smoothing
    factor, after one or more equal observations no next value [w] is flagged, because the
    variance is zero and the score of a value is then taken to be zero. *)
Theorem steady_traffic_unflagged (alpha z v w : double) (warmup : Z) (k : nat) :
  let d := new_detector alpha z warmup in
  d_isfin (alpha_ d) = true -> d_isfin (d_sub d_one (alpha_ d)) = true -> steady v = true ->
  let d' := observe_all (replicate (S k) v) d in
  anomalies_ d' = 0 /\ mean_ d' = v /\ (observe w d').1 = false.
Proof.
  cbn zeta. intros Ha H1 Hs.
  assert (Hd : settled v (observe_all (replicate (S k) v) (new_detector alpha z warmup))).
  { cbn [replicate]. apply (observe_steady k v (observe v (new_detector alpha z warmup)).2 Hs).
    apply settled_step; [done|]. right. split; [by apply new_configured|done]. }
  split; [by destruct Hd as (_ & _ & _ & ?)|]. split; [by destruct Hd as (_ & ? & _)|]. by eapply settled_misses.
Qed.

(** With the default policy: after 40 beacons exactly one second apart, one that comes after
    an hour is not flagged. *)
Lemma steady_traffic_unflagged_witness :
  (observe (d_int 3600000) (observe_all (replicate 40 (d_int 1000)) (new_detector (d_frac 1 10) (d_frac 35 10) 30))).1 = false.
Proof.
  apply (steady_traffic_unflagged (d_frac 1 10) (d_frac 35 10) (d_int 1000) (d_int 3600000) 30 39); reflexivity.
Defined.

(** Beacons that jitter by a millisecond are enough for the same one to be flagged. *)
Example jitter_then_spike_flagged :
  (observe (d_int 3600000) (observe_all (mjoin (replicate 20 [d_int 1000; d_int 1001])) (new_detector (d_frac 1 10) (d_frac 35 10) 30))).1 = true.
Proof. vm_compute. reflexivity. Qed.

(** ** Warm-up *)

Fixpoint observe_flags (vs : list double) (d : AnomalyDetector) : list bool :=
  match vs with [] => [] | v :: vs => (observe v d).1 :: observe_flags vs (observe v d).2 end.

Lemma observe_counts v d : 0 <= n_ d -> n_ d + 1 < 2 ^ 64 ->
  warmup_ (observe v d).2 = warmup_ d /\ n_ (observe v d).2 = n_ d + 1 /\
  ((observe v d).1 = true -> warmup_ d < n_ d + 1) /\
  anomalies_ (observe v d).2 = (if (observe v d).1 then u64 (anomalies_ d + 1) else anomalies_ d).
Proof.
  intros H0 H1. unfold observe. rewrite (u64_small (n_ d + 1)) by lia.
  destruct (_ =? 1); [done|]. destruct (Z.leb_spec (n_ d + 1) (warmup_ d)); [done|].
  by destruct (d_lt (z_threshold_ d) _).
Qed.

(** Nothing is flagged while the detector has seen no more than [warmup] values, and the
    count of anomalies is the number of values flagged. *)
Lemma detector_accounting vs : forall d, 0 <= n_ d -> n_ d + len vs < 2 ^ 64 -> is_u64 (anomalies_ d) ->
  anomalies_ (observe_all vs d) = u64 (anomalies_ d + len (filter (fun b => b = true) (observe_flags vs d))) /\
  (forall i, observe_flags vs d !! i = Some true -> warmup_ d < n_ d + Z.of_nat i + 1).
Proof.
  induction vs as [|v vs IH]; intros d H0 H1 Ha; cbn [observe_all foldl observe_flags].
  { rewrite Z.add_0_r, u64_small by done. split; [done|]. intros i. by rewrite lookup_nil. }
  rewrite len_cons in H1. pose proof (len_nonneg vs). destruct (observe_counts v d H0 ltac:(lia)) as (Hw & Hn & Hf & Han).
  destruct (IH (observe v d).2) as [IHa IHw]; [lia..| |].
  { rewrite Han. destruct (observe v d).1; [apply u64_range|done]. }
  split.
  - unfold observe_all in IHa. rewrite IHa, Han. destruct (observe v d).1.
    + rewrite filter_cons_True, len_cons by done. unfold u64. rewrite Zplus_mod_idemp_l. f_equal. lia.
    + by rewrite filter_cons_False.
  - intros [|i]; cbn [lookup list_lookup]; [intros [= E]; specialize (Hf E); lia|]. intros Hi. specialize (IHw i Hi). lia.
Qed.
