(* ===== verification/AdminHttp.v ===== *)
(** The administration server ([src/admin_http.cpp]): reading and parsing a request,
    dispatch, the answer, and the life of the listening socket on the process of Socket.v.
    What the system calls return is an argument, as is what the handlers do: a handler is a
    handle and [call] what calling it returns. [None] is a call that has not returned. *)

From stdpp Require Import gmap.
From Stdlib Require Import String.
From S2P Require Import Prelude Ctype KeySched StringUtil Socket.
Local Open Scope Z_scope.

(* src/inc/admin_http.hpp:17-21 *)
Record AdminRequest := mk_areq { a_method : cstring; a_path : cstring; a_body : cstring }.
(* src/inc/admin_http.hpp:23-27 *)
Record AdminResponse := mk_aresp { r_status : Z; r_content_type : cstring; r_body : cstring }.
Definition default_type : cstring := lit "text/plain; charset=utf-8".

Definition crlf : cstring := [13; 10].
Definition crlf2 : cstring := [13; 10; 13; 10].

(** A [recv] that delivers no bytes, or fails, ends the reading. *)
(* src/src/admin_http.cpp:17-23 read_request *)
Fixpoint read_loop (fuel : nat) (recvs : list (list Z)) (out : cstring) : option cstring :=
  match fuel with
  | O => Some out
  | S fuel =>
      match recvs with
      | [] => None
      | [] :: _ => Some out
      | buf :: recvs =>
          let out := out ++ buf in
          if contains out crlf2 then Some out
          else if 64 * 1024 <? len out then Some out
          else read_loop fuel recvs out
      end
  end.

(* src/src/admin_http.cpp:14-25 *)
Definition read_request (recvs : list (list Z)) : option cstring := read_loop 64 recvs [].

(* src/src/admin_http.cpp:27-46 *)
Definition parse_request (raw : cstring) : AdminRequest :=
  let req := mk_areq [] [] [] in
  match find raw crlf 0 with
  | None => req
  | Some line_end =>
      let line := take (Z.to_nat line_end) raw in
      match find line [32] 0 with
      | None => req
      | Some sp1 =>
          match find line [32] (sp1 + 1) with
          | None => req
          | Some sp2 =>
              let method := take (Z.to_nat sp1) line in
              let path := take (Z.to_nat (sp2 - sp1 - 1)) (drop (Z.to_nat (sp1 + 1)) line) in
              match find raw crlf2 0 with
              | Some body_pos => mk_areq method path (drop (Z.to_nat (body_pos + 4)) raw)
              | None => mk_areq method path []
              end
          end
      end
  end.

(* src/src/admin_http.cpp:48-56 *)
Definition format_response (r : AdminResponse) : cstring :=
  lit "HTTP/1.0 " ++ dec_int (r_status r) ++ lit " OK" ++ crlf ++
  lit "Content-Type: " ++ r_content_type r ++ crlf ++
  lit "Content-Length: " ++ dec 20 (len (r_body r)) ++ crlf ++
  lit "Connection: close" ++ crlf2 ++ r_body r.

(* src/inc/admin_http.hpp:49-54 *)
Record AdminHttpServer := mk_admin { listen_fd_ : Z; running_ : bool; joinable_ : bool; routes_ : gmap cstring Z }.

(* src/src/admin_http.cpp:60-61 *)
Definition new_admin : AdminHttpServer := mk_admin (-1) false false ∅.

(* src/src/admin_http.cpp:65-67 *)
Definition route (path : cstring) (handler : Z) (s : AdminHttpServer) : AdminHttpServer :=
  mk_admin (listen_fd_ s) (running_ s) (joinable_ s) (<[path := handler]> (routes_ s)).

(** What the calls of [start] return. *)
Record start_outcome := mk_start { so_socket : Z; so_pton : Z; so_bind : Z; so_listen : Z }.

(* src/src/admin_http.cpp:69-91 AdminHttpServer::start *)
Definition admin_start (o : start_outcome) (s : AdminHttpServer) (p : process) : M (bool * AdminHttpServer * process) :=
  let fd := so_socket o in
  if fd <? 0 then Ok (false, mk_admin fd (running_ s) (joinable_ s) (routes_ s), p)
  else
    let p := sys_open p fd in
    let fail := let! p := sys_close p fd in Ok (false, mk_admin (-1) (running_ s) (joinable_ s) (routes_ s), p) in
    if negb (so_pton o =? 1) then fail
    else if negb (so_bind o =? 0) || negb (so_listen o =? 0) then fail
    else Ok (true, mk_admin fd true true (routes_ s), p).

(* src/src/admin_http.cpp:93-101 AdminHttpServer::stop *)
Definition admin_stop (s : AdminHttpServer) (p : process) : M (AdminHttpServer * process) :=
  if negb (running_ s) then Ok (s, p)
  else if 0 <=? listen_fd_ s then
    let! p := sys_close p (listen_fd_ s) in Ok (mk_admin (-1) false false (routes_ s), p)
  else Ok (mk_admin (listen_fd_ s) false false (routes_ s), p).

Section Handlers.
Context (call : Z -> AdminRequest -> AdminResponse).

(* src/src/admin_http.cpp:131-140 *)
Definition dispatch (s : AdminHttpServer) (req : AdminRequest) : AdminResponse :=
  match routes_ s !! a_path req with
  | None => mk_aresp 404 default_type (lit "not found" ++ [10])
  | Some h => call h req
  end.

(** What [send] returns, call by call; the result is how much was sent. *)
(* src/src/admin_http.cpp:122-127 AdminHttpServer::handle_client *)
Fixpoint send_out (out : cstring) (sends : list Z) (sent : Z) : option Z :=
  if len out <=? sent then Some sent
  else match sends with
       | [] => None
       | n :: sends => if n <=? 0 then Some sent else send_out out sends (sent + n)
       end.

(** What the peer is sent, and the process with the connection closed. *)
(* src/src/admin_http.cpp:117-129 AdminHttpServer::handle_client *)
Definition admin_client (s : AdminHttpServer) (recvs : list (list Z)) (sends : list Z) (fd : Z) (p : process)
    : option (cstring * M process) :=
  match read_request recvs with
  | None => None
  | Some raw =>
      let out := format_response (dispatch s (parse_request raw)) in
      match send_out out sends 0 with
      | None => None
      | Some sent => Some (take (Z.to_nat sent) out, sys_close p fd)
      end
  end.

(** One turn of the accept loop: the running flag at its head, and what happens. *)
Inductive accepted := AFail (eintr running : bool) | AClient (fd : Z) (recvs : list (list Z)) (sends : list Z).

(** The answers sent and the process when the loop ends. *)
(* src/src/admin_http.cpp:103-115 AdminHttpServer::run *)
Fixpoint admin_run (s : AdminHttpServer) (turns : list (bool * accepted)) (p : process) : M (option (list cstring * process)) :=
  match turns with
  | [] => Ok None
  | (running, a) :: turns =>
      if negb running then Ok (Some ([], p))
      else
        match a with
        | AFail eintr run' =>
            if eintr then admin_run s turns p
            else if negb run' then Ok (Some ([], p))
            else admin_run s turns p
        | AClient fd recvs sends =>
            match admin_client s recvs sends fd (sys_open p fd) with
            | None => Ok None
            | Some (out, m) =>
                let! p := m in
                let! r := admin_run s turns p in
                Ok ((fun r => (out :: r.1, r.2)) <$> r)
            end
        end
  end.

(** ** Requests *)

Lemma find_sub_at c needle a b : c ∉ a -> find_sub (c :: needle) (a ++ (c :: needle) ++ b) = Some (length a).
Proof.
  induction a as [|x a IH]; intros Ha; cbn [find_sub app length].
  - rewrite bool_decide_eq_true_2; [done|]. cbn. by rewrite take_app_length.
  - apply not_elem_of_cons in Ha as [Hx Ha]. rewrite bool_decide_eq_false_2 by (cbn; congruence).
    cbn [app] in IH. by rewrite IH.
Qed.

Lemma find_first c needle a b : c ∉ a -> find (a ++ (c :: needle) ++ b) (c :: needle) 0 = Some (len a).
Proof.
  intros Ha. unfold find. rewrite (proj2 (Z.ltb_ge _ _)) by apply len_nonneg. change (drop (Z.to_nat 0) ?s) with s.
  by rewrite find_sub_at.
Qed.

(** The text before its end does not hold the mark that ends it. *)
Lemma mark_only_at_end raw a b : find_sub crlf2 raw = Some (length raw - 4)%nat -> raw = a ++ b -> b <> [] -> contains a crlf2 = false.
Proof.
  intros Hf -> Hb. apply not_true_is_false. rewrite contains_spec. intros (x & y & ->).
  apply (find_sub_first _ _ _ x (y ++ b)) in Hf; [|by rewrite <- !app_assoc]. revert Hf.
  rewrite !length_app. destruct b; [done|]. cbn. lia.
Qed.

Lemma read_chunks raw chunks : find_sub crlf2 raw = Some (length raw - 4)%nat -> 4 <= len raw ->
  forall fuel out, raw = out ++ mjoin chunks -> chunks <> [] -> (length chunks <= fuel)%nat ->
  Forall (fun c => c <> [] /\ len c <= 1024) chunks -> len out <= 1024 * (64 - Z.of_nat fuel) -> (fuel <= 64)%nat ->
  read_loop fuel chunks out = Some raw.
Proof.
  intros Hf H4. induction chunks as [|c cs IH]; intros fuel out Hraw Hne Hfu Hcs Hlen H64; [done|].
  destruct fuel as [|fuel]; [cbn in Hfu; lia|]. apply Forall_cons in Hcs as [[Hc Hc'] Hcs]. cbn [read_loop].
  destruct c as [|x c]; [done|]. set (buf := x :: c) in *. cbn [mjoin list_join] in Hraw. rewrite app_assoc in Hraw.
  destruct cs as [|c2 cs].
  - cbn [mjoin list_join] in Hraw. rewrite app_nil_r in Hraw. rewrite <- Hraw.
    rewrite (proj2 (contains_spec raw crlf2)); [done|]. apply find_sub_some in Hf as (a & b & Hab & _). eauto.
  - rewrite (mark_only_at_end raw (out ++ buf) (mjoin (c2 :: cs)) Hf Hraw).
    2:{ apply Forall_cons in Hcs as [[Hc2 _] _]. cbn. by destruct c2. }
    rewrite (proj2 (Z.ltb_ge _ _)) by (rewrite len_app; lia).
    apply IH; [done|done|cbn in Hfu |- *; lia|done|rewrite len_app; lia|lia].
Qed.

(** A request line, and what follows it up to the empty line. *)
Definition request_text (method path version headers : cstring) : cstring :=
  method ++ [32] ++ path ++ [32] ++ version ++ crlf ++ headers.

Lemma parse_request_text method path version headers :
  let raw := request_text method path version headers in
  32 ∉ method -> 32 ∉ path -> 13 ∉ method ++ path ++ version -> find_sub crlf2 raw = Some (length raw - 4)%nat -> 4 <= len raw ->
  parse_request raw = mk_areq method path [].
Proof.
  cbn zeta. set (line := method ++ [32] ++ path ++ [32] ++ version). intros Hm Hp Hcr Hend H4.
  assert (Hraw : request_text method path version headers = line ++ crlf ++ headers)
    by (unfold request_text, line; by rewrite <- !app_assoc).
  rewrite Hraw in *. unfold parse_request.
  assert (H13 : 13 ∉ line) by (unfold line; set_solver). unfold crlf at 1 2. rewrite find_first by done.
  rewrite take_len_app. unfold line at 1. rewrite (find_first 32 [] method (path ++ [32] ++ version)) by done.
  assert (Hsp2 : find line [32] (len method + 1) = Some (len method + 1 + len path)).
  { unfold find. rewrite (proj2 (Z.ltb_ge _ _)) by (unfold line; len_lia).
    replace (drop (Z.to_nat (len method + 1)) line) with (path ++ [32] ++ version).
    - rewrite (find_sub_at 32 [] path version) by done. cbn. f_equal.
    - unfold line. rewrite (app_assoc method [32]). symmetry. apply drop_app_exact. len_lia. }
  rewrite Hsp2. unfold find at 1. rewrite (proj2 (Z.ltb_ge _ _)) by apply len_nonneg. change (drop (Z.to_nat 0) ?s) with s.
  rewrite Hend. cbn [fmap option_fmap option_map]. f_equal.
  - unfold line. apply take_len_app.
  - unfold line. rewrite (app_assoc method [32]), drop_app_exact by len_lia.
    apply take_app_exact. lia.
  - apply drop_ge. unfold len in *. lia.
Qed.

(** ** Answers *)

Lemma send_all out : forall sends sent, 0 <= sent -> Forall (fun n => 0 < n) sends -> sent + foldr Z.add 0 sends = len out ->
  send_out out sends sent = Some (len out).
Proof.
  induction sends as [|n ns IH]; intros sent H0 Hp Hs; cbn [send_out foldr] in *.
  - rewrite (proj2 (Z.leb_le _ _)) by lia. f_equal. lia.
  - apply Forall_cons in Hp as [Hn Hp]. assert (Hpos : 0 <= foldr Z.add 0 ns).
    { clear -Hp. induction Hp; cbn; lia. }
    rewrite (proj2 (Z.leb_gt (len out) sent)), (proj2 (Z.leb_gt n 0)) by lia. apply IH; [lia|done|lia].
Qed.

(** C30: A request is answered with its handler's response. When a request without a body
    arrives in up to 64 segments, cut anywhere, the handler registered for its path is called
    with its method and path, or the answer is 404 when there is none; the whole answer is
    sent and the connection is closed. *)
Theorem admin_request_answered (s : AdminHttpServer) (method path version headers : cstring)
    (chunks : list (list Z)) (sends : list Z) (fd : Z) (p : process) :
  let raw := request_text method path version headers in
  let answer := format_response (match routes_ s !! path with
                                 | Some h => call h (mk_areq method path [])
                                 | None => mk_aresp 404 default_type (lit "not found" ++ [10])
                                 end) in
  32 ∉ method -> 32 ∉ path -> 13 ∉ method ++ path ++ version ->
  find_sub crlf2 raw = Some (length raw - 4)%nat ->
  mjoin chunks = raw -> (length chunks <= 64)%nat -> Forall (fun c => c <> [] /\ len c <= 1024) chunks ->
  Forall (fun n => 0 < n) sends -> foldr Z.add 0 sends = len answer ->
  p !! fd = None ->
  admin_client s chunks sends fd (sys_open p fd) = Some (answer, Ok p).
Proof.
  cbn zeta. intros Hm Hp Hcr Hend Hch H64 Hcs Hs Hsum Hfd.
  set (raw := request_text method path version headers) in *.
  assert (H4 : 4 <= len raw).
  { destruct (find_sub_some _ _ _ Hend) as (a & b & -> & _). unfold crlf2. len_lia. }
  unfold admin_client, read_request. rewrite (read_chunks raw chunks Hend H4); [|by rewrite Hch| |lia|done|len_lia|lia].
  2:{ intros ->. rewrite <- Hch in H4. vm_compute in H4. by apply H4. }
  unfold raw. rewrite (parse_request_text method path version headers) by done. unfold dispatch. cbn [a_path].
  rewrite send_all by (done || lia). rewrite len_to_nat, firstn_all. unfold sys_close, sys_open. rewrite lookup_insert_eq.
  by rewrite delete_insert_id.
Qed.

(** ** Descriptors *)

Lemma admin_client_closes s recvs sends fd p out m : p !! fd = None ->
  admin_client s recvs sends fd (sys_open p fd) = Some (out, m) -> m = Ok p.
Proof.
  intros Hfd. unfold admin_client. destruct (read_request recvs); [|done]. destruct (send_out _ _ _); [|done].
  intros [= _ <-]. unfold sys_close, sys_open. by rewrite lookup_insert_eq, delete_insert_id.
Qed.

Definition fresh_clients (p : process) (turns : list (bool * accepted)) : Prop :=
  Forall (fun t => match t.2 with AClient fd _ _ => p !! fd = None | _ => True end) turns.

Lemma admin_run_closes s turns p : fresh_clients p turns ->
  exists r, admin_run s turns p = Ok r /\ match r with Some (_, p') => p' = p | None => True end.
Proof.
  induction turns as [|[run a] turns IH]; intros Hf; cbn [admin_run]; [by exists None|].
  apply Forall_cons in Hf as [Ha Hf]. destruct run; cbn [negb]; [|by eexists].
  destruct a as [eintr run'|fd recvs sends].
  - destruct eintr; [by apply IH|]. destruct run'; cbn [negb]; [by apply IH|by eexists].
  - cbn [snd] in Ha. destruct (admin_client s recvs sends fd (sys_open p fd)) as [[out m]|] eqn:E; [|by exists None].
    apply admin_client_closes in E as ->; [|done]. destruct (IH Hf) as (r & -> & Hr). eexists. split; [done|].
    by destruct r as [[outs p']|].
Qed.

(** The server leaves no descriptor open. From a start, whatever its system calls return,
    through any sequence of clients and failed accepts to the stop, no operation uses a
    descriptor that is not open, every connection is closed, and at the end the process has
    the descriptors it had before. *)
Theorem admin_server_releases (o : start_outcome) (turns : list (bool * accepted)) (routes : gmap cstring Z) (p : process) :
  p !! so_socket o = None -> fresh_clients (sys_open p (so_socket o)) turns ->
  exists ok s p1, admin_start o (mk_admin (-1) false false routes) p = Ok (ok, s, p1) /\
    (ok = false -> p1 = p) /\
    exists r, (if ok : bool then admin_run s turns p1 else Ok (Some ([], p1))) = Ok r /\
      forall outs p2, r = Some (outs, p2) -> exists s', admin_stop s p2 = Ok (s', p).
Proof.
  intros Hfd Hcl. unfold admin_start. destruct (Z.ltb_spec (so_socket o) 0) as [Hneg|Hpos].
  { exists false. do 2 eexists. split; [done|]. split; [done|]. eexists. split; [done|]. intros outs p2 [= _ <-]. by eexists. }
  assert (Hc : sys_close (sys_open p (so_socket o)) (so_socket o) = Ok p)
    by (unfold sys_close, sys_open; by rewrite lookup_insert_eq, delete_insert_id).
  rewrite Hc. destruct (negb (so_pton o =? 1)), (negb (so_bind o =? 0) || negb (so_listen o =? 0)).
  1-3: exists false; do 2 eexists; (split; [done|]); (split; [done|]); eexists; (split; [done|]);
    intros outs p2 [= _ <-]; by eexists.
  exists true. do 2 eexists. split; [done|]. split; [done|].
  destruct (admin_run_closes (mk_admin (so_socket o) true true routes) turns _ Hcl) as (r & Hr & Hp).
  exists r. split; [done|]. intros outs p2 ->. subst p2. unfold admin_stop. cbn [running_ listen_fd_ negb].
  rewrite (proj2 (Z.leb_le _ _)) by lia. rewrite Hc. by eexists.
Qed.

End Handlers.

(** ** The answer can be taken apart *)

Lemma find_skip x s : x <> 13 -> find_sub crlf2 (x :: s) = S <$> find_sub crlf2 s.
Proof. intros Hx. cbn [find_sub]. by rewrite bool_decide_eq_false_2 by (unfold crlf2; cbn; intros [= ]; congruence). Qed.

Lemma find_line l c rest : 13 ∉ l -> c <> 13 ->
  find_sub crlf2 (l ++ crlf ++ c :: rest) = (fun i => (length l + 2 + i)%nat) <$> find_sub crlf2 (c :: rest).
Proof.
  intros Hl Hc. induction l as [|x l IH].
  - change ([] ++ crlf ++ c :: rest) with (13 :: 10 :: c :: rest).
    assert (E : find_sub crlf2 (13 :: 10 :: c :: rest) = S <$> find_sub crlf2 (10 :: c :: rest))
      by (cbn [find_sub]; by rewrite (bool_decide_eq_false_2 (take _ (13 :: _) = _)) by (unfold crlf2; cbn; intros [= ]; congruence)).
    rewrite E, find_skip by done. by destruct (find_sub crlf2 (c :: rest)).
  - apply not_elem_of_cons in Hl as [Hx Hl]. change ((x :: l) ++ ?r) with (x :: l ++ r). rewrite find_skip, IH by congruence || done.
    by destruct (find_sub crlf2 (c :: rest)).
Qed.

Lemma dec_no_cr fuel n : 0 <= n -> 13 ∉ dec fuel n.
Proof.
  revert n. induction fuel as [|f IH]; intros n Hn; cbn [dec]; [by apply not_elem_of_nil|].
  pose proof (Z.mod_pos_bound n 10 ltac:(lia)). apply not_elem_of_app. split.
  - destruct (n <? 10); [by apply not_elem_of_nil|]. apply IH. apply Z.div_pos; lia.
  - rewrite list_elem_of_singleton. lia.
Qed.

(** A client can take an answer apart. When the content type holds no carriage return the
    first empty line of the answer ends its header, what follows is exactly the response's
    body, and the header announces the body's length. *)
Theorem admin_response_framed (r : AdminResponse) :
  13 ∉ r_content_type r ->
  exists head i, find_sub crlf2 (format_response r) = Some i /\ take i (format_response r) = head /\
    drop (i + 4) (format_response r) = r_body r /\
    exists status, head = status ++ crlf ++ lit "Content-Length: " ++ dec 20 (len (r_body r)) ++ crlf ++ lit "Connection: close".
Proof.
  intros Hct. set (l1 := lit "HTTP/1.0 " ++ dec_int (r_status r) ++ lit " OK"). set (l2 := lit "Content-Type: " ++ r_content_type r).
  set (l3 := lit "Content-Length: " ++ dec 20 (len (r_body r))). set (l4 := lit "Connection: close").
  assert (E : format_response r = l1 ++ crlf ++ l2 ++ crlf ++ l3 ++ crlf ++ l4 ++ crlf2 ++ r_body r).
  { unfold format_response, l1, l2, l3, l4. by rewrite <- !app_assoc. }
  assert (H1 : 13 ∉ l1).
  { unfold l1, dec_int. rewrite !not_elem_of_app. split_and!; [by_deciding| |by_deciding].
    destruct (Z.ltb_spec (r_status r) 0); [apply not_elem_of_cons; split; [done|]|]; apply dec_no_cr; lia. }
  assert (H2 : 13 ∉ l2) by (unfold l2; apply not_elem_of_app; split; [by_deciding|done]).
  assert (H3 : 13 ∉ l3) by (unfold l3; apply not_elem_of_app; split; [by_deciding|apply dec_no_cr; apply len_nonneg]).
  set (head := l1 ++ crlf ++ l2 ++ crlf ++ l3 ++ crlf ++ l4).
  assert (Eh : format_response r = head ++ crlf2 ++ r_body r) by (rewrite E; unfold head; by rewrite <- !app_assoc).
  assert (Hf : find_sub crlf2 (format_response r) = Some (length head)).
  { rewrite E. unfold head. rewrite !length_app. unfold l2 at 1.
    change (lit "Content-Type: " ++ r_content_type r) with (67 :: lit "ontent-Type: " ++ r_content_type r).
    rewrite <- app_comm_cons, find_line by done. rewrite app_comm_cons.
    change (67 :: lit "ontent-Type: " ++ r_content_type r) with l2.
    unfold l3 at 1. change (lit "Content-Length: " ++ dec 20 (len (r_body r))) with (67 :: lit "ontent-Length: " ++ dec 20 (len (r_body r))).
    rewrite <- app_comm_cons, find_line by done. rewrite app_comm_cons.
    change (67 :: lit "ontent-Length: " ++ dec 20 (len (r_body r))) with l3.
    change (l4 ++ crlf2 ++ r_body r) with (67 :: lit "onnection: close" ++ crlf2 ++ r_body r). rewrite find_line by done.
    change (67 :: lit "onnection: close" ++ crlf2 ++ r_body r) with (l4 ++ crlf2 ++ r_body r).
    unfold crlf2 at 2. rewrite (find_sub_at 13 [10; 13; 10] l4) by (unfold l4; by_deciding). cbn [fmap option_fmap option_map length crlf]. f_equal. lia. }
  exists head, (length head). rewrite Hf, Eh. split; [done|]. split; [by rewrite take_app_length|]. split.
  - rewrite app_assoc, drop_app_length'; [done|]. rewrite length_app. done.
  - exists (l1 ++ crlf ++ l2). unfold head, l3, l4. by rewrite <- !app_assoc.
Qed.

Lemma admin_response_framed_witness :
  exists head i, find_sub crlf2 (format_response (mk_aresp 200 default_type (lit "up"))) = Some i /\
    take i (format_response (mk_aresp 200 default_type (lit "up"))) = head /\
    drop (i + 4) (format_response (mk_aresp 200 default_type (lit "up"))) = lit "up".
Proof.
  destruct (admin_response_framed (mk_aresp 200 default_type (lit "up"))) as (head & i & Hf & Ht & Hd & _); [by_deciding|].
  exists head, i. split; [exact Hf|]. split; [exact Ht|exact Hd].
Defined.

Definition status_server : AdminHttpServer := mk_admin 3 true true {[ lit "/healthz" := 1 ]}.
Definition status_call (h : Z) (req : AdminRequest) : AdminResponse := mk_aresp 200 default_type (lit "ok").

Lemma admin_request_answered_witness :
  admin_client status_call status_server [lit "GET /hea"; lit "lthz HTTP/1.0" ++ [13]; [10; 13; 10]] [30; 70] 7 (sys_open ∅ 7) =
  Some (format_response (mk_aresp 200 default_type (lit "ok")), Ok ∅).
Proof.
  apply (admin_request_answered status_call status_server (lit "GET") (lit "/healthz") (lit "HTTP/1.0") crlf
    [lit "GET /hea"; lit "lthz HTTP/1.0" ++ [13]; [10; 13; 10]] [30; 70] 7 ∅); try by_deciding; reflexivity.
Defined.

Lemma admin_server_releases_witness :
  exists ok s p1, admin_start (mk_start 3 1 0 0) (mk_admin (-1) false false ∅) ∅ = Ok (ok, s, p1) /\ (ok = false -> p1 = ∅).
Proof.
  destruct (admin_server_releases status_call (mk_start 3 1 0 0) [(true, AClient 4 [[]] [0]); (false, AFail false false)] ∅ ∅)
    as (ok & s & p1 & H & H' & _).
  - reflexivity.
  - repeat constructor.
  - exists ok, s, p1. split; [exact H|exact H'].
Defined.

(** A body that arrives after the segment with the empty line is not read. *)
Example late_body_dropped :
  parse_request (default [] (read_request [lit "POST /x HTTP/1.0" ++ crlf2; lit "body"])) = mk_areq (lit "POST") (lit "/x") [].
Proof. reflexivity. Qed.

(** Every status is called OK. *)
Example not_found_ok : take 15 (format_response (mk_aresp 404 default_type [])) = lit "HTTP/1.0 404 OK".
Proof. reflexivity. Qed.
