(* ===== verification/ThreadPool.v ===== *)
(** The thread pool ([src/thread_pool.cpp]). The workers, the callers of [submit] and the
    callers of [stop] are interleaved one atomic action at a time: taking the mutex, testing
    the condition, going to sleep, waking, each read or write of the atomic flag. An action is
    executable and [None] when the thread cannot take it; a schedule is a list of actions. A
    waiting worker wakes when it is notified, or spuriously where the schedule says so. *)

From S2P Require Import Prelude.
Local Open Scope Z_scope.

Abbreviation task := Z.

(** Where a worker is in [worker_loop]. *)
Inductive wpc :=
| WLock                (* before taking the mutex, at first or after waking *)
| WPred                (* has the mutex, evaluates the condition of the wait *)
| WBlock               (* found it false, has not yet gone to sleep *)
| WSleep
| WTest                (* has the mutex, the condition was true *)
| WRun (t : task)
| WExit
| WBad.                (* took the front of an empty queue *)

(** Where a caller of [submit] is. *)
Inductive spc := SuLock | SuCheck | SuPush | SuNotify | SuDone (accepted : bool).

(** Where a caller of [stop] is. It returns after joining the workers, or at once when the flag
    was set already. *)
Inductive stpc := StIdle | StNotify | StJoin | StDone | StEarly.

#[export] Instance wpc_eq_dec : EqDecision wpc.
Proof. solve_decision. Defined.
#[export] Instance stpc_eq_dec : EqDecision stpc.
Proof. solve_decision. Defined.

(** [mutex] is the thread that has it: a worker or a caller of [submit]. The last three fields
    record the tasks accepted, taken from the queue and finished, in that order of events. *)
(* src/inc/thread_pool.hpp:44-51 *)
Record ThreadPool := mk_pool {
  queue_cap_ : Z; threads_ : list wpc; mutex : option (nat + nat); q_ : list task;
  stopped_ : bool; completed_ : Z; dropped_ : Z;
  submits : list (task * spc); stops : list stpc;
  accepted : list task; started : list task; finished : list task
}.

(** [tasks] are those that will be submitted, [callers] how many threads will call [stop]. *)
(* src/src/thread_pool.cpp:5-12 *)
Definition new_pool (worker_count : nat) (queue_capacity : Z) (tasks : list task) (callers : nat) : ThreadPool :=
  let worker_count := if decide (worker_count = 0%nat) then 1%nat else worker_count in
  mk_pool queue_capacity (replicate worker_count WLock) None [] false 0 0 (map (fun t => (t, SuLock)) tasks)
    (replicate callers StIdle) [] [] [].

Definition set_worker (p : ThreadPool) (i : nat) (w : wpc) (m : option (nat + nat)) : ThreadPool :=
  mk_pool (queue_cap_ p) (<[i := w]> (threads_ p)) m (q_ p) (stopped_ p) (completed_ p) (dropped_ p) (submits p) (stops p)
    (accepted p) (started p) (finished p).

(** One action of worker [i]. *)
(* src/src/thread_pool.cpp:43-57 ThreadPool::worker_loop *)
Definition worker_act (i : nat) (p : ThreadPool) : option ThreadPool :=
  match threads_ p !! i with
  | Some WLock => match mutex p with None => Some (set_worker p i WPred (Some (inl i))) | Some _ => None end
  | Some WPred =>
      if stopped_ p || negb (bool_decide (q_ p = [])) then Some (set_worker p i WTest (mutex p))
      else Some (set_worker p i WBlock (mutex p))
  | Some WBlock => Some (set_worker p i WSleep None)
  | Some WTest =>
      match q_ p with
      | [] => if stopped_ p then Some (set_worker p i WExit None) else Some (set_worker p i WBad None)
      | t :: q =>
          Some (mk_pool (queue_cap_ p) (<[i := WRun t]> (threads_ p)) None q (stopped_ p) (completed_ p) (dropped_ p)
                  (submits p) (stops p) (accepted p) (started p ++ [t]) (finished p))
      end
  | Some (WRun t) =>
      Some (mk_pool (queue_cap_ p) (<[i := WLock]> (threads_ p)) (mutex p) (q_ p) (stopped_ p) (u64 (completed_ p + 1)) (dropped_ p)
              (submits p) (stops p) (accepted p) (started p) (finished p ++ [t]))
  | Some WSleep | Some WExit | Some WBad | None => None
  end.

(** [notify_one] wakes the sleeper [k] of the schedule's choice, or nobody when none sleeps. *)
Definition notify_one (k : nat) (ws : list wpc) : option (list wpc) :=
  if decide (WSleep ∈ ws) then
    match ws !! k with Some WSleep => Some (<[k := WLock]> ws) | _ => None end
  else Some ws.

Definition wake (w : wpc) : wpc := match w with WSleep => WLock | _ => w end.
Definition notify_all (ws : list wpc) : list wpc := map wake ws.

Definition set_submit (p : ThreadPool) (j : nat) (t : task) (s : spc) (m : option (nat + nat)) (dropped : Z) (q acc : list task) : ThreadPool :=
  mk_pool (queue_cap_ p) (threads_ p) m q (stopped_ p) (completed_ p) dropped (<[j := (t, s)]> (submits p)) (stops p)
    acc (started p) (finished p).

(** One action of the caller [j] of [submit]; [k] is whom its notification wakes. *)
(* src/src/thread_pool.cpp:16-28 ThreadPool::submit *)
Definition submit_act (j k : nat) (p : ThreadPool) : option ThreadPool :=
  match submits p !! j with
  | Some (t, SuLock) =>
      match mutex p with None => Some (set_submit p j t SuCheck (Some (inr j)) (dropped_ p) (q_ p) (accepted p)) | Some _ => None end
  | Some (t, SuCheck) =>
      if stopped_ p then Some (set_submit p j t (SuDone false) None (dropped_ p) (q_ p) (accepted p))
      else if queue_cap_ p <=? len (q_ p) then Some (set_submit p j t (SuDone false) None (u64 (dropped_ p + 1)) (q_ p) (accepted p))
      else Some (set_submit p j t SuPush (mutex p) (dropped_ p) (q_ p) (accepted p))
  | Some (t, SuPush) => Some (set_submit p j t SuNotify None (dropped_ p) (q_ p ++ [t]) (accepted p ++ [t]))
  | Some (t, SuNotify) =>
      match notify_one k (threads_ p) with
      | None => None
      | Some ws =>
          Some (mk_pool (queue_cap_ p) ws (mutex p) (q_ p) (stopped_ p) (completed_ p) (dropped_ p)
                  (<[j := (t, SuDone true)]> (submits p)) (stops p) (accepted p) (started p) (finished p))
      end
  | Some (_, SuDone _) | None => None
  end.

Definition set_stop (p : ThreadPool) (i : nat) (ws : list wpc) (stopped : bool) (s : stpc) : ThreadPool :=
  mk_pool (queue_cap_ p) ws (mutex p) (q_ p) stopped (completed_ p) (dropped_ p) (submits p) (<[i := s]> (stops p))
    (accepted p) (started p) (finished p).

(** One action of the caller [i] of [stop]: exchanging the flag, without the mutex, and
    returning if it was set; notifying; and joining. *)
(* src/src/thread_pool.cpp:30-36 ThreadPool::stop *)
Definition stop_act (i : nat) (p : ThreadPool) : option ThreadPool :=
  match stops p !! i with
  | Some StIdle => Some (set_stop p i (threads_ p) true (if stopped_ p then StEarly else StNotify))
  | Some StNotify => Some (set_stop p i (notify_all (threads_ p)) (stopped_ p) StJoin)
  | Some StJoin =>
      if decide (Forall (fun w => w = WExit) (threads_ p)) then Some (set_stop p i (threads_ p) (stopped_ p) StDone) else None
  | Some StDone | Some StEarly | None => None
  end.

(** A wake-up without a notification. *)
Definition spurious_act (i : nat) (p : ThreadPool) : option ThreadPool :=
  match threads_ p !! i with Some WSleep => Some (set_worker p i WLock (mutex p)) | _ => None end.

Inductive action := AWorker (i : nat) | ASubmit (j k : nat) | AStop (i : nat) | ASpurious (i : nat).

Definition act (a : action) (p : ThreadPool) : option ThreadPool :=
  match a with
  | AWorker i => worker_act i p
  | ASubmit j k => submit_act j k p
  | AStop i => stop_act i p
  | ASpurious i => spurious_act i p
  end.

Fixpoint run (sched : list action) (p : ThreadPool) : option ThreadPool :=
  match sched with [] => Some p | a :: sched => act a p ≫= run sched end.

(* src/src/thread_pool.cpp:38-41 *)
Definition queued (p : ThreadPool) : Z := len (q_ p).

(** ** Invariants *)

Definition wholds (w : wpc) : bool := match w with WPred | WBlock | WTest => true | _ => false end.
Definition sholds (s : spc) : bool := match s with SuCheck | SuPush => true | _ => false end.

(** Exactly the owner of the mutex is at a place inside the critical section. *)
Record locked (ws : list wpc) (ss : list (task * spc)) (m : option (nat + nat)) : Prop := {
  lk_worker : forall i w, ws !! i = Some w -> wholds w = true <-> m = Some (inl i);
  lk_submit : forall j t s, ss !! j = Some (t, s) -> sholds s = true <-> m = Some (inr j);
  lk_owner : match m with Some (inl i) => is_Some (ws !! i) | Some (inr j) => is_Some (ss !! j) | None => True end
}.

Definition run_of (w : wpc) : list task := match w with WRun t => [t] | _ => [] end.
Definition accepted_of (s : task * spc) : list task := match s.2 with SuNotify | SuDone true => [s.1] | _ => [] end.

(** Tasks are taken in the order in which they were accepted, those taken are finished or
    running, and those accepted are the ones [submit] accepted. *)
Record conserved (p : ThreadPool) : Prop := {
  cs_fifo : accepted p = started p ++ q_ p;
  cs_started : started p ≡ₚ finished p ++ (threads_ p ≫= run_of);
  cs_accepted : accepted p ≡ₚ submits p ≫= accepted_of;
  cs_completed : completed_ p = u64 (len (finished p))
}.

(** A worker past the condition has something to do, and one that has left has left nothing
    behind: the flag is set, the queue empty and no caller is about to add to it. *)
Record guarded (p : ThreadPool) : Prop := {
  gd_test : forall i, threads_ p !! i = Some WTest -> stopped_ p = true \/ q_ p <> [];
  gd_bad : forall i, threads_ p !! i <> Some WBad;
  gd_exit : forall i, threads_ p !! i = Some WExit -> stopped_ p = true /\ q_ p = [] /\ forall j t, submits p !! j <> Some (t, SuPush);
  gd_done : StDone ∈ stops p -> forall i w, threads_ p !! i = Some w -> w = WExit;
  gd_workers : threads_ p <> [];
  gd_bound : len (q_ p) <= Z.max 0 (queue_cap_ p);
  gd_push : forall j t, submits p !! j = Some (t, SuPush) -> len (q_ p) < queue_cap_ p
}.

Record inv (p : ThreadPool) : Prop := {
  inv_locked : locked (threads_ p) (submits p) (mutex p);
  inv_conserved : conserved p;
  inv_guarded : guarded p
}.

(** Replacing an element of a list replaces its share. *)
Lemma bind_insert {A B} (f : A -> list B) (l : list A) i x y :
  l !! i = Some x -> (<[i := y]> l ≫= f) ++ f x ≡ₚ (l ≫= f) ++ f y.
Proof.
  intros Hi. rewrite <- (take_drop_middle l i x Hi) at 2. rewrite insert_take_drop by (by eapply lookup_lt_Some).
  rewrite !bind_app. cbn [mbind list_bind]. rewrite <- !app_assoc.
  rewrite (Permutation_app_comm (f y)), (Permutation_app_comm (f x)), <- !app_assoc. do 2 f_equiv. apply Permutation_app_comm.
Qed.

Lemma bind_insert_same {A B} (f : A -> list B) (l : list A) i x y :
  l !! i = Some x -> f x = f y -> <[i := y]> l ≫= f ≡ₚ l ≫= f.
Proof. intros Hi E. pose proof (bind_insert f l i x y Hi) as H. rewrite E in H. by apply Permutation_app_inv_r in H. Qed.

Lemma locked_worker ws ss m i w' m' : locked ws ss m -> is_Some (ws !! i) ->
  (wholds w' = true <-> m' = Some (inl i)) -> (forall x, x <> inl i -> m' = Some x <-> m = Some x) ->
  locked (<[i := w']> ws) ss m'.
Proof.
  intros [Hw Hs Ho] Hi Hw' Hm. split.
  - intros k w [(<- & -> & _)|(Hne & Hk)]%list_lookup_insert_Some; [done|]. rewrite (Hw k w Hk). symmetry. apply Hm. congruence.
  - intros j t s Hj. rewrite (Hs j t s Hj). symmetry. by apply Hm.
  - destruct m' as [[k|j]|]; [|by rewrite (proj1 (Hm (inr j) ltac:(done)) eq_refl) in Ho|done].
    apply lookup_lt_is_Some. rewrite length_insert. destruct (decide (k = i)) as [->|Hne]; [by apply lookup_lt_is_Some|].
    rewrite (proj1 (Hm (inl k) ltac:(congruence)) eq_refl) in Ho. by apply lookup_lt_is_Some.
Qed.

Lemma locked_submit ws ss m j t s' m' : locked ws ss m -> is_Some (ss !! j) ->
  (sholds s' = true <-> m' = Some (inr j)) -> (forall x, x <> inr j -> m' = Some x <-> m = Some x) ->
  locked ws (<[j := (t, s')]> ss) m'.
Proof.
  intros [Hw Hs Ho] Hi Hw' Hm. split.
  - intros k w Hk. rewrite (Hw k w Hk). symmetry. by apply Hm.
  - intros k t0 s [(<- & [= <- <-] & _)|(Hne & Hk)]%list_lookup_insert_Some; [done|]. rewrite (Hs k t0 s Hk). symmetry. apply Hm. congruence.
  - destruct m' as [[k|k]|]; [by rewrite (proj1 (Hm (inl k) ltac:(done)) eq_refl) in Ho| |done].
    apply lookup_lt_is_Some. rewrite length_insert. destruct (decide (k = j)) as [->|Hne]; [by apply lookup_lt_is_Some|].
    rewrite (proj1 (Hm (inr k) ltac:(congruence)) eq_refl) in Ho. by apply lookup_lt_is_Some.
Qed.

(** The three ways an action treats the mutex: it leaves it, takes it or releases it. *)
Lemma locked_keep ws ss m i w w' : locked ws ss m -> ws !! i = Some w -> wholds w = wholds w' -> locked (<[i := w']> ws) ss m.
Proof. intros H Hi E. eapply locked_worker; [done|by eexists| |done]. rewrite <- E. by apply H. Qed.
Lemma locked_take ws ss i w w' : locked ws ss None -> ws !! i = Some w -> wholds w' = true -> locked (<[i := w']> ws) ss (Some (inl i)).
Proof. intros H Hi E. eapply locked_worker; [done|by eexists|done|]. intros x Hx. split; intros [= ?]; congruence. Qed.
Lemma locked_release ws ss m i w w' : locked ws ss m -> ws !! i = Some w -> wholds w = true -> wholds w' = false -> locked (<[i := w']> ws) ss None.
Proof.
  intros H Hi E E'. pose proof (proj1 (lk_worker _ _ _ H i w Hi) E) as Hm.
  eapply locked_worker; [done|by eexists|rewrite E'; done|]. intros x Hx. split; [done|]. rewrite Hm. congruence.
Qed.
Lemma locked_submit_keep ws ss m j t s s' : locked ws ss m -> ss !! j = Some (t, s) -> sholds s = sholds s' -> locked ws (<[j := (t, s')]> ss) m.
Proof. intros H Hi E. eapply locked_submit; [done|by eexists| |done]. rewrite <- E. by eapply H. Qed.
Lemma locked_submit_take ws ss j t s s' : locked ws ss None -> ss !! j = Some (t, s) -> sholds s' = true -> locked ws (<[j := (t, s')]> ss) (Some (inr j)).
Proof. intros H Hi E. eapply locked_submit; [done|by eexists|done|]. intros x Hx. split; intros [= ?]; congruence. Qed.
Lemma locked_submit_release ws ss m j t s s' : locked ws ss m -> ss !! j = Some (t, s) -> sholds s = true -> sholds s' = false ->
  locked ws (<[j := (t, s')]> ss) None.
Proof.
  intros H Hi E E'. pose proof (proj1 (lk_submit _ _ _ H j t s Hi) E) as Hm.
  eapply locked_submit; [done|by eexists|rewrite E'; done|]. intros x Hx. split; [done|]. rewrite Hm. congruence.
Qed.

Lemma locked_wake ws ss m : locked ws ss m -> locked (notify_all ws) ss m.
Proof.
  intros [Hw Hs Ho]. split; [|done|].
  - intros i w Hi. unfold notify_all in Hi. apply list_lookup_fmap_Some in Hi as (w0 & -> & Hi).
    rewrite <- (Hw i w0 Hi). by destruct w0.
  - destruct m as [[i|j]|]; try done. unfold notify_all. apply lookup_lt_is_Some. rewrite length_map. by apply lookup_lt_is_Some.
Qed.

Lemma locked_notify_one ws ws' ss m k : notify_one k ws = Some ws' -> locked ws ss m -> locked ws' ss m.
Proof.
  unfold notify_one. case_decide; [|by intros [= <-]]. destruct (ws !! k) as [[]|] eqn:E; try done. intros [= <-] HL.
  by eapply locked_keep.
Qed.

(** Waking changes sleepers only. *)
Definition wakes (ws ws' : list wpc) : Prop :=
  forall i w, ws' !! i = Some w -> exists w0, ws !! i = Some w0 /\ (w = w0 \/ (w0 = WSleep /\ w = WLock)).

Lemma wakes_all ws : wakes ws (notify_all ws).
Proof.
  intros i w Hi. apply list_lookup_fmap_Some in Hi as (w0 & -> & Hi). exists w0. split; [done|]. destruct w0; auto.
Qed.

Lemma wakes_one ws ws' k : notify_one k ws = Some ws' -> wakes ws ws'.
Proof.
  unfold notify_one. case_decide; [|intros [= <-] i w Hi; eauto]. destruct (ws !! k) as [[]|] eqn:E; try done. intros [= <-] i w Hi.
  apply list_lookup_insert_Some in Hi as [(<- & <- & _)|(Hne & Hi)]; eauto.
Qed.

Lemma bind_notify_all ws : notify_all ws ≫= run_of = ws ≫= run_of.
Proof. induction ws as [|w ws IH]; [done|]. cbn. f_equal; [by destruct w|exact IH]. Qed.

Lemma bind_notify_one ws ws' k : notify_one k ws = Some ws' -> ws' ≫= run_of ≡ₚ ws ≫= run_of.
Proof.
  unfold notify_one. case_decide; [|by intros [= <-]]. destruct (ws !! k) as [[]|] eqn:E; try done. intros [= <-].
  by eapply bind_insert_same.
Qed.

Lemma notify_one_length ws ws' k : notify_one k ws = Some ws' -> length ws' = length ws.
Proof.
  unfold notify_one. case_decide; [|by intros [= <-]]. destruct (ws !! k) as [[]|] eqn:E; try done. intros [= <-].
  by rewrite length_insert.
Qed.

Lemma nonempty_length {A} (l l' : list A) : length l = length l' -> l <> [] -> l' <> [].
Proof. destruct l, l'; done. Qed.

(** A worker moves on and nothing else changes. *)
Lemma guarded_worker p i w w' m : guarded p -> threads_ p !! i = Some w -> w <> WExit ->
  (w' = WTest -> stopped_ p = true \/ q_ p <> []) -> w' <> WBad ->
  (w' = WExit -> stopped_ p = true /\ q_ p = [] /\ forall j t, submits p !! j <> Some (t, SuPush)) ->
  guarded (set_worker p i w' m).
Proof.
  intros [Ht Hb He Hd Hn Hq Hp] Hi Hw Ht' Hb' He'. split; cbn; try done.
  - intros k [(<- & E & _)|(_ & Hk)]%list_lookup_insert_Some; [by apply Ht'|by eapply Ht].
  - intros k [(<- & E & _)|(_ & Hk)]%list_lookup_insert_Some; [by apply Hb'|by eapply Hb].
  - intros k [(<- & E & _)|(_ & Hk)]%list_lookup_insert_Some; [by apply He'|by eapply He].
  - intros E. by destruct (Hw (Hd E i w Hi)).
  - eapply nonempty_length; [symmetry; apply length_insert|done].
Qed.

Lemma conserved_worker p i w w' m : conserved p -> threads_ p !! i = Some w -> run_of w = run_of w' -> conserved (set_worker p i w' m).
Proof.
  intros [H1 H2 H3 H4] Hi E. split; cbn; try done. by rewrite (bind_insert_same _ _ _ _ _ Hi E).
Qed.

Lemma inv_worker i p p' : inv p -> worker_act i p = Some p' -> inv p'.
Proof.
  intros [HL HC HG]. unfold worker_act. destruct (threads_ p !! i) as [[]|] eqn:Hi; try done.
  - destruct (mutex p) eqn:Em; [done|]. intros [= <-]. split; [by eapply locked_take|by eapply conserved_worker|by eapply guarded_worker].
  - destruct (stopped_ p || negb (bool_decide (q_ p = []))) eqn:E; intros [= <-].
    + split; [by eapply locked_keep|by eapply conserved_worker|]. eapply guarded_worker; try done.
      intros _. apply orb_prop in E as [E|E]; [by left|right]. by apply negb_true_iff, bool_decide_eq_false in E.
    + split; [by eapply locked_keep|by eapply conserved_worker|by eapply guarded_worker].
  - intros [= <-]. split; [by eapply locked_release|by eapply conserved_worker|by eapply guarded_worker].
  - assert (Hown : mutex p = Some (inl i)) by (by apply (lk_worker _ _ _ HL i WTest Hi)).
    destruct (q_ p) as [|t q] eqn:Eq.
    + destruct (gd_test _ HG i Hi) as [Hst|?]; [|done]. rewrite Hst. intros [= <-].
      split; [by eapply locked_release|by eapply conserved_worker|]. eapply guarded_worker; try done.
      intros _. split; [done|]. split; [done|]. intros j t Hj. pose proof (proj1 (lk_submit _ _ _ HL j t SuPush Hj) eq_refl). congruence.
    + intros [= <-]. destruct HC as [H1 H2 H3 H4], HG as [Ht Hb He Hd Hn Hq Hp]. split; [by eapply locked_release| |].
      * split; cbn; try done; [by rewrite H1, Eq, <- app_assoc|].
        pose proof (bind_insert run_of (threads_ p) i WTest (WRun t) Hi) as E. cbn [run_of] in E. rewrite app_nil_r in E.
        by rewrite E, H2, <- app_assoc.
      * split; cbn.
        -- intros k [(<- & E & _)|(Hne & Hk)]%list_lookup_insert_Some; [done|].
           pose proof (proj1 (lk_worker _ _ _ HL k WTest Hk) eq_refl). congruence.
        -- intros k [(<- & E & _)|(Hne & Hk)]%list_lookup_insert_Some; [done|by eapply Hb].
        -- intros k [(<- & E & _)|(Hne & Hk)]%list_lookup_insert_Some; [done|]. destruct (He k Hk) as (_ & E & _). congruence.
        -- intros E. by specialize (Hd E i WTest Hi).
        -- eapply nonempty_length; [symmetry; apply length_insert|done].
        -- rewrite Eq, len_cons in Hq. lia.
        -- intros j t' Hj. specialize (Hp j t' Hj). rewrite Eq, len_cons in Hp. lia.
  - intros [= <-]. destruct HC as [H1 H2 H3 H4]. split; [by eapply locked_keep| |].
    + split; cbn; try done.
      * pose proof (bind_insert run_of (threads_ p) i (WRun t) WLock Hi) as E. cbn [run_of] in E. rewrite app_nil_r in E.
        rewrite H2, <- E, <- app_assoc. f_equiv. apply Permutation_app_comm.
      * rewrite H4, len_app. change (len [t]) with 1. unfold u64. by rewrite Zplus_mod_idemp_l.
    + pose proof (guarded_worker p i _ WLock (mutex p) HG Hi ltac:(done) ltac:(done) ltac:(done) ltac:(done)) as [Ht Hb He Hd Hn Hq Hp].
      split; cbn; done.
Qed.

Lemma guarded_wakes p ws' : guarded p -> wakes (threads_ p) ws' -> length ws' = length (threads_ p) -> forall ss sts,
  (forall j t, ss !! j = Some (t, SuPush) -> submits p !! j = Some (t, SuPush)) -> (StDone ∈ sts -> StDone ∈ stops p) ->
  guarded (mk_pool (queue_cap_ p) ws' (mutex p) (q_ p) (stopped_ p) (completed_ p) (dropped_ p) ss sts (accepted p) (started p) (finished p)).
Proof.
  intros [Ht Hb He Hd Hn Hq Hp] Hw Hlen ss sts Hss Hs'. split; cbn; try done.
  - intros i Hi. destruct (Hw i _ Hi) as (w0 & H0 & [<-|[-> ?]]); [by eapply Ht|done].
  - intros i Hi. destruct (Hw i _ Hi) as (w0 & H0 & [<-|[-> ?]]); [by eapply Hb|done].
  - intros i Hi. destruct (Hw i _ Hi) as (w0 & H0 & [<-|[-> ?]]); [|done]. destruct (He i H0) as (E1 & E2 & E3).
    split; [done|]. split; [done|]. intros j t Hj. by apply (E3 j t), Hss.
  - intros E i w Hi. specialize (Hd (Hs' E)). destruct (Hw i _ Hi) as (w0 & H0 & [<-|[-> ->]]); [by eapply Hd|].
    by specialize (Hd i _ H0).
  - by eapply nonempty_length.
  - intros j t Hj. by eapply Hp, Hss.
Qed.

(** A caller moves on without adding to the queue. *)
Lemma guarded_submit p j t s' m d : guarded p -> 
  (s' = SuPush -> stopped_ p = false /\ len (q_ p) < queue_cap_ p) ->
  guarded (set_submit p j t s' m d (q_ p) (accepted p)).
Proof.
  intros [Ht Hb He Hd Hn Hq Hp] Hs. split; cbn; try done.
  - intros i Hi. destruct (He i Hi) as (E1 & E2 & E3). split; [done|]. split; [done|].
    intros k t' [(<- & [= <- E] & _)|(_ & Hk)]%list_lookup_insert_Some; [|by eapply E3]. destruct (Hs E). congruence.
  - intros k t' [(<- & [= <- E] & _)|(_ & Hk)]%list_lookup_insert_Some; [by apply Hs|by eapply Hp].
Qed.

Lemma conserved_submit p j t s s' m d : conserved p -> submits p !! j = Some (t, s) -> accepted_of (t, s) = accepted_of (t, s') ->
  conserved (set_submit p j t s' m d (q_ p) (accepted p)).
Proof. intros [H1 H2 H3 H4] Hj E. split; cbn; try done. by rewrite (bind_insert_same _ _ _ _ _ Hj E). Qed.

Lemma inv_submit j k p p' : inv p -> submit_act j k p = Some p' -> inv p'.
Proof.
  intros [HL HC HG]. unfold submit_act. destruct (submits p !! j) as [[t []]|] eqn:Hj; try done.
  - destruct (mutex p) eqn:Em; [done|]. intros [= <-].
    split; [by eapply locked_submit_take|by eapply conserved_submit|by eapply guarded_submit].
  - destruct (stopped_ p) eqn:Est; [|destruct (Z.leb_spec (queue_cap_ p) (len (q_ p)))]; intros [= <-].
    1,2: split; [by eapply locked_submit_release|by eapply conserved_submit|by eapply guarded_submit].
    split; [by eapply locked_submit_keep|by eapply conserved_submit|by eapply guarded_submit].
  - intros [= <-]. pose proof (proj1 (lk_submit _ _ _ HL j t SuPush Hj) eq_refl) as Hown.
    destruct HC as [H1 H2 H3 H4], HG as [Ht Hb He Hd Hn Hq Hp]. split; [by eapply locked_submit_release| |].
    + split; cbn; try done; [by rewrite H1, app_assoc|].
      pose proof (bind_insert accepted_of (submits p) j (t, SuPush) (t, SuNotify) Hj) as E. cbn [accepted_of fst snd] in E.
      rewrite app_nil_r in E. by rewrite E, H3.
    + split; cbn; try done.
      * intros i Hi. right. by destruct (q_ p).
      * intros i Hi. destruct (He i Hi) as (_ & _ & E3). by destruct (E3 j t).
      * rewrite len_app. change (len [t]) with 1. specialize (Hp j t Hj). lia.
      * intros k' t' [(<- & E & _)|(Hne & Hk)]%list_lookup_insert_Some; [done|].
        pose proof (proj1 (lk_submit _ _ _ HL k' t' SuPush Hk) eq_refl). congruence.
  - destruct (notify_one k (threads_ p)) as [ws|] eqn:Ek; [|done]. intros [= <-]. split; cbn.
    + eapply locked_submit_keep; [by eapply locked_notify_one|done|done].
    + destruct HC as [H1 H2 H3 H4]. split; cbn; try done; [by rewrite (bind_notify_one _ _ _ Ek)|].
      by rewrite (bind_insert_same accepted_of _ _ _ (t, SuDone true) Hj).
    + apply guarded_wakes; [done|by eapply wakes_one|by eapply notify_one_length| |done].
      by intros k' t' [(<- & E & _)|(Hne & Hk)]%list_lookup_insert_Some.
Qed.

(** A caller of [stop] that does not return after joining leaves those that have. *)
Lemma done_insert (l : list stpc) (i : nat) s : s <> StDone -> StDone ∈ <[i := s]> l -> StDone ∈ l.
Proof.
  intros Hs [k [(<- & E & _)|(_ & Hk)]%list_lookup_insert_Some]%list_elem_of_lookup; [done|by eapply list_elem_of_lookup_2].
Qed.

Lemma inv_stop i p p' : inv p -> stop_act i p = Some p' -> inv p'.
Proof.
  intros [HL HC HG]. unfold stop_act. destruct (stops p !! i) as [[]|] eqn:Es; try done.
  - intros [= <-]. destruct HC as [H1 H2 H3 H4], HG as [Ht Hb He Hd Hn Hq Hp]. split; [done|by split|]. split; cbn; try done; [by left| |].
    + intros k Hk. by destruct (He k Hk) as (_ & ? & ?).
    + intros E. apply Hd. eapply done_insert; [|exact E]. by destruct (stopped_ p).
  - intros [= <-]. destruct HC as [H1 H2 H3 H4]. split; [by apply locked_wake| |].
    + split; cbn; try done. by rewrite bind_notify_all.
    + apply guarded_wakes; [done|apply wakes_all|apply length_map|done|by apply done_insert].
  - case_decide as Hall; [|done]. intros [= <-]. destruct HC as [H1 H2 H3 H4], HG as [Ht Hb He Hd Hn Hq Hp].
    split; [done|by split|]. split; cbn; try done. intros _ k w Hk. rewrite Forall_forall in Hall. apply Hall.
    by eapply list_elem_of_lookup_2.
Qed.

Lemma inv_act a p p' : inv p -> act a p = Some p' -> inv p'.
Proof.
  intros Hp. destruct a as [i|j k|i|i]; cbn [act]; [by apply inv_worker|by apply inv_submit|by apply inv_stop|].
  unfold spurious_act. destruct (threads_ p !! i) as [[]|] eqn:Hi; try done. intros [= <-]. destruct Hp as [HL HC HG].
  split; [by eapply locked_keep|by eapply conserved_worker|by eapply guarded_worker].
Qed.

Lemma inv_run sched : forall p p', inv p -> run sched p = Some p' -> inv p'.
Proof.
  induction sched as [|a sched IH]; intros p p' Hp; cbn [run]; [by intros [= <-]|].
  destruct (act a p) as [p1|] eqn:E; [|done]. cbn. apply IH. by eapply inv_act.
Qed.

Lemma inv_new n cap tasks callers : inv (new_pool n cap tasks callers).
Proof.
  unfold new_pool. set (k := if decide (n = 0%nat) then 1%nat else n).
  assert (Hw : forall i w, replicate k WLock !! i = Some w -> w = WLock) by (intros i w [-> _]%lookup_replicate_1; done).
  assert (Hs : forall j t s, map (fun t => (t, SuLock)) tasks !! j = Some (t, s) -> s = SuLock).
  { intros j t s Hj. apply list_lookup_fmap_Some in Hj as (x & [= -> ->] & _). done. }
  split; cbn.
  - split; [intros i w Hi; by rewrite (Hw i w Hi)|intros j t s Hj; by rewrite (Hs j t s Hj)|done].
  - split; cbn; try done.
    + replace (replicate k WLock ≫= run_of) with (@nil task); [done|]. clear. by induction k.
    + replace (map (fun t => (t, SuLock)) tasks ≫= accepted_of) with (@nil task); [done|]. clear. by induction tasks.
  - split; cbn; try done.
    + intros i Hi. by apply Hw in Hi.
    + intros i Hi. by apply Hw in Hi.
    + intros i Hi. by apply Hw in Hi.
    + by intros [E _]%elem_of_replicate.
    + unfold k. by destruct n.
    + change (len (@nil task)) with 0. lia.
    + intros j t Hj. by apply Hs in Hj.
Qed.

(** C11: The pool loses no task and runs none twice. In every state that any interleaving of
    the workers, of callers of [submit] and of any number of callers of [stop] reaches,
    spurious wake-ups included: the queue is within its capacity and no worker takes from an
    empty one; the accepted tasks are those for which [submit] returns true, are taken in the
    order of acceptance, and each that was taken is finished or being run by one worker; and
    once a call of [stop] has returned after joining the workers, which every call does but
    those that find the pool already being stopped, the queue is empty and exactly the
    accepted tasks have been run, each once. *)
Theorem pool_runs_accepted_tasks (n : nat) (cap : Z) (tasks : list task) (callers : nat) (sched : list action) (p : ThreadPool) :
  run sched (new_pool n cap tasks callers) = Some p ->
  queued p <= Z.max 0 (queue_cap_ p) /\ (WBad ∉ threads_ p) /\
  accepted p ≡ₚ submits p ≫= accepted_of /\ accepted p = started p ++ q_ p /\
  started p ≡ₚ finished p ++ (threads_ p ≫= run_of) /\ completed_ p = u64 (len (finished p)) /\
  (StDone ∈ stops p -> q_ p = [] /\ finished p ≡ₚ accepted p).
Proof.
  intros Hr. destruct (inv_run _ _ _ (inv_new n cap tasks callers) Hr) as [HL [H1 H2 H3 H4] [Ht Hb He Hd Hn Hq Hp]].
  split_and!; try done.
  { intros [i Hi]%list_elem_of_lookup. by destruct (Hb i). }
  intros Hs. specialize (Hd Hs). destruct (threads_ p) as [|w ws] eqn:Ew; [done|].
  assert (Hq0 : q_ p = []) by (destruct (He 0%nat) as (_ & ? & _); [by rewrite (Hd 0%nat w eq_refl)|done]).
  split; [done|]. rewrite H1, Hq0, app_nil_r, H2.
  replace ((w :: ws) ≫= run_of) with (@nil task); [by rewrite app_nil_r|].
  clear -Hd. assert (Hall : forall x, x ∈ w :: ws -> x = WExit) by (intros x [i Hi]%list_elem_of_lookup; by eapply Hd).
  revert Hall. generalize (w :: ws). induction l as [|x l IH]; intros Hall; [done|]. cbn.
  rewrite (Hall x) by set_solver. cbn. apply IH. intros y Hy. apply Hall. set_solver.
Qed.

(** Two workers run two of three tasks; the third finds the queue full. *)
Definition busy_schedule : list action :=
  [ASubmit 0 0; ASubmit 0 0; ASubmit 0 0; ASubmit 0 0; ASubmit 1 0; ASubmit 1 0;
   AWorker 0; AWorker 0; AWorker 0; ASubmit 2 0; ASubmit 2 0; ASubmit 2 0; ASubmit 2 0;
   AStop 0; AWorker 1; AWorker 1; AWorker 1; AWorker 1; AWorker 0; AWorker 0; AWorker 0; AWorker 0;
   AWorker 1; AWorker 1; AWorker 1; AStop 0; AStop 0].

Lemma pool_runs_accepted_tasks_witness :
  exists p, run busy_schedule (new_pool 2 1 [11; 22; 33] 1) = Some p /\ stops p = [StDone] /\ finished p ≡ₚ accepted p.
Proof.
  destruct (run busy_schedule (new_pool 2 1 [11; 22; 33] 1)) as [p|] eqn:E; [|vm_compute in E; discriminate].
  exists p. split; [reflexivity|].
  assert (Hs : stops p = [StDone]) by (vm_compute in E; injection E as <-; reflexivity). split; [exact Hs|].
  apply (pool_runs_accepted_tasks 2 1 [11; 22; 33] 1 busy_schedule p E). rewrite Hs. by apply list_elem_of_singleton.
Defined.

(** ** Stopping *)

(** The flag is set and the notification sent between a worker's test of the condition and its
    going to sleep: without the mutex nothing keeps [stop] from doing so. *)
Definition lost_wakeup : list action := [AWorker 0; AWorker 0; AStop 0; AStop 0; AWorker 0].

(** C13: [stop] can wait for ever. There is an interleaving of one idle worker and [stop] after
    which [stop] is joining the workers and no thread can take a step, unless the system
    wakes a sleeper without a notification. *)
Theorem stop_can_hang :
  exists p, run lost_wakeup (new_pool 1 16 [] 1) = Some p /\ stops p = [StJoin] /\ stopped_ p = true /\
    forall a, (forall i, a <> ASpurious i) -> act a p = None.
Proof.
  eexists. split; [vm_compute; reflexivity|]. split; [done|]. split; [done|].
  intros [[|i]|j k|[|i]|i] Ha; cbn; try done. by destruct (Ha i).
Qed.

(** What is left to do: a task still queued is worth a turn of a worker's loop. *)
Definition work_of (w : wpc) : Z :=
  match w with WLock => 3 | WPred => 2 | WTest => 1 | WRun _ => 4 | WBlock | WSleep => 5 | WExit | WBad => 0 end.
Definition call_of (s : task * spc) : Z :=
  match s.2 with SuLock => 3 | SuCheck => 2 | SuPush => 12 | SuNotify => 1 | SuDone _ => 0 end.
Definition stop_of (s : stpc) : Z :=
  match s with StIdle => 3 | StNotify => 2 | StJoin => 1 | StDone | StEarly => 0 end.
Fixpoint total {A} (f : A -> Z) (l : list A) : Z := match l with [] => 0 | x :: l => f x + total f l end.
Definition remaining (p : ThreadPool) : Z :=
  total work_of (threads_ p) + total call_of (submits p) + 10 * len (q_ p) +
  total stop_of (stops p).

(** The flag is set, the notification sent by the call that set it, and nobody asleep or about
    to be. *)
Definition awake (p : ThreadPool) : Prop :=
  stopped_ p = true /\ (StJoin ∈ stops p \/ StDone ∈ stops p) /\ (forall i, threads_ p !! i <> Some WSleep) /\ (forall i, threads_ p !! i <> Some WBlock).

Lemma total_insert {A} (f : A -> Z) l i x y : l !! i = Some x -> total f (<[i := y]> l) = total f l - f x + f y.
Proof.
  revert i. induction l as [|z l IH]; intros [|i]; cbn; try done; [intros [= ->]; lia|]. intros Hi. change (f z + total f (<[i := y]> l) = f z + total f l - f x + f y). rewrite (IH i Hi). lia.
Qed.

Lemma total_nonneg {A} (f : A -> Z) l : (forall x, 0 <= f x) -> 0 <= total f l.
Proof. intros Hf. induction l as [|x l IH]; cbn; [lia|]. specialize (Hf x). lia. Qed.

Lemma work_left_nonneg p : 0 <= remaining p.
Proof.
  unfold remaining. pose proof (total_nonneg work_of (threads_ p) ltac:(by intros [])).
  pose proof (total_nonneg call_of (submits p) ltac:(by intros [? []])). pose proof (len_nonneg (q_ p)).
  pose proof (total_nonneg stop_of (stops p) ltac:(by intros [])). lia.
Qed.

Lemma awake_worker p i w w' m : awake p -> threads_ p !! i = Some w -> w' <> WSleep -> w' <> WBlock -> awake (set_worker p i w' m).
Proof.
  intros (H1 & H2 & H3 & H4) Hi Hs Hb. split; [done|]. split; [done|]. split; cbn.
  - intros k [(_ & E & _)|(_ & Hk)]%list_lookup_insert_Some; [done|by eapply H3].
  - intros k [(_ & E & _)|(_ & Hk)]%list_lookup_insert_Some; [done|by eapply H4].
Qed.

Lemma remaining_worker p i w w' m : threads_ p !! i = Some w -> work_of w' < work_of w -> remaining (set_worker p i w' m) < remaining p.
Proof. intros Hi Hw. unfold remaining. cbn. rewrite (total_insert work_of _ _ _ _ Hi). lia. Qed.

Lemma awake_worker_act p p' i : inv p -> awake p -> worker_act i p = Some p' -> awake p' /\ remaining p' < remaining p.
Proof.
  intros HI Ha. pose proof Ha as (H1 & H2 & H3 & H4). unfold worker_act. destruct (threads_ p !! i) as [[]|] eqn:Hi; try done.
  - destruct (mutex p); [done|]. intros [= <-]. split; [by eapply awake_worker|by eapply remaining_worker].
  - rewrite H1. intros [= <-]. split; [by eapply awake_worker|by eapply remaining_worker].
  - by destruct (H4 i).
  - destruct (q_ p) as [|t q] eqn:Eq.
    + rewrite H1. intros [= <-]. split; [by eapply awake_worker|by eapply remaining_worker].
    + intros [= <-]. split; [by apply (awake_worker p i WTest (WRun t) None Ha Hi)|].
      unfold remaining. cbn. rewrite (total_insert work_of _ _ _ _ Hi), Eq, len_cons. cbn. lia.
  - intros [= <-]. split; [by apply (awake_worker p i (WRun t) WLock None Ha Hi)|].
    unfold remaining. cbn. rewrite (total_insert work_of _ _ _ _ Hi). cbn. lia.
Qed.

Lemma awake_submit_act p p' j k : awake p -> submit_act j k p = Some p' -> awake p' /\ remaining p' < remaining p.
Proof.
  intros Ha. pose proof Ha as (H1 & H2 & H3 & H4). unfold submit_act. destruct (submits p !! j) as [[t []]|] eqn:Hj; try done.
  - destruct (mutex p); [done|]. intros [= <-]. split; [done|]. unfold remaining. cbn. rewrite (total_insert call_of _ _ _ _ Hj). cbn. lia.
  - rewrite H1. intros [= <-]. split; [done|]. unfold remaining. cbn. rewrite (total_insert call_of _ _ _ _ Hj). cbn. lia.
  - intros [= <-]. split; [done|]. unfold remaining. cbn. rewrite (total_insert call_of _ _ _ _ Hj), len_app.
    change (len [t]) with 1. cbn. lia.
  - unfold notify_one. rewrite decide_False.
    + intros [= <-]. split; [done|]. unfold remaining. cbn. rewrite (total_insert call_of _ _ _ _ Hj). cbn. lia.
    + intros [i Hi]%list_elem_of_lookup. by destruct (H3 i).
Qed.

Lemma awake_stops_insert (l : list stpc) (i : nat) s s' : l !! i = Some s -> (s = StJoin -> s' = StDone) -> s <> StDone ->
  StJoin ∈ l \/ StDone ∈ l -> StJoin ∈ <[i := s']> l \/ StDone ∈ <[i := s']> l.
Proof.
  intros Hi Hs Hd [[k Hk]%list_elem_of_lookup|[k Hk]%list_elem_of_lookup]; destruct (decide (k = i)) as [->|Hne].
  - right. rewrite Hk in Hi. injection Hi as <-. rewrite Hs by done. eapply list_elem_of_lookup_2.
    apply list_lookup_insert_eq. by eapply lookup_lt_Some.
  - left. eapply list_elem_of_lookup_2. by rewrite list_lookup_insert_ne.
  - congruence.
  - right. eapply list_elem_of_lookup_2. by rewrite list_lookup_insert_ne.
Qed.

Lemma awake_stop_act p p' i : awake p -> stop_act i p = Some p' -> awake p' /\ remaining p' < remaining p.
Proof.
  intros (H1 & H2 & H3 & H4). unfold stop_act. destruct (stops p !! i) as [[]|] eqn:Es; try done.
  - rewrite H1. intros [= <-]. split; [split_and!; try done; by eapply awake_stops_insert|].
    unfold remaining. cbn. rewrite (total_insert stop_of _ _ _ _ Es). cbn. lia.
  - intros [= <-]. assert (En : notify_all (threads_ p) = threads_ p).
    { apply list_eq. intros k. unfold notify_all. rewrite list_lookup_fmap.
      destruct (threads_ p !! k) as [[]|] eqn:Ek; try done. by destruct (H3 k). }
    rewrite En. split; [split_and!; try done; by eapply awake_stops_insert|].
    unfold remaining. cbn. rewrite (total_insert stop_of _ _ _ _ Es). cbn. lia.
  - case_decide; [|done]. intros [= <-]. split; [split_and!; try done; by eapply awake_stops_insert|].
    unfold remaining. cbn. rewrite (total_insert stop_of _ _ _ _ Es). cbn. lia.
Qed.

Lemma awake_act a p p' : inv p -> awake p -> act a p = Some p' -> awake p' /\ remaining p' < remaining p.
Proof.
  intros HI Ha. destruct a as [i|j k|i|i]; cbn [act]; [by apply awake_worker_act|by apply awake_submit_act|by apply awake_stop_act|].
  destruct Ha as (H1 & H2 & H3 & H4). unfold spurious_act. destruct (threads_ p !! i) as [[]|] eqn:Hi; try done. by destruct (H3 i).
Qed.

Lemma awake_run sched : forall p p', inv p -> awake p -> run sched p = Some p' -> awake p' /\ remaining p' + Z.of_nat (length sched) <= remaining p.
Proof.
  induction sched as [|a sched IH]; intros p p' HI Ha; cbn [run length]; [intros [= <-]; split; [done|lia]|].
  destruct (act a p) as [p1|] eqn:E; [|done]. cbn. intros Hr. destruct (awake_act a p p1 HI Ha E) as [Ha1 Hlt].
  destruct (IH p1 p' (inv_act _ _ _ HI E) Ha1 Hr) as [Ha' Hle]. split; [done|]. lia.
Qed.

(** The owner of the mutex can always move on. *)
Lemma owner_acts p : inv p -> awake p -> mutex p <> None -> exists a p', act a p = Some p'.
Proof.
  intros [HL HC HG] (H1 & H2 & H3 & H4) Hm. pose proof (lk_owner _ _ _ HL) as Ho. destruct (mutex p) as [[i|j]|] eqn:Em; [| |done].
  - destruct Ho as [w Hi]. exists (AWorker i). cbn. unfold worker_act. rewrite Hi.
    pose proof (proj2 (lk_worker _ _ _ HL i w Hi) eq_refl) as Hh. destruct w; try done.
    + rewrite H1. by eexists.
    + by eexists.
    + destruct (q_ p); [destruct (stopped_ p)|]; by eexists.
  - destruct Ho as [[t s] Hj]. exists (ASubmit j 0). cbn. unfold submit_act. rewrite Hj.
    pose proof (proj2 (lk_submit _ _ _ HL j t s Hj) eq_refl) as Hh. destruct s; try done.
    + rewrite H1. by eexists.
    + by eexists.
Qed.

Definition returned (s : stpc) : Prop := s = StDone \/ s = StEarly.

Lemma awake_progress p : inv p -> awake p ->
  (Forall returned (stops p) /\ StDone ∈ stops p) \/ exists a p', act a p = Some p'.
Proof.
  intros HI Ha. pose proof Ha as (H1 & H2 & H3 & H4).
  destruct (decide (Forall (fun s => s = StDone \/ s = StEarly) (stops p))) as [Hd|Hnd].
  { left. split; [done|]. destruct H2 as [H2|H2]; [|done]. rewrite Forall_forall in Hd. by destruct (Hd _ H2). }
  right. apply not_Forall_Exists in Hnd; [|apply _]. apply Exists_exists in Hnd as (s & [k Hk]%list_elem_of_lookup & Hs).
  destruct (decide (s = StJoin)) as [->|Hj].
  2: { exists (AStop k). cbn. unfold stop_act. rewrite Hk. destruct s; first [done|by destruct Hs; auto|by eexists]. }
  destruct (mutex p) as [o|] eqn:Em; [by apply owner_acts; [..|rewrite Em]|].
  destruct (decide (Forall (fun w => w = WExit) (threads_ p))) as [Hall|Hex].
  { exists (AStop k). cbn. unfold stop_act. rewrite Hk, decide_True by done. by eexists. }
  apply not_Forall_Exists in Hex; [|apply _]. apply Exists_exists in Hex as (w & [i Hi]%list_elem_of_lookup & Hw).
  exists (AWorker i). cbn. unfold worker_act. rewrite Hi. pose proof (lk_worker _ _ _ (inv_locked _ HI) i w Hi) as Hl. rewrite Em in Hl.
  destruct w; try (by destruct Hl as [Hl _]; specialize (Hl eq_refl)); try done.
  - rewrite Em. by eexists.
  - by destruct (H3 i).
  - by eexists.
  - by destruct Hw.
  - by destruct (gd_bad _ (inv_guarded _ HI) i).
Qed.

(** C12: When no worker is asleep or about to fall asleep at the time of the notification,
    [stop] returns. From such a state, reached by any interleaving, every continuation is
    finite, with a bound known in advance, and until every caller of [stop] has returned, one
    of them after joining the workers, some thread can take a step: so whatever the scheduler
    does the workers drain the queue and are joined. *)
Theorem stop_returns (n : nat) (cap : Z) (tasks : list task) (callers : nat) (before after : list action) (p p' : ThreadPool) :
  run before (new_pool n cap tasks callers) = Some p -> awake p -> run after p = Some p' ->
  Z.of_nat (length after) <= remaining p /\
  ((Forall returned (stops p') /\ StDone ∈ stops p') \/ exists a p'', act a p' = Some p'').
Proof.
  intros Hb Ha Hr. pose proof (inv_run _ _ _ (inv_new n cap tasks callers) Hb) as HI.
  destruct (awake_run after p p' HI Ha Hr) as [Ha' Hle]. pose proof (work_left_nonneg p'). split; [lia|].
  apply awake_progress; [|done]. by eapply inv_run.
Qed.

(** The worker is asleep before [stop] begins and is woken by it. *)
Definition stopped_asleep : list action := [AWorker 0; AWorker 0; AWorker 0; AStop 0; AStop 0].
Definition stopped_state : ThreadPool := default (new_pool 1 16 [] 1) (run stopped_asleep (new_pool 1 16 [] 1)).

Lemma stop_returns_witness :
  exists p', run [AWorker 0; AWorker 0; AWorker 0; AStop 0] stopped_state = Some p' /\ stops p' = [StDone] /\
    4 <= remaining stopped_state.
Proof.
  eexists. split; [vm_compute; reflexivity|]. split; [reflexivity|].
  assert (Ha : awake stopped_state).
  { split; [reflexivity|]. split; [left; by apply list_elem_of_singleton|]. split; intros [|i]; vm_compute; discriminate. }
  assert (Hr : run [AWorker 0; AWorker 0; AWorker 0; AStop 0] stopped_state <> None) by (vm_compute; discriminate).
  destruct (run [AWorker 0; AWorker 0; AWorker 0; AStop 0] stopped_state) as [q|] eqn:E; [|done].
  exact (proj1 (stop_returns 1 16 [] 1 stopped_asleep [AWorker 0; AWorker 0; AWorker 0; AStop 0] stopped_state q eq_refl Ha E)).
Defined.

(** A call that finds the pool being stopped returns at once, with tasks still queued. *)
Example second_stop_does_not_wait :
  exists p, run [ASubmit 0 0; ASubmit 0 0; ASubmit 0 0; AStop 0; AStop 1] (new_pool 1 16 [7] 2) = Some p /\
    stops p = [StNotify; StEarly] /\ q_ p = [7].
Proof. eexists. split; [vm_compute; reflexivity|]. by split. Qed.
