(* ===== verification/EventLoop.v ===== *)
(** The event loop ([src/event_loop.cpp]) and the listener on it ([src/listener.cpp]). A
    callback or posted task is a handle; what running it does to the loop is an argument, as
    are the results of [poll] and the iteration order of the table. The loop also records
    every task posted to it. *)

From stdpp Require Import gmap.
From S2P Require Import Prelude Socket.
Local Open Scope Z_scope.

(* src/inc/event_loop.hpp:23-23 *)
Definition kEvRead : Z := 1.
(* src/inc/event_loop.hpp:24-24 *)
Definition kEvWrite : Z := 2.
Definition POLLIN : Z := 1.
Definition POLLOUT : Z := 4.
Definition POLLERR : Z := 8.
Definition POLLHUP : Z := 16.
Definition POLLNVAL : Z := 32.

(* src/inc/event_loop.hpp:63-66 *)
Record Entry := mk_lentry { e_events : Z; e_cb : Z }.

(** [history] is every task posted so far. *)
(* src/inc/event_loop.hpp:70-74 *)
Record EventLoop := mk_loop { running_ : bool; entries_ : gmap Z Entry; posted_ : list Z; posted_task_exceptions_ : Z; history : list Z }.
Definition new_loop : EventLoop := mk_loop false ∅ [] 0 [].

(* src/src/event_loop.cpp:11-16 EventLoop::add *)
Definition loop_add (fd events cb : Z) (l : EventLoop) : bool * EventLoop :=
  if fd <? 0 then (false, l)
  else match entries_ l !! fd with
       | Some _ => (false, l)
       | None => (true, mk_loop (running_ l) (<[fd := mk_lentry events cb]> (entries_ l)) (posted_ l) (posted_task_exceptions_ l) (history l))
       end.

(* src/src/event_loop.cpp:18-23 EventLoop::modify *)
Definition loop_modify (fd events : Z) (l : EventLoop) : bool * EventLoop :=
  match entries_ l !! fd with
  | None => (false, l)
  | Some e => (true, mk_loop (running_ l) (<[fd := mk_lentry events (e_cb e)]> (entries_ l)) (posted_ l) (posted_task_exceptions_ l) (history l))
  end.

(* src/src/event_loop.cpp:25-27 EventLoop::remove *)
Definition loop_remove (fd : Z) (l : EventLoop) : bool * EventLoop :=
  (bool_decide (is_Some (entries_ l !! fd)),
   mk_loop (running_ l) (delete fd (entries_ l)) (posted_ l) (posted_task_exceptions_ l) (history l)).

(* src/src/event_loop.cpp:73-75 EventLoop::stop *)
Definition loop_stop (l : EventLoop) : EventLoop :=
  mk_loop false (entries_ l) (posted_ l) (posted_task_exceptions_ l) (history l).

(* src/src/event_loop.cpp:77-80 EventLoop::post *)
Definition loop_post (task : Z) (l : EventLoop) : EventLoop :=
  mk_loop (running_ l) (entries_ l) (posted_ l ++ [task]) (posted_task_exceptions_ l) (history l ++ [task]).

(** What a callback, a task or another thread does to the loop. *)
Inductive loop_op := OAdd (fd events cb : Z) | OModify (fd events : Z) | ORemove (fd : Z) | OPost (task : Z) | OStop.

Definition apply_op (l : EventLoop) (o : loop_op) : EventLoop :=
  match o with
  | OAdd fd ev cb => (loop_add fd ev cb l).2
  | OModify fd ev => (loop_modify fd ev l).2
  | ORemove fd => (loop_remove fd l).2
  | OPost t => loop_post t l
  | OStop => loop_stop l
  end.

Section loop.
(** What a task does and whether it throws; what a callback does for a descriptor and flags, and
    whether it throws. *)
Context (task_does : Z -> list loop_op * bool) (callback_does : Z -> Z -> Z -> list loop_op * bool).
Context (order : gmap Z Entry -> list (Z * Entry)).

(** The tasks run are returned with the loop. *)
(* src/src/event_loop.cpp:82-95 *)
Definition drain_posted (l : EventLoop) : list Z * EventLoop :=
  let local := posted_ l in
  let l := mk_loop (running_ l) (entries_ l) [] (posted_task_exceptions_ l) (history l) in
  (local,
   foldl (fun l t =>
     let '(ops, throws) := task_does t in
     let l := foldl apply_op l ops in
     if throws : bool then mk_loop (running_ l) (entries_ l) (posted_ l) (u64 (posted_task_exceptions_ l + 1)) (history l) else l) l local).

(** The interest a descriptor is polled with. *)
(* src/src/event_loop.cpp:37-44 EventLoop::run_once *)
Definition interest (e : Entry) : Z :=
  Z.lor (if Z.land (e_events e) kEvRead =? 0 then 0 else POLLIN) (if Z.land (e_events e) kEvWrite =? 0 then 0 else POLLOUT).

(* src/src/event_loop.cpp:53-55 EventLoop::run_once *)
Definition ready_flags (revents : Z) : Z :=
  Z.lor (if Z.land revents (Z.lor POLLIN (Z.lor POLLHUP POLLERR)) =? 0 then 0 else kEvRead)
        (if Z.land revents POLLOUT =? 0 then 0 else kEvWrite).

(** The dispatch of the polled descriptors; the calls made are returned, and whether the last one
    threw: an exception of a callback leaves the loop over the descriptors. *)
(* src/src/event_loop.cpp:49-62 EventLoop::run_once *)
Fixpoint dispatch (revents : Z -> Z) (fds : list Z) (l : EventLoop) : list (Z * Z * Z) * bool * EventLoop :=
  match fds with
  | [] => ([], false, l)
  | fd :: fds =>
      if revents fd =? 0 then dispatch revents fds l
      else match entries_ l !! fd with
           | None => dispatch revents fds l
           | Some e =>
               let flags := ready_flags (revents fd) in
               let '(ops, throws) := callback_does (e_cb e) fd flags in
               let l := foldl apply_op l ops in
               if throws : bool then ([(fd, flags, e_cb e)], true, l)
               else
                 let '(calls, threw, l) := dispatch revents fds l in
                 ((fd, flags, e_cb e) :: calls, threw, l)
           end
  end.

(** [poll] sees the descriptors with their interest and returns a count and the events. The
    result is [None] for a turn that an exception leaves. *)
(* src/src/event_loop.cpp:29-64 *)
Definition run_once (poll : list (Z * Z) -> Z * (Z -> Z)) (l : EventLoop) : option Z * list Z * list (Z * Z * Z) * EventLoop :=
  let '(ran, l) := drain_posted l in
  let es := order (entries_ l) in
  match es with
  | [] => (Some 0, ran, [], l)
  | _ =>
      let '(n, revents) := poll (map (fun p => (p.1, interest p.2)) es) in
      if n <=? 0 then (Some n, ran, [], l)
      else let '(calls, threw, l) := dispatch revents es.*1 l in (if threw : bool then None else Some n, ran, calls, l)
  end.

(** The turns of [run], each with what other threads do before it; [None] when the loop is
    still running. An exception leaves [run] with the flag still set. *)
(* src/src/event_loop.cpp:66-71 EventLoop::run *)
Fixpoint run_turns (turns : list (list loop_op * (list (Z * Z) -> Z * (Z -> Z)))) (l : EventLoop) : list Z * option EventLoop :=
  match turns with
  | [] => ([], None)
  | (others, poll) :: turns =>
      let l := foldl apply_op l others in
      if negb (running_ l) then ([], Some l)
      else
        let '(n, ran, _, l) := run_once poll l in
        match n with
        | None => (ran, Some l)
        | Some _ => let '(rest, r) := run_turns turns l in (ran ++ rest, r)
        end
  end.

Definition loop_run (turns : list (list loop_op * (list (Z * Z) -> Z * (Z -> Z)))) (l : EventLoop) : list Z * option EventLoop :=
  run_turns turns (mk_loop true (entries_ l) (posted_ l) (posted_task_exceptions_ l) (history l)).

(** ** Posted tasks *)

(** What was posted is what was run and what is waiting, in that order. *)
Definition queued (ran : list Z) (l : EventLoop) : Prop := history l = ran ++ posted_ l.

Lemma queued_op ran l o : queued ran l -> queued ran (apply_op l o).
Proof.
  unfold queued. intros Hq. destruct o as [fd ev cb|fd ev|fd|t|]; cbn; try done.
  - unfold loop_add. destruct (fd <? 0); [done|]. by destruct (entries_ l !! fd).
  - unfold loop_modify. by destruct (entries_ l !! fd).
  - by rewrite Hq, app_assoc.
Qed.

Lemma queued_ops ran l ops : queued ran l -> queued ran (foldl apply_op l ops).
Proof. revert l. induction ops as [|o ops IH]; intros l Hq; cbn [foldl]; [done|]. by apply IH, queued_op. Qed.

Lemma queued_drain ran l : queued ran l -> queued (ran ++ (drain_posted l).1) (drain_posted l).2.
Proof.
  intros Hq. unfold drain_posted. cbn [fst snd].
  assert (H0 : queued (ran ++ posted_ l) (mk_loop (running_ l) (entries_ l) [] (posted_task_exceptions_ l) (history l))).
  { unfold queued. cbn. by rewrite app_nil_r. }
  revert H0. generalize (mk_loop (running_ l) (entries_ l) [] (posted_task_exceptions_ l) (history l)).
  generalize (ran ++ posted_ l). intros done_. generalize (posted_ l). intros ts. induction ts as [|t ts IH]; intros l' H0; cbn [foldl]; [done|].
  apply IH. destruct (task_does t) as [ops throws]. pose proof (queued_ops _ _ ops H0) as H1. by destruct throws.
Qed.

Lemma queued_dispatch ran revents fds : forall l, queued ran l -> queued ran (dispatch revents fds l).2.
Proof.
  induction fds as [|fd fds IH]; intros l Hq; cbn [dispatch]; [done|].
  destruct (revents fd =? 0); [by apply IH|]. destruct (entries_ l !! fd) as [e|]; [|by apply IH].
  destruct (callback_does _ _ _) as [ops throws]. pose proof (queued_ops _ _ ops Hq) as H1.
  destruct throws; [done|]. specialize (IH _ H1). by destruct (dispatch revents fds _) as [[calls threw] l'].
Qed.

Lemma queued_once ran poll l : queued ran l ->
  queued (ran ++ (run_once poll l).1.1.2) (run_once poll l).2 /\ (run_once poll l).1.1.2 = posted_ l.
Proof.
  intros Hq. pose proof (queued_drain ran l Hq) as Hd. unfold run_once.
  assert (E : (drain_posted l).1 = posted_ l) by done. destruct (drain_posted l) as [rn l1]. cbn [fst snd] in *. subst rn.
  destruct (order (entries_ l1)) as [|x es]; [done|]. destruct (poll _) as [n revents]. destruct (n <=? 0); [done|].
  pose proof (queued_dispatch _ revents (x :: es).*1 l1 Hd) as H2. by destruct (dispatch revents (x :: es).*1 l1) as [[calls threw] l2].
Qed.

Lemma queued_turns turns : forall ran l, queued ran l ->
  match run_turns turns l with (ran', Some l') => queued (ran ++ ran') l' | (_, None) => True end.
Proof.
  induction turns as [|[others poll] turns IH]; intros ran l Hq; cbn [run_turns]; [done|].
  pose proof (queued_ops ran l others Hq) as H1. destruct (running_ (foldl apply_op l others)); cbn [negb].
  - destruct (queued_once ran poll _ H1) as [H2 _]. destruct (run_once poll (foldl apply_op l others)) as [[[n rn] calls] l2]. cbn [fst snd] in H2.
    destruct n as [n|]; [|done].
    specialize (IH _ _ H2). destruct (run_turns turns l2) as [rest [l'|]]; [|done]. by rewrite app_assoc.
  - by rewrite app_nil_r.
Qed.

(** Posted tasks run exactly once, in the order in which they were posted. Whatever other
    threads, callbacks and tasks do, when the loop ends, stopped or left by an exception, the tasks it ran followed by those
    still waiting are all the tasks ever posted, in order; in each turn every task that was
    waiting runs before the descriptors are polled, even if another one throws. *)
Theorem posted_tasks_fifo (turns : list (list loop_op * (list (Z * Z) -> Z * (Z -> Z)))) (ran : list Z) (l' : EventLoop) :
  loop_run turns new_loop = (ran, Some l') ->
  history l' = ran ++ posted_ l' /\ forall poll, (run_once poll l').1.1.2 = posted_ l'.
Proof.
  unfold loop_run. intros Hr. assert (H0 : queued [] (mk_loop true ∅ [] 0 [])) by done.
  pose proof (queued_turns turns [] _ H0) as H. cbn in Hr. rewrite Hr in H. split; [exact H|].
  intros poll. by apply (queued_once ran).
Qed.

(** ** Dispatch *)

(** The callback registered for a descriptor. *)
Definition cb_at (l : EventLoop) (fd : Z) : option Z := e_cb <$> entries_ l !! fd.

(** A callback that takes no descriptor but its own out of the loop leaves the registered
    callbacks of the others alone. *)
Lemma cb_at_op l o fd fd' cb : (forall x, o = ORemove x -> x = fd) -> fd' <> fd -> cb_at l fd' = Some cb -> cb_at (apply_op l o) fd' = Some cb.
Proof.
  intros Ho Hne. unfold cb_at. destruct o as [x ev c|x ev|x|t|]; cbn; try done.
  - unfold loop_add. destruct (x <? 0); [done|]. destruct (entries_ l !! x) eqn:E; [done|]. cbn.
    destruct (decide (x = fd')) as [->|Hx]; [by rewrite E|by rewrite lookup_insert_ne].
  - unfold loop_modify. destruct (entries_ l !! x) as [e|] eqn:E; [|done]. cbn.
    destruct (decide (x = fd')) as [->|Hx]; [by rewrite E, lookup_insert_eq|by rewrite lookup_insert_ne].
  - rewrite lookup_delete_ne; [done|]. rewrite (Ho x eq_refl). congruence.
Qed.

Lemma cb_at_ops ops fd fd' cb : (forall x, ORemove x ∈ ops -> x = fd) -> fd' <> fd -> forall l,
  cb_at l fd' = Some cb -> cb_at (foldl apply_op l ops) fd' = Some cb.
Proof.
  intros Ho Hne. induction ops as [|o ops IH]; intros l Hl; cbn [foldl]; [done|].
  apply IH; [intros x Hx; apply Ho; by right|]. eapply cb_at_op; [|done|done]. intros x ->. apply Ho. by left.
Qed.

(** Whether a call throws. *)
Definition call_throws (c : Z * Z * Z) : bool := (callback_does c.2 c.1.1 c.1.2).2.

(** [calls] are the calls due, up to the first one that throws. *)
Definition served (due calls : list (Z * Z * Z)) (threw : bool) : Prop :=
  if threw then exists pre c rest, due = pre ++ c :: rest /\ calls = pre ++ [c] /\ call_throws c = true /\ Forall (fun c => call_throws c = false) pre
  else calls = due /\ Forall (fun c => call_throws c = false) calls.

Lemma served_cons c due calls threw : call_throws c = false -> served due calls threw -> served (c :: due) (c :: calls) threw.
Proof.
  intros Hc. unfold served. destruct threw.
  - intros (pre & x & rest & -> & -> & Hx & Hp). exists (c :: pre), x, rest. split_and!; [done|done|done|by constructor].
  - intros [-> Hp]. split; [done|by constructor].
Qed.

Lemma dispatch_spec revents fds (cb : Z -> Z) :
  (forall c fd flags x, ORemove x ∈ (callback_does c fd flags).1 -> x = fd) -> NoDup fds ->
  forall l, (forall fd, fd ∈ fds -> cb_at l fd = Some (cb fd)) ->
  served (map (fun fd => (fd, ready_flags (revents fd), cb fd)) (filter (fun fd => revents fd <> 0) fds))
    (dispatch revents fds l).1.1 (dispatch revents fds l).1.2.
Proof.
  intros Hown Hnd. induction fds as [|fd fds IH]; intros l Hcb; cbn [dispatch]; [done|].
  apply NoDup_cons in Hnd as [Hfd Hnd]. destruct (Z.eqb_spec (revents fd) 0) as [E|E].
  - rewrite filter_cons_False by auto. apply IH; [done|]. intros x Hx. apply Hcb. by right.
  - rewrite filter_cons_True by auto. pose proof (Hcb fd ltac:(by left)) as Hc. unfold cb_at in Hc.
    destruct (entries_ l !! fd) as [e|]; [|done]. injection Hc as Hc. rewrite Hc. cbn [map].
    pose proof (Hown (cb fd) fd (ready_flags (revents fd))) as Ho.
    destruct (callback_does (cb fd) fd (ready_flags (revents fd))) as [ops throws] eqn:Ecb. cbn [fst] in Ho.
    assert (Ht : call_throws (fd, ready_flags (revents fd), cb fd) = throws) by (unfold call_throws; cbn [fst snd]; by rewrite Ecb).
    destruct throws.
    { exists [], (fd, ready_flags (revents fd), cb fd). eexists. by split_and!. }
    specialize (IH Hnd (foldl apply_op l ops)). destruct (dispatch revents fds _) as [[calls threw] l']. cbn [fst snd] in *.
    apply served_cons; [done|]. apply IH. intros x Hx. eapply cb_at_ops; [exact Ho| |apply Hcb; by right]. intros ->. done.
Qed.

(** The flags a callback is documented to get, bit by bit: readable for POLLIN (bit 0), POLLERR
    (bit 3) or POLLHUP (bit 4), writable for POLLOUT (bit 2), and nothing else. *)
Definition reported (revents : Z) : Z :=
  (if Z.testbit revents 0 || Z.testbit revents 3 || Z.testbit revents 4 then 1 else 0) + (if Z.testbit revents 2 then 2 else 0).

Lemma land_bits a k : 0 <= k -> (Z.land a (2 ^ k) =? 0) = negb (Z.testbit a k).
Proof.
  intros Hk. destruct (Z.testbit a k) eqn:E; cbn [negb].
  - apply Z.eqb_neq. intros H0. pose proof (Z.land_spec a (2 ^ k) k) as Hs. by rewrite H0, Z.bits_0, E, Z.pow2_bits_true in Hs by lia.
  - apply Z.eqb_eq. apply Z.bits_inj'. intros i Hi. rewrite Z.land_spec, Z.bits_0, Z.pow2_bits_eqb by lia.
    destruct (Z.eqb_spec k i) as [<-|]; [by rewrite E|apply andb_false_r].
Qed.

Lemma lor_zero a b : (Z.lor a b =? 0) = (a =? 0) && (b =? 0).
Proof.
  apply eq_true_iff_eq. rewrite andb_true_iff, !Z.eqb_eq, Z.lor_eq_0_iff. done.
Qed.

Lemma ready_flags_reported revents : ready_flags revents = reported revents.
Proof.
  unfold ready_flags, reported, POLLIN, POLLOUT, POLLERR, POLLHUP, kEvRead, kEvWrite.
  rewrite !Z.land_lor_distr_r, !lor_zero.
  pose proof (land_bits revents 0 ltac:(lia)) as H0. pose proof (land_bits revents 2 ltac:(lia)) as H2.
  pose proof (land_bits revents 3 ltac:(lia)) as H3. pose proof (land_bits revents 4 ltac:(lia)) as H4.
  change (2 ^ 0) with 1 in H0. change (2 ^ 2) with 4 in H2. change (2 ^ 3) with 8 in H3. change (2 ^ 4) with 16 in H4.
  rewrite H0, H2, H3, H4. by destruct (Z.testbit revents 0), (Z.testbit revents 2), (Z.testbit revents 3), (Z.testbit revents 4).
Qed.

Lemma calls_of_entries (es : list (Z * Entry)) (revents : Z -> Z) (cb : Z -> Z) :
  (forall p, p ∈ es -> cb p.1 = e_cb p.2) ->
  map (fun fd => (fd, ready_flags (revents fd), cb fd)) (filter (fun fd => revents fd <> 0) es.*1) =
  map (fun p => (p.1, reported (revents p.1), e_cb p.2)) (filter (fun p => revents p.1 <> 0) es).
Proof.
  intros Hcb. induction es as [|p es IH]; [done|]. cbn [fmap list_fmap]. change (list_fmap _ _ fst es) with (es.*1).
  assert (IH' := IH ltac:(intros y Hy; apply Hcb; by right)). destruct (decide (revents p.1 <> 0)) as [H|H].
  - rewrite !filter_cons_True by done. cbn [map]. rewrite IH', (Hcb p), ready_flags_reported by (by left). done.
  - rewrite !filter_cons_False by done. exact IH'.
Qed.

(** C31: Every ready descriptor is served once per turn. Let callbacks take no descriptor but
    their own out of the loop, and some descriptor be registered. The posted tasks run first.
    If [poll] then reports no descriptor, nothing is called and its result returned. Otherwise
    the calls due are those of the callbacks of exactly the registered descriptors with events, each
    once, told readable for input, a hang-up or an error and writable for output; if none of them
    throws all are made and the count is returned, and if one throws, they are made up to that one and
    the exception leaves the turn. Adding, modifying and posting during the calls does not
    disturb it. *)
Theorem loop_dispatches_ready (poll : list (Z * Z) -> Z * (Z -> Z)) (l : EventLoop) r (ran : list Z) (calls : list (Z * Z * Z)) (l' : EventLoop) :
  (forall m, order m ≡ₚ map_to_list m) ->
  (forall c fd flags x, ORemove x ∈ (callback_does c fd flags).1 -> x = fd) ->
  entries_ (drain_posted l).2 <> ∅ -> run_once poll l = (r, ran, calls, l') ->
  let es := order (entries_ (drain_posted l).2) in
  let '(n, revents) := poll (map (fun p => (p.1, interest p.2)) es) in
  let due := map (fun p => (p.1, reported (revents p.1), e_cb p.2)) (filter (fun p => revents p.1 <> 0) es) in
  ran = posted_ l /\
  if n <=? 0 then r = Some n /\ calls = []
  else match r with
       | Some k => k = n /\ calls = due /\ Forall (fun c => call_throws c = false) calls
       | None => exists pre c rest, due = pre ++ c :: rest /\ calls = pre ++ [c] /\ call_throws c = true /\
                   Forall (fun c => call_throws c = false) pre
       end.
Proof.
  intros Hord Hown Hne Hr. cbn zeta. unfold run_once in Hr. assert (Hran : (drain_posted l).1 = posted_ l) by done.
  destruct (drain_posted l) as [rn l1]. cbn [fst snd] in *. subst rn.
  set (es := order (entries_ l1)) in *. destruct es as [|x es'] eqn:Ees.
  { destruct Hne. apply map_to_list_empty_iff. rewrite <- Permutation_nil_r, <- Hord. fold es. by rewrite Ees. }
  rewrite <- Ees in *. destruct (poll (map (fun p => (p.1, interest p.2)) es)) as [m revents].
  destruct (m <=? 0); [by injection Hr as <- <- <- _|].
  set (cb := fun fd => default 0 (cb_at l1 fd)).
  assert (Hin : forall p, p ∈ es -> cb_at l1 p.1 = Some (e_cb p.2)).
  { intros [fd e] Hp. unfold es in Hp. rewrite Hord in Hp. apply elem_of_map_to_list in Hp. unfold cb_at. cbn. by rewrite Hp. }
  pose proof (dispatch_spec revents es.*1 cb Hown ltac:(unfold es; rewrite Hord; apply NoDup_fst_map_to_list) l1) as Hd.
  rewrite (calls_of_entries es) in Hd by (intros p Hp; unfold cb; by rewrite (Hin p Hp)).
  destruct (dispatch revents es.*1 l1) as [[cs threw] l2]. cbn [fst snd] in Hd. injection Hr as <- <- <- _.
  split; [done|]. assert (Hs := Hd ltac:(intros fd (p & -> & Hp)%list_elem_of_fmap; unfold cb; by rewrite (Hin p Hp))).
  destruct threw; [exact Hs|by split].
Qed.

End loop.

(** Two descriptors; the callback of 3 posts a task, that of 5 takes 5 out. *)
Definition demo_does (c fd flags : Z) : list loop_op * bool := if c =? 1 then ([OPost 7], false) else ([ORemove fd], false).
Definition demo_loop : EventLoop := foldl apply_op new_loop [OAdd 3 kEvRead 1; OAdd 5 kEvWrite 2; OPost 4].
Definition demo_poll (_ : list (Z * Z)) : Z * (Z -> Z) := (2, fun fd => if fd =? 3 then POLLHUP else POLLOUT).

Lemma loop_dispatches_ready_witness :
  exists calls l', run_once (fun _ => ([], false)) demo_does map_to_list demo_poll demo_loop = (Some 2, [4], calls, l') /\
    calls ≡ₚ [(3, kEvRead, 1); (5, kEvWrite, 2)].
Proof.
  destruct (run_once (fun _ => ([], false)) demo_does map_to_list demo_poll demo_loop) as [[[r ran] calls] l'] eqn:E.
  pose proof (loop_dispatches_ready (fun _ => ([], false)) demo_does map_to_list demo_poll demo_loop r ran calls l') as H.
  cbn zeta in H. destruct H as [Hran H].
  - done.
  - intros c fd flags x. unfold demo_does. destruct (c =? 1); intros Hx.
    + apply list_elem_of_singleton in Hx. discriminate.
    + apply list_elem_of_singleton in Hx. congruence.
  - intros Hm. apply (f_equal (fun m => m !! 3)) in Hm. vm_compute in Hm. discriminate.
  - exact E.
  - assert (Hr : r = Some 2) by (vm_compute in E; congruence). subst r. destruct H as (_ & Hc & _).
    exists calls, l'. rewrite Hran. split; [reflexivity|]. rewrite Hc. vm_compute. apply Permutation_refl || apply Permutation_swap.
Defined.

Lemma posted_tasks_fifo_witness :
  exists l', loop_run (fun t => if t =? 1 then ([OPost 3], true) else ([], false)) (fun _ _ _ => ([], false)) map_to_list
      [([OPost 1; OPost 2], fun _ => (0, fun _ => 0)); ([OPost 4], fun _ => (0, fun _ => 0)); ([OPost 5; OStop], fun _ => (0, fun _ => 0))] new_loop
    = ([1; 2; 3; 4], Some l') /\ history l' = [1; 2; 3; 4] ++ posted_ l'.
Proof.
  eexists. split; [vm_compute; reflexivity|].
  apply (posted_tasks_fifo (fun t => if t =? 1 then ([OPost 3], true) else ([], false)) (fun _ _ _ => ([], false)) map_to_list
    [([OPost 1; OPost 2], fun _ => (0, fun _ => 0)); ([OPost 4], fun _ => (0, fun _ => 0)); ([OPost 5; OStop], fun _ => (0, fun _ => 0))]).
  vm_compute. reflexivity.
Defined.

(** A stop that comes before the loop begins is forgotten. *)
Example early_stop_lost :
  loop_run (fun _ => ([], false)) (fun _ _ _ => ([], false)) map_to_list [([], fun _ => (0, fun _ => 0))] (loop_stop new_loop) = ([], None).
Proof. reflexivity. Qed.

(** A callback that takes out another descriptor and registers the same number again hands the
    new registration the event of the old one. *)
Example stale_event_delivered :
  (dispatch (fun c fd _ => (if c =? 1 then [ORemove 5; OAdd 5 kEvRead 9] else [], false)) (fun _ => POLLIN) [3; 5]
     (foldl apply_op new_loop [OAdd 3 kEvRead 1; OAdd 5 kEvRead 2])).1.1 = [(3, kEvRead, 1); (5, kEvRead, 9)].
Proof. reflexivity. Qed.

(** A descriptor that is not open is reported to its callback with no flags. *)
Example closed_descriptor_no_flags : ready_flags POLLNVAL = 0.
Proof. reflexivity. Qed.

(** A callback that throws ends [run]: the other ready descriptors are not served, and the flag says
    that the loop is running. *)
Example throwing_callback_ends_run :
  let does := fun c _ _ => if c =? 1 then ([], true) else ([], false) in
  let l := foldl apply_op new_loop [OAdd 3 kEvRead 1; OAdd 5 kEvRead 2] in
  (dispatch does (fun _ => POLLIN) [3; 5] l).1 = ([(3, kEvRead, 1)], true) /\
  match loop_run (fun _ => ([], false)) does map_to_list [([], fun _ => (2, fun _ => POLLIN)); ([OStop], fun _ => (0, fun _ => 0))] l with
  | (_, Some l') => running_ l' = true
  | (_, None) => False
  end.
Proof. split; vm_compute; reflexivity. Qed.

(** Without descriptors a turn does not wait: [poll] is not called. *)
Lemma empty_turn_returns task_does callback_does order poll l :
  order (entries_ (drain_posted task_does l).2) = [] -> (run_once task_does callback_does order poll l).1.1.1 = Some 0.
Proof. unfold run_once. destruct (drain_posted task_does l) as [ran l1]. cbn [snd]. by intros ->. Qed.

(** ** The listener *)

(* src/inc/listener.hpp:15-19 *)
Record AcceptedPeer := mk_peer { p_fd : Z; p_ip : list Z; p_port : Z }.

(** [attached] stands for the pointer to the loop. *)
(* src/inc/listener.hpp:50-54 *)
Record Listener := mk_listener { fd_ : Z; attached : bool; has_callback : bool; accepts_ : Z; errors_ : Z }.
Definition new_listener : Listener := mk_listener (-1) false false 0 0.

(* src/src/listener.cpp:12-17 Listener::start *)
Definition listener_start (gai : option (list listen_try)) (o : fcntl_outcome) (l : Listener) (p : process) : M (bool * Listener * process) :=
  let! '(fd, p) := sl_sock_listen_tcp gai p in
  let l := mk_listener fd (attached l) (has_callback l) (accepts_ l) (errors_ l) in
  if fd <? 0 then Ok (false, l, p) else Ok (true, l, (sl_sock_set_nonblocking o p fd true).2).

(* src/src/listener.cpp:19-23 Listener::attach *)
Definition attach (cb : Z) (with_callback : bool) (l : Listener) (loop : EventLoop) : bool * Listener * EventLoop :=
  if fd_ l <? 0 then (false, l, loop)
  else
    let '(ok, loop) := loop_add (fd_ l) kEvRead cb loop in
    (ok, mk_listener (fd_ l) true with_callback (accepts_ l) (errors_ l), loop).

(** What [accept] does: a descriptor with its peer's address, or a failure. *)
Inductive accept_outcome := Accepts (fd : Z) (sa : sockaddr) (o : fcntl_outcome) | Again | AcceptError.

(** The loop of the callback: the peers handed over. [None] while it has not returned. *)
(* src/src/listener.cpp:24-46 Listener::attach *)
Fixpoint on_readable (inet_ntop : list Z -> list Z) (outs : list accept_outcome) (l : Listener) (p : process)
    : option (M (list AcceptedPeer * Listener * process)) :=
  match outs with
  | [] => None
  | Again :: _ => Some (Ok ([], l, p))
  | AcceptError :: _ => Some (Ok ([], mk_listener (fd_ l) (attached l) (has_callback l) (accepts_ l) (u64 (errors_ l + 1)), p))
  | Accepts fd sa o :: outs =>
      let '(cfd, peer, p) := sl_sock_accept inet_ntop fd sa true p in
      let l := mk_listener (fd_ l) (attached l) (has_callback l) (u64 (accepts_ l + 1)) (errors_ l) in
      let p := (sl_sock_set_nonblocking o p cfd true).2 in
      let '(ip, port) := default ([], 0) peer in
      if has_callback l then
        match on_readable inet_ntop outs l p with
        | Some (Ok (peers, l, p)) => Some (Ok (mk_peer cfd ip port :: peers, l, p))
        | r => r
        end
      else match sl_sock_close p cfd with Ok p => on_readable inet_ntop outs l p | Fault => Some Fault end
  end.

(* src/src/listener.cpp:49-53 Listener::stop *)
Definition listener_stop (l : Listener) (loop : EventLoop) (p : process) : M (Listener * EventLoop * process) :=
  let loop := if attached l && (0 <=? fd_ l) then (loop_remove (fd_ l) loop).2 else loop in
  if 0 <=? fd_ l then
    let! p := sl_sock_close p (fd_ l) in Ok (mk_listener (-1) false (has_callback l) (accepts_ l) (errors_ l), loop, p)
  else Ok (mk_listener (fd_ l) false (has_callback l) (accepts_ l) (errors_ l), loop, p).

(** The descriptors accepted before the first failure. *)
Fixpoint accepted_fds (outs : list accept_outcome) : list Z :=
  match outs with Accepts fd _ _ :: outs => fd :: accepted_fds outs | _ => [] end.

Lemma set_nonblocking_dom o (p : process) fd b : is_Some (p !! fd) ->
  dom (sl_sock_set_nonblocking o p fd b).2 = dom p /\ forall x, x <> fd -> (sl_sock_set_nonblocking o p fd b).2 !! x = p !! x.
Proof.
  intros [fl Hfl]. unfold sl_sock_set_nonblocking. rewrite Hfl. destruct (negb (getfl_ok o)); [done|].
  destruct (setfl_ok o); [|done]. cbn [snd]. split.
  - apply dom_insert_lookup_L. by eexists.
  - intros x Hx. by rewrite lookup_insert_ne by congruence.
Qed.

(** The listener neither leaks nor loses a connection. When a turn of its accept loop
    returns, having accepted fresh descriptors, no closed descriptor was used; without a
    callback every accepted descriptor has been closed again and the process is as before;
    with one each accepted descriptor was handed over once, in order, and those are the only
    new ones open; and the counter has grown by their number. *)
Theorem listener_hands_over (inet_ntop : list Z -> list Z) (outs : list accept_outcome) (l : Listener) (p : process) r :
  on_readable inet_ntop outs l p = Some r ->
  Forall (fun fd => 0 <= fd) (accepted_fds outs) -> NoDup (accepted_fds outs) -> Forall (fun fd => p !! fd = None) (accepted_fds outs) ->
  exists peers l' p', r = Ok (peers, l', p') /\ u64 (accepts_ l') = u64 (accepts_ l + len (accepted_fds outs)) /\
    if has_callback l then map p_fd peers = accepted_fds outs /\ dom p' = dom p ∪ list_to_set (accepted_fds outs)
    else peers = [] /\ p' = p.
Proof.
  revert l p r. induction outs as [|[fd sa o| |] outs IH]; intros l p r Hr Hpos Hnd Hfresh; cbn [on_readable accepted_fds] in *; try done.
  2,3: injection Hr as <-; do 3 eexists; (split; [done|]); rewrite Z.add_0_r; (split; [done|]); destruct (has_callback l); [|done];
    cbn; split; [done|]; set_solver.
  apply Forall_cons in Hpos as [Hfd Hpos], Hfresh as [Hf Hfresh]. apply NoDup_cons in Hnd as [Hn Hnd].
  unfold sl_sock_accept in Hr. rewrite (proj2 (Z.ltb_ge fd 0)) in Hr by lia. cbn [default] in Hr. unfold id in Hr.
  match type of Hr with context [let '(_, _) := ?x in _] => destruct x as [ip port] end.
  assert (Hopen : is_Some (sys_open p fd !! fd)) by (unfold sys_open; rewrite lookup_insert_eq; by eexists).
  destruct (set_nonblocking_dom o (sys_open p fd) fd true Hopen) as [Hdom Hother].
  set (p1 := (sl_sock_set_nonblocking o (sys_open p fd) fd true).2) in *.
  assert (Hp1 : Forall (fun x => p1 !! x = None) (accepted_fds outs)).
  { rewrite Forall_forall in Hfresh |- *. intros x Hx. rewrite Hother by (intros ->; done). unfold sys_open.
    rewrite lookup_insert_ne by (intros ->; done). by apply Hfresh. }
  set (l1 := mk_listener (fd_ l) (attached l) (has_callback l) (u64 (accepts_ l + 1)) (errors_ l)) in *. cbn [has_callback] in Hr.
  rewrite len_cons. destruct (has_callback l) eqn:Ecb.
  - destruct (on_readable inet_ntop outs l1 p1) as [r1|] eqn:E1; [|done].
    destruct (IH l1 p1 r1 E1 Hpos Hnd Hp1) as (peers & l' & p' & -> & Ha & Hrest). cbn [has_callback l1] in Hrest. destruct Hrest as [Hm Hd].
    injection Hr as <-. do 3 eexists. split; [done|]. split.
    + rewrite Ha. cbn [accepts_ l1]. unfold u64. rewrite Zplus_mod_idemp_l. f_equal. lia.
    + split; [cbn [map]; by rewrite Hm|]. rewrite Hd, Hdom. unfold sys_open. rewrite dom_insert_L. cbn [list_to_set]. set_solver.
  - unfold sl_sock_close, sys_close in Hr. rewrite (proj2 (Z.ltb_ge fd 0)) in Hr by lia.
    destruct (p1 !! fd) as [fl|] eqn:Efd.
    2:{ apply not_elem_of_dom in Efd. rewrite Hdom in Efd. by apply elem_of_dom in Hopen. }
    assert (Ep : delete fd p1 = p).
    { apply map_eq. intros x. destruct (decide (x = fd)) as [->|Hx]; [by rewrite lookup_delete_eq|].
      rewrite lookup_delete_ne, Hother by done. unfold sys_open. by rewrite lookup_insert_ne. }
    rewrite Ep in Hr. destruct (IH l1 p r Hr Hpos Hnd Hfresh) as (peers & l' & p' & -> & Ha & Hrest). cbn [has_callback l1] in Hrest.
    do 3 eexists. split; [done|]. split; [|done].
    rewrite Ha. cbn [accepts_ l1]. unfold u64. rewrite Zplus_mod_idemp_l. f_equal. lia.
Qed.

Lemma listener_hands_over_witness :
  exists peers l' p', on_readable (fun _ => []) [Accepts 8 sockaddr_other (mk_fcntl true true); Accepts 9 sockaddr_other (mk_fcntl true false); Again]
      (mk_listener 3 true true 0 0) ∅ = Some (Ok (peers, l', p')) /\ map p_fd peers = [8; 9].
Proof.
  destruct (on_readable (fun _ => []) [Accepts 8 sockaddr_other (mk_fcntl true true); Accepts 9 sockaddr_other (mk_fcntl true false); Again]
    (mk_listener 3 true true 0 0) ∅) as [r|] eqn:E; [|vm_compute in E; discriminate].
  destruct (listener_hands_over (fun _ => []) [Accepts 8 sockaddr_other (mk_fcntl true true); Accepts 9 sockaddr_other (mk_fcntl true false); Again]
    (mk_listener 3 true true 0 0) ∅ r E) as (peers & l' & p' & -> & _ & Hm & _).
  - cbn. rewrite !Forall_cons. split; [lia|]. split; [lia|done].
  - by_deciding.
  - cbn. rewrite !Forall_cons. split; [done|]. split; [done|done].
  - exists peers, l', p'. split; [reflexivity|exact Hm].
Defined.

(** When the listening descriptor could not be made non-blocking the listener still starts:
    its accept loop then waits in [accept] and keeps the event loop. *)
Example blocking_listener_starts :
  listener_start (Some [mk_lt 3 0 0]) (mk_fcntl true false) new_listener ∅ = Ok (true, mk_listener 3 false false 0 0, {[ 3 := O_RDWR ]}).
Proof. reflexivity. Qed.
