(* ===== verification/Guards.v ===== *)
(** Guards of a process and its keys: buffer canaries ([src/sl_canary.c]), the pid file
    ([src/sl_pidfile.c]), key fingerprints ([src/inc/fingerprint.hpp]) with the comparison and
    the wiping of [src/inc/secure_memory.hpp], and the hexadecimal dumps of
    [src/inc/hexdump.hpp]. A canary's slot is its 64-bit value. The pid file is a path that
    leads to an inode, as it does on the system: opening keeps the inode, unlinking frees the
    path only, and the lock belongs to the inode. Processes are interleaved one system call at
    a time. *)

From stdpp Require Import gmap.
From Stdlib Require Import String.
From S2P Require Import Prelude Ctype ByteOrder Mem Aead KeySched Hex Rng.
Local Open Scope Z_scope.

(** ** Canaries *)

Section canary.
Context {R : Type} `{RandLaws R}.

(** The process-wide value is an argument and, with the return code, a result. *)
(* src/src/sl_canary.c:10-18 *)
Definition sl_canary_init (g : Z) (r : R) : M (Z * Z * R) :=
  let! '(o, r) := sl_rng_u64 r in
  match o with
  | None => Ok (-1, g, r)
  | Some v =>
      let v := if Z.land v 0xFF =? 0 then Z.lor v 0xA5 else v in
      let v := if Z.land v 0xFF00000000000000 =? 0 then Z.lor v (0x5A ≪ 56) else v in
      Ok (0, v, r)
  end.
End canary.

(* src/src/sl_canary.c:24-27 *)
Definition sl_canary_arm (g : Z) (slot : option Z) : option Z := match slot with None => None | Some _ => Some g end.

(* src/src/sl_canary.c:29-34 *)
Definition sl_canary_check (g : Z) (slot : option Z) : M bool :=
  match slot with
  | None => Ok false
  | Some v => let! r := sl_ct_equal (be64 v) (be64 g) 8 in Ok (r =? 1)
  end.

(* src/src/sl_canary.c:36-39 *)
Definition sl_canary_disarm (slot : option Z) : option Z := match slot with None => None | Some _ => Some 0 end.

Lemma canary_check_spec g v : is_u64 g -> is_u64 v -> sl_canary_check g (Some v) = Ok (bool_decide (v = g)).
Proof.
  intros Hg Hv. unfold sl_canary_check. rewrite ct_equal_spec; try apply be64_bytes; rewrite ?len_be64; try lia.
  rewrite !take_ge by done. case_decide as E; case_bool_decide as E'; try done; [by apply be64_inj in E|by destruct E; rewrite E'].
Qed.

Lemma low_or v : is_u64 v -> Z.land v 0xFF = 0 -> is_u64 (Z.lor v 0xA5) /\ Z.land (Z.lor v 0xA5) 0xFF <> 0.
Proof.
  intros Hv E. split; [apply lor_u64; [done|lia]|]. by rewrite Z.land_lor_distr_l, E.
Qed.

Lemma high_or v : is_u64 v -> Z.land v 0xFF00000000000000 = 0 ->
  is_u64 (Z.lor v (0x5A ≪ 56)) /\ Z.land (Z.lor v (0x5A ≪ 56)) 0xFF00000000000000 <> 0 /\
  Z.land (Z.lor v (0x5A ≪ 56)) 0xFF = Z.land v 0xFF.
Proof.
  intros Hv E. change (0x5A ≪ 56) with 6485183463413514240. split; [apply lor_u64; [done|lia]|].
  rewrite !Z.land_lor_distr_l, E. split; [done|]. change (Z.land 6485183463413514240 255) with 0. apply Z.lor_0_r.
Qed.

(** An initialised canary detects every change. After a successful initialisation the
    value has non-zero low and high bytes, an armed slot passes the check, and any other
    content of the slot fails it, in particular one overwritten with zeros; a failed
    initialisation leaves the value alone. *)
Theorem canary_detects_changes {R} `{RandLaws R} (g : Z) (r : R) :
  exists rc g' r', sl_canary_init g r = Ok (rc, g', r') /\
    (rc <> 0 -> rc = -1 /\ g' = g) /\
    (rc = 0 -> Z.land g' 0xFF <> 0 /\ Z.land g' 0xFF00000000000000 <> 0 /\
       (forall slot, sl_canary_check g' (sl_canary_arm g' (Some slot)) = Ok true) /\
       (forall v, is_u64 v -> sl_canary_check g' (Some v) = Ok (bool_decide (v = g'))) /\
       sl_canary_check g' (Some 0) = Ok false).
Proof.
  unfold sl_canary_init. destruct (rng_u64_spec r) as [-> Hv]. destruct (u64_draw r) as [[v|] r']; cbn [fst] in Hv.
  2:{ do 3 eexists. split; [done|]. split; [done|]. done. }
  set (v1 := if Z.land v 0xFF =? 0 then Z.lor v 0xA5 else v).
  assert (H1 : is_u64 v1 /\ Z.land v1 0xFF <> 0).
  { unfold v1. destruct (Z.eqb_spec (Z.land v 0xFF) 0); [by apply low_or|done]. }
  destruct H1 as [Hv1 Hlow]. set (v2 := if Z.land v1 0xFF00000000000000 =? 0 then Z.lor v1 (0x5A ≪ 56) else v1).
  assert (H2 : is_u64 v2 /\ Z.land v2 0xFF <> 0 /\ Z.land v2 0xFF00000000000000 <> 0).
  { unfold v2. destruct (Z.eqb_spec (Z.land v1 0xFF00000000000000) 0) as [E|]; [|done].
    destruct (high_or v1 Hv1 E) as (A & B & C). split; [done|]. by rewrite C. }
  destruct H2 as (Hv2 & Hl2 & Hh2). do 3 eexists. split; [done|]. split; [done|]. intros _.
  split; [done|]. split; [done|]. split; [|split].
  - intros slot. cbn [sl_canary_arm]. rewrite canary_check_spec by done. by rewrite bool_decide_eq_true_2.
  - intros w Hw. by apply canary_check_spec.
  - rewrite canary_check_spec by (done || lia). rewrite bool_decide_eq_false_2; [done|]. intros E. by rewrite <- E in Hl2.
Qed.

Lemma canary_detects_changes_witness :
  exists rc g' r', sl_canary_init 0 [Some [0; 1; 2; 3; 4; 5; 6; 0]] = Ok (rc, g', r') /\ rc = 0 /\ sl_canary_check g' (Some 0) = Ok false.
Proof.
  destruct (canary_detects_changes 0 [Some [0; 1; 2; 3; 4; 5; 6; 0]]) as (rc & g' & r' & E & _ & H).
  exists rc, g', r'. split; [exact E|]. assert (Hrc : rc = 0) by (vm_compute in E; congruence).
  split; [exact Hrc|]. apply H. exact Hrc.
Defined.

(** Before the initialisation the value is zero, and a slot overwritten with zeros passes. *)
Example uninitialised_canary_passes : sl_canary_check 0 (Some 0) = Ok true.
Proof. reflexivity. Qed.

(** ** The pid file *)

(** Where a process is in [sl_pidfile_write]; the inode it has open. *)
Inductive ppc := PIdle | POpened (ino : nat) | PLocked (ino : nat) | PTruncated (ino : nat) | PHolds (ino : nat) | PFailed | PGone.

#[export] Instance ppc_eq_dec : EqDecision ppc.
Proof. solve_decision. Defined.

Record system := mk_system { path : option nat; contents : gmap nat cstring; locks : gmap nat nat; next_ino : nat; procs : list ppc }.
Definition new_system (n : nat) : system := mk_system None ∅ ∅ 0 (replicate n PIdle).

Definition set_proc (s : system) (i : nat) (pc : ppc) : system := mk_system (path s) (contents s) (locks s) (next_ino s) (<[i := pc]> (procs s)).

(** A process that closes its descriptor loses its lock. *)
Definition close_fd (s : system) (i ino : nat) (pc : ppc) : system :=
  mk_system (path s) (contents s) (if bool_decide (locks s !! ino = Some i) then delete ino (locks s) else locks s) (next_ino s) (<[i := pc]> (procs s)).

Definition pid_of (i : nat) : Z := Z.of_nat i + 1000.

(** One system call of process [i]; [ok] is whether one that may fail succeeds. *)
(* src/src/sl_pidfile.c:11-30 *)
Definition pidfile_write_act (i : nat) (ok : bool) (s : system) : option system :=
  match procs s !! i with
  | Some PIdle =>
      if negb ok then Some (set_proc s i PFailed)
      else match path s with
           | Some ino => Some (set_proc s i (POpened ino))
           | None => Some (mk_system (Some (next_ino s)) (<[next_ino s := []]> (contents s)) (locks s) (S (next_ino s)) (<[i := POpened (next_ino s)]> (procs s)))
           end
  | Some (POpened ino) =>
      match locks s !! ino with
      | Some _ => Some (set_proc s i PFailed)
      | None => if ok then Some (mk_system (path s) (contents s) (<[ino := i]> (locks s)) (next_ino s) (<[i := PLocked ino]> (procs s)))
                else Some (set_proc s i PFailed)
      end
  | Some (PLocked ino) =>
      if ok then Some (mk_system (path s) (<[ino := []]> (contents s)) (locks s) (next_ino s) (<[i := PTruncated ino]> (procs s)))
      else Some (close_fd s i ino PFailed)
  | Some (PTruncated ino) =>
      if ok then Some (mk_system (path s) (<[ino := dec_int (pid_of i) ++ [10]]> (contents s)) (locks s) (next_ino s) (<[i := PHolds ino]> (procs s)))
      else Some (close_fd s i ino PFailed)
  | Some (PHolds _) | Some PFailed | Some PGone | None => None
  end.

(** The end of a process closes its descriptor. *)
Definition exit_act (i : nat) (s : system) : option system :=
  match procs s !! i with
  | Some (POpened ino) | Some (PLocked ino) | Some (PTruncated ino) | Some (PHolds ino) => Some (close_fd s i ino PGone)
  | Some PIdle | Some PFailed => Some (set_proc s i PGone)
  | Some PGone | None => None
  end.

(* src/src/sl_pidfile.c:49-51 *)
Definition sl_pidfile_remove (s : system) : system := mk_system None (contents s) (locks s) (next_ino s) (procs s).

Inductive pid_action := PWrite (i : nat) (ok : bool) | PExit (i : nat) | PRemove.
#[export] Instance pid_action_eq_dec : EqDecision pid_action.
Proof. solve_decision. Defined.
Definition pid_act (a : pid_action) (s : system) : option system :=
  match a with PWrite i ok => pidfile_write_act i ok s | PExit i => exit_act i s | PRemove => Some (sl_pidfile_remove s) end.
Fixpoint pid_run (acts : list pid_action) (s : system) : option system :=
  match acts with [] => Some s | a :: acts => pid_act a s ≫= pid_run acts end.

(** [fscanf] with [%ld], and the conversion to the 32-bit [pid_t]. *)
(* src/src/sl_pidfile.c:32-40 *)
Definition sl_pidfile_read (file : option cstring) : Z :=
  match file with
  | None => 0
  | Some c =>
      let '(neg, m, e) := scan_int c in
      let pid := if bool_decide (e = c) then 0 else (strtol c).1 in
      let w := u32 pid in if w <? 2 ^ 31 then w else w - 2 ^ 32
  end.

Inductive kill_outcome := KillOk | KillNoSuch | KillOther.

(* src/src/sl_pidfile.c:42-47 *)
Definition sl_pidfile_check_stale (kill : Z -> kill_outcome) (file : option cstring) : bool :=
  let pid := sl_pidfile_read file in
  if pid <=? 0 then true
  else match kill pid with KillOk => false | KillNoSuch => true | KillOther => false end.

Definition file_at (s : system) : option cstring := path s ≫= fun ino => contents s !! ino.

(** ** One holder *)

(** The inode a process holds the lock of. *)
Definition locked_by (pc : ppc) : option nat := match pc with PLocked ino | PTruncated ino | PHolds ino => Some ino | _ => None end.
Definition opened_by (pc : ppc) : option nat := match pc with POpened ino => Some ino | _ => locked_by pc end.

(** While nobody unlinks it everybody has the one inode open, and its lock is held by exactly
    the process past the locking. *)
Record exclusive (s : system) : Prop := {
  ex_open : forall i pc ino, procs s !! i = Some pc -> opened_by pc = Some ino -> path s = Some ino;
  ex_lock : forall i pc ino, procs s !! i = Some pc -> locked_by pc = Some ino <-> (locks s !! ino = Some i);
  ex_owner : forall ino i, locks s !! ino = Some i -> is_Some (procs s !! i)
}.

(** A process that holds the file has its number in it. *)
Definition written (s : system) : Prop :=
  forall i ino, procs s !! i = Some (PHolds ino) -> contents s !! ino = Some (dec_int (pid_of i) ++ [10]).

Lemma insert_cases {A} (l : list A) i x j y : <[i := x]> l !! j = Some y -> (i = j /\ y = x) \/ (i <> j /\ l !! j = Some y).
Proof. intros [(<- & -> & _)|H]%list_lookup_insert_Some; auto. Qed.

(** A process moves on without touching the lock. *)
Lemma exclusive_move s i pc pc' : exclusive s -> procs s !! i = Some pc -> locked_by pc' = locked_by pc ->
  (forall ino, opened_by pc' = Some ino -> path s = Some ino) ->
  forall cs n, exclusive (mk_system (path s) cs (locks s) n (<[i := pc']> (procs s))).
Proof.
  intros [Ho Hl Hw] Hi El Eo cs n. split; cbn.
  - intros j q ino [(<- & ->)|(_ & Hj)]%insert_cases; [by apply Eo|by eapply Ho].
  - intros j q ino [(<- & ->)|(_ & Hj)]%insert_cases; [rewrite El; by apply Hl|by apply Hl].
  - intros ino j Hj. apply lookup_lt_is_Some. rewrite length_insert. by eapply lookup_lt_is_Some, Hw.
Qed.

Lemma exclusive_close_fd s i pc ino pc' : exclusive s -> procs s !! i = Some pc -> opened_by pc = Some ino -> opened_by pc' = None ->
  exclusive (close_fd s i ino pc').
Proof.
  intros [Ho Hl Hw] Hi Hop Hn. assert (Hn' : locked_by pc' = None) by (by destruct pc').
  assert (Hp : path s = Some ino) by (by eapply Ho).
  assert (Hdel : forall x j, (if bool_decide (locks s !! ino = Some i) then delete ino (locks s) else locks s) !! x = Some j <->
    locks s !! x = Some j /\ j <> i).
  { intros x j. assert (Hx : locks s !! x = Some i -> x = ino).
    { intros E. apply (Hl i pc x Hi) in E. assert (opened_by pc = Some x) by (by destruct pc). congruence. }
    case_bool_decide as E.
    - destruct (decide (x = ino)) as [->|Hne]; [rewrite lookup_delete_eq, E; naive_solver|]. rewrite lookup_delete_ne by done.
      split; [|naive_solver]. intros Hj. split; [done|]. intros ->. auto.
    - split; [|naive_solver]. intros Hj. split; [done|]. intros ->. pose proof (Hx Hj) as ->. done. }
  split; cbn.
  - intros j q x [(<- & ->)|(_ & Hj)]%insert_cases; [by rewrite Hn|by eapply Ho].
  - intros j q x [(<- & ->)|(Hne & Hj)]%insert_cases; rewrite Hdel; [rewrite Hn'; naive_solver|].
    rewrite (Hl j q x Hj). naive_solver.
  - intros x j [Hj _]%Hdel. apply lookup_lt_is_Some. rewrite length_insert. by eapply lookup_lt_is_Some, Hw.
Qed.

Lemma written_other s i pc' cs lk : written s -> exclusive s ->
  (forall ino, pc' = PHolds ino -> cs !! ino = Some (dec_int (pid_of i) ++ [10])) ->
  (forall j ino, j <> i -> procs s !! j = Some (PHolds ino) -> cs !! ino = contents s !! ino) ->
  forall pth n, written (mk_system pth cs lk n (<[i := pc']> (procs s))).
Proof.
  intros Hw _ Hi Hc pth n j ino [(<- & E)|(Hne & Hj)]%insert_cases; cbn.
  - by apply Hi.
  - rewrite (Hc j ino) by done. by apply Hw.
Qed.

(** Nobody else is past the lock of an inode that [i] is past. *)
Lemma holder_unique s i j pc pc' ino ino' : exclusive s -> procs s !! i = Some pc -> procs s !! j = Some pc' ->
  locked_by pc = Some ino -> locked_by pc' = Some ino' -> i = j.
Proof.
  intros Hs Hi Hj Ei Ej.
  assert (Pi : path s = Some ino) by (eapply (ex_open s Hs i); [done|by destruct pc]).
  assert (Pj : path s = Some ino') by (eapply (ex_open s Hs j); [done|by destruct pc']).
  assert (ino' = ino) as -> by congruence.
  apply (ex_lock s Hs i pc ino Hi) in Ei. apply (ex_lock s Hs j pc' ino Hj) in Ej. congruence.
Qed.

Lemma write_exclusive i ok s s' : exclusive s -> written s -> pidfile_write_act i ok s = Some s' -> exclusive s' /\ written s'.
Proof.
  intros Hs Hw. unfold pidfile_write_act. destruct (procs s !! i) as [[|ino|ino|ino|ino| |]|] eqn:Hi; try done.
  - destruct ok; cbn [negb].
    2:{ intros [= <-]. split; [by eapply exclusive_move|]. by apply written_other. }
    destruct (path s) as [ino|] eqn:Ep; intros [= <-].
    { split; [eapply exclusive_move; [done|done|done|by intros ? [= <-]]|]. by apply written_other. }
    assert (Hnone : forall j pc, procs s !! j = Some pc -> opened_by pc = None).
    { intros j pc Hj. destruct (opened_by pc) as [x|] eqn:E; [|done]. pose proof (ex_open s Hs j pc x Hj E). congruence. }
    split; [|apply written_other; [done|done|done|]; intros j ino _ Hj; by specialize (Hnone j _ Hj)].
    destruct Hs as [Ho Hl Hx]. split; cbn.
    + intros j q x [(<- & ->)|(_ & Hj)]%insert_cases; [done|]. rewrite (Hnone j q Hj). done.
    + intros j q x [(<- & ->)|(_ & Hj)]%insert_cases; [|by apply Hl]. cbn. rewrite <- (Hl i PIdle x Hi). done.
    + intros x j Hj. apply lookup_lt_is_Some. rewrite length_insert. by eapply lookup_lt_is_Some, Hx.
  - assert (Hp : path s = Some ino) by (by eapply (ex_open s Hs i)).
    destruct (locks s !! ino) as [o|] eqn:El.
    { intros [= <-]. split; [by eapply exclusive_move|]. by apply written_other. }
    destruct ok; intros [= <-]; [|split; [by eapply exclusive_move|by apply written_other]].
    split; [|by apply written_other]. destruct Hs as [Ho Hl Hx]. split; cbn.
    + intros j q x [(<- & ->)|(_ & Hj)]%insert_cases; [by intros [= <-]|by eapply Ho].
    + intros j q x [(<- & ->)|(Hne & Hj)]%insert_cases; cbn.
      * split; [intros [= <-]; by rewrite lookup_insert_eq|]. intros E. destruct (decide (x = ino)) as [->|Hn]; [done|].
        rewrite lookup_insert_ne in E by done. apply (Hl i _ x Hi) in E. done.
      * rewrite (Hl j q x Hj). destruct (decide (x = ino)) as [->|Hn]; [rewrite El, lookup_insert_eq|by rewrite lookup_insert_ne].
        split; [done|congruence].
    + intros x j Hj. apply lookup_lt_is_Some. rewrite length_insert. destruct (decide (x = ino)) as [->|Hn].
      * rewrite lookup_insert_eq in Hj. injection Hj as <-. by eapply lookup_lt_Some.
      * rewrite lookup_insert_ne in Hj by done. by eapply lookup_lt_is_Some, Hx.
  - destruct ok; intros [= <-].
    2:{ split; [by eapply exclusive_close_fd|]. by apply written_other. }
    split; [apply (exclusive_move s i _ (PTruncated ino) Hs Hi); [done|]; intros x [= <-]; by eapply (ex_open s Hs i)|].
    apply written_other; [done|done|done|]. intros j x Hne Hj. exfalso. apply Hne. symmetry. by eapply (holder_unique s i j).
  - destruct ok; intros [= <-].
    2:{ split; [by eapply exclusive_close_fd|]. by apply written_other. }
    split; [apply (exclusive_move s i _ (PHolds ino) Hs Hi); [done|]; intros x [= <-]; by eapply (ex_open s Hs i)|].
    apply written_other; [done|done|intros x [= <-]; by rewrite lookup_insert_eq|].
    intros j x Hne Hj. exfalso. apply Hne. symmetry. by eapply (holder_unique s i j).
Qed.

Lemma exit_exclusive i s s' : exclusive s -> written s -> exit_act i s = Some s' -> exclusive s' /\ written s'.
Proof.
  intros Hs Hw. unfold exit_act. destruct (procs s !! i) as [[|ino|ino|ino|ino| |]|] eqn:Hi; try done; intros [= <-].
  all: (split; [first [by eapply exclusive_close_fd|by eapply exclusive_move]|by apply written_other]).
Qed.

Lemma run_exclusive acts : PRemove ∉ acts -> forall s s', exclusive s -> written s -> pid_run acts s = Some s' -> exclusive s' /\ written s'.
Proof.
  intros Hnr. induction acts as [|a acts IH]; intros s s' Hs Hw; cbn [pid_run]; [by intros [= <-]|].
  apply not_elem_of_cons in Hnr as [Ha Hnr]. destruct (pid_act a s) as [s1|] eqn:E; [|done]. cbn.
  assert (H1 : exclusive s1 /\ written s1) by (destruct a; [by eapply write_exclusive|by eapply exit_exclusive|done]).
  destruct H1. by apply IH.
Qed.

Lemma new_exclusive n : exclusive (new_system n) /\ written (new_system n).
Proof.
  assert (Hp : forall i pc, replicate n PIdle !! i = Some pc -> pc = PIdle) by (intros i pc [-> _]%lookup_replicate_1; done).
  split; [split; cbn|].
  - intros i pc ino Hi. by rewrite (Hp i pc Hi).
  - intros i pc ino Hi. rewrite (Hp i pc Hi), lookup_empty. done.
  - intros ino i. by rewrite lookup_empty.
  - intros i ino Hi. by apply Hp in Hi.
Qed.

(** The number written is the number read. *)
Lemma pidfile_read_written pid : 0 < pid < 2 ^ 31 -> sl_pidfile_read (Some (dec_int pid ++ [10])) = pid.
Proof.
  intros Hp. assert (Es : scan_int (dec_int pid ++ [10]) = (false, pid, [10])).
  { unfold dec_int. rewrite (proj2 (Z.ltb_ge pid 0)) by lia.
    destruct (dec_head 20 pid ltac:(lia) ltac:(lia)) as (c & t & Ed & Hc).
    pose proof (read_dec 20 pid ltac:(lia) ltac:(change (10 ^ Z.of_nat 20) with 100000000000000000000; lia)) as Er.
    pose proof (read_digits_app (dec 20 pid) [10] 0 pid Er) as Ea. rewrite Ed in *.
    destruct (isdigit_isspace c Hc) as (Hsp & H45 & H43). unfold scan_int. cbn [app skip_spaces]. rewrite Hsp.
    assert (Em : (match c :: t ++ [10] with 45 :: t0 => (true, t0) | 43 :: t0 => (false, t0) | _ => (false, c :: t ++ [10]) end)
      = (false, c :: t ++ [10])).
    { unfold isdigit in Hc. apply andb_prop in Hc as [H1%Z.leb_le H2%Z.leb_le].
      assert (Hcs : c ∈ [48; 49; 50; 51; 52; 53; 54; 55; 56; 57]) by (rewrite !elem_of_cons; lia).
      rewrite !elem_of_cons in Hcs. by destruct_or! Hcs; [subst c..|apply not_elem_of_nil in Hcs]. }
    rewrite Em, Hc. cbn [app] in Ea. rewrite Ea. done. }
  unfold sl_pidfile_read, strtol. rewrite Es. cbn [fst].
  rewrite bool_decide_eq_false_2.
  2:{ intros E. apply (f_equal length) in E. unfold dec_int in E. rewrite (proj2 (Z.ltb_ge pid 0)) in E by lia.
      destruct (dec_head 20 pid ltac:(lia) ltac:(lia)) as (c & t & Ed & _). rewrite Ed, length_app in E. cbn in E. lia. }
  rewrite Z.min_r, u32_small by lia. by rewrite (proj2 (Z.ltb_lt _ _)) by lia.
Qed.

(** C32: The pid file keeps a second instance out. As long as nobody removes the file, any
    interleaving of any number of processes that write it, fail at any call or end has at
    most one of them holding it, and whoever reads the file then gets that process's number. *)
Theorem pidfile_one_holder (n : nat) (acts : list pid_action) (s : system) (i j : nat) (a b : nat) :
  PRemove ∉ acts -> pid_run acts (new_system n) = Some s ->
  procs s !! i = Some (PHolds a) -> procs s !! j = Some (PHolds b) ->
  i = j /\ (Z.of_nat i < 2 ^ 30 -> sl_pidfile_read (file_at s) = pid_of i).
Proof.
  intros Hnr Hr Hi Hj. destruct (new_exclusive n) as [H0 H0']. destruct (run_exclusive acts Hnr _ _ H0 H0' Hr) as [Hs Hw].
  split; [by eapply (holder_unique s i j)|]. intros Hsmall. unfold file_at.
  rewrite (ex_open s Hs i _ a Hi eq_refl). cbn. rewrite (Hw i a Hi). apply pidfile_read_written. unfold pid_of. lia.
Qed.

Definition two_starts : list pid_action :=
  [PWrite 0 true; PWrite 1 true; PWrite 1 true; PWrite 0 true; PWrite 1 true; PWrite 1 true].

Lemma pidfile_one_holder_witness :
  exists s, pid_run two_starts (new_system 2) = Some s /\ procs s = [PFailed; PHolds 0] /\ sl_pidfile_read (file_at s) = 1001.
Proof.
  destruct (pid_run two_starts (new_system 2)) as [s|] eqn:E; [|vm_compute in E; discriminate].
  assert (Hp : procs s = [PFailed; PHolds 0]) by (vm_compute in E; injection E as <-; reflexivity).
  exists s. split; [reflexivity|]. split; [exact Hp|].
  apply (pidfile_one_holder 2 two_starts s 1 1 0 0); [by_deciding|exact E|rewrite Hp; reflexivity|rewrite Hp; reflexivity|reflexivity].
Defined.

(** Between the truncation and the write the file is empty: a process that looks then takes
    the file of a running instance for a stale one. *)
Example running_instance_stale :
  exists s, pid_run [PWrite 0 true; PWrite 0 true; PWrite 0 true] (new_system 1) = Some s /\
    sl_pidfile_check_stale (fun _ => KillOk) (file_at s) = true.
Proof. eexists. split; [vm_compute; reflexivity|reflexivity]. Qed.

(** Removing the file frees the path and not the lock: a process that opened it before and one
    that comes after both hold a pid file. *)
Example removal_lets_two_in :
  exists s, pid_run [PWrite 0 true; PWrite 0 true; PWrite 0 true; PWrite 0 true; PWrite 1 true; PRemove; PExit 0;
                     PWrite 1 true; PWrite 1 true; PWrite 1 true; PWrite 2 true; PWrite 2 true; PWrite 2 true; PWrite 2 true] (new_system 3) = Some s /\
    procs s = [PGone; PHolds 0; PHolds 1].
Proof. eexists. split; [vm_compute; reflexivity|reflexivity]. Qed.

(* src/inc/fingerprint.hpp:20-20 *)
Definition kFingerprintBytes : Z := 32.

(** ** Secure memory *)

(* src/inc/secure_memory.hpp:17-23 *)
Definition secure_zero (p : list Z) (n : Z) : M (list Z) :=
  if n =? 0 then Ok p else for_up (Z.to_nat n) 0 (fun i p => store p i 0) p.

(* src/inc/secure_memory.hpp:27-35 *)
Definition ct_equal (a b : list Z) (n : Z) : M bool :=
  let! diff := for_up (Z.to_nat n) 0 (fun i diff =>
    let! x := load a i in
    let! y := load b i in
    Ok (u8 (Z.lor diff (u8 (Z.lxor x y))))) 0 in
  Ok (diff =? 0).

(* src/inc/secure_memory.hpp:73-74 SecureBuffer *)
Record SecureBuffer := mk_secure { sb_data : list Z; locked_ : bool }.

(** [mlocks]: whether mlock succeeds; a failure is ignored. *)
(* src/inc/secure_memory.hpp:68-71 SecureBuffer::lock_pages *)
Definition new_secure (n : Z) (mlocks : bool) : SecureBuffer := mk_secure (replicate (Z.to_nat n) 0) mlocks.

(** What is left in the memory, and whether munlock is called. *)
(* src/inc/secure_memory.hpp:42-47 SecureBuffer::~SecureBuffer *)
Definition destroy_secure (b : SecureBuffer) : M (list Z * bool) :=
  let! d := secure_zero (sb_data b) (len (sb_data b)) in Ok (d, locked_ b).

(* src/inc/secure_memory.hpp:61-61 SecureBuffer::clear *)
Definition secure_clear (b : SecureBuffer) : M SecureBuffer :=
  let! d := secure_zero (sb_data b) (len (sb_data b)) in Ok (mk_secure d (locked_ b)).

(* src/inc/secure_memory.hpp:63-65 SecureBuffer::equals *)
Definition secure_equals (a b : SecureBuffer) : M bool := ct_equal (sb_data a) (sb_data b) (len (sb_data a)).

(** ** Fingerprints *)

(* src/inc/fingerprint.hpp:39-39 fingerprint_short_id *)
Definition upper_table : list Z := lit "0123456789ABCDEF".

(* src/inc/fingerprint.hpp:24-34 *)
Definition fingerprint_hex_colon (fp : list Z) : M cstring :=
  for_up (Z.to_nat kFingerprintBytes) 0 (fun i out =>
    let out := if 0 <? i then out ++ [58] else out in
    let! x := load fp i in
    let! hi := load hex_table (Z.land (x ≫ 4) 0x0F) in
    let! lo := load hex_table (Z.land x 0x0F) in
    Ok (out ++ [hi; lo])) [].

(* src/inc/fingerprint.hpp:38-48 *)
Definition fingerprint_short_id (fp : list Z) : M cstring :=
  for_up 6 0 (fun i out =>
    let out := if (i =? 2) || (i =? 4) then out ++ [45] else out in
    let! x := load fp i in
    let! hi := load upper_table (Z.land (x ≫ 4) 0x0F) in
    let! lo := load upper_table (Z.land x 0x0F) in
    Ok (out ++ [hi; lo])) [].

(* src/inc/fingerprint.hpp:51-54 *)
Definition fingerprint_equal (a b : list Z) : M bool := ct_equal a b kFingerprintBytes.

(* src/inc/fingerprint.hpp:61-66 parse_fingerprint_hex_colon *)
Definition hex_val (c : Z) : option Z :=
  if (48 <=? c) && (c <=? 57) then Some (u8 (c - 48))
  else if (97 <=? c) && (c <=? 102) then Some (u8 (c - 97 + 10))
  else if (65 <=? c) && (c <=? 70) then Some (u8 (c - 65 + 10))
  else None.

(** The result and the output array, which a failure leaves partly written. *)
(* src/inc/fingerprint.hpp:57-75 *)
Definition parse_fingerprint_hex_colon (s : cstring) (out : list Z) : M (bool * list Z) :=
  if negb (len s =? 95) then Ok (false, out)
  else
    let! r := for_ret (Z.to_nat kFingerprintBytes) 0 (fun i out =>
      let off := i * 3 in
      let! a := load s off in
      match hex_val a with
      | None => Ok (inr out)
      | Some hi =>
          let! b := load s (off + 1) in
          match hex_val b with
          | None => Ok (inr out)
          | Some lo =>
              let! bad := (if i + 1 <? kFingerprintBytes then let! c := load s (off + 2) in Ok (negb (c =? 58)) else Ok false) in
              if bad : bool then Ok (inr out)
              else let! out := store out i (u8 (Z.lor (hi ≪ 4) lo)) in Ok (inl out)
          end
      end) out in
    match r with inl out => Ok (true, out) | inr out => Ok (false, out) end.

(** ** Dumps *)

(* src/inc/hexdump.hpp:27-29 *)
Definition printable_or_dot (b : Z) : Z := if (32 <=? b) && (b <? 127) then b else 46.

(** The hexadecimal text of a number, and with zeros up to a width. *)
Fixpoint hex_num (fuel : nat) (n : Z) : cstring :=
  match fuel with O => [] | S fuel => (if n <? 16 then [] else hex_num fuel (n / 16)) ++ [hex_digit (n mod 16)] end.
Definition hex_pad (w : nat) (n : Z) : cstring := let t := hex_num 16 n in replicate (w - length t) 48 ++ t.

(* src/inc/hexdump.hpp:31-36 *)
Definition write_offset (off : Z) : cstring := hex_pad 8 off.

(* src/inc/hexdump.hpp:41-41 *)
Definition HEXDUMP_ROW : Z := 16.

(** One row, from the offset [row]. *)
(* src/inc/hexdump.hpp:46-76 hexdump *)
Definition dump_row (data : list Z) (n row : Z) : M cstring :=
  let! cols := for_up 16 0 (fun col os =>
    let idx := row + col in
    let! cell := (if idx <? n then let! x := load data idx in Ok (hex_pad 2 x) else Ok (lit "  ")) in
    Ok (os ++ cell ++ (if col =? 7 then lit "  " else lit " "))) [] in
  let! gutter := for_up 16 0 (fun col os =>
    let idx := row + col in
    if idx <? n then let! x := load data idx in Ok (os ++ [printable_or_dot x]) else Ok (os ++ lit " ")) [] in
  Ok (write_offset row ++ lit "  " ++ cols ++ lit " |" ++ gutter ++ lit "|" ++ [10]).

(* src/inc/hexdump.hpp:43-77 *)
Definition hexdump (data : list Z) (n : Z) : M cstring :=
  for_up (Z.to_nat ((n + 15) / 16)) 0 (fun k os => let! r := dump_row data n (k * HEXDUMP_ROW) in Ok (os ++ r)) [].

(** ** The text of a fingerprint *)

Definition pair_text (x : Z) : cstring := [hex_digit (x / 16); hex_digit (x mod 16)].
(** The text of the bytes after the first. *)
Definition tail_text (l : list Z) : cstring := l ≫= fun x => 58 :: pair_text x.
Definition colon_text (l : list Z) : cstring := match l with [] => [] | x :: l => pair_text x ++ tail_text l end.

Lemma colon_text_snoc l x : colon_text (l ++ [x]) = colon_text l ++ (if bool_decide (l = []) then [] else [58]) ++ pair_text x.
Proof.
  destruct l as [|y l]; [done|]. cbn [app colon_text]. unfold tail_text. rewrite bind_app, <- app_assoc. done.
Qed.

Lemma hex_colon_spec fp : bytes_ok fp -> len fp = 32 -> fingerprint_hex_colon fp = Ok (colon_text fp).
Proof.
  intros Hb Hl. unfold fingerprint_hex_colon. set (body := fun i out => _).
  destruct (for_up_inv (fun i out => out = colon_text (take (Z.to_nat i) fp)) body (Z.to_nat kFingerprintBytes) 0 []) as (o & -> & ->); [done| |].
  - intros j out Hj ->. unfold kFingerprintBytes in Hj. destruct (load_in_bounds fp j) as (x & Hx & Hn); [lia|].
    unfold body. rewrite Hx. pose proof (load_u8 _ _ _ Hb Hx) as Hx8.
    rewrite high_nibble, low_nibble, !hex_table_digit by (done || (Z.div_mod_to_equations; lia)). eexists. split; [done|].
    replace (Z.to_nat (j + 1)) with (S (Z.to_nat j)) by lia. rewrite (take_S_r _ _ _ Hn), colon_text_snoc.
    destruct (Z.ltb_spec 0 j) as [Hj0|Hj0].
    + rewrite bool_decide_eq_false_2, <- app_assoc; [done|]. intros E. apply (f_equal length) in E. rewrite length_take in E. cbn in E. unfold len in Hl. lia.
    + replace j with 0 by lia. done.
  - rewrite take_ge; [done|]. unfold len in Hl. unfold kFingerprintBytes. lia.
Qed.

Lemma len_tail_text l : len (tail_text l) = 3 * len l.
Proof. induction l as [|x l IH]; [done|]. change (tail_text (x :: l)) with (58 :: pair_text x ++ tail_text l).
  rewrite !len_cons, len_app, IH. change (len (pair_text x)) with 2. lia.
Qed.

Lemma len_colon_text l : l <> [] -> len (colon_text l) = 3 * len l - 1.
Proof. destruct l as [|x l]; [done|]. intros _. cbn [colon_text]. rewrite len_app, len_tail_text, len_cons.
  change (len (pair_text x)) with 2. lia.
Qed.

(** What the parser reads at the place of one byte. *)
Lemma load_colon_text pre x post : let s := colon_text (pre ++ x :: post) in
  load s (len pre * 3) = Ok (hex_digit (x / 16)) /\ load s (len pre * 3 + 1) = Ok (hex_digit (x mod 16)) /\
  (post <> [] -> load s (len pre * 3 + 2) = Ok 58).
Proof.
  cbn zeta. set (w := match pre with [] => [] | _ => colon_text pre ++ [58] end).
  assert (Hs : colon_text (pre ++ x :: post) = w ++ pair_text x ++ tail_text post).
  { unfold w. destruct pre as [|y pre]; [done|]. cbn [app colon_text]. unfold tail_text. rewrite bind_app. cbn [mbind list_bind].
    by rewrite <- !app_assoc. }
  assert (Hw : len w = len pre * 3).
  { unfold w. destruct pre as [|y pre]; [done|]. rewrite len_app, len_colon_text by done. change (len [58]) with 1. lia. }
  rewrite Hs, <- Hw. unfold pair_text. split_and!.
  - rewrite <- (Z.add_0_r (len w)). by rewrite load_app_r.
  - by rewrite load_app_r.
  - intros Hp. rewrite load_app_r by lia. by destruct post.
Qed.

Lemma hex_val_digit v : 0 <= v < 16 -> hex_val (hex_digit v) = Some v.
Proof.
  intros Hv. assert (H : forallb (fun v => match hex_val (hex_digit v) with Some w => w =? v | None => false end) (seqZ 0 16) = true) by reflexivity.
  rewrite forallb_forall in H. specialize (H v). rewrite <- list_elem_of_In, elem_of_seqZ in H. specialize (H ltac:(lia)).
  destruct (hex_val (hex_digit v)); [|done]. f_equal. lia.
Qed.

(** A fingerprint's text reads back as the fingerprint. For every 32 bytes the text has 95
    characters, the parser accepts it and returns the bytes whatever the output held before,
    and two fingerprints have the same text only when they are equal. *)
Theorem fingerprint_roundtrip (fp out : list Z) :
  bytes_ok fp -> len fp = 32 -> len out = 32 ->
  exists text, fingerprint_hex_colon fp = Ok text /\ len text = 95 /\ parse_fingerprint_hex_colon text out = Ok (true, fp).
Proof.
  intros Hb Hl Ho. exists (colon_text fp). split; [by apply hex_colon_spec|].
  assert (Hlen : len (colon_text fp) = 95) by (rewrite len_colon_text by (intros ->; done); lia). split; [done|].
  unfold parse_fingerprint_hex_colon. rewrite Hlen. cbn [negb Z.eqb Pos.eqb]. set (body := fun i out => _).
  destruct (for_ret_inv (fun i o => o = take (Z.to_nat i) fp ++ drop (Z.to_nat i) out) (fun _ => False) body (Z.to_nat kFingerprintBytes) 0 out)
    as (r & -> & Hr); [done| |].
  - intros j o Hj ->. unfold kFingerprintBytes in Hj. destruct (load_in_bounds fp j) as (x & Hx & Hn); [lia|].
    pose proof (load_u8 _ _ _ Hb Hx) as Hx8. cbv beta in Hx8.
    destruct (load_colon_text (take (Z.to_nat j) fp) x (drop (S (Z.to_nat j)) fp)) as (E1 & E2 & E3).
    assert (Hj' : len (take (Z.to_nat j) fp) = j) by (unfold len in *; rewrite length_take; lia).
    rewrite take_drop_middle, Hj' in E1, E2, E3 by done.
    unfold body. rewrite E1, hex_val_digit, E2, hex_val_digit by (Z.div_mod_to_equations; lia).
    assert (Ec : (if j + 1 <? kFingerprintBytes then let! c := load (colon_text fp) (j * 3 + 2) in Ok (negb (c =? 58)) else Ok false) = Ok false).
    { unfold kFingerprintBytes. destruct (Z.ltb_spec (j + 1) 32); [|done]. rewrite E3; [done|].
      intros E. apply (f_equal length) in E. rewrite length_drop in E. cbn in E. unfold len in Hl. lia. }
    rewrite Ec. rewrite combine_nibbles by (Z.div_mod_to_equations; lia).
    replace (x / 16 * 16 + x mod 16) with x by (Z.div_mod_to_equations; lia).
    assert (Hd : exists y t, drop (Z.to_nat j) out = y :: t /\ drop (S (Z.to_nat j)) out = t).
    { destruct (drop (Z.to_nat j) out) as [|y t] eqn:E; [apply (f_equal length) in E; rewrite length_drop in E; cbn in E; unfold len in Ho; lia|].
      exists y, t. split; [done|]. replace (S (Z.to_nat j)) with (Z.to_nat j + 1)%nat by lia. by rewrite <- drop_drop, E. }
    destruct Hd as (y & t & Hd & Ht). rewrite Hd, (store_app_at (take (Z.to_nat j) fp) y x t j) by len_lia.
    eexists. split; [done|]. cbv beta. replace (Z.to_nat (j + 1)) with (S (Z.to_nat j)) by lia.
    by rewrite (take_S_r _ _ _ Hn), Ht, <- app_assoc.
  - destruct r as [o|]; [|done]. subst o. unfold kFingerprintBytes. rewrite take_ge, drop_ge, app_nil_r by (unfold len in *; lia). done.
Qed.

Definition sample_fp : list Z := 171 :: 205 :: replicate 30 7.

Lemma fingerprint_roundtrip_witness :
  exists text, fingerprint_hex_colon sample_fp = Ok text /\ parse_fingerprint_hex_colon text (replicate 32 0) = Ok (true, sample_fp).
Proof.
  destruct (fingerprint_roundtrip sample_fp (replicate 32 0)) as (text & H1 & _ & H2); [by_deciding|reflexivity|reflexivity|].
  exists text. split; [exact H1|exact H2].
Defined.

(** The comparison is equality. *)
Lemma fingerprint_equal_spec a b : bytes_ok a -> bytes_ok b -> len a = 32 -> len b = 32 -> fingerprint_equal a b = Ok (bool_decide (a = b)).
Proof.
  intros Ha Hb La Lb. unfold fingerprint_equal, ct_equal, kFingerprintBytes.
  destruct (ct_diff_spec a b 32) as (diff & -> & _ & Hiff); [done..|lia|lia|lia|].
  rewrite !take_ge in Hiff by (unfold len in *; lia). f_equal. apply eq_true_iff_eq. by rewrite Z.eqb_eq, bool_decide_eq_true.
Qed.

(** The short form shows six of the thirty-two bytes: different keys can have the same one. *)
Example short_id_collision :
  fingerprint_short_id (171 :: 205 :: replicate 30 7) = fingerprint_short_id (171 :: 205 :: replicate 29 7 ++ [8]) /\
  fingerprint_short_id (171 :: 205 :: replicate 30 7) = Ok (lit "ABCD-0707-0707").
Proof. split; reflexivity. Qed.

(** A failed parse leaves the bytes read so far in the output. *)
Example failed_parse_writes :
  parse_fingerprint_hex_colon (lit "ab:" ++ replicate 92 33) (replicate 32 0) = Ok (false, 171 :: replicate 31 0).
Proof. reflexivity. Qed.

(** ** Dumps *)

(** The dump of the header's example and one byte more. *)
Example dump_hello :
  hexdump (lit "Hello world!" ++ [10; 0; 255; 127; 65]) 17 =
  Ok (lit "00000000  48 65 6c 6c 6f 20 77 6f  72 6c 64 21 0a 00 ff 7f  |Hello world!....|" ++ [10] ++
      lit "00000010  41                                                |A               |" ++ [10]).
Proof. vm_compute. reflexivity. Qed.

(** ** Secure buffers *)

(** A secure buffer leaves zeros behind, unlocks its pages exactly when it had locked them, and
    compares equal to the buffers with the same contents. *)
Lemma secure_buffer_spec (a b : SecureBuffer) :
  bytes_ok (sb_data a) -> bytes_ok (sb_data b) -> len (sb_data a) = len (sb_data b) ->
  destroy_secure a = Ok (replicate (length (sb_data a)) 0, locked_ a) /\
  secure_clear a = Ok (mk_secure (replicate (length (sb_data a)) 0) (locked_ a)) /\
  secure_equals a b = Ok (bool_decide (sb_data a = sb_data b)).
Proof.
  intros Ha Hb Hl. pose proof (len_nonneg (sb_data a)). unfold destroy_secure, secure_clear, secure_equals.
  assert (Ez : secure_zero (sb_data a) (len (sb_data a)) = Ok (replicate (length (sb_data a)) 0)) by exact (secure_zero_all (sb_data a)).
  rewrite Ez. split_and!; [done|done|]. unfold ct_equal.
  destruct (ct_diff_spec (sb_data a) (sb_data b) (len (sb_data a))) as (diff & -> & _ & Hiff); [done..|lia|lia|lia|].
  rewrite len_to_nat, firstn_all, (firstn_all2 (sb_data b)) in Hiff by (unfold len in Hl; lia).
  f_equal. destruct (Z.eqb_spec diff 0) as [E|E]; symmetry; [apply bool_decide_eq_true_2; by apply Hiff|apply bool_decide_eq_false_2; by rewrite <- Hiff].
Qed.
