(* ===== verification/Attacks.v ===== *)
(** Packet mutations ([src/sl_packet_mutator.c]: a xorshift generator and the corruptions drawn
    from it), the attack harness ([src/attack_sim.cpp]) and the attack programs that use them
    ([src/attack_*.c], [src/attack_*.cpp]). A program is modelled down to its exit status; what
    it prints is left out. Every clock reading is an argument, as is what the random source left
    in the keys; the tables' entries can always be allocated. The programs run the very
    definitions of the components they attack, so that their exit status follows from those
    components' lemmas. *)

From stdpp Require Import gmap.
From Stdlib Require Import String.
From S2P Require Import Prelude Ctype ByteOrder Codec Mem Aead Record KeySched ChainTable.
From S2P Require Import ReplayGuard Lockout DosGuard Negotiate Topic Broker Double Intrusion.
Local Open Scope Z_scope.

(** The state of [sl_mut_rng_t]. *)
(* src/src/sl_packet_mutator.c:5-8 *)
Definition sl_mut_rng_seed (seed : Z) : Z := if seed =? 0 then 0xA5A5A5A5A5A5A5A5 else seed.

(* src/src/sl_packet_mutator.c:11-19 *)
Definition sl_mut_rng_next (state : Z) : Z * Z :=
  let x := state in
  let x := Z.lxor x (x ≫ 12) in
  let x := Z.lxor x (u64 (x ≪ 25)) in
  let x := Z.lxor x (x ≫ 27) in
  (u64 (x * 2685821657736338717), x).

(* src/src/sl_packet_mutator.c:21-24 *)
Definition bounded (r upper : Z) : Z * Z :=
  if upper =? 0 then (0, r) else let '(v, r) := sl_mut_rng_next r in (v mod upper, r).

(** [buf[bit / 8] ^= (uint8_t)(1U << (bit % 8));] *)
Definition flip_at (buf : list Z) (bit : Z) : M (list Z) :=
  let! b := load buf (bit / 8) in store buf (bit / 8) (Z.lxor b (u8 (1 ≪ (bit mod 8)))).

(* src/src/sl_packet_mutator.c:26-30 *)
Definition sl_mut_flip_bit (r : Z) (buf : list Z) : M (Z * list Z) :=
  if len buf =? 0 then Ok (r, buf)
  else
    let '(bit, r) := bounded r (u64 (len buf * 8)) in
    let! buf := flip_at buf bit in Ok (r, buf).

(** The inner [for (;;)]: at most 64 draws. *)
(* src/src/sl_packet_mutator.c:47-56 sl_mut_flip_bits *)
Fixpoint draw_fresh (retries : nat) (total : Z) (used : list Z) (r : Z) : Z * Z :=
  let '(bit, r) := bounded r total in
  match retries with
  | O => (bit, r)
  | S retries => if bool_decide (bit ∈ used) then draw_fresh retries total used r else (bit, r)
  end.

(* src/src/sl_packet_mutator.c:46-61 sl_mut_flip_bits *)
Fixpoint flip_loop (todo : nat) (total : Z) (used : list Z) (r : Z) (buf : list Z) : M (Z * list Z) :=
  match todo with
  | O => Ok (r, buf)
  | S todo =>
      let '(bit, r) := draw_fresh 63 total used r in
      let! buf := flip_at buf bit in
      flip_loop todo total (if len used <? 64 then used ++ [bit] else used) r buf
  end.

(* src/src/sl_packet_mutator.c:32-62 *)
Definition sl_mut_flip_bits (r : Z) (buf : list Z) (n : Z) : M (Z * list Z) :=
  if len buf =? 0 then Ok (r, buf)
  else
    let total_bits := u64 (len buf * 8) in
    let n := if total_bits <? n then total_bits else n in
    flip_loop (Z.to_nat n) total_bits [] r buf.

(** [buf] is the whole object, [n] the length the caller passes. *)
(* src/src/sl_packet_mutator.c:64-72 *)
Definition sl_mut_overwrite (r : Z) (buf : list Z) (n offset len_overwrite : Z) : M (Z * Z * list Z) :=
  if n <? u64 (offset + len_overwrite) then Ok (-1, r, buf)
  else
    let! '(r, buf) := for_up (Z.to_nat len_overwrite) 0 (fun i '(r, buf) =>
      let '(v, r) := sl_mut_rng_next r in
      let! buf := store buf (u64 (offset + i)) (u8 v) in Ok (r, buf)) (r, buf) in
    Ok (0, r, buf).

(* src/src/sl_packet_mutator.c:74-76 *)
Definition sl_mut_truncate (n k : Z) : Z := if n <=? k then 0 else n - k.

(* src/src/sl_packet_mutator.c:78-83 *)
Definition sl_mut_extend (r : Z) (buf_tail : list Z) (n : Z) : M (Z * list Z) :=
  for_up (Z.to_nat n) 0 (fun i '(r, buf) =>
    let '(v, r) := sl_mut_rng_next r in let! buf := store buf i (u8 v) in Ok (r, buf)) (r, buf_tail).

(* src/src/sl_packet_mutator.c:85-93 *)
Definition sl_mut_swap_bytes (r : Z) (buf : list Z) : M (Z * list Z) :=
  if len buf <? 2 then Ok (r, buf)
  else
    let '(a, r) := bounded r (len buf) in
    let '(b, r) := bounded r (len buf) in
    let b := if b =? a then u64 (b + 1) mod len buf else b in
    let! tmp := load buf a in
    let! y := load buf b in
    let! buf := store buf a y in
    let! buf := store buf b tmp in
    Ok (r, buf).

(** ** The generator *)

Lemma lxor_shiftr_nonzero x k : 0 < x -> 0 < k -> Z.lxor x (x ≫ k) <> 0.
Proof.
  intros Hx Hk E%Z.lxor_eq. rewrite Z.shiftr_div_pow2 in E by lia.
  assert (2 ^ k > 1) by (pose proof (Z.pow_gt_1 2 k); lia). assert (x / 2 ^ k < x) by (apply Z.div_lt; lia). lia.
Qed.

Lemma lxor_shiftl_nonzero x k : 0 < x < 2 ^ 64 -> 0 < k -> Z.lxor x (u64 (x ≪ k)) <> 0.
Proof.
  intros Hx Hk E%Z.lxor_eq.
  assert (Hb : forall n : nat, Z.of_nat n < 64 -> Z.testbit x (Z.of_nat n) = false).
  { intros n. induction n as [n IH] using lt_wf_ind. intros Hn. rewrite E. unfold u64.
    change 18446744073709551616 with (2 ^ 64). rewrite Z.mod_pow2_bits_low by lia. rewrite Z.shiftl_spec by lia.
    destruct (decide (Z.of_nat n < k)); [apply Z.testbit_neg_r; lia|].
    replace (Z.of_nat n - k) with (Z.of_nat (n - Z.to_nat k)) by lia. apply IH; lia. }
  assert (x = 0); [|lia]. apply Z.bits_inj'. intros j Hj. rewrite Z.bits_0. destruct (decide (j < 64)).
  - rewrite <- (Z2Nat.id j) by lia. apply Hb. lia.
  - rewrite <- (Z.mod_small x (2 ^ 64)) by lia. apply Z.mod_pow2_bits_high. lia.
Qed.

(** The generator never reaches the state 0, in which it would stay. *)
Lemma rng_next_ok s : 0 < s < 2 ^ 64 -> is_u64 (sl_mut_rng_next s).1 /\ 0 < (sl_mut_rng_next s).2 < 2 ^ 64.
Proof.
  intros Hs. unfold sl_mut_rng_next. cbn [fst snd]. split; [apply u64_range|].
  set (x1 := Z.lxor s (s ≫ 12)). assert (N1 : x1 <> 0) by (apply lxor_shiftr_nonzero; lia).
  assert (R1 : is_u64 x1) by (apply lxor_u64; [lia|apply shiftr_u64; lia]).
  set (x2 := Z.lxor x1 (u64 (x1 ≪ 25))). assert (N2 : x2 <> 0) by (apply lxor_shiftl_nonzero; lia).
  assert (R2 : is_u64 x2) by (apply lxor_u64; [done|apply u64_range]).
  assert (N3 : Z.lxor x2 (x2 ≫ 27) <> 0) by (apply lxor_shiftr_nonzero; lia).
  assert (R3 : is_u64 (Z.lxor x2 (x2 ≫ 27))) by (apply lxor_u64; [done|apply shiftr_u64; lia]). lia.
Qed.

Lemma bounded_ok s upper : 0 < s < 2 ^ 64 -> 0 < upper -> 0 <= (bounded s upper).1 < upper /\ 0 < (bounded s upper).2 < 2 ^ 64.
Proof.
  intros Hs Hu. unfold bounded. rewrite (proj2 (Z.eqb_neq _ _)) by lia. pose proof (rng_next_ok s Hs) as [_ H].
  destruct (sl_mut_rng_next s) as [v s']. cbn [fst snd] in *. split; [apply Z.mod_pos_bound; lia|done].
Qed.

(** ** The mutations *)

(** One bit of one byte changes. *)
Definition bit_flipped (buf buf' : list Z) : Prop :=
  exists k b j, 0 <= j < 8 /\ buf !! k = Some b /\ buf' = <[k := Z.lxor b (2 ^ j)]> buf /\ buf' <> buf.

Lemma flip_at_ok buf bit :
  0 <= bit < 8 * len buf -> exists buf', flip_at buf bit = Ok buf' /\ bit_flipped buf buf' /\ len buf' = len buf.
Proof.
  intros Hb. unfold flip_at.
  assert (Hk : 0 <= bit / 8 < len buf) by (split; [apply Z.div_pos; lia|apply Z.div_lt_upper_bound; lia]).
  destruct (load_in_bounds buf (bit / 8) Hk) as (b & -> & Eb). rewrite store_ok by done.
  pose proof (Z.mod_pos_bound bit 8 ltac:(lia)) as Hm.
  assert (Hp : u8 (1 ≪ (bit mod 8)) = 2 ^ (bit mod 8)).
  { rewrite Z.shiftl_1_l. apply u8_small. split; [apply Z.pow_nonneg; lia|].
    assert (2 ^ (bit mod 8) < 2 ^ 8) by (apply Z.pow_lt_mono_r; lia). done. }
  rewrite Hp. eexists. split; [reflexivity|]. split; [|by rewrite len_insert].
  exists (Z.to_nat (bit / 8)), b, (bit mod 8). split_and!; [lia|lia|done|done|].
  intros E. assert (E' : Some (Z.lxor b (2 ^ (bit mod 8))) = Some b).
  { rewrite <- Eb, <- E at 1. symmetry. apply list_lookup_insert_eq. by eapply lookup_lt_Some. }
  injection E' as E'. apply (f_equal (Z.lxor b)) in E'. rewrite <- Z.lxor_assoc, Z.lxor_nilpotent, Z.lxor_0_l in E'.
  assert (0 < 2 ^ (bit mod 8)) by (apply Z.pow_pos_nonneg; lia). lia.
Qed.

(** each mutation does what it says.  Starting from any seed, the generator keeps a state other
    than 0; flipping a bit of a buffer that is not empty changes exactly one bit of one byte;
    swapping rearranges the bytes; truncating never goes below 0; and none of them leaves the
    buffer. *)
Theorem mutations_well_behaved seed buf n :
  is_u64 seed -> 0 < len buf < 2 ^ 60 -> 0 <= n ->
  let s := sl_mut_rng_seed seed in
  (exists s' buf', sl_mut_flip_bit s buf = Ok (s', buf') /\ 0 < s' < 2 ^ 64 /\ bit_flipped buf buf' /\ len buf' = len buf) /\
  (exists s' buf', sl_mut_swap_bytes s buf = Ok (s', buf') /\ 0 < s' < 2 ^ 64 /\ buf' ≡ₚ buf) /\
  0 <= sl_mut_truncate (len buf) n <= len buf.
Proof.
  intros Hseed Hl Hn s. assert (Hs : 0 < s < 2 ^ 64) by (unfold s, sl_mut_rng_seed; destruct (Z.eqb_spec seed 0); lia).
  clearbody s. split_and!.
  - unfold sl_mut_flip_bit. rewrite (proj2 (Z.eqb_neq _ _)), u64_small by lia.
    destruct (bounded_ok s (len buf * 8) Hs ltac:(lia)) as [Hb Hs']. destruct (bounded s (len buf * 8)) as [bit s']. cbn [fst snd] in *.
    destruct (flip_at_ok buf bit) as (buf' & -> & Hf & Hlen); [lia|]. eauto 7.
  - unfold sl_mut_swap_bytes. destruct (Z.ltb_spec (len buf) 2); [eauto|].
    destruct (bounded_ok s (len buf) Hs ltac:(lia)) as [Ha Hs1]. destruct (bounded s (len buf)) as [a s1]. cbn [fst snd] in *.
    destruct (bounded_ok s1 (len buf) Hs1 ltac:(lia)) as [Hb Hs2]. destruct (bounded s1 (len buf)) as [b0 s2]. cbn [fst snd] in *.
    set (b := if b0 =? a then _ else _).
    assert (Hb' : 0 <= b < len buf) by (unfold b; destruct (b0 =? a); [apply Z.mod_pos_bound; lia|done]).
    destruct (load_in_bounds buf a Ha) as (x & -> & Ex). destruct (load_in_bounds buf b Hb') as (y & -> & Ey).
    rewrite store_ok by done. rewrite store_ok by (by rewrite len_insert). eexists _, _. split_and!; [reflexivity|lia|lia|].
    rewrite (Permutation_insert_swap buf) by done. done.
  - unfold sl_mut_truncate. destruct (Z.leb_spec (len buf) n); lia.
  - unfold sl_mut_truncate. destruct (Z.leb_spec (len buf) n); lia.
Qed.

Lemma mutations_well_behaved_witness :
  exists s' buf', sl_mut_flip_bit (sl_mut_rng_seed 7) [1; 2; 3] = Ok (s', buf') /\ 0 < s' < 2 ^ 64 /\
    bit_flipped [1; 2; 3] buf' /\ len buf' = 3.
Proof.
  destruct (mutations_well_behaved 7 [1; 2; 3] 1) as [H _]; [lia|by vm_compute|lia|exact H].
Defined.

(** The bounds check of the overwrite wraps, and a write leaves the buffer. *)
Lemma overwrite_out_of_bounds : sl_mut_overwrite 1 [1; 2; 3; 4] 4 (2 ^ 64 - 1) 2 = Fault.
Proof. by vm_compute. Qed.

(** Only 64 positions are remembered: asked to flip all 72 bits of nine bytes, the function leaves
    some of them as they were. *)
Lemma flip_bits_repeats :
  match sl_mut_flip_bits 1 (replicate 9 0) 72 with Ok (_, b) => b <> replicate 9 255 | Fault => False end.
Proof. vm_compute. congruence. Qed.

(** ** The harness *)

(* src/inc/attack_sim.hpp:23-28 *)
Inductive AttackResult := kBlocked | kDetected | kAllowed | kInconclusive.

(* src/inc/attack_sim.hpp:30-35 *)
Record ScenarioOutcome := mk_outcome { so_name : cstring; result : AttackResult; evidence : cstring; duration_us : Z }.

(* src/src/attack_sim.cpp:8-16 *)
Definition attack_result_name (r : AttackResult) : cstring :=
  match r with
  | kBlocked => lit "BLOCKED"
  | kDetected => lit "DETECTED"
  | kAllowed => lit "ALLOWED"
  | kInconclusive => lit "INCONCLUSIVE"
  end.

(* src/src/attack_sim.cpp:58-64 *)
Definition make (n : cstring) (r : AttackResult) (e : cstring) : ScenarioOutcome := mk_outcome n r e 0.
(* src/src/attack_sim.cpp:66-68 *)
Definition blocked (n e : cstring) : ScenarioOutcome := make n kBlocked e.
(* src/src/attack_sim.cpp:69-71 *)
Definition detected (n e : cstring) : ScenarioOutcome := make n kDetected e.
(* src/src/attack_sim.cpp:72-74 *)
Definition allowed (n e : cstring) : ScenarioOutcome := make n kAllowed e.
(* src/src/attack_sim.cpp:75-77 *)
Definition incon (n e : cstring) : ScenarioOutcome := make n kInconclusive e.

Section Harness.
(** A scenario is a handle; calling it gives an outcome or throws, with the text of the
    exception. *)
Context {Fn : Type} (call : Fn -> M (ScenarioOutcome + cstring)).

(* src/inc/attack_sim.hpp:50-53 *)
Record AttackSim := mk_sim { scenarios_ : list (cstring * Fn); outcomes_ : list ScenarioOutcome }.
Definition new_sim : AttackSim := mk_sim [] [].

(* src/src/attack_sim.cpp:18-20 *)
Definition sim_add (name : cstring) (fn : Fn) (s : AttackSim) : AttackSim :=
  mk_sim (scenarios_ s ++ [(name, fn)]) (outcomes_ s).

(** One round of the loop; the clock readings around the call are in nanoseconds. *)
(* src/src/attack_sim.cpp:26-38 AttackSim::run_all *)
Definition run_scenario (s : cstring * Fn) (t0 t1 : Z) : M ScenarioOutcome :=
  let! r := call s.2 in
  let o := match r with inl o => o | inr what => mk_outcome s.1 kInconclusive (lit "threw: " ++ what) 0 end in
  Ok (mk_outcome (if bool_decide (so_name o = []) then s.1 else so_name o) (result o) (evidence o)
        (u64 (Z.quot (t1 - t0) 1000))).

(* src/src/attack_sim.cpp:40-44 AttackSim::run_all *)
Definition is_failure (o : ScenarioOutcome) : bool :=
  match result o with kAllowed | kInconclusive => true | _ => false end.

(* src/src/attack_sim.cpp:25-54 AttackSim::run_all *)
Fixpoint run_loop (ss : list (cstring * Fn)) (clock : Z -> Z * Z) (i failures : Z) (os : list ScenarioOutcome)
    : M (Z * list ScenarioOutcome) :=
  match ss with
  | [] => Ok (failures, os)
  | s :: ss =>
      let! o := run_scenario s (clock i).1 (clock i).2 in
      run_loop ss clock (i + 1) (if is_failure o then failures + 1 else failures) (os ++ [o])
  end.

(* src/src/attack_sim.cpp:22-56 *)
Definition run_all (clock : Z -> Z * Z) (s : AttackSim) : M (Z * AttackSim) :=
  let! '(failures, os) := run_loop (scenarios_ s) clock 0 0 [] in
  Ok (failures, mk_sim (scenarios_ s) os).

Lemma run_loop_spec clock (ss : list (cstring * Fn)) : forall i failures os,
  (forall s, s ∈ ss -> exists r, call s.2 = Ok r) ->
  exists new, run_loop ss clock i failures os = Ok (failures + len (filter (fun o => is_failure o = true) new), os ++ new) /\
    Forall2 (fun s o =>
      match call s.2 with
      | Ok (inl o') => result o = result o' /\ evidence o = evidence o' /\ so_name o = (if decide (so_name o' = []) then s.1 else so_name o')
      | Ok (inr what) => result o = kInconclusive /\ so_name o = s.1 /\ evidence o = lit "threw: " ++ what
      | Fault => False
      end) ss new.
Proof.
  induction ss as [|s ss IH]; intros i failures os Hc; cbn [run_loop].
  { exists []. split; [|constructor]. by rewrite app_nil_r, Z.add_0_r. }
  destruct (Hc s) as [r Er]; [set_solver|]. unfold run_scenario. rewrite Er.
  set (o := mk_outcome _ _ _ _).
  destruct (IH (i + 1) (if is_failure o then failures + 1 else failures) (os ++ [o])) as (new & -> & Hf); [set_solver|].
  exists (o :: new). rewrite <- app_assoc. cbn [app]. split.
  - do 2 f_equal. rewrite filter_cons. destruct (is_failure o); [rewrite decide_True by done|rewrite decide_False by done]; [|done].
    rewrite len_cons. lia.
  - constructor; [|done]. rewrite Er. unfold o. destruct r as [o'|what]; cbn [result evidence so_name].
    + split_and!; [done|done|]. case_bool_decide; by case_decide.
    + split_and!; [done| |done]. case_bool_decide; done.
Qed.

End Harness.

(** ** Replay storm *)

(** The scenarios with the guard that they declare as an argument. *)

(** The legitimate burst: [Some i] when number [i] is refused. *)
(* src/src/attack_replay_storm.cpp:23-27 scenario_pure_replay *)
Definition first_pass (g : ReplayGuard) : M (ReplayGuard + Z) :=
  for_ret (Z.to_nat 1000) 1 (fun i g =>
    let! '(ok, g) := check_and_update REPLAY_WINDOW_SIZE g i in
    Ok (if ok then inl g else inr i)) g.

(* src/src/attack_replay_storm.cpp:29-33 scenario_pure_replay *)
Definition replay_pass (g : ReplayGuard) : M (ReplayGuard * Z) :=
  for_up (Z.to_nat 1000) 1 (fun i '(g, n) =>
    let! '(ok, g) := check_and_update REPLAY_WINDOW_SIZE g i in
    Ok (g, if ok then n + 1 else n)) (g, 0).

(* src/src/attack_replay_storm.cpp:21-41 scenario_pure_replay *)
Definition pure_replay (g : ReplayGuard) : M ScenarioOutcome :=
  let! r := first_pass g in
  match r with
  | inr i => Ok (allowed (lit "pure_replay") (lit "first-pass rejection at seq=" ++ dec 20 i))
  | inl g =>
      let! '(_, accepted_replays) := replay_pass g in
      Ok (if accepted_replays =? 0
          then blocked (lit "pure_replay") (lit "0/1000 replays accepted; window correctly rejected all")
          else allowed (lit "pure_replay") (dec 20 accepted_replays ++ lit " replays slipped through"))
  end.

(* src/src/attack_replay_storm.cpp:43-59 scenario_interleaved_replay *)
Definition interleaved_replay (g : ReplayGuard) : M ScenarioOutcome :=
  let! r := for_ret (Z.to_nat 500) 1 (fun seq g =>
    let! '(ok, g) := check_and_update REPLAY_WINDOW_SIZE g seq in
    Ok (if ok then inl g else inr tt)) g in
  match r with
  | inr _ => Ok (allowed (lit "interleaved_replay") (lit "legit reject"))
  | inl g =>
      let! '(replayed, _) := check_and_update REPLAY_WINDOW_SIZE g 42 in
      Ok (if replayed
          then allowed (lit "interleaved_replay") (lit "guard accepted seq=42 after already seeing it")
          else blocked (lit "interleaved_replay") (lit "interleaved replay of seq=42 rejected as expected"))
  end.

(* src/src/attack_replay_storm.cpp:61-77 scenario_window_underflow_attack *)
Definition window_underflow_attack (g : ReplayGuard) : M ScenarioOutcome :=
  let! '(_, g) := check_and_update 1024 g 10000 in
  let! '(leaked, g) := check_and_update 1024 g 5 in
  let n := lit "ancient_outside_window" in
  Ok (if leaked then allowed n (lit "guard accepted seq=5 with high_water=10000")
      else if negb (rejected_too_old_ g =? 1) then detected n (lit "rejected but counter not bumped")
      else blocked n (lit "ancient replay rejected and counter bumped")).

Definition scenario_pure_replay : M ScenarioOutcome := pure_replay (new_guard REPLAY_WINDOW_SIZE).
Definition scenario_interleaved_replay : M ScenarioOutcome := interleaved_replay (new_guard REPLAY_WINDOW_SIZE).
Definition scenario_window_underflow_attack : M ScenarioOutcome := window_underflow_attack (new_guard 1024).

(** ** Access rules *)

(* src/src/attack_topic_acl_bypass.cpp:26-30 fp *)
Definition acl_fp (s : Z) : list Z := replicate 32 s.

(* src/src/attack_topic_acl_bypass.cpp:32-43 *)
Definition scenario_subscribe_outside_allowed : M ScenarioOutcome :=
  let acl := acl_allow new_acl (acl_fp 1) kSubscribe (lit "sensors/kitchen/#") in
  let! allowed_eval := acl_check acl (acl_fp 1) kSubscribe (lit "sensors/#") in
  Ok (if allowed_eval then allowed (lit "subscribe_outside") (lit "wider filter accepted despite narrower allow")
      else blocked (lit "subscribe_outside") (lit "broader filter rejected; narrower allow held")).

(* src/src/attack_topic_acl_bypass.cpp:45-56 *)
Definition scenario_invalid_filter_rejected : M ScenarioOutcome :=
  let! ok := sl_topic_is_valid_filter (lit "a/#/b") 5 in
  Ok (if ok then allowed (lit "invalid_filter") (lit "validator accepted '#' not at end")
      else blocked (lit "invalid_filter") (lit "'#' must be terminal; validator rejected")).

(* src/src/attack_topic_acl_bypass.cpp:58-69 *)
Definition scenario_publish_to_others_namespace : M ScenarioOutcome :=
  let acl := set_default_allow new_acl false in
  let acl := acl_allow acl (acl_fp 9) kPublish (lit "tenantA/#") in
  let! ok := acl_check acl (acl_fp 9) kPublish (lit "tenantB/event") in
  Ok (if ok then allowed (lit "cross_tenant_publish") (lit "publish into foreign tenant succeeded")
      else blocked (lit "cross_tenant_publish") (lit "default-deny + scoped allow blocked the publish")).

(* src/src/attack_topic_acl_bypass.cpp:71-81 *)
Definition scenario_explicit_deny_overrides_default : M ScenarioOutcome :=
  let acl := set_default_allow new_acl true in
  let acl := acl_deny acl (acl_fp 5) kSubscribe (lit "admin/#") in
  let! ok := acl_check acl (acl_fp 5) kSubscribe (lit "admin/audit") in
  Ok (if ok then allowed (lit "explicit_deny") (lit "explicit deny did not override default-allow")
      else blocked (lit "explicit_deny") (lit "explicit deny correctly overrode default-allow")).

(** The scenarios of these programs do not throw. *)
Definition call_scenario (s : M ScenarioOutcome) : M (ScenarioOutcome + cstring) := let! o := s in Ok (inl o).

(** The status with which a program over the harness exits. *)
Definition exit_status (clock : Z -> Z * Z) (sim : AttackSim) : M Z :=
  let! '(failures, _) := run_all call_scenario clock sim in Ok (if failures =? 0 then 0 else 1).

(* src/src/attack_replay_storm.cpp:79-92 main *)
Definition attack_replay_storm (clock : Z -> Z * Z) : M Z :=
  let sim := sim_add (lit "pure_replay") scenario_pure_replay new_sim in
  let sim := sim_add (lit "interleaved_replay") scenario_interleaved_replay sim in
  let sim := sim_add (lit "ancient_outside_window") scenario_window_underflow_attack sim in
  exit_status clock sim.

(* src/src/attack_topic_acl_bypass.cpp:83-96 main *)
Definition attack_topic_acl_bypass (clock : Z -> Z * Z) : M Z :=
  let sim := sim_add (lit "subscribe_outside_allowed") scenario_subscribe_outside_allowed new_sim in
  let sim := sim_add (lit "invalid_filter_rejected") scenario_invalid_filter_rejected sim in
  let sim := sim_add (lit "cross_tenant_publish") scenario_publish_to_others_namespace sim in
  let sim := sim_add (lit "explicit_deny_wins") scenario_explicit_deny_overrides_default sim in
  exit_status clock sim.

(** ** Handshake downgrade *)

(** [CHECK]: the program's function returns 1 when the condition is false. *)
Definition CHECK (cond : bool) (rest : M Z) : M Z := if cond then rest else Ok 1.

(* src/src/attack_handshake_downgrade.c:32-45 *)
Definition attack_no_overlap_after_strip : M Z :=
  let! '(_, server) := sl_version_list_add sl_version_list_init 0x0100 in
  let! chosen := sl_version_choose sl_version_list_init server in
  CHECK (chosen =? 0) (Ok 0).

(* src/src/attack_handshake_downgrade.c:47-60 *)
Definition attack_inject_only_weak : M Z :=
  let! '(_, forged_client) := sl_version_list_add sl_version_list_init 0x0001 in
  let! '(_, server) := sl_version_list_add sl_version_list_init 0x0100 in
  let! chosen := sl_version_choose forged_client server in
  CHECK (chosen =? 0) (Ok 0).

(* src/src/attack_handshake_downgrade.c:62-76 *)
Definition defense_highest_is_chosen : M Z :=
  let! '(_, a) := sl_version_list_add sl_version_list_init 0x0100 in
  let! '(_, a) := sl_version_list_add a 0x0102 in
  let! '(_, a) := sl_version_list_add a 0x0200 in
  let! '(_, b) := sl_version_list_add sl_version_list_init 0x0100 in
  let! '(_, b) := sl_version_list_add b 0x0200 in
  let! chosen := sl_version_choose a b in
  CHECK (chosen =? 0x0200) (Ok 0).

(* src/src/attack_handshake_downgrade.c:78-85 main *)
Definition attack_handshake_downgrade : M Z :=
  let! a := attack_no_overlap_after_strip in
  let! b := attack_inject_only_weak in
  let! c := defense_highest_is_chosen in
  Ok (Z.lor (Z.lor (Z.lor 0 a) b) c).

(** A program over the harness exits with 0 when every scenario ends well. *)
Definition ends_well (s : M ScenarioOutcome) : Prop := match s with Ok o => is_failure o = false | Fault => False end.

Lemma exit_status_held (clock : Z -> Z * Z) (sim : AttackSim) :
  Forall (fun s => ends_well s.2) (scenarios_ sim) -> exit_status clock sim = Ok 0.
Proof.
  intros Hs. unfold exit_status, run_all. rewrite Forall_forall in Hs.
  destruct (run_loop_spec call_scenario clock (scenarios_ sim) 0 0 []) as (new & -> & Hf).
  { intros s Hin. specialize (Hs s Hin). unfold ends_well, call_scenario in *. destruct s.2; [eauto|done]. }
  enough (filter (fun o => is_failure o = true) new = []) as -> by done.
  destruct (filter _ new) as [|o os'] eqn:Eo; [done|exfalso].
  assert (Ho : o ∈ filter (fun o => is_failure o = true) new) by (rewrite Eo; apply list_elem_of_here).
  apply list_elem_of_filter in Ho as [Hfail (i & Ho)%list_elem_of_lookup_1].
  destruct (Forall2_lookup_r _ _ _ _ _ Hf Ho) as (s & Hin & E). specialize (Hs s ltac:(by eapply list_elem_of_lookup_2)).
  unfold ends_well, call_scenario in *. destruct s.2 as [o'|]; [|done]. destruct E as (E & _).
  unfold is_failure in *. by rewrite E, Hs in Hfail.
Qed.

Ltac each_ends_well :=
  cbv zeta; apply exit_status_held; unfold sim_add; cbn [scenarios_ outcomes_ new_sim app];
  repeat (apply Forall_cons; split; [vm_compute; reflexivity|]); apply Forall_nil_2.

Lemma replay_storm_held clock : attack_replay_storm clock = Ok 0.
Proof. unfold attack_replay_storm. each_ends_well. Qed.

Lemma acl_bypass_held clock : attack_topic_acl_bypass clock = Ok 0.
Proof. unfold attack_topic_acl_bypass. each_ends_well. Qed.

Lemma downgrade_held : attack_handshake_downgrade = Ok 0.
Proof. by vm_compute. Qed.

(** ** Brute force *)

(** The loop that fails until the address is blocked: the number of the blocking attempt, -1 for
    none. *)
(* src/src/attack_brute_force.c:34-37 attack_rapid_fire *)
Fixpoint rapid_fire_loop (todo : nat) (i : Z) (at_fail : Z -> Z) (ip : cstring) (L : sl_lockout) : Z * sl_lockout :=
  match todo with
  | O => (-1, L)
  | S todo =>
      let '(s, L) := sl_lockout_fail true (at_fail i) L ip in
      match s with
      | SL_LOCKOUT_BLOCKED => (i + 1, L)
      | SL_LOCKOUT_ALLOW => rapid_fire_loop todo (i + 1) at_fail ip L
      end
  end.

(* src/src/attack_brute_force.c:41-44 attack_rapid_fire *)
Definition count_blocked (todo : nat) (at_check : Z -> Z) (ip : cstring) (L : sl_lockout) : Z :=
  len (filter (fun i => sl_lockout_check (at_check i) L ip = SL_LOCKOUT_BLOCKED) (seqZ 0 (Z.of_nat todo))).

(** [alloc]: whether the tracker itself can be allocated. *)
(* src/src/attack_brute_force.c:27-49 *)
Definition attack_rapid_fire (alloc : bool) (at_fail at_check : Z -> Z) : M Z :=
  match sl_lockout_new alloc 60000 3600000 3 with
  | None => Ok 1
  | Some L =>
      let ip := lit "203.0.113.7" in
      let '(blocked_at, L) := rapid_fire_loop 50 0 at_fail ip L in
      CHECK (blocked_at =? 3) (CHECK (count_blocked 100 at_check ip L =? 100) (Ok 0))
  end.

Definition is_status (a b : sl_lockout_status_t) : bool :=
  match a, b with
  | SL_LOCKOUT_ALLOW, SL_LOCKOUT_ALLOW | SL_LOCKOUT_BLOCKED, SL_LOCKOUT_BLOCKED => true
  | _, _ => false
  end.

(** Without a tracker every call answers "blocked", and the second check fails. *)
(* src/src/attack_brute_force.c:51-62 *)
Definition attack_distributed_does_not_lock_others (alloc : bool) (at_fail at_check : Z -> Z) : M Z :=
  match sl_lockout_new alloc 60000 3600000 3 with
  | None => Ok 1
  | Some L =>
      let L := (sl_lockout_fail true (at_fail 0) L (lit "10.0.0.1")).2 in
      let L := (sl_lockout_fail true (at_fail 1) L (lit "10.0.0.1")).2 in
      let L := (sl_lockout_fail true (at_fail 2) L (lit "10.0.0.1")).2 in
      CHECK (is_status (sl_lockout_check (at_check 0) L (lit "10.0.0.1")) SL_LOCKOUT_BLOCKED)
        (CHECK (is_status (sl_lockout_check (at_check 1) L (lit "10.0.0.2")) SL_LOCKOUT_ALLOW) (Ok 0))
  end.

(* src/src/attack_brute_force.c:64-76 *)
Definition success_clears_state (alloc : bool) (at_fail : Z -> Z) : M Z :=
  match sl_lockout_new alloc 60000 3600000 3 with
  | None => Ok 1
  | Some L =>
      let L := (sl_lockout_fail true (at_fail 0) L (lit "ip")).2 in
      let L := (sl_lockout_fail true (at_fail 1) L (lit "ip")).2 in
      let L := sl_lockout_succeed L (lit "ip") in
      let '(s, L) := sl_lockout_fail true (at_fail 2) L (lit "ip") in
      CHECK (is_status s SL_LOCKOUT_ALLOW)
        (let '(s, L) := sl_lockout_fail true (at_fail 3) L (lit "ip") in CHECK (is_status s SL_LOCKOUT_ALLOW) (Ok 0))
  end.

(** The clock readings of the three functions come one function after the other. *)
(* src/src/attack_brute_force.c:78-85 main *)
Definition attack_brute_force (alloc : bool) (at_fail at_check : nat -> Z -> Z) : M Z :=
  let! a := attack_rapid_fire alloc (at_fail 0%nat) (at_check 0%nat) in
  let! b := attack_distributed_does_not_lock_others alloc (at_fail 1%nat) (at_check 1%nat) in
  let! c := success_clears_state alloc (at_fail 2%nat) in
  Ok (Z.lor (Z.lor (Z.lor 0 a) b) c).

Section BruteForce.
Context (at_fail at_check : Z -> Z).
Hypothesis Hfail : forall i, 0 <= at_fail i < 2 ^ 63.
Hypothesis Hcheck : forall i, 0 <= at_check i < at_fail 2 + 60000.

(** Three failures at the first three readings. *)
Definition three_failures (ip : cstring) : list attempt :=
  [(at_fail 0, ip, AuthFail); (at_fail 1, ip, AuthFail); (at_fail 2, ip, AuthFail)].

Lemma lockout_ready L h :
  sl_lockout_new true 60000 3600000 3 = Some L -> times_ok h -> len h <= 5 ->
  lockout_rel 60000 3600000 3 L [] 0 /\ lockout_rel 60000 3600000 3 (lockout_run L h) h (len h).
Proof.
  intros HL Ht Hl. pose proof (lockout_rel_new 60000 3600000 3 L HL) as H0. split; [done|].
  by apply lockout_run_rel; lia || done.
Qed.

Lemma three_failures_status L ip key i :
  sl_lockout_new true 60000 3600000 3 = Some L ->
  sl_lockout_check (at_check i) (lockout_run L (three_failures ip)) key = SL_LOCKOUT_BLOCKED <-> key = ip.
Proof.
  intros HL. pose proof (Hcheck i).
  assert (Ht : times_ok (three_failures ip)) by (repeat constructor; cbn; apply Hfail).
  destruct (lockout_ready L _ HL Ht) as [_ Hr]; [by vm_compute|].
  rewrite (lockout_check_spec 60000 3600000 3 ltac:(lia) _ _ _ (at_check i) key Hr ltac:(lia)).
  unfold failures, three_failures. cbn [foldl failure_step]. destruct (decide (ip = key)) as [->|Hne]; cbn [fst snd].
  - split; [done|intros _]. change (window _ _ _ _) with 60000. lia.
  - split; [lia|congruence].
Qed.

(** One more failure after a history of at most five attempts. *)
Lemma fail_after L h t key :
  sl_lockout_new true 60000 3600000 3 = Some L -> times_ok h -> len h <= 5 ->
  sl_lockout_fail true t (lockout_run L h) key =
  (if 3 <=? (failures key h).1 + 1 then SL_LOCKOUT_BLOCKED else SL_LOCKOUT_ALLOW, lockout_run L (h ++ [(t, key, AuthFail)])).
Proof.
  intros HL Ht Hl. destruct (lockout_ready L h HL Ht Hl). apply (lockout_fail_run 60000 3600000 3); lia || done.
Qed.

Lemma rapid_fire_step L h n i ip :
  sl_lockout_new true 60000 3600000 3 = Some L -> times_ok h -> len h <= 5 ->
  rapid_fire_loop (S n) i at_fail ip (lockout_run L h) =
  if 3 <=? (failures ip h).1 + 1 then (i + 1, lockout_run L (h ++ [(at_fail i, ip, AuthFail)]))
  else rapid_fire_loop n (i + 1) at_fail ip (lockout_run L (h ++ [(at_fail i, ip, AuthFail)])).
Proof. intros HL Ht Hl. cbn [rapid_fire_loop]. rewrite fail_after by done. by destruct (3 <=? _). Qed.

Lemma failures_of_one ip h t : failures ip (h ++ [(t, ip, AuthFail)]) = ((failures ip h).1 + 1, t).
Proof. rewrite failures_snoc. unfold failure_step. by rewrite decide_True. Qed.

Ltac short_history := solve [done | repeat constructor; apply Hfail].

Lemma rapid_fire_three L ip :
  sl_lockout_new true 60000 3600000 3 = Some L ->
  rapid_fire_loop 50 0 at_fail ip L = (3, lockout_run L (three_failures ip)).
Proof.
  intros HL. change L with (lockout_run L []) at 1.
  rewrite rapid_fire_step by short_history. cbn [failures foldl fst Z.add Z.leb Z.compare Pos.compare Pos.compare_cont].
  rewrite rapid_fire_step, failures_of_one by short_history. cbn [failures foldl fst Z.add Z.leb Z.compare Pos.compare Pos.compare_cont Pos.add].
  rewrite rapid_fire_step, !failures_of_one by short_history. done.
Qed.

Lemma rapid_fire_held : attack_rapid_fire true at_fail at_check = Ok 0.
Proof.
  unfold attack_rapid_fire. destruct (sl_lockout_new true 60000 3600000 3) as [L|] eqn:HL; [|done].
  cbv zeta. rewrite rapid_fire_three by done. cbn [CHECK Z.eqb Pos.eqb]. unfold count_blocked.
  enough (forall l, filter (fun i => sl_lockout_check (at_check i) (lockout_run L (three_failures (lit "203.0.113.7")))
    (lit "203.0.113.7") = SL_LOCKOUT_BLOCKED) l = l) as -> by done.
  intros l. induction l as [|i l IH]; [done|]. rewrite filter_cons, IH, decide_True; [done|]. by apply three_failures_status.
Qed.

Lemma isolation_held : attack_distributed_does_not_lock_others true at_fail at_check = Ok 0.
Proof.
  unfold attack_distributed_does_not_lock_others. destruct (sl_lockout_new true 60000 3600000 3) as [L|] eqn:HL; [|done].
  cbv zeta. change ((sl_lockout_fail true (at_fail 2) _ _).2) with (lockout_run L (three_failures (lit "10.0.0.1"))).
  rewrite (proj2 (three_failures_status L (lit "10.0.0.1") (lit "10.0.0.1") 0 HL) eq_refl). cbn [CHECK is_status].
  destruct (sl_lockout_check (at_check 1) _ _) eqn:E; [done|].
  apply (three_failures_status L (lit "10.0.0.1") (lit "10.0.0.2") 1 HL) in E. vm_compute in E. congruence.
Qed.

Lemma reset_held : success_clears_state true at_fail = Ok 0.
Proof.
  unfold success_clears_state. destruct (sl_lockout_new true 60000 3600000 3) as [L|] eqn:HL; [|done].
  set (h := [(at_fail 0, lit "ip", AuthFail); (at_fail 1, lit "ip", AuthFail); (0, lit "ip", AuthOk)]).
  cbv zeta. change (sl_lockout_succeed _ _) with (lockout_run L h).
  assert (Hh : times_ok h) by (repeat constructor; cbn; apply Hfail || lia).
  rewrite (fail_after L h) by done.
  change (failures _ _) with (0, 0). cbn [fst Z.add Z.leb Z.compare Pos.compare Pos.compare_cont CHECK is_status].
  rewrite fail_after; [done|done| |done]. apply Forall_app. split; [done|]. repeat constructor; apply Hfail.
Qed.
End BruteForce.

Lemma brute_force_held (at_fail at_check : nat -> Z -> Z) :
  (forall k i, 0 <= at_fail k i < 2 ^ 63) -> (forall k i, 0 <= at_check k i < at_fail k 2 + 60000) ->
  attack_brute_force true at_fail at_check = Ok 0.
Proof.
  intros Hf Hc. unfold attack_brute_force.
  rewrite (rapid_fire_held (at_fail 0%nat) (at_check 0%nat)), (isolation_held (at_fail 1%nat) (at_check 1%nat)),
    (reset_held (at_fail 2%nat)) by auto. done.
Qed.

(** ** Connection flood *)

(** A run of admissions; the number admitted. *)
Fixpoint admit_all (ips : list cstring) (i : Z) (clock : Z -> Z) (admitted : Z) (g : sl_dos_guard) : Z * sl_dos_guard :=
  match ips with
  | [] => (admitted, g)
  | ip :: ips =>
      let '(ok, g) := sl_dos_guard_admit true (clock i) g ip in
      admit_all ips (i + 1) clock (if ok then admitted + 1 else admitted) g
  end.

(** Without a guard nothing is admitted, and a check fails. *)
(* src/src/attack_dos_flood.c:32-48 *)
Definition attack_single_ip_caps_out (alloc : bool) (clock : Z -> Z) : M Z :=
  match sl_dos_guard_new alloc 5 100 5000 with
  | None => Ok 1
  | Some g =>
      let '(admitted, g) := admit_all (replicate 50 (lit "198.51.100.9")) 0 clock 0 g in
      CHECK (admitted =? 5)
        (let '(ok, g) := sl_dos_guard_admit true (clock 50) g (lit "198.51.100.10") in CHECK ok (Ok 0))
  end.

(* src/src/attack_dos_flood.c:50-64 *)
Definition attack_distributed_hits_global_cap (alloc : bool) (clock : Z -> Z) : M Z :=
  match sl_dos_guard_new alloc 2 10 5000 with
  | None => Ok 1
  | Some g =>
      let ips := map (fun i => lit "203.0.113." ++ dec_int i) (seqZ 0 100) in
      let '(admitted, g) := admit_all ips 0 clock 0 g in
      CHECK (admitted =? 10) (Ok 0)
  end.

(** The time slept is the distance of the clock readings. *)
(* src/src/attack_dos_flood.c:66-86 *)
Definition sweep_reclaims_stale (alloc : bool) (clock : Z -> Z) (at_sweep : Z) : M Z :=
  match sl_dos_guard_new alloc 2 4 1 with
  | None => Ok 1
  | Some g =>
      let '(_, g) := admit_all [lit "1.1.1.1"; lit "1.1.1.1"; lit "2.2.2.2"; lit "3.3.3.3"] 0 clock 0 g in
      let '(ok, g) := sl_dos_guard_admit true (clock 4) g (lit "4.4.4.4") in
      CHECK (negb ok)
        (let '(reaped, g) := sl_dos_guard_sweep at_sweep g in
         CHECK (4 <=? reaped)
           (let '(ok, g) := sl_dos_guard_admit true (clock 5) g (lit "4.4.4.4") in CHECK ok (Ok 0)))
  end.

(* src/src/attack_dos_flood.c:88-95 main *)
Definition attack_dos_flood (alloc : bool) (clock : nat -> Z -> Z) (at_sweep : Z) : M Z :=
  let! a := attack_single_ip_caps_out alloc (clock 0%nat) in
  let! b := attack_distributed_hits_global_cap alloc (clock 1%nat) in
  let! c := sweep_reclaims_stale alloc (clock 2%nat) at_sweep in
  Ok (Z.lor (Z.lor (Z.lor 0 a) b) c).

Lemma single_ip_held clock : attack_single_ip_caps_out true clock = Ok 0.
Proof. vm_compute. reflexivity. Qed.

Lemma distributed_held clock : attack_distributed_hits_global_cap true clock = Ok 0.
Proof. vm_compute. reflexivity. Qed.

(** A sweep when every half-open connection is stale takes them all. *)
Definition stale (cutoff timeout : Z) (e : ip_entry_t) : Prop :=
  half_open e = 0 \/ timeout < u64 (cutoff - oldest_half_open_ms e).

Lemma sweep_stale_chain cutoff timeout c : forall st,
  Forall (fun e => stale cutoff timeout e.2) c -> chain_sum half_open (sweep_chain cutoff timeout c st).1 = 0.
Proof.
  induction c as [|[k e] c IH]; intros [gho reaped] Hc; [done|]. apply Forall_cons in Hc as [He Hc].
  cbn [sweep_chain]. destruct (sweep_entry cutoff timeout e (gho, reaped)) as [e' st] eqn:E.
  specialize (IH st Hc). destruct (sweep_chain cutoff timeout c st) as [c' st']. cbn [fst] in *.
  change (chain_sum half_open ((k, e') :: c')) with (half_open e' + chain_sum half_open c'). rewrite IH.
  enough (half_open e' = 0) by lia. unfold sweep_entry in E.
  destruct (Z.eqb_spec (half_open e) 0); [by simplify_eq|]. destruct He as [?|He]; [done|].
  rewrite (proj2 (Z.ltb_lt _ _)) in E by exact He. by simplify_eq.
Qed.

Lemma sweep_stale_buckets cutoff timeout t : forall st,
  tbl_all (stale cutoff timeout) t -> tbl_sum half_open (sweep_buckets cutoff timeout t st).1 = 0.
Proof.
  induction t as [|c t IH]; intros st Ht; [done|]. apply Forall_cons in Ht as [Hc Ht].
  cbn [sweep_buckets]. pose proof (sweep_stale_chain cutoff timeout c st Hc) as Ec.
  destruct (sweep_chain cutoff timeout c st) as [c' st']. specialize (IH st' Ht).
  destruct (sweep_buckets cutoff timeout t st') as [t' st'']. cbn [fst] in *.
  change (tbl_sum half_open (c' :: t')) with (chain_sum half_open c' + tbl_sum half_open t'). lia.
Qed.

Lemma sweep_takes_all now g :
  guard_ok g -> tbl_all (stale now (half_open_timeout_ms g)) (dg_buckets g) ->
  let '(reaped, g') := sl_dos_guard_sweep now g in
  guard_ok g' /\ max_per_ip g' = max_per_ip g /\ max_global g' = max_global g /\
  reaped = global_half_open g /\ global_half_open g' = 0 /\ global_established g' = global_established g.
Proof.
  intros Hok Hs. pose proof (guard_sweep_ok now g Hok) as Hsw. unfold sl_dos_guard_sweep in *.
  pose proof (sweep_stale_buckets now (half_open_timeout_ms g) (dg_buckets g) (global_half_open g, 0) Hs) as Hz.
  destruct Hok as (_ & Hg & _ & H1 & H2 & _ & _ & Hle & _).
  destruct (sweep_buckets _ _ _ _) as [t' [gho reaped]]. cbn [fst] in Hz. destruct Hsw as (Hok' & Ei & Hr).
  split; [done|]. destruct Hok' as (_ & _ & _ & Hp1 & _ & E1 & _ & Hle' & _). revert E1 Ei Hp1 Hle'.
  unfold sl_dos_guard_global_inflight, with_counts, with_table.
  cbn [max_per_ip max_global global_half_open global_established dg_buckets].
  intros E1 Ei Hp1 Hle'. rewrite Hz in E1. subst gho. rewrite !u32_small in Ei by lia. split_and!; lia || done.
Qed.

(** Admissions keep what holds of every entry, when it holds of the entries they write. *)
Lemma admit_all_entries (P : ip_entry_t -> Prop) now g ip :
  P (mk_ip 0 0 0) -> (forall e, P e -> P (mk_ip (u32 (half_open e + 1)) (established e) (if half_open e =? 0 then now else oldest_half_open_ms e))) ->
  tbl_all P (dg_buckets g) -> tbl_all P (dg_buckets (sl_dos_guard_admit true now g ip).2).
Proof.
  intros H0 Hstep Hg. unfold sl_dos_guard_admit. destruct (_ <=? _); [done|].
  unfold dg_find_or_create. destruct (tbl_find SL_DOS_BUCKETS (dg_buckets g) ip) as [e|] eqn:E; cbn [negb].
  - destruct (_ <=? _); [done|]. apply all_set; [done|]. apply Hstep. by eapply (all_find SL_DOS_BUCKETS).
  - destruct (_ <=? _); [by apply all_push|]. apply all_set; [by apply all_push|]. by apply (Hstep (mk_ip 0 0 0)).
Qed.

Lemma per_ip_le_inflight g ip : guard_ok g -> sl_dos_guard_per_ip g ip <= sl_dos_guard_global_inflight g.
Proof.
  intros (Hm & Hg & _ & H1 & H2 & E1 & E2 & Hle & Hall). unfold sl_dos_guard_per_ip, sl_dos_guard_global_inflight, dg_find_or_create.
  rewrite (u32_small (global_half_open g + _)) by lia.
  destruct (tbl_find SL_DOS_BUCKETS (dg_buckets g) ip) as [e|] eqn:E; cbn [negb]; [|lia].
  pose proof (all_find _ _ _ _ _ Hall E) as (? & ? & ?). rewrite u32_small by lia.
  pose proof (tbl_sum_ge SL_DOS_BUCKETS _ _ (half_open_nonneg (max_per_ip g)) _ ip e Hall E).
  pose proof (tbl_sum_ge SL_DOS_BUCKETS _ _ (established_nonneg (max_per_ip g)) _ ip e Hall E). lia.
Qed.

Lemma admit_all_run (P : ip_entry_t -> Prop) clock ips : forall i n g,
  P (mk_ip 0 0 0) ->
  (forall j e, i <= j < i + len ips -> P e -> P (mk_ip (u32 (half_open e + 1)) (established e) (if half_open e =? 0 then clock j else oldest_half_open_ms e))) ->
  guard_ok g -> tbl_all P (dg_buckets g) ->
  guard_ok (admit_all ips i clock n g).2 /\ tbl_all P (dg_buckets (admit_all ips i clock n g).2).
Proof.
  induction ips as [|ip ips IH]; intros i n g H0 Hstep Hok Hall; [done|]. rewrite len_cons in Hstep. pose proof (len_nonneg ips).
  cbn [admit_all]. pose proof (admit_spec (clock i) g ip Hok) as Ha.
  pose proof (admit_all_entries P (clock i) g ip H0 ltac:(intros; apply Hstep; [lia|done]) Hall) as Hall'.
  destruct (sl_dos_guard_admit true (clock i) g ip) as [ok g']. apply IH; [done| |apply Ha|done].
  intros j e Hj. apply Hstep. lia.
Qed.

Lemma sweep_held clock at_sweep :
  (forall i, 0 <= i < 4 -> 0 <= clock i /\ clock i + 1 < at_sweep < 2 ^ 64) -> sweep_reclaims_stale true clock at_sweep = Ok 0.
Proof.
  intros Hc. unfold sweep_reclaims_stale. destruct (sl_dos_guard_new true 2 4 1) as [g|] eqn:Hg; [|done].
  set (ips := [_; _; _; _]).
  destruct (admit_all_run (fun e => half_open e = 0 \/ 0 <= oldest_half_open_ms e /\ oldest_half_open_ms e + 1 < at_sweep) clock ips 0 0 g)
    as [Hok Hall]; [by left| |by apply (guard_ok_new 2 4 1)| |].
  { intros j e Hj He. change (len ips) with 4 in Hj. specialize (Hc j ltac:(lia)). right. cbn [oldest_half_open_ms half_open].
    destruct (Z.eqb_spec (half_open e) 0); lia. }
  { injection Hg as <-. apply all_new. }
  assert (Ht : let g4 := (admit_all ips 0 clock 0 g).2 in
    half_open_timeout_ms g4 = 1 /\ max_per_ip g4 = 2 /\ max_global g4 = 4 /\ global_half_open g4 = 4 /\ global_established g4 = 0)
    by (injection Hg as <-; vm_compute; by split_and!).
  destruct (admit_all ips 0 clock 0 g) as [n4 g4]. cbn [snd] in *. destruct Ht as (Et & Ep & Eg & Eh & Ee). clear Hg g.
  assert (Er : sl_dos_guard_admit true (clock 4) g4 (lit "4.4.4.4") = (false, g4))
    by (unfold sl_dos_guard_admit; by rewrite Eg, Eh, Ee).
  rewrite Er. cbn [negb CHECK]. clear Er.
  pose proof (sweep_takes_all at_sweep g4 Hok) as Hs. rewrite Et in Hs.
  destruct (sl_dos_guard_sweep at_sweep g4) as [reaped g5]. destruct Hs as (Hok5 & Ep5 & Eg5 & -> & Eh5 & Ee5).
  { eapply Forall_impl; [exact Hall|]. intros c Hcs. eapply Forall_impl; [exact Hcs|]. intros e [He|He]; [by left|right].
    specialize (Hc 0 ltac:(lia)). rewrite u64_small; lia. }
  rewrite Eh. cbn [CHECK Z.leb Z.compare Pos.compare Pos.compare_cont].
  pose proof (admit_spec (clock 5) g5 (lit "4.4.4.4") Hok5) as Ha.
  pose proof (per_ip_le_inflight g5 (lit "4.4.4.4") Hok5) as Hper.
  assert (Hz : sl_dos_guard_global_inflight g5 = 0) by (unfold sl_dos_guard_global_inflight; by rewrite Eh5, Ee5, Ee).
  destruct (sl_dos_guard_admit true (clock 5) g5 (lit "4.4.4.4")) as [ok g6].
  destruct Ha as (_ & _ & _ & Ha & _). rewrite (proj2 Ha); [done|]. rewrite Ep5, Eg5, Ep, Eg. lia.
Qed.

Lemma dos_flood_held clock at_sweep :
  (forall i, 0 <= i < 4 -> 0 <= clock 2%nat i /\ clock 2%nat i + 1 < at_sweep < 2 ^ 64) ->
  attack_dos_flood true clock at_sweep = Ok 0.
Proof.
  intros Hc. unfold attack_dos_flood. by rewrite single_ip_held, distributed_held, sweep_held by done.
Qed.

(** ** Tampering with sealed data *)

(** What a buffer holds after [w] was written at its start. *)
Definition written_over (w buf : list Z) : list Z := w ++ drop (length w) buf.

Section Tamper.
Context `{Gcm}.

(* src/src/attack_aead_tamper.c:30-35 *)
Definition seal_sample (key iv : list Z) (aad : option (list Z)) (pt : list Z) (pt_len : Z) : M (Z * list Z * list Z) :=
  sl_aead_seal key iv aad (Some pt) pt_len.

(** [key] and [iv] are what the random source left in the two arrays. *)
(* src/src/attack_aead_tamper.c:37-51 *)
Definition attack_flip_ciphertext_byte (key iv : list Z) : M Z :=
  let! '(rc, ct, tag) := seal_sample key iv None (lit "the quick brown fox jumps over the lazy dog!!!!") 47 in
  CHECK (rc =? 0)
    (let! '(_, ct) := sl_mut_flip_bit (sl_mut_rng_seed 0xC1A551F1ED) ct in
     CHECK (negb ((sl_aead_open key iv None ct tag).1 =? 0)) (Ok 0)).

(* src/src/attack_aead_tamper.c:53-65 *)
Definition attack_flip_tag_byte (key iv : list Z) : M Z :=
  let! '(rc, ct, tag) := seal_sample key iv None (lit "secret payload!" ++ [0]) 15 in
  CHECK (rc =? 0)
    (let! '(_, tag) := sl_mut_flip_bit (sl_mut_rng_seed 0xFEED1234) tag in
     CHECK (negb ((sl_aead_open key iv None ct tag).1 =? 0)) (Ok 0)).

(* src/src/attack_aead_tamper.c:67-82 *)
Definition attack_swap_aad_after_seal (key iv : list Z) : M Z :=
  let! '(rc, ct, tag) := seal_sample key iv (Some (lit "session-id-A")) (lit "hello" ++ [0]) 5 in
  CHECK (rc =? 0) (CHECK (negb ((sl_aead_open key iv (Some (lit "session-id-B")) ct tag).1 =? 0)) (Ok 0)).

(** The results of sealing are ignored: [ct0] and [tag0] are what the arrays held before. *)
(* src/src/attack_aead_tamper.c:84-101 *)
Definition attack_cross_session_nonce_reuse (key iv ct0 tag0 : list Z) : M Z :=
  let! '(_, ct_a, tag_a) := seal_sample key iv None (lit "AAAAA") 5 in
  let! '(_, ct_b, tag_b) := seal_sample key iv None (lit "BBBBB") 5 in
  CHECK (negb ((sl_aead_open key iv None (written_over ct_b ct0) (written_over tag_a tag0)).1 =? 0)) (Ok 0).

(* src/src/attack_aead_tamper.c:103-111 main *)
Definition attack_aead_tamper (key iv : nat -> list Z) (ct0 tag0 : list Z) : M Z :=
  let! a := attack_flip_ciphertext_byte (key 0%nat) (iv 0%nat) in
  let! b := attack_flip_tag_byte (key 1%nat) (iv 1%nat) in
  let! c := attack_swap_aad_after_seal (key 2%nat) (iv 2%nat) in
  let! d := attack_cross_session_nonce_reuse (key 3%nat) (iv 3%nat) ct0 tag0 in
  Ok (Z.lor (Z.lor (Z.lor (Z.lor 0 a) b) c) d).

(** The corrupted copy of a round. *)
(* src/src/attack_record_fuzz.c:45-51 run *)
Definition fuzz_copy (wire : list Z) (n i : Z) : M (list Z) :=
  let copy := take (Z.to_nat n) wire in
  let r := sl_mut_rng_seed (Z.lxor 0xCAFEBABE i) in
  let '(v, r) := sl_mut_rng_next r in
  let flips := 1 + v mod 3 in
  let! '(_, copy) := sl_mut_flip_bits r copy flips in
  Ok copy.

(** Whether it was accepted. [pt] is the receiver's buffer. *)
(* src/src/attack_record_fuzz.c:45-58 run *)
Definition fuzz_round (key iv wire : list Z) (n : Z) (pt : list Z) (i : Z) : M bool :=
  let! copy := fuzz_copy wire n i in
  let! '(rc, _) := sl_record_open copy key iv 42 pt in
  Ok (bool_decide (is_Some rc)).

Definition fuzz_msg : list Z := lit "fuzz-target plaintext bytes".

(* src/src/attack_record_fuzz.c:25-70 run *)
Definition attack_record_fuzz (key iv wire pt : list Z) : M Z :=
  let! '(n, wire) := sl_record_seal SL_REC_APP_DATA key iv 42 (Some fuzz_msg) (len fuzz_msg) wire in
  if n <=? 0 then Ok 1
  else
    let! accepts := for_up (Z.to_nat 2000) 0 (fun i accepts =>
      let! ok := fuzz_round key iv wire n pt i in Ok (if ok then accepts + 1 else accepts)) 0 in
    Ok (if negb (accepts =? 0) then 1 else 0).

End Tamper.

(** *** The bits that are flipped *)

Definition bit_at (buf : list Z) (p : Z) : bool := Z.testbit (default 0 (buf !! Z.to_nat (p / 8))) (p mod 8).

Lemma flip_at_bits buf q :
  bytes_ok buf -> 0 <= q < 8 * len buf ->
  exists buf', flip_at buf q = Ok buf' /\ len buf' = len buf /\ bytes_ok buf' /\
    forall p, 0 <= p -> bit_at buf' p = xorb (bit_at buf p) (q =? p).
Proof.
  intros Hb Hq. unfold flip_at.
  assert (Hk : 0 <= q / 8 < len buf) by (split; [apply Z.div_pos; lia|apply Z.div_lt_upper_bound; lia]).
  destruct (load_in_bounds buf (q / 8) Hk) as (b & -> & Eb). rewrite store_ok by done.
  pose proof (Z.mod_pos_bound q 8 ltac:(lia)) as Hm.
  assert (Hp : u8 (1 ≪ (q mod 8)) = 2 ^ (q mod 8) /\ is_u8 (2 ^ (q mod 8))).
  { assert (0 <= 2 ^ (q mod 8) < 2 ^ 8) by (split; [apply Z.pow_nonneg; lia|apply Z.pow_lt_mono_r; lia]).
    rewrite Z.shiftl_1_l, u8_small by lia. split; [done|lia]. }
  destruct Hp as [-> Hp]. eexists. split; [reflexivity|]. split; [by rewrite len_insert|].
  pose proof (Forall_lookup_1 _ _ _ _ Hb Eb) as Hbb.
  split; [apply Forall_insert; [done|by apply lxor_u8]|]. intros p Hp0. unfold bit_at.
  pose proof (Z.mod_pos_bound p 8 ltac:(lia)) as Hmp. pose proof (Z.div_pos p 8 Hp0 ltac:(lia)).
  destruct (decide (p / 8 = q / 8)) as [Ed|Ed].
  - rewrite Ed, list_lookup_insert_eq by (by eapply lookup_lt_Some). rewrite Eb. cbn [default].
    change (id ?x) with x. rewrite Z.lxor_spec, Z.pow2_bits_eqb by lia. f_equal.
    pose proof (Z.div_mod p 8 ltac:(lia)). pose proof (Z.div_mod q 8 ltac:(lia)).
    destruct (Z.eqb_spec (q mod 8) (p mod 8)), (Z.eqb_spec q p); try done; [lia|congruence].
  - rewrite list_lookup_insert_ne by lia. destruct (Z.eqb_spec q p); [congruence|]. by rewrite xorb_false_r.
Qed.

Lemma draw_fresh_ok total used : 0 < total -> forall k r, 0 < r < 2 ^ 64 ->
  0 <= (draw_fresh k total used r).1 < total /\ 0 < (draw_fresh k total used r).2 < 2 ^ 64.
Proof.
  intros Ht. induction k as [|k IH]; intros r Hr; cbn [draw_fresh]; destruct (bounded_ok r total Hr Ht) as [Hb Hr'];
    destruct (bounded r total) as [bit r']; cbn [fst snd] in *; [done|]. case_bool_decide; [by apply IH|done].
Qed.

(** The positions [flip_loop] draws. *)
Fixpoint draws (todo : nat) (total : Z) (used : list Z) (r : Z) : list Z :=
  match todo with
  | O => []
  | S todo => let '(bit, r) := draw_fresh 63 total used r in bit :: draws todo total (if len used <? 64 then used ++ [bit] else used) r
  end.

Lemma flip_loop_bits todo : forall used r buf,
  bytes_ok buf -> 0 < len buf -> 0 < r < 2 ^ 64 ->
  exists r' buf', flip_loop todo (len buf * 8) used r buf = Ok (r', buf') /\ len buf' = len buf /\ bytes_ok buf' /\
    forall p, 0 <= p -> bit_at buf' p = foldl (fun b q => xorb b (q =? p)) (bit_at buf p) (draws todo (len buf * 8) used r).
Proof.
  induction todo as [|todo IH]; intros used r buf Hb Hl Hr; cbn [flip_loop draws]; [by exists r, buf|].
  destruct (draw_fresh_ok (len buf * 8) used ltac:(lia) 63 r Hr) as [Hd Hr']. destruct (draw_fresh 63 _ used r) as [q r']. cbn [fst snd] in *.
  destruct (flip_at_bits buf q Hb ltac:(lia)) as (buf1 & -> & Hl1 & Hb1 & Hbit). rewrite <- Hl1.
  destruct (IH (if len used <? 64 then used ++ [q] else used) r' buf1 Hb1 ltac:(lia) Hr') as (r2 & buf2 & -> & Hl2 & Hb2 & Hbit2).
  exists r2, buf2. split_and!; [done|done|done|]. intros p Hp. cbn [foldl]. by rewrite Hbit2, Hbit.
Qed.

(** Flips at distinct positions leave something changed. *)
Lemma distinct_flips_change (b : bool) (p : Z) (l : list Z) :
  p ∉ l -> foldl (fun b q => xorb b (q =? p)) b (p :: l) = negb b.
Proof.
  intros Hp. cbn [foldl]. rewrite Z.eqb_refl, xorb_true_r. generalize (negb b). clear b.
  induction l as [|q l IH]; intros b; cbn [foldl]; [done|]. apply not_elem_of_cons in Hp as [Hq Hl].
  rewrite (proj2 (Z.eqb_neq q p)) by congruence. rewrite xorb_false_r. by apply IH.
Qed.

(** The seeds and the numbers of flips of the fuzzer's rounds, for a record of 48 bytes. *)
Definition round_draws (i : Z) : list Z :=
  let '(v, r) := sl_mut_rng_next (sl_mut_rng_seed (Z.lxor 0xCAFEBABE i)) in draws (Z.to_nat (1 + v mod 3)) 384 [] r.

Definition distinct_upto3 (l : list Z) : bool :=
  match l with
  | [_] => true
  | [a; b] => negb (a =? b)
  | [a; b; c] => negb (a =? b) && negb (a =? c) && negb (b =? c)
  | _ => false
  end.

Fixpoint rounds_ok (n : nat) (i : Z) : bool :=
  match n with O => true | S n => distinct_upto3 (round_draws i) && rounds_ok n (i + 1) end.

Lemma rounds_checked : rounds_ok (Z.to_nat 2000) 0 = true.
Proof. vm_compute. reflexivity. Qed.

Lemma rounds_ok_spec n : forall i j, rounds_ok n i = true -> i <= j < i + Z.of_nat n ->
  exists p l, round_draws j = p :: l /\ p ∉ l.
Proof.
  induction n as [|n IH]; intros i j H Hj; [lia|]. cbn [rounds_ok] in H. apply andb_prop in H as [H1 H2].
  destruct (decide (j = i)) as [->|]; [|apply (IH (i + 1)); [done|lia]].
  destruct (round_draws i) as [|p [|q [|s [|]]]]; try done; cbn [distinct_upto3] in H1; eexists _, _; (split; [done|]);
    rewrite ?not_elem_of_cons; repeat split; try apply not_elem_of_nil; intros ->; rewrite Z.eqb_refl in H1;
    by rewrite ?andb_false_r in H1.
Qed.

(** *** Unforgeability *)

Section Unforgeable.
Context `{GcmLaws}.

(** Under one key and nonce, nothing opens but what was sealed. *)
Definition only_opens (key iv : list Z) (sealed : list (list Z * list Z * list Z)) : Prop :=
  forall aad ct tag pt, gcm_open key iv aad ct tag = GcmOpened pt -> (aad, ct, tag) ∈ sealed.

Lemma open_refused key iv sealed aad ct tag :
  only_opens key iv sealed -> (default [] aad, ct, tag) ∉ sealed -> (sl_aead_open key iv aad ct tag).1 = -1.
Proof.
  intros Ho Hn. unfold sl_aead_open. destruct (gcm_open _ _ _ _ _) eqn:E; [|done..]. by apply Ho in E.
Qed.

Lemma seal_sample_run key iv aad pt n ct tag :
  0 <= n <= len pt -> gcm_seal key iv (default [] aad) (take (Z.to_nat n) pt) = GcmSealed ct tag ->
  seal_sample key iv aad pt n = Ok (0, ct, tag).
Proof.
  intros Hn E. unfold seal_sample, sl_aead_seal, null_with_len.
  change (default [] (Some pt)) with pt. rewrite load_bytes_in_bounds by lia.
  change (drop (Z.to_nat 0) pt) with pt. rewrite E. by destruct (0 <? n).
Qed.

(** Flipping a bit of a buffer leaves another buffer. *)
Lemma flip_bit_changes seed buf :
  0 < seed < 2 ^ 64 -> 0 < len buf < 2 ^ 60 ->
  exists r buf', sl_mut_flip_bit (sl_mut_rng_seed seed) buf = Ok (r, buf') /\ buf' <> buf.
Proof.
  intros Hs Hl. unfold sl_mut_rng_seed, sl_mut_flip_bit.
  rewrite !(proj2 (Z.eqb_neq _ _)), u64_small by lia.
  destruct (bounded_ok seed (len buf * 8) Hs ltac:(lia)) as [Hb _]. destruct (bounded seed (len buf * 8)) as [bit r]. cbn [fst] in Hb.
  destruct (flip_at_ok buf bit) as (buf' & -> & (k & b & j & _ & _ & _ & Hne) & _); [lia|]. eauto.
Qed.

Lemma flip_ciphertext_held key iv ct tag :
  gcm_seal key iv [] (lit "the quick brown fox jumps over the lazy dog!!!!") = GcmSealed ct tag ->
  only_opens key iv [([], ct, tag)] -> attack_flip_ciphertext_byte key iv = Ok 0.
Proof.
  intros E Ho. unfold attack_flip_ciphertext_byte. destruct (gcm_seal_len _ _ _ _ _ _ E) as [Hl _].
  rewrite (seal_sample_run _ _ _ _ _ ct tag) by (done || exact E). cbn [CHECK Z.eqb].
  destruct (flip_bit_changes 0xC1A551F1ED ct) as (r & ct' & -> & Hne); [lia|rewrite Hl; by vm_compute|].
  rewrite (open_refused _ _ _ _ _ _ Ho); [done|]. cbn [default]. rewrite list_elem_of_singleton. congruence.
Qed.

Lemma flip_tag_held key iv ct tag :
  gcm_seal key iv [] (lit "secret payload!") = GcmSealed ct tag ->
  only_opens key iv [([], ct, tag)] -> attack_flip_tag_byte key iv = Ok 0.
Proof.
  intros E Ho. unfold attack_flip_tag_byte. destruct (gcm_seal_len _ _ _ _ _ _ E) as [_ Hl].
  rewrite (seal_sample_run _ _ _ _ _ ct tag) by (done || exact E). cbn [CHECK Z.eqb].
  destruct (flip_bit_changes 0xFEED1234 tag) as (r & tag' & -> & Hne); [lia|rewrite Hl; by vm_compute|].
  rewrite (open_refused _ _ _ _ _ _ Ho); [done|]. cbn [default]. rewrite list_elem_of_singleton. congruence.
Qed.

Lemma swap_aad_held key iv ct tag :
  gcm_seal key iv (lit "session-id-A") (lit "hello") = GcmSealed ct tag ->
  only_opens key iv [(lit "session-id-A", ct, tag)] -> attack_swap_aad_after_seal key iv = Ok 0.
Proof.
  intros E Ho. unfold attack_swap_aad_after_seal.
  rewrite (seal_sample_run _ _ _ _ _ ct tag) by (done || exact E). cbn [CHECK Z.eqb].
  rewrite (open_refused _ _ _ _ _ _ Ho); [done|]. rewrite list_elem_of_singleton. intros [=].
Qed.

(** The two ciphertexts and the two tags must differ: with equal tags the second message would
    be opened with the tag it was sealed with. *)
Lemma cross_tag_held key iv ct0 tag0 ct_a tag_a ct_b tag_b :
  len ct0 = 5 -> len tag0 = 16 ->
  gcm_seal key iv [] (lit "AAAAA") = GcmSealed ct_a tag_a -> gcm_seal key iv [] (lit "BBBBB") = GcmSealed ct_b tag_b ->
  ct_a <> ct_b -> tag_a <> tag_b -> only_opens key iv [([], ct_a, tag_a); ([], ct_b, tag_b)] ->
  attack_cross_session_nonce_reuse key iv ct0 tag0 = Ok 0.
Proof.
  intros Hc0 Ht0 Ea Eb Hct Htag Ho. unfold attack_cross_session_nonce_reuse.
  destruct (gcm_seal_len _ _ _ _ _ _ Ea) as [_ Hla]. destruct (gcm_seal_len _ _ _ _ _ _ Eb) as [Hlb _].
  change (len (lit "BBBBB")) with 5 in Hlb. unfold SL_AEAD_TAG_LEN in Hla.
  rewrite (seal_sample_run _ _ _ _ _ ct_a tag_a), (seal_sample_run _ _ _ _ _ ct_b tag_b) by (done || exact Ea || exact Eb).
  unfold written_over. rewrite !drop_ge, !app_nil_r by (unfold len in *; lia).
  rewrite (open_refused _ _ _ _ _ _ Ho); [done|]. rewrite !elem_of_cons. cbn [default].
  intros [?|[?|?%not_elem_of_nil]]; congruence || done.
Qed.

Lemma aead_tamper_held (key iv : nat -> list Z) ct0 tag0 ct1 tag1 ct2 tag2 ct3 tag3 ct_a tag_a ct_b tag_b :
  len ct0 = 5 -> len tag0 = 16 ->
  gcm_seal (key 0%nat) (iv 0%nat) [] (lit "the quick brown fox jumps over the lazy dog!!!!") = GcmSealed ct1 tag1 ->
  gcm_seal (key 1%nat) (iv 1%nat) [] (lit "secret payload!") = GcmSealed ct2 tag2 ->
  gcm_seal (key 2%nat) (iv 2%nat) (lit "session-id-A") (lit "hello") = GcmSealed ct3 tag3 ->
  gcm_seal (key 3%nat) (iv 3%nat) [] (lit "AAAAA") = GcmSealed ct_a tag_a ->
  gcm_seal (key 3%nat) (iv 3%nat) [] (lit "BBBBB") = GcmSealed ct_b tag_b -> ct_a <> ct_b -> tag_a <> tag_b ->
  only_opens (key 0%nat) (iv 0%nat) [([], ct1, tag1)] -> only_opens (key 1%nat) (iv 1%nat) [([], ct2, tag2)] ->
  only_opens (key 2%nat) (iv 2%nat) [(lit "session-id-A", ct3, tag3)] ->
  only_opens (key 3%nat) (iv 3%nat) [([], ct_a, tag_a); ([], ct_b, tag_b)] ->
  attack_aead_tamper key iv ct0 tag0 = Ok 0.
Proof.
  intros Hc0 Ht0 E1 E2 E3 Ea Eb Hct Htag O1 O2 O3 O4. unfold attack_aead_tamper.
  rewrite (flip_ciphertext_held _ _ _ _ E1 O1), (flip_tag_held _ _ _ _ E2 O2), (swap_aad_held _ _ _ _ E3 O3).
  by rewrite (cross_tag_held _ _ _ _ _ _ _ _ Hc0 Ht0 Ea Eb Hct Htag O4).
Qed.

(** A copy that is a forgery: other than the record, and laid out from a ciphertext and tag that
    the cipher gives for some plaintext under the key and nonce, with the header as additional data. *)
Definition forgery (key iv wire copy : list Z) : Prop :=
  copy <> wire /\ exists t ct tag pt, copy = record_wire t ct tag /\ is_u8 t /\
    gcm_seal key (nonce_of iv 42) (record_header t (len ct + SL_AEAD_TAG_LEN)) pt = GcmSealed ct tag.

(** The copies differ from the record, as the flips of a round are at distinct positions. *)
Lemma fuzz_copy_differs wire rest i :
  bytes_ok wire -> len wire = 48 -> 0 <= i < 2000 ->
  exists copy, fuzz_copy (wire ++ rest) 48 i = Ok copy /\ len copy = 48 /\ bytes_ok copy /\ copy <> wire.
Proof.
  intros Hb Hl Hr. unfold fuzz_copy.
  replace (take (Z.to_nat 48) (wire ++ rest)) with wire by (rewrite <- Hl; by rewrite take_len_app).
  destruct (rounds_ok_spec _ 0 i rounds_checked) as (p & l & Ed & Hp); [lia|]. unfold round_draws in Ed.
  set (s := sl_mut_rng_seed (Z.lxor 0xCAFEBABE i)) in *.
  assert (Hs : 0 < s < 2 ^ 64).
  { unfold s, sl_mut_rng_seed. pose proof (lxor_u64 0xCAFEBABE i ltac:(lia) ltac:(lia)) as Hx.
    destruct (Z.eqb_spec (Z.lxor 0xCAFEBABE i) 0); lia. }
  destruct (rng_next_ok s Hs) as [Hv Hs1]. destruct (sl_mut_rng_next s) as [v s1]. cbn [fst snd] in *.
  pose proof (Z.mod_pos_bound v 3 ltac:(lia)). unfold sl_mut_flip_bits. rewrite Hl. cbn [Z.eqb].
  change (u64 (48 * 8)) with 384. rewrite (proj2 (Z.ltb_ge _ _)) by lia.
  destruct (flip_loop_bits (Z.to_nat (1 + v mod 3)) [] s1 wire Hb ltac:(lia) Hs1) as (r' & copy & E & Hlc & Hbc & Hbits).
  rewrite Hl in E, Hbits. change (48 * 8) with 384 in E, Hbits. rewrite E.
  exists copy. split_and!; [done|lia|done|].
  intros ->. assert (0 <= p) as Hp0.
  { destruct (Z.to_nat (1 + v mod 3)) as [|k]; [done|]. cbn [draws] in Ed.
    destruct (draw_fresh_ok 384 [] ltac:(lia) 63 s1 Hs1) as [Hd _]. destruct (draw_fresh 63 384 [] s1). cbn [fst] in Hd.
    injection Ed as <- _. lia. }
  specialize (Hbits p Hp0). rewrite Ed, distinct_flips_change in Hbits by done. by destruct (bit_at wire p).
Qed.

(** A round accepts exactly the forgeries. *)
Lemma fuzz_round_spec key iv wire rest pt i :
  bytes_ok wire -> len wire = 48 -> len iv = SL_AEAD_IV_LEN -> len pt = 256 -> 0 <= i < 2000 ->
  exists copy b, fuzz_copy (wire ++ rest) 48 i = Ok copy /\ copy <> wire /\
    fuzz_round key iv (wire ++ rest) 48 pt i = Ok b /\ (b = true <-> forgery key iv wire copy).
Proof.
  intros Hb Hl Hi Hpt Hr. unfold fuzz_round.
  destruct (fuzz_copy_differs wire rest i Hb Hl Hr) as (copy & -> & Hlc & Hbc & Hne). cbv beta iota.
  assert (Hacc : forgery key iv wire copy -> exists x out, sl_record_open copy key iv 42 pt = Ok (Some x, out)).
  { intros (_ & t & ct & tag & p & -> & Ht & Eg). destruct (gcm_seal_len _ _ _ _ _ _ Eg) as [_ Hlt]. unfold SL_AEAD_TAG_LEN in Hlt.
    assert (len ct = 27) by (unfold record_wire in Hlc; rewrite !len_app, len_record_header in Hlc; lia).
    rewrite record_open_wire; [|done|done|record_consts; lia|done|lia]. rewrite (gcm_open_seal _ _ _ _ _ _ Eg). eauto. }
  destruct (record_parse copy key iv 42 pt Hbc Hi) as [Hp|(t & ct & tag & Hs & Ht & Hm & Htag & Hc)].
  { exists copy, false. split_and!; [done..|by rewrite Hp|]. split; [done|]. intros Hf. destruct (Hacc Hf) as (x & out & Ex). by rewrite Hp in Ex. }
  pose proof (record_open_wire t key iv 42 ct tag pt Ht Hi Hm Htag Hc) as Eo. rewrite <- Hs in Eo.
  destruct (gcm_open key (nonce_of iv 42) _ ct tag) as [p|w|w] eqn:Eg; rewrite Eo in Hacc |- *;
    eexists copy, _; (split; [done|]); (split; [done|]); (split; [reflexivity|]);
    [split; [intros _|done]|split; [done|]; intros Hf; by destruct (Hacc Hf) as (x & out & Ex)..].
  split; [done|]. exists t, ct, tag, p. split_and!; [done|lia|lia|]. by apply gcm_seal_open.
Qed.

(** C35: The fuzzing program finds nothing but forgeries of the cipher. When its message has been
    sealed, all two thousand corrupted copies are made without a fault and none of them is the record
    itself (the flips of every round, recomputed from its seed, are at distinct positions); the program
    then exits with 1 exactly if one of the copies is a forgery, that is, carries a ciphertext and tag
    which AES-GCM itself would have made for some plaintext with that header, under the key and
    nonce, and with 0 otherwise. *)
Theorem record_fuzz_held key iv wire pt ct tag :
  len wire = 256 -> len pt = 256 -> len iv = SL_AEAD_IV_LEN -> bytes_ok (ct ++ tag) ->
  gcm_seal key (nonce_of iv 42) (record_header SL_REC_APP_DATA 43) fuzz_msg = GcmSealed ct tag ->
  let rec := record_wire SL_REC_APP_DATA ct tag in
  exists code, attack_record_fuzz key iv wire pt = Ok code /\ (code = 0 \/ code = 1) /\
    (forall i, 0 <= i < 2000 -> exists copy, fuzz_copy rec 48 i = Ok copy /\ copy <> rec) /\
    (code = 1 <-> exists i copy, 0 <= i < 2000 /\ fuzz_copy rec 48 i = Ok copy /\ forgery key iv rec copy).
Proof.
  intros Hw Hpt Hi Hb E w. unfold attack_record_fuzz. destruct (gcm_seal_len _ _ _ _ _ _ E) as [Hct Htag].
  change (len fuzz_msg) with 27 in *. unfold SL_AEAD_TAG_LEN in Htag.
  rewrite (record_seal_fits _ _ _ _ _ _ _ ct tag); [|done| |done| |exact E].
  2:{ split; [lia|]. intros _. exists fuzz_msg. split; [done|by vm_compute]. }
  2:{ rewrite Hw. by vm_compute. }
  fold w. assert (Hl : len w = 48) by (unfold w, record_wire; rewrite !len_app, len_record_header; lia).
  assert (Hbw : bytes_ok w).
  { unfold w, record_wire. apply bytes_ok_app; [|done]. rewrite Hct. by_deciding. }
  rewrite Hl. cbn [Z.leb Z.compare].
  assert (Hcut : forall i, fuzz_copy (w ++ drop (length w) wire) 48 i = fuzz_copy w 48 i).
  { intros i. unfold fuzz_copy. rewrite <- Hl, take_len_app, len_to_nat, firstn_all. done. }
  set (forged := fun i => exists copy, fuzz_copy w 48 i = Ok copy /\ forgery key iv w copy).
  destruct (for_up_inv (fun i accepts => 0 <= accepts /\ (accepts <> 0 <-> exists j, 0 <= j < i /\ forged j))
    (fun i accepts => let! ok := fuzz_round key iv (w ++ drop (length w) wire) 48 pt i in Ok (if ok then accepts + 1 else accepts))
    (Z.to_nat 2000) 0 0) as (n & -> & Hn & Hf).
  - split; [done|]. split; [done|]. intros (j & Hj & _). lia.
  - intros j a Hj [Ha Hiff]. destruct (fuzz_round_spec key iv w (drop (length w) wire) pt j) as (copy & b & Ec & _ & -> & Hb'); [done..|lia|].
    rewrite Hcut in Ec. eexists. split; [reflexivity|]. assert (Hfj : forged j <-> b = true).
    { split; [intros (c' & Ec' & Hc'); apply Hb'; congruence|intros Hbt; exists copy; by rewrite <- Hb']. }
    split; [destruct b; lia|]. split.
    + intros Hx. destruct b; [exists j; split; [lia|by apply Hfj]|]. destruct (proj1 Hiff Hx) as (j' & Hj' & Hf). exists j'. split; [lia|done].
    + intros (j' & Hj' & Hf). destruct (decide (j' = j)) as [->|Hne]; [rewrite (proj1 Hfj Hf); lia|].
      assert (a <> 0) by (apply Hiff; exists j'; split; [lia|done]). destruct b; lia.
  - change (0 + Z.of_nat (Z.to_nat 2000)) with 2000 in Hf. eexists. split; [reflexivity|]. split; [destruct (n =? 0); auto|]. split.
    + intros i Hr. destruct (fuzz_copy_differs w [] i Hbw Hl Hr) as (copy & Ec & _ & _ & Hne). rewrite app_nil_r in Ec. eauto.
    + assert (Hc : (if negb (n =? 0) then 1 else 0) = 1 <-> n <> 0) by (destruct (Z.eqb_spec n 0); cbn; split; (done || lia)).
      rewrite Hc, Hf. split; [intros (j & Hj & copy & ? & ?); exists j, copy; by (split; [done|split])|].
      intros (j & copy & Hj & ? & ?). exists j. split; [done|]. by exists copy.
Qed.
End Unforgeable.

(** ** Slow misbehaviour *)

Section IntrusionPattern.
Context `{Libm}.

(** The clock readings of the calls are numbered as the scenario makes them. *)
Fixpoint observe_loop (obs : clocks -> cstring -> double -> IntrusionMonitor -> IntrusionDecision * IntrusionMonitor)
    (clk : Z -> clocks) (peer : cstring) (vs : list double) (i : Z) (mon : IntrusionMonitor) : IntrusionMonitor :=
  match vs with
  | [] => mon
  | v :: vs => observe_loop obs clk peer vs (i + 1) (obs (clk i) peer v mon).2
  end.

(* src/src/intrusion_monitor.cpp:94-96 IntrusionMonitor::decision_for *)
Definition decision_for (c : clocks) (peer : cstring) (mon : IntrusionMonitor) : IntrusionDecision :=
  build_decision (at_score c) (at_block c) peer mon.

(** [5000.0 + (i % 7)] for the forty rounds. *)
Definition slow_burn_intervals : list double := map (fun i => d_add (d_int 5000) (d_int (i mod 7))) (seqZ 0 40).

(* src/src/attack_intrusion_pattern.cpp:26-29 scenario_slow_burn *)
Definition slow_burn_policy : IntrusionPolicy :=
  mk_ipolicy (anomaly_alpha default_ipolicy) (d_int 3) 5
    (mk_policy (weight_auth_failure default_policy) (weight_replay default_policy) (weight_malformed default_policy)
       (weight_skew default_policy) (weight_rate_limited default_policy) (weight_anomaly_timing default_policy)
       (weight_anomaly_volume default_policy) (weight_unknown_id default_policy) (weight_handshake_abort default_policy)
       (half_life_seconds default_policy) (d_int 20)).

(* src/src/attack_intrusion_pattern.cpp:25-60 *)
Definition scenario_slow_burn (clk : Z -> clocks) : M ScenarioOutcome :=
  let peer := lit "203.0.113.42" in
  let mon := observe_loop observe_beacon_timing clk peer slow_burn_intervals 0 (new_monitor slow_burn_policy) in
  let mon := (report (clk 40) kClockSkew peer mon).2 in
  let mon := (report (clk 41) kRateLimited peer mon).2 in
  let mon := (report (clk 42) kClockSkew peer mon).2 in
  let d_lo := decision_for (clk 43) peer mon in
  if block d_lo then Ok (detected (lit "slow_burn") (lit "blocked too eagerly on low-severity signals"))
  else
    let mon := (report (clk 44) kReplayDetected peer mon).2 in
    let mon := (report (clk 45) kAuthFailure peer mon).2 in
    let '(d_mid, mon) := report (clk 46) kMalformedFrame peer mon in
    Ok (if negb (block d_mid) then allowed (lit "slow_burn") (lit "accumulated score did not trip block threshold")
        else blocked (lit "slow_burn") (lit "accumulated multi-signal score crossed threshold")).

(** [256.0 + (i % 3)] for the forty rounds. *)
Definition spike_volumes : list double := map (fun i => d_add (d_int 256) (d_int (i mod 3))) (seqZ 0 40).

(* src/src/attack_intrusion_pattern.cpp:62-77 *)
Definition scenario_volume_spike (clk : Z -> clocks) : M ScenarioOutcome :=
  let p := mk_ipolicy (anomaly_alpha default_ipolicy) (d_int 3) 10 default_policy in
  let peer := lit "198.51.100.1" in
  let mon := observe_loop observe_volume clk peer spike_volumes 0 (new_monitor p) in
  let '(d, _) := observe_volume (clk 40) peer (d_int 65000) mon in
  Ok (if negb (anomaly_volume d) then allowed (lit "volume_spike") (lit "volume anomaly missed")
      else detected (lit "volume_spike") (lit "volume anomaly detected; threat score updated")).

(* src/src/attack_intrusion_pattern.cpp:80-83 scenario_decay_recovers *)
Definition decay_policy : ThreatPolicy :=
  mk_policy (weight_auth_failure default_policy) (weight_replay default_policy) (weight_malformed default_policy)
    (weight_skew default_policy) (weight_rate_limited default_policy) (weight_anomaly_timing default_policy)
    (weight_anomaly_volume default_policy) (weight_unknown_id default_policy) (weight_handshake_abort default_policy)
    (d_frac 5 100) (d_int 5).

(** The sleep shows in the clock readings only. *)
(* src/src/attack_intrusion_pattern.cpp:79-101 *)
Definition scenario_decay_recovers (clk : Z -> clocks) : M ScenarioOutcome :=
  let ip := mk_ipolicy (anomaly_alpha default_ipolicy) (anomaly_z_threshold default_ipolicy) (anomaly_warmup default_ipolicy) decay_policy in
  let peer := lit "p" in
  let n := lit "decay_recovers" in
  let mon := (report (clk 0) kReplayDetected peer (new_monitor ip)).2 in
  let mon := (report (clk 1) kReplayDetected peer mon).2 in
  Ok (if negb (block (decision_for (clk 2) peer mon)) then incon n (lit "expected to be blocked after two replays")
      else if block (decision_for (clk 3) peer mon) then allowed n (lit "score did not decay below threshold")
      else blocked n (lit "score decayed and peer returned to allowed state")).

(* src/src/attack_intrusion_pattern.cpp:103-115 main *)
Definition attack_intrusion_pattern (clk : nat -> Z -> clocks) (clock : Z -> Z * Z) : M Z :=
  let sim := sim_add (lit "slow_burn_escalation") (scenario_slow_burn (clk 0%nat)) new_sim in
  let sim := sim_add (lit "volume_spike") (scenario_volume_spike (clk 1%nat)) sim in
  let sim := sim_add (lit "decay_recovers") (scenario_decay_recovers (clk 2%nat)) sim in
  exit_status clock sim.

(** *** What the monitor sees *)

(** The verdicts of a detector on a sequence of observations do not depend on the clock. *)
Definition quiet (vs : list double) (d : AnomalyDetector) : bool := forallb negb (observe_flags vs d).

Lemma observe_loop_volume clk peer vs : forall i mon,
  policy_ (observe_loop observe_volume clk peer vs i mon) = policy_ mon /\
  (vs <> [] -> volume_ (observe_loop observe_volume clk peer vs i mon) !! peer = Some (observe_all vs (detector_for (policy_ mon) (volume_ mon) peer))).
Proof.
  induction vs as [|v vs IH]; intros i mon; [done|]. cbn [observe_loop].
  assert (Hp : policy_ (observe_volume (clk i) peer v mon).2 = policy_ mon) by (unfold observe_volume; by destruct (observe _ _)).
  assert (Hv : volume_ (observe_volume (clk i) peer v mon).2 !! peer = Some (observe v (detector_for (policy_ mon) (volume_ mon) peer)).2)
    by (unfold observe_volume; destruct (observe _ _); cbn [snd volume_]; by rewrite lookup_insert_eq).
  destruct (IH (i + 1) (observe_volume (clk i) peer v mon).2) as [E1 E2]. split; [by rewrite E1|]. intros _.
  unfold observe_all in *. cbn [foldl]. destruct vs as [|w vs]; [exact Hv|]. rewrite E2 by done. rewrite Hp. unfold detector_for at 1. by rewrite Hv.
Qed.

(** The spike is flagged whatever the clock and the mathematical library do. *)
Lemma volume_spike_held clk : ends_well (scenario_volume_spike clk).
Proof.
  unfold scenario_volume_spike. cbv zeta. set (p := mk_ipolicy _ _ _ _).
  destruct (observe_loop_volume clk (lit "198.51.100.1") spike_volumes 0 (new_monitor p)) as [Ep Ev].
  set (mon := observe_loop _ _ _ _ _ _) in *. unfold observe_volume, detector_for. rewrite Ev by done.
  change (detector_for _ _ _) with (new_detector (anomaly_alpha p) (anomaly_z_threshold p) (anomaly_warmup p)).
  assert (Hf : (observe (d_int 65000) (observe_all spike_volumes (new_detector (anomaly_alpha p) (anomaly_z_threshold p) (anomaly_warmup p)))).1 = true)
    by (vm_compute; reflexivity).
  destruct (observe (d_int 65000) _) as [anom d]. cbn [fst] in Hf. by subst anom.
Qed.

Lemma observe_loop_quiet clk peer vs : forall i mon,
  quiet vs (detector_for (policy_ mon) (timing_ mon) peer) = true ->
  score_ (observe_loop observe_beacon_timing clk peer vs i mon) = score_ mon.
Proof.
  induction vs as [|v vs IH]; intros i mon Hq; [done|]. unfold quiet in Hq. cbn [observe_flags forallb] in Hq.
  apply andb_prop in Hq as [H1 H2]. cbn [observe_loop]. rewrite IH; unfold observe_beacon_timing;
    destruct (observe v (detector_for (policy_ mon) (timing_ mon) peer)) as [[] d] eqn:E; try done; cbn [snd policy_ timing_].
  unfold detector_for. rewrite lookup_insert_eq. exact H2.
Qed.

(** Reports at one instant. *)
Definition instant (now : Z) : clocks := mk_clocks now now now.

Lemma reports_now now p sigs : forall mon, fresh_at now p (score_ mon) ->
  let mon' := foldl (fun m s => (report (instant now) s p m).2) mon sigs in
  block (decision_for (instant now) p mon') =
    d_le (block_threshold (t_policy (score_ mon)))
      (foldl (fun x s => d_add x (weight_for (t_policy (score_ mon)) s)) (threat_score now p (score_ mon)) sigs).
Proof.
  intros mon Hf mon'. unfold decision_for, build_decision, is_blocked. cbn [block at_block instant].
  rewrite <- instant_signals by done. unfold mon'. clear mon'.
  enough (E : score_ (foldl (fun m s => (report (instant now) s p m).2) mon sigs) =
    foldl (fun t s => (threat_signal now p s t).2) (score_ mon) sigs).
  { rewrite E. f_equal. clear. generalize (score_ mon). induction sigs as [|s sigs IH]; intros t; [done|]. cbn [foldl]. by rewrite IH. }
  clear Hf. revert mon. induction sigs as [|s sigs IH]; intros mon; [done|]. cbn [foldl]. by rewrite IH.
Qed.

Lemma new_monitor_fresh now p policy :
  fresh_at now p (score_ (new_monitor policy)) /\ threat_score now p (score_ (new_monitor policy)) = d_zero.
Proof.
  unfold fresh_at, threat_score. cbn [score_ new_monitor new_threat peers_]. by rewrite lookup_empty.
Qed.

(** With no time between the calls, the low-severity signals do not block and the attack does. *)
Lemma slow_burn_held now : ends_well (scenario_slow_burn (fun _ => instant now)).
Proof.
  unfold scenario_slow_burn. cbv zeta. set (peer := lit "203.0.113.42"). set (mon := observe_loop _ _ _ _ _ _).
  assert (Es : score_ mon = score_ (new_monitor slow_burn_policy)).
  { apply observe_loop_quiet. change (detector_for _ _ _) with (new_detector (anomaly_alpha slow_burn_policy)
      (anomaly_z_threshold slow_burn_policy) (anomaly_warmup slow_burn_policy)). vm_compute. reflexivity. }
  destruct (new_monitor_fresh now peer slow_burn_policy) as [Hf H0]. rewrite <- Es in Hf, H0.
  pose proof (reports_now now peer [kClockSkew; kRateLimited; kClockSkew] mon Hf) as Hlo.
  pose proof (reports_now now peer [kClockSkew; kRateLimited; kClockSkew; kReplayDetected; kAuthFailure; kMalformedFrame] mon Hf) as Hhi.
  rewrite H0, Es in Hlo, Hhi. cbn [foldl] in Hlo, Hhi. cbv zeta in Hlo, Hhi. rewrite Hlo.
  replace (d_le _ _) with false by (vm_compute; reflexivity).
  set (m5 := (report _ kAuthFailure _ _).2) in *. rewrite (surjective_pairing (report _ kMalformedFrame peer m5)).
  change (block (report (instant now) kMalformedFrame peer m5).1) with
    (block (decision_for (instant now) peer (report (instant now) kMalformedFrame peer m5).2)).
  rewrite Hhi. vm_compute. reflexivity.
Qed.

(** After the sleep the outcome rests on the exponential: the score of two replays, 10, must have
    decayed below the threshold, 5. *)
Lemma decay_recovers_held (t0 t1 : Z) (clk : Z -> clocks) :
  clk 0 = instant t0 -> clk 1 = instant t0 -> clk 2 = instant t0 -> clk 3 = instant t1 ->
  d_le (seconds (t1 - t0)) d_zero = false ->
  d_le (d_int 5) (d_mul (d_int 10) (m_exp (d_mul (d_opp (decay_rate_ (new_threat decay_policy))) (seconds (t1 - t0))))) = false ->
  ends_well (scenario_decay_recovers clk).
Proof.
  intros E0 E1 E2 E3 Ht He. unfold scenario_decay_recovers. rewrite E0, E1, E2, E3. cbv zeta. set (ip := mk_ipolicy _ _ _ _). set (p := lit "p").
  destruct (new_monitor_fresh t0 p ip) as [Hf H0].
  pose proof (reports_now t0 p [kReplayDetected; kReplayDetected] (new_monitor ip) Hf) as Hb. cbn [foldl] in Hb. cbv zeta in Hb.
  rewrite H0 in Hb. rewrite Hb. replace (d_le _ _) with true by (vm_compute; reflexivity). cbn [negb].
  pose proof (instant_signals t0 p [kReplayDetected; kReplayDetected] (score_ (new_monitor ip)) Hf) as Hs. cbn [foldl] in Hs. rewrite H0 in Hs.
  unfold decision_for, build_decision, is_blocked. cbn [block at_block instant].
  unfold report. cbn [fst snd score_ at_signal instant].
  set (t := (threat_signal t0 p kReplayDetected _).2) in *. unfold threat_score in *.
  assert (El : exists n, peers_ t !! p = Some (mk_tentry (d_int 10) t0 n)).
  { destruct (peers_ t !! p) as [e|] eqn:Ep.
    - unfold t, threat_signal in Ep. cbn [snd peers_] in Ep. rewrite lookup_insert_eq in Ep. injection Ep as <-.
      rewrite decayed_now in Hs by done. cbn [e_score] in Hs. eexists. rewrite Hs. f_equal.
    - unfold t, threat_signal in Ep. cbn [snd peers_] in Ep. by rewrite lookup_insert_eq in Ep. }
  destruct El as [n ->]. unfold decayed. cbn [last_updated e_score]. rewrite Ht.
  change (block_threshold (t_policy t)) with (d_int 5). change (decay_rate_ t) with (decay_rate_ (new_threat decay_policy)).
  by rewrite He.
Qed.

Lemma intrusion_pattern_held (now t0 t1 : Z) (clk : nat -> Z -> clocks) (clock : Z -> Z * Z) :
  (clk 0%nat = fun _ => instant now) ->
  clk 2%nat 0 = instant t0 -> clk 2%nat 1 = instant t0 -> clk 2%nat 2 = instant t0 -> clk 2%nat 3 = instant t1 ->
  d_le (seconds (t1 - t0)) d_zero = false ->
  d_le (d_int 5) (d_mul (d_int 10) (m_exp (d_mul (d_opp (decay_rate_ (new_threat decay_policy))) (seconds (t1 - t0))))) = false ->
  attack_intrusion_pattern clk clock = Ok 0.
Proof.
  intros Ec E0 E1 E2 E3 Ht He. unfold attack_intrusion_pattern. cbv zeta. apply exit_status_held.
  unfold sim_add. cbn [scenarios_ outcomes_ new_sim app].
  apply Forall_cons. split; cbn [snd]; [rewrite Ec; apply slow_burn_held|].
  apply Forall_cons. split; cbn [snd]; [apply volume_spike_held|].
  apply Forall_cons. split; cbn [snd]; [exact (decay_recovers_held t0 t1 _ E0 E1 E2 E3 Ht He)|apply Forall_nil_2].
Qed.

End IntrusionPattern.

(** ** Instances *)

(** A cipher that seals a given list of messages only, each under its key, nonce and header, and
    opens nothing else: unforgeability can hold. *)
Section Table.
Context (msgs : list (list Z * list Z * list Z * list Z)).

Definition table_tag (pt : list Z) : list Z := replicate 16 (u8 (foldr Z.add 0 pt)).

Definition table_gcm : Gcm := {|
  gcm_seal k iv aad pt := if decide ((k, iv, aad, pt) ∈ msgs) then GcmSealed pt (table_tag pt) else GcmSealError [];
  gcm_open k iv aad ct tag :=
    if decide ((k, iv, aad, ct) ∈ msgs /\ tag = table_tag ct) then GcmOpened ct else GcmBadTag []
|}.

Lemma table_gcm_laws : @GcmLaws table_gcm.
Proof.
  split; simpl.
  - intros k iv aad pt ct tag. case_decide; [|done]. intros [= <- <-]. split; [done|]. unfold table_tag. by rewrite len_replicate.
  - intros k iv aad pt w. case_decide; [done|]. intros [= <-]. apply len_nonneg.
  - intros k iv aad pt ct tag. case_decide; [|done]. intros [= <- <-]. by rewrite decide_True.
  - intros k iv aad ct tag pt _. case_decide as Hd; [|done]. destruct Hd as [Hd ->]. intros [= <-]. by rewrite decide_True.
  - intros k iv aad ct tag w. case_decide; intros [|]; simplify_eq. apply len_nonneg.
  - intros k iv aad ct tag pt Hb. case_decide; [|done]. by intros [= <-].
Qed.

Lemma table_only_opens k iv :
  @only_opens table_gcm k iv
    (map (fun m => (m.1.2, m.2, table_tag m.2)) (filter (fun m => m.1.1 = (k, iv)) msgs)).
Proof.
  intros aad ct tag pt. simpl. case_decide as Hd; [|done]. destruct Hd as [Hd ->]. intros _.
  apply list_elem_of_fmap. exists (k, iv, aad, ct). split; [done|]. by apply list_elem_of_filter.
Qed.
End Table.

Definition fuzz_table : list (list Z * list Z * list Z * list Z) :=
  [(replicate 32 1, nonce_of (replicate 12 2) 42, record_header SL_REC_APP_DATA 43, fuzz_msg)].

Lemma record_fuzz_held_witness :
  @attack_record_fuzz (table_gcm fuzz_table) (replicate 32 1) (replicate 12 2) (replicate 256 0) (replicate 256 0) = Ok 0.
Proof.
  destruct (@record_fuzz_held (table_gcm fuzz_table) (table_gcm_laws fuzz_table) (replicate 32 1) (replicate 12 2)
    (replicate 256 0) (replicate 256 0) fuzz_msg (table_tag fuzz_msg)) as (code & E & Hc & _ & H1).
  - reflexivity.
  - reflexivity.
  - reflexivity.
  - by_deciding.
  - vm_compute. reflexivity.
  - rewrite E. f_equal. destruct Hc as [->|Hc]; [reflexivity|exfalso].
    destruct (proj1 H1 Hc) as (i & copy & _ & _ & Hne & t & ct & tag & p & Ew & _ & Eg). cbn [gcm_seal table_gcm] in Eg.
    destruct (decide _) as [Hin|] in Eg; [|discriminate]. apply list_elem_of_singleton in Hin. injection Eg as -> <-.
    apply Hne. rewrite Ew. apply pair_equal_spec in Hin as [Hin ->]. apply pair_equal_spec in Hin as [_ Hh].
    unfold record_wire. rewrite Hh. reflexivity.
Defined.

Definition tamper_table : list (list Z * list Z * list Z * list Z) :=
  [(replicate 32 1, replicate 12 0, [], lit "the quick brown fox jumps over the lazy dog!!!!");
   (replicate 32 2, replicate 12 0, [], lit "secret payload!");
   (replicate 32 3, replicate 12 0, lit "session-id-A", lit "hello");
   (replicate 32 4, replicate 12 0, [], lit "AAAAA"); (replicate 32 4, replicate 12 0, [], lit "BBBBB")].

(** With an unforgeable cipher the tampering program reports that every defence held. *)
Example aead_tamper_example :
  @attack_aead_tamper (table_gcm tamper_table) (fun i => replicate 32 (Z.of_nat i + 1)) (fun _ => replicate 12 0)
    (replicate 5 0) (replicate 16 0) = Ok 0.
Proof.
  vm_compute. reflexivity.
Qed.
