(* ===== verification/Process.v ===== *)
(** What a process is made of around the protocol: the error type ([src/inc/error_handler.hpp]),
    scope guards ([src/inc/scope_guard.hpp]), the loggers ([src/sl_log.c], [src/logger.cpp],
    [src/session_log.cpp]), signal flags ([src/sl_signals.c]), detaching as a daemon
    ([src/sl_daemonize.c]) and the options of a connected socket ([src/inc/connection.hpp]).
    Results of system calls are arguments; the broken-down time of the C library is one too.
    Signal handlers run nested on the thread they interrupt, one access of a global at a time. *)

From stdpp Require Import gmap.
From Stdlib Require Import String.
From S2P Require Import Prelude Ctype KeySched StringUtil.
Local Open Scope Z_scope.

(** ** Errors *)

Module Errors.

(* src/inc/error_handler.hpp:14-49 *)
Inductive ErrorCode :=
| kOk
| kIoWouldBlock | kIoClosed | kIoError | kIoTimeout
| kFrameOversize | kFrameBadType | kFrameBadReserved | kFrameTruncated | kHandshakeFailed | kReplayDetected | kSequenceOutOfWindow
| kCryptoInit | kCryptoKeyDerive | kCryptoEncrypt | kCryptoDecrypt | kCryptoBadTag | kCryptoRng
| kRateLimited | kTooManyConnections | kOutOfMemory
| kInvalidArgument | kNotImplemented | kInternal.

#[export] Instance ErrorCode_eq_dec : EqDecision ErrorCode.
Proof. solve_decision. Defined.

(** The value of the underlying type. *)
(* src/inc/error_handler.hpp:14-49 ErrorCode *)
Definition code_value (c : ErrorCode) : Z :=
  match c with
  | kOk => 0
  | kIoWouldBlock => 100 | kIoClosed => 101 | kIoError => 102 | kIoTimeout => 103
  | kFrameOversize => 200 | kFrameBadType => 201 | kFrameBadReserved => 202 | kFrameTruncated => 203
  | kHandshakeFailed => 204 | kReplayDetected => 205 | kSequenceOutOfWindow => 206
  | kCryptoInit => 300 | kCryptoKeyDerive => 301 | kCryptoEncrypt => 302 | kCryptoDecrypt => 303
  | kCryptoBadTag => 304 | kCryptoRng => 305
  | kRateLimited => 400 | kTooManyConnections => 401 | kOutOfMemory => 402
  | kInvalidArgument => 900 | kNotImplemented => 901 | kInternal => 902
  end.

(* src/inc/error_handler.hpp:61-89 to_string *)
Definition code_name (c : ErrorCode) : cstring :=
  match c with
  | kOk => lit "ok"
  | kIoWouldBlock => lit "io_would_block"
  | kIoClosed => lit "io_closed"
  | kIoError => lit "io_error"
  | kIoTimeout => lit "io_timeout"
  | kFrameOversize => lit "frame_oversize"
  | kFrameBadType => lit "frame_bad_type"
  | kFrameBadReserved => lit "frame_bad_reserved"
  | kFrameTruncated => lit "frame_truncated"
  | kHandshakeFailed => lit "handshake_failed"
  | kReplayDetected => lit "replay_detected"
  | kSequenceOutOfWindow => lit "sequence_out_of_window"
  | kCryptoInit => lit "crypto_init"
  | kCryptoKeyDerive => lit "crypto_key_derive"
  | kCryptoEncrypt => lit "crypto_encrypt"
  | kCryptoDecrypt => lit "crypto_decrypt"
  | kCryptoBadTag => lit "crypto_bad_tag"
  | kCryptoRng => lit "crypto_rng"
  | kRateLimited => lit "rate_limited"
  | kTooManyConnections => lit "too_many_connections"
  | kOutOfMemory => lit "out_of_memory"
  | kInvalidArgument => lit "invalid_argument"
  | kNotImplemented => lit "not_implemented"
  | kInternal => lit "internal"
  end.

(* src/inc/error_handler.hpp:51-59 *)
Record Error := mk_error { code : ErrorCode; what : cstring }.
Definition error_ok (e : Error) : bool := bool_decide (code e = kOk).

Section Result.
Context {T : Type}.

(** The variant; reading the alternative that is not there throws ([None]). *)
(* src/inc/error_handler.hpp:91-111 *)
Definition Result : Type := T + Error.
(* src/inc/error_handler.hpp:97-97 *)
Definition result_ok (r : Result) : bool := match r with inl _ => true | inr _ => false end.
(* src/inc/error_handler.hpp:100-101 *)
Definition value (r : Result) : option T := match r with inl v => Some v | inr _ => None end.
(* src/inc/error_handler.hpp:103-103 *)
Definition error (r : Result) : option Error := match r with inl _ => None | inr e => Some e end.
(* src/inc/error_handler.hpp:105-107 *)
Definition value_or (r : Result) (fallback : T) : T := if result_ok r then default fallback (value r) else fallback.

(** A result is read in exactly one way, and [ok] tells which. *)
Lemma result_read_once (r : Result) fallback :
  (result_ok r = true <-> is_Some (value r)) /\ (result_ok r = false <-> is_Some (error r)) /\
  value_or r fallback = match r with inl v => v | inr _ => fallback end.
Proof. destruct r; cbn; split_and!; try done; split; try done; intros [? [=]] || eauto. Qed.
End Result.

(** [Result<void>] keeps an error whose code may be [kOk]. *)
(* src/inc/error_handler.hpp:114-126 *)
Definition ResultVoid : Type := Error.
Definition result_void : ResultVoid := mk_error kOk [].
(* src/inc/error_handler.hpp:120-120 *)
Definition result_void_ok (r : ResultVoid) : bool := error_ok r.

Definition all_codes : list ErrorCode :=
  [kOk; kIoWouldBlock; kIoClosed; kIoError; kIoTimeout; kFrameOversize; kFrameBadType; kFrameBadReserved; kFrameTruncated;
   kHandshakeFailed; kReplayDetected; kSequenceOutOfWindow; kCryptoInit; kCryptoKeyDerive; kCryptoEncrypt; kCryptoDecrypt;
   kCryptoBadTag; kCryptoRng; kRateLimited; kTooManyConnections; kOutOfMemory; kInvalidArgument; kNotImplemented; kInternal].

Lemma all_codes_complete c : c ∈ all_codes.
Proof. destruct c; apply (bool_decide_unpack _); vm_compute; exact I. Qed.

(** Codes have distinct values and distinct names: a name read in a log determines the code. *)
Lemma codes_distinct c d : code_value c = code_value d \/ code_name c = code_name d -> c = d.
Proof.
  assert (H : forallb (fun c => forallb (fun d => negb ((code_value c =? code_value d) || bool_decide (code_name c = code_name d))
    || bool_decide (c = d)) all_codes) all_codes = true) by (vm_compute; reflexivity).
  rewrite forallb_forall in H. specialize (H c (proj1 (list_elem_of_In _ _) (all_codes_complete c))).
  rewrite forallb_forall in H. specialize (H d (proj1 (list_elem_of_In _ _) (all_codes_complete d))).
  apply orb_prop in H as [H|H%bool_decide_eq_true_1]; [|done]. intros [E|E]; rewrite E in H.
  - by rewrite Z.eqb_refl in H.
  - by rewrite (bool_decide_eq_true_2 _ eq_refl), orb_true_r in H.
Qed.

(** The two templates disagree on an error without a code: it is a failure as the result of a
    value and a success as the result of nothing. *)
Lemma empty_error_disagrees {T : Type} : result_ok (T := T) (inr (mk_error kOk [])) = false /\ result_void_ok (mk_error kOk []) = true.
Proof. done. Qed.
End Errors.

(** ** Scope guards *)

Module Scope.

(** The objects made so far, [None] once destroyed, else the flag [active_]; and how often the
    function has been called. What it throws is swallowed. *)
(* src/inc/scope_guard.hpp:40-42 ScopeGuard *)
Record guards := mk_guards { objs : list (option bool); calls : Z }.

Inductive guard_op := MoveFrom (i : nat) | Dismiss (i : nat) | Destroy (i : nat).

(* src/inc/scope_guard.hpp:19-20 ScopeGuard *)
Definition make_scope_guard : guards := mk_guards [Some true] 0.

(** [None]: the object does not exist any more. *)
(* src/inc/scope_guard.hpp:22-37 ScopeGuard *)
Definition guard_step (g : guards) (o : guard_op) : option guards :=
  match o with
  | MoveFrom i =>
      match objs g !! i with
      | Some (Some a) => Some (mk_guards (<[i := Some false]> (objs g) ++ [Some a]) (calls g))
      | _ => None
      end
  | Dismiss i =>
      match objs g !! i with
      | Some (Some _) => Some (mk_guards (<[i := Some false]> (objs g)) (calls g))
      | _ => None
      end
  | Destroy i =>
      match objs g !! i with
      | Some (Some a) => Some (mk_guards (<[i := None]> (objs g)) (if (a : bool) then calls g + 1 else calls g))
      | _ => None
      end
  end.

Fixpoint guard_run (g : guards) (os : list guard_op) : option guards :=
  match os with [] => Some g | o :: os => match guard_step g o with Some g => guard_run g os | None => None end end.

(** The guards that still have the call to make. *)
Definition armed (l : list (option bool)) : Z := len (filter (fun o : option bool => o = Some true) l).

Lemma armed_app l k : armed (l ++ k) = armed l + armed k.
Proof. unfold armed. by rewrite filter_app, len_app. Qed.

Lemma armed_insert l i a b : l !! i = Some a ->
  armed (<[i := b]> l) = armed l - (if decide (a = Some true) then 1 else 0) + (if decide (b = Some true) then 1 else 0).
Proof.
  intros Hi. rewrite <- (take_drop_middle l i a Hi) at 2. rewrite insert_take_drop by (by eapply lookup_lt_Some).
  rewrite !armed_app. unfold armed. rewrite !filter_cons.
  destruct (decide (a = Some true)), (decide (b = Some true)); rewrite ?len_cons; lia.
Qed.

(** Dismissals of a guard that was armed. *)
Fixpoint disarmed (g : guards) (os : list guard_op) : Z :=
  match os with
  | [] => 0
  | o :: os =>
      (match o with Dismiss i => if decide (objs g !! i = Some (Some true)) then 1 else 0 | _ => 0 end) +
      match guard_step g o with Some g => disarmed g os | None => 0 end
  end.

Lemma guard_account os : forall g g', guard_run g os = Some g' -> calls g' + armed (objs g') + disarmed g os = calls g + armed (objs g).
Proof.
  induction os as [|o os IH]; intros g g'; cbn [guard_run disarmed]; [intros [= <-]; lia|].
  destruct (guard_step g o) as [g1|] eqn:E; [|done]. intros Hr. specialize (IH _ _ Hr).
  enough (calls g1 + armed (objs g1) + (match o with Dismiss i => if decide (objs g !! i = Some (Some true)) then 1 else 0 | _ => 0 end)
    = calls g + armed (objs g)) by lia. clear IH Hr.
  destruct o as [i|i|i]; cbn [guard_step] in E; destruct (objs g !! i) as [[a|]|] eqn:Ei; try done; injection E as <-; cbn [objs calls].
  - rewrite armed_app, (armed_insert _ _ _ _ Ei). destruct a;
      [change (armed [Some true]) with 1|change (armed [Some false]) with 0]; repeat case_decide; simplify_eq; lia.
  - rewrite (armed_insert _ _ _ _ Ei). repeat case_decide; simplify_eq; lia.
  - rewrite (armed_insert _ _ _ _ Ei). destruct a; repeat case_decide; simplify_eq; lia.
Qed.

(** However a guard is moved about, the function runs at most once; and once all objects are gone
    it has run exactly once unless the guard was dismissed while armed. *)
Theorem scope_guard_runs_once (os : list guard_op) (g : guards) :
  guard_run make_scope_guard os = Some g ->
  0 <= calls g <= 1 /\ (Forall (fun o => o = None) (objs g) -> calls g = 1 - disarmed make_scope_guard os).
Proof.
  intros Hr. pose proof (guard_account _ _ _ Hr) as Ha. change (calls make_scope_guard + armed (objs make_scope_guard)) with 1 in Ha.
  assert (Hd : forall os g, 0 <= disarmed g os).
  { clear. induction os as [|o os IH]; intros g; cbn [disarmed]; [done|].
    assert (0 <= match guard_step g o with Some g => disarmed g os | None => 0 end) by (destruct (guard_step g o); [apply IH|done]).
    destruct o; repeat case_decide; lia. }
  assert (Hc : forall os g g', guard_run g os = Some g' -> calls g <= calls g').
  { clear. induction os as [|o os IH]; intros g g'; cbn [guard_run]; [intros [= <-]; lia|].
    destruct (guard_step g o) as [g1|] eqn:E; [|done]. intros Hr%IH. enough (calls g <= calls g1) by lia.
    destruct o as [i|i|i]; cbn [guard_step] in E; destruct (objs g !! i) as [[[]|]|]; try done; injection E as <-; cbn; lia. }
  pose proof (Hd os make_scope_guard). pose proof (Hc _ _ _ Hr) as Hcalls. change (calls make_scope_guard) with 0 in Hcalls.
  assert (0 <= armed (objs g)) by apply len_nonneg. split; [lia|]. intros Hall.
  enough (armed (objs g) = 0) by lia. unfold armed. clear -Hall. induction Hall as [|o l -> _ IH]; [done|]. by rewrite filter_cons, decide_False.
Qed.

Lemma scope_guard_runs_once_witness :
  exists g, guard_run make_scope_guard [MoveFrom 0; Destroy 0; Destroy 1] = Some g /\ calls g = 1.
Proof.
  eexists. split; [reflexivity|].
  apply (proj2 (scope_guard_runs_once [MoveFrom 0; Destroy 0; Destroy 1] _ eq_refl)). repeat constructor.
Defined.
End Scope.

(** ** Loggers *)

Module Log.

(* src/inc/sl_log.h:19-26 *)
Inductive sl_log_level_t := SL_LOG_TRACE | SL_LOG_DEBUG | SL_LOG_INFO | SL_LOG_WARN | SL_LOG_ERROR | SL_LOG_FATAL.

Definition level_int (l : sl_log_level_t) : Z :=
  match l with
  | SL_LOG_TRACE => 0 | SL_LOG_DEBUG => 1 | SL_LOG_INFO => 2 | SL_LOG_WARN => 3 | SL_LOG_ERROR => 4 | SL_LOG_FATAL => 5
  end.

(* src/src/sl_log.c:14-24 *)
Definition level_str (l : sl_log_level_t) : cstring :=
  match l with
  | SL_LOG_TRACE => lit "TRACE"
  | SL_LOG_DEBUG => lit "DEBUG"
  | SL_LOG_INFO => lit "INFO"
  | SL_LOG_WARN => lit "WARN"
  | SL_LOG_ERROR => lit "ERROR"
  | SL_LOG_FATAL => lit "FATAL"
  end.

(** A stream is its number; [STDERR] is stderr. *)
Definition STDERR : Z := 2.

(* src/src/sl_log.c:10-11 *)
Record log_state := mk_log { g_fp : option Z; g_level : Z }.
Definition log_start : log_state := mk_log None 2.

(* src/src/sl_log.c:26-31 *)
Definition sl_log_init (fp : option Z) (level : sl_log_level_t) (s : log_state) : log_state :=
  mk_log (Some (default STDERR fp)) (level_int level).
(* src/src/sl_log.c:33-35 *)
Definition sl_log_set_level (level : Z) (s : log_state) : log_state := mk_log (g_fp s) level.
(* src/src/sl_log.c:37-39 *)
Definition sl_log_get_level (s : log_state) : Z := g_level s.

(** The broken-down time of gmtime_r, with the milliseconds of the clock. *)
Record tm := mk_tm { tm_year : Z; tm_mon : Z; tm_mday : Z; tm_hour : Z; tm_min : Z; tm_sec : Z; tm_ms : Z }.

(* src/src/sl_log.c:41-50 *)
Definition emit_timestamp (t : tm) : cstring :=
  snprintf 40 (dec_pad 4 (tm_year t + 1900) ++ lit "-" ++ dec_pad 2 (tm_mon t + 1) ++ lit "-" ++ dec_pad 2 (tm_mday t) ++ lit "T" ++
    dec_pad 2 (tm_hour t) ++ lit ":" ++ dec_pad 2 (tm_min t) ++ lit ":" ++ dec_pad 2 (tm_sec t) ++ lit "." ++ dec_pad 3 (tm_ms t) ++ lit "Z").

(** The stream written to and the text; [msg] is what the format and its arguments expand to. *)
(* src/src/sl_log.c:52-72 *)
Definition sl_log_emit (s : log_state) (lvl : sl_log_level_t) (module : option cstring) (msg : cstring) (t : tm) : option (Z * cstring) :=
  if level_int lvl <? g_level s then None
  else Some (default STDERR (g_fp s),
    lit "ts=" ++ emit_timestamp t ++ lit " level=" ++ level_str lvl ++ lit " module=" ++ default (lit "-") module ++
    lit " msg=" ++ [34] ++ msg ++ [34; 10]).

(** The time of localtime, as [%H:%M:%S]. *)
Definition clock_text (t : tm) : cstring := dec_pad 2 (tm_hour t) ++ lit ":" ++ dec_pad 2 (tm_min t) ++ lit ":" ++ dec_pad 2 (tm_sec t).

(** To stdout and to stderr. *)
(* src/src/logger.cpp:7-14 *)
Definition log_info (t : tm) (msg : cstring) : cstring := lit "[" ++ clock_text t ++ lit "] INFO  " ++ msg ++ [10].
(* src/src/logger.cpp:16-23 *)
Definition log_error (t : tm) (msg : cstring) : cstring := lit "[" ++ clock_text t ++ lit "] ERROR " ++ msg ++ [10].

(* src/src/session_log.cpp:8-15 *)
Definition now_iso (t : tm) : cstring :=
  dec_pad 4 (tm_year t + 1900) ++ lit "-" ++ dec_pad 2 (tm_mon t + 1) ++ lit "-" ++ dec_pad 2 (tm_mday t) ++ lit " " ++ clock_text t.

(** What goes to stdout, and the file afterwards; [opens] tells whether it can be opened. *)
(* src/src/session_log.cpp:17-29 *)
Definition log_session (t : tm) (opens : bool) (client_ip event detail file : cstring) : cstring * cstring :=
  let line := now_iso t ++ lit " [" ++ client_ip ++ lit "] " ++ event ++ lit ": " ++ detail in
  (line ++ [10], if opens then file ++ line ++ [10] else file).

(** *** One line for each event *)

Definition lines (s : cstring) : Z := len (filter (fun c => c = 10) s).

Lemma lines_app a b : lines (a ++ b) = lines a + lines b.
Proof. unfold lines. by rewrite filter_app, len_app. Qed.

(** Text without a newline. *)
Definition plain (s : cstring) : Prop := Forall (fun c => c <> 10) s.

Lemma lines_plain s : plain s -> lines s = 0.
Proof.
  unfold lines. induction 1 as [|c s Hc _ IH]; [done|]. by rewrite filter_cons, decide_False.
Qed.

Lemma plain_app a b : plain a -> plain b -> plain (a ++ b).
Proof. intros. by apply Forall_app. Qed.

Lemma dec_plain fuel n : 0 <= n -> plain (dec fuel n).
Proof.
  revert n. induction fuel as [|f IH]; intros n Hn; cbn [dec]; [constructor|].
  pose proof (Z.mod_pos_bound n 10 ltac:(lia)). apply plain_app; [|repeat constructor; lia].
  destruct (n <? 10); [constructor|]. apply IH. by apply Z.div_pos.
Qed.

Lemma dec_pad_plain w n : 0 <= n -> plain (dec_pad w n).
Proof. intros Hn. apply plain_app; [|by apply dec_plain]. by apply Forall_replicate. Qed.

Lemma level_plain l : plain (level_str l).
Proof. destruct l; by_deciding. Qed.

Definition tm_ok (t : tm) : Prop :=
  0 <= tm_year t + 1900 /\ 0 <= tm_mon t + 1 /\ 0 <= tm_mday t /\ 0 <= tm_hour t /\ 0 <= tm_min t /\ 0 <= tm_sec t /\ 0 <= tm_ms t.

Create HintDb plain.
#[local] Hint Resolve plain_app dec_pad_plain level_plain : plain.
#[local] Hint Extern 1 (plain (lit _)) => by_deciding : plain.

Lemma timestamp_plain t : tm_ok t -> plain (emit_timestamp t).
Proof.
  intros (? & ? & ? & ? & ? & ? & ?). unfold emit_timestamp, snprintf. apply Forall_take.
  match goal with |- Forall _ ?l => change (plain l) end. auto 30 with plain.
Qed.
#[local] Hint Resolve timestamp_plain : plain.

(** Disabled levels write nothing, and an event whose module and text hold no newline is one
    line, ended by its newline, with the text between quotes. *)
Theorem log_event_lines (s : log_state) (lvl : sl_log_level_t) (module : option cstring) (msg : cstring) (t : tm) :
  tm_ok t -> plain (default [] module) -> plain msg ->
  match sl_log_emit s lvl module msg t with
  | None => level_int lvl < g_level s
  | Some (fp, line) =>
      g_level s <= level_int lvl /\ fp = default STDERR (g_fp s) /\ lines line = 1 /\ last line = Some 10 /\
      exists pre, line = pre ++ [34] ++ msg ++ [34; 10]
  end.
Proof.
  intros Ht Hm Hmsg. unfold sl_log_emit. destruct (Z.ltb_spec (level_int lvl) (g_level s)); [done|].
  assert (Hmod : plain (default (lit "-") module)) by (destruct module; [done|by_deciding]).
  split_and!; [done|done| | |].
  - rewrite !lines_app. change (lines [34; 10]) with 1. rewrite !lines_plain; auto with plain. repeat constructor; lia.
  - rewrite !app_assoc. change [34; 10] with ([34] ++ [10]). by rewrite app_assoc, last_snoc.
  - eexists. by rewrite !app_assoc.
Qed.

Lemma log_event_lines_witness :
  match sl_log_emit log_start SL_LOG_WARN None (lit "low disk") (mk_tm 126 4 8 13 30 11 412) with
  | None => level_int SL_LOG_WARN < 2
  | Some (fp, line) => lines line = 1
  end.
Proof.
  pose proof (log_event_lines log_start SL_LOG_WARN None (lit "low disk") (mk_tm 126 4 8 13 30 11 412)
    ltac:(by vm_compute) ltac:(by constructor) ltac:(by_deciding)) as Hw.
  destruct (sl_log_emit log_start SL_LOG_WARN None _ _) as [[fp line]|]; [apply Hw|exact Hw].
Defined.

(** The text is not escaped: one that holds a quote and a newline adds a line that reads like an
    event of its own. *)
Lemma log_injection :
  let t := mk_tm 126 4 8 13 30 11 412 in
  let forged := lit "x" ++ [34; 10] ++ lit "ts=2026-05-08T13:30:11.412Z level=FATAL module=auth msg=" ++ [34] ++ lit "root" in
  match sl_log_emit log_start SL_LOG_INFO (Some (lit "net")) forged t, sl_log_emit log_start SL_LOG_INFO (Some (lit "net")) (lit "x") t,
        sl_log_emit log_start SL_LOG_FATAL (Some (lit "auth")) (lit "root") t with
  | Some (_, one), Some (_, a), Some (_, b) => one = a ++ b
  | _, _, _ => False
  end.
Proof. vm_compute. reflexivity. Qed.
End Log.

(** ** Signals *)

Module Signals.

Inductive sig := SIGINT | SIGTERM | SIGHUP | SIGUSR1 | SIGUSR2 | SIGPIPE.

#[export] Instance sig_eq_dec : EqDecision sig.
Proof. solve_decision. Defined.

Inductive disposition := Default | Ignored | Caught.

(** The flags, the level of the logger and the dispositions. [frames] are the handlers running,
    the innermost first, with the level each has loaded. *)
(* src/src/sl_signals.c:8-9 *)
Record process := mk_process {
  g_shutdown : bool; g_reload : bool; level : Z; disp : sig -> disposition; frames : list (sig * Z)
}.

Definition process_start : process := mk_process false false 2 (fun _ => Default) [].

(* src/src/sl_signals.c:33-39 *)
Definition install (s : sig) (d : disposition) (p : process) : process :=
  mk_process (g_shutdown p) (g_reload p) (level p) (fun x => if decide (x = s) then d else disp p x) (frames p).

(* src/src/sl_signals.c:41-44 *)
Definition sl_signals_install_shutdown (p : process) : process := install SIGTERM Caught (install SIGINT Caught p).
(* src/src/sl_signals.c:46-48 *)
Definition sl_signals_install_reload (p : process) : process := install SIGHUP Caught p.
(* src/src/sl_signals.c:50-53 *)
Definition sl_signals_install_loglevel (p : process) : process := install SIGUSR2 Caught (install SIGUSR1 Caught p).
(* src/src/sl_signals.c:59-64 *)
Definition sl_signals_block_sigpipe (p : process) : process := install SIGPIPE Ignored p.

(* src/src/sl_signals.c:55-55 *)
Definition sl_signals_shutdown_requested (p : process) : bool := g_shutdown p.
(* src/src/sl_signals.c:56-56 *)
Definition sl_signals_reload_requested (p : process) : bool := g_reload p.
(* src/src/sl_signals.c:57-57 *)
Definition sl_signals_clear_reload (p : process) : process := mk_process (g_shutdown p) false (level p) (disp p) (frames p).

(** A signal arrives: [None] when its default action ends the process. The flag handlers are a
    single store; the handlers of the level load it and store later, in [handler_return]. The
    masks are empty, so that only the signal itself is held back while its handler runs; it is
    delivered by a later event. *)
(* src/src/sl_signals.c:11-31 on_shutdown *)
Definition deliver (s : sig) (p : process) : option process :=
  match disp p s with
  | Default => None
  | Ignored => Some p
  | Caught =>
      if bool_decide (s ∈ (frames p).*1) then Some p
      else Some match s with
           | SIGINT | SIGTERM => mk_process true (g_reload p) (level p) (disp p) (frames p)
           | SIGHUP => mk_process (g_shutdown p) true (level p) (disp p) (frames p)
           | SIGUSR1 | SIGUSR2 => mk_process (g_shutdown p) (g_reload p) (level p) (disp p) ((s, level p) :: frames p)
           | SIGPIPE => p
           end
  end.

(** The innermost handler stores what it computed from the level it loaded. *)
(* src/src/sl_signals.c:21-31 on_verbose *)
Definition handler_return (p : process) : process :=
  match frames p with
  | [] => p
  | (s, cur) :: fs =>
      let l := match s with
               | SIGUSR1 => if 0 <? cur then cur - 1 else level p
               | SIGUSR2 => if cur <? 5 then cur + 1 else level p
               | _ => level p
               end in
      mk_process (g_shutdown p) (g_reload p) l (disp p) fs
  end.

(** What happens to a process: signals, handlers that return, and the main thread, which runs
    when no handler does. *)
Inductive event := Signal (s : sig) | Return | SetLevel (l : Z) | ClearReload.

Definition step (p : process) (e : event) : option process :=
  match e with
  | Signal s => deliver s p
  | Return => Some (handler_return p)
  | SetLevel l => match frames p with [] => Some (mk_process (g_shutdown p) (g_reload p) l (disp p) []) | _ => Some p end
  | ClearReload => match frames p with [] => Some (sl_signals_clear_reload p) | _ => Some p end
  end.

Fixpoint run (p : process) (es : list event) : option process :=
  match es with [] => Some p | e :: es => match step p e with Some p => run p es | None => None end end.

Definition installed (p : process) : process :=
  sl_signals_block_sigpipe (sl_signals_install_loglevel (sl_signals_install_reload (sl_signals_install_shutdown p))).

Definition level_ok (l : Z) : Prop := 0 <= l <= 5.
Definition frames_ok (fs : list (sig * Z)) : Prop := Forall (fun f => level_ok f.2 /\ (f.1 = SIGUSR1 \/ f.1 = SIGUSR2)) fs.
Definition event_ok (e : event) : Prop := match e with SetLevel l => level_ok l | _ => True end.

Definition proc_ok (p : process) : Prop := level_ok (level p) /\ frames_ok (frames p) /\ (forall s, disp p s <> Default).

Lemma proc_step_ok p e : proc_ok p -> event_ok e ->
  exists p', step p e = Some p' /\ proc_ok p' /\ (g_shutdown p = true -> g_shutdown p' = true).
Proof.
  intros (Hl & Hf & Hd) He. destruct e as [s| |l|]; cbn [step].
  - unfold deliver. specialize (Hd s) as Hs. destruct (disp p s) eqn:Ed; [done| |]; [exists p; by split_and!|].
    case_bool_decide; [exists p; by split_and!|]. eexists. split; [done|].
    destruct s; (split; [split_and!|]); try done; cbn [frames level g_shutdown]; constructor; try done; cbn; auto.
  - unfold handler_return. destruct (frames p) as [|[s cur] fs] eqn:Ef; [exists p; unfold proc_ok; by rewrite Ef|].
    apply Forall_cons in Hf as [[Hc Hs] Hf]. cbn [fst snd] in *. eexists. split; [done|]. split; [|done]. split_and!; [|done|done].
    cbn [level]. unfold level_ok in *. destruct Hs as [->| ->];
      [destruct (Z.ltb_spec 0 cur)|destruct (Z.ltb_spec cur 5)]; lia.
  - destruct (frames p) eqn:Ef; eexists; (split; [done|]); (split; [split_and!|]); try done; by rewrite Ef.
  - destruct (frames p) eqn:Ef; eexists; (split; [done|]); (split; [split_and!|]); try done; by rewrite Ef || (cbn; by rewrite Ef).
Qed.

(** With the handlers installed no signal ends the process, in whatever order signals arrive and
    handlers return; the level of the logger stays within its range, and a request to shut down is
    never forgotten. *)
Theorem signals_safe (es : list event) (s : sig) (before : list event) (p : process) :
  Forall event_ok (before ++ es) -> run (installed process_start) before = Some p ->
  exists p', run p es = Some p' /\ 0 <= level p' <= 5 /\
    (sl_signals_shutdown_requested p = true -> sl_signals_shutdown_requested p' = true) /\ is_Some (deliver s p').
Proof.
  intros [Hb He]%Forall_app Hr.
  assert (Hrun : forall es p, proc_ok p -> Forall event_ok es ->
    exists p', run p es = Some p' /\ proc_ok p' /\ (g_shutdown p = true -> g_shutdown p' = true)).
  { clear. induction es as [|e es IH]; intros p Hp He; cbn [run]; [by exists p|]. apply Forall_cons in He as [He Hes].
    destruct (proc_step_ok p e Hp He) as (p1 & -> & Hp1 & Hs1). destruct (IH p1 Hp1 Hes) as (p2 & -> & Hp2 & Hs2). exists p2. auto. }
  assert (H0 : proc_ok (installed process_start)) by (split_and!; [by vm_compute|constructor|intros []; by vm_compute]).
  destruct (Hrun before _ H0 Hb) as (p1 & E1 & Hp1 & _). rewrite Hr in E1. injection E1 as <-.
  destruct (Hrun es p Hp1 He) as (p' & E & Hp' & Hs). exists p'. split_and!; [done|apply Hp'|apply Hp'|done|].
  destruct (proc_step_ok p' (Signal s) Hp' I) as (p2 & E2 & _). by exists p2.
Qed.

Lemma signals_safe_witness :
  exists p', run (installed process_start) [Signal SIGUSR2; Signal SIGUSR1; Return; Signal SIGTERM; Return; Signal SIGPIPE] = Some p' /\
    0 <= level p' <= 5.
Proof.
  destruct (signals_safe [Signal SIGUSR2; Signal SIGUSR1; Return; Signal SIGTERM; Return; Signal SIGPIPE] SIGHUP [] (installed process_start))
    as (p' & E & Hl & _); [repeat constructor|reflexivity|]. exists p'. split; [exact E|exact Hl].
Defined.

(** The two handlers of the level can interleave: louder and quieter, nested, leave the level one
    step off, where one after the other they cancel. *)
Lemma level_update_lost :
  level <$> run (installed process_start) [Signal SIGUSR1; Signal SIGUSR2; Return; Return] = Some 1 /\
  level <$> run (installed process_start) [Signal SIGUSR1; Return; Signal SIGUSR2; Return] = Some 2.
Proof. done. Qed.

(** *** Reloading *)

(** The configuration is read when the main thread acts on a reload; [version] counts the changes
    that signals have announced, [loaded] is the one in use. *)
Record reloader := mk_reloader { proc : process; version : Z; loaded : Z }.

Inductive reload_event := Changed | Act | Clear.

(** A change is announced with SIGHUP. *)
Definition reload_step (r : reloader) (e : reload_event) : reloader :=
  match e with
  | Changed => mk_reloader (default (proc r) (deliver SIGHUP (proc r))) (version r + 1) (loaded r)
  | Act => mk_reloader (proc r) (version r) (version r)
  | Clear => mk_reloader (sl_signals_clear_reload (proc r)) (version r) (loaded r)
  end.

Definition reload_run (r : reloader) (es : list reload_event) : reloader := foldl reload_step r es.

(** Either the newest change is loaded or the flag says that there is one to load. *)
Definition no_lost_reload (r : reloader) : Prop := loaded r = version r \/ sl_signals_reload_requested (proc r) = true.

Definition reload_ok (r : reloader) : Prop := disp (proc r) SIGHUP = Caught /\ frames (proc r) = [] /\ no_lost_reload r.

Lemma changes_kept n : forall r, disp (proc r) SIGHUP = Caught -> frames (proc r) = [] -> (n <> O \/ no_lost_reload r) ->
  reload_ok (reload_run r (replicate n Changed)).
Proof.
  induction n as [|n IH]; intros r Hd Hf Hn; cbn; [split_and!; by destruct Hn|].
  unfold deliver. rewrite Hd, Hf. cbn. apply IH; [done|done|]. right. by right.
Qed.

(** One turn of the main loop that clears the flag and then acts, with changes anywhere. *)
Definition clear_then_act (a b c : nat) : list reload_event :=
  replicate a Changed ++ Clear :: replicate b Changed ++ Act :: replicate c Changed.

(** Clearing the flag first loses no change, wherever the signals fall. *)
Lemma clear_then_act_safe (turns : list (nat * nat * nat)) : forall r, reload_ok r ->
  reload_ok (reload_run r (concat (map (fun t => clear_then_act t.1.1 t.1.2 t.2) turns))).
Proof.
  induction turns as [|[[a b] c] turns IH]; intros r Hr; [done|]. cbn [map concat fst snd]. unfold reload_run in *. rewrite foldl_app. apply IH.
  unfold clear_then_act. rewrite foldl_app. cbn [foldl]. rewrite foldl_app. cbn [foldl]. destruct Hr as (Hd & Hf & Hn).
  destruct (changes_kept a r Hd Hf (or_intror Hn)) as (Hd1 & Hf1 & _). unfold reload_run in *. set (r1 := foldl _ r _) in *.
  set (r2 := reload_step r1 Clear).
  assert (H2 : disp (proc (foldl reload_step r2 (replicate b Changed))) SIGHUP = Caught /\ frames (proc (foldl reload_step r2 (replicate b Changed))) = []).
  { destruct b; [done|]. destruct (changes_kept (S b) r2) as (? & ? & _); [done|done|by left|done]. }
  apply changes_kept; [apply H2|apply H2|]. right. by left.
Qed.

(** Acting first and clearing afterwards, as the header tells the caller to, forgets a change
    announced in between: it is neither loaded nor flagged. *)
Lemma act_then_clear_loses :
  let r := reload_run (mk_reloader (installed process_start) 0 0) [Changed; Act; Changed; Clear] in
  loaded r = 1 /\ version r = 2 /\ sl_signals_reload_requested (proc r) = false.
Proof. done. Qed.
End Signals.

(** ** Detaching *)

Module Daemon.

Definition dev_null : cstring := lit "/dev/null".

(** The open descriptors of a process with the path each leads to. *)
Abbreviation fds := (gmap Z cstring).

(** open returns the lowest descriptor that is free. *)
Fixpoint lowest_free (fuel : nat) (i : Z) (t : fds) : Z :=
  match fuel with O => i | S fuel => if bool_decide (is_Some (t !! i)) then lowest_free fuel (i + 1) t else i end.
Definition open_fd (t : fds) : Z := lowest_free (size t) 0 t.

(** [opens], [dups]: whether open and dup2 succeed. *)
(* src/src/sl_daemonize.c:11-18 *)
Definition redirect_fd (fd : Z) (path : option cstring) (opens dups : bool) (t : fds) : Z * fds :=
  let target := default dev_null path in
  if negb opens then (-1, t)
  else
    let new_fd := open_fd t in
    let t := <[new_fd := target]> t in
    if negb dups then (-1, delete new_fd t)
    else
      let t := <[fd := target]> t in
      (0, if new_fd =? fd then t else delete new_fd t).

(* src/inc/sl_daemonize.h:21-26 *)
Record sl_daemonize_opts_t := mk_opts {
  chdir_to : option cstring; stdout_redirect : option cstring; stderr_redirect : option cstring; close_all_fds : bool
}.

(** What the system calls return. The limit is [None] when getrlimit fails, [Some None] for
    RLIM_INFINITY. *)
Record syscalls := mk_syscalls {
  fork1 : Z; setsid_ok : bool; fork2 : Z; chdir_ok : bool; nofile : option (option Z);
  open_ok : Z -> bool; dup_ok : Z -> bool
}.

(** A process: its descriptors, directory, file mode mask and whether it leads a session. *)
Record daemon := mk_daemon { d_fds : fds; d_cwd : cstring; d_umask : Z; d_leader : bool }.

(** [_exit(0)] of a parent, or the return code and the process. *)
Inductive outcome := Exits | Returns (rc : Z) (d : daemon).

(* src/src/sl_daemonize.c:37-41 sl_daemonize *)
Definition max_fds (limit : option (option Z)) : Z := match limit with Some (Some n) => n | _ => 1024 end.

(* src/src/sl_daemonize.c:42-42 sl_daemonize *)
Definition close_from_3 (max : Z) (t : fds) : fds := filter (fun p : Z * cstring => p.1 < 3 \/ max <= p.1) t.

(* src/src/sl_daemonize.c:20-54 *)
Definition sl_daemonize (opts : option sl_daemonize_opts_t) (sys : syscalls) (d : daemon) : outcome :=
  if fork1 sys <? 0 then Returns (-1) d
  else if 0 <? fork1 sys then Exits
  else if negb (setsid_ok sys) then Returns (-1) d
  else
    let d := mk_daemon (d_fds d) (d_cwd d) (d_umask d) true in
    if fork2 sys <? 0 then Returns (-1) d
    else if 0 <? fork2 sys then Exits
    else
      let cwd := default (lit "/") (opts ≫= chdir_to) in
      let d := mk_daemon (d_fds d) (d_cwd d) 23 false in
      if negb (chdir_ok sys) then Returns (-1) d
      else
        let t := if default false (close_all_fds <$> opts) then close_from_3 (max_fds (nofile sys)) (d_fds d) else d_fds d in
        let '(rc, t) := redirect_fd 0 None (open_ok sys 0) (dup_ok sys 0) t in
        if negb (rc =? 0) then Returns (-1) (mk_daemon t cwd 23 false)
        else
          let '(rc, t) := redirect_fd 1 (opts ≫= stdout_redirect) (open_ok sys 1) (dup_ok sys 1) t in
          if negb (rc =? 0) then Returns (-1) (mk_daemon t cwd 23 false)
          else
            let '(rc, t) := redirect_fd 2 (opts ≫= stderr_redirect) (open_ok sys 2) (dup_ok sys 2) t in
            Returns (if negb (rc =? 0) then -1 else 0) (mk_daemon t cwd 23 false).

(** *** Descriptors *)

Lemma lowest_free_spec fuel : forall (i : Z) (t : fds), (size (filter (fun p : Z * cstring => (i <= p.1)%Z) t) <= fuel)%nat ->
  i <= lowest_free fuel i t /\ t !! lowest_free fuel i t = None /\ (forall j, i <= j < lowest_free fuel i t -> is_Some (t !! j)).
Proof.
  induction fuel as [|fuel IH]; intros i t Hs; cbn [lowest_free].
  - assert (E : filter (fun p : Z * cstring => i <= p.1) t = ∅) by (apply map_size_empty_inv; lia).
    split_and!; [lia| |intros j Hj; lia]. destruct (t !! i) as [x|] eqn:Ei; [|done].
    assert (Hx : filter (fun p : Z * cstring => i <= p.1) t !! i = Some x) by (apply map_lookup_filter_Some; split; [done|cbn; lia]).
    by rewrite E, lookup_empty in Hx.
  - case_bool_decide as Hi; [|split_and!; [lia|by apply eq_None_not_Some|intros; lia]].
    destruct (IH (i + 1) t) as (H1 & H2 & H3).
    { destruct Hi as [x Hx].
      assert (E : filter (fun p : Z * cstring => i <= p.1) t = <[i := x]> (filter (fun p : Z * cstring => i + 1 <= p.1) t)).
      { apply map_eq. intros j. destruct (decide (j = i)) as [->|].
        - rewrite lookup_insert_eq. apply map_lookup_filter_Some. split; [done|cbn; lia].
        - rewrite lookup_insert_ne by done. apply option_eq. intros y. rewrite !map_lookup_filter_Some. cbn. split; intros [? ?]; split; done || lia. }
      rewrite E, map_size_insert_None in Hs; [lia|]. apply map_lookup_filter_None. right. intros y _. cbn. lia. }
    split_and!; [lia|done|]. intros j Hj. destruct (decide (j = i)) as [->|]; [done|]. apply H3. lia.
Qed.

Lemma open_fd_spec (t : fds) : 0 <= open_fd t /\ t !! open_fd t = None /\ (forall j, 0 <= j < open_fd t -> is_Some (t !! j)).
Proof. apply lowest_free_spec. apply map_size_filter. Qed.

(** Redirecting [fd] changes nothing else, and nothing at all when it fails. *)
Lemma redirect_spec fd path opens dups t rc t' :
  redirect_fd fd path opens dups t = (rc, t') ->
  (rc = 0 /\ t' = <[fd := default dev_null path]> t \/ rc = -1 /\ t' = t).
Proof.
  unfold redirect_fd. destruct (open_fd_spec t) as (_ & Hn & _). destruct opens; [|by intros [= <- <-]; right]. cbn [negb].
  destruct dups; cbn [negb]; intros [= <- <-]; [left|right; split; [done|by apply delete_insert_id]]. split; [done|].
  destruct (Z.eqb_spec (open_fd t) fd) as [<-|Hne]; [by rewrite insert_insert_eq|].
  rewrite delete_insert_ne by done. by rewrite delete_insert_id.
Qed.

Definition closes (opts : option sl_daemonize_opts_t) : bool := default false (close_all_fds <$> opts).

(** The daemon has its three standard streams where the options say, works from the directory
    they name, does not lead its session, and has kept exactly the other descriptors it was not
    asked to close. A call that fails leaves no descriptor behind that was not there before. *)
Theorem daemon_descriptors (opts : option sl_daemonize_opts_t) (sys : syscalls) (d d' : daemon) (rc : Z) :
  sl_daemonize opts sys d = Returns rc d' ->
  (rc = 0 \/ rc = -1) /\
  (rc = 0 -> d_fds d' !! 0 = Some dev_null /\ d_fds d' !! 1 = Some (default dev_null (opts ≫= stdout_redirect)) /\
     d_fds d' !! 2 = Some (default dev_null (opts ≫= stderr_redirect)) /\
     d_cwd d' = default (lit "/") (opts ≫= chdir_to) /\ d_umask d' = 23 /\ d_leader d' = false /\
     forall fd, 3 <= fd -> d_fds d' !! fd = if closes opts && (fd <? max_fds (nofile sys)) then None else d_fds d !! fd) /\
  (forall fd, fd < 0 \/ 3 <= fd -> is_Some (d_fds d' !! fd) -> d_fds d' !! fd = d_fds d !! fd).
Proof.
  unfold sl_daemonize. fold (closes opts).
  destruct (fork1 sys <? 0); [intros [= <- <-]; split_and!; auto; done|]. destruct (0 <? fork1 sys); [done|].
  destruct (setsid_ok sys); cbn [negb]; [|intros [= <- <-]; split_and!; auto; done].
  destruct (fork2 sys <? 0); [intros [= <- <-]; split_and!; auto; done|]. destruct (0 <? fork2 sys); [done|].
  destruct (chdir_ok sys); cbn [negb d_fds d_cwd d_umask]; [|intros [= <- <-]; split_and!; auto; done].
  set (t0 := if closes opts then _ else _).
  assert (Ht0 : forall fd, 3 <= fd -> t0 !! fd = if closes opts && (fd <? max_fds (nofile sys)) then None else d_fds d !! fd).
  { intros fd Hfd. unfold t0, close_from_3. destruct (closes opts); [|done]. cbn [andb]. destruct (Z.ltb_spec fd (max_fds (nofile sys))).
    - apply map_lookup_filter_None. right. intros x _. cbn. lia.
    - destruct (d_fds d !! fd) as [x|] eqn:Ex; [apply map_lookup_filter_Some; split; [done|cbn; lia]|].
      apply map_lookup_filter_None. by left. }
  assert (Hsub : forall fd, is_Some (t0 !! fd) -> t0 !! fd = d_fds d !! fd).
  { intros fd [x Hx]. unfold t0, close_from_3 in *. destruct (closes opts); [|done]. rewrite Hx. by apply map_lookup_filter_Some in Hx as [-> _]. }
  clearbody t0.
  destruct (redirect_fd 0 _ _ _ t0) as [r1 t1] eqn:E1. apply redirect_spec in E1 as [[-> ->]|[-> ->]]; cbn [Z.eqb negb];
    [|intros [= <- <-]; split_and!; [by right|done|by intros fd _ ?%Hsub]].
  destruct (redirect_fd 1 _ _ _ _) as [r2 t2] eqn:E2. apply redirect_spec in E2 as [[-> ->]|[-> ->]]; cbn [Z.eqb negb].
  2:{ intros [= <- <-]. split_and!; [by right|done|]. intros fd Hfd. cbn. rewrite lookup_insert_ne by lia. apply Hsub. }
  destruct (redirect_fd 2 _ _ _ _) as [r3 t3] eqn:E3. apply redirect_spec in E3 as [[-> ->]|[-> ->]]; cbn [Z.eqb negb]; intros [= <- <-].
  2:{ split_and!; [by right|done|]. intros fd Hfd. cbn. rewrite !lookup_insert_ne by lia. apply Hsub. }
  cbn [d_fds d_cwd d_umask d_leader]. split_and!; [by left| |intros fd Hfd; rewrite !lookup_insert_ne by lia; apply Hsub].
  intros _. split_and!; try done; [rewrite !lookup_insert_ne by lia; by rewrite lookup_insert_eq|rewrite lookup_insert_ne by lia; by rewrite lookup_insert_eq|
    by rewrite lookup_insert_eq|]. intros fd Hfd. rewrite !lookup_insert_ne by lia. by apply Ht0.
Qed.

Definition sample_sys : syscalls := mk_syscalls 0 true 0 true (Some (Some 256)) (fun _ => true) (fun _ => true).
Definition sample_opts : sl_daemonize_opts_t := mk_opts None (Some (lit "/var/log/out")) None true.

Definition sample_daemon : daemon := mk_daemon {[0 := lit "tty"; 7 := lit "db"; 300 := lit "x"]} (lit "/home") 18 false.
Definition sample_result : daemon :=
  match sl_daemonize (Some sample_opts) sample_sys sample_daemon with Returns _ d => d | Exits => sample_daemon end.

Lemma daemon_descriptors_witness :
  sl_daemonize (Some sample_opts) sample_sys sample_daemon = Returns 0 sample_result /\
  d_fds sample_result !! 7 = None /\ d_fds sample_result !! 300 = Some (lit "x").
Proof.
  assert (E : sl_daemonize (Some sample_opts) sample_sys sample_daemon = Returns 0 sample_result) by (vm_compute; reflexivity).
  destruct (daemon_descriptors (Some sample_opts) sample_sys sample_daemon sample_result 0 E) as (_ & H0 & _).
  destruct (H0 eq_refl) as (_ & _ & _ & _ & _ & _ & Hk). split; [exact E|].
  split; [rewrite (Hk 7 ltac:(lia)); vm_compute; reflexivity|rewrite (Hk 300 ltac:(lia)); vm_compute; reflexivity].
Defined.

(** Without a limit the descriptors from 1024 on stay open, though the option says that all are
    closed. *)
Lemma high_descriptor_kept :
  let sys := mk_syscalls 0 true 0 true (Some None) (fun _ => true) (fun _ => true) in
  match sl_daemonize (Some sample_opts) sys (mk_daemon {[2000 := lit "db"]} (lit "/") 18 false) with
  | Returns rc d' => rc = 0 /\ d_fds d' !! 2000 = Some (lit "db")
  | Exits => False
  end.
Proof. vm_compute. by split. Qed.
End Daemon.

(** ** Socket options *)

Module SocketOptions.

Inductive sockopt := SO_RCVTIMEO (s : Z) | SO_SNDTIMEO (s : Z) | TCP_NODELAY (b : Z) | SO_KEEPALIVE (b : Z)
  | TCP_KEEPIDLE (s : Z) | TCP_KEEPINTVL (s : Z) | TCP_KEEPCNT (n : Z).

(* src/inc/connection.hpp:8-16 *)
Record ConnectionConfig := mk_conn_config {
  recv_timeout_sec : Z; send_timeout_sec : Z; tcp_nodelay : bool; keepalive : bool;
  keepalive_idle : Z; keepalive_interval : Z; keepalive_count : Z
}.
Definition default_config : ConnectionConfig := mk_conn_config 10 10 true true 60 10 3.

(** [sets o]: whether setsockopt takes the option. The options in force are listed in order. *)
(* src/inc/connection.hpp:18-43 *)
Definition apply_socket_options (sets : sockopt -> bool) (cfg : ConnectionConfig) : bool * list sockopt :=
  let try o k := if sets o then let '(r, l) := k in (r, o :: l) else (false, []) in
  try (SO_RCVTIMEO (recv_timeout_sec cfg))
    (try (SO_SNDTIMEO (send_timeout_sec cfg))
       (try (TCP_NODELAY (if tcp_nodelay cfg then 1 else 0))
          (true, if keepalive cfg
                 then base.filter (fun o => sets o = true)
                        [SO_KEEPALIVE 1; TCP_KEEPIDLE (keepalive_idle cfg); TCP_KEEPINTVL (keepalive_interval cfg); TCP_KEEPCNT (keepalive_count cfg)]
                 else []))).

(** The result speaks for the two timeouts and the delay option only: success means that these
    are in force, and keep-alive may be off whatever the configuration asks for. *)
Lemma socket_options_result sets cfg :
  let '(ok, l) := apply_socket_options sets cfg in
  (ok = true <-> sets (SO_RCVTIMEO (recv_timeout_sec cfg)) = true /\ sets (SO_SNDTIMEO (send_timeout_sec cfg)) = true /\
     sets (TCP_NODELAY (if tcp_nodelay cfg then 1 else 0)) = true) /\
  Forall (fun o => sets o = true) l /\
  (ok = true -> keepalive cfg = true -> sets (SO_KEEPALIVE 1) = true -> SO_KEEPALIVE 1 ∈ l).
Proof.
  unfold apply_socket_options. set (k := if keepalive cfg then _ else _).
  assert (Hk : Forall (fun o => sets o = true) k /\ (keepalive cfg = true -> sets (SO_KEEPALIVE 1) = true -> SO_KEEPALIVE 1 ∈ k)).
  { unfold k. destruct (keepalive cfg); [|split; [constructor|done]]. split.
    - apply Forall_forall. intros o Ho. by apply list_elem_of_filter in Ho as [? _].
    - intros _ Hs. apply list_elem_of_filter. split; [done|apply list_elem_of_here]. }
  destruct Hk as [Hk1 Hk2]. clearbody k.
  destruct (sets (SO_RCVTIMEO _)) eqn:E1, (sets (SO_SNDTIMEO _)) eqn:E2, (sets (TCP_NODELAY _)) eqn:E3; split_and!; try done;
    try (split; [done|by intros (? & ? & ?)]); repeat constructor; try done.
  by apply Hk2.
Qed.

Lemma keepalive_silently_off :
  apply_socket_options (fun o => match o with SO_KEEPALIVE _ => false | _ => true end) default_config =
  (true, [SO_RCVTIMEO 10; SO_SNDTIMEO 10; TCP_NODELAY 1; TCP_KEEPIDLE 60; TCP_KEEPINTVL 10; TCP_KEEPCNT 3]).
Proof. reflexivity. Qed.
End SocketOptions.
